(* ===== verification/_CoqProject ===== *)
-Q . S2P
Prelude.v
GoHeap.v
Bytes.v
KvStore.v
Block.v
TimeApi.v
EpochStore.v
Float64.v
IssuerQueue.v
BufferQueue.v
ValidatorQueue.v
Scheduler.v
SchedulerProps.v
Rmc.v
Weight.v
Walker.v
SlotGadget.v
BlockGadget.v
BlockGadgetProps.v
Accounts.v
AccountsLedger.v
AccountsLedgerProps.v
Mana.v
Filters.v
Eviction.v
BlockCache.v
UtxoLedger.v
UtxoRefine.v
UtxoSnapshot.v
UtxoProps.v
UtxoClaims.v
CoreAccount.v
Prunable.v
PrunableProps.v
AccountBytes.v
Attestations.v
AttestationsProps.v
Storage.v
StorageClaims.v
Performance.v
EpochRewards.v
SeatManager.v
SybilProtection.v
SybilClaims.v
Streams.v
Settings.v
Commitments.v
SettingsProps.v
Upgrade.v
UpgradeProps.v
Tangle.v
TangleProps.v
TangleClaims.v
Notarization.v
Clock.v
NotarizationProps.v
ChainManager.v
ChainManagerProps.v
ChainManagerOps.v
ChainManagerClaims.v
TipManager.v
TipManagerProps.v
TipManagerClaims.v
TipSelection.v
StateDiff.v
Mempool.v
MempoolSteps.v
MempoolProps.v
MempoolInv.v
MempoolClaims.v
ConflictSorted.v
ConflictDAG.v
ConflictVotes.v
ConflictAccept.v
Ledger.v
LedgerProps.v
ForkChoice.v
EngineSwitch.v
BlockDispatcher.v
AccountsSnapshot.v
