(* ===== verification/Prelude.v ===== *)
(** * iota-core in Rocq

    A model of the core of the node: the engine under src/pkg/protocol/engine, sybil protection, the chain manager, the protocol that runs
    engines, and the storage, with theorems about them.  Paths below are relative to src/pkg/protocol unless they start with pkg/.

    ** The program

    A block that arrives passes the filters, is attached to the block DAG and becomes solid when its parents are, is booked when its parents
    and its transaction are, and waits in the scheduler until its issuer's share of the rate allows it to be gossiped.  Validation blocks of
    the committee are votes: a block with enough witnesses in its future is accepted, then confirmed.  Accepted blocks are collected per slot;
    when a slot is old enough, notarization commits it: ledger, accounts, attestations, upgrade signals and sybil protection give their roots.
    Votes for commitments finalize slots, which lets the storage prune old epochs.  Transactions go to the mempool, which orders them by their inputs,
    executes them and gives conflicting ones to the conflict DAG; accepted ones are the state diff of a slot that the ledger commits.  The tip manager
    keeps the blocks new blocks may reference.  Commitments of other nodes go to the chain manager, which
    finds forks with more weight; the protocol verifies their attestations, forks an engine that follows them and switches to it.  The block
    dispatcher gives blocks to the engine of their chain and synchronizes slots the node has missed.

    ** Files, by component

    - Prelude, Bytes, Streams, GoHeap, Float64, Walker, KvStore: outcomes of Go code and the monads for it, machine integers, byte
      encodings, snapshot streams, container/heap, container/ring, float64, hive.go's walker and key-value store.
    - Block, TimeApi, BlockCache: engine/blocks (Block with its flags and Update, Blocks with Get, StoreOrUpdate, GetOrCreate, Evict), the API and
      time of slots and epochs.  Eviction: engine/eviction (State, root blocks, Export, Import, Rollback).
    - Tangle, TangleProps, TangleClaims: pkg/core/buffer, engine/blockdag, engine/booker: Attach, solidification, Queue, booking and
      invalidity with the callbacks between block objects.
    - IssuerQueue, BufferQueue, ValidatorQueue, Scheduler, SchedulerProps: engine/congestioncontrol/scheduler/drr.  Rmc: congestioncontrol/rmc.
    - Weight: pkg/core/acceptance, pkg/core/weight.
    - BlockGadget, BlockGadgetProps: consensus/blockgadget (witnesses, pre-acceptance, acceptance, confirmation); SlotGadget: pkg/votes and
      consensus/slotgadget (finalization).
    - Filters: engine/filter and engine/commitmentfilter.
    - Accounts, AccountBytes, AccountsLedger, AccountsLedgerProps, AccountsSnapshot, Mana: engine/accounts, accountsledger, mana and pkg/model account diffs.
    - UtxoLedger, UtxoRefine, UtxoSnapshot, UtxoProps, UtxoClaims: engine/utxoledger.
    - StateDiff, Mempool, MempoolSteps, MempoolProps, MempoolInv, MempoolClaims: engine/mempool/v1 (transactions, states, attachments and their
      signals, state diffs).  ConflictSorted, ConflictDAG, ConflictVotes, ConflictAccept: engine/mempool/conflictdag/conflictdagv1 (sorted sets and
      preferred instead, creating, joining and evicting conflicts, votes, acceptance).
    - Ledger, LedgerProps: engine/ledger/ledger (committing a slot, resolving inputs and accounts), over the accounts ledger.
    - TipManager, TipManagerProps, TipManagerClaims, TipSelection: engine/tipmanager, engine/tipselection.
    - CoreAccount: pkg/core/account.  SeatManager, Performance, EpochRewards, SybilProtection, SybilClaims: sybilprotection.
    - Attestations, AttestationsProps: engine/attestation.  Notarization, NotarizationProps: engine/notarization.  Clock: engine/clock and
      engine/syncmanager.  Upgrade, UpgradeProps: engine/upgrade.
    - EpochStore, Prunable, PrunableProps, Storage, StorageClaims: pkg/storage/prunable, pkg/storage (pruning), pkg/model indexes.
      Settings, Commitments, SettingsProps: pkg/storage/permanent.
    - ChainManager, ChainManagerProps, ChainManagerOps, ChainManagerClaims: chainmanager.
    - ForkChoice: commitment_verifier.go and processFork of protocol_fork.go.  EngineSwitch: the rest of protocol_fork.go and enginemanager (main and
      candidate engines, restart).  BlockDispatcher: block_dispatcher.go, engine/committed_slot_api.go (dispatching, warp sync).
    A struct is a Record with its fields, a method is a Definition of the same name that takes the record; a trailing underscore or a prefix
    avoids clashes.  [X]Props and [X]Claims hold the invariants, the theorems and the examples that evaluate the definitions.

    ** Conventions

    - Errors are [None] (or a constructor of a result type), panics and endless loops the outcomes [Panic] and [OutOfFuel]; methods that
      change state run in [prog] (state, panics), [eprog] (also errors) or [sprog] (error values).
    - Integers are [Z]; where the width matters the conversions [i64], [u64], [u32] or the operations of safemath are written out.
    - Pointers to shared objects are addresses into a heap of the record (ring elements, commitment objects, chains); a block pointer is its ID, as the
      cache keeps one object per ID.
    - shrinkingmap and ds.Set are gmap and gset; the order in which maps are visited is a parameter ([RangeOrder]), so that results that depend on
      it do so in the model.  A typed store is a map from decoded keys to decoded values; where the bytes matter (UTXO ledger, account data,
      snapshots) they are modelled.
    - Times are nanoseconds in [Z]; a clock is read once per call.  IDs are integers, or bytes where they are encoded.
    - Reactive variables and events run their callbacks at once; where they cascade (Tangle, TipManager, Mempool, ConflictDAG) they are an agenda of
      tasks or steps of a relation.
    - Parameters stand for code outside of the repository: safemath, streams, kvstore, the authenticated tree, iota.go's encodings, work scores, time
      and API providers, the LRU caches, the timed queue.  Each is a class of operations; a second class with the suffix Spec has the laws
      theorems need, and an instance shows that the laws can be met.

    ** Fuel

    Loops without a structural bound run on fuel, and the theorems show that it is enough: [ring_fuel] is the number of ring elements plus one,
    [walk_fuel] the initial blocks and all parents of blocks in the cache (each is visited once), the walks of the chain manager get the number
    of commitment objects, [threshold_fuel] of Eviction the distance to the last evicted slot, [rollback_fuel] the number of
    buckets plus three, dropping blocks the excess of the buffer.  Loops over slots and epochs are folds over the list of the indexes.  In Tangle
    the agenda has a measure that every callback decreases ([propagation_ends]), likewise in TipManager ([tip_operations_return]); the walks of the conflict DAG get
    the number of conflicts ([determineVotes_correct]).

    ** What is proved

    - Tangle: solid and booked blocks have solid and booked parents, and nothing is left waiting; the cascade ends.
    - Consensus: acceptance is monotone in the past cone; finalization leaves no gaps; quorums of a super majority intersect.
    - Notarization: commitments form a gap-free chain over exactly the accepted blocks; old slots are committed; a failed commit does not
      extend the chain and leaves at most the roots and the commitment of the next slot behind.  Attestations: a commitment attests exactly the latest valid votes.
    - Scheduler: the deficit round robin picks the issuers it should, deficits stay in bounds, the buffer does not exceed its size.
    - Ledgers: the UTXO ledger refines an abstract ledger, conserves the supply, rollback undoes, snapshots restore, pruning keeps unspent outputs;
      the accounts ledger answers for earlier slots what it did before, but for update times of credits that diffs do not record; snapshots of it restore the accounts of their slot; encodings of accounts round trip.
    - Sybil protection: there is a committee for every slot, and finalizing a slot only panics when an account of its committee is missing; rewards are bounded and claims stay within their pool.
    - Storage: pruning keeps recent history (from the third epoch on) and removes the rest, rollback of the prunable storage is exact; snapshots of settings round trip.
    - Chain manager: solidity follows the links between commitments, and candidates are always processed.
    - Mempool: acceptance follows inclusion and inputs, double spends conflict, the state diff is the net effect of a slot.  Conflict DAG: conflicting
      conflicts are never both accepted, votes are determined correctly, sorted sets stay sorted.  Ledger: an account agrees with the output a slot
      creates for it, and slots leave the other accounts alone.
    - Tips: the tips cover the pools, selections stay within their limits, every operation returns.
    - Forks: attestations are counted once and only with known keys, the decision to switch follows exactly from the slots that were compared; the main engine is
      kept, and a restart finds it, whether the info file can be written or not, unless a timer fires in the middle of a switch or an engine is restored after a failed one; a slot is synchronized once all its blocks are booked and notarized.
    Behaviour of the code that differs from its intent is stated as lemmas next to the theorems (e.g. [stale_latest_commitment] in ChainManagerClaims,
    [prune_epoch_zero_unnoticed] in Clock, [upgrade_rescheduled] in UpgradeProps).

    ** Not modelled

    Networking (pkg/network), the dashboards, APIs and other components of the node (components), and the tools (tools) are input and output around the
    engine; pkg/testsuite and pkg/tests are tests; pkg/jwt and pkg/libp2putil wrap libraries.  The constructors that wire the parts together (engine.New, protocol.New,
    providers and options) only connect what is modelled.  The retainer, the snapshot creator, the block handler of the node and the passthrough
    scheduler store, build or forward what the modelled parts give them.  Mutexes and worker pools are left out, but for the mutex that a failed restore
    leaves locked: handlers are atomic steps (a switch of engines is two), and theorems about reachable states quantify over their orders.  Failures of the storage device are left out, with
    these exceptions: the writes of a commitment (Notarization), the info file and the results of cloning and rolling back storage (EngineSwitch), access to
    pruned slots and epochs, and the errors of the interfaces that a component is given as parameters. *)
From stdpp Require Export base tactics numbers option list sets gmap countable fin_maps.
From Stdlib Require Export ZArith Lia ZifyNat ZifyBool.

#[global] Open Scope Z_scope.

(** ** Outcomes of Go code

    A Go call returns, panics, or (in a loop without an a-priori bound) keeps
    running.  Loops are modelled with fuel; [OutOfFuel] is never a result of
    the program, and theorems that claim a result rule it out. *)
Inductive outcome (A : Type) : Type :=
| Ret (a : A)
| Panic
| OutOfFuel.
Arguments Ret {A} _.
Arguments Panic {A}.
Arguments OutOfFuel {A}.

#[export] Instance outcome_ret : MRet outcome := fun _ a => Ret a.
#[export] Instance outcome_bind : MBind outcome := fun _ _ f m =>
  match m with
  | Ret a => f a
  | Panic => Panic
  | OutOfFuel => OutOfFuel
  end.

(** A nil pointer that is dereferenced panics. *)
Definition deref {A} (o : option A) : outcome A :=
  match o with Some a => Ret a | None => Panic end.

Lemma bind_Ret {A B} (m : outcome A) (f : A -> outcome B) (b : B) :
  m ≫= f = Ret b <-> exists a, m = Ret a /\ f a = Ret b.
Proof. destruct m; cbn; split; intros H; try (destruct H as (? & ? & ?)); simplify_eq; eauto. Qed.

Lemma deref_Ret {A} (o : option A) a : deref o = Ret a <-> o = Some a.
Proof. destruct o; cbn; split; congruence. Qed.

Definition is_none {A} (o : option A) : bool := match o with Some _ => false | None => true end.

(** ** Stateful code

    A method that mutates its receiver is a function from the receiver's state
    to an outcome with the new state.  [read] is the state, [update] an
    assignment, [lift] a computation without effect on the state, and [zoom]
    runs a method of a component on the field that holds it. *)
Definition prog (S A : Type) : Type := S -> outcome (A * S).

#[export] Instance prog_ret {S} : MRet (prog S) := fun _ a s => Ret (a, s).
#[export] Instance prog_bind {S} : MBind (prog S) := fun _ _ f m s =>
  match m s with
  | Ret (a, s') => f a s'
  | Panic => Panic
  | OutOfFuel => OutOfFuel
  end.

Section Prog.
Context {S : Type}.

Definition read {A} (f : S -> A) : prog S A := fun s => Ret (f s, s).
Definition update (f : S -> S) : prog S unit := fun s => Ret (tt, f s).
Definition lift {A} (m : outcome A) : prog S A := fun s => a ← m; Ret (a, s).
Definition zoom {T A} (get : S -> T) (set : T -> S -> S) (m : T -> outcome (A * T)) : prog S A :=
  fun s => '(a, t) ← m (get s); Ret (a, set t s).
Definition when (c : bool) (m : prog S unit) : prog S unit := if c then m else mret tt.

(** [for _, x := range l { body }] *)
Fixpoint for_each {A} (body : A -> prog S unit) (l : list A) : prog S unit :=
  match l with
  | [] => mret tt
  | x :: l => body x ≫= fun _ => for_each body l
  end.

Lemma prog_bind_Ret {A B} (m : prog S A) (f : A -> prog S B) s b s' :
  (m ≫= f) s = Ret (b, s') <-> exists a s1, m s = Ret (a, s1) /\ f a s1 = Ret (b, s').
Proof. unfold mbind, prog_bind. destruct (m s) as [[a s1]| |]; split; intros H; try (destruct H as (? & ? & ? & ?)); simplify_eq; eauto. Qed.

Lemma prog_bind_eq {A B} (m : prog S A) (f : A -> prog S B) s a s1 : m s = Ret (a, s1) -> (m ≫= f) s = f a s1.
Proof. intros H. unfold mbind, prog_bind. by rewrite H. Qed.

(** A loop preserves what its body preserves. *)
Lemma for_each_inv {A} (P : S -> Prop) (body : A -> prog S unit) l s :
  (forall x s, x ∈ l -> P s -> exists s', body x s = Ret (tt, s') /\ P s') ->
  P s -> exists s', for_each body l s = Ret (tt, s') /\ P s'.
Proof.
  revert s. induction l as [|x l IH]; intros s Hb Hs; [by exists s|]. cbn [for_each].
  destruct (Hb x s) as (s1 & H1 & HP1); [set_solver|done|]. rewrite (prog_bind_eq _ _ _ _ _ H1).
  apply IH; [|done]. intros y s2 Hy. apply Hb. set_solver.
Qed.
End Prog.

(** ** Code that returns an error

    [eprog S A] is a method that mutates [S] and returns a value or an error; an
    error ([None]) leaves the state as the method left it. *)
Definition eprog (S A : Type) : Type := S -> outcome (option A * S).

#[export] Instance eprog_ret {S} : MRet (eprog S) := fun _ a s => Ret (Some a, s).
#[export] Instance eprog_bind {S} : MBind (eprog S) := fun _ _ f m s =>
  match m s with
  | Ret (Some a, s') => f a s'
  | Ret (None, s') => Ret (None, s')
  | Panic => Panic
  | OutOfFuel => OutOfFuel
  end.

Section EProg.
Context {S : Type}.

Definition throw {A} : eprog S A := fun s => Ret (None, s).
Definition eread {A} (f : S -> A) : eprog S A := fun s => Ret (Some (f s), s).
Definition eupdate (f : S -> S) : eprog S unit := fun s => Ret (Some tt, f s).
(** [if err != nil { return err }] *)
Definition etry {A} (m : option A) : eprog S A := fun s => Ret (m, s).
Definition elift {A} (m : outcome A) : eprog S A := fun s => a ← m; Ret (Some a, s).
Definition ederef {A} (m : option A) : eprog S A := elift (deref m).

(** A loop with an accumulator that an error ends. *)
Fixpoint efold {A B} (body : A -> B -> eprog S A) (l : list B) (acc : A) : eprog S A :=
  match l with
  | [] => mret acc
  | x :: l => body acc x ≫= efold body l
  end.

Lemma eprog_bind_Ret {A B} (m : eprog S A) (f : A -> eprog S B) s b s' :
  (m ≫= f) s = Ret (Some b, s') <-> exists a s1, m s = Ret (Some a, s1) /\ f a s1 = Ret (Some b, s').
Proof.
  unfold mbind, eprog_bind. destruct (m s) as [[[a|] s1]| |]; split; intros H;
    try (destruct H as (? & ? & ? & ?)); simplify_eq; eauto.
Qed.

Lemma eprog_bind_eq {A B} (m : eprog S A) (f : A -> eprog S B) s a s1 : m s = Ret (Some a, s1) -> (m ≫= f) s = f a s1.
Proof. intros H. unfold mbind, eprog_bind. by rewrite H. Qed.
End EProg.

(** ** Errors the caller distinguishes

    [result E A] is a return value with an error of kind [E]; [sprog S E A] is a
    method that mutates [S] and may fail, keeping what it did before. *)
Inductive result (E A : Type) : Type :=
| Ok (a : A)
| Err (e : E).
Arguments Ok {E A} _.
Arguments Err {E A} _.

#[export] Instance result_ret {E} : MRet (result E) := fun _ a => Ok a.
#[export] Instance result_bind {E} : MBind (result E) := fun _ _ f m =>
  match m with Ok a => f a | Err e => Err e end.

Definition result_of {E A} (e : E) (o : option A) : result E A :=
  match o with Some a => Ok a | None => Err e end.

Lemma result_bind_Ok {E A B} (m : result E A) (f : A -> result E B) b :
  m ≫= f = Ok b <-> exists a, m = Ok a /\ f a = Ok b.
Proof. destruct m; cbn; split; intros H; try (destruct H as (? & ? & ?)); simplify_eq; eauto. Qed.

Definition sprog (S E A : Type) : Type := S -> result E A * S.

#[export] Instance sprog_ret {S E} : MRet (sprog S E) := fun _ a s => (Ok a, s).
#[export] Instance sprog_bind {S E} : MBind (sprog S E) := fun _ _ f m s =>
  match m s with
  | (Ok a, s) => f a s
  | (Err e, s) => (Err e, s)
  end.

Section SProg.
Context {S E : Type}.
Definition s_fail {A} (e : E) : sprog S E A := fun s => (Err e, s).
Definition s_read {A} (f : S -> A) : sprog S E A := fun s => (Ok (f s), s).
Definition s_update (f : S -> S) : sprog S E unit := fun s => (Ok tt, f s).
Definition s_try {A} (f : S -> result E A) : sprog S E A := fun s => (f s, s).

Lemma sprog_bind_Ok {A B} (m : sprog S E A) (f : A -> sprog S E B) s a s1 :
  m s = (Ok a, s1) -> (m ≫= f) s = f a s1.
Proof. intros H. unfold mbind, sprog_bind. by rewrite H. Qed.
Lemma s_read_bind {A B} (g : S -> A) (f : A -> sprog S E B) s : (s_read g ≫= f) s = f (g s) s.
Proof. done. Qed.
End SProg.

(** ** Machine integers

    Go integers are modelled in [Z] at their width: [i64], [u64], [u32] are the
    wrap-around conversions of the language. *)
Inductive int_type := Int64 | Uint64 | Uint32.

#[export] Instance int_type_eq_dec : EqDecision int_type.
Proof. solve_decision. Defined.

Definition ty_min (t : int_type) : Z :=
  match t with Int64 => - 2 ^ 63 | Uint64 => 0 | Uint32 => 0 end.
Definition ty_max (t : int_type) : Z :=
  match t with Int64 => 2 ^ 63 - 1 | Uint64 => 2 ^ 64 - 1 | Uint32 => 2 ^ 32 - 1 end.

Definition in_range (t : int_type) (z : Z) : Prop := ty_min t <= z <= ty_max t.
#[export] Instance in_range_dec t z : Decision (in_range t z).
Proof. unfold in_range. apply _. Defined.

(** Conversion to a type of the given width ([int64(x)], [uint32(x)], ...). *)
Definition wrap (t : int_type) (z : Z) : Z :=
  (z - ty_min t) mod (ty_max t - ty_min t + 1) + ty_min t.
Abbreviation i64 := (wrap Int64).
Abbreviation u64 := (wrap Uint64).
Abbreviation u32 := (wrap Uint32).

Definition MaxInt64 : Z := 2 ^ 63 - 1.

Lemma ty_width_pos t : 0 < ty_max t - ty_min t + 1.
Proof. by destruct t. Qed.

Lemma wrap_id t z : in_range t z -> wrap t z = z.
Proof.
  unfold in_range, wrap. intros Hz. pose proof (ty_width_pos t).
  rewrite Z.mod_small; lia.
Qed.

Lemma wrap_in_range t z : in_range t (wrap t z).
Proof.
  unfold in_range, wrap. pose proof (ty_width_pos t).
  pose proof (Z.mod_pos_bound (z - ty_min t) _ H). lia.
Qed.

Lemma wrap_wrap t z : wrap t (wrap t z) = wrap t z.
Proof. apply wrap_id, wrap_in_range. Qed.

Lemma wrap_eq t a b : (exists k, a = b + k * (ty_max t - ty_min t + 1)) -> wrap t a = wrap t b.
Proof.
  intros [k ->]. unfold wrap. f_equal.
  replace (b + k * (ty_max t - ty_min t + 1) - ty_min t)
    with (b - ty_min t + k * (ty_max t - ty_min t + 1)) by lia.
  apply Z.mod_add. pose proof (ty_width_pos t). lia.
Qed.

Lemma wrap_decomp t z : exists k, wrap t z = z + k * (ty_max t - ty_min t + 1).
Proof.
  exists (- ((z - ty_min t) / (ty_max t - ty_min t + 1))). unfold wrap.
  pose proof (ty_width_pos t).
  rewrite Z.mod_eq by lia. lia.
Qed.

(** ** hive.go's [safemath]

    The package is not part of the repository: its functions are parameters,
    and [SafeMathSpec] states the documented behaviour the code relies on (the
    exact result when it fits the type, an error otherwise). *)
Class SafeMath := {
  SafeAdd : int_type -> Z -> Z -> option Z;
  SafeSub : int_type -> Z -> Z -> option Z;
  SafeMul : int_type -> Z -> Z -> option Z;
  SafeDiv : int_type -> Z -> Z -> option Z;
}.

Definition checked (t : int_type) (z : Z) : option Z :=
  if decide (in_range t z) then Some z else None.

Class SafeMathSpec (SM : SafeMath) : Prop := {
  SafeAdd_spec t x y : in_range t x -> in_range t y -> SafeAdd t x y = checked t (x + y);
  SafeSub_spec t x y : in_range t x -> in_range t y -> SafeSub t x y = checked t (x - y);
  SafeMul_spec t x y : in_range t x -> in_range t y -> SafeMul t x y = checked t (x * y);
  SafeDiv_spec t x y : in_range t x -> in_range t y ->
    SafeDiv t x y = if decide (y = 0) then None else checked t (x `quot` y);
}.

(** A concrete implementation of the interface, used to evaluate the model. *)
#[export] Instance checked_math : SafeMath := {|
  SafeAdd t x y := checked t (x + y);
  SafeSub t x y := checked t (x - y);
  SafeMul t x y := checked t (x * y);
  SafeDiv t x y := if decide (y = 0) then None else checked t (x `quot` y);
|}.
#[export] Instance checked_math_spec : SafeMathSpec checked_math.
Proof. by split. Qed.

Lemma checked_Some t z r : checked t z = Some r <-> in_range t z /\ r = z.
Proof. unfold checked. case_decide; intuition congruence. Qed.
Lemma checked_None t z : checked t z = None <-> ~ in_range t z.
Proof. unfold checked. case_decide; intuition congruence. Qed.

(** ** Sums *)
Fixpoint zsum {A} (f : A -> Z) (l : list A) : Z :=
  match l with [] => 0 | x :: l => f x + zsum f l end.

Section Zsum.
Context {A : Type}.
Implicit Types (f g : A -> Z) (l : list A).

Lemma zsum_app f l1 l2 : zsum f (l1 ++ l2) = zsum f l1 + zsum f l2.
Proof. induction l1; cbn in *; lia. Qed.

Lemma zsum_perm f l1 l2 : l1 ≡ₚ l2 -> zsum f l1 = zsum f l2.
Proof. induction 1; cbn in *; lia. Qed.

Lemma zsum_nonneg f l : Forall (fun x => 0 <= f x) l -> 0 <= zsum f l.
Proof. induction 1; cbn in *; lia. Qed.

Lemma zsum_pos f l : Forall (fun x => 0 <= f x) l -> 0 < zsum f l -> exists x, x ∈ l /\ 0 < f x.
Proof.
  induction 1 as [|x l Hx _ IH]; cbn; [lia|]. intros Hp.
  destruct (decide (0 < f x)); [exists x; split; [set_solver|done]|].
  destruct IH as (y & ? & ?); [lia|]. exists y; split; [set_solver|done].
Qed.

Lemma zsum_one l : zsum (fun _ => 1) l = Z.of_nat (length l).
Proof. induction l; cbn [zsum length] in *; lia. Qed.

Lemma zsum_elem f l x : Forall (fun y => 0 <= f y) l -> x ∈ l -> f x <= zsum f l.
Proof.
  intros Hf (l1 & l2 & ->)%list_elem_of_split. apply Forall_app in Hf as [H1 H2].
  inversion_clear H2. rewrite zsum_app. cbn. pose proof (zsum_nonneg f l1 H1).
  pose proof (zsum_nonneg f l2 H0). lia.
Qed.

Lemma zsum_ext f g l : (forall x, x ∈ l -> f x = g x) -> zsum f l = zsum g l.
Proof. induction l; cbn; intros H; [done|]. rewrite H, IHl; set_solver. Qed.
End Zsum.

Section MapSum.
Context {K V : Type} `{Countable K}.
Implicit Types (m : gmap K V) (f : V -> Z).

(** The sum of [f] over the values of a map. *)
Definition map_sum f m : Z := zsum (fun kv => f kv.2) (map_to_list m).

Lemma map_sum_empty f : map_sum f ∅ = 0.
Proof. unfold map_sum. by rewrite map_to_list_empty. Qed.

Lemma map_sum_insert_None f m k v : m !! k = None -> map_sum f (<[k:=v]> m) = f v + map_sum f m.
Proof.
  intros Hk. unfold map_sum. rewrite (zsum_perm _ _ _ (map_to_list_insert m k v Hk)). done.
Qed.

Lemma map_sum_delete f m k v : m !! k = Some v -> map_sum f (delete k m) = map_sum f m - f v.
Proof.
  intros Hk. rewrite <- (insert_delete_id m k v Hk) at 2.
  rewrite map_sum_insert_None by apply lookup_delete_eq. lia.
Qed.

Lemma map_sum_insert f m k v v0 :
  m !! k = Some v0 -> map_sum f (<[k:=v]> m) = map_sum f m - f v0 + f v.
Proof.
  intros Hk. rewrite <- insert_delete_eq.
  rewrite map_sum_insert_None by apply lookup_delete_eq.
  rewrite (map_sum_delete f m k v0 Hk). lia.
Qed.

Lemma map_sum_nonneg f m : (forall k v, m !! k = Some v -> 0 <= f v) -> 0 <= map_sum f m.
Proof.
  intros Hm. apply zsum_nonneg, Forall_forall. intros [k v] Hin%elem_of_map_to_list. eauto.
Qed.

Lemma map_sum_pos f m :
  (forall k v, m !! k = Some v -> 0 <= f v) -> 0 < map_sum f m -> exists k v, m !! k = Some v /\ 0 < f v.
Proof.
  intros Hm Hp. apply zsum_pos in Hp as ([k v] & Hin & Hv).
  - apply elem_of_map_to_list in Hin. eauto.
  - apply Forall_forall. intros [k v] Hin%elem_of_map_to_list. eauto.
Qed.

Lemma map_sum_size m : map_sum (fun _ => 1) m = Z.of_nat (size m).
Proof. unfold map_sum. rewrite zsum_one. by rewrite length_map_to_list. Qed.
End MapSum.

Lemma size_list_to_set_le {K} `{Countable K} (l : list K) : (size (list_to_set l : gset K) <= length l)%nat.
Proof.
  induction l as [|x l IH]; [by cbn; rewrite size_empty|]. cbn.
  rewrite size_union_alt, size_singleton. assert (Hs : (size (list_to_set l ∖ {[x]} : gset K) <= size (list_to_set l : gset K))%nat) by (apply subseteq_size; set_solver). lia.
Qed.

(** ** Iteration over a Go map

    [ForEach] and [range] visit the entries of a map in an unspecified order.
    The order is a parameter of the model: any function that lists every entry
    exactly once.  [map_to_list] is one such order, used to evaluate. *)
Class RangeOrder (K : Type) `{Countable K} := {
  range_of {V} : gmap K V -> list (K * V);
  range_of_perm {V} (m : gmap K V) : range_of m ≡ₚ map_to_list m;
}.

Definition canonical_order (K : Type) `{Countable K} : RangeOrder K :=
  {| range_of V m := map_to_list m; range_of_perm V m := Permutation_refl _ |}.

Lemma elem_of_range {K V} `{RangeOrder K} (m : gmap K V) k v :
  (k, v) ∈ range_of m <-> m !! k = Some v.
Proof. rewrite (range_of_perm m). apply elem_of_map_to_list. Qed.

(** The members of a set, in such an order. *)
Definition range_set {K} `{RangeOrder K} (X : gset K) : list K := (range_of (gset_to_gmap tt X)).*1.
Lemma elem_of_range_set {K} `{RangeOrder K} (X : gset K) k : k ∈ range_set X <-> k ∈ X.
Proof.
  unfold range_set. rewrite list_elem_of_fmap. split.
  - intros ([k' []] & -> & Hin). apply elem_of_range, lookup_gset_to_gmap_Some in Hin as [? _]. done.
  - intros Hk. exists (k, tt). split; [done|]. apply elem_of_range. by apply lookup_gset_to_gmap_Some.
Qed.

(** ** Automation *)
Create HintDb iota.
#[export] Hint Resolve wrap_in_range : iota.

(** [inv_outcome H] turns an equation [m ≫= f = Ret b] into the results of its parts. *)
Ltac inv_outcome H :=
  repeat lazymatch type of H with
  | mbind _ _ = Ret _ => let a := fresh "a" in let E := fresh "E" in
      apply bind_Ret in H as (a & E & H)
  | Ret _ = Ret _ => injection H as H; subst
  end.

(** Case analysis on the innermost scrutinee of the goal, closing absurd branches. *)
Ltac case_all := repeat (case_match; simplify_eq/=); try done.

(** [lia] with divisions and remainders by constants unfolded into their equations. *)
Ltac div_lia := Zify.zify; Z.to_euclidean_division_equations; lia.
