(* ===== verification/GoHeap.v ===== *)
(** * container/ring and container/heap

    Go's circular doubly linked lists as the scheduler's buffer uses them: a
    store of nodes addressed by pointers, [New(1)], [Next], [Prev] and [Link]
    with the pointer assignments of the standard library in their order.
    [ring_cycle h l] says that the nodes [l], in this order, form a ring. *)
From S2P Require Import Prelude.

Abbreviation ptr := positive.

Record RingNode (V : Type) := mkNode { next : ptr; prev : ptr; Value : V }.
Arguments mkNode {V} _ _ _.
Arguments next {V} _.
Arguments prev {V} _.
Arguments Value {V} _.

Section Ring.
Context {V : Type}.
Abbreviation heap := (gmap ptr (RingNode V)).
Implicit Types (h : heap) (l : list ptr) (a b p r s : ptr) (v : V).

Definition Next h r : outcome ptr := n ← deref (h !! r); Ret (next n).
Definition Prev h r : outcome ptr := n ← deref (h !! r); Ret (prev n).

Definition set_next r p h : heap := alter (fun n => mkNode p (prev n) (Value n)) r h.
Definition set_prev r p h : heap := alter (fun n => mkNode (next n) p (Value n)) r h.
Definition set_value r v h : heap := alter (fun n => mkNode (next n) (prev n) v) r h.

(** [ring.New(1)] at a fresh address, with its value. *)
Definition New p v h : heap := <[p := mkNode p p v]> h.

(** [r.Link(s)] *)
Definition Link h r s : outcome (ptr * heap) :=
  n ← Next h r;
  p ← Prev h s;
  let h := set_next r s h in
  let h := set_prev s r h in
  let h := set_prev n p h in
  let h := set_next p n h in
  Ret (n, h).

(** ** Rings as lists *)
Definition edge h a b : Prop := next <$> h !! a = Some b /\ prev <$> h !! b = Some a.

Fixpoint chain h l : Prop :=
  match l with
  | a :: ((b :: _) as l') => edge h a b /\ chain h l'
  | _ => True
  end.

Definition ring_cycle h l : Prop :=
  NoDup l /\ match l with [] => False | a :: _ => chain h (l ++ [a]) end.

Lemma chain_app h l1 a l2 : chain h (l1 ++ a :: l2) <-> chain h (l1 ++ [a]) /\ chain h (a :: l2).
Proof.
  induction l1 as [|x l1 IH]; cbn [app]; [cbn; tauto|].
  destruct l1 as [|y l1]; cbn [app] in *; cbn [chain] in *; tauto.
Qed.

Lemma chain_two h l a b : chain h (l ++ [a; b]) <-> chain h (l ++ [a]) /\ edge h a b.
Proof. rewrite chain_app. cbn. tauto. Qed.

(** A ring may start at any of its nodes. *)
Lemma ring_cycle_rotate h a l : ring_cycle h (a :: l) -> ring_cycle h (l ++ [a]).
Proof.
  intros [Hnd Hc]. split; [by rewrite Permutation_app_comm|].
  destruct l as [|b l]; cbn [app] in *; [done|].
  change (b :: (l ++ [a]) ++ [b]) with ((b :: l ++ [a]) ++ [b]).
  change (a :: b :: l ++ [a]) with ([a] ++ b :: l ++ [a]) in Hc. apply chain_app in Hc as [H1 H2].
  change ((b :: l ++ [a]) ++ [b]) with (((b :: l) ++ [a]) ++ [b]). rewrite <- app_assoc. cbn [app].
  apply (chain_two h (b :: l) a b). split; [done|]. cbn in H1. tauto.
Qed.

Lemma ring_cycle_rotate_n h l1 l2 : ring_cycle h (l1 ++ l2) -> ring_cycle h (l2 ++ l1).
Proof.
  revert l2. induction l1 as [|a l1 IH]; intros l2; [by rewrite app_nil_r|].
  cbn [app]. intros Hr%ring_cycle_rotate. rewrite <- app_assoc in Hr. apply IH in Hr.
  by rewrite <- app_assoc in Hr.
Qed.

Lemma ring_next h a b l : ring_cycle h (a :: b :: l) -> Next h a = Ret b.
Proof.
  intros [_ Hc]. cbn in Hc. destruct Hc as [[He _] _]. unfold Next.
  destruct (h !! a) as [n|]; cbn in *; congruence.
Qed.

Lemma ring_next_single h a : ring_cycle h [a] -> Next h a = Ret a.
Proof.
  intros [_ Hc]. cbn in Hc. destruct Hc as [[He _] _]. unfold Next.
  destruct (h !! a) as [n|]; cbn in *; congruence.
Qed.

(** [Next] of the head is the head of the rotated ring. *)
Lemma ring_next_head h a l : ring_cycle h (a :: l) -> exists b l', l ++ [a] = b :: l' /\ Next h a = Ret b.
Proof.
  destruct l as [|b l]; intros Hr; eexists _, _; split; try done.
  - by apply ring_next_single.
  - by eapply ring_next.
Qed.

Lemma ring_prev h a l z : ring_cycle h (a :: l ++ [z]) -> Prev h a = Ret z.
Proof.
  intros [_ Hc]. cbn [app] in Hc. rewrite <- app_assoc in Hc. cbn [app] in Hc.
  change (a :: l ++ [z; a]) with ((a :: l) ++ [z; a]) in Hc. apply chain_two in Hc as [_ [_ He]].
  unfold Prev. destruct (h !! a) as [n|]; cbn in *; congruence.
Qed.

Lemma ring_elem h l p : ring_cycle h l -> p ∈ l -> is_Some (h !! p).
Proof.
  intros Hr (l1 & l2 & ->)%list_elem_of_split. apply ring_cycle_rotate_n in Hr. cbn [app] in Hr.
  apply ring_next_head in Hr as (b & l' & _ & Hn). unfold Next in Hn.
  destruct (h !! p); [done|discriminate].
Qed.

(** Edges depend on the links of their two ends only. *)
Lemma chain_ext h h' l :
  (forall p, p ∈ l -> next <$> h' !! p = next <$> h !! p) ->
  (forall p, p ∈ l -> prev <$> h' !! p = prev <$> h !! p) -> chain h l -> chain h' l.
Proof.
  induction l as [|a [|b l] IH]; intros Hn Hp; cbn [chain]; try done. intros [[He1 He2] Hc]. split.
  - split; [rewrite Hn|rewrite Hp]; set_solver.
  - apply IH; set_solver.
Qed.

Lemma ring_cycle_ext h h' l :
  (forall p, p ∈ l -> next <$> h' !! p = next <$> h !! p) ->
  (forall p, p ∈ l -> prev <$> h' !! p = prev <$> h !! p) -> ring_cycle h l -> ring_cycle h' l.
Proof.
  intros Hn Hp [Hnd Hc]. split; [done|]. destruct l as [|a l]; [done|].
  eapply chain_ext; [..|done]; set_solver.
Qed.

Lemma ring_set_value h l p v : ring_cycle h l -> ring_cycle (set_value p v h) l.
Proof.
  apply ring_cycle_ext; intros q _; unfold set_value; rewrite lookup_alter; case_decide; subst; [|done|..];
    try done; by destruct (h !! q).
Qed.

(** ** What the assignments of [Link] change *)
Lemma next_set_next h r s q : is_Some (h !! r) ->
  next <$> set_next r s h !! q = if decide (q = r) then Some s else next <$> h !! q.
Proof. intros [n Hn]. unfold set_next. rewrite lookup_alter. repeat case_decide; subst; try done. by rewrite Hn. Qed.
Lemma prev_set_prev h r s q : is_Some (h !! r) ->
  prev <$> set_prev r s h !! q = if decide (q = r) then Some s else prev <$> h !! q.
Proof. intros [n Hn]. unfold set_prev. rewrite lookup_alter. repeat case_decide; subst; try done. by rewrite Hn. Qed.
Lemma prev_set_next h r s q : prev <$> set_next r s h !! q = prev <$> h !! q.
Proof. unfold set_next. rewrite lookup_alter. case_decide; subst; [|done]. by destruct (h !! q). Qed.
Lemma next_set_prev h r s q : next <$> set_prev r s h !! q = next <$> h !! q.
Proof. unfold set_prev. rewrite lookup_alter. case_decide; subst; [|done]. by destruct (h !! q). Qed.
Lemma Value_set_next h r s q : Value <$> set_next r s h !! q = Value <$> h !! q.
Proof. unfold set_next. rewrite lookup_alter. case_decide; subst; [|done]. by destruct (h !! q). Qed.
Lemma Value_set_prev h r s q : Value <$> set_prev r s h !! q = Value <$> h !! q.
Proof. unfold set_prev. rewrite lookup_alter. case_decide; subst; [|done]. by destruct (h !! q). Qed.
Lemma dom_set_next h r s q : is_Some (set_next r s h !! q) <-> is_Some (h !! q).
Proof. by rewrite <- !(fmap_is_Some Value), Value_set_next. Qed.
Lemma dom_set_prev h r s q : is_Some (set_prev r s h !! q) <-> is_Some (h !! q).
Proof. by rewrite <- !(fmap_is_Some Value), Value_set_prev. Qed.

Lemma Link_spec h r s n p :
  Next h r = Ret n -> Prev h s = Ret p -> is_Some (h !! n) -> is_Some (h !! p) ->
  exists h', Link h r s = Ret (n, h') /\
    (forall q, next <$> h' !! q = if decide (q = p) then Some n else if decide (q = r) then Some s else next <$> h !! q) /\
    (forall q, prev <$> h' !! q = if decide (q = n) then Some p else if decide (q = s) then Some r else prev <$> h !! q) /\
    (forall q, Value <$> h' !! q = Value <$> h !! q).
Proof.
  intros Hn Hp Sn Sp. unfold Link. rewrite Hn, Hp. cbn [mbind outcome_bind].
  assert (is_Some (h !! r)) by (unfold Next in Hn; destruct (h !! r); [done|discriminate]).
  assert (is_Some (h !! s)) by (unfold Prev in Hp; destruct (h !! s); [done|discriminate]).
  eexists; split; [done|]. split_and!; intros q.
  - rewrite next_set_next by (by rewrite !dom_set_prev, dom_set_next). case_decide; [done|].
    rewrite !next_set_prev. by rewrite next_set_next.
  - rewrite prev_set_next, prev_set_prev by (by rewrite dom_set_prev, dom_set_next).
    case_decide; [done|]. rewrite prev_set_prev by (by rewrite dom_set_next). case_decide; [done|].
    by rewrite prev_set_next.
  - by rewrite Value_set_next, !Value_set_prev, Value_set_next.
Qed.

(** Chains by their consecutive pairs. *)
Lemma chain_pairs h l : chain h l <-> forall l1 x y l2, l = l1 ++ x :: y :: l2 -> edge h x y.
Proof.
  split.
  - intros Hc l1 x y l2 ->. apply chain_app in Hc as [_ Hc]. cbn in Hc. tauto.
  - induction l as [|a [|b l] IH]; intros H; cbn [chain]; try done. split.
    + by apply (H [] a b l).
    + apply IH. intros l1 x y l2 Heq. apply (H (a :: l1) x y l2). by rewrite Heq.
Qed.

Lemma ring_chain h l : ring_cycle h l -> chain h l.
Proof.
  intros [_ Hc]. destruct l as [|a l]; [done|]. rewrite chain_pairs in *.
  intros l1 x y l2 E. apply (Hc l1 x y (l2 ++ [a])). rewrite E. by rewrite <- app_assoc.
Qed.

(** A chain survives changes to the links into its first and out of its last node. *)
Lemma chain_frame h h' l :
  NoDup l -> chain h l ->
  (forall x, x ∈ l -> Some x <> last l -> next <$> h' !! x = next <$> h !! x) ->
  (forall y, y ∈ l -> Some y <> head l -> prev <$> h' !! y = prev <$> h !! y) ->
  chain h' l.
Proof.
  rewrite !chain_pairs. intros Hnd Hc Hn Hp l1 x y l2 ->. destruct (Hc l1 x y l2 eq_refl) as [H1 H2].
  apply NoDup_app in Hnd as (_ & Hd & [Hx [Hy _]%NoDup_cons]%NoDup_cons). split.
  - rewrite Hn; [done|set_solver|]. rewrite last_app, !last_cons. destruct (last l2) as [z|] eqn:Hz; [|set_solver].
    apply last_Some in Hz as [? ->]. intros [= ->]. set_solver.
  - rewrite Hp; [done|set_solver|]. destruct l1 as [|w l1]; cbn; [set_solver|].
    intros [= ->]. apply (Hd w); set_solver.
Qed.

Lemma ring_cycle_snoc h a l z : ring_cycle h (a :: l ++ [z]) <->
  NoDup (a :: l ++ [z]) /\ chain h (a :: l ++ [z]) /\ edge h z a.
Proof.
  unfold ring_cycle. cbn [app]. rewrite <- app_assoc. cbn [app].
  change (a :: l ++ [z; a]) with ((a :: l) ++ [z; a]). rewrite chain_two. cbn [app]. tauto.
Qed.

(** ** [p.Link(a)] of a fresh node: it becomes the last node of the ring at [a]. *)
Lemma ring_insert h a l p v : ring_cycle h (a :: l) -> h !! p = None ->
  exists h', Link (New p v h) p a = Ret (p, h') /\ ring_cycle h' (a :: l ++ [p]) /\
    (forall q, Value <$> h' !! q = if decide (q = p) then Some v else Value <$> h !! q).
Proof.
  intros Hr Hp. pose proof Hr as [Hnd _].
  assert (Hne : forall q, q ∈ a :: l -> q <> p).
  { intros q Hq ->. destruct (ring_elem h _ p Hr Hq). congruence. }
  assert (exists z, Prev h a = Ret z /\ last (a :: l) = Some z) as (z & Hz & Hlast).
  { destruct l as [|z l _] using rev_ind.
    - exists a. split; [|done]. destruct Hr as [_ Hc]. cbn in Hc. destruct Hc as [[_ He] _].
      unfold Prev. destruct (h !! a); cbn in *; congruence.
    - exists z. split; [by eapply ring_prev|]. by rewrite last_cons, last_snoc. }
  assert (Hzin : z ∈ a :: l) by (apply last_Some in Hlast as [? ->]; set_solver).
  destruct (Link_spec (New p v h) p a p z) as (h' & HL & HN & HP & HV); unfold New.
  - unfold Next. by rewrite lookup_insert_eq.
  - unfold Prev in *. by rewrite lookup_insert_ne by (symmetry; apply Hne; set_solver).
  - by rewrite lookup_insert_eq.
  - rewrite lookup_insert_ne by (symmetry; by apply Hne). by eapply ring_elem.
  - exists h'. split; [done|]. split.
    + apply ring_cycle_snoc. cbn [app]. split_and!.
      * change (a :: l ++ [p]) with ((a :: l) ++ [p]). apply NoDup_app. split_and!; [done| |apply NoDup_singleton].
        intros q Hq ->%list_elem_of_singleton. by apply (Hne p).
      * apply last_Some in Hlast as [l0 Hl0]. change (a :: l ++ [p]) with ((a :: l) ++ [p]).
        rewrite Hl0, <- app_assoc. cbn [app]. rewrite chain_two. split.
        -- rewrite <- Hl0. eapply (chain_frame h); [done| | |].
           ++ by apply ring_chain.
           ++ intros x Hx Hlx. rewrite HN. rewrite Hl0, last_snoc in Hlx.
              repeat case_decide; subst; try congruence; [by destruct (Hne p)|].
              unfold New. rewrite lookup_insert_ne; [done|]. intros ->. by apply (Hne x).
           ++ intros y Hy Hhy. rewrite HP. cbn in Hhy.
              repeat case_decide; subst; try congruence; [by destruct (Hne p)|].
              unfold New. rewrite lookup_insert_ne; [done|]. intros ->. by apply (Hne y).
        -- split; [rewrite HN|rewrite HP]; by rewrite decide_True.
      * split; [rewrite HN|rewrite HP].
        -- rewrite decide_False by (symmetry; by apply Hne). by rewrite decide_True.
        -- rewrite decide_False by (apply Hne; set_solver). by rewrite decide_True.
    + intros q. rewrite HV. unfold New. rewrite lookup_insert. repeat case_decide; subst; done.
Qed.

Lemma ring_cycle_alt h a l z : last (a :: l) = Some z ->
  ring_cycle h (a :: l) <-> NoDup (a :: l) /\ chain h (a :: l) /\ edge h z a.
Proof.
  destruct l as [|z' l _] using rev_ind; [intros [= <-]; unfold ring_cycle; cbn; tauto|].
  rewrite last_cons, last_snoc. intros [= ->]. apply ring_cycle_snoc.
Qed.

(** ** [a.Prev().Link(b)] for the successor [b] of [a]: [a] leaves the ring. *)
Lemma ring_remove_head h a b l : ring_cycle h (a :: b :: l) ->
  exists z h', Prev h a = Ret z /\ Link h z b = Ret (a, h') /\ ring_cycle h' (b :: l) /\
    (forall q, Value <$> h' !! q = Value <$> h !! q).
Proof.
  intros Hr. pose proof Hr as [Hnd _].
  destruct (last (b :: l)) as [z|] eqn:Hlast; [|by apply last_None in Hlast].
  assert (Hzin : z ∈ b :: l) by (apply last_Some in Hlast as [? ->]; set_solver).
  pose proof Hr as Hr'. rewrite (ring_cycle_alt h a (b :: l) z) in Hr' by (by rewrite last_cons, Hlast).
  destruct Hr' as (_ & Hc & [Hza Haz]). cbn [chain] in Hc. destruct Hc as [[Hab Hba] Hc].
  apply NoDup_cons in Hnd as [Ha Hnd].
  assert (Hsa : is_Some (h !! a)) by (eapply ring_elem; [done|set_solver]).
  destruct (Link_spec h z b a a) as (h' & HL & HN & HP & HV); [..|done|done|].
  - unfold Next. destruct (h !! z); cbn in *; congruence.
  - unfold Prev. destruct (h !! b); cbn in *; congruence.
  - exists z, h'. split; [unfold Prev; destruct (h !! a); cbn in *; congruence|]. split; [done|]. split; [|done].
    apply (ring_cycle_alt h' b l z Hlast). split; [done|]. split.
    + eapply (chain_frame h); [done|by destruct l|..].
      * intros x Hx Hlx. rewrite HN, Hlast in *. repeat case_decide; subst; congruence || done.
      * intros y Hy Hhy. rewrite HP. cbn in Hhy. repeat case_decide; subst; congruence || done.
    + split; [rewrite HN|rewrite HP]; rewrite decide_False by (intros ->; set_solver); by rewrite decide_True.
Qed.
End Ring.

(** * container/heap over a slice

    Go's [container/heap] as the queues of the scheduler use it: the heap is a
    slice ordered by a key (hive.go's [generalheap.Heap] appends on [Push],
    takes the last element on [Pop], and compares the elements' keys, here the
    issuing time).  [up], [down], [Push], [Pop] and [Remove] are the loops of
    the standard library; the theorems are that they keep the heap order and
    the multiset of elements, and that index 0 is a minimum. *)
#[local] Open Scope nat_scope.

Section GoHeap.
Context {A : Type} (key : A -> Z).
Implicit Types (h : list A).

(** [h.Less(i, j)]; an index out of range would panic and is never used. *)
Definition Less (h : list A) (i j : nat) : bool :=
  match h !! i, h !! j with
  | Some x, Some y => (key x <? key y)%Z
  | _, _ => false
  end.

(** [h.Swap(i, j)] *)
Definition Swap (h : list A) (i j : nat) : list A :=
  match h !! i, h !! j with
  | Some x, Some y => <[j := x]> (<[i := y]> h)
  | _, _ => h
  end.

(** [func up(h, j)]: the loop halves [j], so [j] rounds are enough. *)
Fixpoint up (fuel : nat) (h : list A) (j : nat) : list A :=
  let i := (j - 1) / 2 in
  if (i =? j) || negb (Less h j i) then h
  else match fuel with
       | O => h
       | S fuel => up fuel (Swap h i j) i
       end.

(** [func down(h, i0, n)]: returns the slice and the final index. *)
Fixpoint down (fuel : nat) (h : list A) (i n : nat) : list A * nat :=
  let j1 := 2 * i + 1 in
  if n <=? j1 then (h, i)
  else
    let j2 := j1 + 1 in
    let j := if (j2 <? n) && Less h j2 j1 then j2 else j1 in
    if negb (Less h j i) then (h, i)
    else match fuel with
         | O => (h, i)
         | S fuel => down fuel (Swap h i j) j n
         end.

(** [heap.Push(h, x)] *)
Definition Push (h : list A) (x : A) : list A :=
  let h := h ++ [x] in up (length h) h (length h - 1).

(** [h.Pop()] of [generalheap.Heap]: the last element leaves the slice. *)
Definition pop_last (h : list A) : option (A * list A) :=
  match last h with
  | Some x => Some (x, take (length h - 1) h)
  | None => None
  end.

(** [heap.Pop(h)]; the callers never pop an empty heap. *)
Definition Pop (h : list A) : option (A * list A) :=
  let n := length h - 1 in
  pop_last (fst (down n (Swap h 0 n) 0 n)).

(** [heap.Remove(h, i)] *)
Definition Remove (h : list A) (i : nat) : option (A * list A) :=
  let n := length h - 1 in
  if n =? i then pop_last h
  else
    let '(h1, i1) := down n (Swap h i n) i n in
    pop_last (if i <? i1 then h1 else up n h1 i).

(** ** The heap order *)
Definition parent (i : nat) : nat := (i - 1) / 2.

(** Key at an index. *)
Definition kat (h : list A) (i : nat) : Z := from_option key 0%Z (h !! i).

(** The first [n] elements are in heap order. *)
Definition heap_order (h : list A) (n : nat) : Prop :=
  forall i, 0 < i < n -> (kat h (parent i) <= kat h i)%Z.

Lemma Less_kat h i j : i < length h -> j < length h -> Less h i j = (kat h i <? kat h j)%Z.
Proof.
  intros [x Hx]%lookup_lt_is_Some [y Hy]%lookup_lt_is_Some.
  unfold Less, kat. by rewrite Hx, Hy.
Qed.

Lemma length_Swap h i j : length (Swap h i j) = length h.
Proof. unfold Swap. case_all; by rewrite ?length_insert. Qed.

Lemma Swap_perm h i j : Swap h i j ≡ₚ h.
Proof.
  unfold Swap. destruct (h !! i) as [x|] eqn:Hi; [|done].
  destruct (h !! j) as [y|] eqn:Hj; [|done].
  destruct (decide (i = j)) as [->|Hne].
  - simplify_eq. rewrite list_insert_insert_eq. by rewrite list_insert_id.
  - rewrite <- (take_drop_middle h i x Hi) at 2.
    rewrite <- (list_insert_id h i x Hi) in Hj.
    apply Permutation_inj. split; [by rewrite !length_insert, take_drop_middle|].
    exists (fun k => if decide (k = i) then j else if decide (k = j) then i else k). split.
    + intros a b. repeat case_decide; congruence.
    + intros k. rewrite take_drop_middle by done.
      rewrite list_insert_id in Hj by done.
      destruct (decide (k = i)) as [->|]; [|destruct (decide (k = j)) as [->|]].
      * rewrite list_lookup_insert_ne by done.
        rewrite list_lookup_insert_eq; [done|]. by eapply lookup_lt_Some.
      * rewrite list_lookup_insert_eq; [done|].
        rewrite length_insert. by eapply lookup_lt_Some.
      * by rewrite !list_lookup_insert_ne by done.
Qed.

Lemma kat_Swap h i j k : i < length h -> j < length h ->
  kat (Swap h i j) k = if decide (k = i) then kat h j else if decide (k = j) then kat h i else kat h k.
Proof.
  intros Li Lj. destruct (lookup_lt_is_Some_2 _ _ Li) as [x Hx].
  destruct (lookup_lt_is_Some_2 _ _ Lj) as [y Hy]. unfold Swap, kat. rewrite Hx, Hy.
  repeat case_decide; subst.
  - destruct (decide (i = j)) as [->|].
    + rewrite list_lookup_insert_eq by (by rewrite length_insert). cbn. congruence.
    + rewrite list_lookup_insert_ne by done. by rewrite list_lookup_insert_eq.
  - by rewrite list_lookup_insert_eq by (by rewrite length_insert).
  - by rewrite !list_lookup_insert_ne by done.
Qed.

Lemma parent_lt i : 0 < i -> parent i < i.
Proof. unfold parent. div_lia. Qed.
Lemma parent_cases i j : 0 < j -> parent j = i <-> j = 2 * i + 1 \/ j = 2 * i + 2.
Proof. unfold parent. div_lia. Qed.

(** ** [up] *)
Definition up_pre (h : list A) (j n : nat) : Prop :=
  (forall i, 0 < i < n -> i <> j -> (kat h (parent i) <= kat h i)%Z) /\
  (forall i, 0 < i < n -> parent i = j -> 0 < j -> (kat h (parent j) <= kat h i)%Z).

Lemma up_unfold fuel h j : up fuel h j =
  if (parent j =? j) || negb (Less h j (parent j)) then h
  else match fuel with O => h | S fuel => up fuel (Swap h (parent j) j) (parent j) end.
Proof. by destruct fuel. Qed.

Lemma up_perm fuel h j : up fuel h j ≡ₚ h.
Proof.
  revert h j. induction fuel as [|fuel IH]; intros h j; rewrite up_unfold; case_match; try done.
  by rewrite IH, Swap_perm.
Qed.

Lemma up_beyond fuel h j k : j < k -> up fuel h j !! k = h !! k.
Proof.
  revert h j. induction fuel as [|fuel IH]; intros h j Hk; rewrite up_unfold; case_match; try done.
  assert (parent j <= j) by (unfold parent; div_lia).
  rewrite IH by lia. unfold Swap. case_match; [|done]. case_match; [|done].
  by rewrite !list_lookup_insert_ne by lia.
Qed.

(** One swap of [up] moves the violated edge to the parent. *)
Lemma up_pre_step h j n : n <= length h -> 0 < j < n -> (kat h j < kat h (parent j))%Z ->
  up_pre h j n -> up_pre (Swap h (parent j) j) (parent j) n.
Proof.
  intros Hn Hj Hlt [H1 H2]. pose proof (parent_lt j) as Hpj.
  split; intros i Hi; rewrite !kat_Swap by lia.
  - intros Hij. pose proof (H1 i) as Hi1. repeat case_decide; subst; try lia.
    + rewrite H in Hi1. lia.
    + apply H2; lia.
  - intros Hpi Hpos. pose proof (H1 (parent j)). pose proof (H1 i) as Hi1.
    pose proof (parent_lt (parent j)). rewrite Hpi in Hi1.
    repeat case_decide; subst; lia.
Qed.

Lemma up_heap fuel h j n :
  j <= fuel -> n <= length h -> j < n -> up_pre h j n -> heap_order (up fuel h j) n.
Proof.
  revert h j. induction fuel as [|fuel IH]; intros h j Hf Hn Hj Hpre; pose proof Hpre as [H1 _];
    rewrite up_unfold.
  - assert (j = 0) as -> by lia. cbn. intros i Hi. apply H1; lia.
  - pose proof (parent_lt j) as Hpj.
    assert (Hp : parent j < length h) by (unfold parent; div_lia).
    rewrite Less_kat by lia.
    destruct (Nat.eqb_spec (parent j) j) as [Heq|Hne]; cbn [orb].
    { intros i Hi. apply H1; lia. }
    destruct (Z.ltb_spec (kat h j) (kat h (parent j))) as [Hlt|Hge]; cbn [negb].
    + assert (0 < j) by (unfold parent in *; div_lia).
      apply IH; [lia|by rewrite length_Swap|lia|]. by apply up_pre_step.
    + intros i Hi. destruct (decide (i = j)) as [->|]; [done|]. by apply H1.
Qed.

(** ** [down] *)
Definition down_pre (h : list A) (i n : nat) : Prop :=
  (forall k, 0 < k < n -> parent k <> i -> k <> i -> (kat h (parent k) <= kat h k)%Z) /\
  (forall k, 0 < k < n -> parent k = i -> 0 < i -> (kat h (parent i) <= kat h k)%Z).

(** The child [down] compares with: the smaller of the two that exist. *)
Definition min_child (h : list A) (i n : nat) : nat :=
  let j1 := 2 * i + 1 in
  if (j1 + 1 <? n) && Less h (j1 + 1) j1 then j1 + 1 else j1.

Lemma min_child_spec h i n : n <= length h -> 2 * i + 1 < n ->
  let j := min_child h i n in
  0 < j /\ i < j < n /\ parent j = i /\
  forall k, 0 < k < n -> parent k = i -> (kat h j <= kat h k)%Z.
Proof.
  intros Hn Hi. unfold min_child. cbn zeta.
  destruct (Nat.ltb_spec (2 * i + 1 + 1) n) as [Hlt|Hge]; cbn [andb].
  - rewrite Less_kat by lia.
    destruct (Z.ltb_spec (kat h (2 * i + 1 + 1)) (kat h (2 * i + 1)));
      repeat split; try lia; try (unfold parent; div_lia);
      intros k Hk [->| ->]%parent_cases; try lia;
      replace (2 * i + 2) with (2 * i + 1 + 1) by lia; lia.
  - repeat split; try lia; [unfold parent; div_lia|].
    intros k Hk [->| ->]%parent_cases; lia.
Qed.

Lemma down_unfold fuel h i n : down fuel h i n =
  if n <=? 2 * i + 1 then (h, i)
  else if negb (Less h (min_child h i n) i) then (h, i)
  else match fuel with O => (h, i) | S fuel => down fuel (Swap h i (min_child h i n)) (min_child h i n) n end.
Proof. by destruct fuel. Qed.

Lemma down_perm fuel h i n : fst (down fuel h i n) ≡ₚ h.
Proof.
  revert h i. induction fuel as [|fuel IH]; intros h i; rewrite down_unfold; repeat case_match; try done.
  by rewrite IH, Swap_perm.
Qed.

Lemma down_beyond fuel h i n k : n <= length h -> n <= k -> fst (down fuel h i n) !! k = h !! k.
Proof.
  revert h i. induction fuel as [|fuel IH]; intros h i Hn Hk; rewrite down_unfold;
    destruct (Nat.leb_spec n (2 * i + 1)); try done; case_match; try done.
  pose proof (min_child_spec h i n Hn ltac:(lia)) as (_ & Hj & _ & _).
  rewrite IH by (rewrite ?length_Swap; lia). unfold Swap. case_match; [|done]. case_match; [|done].
  by rewrite !list_lookup_insert_ne by lia.
Qed.

(** One swap of [down] moves the violated edges to the chosen child. *)
Lemma down_pre_step h i n : n <= length h -> 2 * i + 1 < n -> down_pre h i n ->
  down_pre (Swap h i (min_child h i n)) (min_child h i n) n.
Proof.
  intros Hn Hi [H1 H2].
  pose proof (min_child_spec h i n Hn Hi) as (Hj0 & Hj & Hpj & Hmin).
  set (j := min_child h i n) in *. clearbody j.
  split; intros k Hk; rewrite !kat_Swap by lia.
  - intros Hpk Hkj. pose proof (parent_lt k).
    repeat case_decide; try congruence; try lia.
    + by apply Hmin.
    + subst k. apply H2; lia.
    + by apply H1.
  - intros Hpk _. pose proof (parent_lt k). rewrite Hpj.
    specialize (H1 k ltac:(lia) ltac:(congruence || lia) ltac:(lia)). rewrite Hpk in H1.
    repeat case_decide; subst; lia.
Qed.

Lemma down_heap fuel h i n :
  n - i <= fuel -> n <= length h -> down_pre h i n ->
  let '(h', i') := down fuel h i n in
  (i' = i /\ h' = h /\ forall k, 0 < k < n -> parent k = i -> (kat h i <= kat h k)%Z) \/
  (i < i' /\ heap_order h' n).
Proof.
  revert h i. induction fuel as [|fuel IH]; intros h i Hf Hn Hpre; rewrite down_unfold;
    destruct (Nat.leb_spec n (2 * i + 1)) as [Hle|Hlt]; try lia; cbv beta iota.
  - left; repeat split; intros k Hk [->| ->]%parent_cases; lia.
  - left; repeat split; intros k Hk [->| ->]%parent_cases; lia.
  - pose proof (min_child_spec h i n Hn Hlt) as (Hj0 & Hj & Hpj & Hmin).
    pose proof (down_pre_step h i n Hn Hlt Hpre) as Hpre'.
    set (j := min_child h i n) in *.
    rewrite Less_kat by lia. destruct (Z.ltb_spec (kat h j) (kat h i)) as [Hl|Hg]; cbn [negb]; cbv beta iota.
    2: { left; repeat split. intros k Hk Hpk. specialize (Hmin k Hk Hpk). lia. }
    specialize (IH (Swap h i j) j ltac:(lia) ltac:(by rewrite length_Swap) Hpre').
    destruct (down fuel (Swap h i j) j n) as [h' i']. right.
    destruct IH as [(-> & -> & Hk)|[Hi' Hh']]; [|split; [lia|done]].
    split; [lia|]. intros k Hkn. destruct (decide (k = j)) as [->|Hkj].
    + rewrite Hpj, !kat_Swap by lia. repeat case_decide; lia.
    + destruct (decide (parent k = j)) as [Hpk|Hpk]; [rewrite Hpk; by apply Hk|].
      by apply Hpre'.
Qed.

(** ** The interface the queues use *)
Definition is_heap (h : list A) : Prop := heap_order h (length h).

Lemma heap_min h i : is_heap h -> i < length h -> (kat h 0 <= kat h i)%Z.
Proof.
  intros Hh. induction i as [i IH] using lt_wf_ind; intros Hi.
  destruct (decide (i = 0)) as [->|]; [lia|].
  pose proof (parent_lt i ltac:(lia)). specialize (IH (parent i) ltac:(lia) ltac:(lia)).
  specialize (Hh i ltac:(lia)). lia.
Qed.

Lemma Push_perm h x : Push h x ≡ₚ x :: h.
Proof. unfold Push. rewrite up_perm. by rewrite Permutation_app_comm. Qed.

Lemma Push_heap h x : is_heap h -> is_heap (Push h x).
Proof.
  intros Hh. unfold is_heap. rewrite (Permutation_length (Push_perm h x)).
  unfold Push. assert (Hl : length (h ++ [x]) = S (length h)) by (rewrite length_app; cbn; lia).
  cbn [length]. rewrite Hl. apply up_heap; try lia.
  replace (S (length h) - 1) with (length h) by lia.
  split; intros i Hi; pose proof (parent_lt i ltac:(lia)).
  - intros Hij. unfold kat. rewrite !lookup_app_l by lia. apply Hh. lia.
  - lia.
Qed.

Lemma kat_take h n i : i < n -> kat (take n h) i = kat h i.
Proof. intros Hi. unfold kat. by rewrite lookup_take_lt. Qed.

Lemma pop_last_spec h n : length h = S n -> heap_order h n ->
  exists x, h !! n = Some x /\ pop_last h = Some (x, take n h) /\
            is_heap (take n h) /\ h ≡ₚ x :: take n h.
Proof.
  intros Hlen Hh. destruct (lookup_lt_is_Some_2 h n) as [x Hx]; [lia|].
  exists x. unfold pop_last. rewrite last_lookup, Hlen. cbn [Nat.pred]. rewrite Hx.
  replace (S n - 1) with n by lia. repeat split; try done.
  - unfold is_heap. rewrite length_take, Nat.min_l by lia. intros i Hi.
    pose proof (parent_lt i ltac:(lia)). rewrite !kat_take by lia. by apply Hh.
  - rewrite <- (take_drop n h) at 1. rewrite (drop_S h x n Hx), drop_ge by lia.
    by rewrite Permutation_app_comm.
Qed.

Lemma Swap_last h i : i < length h -> Swap h i (length h - 1) !! (length h - 1) = h !! i.
Proof.
  intros Hi. destruct (lookup_lt_is_Some_2 _ _ Hi) as [x Hx].
  destruct (lookup_lt_is_Some_2 h (length h - 1)) as [y Hy]; [lia|].
  unfold Swap. rewrite Hx, Hy. rewrite list_lookup_insert_eq; [done|rewrite length_insert; lia].
Qed.

(** Swapping position [i] with the last one leaves the order of the others. *)
Lemma Swap_down_pre h i : is_heap h -> i < length h ->
  down_pre (Swap h i (length h - 1)) i (length h - 1).
Proof.
  intros Hh Hi. split; intros k Hk; pose proof (parent_lt k ltac:(lia)).
  - intros Hpk Hki. rewrite !kat_Swap by lia. repeat case_decide; try lia. apply Hh. lia.
  - intros Hpk Hpos. pose proof (parent_lt i Hpos). rewrite !kat_Swap by lia.
    repeat case_decide; try lia. pose proof (Hh k ltac:(lia)). pose proof (Hh i ltac:(lia)).
    rewrite Hpk in *. lia.
Qed.

Lemma Pop_spec h : is_heap h -> h <> [] ->
  exists x h', h !! 0 = Some x /\ Pop h = Some (x, h') /\ is_heap h' /\ h ≡ₚ x :: h' /\
               forall y, y ∈ h -> (key x <= key y)%Z.
Proof.
  intros Hh Hne. assert (Hlen : 0 < length h) by (destruct h; cbn; [done|lia]).
  destruct (lookup_lt_is_Some_2 h 0 Hlen) as [x Hx].
  pose proof (Swap_down_pre h 0 Hh Hlen) as Hpre.
  pose proof (down_heap (length h - 1) (Swap h 0 (length h - 1)) 0 (length h - 1)) as Hd.
  pose proof (down_perm (length h - 1) (Swap h 0 (length h - 1)) 0 (length h - 1)) as Hp.
  pose proof (down_beyond (length h - 1) (Swap h 0 (length h - 1)) 0 (length h - 1) (length h - 1)) as Hb.
  rewrite length_Swap in *. specialize (Hd ltac:(lia) ltac:(lia) Hpre).
  specialize (Hb ltac:(lia) ltac:(lia)). rewrite Swap_last in Hb by lia.
  unfold Pop. destruct (down _ _ _ _) as [h1 i1]. cbn [fst] in *.
  rewrite Swap_perm in Hp. pose proof (Permutation_length Hp).
  destruct (pop_last_spec h1 (length h - 1)) as (x' & Hx' & -> & Hh' & Hperm); [lia| |].
  { destruct Hd as [(-> & -> & Hk)|[_ ?]]; [|done]. intros k Hk'.
    destruct (decide (parent k = 0)) as [Hpk|]; [rewrite Hpk; by apply Hk|]. apply Hpre; lia. }
  assert (x = x') as <- by congruence.
  exists x, (take (length h - 1) h1). repeat split; try done.
  - by transitivity h1.
  - intros y [i Hy]%list_elem_of_lookup. pose proof (heap_min h i Hh ltac:(by eapply lookup_lt_Some)) as Hm.
    unfold kat in Hm. by rewrite Hx, Hy in Hm.
Qed.

Lemma Remove_spec h i : is_heap h -> i < length h ->
  exists x h', h !! i = Some x /\ Remove h i = Some (x, h') /\ is_heap h' /\ h ≡ₚ x :: h'.
Proof.
  intros Hh Hi. unfold Remove. destruct (Nat.eqb_spec (length h - 1) i) as [<-|Hne].
  { destruct (pop_last_spec h (length h - 1)) as (x & Hx & Hp & ? & ?); [lia| |by eauto 10].
    intros k Hk. apply Hh. lia. }
  pose proof (Swap_down_pre h i Hh Hi) as Hpre.
  pose proof (down_heap (length h - 1) (Swap h i (length h - 1)) i (length h - 1)) as Hd.
  pose proof (down_perm (length h - 1) (Swap h i (length h - 1)) i (length h - 1)) as Hp.
  pose proof (down_beyond (length h - 1) (Swap h i (length h - 1)) i (length h - 1) (length h - 1)) as Hb.
  rewrite length_Swap in *. specialize (Hd ltac:(lia) ltac:(lia) Hpre).
  specialize (Hb ltac:(lia) ltac:(lia)). rewrite Swap_last in Hb by lia.
  destruct (down _ _ _ _) as [h1 i1]. cbn [fst] in *.
  rewrite Swap_perm in Hp. pose proof (Permutation_length Hp) as Hl.
  destruct Hd as [(-> & -> & Hk)|[Hi1 Hh1]].
  2: { rewrite (proj2 (Nat.ltb_lt _ _) Hi1).
       destruct (pop_last_spec h1 (length h - 1)) as (x & Hx & -> & ? & Hperm); [lia|done|].
       exists x, (take (length h - 1) h1). repeat split; try done; [congruence|by transitivity h1]. }
  rewrite Nat.ltb_irrefl. set (h2 := up (length h - 1) (Swap h i (length h - 1)) i).
  assert (Hp2 : h2 ≡ₚ h) by (unfold h2; by rewrite up_perm).
  destruct (pop_last_spec h2 (length h - 1)) as (x & Hx & -> & ? & Hperm).
  - rewrite (Permutation_length Hp2). lia.
  - apply up_heap; rewrite ?length_Swap; try lia. split; [|apply Hpre].
    intros k Hkn Hki. destruct (decide (parent k = i)) as [Hpk|]; [rewrite Hpk; by apply Hk|].
    by apply Hpre.
  - unfold h2 in Hx. rewrite up_beyond, Hb in Hx by lia.
    exists x, (take (length h - 1) h2). repeat split; try done. by transitivity h2.
Qed.
End GoHeap.
