(* ===== verification/Bytes.v ===== *)
(** * Byte encodings

    The little-endian integers of encoding/binary, a reader of bytes that fails
    at the end of its input, the interface of hive.go's marshalutil, and a
    seekable writer (io.WriteSeeker) with the helpers of pkg/utils/ioutils.go. *)
From Stdlib Require Import Strings.Byte.
From stdpp Require Import strings.
From S2P Require Import Prelude.
#[global] Open Scope Z_scope.

Abbreviation bytes := (list Byte.byte).

#[export] Instance byte_eq_dec : EqDecision Byte.byte := Byte.byte_eq_dec.
#[export] Program Instance byte_countable : Countable Byte.byte :=
  inj_countable Byte.to_N Byte.of_N _.
Next Obligation. intros b. apply Byte.of_to_N. Qed.

Definition byte_val (b : Byte.byte) : Z := Z.of_N (Byte.to_N b).
(** [byte(z)] *)
Definition byte_of (z : Z) : Byte.byte := default Byte.x00 (Byte.of_N (Z.to_N (z mod 256))).

Lemma byte_val_bound b : 0 <= byte_val b < 256.
Proof. unfold byte_val. pose proof (Byte.to_N_bounded b). lia. Qed.

Lemma byte_val_of z : byte_val (byte_of z) = z mod 256.
Proof.
  unfold byte_val, byte_of. pose proof (Z.mod_pos_bound z 256 eq_refl).
  destruct (Byte.of_N (Z.to_N (z mod 256))) as [b|] eqn:Hb; cbn.
  - apply Byte.to_of_N in Hb. lia.
  - apply Byte.of_N_None_iff in Hb. lia.
Qed.

Lemma byte_of_val b : byte_of (byte_val b) = b.
Proof.
  unfold byte_of. pose proof (byte_val_bound b). rewrite Z.mod_small by lia.
  unfold byte_val. rewrite N2Z.id, Byte.of_to_N. done.
Qed.

(** ** Little-endian integers *)
Fixpoint put_le (n : nat) (z : Z) : bytes :=
  match n with O => [] | S n => byte_of z :: put_le n (z / 256) end.
Fixpoint get_le (bs : bytes) : Z :=
  match bs with [] => 0 | b :: bs => byte_val b + 256 * get_le bs end.

Lemma length_put_le n z : length (put_le n z) = n.
Proof. revert z. induction n; intros z; cbn; auto. Qed.

Lemma get_put_le n z : get_le (put_le n z) = z mod 256 ^ Z.of_nat n.
Proof.
  revert z. induction n as [|n IH]; intros z; [by rewrite Z.mod_1_r|].
  cbn [put_le get_le]. rewrite IH, byte_val_of, Nat2Z.inj_succ, Z.pow_succ_r by lia.
  rewrite (Z.rem_mul_r z 256 (256 ^ Z.of_nat n)) by lia. done.
Qed.

Lemma get_put_le_id n z : 0 <= z < 256 ^ Z.of_nat n -> get_le (put_le n z) = z.
Proof. intros Hz. rewrite get_put_le. by apply Z.mod_small. Qed.

Lemma get_le_bound bs : 0 <= get_le bs < 256 ^ Z.of_nat (length bs).
Proof.
  induction bs as [|b bs IH]; [done|]. cbn [get_le length].
  rewrite Nat2Z.inj_succ, Z.pow_succ_r by lia. pose proof (byte_val_bound b). lia.
Qed.

Lemma put_get_le bs : put_le (length bs) (get_le bs) = bs.
Proof.
  induction bs as [|b bs IH]; [done|]. cbn [put_le get_le length].
  pose proof (byte_val_bound b) as Hb.
  assert (Hq : (byte_val b + 256 * get_le bs) / 256 = get_le bs) by (Z.to_euclidean_division_equations; lia).
  rewrite Hq, IH. f_equal. rewrite <- (byte_of_val b) at 2. unfold byte_of. do 3 f_equal.
  Z.to_euclidean_division_equations; lia.
Qed.

#[global] Arguments put_le : simpl never.

(** Two's complement reading of an eight-byte value. *)
Definition get_i64 (bs : bytes) : Z := wrap Int64 (get_le bs).

Lemma get_put_i64 z : in_range Int64 z -> get_i64 (put_le 8 z) = z.
Proof.
  intros Hz. unfold get_i64. rewrite get_put_le. cbn [Z.of_nat]. transitivity (wrap Int64 z); [|by apply wrap_id].
  apply wrap_eq. exists (- (z / 256 ^ 8)). rewrite (Z.mod_eq z) by done. cbn. lia.
Qed.

(** ** Readers

    A reader takes bytes from the front of its input; [None] is the error at
    the end of the input (io.EOF, io.ErrUnexpectedEOF) or a malformed value. *)
Definition reader (A : Type) : Type := bytes -> option (A * bytes).

#[export] Instance reader_ret : MRet reader := fun _ a bs => Some (a, bs).
#[export] Instance reader_bind : MBind reader := fun _ _ f p bs =>
  match p bs with Some (a, bs) => f a bs | None => None end.

(** io.ReadFull into an array of [n] bytes; marshalutil's ReadBytes. *)
Definition read_bytes (n : nat) : reader bytes := fun bs =>
  if (n <=? length bs)%nat then Some (take n bs, drop n bs) else None.
(** binary.Read of an unsigned integer of [n] bytes. *)
Definition read_le (n : nat) : reader Z := bs ← read_bytes n; mret (get_le bs).
Definition read_i64 : reader Z := bs ← read_bytes 8; mret (get_i64 bs).
(** binary.Read of a bool: any byte but zero is true. *)
Definition read_bool : reader bool := z ← read_le 1; mret (negb (z =? 0)).
(** The check of a decoded value. *)
Definition read_option {A} (o : option A) : reader A := fun bs => a ← o; Some (a, bs).

(** [for i := 0; i < n; i++] over a reader of one element. *)
Fixpoint read_n {A} (n : nat) (p : reader A) : reader (list A) :=
  match n with
  | O => mret []
  | S n => a ← p; l ← read_n n p; mret (a :: l)
  end.

(** [parses p e a]: the reader [p] consumes exactly [e] and returns [a]. *)
Definition parses {A} (p : reader A) (e : bytes) (a : A) : Prop := forall rest, p (e ++ rest) = Some (a, rest).

Lemma parses_ret {A} (a : A) : parses (mret a) [] a.
Proof. done. Qed.

Lemma parses_bind {A B} (p : reader A) (f : A -> reader B) e1 e2 a b :
  parses p e1 a -> parses (f a) e2 b -> parses (p ≫= f) (e1 ++ e2) b.
Proof. intros H1 H2 rest. unfold mbind, reader_bind. by rewrite <- app_assoc, H1, H2. Qed.

(** A last step that reads nothing. *)
Lemma parses_map {A B} (p : reader A) (f : A -> reader B) e a b :
  parses p e a -> parses (f a) [] b -> parses (p ≫= f) e b.
Proof. intros H1 H2. rewrite <- (app_nil_r e). by eapply parses_bind. Qed.

Lemma parses_bytes n bs : length bs = n -> parses (read_bytes n) bs bs.
Proof.
  intros <- rest. unfold read_bytes. rewrite length_app. case_match eqn:E; [|apply Nat.leb_gt in E; lia].
  by rewrite take_app_length, drop_app_length.
Qed.

Lemma parses_le n z : 0 <= z < 256 ^ Z.of_nat n -> parses (read_le n) (put_le n z) z.
Proof.
  intros Hz. eapply parses_map; [apply parses_bytes, length_put_le|]. rewrite get_put_le_id by done. apply parses_ret.
Qed.

Lemma parses_u32 z : in_range Uint32 z -> parses (read_le 4) (put_le 4 z) z.
Proof. intros Hz. apply parses_le. unfold in_range in Hz. cbn in *. lia. Qed.

Lemma parses_u64 z : in_range Uint64 z -> parses (read_le 8) (put_le 8 z) z.
Proof. intros Hz. apply parses_le. unfold in_range in Hz. cbn in *. lia. Qed.

Lemma parses_i64 z : in_range Int64 z -> parses read_i64 (put_le 8 z) z.
Proof.
  intros Hz. eapply parses_map; [apply parses_bytes, length_put_le|]. rewrite get_put_i64 by done. apply parses_ret.
Qed.

Lemma parses_bool (b : bool) : parses read_bool (put_le 1 (if b then 1 else 0)) b.
Proof. eapply parses_map; [apply parses_le; by destruct b|]. by destruct b. Qed.

Lemma parses_option {A} (a : A) : parses (read_option (Some a)) [] a.
Proof. done. Qed.

Lemma parses_n {A} (p : reader A) (enc : A -> bytes) l :
  Forall (fun a => parses p (enc a) a) l -> parses (read_n (length l) p) (l ≫= enc) l.
Proof.
  induction 1 as [|a l Ha _ IH]; cbn [length read_n]; [apply parses_ret|].
  cbn [mbind list_bind]. eapply parses_bind; [done|]. eapply parses_map; [exact IH|apply parses_ret].
Qed.

(** A reader that consumes an encoding determines the value: encodings of
    different values are different. *)
Lemma parses_inj {A} (p : reader A) e a1 a2 : parses p e a1 -> parses p e a2 -> a1 = a2.
Proof. intros H1 H2. pose proof (H1 []) as E. rewrite H2 in E. by simplify_eq. Qed.

Create HintDb parse.
#[export] Hint Resolve parses_ret parses_bytes parses_u32 parses_u64 parses_i64 parses_bool parses_option : parse.

(** ** hive.go's marshalutil

    The package is not part of the repository: what the code calls is an
    interface, and [MarshalSpec] states its documented encoding. *)
Class MarshalUtil := {
  WriteUint32 : Z -> bytes;
  WriteUint64 : Z -> bytes;
  WriteInt64 : Z -> bytes;
  WriteByte : Z -> bytes;
  WriteBool : bool -> bytes;
  ReadUint32 : reader Z;
  ReadUint64 : reader Z;
  ReadInt64 : reader Z;
  ReadByte : reader Z;
  ReadBytes : nat -> reader bytes;
}.
Class MarshalSpec (MU : MarshalUtil) : Prop := {
  WriteUint32_spec z : WriteUint32 z = put_le 4 z;
  WriteUint64_spec z : WriteUint64 z = put_le 8 z;
  WriteInt64_spec z : WriteInt64 z = put_le 8 z;
  WriteByte_spec z : WriteByte z = put_le 1 z;
  WriteBool_spec b : WriteBool b = put_le 1 (if b then 1 else 0);
  ReadUint32_spec bs : ReadUint32 bs = read_le 4 bs;
  ReadUint64_spec bs : ReadUint64 bs = read_le 8 bs;
  ReadInt64_spec bs : ReadInt64 bs = read_i64 bs;
  ReadByte_spec bs : ReadByte bs = read_le 1 bs;
  ReadBytes_spec n bs : ReadBytes n bs = read_bytes n bs;
}.

#[export] Instance le_marshal : MarshalUtil := {|
  WriteUint32 := put_le 4; WriteUint64 := put_le 8; WriteInt64 := put_le 8; WriteByte := put_le 1;
  WriteBool b := put_le 1 (if b then 1 else 0);
  ReadUint32 := read_le 4; ReadUint64 := read_le 8; ReadInt64 := read_i64; ReadByte := read_le 1; ReadBytes := read_bytes |}.
#[export] Instance le_marshal_spec : MarshalSpec le_marshal.
Proof. by split. Qed.

Section Marshal.
Context `{MarshalSpec}.

Lemma parses_Uint32 z : in_range Uint32 z -> parses ReadUint32 (WriteUint32 z) z.
Proof. intros Hz rest. rewrite ReadUint32_spec, WriteUint32_spec. by apply parses_u32. Qed.
Lemma parses_Uint64 z : in_range Uint64 z -> parses ReadUint64 (WriteUint64 z) z.
Proof. intros Hz rest. rewrite ReadUint64_spec, WriteUint64_spec. by apply parses_u64. Qed.
Lemma parses_Int64 z : in_range Int64 z -> parses ReadInt64 (WriteInt64 z) z.
Proof. intros Hz rest. rewrite ReadInt64_spec, WriteInt64_spec. by apply parses_i64. Qed.
Lemma parses_Int64_le z : in_range Int64 z -> parses read_i64 (WriteInt64 z) z.
Proof. rewrite WriteInt64_spec. apply parses_i64. Qed.
Lemma parses_Byte z : 0 <= z < 256 -> parses ReadByte (WriteByte z) z.
Proof. intros Hz rest. rewrite ReadByte_spec, WriteByte_spec. by apply (parses_le 1). Qed.
Lemma parses_Bytes n bs : length bs = n -> parses (ReadBytes n) bs bs.
Proof. intros Hn rest. rewrite ReadBytes_spec. by apply parses_bytes. Qed.

(** A field written with marshalutil and read with encoding/binary. *)
Lemma parses_Uint32_le z : in_range Uint32 z -> parses (read_le 4) (WriteUint32 z) z.
Proof. rewrite WriteUint32_spec. apply parses_u32. Qed.
Lemma parses_Uint64_le z : in_range Uint64 z -> parses (read_le 8) (WriteUint64 z) z.
Proof. rewrite WriteUint64_spec. apply parses_u64. Qed.
Lemma parses_Byte_le z : 0 <= z < 256 -> parses (read_le 1) (WriteByte z) z.
Proof. rewrite WriteByte_spec. apply (parses_le 1). Qed.
Lemma parses_Bool_le b : parses read_bool (WriteBool b) b.
Proof. rewrite WriteBool_spec. apply parses_bool. Qed.
End Marshal.
#[export] Hint Resolve parses_Uint32 parses_Uint64 parses_Byte parses_Bytes
  parses_Int64 parses_Int64_le parses_Uint32_le parses_Uint64_le parses_Byte_le parses_Bool_le : parse.

(** ** hive.go's stream package: length-prefixed blobs *)
Class Stream := {
  WriteBlob : bytes -> bytes;
  ReadBlob : reader bytes;
}.
Class StreamSpec (SB : Stream) : Prop := {
  WriteBlob_spec bs : WriteBlob bs = put_le 8 (Z.of_nat (length bs)) ++ bs;
  ReadBlob_spec bs : ReadBlob bs = (n ← read_le 8; read_bytes (Z.to_nat n)) bs;
}.
#[export] Instance le_stream : Stream := {|
  WriteBlob bs := put_le 8 (Z.of_nat (length bs)) ++ bs;
  ReadBlob := n ← read_le 8; read_bytes (Z.to_nat n) |}.
#[export] Instance le_stream_spec : StreamSpec le_stream.
Proof. by split. Qed.

Lemma parses_blob `{StreamSpec} bs : in_range Uint64 (Z.of_nat (length bs)) -> parses ReadBlob (put_le 8 (Z.of_nat (length bs)) ++ bs) bs.
Proof.
  intros Hl rest. rewrite ReadBlob_spec. apply parses_bind with (Z.of_nat (length bs)); [by apply parses_u64|]. rewrite Nat2Z.id. by apply parses_bytes.
Qed.

(** [parse_step] reads the next field of a decoder against the encoding. *)
Ltac parse_step := first
  [ apply parses_ret
  | eapply parses_bind; [solve [eauto with parse]|]
  | eapply parses_map; [solve [eauto with parse]|] ].

(** ** io.WriteSeeker

    A file: its contents and the position of the next write.  A write replaces
    the bytes at the position and extends the file past its end.  Failures of the
    device are not modelled; seeking before the start fails. *)
Record WriteSeeker := mkWriter { contents : bytes; position : nat }.

Definition splice (pos : nat) (data bs : bytes) : bytes := take pos bs ++ data ++ drop (pos + length data) bs.

Definition w_write (data : bytes) (w : WriteSeeker) : WriteSeeker :=
  mkWriter (splice (position w) data (contents w)) (position w + length data).
(** [Seek(offset, io.SeekCurrent)] *)
Definition w_seek (offset : Z) (w : WriteSeeker) : option WriteSeeker :=
  let p := Z.of_nat (position w) + offset in
  if p <? 0 then None else Some (mkWriter (contents w) (Z.to_nat p)).
(** [Seek(offset, io.SeekStart)] *)
Definition w_seek_start (offset : Z) (w : WriteSeeker) : option WriteSeeker :=
  if offset <? 0 then None else Some (mkWriter (contents w) (Z.to_nat offset)).

(** [WriteValueFunc] of a value whose binary representation is [data]; [offset] is the counter it increases. *)
Definition WriteValueFunc (data : bytes) (wo : WriteSeeker * Z) : WriteSeeker * Z :=
  (w_write data wo.1, wo.2 + Z.of_nat (length data)).
Definition WriteBytesFunc (data : bytes) (wo : WriteSeeker * Z) : WriteSeeker * Z :=
  (w_write data wo.1, wo.2 + Z.of_nat (length data)).

(** Writing at the end appends. *)
Definition at_end (w : WriteSeeker) : Prop := position w = length (contents w).

Lemma w_write_end data w : at_end w -> w_write data w = mkWriter (contents w ++ data) (length (contents w ++ data)).
Proof.
  unfold at_end, w_write, splice. intros ->. rewrite take_ge, (drop_ge _ (_ + _)), app_nil_r, length_app by lia. done.
Qed.

Lemma at_end_write data w : at_end w -> at_end (w_write data w).
Proof. intros Hw. rewrite w_write_end by done. done. Qed.

(** Overwriting a placeholder of the same length. *)
Lemma w_write_placeholder pre old new post :
  length old = length new ->
  w_write new (mkWriter (pre ++ old ++ post) (length pre)) = mkWriter (pre ++ new ++ post) (length (pre ++ new)).
Proof.
  intros Hl. unfold w_write, splice. cbn [contents position]. rewrite take_app_length, length_app, <- Hl, drop_app_add', drop_app_length by done.
  done.
Qed.

Lemma w_seek_to w offset p : Z.of_nat (position w) + offset = Z.of_nat p -> w_seek offset w = Some (mkWriter (contents w) p).
Proof. intros Hp. unfold w_seek. rewrite Hp. case_match; [lia|]. by rewrite Nat2Z.id. Qed.

Lemma w_seek_start_to w p : w_seek_start (Z.of_nat p) w = Some (mkWriter (contents w) p).
Proof. unfold w_seek_start. case_match; [lia|]. by rewrite Nat2Z.id. Qed.

(** ** PositionedWriter: placeholders that are filled in later *)
Record PositionedWriter := mkPositioned { bookmarks : gmap string Z; writer : WriteSeeker }.

Definition NewPositionedWriter (w : WriteSeeker) : PositionedWriter := mkPositioned ∅ w.

Definition pw_WriteBytes (data : bytes) (p : PositionedWriter) : PositionedWriter :=
  mkPositioned (bookmarks p) (WriteBytesFunc data (writer p, 0)).1.

Definition pw_WriteValue (name : string) (data : bytes) (saveBookmark : bool) (p : PositionedWriter) : PositionedWriter :=
  let b := if saveBookmark then <[name := Z.of_nat (position (writer p))]> (bookmarks p) else bookmarks p in
  mkPositioned b (WriteValueFunc data (writer p, 0)).1.

Definition pw_WriteValueAtBookmark (name : string) (data : bytes) (p : PositionedWriter) : option PositionedWriter :=
  bookmarkPosition ← bookmarks p !! name;
  let originalPosition := Z.of_nat (position (writer p)) in
  if originalPosition <=? bookmarkPosition then None
  else
    w1 ← w_seek_start bookmarkPosition (writer p);
    let w2 := (WriteValueFunc data (w1, 0)).1 in
    w3 ← w_seek_start originalPosition w2;
    Some (mkPositioned (bookmarks p) w3).

(** A placeholder written with a bookmark, followed by [post], is replaced in place
    and the writer continues at the end of the file. *)
Lemma WriteValueAtBookmark_fills name old new pre post bm :
  length old = length new -> (0 < length old)%nat -> bm !! name = Some (Z.of_nat (length pre)) ->
  pw_WriteValueAtBookmark name new (mkPositioned bm (mkWriter (pre ++ old ++ post) (length (pre ++ old ++ post))))
  = Some (mkPositioned bm (mkWriter (pre ++ new ++ post) (length (pre ++ new ++ post)))).
Proof.
  intros Hl Hpos Hb. unfold pw_WriteValueAtBookmark. cbn [bookmarks writer position]. rewrite Hb. cbn [mbind option_bind].
  rewrite !length_app. case_match eqn:E; [apply Z.leb_le in E; lia|].
  rewrite w_seek_start_to. cbn [mbind option_bind contents]. unfold WriteValueFunc. cbn [fst].
  rewrite (w_write_placeholder pre old new post Hl), w_seek_start_to. cbn. by rewrite Hl.
Qed.
