(* ===== verification/KvStore.v ===== *)
(** * The interface of the key-value store

    The code stores its state in a hive.go kvstore.KVStore, which is not part of
    the repository: the operations are an interface, [KVStoreSpec] states the
    documented behaviour the code relies on.  Failures of the storage device are not
    modelled; a missing key is.  Clients are proved against the interface; the
    finite map is one implementation, used to evaluate them. *)
From Stdlib Require Import Strings.Byte.
From stdpp Require Export sorting.
From S2P Require Import Prelude Bytes.
#[global] Open Scope Z_scope.

(** A batched mutation: [Set(key, value)] or [Delete(key)]. *)
Definition mutation : Type := bytes * option bytes.
Definition m_set (k v : bytes) : mutation := (k, Some v).
Definition m_delete (k : bytes) : mutation := (k, None).

(** What a batch leaves at a key: its last mutation of the key wins. *)
Definition last_of (k : bytes) (ms : list mutation) (old : option bytes) : option bytes :=
  foldl (fun acc m => if decide (m.1 = k) then m.2 else acc) old ms.

Class KVStore (S : Type) := {
  kv_get : S -> bytes -> option bytes;
  kv_set : bytes -> bytes -> S -> S;
  kv_commit : list mutation -> S -> S;
  kv_iterate : bytes -> S -> list (bytes * bytes);   (* the entries under a prefix, in the store's order *)
  kv_clear : S -> S;
  kv_delete_prefix : bytes -> S -> S;
}.
Class KVStoreSpec (S : Type) `{KVStore S} : Prop := {
  kv_get_set k v s k' : kv_get (kv_set k v s) k' = if decide (k = k') then Some v else kv_get s k';
  kv_get_commit ms s k : kv_get (kv_commit ms s) k = last_of k ms (kv_get s k);
  kv_get_clear s k : kv_get (kv_clear s) k = None;
  kv_get_delete_prefix p s k : kv_get (kv_delete_prefix p s) k = if decide (p `prefix_of` k) then None else kv_get s k;
  kv_iterate_keys p s : NoDup (kv_iterate p s).*1;
  kv_iterate_elem p s k v : (k, v) ∈ kv_iterate p s <-> p `prefix_of` k /\ kv_get s k = Some v;
}.

(** ** Batches *)
Section Batches.
Implicit Types (ms : list mutation) (old : option bytes).

Lemma last_of_app k ms1 ms2 old : last_of k (ms1 ++ ms2) old = last_of k ms2 (last_of k ms1 old).
Proof. apply foldl_app. Qed.

Lemma last_of_cons k m ms old : last_of k (m :: ms) old = last_of k ms (if decide (m.1 = k) then m.2 else old).
Proof. done. Qed.

Lemma last_of_other k ms old : (forall m, m ∈ ms -> m.1 <> k) -> last_of k ms old = old.
Proof.
  induction ms as [|m ms IH] in old |- *; intros Hm; [done|]. rewrite last_of_cons, decide_False by (apply Hm; set_solver).
  apply IH. set_solver.
Qed.

(** A batch that is the concatenation of one batch per element. *)
Lemma last_of_bind {A} k (f : A -> list mutation) (l : list A) old :
  last_of k (l ≫= f) old = foldl (fun acc a => last_of k (f a) acc) old l.
Proof. induction l as [|a l IH] in old |- *; [done|]. cbn [mbind list_bind foldl]. by rewrite last_of_app, IH. Qed.

Lemma foldl_const {A B} (f : B -> A -> B) (l : list A) b : (forall b a, a ∈ l -> f b a = b) -> foldl f b l = b.
Proof. induction l as [|a l IH] in b |- *; intros Hf; [done|]. cbn. rewrite Hf by set_solver. apply IH. set_solver. Qed.
End Batches.

(** ** The finite map as a store *)
#[export] Instance map_store : KVStore (gmap bytes bytes) := {|
  kv_get s k := s !! k;
  kv_set k v s := <[k := v]> s;
  kv_commit ms s := foldl (fun s m => partial_alter (fun _ => m.2) m.1 s) s ms;
  kv_iterate p s := filter (fun kv => p `prefix_of` kv.1) (map_to_list s);
  kv_clear _ := ∅;
  kv_delete_prefix p s := filter (fun kv => ~ p `prefix_of` kv.1) s;
|}.
#[export] Instance map_store_spec : KVStoreSpec (gmap bytes bytes).
Proof.
  split; cbn.
  - intros k v s k'. rewrite lookup_insert. case_decide; [subst|]; done.
  - intros ms s k. unfold last_of. induction ms as [|m ms IH] in s |- *; [done|]. cbn. rewrite IH, lookup_partial_alter.
    by case_decide.
  - intros s k. apply lookup_empty.
  - intros p s k. rewrite map_lookup_filter. destruct (s !! k) as [v|]; cbn; repeat case_guard; repeat case_decide; done.
  - intros p s. pose proof (NoDup_fst_map_to_list s) as Hn. induction (map_to_list s) as [|[k v] l IH]; [constructor|].
    inversion_clear Hn as [|?? Hk Hl]. rewrite filter_cons. case_decide; [|by apply IH]. cbn. constructor; [|by apply IH].
    intros ([k' v'] & ? & [_ Hin]%list_elem_of_filter)%list_elem_of_fmap. simplify_eq/=. apply Hk, list_elem_of_fmap. by eexists (_, _).
  - intros p s k v. rewrite list_elem_of_filter, elem_of_map_to_list. done.
Qed.

(** ** Stores with the same contents *)
Section Equivalence.
Context {S : Type} `{KVStoreSpec S}.

#[global] Instance store_equiv : Equiv S := fun s1 s2 => forall k, kv_get s1 k = kv_get s2 k.
#[global] Instance store_equivalence : Equivalence (≡@{S}).
Proof. split; [intros s k|intros s1 s2 Hs k|intros s1 s2 s3 H1 H2 k]; [done|by rewrite Hs|by rewrite H1]. Qed.
#[global] Instance kv_get_proper : Proper ((≡) ==> (=) ==> (=)) (kv_get (S:=S)).
Proof. intros s1 s2 Hs k ? <-. apply Hs. Qed.
#[global] Instance kv_commit_proper : Proper ((=) ==> (≡) ==> (≡)) (kv_commit (S:=S)).
Proof. intros ms ? <- s1 s2 Hs k. by rewrite !kv_get_commit, Hs. Qed.
#[global] Instance kv_set_proper : Proper ((=) ==> (=) ==> (≡) ==> (≡)) (kv_set (S:=S)).
Proof. intros k ? <- v ? <- s1 s2 Hs k'. rewrite !kv_get_set. case_decide; [done|apply Hs]. Qed.

Lemma kv_iterate_perm p s1 s2 : s1 ≡ s2 -> kv_iterate p s1 ≡ₚ kv_iterate p s2.
Proof.
  intros Hs. apply NoDup_Permutation.
  - eapply NoDup_fmap_1, kv_iterate_keys.
  - eapply NoDup_fmap_1, kv_iterate_keys.
  - intros [k v]. rewrite !kv_iterate_elem. by rewrite Hs.
Qed.
End Equivalence.

(** ** bytes.Compare *)
Fixpoint bytes_leb (a b : bytes) : bool :=
  match a, b with
  | [], _ => true
  | _ :: _, [] => false
  | x :: a, y :: b => (byte_val x <? byte_val y) || ((byte_val x =? byte_val y) && bytes_leb a b)
  end.
Definition bytes_le (a b : bytes) : Prop := bytes_leb a b = true.
#[export] Instance bytes_le_dec a b : Decision (bytes_le a b).
Proof. unfold bytes_le. apply _. Defined.

Lemma byte_val_inj x y : byte_val x = byte_val y -> x = y.
Proof. intros E. by rewrite <- (byte_of_val x), <- (byte_of_val y), E. Qed.

Lemma bytes_le_cons x y a b : bytes_le (x :: a) (y :: b) <-> byte_val x < byte_val y \/ x = y /\ bytes_le a b.
Proof.
  unfold bytes_le. cbn [bytes_leb]. rewrite orb_true_iff, andb_true_iff, Z.ltb_lt, Z.eqb_eq. split.
  - intros [?|[?%byte_val_inj ?]]; auto.
  - intros [?|[-> ?]]; auto.
Qed.

#[export] Instance bytes_le_total : Total bytes_le.
Proof.
  intros a. induction a as [|x a IH]; intros b; [by left|]. destruct b as [|y b]; [by right|].
  rewrite !bytes_le_cons. destruct (Z.lt_trichotomy (byte_val x) (byte_val y)) as [?|[?%byte_val_inj|?]]; [tauto|subst|tauto].
  destruct (IH b); tauto.
Qed.
#[export] Instance bytes_le_trans : Transitive bytes_le.
Proof.
  intros a. induction a as [|x a IH]; intros [|y b] [|z c]; try done. rewrite !bytes_le_cons.
  intros [?|[-> ?]] [?|[-> ?]]; [left; lia|tauto|tauto|right; split; [done|eapply IH; eassumption]].
Qed.
#[export] Instance bytes_le_antisymm : AntiSymm (=) bytes_le.
Proof.
  intros a. induction a as [|x a IH]; intros [|y b]; try done. rewrite !bytes_le_cons.
  intros [?|[-> ?]] [?|[? ?]]; subst; try lia. f_equal. by apply IH.
Qed.

(** Sorted lists with the same elements are equal. *)
Lemma sorted_unique (l1 l2 : list bytes) : StronglySorted bytes_le l1 -> StronglySorted bytes_le l2 -> l1 ≡ₚ l2 -> l1 = l2.
Proof. intros H1 H2 Hp. eapply StronglySorted_unique; eauto with typeclass_instances. Qed.
