(* ===== verification/Block.v ===== *)
(** * Blocks (pkg/protocol/engine/blocks/block.go)

    The engine's [Block] record with its flags and the methods that read and
    set them.  A [*Block] is addressed by its block ID: the block cache keeps
    one object per ID, and child links are IDs into that store.  The payload of
    a block (iota.go's [ProtocolBlock]) is the record [ModelBlock]; the fields
    the engine reads are kept, and mutexes are left out. *)
From S2P Require Import Prelude.

(** ** Identifiers

    [iotago.AccountID], [iotago.TransactionID] and the hash part of a block ID
    are byte arrays compared as wholes; an integer stands for the array. *)
Abbreviation AccountID := Z.
Abbreviation TransactionID := Z.
Abbreviation SlotIndex := Z.
Abbreviation SeatIndex := Z.

Record BlockID := mkBlockID { bid_hash : Z; Slot : SlotIndex }.

#[export] Instance BlockID_eq_dec : EqDecision BlockID.
Proof. solve_decision. Defined.
#[export] Instance BlockID_countable : Countable BlockID :=
  inj_countable' (fun b => (bid_hash b, Slot b)) (fun p => mkBlockID p.1 p.2) ltac:(by intros []).

Record CommitmentID := mkCommitmentID { cid_hash : Z; CommitmentSlot : SlotIndex }.
#[export] Instance CommitmentID_eq_dec : EqDecision CommitmentID.
Proof. solve_decision. Defined.

#[export] Program Instance CommitmentID_countable : Countable CommitmentID :=
  inj_countable' (fun c => (cid_hash c, CommitmentSlot c)) (fun p => mkCommitmentID p.1 p.2) _.
Next Obligation. by intros []. Qed.

Inductive ParentsType := StrongParentType | WeakParentType | ShallowLikeParentType.
#[export] Instance ParentsType_eq_dec : EqDecision ParentsType.
Proof. solve_decision. Defined.

(** The type switch [block.BasicBlock()] / [block.ValidationBlock()]. *)
Inductive BlockKind := Basic | Validation.
#[export] Instance BlockKind_eq_dec : EqDecision BlockKind.
Proof. solve_decision. Defined.

(** What the engine reads of a received block ([model.Block]). *)
Record ModelBlock := mkModelBlock {
  ID : BlockID;
  IssuerID : AccountID;
  IssuingTime : Z;                      (* nanoseconds *)
  SlotCommitmentID : CommitmentID;
  Kind : BlockKind;
  ParentsWithType : list (ParentsType * BlockID);
  WorkScore : Z;
}.
#[export] Instance ModelBlock_eq_dec : EqDecision ModelBlock.
Proof. solve_decision. Defined.

(** [block.Parents()] *)
Definition Parents (b : ModelBlock) : list BlockID := (ParentsWithType b).*2.

Definition isBasic (b : ModelBlock) : bool := bool_decide (Kind b = Basic).
Definition isValidation (b : ModelBlock) : bool := bool_decide (Kind b = Validation).

(** ** The block object *)
Record rootBlock := mkRootBlock { rb_blockID : BlockID; rb_commitmentID : CommitmentID; rb_issuingTime : Z }.

Record Block := mkBlock {
  missing : bool;
  missingBlockID : BlockID;
  solid : bool;
  invalid : bool;
  strongChildren : list BlockID;
  weakChildren : list BlockID;
  shallowLikeChildren : list BlockID;
  booked : bool;
  witnesses : gset SeatIndex;
  conflictIDs : gset TransactionID;
  payloadConflictIDs : gset TransactionID;
  preAccepted : bool;
  acceptanceRatifiers : gset SeatIndex;
  accepted : bool;
  preConfirmed : bool;
  confirmationRatifiers : gset SeatIndex;
  confirmed : bool;
  scheduled : bool;
  skipped : bool;
  enqueued : bool;
  dropped : bool;
  notarized : bool;
  modelBlock : option ModelBlock;
  rootBlk : option rootBlock;
  workScore : Z;
}.

Definition emptyBlockID : BlockID := mkBlockID 0 0.

Definition NewBlock (data : ModelBlock) : Block :=
  mkBlock false emptyBlockID false false [] [] [] false ∅ ∅ ∅
    false ∅ false false ∅ false false false false false false (Some data) None (WorkScore data).

Definition NewRootBlock (blockID : BlockID) (commitmentID : CommitmentID) (issuingTime : Z) : Block :=
  mkBlock false emptyBlockID true false [] [] [] true ∅ ∅ ∅
    true ∅ true false ∅ false true false false false true None
    (Some (mkRootBlock blockID commitmentID issuingTime)) 0.

Definition NewMissingBlock (blockID : BlockID) : Block :=
  mkBlock true blockID false false [] [] [] false ∅ ∅ ∅
    false ∅ false false ∅ false false false false false false None None 0.

Definition IsRootBlock (b : Block) : bool := bool_decide (is_Some (rootBlk b)).

(** [b.id()]; a block without data that is neither missing nor a root block
    dereferences a nil [modelBlock]. *)
Definition block_id (b : Block) : outcome BlockID :=
  if missing b then Ret (missingBlockID b)
  else match rootBlk b with
       | Some r => Ret (rb_blockID r)
       | None => mb ← deref (modelBlock b); Ret (ID mb)
       end.

(** [time.Time{}] is the zero time; times are integers here. *)
Definition block_issuingTime (b : Block) : outcome Z :=
  if missing b then Ret 0
  else match rootBlk b with
       | Some r => Ret (rb_issuingTime r)
       | None => mb ← deref (modelBlock b); Ret (IssuingTime mb)
       end.

Definition block_slotCommitmentID (b : Block) : outcome CommitmentID :=
  if missing b then Ret (mkCommitmentID 0 0)
  else match rootBlk b with
       | Some r => Ret (rb_commitmentID r)
       | None => mb ← deref (modelBlock b); Ret (SlotCommitmentID mb)
       end.

(** ** Setters

    [with_<field>] is the assignment to one field; the methods below are the
    source's. *)
Definition with_solid v (b : Block) := mkBlock (missing b) (missingBlockID b) v (invalid b) (strongChildren b) (weakChildren b) (shallowLikeChildren b) (booked b) (witnesses b) (conflictIDs b) (payloadConflictIDs b) (preAccepted b) (acceptanceRatifiers b) (accepted b) (preConfirmed b) (confirmationRatifiers b) (confirmed b) (scheduled b) (skipped b) (enqueued b) (dropped b) (notarized b) (modelBlock b) (rootBlk b) (workScore b).
Definition with_invalid v (b : Block) := mkBlock (missing b) (missingBlockID b) (solid b) v (strongChildren b) (weakChildren b) (shallowLikeChildren b) (booked b) (witnesses b) (conflictIDs b) (payloadConflictIDs b) (preAccepted b) (acceptanceRatifiers b) (accepted b) (preConfirmed b) (confirmationRatifiers b) (confirmed b) (scheduled b) (skipped b) (enqueued b) (dropped b) (notarized b) (modelBlock b) (rootBlk b) (workScore b).
Definition with_children s w l (b : Block) := mkBlock (missing b) (missingBlockID b) (solid b) (invalid b) s w l (booked b) (witnesses b) (conflictIDs b) (payloadConflictIDs b) (preAccepted b) (acceptanceRatifiers b) (accepted b) (preConfirmed b) (confirmationRatifiers b) (confirmed b) (scheduled b) (skipped b) (enqueued b) (dropped b) (notarized b) (modelBlock b) (rootBlk b) (workScore b).
Definition with_booked v (b : Block) := mkBlock (missing b) (missingBlockID b) (solid b) (invalid b) (strongChildren b) (weakChildren b) (shallowLikeChildren b) v (witnesses b) (conflictIDs b) (payloadConflictIDs b) (preAccepted b) (acceptanceRatifiers b) (accepted b) (preConfirmed b) (confirmationRatifiers b) (confirmed b) (scheduled b) (skipped b) (enqueued b) (dropped b) (notarized b) (modelBlock b) (rootBlk b) (workScore b).
Definition with_witnesses v (b : Block) := mkBlock (missing b) (missingBlockID b) (solid b) (invalid b) (strongChildren b) (weakChildren b) (shallowLikeChildren b) (booked b) v (conflictIDs b) (payloadConflictIDs b) (preAccepted b) (acceptanceRatifiers b) (accepted b) (preConfirmed b) (confirmationRatifiers b) (confirmed b) (scheduled b) (skipped b) (enqueued b) (dropped b) (notarized b) (modelBlock b) (rootBlk b) (workScore b).
Definition with_conflictIDs v (b : Block) := mkBlock (missing b) (missingBlockID b) (solid b) (invalid b) (strongChildren b) (weakChildren b) (shallowLikeChildren b) (booked b) (witnesses b) v (payloadConflictIDs b) (preAccepted b) (acceptanceRatifiers b) (accepted b) (preConfirmed b) (confirmationRatifiers b) (confirmed b) (scheduled b) (skipped b) (enqueued b) (dropped b) (notarized b) (modelBlock b) (rootBlk b) (workScore b).
Definition with_payloadConflictIDs v (b : Block) := mkBlock (missing b) (missingBlockID b) (solid b) (invalid b) (strongChildren b) (weakChildren b) (shallowLikeChildren b) (booked b) (witnesses b) (conflictIDs b) v (preAccepted b) (acceptanceRatifiers b) (accepted b) (preConfirmed b) (confirmationRatifiers b) (confirmed b) (scheduled b) (skipped b) (enqueued b) (dropped b) (notarized b) (modelBlock b) (rootBlk b) (workScore b).
Definition with_preAccepted v (b : Block) := mkBlock (missing b) (missingBlockID b) (solid b) (invalid b) (strongChildren b) (weakChildren b) (shallowLikeChildren b) (booked b) (witnesses b) (conflictIDs b) (payloadConflictIDs b) v (acceptanceRatifiers b) (accepted b) (preConfirmed b) (confirmationRatifiers b) (confirmed b) (scheduled b) (skipped b) (enqueued b) (dropped b) (notarized b) (modelBlock b) (rootBlk b) (workScore b).
Definition with_acceptanceRatifiers v (b : Block) := mkBlock (missing b) (missingBlockID b) (solid b) (invalid b) (strongChildren b) (weakChildren b) (shallowLikeChildren b) (booked b) (witnesses b) (conflictIDs b) (payloadConflictIDs b) (preAccepted b) v (accepted b) (preConfirmed b) (confirmationRatifiers b) (confirmed b) (scheduled b) (skipped b) (enqueued b) (dropped b) (notarized b) (modelBlock b) (rootBlk b) (workScore b).
Definition with_accepted v (b : Block) := mkBlock (missing b) (missingBlockID b) (solid b) (invalid b) (strongChildren b) (weakChildren b) (shallowLikeChildren b) (booked b) (witnesses b) (conflictIDs b) (payloadConflictIDs b) (preAccepted b) (acceptanceRatifiers b) v (preConfirmed b) (confirmationRatifiers b) (confirmed b) (scheduled b) (skipped b) (enqueued b) (dropped b) (notarized b) (modelBlock b) (rootBlk b) (workScore b).
Definition with_preConfirmed v (b : Block) := mkBlock (missing b) (missingBlockID b) (solid b) (invalid b) (strongChildren b) (weakChildren b) (shallowLikeChildren b) (booked b) (witnesses b) (conflictIDs b) (payloadConflictIDs b) (preAccepted b) (acceptanceRatifiers b) (accepted b) v (confirmationRatifiers b) (confirmed b) (scheduled b) (skipped b) (enqueued b) (dropped b) (notarized b) (modelBlock b) (rootBlk b) (workScore b).
Definition with_confirmationRatifiers v (b : Block) := mkBlock (missing b) (missingBlockID b) (solid b) (invalid b) (strongChildren b) (weakChildren b) (shallowLikeChildren b) (booked b) (witnesses b) (conflictIDs b) (payloadConflictIDs b) (preAccepted b) (acceptanceRatifiers b) (accepted b) (preConfirmed b) v (confirmed b) (scheduled b) (skipped b) (enqueued b) (dropped b) (notarized b) (modelBlock b) (rootBlk b) (workScore b).
Definition with_confirmed v (b : Block) := mkBlock (missing b) (missingBlockID b) (solid b) (invalid b) (strongChildren b) (weakChildren b) (shallowLikeChildren b) (booked b) (witnesses b) (conflictIDs b) (payloadConflictIDs b) (preAccepted b) (acceptanceRatifiers b) (accepted b) (preConfirmed b) (confirmationRatifiers b) v (scheduled b) (skipped b) (enqueued b) (dropped b) (notarized b) (modelBlock b) (rootBlk b) (workScore b).
Definition with_scheduler sch sk en dr (b : Block) := mkBlock (missing b) (missingBlockID b) (solid b) (invalid b) (strongChildren b) (weakChildren b) (shallowLikeChildren b) (booked b) (witnesses b) (conflictIDs b) (payloadConflictIDs b) (preAccepted b) (acceptanceRatifiers b) (accepted b) (preConfirmed b) (confirmationRatifiers b) (confirmed b) sch sk en dr (notarized b) (modelBlock b) (rootBlk b) (workScore b).
Definition with_notarized v (b : Block) := mkBlock (missing b) (missingBlockID b) (solid b) (invalid b) (strongChildren b) (weakChildren b) (shallowLikeChildren b) (booked b) (witnesses b) (conflictIDs b) (payloadConflictIDs b) (preAccepted b) (acceptanceRatifiers b) (accepted b) (preConfirmed b) (confirmationRatifiers b) (confirmed b) (scheduled b) (skipped b) (enqueued b) (dropped b) v (modelBlock b) (rootBlk b) (workScore b).

(** A [reactive.Variable] returns the previous value from [Set]; the methods
    report whether it changed. *)
Definition SetSolid (b : Block) : bool * Block := (negb (solid b), with_solid true b).
Definition SetInvalid (b : Block) : bool * Block := (negb (invalid b), with_invalid true b).
Definition SetBooked (b : Block) : bool * Block := (negb (booked b), with_booked true b).
Definition SetAccepted (b : Block) : bool * Block := (negb (accepted b), with_accepted true b).
Definition SetNotarized (b : Block) : bool * Block := (negb (notarized b), with_notarized true b).

Definition SetPreAccepted (b : Block) : bool * Block :=
  if negb (preAccepted b) then (true, with_preAccepted true b) else (false, b).
Definition SetConfirmed (b : Block) : bool * Block :=
  if negb (confirmed b) then (true, with_confirmed true b) else (false, b).
Definition SetPreConfirmed (b : Block) : bool * Block :=
  if negb (preConfirmed b) then (true, with_preConfirmed true b) else (false, b).

(** [ds.Set.Add] reports whether the element was new. *)
Definition set_add (x : SeatIndex) (s : gset SeatIndex) : bool * gset SeatIndex :=
  (bool_decide (x ∉ s), {[x]} ∪ s).

Definition AddWitness (seat : SeatIndex) (b : Block) : bool * Block :=
  let '(added, s) := set_add seat (witnesses b) in (added, with_witnesses s b).
Definition AddAcceptanceRatifier (seat : SeatIndex) (b : Block) : bool * Block :=
  let '(added, s) := set_add seat (acceptanceRatifiers b) in (added, with_acceptanceRatifiers s b).
Definition AddConfirmationRatifier (seat : SeatIndex) (b : Block) : bool * Block :=
  let '(added, s) := set_add seat (confirmationRatifiers b) in (added, with_confirmationRatifiers s b).

(** The scheduler flags: the return value says whether the flag was unset,
    the flag itself moves only when the block is enqueued. *)
Definition SetScheduled (b : Block) : bool * Block :=
  let wasUpdated := negb (scheduled b) in
  if wasUpdated && enqueued b
  then (wasUpdated, with_scheduler true (skipped b) false (dropped b) b) else (wasUpdated, b).
Definition SetSkipped (b : Block) : bool * Block :=
  let wasUpdated := negb (skipped b) in
  if wasUpdated && enqueued b
  then (wasUpdated, with_scheduler (scheduled b) true false (dropped b) b) else (wasUpdated, b).
Definition SetDropped (b : Block) : bool * Block :=
  let wasUpdated := negb (dropped b) in
  if wasUpdated && enqueued b
  then (wasUpdated, with_scheduler (scheduled b) (skipped b) false true b) else (wasUpdated, b).
Definition SetEnqueued (b : Block) : bool * Block :=
  let wasUpdated := negb (enqueued b) in
  if wasUpdated
  then (wasUpdated, with_scheduler (scheduled b) (skipped b) true (dropped b) b) else (wasUpdated, b).

Definition AppendChild (child : BlockID) (childType : ParentsType) (b : Block) : Block :=
  match childType with
  | StrongParentType => with_children (strongChildren b ++ [child]) (weakChildren b) (shallowLikeChildren b) b
  | WeakParentType => with_children (strongChildren b) (weakChildren b ++ [child]) (shallowLikeChildren b) b
  | ShallowLikeParentType => with_children (strongChildren b) (weakChildren b) (shallowLikeChildren b ++ [child]) b
  end.

(** [Update] publishes the data of a missing block. *)
Definition Update (data : ModelBlock) (b : Block) : bool * Block :=
  if negb (missing b) then (false, b)
  else (true, mkBlock false (missingBlockID b) (solid b) (invalid b) (strongChildren b) (weakChildren b)
          (shallowLikeChildren b) (booked b) (witnesses b) (conflictIDs b) (payloadConflictIDs b)
          (preAccepted b) (acceptanceRatifiers b) (accepted b) (preConfirmed b) (confirmationRatifiers b)
          (confirmed b) (scheduled b) (skipped b) (enqueued b) (dropped b) (notarized b)
          (Some data) (rootBlk b) (WorkScore data)).

(** [Children]: the three child lists in order, each block once. *)
Fixpoint dedup_ids (seen : gset BlockID) (l : list BlockID) : list BlockID :=
  match l with
  | [] => []
  | c :: l => if decide (c ∈ seen) then dedup_ids seen l else c :: dedup_ids ({[c]} ∪ seen) l
  end.
Definition Children (b : Block) : list BlockID :=
  dedup_ids ∅ (strongChildren b ++ weakChildren b ++ shallowLikeChildren b).

Lemma elem_of_dedup_ids seen l c : c ∈ dedup_ids seen l <-> c ∈ l /\ c ∉ seen.
Proof.
  revert seen. induction l as [|x l IH]; intros seen; cbn; [set_solver|].
  case_decide; [rewrite IH; set_solver|]. rewrite !elem_of_cons, IH.
  destruct (decide (c = x)); set_solver.
Qed.

Lemma NoDup_dedup_ids seen l : NoDup (dedup_ids seen l).
Proof.
  revert seen. induction l as [|x l IH]; intros seen; cbn; [constructor|].
  case_decide; [done|]. constructor; [|done]. rewrite elem_of_dedup_ids. set_solver.
Qed.
