(* ===== verification/TimeApi.v ===== *)
(** * Slots and epochs

    iota.go's TimeProvider maps slots to epochs and to time; it is not part of
    the repository, so its operations are an interface and [TimeProviderSpec] states the
    documented arithmetic: an epoch is a block of [2^SlotsPerEpochExponent]
    slots.  The providers of all protocol versions agree on it. *)
From S2P Require Import Prelude Block.

Abbreviation EpochIndex := Z.

Class TimeProvider := {
  SlotsPerEpochExponent : Z;
  EpochFromSlot : SlotIndex -> EpochIndex;
  EpochStart : EpochIndex -> SlotIndex;
  EpochEnd : EpochIndex -> SlotIndex;
  SlotStartTime : SlotIndex -> Z;                     (* nanoseconds *)
  SlotDurationSeconds : Z;
}.
Definition EpochDurationSlots `{TimeProvider} : Z := 2 ^ SlotsPerEpochExponent.
Class TimeProviderSpec (T : TimeProvider) : Prop := {
  SlotsPerEpochExponent_range : 0 <= SlotsPerEpochExponent < 32;
  EpochFromSlot_spec s : in_range Uint32 s -> EpochFromSlot s = s / EpochDurationSlots;
  EpochStart_spec e : in_range Uint32 e -> EpochStart e = u32 (e * EpochDurationSlots);
  EpochEnd_spec e : in_range Uint32 e -> EpochEnd e = u32 ((e + 1) * EpochDurationSlots - 1);
}.

(** Epochs of [2^k] slots. *)
Definition shift_time (k slotDuration : Z) : TimeProvider := {|
  SlotsPerEpochExponent := k;
  EpochFromSlot s := Z.shiftr s k;
  EpochStart e := u32 (Z.shiftl e k);
  EpochEnd e := u32 (Z.shiftl (e + 1) k - 1);
  SlotStartTime s := (s - 1) * slotDuration * 1000000000;
  SlotDurationSeconds := slotDuration |}.
Lemma shift_time_spec k d : 0 <= k < 32 -> TimeProviderSpec (shift_time k d).
Proof.
  intros Hk. split; cbn; unfold EpochDurationSlots; cbn; intros; rewrite ?Z.shiftr_div_pow2, ?Z.shiftl_mul_pow2 by lia; done.
Qed.

Section Epochs.
Context `{TS : TimeProviderSpec}.

Lemma EpochDurationSlots_pos : 0 < EpochDurationSlots.
Proof. pose proof SlotsPerEpochExponent_range. unfold EpochDurationSlots. lia. Qed.

(** An epoch whose slots exist: its end does not wrap around. *)
Definition epoch_ok (e : EpochIndex) : Prop := 0 <= e /\ (e + 1) * EpochDurationSlots <= 2 ^ 32.

Lemma epoch_ok_range e : epoch_ok e -> in_range Uint32 e.
Proof. intros [??]. pose proof EpochDurationSlots_pos. unfold in_range. cbn. nia. Qed.

Lemma epoch_ok_pred e : 0 < e -> epoch_ok e -> epoch_ok (e - 1).
Proof. intros ? [??]. pose proof EpochDurationSlots_pos. split; nia. Qed.

Lemma epoch_ok_le e e' : 0 <= e' <= e -> epoch_ok e -> epoch_ok e'.
Proof. intros ? [??]. pose proof EpochDurationSlots_pos. split; nia. Qed.

Lemma EpochStart_eq e : epoch_ok e -> EpochStart e = e * EpochDurationSlots.
Proof.
  intros He. rewrite EpochStart_spec by by apply epoch_ok_range. destruct He. pose proof EpochDurationSlots_pos.
  apply wrap_id. unfold in_range. cbn. nia.
Qed.
Lemma EpochEnd_eq e : epoch_ok e -> EpochEnd e = (e + 1) * EpochDurationSlots - 1.
Proof.
  intros He. rewrite EpochEnd_spec by by apply epoch_ok_range. destruct He. pose proof EpochDurationSlots_pos.
  apply wrap_id. unfold in_range. cbn. nia.
Qed.

Lemma EpochFromSlot_ok s : in_range Uint32 s -> epoch_ok (EpochFromSlot s).
Proof.
  intros Hs. rewrite EpochFromSlot_spec by done. pose proof SlotsPerEpochExponent_range as Hk. unfold in_range in Hs. cbn in Hs.
  assert (H32 : 2 ^ 32 = EpochDurationSlots * 2 ^ (32 - SlotsPerEpochExponent)).
  { unfold EpochDurationSlots. rewrite <- Z.pow_add_r by lia. f_equal. lia. }
  pose proof EpochDurationSlots_pos. split; [apply Z.div_pos; lia|].
  assert (s / EpochDurationSlots < 2 ^ (32 - SlotsPerEpochExponent)) by (apply Z.div_lt_upper_bound; lia). nia.
Qed.

(** A slot belongs to exactly one epoch. *)
Lemma EpochFromSlot_iff s e : in_range Uint32 s -> epoch_ok e -> EpochFromSlot s = e <-> EpochStart e <= s <= EpochEnd e.
Proof.
  intros Hs He. rewrite EpochFromSlot_spec, EpochStart_eq, EpochEnd_eq by done. pose proof EpochDurationSlots_pos.
  split; intros; [subst; Z.to_euclidean_division_equations; nia|]. symmetry. apply Z.div_unique with (s - e * EpochDurationSlots); lia.
Qed.

Lemma EpochFromSlot_mono s s' : in_range Uint32 s -> in_range Uint32 s' -> s <= s' -> EpochFromSlot s <= EpochFromSlot s'.
Proof. intros. rewrite !EpochFromSlot_spec by done. apply Z.div_le_mono; [apply EpochDurationSlots_pos|done]. Qed.
End Epochs.
