(* ===== verification/EpochStore.v ===== *)
(** * Epoch stores (pkg/storage/prunable/epochstore, pkg/model/{eviction,pruning}_index.go)

    A store that keeps one value (or one key-value store) per epoch and remembers, in
    memory and on disk, up to which epoch it was pruned.

    A typed store of hive.go is the finite map it holds: the codecs of its values
    are modelled and proved to round-trip where they are defined.  An iteration
    visits it in an arbitrary order.  Device failures are left out. *)
From S2P Require Import Prelude Block TimeApi.

(** The errors of pkg/storage/database/errors.go; any other error is [ErrOther]. *)
Inductive StorageError := ErrEpochPruned | ErrNoPruningNeeded | ErrDatabaseFull | ErrOther.
#[export] Instance StorageError_eq_dec : EqDecision StorageError.
Proof. solve_decision. Defined.

(** ** EvictionIndex: nil until something is evicted *)
Module EvictionIndex.
Definition t : Type := option Z.
Definition NewEvictionIndex : t := None.
Definition ShouldEvict (newIndex : Z) (e : t) : bool :=
  match e with None => true | Some i => i <? newIndex end.
(** Returns the previous index, if there was one, and the new state. *)
Definition MarkEvicted (index : Z) (e : t) : option Z * t := (e, Some index).
Definition Index (e : t) : Z * bool := match e with None => (0, false) | Some i => (i, true) end.
Definition NextIndex (e : t) : Z := match e with None => 0 | Some i => u32 (i + 1) end.
Definition IsEvicted (index : Z) (e : t) : bool := match e with None => false | Some i => index <=? i end.
End EvictionIndex.

(** ** PruningIndex: an eviction index of epochs that is also written to disk *)
Record PruningIndex := mkPruningIndex { memLastPrunedEpoch : EvictionIndex.t; storedEpoch : option EpochIndex }.
Definition NewPruningIndex (stored : option EpochIndex) : PruningIndex := mkPruningIndex EvictionIndex.NewEvictionIndex stored.
Definition pruning_MarkEvicted (epoch : EpochIndex) (p : PruningIndex) : PruningIndex :=
  mkPruningIndex (EvictionIndex.MarkEvicted epoch (memLastPrunedEpoch p)).2 (Some epoch).
Definition pruning_Index (p : PruningIndex) : EpochIndex * bool := EvictionIndex.Index (memLastPrunedEpoch p).
Definition pruning_NextIndex (p : PruningIndex) : EpochIndex := EvictionIndex.NextIndex (memLastPrunedEpoch p).
Definition pruning_RestoreFromDisk (p : PruningIndex) : PruningIndex :=
  match storedEpoch p with
  | None => p
  | Some lastPrunedEpoch => mkPruningIndex (EvictionIndex.MarkEvicted lastPrunedEpoch (memLastPrunedEpoch p)).2 (storedEpoch p)
  end.

(** ** Store *)
Record Store (V : Type) := mkStore { kv : gmap EpochIndex V; pruningDelay : EpochIndex; lastPrunedEpoch : PruningIndex }.
Arguments mkStore {V}.
Arguments kv {V}.
Arguments pruningDelay {V}.
Arguments lastPrunedEpoch {V}.

Section Store.
Context {V : Type}.
Implicit Types (s : Store V) (epoch : EpochIndex).

(** A store over what is on disk. *)
Definition NewStore (disk : gmap EpochIndex V) (stored : option EpochIndex) (pruningDelay : EpochIndex) : Store V :=
  mkStore disk pruningDelay (NewPruningIndex stored).
Definition with_kv k s : Store V := mkStore k (pruningDelay s) (lastPrunedEpoch s).
Definition with_pruned p s : Store V := mkStore (kv s) (pruningDelay s) p.

Definition isTooOld epoch s : bool :=
  let '(prunedEpoch, hasPruned) := pruning_Index (lastPrunedEpoch s) in hasPruned && (epoch <=? prunedEpoch).
Definition RestoreLastPrunedEpoch s : Store V := with_pruned (pruning_RestoreFromDisk (lastPrunedEpoch s)) s.
Definition LastPrunedEpoch s : EpochIndex * bool := pruning_Index (lastPrunedEpoch s).

(** [Ok None] is the zero value returned for a missing key. *)
Definition Load epoch s : result StorageError (option V) :=
  if isTooOld epoch s then Err ErrEpochPruned else Ok (kv s !! epoch).
Definition Store_ epoch (value : V) s : result StorageError (Store V) :=
  if isTooOld epoch s then Err ErrEpochPruned else Ok (with_kv (<[epoch := value]> (kv s)) s).

(** The consumer's error ends the iteration and is returned. *)
Fixpoint stream_until {A} (consumer : EpochIndex * V -> A -> option A) (l : list (EpochIndex * V)) (acc : A) : option A :=
  match l with [] => Some acc | e :: l => acc ← consumer e acc; stream_until consumer l acc end.
Definition Stream `{!RangeOrder EpochIndex} {A} (consumer : EpochIndex * V -> A -> option A) s (acc : A) : option A :=
  stream_until consumer (range_of (kv s)) acc.

Definition DeleteEpoch epoch s : Store V := with_kv (delete epoch (kv s)) s.

(** The delay that remains on top of the caller's. *)
Definition remaining_delay (defaultPruningDelay : EpochIndex) s : EpochIndex :=
  if pruningDelay s <=? defaultPruningDelay then 0 else pruningDelay s - defaultPruningDelay.
(** One round of the loop. *)
Definition prune_epoch s (i : EpochIndex) : Store V :=
  let s := DeleteEpoch i s in with_pruned (pruning_MarkEvicted i (lastPrunedEpoch s)) s.
(** The loop is the list of its epochs; it would not end for the greatest epoch only. *)
Definition Prune epoch (defaultPruningDelay : EpochIndex) s : Store V :=
  let pruningDelay := remaining_delay defaultPruningDelay s in
  if epoch <? pruningDelay then s
  else
    let from := pruning_NextIndex (lastPrunedEpoch s) in
    foldl prune_epoch s (seqZ from (epoch - pruningDelay - from + 1)).

(** *** What pruning does *)

(** The epoch up to which [Prune] prunes, if it does. *)
Definition prune_target epoch defaultPruningDelay s : option EpochIndex :=
  let d := remaining_delay defaultPruningDelay s in
  if (epoch <? d) || (epoch - d <? pruning_NextIndex (lastPrunedEpoch s)) then None else Some (epoch - d).

Lemma prune_loop s (l : list EpochIndex) :
  kv (foldl prune_epoch s l) = foldl (fun m i => delete i m) (kv s) l
  /\ pruningDelay (foldl prune_epoch s l) = pruningDelay s
  /\ lastPrunedEpoch (foldl prune_epoch s l) = match last l with Some i => pruning_MarkEvicted i (lastPrunedEpoch s) | None => lastPrunedEpoch s end.
Proof.
  induction l as [|i l IH] using rev_ind; [done|]. rewrite !foldl_app, last_snoc. cbn [foldl]. destruct IH as (H1 & H2 & H3).
  rewrite <- H1, <- H2. by split_and!.
Qed.

Lemma lookup_delete_list {A} (m : gmap Z A) l e : foldl (fun m i => delete i m) m l !! e = if decide (e ∈ l) then None else m !! e.
Proof.
  induction l as [|i l IH] in m |- *; [done|]. cbn [foldl]. rewrite IH. destruct (decide (e = i)) as [->|Hne].
  - rewrite lookup_delete_eq. case_decide; case_decide; set_solver.
  - rewrite lookup_delete_ne by done. case_decide; case_decide; set_solver.
Qed.

Lemma last_seqZ_some m n : 0 < n -> last (seqZ m n) = Some (m + n - 1).
Proof.
  intros Hn. replace n with ((n - 1) + 1) by lia. rewrite seqZ_app by lia.
  rewrite last_app. replace (m + (n - 1)) with (m + n - 1) by lia. rewrite seqZ_cons by lia. rewrite seqZ_nil by lia. cbn. f_equal. lia.
Qed.

(** [Prune] empties the epochs it has not pruned yet, up to its target, and keeps the others. *)
Lemma Prune_spec epoch d s :
  Prune epoch d s =
    match prune_target epoch d s with
    | None => s
    | Some t => mkStore (kv (Prune epoch d s)) (pruningDelay s) (pruning_MarkEvicted t (lastPrunedEpoch s))
    end
  /\ forall e, kv (Prune epoch d s) !! e =
       match prune_target epoch d s with
       | Some t => if decide (pruning_NextIndex (lastPrunedEpoch s) <= e <= t) then None else kv s !! e
       | None => kv s !! e
       end.
Proof.
  unfold prune_target, Prune. set (r := remaining_delay d s). set (from := pruning_NextIndex (lastPrunedEpoch s)).
  destruct (epoch <? r) eqn:E1; cbn [orb]; [done|]. destruct (Z.ltb_spec (epoch - r) from) as [Hlt|Hge].
  - by rewrite seqZ_nil by lia.
  - pose proof (prune_loop s (seqZ from (epoch - r - from + 1))) as (Hk & Hd & Hp).
    rewrite last_seqZ_some in Hp by lia. split.
    + destruct (foldl prune_epoch s _) as [k0 d0 p0]. cbn [kv pruningDelay lastPrunedEpoch] in *. rewrite Hd, Hp. do 2 f_equal. lia.
    + intros e. rewrite Hk, lookup_delete_list. case_decide as H1; rewrite elem_of_seqZ in H1; case_decide; done || lia.
Qed.
End Store.

(** ** EpochKVStore: a key-value store per epoch *)
Section EpochKV.
Context {B : Type} `{Empty B}.
Definition EpochKVStore : Type := Store B.
Definition NewEpochKVStore (disk : gmap EpochIndex B) (stored : option EpochIndex) (pruningDelay : EpochIndex) : EpochKVStore :=
  NewStore disk stored pruningDelay.
Definition kv_isTooOld (epoch : EpochIndex) (e : EpochKVStore) : bool := isTooOld epoch e.
(** The store of the epoch: an empty one when nothing was written to it. *)
Definition GetEpoch (epoch : EpochIndex) (e : EpochKVStore) : result StorageError B :=
  if kv_isTooOld epoch e then Err ErrEpochPruned else Ok (default ∅ (kv e !! epoch)).
(** What a client wrote to the store it got. *)
Definition set_epoch (epoch : EpochIndex) (b : B) (e : EpochKVStore) : EpochKVStore := with_kv (<[epoch := b]> (kv e)) e.
Definition kv_DeleteEpoch (epoch : EpochIndex) (e : EpochKVStore) : EpochKVStore := DeleteEpoch epoch e.
Definition kv_Prune (epoch defaultPruningDelay : EpochIndex) (e : EpochKVStore) : EpochKVStore := Prune epoch defaultPruningDelay e.
Definition kv_RestoreLastPrunedEpoch (e : EpochKVStore) : EpochKVStore := RestoreLastPrunedEpoch e.
End EpochKV.
Arguments EpochKVStore B : clear implicits.

(** ** Well-formedness and restarts *)
Section WellFormed.
Context {V : Type}.
Implicit Types s : Store V.

(** Nothing is stored in a pruned epoch, and memory and disk agree on the last one. *)
Definition store_ok s : Prop :=
  memLastPrunedEpoch (lastPrunedEpoch s) = storedEpoch (lastPrunedEpoch s)
  /\ (forall e, memLastPrunedEpoch (lastPrunedEpoch s) = Some e -> 0 <= e < 2 ^ 32 - 1)
  /\ forall e v, kv s !! e = Some v -> 0 <= e /\ isTooOld e s = false.

Lemma isTooOld_true s e : isTooOld e s = true <-> exists p, memLastPrunedEpoch (lastPrunedEpoch s) = Some p /\ e <= p.
Proof.
  unfold isTooOld, pruning_Index, EvictionIndex.Index. destruct (memLastPrunedEpoch (lastPrunedEpoch s)) as [p|]; cbn.
  - rewrite Z.leb_le. split; [intros ?; by exists p|intros (? & ? & ?); by simplify_eq].
  - split; [done|intros (? & ? & ?); done].
Qed.

Lemma store_ok_new d : store_ok (NewStore ∅ None d).
Proof. split; [done|]. split; [done|]. intros e v H. cbn in H. by rewrite lookup_empty in H. Qed.

Lemma NextIndex_ok s : store_ok s ->
  pruning_NextIndex (lastPrunedEpoch s) = match memLastPrunedEpoch (lastPrunedEpoch s) with Some p => p + 1 | None => 0 end.
Proof.
  intros (_ & Hr & _). unfold pruning_NextIndex, EvictionIndex.NextIndex. destruct (memLastPrunedEpoch _) as [p|]; [|done].
  apply wrap_id. specialize (Hr p eq_refl). unfold in_range. cbn. lia.
Qed.

(** The epochs that are pruned afterwards: those pruned before and those up to the target. *)
Lemma Prune_isTooOld epoch d s e :
  store_ok s -> isTooOld e (Prune epoch d s) = true <->
    isTooOld e s = true \/ exists t, prune_target epoch d s = Some t /\ e <= t.
Proof.
  intros Hok. pose proof (Prune_spec epoch d s) as [Hs _]. rewrite Hs, !isTooOld_true. clear Hs. destruct (prune_target epoch d s) as [t|] eqn:Et.
  - assert (Hle : forall p, memLastPrunedEpoch (lastPrunedEpoch s) = Some p -> p < t).
    { intros p Hp. unfold prune_target in Et. pose proof (NextIndex_ok s Hok) as Hn. rewrite Hp in Hn. rewrite Hn in Et. case_match eqn:Ec; simplify_eq. lia. }
    cbn [lastPrunedEpoch pruning_MarkEvicted memLastPrunedEpoch EvictionIndex.MarkEvicted snd]. split.
    + intros (p & ? & ?). simplify_eq. right. by eexists.
    + intros [(p & Hp & ?)|(t' & ? & ?)]; simplify_eq; eexists; (split; [done|]); [|done]. specialize (Hle p Hp). lia.
  - split; [by left|]. intros [?|(? & ? & ?)]; done.
Qed.

Lemma Prune_ok epoch d s : in_range Uint32 epoch -> 0 <= d -> epoch < 2 ^ 32 - 1 -> store_ok s -> store_ok (Prune epoch d s).
Proof.
  intros He Hd Hmax Hok. pose proof Hok as (Hm & Hr & Hk). pose proof (Prune_spec epoch d s) as [Hs Hl].
  assert (Ht : forall t, prune_target epoch d s = Some t -> 0 <= t < 2 ^ 32 - 1).
  { intros t. unfold prune_target, remaining_delay. unfold in_range in He. cbn in He. intros Et. repeat case_match; simplify_eq; lia. }
  split_and!.
  - rewrite Hs. by destruct (prune_target epoch d s).
  - intros e. rewrite Hs. destruct (prune_target epoch d s) as [t|]; [|by apply Hr]. cbn. intros; simplify_eq. by apply Ht.
  - intros e v Hv. rewrite Hl in Hv. assert (Hv0 : kv s !! e = Some v) by (repeat case_match; done). destruct (Hk e v Hv0) as [? Hold].
    split; [done|]. apply not_true_iff_false. rewrite Prune_isTooOld by done. rewrite Hold. intros [|(t & Et & ?)]; [done|]. rewrite Et in Hv.
    case_decide as Hd'; [done|]. apply Hd'. split; [|done].
    assert (Hnot : ~ isTooOld e s = true) by (by rewrite Hold). rewrite isTooOld_true in Hnot. rewrite (NextIndex_ok s Hok).
    destruct (memLastPrunedEpoch (lastPrunedEpoch s)) as [p|]; [|lia]. destruct (decide (e <= p)); [|lia]. destruct Hnot. by exists p.
Qed.

(** Whether a call of [Prune] covers an epoch. *)
Definition covers (target : option EpochIndex) (e : EpochIndex) : bool := match target with Some t => e <=? t | None => false end.

(** What a client reads after pruning: an error for the pruned epochs, the value it had for the others. *)
Lemma Prune_Load epoch d s e : store_ok s -> 0 <= e ->
  Load e (Prune epoch d s) = if covers (prune_target epoch d s) e then Err ErrEpochPruned else Load e s.
Proof.
  intros Hok He. unfold Load. pose proof (Prune_isTooOld epoch d s e Hok) as Ho. pose proof (Prune_spec epoch d s) as [_ Hl]. rewrite Hl. clear Hl.
  unfold covers. destruct (prune_target epoch d s) as [t|].
  - destruct (Z.leb_spec e t) as [Hle|Hgt].
    + rewrite (proj2 Ho); [done|]. right. by exists t.
    + destruct (isTooOld e s) eqn:E2; [rewrite (proj2 Ho); [done|by left]|]. rewrite (proj1 (not_true_iff_false _)).
      * rewrite decide_False by lia. done.
      * rewrite Ho. intros [?|(? & ? & ?)]; [done|]. simplify_eq. lia.
  - destruct (isTooOld e s) eqn:E2; [rewrite (proj2 Ho); [done|by left]|]. rewrite (proj1 (not_true_iff_false _)); [done|].
    rewrite Ho. by intros [?|(? & ? & ?)].
Qed.

(** A restart recovers the last pruned epoch. *)
Lemma restart_ok s : store_ok s -> RestoreLastPrunedEpoch (NewStore (kv s) (storedEpoch (lastPrunedEpoch s)) (pruningDelay s)) = s.
Proof.
  intros (Hm & _ & _). unfold RestoreLastPrunedEpoch, NewStore, with_pruned, pruning_RestoreFromDisk. cbn. destruct s as [k d [mem disk]]. cbn in *.
  subst. by destruct disk.
Qed.
End WellFormed.
