(* ===== verification/Float64.v ===== *)
(** * Go's float64

    The IEEE 754 binary64 operations the code uses, as the Standard Library's
    executable specification [SpecFloat] at precision 53 and maximal exponent
    1024 (round to nearest even, as Go prescribes).  The lemmas are about the
    magnitude of a quotient of positive integers: it is a positive finite
    number, which is what the comparison of queue lengths relies on. *)
From S2P Require Import Prelude.
From Stdlib Require Import Floats.SpecFloat.

Abbreviation float64 := spec_float.

Definition of_Z (z : Z) : float64 := binary_normalize 53 1024 z 0 false.
Definition fadd : float64 -> float64 -> float64 := SFadd 53 1024.
Definition fsub : float64 -> float64 -> float64 := SFsub 53 1024.
Definition fmul : float64 -> float64 -> float64 := SFmul 53 1024.
Definition fdiv : float64 -> float64 -> float64 := SFdiv 53 1024.
Definition fltb : float64 -> float64 -> bool := SFltb.
Definition neg_inf : float64 := S754_infinity true.
Definition fzero : float64 := S754_zero false.

(** [lo.Min] on floats. *)
Definition fmin (x y : float64) : float64 := if fltb x y then x else y.

(** [int64(f)] truncates toward zero; Go leaves the result of a conversion that
    does not fit implementation-defined ([None]). *)
Definition to_int64 (f : float64) : option Z :=
  match f with
  | S754_zero _ => Some 0
  | S754_finite s m e =>
      let z := cond_Zopp s (if 0 <=? e then Zpos m * 2 ^ e else Zpos m / 2 ^ (- e)) in
      checked Int64 z
  | _ => None
  end.

(** [math.Ceil], as an integer value. *)
Definition ceil_to_int64 (f : float64) : option Z :=
  match f with
  | S754_zero _ => Some 0
  | S754_finite s m e =>
      let z := if 0 <=? e then cond_Zopp s (Zpos m * 2 ^ e)
               else - ((- cond_Zopp s (Zpos m)) / 2 ^ (- e)) in
      checked Int64 z
  | _ => None
  end.

(** [d.Seconds()] of a [time.Duration] in nanoseconds. *)
Definition Seconds (d : Z) : float64 :=
  fadd (of_Z (d `quot` 1000000000)) (fdiv (of_Z (d `rem` 1000000000)) (of_Z 1000000000)).

(** The constant 0.67 of the threshold checks, as the nearest float64. *)
Definition f0_67 : float64 := S754_finite false 6034823500676465 (-53).

(** ** Magnitudes *)
Lemma digits2_bounds p : 2 ^ (Zpos (digits2_pos p) - 1) <= Zpos p < 2 ^ Zpos (digits2_pos p).
Proof.
  induction p as [p IH|p IH|]; cbn [digits2_pos]; [..|done];
    rewrite Pos2Z.inj_succ; replace (Z.succ (Zpos (digits2_pos p)) - 1) with (Z.succ (Zpos (digits2_pos p) - 1)) by lia;
    rewrite !Z.pow_succ_r by lia; lia.
Qed.

Lemma Zdigits2_bounds m : 0 < m -> 0 < Zdigits2 m /\ 2 ^ (Zdigits2 m - 1) <= m < 2 ^ Zdigits2 m.
Proof. destruct m as [|p|p]; try lia. intros _. split; [done|]. apply digits2_bounds. Qed.

Lemma Zdigits2_unique m d : 0 < d -> 2 ^ (d - 1) <= m < 2 ^ d -> Zdigits2 m = d.
Proof.
  intros Hd Hm. assert (0 < m) by (pose proof (Z.pow_pos_nonneg 2 (d - 1)); lia).
  destruct (Zdigits2_bounds m) as [Hp Hb]; [done|].
  destruct (Z.lt_trichotomy (Zdigits2 m) d) as [Hlt|[?|Hlt]]; [|done|].
  - pose proof (Z.pow_le_mono_r 2 (Zdigits2 m) (d - 1)). lia.
  - pose proof (Z.pow_le_mono_r 2 d (Zdigits2 m - 1)). lia.
Qed.

Lemma Zdigits2_div m n : 0 < m -> 0 <= n < Zdigits2 m -> 0 < m / 2 ^ n /\ Zdigits2 (m / 2 ^ n) = Zdigits2 m - n.
Proof.
  intros Hm Hn. destruct (Zdigits2_bounds m Hm) as [Hp [Hl Hu]].
  assert (Hpow : 0 < 2 ^ n) by (apply Z.pow_pos_nonneg; lia).
  assert (H1 : 2 ^ (Zdigits2 m - n - 1) <= m / 2 ^ n).
  { apply Z.div_le_lower_bound; [done|]. rewrite <- Z.pow_add_r by lia.
    by replace (n + (Zdigits2 m - n - 1)) with (Zdigits2 m - 1) by lia. }
  assert (H2 : m / 2 ^ n < 2 ^ (Zdigits2 m - n)).
  { apply Z.div_lt_upper_bound; [done|]. rewrite <- Z.pow_add_r by lia.
    by replace (n + (Zdigits2 m - n)) with (Zdigits2 m) by lia. }
  pose proof (Z.pow_pos_nonneg 2 (Zdigits2 m - n - 1)). split; [lia|].
  apply Zdigits2_unique; lia.
Qed.

Lemma Zdigits2_mul m n : 0 < m -> 0 <= n -> Zdigits2 (m * 2 ^ n) = Zdigits2 m + n.
Proof.
  intros Hm Hn. destruct (Zdigits2_bounds m Hm) as [Hp [Hl Hu]].
  apply Zdigits2_unique; [lia|].
  replace (Zdigits2 m + n - 1) with ((Zdigits2 m - 1) + n) by lia.
  rewrite !Z.pow_add_r by lia. pose proof (Z.pow_pos_nonneg 2 n). nia.
Qed.

Lemma Zdigits2_incr m : 0 < m -> Zdigits2 m <= Zdigits2 (m + 1) <= Zdigits2 m + 1.
Proof.
  intros Hm. destruct (Zdigits2_bounds m Hm) as [Hp [Hl Hu]].
  destruct (Zdigits2_bounds (m + 1)) as [Hp' [Hl' Hu']]; [lia|]. split.
  - destruct (Z.le_gt_cases (Zdigits2 m) (Zdigits2 (m + 1))); [done|].
    pose proof (Z.pow_le_mono_r 2 (Zdigits2 (m + 1)) (Zdigits2 m - 1)). lia.
  - destruct (Z.le_gt_cases (Zdigits2 (m + 1)) (Zdigits2 m + 1)); [done|].
    pose proof (Z.pow_le_mono_r 2 (Zdigits2 m + 1) (Zdigits2 (m + 1) - 1)).
    rewrite Z.pow_add_r in * by lia. lia.
Qed.

(** ** Rounding keeps a positive number positive *)
Lemma shr_1_m mrs : 0 <= shr_m mrs -> shr_m (shr_1 mrs) = shr_m mrs / 2.
Proof.
  destruct mrs as [m r s]. cbn [shr_m]. intros Hm. destruct m as [|[p|p|]|p]; cbn [shr_1 shr_m]; try done; div_lia.
Qed.

Lemma iter_shr_m p mrs : 0 <= shr_m mrs -> shr_m (iter_pos shr_1 p mrs) = shr_m mrs / 2 ^ Zpos p.
Proof.
  assert (Hd : forall m a b, 0 <= m -> 0 <= a -> 0 <= b -> m / 2 ^ a / 2 ^ b = m / 2 ^ (a + b)).
  { intros m a b Hm Ha Hb. rewrite Z.div_div, <- Z.pow_add_r; try lia; apply Z.pow_pos_nonneg || apply Z.pow_nonzero; lia. }
  assert (Hn : forall m a, 0 <= m -> 0 <= m / 2 ^ a).
  { intros m a Hm. destruct (Z.le_gt_cases 0 a); [apply Z.div_pos; [done|apply Z.pow_pos_nonneg; lia]|].
    rewrite Z.pow_neg_r by lia. by destruct m. }
  revert mrs. induction p as [p IH|p IH|]; intros mrs Hm; cbn [iter_pos].
  - rewrite IH; rewrite IH; rewrite ?shr_1_m by done; try (apply Hn); try (by apply Z.div_pos).
    change (shr_m mrs / 2) with (shr_m mrs / 2 ^ 1). rewrite !Hd by lia. do 2 f_equal. lia.
  - rewrite IH; rewrite IH; try done; [|by apply Hn]. rewrite Hd by lia. do 2 f_equal. lia.
  - by rewrite shr_1_m.
Qed.

Lemma shr_record_m m l : shr_m (shr_record_of_loc m l) = m.
Proof. by destruct l as [|[]]. Qed.

(** A mantissa that does not underflow keeps its magnitude [digits + exponent] through the alignment. *)
Lemma shr_fexp_mag m e l : 0 < m -> -1073 <= Zdigits2 m + e ->
  let '(mrs, e') := shr_fexp 53 1024 m e l in
  0 < shr_m mrs /\ Zdigits2 (shr_m mrs) + e' = Zdigits2 m + e /\ Zdigits2 (shr_m mrs) <= 53.
Proof.
  intros Hm Hmag. unfold shr_fexp, fexp, emin, shr.
  destruct (Zdigits2_bounds m Hm) as [Hp _].
  destruct (Z.max _ _ - e) as [|p|p] eqn:Hs; rewrite ?shr_record_m; try lia.
  rewrite iter_shr_m; rewrite shr_record_m; [|lia].
  destruct (Zdigits2_div m (Zpos p)) as [? ?]; lia.
Qed.

Lemma round_nearest_even_pos m l : 0 < m ->
  0 < round_nearest_even m l /\ Zdigits2 m <= Zdigits2 (round_nearest_even m l) <= Zdigits2 m + 1.
Proof.
  intros Hm. pose proof (Zdigits2_incr m Hm). unfold round_nearest_even. repeat case_match; lia.
Qed.

Lemma binary_round_aux_pos m e l : 0 < m -> -1073 <= Zdigits2 m + e <= 900 ->
  exists m' e', binary_round_aux 53 1024 false m e l = S754_finite false m' e' /\
    Zdigits2 m + e <= Zdigits2 (Zpos m') + e' <= Zdigits2 m + e + 1 /\ Zdigits2 (Zpos m') <= 53.
Proof.
  intros Hm Hmag. unfold binary_round_aux.
  pose proof (shr_fexp_mag m e l Hm) as H1. destruct (shr_fexp 53 1024 m e l) as [mrs e1].
  destruct H1 as (Hm1 & Hmag1 & Hd1); [lia|].
  destruct (round_nearest_even_pos (shr_m mrs) (loc_of_shr_record mrs) Hm1) as [Hm2 Hd2].
  set (r := round_nearest_even _ _) in *.
  pose proof (shr_fexp_mag r e1 loc_Exact Hm2) as H2. destruct (shr_fexp 53 1024 r e1 loc_Exact) as [mrs2 e2].
  destruct H2 as (Hm3 & Hmag3 & Hd3); [lia|].
  destruct (shr_m mrs2) as [|m'|m']; try lia. exists m', e2.
  assert (e2 <=? 1024 - 53 = true) as ->; [|split; [done|lia]].
  apply Z.leb_le. destruct (Zdigits2_bounds (Zpos m')) as [? _]; lia.
Qed.

Lemma iter_xO m d : Zpos (Pos.iter xO m d) = Zpos m * 2 ^ Zpos d.
Proof.
  induction d as [|d IH] using Pos.peano_ind; [cbn; lia|].
  rewrite Pos.iter_succ, Pos2Z.inj_succ, Z.pow_succ_r by lia. lia.
Qed.

Lemma shl_align_mag m e e0 :
  let '(m', e') := shl_align m e e0 in Zdigits2 (Zpos m') + e' = Zdigits2 (Zpos m) + e.
Proof.
  unfold shl_align. destruct (e0 - e) as [|d|d] eqn:Hd; try lia.
  rewrite iter_xO, Zdigits2_mul by lia. lia.
Qed.

(** [float64(z)] of a positive integer is a positive finite number of the same magnitude. *)
Lemma of_Z_pos z : 0 < z < 2 ^ 64 ->
  exists m e, of_Z z = S754_finite false m e /\ 1 <= Zdigits2 (Zpos m) + e <= 65 /\ Zdigits2 (Zpos m) <= 53.
Proof.
  intros Hz. destruct z as [|p|p]; try lia. cbn [of_Z binary_normalize]. unfold of_Z, binary_normalize, binary_round.
  pose proof (shl_align_mag p 0 (fexp 53 1024 (Zpos (digits2_pos p) + 0))) as Hs.
  destruct (shl_align _ _ _) as [mz ez].
  destruct (Zdigits2_bounds (Zpos p)) as [Hd [Hl Hu]]; [lia|].
  assert (Zdigits2 (Zpos p) <= 64).
  { destruct (Z.le_gt_cases (Zdigits2 (Zpos p)) 64); [done|].
    pose proof (Z.pow_le_mono_r 2 64 (Zdigits2 (Zpos p) - 1)). lia. }
  destruct (binary_round_aux_pos (Zpos mz) ez loc_Exact) as (m & e & -> & ? & ?); [lia|lia|].
  exists m, e. split; [done|]. lia.
Qed.

(** The quotient of two positive 64-bit integers compares above zero. *)
Lemma fdiv_pos a b : 0 < a < 2 ^ 64 -> 0 < b < 2 ^ 64 ->
  exists m e, fdiv (of_Z a) (of_Z b) = S754_finite false m e.
Proof.
  intros Ha Hb.
  destruct (of_Z_pos a Ha) as (m1 & e1 & -> & Hmag1 & Hd1).
  destruct (of_Z_pos b Hb) as (m2 & e2 & -> & Hmag2 & Hd2).
  unfold fdiv, SFdiv, SFdiv_core_binary, fexp, emin. cbn [xorb].
  destruct (Zdigits2_bounds (Zpos m1)) as [Hp1 [Hl1 Hu1]]; [lia|].
  destruct (Zdigits2_bounds (Zpos m2)) as [Hp2 [Hl2 Hu2]]; [lia|].
  set (d1 := Zdigits2 (Zpos m1)) in *. set (d2 := Zdigits2 (Zpos m2)) in *.
  set (e' := Z.min _ _). assert (He' : e' = Z.min (d1 + e1 - (d2 + e2) - 53) (e1 - e2)) by lia.
  set (s := e1 - e2 - e'). assert (Hs : d2 - d1 + 53 <= s /\ 0 <= s <= 300) by lia.
  assert (Hm' : match s with 0 => Zpos m1 | Zpos _ => Z.shiftl (Zpos m1) s | Zneg _ => 0 end = Zpos m1 * 2 ^ s).
  { destruct s eqn:Es; [lia|rewrite Z.shiftl_mul_pow2 by lia; done|lia]. }
  rewrite Hm'. destruct (Z.div_eucl (Zpos m1 * 2 ^ s) (Zpos m2)) as [q r] eqn:Hq.
  pose proof (Z_div_mod (Zpos m1 * 2 ^ s) (Zpos m2) ltac:(lia)) as Hdm. rewrite Hq in Hdm. destruct Hdm as [Hqr Hr].
  assert (Hnum : 2 ^ (d2 + 52) <= Zpos m1 * 2 ^ s).
  { transitivity (2 ^ (d1 - 1) * 2 ^ s); [|apply Z.mul_le_mono_nonneg_r; [apply Z.pow_nonneg; lia|done]].
    rewrite <- Z.pow_add_r by lia. apply Z.pow_le_mono_r; lia. }
  assert (Hq0 : 0 < q).
  { rewrite Z.pow_add_r in Hnum by lia. assert (2 ^ 52 >= 1) by (vm_compute; discriminate).
    assert (0 < 2 ^ d2) by (apply Z.pow_pos_nonneg; lia). nia. }
  destruct (binary_round_aux_pos q e' (new_location (Zpos m2) r) Hq0) as (m & e & -> & _); [|by eauto].
  destruct (Zdigits2_bounds q Hq0) as [Hdq [Hlq Huq]].
  split; [lia|]. assert (q <= Zpos m1 * 2 ^ s) by nia.
  assert (2 ^ (Zdigits2 q - 1) <= 2 ^ 353).
  { transitivity q; [done|]. transitivity (2 ^ 53 * 2 ^ 300); [|by vm_compute].
    transitivity (Zpos m1 * 2 ^ s); [done|].
    pose proof (Z.pow_le_mono_r 2 d1 53). pose proof (Z.pow_le_mono_r 2 s 300).
    pose proof (Z.pow_nonneg 2 s). apply Z.mul_le_mono_nonneg; lia. }
  apply Z.pow_le_mono_r_iff in H0; lia.
Qed.

Lemma fdiv_zero b : 0 < b < 2 ^ 64 -> fdiv (of_Z 0) (of_Z b) = fzero.
Proof. intros Hb. destruct (of_Z_pos b Hb) as (m & e & -> & _). done. Qed.

(** ** Comparison *)
Definition is_nan (f : float64) : bool := match f with S754_nan => true | _ => false end.

Lemma fltb_trans x y z : fltb x y = true -> fltb y z = true -> fltb x z = true.
Proof.
  unfold fltb, SFltb, SFcompare.
  destruct x as [|[]| |[] m1 e1], y as [|[]| |[] m2 e2], z as [|[]| |[] m3 e3]; try done;
    destruct (Z.compare_spec e1 e2), (Z.compare_spec e2 e3), (Z.compare_spec e1 e3); try done; try lia; subst;
    try (rewrite !Pos.compare_cont_spec in * );
    destruct (Pos.compare_spec m1 m2), (Pos.compare_spec m2 m3), (Pos.compare_spec m1 m3); cbn in *; try done; lia.
Qed.

(** Truncating a product of non-negative numbers gives a non-negative integer. *)
Lemma binary_round_aux_sign m e l :
  match binary_round_aux 53 1024 false m e l with
  | S754_zero s | S754_infinity s | S754_finite s _ _ => s = false
  | S754_nan => True
  end.
Proof. unfold binary_round_aux. repeat case_match; simplify_eq; done. Qed.

Lemma fmul_trunc_nonneg z f t : 0 <= z < 2 ^ 64 ->
  match f with S754_finite s _ _ => s = false | _ => False end ->
  to_int64 (fmul (of_Z z) f) = Some t -> 0 <= t.
Proof.
  intros Hz Hf. destruct f as [| | |s mf ef]; try done. subst s.
  destruct (decide (z = 0)) as [->|]; [intros [= <-]; done|].
  destruct (of_Z_pos z) as (m & e & -> & _); [lia|]. unfold fmul, SFmul. cbn [xorb].
  pose proof (binary_round_aux_sign (Z.pos (m * mf)) (e + ef) loc_Exact) as Hs.
  destruct (binary_round_aux _ _ _ _ _ _) as [b|b| |b m' e']; cbn; subst; try done; [by intros [= <-]|].
  intros [_ ->]%checked_Some. cbn [cond_Zopp].
  case_match; [apply Z.mul_nonneg_nonneg; [lia|apply Z.pow_nonneg; lia]|].
  apply Z.div_pos; [lia|]. apply Z.pow_pos_nonneg; lia.
Qed.
