(* ===== verification/IssuerQueue.v ===== *)
(** * IssuerQueue (congestioncontrol/scheduler/drr/issuerqueue.go)

    The queue of one block issuer: blocks that were submitted and wait for
    their parents ([submitted]), and ready blocks in a heap ordered by issuing
    time ([inbox]).  Queue elements are the immutable data of the blocks; their
    mutable flags live in the block store.  [size] and [work] are the counters
    the buffer's accounting relies on. *)
From S2P Require Import Prelude GoHeap Block.

Record IssuerQueue := mkIssuerQueue {
  issuerID : AccountID;
  submitted : gmap BlockID ModelBlock;
  inbox : list ModelBlock;
  size : Z;
  work : Z;
}.

Definition NewIssuerQueue (issuerID : AccountID) : IssuerQueue := mkIssuerQueue issuerID ∅ [] 0 0.

(** [Size] and [Work] accept a nil receiver; [Work] converts the counter to
    iota.go's [WorkScore] type, whose conversion is a parameter. *)
Definition Size (q : option IssuerQueue) : Z :=
  match q with None => 0 | Some q => size q end.
Definition Work (toWorkScore : Z -> Z) (q : option IssuerQueue) : Z :=
  match q with None => 0 | Some q => toWorkScore (work q) end.

(** [Submit] panics on a block of another issuer. *)
Definition Submit (element : ModelBlock) (q : IssuerQueue) : outcome (bool * IssuerQueue) :=
  if decide (issuerID q <> IssuerID element) then Panic
  else match submitted q !! ID element with
       | Some _ => Ret (false, q)
       | None => Ret (true, mkIssuerQueue (issuerID q) (<[ID element := element]> (submitted q)) (inbox q)
                              (size q + 1) (work q + WorkScore element))
       end.

Definition Unsubmit (block : ModelBlock) (q : IssuerQueue) : bool * IssuerQueue :=
  match submitted q !! ID block with
  | None => (false, q)
  | Some _ => (true, mkIssuerQueue (issuerID q) (delete (ID block) (submitted q)) (inbox q)
                       (size q - 1) (work q - WorkScore block))
  end.

Definition Ready (block : ModelBlock) (q : IssuerQueue) : bool * IssuerQueue :=
  match submitted q !! ID block with
  | None => (false, q)
  | Some _ => (true, mkIssuerQueue (issuerID q) (delete (ID block) (submitted q))
                       (Push IssuingTime (inbox q) block) (size q) (work q))
  end.

(** [IDs]: submitted blocks in map order, then the inbox as stored. *)
Definition IDs `{!RangeOrder BlockID} (q : IssuerQueue) : list BlockID :=
  (range_of (submitted q)).*1 ++ (ID <$> inbox q).

Definition Front (q : option IssuerQueue) : option ModelBlock :=
  match q with
  | None => None
  | Some q => match inbox q with [] => None | b :: _ => Some b end
  end.

Definition PopFront (q : IssuerQueue) : option ModelBlock * IssuerQueue :=
  match inbox q with
  | [] => (None, q)
  | _ => match Pop IssuingTime (inbox q) with
         | Some (blk, h) => (Some blk, mkIssuerQueue (issuerID q) (submitted q) h (size q - 1) (work q - WorkScore blk))
         | None => (None, q)
         end
  end.

(** [q.tail()]: -1 for an empty inbox, otherwise the last index whose element
    is not older than the best one so far. *)
Definition tail_from (h : list ModelBlock) (tail : nat) (idx : list nat) : nat :=
  foldl (fun t i => if negb (Less IssuingTime h i t) then i else t) tail idx.
Definition tail (q : IssuerQueue) : option nat :=
  match inbox q with [] => None | h => Some (tail_from h 0%nat (seq 0 (length h))) end.

(** The [ForEach] of [RemoveTail]: the first block of minimal issuing time in iteration order. *)
Definition oldest (l : list ModelBlock) : option ModelBlock :=
  foldl (fun acc b => match acc with
                      | None => Some b
                      | Some o => if IssuingTime b <? IssuingTime o then Some b else Some o
                      end) None l.

Definition RemoveTail `{!RangeOrder BlockID} (q : IssuerQueue) : option ModelBlock * IssuerQueue :=
  let oldestSubmittedBlock := oldest (range_of (submitted q)).*2 in
  let unsubmit o := (Some o, snd (Unsubmit o q)) in
  let drop_inbox i :=
    match Remove IssuingTime (inbox q) i with
    | Some (blk, h) => (Some blk, mkIssuerQueue (issuerID q) (submitted q) h (size q - 1) (work q - WorkScore blk))
    | None => (None, q)
    end in
  match oldestSubmittedBlock, tail q with
  | Some o, None => unsubmit o
  | Some o, Some i =>
      match inbox q !! i with
      | Some t => if IssuingTime o <? IssuingTime t then unsubmit o else drop_inbox i
      | None => drop_inbox i
      end
  | None, None => (None, q)
  | None, Some i => drop_inbox i
  end.

(** ** The queue invariant *)

(** All blocks held, submitted or ready. *)
Definition contents (q : IssuerQueue) : list ModelBlock := (map_to_list (submitted q)).*2 ++ inbox q.

Record queue_inv (q : IssuerQueue) : Prop := {
  qi_size : size q = Z.of_nat (length (contents q));
  qi_work : work q = zsum WorkScore (contents q);
  qi_heap : is_heap IssuingTime (inbox q);
  qi_keys : forall id b, submitted q !! id = Some b -> ID b = id;
  qi_issuer : Forall (fun b => IssuerID b = issuerID q) (contents q);
}.

(** A change of the held blocks by exactly one element, with its accounting. *)
Lemma contents_delete q b : submitted q !! ID b = Some b ->
  contents q ≡ₚ b :: (map_to_list (delete (ID b) (submitted q))).*2 ++ inbox q.
Proof.
  intros Hb. unfold contents. rewrite <- (insert_delete_id _ _ _ Hb) at 1.
  by rewrite map_to_list_insert by apply lookup_delete_eq.
Qed.

Lemma queue_inv_new a : queue_inv (NewIssuerQueue a).
Proof. by split. Qed.

Lemma queue_inv_remove q q' b :
  queue_inv q -> contents q ≡ₚ b :: contents q' ->
  issuerID q' = issuerID q -> size q' = size q - 1 -> work q' = work q - WorkScore b ->
  is_heap IssuingTime (inbox q') -> (forall id c, submitted q' !! id = Some c -> ID c = id) -> queue_inv q'.
Proof.
  intros [Hs Hw Hh Hk Hi] Hp Hid Hs' Hw' Hh' Hk'. split; try done.
  - rewrite Hs', Hs, (Permutation_length Hp). cbn. lia.
  - rewrite Hw', Hw, (zsum_perm _ _ _ Hp). cbn. lia.
  - rewrite Hid. rewrite Hp in Hi. by inversion Hi.
Qed.

Lemma Submit_spec q b ok q' : queue_inv q -> Submit b q = Ret (ok, q') ->
  queue_inv q' /\ issuerID q' = issuerID q /\
  (if ok then contents q' ≡ₚ b :: contents q /\ submitted q' !! ID b = Some b /\ inbox q' = inbox q else q' = q).
Proof.
  intros Hq. unfold Submit. case_decide as Hid; [done|].
  destruct (submitted q !! ID b) eqn:Hb; intros [= <- <-]; [done|].
  set (q' := mkIssuerQueue _ _ _ _ _).
  assert (Hc : contents q' ≡ₚ b :: contents q).
  { unfold contents; cbn. by rewrite map_to_list_insert. }
  destruct Hq as [Hs Hw Hh Hk Hi]. split; [|split; [done|split; [done|split; [apply lookup_insert_eq|done]]]].
  split; cbn; try done.
  - rewrite (Permutation_length Hc). cbn. lia.
  - rewrite (zsum_perm _ _ _ Hc). cbn. lia.
  - intros id c. rewrite lookup_insert. case_decide; [congruence|apply Hk].
  - rewrite Hc. by constructor.
Qed.

Lemma Unsubmit_spec q b : queue_inv q -> submitted q !! ID b = Some b ->
  let q' := snd (Unsubmit b q) in
  fst (Unsubmit b q) = true /\ queue_inv q' /\ issuerID q' = issuerID q /\ contents q ≡ₚ b :: contents q'.
Proof.
  intros Hq Hb. unfold Unsubmit. rewrite Hb. cbn. pose proof (contents_delete q b Hb) as Hc.
  split_and!; try done. eapply queue_inv_remove; try done; [apply Hq|].
  intros id c. cbn. rewrite lookup_delete_Some. intros [_ ?]. by eapply qi_keys.
Qed.

(** [Ready] moves one block between the two parts of the queue. *)
Lemma Ready_spec q b : queue_inv q -> submitted q !! ID b = Some b ->
  let q' := snd (Ready b q) in
  fst (Ready b q) = true /\ queue_inv q' /\ issuerID q' = issuerID q /\ contents q' ≡ₚ contents q /\
  b ∈ inbox q' /\ submitted q' !! ID b = None.
Proof.
  intros Hq Hb. unfold Ready. rewrite Hb. cbn [fst snd]. set (q' := mkIssuerQueue _ _ _ _ _).
  assert (Hc : contents q' ≡ₚ contents q).
  { rewrite (contents_delete q b Hb). unfold contents; cbn. rewrite Push_perm.
    by rewrite <- Permutation_middle. }
  destruct Hq as [Hs Hw Hh Hk Hi]. split_and!; try done; [split|..]; cbn.
  - by rewrite (Permutation_length Hc).
  - by rewrite (zsum_perm _ _ _ Hc).
  - by apply Push_heap.
  - intros id c. rewrite lookup_delete_Some. intros [_ ?]. by apply Hk.
  - by rewrite Hc.
  - rewrite Push_perm. set_solver.
  - apply lookup_delete_eq.
Qed.

(** [PopFront] takes a ready block no other ready block is older than. *)
Lemma PopFront_spec q : queue_inv q ->
  match PopFront q with
  | (None, q') => inbox q = [] /\ q' = q
  | (Some b, q') => Front (Some q) = Some b /\ queue_inv q' /\ issuerID q' = issuerID q /\
                    contents q ≡ₚ b :: contents q' /\ submitted q' = submitted q /\
                    forall c, c ∈ inbox q -> IssuingTime b <= IssuingTime c
  end.
Proof.
  intros Hq. unfold PopFront, Front. destruct (inbox q) as [|x l] eqn:Hin; [done|].
  destruct (Pop_spec IssuingTime (inbox q)) as (b & h' & H0 & Hpop & Hh' & Hp & Hmin);
    [apply Hq|by rewrite Hin|]. rewrite <- Hin, Hpop. rewrite Hin in H0. cbn in H0.
  assert (Hc : contents q ≡ₚ b :: (map_to_list (submitted q)).*2 ++ h').
  { unfold contents. rewrite Hp. by rewrite Permutation_middle. }
  split_and!; try done. eapply queue_inv_remove; try done. apply Hq.
Qed.

Lemma oldest_spec_aux l acc :
  match foldl (fun acc b => match acc with
                      | None => Some b
                      | Some o => if IssuingTime b <? IssuingTime o then Some b else Some o
                      end) acc l with
  | None => acc = None /\ l = []
  | Some o => (acc = Some o \/ o ∈ l) /\
              (forall b, acc = Some b \/ b ∈ l -> IssuingTime o <= IssuingTime b)
  end.
Proof.
  revert acc. induction l as [|x l IH]; intros acc; cbn.
  - destruct acc as [o|]; [|done]. split; [by left|]. intros b [[= ->]|Hb]; [lia|set_solver].
  - destruct acc as [o|].
    + specialize (IH (if IssuingTime x <? IssuingTime o then Some x else Some o)).
      destruct (Z.ltb_spec (IssuingTime x) (IssuingTime o)); destruct (foldl _ _ l) as [o'|];
        try (destruct IH; congruence); destruct IH as [Ho Hb]; split.
      * right. destruct Ho as [[= ->]|]; set_solver.
      * intros b [[= ->]|[->|Hbl]%elem_of_cons]; [pose proof (Hb x)|..]; eauto. specialize (Hb x); intuition lia.
      * destruct Ho as [[= ->]|]; set_solver.
      * intros b [[= ->]|[->|Hbl]%elem_of_cons]; eauto. specialize (Hb o); intuition lia.
    + specialize (IH (Some x)). destruct (foldl _ _ l) as [o'|]; [|destruct IH; congruence].
      destruct IH as [Ho Hb]. split; [right; destruct Ho as [[= ->]|]; set_solver|].
      intros b [?|[->|Hbl]%elem_of_cons]; eauto; congruence.
Qed.

Lemma oldest_spec l :
  match oldest l with
  | None => l = []
  | Some o => o ∈ l /\ forall b, b ∈ l -> IssuingTime o <= IssuingTime b
  end.
Proof.
  pose proof (oldest_spec_aux l None) as Ho. unfold oldest. destruct (foldl _ _ _) as [o|]; [|by destruct Ho].
  destruct Ho as [[?|?] Hb]; [done|]. split; eauto.
Qed.

Lemma tail_from_spec h t n : (n <= length h)%nat -> (t < length h)%nat ->
  let r := tail_from h t (seq 0 n) in
  (r < length h)%nat /\ kat IssuingTime h t <= kat IssuingTime h r /\
  forall j, (j < n)%nat -> kat IssuingTime h j <= kat IssuingTime h r.
Proof.
  intros Hn Ht. induction n as [|n IH]; cbn zeta; [cbn; split_and!; try done; lia|].
  destruct IH as (IHr & IHt & IHj); [lia|]. unfold tail_from in *. rewrite seq_S, foldl_app. cbn [foldl Nat.add].
  set (r := foldl _ t (seq 0 n)) in *. rewrite Less_kat by lia.
  destruct (Z.ltb_spec (kat IssuingTime h n) (kat IssuingTime h r)); cbn [negb];
    split_and!; try lia; intros j Hj; (destruct (decide (j = n)) as [->|]; [lia|]); specialize (IHj j); lia.
Qed.

Lemma tail_spec q i : tail q = Some i ->
  exists t, inbox q !! i = Some t /\ forall b, b ∈ inbox q -> IssuingTime b <= IssuingTime t.
Proof.
  unfold tail. destruct (inbox q) as [|x l] eqn:Hin; [done|]. rewrite <- Hin. intros [= <-].
  destruct (tail_from_spec (inbox q) 0 (length (inbox q))) as (Hr & _ & Hj); [lia|rewrite Hin; cbn; lia|].
  cbn zeta in *. set (r := tail_from _ _ _) in *.
  destruct (lookup_lt_is_Some_2 _ _ Hr) as [t Ht]. exists t. split; [done|].
  intros b [j Hb]%list_elem_of_lookup. specialize (Hj j ltac:(by eapply lookup_lt_Some)).
  unfold kat in Hj. by rewrite Hb, Ht in Hj.
Qed.

Lemma tail_None q : tail q = None <-> inbox q = [].
Proof. unfold tail. destruct (inbox q); split; done. Qed.

(** Which block [RemoveTail] evicts: the oldest submitted block when it is
    older than every ready block can be (the newest one included), otherwise a newest ready block. *)
Definition is_tail (q : IssuerQueue) (b : ModelBlock) : Prop :=
  (submitted q !! ID b = Some b /\
   (forall c, c ∈ (map_to_list (submitted q)).*2 -> IssuingTime b <= IssuingTime c) /\
   (inbox q = [] \/ exists t, t ∈ inbox q /\ (forall c, c ∈ inbox q -> IssuingTime c <= IssuingTime t) /\
                              IssuingTime b < IssuingTime t)) \/
  (b ∈ inbox q /\ (forall c, c ∈ inbox q -> IssuingTime c <= IssuingTime b) /\
   (forall c, c ∈ (map_to_list (submitted q)).*2 -> IssuingTime b <= IssuingTime c)).

Section RemoveTail.
Context `{!RangeOrder BlockID}.

Lemma range_values (m : gmap BlockID ModelBlock) : (range_of m).*2 ≡ₚ (map_to_list m).*2.
Proof. by rewrite range_of_perm. Qed.

Lemma oldest_submitted q : queue_inv q ->
  match oldest (range_of (submitted q)).*2 with
  | None => submitted q = ∅
  | Some o => submitted q !! ID o = Some o /\
              forall c, c ∈ (map_to_list (submitted q)).*2 -> IssuingTime o <= IssuingTime c
  end.
Proof.
  intros Hq. pose proof (oldest_spec (range_of (submitted q)).*2) as Ho.
  destruct (oldest _) as [o|].
  - destruct Ho as [Hin Hmin]. split.
    + apply list_elem_of_fmap in Hin as ([id b] & -> & Hin). apply elem_of_range in Hin.
      cbn. by rewrite (qi_keys q Hq id b Hin).
    + intros c Hc. apply Hmin. by rewrite range_values.
  - apply fmap_nil_inv in Ho. apply map_to_list_empty_iff. apply Permutation_nil_r.
    by rewrite <- range_of_perm, Ho.
Qed.

Lemma drop_inbox_spec q i : queue_inv q -> (i < length (inbox q))%nat ->
  exists b h', inbox q !! i = Some b /\ Remove IssuingTime (inbox q) i = Some (b, h') /\
    let q' := mkIssuerQueue (issuerID q) (submitted q) h' (size q - 1) (work q - WorkScore b) in
    queue_inv q' /\ contents q ≡ₚ b :: contents q'.
Proof.
  intros Hq Hi. destruct (Remove_spec IssuingTime (inbox q) i) as (b & h' & Hb & Hr & Hh' & Hp);
    [apply Hq|done|]. exists b, h'. split; [done|]. split; [done|]. cbn zeta.
  assert (Hc : contents q ≡ₚ b :: (map_to_list (submitted q)).*2 ++ h').
  { unfold contents. rewrite Hp. by rewrite Permutation_middle. }
  split; [|done]. eapply queue_inv_remove; try done; apply Hq.
Qed.

(** [RemoveTail] empties nothing but one block, and returns nil only for an empty queue. *)
Lemma RemoveTail_spec q : queue_inv q ->
  match RemoveTail q with
  | (None, q') => contents q = [] /\ q' = q
  | (Some b, q') => queue_inv q' /\ issuerID q' = issuerID q /\ contents q ≡ₚ b :: contents q' /\ is_tail q b
  end.
Proof.
  intros Hq. unfold RemoveTail. pose proof (oldest_submitted q Hq) as Ho.
  destruct (oldest _) as [o|]; destruct (tail q) as [i|] eqn:Ht.
  - destruct Ho as [Hos Hmin]. destruct (tail_spec q i Ht) as (t & Hti & Hmax). rewrite Hti.
    destruct (Z.ltb_spec (IssuingTime o) (IssuingTime t)) as [Hlt|Hge].
    + destruct (Unsubmit_spec q o Hq Hos) as (_ & ? & ? & ?). split_and!; try done.
      left. split_and!; try done. right. exists t. split; [by eapply list_elem_of_lookup_2|done].
    + destruct (drop_inbox_spec q i Hq) as (b & h' & Hb & -> & ? & ?); [by eapply lookup_lt_Some|].
      assert (b = t) as -> by congruence. split_and!; try done. right.
      split_and!; [by eapply list_elem_of_lookup_2|done|]. intros c Hc. specialize (Hmin c Hc). lia.
  - destruct Ho as [Hos Hmin]. destruct (Unsubmit_spec q o Hq Hos) as (_ & ? & ? & ?).
    split_and!; try done. left. split_and!; try done. left. by apply tail_None.
  - destruct (tail_spec q i Ht) as (t & Hti & Hmax).
    destruct (drop_inbox_spec q i Hq) as (b & h' & Hb & -> & ? & ?); [by eapply lookup_lt_Some|].
    assert (b = t) as -> by congruence. split_and!; try done. right.
    split_and!; [by eapply list_elem_of_lookup_2|done|]. rewrite Ho, map_to_list_empty. set_solver.
  - apply tail_None in Ht. unfold contents. by rewrite Ho, map_to_list_empty, Ht.
Qed.
End RemoveTail.
