(* ===== verification/BufferQueue.v ===== *)
(** * BufferQueue (congestioncontrol/scheduler/drr/drrbuffer.go)

    The buffer of issuer queues: a map from issuer to its element of a
    [container/ring], the ring's current position for the round robin, the
    number of buffered blocks, and the token bucket of the rate limiter.

    A queue is allocated together with its ring element, so a [*IssuerQueue] is
    the address of that element and pointer comparisons are comparisons of
    addresses.  The node store is part of the state. *)
From S2P Require Import Prelude GoHeap Block Float64 IssuerQueue.

Record BufferQueue := mkBuffer {
  activeIssuers : gmap AccountID ptr;
  ring : option ptr;
  bufferSize : Z;
  tokenBucket : float64;
  lastScheduleTime : Z;
  blockChan : option ModelBlock;        (* channel of capacity 1 *)
  nodes : gmap ptr (RingNode IssuerQueue);
  nextPtr : ptr;                        (* next unused address *)
}.

(** Assignments to single fields. *)
Definition set_active v (b : BufferQueue) := mkBuffer v (ring b) (bufferSize b) (tokenBucket b) (lastScheduleTime b) (blockChan b) (nodes b) (nextPtr b).
Definition set_ring v (b : BufferQueue) := mkBuffer (activeIssuers b) v (bufferSize b) (tokenBucket b) (lastScheduleTime b) (blockChan b) (nodes b) (nextPtr b).
Definition set_bufferSize v (b : BufferQueue) := mkBuffer (activeIssuers b) (ring b) v (tokenBucket b) (lastScheduleTime b) (blockChan b) (nodes b) (nextPtr b).
Definition set_bucket t d (b : BufferQueue) := mkBuffer (activeIssuers b) (ring b) (bufferSize b) t d (blockChan b) (nodes b) (nextPtr b).
Definition set_blockChan v (b : BufferQueue) := mkBuffer (activeIssuers b) (ring b) (bufferSize b) (tokenBucket b) (lastScheduleTime b) v (nodes b) (nextPtr b).
Definition set_nodes v (b : BufferQueue) := mkBuffer (activeIssuers b) (ring b) (bufferSize b) (tokenBucket b) (lastScheduleTime b) (blockChan b) v (nextPtr b).

Definition NewBufferQueue (now : Z) : BufferQueue := mkBuffer ∅ None 0 fzero now None ∅ 1%positive.

Definition NumActiveIssuers (b : BufferQueue) : Z := Z.of_nat (base.size (activeIssuers b)).
Definition BufferSize (b : BufferQueue) : Z := bufferSize b.

(** Reading and writing through a queue pointer. *)
Definition queue_at (b : BufferQueue) (p : ptr) : option IssuerQueue := Value <$> nodes b !! p.
Definition put_queue (p : ptr) (q : IssuerQueue) (b : BufferQueue) : BufferQueue := set_nodes (set_value p q (nodes b)) b.

(** [IssuerQueue(id)] (nil when absent) and [GetIssuerQueue(id)] (an error when absent):
    every ring value is an issuer queue, so the type assertions succeed. *)
Definition IssuerQueuePtr (id : AccountID) (b : BufferQueue) : option ptr := activeIssuers b !! id.
Definition GetIssuerQueue (id : AccountID) (b : BufferQueue) : option ptr := activeIssuers b !! id.

(** [Next] advances the ring, [Current] reads it; nil without a ring. *)
Definition BNext (b : BufferQueue) : outcome (option ptr * BufferQueue) :=
  match ring b with
  | None => Ret (None, b)
  | Some r => r' ← GoHeap.Next (nodes b) r; Ret (Some r', set_ring (Some r') b)
  end.
Definition Current (b : BufferQueue) : option ptr := ring b.

(** [ringInsert]: a new element goes in front of the current one. *)
Definition ringInsert (v : IssuerQueue) (b : BufferQueue) : outcome (ptr * BufferQueue) :=
  let p := nextPtr b in
  let h := New p v (nodes b) in
  let alloc r h := mkBuffer (activeIssuers b) r (bufferSize b) (tokenBucket b) (lastScheduleTime b)
                     (blockChan b) h (Pos.succ p) in
  match ring b with
  | None => Ret (p, alloc (Some p) h)
  | Some r => '(n, h) ← Link h p r; Ret (n, alloc (Some r) h)
  end.

(** [ringRemove(r)] as written: [n] is the successor of the current element,
    also when [r] is another one. *)
Definition ringRemove (r : ptr) (b : BufferQueue) : outcome BufferQueue :=
  cur ← deref (ring b);
  n ← GoHeap.Next (nodes b) cur;
  if decide (r = cur) then
    if decide (n = cur) then Ret (set_ring None b)
    else
      z ← Prev (nodes b) r;
      '(_, h) ← Link (nodes b) z n;
      Ret (set_nodes h (set_ring (Some n) b))
  else
    z ← Prev (nodes b) r;
    '(_, h) ← Link (nodes b) z n;
    Ret (set_nodes h b).

Definition CreateIssuerQueue (id : AccountID) (b : BufferQueue) : outcome (ptr * BufferQueue) :=
  '(p, b) ← ringInsert (NewIssuerQueue id) b;
  Ret (p, set_active (<[id := p]> (activeIssuers b)) b).

Definition InsertIssuer (id : AccountID) (b : BufferQueue) : outcome BufferQueue :=
  match activeIssuers b !! id with
  | Some _ => Ret b
  | None => '(_, b) ← CreateIssuerQueue id b; Ret b
  end.

Definition RemoveIssuer (id : AccountID) (b : BufferQueue) : outcome BufferQueue :=
  match activeIssuers b !! id with
  | None => Ret b
  | Some element =>
      q ← deref (queue_at b element);
      let b := set_bufferSize (bufferSize b - IssuerQueue.size q) b in
      b ← ringRemove element b;
      Ret (set_active (delete id (activeIssuers b)) b)
  end.

(** ** Loops over the ring

    [for q := start; ; { body; q = b.Next(); if q == start { break } }] with an
    accumulating body.  The fuel bounds the number of elements visited. *)
Fixpoint ring_fold {S : Type} (body : S -> IssuerQueue -> S) (fuel : nat) (b : BufferQueue)
    (start q : ptr) (acc : S) : outcome (S * BufferQueue) :=
  match fuel with
  | O => OutOfFuel
  | Datatypes.S fuel =>
      v ← deref (queue_at b q);
      let acc := body acc v in
      '(q', b) ← BNext b;
      q' ← deref q';
      if decide (q' = start) then Ret (acc, b) else ring_fold body fuel b start q' acc
  end.

(** One round of the ring visits at most every allocated element. *)
Definition ring_fuel (b : BufferQueue) : nat := Datatypes.S (base.size (nodes b)).

Definition ring_loop {S : Type} (body : S -> IssuerQueue -> S) (b : BufferQueue) (acc : S) : outcome (S * BufferQueue) :=
  match Current b with
  | None => Ret (acc, b)
  | Some start => ring_fold body (ring_fuel b) b start start acc
  end.

Definition ReadyBlocksCount (b : BufferQueue) : outcome (Z * BufferQueue) :=
  ring_loop (fun acc q => acc + Z.of_nat (length (inbox q))) b 0.
Definition TotalBlocksCount (b : BufferQueue) : outcome (Z * BufferQueue) :=
  ring_loop (fun acc q => acc + Z.of_nat (length (inbox q)) + Z.of_nat (base.size (submitted q))) b 0.
Definition IssuerIDs (b : BufferQueue) : outcome (list AccountID * BufferQueue) :=
  ring_loop (fun acc q => acc ++ [issuerID q]) b [].

(** ** Operations on blocks *)
Definition BPopFront (b : BufferQueue) : outcome (option ModelBlock * BufferQueue) :=
  match Current b with
  | None => Ret (None, b)
  | Some p =>
      q ← deref (queue_at b p);
      match PopFront q with
      | (None, q) => Ret (None, put_queue p q b)
      | (Some block, q) => Ret (Some block, set_bufferSize (bufferSize b - 1) (put_queue p q b))
      end
  end.

Definition BUnsubmit (block : ModelBlock) (b : BufferQueue) : outcome (bool * BufferQueue) :=
  match IssuerQueuePtr (IssuerID block) b with
  | None => Ret (false, b)
  | Some p =>
      q ← deref (queue_at b p);
      let '(ok, q) := Unsubmit block q in
      if ok then Ret (true, set_bufferSize (bufferSize b - 1) (put_queue p q b)) else Ret (false, b)
  end.

Definition BReady (block : ModelBlock) (b : BufferQueue) : outcome (bool * BufferQueue) :=
  match IssuerQueuePtr (IssuerID block) b with
  | None => Ret (false, b)
  | Some p =>
      q ← deref (queue_at b p);
      let '(ok, q) := Ready block q in Ret (ok, put_queue p q b)
  end.

Section Drop.
Context `{!RangeOrder BlockID} (toWorkScore : Z -> Z) (quantumFunc : AccountID -> Z).

(** [float64(q.Work()) / float64(issuerQuantum)] *)
Definition scale_of (q : IssuerQueue) (issuerQuantum : Z) : float64 :=
  fdiv (of_Z (Work toWorkScore (Some q))) (of_Z issuerQuantum).

(** The inner loop of [dropTail]: the issuer of the longest mana-scaled queue. *)
Fixpoint dropTail_scan (fuel : nat) (b : BufferQueue) (start ringStart q : ptr)
    (maxScale : float64) (maxIssuerID : AccountID) : outcome (AccountID * BufferQueue) :=
  match fuel with
  | O => OutOfFuel
  | Datatypes.S fuel =>
      v ← deref (queue_at b q);
      let continue maxScale maxIssuerID :=
        '(q', b) ← BNext b;
        q' ← deref q';
        if decide (q' = start) then Ret (maxIssuerID, b)
        else dropTail_scan fuel b start ringStart q' maxScale maxIssuerID in
      let issuerQuantum := quantumFunc (issuerID v) in
      if 0 <? issuerQuantum then
        let scale := scale_of v issuerQuantum in
        if fltb maxScale scale then continue scale (issuerID v) else continue maxScale maxIssuerID
      else if 0 <? Size (Some v) then Ret (issuerID v, set_ring (Some ringStart) b)
      else continue maxScale maxIssuerID
  end.

(** [dropTail]; [maxIssuerID] starts as the zero account ID. *)
Fixpoint dropTail_loop (fuel : nat) (start ringStart : ptr) (maxBuffer : Z) (b : BufferQueue)
    (droppedBlocks : list ModelBlock) : outcome (list ModelBlock * BufferQueue) :=
  if bufferSize b <=? maxBuffer then Ret (droppedBlocks, b)
  else match fuel with
       | O => OutOfFuel
       | Datatypes.S fuel =>
           '(maxIssuerID, b) ← dropTail_scan (ring_fuel b) b start ringStart start neg_inf 0;
           match IssuerQueuePtr maxIssuerID b with
           | None => dropTail_loop fuel start ringStart maxBuffer b droppedBlocks
           | Some p =>
               q ← deref (queue_at b p);
               match RemoveTail q with
               | (None, _) => dropTail_loop fuel start ringStart maxBuffer b droppedBlocks
               | (Some t, q) =>
                   dropTail_loop fuel start ringStart maxBuffer
                     (set_bufferSize (bufferSize b - 1) (put_queue p q b)) (droppedBlocks ++ [t])
               end
           end
       end.

Definition dropTail (maxBuffer : Z) (b : BufferQueue) : outcome (list ModelBlock * BufferQueue) :=
  start ← deref (Current b);
  dropTail_loop (Z.to_nat (bufferSize b - maxBuffer)) start start maxBuffer b [].

(** [Submit]: dropped blocks and whether the block was new. *)
Definition BSubmit (blk : ModelBlock) (issuerQueue : ptr) (maxBuffer : Z) (b : BufferQueue)
    : outcome (list ModelBlock * bool * BufferQueue) :=
  q ← deref (queue_at b issuerQueue);
  '(ok, q) ← Submit blk q;
  if negb ok then Ret ([], false, b)
  else
    let b := set_bufferSize (bufferSize b + 1) (put_queue issuerQueue q b) in
    if maxBuffer <? bufferSize b then
      '(dropped, b) ← dropTail maxBuffer b; Ret (dropped, true, b)
    else Ret ([], true, b).
End Drop.

(** ** The token bucket *)

(** [waitTime] as written: [time.Duration(tokensRequired / rate)], floored at 0. *)
Definition waitTime (rate : float64) (block : ModelBlock) (now : Z) (b : BufferQueue) : option Z :=
  let tokensRequired :=
    fsub (of_Z (WorkScore block))
         (fadd (tokenBucket b) (fmul rate (Seconds (now - lastScheduleTime b)))) in
  d ← to_int64 (fdiv tokensRequired rate); Some (Z.max 0 d).

Definition updateTokenBucket (rate tokenBucketSize : float64) (now now' : Z) (b : BufferQueue) : BufferQueue :=
  set_bucket (fmin tokenBucketSize (fadd (tokenBucket b) (fmul rate (Seconds (now - lastScheduleTime b))))) now' b.

Definition deductTokens (tokens : float64) (b : BufferQueue) : BufferQueue :=
  set_bucket (fsub (tokenBucket b) tokens) (lastScheduleTime b) b.

(** ** The buffer invariant

    [buffer_inv b l]: the ring, read from its current element, is [l]; the
    active issuers are exactly the issuers of [l]; every queue of [l] satisfies
    the queue invariant; and [size] counts the blocks of all queues. *)
Record buffer_inv (b : BufferQueue) (l : list ptr) : Prop := {
  bi_ring : match ring b with None => l = [] | Some r => head l = Some r /\ ring_cycle (nodes b) l end;
  bi_active : forall id p, activeIssuers b !! id = Some p <->
                p ∈ l /\ exists q, queue_at b p = Some q /\ issuerID q = id;
  bi_queues : forall p q, p ∈ l -> queue_at b p = Some q -> queue_inv q;
  bi_size : bufferSize b = zsum (fun p => Size (queue_at b p)) l;
  bi_fresh : forall p, is_Some (nodes b !! p) -> (p < nextPtr b)%positive;
}.

Lemma buffer_inv_new now : buffer_inv (NewBufferQueue now) [].
Proof.
  split; cbn; try done.
  - intros id p. rewrite lookup_empty. set_solver.
  - intros p [? H]. by rewrite lookup_empty in H.
Qed.

Lemma bi_cycle b a l : buffer_inv b (a :: l) -> ring b = Some a /\ ring_cycle (nodes b) (a :: l).
Proof. intros [Hr _ _ _ _]. destruct (ring b); [|done]. destruct Hr as [[= ->] ?]. done. Qed.

Lemma bi_nodup b l : buffer_inv b l -> NoDup l.
Proof. intros [Hr _ _ _ _]. destruct (ring b); [by destruct Hr as [_ [? _]]|subst; constructor]. Qed.

Lemma bi_node b l p : buffer_inv b l -> p ∈ l -> exists q, queue_at b p = Some q.
Proof.
  intros Hb Hp. destruct l as [|a l]; [set_solver|]. apply bi_cycle in Hb as [_ Hc].
  destruct (ring_elem _ _ _ Hc Hp) as [n Hn]. exists (Value n). unfold queue_at. by rewrite Hn.
Qed.

Lemma bi_length b l : buffer_inv b l -> (length l <= base.size (nodes b))%nat.
Proof.
  intros Hb. rewrite <- size_dom. rewrite <- (size_list_to_set (C := gset ptr) l) by by eapply bi_nodup.
  apply subseteq_size. intros p Hp%elem_of_list_to_set. apply elem_of_dom.
  destruct (bi_node b l p Hb Hp) as [q Hq]. unfold queue_at in Hq. destruct (nodes b !! p); [done|discriminate].
Qed.

Lemma queue_size_nonneg q : queue_inv q -> 0 <= IssuerQueue.size q.
Proof. intros [-> _ _ _ _]. lia. Qed.

(** Rotation: [Next] makes the second element current. *)
Lemma BNext_spec b a l : buffer_inv b (a :: l) ->
  exists a' l', l ++ [a] = a' :: l' /\ BNext b = Ret (Some a', set_ring (Some a') b) /\
                buffer_inv (set_ring (Some a') b) (l ++ [a]).
Proof.
  intros Hb. destruct (bi_cycle b a l Hb) as [Hr Hc].
  destruct (ring_next_head _ _ _ Hc) as (a' & l' & Heq & Hn). exists a', l'. split; [done|].
  assert (Hp : l ++ [a] ≡ₚ a :: l) by (by rewrite Permutation_app_comm).
  split; [unfold BNext; by rewrite Hr, Hn|]. destruct Hb as [_ Ha Hq Hs Hf]. split; cbn; try done.
  - split; [by rewrite Heq|]. by apply ring_cycle_rotate.
  - intros id p. rewrite Hp. apply Ha.
  - intros p q. rewrite Hp. apply Hq.
  - by rewrite (zsum_perm _ _ _ Hp).
Qed.

Lemma zsum_update {A} `{EqDecision A} (f g : A -> Z) l x :
  NoDup l -> x ∈ l -> (forall y, y <> x -> g y = f y) -> zsum g l = zsum f l - f x + g x.
Proof.
  intros Hnd (l1 & l2 & ->)%list_elem_of_split He.
  apply NoDup_app in Hnd as (_ & H1 & [H2 _]%NoDup_cons).
  rewrite !zsum_app. cbn. rewrite (zsum_ext g f l1), (zsum_ext g f l2); [lia|..];
    intros y Hy; apply He; intros ->; [done|]. apply (H1 x); set_solver.
Qed.

Lemma queue_at_put b p q p' : is_Some (nodes b !! p) ->
  queue_at (put_queue p q b) p' = if decide (p' = p) then Some q else queue_at b p'.
Proof.
  intros [n Hn]. unfold queue_at, put_queue, set_value. cbn. rewrite lookup_alter.
  repeat case_decide; subst; try done. by rewrite Hn.
Qed.

(** Replacing one queue by another of the same issuer. *)
Lemma buffer_inv_put b l p q q' s :
  buffer_inv b l -> p ∈ l -> queue_at b p = Some q -> queue_inv q' -> issuerID q' = issuerID q ->
  s = bufferSize b - IssuerQueue.size q + IssuerQueue.size q' ->
  buffer_inv (set_bufferSize s (put_queue p q' b)) l.
Proof.
  intros Hb Hp Hq Hq' Hid ->. pose proof (bi_nodup b l Hb) as Hnd.
  assert (Hsome : is_Some (nodes b !! p)).
  { unfold queue_at in Hq. destruct (nodes b !! p); [done|discriminate]. }
  assert (Hqa : forall p', queue_at (put_queue p q' b) p' = if decide (p' = p) then Some q' else queue_at b p')
    by (intros; by apply queue_at_put).
  destruct Hb as [Hr Ha Hqs Hs Hf]. split; cbn [ring nodes activeIssuers bufferSize nextPtr set_bufferSize put_queue set_nodes].
  - destruct (ring b); [|done]. destruct Hr as [? ?]. split; [done|]. by apply ring_set_value.
  - intros id p'. rewrite Ha. split; intros [Hin (q0 & Hq0 & Hi)]; (split; [done|]).
    + change (queue_at (set_bufferSize _ _) p') with (queue_at (put_queue p q' b) p'). rewrite Hqa.
      case_decide; subst; [|by eauto]. exists q'. split; [done|]. congruence.
    + change (queue_at (set_bufferSize _ _) p') with (queue_at (put_queue p q' b) p') in Hq0. rewrite Hqa in Hq0.
      case_decide; simplify_eq; eauto.
  - intros p' q0 Hin Hq0. change (queue_at (set_bufferSize _ _) p') with (queue_at (put_queue p q' b) p') in Hq0.
    rewrite Hqa in Hq0. case_decide; simplify_eq; eauto.
  - rewrite (zsum_update (fun p => Size (queue_at b p)) _ l p Hnd Hp).
    + change (queue_at (set_bufferSize _ _) p) with (queue_at (put_queue p q' b) p).
      rewrite Hqa, decide_True, Hq, Hs by done. cbn. lia.
    + intros y Hy. change (queue_at (set_bufferSize _ _) y) with (queue_at (put_queue p q' b) y).
      by rewrite Hqa, decide_False.
  - intros p' Hp'. apply Hf. unfold set_value in Hp'. rewrite lookup_alter in Hp'. case_decide; subst; [|done].
    done.
Qed.

Lemma set_bufferSize_id b : set_bufferSize (bufferSize b) b = b.
Proof. by destruct b. Qed.

Lemma bi_active_elem b l id p : buffer_inv b l -> activeIssuers b !! id = Some p ->
  p ∈ l /\ exists q, queue_at b p = Some q /\ issuerID q = id /\ queue_inv q.
Proof.
  intros Hb Hid. apply (bi_active b l Hb) in Hid as [Hp (q & Hq & Hi)].
  split; [done|]. exists q. split_and!; try done. by eapply bi_queues.
Qed.

(** ** Operations preserve the invariant *)

(** A block handed to an operation is the object the queues hold under its ID. *)
Definition known (block : ModelBlock) (b : BufferQueue) : Prop :=
  forall p q c, queue_at b p = Some q -> submitted q !! ID block = Some c -> c = block.

Lemma BPopFront_spec b a l : buffer_inv b (a :: l) ->
  exists q, queue_at b a = Some q /\
  match PopFront q with
  | (None, _) => BPopFront b = Ret (None, b)
  | (Some blk, q') => BPopFront b = Ret (Some blk, set_bufferSize (bufferSize b - 1) (put_queue a q' b)) /\
      buffer_inv (set_bufferSize (bufferSize b - 1) (put_queue a q' b)) (a :: l)
  end.
Proof.
  intros Hb. destruct (bi_cycle b a l Hb) as [Hr _].
  destruct (bi_node b (a :: l) a Hb) as [q Hq]; [set_solver|]. exists q. split; [done|].
  pose proof (bi_queues b _ Hb a q ltac:(set_solver) Hq) as Hqi.
  pose proof (PopFront_spec q Hqi) as Hpop. unfold BPopFront, Current. rewrite Hr, Hq. cbn [deref mbind outcome_bind].
  destruct (PopFront q) as [[blk|] q']; cycle 1.
  - destruct Hpop as [_ ->]. do 2 f_equal. unfold put_queue. unfold queue_at in Hq.
    destruct (nodes b !! a) as [n|] eqn:Hn; [|done]. cbn in Hq. injection Hq as <-.
    unfold set_value. rewrite (alter_id (fun n0 => mkNode (next n0) (prev n0) (Value n))); [by destruct b|].
    intros n0 Hn0. rewrite Hn in Hn0. injection Hn0 as <-. by destruct n.
  - destruct Hpop as (_ & Hqi' & Hid & Hc & _ & _). split; [done|].
    eapply buffer_inv_put; try done; [set_solver|].
    rewrite (qi_size q Hqi), (qi_size q' Hqi'), (Permutation_length Hc). cbn. lia.
Qed.

Lemma BReady_spec b l block : buffer_inv b l -> known block b ->
  exists ok b', BReady block b = Ret (ok, b') /\ buffer_inv b' l /\ bufferSize b' = bufferSize b /\
    (ok = true <-> exists p q, activeIssuers b !! IssuerID block = Some p /\ queue_at b p = Some q /\
                               is_Some (submitted q !! ID block)).
Proof.
  intros Hb Hk. unfold BReady, IssuerQueuePtr. destruct (activeIssuers b !! IssuerID block) as [p|] eqn:Hid.
  2: { exists false, b. split_and!; try done. split; [done|]. naive_solver. }
  destruct (bi_active_elem b l _ p Hb Hid) as [Hp (q & Hq & Hqid & Hqi)]. rewrite Hq. cbn [deref mbind outcome_bind].
  destruct (submitted q !! ID block) as [c|] eqn:Hc.
  - pose proof (Hk p q c Hq Hc) as ->. destruct (Ready_spec q block Hqi Hc) as (Hok & Hqi' & Hid' & Hperm & _).
    destruct (Ready block q) as [ok q'] eqn:HR. cbn in *. subst ok. eexists _, _. split; [done|].
    assert (Hs : IssuerQueue.size q' = IssuerQueue.size q)
      by (rewrite (qi_size q Hqi), (qi_size q' Hqi'), (Permutation_length Hperm); done).
    split_and!; [|done|split; [intros _; eauto 10|done]].
    rewrite <- (set_bufferSize_id (put_queue p q' b)). eapply buffer_inv_put; try done. cbn. lia.
  - unfold Ready. rewrite Hc. eexists false, _. split; [done|].
    split_and!; [|done|split; [done|]].
    + rewrite <- (set_bufferSize_id (put_queue p q b)). eapply buffer_inv_put; try done. cbn. lia.
    + intros (p' & q' & [= <-] & Hq' & [? ?]). rewrite Hq in Hq'. injection Hq' as <-. congruence.
Qed.

Lemma BUnsubmit_spec b l block : buffer_inv b l -> known block b ->
  exists ok b', BUnsubmit block b = Ret (ok, b') /\ buffer_inv b' l /\
    bufferSize b' = if ok then bufferSize b - 1 else bufferSize b.
Proof.
  intros Hb Hk. unfold BUnsubmit, IssuerQueuePtr. destruct (activeIssuers b !! IssuerID block) as [p|] eqn:Hid.
  2: { by exists false, b. }
  destruct (bi_active_elem b l _ p Hb Hid) as [Hp (q & Hq & Hqid & Hqi)]. rewrite Hq. cbn [deref mbind outcome_bind].
  destruct (submitted q !! ID block) as [c|] eqn:Hc.
  - pose proof (Hk p q c Hq Hc) as ->. destruct (Unsubmit_spec q block Hqi Hc) as (Hok & Hqi' & Hid' & Hperm).
    destruct (Unsubmit block q) as [ok q'] eqn:HR. cbn in *. subst ok. eexists true, _. split; [done|]. split; [|done].
    eapply buffer_inv_put; try done.
    rewrite (qi_size q Hqi), (qi_size q' Hqi'), (Permutation_length Hperm). cbn. lia.
  - unfold Unsubmit. rewrite Hc. by exists false, b.
Qed.

Lemma fresh_ptr b l : buffer_inv b l -> nodes b !! nextPtr b = None /\ nextPtr b ∉ l.
Proof.
  intros Hb. assert (Hfresh : nodes b !! nextPtr b = None).
  { destruct (nodes b !! nextPtr b) eqn:E; [|done]. pose proof (bi_fresh b l Hb _ ltac:(by eauto)). lia. }
  split; [done|]. intros Hp. destruct (bi_node b l _ Hb Hp) as [q Hq]. unfold queue_at in Hq. by rewrite Hfresh in Hq.
Qed.

(** [ringInsert] puts the new element at the end of the round. *)
Lemma ringInsert_spec b l v : buffer_inv b l ->
  let p := nextPtr b in
  let cur := from_option Datatypes.id p (ring b) in
  exists h', ringInsert v b =
      Ret (p, mkBuffer (activeIssuers b) (Some cur) (bufferSize b) (tokenBucket b)
                (lastScheduleTime b) (blockChan b) h' (Pos.succ p)) /\
      head (l ++ [p]) = Some cur /\ ring_cycle h' (l ++ [p]) /\
      (forall q, Value <$> h' !! q = if decide (q = p) then Some v else queue_at b q).
Proof.
  intros Hb p cur. destruct (fresh_ptr b l Hb) as [Hfresh _]. fold p in Hfresh.
  unfold ringInsert. fold p. pose proof (bi_ring b l Hb) as Hr. unfold cur. destruct (ring b) as [r|] eqn:Er.
  - destruct Hr as [Hh Hc]. destruct l as [|a l]; [done|]. cbn in Hh. injection Hh as ->.
    destruct (ring_insert (nodes b) r l p v Hc Hfresh) as (h' & HL & Hc' & HV).
    rewrite HL. cbn [mbind outcome_bind]. by exists h'.
  - subst l. exists (New p v (nodes b)). split_and!; try done.
    + split; [apply NoDup_singleton|]. cbn. unfold edge, New. by rewrite lookup_insert_eq.
    + intros q. unfold New, queue_at. rewrite lookup_insert. repeat case_decide; subst; done.
Qed.

(** A new issuer enters at the end of the round: in front of the current element. *)
Lemma CreateIssuerQueue_spec b l id : buffer_inv b l -> activeIssuers b !! id = None ->
  exists p b', CreateIssuerQueue id b = Ret (p, b') /\ buffer_inv b' (l ++ [p]) /\ p ∉ l /\
    queue_at b' p = Some (NewIssuerQueue id) /\ (forall q, q <> p -> queue_at b' q = queue_at b q) /\
    activeIssuers b' = <[id := p]> (activeIssuers b) /\ bufferSize b' = bufferSize b /\ blockChan b' = blockChan b.
Proof.
  intros Hb Hid. destruct (fresh_ptr b l Hb) as [_ Hpl].
  destruct (ringInsert_spec b l (NewIssuerQueue id) Hb) as (h' & HI & Hhead & Hc & HQ).
  set (p := nextPtr b) in *. unfold CreateIssuerQueue. rewrite HI. cbn [mbind outcome_bind].
  eexists p, _. split; [done|].
  split_and!; try done; cbn.
  2: { unfold queue_at; cbn. by rewrite HQ, decide_True. }
  2: { intros q Hq. unfold queue_at at 1; cbn. by rewrite HQ, decide_False. }
  pose proof Hb as [_ Ha Hqs Hs Hf]. split; cbn; try done.
  - intros id' p'. unfold queue_at at 1; cbn. rewrite HQ, lookup_insert, elem_of_app, list_elem_of_singleton.
    destruct (decide (id = id')) as [->|Hne].
    + split; [intros [= <-]; split; [by right|]; rewrite decide_True by done; by eexists|].
      intros [[Hp'| ->] (q & Hq & Hiq)]; [|done]. rewrite decide_False in Hq by (intros ->; done).
      assert (activeIssuers b !! id' = Some p') by (apply Ha; eauto). congruence.
    + rewrite Ha. split; intros [Hp' (q & Hq & Hiq)].
      * split; [by left|]. exists q. by rewrite decide_False by (intros ->; done).
      * case_decide; [subst; simplify_eq|]. destruct Hp' as [Hp'|]; [|done]. eauto.
  - intros p' q. unfold queue_at; cbn. rewrite HQ, elem_of_app, list_elem_of_singleton.
    case_decide; [intros _ [= <-]; apply queue_inv_new|]. intros [?|?]; [by eapply Hqs|done].
  - rewrite zsum_app. cbn. unfold queue_at at 2; cbn. rewrite HQ, decide_True by done. cbn. rewrite Hs, Z.add_0_r.
    apply zsum_ext. intros q Hq. unfold queue_at at 2; cbn. rewrite HQ, decide_False; [done|]. by intros ->.
  - intros q Hq. destruct (decide (q = p)) as [->|Hne]; [lia|].
    pose proof (HQ q) as HQq. rewrite decide_False in HQq by done. unfold queue_at in HQq.
    pose proof (Hf q) as Hfq. rewrite <- (fmap_is_Some Value), <- HQq, fmap_is_Some in Hfq. specialize (Hfq Hq). lia.
Qed.

(** Removing the current issuer: the ring continues with its successor. *)
Lemma RemoveIssuer_current b a l q : buffer_inv b (a :: l) -> queue_at b a = Some q ->
  exists b', RemoveIssuer (issuerID q) b = Ret b' /\ buffer_inv b' l /\
    bufferSize b' = bufferSize b - IssuerQueue.size q /\ activeIssuers b' = delete (issuerID q) (activeIssuers b) /\
    (forall p, queue_at b' p = queue_at b p) /\ blockChan b' = blockChan b.
Proof.
  intros Hb Hq. destruct (bi_cycle b a l Hb) as [Hr Hc]. pose proof Hb as [_ Ha Hqs Hs Hf].
  assert (Hact : activeIssuers b !! issuerID q = Some a) by (apply Ha; split; [set_solver|eauto]).
  pose proof (bi_nodup b _ Hb) as [Hal Hnd]%NoDup_cons.
  assert (exists h', ringRemove a (set_bufferSize (bufferSize b - IssuerQueue.size q) b) =
      Ret (set_nodes h' (set_ring (head l) (set_bufferSize (bufferSize b - IssuerQueue.size q) b))) /\
      match l with [] => h' = nodes b | _ => ring_cycle h' l end /\
      (forall p, Value <$> h' !! p = queue_at b p)) as (h' & HR & Hc' & HV).
  { unfold ringRemove. cbn [ring nodes set_bufferSize]. rewrite Hr. cbn [deref mbind outcome_bind].
    destruct l as [|c l].
    - rewrite (ring_next_single _ _ Hc). cbn [mbind outcome_bind]. rewrite !decide_True by done.
      exists (nodes b). split_and!; try done.
    - rewrite (ring_next _ _ _ _ Hc). cbn [mbind outcome_bind]. rewrite decide_True, decide_False by set_solver.
      destruct (ring_remove_head _ _ _ _ Hc) as (z & h' & -> & HL & Hc' & HV). cbn [mbind outcome_bind].
      rewrite HL. cbn [mbind outcome_bind]. by exists h'. }
  unfold RemoveIssuer. rewrite Hact, Hq. cbn [deref mbind outcome_bind]. rewrite HR. cbn [mbind outcome_bind].
  eexists; split; [done|]. split_and!; try done.
  split; cbn.
  - destruct l as [|c l]; [done|]. by split.
  - intros id p. unfold queue_at; cbn. rewrite HV, lookup_delete_Some, Ha. split.
    + intros [Hne [Hin Hq']]. split; [|done]. destruct Hq' as (q' & Hq' & <-).
      apply elem_of_cons in Hin as [->|]; [|done]. congruence.
    + intros [Hin (q' & Hq' & <-)]. split; [|split; [set_solver|by exists q']].
      intros Heq. assert (activeIssuers b !! issuerID q' = Some p) by (apply Ha; split; [set_solver|eauto]).
      rewrite <- Heq in H. congruence.
  - intros p q'. unfold queue_at; cbn. rewrite HV. intros Hp. apply Hqs. set_solver.
  - rewrite Hs. cbn. rewrite Hq. cbn. unfold queue_at at 2; cbn.
    rewrite (zsum_ext (fun p => Size (Value <$> h' !! p)) (fun p => Size (queue_at b p))); [lia|].
    intros p _. by rewrite HV.
  - intros p Hp. apply Hf. rewrite <- (fmap_is_Some Value). unfold queue_at in HV. rewrite <- HV. by apply fmap_is_Some.
Qed.

(** ** Loops over the ring terminate and visit every queue once *)

(** The queues of a list of ring elements. *)
Definition queues (b : BufferQueue) (l : list ptr) : list IssuerQueue := omap (queue_at b) l.

Lemma set_ring_twice x y b : set_ring x (set_ring y b) = set_ring x b.
Proof. done. Qed.

(** One step of a round: [q] is current, [vis] were visited since [start]. *)
Lemma round_step b start q rest vis :
  buffer_inv b (q :: rest ++ vis) -> head (vis ++ [q]) = Some start ->
  match rest with
  | [] => BNext b = Ret (Some start, set_ring (Some start) b)
  | r :: rest' => BNext b = Ret (Some r, set_ring (Some r) b) /\ r <> start /\
                  buffer_inv (set_ring (Some r) b) (r :: rest' ++ (vis ++ [q]))
  end.
Proof.
  intros Hb Hs. destruct (BNext_spec b q (rest ++ vis) Hb) as (a' & l' & Heq & Hn & Hb').
  rewrite <- app_assoc in *. destruct rest as [|r rest]; cbn [app] in *.
  - rewrite Heq in Hs. injection Hs as ->. done.
  - injection Heq as <- Heq. split_and!; try done. intros ->.
    apply bi_nodup in Hb'. apply NoDup_cons in Hb' as [Hr _]. apply Hr.
    destruct (vis ++ [q]) as [|s t] eqn:E; [done|]. injection Hs as ->. set_solver.
Qed.

Lemma ring_fold_spec {S} (body : S -> IssuerQueue -> S) fuel b start q rest vis acc :
  buffer_inv b (q :: rest ++ vis) -> head (vis ++ [q]) = Some start -> (length rest < fuel)%nat ->
  ring_fold body fuel b start q acc = Ret (foldl body acc (queues b (q :: rest)), set_ring (Some start) b).
Proof.
  revert fuel b q vis acc. induction rest as [|r rest IH]; intros fuel b q vis acc Hb Hs Hf;
    (destruct fuel as [|fuel]; [exfalso; cbn in Hf; lia|]); cbn [ring_fold];
    (destruct (bi_node b _ q Hb) as [v Hv]; [set_solver|]);
    pose proof (round_step b start q _ vis Hb Hs) as Hstep;
    cbn [queues omap list_omap]; unfold queues; cbn [omap list_omap];
    rewrite Hv; cbn [deref mbind outcome_bind foldl].
  - rewrite Hstep. cbn [deref mbind outcome_bind]. by rewrite decide_True.
  - destruct Hstep as (Hn & Hne & Hb'). rewrite Hn. cbn [deref mbind outcome_bind]. rewrite decide_False by done.
    rewrite (IH fuel _ r (vis ++ [q])); [done|done| |cbn in Hf; lia].
    destruct vis as [|w vis]; cbn in *; congruence.
Qed.

Lemma ring_loop_spec {S} (body : S -> IssuerQueue -> S) b l acc : buffer_inv b l ->
  ring_loop body b acc = Ret (foldl body acc (queues b l), b).
Proof.
  intros Hb. unfold ring_loop, Current. destruct l as [|a l].
  - pose proof (bi_ring b [] Hb) as Hr. destruct (ring b); [by destruct Hr|]. done.
  - destruct (bi_cycle b a l Hb) as [-> _].
    pose proof (bi_length b _ Hb) as Hl. rewrite (ring_fold_spec body _ b a a l []); [|by rewrite app_nil_r|done|].
    + destruct (bi_cycle b a l Hb) as [Hr _]. rewrite <- Hr. by destruct b.
    + unfold ring_fuel. cbn in Hl. lia.
Qed.

(** ** [dropTail] *)

(** All blocks held by the queues of [l]. *)
Definition all_blocks (b : BufferQueue) (l : list ptr) : list ModelBlock := queues b l ≫= contents.

Lemma queues_app b l1 l2 : queues b (l1 ++ l2) = queues b l1 ++ queues b l2.
Proof. unfold queues. by rewrite omap_app. Qed.

Lemma elem_of_queues b l q : q ∈ queues b l <-> exists p, p ∈ l /\ queue_at b p = Some q.
Proof. unfold queues. rewrite list_elem_of_omap. naive_solver. Qed.

Lemma queues_one b p q : queue_at b p = Some q -> queues b [p] = [q].
Proof. intros H. unfold queues. cbn. by rewrite H. Qed.

Lemma queues_ext b b' l : (forall p, p ∈ l -> queue_at b' p = queue_at b p) -> queues b' l = queues b l.
Proof.
  induction l as [|a l IH]; intros Ho; [done|]. change (a :: l) with ([a] ++ l). rewrite !queues_app, IH by set_solver.
  f_equal. unfold queues; cbn. by rewrite Ho by set_solver.
Qed.

(** Changing one queue's contents changes the buffer's blocks accordingly. *)
Lemma all_blocks_split b b' l p q q' : NoDup l -> p ∈ l -> queue_at b p = Some q -> queue_at b' p = Some q' ->
  (forall p', p' <> p -> queue_at b' p' = queue_at b p') ->
  exists rest, all_blocks b l ≡ₚ contents q ++ rest /\ all_blocks b' l ≡ₚ contents q' ++ rest.
Proof.
  intros Hnd Hp Hq Hq' Ho. apply list_elem_of_split in Hp as (l1 & l2 & ->).
  apply NoDup_app in Hnd as (_ & H1 & [H2 _]%NoDup_cons).
  assert (E1 : queues b' l1 = queues b l1) by (apply queues_ext; intros x Hx; apply Ho; intros ->; apply (H1 p); set_solver).
  assert (E2 : queues b' l2 = queues b l2) by (apply queues_ext; intros x Hx; apply Ho; intros ->; done).
  exists (all_blocks b l1 ++ all_blocks b l2). unfold all_blocks.
  change (p :: l2) with ([p] ++ l2). rewrite !queues_app, !bind_app, (queues_one b p q Hq), (queues_one b' p q' Hq'), E1, E2.
  cbn [mbind list_bind]. rewrite !app_nil_r. split; rewrite Permutation_app_swap_app; done.
Qed.

(** A buffer with a positive size has a queue with blocks. *)
Lemma size_nonempty b l : buffer_inv b l -> 0 < bufferSize b -> exists v, v ∈ queues b l /\ contents v <> [].
Proof.
  intros Hb Hs. rewrite (bi_size b l Hb) in Hs. apply zsum_pos in Hs as (p & Hp & Hps).
  - destruct (queue_at b p) as [v|] eqn:Hv; [|cbn in Hps; lia]. exists v. split; [apply elem_of_queues; by eauto|].
    pose proof (bi_queues b l Hb p v Hp Hv) as Hq. cbn in Hps. rewrite (qi_size v Hq) in Hps. by intros Hc; rewrite Hc in Hps.
  - apply Forall_forall. intros p Hp. destruct (bi_node b l p Hb Hp) as [v Hv]. rewrite Hv.
    apply queue_size_nonneg. by eapply bi_queues.
Qed.

Section DropSpec.
Context `{!RangeOrder BlockID} (toWorkScore : Z -> Z) (quantumFunc : AccountID -> Z).
(** iota.go's [WorkScore] holds at least 32 bits. *)
Hypothesis toWorkScore_id : forall z, 0 <= z < 2 ^ 32 -> toWorkScore z = z.
(** The quantum is a [Deficit], an int64. *)
Hypothesis quantum_range : forall id, quantumFunc id < 2 ^ 63.

(** Every buffered block costs work, and no queue exceeds 32 bits of it. *)
Definition light (b : BufferQueue) (l : list ptr) : Prop :=
  forall p q, p ∈ l -> queue_at b p = Some q ->
    Forall (fun c => 0 < WorkScore c) (contents q) /\ work q < 2 ^ 32.

Definition nonempty (q : IssuerQueue) : Prop := contents q <> [].

Lemma work_sign q : queue_inv q -> Forall (fun c => 0 < WorkScore c) (contents q) ->
  (contents q = [] -> work q = 0) /\ (contents q <> [] -> 0 < work q).
Proof.
  intros Hq Hw. rewrite (qi_work q Hq). split; [by intros ->|]. intros Hne.
  destruct (contents q) as [|c cs]; [done|]. apply Forall_cons in Hw as [Hc Hcs]. cbn.
  enough (0 <= zsum WorkScore cs) by lia. apply zsum_nonneg.
  eapply Forall_impl; [exact Hcs|]. cbn. lia.
Qed.

(** The scale of an empty queue is zero, that of a queue with blocks is above zero. *)
Lemma scale_empty q quantum : queue_inv q -> contents q = [] -> 0 < quantum < 2 ^ 63 ->
  scale_of toWorkScore q quantum = fzero.
Proof.
  intros Hq He Hqu. unfold scale_of, Work.
  rewrite (qi_work q Hq), He. cbn [zsum]. rewrite toWorkScore_id by lia. apply fdiv_zero. lia.
Qed.

Lemma scale_nonempty q quantum : queue_inv q -> Forall (fun c => 0 < WorkScore c) (contents q) ->
  work q < 2 ^ 32 -> contents q <> [] -> 0 < quantum < 2 ^ 63 ->
  exists m e, scale_of toWorkScore q quantum = SpecFloat.S754_finite false m e.
Proof.
  intros Hq Hw Hl Hne Hqu. unfold scale_of, Work.
  pose proof (proj2 (work_sign q Hq Hw) Hne). rewrite toWorkScore_id by lia. apply fdiv_pos; lia.
Qed.

Lemma scale_above_inf q quantum : queue_inv q -> Forall (fun c => 0 < WorkScore c) (contents q) ->
  work q < 2 ^ 32 -> 0 < quantum < 2 ^ 63 -> fltb neg_inf (scale_of toWorkScore q quantum) = true.
Proof.
  intros Hq Hw Hl Hqu. destruct (decide (contents q = [])).
  - by rewrite scale_empty.
  - by destruct (scale_nonempty q quantum) as (m & e & ->).
Qed.

Definition quantum_of (q : IssuerQueue) : Z := quantumFunc (issuerID q).
Definition scaled (q : IssuerQueue) : float64 := scale_of toWorkScore q (quantum_of q).

(** What the running maximum knows about the queues visited so far. *)
Record scan_inv (vis : list IssuerQueue) (maxScale : float64) (maxIssuerID : AccountID) : Prop := {
  sc_zero : forall q, q ∈ vis -> quantum_of q <= 0 -> contents q = [];
  sc_max : forall q, q ∈ vis -> 0 < quantum_of q -> fltb maxScale (scaled q) = false;
  sc_arg : (maxScale = neg_inf /\ forall q, q ∈ vis -> quantum_of q <= 0) \/
           (exists q, q ∈ vis /\ 0 < quantum_of q /\ scaled q = maxScale /\ issuerID q = maxIssuerID);
}.

Lemma scan_inv_step vis v maxScale maxIssuerID :
  fltb neg_inf (scaled v) = true -> 0 < quantum_of v -> scan_inv vis maxScale maxIssuerID ->
  if fltb maxScale (scaled v) then scan_inv (vis ++ [v]) (scaled v) (issuerID v)
  else scan_inv (vis ++ [v]) maxScale maxIssuerID.
Proof.
  intros Hnan Hqu [Hz Hm Ha]. case_match eqn:Hlt; split.
  - intros q [?| ->%list_elem_of_singleton]%elem_of_app; [by apply Hz|lia].
  - intros q [Hq| ->%list_elem_of_singleton]%elem_of_app Hp.
    + specialize (Hm q Hq Hp). apply not_true_is_false. intros Hc.
      by rewrite (fltb_trans _ _ _ Hlt Hc) in Hm.
    + apply not_true_is_false. intros Hc. unfold fltb, SpecFloat.SFltb, SpecFloat.SFcompare in Hc.
      destruct (scaled v) as [|[]| |[] m e]; try done; rewrite Z.compare_refl, Pos.compare_cont_refl in Hc; done.
  - right. exists v. split_and!; try done. set_solver.
  - intros q [?| ->%list_elem_of_singleton]%elem_of_app; [by apply Hz|lia].
  - intros q [?| ->%list_elem_of_singleton]%elem_of_app; [by apply Hm|done].
  - destruct Ha as [[-> Hall]|(q & ? & ?)]; [congruence|].
    right. exists q. split; [set_solver|done].
Qed.

(** The queue [dropTail] takes a block from: any queue with blocks whose issuer
    has no quantum, otherwise a queue of maximal scaled length. *)
Definition longest (qs : list IssuerQueue) (v : IssuerQueue) : Prop :=
  v ∈ qs /\ contents v <> [] /\
  (quantum_of v <= 0 \/
   (0 < quantum_of v /\ forall w, w ∈ qs -> contents w <> [] -> 0 < quantum_of w /\ fltb (scaled v) (scaled w) = false)).

Lemma scan_inv_longest qs maxScale maxIssuerID :
  (forall q, q ∈ qs -> queue_inv q /\ Forall (fun c => 0 < WorkScore c) (contents q) /\ work q < 2 ^ 32) ->
  (exists q, q ∈ qs /\ contents q <> []) -> scan_inv qs maxScale maxIssuerID ->
  exists v, longest qs v /\ issuerID v = maxIssuerID.
Proof.
  intros Hqs (w & Hw & Hwc) [Hz Hm Ha].
  assert (Hpos : forall u, u ∈ qs -> contents u <> [] -> 0 < quantum_of u).
  { intros u Hu Huc. destruct (Z.lt_ge_cases 0 (quantum_of u)); [done|]. exfalso. by apply Huc, Hz. }
  destruct Ha as [[_ Hall]|(v & Hv & Hvq & Hvs & Hvi)]; [specialize (Hall w Hw); specialize (Hpos w Hw Hwc); lia|].
  exists v. split; [|done]. split_and!; [done| |right; split; [done|intros u Hu Huc; split; [by apply Hpos|]; rewrite Hvs; by apply Hm; [|apply Hpos]]].
  intros He. specialize (Hm w Hw (Hpos w Hw Hwc)). rewrite <- Hvs in Hm.
  destruct (Hqs v Hv) as (Hvi' & _ & _). destruct (Hqs w Hw) as (Hwi & Hww & Hwl).
  unfold scaled in Hm. rewrite (scale_empty v) in Hm; [|done..|split; [done|apply quantum_range]].
  destruct (scale_nonempty w (quantum_of w)) as (m & e & Hs); [done..|split; [by apply Hpos|apply quantum_range]|].
  rewrite Hs in Hm. done.
Qed.

Definition good_queue (q : IssuerQueue) : Prop :=
  queue_inv q /\ Forall (fun c => 0 < WorkScore c) (contents q) /\ work q < 2 ^ 32.

Lemma light_good b l : buffer_inv b l -> light b l -> forall q, q ∈ queues b l -> good_queue q.
Proof.
  intros Hb Hl q (p & Hp & Hq)%elem_of_queues. split; [by eapply bi_queues|]. by eapply Hl.
Qed.

Lemma good_above_inf q : good_queue q -> 0 < quantum_of q -> fltb neg_inf (scaled q) = true.
Proof. intros (? & ? & ?) ?. apply scale_above_inf; try done. split; [done|apply quantum_range]. Qed.

(** One visit of the scan: continue with an updated maximum, or stop at a queue without quantum. *)
Lemma scan_visit {A} (P : A -> Prop) (continue : float64 -> AccountID -> A) (stop : A) vis v maxScale maxIssuerID :
  good_queue v -> scan_inv vis maxScale maxIssuerID ->
  (forall ms mi, scan_inv (vis ++ [v]) ms mi -> P (continue ms mi)) ->
  (quantum_of v <= 0 -> contents v <> [] -> P stop) ->
  P (if 0 <? quantum_of v then
       if fltb maxScale (scaled v) then continue (scaled v) (issuerID v) else continue maxScale maxIssuerID
     else if 0 <? Size (Some v) then stop else continue maxScale maxIssuerID).
Proof.
  intros Hgv Hsc Hk Hstop. destruct (Z.ltb_spec 0 (quantum_of v)) as [Hqu|Hqu].
  - pose proof (scan_inv_step _ v _ _ (good_above_inf v Hgv Hqu) Hqu Hsc) as Hsc'. case_match; by apply Hk.
  - destruct Hgv as [Hq _]. cbn [Size]. rewrite (qi_size v Hq).
    destruct (contents v) as [|c cs] eqn:Hc; cbn [length]; [|rewrite (proj2 (Z.ltb_lt _ _)) by lia; by apply Hstop].
    apply Hk. destruct Hsc as [Hz Hm Ha]. split.
    + intros q [?| ->%list_elem_of_singleton]%elem_of_app; [by apply Hz|done].
    + intros q [?| ->%list_elem_of_singleton]%elem_of_app; [by apply Hm|lia].
    + destruct Ha as [[-> Ha]|(u & ? & ?)]; [left; split; [done|]|right; exists u; split; [set_solver|done]].
      intros q [?| ->%list_elem_of_singleton]%elem_of_app; [by apply Ha|done].
Qed.

(** The tail of the scan's body: advance, stop after a full round. *)
Definition scan_next fuel b start (maxScale : float64) (maxIssuerID : AccountID) : outcome (AccountID * BufferQueue) :=
  '(q', b) ← BNext b;
  q' ← deref q';
  if decide (q' = start) then Ret (maxIssuerID, b)
  else dropTail_scan toWorkScore quantumFunc fuel b start start q' maxScale maxIssuerID.

Lemma dropTail_scan_unfold fuel b start q v maxScale maxIssuerID : queue_at b q = Some v ->
  dropTail_scan toWorkScore quantumFunc (S fuel) b start start q maxScale maxIssuerID =
  (if 0 <? quantum_of v then
     if fltb maxScale (scaled v) then scan_next fuel b start (scaled v) (issuerID v)
     else scan_next fuel b start maxScale maxIssuerID
   else if 0 <? Size (Some v) then Ret (issuerID v, set_ring (Some start) b)
   else scan_next fuel b start maxScale maxIssuerID).
Proof. intros Hv. cbn [dropTail_scan]. by rewrite Hv. Qed.

Lemma dropTail_scan_spec fuel b start q rest vis maxScale maxIssuerID :
  buffer_inv b (q :: rest ++ vis) -> head (vis ++ [q]) = Some start -> (length rest < fuel)%nat ->
  (forall v, v ∈ queues b (vis ++ q :: rest) -> good_queue v) ->
  (exists v, v ∈ queues b (vis ++ q :: rest) /\ contents v <> []) ->
  scan_inv (queues b vis) maxScale maxIssuerID ->
  exists v, dropTail_scan toWorkScore quantumFunc fuel b start start q maxScale maxIssuerID =
              Ret (issuerID v, set_ring (Some start) b) /\ longest (queues b (vis ++ q :: rest)) v.
Proof.
  revert fuel b q vis maxScale maxIssuerID.
  induction rest as [|r rest IH]; intros fuel b q vis maxScale maxIssuerID Hb Hs Hf Hg Hne Hsc;
    (destruct fuel as [|fuel]; [exfalso; cbn in Hf; lia|]);
    (destruct (bi_node b _ q Hb) as [v Hv]; [set_solver|]);
    pose proof (round_step b start q _ vis Hb Hs) as Hstep; rewrite (dropTail_scan_unfold _ _ _ _ v) by done;
    (assert (Hin : forall l, v ∈ queues b (vis ++ q :: l)) by (intros l; rewrite elem_of_queues; exists q; split; [set_solver|done]));
    apply (scan_visit (fun o => exists v0, o = Ret (issuerID v0, set_ring (Some start) b) /\ longest _ v0)
             _ _ (queues b vis) v); [by eapply Hg|done| |intros Hz Hc; exists v; split; [done|]; split_and!; [done..|by left]
            |by eapply Hg|done| |intros Hz Hc; exists v; split; [done|]; split_and!; [done..|by left]];
    intros ms mi Hsc'; rewrite <- (queues_one b q v Hv), <- queues_app in Hsc'; unfold scan_next.
  - rewrite Hstep. cbn [deref mbind outcome_bind]. rewrite decide_True by done.
    destruct (scan_inv_longest (queues b (vis ++ [q])) ms mi) as (v' & Hlv & <-); [done..|by eauto].
  - destruct Hstep as (Hn & Hnes & Hb'). rewrite Hn. cbn [deref mbind outcome_bind].
    rewrite decide_False by done.
    destruct (IH fuel (set_ring (Some r) b) r (vis ++ [q]) ms mi) as (v' & Hv' & Hl'); try done.
    + destruct vis as [|w vis]; cbn in *; congruence.
    + cbn in Hf. lia.
    + by rewrite <- app_assoc.
    + by rewrite <- app_assoc.
    + exists v'. rewrite <- app_assoc in Hl'. done.
Qed.

(** One eviction: the tail of a longest queue. *)
Inductive drop_step (l : list ptr) : BufferQueue -> ModelBlock -> BufferQueue -> Prop :=
| drop_one b p v t v' :
    p ∈ l -> queue_at b p = Some v -> longest (queues b l) v -> is_tail v t -> RemoveTail v = (Some t, v') ->
    drop_step l b t (set_bufferSize (bufferSize b - 1) (put_queue p v' b)).

Inductive drop_steps (l : list ptr) : BufferQueue -> list ModelBlock -> BufferQueue -> Prop :=
| drops_nil b : drop_steps l b [] b
| drops_cons b t b1 ts b2 : drop_step l b t b1 -> drop_steps l b1 ts b2 -> drop_steps l b (t :: ts) b2.

Lemma drop_step_inv l b t b' : buffer_inv b l -> light b l -> drop_step l b t b' ->
  buffer_inv b' l /\ light b' l /\ bufferSize b' = bufferSize b - 1 /\
  all_blocks b l ≡ₚ t :: all_blocks b' l /\ activeIssuers b' = activeIssuers b /\ ring b' = ring b /\ blockChan b' = blockChan b.
Proof.
  intros Hb Hl Hd. destruct Hd as [b p v t v' Hp Hv Hlong Htail HR].
  pose proof (bi_queues b l Hb p v Hp Hv) as Hqi.
  pose proof (RemoveTail_spec v Hqi) as HRs. rewrite HR in HRs. destruct HRs as (Hqi' & Hid & Hc & _).
  assert (Hsome : is_Some (nodes b !! p)).
  { unfold queue_at in Hv. destruct (nodes b !! p); [done|discriminate]. }
  set (b' := set_bufferSize _ _).
  assert (HQ : forall p', queue_at b' p' = if decide (p' = p) then Some v' else queue_at b p')
    by (intros; by apply queue_at_put).
  split_and!; try done.
  - eapply buffer_inv_put; try done. rewrite (qi_size v Hqi), (qi_size v' Hqi'), (Permutation_length Hc). cbn. lia.
  - intros p' u Hp' Hu. rewrite HQ in Hu. case_decide; [|by eapply Hl]. simplify_eq.
    destruct (Hl p v Hp Hv) as [Hw Hlw]. rewrite Hc in Hw. apply Forall_cons in Hw as [Ht Hw]. split; [done|].
    rewrite (qi_work u Hqi'). rewrite (qi_work v Hqi), (zsum_perm _ _ _ Hc) in Hlw. cbn in Hlw. lia.
  - destruct (all_blocks_split b b' l p v v') as (rest & H1 & H2); try done.
    + by eapply bi_nodup.
    + by rewrite HQ, decide_True.
    + intros p' Hne. by rewrite HQ, decide_False.
    + rewrite H1, H2, Hc. done.
Qed.

Lemma drop_steps_inv l b ts b' : drop_steps l b ts b' -> buffer_inv b l -> light b l ->
  buffer_inv b' l /\ light b' l /\ bufferSize b' = bufferSize b - Z.of_nat (length ts) /\
  all_blocks b l ≡ₚ ts ++ all_blocks b' l /\ activeIssuers b' = activeIssuers b /\ ring b' = ring b /\ blockChan b' = blockChan b.
Proof.
  induction 1 as [b|b t b1 ts b2 Hd _ IH]; intros Hb Hl; [split_and!; [done|done|cbn; lia|done..]|].
  destruct (drop_step_inv _ _ _ _ Hb Hl Hd) as (Hb1 & Hl1 & Hs1 & Hc1 & Ha1 & Hr1 & Hch1).
  destruct (IH Hb1 Hl1) as (Hb2 & Hl2 & Hs2 & Hc2 & Ha2 & Hr2 & Hch2).
  split_and!; try congruence; [done|rewrite Hs2, Hs1; cbn [length]; lia|]. rewrite Hc1, Hc2. done.
Qed.

Lemma scan_inv_nil : scan_inv [] neg_inf 0.
Proof. split; [set_solver..|]. left. split; [done|set_solver]. Qed.

Lemma dropTail_loop_spec fuel b start l maxBuffer acc :
  buffer_inv b (start :: l) -> light b (start :: l) -> 0 <= maxBuffer -> bufferSize b - maxBuffer <= Z.of_nat fuel ->
  exists ts b', dropTail_loop toWorkScore quantumFunc fuel start start maxBuffer b acc = Ret (acc ++ ts, b') /\
    drop_steps (start :: l) b ts b' /\ bufferSize b' = Z.min (bufferSize b) maxBuffer.
Proof.
  intros Hb Hl Hmax. revert b acc Hb Hl. induction fuel as [|fuel IH]; intros b acc Hb Hl Hf;
    cbn [dropTail_loop]; destruct (Z.leb_spec (bufferSize b) maxBuffer) as [Hle|Hgt];
    try (exists [], b; rewrite app_nil_r; split_and!; [done|constructor|lia]); [lia|].
  destruct (dropTail_scan_spec (ring_fuel b) b start start l [] neg_inf 0) as (v & Hscan & Hlong).
  { by rewrite app_nil_r. } { done. }
  { pose proof (bi_length b _ Hb) as Hlen. unfold ring_fuel. cbn in Hlen. lia. }
  { by apply light_good. } { apply size_nonempty; [done|lia]. } { apply scan_inv_nil. }
  rewrite Hscan. cbn [mbind outcome_bind].
  assert (Hsr : set_ring (Some start) b = b) by (destruct (bi_cycle b start l Hb) as [Hr _]; rewrite <- Hr; by destruct b).
  rewrite Hsr. cbn [app] in Hlong. pose proof Hlong as (Hv & Hvc & _). apply elem_of_queues in Hv as (p & Hp & Hv).
  assert (activeIssuers b !! issuerID v = Some p) as Hact by (apply (bi_active b _ Hb); eauto).
  unfold IssuerQueuePtr. rewrite Hact, Hv. cbn [deref mbind outcome_bind].
  pose proof (RemoveTail_spec v (bi_queues b _ Hb p v Hp Hv)) as HR.
  destruct (RemoveTail v) as [[t|] v'] eqn:HRT; [|by destruct HR].
  destruct HR as (_ & _ & _ & Htail).
  assert (Hd : drop_step (start :: l) b t (set_bufferSize (bufferSize b - 1) (put_queue p v' b))) by by econstructor.
  destruct (drop_step_inv _ _ _ _ Hb Hl Hd) as (Hb1 & Hl1 & Hs1 & _).
  destruct (IH _ (acc ++ [t]) Hb1 Hl1) as (ts & b' & -> & Hds & Hsz); [cbn; lia|].
  exists (t :: ts), b'. rewrite <- app_assoc. split_and!; [done|by econstructor|].
  rewrite Hsz. cbn [bufferSize set_bufferSize]. lia.
Qed.

(** What a successful [Submit] did to the buffer before evicting. *)
Lemma submit_step b l p q blk q' : buffer_inv b l -> p ∈ l -> queue_at b p = Some q ->
  Submit blk q = Ret (true, q') ->
  let b1 := set_bufferSize (bufferSize b + 1) (put_queue p q' b) in
  buffer_inv b1 l /\ all_blocks b1 l ≡ₚ blk :: all_blocks b l /\
  (light b l -> 0 < WorkScore blk -> work q + WorkScore blk < 2 ^ 32 -> light b1 l).
Proof.
  intros Hb Hp Hq HS b1. pose proof (bi_queues b l Hb p q Hp Hq) as Hqi.
  destruct (Submit_spec q blk true q' Hqi HS) as (Hqi' & Hid & Hc & _).
  assert (Hsome : is_Some (nodes b !! p)).
  { unfold queue_at in Hq. destruct (nodes b !! p); [done|discriminate]. }
  assert (HQ : forall p', queue_at b1 p' = if decide (p' = p) then Some q' else queue_at b p')
    by (intros; by apply queue_at_put).
  split_and!.
  - eapply buffer_inv_put; try done. rewrite (qi_size q Hqi), (qi_size q' Hqi'), (Permutation_length Hc). cbn. lia.
  - destruct (all_blocks_split b b1 l p q q') as (rest & H1 & H2); try done.
    + by eapply bi_nodup.
    + by rewrite HQ, decide_True.
    + intros p' Hne. by rewrite HQ, decide_False.
    + rewrite H1, H2, Hc. done.
  - intros Hl Hw Hmax p' u Hp' Hu. rewrite HQ in Hu. case_decide; [|by eapply Hl]. simplify_eq.
    destruct (Hl p q Hp Hq) as [Hfw _]. rewrite (qi_work u Hqi'), (zsum_perm _ _ _ Hc).
    cbn [zsum]. rewrite <- (qi_work q Hqi). split; [rewrite Hc; by constructor|lia].
Qed.

Lemma BSubmit_spec b l p q blk maxBuffer :
  buffer_inv b l -> light b l -> p ∈ l -> queue_at b p = Some q -> issuerID q = IssuerID blk ->
  0 < WorkScore blk -> work q + WorkScore blk < 2 ^ 32 -> 0 <= maxBuffer -> bufferSize b <= maxBuffer ->
  exists dropped ok b', BSubmit toWorkScore quantumFunc blk p maxBuffer b = Ret (dropped, ok, b') /\
    buffer_inv b' l /\ light b' l /\ bufferSize b' <= maxBuffer /\ activeIssuers b' = activeIssuers b /\
    blockChan b' = blockChan b /\
    if ok then submitted q !! ID blk = None /\ blk :: all_blocks b l ≡ₚ dropped ++ all_blocks b' l /\
               exists b1, all_blocks b1 l ≡ₚ blk :: all_blocks b l /\ drop_steps l b1 dropped b'
    else is_Some (submitted q !! ID blk) /\ dropped = [] /\ b' = b.
Proof.
  intros Hb Hl Hp Hq Hid Hw Hwq Hmax Hsz. unfold BSubmit. rewrite Hq. cbn [deref mbind outcome_bind].
  assert (exists ok q', Submit blk q = Ret (ok, q')) as (ok & q' & HS).
  { unfold Submit. rewrite decide_False by (by intros ?). case_match; by eauto. }
  assert (Hok : if ok then submitted q !! ID blk = None else is_Some (submitted q !! ID blk)).
  { unfold Submit in HS. rewrite decide_False in HS by (by intros ?). case_match; simplify_eq; by eauto. }
  rewrite HS. cbn [mbind outcome_bind]. destruct ok; cbn [negb]; cycle 1.
  { eexists [], false, b. by split_and!. }
  destruct (submit_step b l p q blk q' Hb Hp Hq HS) as (Hb1 & Hc1 & Hl1). specialize (Hl1 Hl Hw Hwq).
  set (b1 := set_bufferSize _ _) in *.
  destruct (Z.ltb_spec maxBuffer (bufferSize b1)) as [Hgt|Hle].
  - destruct l as [|start l]; [set_solver|]. unfold dropTail, Current.
    destruct (bi_cycle b1 start l Hb1) as [-> _]. cbn [deref mbind outcome_bind].
    destruct (dropTail_loop_spec (Z.to_nat (bufferSize b1 - maxBuffer)) b1 start l maxBuffer []) as (ts & b' & -> & Hds & Hsz');
      [done..|lia|]. cbn [mbind outcome_bind app].
    destruct (drop_steps_inv _ _ _ _ Hds Hb1 Hl1) as (Hb' & Hl' & _ & Hc' & Ha' & _ & Hch').
    exists ts, true, b'. split_and!; try done; [lia|by rewrite <- Hc1|by eauto].
  - exists [], true, b1. split_and!; try done. exists b1. split; [done|constructor].
Qed.
End DropSpec.

(** ** The loops over the ring *)
Lemma foldl_zsum {A} (f : A -> Z) l acc : foldl (fun a q => a + f q) acc l = acc + zsum f l.
Proof. revert acc. induction l as [|x l IH]; intros acc; cbn; [lia|]. rewrite IH. lia. Qed.

Lemma foldl_snoc {A B} (f : A -> B) l acc : foldl (fun a q => a ++ [f q]) acc l = acc ++ (f <$> l).
Proof. revert acc. induction l as [|x l IH]; intros acc; cbn; [by rewrite app_nil_r|]. by rewrite IH, <- app_assoc. Qed.

Lemma bi_size_queues b l : buffer_inv b l -> bufferSize b = zsum (fun q => Z.of_nat (length (contents q))) (queues b l).
Proof.
  intros Hb. rewrite (bi_size b l Hb).
  assert (Hall : forall p, p ∈ l -> exists q, queue_at b p = Some q /\ queue_inv q).
  { intros p Hp. destruct (bi_node b l p Hb Hp) as [q Hq]. exists q. split; [done|]. by eapply bi_queues. }
  clear Hb. induction l as [|a l IH]; [done|]. destruct (Hall a) as (q & Hq & Hqi); [set_solver|].
  change (a :: l) with ([a] ++ l). rewrite queues_app, !zsum_app, IH, (queues_one b a q Hq) by set_solver.
  cbn. rewrite Hq. cbn. rewrite (qi_size q Hqi). lia.
Qed.

(** ** Properties *)

(** C39 [BufferQueue.Submit] keeps the buffer within [maxBuffer]: it returns
    (its eviction loop terminates), preserves the buffer invariant, ends with at
    most [maxBuffer] blocks, and loses no block: the new block together with the
    blocks held before are exactly the blocks returned as dropped plus the blocks
    held after.  Each dropped block is the tail of a longest mana-scaled queue of
    the buffer it is taken from. *)
Theorem Submit_bounds_buffer `{!RangeOrder BlockID} toWorkScore quantumFunc b l p q blk maxBuffer :
  (forall z, 0 <= z < 2 ^ 32 -> toWorkScore z = z) -> (forall id, quantumFunc id < 2 ^ 63) ->
  buffer_inv b l -> light b l -> p ∈ l -> queue_at b p = Some q -> issuerID q = IssuerID blk ->
  submitted q !! ID blk = None ->
  0 < WorkScore blk -> work q + WorkScore blk < 2 ^ 32 -> 0 <= maxBuffer -> bufferSize b <= maxBuffer ->
  exists dropped b1 b', BSubmit toWorkScore quantumFunc blk p maxBuffer b = Ret (dropped, true, b') /\
    buffer_inv b' l /\ bufferSize b' <= maxBuffer /\
    blk :: all_blocks b l ≡ₚ dropped ++ all_blocks b' l /\
    all_blocks b1 l ≡ₚ blk :: all_blocks b l /\ drop_steps toWorkScore quantumFunc l b1 dropped b'.
Proof.
  intros Htw Hqr Hb Hl Hp Hq Hid Hnew Hw Hwq Hmax Hsz.
  destruct (BSubmit_spec toWorkScore quantumFunc Htw Hqr b l p q blk maxBuffer)
    as (dropped & [] & b' & HB & Hb' & _ & Hsz' & _ & _ & Hok); try done.
  - destruct Hok as (_ & Hperm & b1 & Hb1 & Hds). by exists dropped, b1, b'.
  - destruct Hok as [[? ?] _]. congruence.
Qed.

(** A buffer with two issuers and one block of each. *)
Definition sample_block (h issuer time : Z) : ModelBlock :=
  mkModelBlock (mkBlockID h 1) issuer time (mkCommitmentID 0 0) Basic [] 1.
Definition sample_submit (issuers : list AccountID) (blks : list ModelBlock) : outcome BufferQueue :=
  b ← foldl (fun b id => b ≫= InsertIssuer id) (Ret (NewBufferQueue 0)) issuers;
  foldl (fun b blk => b ← b; p ← deref (IssuerQueuePtr (IssuerID blk) b);
    '(_, _, b) ← @BSubmit (canonical_order BlockID) Datatypes.id (fun _ => 1) blk p 100 b; Ret b) (Ret b) blks.

(** The counting loops visit every queue of the ring exactly once and leave
    the round robin where it was: [TotalBlocksCount] is the size counter of the
    buffer, [ReadyBlocksCount] the number of ready blocks, and [IssuerIDs] lists
    the issuers in round-robin order. *)
Theorem ring_loops_count b l : buffer_inv b l ->
  TotalBlocksCount b = Ret (bufferSize b, b) /\
  ReadyBlocksCount b = Ret (zsum (fun q => Z.of_nat (length (inbox q))) (queues b l), b) /\
  IssuerIDs b = Ret (issuerID <$> queues b l, b).
Proof.
  intros Hb. unfold TotalBlocksCount, ReadyBlocksCount, IssuerIDs. rewrite !(ring_loop_spec _ b l) by done.
  split_and!.
  - do 2 f_equal. rewrite (bi_size_queues b l Hb), <- (Z.add_0_l (zsum _ _)), <- foldl_zsum.
    generalize 0. induction (queues b l) as [|q qs IH]; intros z; [done|]. cbn [foldl]. rewrite IH. f_equal.
    unfold contents. rewrite length_app, length_fmap, length_map_to_list. lia.
  - by rewrite foldl_zsum.
  - by rewrite foldl_snoc.
Qed.

(** Removing the issuer at the current position of the round robin is
    exact: the ring continues with the remaining issuers in order, the size
    counter loses the blocks of the removed queue, and the invariant holds. *)
Theorem RemoveIssuer_current_exact b a l q : buffer_inv b (a :: l) -> queue_at b a = Some q ->
  exists b', RemoveIssuer (issuerID q) b = Ret b' /\ buffer_inv b' l /\
    bufferSize b' = bufferSize b - Z.of_nat (length (contents q)) /\ all_blocks b (a :: l) ≡ₚ contents q ++ all_blocks b' l.
Proof.
  intros Hb Hq. destruct (RemoveIssuer_current b a l q Hb Hq) as (b' & HR & Hb' & Hs & _ & HQ & _).
  exists b'. split_and!; try done.
  - rewrite Hs, (qi_size q); [done|]. by apply (bi_queues b (a :: l) Hb a q); [set_solver|].
  - unfold all_blocks. change (a :: l) with ([a] ++ l).
    rewrite queues_app, bind_app, (queues_one b a q Hq), (queues_ext b b' l) by done. cbn. by rewrite app_nil_r.
Qed.

(** Removing any other issuer corrupts the round robin.  [ringRemove] links
    the predecessor of the removed element to the successor of the current one:
    with issuers 1, 2, 3 and 1 current, removing 3 leaves 3 in the round and
    drops issuer 2, which is still active and holds a block; removing 2 leaves the ring as it was. *)
Theorem RemoveIssuer_other_corrupts :
  (b ← sample_submit [1; 2; 3] [sample_block 1 1 10; sample_block 2 2 20];
   b ← RemoveIssuer 3 b; '(ids, b) ← IssuerIDs b;
   Ret (ids, bool_decide (dom (activeIssuers b) = {[1; 2]} :> gset AccountID))) = Ret ([1; 3], true) /\
  (b ← sample_submit [1; 2; 3] []; b ← RemoveIssuer 2 b; '(ids, b) ← IssuerIDs b;
   Ret (ids, bool_decide (dom (activeIssuers b) = {[1; 3]} :> gset AccountID))) = Ret ([1; 2; 3], true).
Proof. split; vm_compute; reflexivity. Qed.

(** *** Witnesses *)
Definition one_issuer : BufferQueue := match sample_submit [1] [] with Ret b => b | _ => NewBufferQueue 0 end.

(** The buffer of a single issuer. *)
Lemma buffer_inv_single p q n t d c np : queue_inv q -> (p < np)%positive -> n = IssuerQueue.size q ->
  buffer_inv (mkBuffer {[issuerID q := p]} (Some p) n t d c {[p := mkNode p p q]} np) [p].
Proof.
  intros Hq Hnp ->. split; cbn.
  - split; [done|]. split; [apply NoDup_singleton|]. cbn. unfold edge. by rewrite lookup_singleton_eq.
  - intros id p'. unfold queue_at; cbn. rewrite lookup_singleton_Some, list_elem_of_singleton. split.
    + intros [<- <-]. split; [done|]. exists q. by rewrite lookup_singleton_eq.
    + intros [-> (q' & Hq' & <-)]. rewrite lookup_singleton_eq in Hq'. by injection Hq' as <-.
  - intros p' q' ->%list_elem_of_singleton. unfold queue_at; cbn. rewrite lookup_singleton_eq. by intros [= <-].
  - unfold queue_at; cbn. rewrite lookup_singleton_eq. cbn. lia.
  - intros p' [x [<- _]%lookup_singleton_Some]. done.
Qed.

Lemma one_issuer_inv : buffer_inv one_issuer [1%positive].
Proof.
  assert (Heq : one_issuer = mkBuffer {[issuerID (NewIssuerQueue 1) := 1%positive]} (Some 1%positive) 0 fzero 0 None
                               {[1%positive := mkNode 1%positive 1%positive (NewIssuerQueue 1)]} 2%positive) by (vm_compute; reflexivity).
  rewrite Heq. apply buffer_inv_single; [apply queue_inv_new|done|done].
Qed.

Lemma one_issuer_light : light one_issuer [1%positive].
Proof.
  intros p q ->%list_elem_of_singleton Hq. vm_compute in Hq. injection Hq as <-. split; [constructor|done].
Qed.

Lemma Submit_bounds_buffer_witness :
  exists dropped b1 b', @BSubmit (canonical_order BlockID) Datatypes.id (fun _ => 1) (sample_block 1 1 10) 1%positive 0 one_issuer
      = Ret (dropped, true, b') /\
    buffer_inv b' [1%positive] /\ bufferSize b' <= 0 /\
    sample_block 1 1 10 :: all_blocks one_issuer [1%positive] ≡ₚ dropped ++ all_blocks b' [1%positive] /\
    all_blocks b1 [1%positive] ≡ₚ sample_block 1 1 10 :: all_blocks one_issuer [1%positive] /\
    @drop_steps (canonical_order BlockID) Datatypes.id (fun _ => 1) [1%positive] b1 dropped b'.
Proof.
  apply (@Submit_bounds_buffer (canonical_order BlockID) Datatypes.id (fun _ => 1) one_issuer [1%positive] 1%positive (NewIssuerQueue 1));
    try done; [apply one_issuer_inv|apply one_issuer_light|set_solver].
Defined.

Lemma ring_loops_count_witness :
  TotalBlocksCount one_issuer = Ret (bufferSize one_issuer, one_issuer) /\
  ReadyBlocksCount one_issuer = Ret (zsum (fun q => Z.of_nat (length (inbox q))) (queues one_issuer [1%positive]), one_issuer) /\
  IssuerIDs one_issuer = Ret (issuerID <$> queues one_issuer [1%positive], one_issuer).
Proof. apply (ring_loops_count one_issuer [1%positive]). apply one_issuer_inv. Defined.

Lemma RemoveIssuer_current_exact_witness :
  exists b', RemoveIssuer 1 one_issuer = Ret b' /\ buffer_inv b' [] /\
    bufferSize b' = 0 /\ all_blocks one_issuer [1%positive] ≡ₚ [] ++ all_blocks b' [].
Proof. apply (RemoveIssuer_current_exact one_issuer 1%positive [] (NewIssuerQueue 1)); [apply one_issuer_inv|done]. Defined.
