(* ===== verification/ValidatorQueue.v ===== *)
(** * ValidatorQueue and ValidatorBuffer (congestioncontrol/scheduler/drr/validatorqueue.go)

    Each committee member has its own queue of validation blocks, with its own
    token bucket and output channel; the buffer maps accounts to queues and
    counts the blocks of all of them.  A validator queue is an issuer queue that
    does not count work: [vrefines] relates the two, every operation respects it,
    and the queue lemmas carry over. *)
From S2P Require Import Prelude GoHeap Block Float64 IssuerQueue.

Record ValidatorQueue := mkValidatorQueue {
  v_accountID : AccountID;
  v_submitted : gmap BlockID ModelBlock;
  v_inbox : list ModelBlock;
  v_size : Z;
  v_tokenBucket : float64;
  v_lastScheduleTime : Z;
  v_blockChan : option ModelBlock;      (* channel of capacity 1 *)
}.

(** The fields the queue operations change. *)
Definition v_with (s : gmap BlockID ModelBlock) (i : list ModelBlock) (n : Z) (q : ValidatorQueue) : ValidatorQueue :=
  mkValidatorQueue (v_accountID q) s i n (v_tokenBucket q) (v_lastScheduleTime q) (v_blockChan q).
Definition v_set_blockChan c (q : ValidatorQueue) : ValidatorQueue :=
  mkValidatorQueue (v_accountID q) (v_submitted q) (v_inbox q) (v_size q) (v_tokenBucket q) (v_lastScheduleTime q) c.

Definition NewValidatorQueue (accountID : AccountID) (now : Z) : ValidatorQueue :=
  mkValidatorQueue accountID ∅ [] 0 (of_Z 1) now None.

Definition VSize (q : option ValidatorQueue) : Z :=
  match q with None => 0 | Some q => v_size q end.

Definition VUnsubmit (block : ModelBlock) (q : ValidatorQueue) : bool * ValidatorQueue :=
  match v_submitted q !! ID block with
  | None => (false, q)
  | Some _ => (true, v_with (delete (ID block) (v_submitted q)) (v_inbox q) (v_size q - 1) q)
  end.

Definition VReady (block : ModelBlock) (q : ValidatorQueue) : bool * ValidatorQueue :=
  match v_submitted q !! ID block with
  | None => (false, q)
  | Some _ => (true, v_with (delete (ID block) (v_submitted q)) (Push IssuingTime (v_inbox q) block) (v_size q) q)
  end.

Definition VPopFront (q : ValidatorQueue) : option ModelBlock * ValidatorQueue :=
  match v_inbox q with
  | [] => (None, q)
  | _ => match Pop IssuingTime (v_inbox q) with
         | Some (blk, h) => (Some blk, v_with (v_submitted q) h (v_size q - 1) q)
         | None => (None, q)
         end
  end.

Definition Vtail (q : ValidatorQueue) : option nat :=
  match v_inbox q with [] => None | h => Some (tail_from h 0%nat (seq 0 (length h))) end.

Definition VRemoveTail `{!RangeOrder BlockID} (q : ValidatorQueue) : option ModelBlock * ValidatorQueue :=
  let oldestSubmittedBlock := oldest (range_of (v_submitted q)).*2 in
  let unsubmit o := (Some o, snd (VUnsubmit o q)) in
  let drop_inbox i :=
    match Remove IssuingTime (v_inbox q) i with
    | Some (blk, h) => (Some blk, v_with (v_submitted q) h (v_size q - 1) q)
    | None => (None, q)
    end in
  match oldestSubmittedBlock, Vtail q with
  | Some o, None => unsubmit o
  | Some o, Some i =>
      match v_inbox q !! i with
      | Some t => if IssuingTime o <? IssuingTime t then unsubmit o else drop_inbox i
      | None => drop_inbox i
      end
  | None, None => (None, q)
  | None, Some i => drop_inbox i
  end.

(** [Submit] makes room by one block when the queue outgrows [maxBuffer]. *)
Definition VSubmit `{!RangeOrder BlockID} (block : ModelBlock) (maxBuffer : Z) (q : ValidatorQueue)
    : outcome (option ModelBlock * bool * ValidatorQueue) :=
  if decide (v_accountID q <> IssuerID block) then Panic
  else match v_submitted q !! ID block with
       | Some _ => Ret (None, false, q)
       | None =>
           let q := v_with (<[ID block := block]> (v_submitted q)) (v_inbox q) (v_size q + 1) q in
           if maxBuffer <? v_size q then let '(t, q) := VRemoveTail q in Ret (t, true, q)
           else Ret (None, true, q)
       end.

(** [waitTime], [updateTokenBucket] and [deductTokens] with the clock as an argument. *)
Definition VwaitTime (rate : float64) (now : Z) (q : ValidatorQueue) : option Z :=
  let tokensRequired :=
    fsub (of_Z 1) (fadd (v_tokenBucket q) (fmul rate (Seconds (now - v_lastScheduleTime q)))) in
  d ← to_int64 (fdiv tokensRequired rate); Some (Z.max 0 d).

Definition v_set_bucket t d (q : ValidatorQueue) : ValidatorQueue :=
  mkValidatorQueue (v_accountID q) (v_submitted q) (v_inbox q) (v_size q) t d (v_blockChan q).
Definition VupdateTokenBucket (rate tokenBucketSize : float64) (now now' : Z) (q : ValidatorQueue) : ValidatorQueue :=
  v_set_bucket (fmin tokenBucketSize (fadd (v_tokenBucket q) (fmul rate (Seconds (now - v_lastScheduleTime q))))) now' q.
Definition VdeductTokens (tokens : float64) (q : ValidatorQueue) : ValidatorQueue :=
  v_set_bucket (fsub (v_tokenBucket q) tokens) (v_lastScheduleTime q) q.

(** ** The buffer *)
Record ValidatorBuffer := mkValidatorBuffer {
  vb_buffer : gmap AccountID ValidatorQueue;
  vb_size : Z;
}.

Definition NewValidatorBuffer : ValidatorBuffer := mkValidatorBuffer ∅ 0.
Definition VBSize (b : option ValidatorBuffer) : Z := match b with None => 0 | Some b => vb_size b end.
Definition VBGet (accountID : AccountID) (b : ValidatorBuffer) : option ValidatorQueue := vb_buffer b !! accountID.

(** A queue is reached through the map only, so updating it through its pointer is
    [VBSet]; [Set] reports whether the key is new. *)
Definition VBSet (accountID : AccountID) (q : ValidatorQueue) (b : ValidatorBuffer) : bool * ValidatorBuffer :=
  (bool_decide (vb_buffer b !! accountID = None), mkValidatorBuffer (<[accountID := q]> (vb_buffer b)) (vb_size b)).

Definition VBSubmit `{!RangeOrder BlockID} (block : ModelBlock) (maxBuffer : Z) (b : ValidatorBuffer)
    : outcome (option ModelBlock * bool * ValidatorBuffer) :=
  match vb_buffer b !! IssuerID block with
  | None => Ret (None, false, b)
  | Some validatorQueue =>
      '(droppedBlock, submitted, q) ← VSubmit block maxBuffer validatorQueue;
      let n := vb_size b + (if (submitted : bool) then 1 else 0)
               - (match droppedBlock with Some _ => 1 | None => 0 end) in
      Ret (droppedBlock, submitted, mkValidatorBuffer (<[IssuerID block := q]> (vb_buffer b)) n)
  end.

Definition VBDelete (accountID : AccountID) (b : ValidatorBuffer) : ValidatorBuffer :=
  match vb_buffer b !! accountID with
  | None => b
  | Some q => mkValidatorBuffer (delete accountID (vb_buffer b)) (vb_size b - v_size q)
  end.

(** ** Refinement of the issuer queue *)
Definition vrefines (v : ValidatorQueue) (q : IssuerQueue) : Prop :=
  issuerID q = v_accountID v /\ submitted q = v_submitted v /\ inbox q = v_inbox v /\ IssuerQueue.size q = v_size v.

Definition vcontents (v : ValidatorQueue) : list ModelBlock := (map_to_list (v_submitted v)).*2 ++ v_inbox v.

(** The queue invariant, inherited. *)
Definition vqueue_inv (v : ValidatorQueue) : Prop := exists q, vrefines v q /\ queue_inv q.

(** The operations of the two queues do the same to the common fields. *)
Ltac vrefine := split; [done|]; repeat split; cbn; congruence.

Lemma VUnsubmit_refines v q b : vrefines v q ->
  (VUnsubmit b v).1 = (Unsubmit b q).1 /\ vrefines (VUnsubmit b v).2 (Unsubmit b q).2.
Proof.
  intros (H1 & H2 & H3 & H4). unfold VUnsubmit, Unsubmit. rewrite H2.
  case_match; vrefine.
Qed.

Lemma VReady_refines v q b : vrefines v q ->
  (VReady b v).1 = (Ready b q).1 /\ vrefines (VReady b v).2 (Ready b q).2.
Proof.
  intros (H1 & H2 & H3 & H4). unfold VReady, Ready. rewrite H2.
  case_match; vrefine.
Qed.

Lemma VPopFront_refines v q : vrefines v q ->
  (VPopFront v).1 = (PopFront q).1 /\ vrefines (VPopFront v).2 (PopFront q).2.
Proof.
  intros Hr. pose proof Hr as (H1 & H2 & H3 & H4). unfold VPopFront, PopFront. rewrite H3.
  destruct (v_inbox v) eqn:E; [done|]. destruct (Pop _ _) as [[]|]; vrefine.
Qed.

Lemma VRemoveTail_refines `{!RangeOrder BlockID} v q : vrefines v q ->
  (VRemoveTail v).1 = (RemoveTail q).1 /\ vrefines (VRemoveTail v).2 (RemoveTail q).2.
Proof.
  intros Hr. pose proof Hr as (H1 & H2 & H3 & H4). unfold VRemoveTail, RemoveTail, Vtail, tail. rewrite H2, H3.
  assert (Hdrop : forall i,
    let r := match Remove IssuingTime (v_inbox v) i with
             | Some (blk, h) => (Some blk, v_with (v_submitted v) h (v_size v - 1) v) | None => (None, v) end in
    let r' := match Remove IssuingTime (v_inbox v) i with
              | Some (blk, h) => (Some blk, mkIssuerQueue (issuerID q) (submitted q) h (IssuerQueue.size q - 1) (work q - WorkScore blk))
              | None => (None, q) end in
    r.1 = r'.1 /\ vrefines r.2 r'.2).
  { intros i r r'. subst r r'. destruct (Remove _ _ _) as [[]|]; vrefine. }
  cbn zeta in Hdrop. rewrite H2 in Hdrop.
  destruct (oldest _) as [o|]; [|destruct (v_inbox v) eqn:E; [done|apply Hdrop]].
  pose proof (proj2 (VUnsubmit_refines v q o Hr)) as HU.
  destruct (v_inbox v) eqn:E; [done|]. case_match; [|apply Hdrop]. case_match; [done|apply Hdrop].
Qed.

Lemma vrefines_contents v q : vrefines v q -> vcontents v = contents q.
Proof. intros (H1 & H2 & H3 & H4). unfold vcontents, contents. by rewrite H2, H3. Qed.

Lemma vqueue_inv_new a now : vqueue_inv (NewValidatorQueue a now).
Proof. exists (NewIssuerQueue a). split; [done|apply queue_inv_new]. Qed.

Lemma vqueue_size v : vqueue_inv v -> v_size v = Z.of_nat (length (vcontents v)).
Proof. intros (q & Hr & Hq). rewrite (vrefines_contents v q Hr), <- (qi_size q Hq). by destruct Hr as (_ & _ & _ & ->). Qed.

Lemma VPopFront_spec v : vqueue_inv v ->
  match VPopFront v with
  | (None, v') => v_inbox v = [] /\ v' = v
  | (Some b, v') => vqueue_inv v' /\ vcontents v ≡ₚ b :: vcontents v' /\ v_accountID v' = v_accountID v /\
                    forall c, c ∈ v_inbox v -> IssuingTime b <= IssuingTime c
  end.
Proof.
  intros (q & Hr & Hq). destruct (VPopFront_refines v q Hr) as [H1 H2]. pose proof (PopFront_spec q Hq) as HP.
  assert (Hid : (VPopFront v).1 = None -> (VPopFront v).2 = v).
  { unfold VPopFront. destruct (v_inbox v); [done|]. destruct (Pop _ _) as [[]|]; done. }
  destruct (VPopFront v) as [[b|] v'], (PopFront q) as [[b'|] q']; cbn in *; try done; simplify_eq.
  - destruct HP as (_ & Hq' & Hi & Hc & _ & Hmin). rewrite (vrefines_contents v q Hr), (vrefines_contents v' q' H2).
    destruct Hr as (Ha & _ & Hinb & _), H2 as (Ha' & Hrest). split_and!; try done; [|congruence|by rewrite <- Hinb].
    exists q'. split; [by split|done].
  - destruct HP as [Hin _]. destruct Hr as (_ & _ & <- & _). split; [done|]. by apply Hid.
Qed.

Section Buffer.
Context `{!RangeOrder BlockID}.

Lemma VRemoveTail_spec v : vqueue_inv v ->
  match VRemoveTail v with
  | (None, _) => vcontents v = []
  | (Some b, v') => vqueue_inv v' /\ v_accountID v' = v_accountID v /\ vcontents v ≡ₚ b :: vcontents v'
  end.
Proof.
  intros (q & Hr & Hq). destruct (VRemoveTail_refines v q Hr) as [H1 H2]. pose proof (RemoveTail_spec q Hq) as HP.
  destruct (VRemoveTail v) as [[b|] v'], (RemoveTail q) as [[b'|] q']; cbn in *; try done; simplify_eq.
  - destruct HP as (Hq' & Hi & Hc & _). rewrite (vrefines_contents v q Hr), (vrefines_contents v' q' H2).
    destruct Hr as (Ha & _), H2 as (Ha' & Hrest). split_and!; try done; [|congruence]. exists q'. split; [by split|done].
  - destruct HP as [Hin _]. by rewrite (vrefines_contents v q Hr).
Qed.

Lemma VSubmit_spec v b maxBuffer : vqueue_inv v -> v_accountID v = IssuerID b -> v_size v <= maxBuffer ->
  exists dropped ok v', VSubmit b maxBuffer v = Ret (dropped, ok, v') /\ vqueue_inv v' /\
    v_accountID v' = v_accountID v /\ v_size v' <= maxBuffer /\
    if ok then v_submitted v !! ID b = None /\ b :: vcontents v ≡ₚ option_list dropped ++ vcontents v'
    else is_Some (v_submitted v !! ID b) /\ dropped = None /\ v' = v.
Proof.
  intros (q & Hr & Hq) Ha Hs. unfold VSubmit. rewrite decide_False by (by intros ?).
  destruct (v_submitted v !! ID b) as [c|] eqn:Hb.
  { exists None, false, v. split_and!; try done. by exists q. }
  pose proof Hr as (Hi & Hsub & Hin & Hsz).
  assert (HS : Submit b q = Ret (true, mkIssuerQueue (issuerID q) (<[ID b := b]> (submitted q)) (inbox q)
                                        (IssuerQueue.size q + 1) (work q + WorkScore b))).
  { unfold Submit. rewrite decide_False by (intros Hc; apply Hc; congruence). by rewrite Hsub, Hb. }
  destruct (Submit_spec q b true _ Hq HS) as (Hq1 & _ & Hc & _).
  set (v1 := v_with _ _ _ _). set (q1 := mkIssuerQueue _ _ _ _ _) in *.
  assert (Hr1 : vrefines v1 q1) by (repeat split; cbn; congruence).
  assert (Hv1 : vqueue_inv v1) by by exists q1.
  assert (Hc1 : vcontents v1 ≡ₚ b :: vcontents v) by by rewrite (vrefines_contents v1 q1 Hr1), (vrefines_contents v q Hr).
  destruct (Z.ltb_spec maxBuffer (v_size v1)) as [Hgt|Hle].
  - pose proof (VRemoveTail_spec v1 Hv1) as HT. destruct (VRemoveTail v1) as [[t|] v2].
    + destruct HT as (Hv2 & Ha2 & Hc2). exists (Some t), true, v2. split_and!; try done.
      * rewrite (vqueue_size v2 Hv2). apply Permutation_length in Hc2. rewrite (vqueue_size v1 Hv1), Hc2 in Hgt.
        pose proof (vqueue_size v1 Hv1) as Hsz1. rewrite Hc2 in Hsz1. unfold v1 in Hsz1. cbn in *. lia.
      * cbn. by rewrite <- Hc1, <- Hc2.
    + rewrite HT in Hc1. by apply Permutation_nil_cons in Hc1.
  - exists None, true, v1. split_and!; try done.
Qed.
End Buffer.

(** ** The buffer invariant *)
Record vbuffer_inv (b : ValidatorBuffer) : Prop := {
  vb_inv_size : vb_size b = map_sum v_size (vb_buffer b);
  vb_inv_queue : forall a v, vb_buffer b !! a = Some v -> vqueue_inv v /\ v_accountID v = a;
}.

Lemma vbuffer_inv_new : vbuffer_inv NewValidatorBuffer.
Proof. split; cbn; [by rewrite map_sum_empty|]. intros a v. by rewrite lookup_empty. Qed.

(** Replacing one queue. *)
Lemma vbuffer_inv_update b a v v' n : vbuffer_inv b -> vb_buffer b !! a = Some v -> vqueue_inv v' -> v_accountID v' = a ->
  n = vb_size b - v_size v + v_size v' -> vbuffer_inv (mkValidatorBuffer (<[a := v']> (vb_buffer b)) n).
Proof.
  intros [Hs Hq] Ha Hv' Hav ->. split; cbn; [rewrite (map_sum_insert _ _ _ _ v) by done; lia|].
  intros a' u. rewrite lookup_insert. case_decide; [|apply Hq]. intros [= <-]. split; congruence.
Qed.

(** Submitting a validation block keeps the counter of the validator buffer
    exact and every validator's queue within [maxBuffer], and never loses a
    block: the queue's blocks after are its blocks before plus the new one, less
    the one returned as dropped. *)
Theorem VBSubmit_keeps_count `{!RangeOrder BlockID} b blk v maxBuffer :
  vbuffer_inv b -> vb_buffer b !! IssuerID blk = Some v -> v_size v <= maxBuffer ->
  exists dropped ok b' v', VBSubmit blk maxBuffer b = Ret (dropped, ok, b') /\ vbuffer_inv b' /\
    vb_buffer b' = <[IssuerID blk := v']> (vb_buffer b) /\ v_size v' <= maxBuffer /\
    (ok = true <-> v_submitted v !! ID blk = None) /\
    (if ok then [blk] else []) ++ vcontents v ≡ₚ option_list dropped ++ vcontents v'.
Proof.
  intros Hb Ha Hs. destruct (vb_inv_queue b Hb _ _ Ha) as [Hv Hva].
  destruct (VSubmit_spec v blk maxBuffer Hv Hva Hs) as (dropped & ok & v' & HS & Hv' & Hva' & Hs' & Hok).
  unfold VBSubmit. rewrite Ha, HS. cbn [mbind outcome_bind]. eexists dropped, ok, _, v'. split; [done|].
  split_and!; try done.
  - eapply vbuffer_inv_update; try done; [congruence|].
    rewrite (vqueue_size v Hv), (vqueue_size v' Hv'). destruct ok; cycle 1.
    + destruct Hok as (_ & -> & ->). lia.
    + destruct Hok as [_ Hc%Permutation_length]. rewrite length_app in Hc. destruct dropped; cbn in *; lia.
  - destruct ok; destruct Hok as [Hnone _]; split; try done. rewrite <- not_eq_None_Some in Hnone. done.
  - destruct ok; [by destruct Hok|]. by destruct Hok as (_ & -> & ->).
Qed.

Definition one_validator : ValidatorBuffer := (VBSet 7 (NewValidatorQueue 7 0) NewValidatorBuffer).2.
Definition validation_block : ModelBlock :=
  mkModelBlock (mkBlockID 3 1) 7 5 (mkCommitmentID 0 0) Validation [] 1.

Lemma one_validator_inv : vbuffer_inv one_validator.
Proof.
  split; [by vm_compute|]. intros a v. cbn. intros [[<- <-]|[_ H]]%lookup_insert_Some; [|by rewrite lookup_empty in H].
  split; [apply vqueue_inv_new|done].
Qed.

Lemma VBSubmit_keeps_count_witness :
  exists dropped ok b' v', @VBSubmit (canonical_order BlockID) validation_block 0 one_validator = Ret (dropped, ok, b') /\ vbuffer_inv b' /\
    vb_buffer b' = <[7 := v']> (vb_buffer one_validator) /\ v_size v' <= 0 /\
    (ok = true <-> (∅ : gmap BlockID ModelBlock) !! ID validation_block = None) /\
    (if ok then [validation_block] else []) ++ [] ≡ₚ option_list dropped ++ vcontents v'.
Proof.
  apply (@VBSubmit_keeps_count (canonical_order BlockID) one_validator validation_block (NewValidatorQueue 7 0) 0);
    [apply one_validator_inv|done|done].
Defined.

(** Deleting a validator keeps the count exact. *)
Lemma VBDelete_inv a b : vbuffer_inv b -> vbuffer_inv (VBDelete a b).
Proof.
  intros [Hs Hq]. unfold VBDelete. destruct (vb_buffer b !! a) as [v|] eqn:Ha; [|done]. split; cbn.
  - rewrite (map_sum_delete _ _ _ v) by done. lia.
  - intros a' u. rewrite lookup_delete_Some. intros [_ ?]. by apply Hq.
Qed.
