(* ===== verification/Scheduler.v ===== *)
(** * Scheduler (congestioncontrol/scheduler/drr/scheduler.go)

    The deficit round robin scheduler: basic blocks wait in the buffer of issuer
    queues, an issuer's deficit grows by its quantum (one plus its mana) per
    round, and the issuer that needs the fewest rounds to pay for its front block
    schedules next.  Validation blocks go through the validator buffer.

    The state holds the two buffers, the deficits, the block objects with their
    flags, and the trace of triggered events.  Everything an operation reads from
    other components (mana, protocol parameters, latest commitment, block cache
    membership, root blocks, the clock) is the record [Env]; the clock is read
    once per operation.  Mutexes and goroutines are not modelled: an operation
    under the buffer mutex is one step. *)
From S2P Require Import Prelude GoHeap Block Float64 IssuerQueue BufferQueue ValidatorQueue.

Inductive Event :=
| BlockEnqueued (id : BlockID)
| BlockDropped (id : BlockID)
| BlockSkipped (id : BlockID)
| BlockScheduled (id : BlockID)
| ErrorHandled.

Record Scheduler := mkScheduler {
  basicBuffer : BufferQueue;
  validatorBuffer : ValidatorBuffer;
  deficits : gmap AccountID Z;
  blockObjs : gmap BlockID Block;
  events : list Event;
}.

Definition set_basic v (s : Scheduler) := mkScheduler v (validatorBuffer s) (deficits s) (blockObjs s) (events s).
Definition set_validator v (s : Scheduler) := mkScheduler (basicBuffer s) v (deficits s) (blockObjs s) (events s).
Definition set_deficits v (s : Scheduler) := mkScheduler (basicBuffer s) (validatorBuffer s) v (blockObjs s) (events s).
Definition set_objs v (s : Scheduler) := mkScheduler (basicBuffer s) (validatorBuffer s) (deficits s) v (events s).
Definition set_events v (s : Scheduler) := mkScheduler (basicBuffer s) (validatorBuffer s) (deficits s) (blockObjs s) v.

(** [New] *)
Definition NewScheduler (now : Z) : Scheduler := mkScheduler (NewBufferQueue now) NewValidatorBuffer ∅ ∅ [].

Record Env := mkEnv {
  GetManaOnAccount : AccountID -> SlotIndex -> option Z;
  latestCommittedSlot : SlotIndex;
  MaxBlockWork : Z;
  MaxBufferSize : Z;
  MaxValidationBufferSize : Z;
  SlotDurationSeconds : Z;
  MaxCommittableAge : Z;
  SchedulerRate : Z;
  ValidationBlocksPerSlot : Z;
  toWorkScore : Z -> Z;
  now : Z;
  cached : gset BlockID;
  RootBlockCommitmentID : BlockID -> option CommitmentID;
  SlotEndTime : SlotIndex -> Z;
}.

Definition maxDeficit : Z := MaxInt64 / 2.

Definition trigger (e : Event) : prog Scheduler unit := update (fun s => set_events (events s ++ [e]) s).

(** A method of the basic buffer. *)
Definition on_basic {A} (m : BufferQueue -> outcome (A * BufferQueue)) : prog Scheduler A := zoom basicBuffer set_basic m.
Definition run_basic (m : BufferQueue -> outcome BufferQueue) : prog Scheduler unit :=
  on_basic (fun b => b ← m b; Ret (tt, b)).

(** A method of the block object with the given ID. *)
Definition on_obj (id : BlockID) (m : Block -> bool * Block) : prog Scheduler bool := fun s =>
  obj ← deref (blockObjs s !! id);
  let '(r, obj) := m obj in Ret (r, set_objs (<[id := obj]> (blockObjs s)) s).

Definition queue_of (p : ptr) : prog Scheduler IssuerQueue := fun s => q ← deref (queue_at (basicBuffer s) p); Ret (q, s).

Definition out_of_fuel {A} : prog Scheduler A := fun _ => OutOfFuel.
Definition panic {A} : prog Scheduler A := fun _ => Panic.

Section Scheduler.
Context `{!SafeMath} `{!RangeOrder BlockID} `{!RangeOrder AccountID} (env : Env).

(** [s.quantumFunc], with its error as [None]. *)
Definition quantumFunc (accountID : AccountID) (manaSlot : SlotIndex) : option Z :=
  mana ← GetManaOnAccount env accountID manaSlot;
  let mana := Z.min mana (u64 (maxDeficit - 1)) in
  Some (i64 (1 + i64 mana)).

(** The work of the largest block fills the deficit range; a maximal block work of
    zero is a division by zero. *)
Definition deficitFromWork (work : Z) : outcome Z :=
  if decide (MaxBlockWork env = 0) then Panic
  else let deficitScaleFactor := maxDeficit / MaxBlockWork env in Ret (i64 (work * deficitScaleFactor)).

(** ** Block cache and readiness *)

(** [s.blockCache.Block(id)]: a root block first, then the stored block. *)
Definition cacheBlock (s : Scheduler) (id : BlockID) : option Block :=
  match RootBlockCommitmentID env id with
  | Some commitmentID => Some (NewRootBlock id commitmentID (SlotEndTime env (Slot id)))
  | None => if decide (id ∈ cached env) then blockObjs s !! id else None
  end.

Definition isEligible (b : Block) : bool := skipped b || scheduled b || accepted b.

Definition isReady (s : Scheduler) (block : ModelBlock) : bool :=
  forallb (fun parent => match cacheBlock s parent with Some pb => isEligible pb | None => false end) (Parents block).

Definition ready (block : ModelBlock) : prog Scheduler unit := _ ← on_basic (BReady block); mret tt.

Definition readyValidationBlock (block : ModelBlock) : prog Scheduler unit := update (fun s =>
  match VBGet (IssuerID block) (validatorBuffer s) with
  | Some q => set_validator (VBSet (IssuerID block) (VReady block q).2 (validatorBuffer s)).2 s
  | None => s
  end).

Definition tryReady (block : ModelBlock) : prog Scheduler unit :=
  r ← read (fun s => isReady s block); when r (ready block).
Definition tryReadyValidationBlock (block : ModelBlock) : prog Scheduler unit :=
  r ← read (fun s => isReady s block); when r (readyValidationBlock block).

Definition updateChild (child : BlockID) : prog Scheduler unit := fun s =>
  match cacheBlock s child, blockObjs s !! child with
  | Some _, Some childBlock =>
      if enqueued childBlock then
        match modelBlock childBlock with
        | Some mb => match Kind mb with
                     | Basic => tryReady mb s
                     | Validation => tryReadyValidationBlock mb s
                     end
        | None => Panic
        end
      else Ret (tt, s)
  | _, _ => Ret (tt, s)
  end.

(** [updateChildrenWithLocking] and [updateChildrenWithoutLocking] *)
Definition updateChildren (id : BlockID) : prog Scheduler unit := fun s =>
  obj ← deref (blockObjs s !! id); for_each updateChild (Children obj) s.

(** ** Issuers and deficits *)
Definition createIssuer (accountID : AccountID) : prog Scheduler ptr :=
  p ← on_basic (CreateIssuerQueue accountID);
  update (fun s => set_deficits (<[accountID := 0]> (deficits s)) s);;
  mret p.

Definition drop_block (block : ModelBlock) : prog Scheduler unit :=
  on_obj (ID block) SetDropped;; trigger (BlockDropped (ID block)).

(** [for q.inbox.Len() > 0 { block := q.PopFront(); ... }] *)
Fixpoint drop_inbox (fuel : nat) (p : ptr) : prog Scheduler unit :=
  q ← queue_of p;
  match PopFront q with
  | (None, _) => mret tt
  | (Some block, q') =>
      match fuel with
      | O => out_of_fuel
      | S fuel =>
          run_basic (fun b => Ret (put_queue p q' b));;
          drop_block block;;
          drop_inbox fuel p
      end
  end.

Definition removeIssuer (issuerID : AccountID) : prog Scheduler unit :=
  p ← read (fun s => IssuerQueuePtr issuerID (basicBuffer s));
  p ← lift (deref p);
  q ← queue_of p;
  for_each (fun kv => drop_block kv.2) (range_of (submitted q));;
  drop_inbox (length (inbox q)) p;;
  update (fun s => set_deficits (delete issuerID (deficits s)) s);;
  run_basic (RemoveIssuer issuerID).

(** The function passed to [deficits.Compute]: the new value and whether it is an error. *)
Definition compute_deficit (current : option Z) (delta : Z) : Z * bool :=
  match current with
  | None => (0, true)
  | Some currentValue =>
      match SafeAdd Int64 currentValue delta with
      | None => (maxDeficit, false)
      | Some newDeficit => if newDeficit <? 0 then (0, true) else (Z.min newDeficit maxDeficit, false)
      end
  end.

(** [updateDeficit]; [true] is an error. *)
Definition updateDeficit (accountID : AccountID) (delta : Z) : prog Scheduler bool :=
  cur ← read (fun s => deficits s !! accountID);
  let '(v, err) := compute_deficit cur delta in
  update (fun s => set_deficits (<[accountID := v]> (deficits s)) s);;
  (if err then removeIssuer accountID;; mret true else mret false).

Definition incrementDeficit (issuerID : AccountID) (rounds : Z) : prog Scheduler bool :=
  match quantumFunc issuerID (latestCommittedSlot env) with
  | None => mret true
  | Some quantum =>
      let delta := from_option Datatypes.id maxDeficit (SafeMul Int64 quantum rounds) in
      updateDeficit issuerID delta
  end.

(** ** Selection of a block to schedule *)
Inductive front_result := NoCandidate | IssuerRemoved | Candidate (r : Z).

(** Whether a front block is skipped: accepted and older than
    [time.Duration(SlotDurationSeconds * MaxCommittableAge)], which is a number of nanoseconds. *)
Definition skippable (obj : Block) (block : ModelBlock) : bool :=
  accepted obj && (SlotDurationSeconds env * MaxCommittableAge env <? now env - IssuingTime block).

(** [r]: the rounds needed to pay [cost] from [deficit] at [quantum] per round. *)
Definition rounds_needed (cost deficit quantum : Z) : option Z :=
  let remainingDeficit := i64 (cost - deficit) in
  let numerator := from_option Datatypes.id MaxInt64 (SafeAdd Int64 remainingDeficit (i64 (quantum - 1))) in
  SafeDiv Int64 numerator quantum.

(** The inner loop of [selectIssuer] on the current queue [q]. *)
Fixpoint select_front (fuel : nat) (q : ptr) : prog Scheduler front_result :=
  v ← queue_of q;
  match Front (Some v) with
  | None => mret NoCandidate
  | Some block =>
      if negb (IssuingTime block <? now env) then mret NoCandidate
      else
        obj ← (fun s => obj ← deref (blockObjs s !! ID block); Ret (obj, s));
        if skippable obj block then
          match fuel with
          | O => out_of_fuel
          | S fuel =>
              upd ← on_obj (ID block) SetSkipped;
              when upd (updateChildren (ID block);; trigger (BlockSkipped (ID block)));;
              on_basic BPopFront;;
              select_front fuel q
          end
        else
          d ← read (fun s => deficits s !! IssuerID block);
          deficit ← lift (deref d);
          cost ← lift (deficitFromWork (WorkScore block));
          match quantumFunc (IssuerID block) (latestCommittedSlot env) with
          | None => trigger ErrorHandled;; removeIssuer (IssuerID block);; mret IssuerRemoved
          | Some quantum =>
              r ← lift (deref (rounds_needed cost deficit quantum));
              mret (Candidate r)
          end
  end.

Fixpoint selectIssuer_loop (fuel : nat) (start q : ptr) (rounds : Z) (schedulingIssuer : option ptr)
    : prog Scheduler (Z * option ptr) :=
  match fuel with
  | O => out_of_fuel
  | S fuel =>
      v ← queue_of q;
      res ← select_front (length (contents v)) q;
      let '(rounds, schedulingIssuer) :=
        match res with
        | Candidate r => if r <? rounds then (r, Some q) else (rounds, schedulingIssuer)
        | _ => (rounds, schedulingIssuer)
        end in
      q' ← (match res with
            | IssuerRemoved => read (fun s => Current (basicBuffer s))
            | _ => on_basic BNext
            end);
      match q' with
      | None => mret (rounds, schedulingIssuer)
      | Some q' => if decide (q' = start) then mret (rounds, schedulingIssuer)
                   else selectIssuer_loop fuel start q' rounds schedulingIssuer
      end
  end.

Definition selectIssuer (start : ptr) : prog Scheduler (Z * option ptr) := fun s =>
  selectIssuer_loop (ring_fuel (basicBuffer s)) start start MaxInt64 None s.

(** [increment every issuer's deficit for the required number of rounds]; [false] is an early return. *)
Fixpoint increment_all (fuel : nat) (start q : ptr) (rounds : Z) : prog Scheduler bool :=
  match fuel with
  | O => out_of_fuel
  | S fuel =>
      v ← queue_of q;
      err ← incrementDeficit (issuerID v) rounds;
      q' ← (if (err : bool) then
              trigger ErrorHandled;; removeIssuer (issuerID v);; read (fun s => Current (basicBuffer s))
            else on_basic BNext);
      match q' with
      | None => mret false
      | Some q' => if decide (q' = start) then mret true else increment_all fuel start q' rounds
      end
  end.

(** [increment the deficit for all issuers before schedulingIssuer one more time] *)
Fixpoint increment_before (fuel : nat) (q schedulingIssuer : ptr) : prog Scheduler bool :=
  if decide (q = schedulingIssuer) then mret true
  else
    match fuel with
    | O => out_of_fuel
    | S fuel =>
        v ← queue_of q;
        err ← incrementDeficit (issuerID v) 1;
        if (err : bool) then trigger ErrorHandled;; removeIssuer (issuerID v);; mret false
        else
          q' ← on_basic BNext;
          q' ← lift (deref q');
          increment_before fuel q' schedulingIssuer
    end.

(** The last part of [selectBasicBlockWithoutLocking]: pop, charge, hand over. *)
Definition dispatch_front : prog Scheduler unit :=
  block ← on_basic BPopFront;
  block ← lift (deref block);
  cost ← lift (deficitFromWork (WorkScore block));
  err ← updateDeficit (IssuerID block) (i64 (- cost));
  if (err : bool) then drop_block block
  else run_basic (fun b => Ret (set_blockChan (Some block) b)).

Definition selectBasicBlock : prog Scheduler unit := fun s =>
  match blockChan (basicBuffer s), Current (basicBuffer s) with
  | Some _, _ => Ret (tt, s)
  | None, None => Ret (tt, s)
  | None, Some start =>
      (sel ← selectIssuer start;
       match sel.2 with
       | None => mret tt
       | Some schedulingIssuer =>
           let fuel := ring_fuel (basicBuffer s) in
           go ← (if 0 <? sel.1 then increment_all fuel start start sel.1 else mret true);
           if (go : bool) then
             go ← increment_before fuel start schedulingIssuer;
             when go dispatch_front
           else mret tt
       end) s
  end.

(** [selectValidationBlockWithoutLocking] on the queue of one account. *)
Definition selectValidationBlock (a : AccountID) (b : ValidatorBuffer) : bool * ValidatorBuffer :=
  match vb_buffer b !! a with
  | None => (false, b)
  | Some q =>
      match v_blockChan q with
      | Some _ => (false, b)
      | None => match VPopFront q with
                | (Some blk, q') => (true, (VBSet a (v_set_blockChan (Some blk) q') b).2)
                | (None, _) => (false, b)
                end
      end
  end.

Definition selectBlockToSchedule : prog Scheduler unit :=
  vs ← read (fun s => range_of (vb_buffer (validatorBuffer s)));
  for_each (fun kv => update (fun s =>
    let '(popped, b) := selectValidationBlock kv.1 (validatorBuffer s) in
    set_validator (if (popped : bool) then mkValidatorBuffer (vb_buffer b) (vb_size b - 1) else b) s)) vs;;
  selectBasicBlock.

(** ** Adding blocks *)

(** The quantum function [enqueueBasicBlock] passes to [Submit]: 0 on an error. *)
Definition submit_quantum (issuerID : AccountID) : Z :=
  from_option Datatypes.id 0 (quantumFunc issuerID (latestCommittedSlot env)).

Definition enqueueBasicBlock (block : ModelBlock) : prog Scheduler unit :=
  p ← read (fun s => GetIssuerQueue (IssuerID block) (basicBuffer s));
  p ← (match p with
       | Some p => mret p
       | None =>
           when (bool_decide (quantumFunc (IssuerID block) (latestCommittedSlot env) = None)) (trigger ErrorHandled);;
           createIssuer (IssuerID block)
       end);
  r ← on_basic (fun b => '(d, ok, b) ← BSubmit (toWorkScore env) submit_quantum block p (MaxBufferSize env) b;
                         Ret ((d, ok), b));
  let '(droppedBlocks, submitted) := r : list ModelBlock * bool in
  if negb submitted then mret tt
  else
    for_each drop_block droppedBlocks;;
    upd ← on_obj (ID block) SetEnqueued;
    when upd (trigger (BlockEnqueued (ID block));; tryReady block).

Definition enqueueValidationBlock (block : ModelBlock) : prog Scheduler unit :=
  update (fun s => match VBGet (IssuerID block) (validatorBuffer s) with
                   | Some _ => s
                   | None => set_validator (VBSet (IssuerID block) (NewValidatorQueue (IssuerID block) (now env)) (validatorBuffer s)).2 s
                   end);;
  r ← zoom validatorBuffer set_validator (fun b =>
        '(d, ok, b) ← VBSubmit block (MaxValidationBufferSize env) b; Ret ((d, ok), b));
  let '(droppedBlock, submitted) := r : option ModelBlock * bool in
  if negb submitted then mret tt
  else
    for_each drop_block (option_list droppedBlock);;
    upd ← on_obj (ID block) SetEnqueued;
    when upd (trigger (BlockEnqueued (ID block));; tryReadyValidationBlock block).

Definition AddBlock (block : ModelBlock) : prog Scheduler unit :=
  match Kind block with
  | Validation => enqueueValidationBlock block
  | Basic => enqueueBasicBlock block
  end.

(** ** Scheduling *)
Definition scheduleBasicBlock (block : ModelBlock) : prog Scheduler unit :=
  upd ← on_obj (ID block) SetScheduled;
  when upd
    (run_basic (fun b => Ret (deductTokens (of_Z (WorkScore block)) b));;
     updateChildren (ID block);;
     selectBlockToSchedule;;
     trigger (BlockScheduled (ID block))).

(** One iteration of [basicBlockLoop]: [t1] is the time the token bucket is
    refilled at, after the wait. *)
Definition basicBlockLoop_step (t1 t2 : Z) : prog Scheduler unit := fun s =>
  match blockChan (basicBuffer s) with
  | None => Ret (tt, s)
  | Some block =>
      (run_basic (fun b => Ret (updateTokenBucket (of_Z (SchedulerRate env)) (of_Z (MaxBlockWork env)) t1 t2 (set_blockChan None b)));;
       scheduleBasicBlock block) s
  end.

Definition with_validator_queue (a : AccountID) (f : ValidatorQueue -> ValidatorQueue) : prog Scheduler unit := update (fun s =>
  match VBGet a (validatorBuffer s) with
  | Some q => set_validator (VBSet a (f q) (validatorBuffer s)).2 s
  | None => s
  end).

Definition scheduleValidationBlock (block : ModelBlock) (a : AccountID) : prog Scheduler unit :=
  upd ← on_obj (ID block) SetScheduled;
  when upd
    (with_validator_queue a (VdeductTokens (of_Z 1));;
     updateChildren (ID block);;
     selectBlockToSchedule;;
     trigger (BlockScheduled (ID block))).

(** One iteration of [validatorLoop] for the queue of account [a]. *)
Definition validatorLoop_step (a : AccountID) (t1 t2 : Z) : prog Scheduler unit := fun s =>
  match VBGet a (validatorBuffer s) with
  | Some q =>
      match v_blockChan q with
      | None => Ret (tt, s)
      | Some block =>
          let validationBlocksPerSlot := of_Z (ValidationBlocksPerSlot env) in
          let rate := fdiv validationBlocksPerSlot (of_Z (SlotDurationSeconds env)) in
          (with_validator_queue a (fun q => VupdateTokenBucket rate validationBlocksPerSlot t1 t2 (v_set_blockChan None q));;
           scheduleValidationBlock block a) s
      end
  | None => Ret (tt, s)
  end.

(** ** Queries *)
Definition IssuerQueueBlockCount (issuerID : AccountID) (s : Scheduler) : Z :=
  Size (p ← IssuerQueuePtr issuerID (basicBuffer s); queue_at (basicBuffer s) p).
Definition IssuerQueueWork (issuerID : AccountID) (s : Scheduler) : Z :=
  Work (toWorkScore env) (p ← IssuerQueuePtr issuerID (basicBuffer s); queue_at (basicBuffer s) p).
Definition ValidatorQueueBlockCount (issuerID : AccountID) (s : Scheduler) : Z :=
  match VBGet issuerID (validatorBuffer s) with None => 0 | Some q => v_size q end.
Definition BasicBufferSize (s : Scheduler) : Z := bufferSize (basicBuffer s).
Definition ValidatorBufferSize (s : Scheduler) : Z := VBSize (Some (validatorBuffer s)).

Definition IsBlockIssuerReady (accountID : AccountID) (blks : list ModelBlock) (s : Scheduler) : outcome bool :=
  if decide (bufferSize (basicBuffer s) = 0) then Ret true
  else
    let work := match blks with [] => MaxBlockWork env | _ => 0 end in
    let work := foldl (fun w b => toWorkScore env (w + WorkScore b)) work blks in
    match deficits s !! accountID with
    | None => Ret false
    | Some deficit =>
        cost ← deficitFromWork (toWorkScore env (work + IssuerQueueWork accountID s));
        Ret (bool_decide (cost <= deficit))
    end.

(** ** Hooks of [NewProvider] *)
Definition on_BlockBooked (block : ModelBlock) : prog Scheduler unit := AddBlock block;; selectBlockToSchedule.
Definition on_AccountCreated (accountID : AccountID) : prog Scheduler unit := createIssuer accountID;; mret tt.
Definition on_AccountDestroyed (accountID : AccountID) : prog Scheduler unit := removeIssuer accountID.

(** At the end of an epoch the queues of accounts outside the next committee are removed. *)
Definition on_LatestCommitmentUpdated (lastSlotOfEpoch : bool) (inCommittee : AccountID -> bool) : prog Scheduler unit :=
  when lastSlotOfEpoch
    (vs ← read (fun s => range_of (vb_buffer (validatorBuffer s)));
     for_each (fun kv : AccountID * ValidatorQueue =>
       when (negb (inCommittee kv.1)) (update (fun s => set_validator (VBDelete kv.1 (validatorBuffer s)) s))) vs).
End Scheduler.
