(* ===== verification/SchedulerProps.v ===== *)
(** * Correctness of the scheduler

    The deficit round robin of [selectBasicBlock]: with a quantum for every
    active issuer and no block to skip, the selection is total, picks the first
    issuer of the round that needs the fewest rounds, credits every issuer by
    whole rounds, and the chosen issuer pays for its block without going below
    zero.  Further: deficits stay in their range over every operation, and the
    cases in which the code does not do what it means to. *)
From S2P Require Import Prelude GoHeap Block Float64 IssuerQueue BufferQueue ValidatorQueue Scheduler.

Section Props.
Context `{!SafeMath} `{!SafeMathSpec _} `{!RangeOrder BlockID} `{!RangeOrder AccountID} (env : Env).

(** ** Arithmetic of deficits *)
Lemma maxDeficit_val : maxDeficit = 4611686018427387903.
Proof. reflexivity. Qed.

Lemma in_i64 z : in_range Int64 z <-> - 2 ^ 63 <= z < 2 ^ 63.
Proof. unfold in_range. cbn. lia. Qed.

(** A quantum is between 1 and [maxDeficit]. *)
Lemma quantum_range id slot q : (forall m, GetManaOnAccount env id slot = Some m -> 0 <= m) ->
  quantumFunc env id slot = Some q -> 1 <= q <= maxDeficit.
Proof.
  unfold quantumFunc. intros Hm. destruct (GetManaOnAccount env id slot) as [m|]; cbn; [|done]. intros [= <-].
  specialize (Hm m eq_refl). rewrite maxDeficit_val. rewrite (wrap_id Uint64) by (unfold in_range; cbn; lia).
  rewrite (wrap_id Int64 (Z.min _ _)) by (rewrite in_i64; lia). rewrite wrap_id by (rewrite in_i64; lia). lia.
Qed.

(** The cost of a block of at most the maximal work fits the deficit range. *)
Lemma cost_bound w : 0 < MaxBlockWork env -> 0 <= w <= MaxBlockWork env ->
  exists c, deficitFromWork env w = Ret c /\ 0 <= c <= maxDeficit /\ c = w * (maxDeficit / MaxBlockWork env).
Proof.
  intros Hm Hw. unfold deficitFromWork. rewrite decide_False by lia.
  assert (Hd : 0 <= maxDeficit / MaxBlockWork env) by (apply Z.div_pos; rewrite ?maxDeficit_val; lia).
  assert (Hc : w * (maxDeficit / MaxBlockWork env) <= maxDeficit).
  { transitivity (MaxBlockWork env * (maxDeficit / MaxBlockWork env)); [nia|]. apply Z.mul_div_le. lia. }
  pose proof maxDeficit_val. exists (w * (maxDeficit / MaxBlockWork env)).
  rewrite wrap_id by (rewrite in_i64; nia). split_and!; try done; nia.
Qed.

(** [r] rounds suffice, and one fewer does not. *)
Lemma rounds_needed_spec cost d q : 0 <= cost <= maxDeficit -> 0 <= d <= maxDeficit -> 1 <= q <= maxDeficit ->
  exists r, rounds_needed cost d q = Some r /\ in_range Int64 r /\ r < MaxInt64 /\
    cost <= d + q * Z.max 0 r /\ (0 < r -> d + q * (r - 1) < cost) /\ (r <= 0 <-> cost <= d).
Proof.
  intros Hc Hd Hq. pose proof maxDeficit_val as Hmax. unfold rounds_needed.
  rewrite (wrap_id Int64 (cost - d)), (wrap_id Int64 (q - 1)) by (rewrite in_i64; lia).
  rewrite SafeAdd_spec by (rewrite in_i64; lia). unfold checked. rewrite decide_True by (rewrite in_i64; lia).
  cbn [from_option]. unfold Datatypes.id. set (n := cost - d + (q - 1)). assert (Hn : n = cost - d + q - 1) by lia.
  rewrite SafeDiv_spec by (rewrite in_i64; lia). rewrite decide_False by lia.
  pose proof (Z.quot_rem' n q) as Hqr. set (r := n `quot` q) in *.
  assert (Hrem : (0 <= n -> 0 <= Z.rem n q < q) /\ (n < 0 -> - q < Z.rem n q <= 0)).
  { split; intros ?; [apply Z.rem_bound_pos; lia|].
    pose proof (Z.rem_bound_pos (- n) q) as Hb. rewrite Z.rem_opp_l in Hb by lia. lia. }
  assert (Hr : - maxDeficit <= r <= 2 * maxDeficit) by nia.
  unfold checked. rewrite decide_True by (rewrite in_i64; lia). exists r. rewrite in_i64. unfold MaxInt64.
  destruct (Z.lt_ge_cases n 0); split_and!; try lia; try done; nia.
Qed.

(** ** Crediting one issuer *)
Definition credit (d quantum k : Z) : Z := Z.min (d + quantum * k) maxDeficit.

Lemma credit_range d q k : 0 <= d <= maxDeficit -> 0 <= q -> 0 <= k -> 0 <= credit d q k <= maxDeficit.
Proof. intros. unfold credit. nia. Qed.

Lemma removeIssuer_free (err : bool) (a : AccountID) : err = false ->
  (if err then removeIssuer a;; mret true else mret false) = (mret false : prog Scheduler bool).
Proof. by intros ->. Qed.

Lemma updateDeficit_ok s a d delta : deficits s !! a = Some d -> 0 <= d <= maxDeficit ->
  in_range Int64 delta -> 0 <= d + delta ->
  updateDeficit a delta s = Ret (false, set_deficits (<[a := Z.min (d + delta) maxDeficit]> (deficits s)) s).
Proof.
  intros Hd Hr Hdelta Hpos. unfold updateDeficit. erewrite prog_bind_eq by reflexivity. cbn beta. rewrite Hd.
  unfold compute_deficit. pose proof maxDeficit_val as Hmax. rewrite SafeAdd_spec by (done || (rewrite in_i64; lia)).
  unfold checked. rewrite in_i64 in Hdelta. case_decide as Hin; rewrite in_i64 in Hin.
  - rewrite (proj2 (Z.ltb_ge _ _)) by lia. reflexivity.
  - replace (Z.min (d + delta) maxDeficit) with maxDeficit by lia. reflexivity.
Qed.

Lemma incrementDeficit_ok s a d q k : deficits s !! a = Some d -> 0 <= d <= maxDeficit ->
  quantumFunc env a (latestCommittedSlot env) = Some q -> 1 <= q <= maxDeficit -> 0 <= k -> in_range Int64 k ->
  incrementDeficit env a k s = Ret (false, set_deficits (<[a := credit d q k]> (deficits s)) s).
Proof.
  intros Hd Hr Hq Hqr Hk Hkr. unfold incrementDeficit. rewrite Hq. pose proof maxDeficit_val as Hmax.
  rewrite SafeMul_spec by (done || (rewrite in_i64; lia)). unfold checked. case_decide as Hin; cbn [from_option]; unfold Datatypes.id.
  - rewrite (updateDeficit_ok s a d) by (done || nia). done.
  - rewrite (updateDeficit_ok s a d) by (done || nia || (rewrite in_i64; lia)).
    rewrite in_i64 in Hin. unfold credit. by replace (Z.min (d + q * k) maxDeficit) with (Z.min (d + maxDeficit) maxDeficit) by nia.
Qed.

(** ** Rounds over the ring *)

(** The state with the round robin at another element. *)
Definition at_ring (r : ptr) (s : Scheduler) : Scheduler := set_basic (set_ring (Some r) (basicBuffer s)) s.

Definition issuer_ids (s : Scheduler) (l : list ptr) : list AccountID := issuerID <$> queues (basicBuffer s) l.

(** An issuer that can be credited. *)
Definition creditable (s : Scheduler) (a : AccountID) : Prop :=
  exists d q, deficits s !! a = Some d /\ 0 <= d <= maxDeficit /\
              quantumFunc env a (latestCommittedSlot env) = Some q /\ 1 <= q <= maxDeficit.

Definition quantum (a : AccountID) : Z := submit_quantum env a.

Lemma creditable_quantum s a : creditable s a ->
  exists d, deficits s !! a = Some d /\ 0 <= d <= maxDeficit /\
            quantumFunc env a (latestCommittedSlot env) = Some (quantum a) /\ 1 <= quantum a <= maxDeficit.
Proof. intros (d & q & Hd & Hr & Hq & Hqr). exists d. unfold quantum, submit_quantum. rewrite Hq. done. Qed.

Lemma issuer_ids_nodup s l : buffer_inv (basicBuffer s) l -> NoDup (issuer_ids s l).
Proof.
  intros Hb. unfold issuer_ids. pose proof (bi_nodup _ _ Hb) as Hnd.
  assert (Hinj : forall p p' q q', p ∈ l -> p' ∈ l -> queue_at (basicBuffer s) p = Some q ->
    queue_at (basicBuffer s) p' = Some q' -> issuerID q = issuerID q' -> p = p').
  { intros p p' q q' Hp Hp' Hq Hq' Hi.
    assert (activeIssuers (basicBuffer s) !! issuerID q = Some p) by (apply (bi_active _ _ Hb); eauto).
    assert (activeIssuers (basicBuffer s) !! issuerID q = Some p') by (apply (bi_active _ _ Hb); eauto). congruence. }
  assert (Hall : forall p, p ∈ l -> exists q, queue_at (basicBuffer s) p = Some q) by (intros; by eapply bi_node).
  clear Hb. induction l as [|p l IH]; [constructor|]. apply NoDup_cons in Hnd as [Hpl Hnd].
  destruct (Hall p) as [q Hq]; [set_solver|]. change (p :: l) with ([p] ++ l).
  rewrite queues_app, (queues_one _ p q Hq). cbn. apply NoDup_cons. split.
  - intros (q' & Hi & Hq')%list_elem_of_fmap. apply elem_of_queues in Hq' as (p' & Hp' & Hq').
    apply Hpl. rewrite (Hinj p p' q q'); set_solver.
  - apply IH; [done| |set_solver]. intros p1 p2 q1 q2 H1 H2. apply Hinj; set_solver.
Qed.

Lemma issuer_ids_cons s p q l : queue_at (basicBuffer s) p = Some q -> issuer_ids s (p :: l) = issuerID q :: issuer_ids s l.
Proof. intros Hq. unfold issuer_ids. change (p :: l) with ([p] ++ l). by rewrite queues_app, (queues_one _ p q Hq). Qed.

(** Deficits after crediting the issuers [ids] for [k] rounds. *)
Definition credited (k : Z) (ids : list AccountID) (m m' : gmap AccountID Z) : Prop :=
  forall a, m' !! a = if decide (a ∈ ids) then (fun d => credit d (quantum a) k) <$> m !! a else m !! a.

Lemma credited_nil k m : credited k [] m m.
Proof. intros a. by rewrite decide_False by set_solver. Qed.

Lemma credited_cons k a ids m m' d : a ∉ ids -> m !! a = Some d ->
  credited k ids (<[a := credit d (quantum a) k]> m) m' -> credited k (a :: ids) m m'.
Proof.
  intros Ha Hd Hm b. rewrite Hm. rewrite lookup_insert. destruct (decide (a = b)) as [->|Hne].
  - rewrite decide_False by done. rewrite decide_True by set_solver. by rewrite Hd.
  - destruct (decide (b ∈ ids)); [rewrite decide_True by set_solver|rewrite decide_False by set_solver]; done.
Qed.

Lemma queue_of_eq s p v : queue_at (basicBuffer s) p = Some v -> queue_of p s = Ret (v, s).
Proof. intros Hq. unfold queue_of. by rewrite Hq. Qed.

Lemma on_basic_BNext s r r' : ring (basicBuffer s) = Some r ->
  BNext (basicBuffer s) = Ret (Some r', set_ring (Some r') (basicBuffer s)) ->
  on_basic BNext s = Ret (Some r', at_ring r' s).
Proof. intros _ Hn. unfold on_basic, zoom. by rewrite Hn. Qed.

Lemma creditable_update s a b x : a <> b -> creditable s b -> creditable (set_deficits (<[a := x]> (deficits s)) s) b.
Proof. intros Hne (d & q & Hd & Hrest). exists d, q. split; [|done]. cbn. by rewrite lookup_insert_ne. Qed.

(** One visit of an increment loop: credit the current issuer and advance. *)
Lemma increment_all_spec fuel s start q rest vis k :
  buffer_inv (basicBuffer s) (q :: rest ++ vis) -> head (vis ++ [q]) = Some start -> (length rest < fuel)%nat ->
  0 <= k -> in_range Int64 k -> (forall a, a ∈ issuer_ids s (q :: rest) -> creditable s a) ->
  exists m', increment_all env fuel start q k s = Ret (true, set_deficits m' (at_ring start s)) /\
             credited k (issuer_ids s (q :: rest)) (deficits s) m'.
Proof.
  intros Hb Hs Hf Hk Hkr. revert fuel s q vis Hb Hs Hf.
  induction rest as [|r rest IH]; intros fuel s q vis Hb Hs Hf Hcr;
    (destruct fuel as [|fuel]; [exfalso; cbn in Hf; lia|]); cbn [increment_all];
    (destruct (bi_node _ _ q Hb) as [v Hv]; [set_solver|]);
    pose proof (round_step _ start q _ vis Hb Hs) as Hstep;
    pose proof (proj1 (bi_cycle _ _ _ Hb)) as Hring;
    pose proof (issuer_ids_nodup s _ Hb) as Hnd;
    rewrite (prog_bind_eq _ _ _ _ _ (queue_of_eq s q v Hv));
    rewrite (issuer_ids_cons s q v) in * by done;
    (destruct (creditable_quantum s (issuerID v)) as (d & Hd & Hdr & Hq & Hqr); [apply Hcr; set_solver|]);
    rewrite (prog_bind_eq _ _ _ _ _ (incrementDeficit_ok s _ d _ k Hd Hdr Hq Hqr Hk Hkr)); cbn beta iota;
    set (s1 := set_deficits _ s).
  - erewrite prog_bind_eq by (apply (on_basic_BNext s1 q start); done). cbn beta iota. rewrite decide_True by done.
    eexists. split; [reflexivity|]. eapply credited_cons; [set_solver|done|]. apply credited_nil.
  - destruct Hstep as (Hn & Hne & Hb'). erewrite prog_bind_eq by (apply (on_basic_BNext s1 q r); done).
    cbn beta iota. rewrite decide_False by done.
    destruct (IH fuel (at_ring r s1) r (vis ++ [q])) as (m' & -> & Hm').
    + done.
    + destruct vis as [|w vis]; cbn in *; congruence.
    + cbn in Hf. lia.
    + intros a Ha. apply (creditable_update s); [|apply Hcr; set_solver]. intros <-.
      apply NoDup_cons in Hnd as [Hnd _]. apply Hnd. unfold issuer_ids in *.
      change (r :: rest ++ vis) with ((r :: rest) ++ vis). rewrite queues_app, fmap_app. set_solver.
    + exists m'. split; [done|]. eapply credited_cons; [|done|exact Hm'].
      apply NoDup_cons in Hnd as [Hnd _]. intros Hin. apply Hnd. unfold issuer_ids in *.
      change (r :: rest ++ vis) with ((r :: rest) ++ vis). rewrite queues_app, fmap_app. set_solver.
Qed.

Lemma increment_before_spec fuel s pre si post :
  buffer_inv (basicBuffer s) (pre ++ si :: post) -> (length pre <= fuel)%nat ->
  (forall a, a ∈ issuer_ids s pre -> creditable s a) ->
  exists m', increment_before env fuel (default si (head pre)) si s = Ret (true, set_deficits m' (at_ring si s)) /\
             credited 1 (issuer_ids s pre) (deficits s) m' /\
             buffer_inv (set_ring (Some si) (basicBuffer s)) (si :: post ++ pre).
Proof.
  revert fuel s post. induction pre as [|a pre IH]; intros fuel s post Hb Hf Hcr.
  - cbn [app head default]. destruct fuel; cbn [increment_before]; rewrite decide_True by done;
      exists (deficits s); (split; [|split; [apply credited_nil|]]);
      pose proof (proj1 (bi_cycle _ _ _ Hb)) as Hr; unfold mret, prog_ret, at_ring; cbn in Hb; rewrite ?app_nil_r, <- Hr;
      destruct s as [[] ? ? ? ?]; done.
  - destruct fuel as [|fuel]; [cbn in Hf; lia|]. cbn [app head default from_option increment_before] in *. unfold Datatypes.id.
    pose proof (bi_nodup _ _ Hb) as [Ha _]%NoDup_cons. rewrite decide_False by set_solver.
    destruct (bi_node _ _ a Hb) as [v Hv]; [set_solver|].
    pose proof (proj1 (bi_cycle _ _ _ Hb)) as Hring. pose proof (issuer_ids_nodup s _ Hb) as Hnd.
    rewrite (prog_bind_eq _ _ _ _ _ (queue_of_eq s a v Hv)). rewrite (issuer_ids_cons s a v) in * by done.
    destruct (creditable_quantum s (issuerID v)) as (d & Hd & Hdr & Hq & Hqr); [apply Hcr; set_solver|].
    rewrite (prog_bind_eq _ _ _ _ _ (incrementDeficit_ok s _ d _ 1 Hd Hdr Hq Hqr ltac:(lia) ltac:(by rewrite in_i64))).
    cbn beta iota. set (s1 := set_deficits _ s).
    destruct (BNext_spec _ _ _ Hb) as (a' & l' & Heq & Hn & Hb').
    assert (Ha' : a' = default si (head pre)) by (destruct pre; cbn in *; congruence). subst a'.
    erewrite prog_bind_eq by (apply (on_basic_BNext s1 a); done). cbn beta iota.
    erewrite prog_bind_eq by reflexivity.
    assert (Hnotin : issuerID v ∉ issuer_ids s pre).
    { apply NoDup_cons in Hnd as [Hnd _]. intros Hin. apply Hnd. unfold issuer_ids in *.
      rewrite queues_app, fmap_app. set_solver. }
    destruct (IH fuel (at_ring (default si (head pre)) s1) (post ++ [a])) as (m' & Hrun & Hm' & Hb2).
    + cbn [basicBuffer at_ring set_basic]. by rewrite <- app_assoc in Hb'.
    + cbn in Hf. lia.
    + intros b Hin. apply (creditable_update s); [|apply Hcr; set_solver]. intros <-. done.
    + exists m'. split; [exact Hrun|]. split.
      * eapply credited_cons; [done|done|exact Hm'].
      * rewrite <- app_assoc in Hb2. done.
Qed.

(** ** Selection *)

(** The front block of a queue, if it was issued before now. *)
Definition due (v : IssuerQueue) : option ModelBlock :=
  match Front (Some v) with
  | Some b => if IssuingTime b <? now env then Some b else None
  | None => None
  end.

Definition cost_of (w : Z) : Z := w * (maxDeficit / MaxBlockWork env).

(** The rounds the issuer of a queue needs for its due block. *)
Definition candidate (s : Scheduler) (p : ptr) : option Z :=
  v ← queue_at (basicBuffer s) p;
  b ← due v;
  d ← deficits s !! issuerID v;
  rounds_needed (cost_of (WorkScore b)) d (quantum (issuerID v)).

(** The first element of the round with the fewest rounds. *)
Definition best (s : Scheduler) : Z * option ptr -> list ptr -> Z * option ptr :=
  foldl (fun acc p => match candidate s p with
                      | Some r => if r <? acc.1 then (r, Some p) else acc
                      | None => acc
                      end).

(** A state in which every active issuer has a deficit and a quantum, blocks
    cost at most the maximal work, and no due block is skipped. *)
Record schedulable (s : Scheduler) (l : list ptr) : Prop := {
  sb_buffer : buffer_inv (basicBuffer s) l;
  sb_work : 0 < MaxBlockWork env;
  sb_issuers : forall a, a ∈ issuer_ids s l -> creditable s a;
  sb_cost : forall v b, v ∈ queues (basicBuffer s) l -> b ∈ contents v -> 0 <= WorkScore b <= MaxBlockWork env;
  sb_objs : forall v b, v ∈ queues (basicBuffer s) l -> due v = Some b ->
              exists obj, blockObjs s !! ID b = Some obj /\ skippable env obj b = false;
}.

Lemma due_front v b : due v = Some b -> Front (Some v) = Some b /\ IssuingTime b < now env.
Proof. unfold due. repeat case_match; intros [= <-]. split; [done|lia]. Qed.

Lemma front_contents v b : queue_inv v -> Front (Some v) = Some b -> b ∈ contents v /\ IssuerID b = issuerID v.
Proof.
  intros Hq Hf. assert (Hin : b ∈ contents v).
  { unfold contents, Front in *. destruct (inbox v); [done|]. injection Hf as ->. set_solver. }
  split; [done|]. pose proof (qi_issuer v Hq) as Hi. rewrite Forall_forall in Hi. by apply Hi.
Qed.

(** The inner loop reads the front of the queue and changes nothing. *)
Lemma select_front_spec s l p v fuel : schedulable s l -> p ∈ l -> queue_at (basicBuffer s) p = Some v ->
  select_front env fuel p s =
    Ret (match candidate s p with Some r => Candidate r | None => NoCandidate end, s).
Proof.
  intros [Hb Hw Hi Hc Ho] Hp Hv. assert (Hvq : v ∈ queues (basicBuffer s) l) by (apply elem_of_queues; eauto).
  unfold candidate. rewrite Hv. cbn [mbind option_bind].
  destruct (Front (Some v)) as [b|] eqn:Hf; cycle 1.
  { unfold due. rewrite Hf. destruct fuel; cbn [select_front];
      by rewrite (prog_bind_eq _ _ _ _ _ (queue_of_eq s p v Hv)), Hf. }
  destruct (Z.ltb_spec (IssuingTime b) (now env)) as [Ht|Ht]; cycle 1.
  { unfold due. rewrite Hf, (proj2 (Z.ltb_ge _ _)) by lia.
    destruct fuel; cbn [select_front]; rewrite (prog_bind_eq _ _ _ _ _ (queue_of_eq s p v Hv)), Hf;
      rewrite (proj2 (Z.ltb_ge _ _)) by lia; done. }
  assert (Hdue : due v = Some b) by (unfold due; by rewrite Hf, (proj2 (Z.ltb_lt _ _))).
  rewrite Hdue. cbn [mbind option_bind].
  destruct (Ho v b Hvq Hdue) as (obj & Hobj & Hskip).
  pose proof (bi_queues _ _ Hb p v Hp Hv) as Hqi. destruct (front_contents v b Hqi Hf) as [Hbc Hbi].
  destruct (creditable_quantum s (issuerID v)) as (d & Hd & Hdr & Hq & Hqr); [apply Hi; unfold issuer_ids; set_solver|].
  destruct (cost_bound (WorkScore b) Hw (Hc v b Hvq Hbc)) as (c & Hcost & Hcr & Hceq).
  destruct (rounds_needed_spec c d (quantum (issuerID v)) Hcr Hdr Hqr) as (r & Hr & _).
  rewrite Hd. cbn [mbind option_bind]. fold (cost_of (WorkScore b)) in Hceq. rewrite <- Hceq, Hr.
  destruct fuel; cbn [select_front]; rewrite (prog_bind_eq _ _ _ _ _ (queue_of_eq s p v Hv)), Hf;
    rewrite (proj2 (Z.ltb_lt _ _)) by done; cbn [negb];
    unfold mbind at 1, prog_bind at 1; cbn beta iota; rewrite Hobj; cbn [deref mbind outcome_bind]; rewrite Hskip;
    unfold read, lift; unfold mbind, prog_bind, outcome_bind; cbn beta iota; rewrite Hbi, Hd; cbn [deref];
    rewrite Hcost; cbn beta iota; rewrite Hq, Hr; done.
Qed.

Lemma queues_perm b l l' : l ≡ₚ l' -> queues b l ≡ₚ queues b l'.
Proof. intros Hp. unfold queues. by rewrite Hp. Qed.

Lemma schedulable_rotate s l l' r : schedulable s l -> l' ≡ₚ l -> buffer_inv (set_ring (Some r) (basicBuffer s)) l' ->
  schedulable (at_ring r s) l'.
Proof.
  intros [Hb Hw Hi Hc Ho] Hp Hb'. pose proof (queues_perm (basicBuffer s) _ _ Hp) as Hqp.
  split; try done; cbn [basicBuffer at_ring set_basic].
  - intros a Ha. apply Hi. unfold issuer_ids in *. cbn in Ha.
    change (queues (set_ring (Some r) (basicBuffer s)) l') with (queues (basicBuffer s) l') in Ha. by rewrite Hqp in Ha.
  - intros v b Hv. apply Hc. by rewrite <- Hqp.
  - intros v b Hv. apply Ho. by rewrite <- Hqp.
Qed.

Lemma merge_candidate (o : option Z) (q : ptr) (acc : Z * option ptr) :
  match match o with Some r => Candidate r | None => NoCandidate end with
  | Candidate r => if r <? acc.1 then (r, Some q) else (acc.1, acc.2)
  | _ => (acc.1, acc.2)
  end = match o with Some r => if r <? acc.1 then (r, Some q) else acc | None => acc end.
Proof. destruct acc, o; [case_match|]; done. Qed.

Lemma selectIssuer_loop_spec fuel s start q rest vis acc :
  schedulable s (q :: rest ++ vis) -> head (vis ++ [q]) = Some start -> (length rest < fuel)%nat ->
  selectIssuer_loop env fuel start q acc.1 acc.2 s = Ret (best s acc (q :: rest), at_ring start s).
Proof.
  revert fuel s q vis acc. induction rest as [|r rest IH]; intros fuel s q vis acc Hsb Hs Hf;
    (destruct fuel as [|fuel]; [exfalso; cbn in Hf; lia|]); cbn [selectIssuer_loop];
    pose proof (sb_buffer _ _ Hsb) as Hb;
    (destruct (bi_node _ _ q Hb) as [v Hv]; [set_solver|]);
    pose proof (round_step _ start q _ vis Hb Hs) as Hstep;
    pose proof (proj1 (bi_cycle _ _ _ Hb)) as Hring;
    rewrite (prog_bind_eq _ _ _ _ _ (queue_of_eq s q v Hv));
    rewrite (prog_bind_eq _ _ _ _ _ (select_front_spec s _ q v (length (contents v)) Hsb ltac:(set_solver) Hv)); cbn beta;
    set (acc' := match candidate s q with Some r => if r <? acc.1 then (r, Some q) else acc | None => acc end);
    change (best s acc (q :: ?l)) with (best s acc' l).
  - rewrite merge_candidate. fold acc'. destruct acc' as [r0 si0]. cbn beta iota.
    assert (Hb2 : on_basic BNext s = Ret (Some start, at_ring start s)) by (by apply (on_basic_BNext s q)).
    destruct (candidate s q); rewrite (prog_bind_eq _ _ _ _ _ Hb2), decide_True by done; done.
  - destruct Hstep as (Hn & Hne & Hb').
    rewrite merge_candidate. fold acc'. destruct acc' as [r0 si0]. cbn beta iota.
    assert (Hb2 : on_basic BNext s = Ret (Some r, at_ring r s)) by (by apply (on_basic_BNext s q)).
    assert (Hgo : selectIssuer_loop env fuel start r r0 si0 (at_ring r s) = Ret (best s (r0, si0) (r :: rest), at_ring start s)).
    { apply (IH fuel (at_ring r s) r (vis ++ [q]) (r0, si0)).
      - eapply schedulable_rotate; [done| |done]. rewrite app_comm_cons, app_assoc, <- Permutation_cons_append. done.
      - destruct vis as [|w vis]; cbn in *; congruence.
      - cbn in Hf. lia. }
    destruct (candidate s q); rewrite (prog_bind_eq _ _ _ _ _ Hb2), decide_False by done; exact Hgo.
Qed.

Lemma at_ring_current s start l : buffer_inv (basicBuffer s) (start :: l) -> at_ring start s = s.
Proof. intros Hb. unfold at_ring. pose proof (proj1 (bi_cycle _ _ _ Hb)) as Hr. rewrite <- Hr. by destruct s as [[] ? ? ? ?]. Qed.

Lemma candidate_bound s l p r : schedulable s l -> p ∈ l -> candidate s p = Some r -> in_range Int64 r /\ r < MaxInt64.
Proof.
  intros [Hb Hw Hi Hc Ho] Hp. unfold candidate. destruct (bi_node _ _ p Hb Hp) as [v Hv]. rewrite Hv. cbn [mbind option_bind].
  assert (Hvq : v ∈ queues (basicBuffer s) l) by (apply elem_of_queues; eauto).
  destruct (due v) as [b|] eqn:Hdue; [|done]. cbn [mbind option_bind]. destruct (due_front v b Hdue) as [Hf _].
  destruct (front_contents v b (bi_queues _ _ Hb p v Hp Hv) Hf) as [Hbc _].
  destruct (creditable_quantum s (issuerID v)) as (d & Hd & Hdr & Hq & Hqr); [apply Hi; unfold issuer_ids; set_solver|].
  rewrite Hd. cbn [mbind option_bind]. destruct (cost_bound (WorkScore b) Hw (Hc v b Hvq Hbc)) as (c & _ & Hcr & ->).
  destruct (rounds_needed_spec _ d (quantum (issuerID v)) Hcr Hdr Hqr) as (r' & Hr & Hin & Hlt & _).
  unfold cost_of. rewrite Hr. by intros [= <-].
Qed.

(** [best] is the first minimum of the candidates. *)
Lemma best_spec s l acc : 
  match best s acc l with
  | (r, sel) => (best s acc l = acc /\ forall p r', p ∈ l -> candidate s p = Some r' -> acc.1 <= r') \/
      exists pre p post, l = pre ++ p :: post /\ sel = Some p /\ candidate s p = Some r /\ r < acc.1 /\
        (forall p' r', p' ∈ pre -> candidate s p' = Some r' -> r < r') /\
        (forall p' r', p' ∈ post -> candidate s p' = Some r' -> r <= r')
  end.
Proof.
  revert acc. induction l as [|q l IH]; intros acc; cbn [best foldl].
  { destruct acc. left. split; [done|]. set_solver. }
  set (acc' := match candidate s q with Some r => if r <? acc.1 then (r, Some q) else acc | None => acc end).
  specialize (IH acc'). fold (best s acc' l) in *. destruct (best s acc' l) as [r sel] eqn:Hbest.
  destruct (candidate s q) as [rq|] eqn:Hcq; [destruct (Z.ltb_spec rq acc.1) as [Hlt|Hge]|]; subst acc'; cbn [fst] in *.
  - right. destruct IH as [[Heq Hmin]|(pre & p & post & -> & -> & Hcp & Hr & Hpre & Hpost)].
    + injection Heq as -> ->. exists [], q, l. split_and!; try done. set_solver.
    + exists (q :: pre), p, post. split_and!; try done; [lia|].
      intros p' r' [->|Hp']%elem_of_cons Hc'; [|by eapply Hpre]. rewrite Hcq in Hc'. injection Hc' as <-. lia.
  - destruct IH as [[Heq Hmin]|(pre & p & post & -> & -> & Hcp & Hr & Hpre & Hpost)].
    + left. split; [done|]. intros p' r' [->|Hp']%elem_of_cons Hc'; [|by eapply Hmin].
      rewrite Hcq in Hc'. injection Hc' as <-. lia.
    + right. exists (q :: pre), p, post. split_and!; try done.
      intros p' r' [->|Hp']%elem_of_cons Hc'; [|by eapply Hpre]. rewrite Hcq in Hc'. injection Hc' as <-. lia.
  - destruct IH as [[Heq Hmin]|(pre & p & post & -> & -> & Hcp & Hr & Hpre & Hpost)].
    + left. split; [done|]. intros p' r' [->|Hp']%elem_of_cons Hc'; [congruence|by eapply Hmin].
    + right. exists (q :: pre), p, post. split_and!; try done.
      intros p' r' [->|Hp']%elem_of_cons Hc'; [congruence|by eapply Hpre].
Qed.

Lemma credited_zero s l : (forall a, a ∈ issuer_ids s l -> creditable s a) -> credited 0 (issuer_ids s l) (deficits s) (deficits s).
Proof.
  intros Hcr a. case_decide as Ha; [|done]. destruct (Hcr a Ha) as (d & q & Hd & Hr & _). rewrite Hd. cbn.
  f_equal. unfold credit. lia.
Qed.

Lemma credited_creditable s ids k m' a : 0 <= k -> credited k ids (deficits s) m' -> creditable s a ->
  creditable (set_deficits m' s) a.
Proof.
  intros Hk Hm Ha. destruct (creditable_quantum s a Ha) as (d & Hd & Hr & Hq & Hqr).
  exists (if decide (a ∈ ids) then credit d (quantum a) k else d), (quantum a). cbn. rewrite Hm, Hd.
  case_decide; (split; [done|]); (split; [|done]); [apply credit_range; lia|done].
Qed.

(** Crediting every issuer for [r] rounds, when [r] is positive. *)
Lemma increment_phase s start l r : buffer_inv (basicBuffer s) (start :: l) -> in_range Int64 r ->
  (forall a, a ∈ issuer_ids s (start :: l) -> creditable s a) ->
  exists m1, (if 0 <? r then increment_all env (ring_fuel (basicBuffer s)) start start r else mret true) s =
               Ret (true, set_deficits m1 s) /\
             credited (Z.max 0 r) (issuer_ids s (start :: l)) (deficits s) m1.
Proof.
  intros Hb Hr Hcr. destruct (Z.ltb_spec 0 r) as [Hpos|Hneg].
  - destruct (increment_all_spec (ring_fuel (basicBuffer s)) s start start l [] r) as (m1 & Hrun & Hm1); try done.
    + by rewrite app_nil_r.
    + pose proof (bi_length _ _ Hb) as Hlen. unfold ring_fuel. cbn in Hlen. lia.
    + lia.
    + exists m1. rewrite Hrun, (at_ring_current s start l Hb). split; [done|]. by rewrite Z.max_r by lia.
  - exists (deficits s). split; [by destruct s|]. rewrite Z.max_l by lia. by apply credited_zero.
Qed.

(** Popping the front of the current queue and charging its issuer. *)
Lemma dispatch_front_spec s si l v b d : buffer_inv (basicBuffer s) (si :: l) -> queue_at (basicBuffer s) si = Some v ->
  Front (Some v) = Some b -> deficits s !! issuerID v = Some d -> 0 <= d <= maxDeficit ->
  0 < MaxBlockWork env -> 0 <= WorkScore b <= MaxBlockWork env -> cost_of (WorkScore b) <= d ->
  exists b', dispatch_front env s =
      Ret (tt, set_deficits (<[issuerID v := d - cost_of (WorkScore b)]> (deficits s)) (set_basic (set_blockChan (Some b) b') s)) /\
    buffer_inv (set_blockChan (Some b) b') (si :: l) /\ bufferSize b' = bufferSize (basicBuffer s) - 1.
Proof.
  intros Hb Hv Hf Hd Hdr Hw Hws Hcost. destruct (BPopFront_spec _ _ _ Hb) as (v' & Hv' & Hpop).
  assert (v' = v) as -> by congruence.
  pose proof (bi_queues _ _ Hb si v ltac:(set_solver) Hv) as Hqi.
  pose proof (PopFront_spec v Hqi) as HP. destruct (front_contents v b Hqi Hf) as [_ Hbi].
  destruct (PopFront v) as [[b0|] v1]; [|destruct HP as [Hin _]; unfold Front in Hf; by rewrite Hin in Hf].
  destruct HP as (Hf0 & _). assert (b0 = b) as -> by congruence. destruct Hpop as [Hpop Hb1].
  destruct (cost_bound (WorkScore b) Hw Hws) as (c & Hc & Hcr & Hceq). fold (cost_of (WorkScore b)) in Hceq. subst c.
  pose proof maxDeficit_val as Hmax.
  eexists (set_bufferSize _ _). split; [|split; [|reflexivity]].
  - unfold dispatch_front. erewrite prog_bind_eq by (unfold on_basic, zoom; by rewrite Hpop).
    erewrite prog_bind_eq by reflexivity. cbn beta.
    erewrite prog_bind_eq by (unfold lift; by rewrite Hc). cbn beta. rewrite Hbi.
    rewrite (wrap_id Int64) by (rewrite in_i64; lia).
    erewrite prog_bind_eq by (apply (updateDeficit_ok _ _ d); [done|done|rewrite in_i64; lia|lia]).
    cbn beta iota. replace (Z.min (d + - cost_of (WorkScore b)) maxDeficit) with (d - cost_of (WorkScore b)) by lia.
    reflexivity.
  - destruct Hb1 as [H1 H2 H3 H4 H5]. by split.
Qed.

(** C37 Deficit round robin.  When every active issuer has a deficit in range and
    a quantum, blocks cost at most the maximal block work and no due front block is
    to be skipped, [selectBasicBlock] returns.  Either no issuer has a due front
    block and nothing changes, or the selected issuer is the first of the round
    among those that need the fewest rounds [r]; every issuer is credited
    [max 0 r] quanta and the issuers before the selected one a further quantum, all
    capped at [maxDeficit]; the selected issuer's deficit covers the cost of its
    block and is charged exactly that cost; the block leaves the buffer through
    the channel, and the round robin stays at the selected issuer. *)
Theorem selectBasicBlock_drr s l : schedulable s l -> blockChan (basicBuffer s) = None ->
  match best s (MaxInt64, None) l with
  | (_, None) => selectBasicBlock env s = Ret (tt, s) /\ forall p, p ∈ l -> candidate s p = None
  | (r, Some si) => exists pre post v b m1 m2 d s',
      l = pre ++ si :: post /\ queue_at (basicBuffer s) si = Some v /\ due v = Some b /\ candidate s si = Some r /\
      (forall p r', p ∈ pre -> candidate s p = Some r' -> r < r') /\
      (forall p r', p ∈ post -> candidate s p = Some r' -> r <= r') /\
      credited (Z.max 0 r) (issuer_ids s l) (deficits s) m1 /\ credited 1 (issuer_ids s pre) m1 m2 /\
      m2 !! issuerID v = Some d /\ cost_of (WorkScore b) <= d /\
      selectBasicBlock env s = Ret (tt, s') /\ deficits s' = <[issuerID v := d - cost_of (WorkScore b)]> m2 /\
      blockChan (basicBuffer s') = Some b /\ buffer_inv (basicBuffer s') (si :: post ++ pre) /\
      bufferSize (basicBuffer s') = bufferSize (basicBuffer s) - 1
  end.
Proof.
  intros Hsb Hch. pose proof (sb_buffer _ _ Hsb) as Hb. pose proof (sb_issuers _ _ Hsb) as Hcr.
  unfold selectBasicBlock. rewrite Hch. unfold Current. destruct l as [|start l].
  { pose proof (bi_ring _ _ Hb) as Hr. destruct (ring (basicBuffer s)); [by destruct Hr|]. cbn. split; [done|set_solver]. }
  pose proof (proj1 (bi_cycle _ _ _ Hb)) as Hring. rewrite Hring.
  pose proof (bi_length _ _ Hb) as Hlen.
  pose proof (best_spec s (start :: l) (MaxInt64, None)) as Hbest.
  assert (Hsel : selectIssuer env start s = Ret (best s (MaxInt64, None) (start :: l), s)).
  { unfold selectIssuer. rewrite (selectIssuer_loop_spec _ s start start l [] (MaxInt64, None));
      [by rewrite (at_ring_current s start l Hb)|by rewrite app_nil_r|done|unfold ring_fuel; cbn in Hlen; lia]. }
  rewrite (prog_bind_eq _ _ _ _ _ Hsel).
  destruct (best s (MaxInt64, None) (start :: l)) as [r sel] eqn:Hbeq.
  destruct Hbest as [[Heq Hmin]|(pre & si & post & Hl & -> & Hcs & Hrm & Hpre & Hpost)].
  { injection Heq as -> ->. split; [done|]. intros p Hp. destruct (candidate s p) as [r'|] eqn:Hc; [|done].
    destruct (candidate_bound s _ p r' Hsb Hp Hc). specialize (Hmin p r' Hp Hc). cbn in Hmin. lia. }
  cbn [fst snd]. assert (Hsi : si ∈ start :: l) by (rewrite Hl; set_solver).
  destruct (candidate_bound s _ si r Hsb Hsi Hcs) as [Hrr _].
  destruct (increment_phase s start l r Hb Hrr Hcr) as (m1 & Hinc & Hm1). rewrite (prog_bind_eq _ _ _ _ _ Hinc). cbn beta iota.
  assert (Hpre_start : default si (head pre) = start) by (destruct pre; cbn in *; congruence).
  destruct (increment_before_spec (ring_fuel (basicBuffer s)) (set_deficits m1 s) pre si post) as (m2 & Hbef & Hm2 & Hb2).
  { cbn [basicBuffer set_deficits]. by rewrite <- Hl. }
  { unfold ring_fuel. rewrite Hl, length_app in Hlen. cbn in Hlen. lia. }
  { intros a Ha. apply (credited_creditable s (issuer_ids s (start :: l)) (Z.max 0 r)); [lia|done|]. apply Hcr.
    rewrite Hl. unfold issuer_ids. rewrite queues_app, fmap_app. set_solver. }
  rewrite Hpre_start in Hbef. rewrite (prog_bind_eq _ _ _ _ _ Hbef). cbn [when].
  (* the chosen issuer can pay *)
  destruct (bi_node _ _ si Hb Hsi) as [v Hv]. assert (Hvq : v ∈ queues (basicBuffer s) (start :: l)) by (apply elem_of_queues; eauto).
  assert (Hvi : issuerID v ∈ issuer_ids s (start :: l)) by (unfold issuer_ids; set_solver).
  unfold candidate in Hcs. rewrite Hv in Hcs. cbn [mbind option_bind] in Hcs.
  destruct (due v) as [b|] eqn:Hdue; [|done]. cbn [mbind option_bind] in Hcs.
  destruct (due_front v b Hdue) as [Hf _].
  destruct (front_contents v b (bi_queues _ _ Hb si v Hsi Hv) Hf) as [Hbc _].
  destruct (creditable_quantum s (issuerID v) (Hcr _ Hvi)) as (d & Hd & Hdr & Hq & Hqr). rewrite Hd in Hcs. cbn in Hcs.
  pose proof (sb_cost _ _ Hsb v b Hvq Hbc) as Hws. pose proof (sb_work _ _ Hsb) as Hw.
  destruct (cost_bound (WorkScore b) Hw Hws) as (c & _ & Hcr' & Hceq). fold (cost_of (WorkScore b)) in Hceq. subst c.
  destruct (rounds_needed_spec _ d (quantum (issuerID v)) Hcr' Hdr Hqr) as (r' & Hr' & _ & _ & Hpay & _).
  rewrite Hr' in Hcs. injection Hcs as ->.
  assert (Hd2 : m2 !! issuerID v = Some (credit d (quantum (issuerID v)) (Z.max 0 r))).
  { rewrite Hm2. rewrite decide_False; [cbn; rewrite Hm1, decide_True, Hd by done; done|].
    pose proof (issuer_ids_nodup s _ Hb) as Hnd. rewrite Hl in Hnd. unfold issuer_ids in *.
    rewrite queues_app, fmap_app in Hnd. apply NoDup_app in Hnd as (_ & Hdis & _).
    intros Hin. apply (Hdis _ Hin). change (si :: post) with ([si] ++ post). rewrite queues_app, (queues_one _ si v Hv). set_solver. }
  destruct (dispatch_front_spec (set_deficits m2 (at_ring si (set_deficits m1 s))) si (post ++ pre) v b
              (credit d (quantum (issuerID v)) (Z.max 0 r))) as (b' & Hdis & Hb3 & Hsz); try done.
  { apply credit_range; lia. } { unfold credit. lia. }
  eexists pre, post, v, b, m1, m2, _, _. split_and!; try done; [unfold candidate; rewrite Hv; cbn; rewrite Hdue; cbn; by rewrite Hd|].
  unfold credit. lia.
Qed.
End Props.

(** ** Deficits stay in range *)
Section Preserve.
Context (P : Scheduler -> Prop).

(** Every result of [m] from a state in [P] is in [P]. *)
Definition preserves {A} (m : prog Scheduler A) : Prop := forall s a s', m s = Ret (a, s') -> P s -> P s'.

Lemma preserves_ret {A} (a : A) : preserves (mret a).
Proof. by intros s a' s' [= <- <-]. Qed.
Lemma preserves_bind {A B} (m : prog Scheduler A) (f : A -> prog Scheduler B) :
  preserves m -> (forall a, preserves (f a)) -> preserves (m ≫= f).
Proof. intros Hm Hf s b s' (a & s1 & H1 & H2)%prog_bind_Ret Hs. eapply Hf; [done|]. by eapply Hm. Qed.
Lemma preserves_read {A} (f : Scheduler -> A) : preserves (read f).
Proof. by intros s a' s' [= <- <-]. Qed.
Lemma preserves_lift {A} (m : outcome A) : preserves (lift m).
Proof. intros s a s' Hm. unfold lift in Hm. destruct m; cbn in Hm; simplify_eq. done. Qed.
Lemma preserves_when c (m : prog Scheduler unit) : preserves m -> preserves (when c m).
Proof. destruct c; [done|]. intros _. apply preserves_ret. Qed.
Lemma preserves_for_each {A} (body : A -> prog Scheduler unit) l : (forall x, preserves (body x)) -> preserves (for_each body l).
Proof. intros Hb. induction l as [|x l IH]; cbn; [apply preserves_ret|]. by apply preserves_bind. Qed.
Lemma preserves_fuel {A} : preserves (out_of_fuel (A := A)).
Proof. by intros s a s' Hm. Qed.
Lemma preserves_update f : (forall s, P s -> P (f s)) -> preserves (update f).
Proof. intros Hf s a s' [= <- <-]. apply Hf. Qed.
Lemma preserves_queue_of p : preserves (queue_of p).
Proof. intros s a s' Hm. unfold queue_of in Hm. destruct (queue_at _ _); cbn in Hm; simplify_eq. done. Qed.
Lemma preserves_basic {A} (m : BufferQueue -> outcome (A * BufferQueue)) : (forall s b, P s -> P (set_basic b s)) -> preserves (on_basic m).
Proof. intros Hf s a s' Hm Hs. unfold on_basic, zoom in Hm. destruct (m _) as [[a' b]| |]; cbn in Hm; simplify_eq. by apply Hf. Qed.
Lemma preserves_obj id m : (forall s o, P s -> P (set_objs o s)) -> preserves (on_obj id m).
Proof.
  intros Hf s a s' Hm Hs. unfold on_obj in Hm. destruct (blockObjs s !! id) as [obj|]; cbn in Hm; [|done].
  destruct (m obj). simplify_eq. by apply Hf.
Qed.
End Preserve.

Create HintDb preserve.
#[export] Hint Resolve preserves_ret preserves_read preserves_lift
  preserves_fuel preserves_update preserves_queue_of preserves_basic preserves_obj : preserve.

Definition deficits_in_range (s : Scheduler) : Prop := map_Forall (fun _ d => 0 <= d <= maxDeficit) (deficits s).

Section DeficitRange.
Context `{!SafeMath} `{!RangeOrder BlockID} `{!RangeOrder AccountID} (env : Env).
Abbreviation keeps := (preserves deficits_in_range).

Lemma compute_deficit_range cur delta : (0 <= (compute_deficit cur delta).1 <= maxDeficit).
Proof. unfold compute_deficit. pose proof maxDeficit_val. repeat case_match; cbn; lia. Qed.

Ltac keep := repeat (first [lazymatch goal with |- forall _, _ => intro end | solve [eauto with preserve] | solve [apply preserves_update; intros; done]
  | apply preserves_bind | apply preserves_when | apply preserves_for_each | case_match ]).

Lemma keeps_trigger e : keeps (trigger e).
Proof. by apply preserves_update. Qed.
Lemma keeps_basic {A} (m : BufferQueue -> outcome (A * BufferQueue)) : keeps (on_basic m).
Proof. by apply preserves_basic. Qed.
Lemma keeps_run_basic m : keeps (run_basic m).
Proof. apply keeps_basic. Qed.
Lemma keeps_obj id m : keeps (on_obj id m).
Proof. by apply preserves_obj. Qed.
#[local] Hint Resolve keeps_trigger keeps_basic keeps_run_basic keeps_obj : preserve.

Lemma keeps_drop_block b : keeps (drop_block b).
Proof. unfold drop_block. keep. Qed.
#[local] Hint Resolve keeps_drop_block : preserve.

Lemma keeps_set_deficit a d : 0 <= d <= maxDeficit -> keeps (update (fun s => set_deficits (<[a := d]> (deficits s)) s)).
Proof. intros Hd. apply preserves_update. intros s Hs. by apply map_Forall_insert_2. Qed.

Lemma keeps_drop_inbox fuel p : keeps (drop_inbox fuel p).
Proof. induction fuel; cbn [drop_inbox]; keep. Qed.
#[local] Hint Resolve keeps_drop_inbox : preserve.

Lemma keeps_removeIssuer a : keeps (removeIssuer a).
Proof.
  unfold removeIssuer. keep. apply preserves_update. intros s Hs. by apply map_Forall_delete.
Qed.
#[local] Hint Resolve keeps_removeIssuer : preserve.

Lemma keeps_createIssuer a : keeps (createIssuer a).
Proof. unfold createIssuer. keep. apply keeps_set_deficit. by rewrite maxDeficit_val. Qed.

Lemma keeps_updateDeficit a delta : keeps (updateDeficit a delta).
Proof.
  unfold updateDeficit. apply preserves_bind; [keep|]. intros cur. pose proof (compute_deficit_range cur delta) as Hr.
  destruct (compute_deficit cur delta) as [v err]. cbn in Hr. apply preserves_bind; [by apply keeps_set_deficit|]. keep.
Qed.
#[local] Hint Resolve keeps_createIssuer keeps_updateDeficit : preserve.

Lemma keeps_incrementDeficit a r : keeps (incrementDeficit env a r).
Proof. unfold incrementDeficit. keep. Qed.
#[local] Hint Resolve keeps_incrementDeficit : preserve.

Lemma keeps_tryReady b : keeps (tryReady env b).
Proof. unfold tryReady, ready. keep. Qed.
Lemma keeps_tryReadyValidationBlock b : keeps (tryReadyValidationBlock env b).
Proof. unfold tryReadyValidationBlock, readyValidationBlock. keep. apply preserves_update. intros s Hs. by case_match. Qed.
#[local] Hint Resolve keeps_tryReady keeps_tryReadyValidationBlock : preserve.

Lemma keeps_updateChild c : keeps (updateChild env c).
Proof.
  intros s a s' Hm Hs. unfold updateChild in Hm. repeat case_match; simplify_eq; try done;
    [by eapply keeps_tryReady|by eapply keeps_tryReadyValidationBlock].
Qed.

Lemma keeps_updateChildren id : keeps (updateChildren env id).
Proof.
  intros s a s' Hm Hs. unfold updateChildren in Hm. destruct (blockObjs s !! id); cbn in Hm; [|done].
  eapply preserves_for_each; [|done|done]. intros; apply keeps_updateChild.
Qed.
#[local] Hint Resolve keeps_updateChildren : preserve.

Lemma keeps_select_front fuel q : keeps (select_front env fuel q).
Proof.
  induction fuel; cbn [select_front]; (apply preserves_bind; [keep|]); intros v; case_match; try solve [keep]; case_match;
    try solve [keep]; (apply preserves_bind; [intros s a s' Hm Hs; destruct (blockObjs s !! _); cbn in Hm; simplify_eq; done|]); keep.
Qed.
#[local] Hint Resolve keeps_select_front : preserve.

Lemma keeps_selectIssuer_loop fuel start q r si : keeps (selectIssuer_loop env fuel start q r si).
Proof. revert q r si. induction fuel; intros q r si; cbn [selectIssuer_loop]; [keep|]. keep. Qed.

Lemma keeps_increment_all fuel start q r : keeps (increment_all env fuel start q r).
Proof. revert q. induction fuel; intros q; cbn [increment_all]; keep. Qed.

Lemma keeps_increment_before fuel q si : keeps (increment_before env fuel q si).
Proof. revert q. induction fuel; intros q; cbn [increment_before]; keep. Qed.
#[local] Hint Resolve keeps_selectIssuer_loop keeps_increment_all keeps_increment_before : preserve.

Lemma keeps_selectBasicBlock : keeps (selectBasicBlock env).
Proof.
  intros s a s' Hm Hs. unfold selectBasicBlock in Hm. repeat case_match; simplify_eq; try done.
  revert Hm Hs. match goal with |- ?m s = _ -> _ => enough (keeps m) by eauto end.
  apply preserves_bind; [intros s1 a1 s2 Hm; by eapply keeps_selectIssuer_loop|]. intros sel. unfold dispatch_front. keep.
Qed.
#[local] Hint Resolve keeps_selectBasicBlock : preserve.

Lemma keeps_selectBlockToSchedule : keeps (selectBlockToSchedule env).
Proof.
  unfold selectBlockToSchedule. keep. apply preserves_update. intros s Hs.
  by destruct (selectValidationBlock _ _).
Qed.
#[local] Hint Resolve keeps_selectBlockToSchedule : preserve.

Lemma keeps_AddBlock b : keeps (AddBlock env b).
Proof.
  unfold AddBlock. case_match; [unfold enqueueBasicBlock; keep|]. unfold enqueueValidationBlock.
  apply preserves_bind; [apply preserves_update; intros s Hs; by case_match|]. intros _.
  apply preserves_bind; [|keep]. intros s a s' Hm Hs. unfold zoom in Hm. destruct (VBSubmit _ _ _) as [[[]]| |]; cbn in Hm; simplify_eq. done.
Qed.
#[local] Hint Resolve keeps_AddBlock : preserve.

Lemma keeps_with_validator_queue a f : keeps (with_validator_queue a f).
Proof. apply preserves_update. intros s Hs. by case_match. Qed.
#[local] Hint Resolve keeps_with_validator_queue : preserve.

Lemma keeps_basicBlockLoop t1 t2 : keeps (basicBlockLoop_step env t1 t2).
Proof.
  intros s a s' Hm Hs. unfold basicBlockLoop_step in Hm. case_match; simplify_eq; [|done].
  revert Hm Hs. match goal with |- ?m s = _ -> _ => enough (keeps m) by eauto end. unfold scheduleBasicBlock. keep.
Qed.

Lemma keeps_validatorLoop v t1 t2 : keeps (validatorLoop_step env v t1 t2).
Proof.
  intros s a s' Hm Hs. unfold validatorLoop_step in Hm. repeat case_match; simplify_eq; try done.
  revert Hm Hs. match goal with |- ?m s = _ -> _ => enough (keeps m) by eauto end. unfold scheduleValidationBlock. keep.
Qed.
End DeficitRange.

(** ** The scheduler as a transition system

    Each event the scheduler reacts to is a transition, with the environment it
    sees at that time; other components change block objects in between. *)
Section Steps.
Context `{!SafeMath} `{!RangeOrder BlockID} `{!RangeOrder AccountID}.

Inductive sched_step : Scheduler -> Scheduler -> Prop :=
| step_booked env block s s' : on_BlockBooked env block s = Ret (tt, s') -> sched_step s s'
| step_created a s s' : on_AccountCreated a s = Ret (tt, s') -> sched_step s s'
| step_destroyed a s s' : on_AccountDestroyed a s = Ret (tt, s') -> sched_step s s'
| step_basic_loop env t1 t2 s s' : basicBlockLoop_step env t1 t2 s = Ret (tt, s') -> sched_step s s'
| step_validator_loop env a t1 t2 s s' : validatorLoop_step env a t1 t2 s = Ret (tt, s') -> sched_step s s'
| step_commitment last inCommittee s s' : on_LatestCommitmentUpdated last inCommittee s = Ret (tt, s') -> sched_step s s'
| step_blocks objs s : sched_step s (set_objs objs s).

Lemma step_keeps_range s s' : sched_step s s' -> deficits_in_range s -> deficits_in_range s'.
Proof.
  intros [env block s0 s1 Hm|a s0 s1 Hm|a s0 s1 Hm|env t1 t2 s0 s1 Hm|env a t1 t2 s0 s1 Hm|last inC s0 s1 Hm|objs s0] Hs.
  - eapply preserves_bind; [apply keeps_AddBlock|intros ?; apply keeps_selectBlockToSchedule|exact Hm|done].
  - eapply preserves_bind; [apply keeps_createIssuer|intros ?; apply preserves_ret|exact Hm|done].
  - by eapply keeps_removeIssuer.
  - by eapply keeps_basicBlockLoop.
  - by eapply keeps_validatorLoop.
  - revert Hm Hs. apply preserves_when, preserves_bind; [apply preserves_read|]. intros vs.
    apply preserves_for_each. intros kv. by apply preserves_when, preserves_update.
  - done.
Qed.

(** In every state the scheduler reaches, whatever the environment returns and
    whatever issuers were removed on the way, each deficit lies between 0 and
    [maxDeficit]. *)
Theorem reachable_deficits t s : rtc sched_step (NewScheduler t) s ->
  forall a d, deficits s !! a = Some d -> 0 <= d <= maxDeficit.
Proof.
  intros Hr. enough (deficits_in_range s) as Hd by (intros a d; apply Hd).
  assert (Hnew : deficits_in_range (NewScheduler t)) by apply map_Forall_empty.
  revert Hnew. induction Hr as [|s0 s1 s2 Hstep _ IH]; [done|]. intros Hs. by eapply IH, step_keeps_range.
Qed.
End Steps.

(** ** Sample runs *)

(** Two issuers with 10 and 3 mana, one unit of maximal work. *)
Definition sample_env (mana : AccountID -> option Z) (maxBuffer : Z) (time : Z) (cache : list BlockID) : Env :=
  mkEnv (fun a _ => mana a) 0 10 maxBuffer 5 10 10 100 10 Datatypes.id time (list_to_set cache) (fun _ => None) (fun _ => 0).

Definition run {A} (m : prog Scheduler A) (s : Scheduler) : Scheduler :=
  match m s with Ret (_, s') => s' | _ => s end.
Definition with_objs (blks : list ModelBlock) (s : Scheduler) : Scheduler :=
  set_objs (list_to_map ((fun b => (ID b, NewBlock b)) <$> blks)) s.

Definition work_block (h issuer time w : Z) : ModelBlock :=
  mkModelBlock (mkBlockID h 1) issuer time (mkCommitmentID 0 0) Basic [] w.
Definition blkA : ModelBlock := work_block 1 1 10 5.
Definition blkB : ModelBlock := work_block 2 2 20 2.
Definition bothMana (a : AccountID) : option Z := if decide (a = 1) then Some 10 else Some 3.
Definition env0 : Env := sample_env bothMana 100 50 [].

Section Samples.
#[local] Instance sample_block_order : RangeOrder BlockID := canonical_order BlockID.
#[local] Instance sample_account_order : RangeOrder AccountID := canonical_order AccountID.

(** Both blocks added and ready. *)
Definition sample_state : Scheduler :=
  run (AddBlock env0 blkA;; AddBlock env0 blkB) (with_objs [blkA; blkB] (NewScheduler 0)).

(** One issuer, one ready block. *)
Definition one_state : Scheduler := run (AddBlock env0 blkA) (with_objs [blkA] (NewScheduler 0)).

Lemma one_state_schedulable : schedulable env0 one_state [1%positive].
Proof.
  set (q := mkIssuerQueue 1 ∅ [blkA] 1 5).
  assert (Hq : queue_inv q).
  { split; [done|done| |done|by repeat constructor]. apply (Push_heap IssuingTime [] blkA). by intros i. }
  assert (Heq : basicBuffer one_state = mkBuffer {[issuerID q := 1%positive]} (Some 1%positive) 1 fzero 0 None
                               {[1%positive := mkNode 1%positive 1%positive q]} 2%positive) by (vm_compute; reflexivity).
  assert (Hqs : queues (basicBuffer one_state) [1%positive] = [q]) by (rewrite Heq; reflexivity).
  split.
  - rewrite Heq. by apply buffer_inv_single.
  - done.
  - unfold issuer_ids. rewrite Hqs. intros a ->%list_elem_of_singleton. exists 0, 11.
    split; [vm_compute; reflexivity|]. rewrite maxDeficit_val. split; [lia|]. split; [vm_compute; reflexivity|lia].
  - rewrite Hqs. intros v b ->%list_elem_of_singleton. cbn. intros ->%list_elem_of_singleton. cbn. lia.
  - rewrite Hqs. intros v b ->%list_elem_of_singleton. cbn. intros [= <-].
    exists (with_scheduler false false true false (NewBlock blkA)). split; vm_compute; reflexivity.
Qed.

Lemma selectBasicBlock_drr_witness :
  match best env0 one_state (MaxInt64, None) [1%positive] with
  | (_, None) => selectBasicBlock env0 one_state = Ret (tt, one_state) /\ forall p, p ∈ [1%positive] -> candidate env0 one_state p = None
  | (r, Some si) => exists pre post v b m1 m2 d s',
      [1%positive] = pre ++ si :: post /\ queue_at (basicBuffer one_state) si = Some v /\ due env0 v = Some b /\ candidate env0 one_state si = Some r /\
      (forall p r', p ∈ pre -> candidate env0 one_state p = Some r' -> r < r') /\
      (forall p r', p ∈ post -> candidate env0 one_state p = Some r' -> r <= r') /\
      credited env0 (Z.max 0 r) (issuer_ids one_state [1%positive]) (deficits one_state) m1 /\
      credited env0 1 (issuer_ids one_state pre) m1 m2 /\
      m2 !! issuerID v = Some d /\ cost_of env0 (WorkScore b) <= d /\
      selectBasicBlock env0 one_state = Ret (tt, s') /\ deficits s' = <[issuerID v := d - cost_of env0 (WorkScore b)]> m2 /\
      blockChan (basicBuffer s') = Some b /\ buffer_inv (basicBuffer s') (si :: post ++ pre) /\
      bufferSize (basicBuffer s') = bufferSize (basicBuffer one_state) - 1
  end.
Proof. apply (selectBasicBlock_drr env0 one_state [1%positive]); [apply one_state_schedulable|vm_compute; reflexivity]. Defined.

Lemma reachable_deficits_witness :
  deficits (run (on_AccountCreated 1) (NewScheduler 0)) !! 1 = Some 0 /\ 0 <= 0 <= maxDeficit.
Proof.
  split; [vm_compute; reflexivity|].
  apply (reachable_deficits 0 (run (on_AccountCreated 1) (NewScheduler 0))) with (a := 1); [|vm_compute; reflexivity].
  eapply rtc_once, (step_created 1). vm_compute. reflexivity.
Defined.

(** [removeIssuer] loses buffer capacity: it pops the ready blocks of the
    removed queue without lowering the buffer's counter, and [RemoveIssuer] then
    subtracts only what is left in the queue.  With room for one block, destroying
    the account that holds the only, ready block leaves an empty buffer with a
    counter of 1, and the next block of another issuer is dropped on arrival. *)
Theorem removeIssuer_leaks_capacity :
  let env1 := sample_env bothMana 1 50 [] in
  let s := run (AddBlock env1 blkA) (with_objs [blkA; blkB] (NewScheduler 0)) in
  let s1 := run (on_AccountDestroyed 1) s in
  let s2 := run (AddBlock env1 blkB) s1 in
  (ring (basicBuffer s1), bufferSize (basicBuffer s1)) = (None, 1) /\
  (events s2, bufferSize (basicBuffer s2)) =
    ([BlockEnqueued (ID blkA); BlockDropped (ID blkA); BlockDropped (ID blkB); BlockEnqueued (ID blkB)], 1).
Proof. vm_compute. done. Qed.

(** A block that is dropped while it is being added ends up enqueued: the
    eviction marks dropped blocks before [SetEnqueued] runs, [SetDropped] acts
    only on enqueued blocks, and so the block is reported dropped and then
    enqueued, held by no queue, with [enqueued] set and [dropped] not. *)
Theorem dropped_on_arrival_stays_enqueued :
  let s := run (AddBlock (sample_env bothMana 0 50 []) blkA) (with_objs [blkA] (NewScheduler 0)) in
  events s = [BlockDropped (ID blkA); BlockEnqueued (ID blkA)] /\ bufferSize (basicBuffer s) = 0 /\
  (fun b => (enqueued b, dropped b)) <$> blockObjs s !! ID blkA = Some (true, false).
Proof. vm_compute. done. Qed.

(** [selectIssuer] does not terminate when it removes the issuer it started
    from and another issuer remains: the loop stops only at the removed start
    element (or an empty ring).  Here the mana of issuer 1 cannot be read and
    issuer 2 has nothing to schedule; no amount of fuel is enough. *)
Theorem selectIssuer_diverges fuel :
  let env1 := sample_env (fun a => if decide (a = 1) then None else Some 3) 100 50 [] in
  let s := run (AddBlock env0 blkA;; createIssuer 2) (with_objs [blkA] (NewScheduler 0)) in
  ring (basicBuffer s) = Some 1%positive /\
  selectIssuer_loop env1 fuel 1%positive 1%positive MaxInt64 None s = OutOfFuel.
Proof.
  intros env1 s. split; [vm_compute; reflexivity|]. destruct fuel as [|fuel]; [done|].
  set (s1 := run (trigger ErrorHandled;; removeIssuer 1) s).
  assert (Hloop : forall fuel r si, selectIssuer_loop env1 fuel 1%positive 2%positive r si s1 = OutOfFuel).
  { clear fuel. induction fuel as [|fuel IH]; intros r si; [done|]. cbn [selectIssuer_loop].
    erewrite prog_bind_eq by (vm_compute; reflexivity). cbn beta.
    rewrite (prog_bind_eq _ _ s1 NoCandidate s1) by (vm_compute; reflexivity). cbn beta iota.
    rewrite (prog_bind_eq _ _ s1 (Some 2%positive) s1) by (vm_compute; reflexivity). cbn beta iota.
    rewrite decide_False by done. apply IH. }
  cbn [selectIssuer_loop]. erewrite prog_bind_eq by (vm_compute; reflexivity). cbn beta.
  rewrite (prog_bind_eq _ _ s IssuerRemoved s1) by (vm_compute; reflexivity). cbn beta iota.
  rewrite (prog_bind_eq _ _ s1 (Some 2%positive) s1) by (vm_compute; reflexivity). cbn beta iota.
  rewrite decide_False by done. apply Hloop.
Qed.

(** The rate limiter and the skip threshold treat seconds as nanoseconds.
    At a rate of 100 work units per second a block of 300 units with an empty
    bucket waits 3 nanoseconds, and with slots of 10 seconds and a maximal
    committable age of 10 an accepted block is skippable 101 nanoseconds after it was issued. *)
Theorem durations_in_nanoseconds :
  waitTime (of_Z 100) (work_block 1 1 0 300) 0 (NewBufferQueue 0) = Some 3 /\
  VwaitTime (fdiv (of_Z 1) (of_Z 10)) 0 (VdeductTokens (of_Z 1) (NewValidatorQueue 7 0)) = Some 10 /\
  (SlotDurationSeconds env0, MaxCommittableAge env0) = (10, 10) /\
  skippable (sample_env bothMana 100 101 []) (with_accepted true (NewBlock blkA)) (work_block 1 1 0 5) = true.
Proof. vm_compute. done. Qed.
End Samples.
