(* ===== verification/Rmc.v ===== *)
(** * Reference mana cost (congestioncontrol/rmc/rmc.go)

    The manager accumulates the work of accepted blocks per slot and, when a slot
    is committed, derives the slot's reference mana cost from the previous one.
    Protocol parameters per slot and the loader of stored commitments are
    parameters; an error is [None]. *)
From S2P Require Import Prelude Block.

Record CongestionControlParameters := mkCC {
  MinReferenceManaCost : Z;
  Increase : Z;
  Decrease : Z;
  IncreaseThreshold : Z;
  DecreaseThreshold : Z;
}.

Record Manager := mkManager {
  slotWork : gmap SlotIndex Z;
  rmc : gmap SlotIndex Z;
  latestCommittedSlot : SlotIndex;
}.

Definition NewManager : Manager := mkManager ∅ ∅ 0.
Definition SetLatestCommittedSlot (index : SlotIndex) (m : Manager) : Manager := mkManager (slotWork m) (rmc m) index.

Section Rmc.
Context `{!SafeMath} (addWork : Z -> Z -> Z) (ccParameters : SlotIndex -> CongestionControlParameters)
        (MaxCommittableAge : SlotIndex -> Z) (commitmentLoader : SlotIndex -> option Z).

(** The sum of two [WorkScore]s is the third-party type's addition. *)
Definition BlockAccepted (id : BlockID) (work : Z) (m : Manager) : option Manager :=
  if Slot id <=? latestCommittedSlot m then None
  else Some (mkManager (<[Slot id := addWork (default 0 (slotWork m !! Slot id)) work]> (slotWork m)) (rmc m) (latestCommittedSlot m)).

(** The three branches of the RMC update. *)
Definition newRMC (cc : CongestionControlParameters) (currentSlotWork lastRMC : Z) : option Z :=
  if (currentSlotWork <? DecreaseThreshold cc) && (MinReferenceManaCost cc <? lastRMC) then
    r ← SafeSub Uint64 lastRMC (Decrease cc); Some (Z.max r (MinReferenceManaCost cc))
  else if IncreaseThreshold cc <? currentSlotWork then SafeAdd Uint64 lastRMC (Increase cc)
  else Some lastRMC.

(** [CommitSlot]: the result and the state, which an error in the last check leaves changed. *)
Definition CommitSlot (index : SlotIndex) (m : Manager) : option Z * Manager :=
  if index <=? latestCommittedSlot m then (None, m)
  else match commitmentLoader (u32 (index - 1)) with
  | None => (None, m)
  | Some lastRMC =>
      let currentSlotWork := default 0 (slotWork m !! index) in
      match newRMC (ccParameters index) currentSlotWork lastRMC with
      | None => (None, m)
      | Some r =>
          let wasCreated := bool_decide (rmc m !! index = None) in
          let rmcs := <[index := r]> (rmc m) in
          if negb wasCreated then (None, mkManager (slotWork m) rmcs (latestCommittedSlot m))
          else
            let rmcs := if MaxCommittableAge index <? index then delete (index - MaxCommittableAge index) rmcs else rmcs in
            (Some r, mkManager (delete index (slotWork m)) rmcs index)
      end
  end.

Definition RMC (slot : SlotIndex) (m : Manager) : option Z :=
  if latestCommittedSlot m <? slot then None
  else if u32 (slot + MaxCommittableAge slot) <? latestCommittedSlot m then None
  else match rmc m !! slot with
       | Some r => Some r
       | None => commitmentLoader slot
       end.
End Rmc.

(** ** Bounds of the update *)
Section Bounds.
Context `{!SafeMath} `{!SafeMathSpec _}.

(** The parameters are uint64s. *)
Record cc_ok (cc : CongestionControlParameters) : Prop := {
  cc_min : in_range Uint64 (MinReferenceManaCost cc);
  cc_inc : in_range Uint64 (Increase cc);
  cc_dec : in_range Uint64 (Decrease cc);
}.

Lemma newRMC_spec cc w last : cc_ok cc -> in_range Uint64 last -> MinReferenceManaCost cc <= last ->
  newRMC cc w last =
    if (w <? DecreaseThreshold cc) && (MinReferenceManaCost cc <? last) then
      if last <? Decrease cc then None else Some (Z.max (last - Decrease cc) (MinReferenceManaCost cc))
    else if IncreaseThreshold cc <? w then
      if 2 ^ 64 <=? last + Increase cc then None else Some (last + Increase cc)
    else Some last.
Proof.
  intros [Hm Hi Hd] Hl Hmin. unfold newRMC. rewrite SafeSub_spec, SafeAdd_spec by done.
  unfold checked, in_range in *. cbn in *. repeat (case_decide || case_match); try done; cbn in *; try lia;
    try (exfalso; lia); try (f_equal; lia).
Qed.
End Bounds.

(** The reference mana cost never falls below its minimum and moves by at most
    one step per slot: from a previous cost at or above the minimum, [CommitSlot]
    yields a cost at or above the minimum, at most [Decrease] below and at most
    [Increase] above the previous one, inside uint64, and records it: [RMC] of the
    slot returns it and the slot's work is gone.  It fails only for a slot that is
    committed or has a cost already, or when the step itself would leave uint64. *)
Theorem CommitSlot_bounds `{!SafeMath} `{!SafeMathSpec _} ccParameters MCA loader index m last :
  cc_ok (ccParameters index) -> in_range Uint32 index -> 0 < MCA index -> in_range Uint32 (index + MCA index) ->
  loader (index - 1) = Some last -> in_range Uint64 last ->
  MinReferenceManaCost (ccParameters index) <= last -> 0 <= latestCommittedSlot m ->
  match CommitSlot ccParameters MCA loader index m with
  | (Some r, m') =>
      MinReferenceManaCost (ccParameters index) <= r /\ last - Decrease (ccParameters index) <= r <= last + Increase (ccParameters index) /\
      in_range Uint64 r /\ RMC MCA loader index m' = Some r /\ slotWork m' !! index = None /\ latestCommittedSlot m' = index
  | (None, m') =>
      (index <= latestCommittedSlot m \/ is_Some (rmc m !! index) \/
       last < Decrease (ccParameters index) \/ 2 ^ 64 <= last + Increase (ccParameters index)) /\
      latestCommittedSlot m' = latestCommittedSlot m /\ slotWork m' = slotWork m
  end.
Proof.
  intros Hcc Hidx HM Hsum Hload Hl Hmin Hlat. unfold CommitSlot.
  destruct (Z.leb_spec index (latestCommittedSlot m)) as [|Hgt]; [by split; [left|]|].
  rewrite wrap_id by (unfold in_range in *; cbn in *; lia). rewrite Hload. rewrite newRMC_spec by done.
  set (w := default 0 _). destruct (if _ : bool then _ else _) as [r|] eqn:Hr.
  2: { split; [|done]. right; right. repeat case_match; try done; lia. }
  case_bool_decide as Hnew; cbn [negb].
  2: { split; [|done]. right; left. by destruct (rmc m !! index). }
  assert (Hb : MinReferenceManaCost (ccParameters index) <= r /\
    last - Decrease (ccParameters index) <= r <= last + Increase (ccParameters index) /\ in_range Uint64 r).
  { destruct Hcc as [H1 H2 H3]. unfold in_range in *. cbn in *. repeat case_match; simplify_eq; lia. }
  split_and!; try tauto; cbn; try apply lookup_delete_eq.
  unfold RMC. cbn. rewrite (proj2 (Z.ltb_ge _ _)) by lia. rewrite wrap_id by done. rewrite (proj2 (Z.ltb_ge _ _)) by lia.
  destruct (MCA index <? index); [rewrite lookup_delete_ne by lia|]; by rewrite lookup_insert_eq.
Qed.

Definition sample_cc : CongestionControlParameters := mkCC 1 2 1 400 300.
Lemma CommitSlot_bounds_witness :
  match CommitSlot (fun _ => sample_cc) (fun _ => 10) (fun _ => Some 4) 8 (mkManager ∅ ∅ 7) with
  | (Some r, m') =>
      1 <= r /\ 4 - 1 <= r <= 4 + 2 /\ in_range Uint64 r /\
      RMC (fun _ => 10) (fun _ => Some 4) 8 m' = Some r /\ slotWork m' !! 8 = None /\ latestCommittedSlot m' = 8
  | (None, m') => (8 <= 7 \/ is_Some ((∅ : gmap SlotIndex Z) !! 8) \/ 4 < 1 \/ 2 ^ 64 <= 4 + 2) /\
      latestCommittedSlot m' = 7 /\ slotWork m' = ∅
  end.
Proof.
  apply (CommitSlot_bounds (fun _ => sample_cc) (fun _ => 10) (fun _ => Some 4) 8 (mkManager ∅ ∅ 7) 4);
    try (vm_compute; by repeat split); vm_compute; reflexivity.
Defined.

(** The stored costs are those of the last [age] committed slots (after genesis), and agree with the committed history [h]. *)
Definition rmc_window (age : Z) (h : SlotIndex -> Z) (m : Manager) : Prop :=
  forall slot r, rmc m !! slot = Some r -> Z.max 0 (latestCommittedSlot m - age) < slot <= latestCommittedSlot m /\ r = h slot.

(** Committing slots in order keeps the window of stored costs, and [RMC]
    answers with the committed cost exactly for the slots from
    [latest - MaxCommittableAge] to [latest]: from memory, or from the stored
    commitment when the cost was evicted; for every other slot it is an error. *)
Theorem RMC_window `{!SafeMath} ccParameters age loader h m r m' :
  0 < age -> 0 <= latestCommittedSlot m -> in_range Uint32 (latestCommittedSlot m + 1 + age) ->
  rmc_window age h m -> (forall slot, loader slot = Some (h slot)) ->
  CommitSlot ccParameters (fun _ => age) loader (latestCommittedSlot m + 1) m = (Some r, m') ->
  r = h (latestCommittedSlot m + 1) ->
  rmc_window age h m' /\
  forall slot, in_range Uint32 (slot + age) -> RMC (fun _ => age) loader slot m' =
    if decide (latestCommittedSlot m' - age <= slot <= latestCommittedSlot m') then Some (h slot) else None.
Proof.
  intros Hage Hlat Hrng Hwin Hload Hc Hr. set (index := latestCommittedSlot m + 1) in *. assert (Hidx : index = latestCommittedSlot m + 1) by done. clearbody index.
  assert (Hm' : latestCommittedSlot m' = index /\
    rmc m' = if age <? index then delete (index - age) (<[index := r]> (rmc m)) else <[index := r]> (rmc m)).
  { unfold CommitSlot in Hc. rewrite (proj2 (Z.leb_gt _ _)) in Hc by lia. repeat case_match; by simplify_eq. }
  destruct Hm' as [Hlat' Hrmc'].
  assert (Hwin' : rmc_window age h m').
  { intros slot x. rewrite Hlat', Hrmc'. destruct (Z.ltb_spec age index) as [Hlt|Hge].
    - rewrite lookup_delete_Some, lookup_insert_Some. intros [Hne [[Hi Hx]|[_ Hx]]]; [split; [lia|congruence]|].
      apply Hwin in Hx as [Hx ->]. split; [|done]. assert (slot <> index - age) by congruence. lia.
    - rewrite lookup_insert_Some. intros [[Hi Hx]|[_ Hx]]; [split; [lia|congruence]|]. apply Hwin in Hx as [Hx ->]. split; [lia|done]. }
  split; [done|]. intros slot Hs. unfold RMC. rewrite (wrap_id _ (slot + age)) by done.
  destruct (Z.ltb_spec (latestCommittedSlot m') slot); [by rewrite decide_False by lia|].
  destruct (Z.ltb_spec (slot + age) (latestCommittedSlot m')); [by rewrite decide_False by lia|].
  rewrite decide_True by lia. destruct (rmc m' !! slot) as [x|] eqn:Hx; [|apply Hload].
  apply Hwin' in Hx as [_ ->]. done.
Qed.

Lemma RMC_window_witness :
  rmc_window 10 (fun _ => 4) (mkManager ∅ {[8 := 4]} 8) /\
  forall slot, in_range Uint32 (slot + 10) -> RMC (fun _ => 10) (fun _ => Some 4) slot (mkManager ∅ {[8 := 4]} 8) =
    if decide (8 - 10 <= slot <= 8) then Some 4 else None.
Proof.
  apply (RMC_window (fun _ => mkCC 4 2 1 400 300) 10 (fun _ => Some 4) (fun _ => 4) (mkManager ∅ ∅ 7) 4); try done.
Defined.

(** The decrease is not clamped: when it exceeds the previous cost the slot cannot be committed at all. *)
Lemma CommitSlot_underflow `{!SafeMath} `{!SafeMathSpec _} ccParameters MCA loader index m last :
  let cc := ccParameters index in
  cc_ok cc -> in_range Uint32 index -> latestCommittedSlot m < index -> 0 <= latestCommittedSlot m ->
  loader (index - 1) = Some last -> in_range Uint64 last ->
  MinReferenceManaCost cc < last < Decrease cc -> default 0 (slotWork m !! index) < DecreaseThreshold cc ->
  CommitSlot ccParameters MCA loader index m = (None, m).
Proof.
  intros cc Hcc Hidx Hlt Hlat Hload Hl Hmin Hw. unfold CommitSlot. rewrite (proj2 (Z.leb_gt _ _)) by lia.
  rewrite wrap_id by (unfold in_range in *; cbn in *; lia). rewrite Hload. rewrite newRMC_spec by (done || (subst cc; lia)).
  fold cc. rewrite !(proj2 (Z.ltb_lt _ _)) by lia. done.
Qed.
