(* ===== verification/Weight.v ===== *)
(** * Weights and acceptance states (pkg/core/acceptance, pkg/core/weight)

    The multi-tiered weight value that orders conflicts: acceptance state first,
    then the weight of the validators, then the cumulative weight; and the mutable
    weight, whose validators weight is the number of its voters. *)
From S2P Require Import Prelude Float64 Block.

(** ** acceptance *)
Inductive State := Pending | Accepted | Rejected.
#[export] Instance State_eq_dec : EqDecision State.
Proof. solve_decision. Defined.

Definition IsPending (c : State) : bool := bool_decide (c = Pending).
Definition IsAccepted (c : State) : bool := bool_decide (c = Accepted).
Definition IsRejected (c : State) : bool := bool_decide (c = Rejected).

(** [ThresholdProvider]: [max (ceil (total * 0.67)) 1]. *)
Definition ThresholdProvider (totalWeight : Z) : option Z :=
  t ← ceil_to_int64 (fmul (of_Z totalWeight) f0_67); Some (Z.max t 1).

(** ** weight.Value *)
Definition Lighter : Z := -1.
Definition Equal : Z := 0.
Definition Heavier : Z := 1.

Record Value := mkValue {
  cumulativeWeight : Z;
  validatorsWeight : Z;
  acceptanceState : State;
}.
#[export] Instance Value_eq_dec : EqDecision Value.
Proof. solve_decision. Defined.

Definition v_SetCumulativeWeight (w : Z) (v : Value) : Value := mkValue w (validatorsWeight v) (acceptanceState v).
Definition v_AddCumulativeWeight (w : Z) (v : Value) : Value := mkValue (i64 (cumulativeWeight v + w)) (validatorsWeight v) (acceptanceState v).
Definition v_RemoveCumulativeWeight (w : Z) (v : Value) : Value := mkValue (i64 (cumulativeWeight v - w)) (validatorsWeight v) (acceptanceState v).
Definition v_SetValidatorsWeight (w : Z) (v : Value) : Value := mkValue (cumulativeWeight v) w (acceptanceState v).
Definition v_SetAcceptanceState (s : State) (v : Value) : Value := mkValue (cumulativeWeight v) (validatorsWeight v) s.

Definition compareAcceptanceState (v other : Value) : Z :=
  if IsAccepted (acceptanceState v) && negb (IsAccepted (acceptanceState other)) then Heavier
  else if IsRejected (acceptanceState other) && negb (IsRejected (acceptanceState v)) then Heavier
  else if IsAccepted (acceptanceState other) && negb (IsAccepted (acceptanceState v)) then Lighter
  else if IsRejected (acceptanceState v) && negb (IsRejected (acceptanceState other)) then Lighter
  else Equal.

Definition compareValidatorsWeight (v other : Value) : Z :=
  if validatorsWeight other <? validatorsWeight v then Heavier
  else if validatorsWeight v <? validatorsWeight other then Lighter
  else Equal.

Definition compareCumulativeWeight (v other : Value) : Z :=
  if cumulativeWeight other <? cumulativeWeight v then Heavier
  else if cumulativeWeight v <? cumulativeWeight other then Lighter
  else Equal.

Definition Compare (v other : Value) : Z :=
  let result := compareAcceptanceState v other in
  if negb (result =? 0) then result
  else
    let result := compareValidatorsWeight v other in
    if negb (result =? 0) then result
    else
      let result := compareCumulativeWeight v other in
      if negb (result =? 0) then result else 0.

(** ** weight.Weight

    The value with the set of voters; [OnUpdate] is the list of values it is triggered with. *)
Record Weight := mkWeight {
  Voters : gset SeatIndex;
  value : Value;
  OnUpdate : list Value;
}.

Definition New : Weight := mkWeight ∅ (mkValue 0 0 Pending) [].

Definition set_and_trigger (v : Value) (w : Weight) : Weight := mkWeight (Voters w) v (OnUpdate w ++ [v]).

Definition SetCumulativeWeight (x : Z) (w : Weight) : Weight :=
  if decide (cumulativeWeight (value w) = x) then w else set_and_trigger (v_SetCumulativeWeight x (value w)) w.
Definition AddCumulativeWeight (delta : Z) (w : Weight) : Weight :=
  if decide (delta = 0) then w else set_and_trigger (v_AddCumulativeWeight delta (value w)) w.
Definition RemoveCumulativeWeight (delta : Z) (w : Weight) : Weight :=
  if decide (delta = 0) then w else set_and_trigger (v_RemoveCumulativeWeight delta (value w)) w.

Definition updateValidatorsWeight (w : Weight) : Weight :=
  let newValidatorWeight := Z.of_nat (size (Voters w)) in
  if decide (validatorsWeight (value w) = newValidatorWeight) then w
  else set_and_trigger (v_SetValidatorsWeight newValidatorWeight (value w)) w.

Definition AddVoter (seat : SeatIndex) (w : Weight) : Weight :=
  if decide (seat ∈ Voters w) then w
  else updateValidatorsWeight (mkWeight ({[seat]} ∪ Voters w) (value w) (OnUpdate w)).
Definition DeleteVoter (seat : SeatIndex) (w : Weight) : Weight :=
  if decide (seat ∈ Voters w) then updateValidatorsWeight (mkWeight (Voters w ∖ {[seat]}) (value w) (OnUpdate w))
  else w.

Definition setAcceptanceState (s : State) (w : Weight) : State * Weight :=
  let previousState := acceptanceState (value w) in
  (previousState, if decide (previousState = s) then w else mkWeight (Voters w) (v_SetAcceptanceState s (value w)) (OnUpdate w)).
Definition SetAcceptanceState (s : State) (w : Weight) : State * Weight :=
  let '(previousState, w) := setAcceptanceState s w in
  (previousState, if decide (previousState = s) then w else mkWeight (Voters w) (value w) (OnUpdate w ++ [value w])).
Definition WithAcceptanceState (s : State) (w : Weight) : Weight := (setAcceptanceState s w).2.

Definition w_Compare (w other : option Weight) : Z :=
  match w, other with
  | None, None => Equal
  | None, Some _ => Heavier
  | Some _, None => Lighter
  | Some w, Some other => Compare (value w) (value other)
  end.

(** ** The order on values *)

(** Rejected below pending below accepted. *)
Definition state_rank (s : State) : Z := match s with Rejected => 0 | Pending => 1 | Accepted => 2 end.

(** The lexicographic order the comparison is meant to be. *)
Definition lex_lt (v w : Value) : Prop :=
  state_rank (acceptanceState v) < state_rank (acceptanceState w) \/
  (state_rank (acceptanceState v) = state_rank (acceptanceState w) /\
   (validatorsWeight v < validatorsWeight w \/
    (validatorsWeight v = validatorsWeight w /\ cumulativeWeight v < cumulativeWeight w))).

(** [Value.Compare] is the lexicographic order on acceptance state (rejected
    below pending below accepted), validators weight and cumulative weight: it
    returns -1, 1 or 0 exactly when the first value is below, above or equal to
    the second in that order.  So it is a total order, and only equal values compare equal. *)
Theorem Compare_lex v w :
  (Compare v w = Lighter <-> lex_lt v w) /\ (Compare v w = Heavier <-> lex_lt w v) /\ (Compare v w = Equal <-> v = w).
Proof.
  destruct v as [c1 v1 s1], w as [c2 v2 s2]. unfold Compare, lex_lt, compareAcceptanceState, compareValidatorsWeight,
    compareCumulativeWeight, Lighter, Heavier, Equal. cbn [cumulativeWeight validatorsWeight acceptanceState].
  destruct s1, s2; cbn; destruct (Z.ltb_spec v2 v1), (Z.ltb_spec v1 v2), (Z.ltb_spec c2 c1), (Z.ltb_spec c1 c2);
    cbn; split_and!; split; intros Hx; try lia; try done; try (exfalso; injection Hx as ? ?; lia); try (f_equal; lia);
    try (injection Hx as ? ?; lia).
Qed.

(** ** The invariant of a weight: its validators weight is the number of voters. *)
Definition weight_inv (w : Weight) : Prop := validatorsWeight (value w) = Z.of_nat (size (Voters w)).

Lemma weight_inv_new : weight_inv New.
Proof. done. Qed.

Lemma updateValidatorsWeight_inv w : weight_inv (updateValidatorsWeight w).
Proof. unfold updateValidatorsWeight, weight_inv. case_decide; done. Qed.

(** Every operation of a weight keeps its validators weight equal to the number
    of distinct voters, adding or deleting a voter changes only that voter, and
    an update is triggered with the current value. *)
Theorem Weight_operations w seat delta s : weight_inv w ->
  weight_inv (AddVoter seat w) /\ Voters (AddVoter seat w) = {[seat]} ∪ Voters w /\
  weight_inv (DeleteVoter seat w) /\ Voters (DeleteVoter seat w) = Voters w ∖ {[seat]} /\
  weight_inv (SetCumulativeWeight delta w) /\ cumulativeWeight (value (SetCumulativeWeight delta w)) = delta /\
  weight_inv (AddCumulativeWeight delta w) /\ weight_inv (RemoveCumulativeWeight delta w) /\
  weight_inv (SetAcceptanceState s w).2 /\ acceptanceState (value (SetAcceptanceState s w).2) = s /\
  (SetAcceptanceState s w).1 = acceptanceState (value w).
Proof.
  intros Hw. assert (Hu : forall w, Voters (updateValidatorsWeight w) = Voters w).
  { intros w0. unfold updateValidatorsWeight. by case_decide. }
  unfold AddVoter, DeleteVoter, SetCumulativeWeight, AddCumulativeWeight, RemoveCumulativeWeight, SetAcceptanceState, setAcceptanceState.
  split_and!.
  - case_decide; [done|apply updateValidatorsWeight_inv].
  - case_decide; [set_solver|]. by rewrite Hu.
  - case_decide; [apply updateValidatorsWeight_inv|done].
  - case_decide; [by rewrite Hu|set_solver].
  - by case_decide.
  - by case_decide.
  - by case_decide.
  - by case_decide.
  - by case_decide.
  - by case_decide.
  - done.
Qed.

Lemma Weight_operations_witness :
  let w := AddVoter 1 New in
  weight_inv (AddVoter 2 w) /\ Voters (AddVoter 2 w) = {[2]} ∪ Voters w /\
  weight_inv (DeleteVoter 2 w) /\ Voters (DeleteVoter 2 w) = Voters w ∖ {[2]} /\
  weight_inv (SetCumulativeWeight 5 w) /\ cumulativeWeight (value (SetCumulativeWeight 5 w)) = 5 /\
  weight_inv (AddCumulativeWeight 5 w) /\ weight_inv (RemoveCumulativeWeight 5 w) /\
  weight_inv (SetAcceptanceState Accepted w).2 /\ acceptanceState (value (SetAcceptanceState Accepted w).2) = Accepted /\
  (SetAcceptanceState Accepted w).1 = acceptanceState (value w).
Proof. apply (Weight_operations (AddVoter 1 New) 2 5 Accepted). vm_compute. reflexivity. Defined.
