(* ===== verification/Walker.v ===== *)
(** * The walker of hive.go

    [walker.New] visits every pushed element once, in an order the code does not rely on: a parameter with its documented
    behaviour ([WalkerSpec]), and a queue that behaves like that. *)
From S2P Require Import Prelude.

Class Walker (E W : Type) := {
  walk_new : W;
  PushAll : list E -> W -> W;
  WNext : W -> option (E * W);    (* [HasNext] and [Next] *)
}.

Class WalkerSpec (E W : Type) `{Countable E} `{!Walker E W} := {
  pending : W -> gset E;
  seen : W -> gset E;
  new_pending : pending walk_new = ∅;
  new_seen : seen walk_new = ∅;
  push_seen l w : seen (PushAll l w) = seen w ∪ list_to_set l;
  push_pending l w : pending (PushAll l w) = pending w ∪ (list_to_set l ∖ seen w);
  next_spec w : match WNext w with
                | None => pending w = ∅
                | Some (x, w') => x ∈ pending w /\ pending w' = pending w ∖ {[x]} /\ seen w' = seen w
                end;
}.

(** ** A walker: a queue with the set of elements pushed so far *)
Section Fifo.
Context {E : Type} `{Countable E}.
Definition fifo : Type := list E * gset E.
#[export] Instance fifo_walker : Walker E fifo := {|
  walk_new := ([], ∅);
  PushAll l w := foldl (fun w x => if decide (x ∈ w.2) then w else (w.1 ++ [x], {[x]} ∪ w.2)) w l;
  WNext w := match w.1 with [] => None | x :: q => Some (x, (filter (fun y => y <> x) q, w.2)) end;
|}.

Lemma fifo_push l (w : fifo) :
  (PushAll l w).2 = w.2 ∪ list_to_set l /\ list_to_set (C := gset E) (PushAll l w).1 = list_to_set w.1 ∪ (list_to_set l ∖ w.2).
Proof.
  revert w. induction l as [|x l IH]; intros w; cbn [PushAll fifo_walker foldl]; [set_solver|].
  case_decide as Hx; destruct (IH (if decide (x ∈ w.2) then w else (w.1 ++ [x], {[x]} ∪ w.2))) as [H1 H2]; cbn [PushAll fifo_walker] in *.
  - rewrite decide_True in * by done. rewrite H1, H2. set_solver.
  - rewrite decide_False in * by done. rewrite H1, H2. cbn. rewrite list_to_set_app_L. cbn. split; [set_solver|].
    apply leibniz_equiv. intros y. destruct (decide (y = x)); set_solver.
Qed.

Lemma fifo_next (w : fifo) :
  match WNext w with
  | None => list_to_set (C := gset E) w.1 = ∅
  | Some (x, w') => x ∈ list_to_set (C := gset E) w.1 /\
                    list_to_set (C := gset E) w'.1 = list_to_set w.1 ∖ {[x]} /\ w'.2 = w.2
  end.
Proof.
  destruct w as [[|x q] s]; cbn; [done|]. split_and!; [set_solver| |done].
  apply leibniz_equiv. intros y. rewrite elem_of_list_to_set, list_elem_of_filter. set_solver.
Qed.

#[export] Instance fifo_walker_spec : WalkerSpec E fifo := {|
  pending (w : fifo) := list_to_set w.1;
  seen (w : fifo) := w.2;
  new_pending := eq_refl;
  new_seen := eq_refl;
  push_seen l w := proj1 (fifo_push l w);
  push_pending l w := proj2 (fifo_push l w);
  next_spec := fifo_next;
|}.
End Fifo.
Arguments fifo E {_ _}.

(** * Timed priority queues

    hive.go's [timed.PriorityQueue]: elements with the time they are due.  It is not part of the repository: a class of operations, its
    documented behaviour ([TimedQueueSpec]; whether an element at exactly the given time is popped is left open) and a queue that behaves like that. *)

Class TimedQueue (E Q : Type) := {
  q_empty : Q;
  q_push : E -> Z -> Q -> Q;
  q_pop_until : Z -> Q -> list E * Q;
  q_elems : Q -> list (E * Z);               (* the contents, for the specification *)
}.
(** Popping until [time] returns the earlier elements, keeps the later ones and loses none. *)
Class TimedQueueSpec (E Q : Type) `{!TimedQueue E Q} : Prop := {
  q_elems_empty : q_elems q_empty = [];
  q_elems_push s time q : q_elems (q_push s time q) ≡ₚ (s, time) :: q_elems q;
  q_pop_spec time q : exists popped, q_elems q ≡ₚ popped ++ q_elems (q_pop_until time q).2 /\ (q_pop_until time q).1 = popped.*1
    /\ (forall e, e ∈ popped -> e.2 <= time) /\ (forall e, e ∈ q_elems (q_pop_until time q).2 -> time <= e.2);
}.

(** ** A queue as a list *)
Section ListQueue.
Context {E : Type}.
Definition list_queue : TimedQueue E (list (E * Z)) := {|
  q_empty := []; q_push s time q := (s, time) :: q;
  q_pop_until time q := ((filter (fun e => e.2 <= time) q).*1, filter (fun e => ~ e.2 <= time) q);
  q_elems q := q |}.
Lemma list_queue_spec : @TimedQueueSpec E (list (E * Z)) list_queue.
Proof.
  split; cbn; [done|done|]. intros time q. exists (filter (fun e => e.2 <= time) q). split; [|split; [done|split]].
  - induction q as [|e q IH]; [done|]. rewrite !filter_cons. case_decide; case_decide; try tauto; cbn; [by rewrite IH at 1|]. rewrite IH at 1. apply Permutation_middle.
  - intros e [? _]%list_elem_of_filter. done.
  - intros e [? _]%list_elem_of_filter. lia.
Qed.
End ListQueue.
