(* ===== verification/SlotGadget.v ===== *)
(** * Slot finalization (pkg/votes, consensus/slotgadget/totalweightslotgadget)

    A confirmed block votes for the slot its commitment belongs to.  Per slot of
    the voting blocks a tracker remembers the latest vote of every issuer and,
    for the slots not finalized yet, who voted for that slot or a later one; a
    slot is finalized when more than 67% of the committee's seats did.  Slots are
    uint32 values; loops over a range of slots are bounded by their ends. *)
From S2P Require Import Prelude Float64 Block.

(** ** votes.IsThresholdReached *)
Definition SuperMajority : float64 := f0_67.

(** [objectWeight > int(float64(totalWeight) * threshold)], false for an empty committee. *)
Definition IsThresholdReached (objectWeight totalWeight : Z) (threshold : float64) : bool :=
  if decide (totalWeight = 0) then false
  else match to_int64 (fmul (of_Z totalWeight) threshold) with
       | Some t => t <? objectWeight
       | None => false
       end.

(** ** slottracker.SlotTracker *)
Record SlotTracker := mkSlotTracker {
  votesPerIdentity : gmap AccountID SlotIndex;
  votersPerSlot : gmap SlotIndex (gset AccountID);
}.

Definition NewSlotTracker : SlotTracker := mkSlotTracker ∅ ∅.

(** [slotVoters(slot)] creates the set when it is missing. *)
Definition slotVoters (slot : SlotIndex) (s : SlotTracker) : gset AccountID * SlotTracker :=
  match votersPerSlot s !! slot with
  | Some v => (v, s)
  | None => (∅, mkSlotTracker (votesPerIdentity s) (<[slot := ∅]> (votersPerSlot s)))
  end.

Definition add_voter (voterID : AccountID) (s : SlotTracker) (slot : SlotIndex) : SlotTracker :=
  let '(v, s) := slotVoters slot s in
  mkSlotTracker (votesPerIdentity s) (<[slot := {[voterID]} ∪ v]> (votersPerSlot s)).

(** [for i := from; i <= to; i++] *)
Definition slots_between (from to : SlotIndex) : list SlotIndex := seqZ from (to - from + 1).

Definition TrackVotes (slot : SlotIndex) (voterID : AccountID) (cutoffIndex : SlotIndex) (s : SlotTracker)
    : (SlotIndex * SlotIndex * bool) * SlotTracker :=
  let '(voters, s) := slotVoters slot s in
  if decide (voterID ∈ voters) then ((0, 0, false), s)
  else
    let previousSlot := default 0 (votesPerIdentity s !! voterID) in
    let updated := previousSlot <? slot in
    let updatedSlot := if updated then slot else previousSlot in
    let s := mkSlotTracker (<[voterID := updatedSlot]> (votesPerIdentity s)) (votersPerSlot s) in
    if negb updated then ((previousSlot, previousSlot, false), s)
    else
      let s := foldl (add_voter voterID) s (slots_between (Z.max cutoffIndex previousSlot + 1) updatedSlot) in
      ((previousSlot, updatedSlot, true), s).

Definition VotersOf (slot : SlotIndex) (s : SlotTracker) : gset AccountID := default ∅ (votersPerSlot s !! slot).

Definition EvictSlot (slotToEvict : SlotIndex) (s : SlotTracker) : SlotTracker :=
  match votersPerSlot s !! slotToEvict with
  | None => s
  | Some identities =>
      mkSlotTracker
        (filter (fun kv => ~ (kv.1 ∈ identities /\ kv.2 <= slotToEvict)) (votesPerIdentity s))
        (delete slotToEvict (votersPerSlot s))
  end.

(** ** totalweightslotgadget.Gadget *)
Record Gadget := mkGadget {
  slotTrackers : gmap SlotIndex SlotTracker;
  lastFinalizedSlot : SlotIndex;
  storedFinalizedSlot : SlotIndex;      (* Settings().LatestFinalizedSlot *)
  SlotFinalized : list SlotIndex;       (* triggered events *)
}.

Section Gadget.
Context (SeatCount : Z) (threshold : float64).

(** The loop of [refreshSlotFinalization]: stop at the first slot below the threshold. *)
Fixpoint refresh_loop (slots : list SlotIndex) (tracker : SlotTracker) : list SlotIndex :=
  match slots with
  | [] => []
  | i :: slots =>
      if IsThresholdReached (Z.of_nat (size (VotersOf i tracker))) SeatCount threshold
      then i :: refresh_loop slots tracker else []
  end.

Definition refreshSlotFinalization (tracker : SlotTracker) (previousLatestSlot newLatestSlot lastFinalized : SlotIndex)
    : list SlotIndex :=
  refresh_loop (slots_between (Z.max lastFinalized previousLatestSlot + 1) newLatestSlot) tracker.

(** [trackVotes] for a block of slot [blockSlot] issued by [issuerID] with a commitment to [commitmentSlot]. *)
Definition trackVotes (blockSlot commitmentSlot : SlotIndex) (issuerID : AccountID) (g : Gadget) : Gadget :=
  let tracker := default NewSlotTracker (slotTrackers g !! blockSlot) in
  let '((prevLatestSlot, latestSlot, updated), tracker) :=
    TrackVotes commitmentSlot issuerID (lastFinalizedSlot g) tracker in
  let trackers := <[blockSlot := tracker]> (slotTrackers g) in
  if negb updated then mkGadget trackers (lastFinalizedSlot g) (storedFinalizedSlot g) (SlotFinalized g)
  else
    let finalizedSlots := refreshSlotFinalization tracker prevLatestSlot latestSlot (lastFinalizedSlot g) in
    let last_ := default (lastFinalizedSlot g) (last finalizedSlots) in
    let stored := match finalizedSlots with [] => storedFinalizedSlot g | _ => last_ end in
    mkGadget (foldl (fun m s => delete s m) trackers finalizedSlots) last_ stored (SlotFinalized g ++ finalizedSlots).
End Gadget.

(** ** The tracker's specification *)

(** Above the cutoff, the voters of a slot are the identities whose latest vote is for that slot or a later one. *)
Definition tracker_inv (cutoff : SlotIndex) (s : SlotTracker) : Prop :=
  (forall slot v, cutoff < slot -> v ∈ VotersOf slot s <-> exists l, votesPerIdentity s !! v = Some l /\ slot <= l) /\
  (forall v l, votesPerIdentity s !! v = Some l -> 0 <= l).

Lemma tracker_inv_new c : tracker_inv c NewSlotTracker.
Proof.
  split; [|done]. intros slot v _. split; [unfold VotersOf; cbn; set_solver|]. intros (l & Hl & _). done.
Qed.

Lemma tracker_inv_mono c c' s : c <= c' -> tracker_inv c s -> tracker_inv c' s.
Proof. intros Hc [H1 H2]. split; [|done]. intros slot v Hs. apply H1. lia. Qed.

Lemma slotVoters_spec slot s : let '(v, s') := slotVoters slot s in
  v = VotersOf slot s /\ votesPerIdentity s' = votesPerIdentity s /\ forall i, VotersOf i s' = VotersOf i s.
Proof.
  unfold slotVoters, VotersOf. destruct (votersPerSlot s !! slot) eqn:E; [done|]. split_and!; try done.
  intros i. cbn. rewrite lookup_insert. case_decide; [subst; by rewrite E|done].
Qed.

Lemma add_voter_spec v s slot i :
  VotersOf i (add_voter v s slot) = (if decide (i = slot) then {[v]} ∪ VotersOf i s else VotersOf i s) /\
  votesPerIdentity (add_voter v s slot) = votesPerIdentity s.
Proof.
  unfold add_voter. pose proof (slotVoters_spec slot s) as Hs. destruct (slotVoters slot s) as [vs s'].
  destruct Hs as (-> & Hv & Ho). split; [|done]. unfold VotersOf at 1. cbn. rewrite lookup_insert.
  destruct (decide (slot = i)) as [->|Hne]; [by rewrite decide_True|]. rewrite decide_False by done. apply Ho.
Qed.

Lemma foldl_add_voter_spec v s l i :
  VotersOf i (foldl (add_voter v) s l) = (if decide (i ∈ l) then {[v]} ∪ VotersOf i s else VotersOf i s) /\
  votesPerIdentity (foldl (add_voter v) s l) = votesPerIdentity s.
Proof.
  revert s. induction l as [|x l IH]; intros s; cbn [foldl]; [by rewrite decide_False by set_solver|].
  destruct (IH (add_voter v s x)) as [-> ->]. destruct (add_voter_spec v s x i) as [-> ->]. split; [|done].
  destruct (decide (i = x)); destruct (decide (i ∈ l)); [rewrite decide_True by set_solver; set_solver
    |rewrite decide_True by set_solver; done|rewrite decide_True by set_solver; done|rewrite decide_False by set_solver; done].
Qed.

Lemma elem_of_slots_between i a b : i ∈ slots_between a b <-> a <= i <= b.
Proof. unfold slots_between. rewrite elem_of_seqZ. lia. Qed.

(** A vote is recorded iff it is later than the voter's previous one. *)
Lemma TrackVotes_spec slot v cutoff s : 0 <= cutoff -> tracker_inv cutoff s ->
  let '((p, l, updated), s') := TrackVotes slot v cutoff s in
  tracker_inv cutoff s' /\
  (if updated then default 0 (votesPerIdentity s !! v) = p /\ p < slot /\ l = slot /\
     forall i, cutoff < i -> VotersOf i s' = if decide (p < i <= slot) then {[v]} ∪ VotersOf i s else VotersOf i s
   else forall i, VotersOf i s' = VotersOf i s).
Proof.
  intros Hc [Hinv Hnn]. unfold TrackVotes. pose proof (slotVoters_spec slot s) as Hs.
  destruct (slotVoters slot s) as [vs s0]. destruct Hs as (-> & Hv0 & Ho).
  assert (Hinv0 : tracker_inv cutoff s0).
  { split; [|by rewrite Hv0]. intros i u Hi. rewrite Ho, Hv0. by apply Hinv. }
  case_decide as Hin; [done|]. rewrite Hv0. set (p := default 0 (votesPerIdentity s !! v)).
  assert (Hpv : forall i, cutoff < i -> v ∈ VotersOf i s <-> i <= p).
  { intros i Hi. rewrite Hinv by done. unfold p. destruct (votesPerIdentity s !! v) as [l|]; cbn; [naive_solver|].
    split; [naive_solver|lia]. }
  assert (Hp0 : 0 <= p) by (unfold p; destruct (votesPerIdentity s !! v) eqn:E; cbn; [by eapply Hnn|lia]).
  destruct (Z.ltb_spec p slot) as [Hp|Hp]; cbn [negb]; cycle 1.
  { split; [|done]. split.
    - intros i u Hi. change (VotersOf i (mkSlotTracker _ _)) with (VotersOf i s0). rewrite Ho. cbn. rewrite lookup_insert.
      destruct (decide (v = u)) as [<-|Hne]; [rewrite Hpv by done|by apply Hinv]. naive_solver.
    - cbn. intros u l. rewrite lookup_insert. case_decide; [intros [= <-]; lia|apply Hnn]. }
  set (s1 := mkSlotTracker _ _).
  assert (Hvot : forall i, cutoff < i -> VotersOf i (foldl (add_voter v) s1 (slots_between (Z.max cutoff p + 1) slot)) =
    if decide (p < i <= slot) then {[v]} ∪ VotersOf i s else VotersOf i s).
  { intros i Hi. rewrite (proj1 (foldl_add_voter_spec _ _ _ _)). change (VotersOf i s1) with (VotersOf i s0). rewrite Ho.
    destruct (decide (p < i <= slot)) as [H1|H1]; [rewrite decide_True by (apply elem_of_slots_between; lia); done|].
    rewrite decide_False; [done|]. rewrite elem_of_slots_between. lia. }
  split; [|split_and!; done]. split.
  - intros i u Hi. rewrite Hvot by done. rewrite (proj2 (foldl_add_voter_spec v s1 _ i)). cbn. rewrite lookup_insert.
    destruct (decide (v = u)) as [<-|Hne].
    + destruct (decide (p < i <= slot)) as [H1|H1]; [rewrite elem_of_union|rewrite (Hpv i Hi)]; split.
      * intros _. exists slot. split; [done|lia].
      * intros _. left. set_solver.
      * intros ?. exists slot. split; [done|lia].
      * intros (l & [= <-] & ?). lia.
    + rewrite <- (Hinv i u Hi). destruct (decide (p < i <= slot)); set_solver.
  - rewrite (proj2 (foldl_add_voter_spec v s1 _ 0)). cbn. intros u l. rewrite lookup_insert. case_decide; [intros [= <-]; lia|].
    apply Hnn.
Qed.

(** Later slots have fewer voters. *)
Lemma VotersOf_antitone c s i j : tracker_inv c s -> c < i -> i <= j -> VotersOf j s ⊆ VotersOf i s.
Proof.
  intros [Hinv _] Hi Hij v. rewrite (Hinv i v Hi), (Hinv j v) by lia. intros (l & ? & ?). exists l. split; [done|lia].
Qed.

(** ** Thresholds *)
Lemma threshold_mono n m total th : n <= m -> IsThresholdReached n total th = true -> IsThresholdReached m total th = true.
Proof. intros Hnm. unfold IsThresholdReached. case_decide; [done|]. case_match; [|done]. lia. Qed.

(** For every committee of up to 1000 seats, [IsThresholdReached] with the 0.67
    super majority, computed in float64 and truncated, is reached exactly above
    67 hundredths of the seats, rounded down; hence any two sets of seats that reach it
    overlap in more than a third of the committee. *)
Theorem SuperMajority_quorum total n m : 0 < total <= 1000 ->
  (IsThresholdReached n total SuperMajority = true <-> 67 * total / 100 < n) /\
  (IsThresholdReached n total SuperMajority = true -> IsThresholdReached m total SuperMajority = true ->
   total < 3 * (n + m - total)).
Proof.
  intros Ht. assert (Hfl : to_int64 (fmul (of_Z total) SuperMajority) = Some (67 * total / 100)).
  { assert (Hall : forallb (fun t => bool_decide (to_int64 (fmul (of_Z t) SuperMajority) = Some (67 * t / 100))) (seqZ 1 1000) = true)
      by (vm_compute; reflexivity).
    rewrite forallb_forall in Hall. specialize (Hall total). rewrite <- list_elem_of_In, elem_of_seqZ in Hall.
    apply bool_decide_eq_true in Hall; [done|lia]. }
  unfold IsThresholdReached. rewrite !decide_False by lia. rewrite Hfl, !Z.ltb_lt. split; [done|]. intros H1 H2.
  pose proof (Z.div_mod (67 * total) 100) as Hq. pose proof (Z.mod_pos_bound (67 * total) 100). lia.
Qed.

Lemma SuperMajority_quorum_witness :
  (IsThresholdReached 68 100 SuperMajority = true <-> 67 * 100 / 100 < 68) /\
  (IsThresholdReached 68 100 SuperMajority = true -> IsThresholdReached 70 100 SuperMajority = true -> 100 < 3 * (68 + 70 - 100)).
Proof. apply (SuperMajority_quorum 100 68 70). lia. Defined.

(** ** Finalization *)
Section Finalization.
Context (SeatCount : Z) (threshold : float64).

Definition reached (voters : gset AccountID) : bool := IsThresholdReached (Z.of_nat (size voters)) SeatCount threshold.

Lemma reached_mono (A B : gset AccountID) : A ⊆ B -> reached A = true -> reached B = true.
Proof. intros HAB. apply threshold_mono. apply subseteq_size in HAB. lia. Qed.

(** No slot above the last finalized one has reached the threshold in any tracker. *)
Record gadget_inv (g : Gadget) : Prop := {
  gi_nonneg : 0 <= lastFinalizedSlot g;
  gi_tracker : forall bs tr, slotTrackers g !! bs = Some tr -> tracker_inv (lastFinalizedSlot g) tr;
  gi_below : forall bs tr i, slotTrackers g !! bs = Some tr -> lastFinalizedSlot g < i -> reached (VotersOf i tr) = false;
}.

(** The loop finalizes a prefix of its slots. *)
Lemma refresh_loop_prefix tr a n : (0 <= n) ->
  exists k, 0 <= k <= n /\ refresh_loop SeatCount threshold (seqZ a n) tr = seqZ a k /\
    (forall i, a <= i < a + k -> reached (VotersOf i tr) = true) /\ (k < n -> reached (VotersOf (a + k) tr) = false).
Proof.
  intros Hn. revert a. pattern n. apply natlike_ind; [..|done]; clear n Hn.
  { intros a. exists 0. split_and!; try done; lia. }
  intros n Hn IH a. rewrite seqZ_cons by lia. cbn [refresh_loop]. rewrite Z.pred_succ.
  change (IsThresholdReached _ _ _) with (reached (VotersOf a tr)). destruct (reached (VotersOf a tr)) eqn:Ha.
  - destruct (IH (Z.succ a)) as (k & Hk & -> & Hall & Hstop). exists (Z.succ k). split_and!; [lia|lia| | |].
    + rewrite (seqZ_cons a (Z.succ k)) by lia. by rewrite Z.pred_succ.
    + intros i Hi. destruct (decide (i = a)) as [->|]; [done|]. apply Hall. lia.
    + intros Hlt. replace (a + Z.succ k) with (Z.succ a + k) by lia. apply Hstop. lia.
  - exists 0. split_and!; try done; try lia. intros _. by rewrite Z.add_0_r.
Qed.

Lemma last_seqZ a k : 0 <= k -> default (a - 1) (last (seqZ a k)) = a + k - 1.
Proof.
  intros Hk. destruct (decide (k = 0)) as [->|]; [change (a - 1 = a + 0 - 1); lia|].
  replace k with (Z.of_nat (S (Z.to_nat (k - 1)))) at 1 by lia. rewrite seqZ_S, last_snoc. cbn [default from_option]. unfold Datatypes.id. lia.
Qed.

Lemma foldl_delete_lookup {V} (m : gmap SlotIndex V) l k v : foldl (fun m s => delete s m) m l !! k = Some v -> m !! k = Some v.
Proof.
  revert m. induction l as [|x l IH]; intros m; cbn; [done|]. intros [_ ?]%IH%lookup_delete_Some. done.
Qed.

(** An updated tracker finalizes nothing unless the voter's previous vote was at or below the last finalized slot. *)
Lemma refresh_spec tr tr' v p slot last : 0 <= last -> tracker_inv last tr ->
  (forall i, last < i -> reached (VotersOf i tr) = false) ->
  default 0 (votesPerIdentity tr !! v) = p -> p < slot ->
  (forall i, last < i -> VotersOf i tr' = if decide (p < i <= slot) then {[v]} ∪ VotersOf i tr else VotersOf i tr) ->
  tracker_inv last tr' ->
  exists k, 0 <= k /\ refreshSlotFinalization SeatCount threshold tr' p slot last = seqZ (last + 1) k /\
    (forall i, last < i <= last + k -> reached (VotersOf i tr') = true) /\
    (forall i, last + k < i -> reached (VotersOf i tr') = false).
Proof.
  intros Hl [Hinv Hnn] Hbelow Hp Hps Hvot Hinv'. unfold refreshSlotFinalization, slots_between.
  assert (Hfalse : forall A B : gset AccountID, A ⊆ B -> reached B = false -> reached A = false).
  { intros A B HAB HB. apply not_true_is_false. intros HA. by rewrite (reached_mono A B HAB HA) in HB. }
  destruct (decide (last < p)) as [Hlp|Hlp].
  - (* the voter was already counted for [last + 1] *)
    assert (Hv : v ∈ VotersOf (last + 1) tr).
    { apply Hinv; [lia|]. destruct (votesPerIdentity tr !! v) as [l|]; cbn in Hp; subst; [by exists p; split; [|lia]|lia]. }
    assert (Hall : forall i, last < i -> reached (VotersOf i tr') = false).
    { intros i Hi. destruct (decide (p < i <= slot)) as [H1|H1]; [|rewrite Hvot, decide_False by done; by apply Hbelow].
      apply (Hfalse _ (VotersOf (last + 1) tr)); [|apply Hbelow; lia]. rewrite Hvot, decide_True by done.
      assert (VotersOf i tr ⊆ VotersOf (last + 1) tr) by (eapply VotersOf_antitone; [by split| |]; lia). set_solver. }
    exists 0. split_and!; [lia| |lia|by intros i Hi; apply Hall; lia].
    rewrite Z.max_r by lia. replace (slot - (p + 1) + 1) with (Z.succ (slot - p - 1)) by lia.
    rewrite seqZ_cons by lia. cbn [refresh_loop]. change (IsThresholdReached _ _ _) with (reached (VotersOf (p + 1) tr')).
    rewrite Hall by lia. done.
  - rewrite Z.max_l by lia. destruct (decide (slot <= last)).
    + exists 0. rewrite seqZ_nil by lia. split_and!; try done; try lia.
      intros i Hi. rewrite Hvot, decide_False by lia. apply Hbelow. lia.
    + destruct (refresh_loop_prefix tr' (last + 1) (slot - (last + 1) + 1)) as (k & Hk & -> & Hr & Hstop); [lia|].
      exists k. split_and!; [lia|done|intros i Hi; apply Hr; lia|].
      intros i Hi. destruct (decide (k < slot - (last + 1) + 1)) as [Hlt|Hge].
      * apply (Hfalse _ (VotersOf (last + 1 + k) tr')); [|by apply Hstop]. eapply VotersOf_antitone; [done| |]; lia.
      * rewrite Hvot, decide_False by lia. apply Hbelow. lia.
Qed.

(** A committee is not convinced by nobody. *)
Hypothesis empty_below : reached ∅ = false.

Lemma trackVotes_spec bs cs v g : gadget_inv g ->
  let g' := trackVotes SeatCount threshold bs cs v g in
  let tr := default NewSlotTracker (slotTrackers g !! bs) in
  exists k, 0 <= k /\ gadget_inv g' /\ lastFinalizedSlot g' = lastFinalizedSlot g + k /\
    SlotFinalized g' = SlotFinalized g ++ seqZ (lastFinalizedSlot g + 1) k /\
    (k = 0 \/ storedFinalizedSlot g' = lastFinalizedSlot g') /\
    (forall i, lastFinalizedSlot g < i <= lastFinalizedSlot g + k -> exists voters, reached voters = true /\
       forall u, u ∈ voters <-> (u = v /\ i <= cs) \/ exists l, votesPerIdentity tr !! u = Some l /\ i <= l).
Proof.
  intros [Hnn Htr Hbelow] g' tr. unfold g', trackVotes. fold tr.
  assert (Htri : tracker_inv (lastFinalizedSlot g) tr /\ forall i, lastFinalizedSlot g < i -> reached (VotersOf i tr) = false).
  { unfold tr. destruct (slotTrackers g !! bs) as [t|] eqn:E; cbn; [split; [by eapply Htr|intros; by eapply Hbelow]|].
    split; [apply tracker_inv_new|]. intros i _. exact empty_below. }
  destruct Htri as [Htri Hb]. pose proof (TrackVotes_spec cs v (lastFinalizedSlot g) tr Hnn Htri) as HT.
  destruct (TrackVotes cs v (lastFinalizedSlot g) tr) as [[[p l] updated] tr']. destruct HT as [Htri' HT].
  destruct updated; cbn [negb]; cycle 1.
  { exists 0. cbn. split; [done|]. split; [|split_and!; try done; [lia|by rewrite app_nil_r|by left|lia]]. split; cbn; [done|..].
    - intros bs' t [[<- <-]|[_ ?]]%lookup_insert_Some; [done|by eapply Htr].
    - intros bs' t i [[<- <-]|[_ ?]]%lookup_insert_Some Hi; [rewrite HT; by apply Hb|by eapply Hbelow]. }
  destruct HT as (Hp & Hps & -> & Hvot).
  destruct (refresh_spec tr tr' v p cs (lastFinalizedSlot g)) as (k & Hk & -> & Hr & Hbelow'); try done.
  assert (Hlast : default (lastFinalizedSlot g) (last (seqZ (lastFinalizedSlot g + 1) k)) = lastFinalizedSlot g + k).
  { pose proof (last_seqZ (lastFinalizedSlot g + 1) k Hk) as HL. replace (lastFinalizedSlot g + 1 - 1) with (lastFinalizedSlot g) in HL by lia. lia. }
  exists k. cbn. split; [done|]. split; [|split_and!; try done].
  - split; cbn; rewrite Hlast; [lia|..].
    + intros bs' t Ht. apply (tracker_inv_mono (lastFinalizedSlot g)); [lia|].
      apply foldl_delete_lookup, lookup_insert_Some in Ht as [[<- <-]|[_ ?]]; [done|by eapply Htr].
    + intros bs' t i [[<- <-]|[_ ?]]%foldl_delete_lookup%lookup_insert_Some Hi; [apply Hbelow'; lia|eapply Hbelow; [done|lia]].
  - destruct (decide (k = 0)) as [->|]; [by left|]. right. rewrite seqZ_cons at 1 by lia. done.
  - intros i Hi. exists (VotersOf i tr'). split; [by apply Hr|]. intros u. rewrite Hvot by lia.
    destruct Htri as [Hvo _]. specialize (Hvo i u ltac:(lia)). case_decide as Hpi; [rewrite elem_of_union, elem_of_singleton, Hvo|rewrite Hvo].
    + split; [intros [->|?]; [left; split; [done|lia]|by right]|intros [[-> _]|?]; [by left|by right]].
    + split; [by right|]. intros [[-> Hcs]|?]; [|done]. destruct (votesPerIdentity tr !! v) as [l|]; cbn in Hp; subst p; [by exists l; split; [|lia]|lia].
Qed.
End Finalization.

(** C38 Slot finalization is gap-free and backed by a super majority.  For a fixed
    committee, each tracked vote keeps the invariant that no slot above the last
    finalized one has reached the threshold; the slots it finalizes are exactly
    the next [k] slots after the last finalized one, in order, each once; and for
    each of them more than 67% of the seats cast, in blocks of the voting block's
    slot, a vote for that slot or a later one, the tracked vote included.  The
    stored finalized slot follows. *)
Theorem finalization_gap_free SeatCount bs cs v g : 0 <= SeatCount < 2 ^ 63 -> gadget_inv SeatCount SuperMajority g ->
  let g' := trackVotes SeatCount SuperMajority bs cs v g in
  let tr := default NewSlotTracker (slotTrackers g !! bs) in
  exists k, 0 <= k /\ gadget_inv SeatCount SuperMajority g' /\ lastFinalizedSlot g' = lastFinalizedSlot g + k /\
    SlotFinalized g' = SlotFinalized g ++ seqZ (lastFinalizedSlot g + 1) k /\
    (k = 0 \/ storedFinalizedSlot g' = lastFinalizedSlot g') /\
    forall i, lastFinalizedSlot g < i <= lastFinalizedSlot g + k ->
      exists voters : gset AccountID, IsThresholdReached (Z.of_nat (size voters)) SeatCount SuperMajority = true /\
        forall u, u ∈ voters <-> (u = v /\ i <= cs) \/ exists l, votesPerIdentity tr !! u = Some l /\ i <= l.
Proof.
  intros Hs Hg. apply trackVotes_spec; [|done].
  unfold reached, IsThresholdReached. case_decide; [done|]. destruct (to_int64 _) as [t|] eqn:Ht; [|done].
  apply fmul_trunc_nonneg in Ht; [|lia|done]. rewrite size_empty. lia.
Qed.

Definition sample_gadget : Gadget := mkGadget ∅ 3 3 [].
Lemma finalization_gap_free_witness :
  let g' := trackVotes 1 SuperMajority 9 5 77 sample_gadget in
  exists k, 0 <= k /\ gadget_inv 1 SuperMajority g' /\ lastFinalizedSlot g' = 3 + k /\
    SlotFinalized g' = [] ++ seqZ (3 + 1) k /\
    (k = 0 \/ storedFinalizedSlot g' = lastFinalizedSlot g') /\
    forall i, 3 < i <= 3 + k ->
      exists voters : gset AccountID, IsThresholdReached (Z.of_nat (size voters)) 1 SuperMajority = true /\
        forall u, u ∈ voters <-> (u = 77 /\ i <= 5) \/ exists l, (∅ : gmap AccountID SlotIndex) !! u = Some l /\ i <= l.
Proof.
  apply (finalization_gap_free 1 9 5 77 sample_gadget); [lia|].
  split; [done|..]; intros bs tr; cbn; [|intros i]; rewrite lookup_empty; done.
Defined.

(** Gap-freeness needs the fixed committee: when the committee shrinks between two votes,
    a slot can be finalized whose predecessor never was. *)
Definition vote (seats : Z) (x : AccountID * SlotIndex) (g : Gadget) : Gadget := trackVotes seats SuperMajority 9 x.2 x.1 g.
Lemma shrinking_committee_gap :
  let g := foldl (fun g x => vote 10 x g) sample_gadget [(1, 5); (2, 5); (3, 5)] in
  let g' := foldl (fun g x => vote 3 x g) g [(1, 6); (2, 6); (3, 6)] in
  SlotFinalized g = [] /\ lastFinalizedSlot g = 3 /\ SlotFinalized g' = [6] /\ lastFinalizedSlot g' = 6.
Proof. vm_compute. done. Qed.
