(* ===== verification/BlockGadget.v ===== *)
(** * Block acceptance and confirmation (consensus/blockgadget/thresholdblockgadget)

    A validation block of a committee member is a witness for every block in its
    past cone.  Witnesses are propagated by a walk over the parents; blocks whose
    witnesses reach a super majority are pre-accepted (of the online committee) or
    pre-confirmed (of the whole committee), and pre-accepted (pre-confirmed)
    validation blocks in turn ratify their past cone, which accepts (confirms) it.

    The state is the block cache with the block objects, and the triggered events.
    The committee, the root blocks and hive.go's walker are parameters. *)
From S2P Require Import Prelude Block Float64 Walker SlotGadget.

Inductive GEvent :=
| BlockPreAccepted (id : BlockID)
| BlockPreConfirmed (id : BlockID)
| BlockAccepted (id : BlockID)
| BlockConfirmed (id : BlockID).

Record GState := mkGState { gblocks : gmap BlockID Block; gevents : list GEvent }.

Record GEnv := mkGEnv {
  SeatCount : Z;                                        (* seats of the committee *)
  OnlineSeats : Z;                                      (* [OnlineCommittee().Size()] *)
  GetSeat : SlotIndex -> AccountID -> option SeatIndex; (* [Committee(slot).GetSeat(id)] *)
  isRoot : BlockID -> bool;
  optsAcceptanceThreshold : float64;
  optsConfirmationThreshold : float64;
  optsConfirmationRatificationThreshold : SlotIndex;
}.

Section Gadget.
Context {W : Type} `{!Walker BlockID W} (env : GEnv).

(** [blockCache.Block(id)] when it is not a root block. *)
Definition live (s : GState) (id : BlockID) : option Block := if isRoot env id then None else gblocks s !! id.

Definition set_block (id : BlockID) (b : Block) (s : GState) : GState := mkGState (<[id := b]> (gblocks s)) (gevents s).

(** [propagate]: [eval] is [evaluateFunc], which changes the block and the variables [A] it captures. *)
Fixpoint propagate {A} (eval : BlockID -> Block -> A -> bool * Block * A) (fuel : nat) (w : W) (s : GState) (acc : A)
    : outcome (GState * A) :=
  match WNext w with
  | None => Ret (s, acc)
  | Some (blockID, w) =>
      match fuel with
      | O => OutOfFuel
      | S fuel =>
          match live s blockID with
          | None => propagate eval fuel w s acc
          | Some block =>
              if negb (booked block) then Panic
              else
                let '(further, block', acc) := eval blockID block acc in
                let s := set_block blockID block' s in
                if negb further then propagate eval fuel w s acc
                else
                  mb ← deref (modelBlock block);
                  propagate eval fuel (PushAll (Parents mb) w) s acc
          end
      end
  end.

(** Every element of the walk is an initial block or a parent of a cached one. *)
Definition parents_of (b : Block) : list BlockID := match modelBlock b with Some mb => Parents mb | None => [] end.
Definition all_parents (m : gmap BlockID Block) : list BlockID := (map_to_list m).*2 ≫= parents_of.
Definition walk_fuel (s : GState) (initial : list BlockID) : nat := length (initial ++ all_parents (gblocks s)).

Definition run_propagate {A} (eval : BlockID -> Block -> A -> bool * Block * A) (initial : list BlockID) (s : GState) (acc : A)
    : outcome (GState * A) :=
  propagate eval (walk_fuel s initial) (PushAll initial walk_new) s acc.

Definition isCommitteeValidationBlock (mb : ModelBlock) : option SeatIndex :=
  if isValidation mb then GetSeat env (Slot (ID mb)) (IssuerID mb) else None.

Definition anyChildInSet (b : Block) (set : list BlockID) : bool := existsb (fun c => bool_decide (c ∈ set)) (Children b).

Definition count (s : gset SeatIndex) : Z := Z.of_nat (size s).

(** ** Witness weight *)
Definition shouldPreAcceptAndPreConfirm (b : Block) : bool * bool :=
  if IsThresholdReached (count (witnesses b)) (SeatCount env) (optsConfirmationThreshold env) then (true, true)
  else if IsThresholdReached (count (witnesses b)) (OnlineSeats env) (optsAcceptanceThreshold env) then (true, false)
  else (false, false).

(** [toPreAccept] and [toPreConfirm], each the list and the set of its IDs. *)
Definition WAcc : Type := list BlockID * list BlockID.

Definition process (id : BlockID) (b : Block) (acc : WAcc) : bool * WAcc :=
  let '(toPreAccept, toPreConfirm) := acc in
  let '(shouldPreAccept, shouldPreConfirm) := shouldPreAcceptAndPreConfirm b in
  let pa := negb (preAccepted b) && (shouldPreAccept || anyChildInSet b toPreAccept) in
  let pc := negb (preConfirmed b) && (shouldPreConfirm || anyChildInSet b toPreConfirm) in
  (pa || pc, (if pa then id :: toPreAccept else toPreAccept, if pc then id :: toPreConfirm else toPreConfirm)).

Definition witness_eval (seat : SeatIndex) (id : BlockID) (b : Block) (acc : WAcc) : bool * Block * WAcc :=
  let '(added, b) := AddWitness seat b in
  let '(p, acc) := process id b acc in
  (added || p, b, acc).

(** The loops that set a flag and trigger the event: the blocks for which it was new. *)
Fixpoint set_flags (set : Block -> bool * Block) (ev : BlockID -> GEvent) (ids : list BlockID) (s : GState)
    : outcome (list BlockID * GState) :=
  match ids with
  | [] => Ret ([], s)
  | id :: ids =>
      b ← deref (gblocks s !! id);
      let '(updated, b) := set b in
      let s := set_block id b s in
      let s := if (updated : bool) then mkGState (gblocks s) (gevents s ++ [ev id]) else s in
      '(l, s) ← set_flags set ev ids s;
      Ret (if (updated : bool) then id :: l else l, s)
  end.

(** ** Ratification *)
Definition shouldAccept (b : Block) : bool :=
  IsThresholdReached (count (acceptanceRatifiers b)) (OnlineSeats env) (optsAcceptanceThreshold env).

Definition accept_eval (seat : SeatIndex) (id : BlockID) (b : Block) (toAccept : list BlockID) : bool * Block * list BlockID :=
  if accepted b then (false, b, toAccept)
  else
    let '(added, b) := AddAcceptanceRatifier seat b in
    if anyChildInSet b toAccept || shouldAccept b then (true, b, id :: toAccept) else (added, b, toAccept).

Definition trackAcceptanceRatifierWeight (mb : ModelBlock) (s : GState) : outcome GState :=
  match isCommitteeValidationBlock mb with
  | None => Ret s
  | Some seat =>
      '(s, toAccept) ← run_propagate (accept_eval seat) (Parents mb) s [];
      '(_, s) ← set_flags SetAccepted BlockAccepted toAccept s;
      Ret s
  end.

Definition shouldConfirm (b : Block) : bool :=
  IsThresholdReached (count (confirmationRatifiers b)) (SeatCount env) (optsConfirmationThreshold env).

Definition confirm_eval (seat : SeatIndex) (ratifierSlot : SlotIndex) (id : BlockID) (b : Block) (toConfirm : list BlockID)
    : bool * Block * list BlockID :=
  let t := optsConfirmationRatificationThreshold env in
  if (t <=? ratifierSlot) && (Slot id <=? ratifierSlot - t) then (false, b, toConfirm)
  else if confirmed b then (false, b, toConfirm)
  else
    let '(added, b) := AddConfirmationRatifier seat b in
    if shouldConfirm b then (true, b, id :: toConfirm) else (added, b, toConfirm).

Definition trackConfirmationRatifierWeight (mb : ModelBlock) (s : GState) : outcome GState :=
  match isCommitteeValidationBlock mb with
  | None => Ret s
  | Some seat =>
      '(s, toConfirm) ← run_propagate (confirm_eval seat (Slot (ID mb))) (Parents mb) s [];
      '(_, s) ← set_flags SetConfirmed BlockConfirmed toConfirm s;
      Ret s
  end.

Fixpoint ratify_all (ratify : ModelBlock -> GState -> outcome GState) (ids : list BlockID) (s : GState) : outcome GState :=
  match ids with
  | [] => Ret s
  | id :: ids =>
      b ← deref (gblocks s !! id);
      mb ← deref (modelBlock b);
      s ← ratify mb s;
      ratify_all ratify ids s
  end.

(** ** The handler of [BlockBooked] *)
Definition TrackWitnessWeight (votingBlock : ModelBlock) (s : GState) : outcome GState :=
  match isCommitteeValidationBlock votingBlock with
  | None => Ret s
  | Some seat =>
      b ← deref (gblocks s !! ID votingBlock);
      let '(added, b) := AddWitness seat b in
      let s := set_block (ID votingBlock) b s in
      let acc := if (added : bool) then (process (ID votingBlock) b ([], [])).2 else ([], []) in
      '(s, (toPreAccept, toPreConfirm)) ← run_propagate (witness_eval seat) (Parents votingBlock) s acc;
      '(acceptanceRatifierWeights, s) ← set_flags SetPreAccepted BlockPreAccepted toPreAccept s;
      '(confirmationRatifierWeights, s) ← set_flags SetPreConfirmed BlockPreConfirmed toPreConfirm s;
      s ← ratify_all trackAcceptanceRatifierWeight acceptanceRatifierWeights s;
      ratify_all trackConfirmationRatifierWeight confirmationRatifierWeights s
  end.

(** [Gadget.SetAccepted] *)
Definition GSetAccepted (id : BlockID) (s : GState) : outcome (bool * GState) :=
  '(l, s) ← set_flags SetAccepted BlockAccepted [id] s; Ret (bool_decide (l <> []), s).
End Gadget.
