(* ===== verification/BlockGadgetProps.v ===== *)
(** * Past-cone monotonicity of acceptance

    The walk of [propagate] ends and visits what it must; witnesses and ratifiers
    flow to the whole past cone; and whenever the gadget pre-accepts,
    pre-confirms or accepts a block, all its cached, non-root parents are
    pre-accepted, pre-confirmed or accepted as well. *)
From S2P Require Import Prelude Block Float64 Walker SlotGadget BlockGadget.

(** The gadget never changes the payload of a block; [model] fixes it per ID. *)
Definition parents_in (model : BlockID -> ModelBlock) (id : BlockID) : list BlockID := Parents (model id).

(** ** The walk *)
Section Walk.
Context {W : Type} `{!Walker BlockID W} `{!WalkerSpec BlockID W} (env : GEnv).
Context (model : BlockID -> ModelBlock) (alive : BlockID -> bool).
Abbreviation par := (parents_in model).

(** The part of the state the gadget never changes: which blocks are cached, booked, and their parents. *)
Definition shaped (s : GState) : Prop := forall id,
  match live env s id with
  | Some b => alive id = true /\ booked b = true /\ modelBlock b = Some (model id)
  | None => alive id = false
  end.

Lemma shaped_set s id b b' : shaped s -> live env s id = Some b -> booked b' = booked b -> modelBlock b' = modelBlock b ->
  shaped (set_block id b' s).
Proof.
  intros Hs Hb Hbk Hmb j. specialize (Hs j). unfold live in *. cbn. destruct (isRoot env j) eqn:Hr; [done|].
  rewrite lookup_insert. case_decide; [subst j|done]. rewrite Hr in Hb. rewrite Hb in Hs. by rewrite Hbk, Hmb.
Qed.

Context {A : Type} (eval : BlockID -> Block -> A -> bool * Block * A).
Context (I : GState -> A -> gset BlockID -> gset BlockID -> Prop).

(** [I s acc V C]: after visiting [V] and walking on from [C]. *)
Hypothesis I_shaped : forall s acc V C, I s acc V C -> shaped s.
Hypothesis I_dead : forall s acc V C id, I s acc V C -> alive id = false -> I s acc ({[id]} ∪ V) C.
Hypothesis I_step : forall s acc V C id b, I s acc V C -> id ∉ V -> live env s id = Some b ->
  let '(further, b', acc') := eval id b acc in
  I (set_block id b' s) acc' ({[id]} ∪ V) (if (further : bool) then {[id]} ∪ C else C).

Lemma propagate_spec (U : gset BlockID) fuel w s acc V C :
  (forall id p, alive id = true -> p ∈ par id -> p ∈ U) ->
  I s acc V C -> seen w = V ∪ pending w -> V ## pending w -> seen w ⊆ U ->
  (forall id p, id ∈ C -> p ∈ par id -> p ∈ seen w) -> (size (U ∖ V) <= fuel)%nat ->
  exists s' acc' V' C', propagate env eval fuel w s acc = Ret (s', acc') /\ I s' acc' V' C' /\ C ⊆ C' /\ seen w ⊆ V' /\
    (forall id p, id ∈ C' -> p ∈ par id -> p ∈ V').
Proof.
  intros HU. revert w s acc V C. induction fuel as [|fuel IH]; intros w s acc V C HI Hseen Hdis Hsub HC Hf;
    cbn [propagate]; pose proof (next_spec w) as Hn; destruct (WNext w) as [[x w']|].
  - exfalso. destruct Hn as (Hx & _). assert (x ∈ U ∖ V) by set_solver.
    assert (size ({[x]} : gset BlockID) <= size (U ∖ V))%nat by (apply subseteq_size; set_solver). rewrite size_singleton in H0. lia.
  - exists s, acc, V, C. split_and!; try done; [set_solver|]. intros id p Hid Hp. specialize (HC id p Hid Hp). set_solver.
  - destruct Hn as (Hx & Hpend & Hsn).
    assert (HxV : x ∉ V) by set_solver.
    assert (Hsize : (size (U ∖ ({[x]} ∪ V)) <= fuel)%nat).
    { assert (Heq : U ∖ V = {[x]} ∪ (U ∖ ({[x]} ∪ V))).
      { apply leibniz_equiv. intros y. destruct (decide (y = x)); set_solver. }
      rewrite Heq, size_union, size_singleton in Hf by set_solver. lia. }
    assert (Hseen' : seen w' = ({[x]} ∪ V) ∪ pending w').
    { rewrite Hsn, Hseen, Hpend. apply leibniz_equiv. intros y. destruct (decide (y = x)); set_solver. }
    pose proof (I_shaped _ _ _ _ HI x) as Hsh. destruct (live env s x) as [b|] eqn:Hlive.
    + destruct Hsh as (Hal & Hbk & Hmb). rewrite Hbk. cbn [negb].
      pose proof (I_step s acc V C x b HI HxV Hlive) as Hstep. destruct (eval x b acc) as [[further b'] acc'].
      destruct further; cbn [negb].
      * rewrite Hmb. cbn [deref mbind outcome_bind]. change (Parents (model x)) with (par x).
        destruct (IH (PushAll (par x) w') _ _ _ _ Hstep) as (s' & acc'' & V' & C' & Hrun & HI' & HCC & HVV & Hcl).
        -- rewrite push_seen, push_pending, Hseen'. apply leibniz_equiv. intros y.
           destruct (decide (y ∈ ({[x]} ∪ V) ∪ pending w')); set_solver.
        -- rewrite push_pending. set_solver.
        -- rewrite push_seen. intros y [Hy|Hy]%elem_of_union; [set_solver|]. apply elem_of_list_to_set in Hy. by eapply HU.
        -- intros id p [->%elem_of_singleton|Hid]%elem_of_union Hp; rewrite push_seen; [set_solver|].
           specialize (HC id p Hid Hp). rewrite Hsn. set_solver.
        -- done.
        -- exists s', acc'', V', C'. split_and!; try done; [set_solver|]. rewrite push_seen, Hsn in HVV. set_solver.
      * destruct (IH w' _ _ _ _ Hstep) as (s' & acc'' & V' & C' & Hrun & HI' & HCC & HVV & Hcl); try done; try set_solver.
    + destruct (IH w' _ _ _ _ (I_dead _ _ _ _ x HI Hsh)) as (s' & acc'' & V' & C' & Hrun & HI' & HCC & HVV & Hcl); try done; try set_solver.
  - exists s, acc, V, C. split_and!; try done; [set_solver|]. intros id p Hid Hp. specialize (HC id p Hid Hp). set_solver.
Qed.

(** A walk from [initial] always ends within the fuel, and visits every initial
    block and every parent of a block it walked on from. *)
Lemma run_propagate_spec initial s acc C :
  (forall id p, id ∈ C -> p ∈ par id -> p ∈ initial) -> I s acc ∅ C ->
  exists s' acc' V C', run_propagate env eval initial s acc = Ret (s', acc') /\ I s' acc' V C' /\ C ⊆ C' /\
    (forall p, p ∈ initial -> p ∈ V) /\ (forall id p, id ∈ C' -> p ∈ par id -> p ∈ V).
Proof.
  intros HC HI. unfold run_propagate.
  destruct (propagate_spec (list_to_set (initial ++ all_parents (gblocks s))) (walk_fuel s initial)
    (PushAll initial walk_new) s acc ∅ C) as (s' & acc' & V' & C' & Hrun & HI' & HCC & HVV & Hcl).
  - intros id p Hal Hp. apply elem_of_list_to_set, elem_of_app. right.
    pose proof (I_shaped _ _ _ _ HI id) as Hsh. destruct (live env s id) as [b|] eqn:Hlive; [|congruence].
    destruct Hsh as (_ & _ & Hmb). unfold live in Hlive. destruct (isRoot env id); [done|].
    unfold all_parents. apply list_elem_of_bind. exists b. split; [unfold parents_of; by rewrite Hmb|].
    apply list_elem_of_fmap. exists (id, b). split; [done|]. by apply elem_of_map_to_list.
  - done.
  - rewrite push_seen, push_pending, new_seen, new_pending. set_solver.
  - set_solver.
  - rewrite push_seen, new_seen. intros y Hy. apply elem_of_list_to_set, elem_of_app. left. set_solver.
  - intros id p Hid Hp. rewrite push_seen, new_seen. specialize (HC id p Hid Hp). set_solver.
  - unfold walk_fuel. rewrite difference_empty_L. apply size_list_to_set_le.
  - exists s', acc', V', C'. split_and!; try done. intros p Hp. apply HVV. rewrite push_seen, new_seen. set_solver.
Qed.
End Walk.

(** ** Thresholds are monotone in the set of seats *)
Section Thresholds.
Context (env : GEnv).

Definition preAccept_reached (w : gset SeatIndex) : bool :=
  IsThresholdReached (count w) (SeatCount env) (optsConfirmationThreshold env) ||
  IsThresholdReached (count w) (OnlineSeats env) (optsAcceptanceThreshold env).
Definition preConfirm_reached (w : gset SeatIndex) : bool :=
  IsThresholdReached (count w) (SeatCount env) (optsConfirmationThreshold env).
Definition accept_reached (w : gset SeatIndex) : bool :=
  IsThresholdReached (count w) (OnlineSeats env) (optsAcceptanceThreshold env).

Lemma count_mono (A B : gset SeatIndex) : A ⊆ B -> count A <= count B.
Proof. intros HAB%subseteq_size. unfold count. lia. Qed.

Lemma shouldPre_reached b :
  shouldPreAcceptAndPreConfirm env b = (preAccept_reached (witnesses b), preConfirm_reached (witnesses b)).
Proof. unfold shouldPreAcceptAndPreConfirm, preAccept_reached, preConfirm_reached. repeat case_match; done. Qed.

Lemma preAccept_mono A B : A ⊆ B -> preAccept_reached A = true -> preAccept_reached B = true.
Proof.
  intros HAB%count_mono. unfold preAccept_reached. rewrite !orb_true_iff.
  intros [H|H]; [left|right]; by eapply threshold_mono.
Qed.
Lemma preConfirm_mono A B : A ⊆ B -> preConfirm_reached A = true -> preConfirm_reached B = true.
Proof. intros HAB%count_mono. by apply threshold_mono. Qed.
Lemma accept_mono A B : A ⊆ B -> accept_reached A = true -> accept_reached B = true.
Proof. intros HAB%count_mono. by apply threshold_mono. Qed.
End Thresholds.

Section Cone.
Context {W : Type} `{!Walker BlockID W} `{!WalkerSpec BlockID W} (env : GEnv).
Context (model : BlockID -> ModelBlock) (alive : BlockID -> bool).
Abbreviation par := (parents_in model).

Abbreviation live := (live env).

(** ** The cone invariant *)
Record cone_inv (s : GState) : Prop := {
  ci_shaped : shaped env model alive s;
  ci_children : forall id b c, live s id = Some b -> c ∈ Children b -> id ∈ par c;
  ci_witness : forall id p b bp, live s id = Some b -> p ∈ par id -> live s p = Some bp -> witnesses b ⊆ witnesses bp;
  ci_preAccepted : forall id p b bp, live s id = Some b -> p ∈ par id -> live s p = Some bp ->
                     preAccepted b = true -> preAccepted bp = true;
  ci_preConfirmed : forall id p b bp, live s id = Some b -> p ∈ par id -> live s p = Some bp ->
                     preConfirmed b = true -> preConfirmed bp = true;
  ci_ratifier : forall id p b bp, live s id = Some b -> p ∈ par id -> live s p = Some bp -> accepted bp = false ->
                     acceptanceRatifiers b ⊆ acceptanceRatifiers bp;
  ci_accepted : forall id p b bp, live s id = Some b -> p ∈ par id -> live s p = Some bp ->
                     accepted b = true -> accepted bp = true;
}.

Lemma live_set s id b j : isRoot env id = false ->
  live (set_block id b s) j = if decide (j = id) then Some b else live s j.
Proof.
  intros Hr. unfold BlockGadget.live. cbn. destruct (isRoot env j) eqn:Hj; [rewrite decide_False; [done|congruence]|].
  rewrite lookup_insert. destruct (decide (id = j)) as [->|]; [by rewrite decide_True|by rewrite decide_False].
Qed.

Lemma live_root s id b : live s id = Some b -> isRoot env id = false /\ gblocks s !! id = Some b.
Proof. unfold BlockGadget.live. by destruct (isRoot env id). Qed.

Lemma live_events s e id : live (mkGState (gblocks s) e) id = live s id.
Proof. done. Qed.

(** [set_flags] applies the setter to the listed blocks. *)
Lemma set_flags_spec (set : Block -> bool * Block) ev ids s :
  (forall b, (set (set b).2).2 = (set b).2) -> (forall id, id ∈ ids -> is_Some (live s id)) ->
  exists l s', set_flags set ev ids s = Ret (l, s') /\ (forall id, id ∈ l -> id ∈ ids) /\
    forall id, live s' id = if decide (id ∈ ids) then (fun b => (set b).2) <$> live s id else live s id.
Proof.
  intros Hidem. revert s. induction ids as [|x ids IH]; intros s Hids; cbn [set_flags].
  { by exists [], s. }
  destruct (Hids x) as [b Hb]; [set_solver|]. destruct (live_root s x b Hb) as [Hr Hg]. rewrite Hg. cbn [deref mbind outcome_bind].
  destruct (set b) as [updated b'] eqn:Hset.
  set (s1 := if updated then mkGState (gblocks (set_block x b' s)) (gevents (set_block x b' s) ++ [ev x]) else set_block x b' s).
  assert (Hl1 : forall j, live s1 j = if decide (j = x) then Some b' else live s j).
  { intros j. unfold s1. destruct updated; [rewrite live_events|]; by apply live_set. }
  destruct (IH s1) as (l & s' & -> & Hl & Hlive).
  { intros id Hid. rewrite Hl1. case_decide; [done|]. apply Hids. set_solver. }
  cbn [mbind outcome_bind]. eexists _, s'. split; [done|]. split.
  - intros id. destruct updated; [intros [->|?]%elem_of_cons; set_solver|]. intros Hid. set_solver.
  - intros id. rewrite Hlive, Hl1. destruct (decide (id = x)) as [->|Hne].
    + rewrite (decide_True (P := x ∈ x :: ids)) by set_solver. rewrite Hb. cbn. rewrite Hset. cbn.
      case_decide; [cbn|done]. f_equal. specialize (Hidem b). by rewrite Hset in Hidem.
    + destruct (decide (id ∈ ids)); [rewrite decide_True by set_solver|rewrite decide_False by set_solver]; done.
Qed.

Lemma anyChild_elem b set : anyChildInSet b set = true <-> exists c, c ∈ Children b /\ c ∈ set.
Proof.
  unfold anyChildInSet. rewrite existsb_exists. setoid_rewrite <- list_elem_of_In.
  split; intros (c & H1 & H2); exists c; (split; [done|]); [by apply bool_decide_eq_true in H2|by apply bool_decide_eq_true].
Qed.

(** ** The ratification walk *)
Section Accept.
Context (seat : SeatIndex) (s0 : GState).
Hypothesis Hcone : cone_inv s0.

Definition ratified (b : Block) : Block :=
  if accepted b then b else with_acceptanceRatifiers ({[seat]} ∪ acceptanceRatifiers b) b.

Record accept_inv (s : GState) (toAccept : list BlockID) (V C : gset BlockID) : Prop := {
  ai_shaped : shaped env model alive s;
  ai_frame : forall id, live s id = if decide (id ∈ V) then ratified <$> live s0 id else live s0 id;
  ai_list : forall id, id ∈ toAccept -> id ∈ C /\
              exists b, live s id = Some b /\ accepted b = false /\ accept_reached env (acceptanceRatifiers b) = true;
  ai_reached : forall id b, id ∈ V -> live s id = Some b -> accepted b = false ->
              accept_reached env (acceptanceRatifiers b) = true -> id ∈ toAccept;
  ai_new : forall id b, id ∈ V -> live s0 id = Some b -> accepted b = false -> seat ∉ acceptanceRatifiers b -> id ∈ C;
  ai_visited : forall id, id ∈ C -> id ∈ V;
}.

Lemma ratified_children b : Children (ratified b) = Children b.
Proof. unfold ratified. by destruct (accepted b). Qed.

(** The evaluation decides by the threshold alone: a child in the set implies it. *)
Lemma accept_eval_spec s toAccept V C id b : accept_inv s toAccept V C -> id ∉ V -> live s id = Some b ->
  accept_eval env seat id b toAccept =
    if accepted b then (false, b, toAccept)
    else if accept_reached env (acceptanceRatifiers (ratified b)) then (true, ratified b, id :: toAccept)
    else (bool_decide (seat ∉ acceptanceRatifiers b), ratified b, toAccept).
Proof.
  intros [Hsh Hfr Hlist _ _ _] HV Hb. pose proof (Hfr id) as Hfid. rewrite decide_False, Hb in Hfid by done.
  unfold accept_eval, AddAcceptanceRatifier, set_add, ratified. destruct (accepted b) eqn:Hacc; [done|]. cbn beta iota zeta.
  set (b' := with_acceptanceRatifiers _ b).
  change (shouldAccept env b') with (accept_reached env (acceptanceRatifiers b')).
  assert (Hany : anyChildInSet b' toAccept = true -> accept_reached env (acceptanceRatifiers b') = true).
  { rewrite anyChild_elem. intros (c & Hc & Hct). change (Children b') with (Children b) in Hc.
    destruct (Hlist c Hct) as (_ & bc & Hbc & Haccc & Hr). eapply accept_mono; [|exact Hr].
    pose proof (ci_children s0 Hcone id b c (eq_sym Hfid) Hc) as Hpar. rewrite Hfr in Hbc.
    assert (exists bc0, live s0 c = Some bc0 /\ acceptanceRatifiers bc ⊆ {[seat]} ∪ acceptanceRatifiers bc0) as (bc0 & Hbc0 & Hsub).
    { destruct (decide (c ∈ V)); [|by exists bc; split; [|set_solver]].
      destruct (live s0 c) as [bc0|]; cbn in Hbc; [|done]. injection Hbc as <-. exists bc0. split; [done|].
      unfold ratified. destruct (accepted bc0); [set_solver|done]. }
    pose proof (ci_ratifier s0 Hcone c id bc0 b Hbc0 Hpar (eq_sym Hfid) Hacc). cbn. set_solver. }
  destruct (accept_reached env (acceptanceRatifiers b')) eqn:Hr; [by rewrite orb_true_r|].
  destruct (anyChildInSet b' toAccept); [by specialize (Hany eq_refl)|done].
Qed.

Lemma shaped_ratified s id b : shaped env model alive s -> live s id = Some b -> shaped env model alive (set_block id (ratified b) s).
Proof.
  intros Hsh Hb. eapply shaped_set; [done|done|..]; unfold ratified; by destruct (accepted b).
Qed.

Lemma accept_step s toAccept V C id b : accept_inv s toAccept V C -> id ∉ V -> live s id = Some b ->
  let '(further, b', toAccept') := accept_eval env seat id b toAccept in
  accept_inv (set_block id b' s) toAccept' ({[id]} ∪ V) (if (further : bool) then {[id]} ∪ C else C).
Proof.
  intros HI HV Hb. rewrite (accept_eval_spec s toAccept V C id b HI HV Hb).
  destruct HI as [Hsh Hfr Hlist Hreach Hnew Hvis]. pose proof (Hfr id) as Hfid. rewrite decide_False, Hb in Hfid by done.
  destruct (live_root s id b Hb) as [Hroot _].
  assert (Hcases : exists further toAccept', (if accepted b then (false, b, toAccept)
      else if accept_reached env (acceptanceRatifiers (ratified b)) then (true, ratified b, id :: toAccept)
      else (bool_decide (seat ∉ acceptanceRatifiers b), ratified b, toAccept)) = (further, ratified b, toAccept') /\
      (accepted b = false -> seat ∉ acceptanceRatifiers b -> further = true) /\
      (forall j, j ∈ toAccept' -> j ∈ toAccept \/ (j = id /\ further = true /\ accepted b = false /\
                                   accept_reached env (acceptanceRatifiers (ratified b)) = true)) /\
      (forall j, j ∈ toAccept -> j ∈ toAccept') /\
      (accepted b = false -> accept_reached env (acceptanceRatifiers (ratified b)) = true -> id ∈ toAccept')).
  { destruct (accepted b) eqn:Hacc.
    { exists false, toAccept. unfold ratified. rewrite Hacc. split_and!; auto; discriminate. }
    destruct (accept_reached env (acceptanceRatifiers (ratified b))) eqn:Hr.
    - exists true, (id :: toAccept). split_and!; try done.
      + intros j [->|?]%elem_of_cons; [right|left]; done.
      + set_solver.
      + set_solver.
    - eexists _, toAccept. split; [done|]. split_and!; auto; [|congruence].
      intros _ Hs. by apply bool_decide_eq_true. }
  destruct Hcases as (further & toAccept' & -> & Hfn & Hl1 & Hl2 & Hl3).
  pose proof (fun j => live_set s id (ratified b) j Hroot) as Hlive.
  assert (Hra : accepted (ratified b) = accepted b) by (unfold ratified; destruct (accepted b) eqn:E; done).
  split.
  - by apply shaped_ratified.
  - intros j. rewrite Hlive, Hfr. destruct (decide (j = id)) as [->|].
    + rewrite decide_True by set_solver. by rewrite <- Hfid.
    + destruct (decide (j ∈ V)); [rewrite decide_True by set_solver|rewrite decide_False by set_solver]; done.
  - intros j Hj. rewrite Hlive. destruct (Hl1 j Hj) as [Hjt|(-> & -> & Hacc & Hr)].
    + destruct (Hlist j Hjt) as (HC & Hex). split; [destruct further; set_solver|]. rewrite decide_False; [done|].
      intros ->. apply HV. by apply Hvis.
    + split; [set_solver|]. rewrite decide_True by done. exists (ratified b). by rewrite Hra.
  - intros j bj Hj. rewrite Hlive. destruct (decide (j = id)) as [->|Hne].
    + intros [= <-]. rewrite Hra. apply Hl3.
    + intros Hbj Hacc Hr. apply Hl2. eapply Hreach; [set_solver|done..].
  - intros j bj Hj Hbj Hacc Hs. destruct (decide (j = id)) as [->|Hne].
    + rewrite <- Hfid in Hbj. injection Hbj as <-. rewrite (Hfn Hacc Hs). set_solver.
    + specialize (Hnew j bj ltac:(set_solver) Hbj Hacc Hs). destruct further; set_solver.
  - intros j. destruct further; [|set_solver]. intros [->%elem_of_singleton|]%elem_of_union; set_solver.
Qed.
Lemma accept_dead s toAccept V C id : accept_inv s toAccept V C -> alive id = false -> accept_inv s toAccept ({[id]} ∪ V) C.
Proof.
  intros [Hsh Hfr Hl Hr Hn Hv] Hdead.
  assert (Hno : forall s b, shaped env model alive s -> live s id = Some b -> False).
  { intros s' b Hs Hb. specialize (Hs id). rewrite Hb in Hs. destruct Hs; congruence. }
  split; try done.
  - intros j. rewrite Hfr. destruct (decide (j = id)) as [->|].
    + destruct (live s0 id) eqn:Hb; [exfalso; eapply Hno; [apply Hcone|done]|]. by repeat case_decide.
    + destruct (decide (j ∈ V)); [rewrite decide_True by set_solver|rewrite decide_False by set_solver]; done.
  - intros j b [->%elem_of_singleton|Hj]%elem_of_union Hb; [exfalso; by eapply Hno|by eapply Hr].
  - intros j b [->%elem_of_singleton|Hj]%elem_of_union Hb; [exfalso; eapply Hno; [apply Hcone|done]|by eapply Hn].
  - set_solver.
Qed.
End Accept.

(** Changing blocks without touching their shape keeps the shape. *)
Lemma shaped_map s s' f : shaped env model alive s -> (forall id, live s' id = f id <$> live s id) ->
  (forall id b, booked (f id b) = booked b /\ modelBlock (f id b) = modelBlock b) -> shaped env model alive s'.
Proof.
  intros Hsh Hl Hf id. specialize (Hsh id). rewrite Hl. destruct (live s id) as [b|]; cbn; [|done].
  destruct (Hf id b) as [-> ->]. done.
Qed.

Lemma accept_flags_idem b : (SetAccepted (SetAccepted b).2).2 = (SetAccepted b).2.
Proof. by destruct b. Qed.

(** Where the walk ended: what every block looks like after ratification. *)
Lemma ratify_result seat s s1 s2 toAccept V C :
  cone_inv s -> accept_inv seat s s1 toAccept V C -> (forall id p, id ∈ C -> p ∈ par id -> p ∈ V) ->
  (forall id, live s2 id = if decide (id ∈ toAccept) then (fun b => (SetAccepted b).2) <$> live s1 id else live s1 id) ->
  cone_inv s2.
Proof.
  intros Hcone [Hsh Hfr Hlist Hreach Hnew Hvis] Hcl Hl2.
  set (f1 := fun id b => if decide (id ∈ V) then ratified seat b else b).
  set (f := fun id b => if decide (id ∈ toAccept) then with_accepted true (f1 id b) else f1 id b).
  assert (H1 : forall id, live s1 id = f1 id <$> live s id).
  { intros id. rewrite Hfr. unfold f1. case_decide; [done|]. by destruct (live s id). }
  assert (Hf : forall id, live s2 id = f id <$> live s id).
  { intros id. rewrite Hl2, H1. unfold f. case_decide; [|done]. by destruct (live s id). }
  assert (Hf1 : forall id b, booked (f1 id b) = booked b /\ modelBlock (f1 id b) = modelBlock b /\ Children (f1 id b) = Children b /\
    witnesses (f1 id b) = witnesses b /\ preAccepted (f1 id b) = preAccepted b /\ preConfirmed (f1 id b) = preConfirmed b /\
    accepted (f1 id b) = accepted b).
  { intros id b. unfold f1, ratified. case_decide; [|done]. destruct (accepted b) eqn:E; done. }
  assert (Hff : forall id b, booked (f id b) = booked b /\ modelBlock (f id b) = modelBlock b /\ Children (f id b) = Children b /\
    witnesses (f id b) = witnesses b /\ preAccepted (f id b) = preAccepted b /\ preConfirmed (f id b) = preConfirmed b /\
    acceptanceRatifiers (f id b) = acceptanceRatifiers (f1 id b) /\
    accepted (f id b) = (bool_decide (id ∈ toAccept) || accepted b)).
  { intros id b. destruct (Hf1 id b) as (E1 & E2 & E3 & E4 & E5 & E6 & E7). unfold f. case_decide as Ht;
      [rewrite bool_decide_eq_true_2 by done|rewrite bool_decide_eq_false_2 by done; by rewrite E1, E2, E3, E4, E5, E6, E7].
    change (Children (with_accepted true (f1 id b))) with (Children (f1 id b)). cbn. by rewrite E1, E2, E3, E4, E5, E6. }
  assert (Hrat : forall id p b bp, live s id = Some b -> p ∈ par id -> live s p = Some bp -> accepted bp = false ->
    acceptanceRatifiers (f1 id b) ⊆ acceptanceRatifiers (f1 p bp)).
  { intros id p b bp Hb Hp Hbp Hacc. pose proof (ci_ratifier s Hcone id p b bp Hb Hp Hbp Hacc) as Hsub.
    assert (Hp1 : acceptanceRatifiers bp ⊆ acceptanceRatifiers (f1 p bp)).
    { unfold f1, ratified. case_decide; [|done]. rewrite Hacc. cbn. set_solver. }
    intros x Hx. destruct (decide (x ∈ acceptanceRatifiers b)) as [Hin|Hin]; [set_solver|].
    unfold f1, ratified in Hx. case_decide as HV; [|done]. destruct (accepted b) eqn:Hab; [done|].
    cbn in Hx. assert (x = seat) as -> by set_solver.
    assert (HpV : p ∈ V) by (eapply Hcl; [by eapply (Hnew id b)|done]).
    unfold f1, ratified. rewrite decide_True, Hacc by done. cbn. set_solver. }
  (* read every live block of [s2] as [f] of a live block of [s] *)
  assert (Hinv2 : forall id b2, live s2 id = Some b2 -> exists b, live s id = Some b /\ b2 = f id b).
  { intros id b2. rewrite Hf. destruct (live s id) as [b|]; cbn; [|done]. intros [= <-]. by exists b. }
  split.
  - eapply shaped_map; [apply Hcone|exact Hf|]. intros id b. destruct (Hff id b) as (? & ? & _). done.
  - intros id b2 c (b & Hb & ->)%Hinv2. destruct (Hff id b) as (_ & _ & -> & _). by eapply ci_children.
  - intros id p b2 bp2 (b & Hb & ->)%Hinv2 Hp (bp & Hbp & ->)%Hinv2. destruct (Hff id b) as (_ & _ & _ & -> & _), (Hff p bp) as (_ & _ & _ & -> & _).
    by eapply ci_witness.
  - intros id p b2 bp2 (b & Hb & ->)%Hinv2 Hp (bp & Hbp & ->)%Hinv2. destruct (Hff id b) as (_ & _ & _ & _ & -> & _), (Hff p bp) as (_ & _ & _ & _ & -> & _).
    by eapply ci_preAccepted.
  - intros id p b2 bp2 (b & Hb & ->)%Hinv2 Hp (bp & Hbp & ->)%Hinv2. destruct (Hff id b) as (_ & _ & _ & _ & _ & -> & _), (Hff p bp) as (_ & _ & _ & _ & _ & -> & _).
    by eapply ci_preConfirmed.
  - intros id p b2 bp2 (b & Hb & ->)%Hinv2 Hp (bp & Hbp & ->)%Hinv2. destruct (Hff id b) as (_ & _ & _ & _ & _ & _ & -> & _), (Hff p bp) as (_ & _ & _ & _ & _ & _ & -> & ->).
    intros [_ Hacc]%orb_false_iff. by eapply Hrat.
  - intros id p b2 bp2 (b & Hb & ->)%Hinv2 Hp (bp & Hbp & ->)%Hinv2. destruct (Hff id b) as (_ & _ & _ & _ & _ & _ & _ & ->), (Hff p bp) as (_ & _ & _ & _ & _ & _ & _ & ->).
    rewrite !orb_true_iff. destruct (accepted bp) eqn:Habp; [by right|]. intros [Ht%bool_decide_eq_true|Hab]; left; apply bool_decide_eq_true.
    + destruct (Hlist id Ht) as (HC & b1 & Hb1 & _ & Hr). assert (HpV : p ∈ V) by by eapply Hcl.
      rewrite H1, Hb in Hb1. cbn in Hb1. injection Hb1 as <-.
      eapply (Hreach p (f1 p bp)); [done|by rewrite H1, Hbp|by destruct (Hf1 p bp) as (_ & _ & _ & _ & _ & _ & ->)|].
      eapply accept_mono; [|exact Hr]. by apply Hrat.
    + exfalso. rewrite (ci_accepted s Hcone id p b bp Hb Hp Hbp Hab) in Habp. done.
Qed.

Lemma trackAcceptance_cone mb s : cone_inv s ->
  exists s', trackAcceptanceRatifierWeight env mb s = Ret s' /\ cone_inv s'.
Proof.
  intros Hcone. unfold trackAcceptanceRatifierWeight. destruct (isCommitteeValidationBlock env mb) as [seat|]; [|by exists s].
  destruct (run_propagate_spec env model alive (accept_eval env seat) (accept_inv seat s)
    (ai_shaped seat s) (accept_dead seat s Hcone) (accept_step seat s Hcone) (Parents mb) s [] ∅)
    as (s1 & toAccept & V & C & Hrun & HI & _ & _ & Hcl).
  { set_solver. }
  { split; [apply Hcone| |set_solver..]. intros id. by rewrite decide_False by set_solver. }
  rewrite Hrun. cbn [mbind outcome_bind].
  destruct (set_flags_spec SetAccepted BlockAccepted toAccept s1 accept_flags_idem) as (l & s2 & -> & _ & Hl2).
  { intros id Hid. destruct (ai_list _ _ _ _ _ _ HI id Hid) as (_ & b & Hb & _). by eauto. }
  cbn [mbind outcome_bind]. exists s2. split; [done|]. by eapply ratify_result.
Qed.

(** ** The confirmation walk leaves the cone invariant alone *)
Definition same_cone (b b' : Block) : Prop :=
  booked b' = booked b /\ modelBlock b' = modelBlock b /\ Children b' = Children b /\ witnesses b' = witnesses b /\
  preAccepted b' = preAccepted b /\ preConfirmed b' = preConfirmed b /\
  acceptanceRatifiers b' = acceptanceRatifiers b /\ accepted b' = accepted b.

Definition same_cones (s s' : GState) : Prop := forall id,
  match live s id, live s' id with
  | Some b, Some b' => same_cone b b'
  | None, None => True
  | _, _ => False
  end.

Lemma same_cones_inv s s' : cone_inv s -> same_cones s s' -> cone_inv s'.
Proof.
  intros [Hsh Hch Hw Hpa Hpc Hr Ha] Hsame.
  assert (Hback : forall id b', live s' id = Some b' -> exists b, live s id = Some b /\ same_cone b b').
  { intros id b' Hb'. specialize (Hsame id). rewrite Hb' in Hsame. destruct (live s id) as [b|]; [by eauto|done]. }
  split.
  - intros id. specialize (Hsame id). specialize (Hsh id). destruct (live s id) as [b|], (live s' id) as [b'|]; try done.
    destruct Hsame as (-> & -> & _). done.
  - intros id b' c (b & Hb & (_ & _ & -> & _))%Hback. by eapply Hch.
  - intros id p b' bp' (b & Hb & (_ & _ & _ & -> & _))%Hback Hp (bp & Hbp & (_ & _ & _ & -> & _))%Hback. by eapply Hw.
  - intros id p b' bp' (b & Hb & (_ & _ & _ & _ & -> & _))%Hback Hp (bp & Hbp & (_ & _ & _ & _ & -> & _))%Hback. by eapply Hpa.
  - intros id p b' bp' (b & Hb & (_ & _ & _ & _ & _ & -> & _))%Hback Hp (bp & Hbp & (_ & _ & _ & _ & _ & -> & _))%Hback. by eapply Hpc.
  - intros id p b' bp' (b & Hb & (_ & _ & _ & _ & _ & _ & -> & _))%Hback Hp (bp & Hbp & (_ & _ & _ & _ & _ & _ & -> & ->))%Hback. by eapply Hr.
  - intros id p b' bp' (b & Hb & (_ & _ & _ & _ & _ & _ & _ & ->))%Hback Hp (bp & Hbp & (_ & _ & _ & _ & _ & _ & _ & ->))%Hback. by eapply Ha.
Qed.

Lemma same_cones_refl s : same_cones s s.
Proof. intros id. by destruct (live s id). Qed.

Lemma same_cones_set s0 s id b b' : same_cones s0 s -> live s id = Some b -> same_cone b b' -> same_cones s0 (set_block id b' s).
Proof.
  intros Hs Hb Hsame j. destruct (live_root s id b Hb) as [Hr _]. rewrite (live_set s id b' j Hr).
  specialize (Hs j). case_decide; [subst|done]. rewrite Hb in Hs. destruct (live s0 id) as [b0|]; [|done].
  unfold same_cone in *. naive_solver congruence.
Qed.

Definition confirm_inv (s0 s : GState) (toConfirm : list BlockID) (V C : gset BlockID) : Prop :=
  same_cones s0 s /\ forall id, id ∈ toConfirm -> is_Some (live s id).

Lemma confirm_step s0 seat slot s toConfirm V C id b : confirm_inv s0 s toConfirm V C -> id ∉ V -> live s id = Some b ->
  let '(further, b', toConfirm') := confirm_eval env seat slot id b toConfirm in
  confirm_inv s0 (set_block id b' s) toConfirm' ({[id]} ∪ V) (if (further : bool) then {[id]} ∪ C else C).
Proof.
  intros [Hs Hl] _ Hb. unfold confirm_eval, AddConfirmationRatifier, set_add. destruct (live_root s id b Hb) as [Hr _].
  assert (Hlive : forall b' j, j ∈ id :: toConfirm -> is_Some (live (set_block id b' s) j)).
  { intros b' j Hj. rewrite (live_set s id b' j Hr). case_decide; [done|]. apply Hl. set_solver. }
  repeat case_match; simplify_eq; (split; [by eapply same_cones_set|]); intros j Hj; apply Hlive; set_solver.
Qed.

Lemma confirm_flags_idem b : (SetConfirmed (SetConfirmed b).2).2 = (SetConfirmed b).2.
Proof. unfold SetConfirmed. destruct (confirmed b) eqn:E; cbn; by rewrite ?E. Qed.

Lemma trackConfirmation_cone mb s : cone_inv s ->
  exists s', trackConfirmationRatifierWeight env mb s = Ret s' /\ cone_inv s'.
Proof.
  intros Hcone. unfold trackConfirmationRatifierWeight. destruct (isCommitteeValidationBlock env mb) as [seat|]; [|by exists s].
  destruct (run_propagate_spec env model alive (confirm_eval env seat (Slot (ID mb))) (confirm_inv s)
    ltac:(intros s' acc V C [Hs _]; exact (ci_shaped _ (same_cones_inv s s' Hcone Hs)))
    ltac:(intros s' acc V C id HI _; exact HI) (confirm_step s seat (Slot (ID mb))) (Parents mb) s [] ∅)
    as (s1 & toConfirm & V & C & Hrun & [Hs1 Hl1] & _ & _ & _).
  { set_solver. }
  { split; [apply same_cones_refl|set_solver]. }
  rewrite Hrun. cbn [mbind outcome_bind].
  destruct (set_flags_spec SetConfirmed BlockConfirmed toConfirm s1 confirm_flags_idem Hl1) as (l & s2 & -> & _ & Hl2).
  cbn [mbind outcome_bind]. exists s2. split; [done|]. eapply same_cones_inv; [exact Hcone|].
  intros id. specialize (Hs1 id). rewrite Hl2. case_decide; [|done].
  destruct (live s id), (live s1 id) as [b1|]; try done. cbn. unfold SetConfirmed. by destruct (confirmed b1).
Qed.

Lemma ratify_all_cone ratify ids s :
  (forall mb s, cone_inv s -> exists s', ratify mb s = Ret s' /\ cone_inv s') -> cone_inv s ->
  (forall id, id ∈ ids -> alive id = true) -> exists s', ratify_all ratify ids s = Ret s' /\ cone_inv s'.
Proof.
  intros Hrat. revert s. induction ids as [|id ids IH]; intros s Hs Hal; cbn [ratify_all]; [by exists s|].
  pose proof (ci_shaped s Hs id) as Hsh. destruct (live s id) as [b|] eqn:Hb; [|rewrite Hal in Hsh; set_solver].
  destruct Hsh as (_ & _ & Hmb). destruct (live_root s id b Hb) as [_ ->]. cbn [deref mbind outcome_bind].
  rewrite Hmb. cbn [deref mbind outcome_bind]. destruct (Hrat (model id) s Hs) as (s1 & -> & Hs1). cbn [mbind outcome_bind].
  apply IH; [done|set_solver].
Qed.

(** ** The witness walk *)
Definition to_preAccept (b : Block) : bool := negb (preAccepted b) && preAccept_reached env (witnesses b).
Definition to_preConfirm (b : Block) : bool := negb (preConfirmed b) && preConfirm_reached env (witnesses b).

(** [process] decides by the thresholds alone when a child in a set implies its threshold. *)
Lemma process_spec id b acc :
  (anyChildInSet b acc.1 = true -> preAccept_reached env (witnesses b) = true) ->
  (anyChildInSet b acc.2 = true -> preConfirm_reached env (witnesses b) = true) ->
  process env id b acc = (to_preAccept b || to_preConfirm b,
    (if to_preAccept b then id :: acc.1 else acc.1, if to_preConfirm b then id :: acc.2 else acc.2)).
Proof.
  intros H1 H2. destruct acc as [pa pc]. unfold process, to_preAccept, to_preConfirm. rewrite shouldPre_reached. cbn [fst snd] in *.
  destruct (preAccept_reached env (witnesses b)), (preConfirm_reached env (witnesses b)), (anyChildInSet b pa), (anyChildInSet b pc);
    try (by specialize (H1 eq_refl)); try (by specialize (H2 eq_refl)); done.
Qed.

Section Witness.
Context (seat : SeatIndex) (vid : BlockID) (s0 : GState).
(** The state after the voting block has counted itself: the cone invariant up to the new seat at [vid]. *)
Hypothesis H0_shaped : shaped env model alive s0.
Hypothesis H0_children : forall id b c, live s0 id = Some b -> c ∈ Children b -> id ∈ par c.
Hypothesis H0_witness : forall id p b bp, live s0 id = Some b -> p ∈ par id -> live s0 p = Some bp ->
  witnesses b ⊆ {[seat]} ∪ witnesses bp /\ (id <> vid -> witnesses b ⊆ witnesses bp).

Definition witnessed (b : Block) : Block := with_witnesses ({[seat]} ∪ witnesses b) b.

(** One of the two lists: [flag] marks blocks that already passed, [reached] is its threshold. *)
Record list_inv (flag : Block -> bool) (reached : gset SeatIndex -> bool) (s : GState) (l : list BlockID) (V C : gset BlockID) : Prop := {
  li_in : forall id, id ∈ l -> id ∈ C /\ exists b, live s id = Some b /\ flag b = false /\ reached (witnesses b) = true;
  li_reached : forall id b, id ∈ V -> live s id = Some b -> reached (witnesses b) = true -> flag b = true \/ id ∈ l;
}.

Record witness_inv (s : GState) (acc : WAcc) (V C : gset BlockID) : Prop := {
  wi_shaped : shaped env model alive s;
  wi_frame : forall id, live s id = if decide (id ∈ V) then witnessed <$> live s0 id else live s0 id;
  wi_pa : list_inv preAccepted (preAccept_reached env) s acc.1 V C;
  wi_pc : list_inv preConfirmed (preConfirm_reached env) s acc.2 V C;
  wi_new : forall id b, id ∈ V -> live s0 id = Some b -> seat ∉ witnesses b -> id ∈ C;
}.

Lemma child_reached reached (flag : Block -> bool) s l V C id b :
  (forall A B, A ⊆ B -> reached A = true -> reached B = true) ->
  (forall id, live s id = if decide (id ∈ V) then witnessed <$> live s0 id else live s0 id) ->
  list_inv flag reached s l V C -> live s0 id = Some b ->
  anyChildInSet (witnessed b) l = true -> reached (witnesses (witnessed b)) = true.
Proof.
  intros Hmono Hfr [Hin _] Hb. rewrite anyChild_elem. intros (c & Hc & Hcl). change (Children (witnessed b)) with (Children b) in Hc.
  destruct (Hin c Hcl) as (_ & bc & Hbc & _ & Hr). eapply Hmono; [|exact Hr].
  pose proof (H0_children id b c Hb Hc) as Hpar. rewrite Hfr in Hbc.
  assert (exists bc0, live s0 c = Some bc0 /\ witnesses bc ⊆ {[seat]} ∪ witnesses bc0) as (bc0 & Hbc0 & Hsub).
  { destruct (decide (c ∈ V)); [|by exists bc; split; [|set_solver]].
    destruct (live s0 c) as [bc0|]; cbn in Hbc; [|done]. injection Hbc as <-. by exists bc0. }
  destruct (H0_witness c id bc0 b Hbc0 Hpar Hb) as [Hs _]. cbn. set_solver.
Qed.

(** Visiting [id] keeps a list invariant. *)
Lemma list_inv_step (flag : Block -> bool) reached s l V C id b (further : bool) :
  (forall A B, A ⊆ B -> reached A = true -> reached B = true) -> (forall b, flag (witnessed b) = flag b) ->
  list_inv flag reached s l V C -> id ∉ V -> live s id = Some b ->
  (negb (flag b) && reached (witnesses (witnessed b)) = true -> further = true) ->
  list_inv flag reached (set_block id (witnessed b) s)
    (if negb (flag (witnessed b)) && reached (witnesses (witnessed b)) then id :: l else l)
    ({[id]} ∪ V) (if further then {[id]} ∪ C else C).
Proof.
  intros Hmono Hflag [Hin Hreach] HV Hb Hfur. destruct (live_root s id b Hb) as [Hroot _].
  pose proof (fun j => live_set s id (witnessed b) j Hroot) as Hlive. rewrite Hflag.
  assert (Hwit : witnesses b ⊆ witnesses (witnessed b)) by (cbn; set_solver).
  split.
  - intros j Hj. rewrite Hlive. assert (Hcase : j ∈ l \/ (j = id /\ negb (flag b) && reached (witnesses (witnessed b)) = true)).
    { destruct (negb (flag b) && reached (witnesses (witnessed b))); [|by left]. apply elem_of_cons in Hj as [->|]; [by right|by left]. }
    destruct Hcase as [Hjl|[-> Hpa]].
    + destruct (Hin j Hjl) as (HC & bj & Hbj & Hf & Hr). split; [destruct further; set_solver|].
      case_decide; [subst j|by eauto]. rewrite Hb in Hbj. injection Hbj as <-. exists (witnessed b). rewrite Hflag.
      split_and!; try done. by eapply Hmono.
    + rewrite (Hfur Hpa). split; [set_solver|]. rewrite decide_True by done. exists (witnessed b). rewrite Hflag.
      apply andb_true_iff in Hpa as [?%negb_true_iff ?]. done.
  - intros j bj Hj. rewrite Hlive. case_decide as Hji.
    + intros [= <-] Hr. subst j. rewrite Hflag. destruct (flag b); [by left|]. right. cbn [negb andb]. rewrite Hr. set_solver.
    + intros Hbj Hr. destruct (Hreach j bj ltac:(set_solver) Hbj Hr) as [?|?]; [by left|right]. case_match; set_solver.
Qed.

Lemma witness_step s acc V C id b : witness_inv s acc V C -> id ∉ V -> live s id = Some b ->
  let '(further, b', acc') := witness_eval env seat id b acc in
  witness_inv (set_block id b' s) acc' ({[id]} ∪ V) (if (further : bool) then {[id]} ∪ C else C).
Proof.
  intros [Hsh Hfr Hpa Hpc Hnew] HV Hb. pose proof (Hfr id) as Hfid. rewrite decide_False, Hb in Hfid by done.
  unfold witness_eval, AddWitness, set_add. cbn beta iota zeta. fold (witnessed b).
  rewrite (process_spec id (witnessed b) acc).
  2: { eapply child_reached; [apply preAccept_mono|done|done|done]. }
  2: { eapply child_reached; [apply preConfirm_mono|done|done|done]. }
  set (further := bool_decide (seat ∉ witnesses b) || _). destruct (live_root s id b Hb) as [Hroot _]. split.
  - by eapply shaped_set.
  - intros j. rewrite (live_set s id (witnessed b) j Hroot), Hfr. destruct (decide (j = id)) as [->|].
    + rewrite decide_True by set_solver. by rewrite <- Hfid.
    + destruct (decide (j ∈ V)); [rewrite decide_True by set_solver|rewrite decide_False by set_solver]; done.
  - apply (list_inv_step preAccepted); try done; [apply preAccept_mono|].
    intros Hx. unfold further. change (to_preAccept (witnessed b)) with (negb (preAccepted b) && preAccept_reached env (witnesses (witnessed b))).
    rewrite Hx. by rewrite orb_true_r.
  - apply (list_inv_step preConfirmed); try done; [apply preConfirm_mono|].
    intros Hx. unfold further. change (to_preConfirm (witnessed b)) with (negb (preConfirmed b) && preConfirm_reached env (witnesses (witnessed b))).
    rewrite Hx. by rewrite !orb_true_r.
  - intros j bj Hj Hbj Hs. destruct (decide (j = id)) as [->|Hne].
    + rewrite <- Hfid in Hbj. injection Hbj as <-. unfold further. rewrite bool_decide_eq_true_2 by done. set_solver.
    + specialize (Hnew j bj ltac:(set_solver) Hbj Hs). destruct further; set_solver.
Qed.

Lemma witness_dead s acc V C id : witness_inv s acc V C -> alive id = false -> witness_inv s acc ({[id]} ∪ V) C.
Proof.
  intros [Hsh Hfr [Ha1 Ha2] [Hc1 Hc2] Hnew] Hdead.
  assert (Hno : forall s b, shaped env model alive s -> live s id = Some b -> False).
  { intros s' b Hs Hb. specialize (Hs id). rewrite Hb in Hs. destruct Hs; congruence. }
  split; try done.
  - intros j. rewrite Hfr. destruct (decide (j = id)) as [->|].
    + destruct (live s0 id) eqn:Hb; [exfalso; by eapply (Hno s0)|]. by repeat case_decide.
    + destruct (decide (j ∈ V)); [rewrite decide_True by set_solver|rewrite decide_False by set_solver]; done.
  - split; [done|]. intros j b [->%elem_of_singleton|Hj]%elem_of_union Hb; [exfalso; by eapply (Hno s)|by eapply Ha2].
  - split; [done|]. intros j b [->%elem_of_singleton|Hj]%elem_of_union Hb; [exfalso; by eapply (Hno s)|by eapply Hc2].
  - intros j b [->%elem_of_singleton|Hj]%elem_of_union Hb; [exfalso; by eapply (Hno s0)|by eapply Hnew].
Qed.

(** When the walk is over, the witnesses are monotone again. *)
Lemma witness_closed s acc V C id p b bp :
  witness_inv s acc V C -> vid ∈ C -> (forall id p, id ∈ C -> p ∈ par id -> p ∈ V) ->
  live s id = Some b -> p ∈ par id -> live s p = Some bp -> witnesses b ⊆ witnesses bp.
Proof.
  intros [Hsh Hfr _ _ Hnew] Hvid Hcl Hb Hp Hbp x Hx. rewrite Hfr in Hb, Hbp.
  assert (exists b0, live s0 id = Some b0 /\ witnesses b = (if decide (id ∈ V) then {[seat]} ∪ witnesses b0 else witnesses b0)) as (b0 & Hb0 & Ewb).
  { destruct (decide (id ∈ V)); [|by exists b]. destruct (live s0 id) as [b0|]; cbn in Hb; [|done]. injection Hb as <-. by exists b0. }
  assert (exists bp0, live s0 p = Some bp0 /\ witnesses bp = (if decide (p ∈ V) then {[seat]} ∪ witnesses bp0 else witnesses bp0)) as (bp0 & Hbp0 & Ewp).
  { destruct (decide (p ∈ V)); [|by exists bp]. destruct (live s0 p) as [bp0|]; cbn in Hbp; [|done]. injection Hbp as <-. by exists bp0. }
  destruct (H0_witness id p b0 bp0 Hb0 Hp Hbp0) as [Hsub Hsub']. rewrite Ewp. rewrite Ewb in Hx.
  assert (Hx0 : x = seat \/ x ∈ witnesses b0).
  { destruct (decide (id ∈ V)); [|by right]. apply elem_of_union in Hx as [->%elem_of_singleton|]; [by left|by right]. }
  destruct (decide (p ∈ V)) as [HpV|HpV].
  { destruct Hx0 as [->|Hx0]; [by apply elem_of_union_l, elem_of_singleton|by apply Hsub]. }
  assert (HidC : id ∉ C) by (intros ?; by eapply HpV, Hcl).
  assert (Hne : id <> vid) by (by intros ->). apply (Hsub' Hne).
  destruct (decide (id ∈ V)) as [HV|]; [|done]. destruct Hx0 as [->|Hx0]; [|done].
  destruct (decide (seat ∈ witnesses b0)) as [Hs|Hs]; [done|]. exfalso. by apply HidC, (Hnew id b0).
Qed.
End Witness.

Lemma preAccepted_flags_idem b : (SetPreAccepted (SetPreAccepted b).2).2 = (SetPreAccepted b).2.
Proof. unfold SetPreAccepted. destruct (preAccepted b) eqn:E; cbn; by rewrite ?E. Qed.
Lemma preConfirmed_flags_idem b : (SetPreConfirmed (SetPreConfirmed b).2).2 = (SetPreConfirmed b).2.
Proof. unfold SetPreConfirmed. destruct (preConfirmed b) eqn:E; cbn; by rewrite ?E. Qed.

(** The fields other than the witnesses and the two flags. *)
Definition same_rest (b b' : Block) : Prop :=
  booked b' = booked b /\ modelBlock b' = modelBlock b /\ Children b' = Children b /\
  acceptanceRatifiers b' = acceptanceRatifiers b /\ accepted b' = accepted b.

(** Blocks after the flags were set, read back to the blocks [s1] of the walk's end. *)
Lemma flags_result s1 s3 (l1 l2 : list BlockID) :
  (forall id, live s3 id = if decide (id ∈ l2) then (fun b => (SetPreConfirmed b).2) <$>
     (if decide (id ∈ l1) then (fun b => (SetPreAccepted b).2) <$> live s1 id else live s1 id)
     else (if decide (id ∈ l1) then (fun b => (SetPreAccepted b).2) <$> live s1 id else live s1 id)) ->
  forall id b3, live s3 id = Some b3 -> exists b1, live s1 id = Some b1 /\ same_rest b1 b3 /\ witnesses b3 = witnesses b1 /\
    preAccepted b3 = (bool_decide (id ∈ l1) || preAccepted b1) /\ preConfirmed b3 = (bool_decide (id ∈ l2) || preConfirmed b1).
Proof.
  intros Hl id b3. rewrite Hl. unfold same_rest, SetPreAccepted, SetPreConfirmed.
  destruct (live s1 id) as [b1|]; [|by repeat case_decide].
  intros Hb3. exists b1. split; [done|].
  destruct (decide (id ∈ l1)), (decide (id ∈ l2)), (preAccepted b1) eqn:Epa, (preConfirmed b1) eqn:Epc; cbn in Hb3;
    repeat (rewrite ?Epa, ?Epc in Hb3; cbn in Hb3); injection Hb3 as <-; cbn;
    rewrite ?Epa, ?Epc; split_and!; try done; by case_bool_decide.
Qed.

(** After the witness walk and the flags, the cone invariant holds again. *)
Lemma witness_result s bv vid seat s1 s3 l1 l2 V C :
  cone_inv s -> live s vid = Some bv -> 
  witness_inv seat (set_block vid (witnessed seat bv) s) s1 (l1, l2) V C -> vid ∈ C ->
  (forall id p, id ∈ C -> p ∈ par id -> p ∈ V) ->
  (forall id p b bp, live s1 id = Some b -> p ∈ par id -> live s1 p = Some bp -> witnesses b ⊆ witnesses bp) ->
  (forall id b3, live s3 id = Some b3 -> exists b1, live s1 id = Some b1 /\ same_rest b1 b3 /\ witnesses b3 = witnesses b1 /\
    preAccepted b3 = (bool_decide (id ∈ l1) || preAccepted b1) /\ preConfirmed b3 = (bool_decide (id ∈ l2) || preConfirmed b1)) ->
  (forall id, is_Some (live s3 id) <-> is_Some (live s1 id)) ->
  cone_inv s3.
Proof.
  intros Hcone Hbv [Hsh Hfr [Ha1 Ha2] [Hc1 Hc2] Hnew] Hvid Hcl Hwit H3 Hsome. destruct (live_root s vid bv Hbv) as [Hroot _].
  assert (H1 : forall id b1, live s1 id = Some b1 -> exists b, live s id = Some b /\ same_rest b b1 /\
    preAccepted b1 = preAccepted b /\ preConfirmed b1 = preConfirmed b).
  { intros id b1. rewrite Hfr, (live_set s vid _ id Hroot). destruct (decide (id = vid)) as [->|].
    - intros Hb1. exists bv. split; [done|]. destruct (decide (vid ∈ V)); cbn in Hb1; injection Hb1 as <-; done.
    - destruct (live s id) as [b|]; [|by case_decide]. intros Hb1. exists b. split; [done|].
      destruct (decide (id ∈ V)); cbn in Hb1; injection Hb1 as <-; done. }
  assert (Hback : forall id b3, live s3 id = Some b3 -> exists b b1, live s id = Some b /\ live s1 id = Some b1 /\ same_rest b b3 /\
    witnesses b3 = witnesses b1 /\ preAccepted b1 = preAccepted b /\ preConfirmed b1 = preConfirmed b /\
    preAccepted b3 = (bool_decide (id ∈ l1) || preAccepted b) /\ preConfirmed b3 = (bool_decide (id ∈ l2) || preConfirmed b)).
  { intros id b3 (b1 & Hb1 & Hr1 & Hw & Hpa & Hpc)%H3. destruct (H1 id b1 Hb1) as (b & Hb & Hr & Epa & Epc).
    exists b, b1. rewrite Epa in Hpa. rewrite Epc in Hpc. split_and!; try done; unfold same_rest in *; naive_solver congruence. }
  assert (Hflag : forall (l : list BlockID) (flag : Block -> bool) (reached : gset SeatIndex -> bool),
    (forall A B, A ⊆ B -> reached A = true -> reached B = true) ->
    (forall id, id ∈ l -> id ∈ C /\ exists b, live s1 id = Some b /\ flag b = false /\ reached (witnesses b) = true) ->
    (forall id b, id ∈ V -> live s1 id = Some b -> reached (witnesses b) = true -> flag b = true \/ id ∈ l) ->
    forall id p bp1, id ∈ l -> p ∈ par id -> live s1 p = Some bp1 -> flag bp1 = true \/ p ∈ l).
  { intros l flag reached Hmono Hl1 Hl2 id p bp1 Hid Hp Hbp1. destruct (Hl1 id Hid) as (HC & b1 & Hb1 & _ & Hr).
    apply Hl2; [by eapply Hcl|done|]. eapply Hmono; [by eapply (Hwit id p b1 bp1)|done]. }
  split.
  - intros id. pose proof (ci_shaped s Hcone id) as Hs. specialize (Hsome id). destruct (live s3 id) as [b3|] eqn:Hb3.
    + destruct (Hback id b3 Hb3) as (b & b1 & Hb & _ & (-> & -> & _) & _). by rewrite Hb in Hs.
    + specialize (Hsh id). destruct (live s1 id); [|done]. destruct Hsome as [_ Hx]. by destruct (Hx ltac:(eauto)).
  - intros id b3 c (b & b1 & Hb & _ & (_ & _ & -> & _) & _)%Hback. by eapply ci_children.
  - intros id p b3 bp3 (b & b1 & Hb & Hb1 & _ & -> & _)%Hback Hp (bp & bp1 & Hbp & Hbp1 & _ & -> & _)%Hback. by eapply Hwit.
  - intros id p b3 bp3 (b & b1 & Hb & Hb1 & _ & _ & Eb & _ & -> & _)%Hback Hp (bp & bp1 & Hbp & Hbp1 & _ & _ & Ebp & _ & -> & _)%Hback.
    rewrite !orb_true_iff. intros [Hid%bool_decide_eq_true|Hpa]; [|right; by eapply (ci_preAccepted s Hcone id p)].
    destruct (Hflag l1 preAccepted (preAccept_reached env) (preAccept_mono env) Ha1 Ha2 id p bp1 Hid Hp Hbp1); [right; congruence|left; by apply bool_decide_eq_true].
  - intros id p b3 bp3 (b & b1 & Hb & Hb1 & _ & _ & _ & Eb & _ & ->)%Hback Hp (bp & bp1 & Hbp & Hbp1 & _ & _ & _ & Ebp & _ & ->)%Hback.
    rewrite !orb_true_iff. intros [Hid%bool_decide_eq_true|Hpa]; [|right; by eapply (ci_preConfirmed s Hcone id p)].
    destruct (Hflag l2 preConfirmed (preConfirm_reached env) (preConfirm_mono env) Hc1 Hc2 id p bp1 Hid Hp Hbp1); [right; congruence|left; by apply bool_decide_eq_true].
  - intros id p b3 bp3 (b & b1 & Hb & _ & (_ & _ & _ & -> & _) & _)%Hback Hp (bp & bp1 & Hbp & _ & (_ & _ & _ & -> & ->) & _)%Hback. by eapply ci_ratifier.
  - intros id p b3 bp3 (b & b1 & Hb & _ & (_ & _ & _ & _ & ->) & _)%Hback Hp (bp & bp1 & Hbp & _ & (_ & _ & _ & _ & ->) & _)%Hback. by eapply ci_accepted.
Qed.

(** The voting block counts itself: the cone invariant up to the new seat. *)
Lemma counted_state s vid bv seat : cone_inv s -> live s vid = Some bv ->
  let s0 := set_block vid (witnessed seat bv) s in
  shaped env model alive s0 /\
  (forall id b c, live s0 id = Some b -> c ∈ Children b -> id ∈ par c) /\
  (forall id p b bp, live s0 id = Some b -> p ∈ par id -> live s0 p = Some bp ->
     witnesses b ⊆ {[seat]} ∪ witnesses bp /\ (id <> vid -> witnesses b ⊆ witnesses bp)).
Proof.
  intros Hcone Hbv s0. destruct (live_root s vid bv Hbv) as [Hroot _].
  assert (Hl : forall id b0, live s0 id = Some b0 -> exists b, live s id = Some b /\ Children b0 = Children b /\
    witnesses b ⊆ witnesses b0 /\ witnesses b0 ⊆ {[seat]} ∪ witnesses b /\ (id <> vid -> witnesses b0 = witnesses b)).
  { intros id b0. unfold s0. rewrite (live_set s vid _ id Hroot). case_decide as Hid.
    - intros [= <-]. subst id. exists bv. split; [done|]. split; [done|]. cbn. split_and!; set_solver.
    - intros Hb. exists b0. split_and!; try done. set_solver. }
  split_and!.
  - eapply shaped_set; [apply Hcone|done|done|done].
  - intros id b c (b0 & Hb0 & -> & _)%Hl. by eapply ci_children.
  - intros id p b bp (b0 & Hb0 & _ & _ & Hw & Hwe)%Hl Hp (bp0 & Hbp0 & _ & Hwp & _)%Hl.
    pose proof (ci_witness s Hcone id p b0 bp0 Hb0 Hp Hbp0) as Hsub. split; [|intros Hne; rewrite (Hwe Hne)]; set_solver.
Qed.

Lemma counted_acc seat vid bv s0 (added : bool) : live s0 vid = Some (witnessed seat bv) -> shaped env model alive s0 ->
  witness_inv seat s0 s0 (if added then (process env vid (witnessed seat bv) ([], [])).2 else ([], [])) ∅ {[vid]}.
Proof.
  intros Hv Hsh. assert (Hnil : forall b, anyChildInSet b [] = true -> False).
  { intros b (c & _ & Hc)%anyChild_elem. set_solver. }
  assert (Hl : forall flag reached (l : list BlockID),
    (l = [] \/ (l = [vid] /\ negb (flag (witnessed seat bv)) && reached (witnesses (witnessed seat bv)) = true)) ->
    list_inv flag reached s0 l ∅ {[vid]}).
  { intros flag reached l Hl. split; [|set_solver]. intros id Hid. destruct Hl as [->|[-> Hx]]; [set_solver|].
    apply list_elem_of_singleton in Hid as ->. split; [set_solver|]. exists (witnessed seat bv).
    apply andb_true_iff in Hx as [?%negb_true_iff ?]. done. }
  split; [done| | | |set_solver].
  - intros id. by rewrite decide_False by set_solver.
  - apply Hl. destruct added; [|by left]. rewrite process_spec by (intros ?%Hnil; done). cbn. unfold to_preAccept.
    case_match; [by right|by left].
  - apply Hl. destruct added; [|by left]. rewrite process_spec by (intros ?%Hnil; done). cbn. unfold to_preConfirm.
    case_match; [by right|by left].
Qed.

Lemma TrackWitnessWeight_cone s mb b : cone_inv s -> live s (ID mb) = Some b -> modelBlock b = Some mb ->
  exists s', TrackWitnessWeight env mb s = Ret s' /\ cone_inv s'.
Proof.
  intros Hcone Hb Hmb. unfold TrackWitnessWeight. destruct (isCommitteeValidationBlock env mb) as [seat|]; [|by exists s].
  destruct (live_root s (ID mb) b Hb) as [Hroot ->]. cbn [deref mbind outcome_bind]. unfold AddWitness, set_add. cbn beta iota zeta.
  change (with_witnesses ({[seat]} ∪ witnesses b) b) with (witnessed seat b).
  set (vid := ID mb) in *. set (s0 := set_block vid (witnessed seat b) s). set (added := bool_decide (seat ∉ witnesses b)).
  destruct (counted_state s vid b seat Hcone Hb) as (Hsh0 & Hch0 & Hw0). fold s0 in Hsh0, Hch0, Hw0.
  assert (Hv0 : live s0 vid = Some (witnessed seat b)) by (unfold s0; by rewrite (live_set s vid _ vid Hroot), decide_True).
  assert (Hpar : Parents mb = par vid).
  { pose proof (ci_shaped s Hcone vid) as Hs. rewrite Hb in Hs. destruct Hs as (_ & _ & Hmb'). unfold parents_in. congruence. }
  pose proof (counted_acc seat vid b s0 added Hv0 Hsh0) as HI0.
  set (acc := if added then _ else _) in *.
  destruct (run_propagate_spec env model alive (witness_eval env seat) (witness_inv seat s0)
    (wi_shaped seat s0) ltac:(by eapply witness_dead) ltac:(by eapply witness_step) (Parents mb) s0 acc {[vid]})
    as (s1 & [l1 l2] & V & C & Hrun & HI & HC & _ & Hcl).
  { intros id p ->%elem_of_singleton. by rewrite Hpar. }
  { done. }
  rewrite Hrun. cbn [mbind outcome_bind]. assert (Hvid : vid ∈ C) by set_solver.
  pose proof (wi_pa _ _ _ _ _ _ HI) as [Ha1 _]. pose proof (wi_pc _ _ _ _ _ _ HI) as [Hc1 _]. cbn [fst snd] in *.
  destruct (set_flags_spec SetPreAccepted BlockPreAccepted l1 s1 preAccepted_flags_idem) as (r1 & s2 & -> & Hr1 & Hl2).
  { intros id Hid. destruct (Ha1 id Hid) as (_ & b1 & Hb1 & _). by eauto. }
  cbn [mbind outcome_bind].
  destruct (set_flags_spec SetPreConfirmed BlockPreConfirmed l2 s2 preConfirmed_flags_idem) as (r2 & s3 & -> & Hr2 & Hl3).
  { intros id Hid. destruct (Hc1 id Hid) as (_ & b1 & Hb1 & _). rewrite Hl2, Hb1. by case_decide. }
  cbn [mbind outcome_bind].
  assert (Hl : forall id, live s3 id = if decide (id ∈ l2) then (fun b => (SetPreConfirmed b).2) <$>
     (if decide (id ∈ l1) then (fun b => (SetPreAccepted b).2) <$> live s1 id else live s1 id)
     else (if decide (id ∈ l1) then (fun b => (SetPreAccepted b).2) <$> live s1 id else live s1 id)).
  { intros id. by rewrite Hl3, Hl2. }
  assert (Hc3 : cone_inv s3).
  { eapply (witness_result s b vid seat s1 s3 l1 l2 V C); try done.
    - intros id p b1 bp1. by eapply witness_closed.
    - by apply flags_result.
    - intros id. rewrite Hl. destruct (live s1 id); repeat case_decide; cbn; by rewrite ?is_Some_alt. }
  assert (Halive : forall id b1, live s1 id = Some b1 -> alive id = true).
  { intros id b1 Hb1. pose proof (wi_shaped _ _ _ _ _ _ HI id) as Hs. rewrite Hb1 in Hs. by destruct Hs. }
  destruct (ratify_all_cone (trackAcceptanceRatifierWeight env) r1 s3 trackAcceptance_cone Hc3) as (s4 & -> & Hc4).
  { intros id Hid. destruct (Ha1 id (Hr1 id Hid)) as (_ & b1 & Hb1 & _). by eapply Halive. }
  cbn [mbind outcome_bind].
  apply (ratify_all_cone (trackConfirmationRatifierWeight env) r2 s4 trackConfirmation_cone Hc4).
  intros id Hid. destruct (Hc1 id (Hr2 id Hid)) as (_ & b1 & Hb1 & _). by eapply Halive.
Qed.
End Cone.

(** ** Runs *)

(** Voting blocks are tracked one after the other; the committee may change in between. *)
Fixpoint track_all {W} `{!Walker BlockID W} (votes : list (GEnv * ModelBlock)) (s : GState) : outcome GState :=
  match votes with
  | [] => Ret s
  | (env, mb) :: votes => s ← TrackWitnessWeight env mb s; track_all votes s
  end.

(** A booked block with its data and no votes yet. *)
Definition fresh_block (id : BlockID) (b : Block) : Prop :=
  booked b = true /\ (exists mb, modelBlock b = Some mb /\ ID mb = id) /\ witnesses b = ∅ /\ acceptanceRatifiers b = ∅ /\
  preAccepted b = false /\ preConfirmed b = false /\ accepted b = false.

(** A cache of fresh blocks in which child links agree with parents. *)
Record fresh_cache (isRoot : BlockID -> bool) (s : GState) : Prop := {
  fc_fresh : forall id b, isRoot id = false -> gblocks s !! id = Some b -> fresh_block id b;
  fc_children : forall id b c, isRoot id = false -> gblocks s !! id = Some b -> c ∈ Children b ->
    isRoot c = false /\ exists bc, gblocks s !! c = Some bc /\ id ∈ parents_of bc;
}.

(** Payloads and liveness read off a state; the payload of an ID that is not cached does not matter. *)
Definition no_model : ModelBlock := mkModelBlock emptyBlockID 0 0 (mkCommitmentID 0 0) Basic [] 0.
Definition model_in (s : GState) (id : BlockID) : ModelBlock := default no_model (gblocks s !! id ≫= modelBlock).
Definition alive_in (isRoot : BlockID -> bool) (s : GState) (id : BlockID) : bool :=
  negb (isRoot id) && bool_decide (is_Some (gblocks s !! id)).

Lemma fresh_cone env s : fresh_cache (isRoot env) s -> cone_inv env (model_in s) (alive_in (isRoot env) s) s.
Proof.
  intros [Hf Hc].
  assert (Hl : forall id b, live env s id = Some b -> isRoot env id = false /\ gblocks s !! id = Some b).
  { intros id b. unfold live. by destruct (isRoot env id). }
  split.
  - intros id. unfold live, alive_in, model_in. destruct (isRoot env id) eqn:Hr; [done|].
    destruct (gblocks s !! id) as [b|] eqn:Hb; [|done]. destruct (Hf id b Hr Hb) as (Hbk & (mb & Hmb & _) & _).
    split_and!; try done. cbn. by rewrite Hmb.
  - intros id b c [Hr Hb]%Hl Hch. destruct (Hc id b c Hr Hb Hch) as (Hrc & bc & Hbc & Hin).
    destruct (Hf c bc Hrc Hbc) as (_ & (mb & Hmb & _) & _). unfold parents_in, model_in. rewrite Hbc. cbn. rewrite Hmb.
    unfold parents_of in Hin. by rewrite Hmb in Hin.
  - intros id p b bp [Hr Hb]%Hl _ [Hrp Hbp]%Hl. destruct (Hf id b Hr Hb) as (_ & _ & -> & _). set_solver.
  - intros id p b bp [Hr Hb]%Hl _ [Hrp Hbp]%Hl. destruct (Hf id b Hr Hb) as (_ & _ & _ & _ & -> & _). done.
  - intros id p b bp [Hr Hb]%Hl _ [Hrp Hbp]%Hl. destruct (Hf id b Hr Hb) as (_ & _ & _ & _ & _ & -> & _). done.
  - intros id p b bp [Hr Hb]%Hl _ [Hrp Hbp]%Hl _. destruct (Hf id b Hr Hb) as (_ & _ & _ & -> & _). set_solver.
  - intros id p b bp [Hr Hb]%Hl _ [Hrp Hbp]%Hl. destruct (Hf id b Hr Hb) as (_ & _ & _ & _ & _ & _ & ->). done.
Qed.

(** The invariant depends on the environment only through the root blocks. *)
Lemma cone_inv_env env env' model alive s : isRoot env' = isRoot env -> cone_inv env model alive s -> cone_inv env' model alive s.
Proof.
  intros Hr Hc. assert (Hl : forall id, live env' s id = live env s id) by (intros id; unfold live; by rewrite Hr).
  destruct Hc as [H1 H2 H3 H4 H5 H6 H7].
  split; [intros id; rewrite Hl; apply H1|intros *; rewrite !Hl; eauto..].
Qed.

Lemma track_all_cone {W} `{!Walker BlockID W} `{!WalkerSpec BlockID W} env0 model alive votes s : cone_inv env0 model alive s ->
  (forall env mb, (env, mb) ∈ votes -> isRoot env = isRoot env0 /\ alive (ID mb) = true /\ model (ID mb) = mb) ->
  exists s', track_all votes s = Ret s' /\ cone_inv env0 model alive s'.
Proof.
  revert s. induction votes as [|[env mb] votes IH]; intros s Hc Hv; cbn [track_all]; [by exists s|].
  destruct (Hv env mb) as (Hr & Hal & Hmb); [set_solver|].
  assert (Hce : cone_inv env model alive s) by by eapply cone_inv_env.
  pose proof (ci_shaped _ _ _ _ Hce (ID mb)) as Hsh. destruct (live env s (ID mb)) as [b|] eqn:Hb; [|congruence].
  destruct Hsh as (_ & _ & Hmbb). rewrite Hmb in Hmbb.
  destruct (TrackWitnessWeight_cone env model alive s mb b Hce Hb Hmbb) as (s1 & -> & Hc1). cbn [mbind outcome_bind].
  apply IH; [by eapply (cone_inv_env env)|]. intros env' mb' Hin. apply Hv. set_solver.
Qed.

(** C36 Acceptance is monotone over the past cone.  From a cache of booked blocks
    without votes, tracking any sequence of booked voting blocks, under any
    committee and online committee sizes, terminates without panic, and in the
    resulting state every cached non-root parent of a block that is pre-accepted,
    pre-confirmed or accepted is itself pre-accepted, pre-confirmed or accepted, and has at least
    the block's witnesses. *)
Theorem acceptance_monotone {W} `{!Walker BlockID W} `{!WalkerSpec BlockID W} isRoot0 s (votes : list (GEnv * ModelBlock)) :
  fresh_cache isRoot0 s ->
  (forall env mb, (env, mb) ∈ votes -> isRoot env = isRoot0 /\ isRoot0 (ID mb) = false /\
     exists b, gblocks s !! ID mb = Some b /\ modelBlock b = Some mb) ->
  exists s', track_all votes s = Ret s' /\
    forall id p b bp, isRoot0 id = false -> gblocks s' !! id = Some b -> p ∈ parents_of b ->
      isRoot0 p = false -> gblocks s' !! p = Some bp ->
      (accepted b = true -> accepted bp = true) /\ (preAccepted b = true -> preAccepted bp = true) /\
      (preConfirmed b = true -> preConfirmed bp = true) /\ witnesses b ⊆ witnesses bp.
Proof.
  intros Hf Hv. set (env0 := mkGEnv 0 0 (fun _ _ => None) isRoot0 fzero fzero 0).
  destruct (track_all_cone env0 (model_in s) (alive_in isRoot0 s) votes s) as (s' & Hrun & Hc).
  - by apply (fresh_cone env0).
  - intros env mb Hin. destruct (Hv env mb Hin) as (Hr & Hid & b & Hb & Hmb). split; [done|].
    unfold alive_in, model_in. by rewrite Hid, Hb, bool_decide_true by eauto; cbn; rewrite Hmb.
  - exists s'. split; [done|]. intros id p b bp Hr Hb Hp Hrp Hbp.
    assert (Hlb : live env0 s' id = Some b) by (unfold live; cbn; by rewrite Hr).
    assert (Hlp : live env0 s' p = Some bp) by (unfold live; cbn; by rewrite Hrp).
    assert (Hpar : p ∈ parents_in (model_in s) id).
    { pose proof (ci_shaped _ _ _ _ Hc id) as Hsh. rewrite Hlb in Hsh. destruct Hsh as (_ & _ & Hmb).
      unfold parents_of in Hp. by rewrite Hmb in Hp. }
    split_and!; [eapply ci_accepted|eapply ci_preAccepted|eapply ci_preConfirmed|eapply ci_witness]; done.
Qed.

(** A chain of six validation blocks issued in turn by a committee of three. *)
Definition chain_id (n : Z) : BlockID := mkBlockID n n.
Definition chain_model (n : Z) : ModelBlock :=
  mkModelBlock (chain_id n) n 0 (mkCommitmentID 0 0) Validation [(StrongParentType, chain_id (n - 1))] 1.
Definition chain_block (n : Z) (last : bool) : Block :=
  (SetBooked (with_children (if last then [] else [chain_id (n + 1)]) [] [] (NewBlock (chain_model n)))).2.
Definition chain_state : GState := mkGState (list_to_map
  [(chain_id 1, chain_block 1 false); (chain_id 2, chain_block 2 false); (chain_id 3, chain_block 3 false);
   (chain_id 4, chain_block 4 false); (chain_id 5, chain_block 5 false); (chain_id 6, chain_block 6 true)]) [].
Definition chain_root (id : BlockID) : bool := bool_decide (id = chain_id 0).
Definition chain_env : GEnv :=
  mkGEnv 3 3 (fun _ id => Some (id mod 3)) chain_root SuperMajority SuperMajority 10.
Definition chain_votes : list (GEnv * ModelBlock) := (fun n => (chain_env, chain_model n)) <$> [1; 2; 3; 4; 5; 6].

Lemma chain_fresh : fresh_cache chain_root chain_state.
Proof.
  split; intros id b.
  - intros _ Hb%elem_of_list_to_map_2. repeat (apply elem_of_cons in Hb as [[= -> ->]|Hb]; [repeat split; by eexists|]). set_solver.
  - intros c _ Hb%elem_of_list_to_map_2 Hc.
    repeat (apply elem_of_cons in Hb as [[= -> ->]|Hb];
      [vm_compute in Hc; first [apply list_elem_of_singleton in Hc as -> | by apply not_elem_of_nil in Hc];
       (split; [by vm_compute|]); eexists; (split; [by vm_compute|]); apply list_elem_of_In; cbn; by left|]). set_solver.
Qed.

Lemma acceptance_monotone_witness :
  exists s', track_all (W := fifo BlockID) chain_votes chain_state = Ret s' /\
    forall id p b bp, chain_root id = false -> gblocks s' !! id = Some b -> p ∈ parents_of b ->
      chain_root p = false -> gblocks s' !! p = Some bp ->
      (accepted b = true -> accepted bp = true) /\ (preAccepted b = true -> preAccepted bp = true) /\
      (preConfirmed b = true -> preConfirmed bp = true) /\ witnesses b ⊆ witnesses bp.
Proof.
  apply (acceptance_monotone (W := fifo BlockID) chain_root chain_state chain_votes).
  - apply chain_fresh.
  - intros env mb (n & [= -> ->] & Hn)%list_elem_of_fmap. split; [reflexivity|].
    repeat (apply elem_of_cons in Hn as [->|Hn]; [split; [reflexivity|]; eexists; split; vm_compute; reflexivity|]). set_solver.
Defined.

(** The run pre-accepts the first four blocks, and accepts and confirms the first one. *)
Example chain_accepts :
  match track_all (W := fifo BlockID) chain_votes chain_state with
  | Ret s => (fun n => match gblocks s !! chain_id n with
                       | Some b => (preAccepted b, accepted b, confirmed b) | None => (false, false, false) end) <$> [1; 2; 3; 4; 5; 6]
  | _ => []
  end = [(true, true, true); (true, false, false); (true, false, false); (true, false, false);
         (false, false, false); (false, false, false)].
Proof. vm_compute. reflexivity. Qed.
