(* ===== verification/Accounts.v ===== *)
(** * Account data and account diffs (engine/accounts, pkg/model)

    [AccountData] is what the account tree stores per account, [AccountDiff] the
    change of an account within a slot.  iota.go's [BlockIssuerKeys], a sorted
    slice without duplicates, is the set of its keys; IDs and hashes are byte
    arrays, for which integers stand.  Option constructors ([WithCredits], ...)
    are the record updates [with_<field>]. *)
From S2P Require Import Prelude Block.

Abbreviation OutputID := Z.
Definition EmptyOutputID : OutputID := 0.

(** [iotago.BlockIssuerKey]: the two kinds of keys the code tells apart. *)
Inductive BlockIssuerKey :=
| Ed25519PublicKeyBlockIssuerKey (publicKey : Z)
| Ed25519PublicKeyHashBlockIssuerKey (publicKeyHash : Z).
#[export] Instance BlockIssuerKey_eq_dec : EqDecision BlockIssuerKey.
Proof. solve_decision. Defined.
#[export] Instance BlockIssuerKey_countable : Countable BlockIssuerKey :=
  inj_countable' (fun k => match k with
                           | Ed25519PublicKeyBlockIssuerKey x => inl x
                           | Ed25519PublicKeyHashBlockIssuerKey x => inr x end)
    (fun s => match s with
              | inl x => Ed25519PublicKeyBlockIssuerKey x
              | inr x => Ed25519PublicKeyHashBlockIssuerKey x end) ltac:(by intros []).

Record VersionAndHash := mkVersionAndHash { Version : Z; Hash : Z }.
#[export] Instance VersionAndHash_eq_dec : EqDecision VersionAndHash.
Proof. solve_decision. Defined.
Definition noVersionAndHash : VersionAndHash := mkVersionAndHash 0 0.

(** ** Block issuance credits (credits.go) *)
Record BlockIssuanceCredits := mkCredits { Value : Z; UpdateTime : SlotIndex }.
#[export] Instance BlockIssuanceCredits_eq_dec : EqDecision BlockIssuanceCredits.
Proof. solve_decision. Defined.

Definition NewBlockIssuanceCredits (value : Z) (updateTime : SlotIndex) : BlockIssuanceCredits := mkCredits value updateTime.

(** [Update(change, updateTime)]: the sum of two int64s wraps around. *)
Definition UpdateCredits (change : Z) (updateTime : SlotIndex) (c : BlockIssuanceCredits) : BlockIssuanceCredits :=
  mkCredits (i64 (Value c + change)) updateTime.

(** ** Account data (accounts.go) *)
Record AccountData := mkAccountData {
  AccID : AccountID;
  Credits : BlockIssuanceCredits;
  ExpirySlot : SlotIndex;
  AccOutputID : OutputID;
  BlockIssuerKeys : gset BlockIssuerKey;
  ValidatorStake : Z;
  DelegationStake : Z;
  FixedCost : Z;
  StakeEndEpoch : Z;
  LatestSupportedProtocolVersionAndHash : VersionAndHash;
}.
#[export] Instance AccountData_eq_dec : EqDecision AccountData.
Proof. solve_decision. Defined.

Definition NewAccountData (id : AccountID) : AccountData :=
  mkAccountData id (mkCredits 0 0) 0 EmptyOutputID ∅ 0 0 0 0 noVersionAndHash.

Definition WithCredits (c : BlockIssuanceCredits) (a : AccountData) : AccountData :=
  mkAccountData (AccID a) c (ExpirySlot a) (AccOutputID a) (BlockIssuerKeys a) (ValidatorStake a) (DelegationStake a)
    (FixedCost a) (StakeEndEpoch a) (LatestSupportedProtocolVersionAndHash a).
Definition WithExpirySlot (s : SlotIndex) (a : AccountData) : AccountData :=
  mkAccountData (AccID a) (Credits a) s (AccOutputID a) (BlockIssuerKeys a) (ValidatorStake a) (DelegationStake a)
    (FixedCost a) (StakeEndEpoch a) (LatestSupportedProtocolVersionAndHash a).
Definition WithOutputID (o : OutputID) (a : AccountData) : AccountData :=
  mkAccountData (AccID a) (Credits a) (ExpirySlot a) o (BlockIssuerKeys a) (ValidatorStake a) (DelegationStake a)
    (FixedCost a) (StakeEndEpoch a) (LatestSupportedProtocolVersionAndHash a).
Definition with_keys (k : gset BlockIssuerKey) (a : AccountData) : AccountData :=
  mkAccountData (AccID a) (Credits a) (ExpirySlot a) (AccOutputID a) k (ValidatorStake a) (DelegationStake a)
    (FixedCost a) (StakeEndEpoch a) (LatestSupportedProtocolVersionAndHash a).
Definition WithValidatorStake (v : Z) (a : AccountData) : AccountData :=
  mkAccountData (AccID a) (Credits a) (ExpirySlot a) (AccOutputID a) (BlockIssuerKeys a) v (DelegationStake a)
    (FixedCost a) (StakeEndEpoch a) (LatestSupportedProtocolVersionAndHash a).
Definition WithDelegationStake (v : Z) (a : AccountData) : AccountData :=
  mkAccountData (AccID a) (Credits a) (ExpirySlot a) (AccOutputID a) (BlockIssuerKeys a) (ValidatorStake a) v
    (FixedCost a) (StakeEndEpoch a) (LatestSupportedProtocolVersionAndHash a).
Definition WithFixedCost (v : Z) (a : AccountData) : AccountData :=
  mkAccountData (AccID a) (Credits a) (ExpirySlot a) (AccOutputID a) (BlockIssuerKeys a) (ValidatorStake a) (DelegationStake a)
    v (StakeEndEpoch a) (LatestSupportedProtocolVersionAndHash a).
Definition WithStakeEndEpoch (v : Z) (a : AccountData) : AccountData :=
  mkAccountData (AccID a) (Credits a) (ExpirySlot a) (AccOutputID a) (BlockIssuerKeys a) (ValidatorStake a) (DelegationStake a)
    (FixedCost a) v (LatestSupportedProtocolVersionAndHash a).
Definition WithLatestSupportedProtocolVersion (v : VersionAndHash) (a : AccountData) : AccountData :=
  mkAccountData (AccID a) (Credits a) (ExpirySlot a) (AccOutputID a) (BlockIssuerKeys a) (ValidatorStake a) (DelegationStake a)
    (FixedCost a) (StakeEndEpoch a) v.

Definition AddBlockIssuerKeys (keys : gset BlockIssuerKey) (a : AccountData) : AccountData :=
  with_keys (BlockIssuerKeys a ∪ keys) a.
Definition RemoveBlockIssuerKey (keys : gset BlockIssuerKey) (a : AccountData) : AccountData :=
  with_keys (BlockIssuerKeys a ∖ keys) a.

(** ** Account diffs (account_diff.go) *)
Record AccountDiff := mkAccountDiff {
  BICChange : Z;
  PreviousUpdatedTime : SlotIndex;
  NewExpirySlot : SlotIndex;
  PreviousExpirySlot : SlotIndex;
  NewOutputID : OutputID;
  PreviousOutputID : OutputID;
  BlockIssuerKeysAdded : gset BlockIssuerKey;
  BlockIssuerKeysRemoved : gset BlockIssuerKey;
  ValidatorStakeChange : Z;
  DelegationStakeChange : Z;
  StakeEndEpochChange : Z;
  FixedCostChange : Z;
  PrevLatestSupportedVersionAndHash : VersionAndHash;
  NewLatestSupportedVersionAndHash : VersionAndHash;
}.
#[export] Instance AccountDiff_eq_dec : EqDecision AccountDiff.
Proof. solve_decision. Defined.

Definition NewAccountDiff : AccountDiff :=
  mkAccountDiff 0 0 0 0 EmptyOutputID EmptyOutputID ∅ ∅ 0 0 0 0 noVersionAndHash noVersionAndHash.

Definition with_BICChange (v : Z) (d : AccountDiff) : AccountDiff :=
  mkAccountDiff v (PreviousUpdatedTime d) (NewExpirySlot d) (PreviousExpirySlot d) (NewOutputID d) (PreviousOutputID d)
    (BlockIssuerKeysAdded d) (BlockIssuerKeysRemoved d) (ValidatorStakeChange d) (DelegationStakeChange d)
    (StakeEndEpochChange d) (FixedCostChange d) (PrevLatestSupportedVersionAndHash d) (NewLatestSupportedVersionAndHash d).
Definition with_VersionAndHash (prev new : VersionAndHash) (d : AccountDiff) : AccountDiff :=
  mkAccountDiff (BICChange d) (PreviousUpdatedTime d) (NewExpirySlot d) (PreviousExpirySlot d) (NewOutputID d) (PreviousOutputID d)
    (BlockIssuerKeysAdded d) (BlockIssuerKeysRemoved d) (ValidatorStakeChange d) (DelegationStakeChange d)
    (StakeEndEpochChange d) (FixedCostChange d) prev new.

(** ** Signaled protocol versions (signaled_block.go)

    [sb_ID] is the block ID as the big-endian integer [bytes.Compare] orders it by. *)
Record SignaledBlock := mkSignaledBlock {
  sb_ID : Z;
  sb_IssuingTime : Z;
  HighestSupportedVersion : Z;
  ProtocolParametersHash : Z;
}.

Definition CompareSignaled (s other : option SignaledBlock) : Z :=
  match s, other with
  | None, None => 0
  | None, Some _ => -1
  | Some _, None => 1
  | Some s, Some o =>
      if HighestSupportedVersion o <? HighestSupportedVersion s then 1
      else if HighestSupportedVersion s <? HighestSupportedVersion o then -1
      else if sb_IssuingTime o <? sb_IssuingTime s then 1
      else if sb_IssuingTime s <? sb_IssuingTime o then -1
      else if sb_ID s <? sb_ID o then -1 else if sb_ID o <? sb_ID s then 1 else 0
  end.
