(* ===== verification/AccountsLedger.v ===== *)
(** * The accounts ledger (engine/accounts/accountsledger/manager.go)

    The manager keeps the account tree at the latest committed slot, the diffs of
    the committed slots (slotstore/accountdiffs.go), the blocks whose cost is to be burned, and
    the protocol versions validators signal.  [ApplyDiff] commits a slot,
    [Account] rolls an account back to an earlier slot, [Rollback] rolls the tree
    back.

    Parameters: the protocol parameters per slot, mana decay and generation
    (iota.go), which slots are pruned, the block cache, and the signal carried by
    a validation block.  Failures of the key-value stores are not modelled; a
    pruned slot is.  An error is [None]; a nil diff that is dereferenced panics. *)
From S2P Require Import Prelude Block Accounts.

(** ** slotstore.AccountDiffs *)
Record AccountDiffs := mkAccountDiffs {
  diffChangeStore : gmap AccountID AccountDiff;
  destroyedStore : gset AccountID;
}.
Definition NewAccountDiffs : AccountDiffs := mkAccountDiffs ∅ ∅.

(** [Store]; serializing a nil diff panics. *)
Definition Store (id : AccountID) (d : option AccountDiff) (destroyed : bool) (s : AccountDiffs) : outcome AccountDiffs :=
  d ← deref d;
  Ret (mkAccountDiffs (<[id := d]> (diffChangeStore s)) (if destroyed then {[id]} ∪ destroyedStore s else destroyedStore s)).

Definition Load (id : AccountID) (s : AccountDiffs) : option (AccountDiff * bool) :=
  d ← diffChangeStore s !! id; Some (d, bool_decide (id ∈ destroyedStore s)).
Definition Has (id : AccountID) (s : AccountDiffs) : bool := bool_decide (is_Some (diffChangeStore s !! id)).

(** [Stream]: the destroyed accounts first, then every account with a diff. *)
Definition Stream `{!RangeOrder AccountID} (s : AccountDiffs) : list AccountID :=
  (range_of (gset_to_gmap tt (destroyedStore s))).*1 ++ (range_of (diffChangeStore s)).*1.

(** ** The manager *)
Record Manager := mkManager {
  blockBurns : gmap SlotIndex (gset BlockID);
  latestSupportedVersionSignals : gmap SlotIndex (gmap AccountID SignaledBlock);
  latestCommittedSlot : SlotIndex;
  accountsTree : gmap AccountID AccountData;
  slotDiffs : gmap SlotIndex AccountDiffs;
}.

Definition with_burns b (m : Manager) := mkManager b (latestSupportedVersionSignals m) (latestCommittedSlot m) (accountsTree m) (slotDiffs m).
Definition with_signals v (m : Manager) := mkManager (blockBurns m) v (latestCommittedSlot m) (accountsTree m) (slotDiffs m).
Definition with_slot v (m : Manager) := mkManager (blockBurns m) (latestSupportedVersionSignals m) v (accountsTree m) (slotDiffs m).
Definition with_tree v (m : Manager) := mkManager (blockBurns m) (latestSupportedVersionSignals m) (latestCommittedSlot m) v (slotDiffs m).
Definition with_slotDiffs v (m : Manager) := mkManager (blockBurns m) (latestSupportedVersionSignals m) (latestCommittedSlot m) (accountsTree m) v.

Definition New : Manager := mkManager ∅ ∅ 0 ∅ ∅.
Definition SetLatestCommittedSlot (slot : SlotIndex) (m : Manager) : Manager := with_slot slot m.

Record AEnv := mkAEnv {
  MaxCommittableAge : SlotIndex -> Z;
  ValidationBlocksPerSlot : SlotIndex -> Z;
  PunishmentEpochs : SlotIndex -> Z;
  EpochDurationSlots : SlotIndex -> Z;
  ManaWithDecay : SlotIndex -> Z -> SlotIndex -> SlotIndex -> option Z;
  ManaGenerationWithDecay : SlotIndex -> Z -> SlotIndex -> SlotIndex -> option Z;
  pruned : SlotIndex -> bool;
  block : BlockID -> option ModelBlock;
  signal : ModelBlock -> SignaledBlock;
}.

(** The diffs of a slot under construction; a nil pointer is [None]. *)
Abbreviation Diffs := (gmap AccountID (option AccountDiff)).

Section Manager.
Context `{!SafeMath} `{!RangeOrder AccountID} `{!RangeOrder BlockID} (env : AEnv).

(** [m.slotDiff(slot)] fails for a pruned slot and creates the store otherwise. *)
Definition slotDiff (slot : SlotIndex) (m : Manager) : option AccountDiffs :=
  if pruned env slot then None else Some (default NewAccountDiffs (slotDiffs m !! slot)).

Definition TrackBlock (b : ModelBlock) (m : Manager) : Manager :=
  let slot := Slot (ID b) in
  let m := with_burns (<[slot := {[ID b]} ∪ default ∅ (blockBurns m !! slot)]> (blockBurns m)) m in
  if isValidation b then
    let signals := default ∅ (latestSupportedVersionSignals m !! slot) in
    let newSignaledBlock := signal env b in
    let value := match signals !! IssuerID b with
                 | None => newSignaledBlock
                 | Some current =>
                     if decide (CompareSignaled (Some newSignaledBlock) (Some current) = 1) then newSignaledBlock else current
                 end in
    with_signals (<[slot := <[IssuerID b := value]> signals]> (latestSupportedVersionSignals m)) m
  else m.

Definition LoadSlotDiff (slot : SlotIndex) (id : AccountID) (m : Manager) : option (AccountDiff * bool) :=
  s ← slotDiff slot m; Load id s.

(** ** Rolling an account back *)

(** The body of the loop of [rollbackAccountTo] for a slot that has a diff. *)
Definition rollback_diff (d : AccountDiff) (a : AccountData) : option AccountData :=
  let a := WithCredits (UpdateCredits (i64 (- BICChange d)) (PreviousUpdatedTime d) (Credits a)) a in
  let a := if decide (PreviousExpirySlot d = NewExpirySlot d) then a else WithExpirySlot (PreviousExpirySlot d) a in
  let a := if decide (PreviousOutputID d = EmptyOutputID) then a else WithOutputID (PreviousOutputID d) a in
  let a := AddBlockIssuerKeys (BlockIssuerKeysRemoved d) a in
  let a := RemoveBlockIssuerKey (BlockIssuerKeysAdded d) a in
  validatorStake ← SafeSub Int64 (i64 (ValidatorStake a)) (ValidatorStakeChange d);
  let a := WithValidatorStake (u64 validatorStake) a in
  delegationStake ← SafeSub Int64 (i64 (DelegationStake a)) (DelegationStakeChange d);
  let a := WithDelegationStake (u64 delegationStake) a in
  stakeEpochEnd ← SafeSub Int64 (i64 (StakeEndEpoch a)) (StakeEndEpochChange d);
  let a := WithStakeEndEpoch (u32 stakeEpochEnd) a in
  fixedCost ← SafeSub Int64 (i64 (FixedCost a)) (FixedCostChange d);
  let a := WithFixedCost (u64 fixedCost) a in
  Some (if decide (PrevLatestSupportedVersionAndHash d = NewLatestSupportedVersionAndHash d) then a
        else WithLatestSupportedProtocolVersion (PrevLatestSupportedVersionAndHash d) a).

(** [for diffSlot := latestCommittedSlot; diffSlot > targetSlot; diffSlot--] *)
Definition slots_down (latest target : SlotIndex) : list SlotIndex := reverse (seqZ (target + 1) (latest - target)).

Fixpoint rollback_loop (slots : list SlotIndex) (m : Manager) (a : AccountData) (wasDestroyed : bool)
    : option (bool * AccountData) :=
  match slots with
  | [] => Some (wasDestroyed, a)
  | diffSlot :: slots =>
      diffStore ← slotDiff diffSlot m;
      if negb (Has (AccID a) diffStore) then rollback_loop slots m a wasDestroyed
      else
        '(diffChange, destroyed) ← Load (AccID a) diffStore;
        a' ← rollback_diff diffChange a;
        rollback_loop slots m a' (wasDestroyed || destroyed)
  end.

Definition rollbackAccountTo (targetSlot : SlotIndex) (m : Manager) (a : AccountData) : option (bool * AccountData) :=
  rollback_loop (slots_down (latestCommittedSlot m) targetSlot) m a false.

(** [account]: [None] is an error, [Some None] an account that does not exist. *)
Definition account (id : AccountID) (targetSlot : SlotIndex) (m : Manager) : option (option AccountData) :=
  let maxCommittableAge := MaxCommittableAge env targetSlot in
  if (maxCommittableAge <=? latestCommittedSlot m) && (u32 (targetSlot + maxCommittableAge) <? latestCommittedSlot m) then None
  else if latestCommittedSlot m <? targetSlot then None
  else
    let found := accountsTree m !! id in
    let loaded := default (WithCredits (NewBlockIssuanceCredits 0 targetSlot) (NewAccountData id)) found in
    '(wasDestroyed, a) ← rollbackAccountTo targetSlot m loaded;
    Some (if is_none found && negb wasDestroyed then None else Some a).

Definition PastAccounts (ids : list AccountID) (targetSlot : SlotIndex) (m : Manager) : gmap AccountID AccountData :=
  foldl (fun result id =>
    let found := accountsTree m !! id in
    let loaded := default (WithCredits (NewBlockIssuanceCredits 0 targetSlot) (NewAccountData id)) found in
    match rollbackAccountTo targetSlot m loaded with
    | None => result
    | Some (wasDestroyed, a) =>
        if is_none found && negb wasDestroyed then result else <[id := a]> result
    end) ∅ ids.

(** ** Rolling the tree back *)
Definition rollback_entry (targetSlot : SlotIndex) (_ : unit) (id : AccountID) : eprog Manager unit :=
  m ← eread Datatypes.id;
  let accountData := default (NewAccountData id) (accountsTree m !! id) in
  '(_, a) ← etry (rollbackAccountTo targetSlot m accountData);
  eupdate (fun m => with_tree (<[id := a]> (accountsTree m)) m).

Definition Rollback (targetSlot : SlotIndex) : eprog Manager unit :=
  latest ← eread latestCommittedSlot;
  efold (fun _ slot =>
    s ← eread (slotDiff slot);
    s ← ederef s;
    efold (rollback_entry targetSlot) (Stream s) tt) (slots_down latest targetSlot) tt.

(** ** Adding an account from a genesis output *)
Record AccountOutput := mkAccountOutput {
  ao_AccountID : AccountID;
  ao_OutputID : OutputID;
  ao_staking : option (Z * Z * Z);                  (* staked amount, end epoch, fixed cost *)
  ao_keys : gset BlockIssuerKey;
  ao_expirySlot : SlotIndex;
}.

Definition AddAccount (output : option AccountOutput) (credits : Z) (m : Manager) : option Manager :=
  o ← output;
  let a := NewAccountData (ao_AccountID o) in
  let a := match ao_staking o with
           | Some (stakedAmount, endEpoch, fixedCost) =>
               WithFixedCost fixedCost (WithStakeEndEpoch endEpoch (WithValidatorStake stakedAmount a))
           | None => a
           end in
  let a := WithCredits (NewBlockIssuanceCredits credits (latestCommittedSlot m)) a in
  let a := WithExpirySlot (ao_expirySlot o) (AddBlockIssuerKeys (ao_keys o) (WithOutputID (ao_OutputID o) a)) in
  Some (with_tree (<[ao_AccountID o := a]> (accountsTree m)) m).

(** ** Committing a slot *)
Definition preserveDestroyedAccountData (id : AccountID) (m : Manager) : option AccountDiff :=
  a ← accountsTree m !! id;
  Some (mkAccountDiff (i64 (- Value (Credits a))) (UpdateTime (Credits a)) 0 (ExpirySlot a) EmptyOutputID (AccOutputID a)
    ∅ (BlockIssuerKeys a) (i64 (- i64 (ValidatorStake a))) (i64 (- i64 (DelegationStake a)))
    (i64 (- i64 (StakeEndEpoch a))) (i64 (- i64 (FixedCost a)))
    (LatestSupportedProtocolVersionAndHash a) noVersionAndHash).

Definition add_burn (id : AccountID) (x : Z) (burns : gmap AccountID Z) : gmap AccountID Z :=
  <[id := u64 (default 0 (burns !! id) + x)]> burns.

(** The loop over the tracked blocks: burns of basic blocks, counts of validation blocks. *)
Fixpoint count_burns (rmc : Z) (ids : list BlockID) (burns counts : gmap AccountID Z) : option (gmap AccountID Z * gmap AccountID Z) :=
  match ids with
  | [] => Some (burns, counts)
  | id :: ids =>
      b ← block env id;
      if isBasic b then count_burns rmc ids (add_burn (IssuerID b) (u64 (u64 (WorkScore b) * rmc)) burns) counts
      else if isValidation b then count_burns rmc ids burns (<[IssuerID b := default 0 (counts !! IssuerID b) + 1]> counts)
      else count_burns rmc ids burns counts
  end.

(** The penalty loop over validators that issued too many blocks. *)
Fixpoint punish (slot : SlotIndex) (m : Manager) (counts : list (AccountID * Z)) (burns : gmap AccountID Z) : option (gmap AccountID Z) :=
  match counts with
  | [] => Some burns
  | (id, count) :: counts =>
      if ValidationBlocksPerSlot env slot <? count then
        found ← account id (latestCommittedSlot m) m;
        a ← found;
        manaPunishment ← ManaGenerationWithDecay env slot (ValidatorStake a) slot
          (u32 (slot + u32 (EpochDurationSlots env slot * PunishmentEpochs env slot)));
        punish slot m counts (add_burn id (u64 (u64 (count - ValidationBlocksPerSlot env slot) * manaPunishment)) burns)
      else punish slot m counts burns
  end.

Definition computeBlockBurnsForSlot (slot : SlotIndex) (rmc : Z) (m : Manager) : option (gmap AccountID Z) :=
  match blockBurns m !! slot with
  | None => Some ∅
  | Some set =>
      '(burns, counts) ← count_burns rmc (range_of (gset_to_gmap tt set)).*1 ∅ ∅;
      punish slot m (range_of counts) burns
  end.

(** [iotago.BlockIssuanceCredits(burn)] converts a uint64 to an int64. *)
Definition burn_diff (diffs : Diffs) (e : AccountID * Z) : eprog Manager Diffs :=
  d ← ederef (default (Some NewAccountDiff) (diffs !! e.1));
  mret (<[e.1 := Some (with_BICChange (i64 (BICChange d - i64 e.2)) d)]> diffs).

Definition updateSlotDiffWithBurns (slot : SlotIndex) (rmc : Z) (diffs : Diffs) : eprog Manager Diffs :=
  burns ← eread (computeBlockBurnsForSlot slot rmc);
  burns ← etry burns;
  efold burn_diff (range_of burns) diffs.

Definition signal_diff (diffs : Diffs) (e : AccountID * SignaledBlock) : eprog Manager Diffs :=
  m ← eread Datatypes.id;
  let '(id, signaledBlock) := e in
  let accountData := default (NewAccountData id) (accountsTree m !! id) in
  let accountDiff := default (Some NewAccountDiff) (diffs !! id) in
  let new := mkVersionAndHash (HighestSupportedVersion signaledBlock) (ProtocolParametersHash signaledBlock) in
  let current := LatestSupportedProtocolVersionAndHash accountData in
  if bool_decide (current <> new) && (Version current <? Version new) then
    d ← ederef accountDiff;
    mret (<[id := Some (with_VersionAndHash current new d)]> diffs)
  else mret diffs.

Definition updateSlotDiffWithVersionSignals (slot : SlotIndex) (diffs : Diffs) : eprog Manager Diffs :=
  signals ← eread (fun m => latestSupportedVersionSignals m !! slot);
  match signals with
  | None => mret diffs
  | Some signals => efold signal_diff (range_of signals) diffs
  end.

(** The body of the loop of [commitAccountTree] for an account that stays: the
    account with the diff applied, and the diff with the decay taken into account. *)
Definition commit_diff (slot : SlotIndex) (found : option AccountData) (id : AccountID) (d : AccountDiff) : option (AccountData * AccountDiff) :=
  let a := default (NewAccountData id) found in
  '(a, d) ← (if bool_decide (BICChange d <> 0) || is_none found then
      d ← match found with
          | Some _ =>
              decayedPreviousCredits ← ManaWithDecay env slot (u64 (Value (Credits a))) (UpdateTime (Credits a)) slot;
              Some (with_BICChange (i64 (BICChange d - i64 (Value (Credits a) - i64 decayedPreviousCredits))) d)
          | None => Some d
          end;
      Some (WithCredits (UpdateCredits (BICChange d) slot (Credits a)) a, d)
    else Some (a, d));
  let a := if decide (PreviousExpirySlot d = NewExpirySlot d) then a else WithExpirySlot (NewExpirySlot d) a in
  let a := if decide (NewOutputID d = EmptyOutputID) then a else WithOutputID (NewOutputID d) a in
  let a := AddBlockIssuerKeys (BlockIssuerKeysAdded d) a in
  let a := RemoveBlockIssuerKey (BlockIssuerKeysRemoved d) a in
  validatorStake ← SafeAdd Int64 (i64 (ValidatorStake a)) (ValidatorStakeChange d);
  let a := WithValidatorStake (u64 validatorStake) a in
  delegationStake ← SafeAdd Int64 (i64 (DelegationStake a)) (DelegationStakeChange d);
  let a := WithDelegationStake (u64 delegationStake) a in
  stakeEndEpoch ← SafeAdd Int64 (i64 (StakeEndEpoch a)) (StakeEndEpochChange d);
  let a := WithStakeEndEpoch (u32 stakeEndEpoch) a in
  fixedCost ← SafeAdd Int64 (i64 (FixedCost a)) (FixedCostChange d);
  let a := WithFixedCost (u64 fixedCost) a in
  let new := NewLatestSupportedVersionAndHash d in
  Some (if bool_decide (PrevLatestSupportedVersionAndHash d <> new) &&
           (Version (LatestSupportedProtocolVersionAndHash a) <? Version new)
        then WithLatestSupportedProtocolVersion new a else a, d).

Definition commit_entry (slot : SlotIndex) (destroyed : gset AccountID) (diffs : Diffs) (e : AccountID * option AccountDiff) : eprog Manager Diffs :=
  let '(id, d) := e in
  if decide (id ∈ destroyed) then
    _ ← eupdate (fun m => with_tree (delete id (accountsTree m)) m);
    mret diffs
  else
    d ← ederef d;
    found ← eread (fun m => accountsTree m !! id);
    '(a, d) ← etry (commit_diff slot found id d);
    _ ← eupdate (fun m => with_tree (<[id := a]> (accountsTree m)) m);
    mret (<[id := Some d]> diffs).

Definition commitAccountTree (slot : SlotIndex) (diffs : Diffs) (destroyed : gset AccountID) : eprog Manager Diffs :=
  efold (commit_entry slot destroyed) (range_of diffs) diffs.

Definition evict (slot : SlotIndex) (m : Manager) : Manager :=
  with_signals (delete slot (latestSupportedVersionSignals m)) (with_burns (delete slot (blockBurns m)) m).

Definition preserve_destroyed (destroyed : gset AccountID) (m : Manager) (diffs : Diffs) : Diffs :=
  map_imap (fun id d => if decide (id ∈ destroyed) then Some (preserveDestroyedAccountData id m) else Some d) diffs.

Definition store_entry (slot : SlotIndex) (destroyed : gset AccountID) (_ : unit) (e : AccountID * option AccountDiff) : eprog Manager unit :=
  s ← eread (slotDiff slot);
  s ← etry s;
  s ← elift (Store e.1 e.2 (bool_decide (e.1 ∈ destroyed)) s);
  eupdate (fun m => with_slotDiffs (<[slot := s]> (slotDiffs m)) m).

Definition ApplyDiff (slot : SlotIndex) (rmc : Z) (diffs : Diffs) (destroyed : gset AccountID) : eprog Manager Diffs :=
  latest ← eread latestCommittedSlot;
  if decide (slot <> u32 (latest + 1)) then throw
  else
    diffs ← updateSlotDiffWithBurns slot rmc diffs;
    diffs ← updateSlotDiffWithVersionSignals slot diffs;
    diffs ← eread (fun m => preserve_destroyed destroyed m diffs);
    diffs ← commitAccountTree slot diffs destroyed;
    _ ← efold (store_entry slot destroyed) (range_of diffs) tt;
    _ ← eupdate (with_slot slot);
    _ ← eupdate (evict (u32 (u32 (slot - MaxCommittableAge env slot) - 1)));
    mret diffs.
End Manager.
