(* ===== verification/AccountsLedgerProps.v ===== *)
(** * The history of the accounts ledger

    A diff that fits an account can be undone: rolling the committed account back
    restores it.  Hence [ApplyDiff] does not change what [Account] answers for
    earlier slots.  Burns are the exact cost of the tracked blocks, whatever the
    order in which the maps are iterated. *)
From S2P Require Import Prelude Block Accounts AccountsLedger.

#[local] Arguments wrap : simpl never.

Section Roundtrip.
Context `{!SafeMath} `{!SafeMathSpec _} (env : AEnv).

(** The fields of an account at their width. *)
Record account_ok (a : AccountData) : Prop := {
  ao_credits : in_range Int64 (Value (Credits a));
  ao_validator : in_range Uint64 (ValidatorStake a);
  ao_delegation : in_range Uint64 (DelegationStake a);
  ao_fixedCost : in_range Uint64 (FixedCost a);
  ao_epoch : in_range Uint32 (StakeEndEpoch a);
}.

(** The diff records the values of the account it replaces, but for the time its credits were updated. *)
Record diff_fits (a : AccountData) (d : AccountDiff) : Prop := {
  df_expiry : PreviousExpirySlot d = NewExpirySlot d \/ PreviousExpirySlot d = ExpirySlot a;
  df_output : (PreviousOutputID d = EmptyOutputID /\ NewOutputID d = EmptyOutputID) \/
              (PreviousOutputID d = AccOutputID a /\ AccOutputID a <> EmptyOutputID);
  df_added : BlockIssuerKeysAdded d ## BlockIssuerKeys a;
  df_removed : BlockIssuerKeysRemoved d ⊆ BlockIssuerKeys a;
  df_version : PrevLatestSupportedVersionAndHash d = NewLatestSupportedVersionAndHash d \/
               PrevLatestSupportedVersionAndHash d = LatestSupportedProtocolVersionAndHash a;
  df_validator : in_range Int64 (ValidatorStakeChange d);
  df_delegation : in_range Int64 (DelegationStakeChange d);
  df_fixedCost : in_range Int64 (FixedCostChange d);
  df_epoch : in_range Int64 (StakeEndEpochChange d) /\ in_range Uint32 (StakeEndEpoch a + StakeEndEpochChange d);
}.

(** The account with another time at which its credits were updated. *)
Definition set_time (t : SlotIndex) (a : AccountData) : AccountData := WithCredits (mkCredits (Value (Credits a)) t) a.
Lemma set_time_id a : set_time (UpdateTime (Credits a)) a = a.
Proof. by destruct a as [? []]. Qed.
Lemma new_fits a : account_ok a -> diff_fits a NewAccountDiff.
Proof. intros [_ _ _ _ Ae]. split; cbn; auto; try done; try set_solver. split; [done|]. by rewrite Z.add_0_r. Qed.

Lemma wrap_add_cancel t v b : in_range t v -> wrap t (wrap t (v + b) + wrap t (- b)) = v.
Proof.
  intros Hv. rewrite <- (wrap_id t v Hv) at 2. apply wrap_eq.
  destruct (wrap_decomp t (v + b)) as [k ->], (wrap_decomp t (- b)) as [l ->]. exists (k + l). lia.
Qed.

(** int64 and uint64 convert into each other without loss. *)
Lemma i64_u64 z : in_range Int64 z -> i64 (u64 z) = z.
Proof.
  intros Hz. rewrite <- (wrap_id Int64 z Hz) at 2. apply wrap_eq.
  destruct (wrap_decomp Uint64 z) as [k ->]. exists k. reflexivity.
Qed.
Lemma u64_i64 z : in_range Uint64 z -> u64 (i64 z) = z.
Proof.
  intros Hz. rewrite <- (wrap_id Uint64 z Hz) at 2. apply wrap_eq.
  destruct (wrap_decomp Int64 z) as [k ->]. exists k. reflexivity.
Qed.

(** A checked change of a uint64 field is undone by the opposite change. *)
Lemma field_roundtrip v c r : in_range Uint64 v -> in_range Int64 c -> SafeAdd Int64 (i64 v) c = Some r ->
  SafeSub Int64 (i64 (u64 r)) c = Some (i64 v) /\ u64 (i64 v) = v.
Proof.
  intros Hv Hc. rewrite SafeAdd_spec by auto with iota. intros [Hr ->]%checked_Some.
  split; [|by apply u64_i64]. rewrite i64_u64 by done. rewrite SafeSub_spec by done.
  apply checked_Some. split; [|lia]. replace (i64 v + c - c) with (i64 v) by lia. auto with iota.
Qed.

Lemma epoch_roundtrip v c r : in_range Uint32 v -> in_range Int64 c -> in_range Uint32 (v + c) ->
  SafeAdd Int64 (i64 v) c = Some r -> SafeSub Int64 (i64 (u32 r)) c = Some v.
Proof.
  intros Hv Hc Hs. assert (Hi : in_range Int64 v) by (unfold in_range in *; cbn in *; lia).
  rewrite (wrap_id Int64 v) by done. rewrite SafeAdd_spec by done. intros [Hr ->]%checked_Some.
  rewrite (wrap_id Uint32) by done. rewrite (wrap_id Int64) by done. rewrite SafeSub_spec by done.
  apply checked_Some. replace (v + c - c) with v by lia. done.
Qed.

(** [rollback_diff] field by field. *)
Lemma rollback_diff_spec d a : rollback_diff d a =
  vs ← SafeSub Int64 (i64 (ValidatorStake a)) (ValidatorStakeChange d);
  ds ← SafeSub Int64 (i64 (DelegationStake a)) (DelegationStakeChange d);
  se ← SafeSub Int64 (i64 (StakeEndEpoch a)) (StakeEndEpochChange d);
  fc ← SafeSub Int64 (i64 (FixedCost a)) (FixedCostChange d);
  Some (mkAccountData (AccID a)
    (mkCredits (i64 (Value (Credits a) + i64 (- BICChange d))) (PreviousUpdatedTime d))
    (if decide (PreviousExpirySlot d = NewExpirySlot d) then ExpirySlot a else PreviousExpirySlot d)
    (if decide (PreviousOutputID d = EmptyOutputID) then AccOutputID a else PreviousOutputID d)
    ((BlockIssuerKeys a ∪ BlockIssuerKeysRemoved d) ∖ BlockIssuerKeysAdded d)
    (u64 vs) (u64 ds) (u64 fc) (u32 se)
    (if decide (PrevLatestSupportedVersionAndHash d = NewLatestSupportedVersionAndHash d)
     then LatestSupportedProtocolVersionAndHash a else PrevLatestSupportedVersionAndHash d)).
Proof.
  unfold rollback_diff. destruct (decide (PreviousExpirySlot d = _)), (decide (PreviousOutputID d = _)),
    (decide (PrevLatestSupportedVersionAndHash d = _)); reflexivity.
Qed.

(** The diff a commit stores: the change of credits includes the decay. *)
Definition commit_credits (slot : SlotIndex) (found : option AccountData) (d : AccountDiff) (a : AccountData) : option (BlockIssuanceCredits * Z) :=
  if bool_decide (BICChange d <> 0) || is_none found then
    B ← match found with
        | Some _ =>
            decayed ← ManaWithDecay env slot (u64 (Value (Credits a))) (UpdateTime (Credits a)) slot;
            Some (i64 (BICChange d - i64 (Value (Credits a) - i64 decayed)))
        | None => Some (BICChange d)
        end;
    Some (UpdateCredits B slot (Credits a), B)
  else Some (Credits a, BICChange d).

Lemma commit_diff_spec slot found id d : commit_diff env slot found id d =
  let a := default (NewAccountData id) found in
  '(c, B) ← commit_credits slot found d a;
  vs ← SafeAdd Int64 (i64 (ValidatorStake a)) (ValidatorStakeChange d);
  ds ← SafeAdd Int64 (i64 (DelegationStake a)) (DelegationStakeChange d);
  se ← SafeAdd Int64 (i64 (StakeEndEpoch a)) (StakeEndEpochChange d);
  fc ← SafeAdd Int64 (i64 (FixedCost a)) (FixedCostChange d);
  Some (mkAccountData (AccID a) c
    (if decide (PreviousExpirySlot d = NewExpirySlot d) then ExpirySlot a else NewExpirySlot d)
    (if decide (NewOutputID d = EmptyOutputID) then AccOutputID a else NewOutputID d)
    ((BlockIssuerKeys a ∪ BlockIssuerKeysAdded d) ∖ BlockIssuerKeysRemoved d)
    (u64 vs) (u64 ds) (u64 fc) (u32 se)
    (if bool_decide (PrevLatestSupportedVersionAndHash d <> NewLatestSupportedVersionAndHash d) &&
        (Version (LatestSupportedProtocolVersionAndHash a) <? Version (NewLatestSupportedVersionAndHash d))
     then NewLatestSupportedVersionAndHash d else LatestSupportedProtocolVersionAndHash a), with_BICChange B d).
Proof.
  unfold commit_diff, commit_credits. set (a := default _ found).
  assert (Hd : with_BICChange (BICChange d) d = d) by by destruct d.
  destruct (bool_decide (BICChange d <> 0) || is_none found); [destruct found; [destruct (ManaWithDecay env slot _ _ slot)|]|];
    cbn [mbind option_bind with_BICChange BICChange PreviousExpirySlot NewExpirySlot NewOutputID PrevLatestSupportedVersionAndHash
         NewLatestSupportedVersionAndHash]; try done;
    destruct (decide (PreviousExpirySlot d = _)), (decide (NewOutputID d = _)), (bool_decide (PrevLatestSupportedVersionAndHash d <> _));
    rewrite ?Hd; cbn [andb]; try reflexivity.
  all: cbn; repeat (destruct (SafeAdd Int64 _ _); cbn; [|reflexivity]); by destruct (_ <? _).
Qed.

Lemma commit_credits_rollback slot a d c B : in_range Int64 (Value (Credits a)) ->
  commit_credits slot (Some a) d a = Some (c, B) -> i64 (Value c + i64 (- B)) = Value (Credits a).
Proof.
  intros Hv. unfold commit_credits. cbn [is_none]. rewrite orb_false_r. case_bool_decide as Hb.
  - destruct (ManaWithDecay _ _ _ _ _); cbn; [|done]. intros [= <- <-]. cbn. by apply wrap_add_cancel.
  - intros [= <- <-]. assert (BICChange d = 0) as -> by lia. change (i64 (- 0)) with 0. by rewrite Z.add_0_r, wrap_id.
Qed.

(** Rolling back a committed diff restores the account, with the time the diff recorded. *)
Lemma commit_rollback slot id a d a' d' : account_ok a -> diff_fits a d ->
  commit_diff env slot (Some a) id d = Some (a', d') -> rollback_diff d' a' = Some (set_time (PreviousUpdatedTime d') a).
Proof.
  intros [Ac Av Ad Af Ae] [De Do Dka Dkr Dv Dvs Dds Dfc [Dse Dse']]. rewrite commit_diff_spec. cbn zeta. cbn [default from_option Datatypes.id].
  destruct (commit_credits slot (Some a) d a) as [[c B]|] eqn:Hc; cbn [mbind option_bind]; [|done].
  apply commit_credits_rollback in Hc; [|done].
  destruct (SafeAdd _ _ (ValidatorStakeChange d)) as [vs|] eqn:Hvs; cbn [mbind option_bind]; [|done].
  destruct (SafeAdd _ _ (DelegationStakeChange d)) as [ds|] eqn:Hds; cbn [mbind option_bind]; [|done].
  destruct (SafeAdd _ _ (StakeEndEpochChange d)) as [se|] eqn:Hse; cbn [mbind option_bind]; [|done].
  destruct (SafeAdd _ _ (FixedCostChange d)) as [fc|] eqn:Hfc; cbn [mbind option_bind]; [|done].
  apply field_roundtrip in Hvs as [Hvs Hvs2], Hds as [Hds Hds2], Hfc as [Hfc Hfc2]; [|done..].
  apply epoch_roundtrip in Hse; [|done..].
  intros [= <- <-]. rewrite rollback_diff_spec.
  cbn [with_BICChange ValidatorStake DelegationStake StakeEndEpoch FixedCost ValidatorStakeChange DelegationStakeChange StakeEndEpochChange FixedCostChange].
  rewrite Hvs, Hds, Hse, Hfc. cbn [mbind option_bind]. f_equal.
  cbn [with_BICChange AccID Credits BICChange PreviousUpdatedTime PreviousExpirySlot NewExpirySlot ExpirySlot PreviousOutputID AccOutputID BlockIssuerKeys
    BlockIssuerKeysAdded BlockIssuerKeysRemoved PrevLatestSupportedVersionAndHash NewLatestSupportedVersionAndHash LatestSupportedProtocolVersionAndHash].
  rewrite Hc, Hvs2, Hds2, Hfc2, (wrap_id Uint32) by done.
  replace ((((BlockIssuerKeys a ∪ BlockIssuerKeysAdded d) ∖ BlockIssuerKeysRemoved d) ∪ BlockIssuerKeysRemoved d) ∖ BlockIssuerKeysAdded d)
    with (BlockIssuerKeys a).
  2: { apply leibniz_equiv. intros k. destruct (decide (k ∈ BlockIssuerKeysRemoved d)), (decide (k ∈ BlockIssuerKeysAdded d)); set_solver. }
  destruct a as [id0 [V U] ex out keys vs0 ds0 fc0 se0 ver]. unfold set_time, WithCredits. cbn in *.
  f_equal; [destruct De as [->| ->]|destruct Do as [[-> ->]|[-> ?]]|destruct Dv as [->| ->]]; repeat (case_decide || case_bool_decide); cbn; congruence.
Qed.

(** A destroyed account is restored from the diff that preserves it. *)
Lemma preserve_rollback id a t m : accountsTree m !! id = Some a -> AccID a = id -> account_ok a ->
  in_range Int64 (ValidatorStake a) -> in_range Int64 (DelegationStake a) -> in_range Int64 (FixedCost a) ->
  exists d, preserveDestroyedAccountData id m = Some d /\
    rollback_diff d (WithCredits (NewBlockIssuanceCredits 0 t) (NewAccountData id)) = Some a.
Proof.
  intros Ha Hid [Ac Av Ad Af Ae] Hv Hd Hf. unfold preserveDestroyedAccountData. rewrite Ha. cbn [mbind option_bind].
  eexists. split; [reflexivity|]. rewrite rollback_diff_spec.
  assert (Hse : in_range Int64 (StakeEndEpoch a)) by (unfold in_range in *; cbn in *; lia).
  assert (Hfield : forall v, in_range Int64 v -> 0 <= v -> SafeSub Int64 (i64 0) (i64 (- i64 v)) = Some v).
  { intros v Hr Hn. rewrite (wrap_id Int64 v), (wrap_id Int64 0) by done.
    rewrite wrap_id by (unfold in_range in *; cbn in *; lia). rewrite SafeSub_spec by (unfold in_range in *; cbn in *; lia).
    apply checked_Some. unfold in_range in *; cbn in *; lia. }
  cbn [ValidatorStakeChange DelegationStakeChange StakeEndEpochChange FixedCostChange].
  change (ValidatorStake (WithCredits _ _)) with 0. change (DelegationStake (WithCredits _ _)) with 0.
  change (StakeEndEpoch (WithCredits _ _)) with 0. change (FixedCost (WithCredits _ _)) with 0.
  rewrite !Hfield by (done || (unfold in_range in *; cbn in *; lia)). cbn [mbind option_bind]. f_equal. cbn -[u32 u64 i64].
  destruct a as [id0 [V U] ex out keys vs0 ds0 fc0 se0 ver]. cbn in *. subst id0. unfold EmptyOutputID in *.
  f_equal; try by apply wrap_id.
  - f_equal. rewrite <- (wrap_id Int64 V) at 2 by done. apply wrap_eq.
    destruct (wrap_decomp Int64 (- V)) as [k ->]. destruct (wrap_decomp Int64 (- (- V + k * (ty_max Int64 - ty_min Int64 + 1)))) as [l ->].
    exists (l - k). lia.
  - case_decide; congruence.
  - case_decide; congruence.
  - set_solver.
  - case_decide; [by subst|done].
Qed.
End Roundtrip.

(** ** The steps of [ApplyDiff] *)
Section Steps.
Context `{!SafeMath} `{!SafeMathSpec _} `{!RangeOrder AccountID} `{!RangeOrder BlockID} (env : AEnv).

Lemma range_NoDup {K V} `{Countable K} `{!RangeOrder K} (m : gmap K V) : NoDup (range_of m).*1.
Proof. rewrite (range_of_perm m). apply NoDup_fst_map_to_list. Qed.

(** A loop that only reads or only changes the tree. *)
Definition tree_only {A} (p : eprog Manager A) : Prop :=
  forall m x m', p m = Ret (x, m') -> m' = with_tree (accountsTree m') m.
Definition reads_only {A} (p : eprog Manager A) : Prop := forall m x m', p m = Ret (x, m') -> m' = m.

Lemma efold_reads {A B} (body : A -> B -> eprog Manager A) l acc :
  (forall a b, reads_only (body a b)) -> reads_only (efold body l acc).
Proof.
  intros Hb. revert acc. induction l as [|x l IH]; intros acc m r m'; cbn; [by intros [= _ <-]|].
  unfold mbind, eprog_bind. destruct (body acc x m) as [[[a|] m1]| |] eqn:E; try done; apply Hb in E as ->; [apply IH|].
  by intros [= _ <-].
Qed.

Lemma burns_reads slot rmc diffs : reads_only (updateSlotDiffWithBurns env slot rmc diffs).
Proof.
  intros m x m'. unfold updateSlotDiffWithBurns, eread, etry, mbind at 1 2, eprog_bind.
  destruct (computeBlockBurnsForSlot env slot rmc m) as [burns|]; [|by intros [= _ <-]]. apply efold_reads.
  intros a b m1 x1 m1'. unfold burn_diff, ederef, elift, mbind, eprog_bind. destruct (deref _); cbn; [|done..]. by intros [= _ <-].
Qed.

Lemma signals_reads slot diffs : reads_only (updateSlotDiffWithVersionSignals slot diffs).
Proof.
  intros m x m'. unfold updateSlotDiffWithVersionSignals, eread, mbind at 1, eprog_bind.
  destruct (latestSupportedVersionSignals m !! slot) as [sig|]; [|by intros [= _ <-]]. apply efold_reads.
  intros a [id b] m1 x1 m1'. unfold signal_diff, ederef, elift, eread, mbind, eprog_bind.
  case_match; [destruct (deref _); cbn; [|done..]|]; by intros [= _ <-].
Qed.

(** What [commitAccountTree] does to each account. *)
Lemma commit_fold slot destroyed l diffs m diffs' m' : NoDup l.*1 ->
  efold (commit_entry env slot destroyed) l diffs m = Ret (Some diffs', m') ->
  m' = with_tree (accountsTree m') m /\
  (forall id, id ∉ l.*1 -> accountsTree m' !! id = accountsTree m !! id /\ diffs' !! id = diffs !! id) /\
  (forall id d, (id, d) ∈ l -> if decide (id ∈ destroyed) then accountsTree m' !! id = None /\ diffs' !! id = diffs !! id
     else exists d0 a d1, d = Some d0 /\ commit_diff env slot (accountsTree m !! id) id d0 = Some (a, d1) /\
          accountsTree m' !! id = Some a /\ diffs' !! id = Some (Some d1)).
Proof.
  revert diffs m. induction l as [|[x d] l IH]; intros diffs m Hnd; cbn.
  { intros [= <- <-]. split; [by destruct m|]. split; [done|]. intros id d Hid. set_solver. }
  inversion_clear Hnd as [|? ? Hx Hnd'].
  assert (Hne : forall id d0, (id, d0) ∈ l -> id <> x).
  { intros id d0 Hin ->. apply Hx. apply list_elem_of_fmap. by exists (x, d0). }
  unfold mbind at 1, eprog_bind, commit_entry at 1. destruct (decide (x ∈ destroyed)) as [Hd|Hd].
  - intros Hrun. apply IH in Hrun as (Hm & Hother & Hin); [|done]. cbn in *. split; [|split].
    + rewrite Hm at 1. done.
    + intros id [H1 H2]%not_elem_of_cons. destruct (Hother id H2) as [-> ->]. by rewrite lookup_delete_ne.
    + intros id d0 [[= -> ->]|Hl]%elem_of_cons.
      * rewrite decide_True by done. destruct (Hother x Hx) as [-> ->]. by rewrite lookup_delete_eq.
      * specialize (Hin id d0 Hl). by rewrite lookup_delete_ne in Hin by (intros ->; by eapply Hne).
  - unfold mbind, eprog_bind, ederef, elift, eread, etry, eupdate, deref. cbn.
    destruct d as [d|]; cbn; [|done]. destruct (commit_diff env slot (accountsTree m !! x) x d) as [[a d1]|] eqn:Hc; [|done]. cbn.
    intros Hrun. apply IH in Hrun as (Hm & Hother & Hin); [|done]. cbn in *. split; [|split].
    + rewrite Hm at 1. done.
    + intros id [H1 H2]%not_elem_of_cons. destruct (Hother id H2) as [-> ->]. by rewrite !lookup_insert_ne.
    + intros id d0 [[= -> ->]|Hl]%elem_of_cons.
      * rewrite decide_False by done. destruct (Hother x Hx) as [-> ->]. rewrite !lookup_insert_eq. by exists d, a, d1.
      * specialize (Hin id d0 Hl). rewrite !(lookup_insert_ne _ x id) in Hin by (intros ->; by eapply Hne). done.
Qed.

(** What storing the diffs does to the store of the slot. *)
Lemma store_fold slot destroyed l m m' : pruned env slot = false -> NoDup l.*1 ->
  efold (store_entry env slot destroyed) l tt m = Ret (Some tt, m') ->
  let s := default NewAccountDiffs (slotDiffs m !! slot) in
  let s' := default NewAccountDiffs (slotDiffs m' !! slot) in
  m' = with_slotDiffs (slotDiffs m') m /\ (forall k, k <> slot -> slotDiffs m' !! k = slotDiffs m !! k) /\
  (forall id, id ∉ l.*1 -> diffChangeStore s' !! id = diffChangeStore s !! id /\ (id ∈ destroyedStore s' <-> id ∈ destroyedStore s)) /\
  (forall id d, (id, d) ∈ l -> diffChangeStore s' !! id = d /\ is_Some d /\ (id ∈ destroyedStore s' <-> id ∈ destroyed \/ id ∈ destroyedStore s)).
Proof.
  intros Hpr. revert m. induction l as [|[x d] l IH]; intros m Hnd; cbn [efold].
  { intros [= <-]. cbn zeta. split; [by destruct m|]. split; [done|]. split; [done|]. intros id d Hid. set_solver. }
  inversion_clear Hnd as [|? ? Hx Hnd'].
  assert (Hne : forall id d0, (id, d0) ∈ l -> id <> x).
  { intros id d0 Hin ->. apply Hx. apply list_elem_of_fmap. by exists (x, d0). }
  unfold mbind at 1, eprog_bind, store_entry at 1, mbind, eprog_bind, eread, etry, elift, eupdate, slotDiff. rewrite Hpr. cbn -[efold].
  set (s := default NewAccountDiffs (slotDiffs m !! slot)). destruct d as [d|]; [|done]. cbn -[efold].
  intros Hrun. apply IH in Hrun as (Hm & Hk & Hother & Hin); [|done]. cbn -[efold] in *. rewrite lookup_insert_eq in Hother, Hin. cbn in Hother, Hin.
  set (s' := default NewAccountDiffs (slotDiffs m' !! slot)) in *. split; [|split; [|split]].
  - rewrite Hm at 1. done.
  - intros k Hks. rewrite Hk by done. by rewrite lookup_insert_ne.
  - intros id [H1 H2]%not_elem_of_cons. destruct (Hother id H2) as [-> ->]. rewrite lookup_insert_ne by done. split; [done|]. case_bool_decide; set_solver.
  - intros id d0 [[= -> ->]|Hl]%elem_of_cons.
    + destruct (Hother x Hx) as [-> ->]. rewrite lookup_insert_eq. split; [done|]. split; [done|]. case_bool_decide; set_solver.
    + specialize (Hne id d0 Hl). destruct (Hin id d0 Hl) as (-> & ? & ->). split; [done|]. split; [done|]. case_bool_decide; set_solver.
Qed.

(** The state a successful [ApplyDiff] leaves, account by account. *)
Definition applied (slot : SlotIndex) (destroyed : gset AccountID) (m m' : Manager) (id : AccountID) (d' : option (option AccountDiff)) : Prop :=
  let s' := default NewAccountDiffs (slotDiffs m' !! slot) in
  match d' with
  | None => accountsTree m' !! id = accountsTree m !! id /\ diffChangeStore s' !! id = None
  | Some d' => diffChangeStore s' !! id = d' /\ is_Some d' /\ (id ∈ destroyedStore s' <-> id ∈ destroyed) /\
      if decide (id ∈ destroyed) then accountsTree m' !! id = None /\ d' = preserveDestroyedAccountData id m
      else exists d0 a d1, d' = Some d1 /\ commit_diff env slot (accountsTree m !! id) id d0 = Some (a, d1) /\ accountsTree m' !! id = Some a
  end.

Lemma ApplyDiff_spec slot rmc diffs destroyed m diffs' m' : pruned env slot = false -> slotDiffs m !! slot = None ->
  in_range Uint32 (latestCommittedSlot m + 1) -> ApplyDiff env slot rmc diffs destroyed m = Ret (Some diffs', m') ->
  slot = latestCommittedSlot m + 1 /\ latestCommittedSlot m' = slot /\
  (forall k, k <> slot -> slotDiffs m' !! k = slotDiffs m !! k) /\
  forall id, applied slot destroyed m m' id (diffs' !! id).
Proof.
  intros Hpr Hfresh Hrng. unfold ApplyDiff. intros (l & m0 & [= <- <-] & Hrun)%eprog_bind_Ret.
  rewrite (wrap_id Uint32) in Hrun by done. destruct (decide (slot <> latestCommittedSlot m + 1)) as [|Hslot%dec_stable]; [done|].
  apply eprog_bind_Ret in Hrun as (d1 & m1 & ->%burns_reads & Hrun).
  apply eprog_bind_Ret in Hrun as (d2 & m2 & ->%signals_reads & Hrun).
  apply eprog_bind_Ret in Hrun as (d3 & m3 & [= <- <-] & Hrun).
  apply eprog_bind_Ret in Hrun as (d4 & m4 & Hcommit & Hrun).
  apply eprog_bind_Ret in Hrun as ([] & m5 & Hstore & Hrun).
  injection Hrun as Hd Hm'. subst d4. subst m'. cbn.
  apply commit_fold in Hcommit as (Hm4 & Hother & Hin); [|apply range_NoDup].
  apply store_fold in Hstore as (Hm5 & Hk & Hsother & Hsin); [|done|apply range_NoDup]. cbn zeta in *.
  assert (HS4 : slotDiffs m4 = slotDiffs m) by by rewrite Hm4. rewrite HS4 in *. rewrite Hfresh in *. cbn in Hsother, Hsin.
  assert (HT5 : accountsTree m5 = accountsTree m4) by by rewrite Hm5.
  split_and!; try done. intros id. unfold applied. cbn. rewrite HT5.
  set (s' := default NewAccountDiffs (slotDiffs m5 !! slot)) in *.
  destruct (diffs' !! id) as [d|] eqn:Hid.
  - assert (Hr : (id, d) ∈ range_of diffs') by by apply elem_of_range. destruct (Hsin id d Hr) as (? & ? & Hds).
    split; [done|]. split; [done|]. split; [rewrite Hds; set_solver|].
    destruct (preserve_destroyed destroyed m d2 !! id) as [dp|] eqn:Hp; cycle 1.
    { exfalso. destruct (Hother id) as [_ Heq]; [|congruence]. intros Hx. apply list_elem_of_fmap in Hx as ([j x] & -> & Hx).
      apply elem_of_range in Hx. cbn in Hp. congruence. }
    specialize (Hin id dp (proj2 (elem_of_range _ _ _) Hp)). destruct (decide (id ∈ destroyed)) as [Hd|Hd].
    + destruct Hin as [-> Heq]. split; [done|]. rewrite Hid, Hp in Heq. injection Heq as ->.
      unfold preserve_destroyed in Hp. rewrite map_lookup_imap in Hp. destruct (d2 !! id); cbn in Hp; [|done].
      rewrite decide_True in Hp by done. by injection Hp.
    + destruct Hin as (d0 & a & d1' & -> & Hc & -> & Heq). exists d0, a, d1'. split; [congruence|done].
  - assert (Hn : forall (D : Diffs), D !! id = None -> id ∉ (range_of D).*1).
    { intros D HD Hx. apply list_elem_of_fmap in Hx as ([j x] & -> & Hx). apply elem_of_range in Hx. cbn in HD. congruence. }
    destruct (Hsother id (Hn _ Hid)) as [-> _]. split; [|done].
    destruct (preserve_destroyed destroyed m d2 !! id) as [dp|] eqn:Hp; [|by apply Hother, Hn].
    specialize (Hin id dp (proj2 (elem_of_range _ _ _) Hp)). case_decide; [|by destruct Hin as (? & ? & ? & ? & ? & ? & ?); congruence].
    destruct Hin as [_ ?]. congruence.
Qed.

(** ** Rolling back through the new slot *)
Lemma slots_down_S latest target : target <= latest -> slots_down (latest + 1) target = (latest + 1) :: slots_down latest target.
Proof.
  intros Hle. unfold slots_down. replace (latest + 1 - target) with (Z.of_nat (S (Z.to_nat (latest - target)))) by lia.
  rewrite seqZ_S, reverse_app. cbn. f_equal; [lia|]. by rewrite Z2Nat.id by lia.
Qed.

Lemma elem_of_slots_down latest target k : k ∈ slots_down latest target <-> target < k <= latest.
Proof. unfold slots_down. rewrite elem_of_reverse, elem_of_seqZ. lia. Qed.

Lemma rollback_loop_ext slots m m' a w : (forall k, k ∈ slots -> slotDiffs m' !! k = slotDiffs m !! k) ->
  rollback_loop env slots m' a w = rollback_loop env slots m a w.
Proof.
  revert a w. induction slots as [|k slots IH]; intros a w Hk; cbn; [done|].
  assert (slotDiff env k m' = slotDiff env k m) as -> by (unfold slotDiff; rewrite Hk by set_solver; done).
  assert (IH' : forall a w, rollback_loop env slots m' a w = rollback_loop env slots m a w) by (intros; apply IH; set_solver).
  destruct (slotDiff env k m); cbn; [|done]. case_match; [by rewrite IH'|]. destruct (Load _ _) as [[? ?]|]; cbn; [|done].
  destruct (rollback_diff _ _); cbn; [by rewrite IH'|done].
Qed.

Lemma rollback_loop_flag slots m a w : rollback_loop env slots m a w =
  '(w', a') ← rollback_loop env slots m a false; Some (w || w', a').
Proof.
  revert a w. induction slots as [|k slots IH]; intros a w; cbn; [by rewrite orb_false_r|].
  destruct (slotDiff env k m); cbn; [|done]. case_match; [by rewrite IH|]. destruct (Load _ _) as [[d b]|]; cbn; [|done].
  destruct (rollback_diff _ _); cbn; [|done]. rewrite IH, (IH _ b). destruct (rollback_loop _ _ _ _ false) as [[? ?]|]; cbn; [|done].
  by rewrite orb_assoc.
Qed.

(** The time of the account only survives if no diff is undone. *)
Lemma rollback_loop_time slots m t a w : prod_map Datatypes.id (set_time 0) <$> rollback_loop env slots m (set_time t a) w = prod_map Datatypes.id (set_time 0) <$> rollback_loop env slots m a w.
Proof.
  revert w. induction slots as [|k slots IH]; intros w; cbn [rollback_loop]; [done|]. destruct (slotDiff env k m) as [s|]; cbn [mbind option_bind]; [|done].
  change (AccID (set_time t a)) with (AccID a). destruct (Has (AccID a) s); cbn [negb]; [|apply IH]. destruct (Load (AccID a) s) as [[d b]|]; cbn [mbind option_bind]; [|done]. by rewrite !rollback_diff_spec.
Qed.
(** Rolling back one slot whose diff restores [a]. *)
Lemma rollback_loop_step latest target m m' a a1 d (w : bool) : target <= latest -> pruned env (latest + 1) = false ->
  (forall k, k <> latest + 1 -> slotDiffs m' !! k = slotDiffs m !! k) ->
  let s' := default NewAccountDiffs (slotDiffs m' !! (latest + 1)) in
  diffChangeStore s' !! AccID a1 = Some d -> (AccID a1 ∈ destroyedStore s' <-> w = true) -> rollback_diff d a1 = Some a ->
  rollback_loop env (slots_down (latest + 1) target) m' a1 false =
    '(w', a') ← rollback_loop env (slots_down latest target) m a false; Some (w || w', a').
Proof.
  intros Hle Hpr Hk s' Hd Hw Hr. rewrite slots_down_S by done. cbn [rollback_loop]. unfold slotDiff at 1. rewrite Hpr. cbn [mbind option_bind].
  fold s'. unfold Has, Load. rewrite Hd. rewrite bool_decide_true by eauto. cbn [negb mbind option_bind]. rewrite Hr. cbn [mbind option_bind orb].
  rewrite rollback_loop_flag. rewrite (rollback_loop_ext _ m m') by (intros k Hin%elem_of_slots_down; apply Hk; lia).
  assert (bool_decide (AccID a1 ∈ destroyedStore s') = w) as -> by (case_bool_decide; destruct w; naive_solver). done.
Qed.
End Steps.

(** ** History *)
Section History.
Context `{!SafeMath} `{!SafeMathSpec _} `{!RangeOrder AccountID} `{!RangeOrder BlockID} (env : AEnv).

(** *** What happens to the diff of one account before it is committed *)
Section Entry.
Context (id : AccountID) (P : AccountDiff -> Prop) (m : Manager).
Context (Hburn : forall B d, P d -> P (with_BICChange B d)) (Hsignal : forall new d, P d -> P (with_VersionAndHash (LatestSupportedProtocolVersionAndHash (default (NewAccountData id) (accountsTree m !! id))) new d)).
Definition entry_ok (diffs : Diffs) : Prop := forall d, default (Some NewAccountDiff) (diffs !! id) = Some d -> P d.
Lemma efold_entry {B} (body : Diffs -> B -> eprog Manager Diffs) l diffs diffs' m' : (forall x e x' m1, body x e m = Ret (Some x', m1) -> m1 = m /\ (entry_ok x -> entry_ok x')) ->
  efold body l diffs m = Ret (Some diffs', m') -> entry_ok diffs -> entry_ok diffs'.
Proof.
  intros Hb. revert diffs. induction l as [|e l IH]; intros diffs; cbn; [by intros [= <- <-]|]. intros (x & m1 & H1 & H2)%eprog_bind_Ret Hd. destruct (Hb _ _ _ _ H1) as [-> Hx]. eapply IH; [exact H2|auto].
Qed.
Lemma entry_insert (diffs : Diffs) j d0 d : default (Some NewAccountDiff) (diffs !! j) = Some d0 -> (j = id -> P d0 -> P d) -> entry_ok diffs -> entry_ok (<[j := Some d]> diffs).
Proof.
  intros Hj Hd Hok x. destruct (decide (j = id)) as [->|]; [rewrite lookup_insert_eq; cbn; intros [= <-]; apply Hd; [done|]; by apply Hok|rewrite lookup_insert_ne by done; apply Hok].
Qed.
Lemma burns_entry slot rmc diffs diffs' m' : updateSlotDiffWithBurns env slot rmc diffs m = Ret (Some diffs', m') -> entry_ok diffs -> entry_ok diffs'.
Proof.
  unfold updateSlotDiffWithBurns. intros (b & m1 & [= <- <-] & Hr)%eprog_bind_Ret. apply eprog_bind_Ret in Hr as (b' & m2 & [= _ <-] & Hr). eapply efold_entry; [|exact Hr]. intros x [j v] x' m3. unfold burn_diff.
  intros (d & m5 & Hd & Hx)%eprog_bind_Ret. injection Hx as <- <-. unfold ederef, elift, deref in Hd. cbn [fst] in *. destruct (default (Some NewAccountDiff) (x !! j)) as [d0|] eqn:E; cbn in Hd; [|done]. injection Hd as <- <-. split; [done|]. eapply entry_insert; [exact E|auto].
Qed.
Lemma signals_entry slot diffs diffs' m' : updateSlotDiffWithVersionSignals slot diffs m = Ret (Some diffs', m') -> entry_ok diffs -> entry_ok diffs'.
Proof.
  unfold updateSlotDiffWithVersionSignals. intros (sg & m1 & [= <- <-] & Hr)%eprog_bind_Ret. destruct (latestSupportedVersionSignals m !! slot) as [sg|]; [|by injection Hr as <- _]. eapply efold_entry; [|exact Hr]. intros x [j v] x' m3. unfold signal_diff.
  intros (y & m5 & [= <- <-] & Hx)%eprog_bind_Ret. cbv zeta in Hx. case_match; [|by injection Hx as <- <-]. apply eprog_bind_Ret in Hx as (d & m6 & Hd & Hx). injection Hx as <- <-. unfold ederef, elift, deref in Hd.
  destruct (default (Some NewAccountDiff) (x !! j)) as [d0|] eqn:E; cbn in Hd; [|done]. injection Hd as <- <-. split; [done|]. eapply entry_insert; [exact E|]. intros ->. auto.
Qed.
(** What holds of the diff that is supplied holds of the one that is stored. *)
Lemma ApplyDiff_entry slot rmc diffs destroyed diffs' m' d : ApplyDiff env slot rmc diffs destroyed m = Ret (Some diffs', m') -> entry_ok diffs -> id ∉ destroyed -> diffs' !! id = Some (Some d) -> P d.
Proof.
  unfold ApplyDiff. intros (l & m0 & [= <- <-] & Hrun)%eprog_bind_Ret Hok Hnd Hd. destruct (decide (slot <> u32 (latestCommittedSlot m + 1))); [done|].
  apply eprog_bind_Ret in Hrun as (d1 & m1 & Hb & Hrun). pose proof (burns_entry _ _ _ _ _ Hb Hok) as Hok1. apply burns_reads in Hb as ->.
  apply eprog_bind_Ret in Hrun as (d2 & m2 & Hs & Hrun). pose proof (signals_entry _ _ _ _ Hs Hok1) as Hok2. apply signals_reads in Hs as ->.
  apply eprog_bind_Ret in Hrun as (d3 & m3 & [= <- <-] & Hrun). apply eprog_bind_Ret in Hrun as (d4 & m4 & Hcommit & Hrun). apply eprog_bind_Ret in Hrun as ([] & m5 & _ & Hrun). injection Hrun as <- _.
  apply commit_fold in Hcommit as (_ & Hother & Hin); [|apply range_NoDup].
  assert (Hp : preserve_destroyed destroyed m d2 !! id = d2 !! id) by (unfold preserve_destroyed; rewrite map_lookup_imap; destruct (d2 !! id); cbn; [by rewrite decide_False|done]).
  destruct (d2 !! id) as [x|] eqn:Ex.
  - specialize (Hin id x (proj2 (elem_of_range _ _ _) Hp)). rewrite decide_False in Hin by done. destruct Hin as (d0 & a & dd & -> & Hc & _ & Hdd). rewrite Hd in Hdd. injection Hdd as <-. assert (P d0) by (apply Hok2; by rewrite Ex).
    rewrite commit_diff_spec in Hc. cbv zeta in Hc. destruct (commit_credits _ _ _ _ _) as [[c B]|]; [|done]. cbn [mbind option_bind] in Hc. 
    destruct (SafeAdd _ _ (ValidatorStakeChange d0)); cbn [mbind option_bind] in Hc; [|done]. destruct (SafeAdd _ _ (DelegationStakeChange d0)); cbn [mbind option_bind] in Hc; [|done].
    destruct (SafeAdd _ _ (StakeEndEpochChange d0)); cbn [mbind option_bind] in Hc; [|done]. destruct (SafeAdd _ _ (FixedCostChange d0)); cbn [mbind option_bind] in Hc; [|done]. injection Hc as _ <-. auto.
  - destruct (Hother id) as [_ Heq]; [|rewrite Hd, Hp in Heq; discriminate Heq]. intros Hx. apply list_elem_of_fmap in Hx as ([j x] & -> & Hx). apply elem_of_range in Hx. cbn in Hp. congruence.
Qed.
End Entry.

(** A supplied diff fits the account and leaves the version it supports to the signals. *)
Definition supplied_fits (a : AccountData) (d : AccountDiff) : Prop := diff_fits a d /\ PrevLatestSupportedVersionAndHash d = NewLatestSupportedVersionAndHash d.
Definition stakes_int64 (a : AccountData) : Prop := in_range Int64 (ValidatorStake a) /\ in_range Int64 (DelegationStake a) /\ in_range Int64 (FixedCost a).
Lemma stored_fits slot rmc diffs destroyed m diffs' m' id a d : ApplyDiff env slot rmc diffs destroyed m = Ret (Some diffs', m') -> accountsTree m !! id = Some a -> account_ok a ->
  (forall d, diffs !! id = Some (Some d) -> supplied_fits a d) -> id ∉ destroyed -> diffs' !! id = Some (Some d) -> diff_fits a d.
Proof.
  intros Hrun Ha Hok Hin Hnd. apply (ApplyDiff_entry id (diff_fits a) m) with (slot := slot) (rmc := rmc) (diffs := diffs) (destroyed := destroyed) (m' := m'); [by intros B x []|by intros new x []; rewrite Ha; split; auto|done| |done].
  intros x. destruct (diffs !! id) as [y|] eqn:E; cbn; [intros ->; by apply Hin|intros [= <-]; by apply new_fits].
Qed.
Lemma stored_time slot rmc diffs destroyed m diffs' m' id t d0 d : ApplyDiff env slot rmc diffs destroyed m = Ret (Some diffs', m') ->
  diffs !! id = Some (Some d0) -> PreviousUpdatedTime d0 = t -> id ∉ destroyed -> diffs' !! id = Some (Some d) -> PreviousUpdatedTime d = t.
Proof.
  intros Hrun Hd0 Ht Hnd. apply (ApplyDiff_entry id (fun d => PreviousUpdatedTime d = t) m) with (slot := slot) (rmc := rmc) (diffs := diffs) (destroyed := destroyed) (m' := m'); [done..| |done]. intros x. rewrite Hd0. cbn. by intros [= <-].
Qed.

Lemma commit_diff_fits slot id a d0 a1 d1 : commit_diff env slot (Some a) id d0 = Some (a1, d1) ->
  AccID a1 = AccID a /\ (diff_fits a d1 -> diff_fits a d0).
Proof.
  rewrite commit_diff_spec. cbn zeta. cbn [default from_option Datatypes.id].
  destruct (commit_credits _ _ _ _ _) as [[c B]|]; cbn [mbind option_bind]; [|done].
  destruct (SafeAdd _ _ (ValidatorStakeChange d0)); cbn [mbind option_bind]; [|done].
  destruct (SafeAdd _ _ (DelegationStakeChange d0)); cbn [mbind option_bind]; [|done].
  destruct (SafeAdd _ _ (StakeEndEpochChange d0)); cbn [mbind option_bind]; [|done].
  destruct (SafeAdd _ _ (FixedCostChange d0)); cbn [mbind option_bind]; [|done]. intros [= <- <-]. split; [done|].
  intros [H2 H3 H4 H5 H6 H7 H8 H9 H10]. by split.
Qed.

(** The time the account gets when the slot is undone. *)
Definition restored_time (destroyed : gset AccountID) (a : AccountData) (d : option (option AccountDiff)) : SlotIndex :=
  match d with Some (Some d) => if decide (AccID a ∈ destroyed) then UpdateTime (Credits a) else PreviousUpdatedTime d | _ => UpdateTime (Credits a) end.
Lemma history_rollback slot destroyed m m' (diffs' : Diffs) id a target : slot = latestCommittedSlot m + 1 -> target <= latestCommittedSlot m ->
  pruned env slot = false -> (forall k, k <> slot -> slotDiffs m' !! k = slotDiffs m !! k) ->
  accountsTree m !! id = Some a -> AccID a = id -> account_ok a -> stakes_int64 a ->
  (forall d, id ∉ destroyed -> diffs' !! id = Some (Some d) -> diff_fits a d) ->
  applied env slot destroyed m m' id (diffs' !! id) ->
  let loaded := default (WithCredits (NewBlockIssuanceCredits 0 target) (NewAccountData id)) (accountsTree m' !! id) in
  exists w, rollback_loop env (slots_down slot target) m' loaded false =
    ('(w', a') ← rollback_loop env (slots_down (latestCommittedSlot m) target) m (set_time (restored_time destroyed a (diffs' !! id)) a) false; Some (w || w', a')) /\
    (accountsTree m' !! id = None -> w = true).
Proof.
  intros -> Hle Hpr Hk Ha Hid Hok (Hv & Hdl & Hf) Hun Happ loaded. unfold applied in Happ. unfold restored_time. destruct (diffs' !! id) as [d'|] eqn:Hd'; cbn zeta in Happ.
  - destruct Happ as (Hs & [d ->] & Hds & Happ). specialize (fun H => Hun d H eq_refl). rewrite Hid. destruct (decide (id ∈ destroyed)) as [Hdes|Hdes].
    + destruct Happ as [HT Hp]. unfold loaded. rewrite HT. cbn [default from_option]. rewrite set_time_id.
      destruct (preserve_rollback id a target m Ha Hid Hok Hv Hdl Hf) as (d2 & Hp2 & Hr).
      exists true. split; [|done]. apply (rollback_loop_step env _ _ m m' a _ d); try done; [naive_solver|]. congruence.
    + destruct Happ as (d0 & a1 & d1 & [= ->] & Hc & HT). rewrite Ha in Hc. destruct (commit_diff_fits _ _ _ _ _ _ Hc) as [Hid1 Hfits].
      unfold loaded. rewrite HT. cbn [default from_option Datatypes.id]. exists false. split; [|done].
      apply (rollback_loop_step env _ _ m m' _ a1 d1); try done; [by rewrite Hid1, Hid|rewrite Hid1, Hid; naive_solver|].
      eapply commit_rollback; [done|by apply Hfits, Hun|done].
  - destruct Happ as [HT Hs]. rewrite set_time_id. unfold loaded. rewrite HT, Ha. cbn [default from_option Datatypes.id]. exists false. split; [|done].
    rewrite slots_down_S by done. cbn [rollback_loop]. unfold slotDiff at 1. rewrite Hpr. cbn [mbind option_bind].
    unfold Has. rewrite Hid, Hs. cbn. rewrite (rollback_loop_ext env _ m m') by (intros k Hin%elem_of_slots_down; apply Hk; lia).
    by destruct (rollback_loop _ _ _ _ _) as [[? ?]|].
Qed.

(** C40 Committing a slot does not change history.  Suppose the diffs that are supplied fit the accounts: they record the expiry slot, the output and the keys they replace, and
    do not touch the supported version; stakes fit an int64.  After a successful [ApplyDiff], with whatever burns and version signals the slot has,
    [Account] answers for every earlier slot that is still committable and every account of the previous tree what it answered before, whether the account is untouched, changed or destroyed in the
    slot, but for one field: the time the credits were updated.  That is the same too if the account got no diff, was destroyed, or the supplied diff records the time; burns, signals and transitions
    without an allotment do not record it. *)
Theorem ApplyDiff_preserves_history slot rmc diffs destroyed m diffs' m' id a target :
  pruned env slot = false -> slotDiffs m !! slot = None -> in_range Uint32 (latestCommittedSlot m + 1) ->
  ApplyDiff env slot rmc diffs destroyed m = Ret (Some diffs', m') ->
  accountsTree m !! id = Some a -> AccID a = id -> account_ok a -> stakes_int64 a ->
  (forall d, diffs !! id = Some (Some d) -> supplied_fits a d) ->
  target <= latestCommittedSlot m -> slot <= u32 (target + MaxCommittableAge env target) ->
  option_map (set_time 0) <$> account env id target m' = option_map (set_time 0) <$> account env id target m /\
  (diffs' !! id = None \/ id ∈ destroyed \/ (exists d, diffs !! id = Some (Some d) /\ PreviousUpdatedTime d = UpdateTime (Credits a)) -> account env id target m' = account env id target m).
Proof.
  intros Hpr Hfresh Hrng Hrun Ha Hid Hok Hst Hin Hle Hwin.
  destruct (ApplyDiff_spec env _ _ _ _ _ _ _ Hpr Hfresh Hrng Hrun) as (Hslot & Hl' & Hk & Happ).
  destruct (history_rollback slot destroyed m m' diffs' id a target) as (w & Hrb & Hw); try done.
  { intros d Hnd Hd. by eapply stored_fits. }
  assert (Heq : account env id target m' = ('(w', a') ← rollback_loop env (slots_down (latestCommittedSlot m) target) m (set_time (restored_time destroyed a (diffs' !! id)) a) false; Some (Some a')) /\
    account env id target m = ('(w', a') ← rollback_loop env (slots_down (latestCommittedSlot m) target) m a false; Some (Some a'))).
  { unfold account, rollbackAccountTo. rewrite Hl', Ha. cbn [is_none andb default from_option Datatypes.id] in *. rewrite Hrb.
    rewrite !(proj2 (Z.ltb_ge (u32 _) _)), !andb_false_r, !(proj2 (Z.ltb_ge _ target)) by lia. split; [|by destruct (rollback_loop env _ m a false) as [[]|]].
    destruct (rollback_loop env _ m (set_time _ a) false) as [[w' a']|]; cbn [mbind option_bind]; [|done]. destruct (accountsTree m' !! id); [done|]. by rewrite (Hw eq_refl). }
  destruct Heq as [-> ->]. split.
  - pose proof (rollback_loop_time env (slots_down (latestCommittedSlot m) target) m (restored_time destroyed a (diffs' !! id)) a false) as Ht. destruct (rollback_loop _ _ m (set_time _ a) false) as [[? ?]|], (rollback_loop _ _ m a false) as [[? ?]|]; cbn in *; congruence.
  - intros Hc. assert (Ht : restored_time destroyed a (diffs' !! id) = UpdateTime (Credits a)).
    { unfold restored_time. destruct (diffs' !! id) as [[d|]|] eqn:Hd; [|done..]. rewrite Hid. destruct (decide (id ∈ destroyed)) as [|Hnd]; [done|]. destruct Hc as [?|[?|(d0 & Hd0 & Hd0t)]]; [done|done|]. by eapply stored_time. }
    by rewrite Ht, set_time_id.
Qed.
End History.

(** ** Burns *)
Section Burns.
Context `{!SafeMath} `{!SafeMathSpec _} `{!RangeOrder AccountID} `{!RangeOrder BlockID} (env : AEnv).

(** The cost of a tracked block to an account, and the validation blocks it counts. *)
Definition burn_cost (rmc : Z) (id : AccountID) (bid : BlockID) : Z :=
  match block env bid with
  | Some b => if isBasic b && bool_decide (IssuerID b = id) then u64 (u64 (WorkScore b) * rmc) else 0
  | None => 0
  end.
Definition validation_count (id : AccountID) (bid : BlockID) : Z :=
  match block env bid with
  | Some b => if negb (isBasic b) && isValidation b && bool_decide (IssuerID b = id) then 1 else 0
  | None => 0
  end.

Lemma u64_add_l x y : u64 (u64 x + y) = u64 (x + y).
Proof. apply wrap_eq. destruct (wrap_decomp Uint64 x) as [k ->]. exists k. lia. Qed.

Lemma add_burn_lookup id x burns j :
  default 0 (add_burn id x burns !! j) = if decide (j = id) then u64 (default 0 (burns !! id) + x) else default 0 (burns !! j).
Proof. unfold add_burn. rewrite lookup_insert. repeat case_decide; cbn; subst; done. Qed.

Definition burns_ok (burns : gmap AccountID Z) : Prop := forall id, in_range Uint64 (default 0 (burns !! id)).
Lemma add_burn_ok id x burns : burns_ok burns -> burns_ok (add_burn id x burns).
Proof. intros Hb j. rewrite add_burn_lookup. case_decide; auto with iota. Qed.

Lemma count_burns_spec rmc ids burns counts : (forall i, i ∈ ids -> is_Some (block env i)) -> burns_ok burns ->
  exists burns' counts', count_burns env rmc ids burns counts = Some (burns', counts') /\ burns_ok burns' /\
    (forall id, default 0 (burns' !! id) = u64 (default 0 (burns !! id) + zsum (burn_cost rmc id) ids)) /\
    (forall id, default 0 (counts' !! id) = default 0 (counts !! id) + zsum (validation_count id) ids).
Proof.
  revert burns counts. induction ids as [|i ids IH]; intros burns counts Hf Hok; cbn [count_burns].
  { exists burns, counts. split_and!; try done; intros id; cbn; rewrite Z.add_0_r; [|done]. symmetry. by apply wrap_id. }
  destruct (Hf i) as [b Hb]; [set_solver|]. rewrite Hb. cbn [mbind option_bind].
  assert (Hcost : forall id, burn_cost rmc id i = if isBasic b && bool_decide (IssuerID b = id) then u64 (u64 (WorkScore b) * rmc) else 0)
    by (intros id; unfold burn_cost; by rewrite Hb).
  assert (Hcnt : forall id, validation_count id i = if negb (isBasic b) && isValidation b && bool_decide (IssuerID b = id) then 1 else 0)
    by (intros id; unfold validation_count; by rewrite Hb).
  assert (Hf' : forall j, j ∈ ids -> is_Some (block env j)) by (intros; apply Hf; set_solver).
  set (burns1 := if isBasic b then add_burn (IssuerID b) (u64 (u64 (WorkScore b) * rmc)) burns else burns).
  set (counts1 := if negb (isBasic b) && isValidation b then <[IssuerID b := default 0 (counts !! IssuerID b) + 1]> counts else counts).
  assert (Hok1 : burns_ok burns1) by (unfold burns1; destruct (isBasic b); [by apply add_burn_ok|done]).
  destruct (IH burns1 counts1 Hf' Hok1) as (burns' & counts' & Hrun & Hok' & HB & HC).
  exists burns', counts'. split_and!; try done.
  - rewrite <- Hrun. unfold burns1, counts1. destruct (isBasic b), (isValidation b); done.
  - intros id. rewrite HB. change (zsum (burn_cost rmc id) (i :: ids)) with (burn_cost rmc id i + zsum (burn_cost rmc id) ids).
    rewrite Hcost. unfold burns1. destruct (isBasic b); cbn [andb]; [|f_equal; lia].
    rewrite add_burn_lookup. case_decide as Hid; case_bool_decide; try congruence; [subst id; rewrite u64_add_l; f_equal; lia|f_equal; lia].
  - intros id. rewrite HC. change (zsum (validation_count id) (i :: ids)) with (validation_count id i + zsum (validation_count id) ids).
    rewrite Hcnt. unfold counts1. destruct (negb (isBasic b) && isValidation b); cbn [andb]; [|lia].
    rewrite lookup_insert. repeat (case_decide || case_bool_decide); subst; cbn; try congruence; lia.
Qed.

(** The penalty of a validator that issued [count] blocks. *)
Definition penalty (slot : SlotIndex) (m : Manager) (id : AccountID) (count : Z) : option Z :=
  if ValidationBlocksPerSlot env slot <? count then
    found ← account env id (latestCommittedSlot m) m;
    a ← found;
    p ← ManaGenerationWithDecay env slot (ValidatorStake a) slot (u32 (slot + u32 (EpochDurationSlots env slot * PunishmentEpochs env slot)));
    Some (u64 (u64 (count - ValidationBlocksPerSlot env slot) * p))
  else Some 0.

Lemma punish_spec slot m l burns pen : NoDup l.*1 -> (forall id c, (id, c) ∈ l -> penalty slot m id c = Some (pen id)) ->
  (forall id, id ∉ l.*1 -> pen id = 0) -> burns_ok burns ->
  exists burns', punish env slot m l burns = Some burns' /\
    forall id, default 0 (burns' !! id) = u64 (default 0 (burns !! id) + pen id).
Proof.
  revert burns pen. induction l as [|[x c] l IH]; intros burns pen Hnd Hpen Hout Hok; cbn [punish].
  { exists burns. split; [done|]. intros id. rewrite Hout, Z.add_0_r by set_solver. symmetry. by apply wrap_id. }
  inversion_clear Hnd as [|? ? Hx Hnd']. pose proof (Hpen x c ltac:(set_solver)) as Hc. unfold penalty in Hc.
  set (pen' := fun id => if decide (id = x) then 0 else pen id).
  assert (Hpen' : forall id c0, (id, c0) ∈ l -> penalty slot m id c0 = Some (pen' id)).
  { intros id c0 Hin. unfold pen'. case_decide; [subst id; exfalso; apply Hx, list_elem_of_fmap; by exists (x, c0)|]. apply Hpen. set_solver. }
  assert (Hout' : forall id, id ∉ l.*1 -> pen' id = 0).
  { intros id Hin. unfold pen'. case_decide; [done|]. apply Hout. cbn. set_solver. }
  assert (Hstep : forall burns1, burns_ok burns1 -> (forall id, default 0 (burns1 !! id) =
      if decide (id = x) then u64 (default 0 (burns !! x) + pen x) else default 0 (burns !! id)) ->
    exists burns', punish env slot m l burns1 = Some burns' /\ forall id, default 0 (burns' !! id) = u64 (default 0 (burns !! id) + pen id)).
  { intros burns1 Hok1 Hb1. destruct (IH burns1 pen' Hnd' Hpen' Hout' Hok1) as (burns' & Hrun & Hres). exists burns'. split; [done|].
    intros id. rewrite Hres, Hb1. unfold pen'. case_decide; [subst; rewrite Z.add_0_r; apply wrap_wrap|done]. }
  destruct (ValidationBlocksPerSlot env slot <? c) eqn:Hlt.
  - destruct (account env x _ m) as [[a|]|]; cbn [mbind option_bind] in Hc |- *; try done.
    destruct (ManaGenerationWithDecay _ _ _ _ _) as [p|]; cbn [mbind option_bind] in Hc |- *; [|done]. injection Hc as Hp.
    apply Hstep; [by apply add_burn_ok|]. intros id. rewrite add_burn_lookup, Hp. case_decide; by subst.
  - injection Hc as Hp. apply Hstep; [done|]. intros id. case_decide; [subst|done]. rewrite <- Hp, Z.add_0_r. symmetry. by apply wrap_id.
Qed.

Lemma range_set_elements {K} `{Countable K} `{!RangeOrder K} (X : gset K) : (range_of (gset_to_gmap tt X)).*1 ≡ₚ elements X.
Proof.
  apply NoDup_Permutation; [apply range_NoDup|apply NoDup_elements|]. intros x. rewrite elem_of_elements, list_elem_of_fmap. split.
  - intros ([y []] & -> & Hy%elem_of_range%lookup_gset_to_gmap_Some). by destruct Hy.
  - intros Hx. exists (x, tt). split; [done|]. apply elem_of_range, lookup_gset_to_gmap_Some. done.
Qed.

(** Burns are exact and do not depend on the order in which the block set and
    the counts are iterated: when every tracked block of the slot is found and
    every penalty can be computed, each account burns, modulo 2^64, the sum of the
    costs (work times reference mana cost) of its basic blocks plus the penalty
    for the validation blocks it issued beyond the allowed number. *)
Theorem burns_exact slot rmc m set pen :
  blockBurns m !! slot = Some set -> (forall i, i ∈ set -> is_Some (block env i)) -> 0 <= ValidationBlocksPerSlot env slot ->
  (forall id, penalty slot m id (zsum (validation_count id) (elements set)) = Some (pen id)) ->
  exists burns, computeBlockBurnsForSlot env slot rmc m = Some burns /\
    forall id, default 0 (burns !! id) = u64 (zsum (burn_cost rmc id) (elements set) + pen id).
Proof.
  intros Hset Hfound Hvb Hpen. unfold computeBlockBurnsForSlot. rewrite Hset.
  destruct (count_burns_spec rmc (range_of (gset_to_gmap tt set)).*1 ∅ ∅) as (burns & counts & -> & Hok & HB & HC).
  { intros i. rewrite range_set_elements, elem_of_elements. apply Hfound. }
  { intros id. rewrite lookup_empty. cbn. unfold in_range. cbn. lia. }
  cbn [mbind option_bind].
  assert (Hcount : forall id, default 0 (counts !! id) = zsum (validation_count id) (elements set)).
  { intros id. rewrite HC, lookup_empty. cbn [default from_option]. rewrite (zsum_perm _ _ _ (range_set_elements set)). done. }
  destruct (punish_spec slot m (range_of counts) burns pen) as (burns' & Hrun & Hres); [apply range_NoDup| | |done|].
  - intros id c Hin%elem_of_range. rewrite <- Hpen, <- Hcount, Hin. done.
  - intros id Hnot. specialize (Hpen id). rewrite <- Hcount in Hpen. destruct (counts !! id) as [c|] eqn:Hc.
    { exfalso. apply Hnot, list_elem_of_fmap. exists (id, c). split; [done|]. by apply elem_of_range. }
    unfold penalty in Hpen. cbn in Hpen. rewrite (proj2 (Z.ltb_ge _ _)) in Hpen by lia. congruence.
  - exists burns'. split; [done|]. intros id. rewrite Hres, HB, lookup_empty. cbn [default from_option].
    rewrite Z.add_0_l, u64_add_l, (zsum_perm _ _ _ (range_set_elements set)). done.
Qed.
End Burns.

(** ** Sample runs *)
Section Samples.
#[local] Instance sample_accounts : RangeOrder AccountID := canonical_order AccountID.
#[local] Instance sample_blocks : RangeOrder BlockID := canonical_order BlockID.

(** Mana does not decay here; block [(9, 11)] is a basic block of account 7 with 5 units of work. *)
Definition cost_block : ModelBlock := mkModelBlock (mkBlockID 9 11) 7 0 (mkCommitmentID 0 0) Basic [] 5.
Definition ledger_env : AEnv :=
  mkAEnv (fun _ => 10) (fun _ => 10) (fun _ => 1) (fun _ => 8) (fun _ v _ _ => Some v) (fun _ v _ _ => Some v) (fun _ => false)
    (fun id => if decide (id = ID cost_block) then Some cost_block else None)
    (fun b => mkSignaledBlock (bid_hash (ID b)) (IssuingTime b) 2 0).

Definition key1 : BlockIssuerKey := Ed25519PublicKeyBlockIssuerKey 1.
Definition key2 : BlockIssuerKey := Ed25519PublicKeyBlockIssuerKey 2.
(** Account 7: 100 credits as of slot 5, output 70, key 1, a stake of 1000. *)
Definition account7 : AccountData := mkAccountData 7 (mkCredits 100 5) 50 70 {[key1]} 1000 0 0 3 noVersionAndHash.
Definition ledger10 : Manager := mkManager ∅ ∅ 10 {[7 := account7]} ∅.
(** It is transitioned to output 71 with key 2 for key 1, 20 more credits and 500 more stake. *)
Definition diff7 : AccountDiff := mkAccountDiff 20 5 60 50 71 70 {[key2]} {[key1]} 500 0 2 0 noVersionAndHash noVersionAndHash.

Definition after (r : outcome (option Diffs * Manager)) : Manager := match r with Ret (_, m) => m | _ => New end.
Definition committed11 : Manager := after (ApplyDiff ledger_env 11 1 {[7 := Some diff7]} ∅ ledger10).

Lemma account7_ok : account_ok account7.
Proof. by split; vm_compute. Qed.

(** Account 7 issues a block in slot 11 as well, whose cost is burned. *)
Definition committed_burning : Manager := after (ApplyDiff ledger_env 11 1 {[7 := Some diff7]} ∅ (TrackBlock ledger_env cost_block ledger10)).
Lemma ApplyDiff_preserves_history_witness :
  accountsTree committed_burning !! 7 <> accountsTree ledger10 !! 7 /\
  account ledger_env 7 10 committed_burning = account ledger_env 7 10 (TrackBlock ledger_env cost_block ledger10).
Proof.
  split; [vm_compute; discriminate|]. destruct (ApplyDiff ledger_env 11 1 {[7 := Some diff7]} ∅ (TrackBlock ledger_env cost_block ledger10)) as [[[diffs'|] m']| |] eqn:E; try (exfalso; vm_compute in E; discriminate E).
  assert (Hm : committed_burning = m') by (unfold committed_burning; rewrite E; reflexivity). rewrite Hm.
  apply (ApplyDiff_preserves_history ledger_env 11 1 {[7 := Some diff7]} ∅ (TrackBlock ledger_env cost_block ledger10) diffs' m' 7 account7 10).
  - reflexivity.
  - reflexivity.
  - vm_compute. by split.
  - exact E.
  - reflexivity.
  - reflexivity.
  - apply account7_ok.
  - unfold stakes_int64, in_range. cbn. lia.
  - intros d [= <-]%lookup_singleton_Some%proj2. split; [|reflexivity].
    split; cbn; [by right|by right|clear; set_solver|clear; set_solver|by left|split; done..|split; split; done].
  - vm_compute. discriminate.
  - vm_compute. discriminate.
  - right. right. exists diff7. split; reflexivity.
Defined.

Definition burning : Manager := TrackBlock ledger_env cost_block ledger10.

Lemma burns_exact_witness :
  exists burns, computeBlockBurnsForSlot ledger_env 11 3 burning = Some burns /\
    forall id, default 0 (burns !! id) = u64 (zsum (burn_cost ledger_env 3 id) (elements ({[ID cost_block]} : gset BlockID)) + 0).
Proof.
  apply (burns_exact ledger_env 11 3 burning {[ID cost_block]} (fun _ => 0)).
  - vm_compute. reflexivity.
  - intros i ->%elem_of_singleton. vm_compute. eauto.
  - vm_compute. discriminate.
  - intros id. vm_compute. reflexivity.
Defined.

(** Burns and version signals make [Account] forget when credits were updated.
    The diff they create records 0 as the previous update time, and
    [rollbackAccountTo] writes it into the account: account 7, last updated in
    slot 5, burns 5 mana in slot 11; asked about slot 10, the ledger answers with
    the right value but an update time of 0, before the burn it answered 5. *)
Theorem burn_forgets_update_time :
  let m' := after (ApplyDiff ledger_env 11 1 ∅ ∅ burning) in
  (option_map Credits <$> account ledger_env 7 10 burning) = Some (Some (mkCredits 100 5)) /\
  (option_map Credits <$> account ledger_env 7 11 m') = Some (Some (mkCredits 95 11)) /\
  (option_map Credits <$> account ledger_env 7 10 m') = Some (Some (mkCredits 100 0)).
Proof. vm_compute. done. Qed.

(** Account 7 is destroyed in slot 11. *)
Definition destroyed11 : Manager := after (ApplyDiff ledger_env 11 1 {[7 := Some NewAccountDiff]} {[7]} ledger10).

(** [Rollback] undoes the diff of a destroyed account twice.  [Stream] visits a
    destroyed account once for its mark and once for its diff, and each visit rolls the
    account back to the target slot: 100 credits and a stake of 1000 become 200
    and 2000, while [Account] restores them correctly. *)
Theorem Rollback_doubles_destroyed :
  accountsTree destroyed11 !! 7 = None /\ account ledger_env 7 10 destroyed11 = Some (Some account7) /\
  match Rollback ledger_env 10 destroyed11 with
  | Ret (Some _, m) => (fun a => (Value (Credits a), ValidatorStake a)) <$> accountsTree m !! 7
  | _ => None
  end = Some (200, 2000).
Proof. vm_compute. done. Qed.

(** [Account] reports an account as existing before it was created: account 8,
    created in slot 11, does not exist at slot 10, but after slot 11 is committed
    the ledger answers for slot 10 with an empty account that already has the
    output of its creation. *)
Theorem account_before_creation :
  let created := mkAccountDiff 30 0 60 0 80 EmptyOutputID {[key1]} ∅ 0 0 0 0 noVersionAndHash noVersionAndHash in
  let m' := after (ApplyDiff ledger_env 11 1 {[8 := Some created]} ∅ ledger10) in
  account ledger_env 8 10 ledger10 = Some None /\
  account ledger_env 8 10 m' = Some (Some (WithOutputID 80 (NewAccountData 8))).
Proof. vm_compute. done. Qed.
End Samples.

(** Negative credits are decayed as the uint64 they convert to. *)
Lemma negative_credits_decayed_unsigned `{!SafeMath} env slot id a d :
  - 2 ^ 63 <= Value (Credits a) < 0 -> BICChange d <> 0 ->
  ManaWithDecay env slot (2 ^ 64 + Value (Credits a)) (UpdateTime (Credits a)) slot = None ->
  commit_diff env slot (Some a) id d = None.
Proof.
  intros Hv Hb Hdecay. rewrite commit_diff_spec. unfold commit_credits. rewrite (bool_decide_true (BICChange d <> 0)) by done. cbn [orb default from_option Datatypes.id].
  assert (u64 (Value (Credits a)) = 2 ^ 64 + Value (Credits a)) as ->.
  { rewrite <- (wrap_id Uint64 (2 ^ 64 + _)) by (unfold in_range; cbn; lia). apply wrap_eq. exists (-1). cbn. lia. }
  by rewrite Hdecay.
Qed.
