(* ===== verification/Mana.v ===== *)
(** * Mana of accounts (engine/accounts/mana.go, engine/accounts/mana/manager.go)

    The manager answers the scheduler's question how much mana an account has in
    a slot.  The mana of an account is its block issuance credits plus the stored
    and potential mana of its account output, both brought to one update time; the
    result is cached and updated when a slot is committed.

    Parameters: the LRU cache (a third-party package: [Cache], which may forget
    entries), the ledger functions that resolve outputs and accounts, the storage
    deposit and the decay functions of iota.go.  An error is [None]. *)
From S2P Require Import Prelude Block Accounts.

(** ** github.com/zyedidia/generic/cache *)
Class Cache (C V : Type) := {
  cache_empty : C;
  cache_get : AccountID -> C -> option V;
  cache_put : AccountID -> V -> C -> C;
  cache_remove : AccountID -> C -> C;
}.

(** A stored entry is found until it is removed or evicted; other entries are kept or evicted. *)
Class CacheSpec (C V : Type) `{!Cache C V} : Prop := {
  get_empty k : cache_get k cache_empty = None;
  get_put_eq k v c : cache_get k (cache_put k v c) = Some v;
  get_put_ne k j v c x : j <> k -> cache_get j (cache_put k v c) = Some x -> cache_get j c = Some x;
  get_remove_eq k c : cache_get k (cache_remove k c) = None;
  get_remove_ne k j c x : j <> k -> cache_get j (cache_remove k c) = Some x -> cache_get j c = Some x;
}.

#[export] Instance map_cache {V} : Cache (gmap AccountID V) V :=
  {| cache_empty := ∅; cache_get k c := c !! k; cache_put k v c := <[k := v]> c; cache_remove k c := delete k c |}.
#[export] Instance map_cache_spec {V} : CacheSpec (gmap AccountID V) V.
Proof.
  split; cbn.
  - intros k. apply lookup_empty.
  - intros k v c. apply lookup_insert_eq.
  - intros k j v c x Hne. by rewrite lookup_insert_ne.
  - intros k c. apply lookup_delete_eq.
  - intros k j c x Hne. by rewrite lookup_delete_ne.
Qed.

(** ** accounts.Mana *)
Record Mana := mkMana { value : Z; excessBaseTokens : Z; updateTime : SlotIndex }.
Definition NewMana (v e : Z) (t : SlotIndex) : Mana := mkMana v e t.

(** What the manager reads of an account output. *)
Record Output := mkOutput { BaseTokenAmount : Z; StoredMana : Z; SlotCreated : SlotIndex; MinDeposit : SlotIndex -> option Z }.

Record MEnv := mkMEnv {
  accountOutputResolve : AccountID -> SlotIndex -> option Output;
  accountRetrieve : AccountID -> SlotIndex -> option (option AccountData);
  ManaWithDecay : SlotIndex -> Z -> SlotIndex -> SlotIndex -> option Z;
  ManaGenerationWithDecay : SlotIndex -> Z -> SlotIndex -> SlotIndex -> option Z;
}.

Section Manager.
Context `{!SafeMath} {C : Type} `{!Cache C Mana} `{!RangeOrder AccountID}.

Section Env.
Context (env : MEnv).

Definition getBIC (id : AccountID) (slot : SlotIndex) : option (Z * SlotIndex) :=
  found ← accountRetrieve env id slot;
  a ← found;
  if Value (Credits a) <=? 0 then Some (0, 0) else Some (u64 (Value (Credits a)), UpdateTime (Credits a)).

(** [lo.PanicOnErr] of the minimal deposit is the only panic. *)
Definition getMana (id : AccountID) (output : Output) (slot : SlotIndex) : outcome (option Mana) :=
  match getBIC id slot with
  | None => Ret None
  | Some (bic, bicUpdateTime) =>
      minDeposit ← deref (MinDeposit output slot);
      let excess := default 0 (SafeSub Uint64 (BaseTokenAmount output) minDeposit) in
      let created := SlotCreated output in
      if (slot <? created) || (slot <? bicUpdateTime) then Ret None
      else Ret (
        if created <? bicUpdateTime then
          manaPotential ← ManaGenerationWithDecay env slot excess created bicUpdateTime;
          manaStored ← ManaWithDecay env slot (StoredMana output) created bicUpdateTime;
          manaStoredPotential ← SafeAdd Uint64 manaStored manaPotential;
          totalMana ← SafeAdd Uint64 bic manaStoredPotential;
          Some (NewMana totalMana excess bicUpdateTime)
        else if bicUpdateTime <? created then
          bicWithDecay ← ManaWithDecay env slot bic bicUpdateTime created;
          totalMana ← SafeAdd Uint64 bicWithDecay (StoredMana output);
          Some (NewMana totalMana excess created)
        else
          totalMana ← SafeAdd Uint64 bic (StoredMana output);
          Some (NewMana totalMana excess created))
  end.

(** The mana of an entry at a later slot. *)
Definition mana_at (slot : SlotIndex) (mana : Mana) : option Z :=
  if decide (slot = updateTime mana) then Some (value mana)
  else
    manaWithDecay ← ManaWithDecay env slot (value mana) (updateTime mana) slot;
    manaPotential ← ManaGenerationWithDecay env slot (excessBaseTokens mana) (updateTime mana) slot;
    SafeAdd Uint64 manaWithDecay manaPotential.

(** Mana computed from scratch. *)
Definition scratch (id : AccountID) (slot : SlotIndex) : outcome (option Mana) :=
  match accountOutputResolve env id slot with
  | None => Ret None
  | Some output => getMana id output slot
  end.

Definition GetManaOnAccount (id : AccountID) (slot : SlotIndex) : eprog C Z :=
  cached ← eread (cache_get id);
  let scratch_path : eprog C Z :=
    mana ← elift (scratch id slot);
    mana ← etry mana;
    _ ← (if is_none cached then eupdate (cache_put id mana) else mret tt : eprog C unit);
    etry (mana_at slot mana) in
  match cached with
  | None => scratch_path
  | Some mana => if slot <? updateTime mana then scratch_path else etry (mana_at slot mana)
  end.

(** One iteration of the loop of [ApplyDiff] over the diffs; diffs are not nil here. *)
Definition apply_entry (slot : SlotIndex) (accountOutputs : gmap AccountID Output) (_ : unit) (e : AccountID * AccountDiff) : eprog C unit :=
  cached ← eread (cache_get e.1);
  if is_none cached then mret tt
  else
    accountOutput ← match accountOutputs !! e.1 with
      | Some output => mret (Some output)
      | None => if decide (BICChange e.2 = 0) then mret None
                else output ← etry (accountOutputResolve env e.1 slot); mret (Some output)
      end : eprog C (option Output);
    match accountOutput with
    | None => mret tt
    | Some output =>
        mana ← elift (getMana e.1 output slot);
        mana ← etry mana;
        eupdate (cache_put e.1 mana)
    end.

Definition ApplyDiff (slot : SlotIndex) (destroyed : gset AccountID) (accountOutputs : gmap AccountID Output) (diffs : gmap AccountID AccountDiff) : eprog C unit :=
  _ ← eupdate (fun c => foldl (fun c id => cache_remove id c) c (range_of (gset_to_gmap tt destroyed)).*1);
  efold (apply_entry slot accountOutputs) (range_of diffs) tt.
End Env.

(** ** Coherence *)
Context `{!SafeMathSpec _} `{!CacheSpec C Mana} (env : MEnv).

(** Every cached entry is what the ledger at the committed slot gives from scratch. *)
Definition coherent (slot : SlotIndex) (c : C) : Prop :=
  forall id mana, cache_get id c = Some mana -> scratch env id slot = Ret (Some mana).

Definition from_scratch (id : AccountID) (slot : SlotIndex) (keep : bool) (c : C) : outcome (option Z * C) :=
  match scratch env id slot with
  | Ret (Some mana) => Ret (mana_at env slot mana, if keep then cache_put id mana c else c)
  | Ret None => Ret (None, c)
  | Panic => Panic
  | OutOfFuel => OutOfFuel
  end.

Lemma GetMana_cases id slot c : GetManaOnAccount env id slot c =
  match cache_get id c with
  | None => from_scratch id slot true c
  | Some mana => if slot <? updateTime mana then from_scratch id slot false c else Ret (mana_at env slot mana, c)
  end.
Proof.
  unfold GetManaOnAccount, from_scratch, mbind, eprog_bind, eread, elift, etry, eupdate, mret, eprog_ret.
  destruct (cache_get id c) as [mana|]; cbn; [destruct (slot <? updateTime mana); [|done]|];
    by destruct (scratch env id slot) as [[?|]| |].
Qed.

Lemma scratch_returns id slot : scratch env id slot <> OutOfFuel.
Proof. unfold scratch, getMana, deref, mbind, outcome_bind. repeat case_match; done. Qed.

Lemma coherent_put slot id mana c : coherent slot c -> scratch env id slot = Ret (Some mana) -> coherent slot (cache_put id mana c).
Proof.
  intros Hc Hs j x Hj. destruct (decide (j = id)) as [->|Hne].
  - rewrite get_put_eq in Hj. congruence.
  - apply get_put_ne in Hj; [|done]. by apply Hc.
Qed.

(** Caching is invisible at the committed slot.  With a coherent cache
    [GetManaOnAccount] for the committed slot returns (value, error or panic) exactly
    what it returns with an empty cache, leaves the cache coherent, and the
    value is the account's mana from scratch, decayed and grown to the slot. *)
Theorem GetMana_transparent id slot c : coherent slot c ->
  (forall mana, scratch env id slot = Ret (Some mana) -> updateTime mana <= slot) ->
  match GetManaOnAccount env id slot c, GetManaOnAccount env id slot (cache_empty : C) with
  | Ret (r, c'), Ret (r', _) => r = r' /\ coherent slot c' /\
      r = match scratch env id slot with Ret (Some mana) => mana_at env slot mana | _ => None end
  | Panic, Panic => scratch env id slot = Panic
  | _, _ => False
  end.
Proof.
  intros Hc Ht. rewrite !GetMana_cases, get_empty. unfold from_scratch. pose proof (scratch_returns id slot) as Hnf.
  destruct (cache_get id c) as [mana|] eqn:Hget.
  - pose proof (Hc id mana Hget) as Hs. rewrite Hs. rewrite (proj2 (Z.ltb_ge _ _)) by (by apply Ht). done.
  - destruct (scratch env id slot) as [[mana|]| |] eqn:Hs; try done. split_and!; try done. by apply coherent_put.
Qed.

End Manager.

(** ** Committing a slot keeps the cache coherent *)
Section Commit.
Context `{!SafeMath} {C : Type} `{!Cache C Mana} `{!CacheSpec C Mana} `{!RangeOrder AccountID}.

(** The ledger before ([env] at [slot]) and after ([env'] at [slot']) a commit. *)
Context (env env' : MEnv) (slot slot' : SlotIndex).
Context (destroyed : gset AccountID) (outputs : gmap AccountID Output) (diffs : gmap AccountID AccountDiff).

(** The diffs describe what changed between the two: an account whose output is not
    in the diff and whose credits do not change keeps its mana, and a new output is the one the ledger resolves. *)
Record describes : Prop := {
  desc_kept : forall id, id ∉ destroyed -> outputs !! id = None \/ diffs !! id = None ->
    (forall d, diffs !! id = Some d -> BICChange d = 0) -> scratch env' id slot' = scratch env id slot;
  desc_output : forall id o, outputs !! id = Some o -> accountOutputResolve env' id slot' = Some o;
}.

Lemma removes_get (l : list AccountID) (c : C) id (x : Mana) :
  cache_get id (foldl (fun c k => cache_remove k c) c l) = Some x -> id ∉ l /\ cache_get id c = Some x.
Proof.
  revert c. induction l as [|k l IH]; intros c; cbn; [set_solver|]. intros [Hl Hg]%IH.
  destruct (decide (id = k)) as [->|Hne]; [by rewrite get_remove_eq in Hg|]. apply get_remove_ne in Hg; set_solver.
Qed.

(** Entries still to be visited are as before the commit, the others as after it. *)
Definition halfway (l : list (AccountID * AccountDiff)) (c : C) : Prop := forall id mana, cache_get id c = Some mana ->
  id ∉ destroyed /\ if decide (id ∈ l.*1) then scratch env id slot = Ret (Some mana) else scratch env' id slot' = Ret (Some mana).

Lemma elem_of_cons_dec (j k : AccountID) (l : list AccountID) {A} (x y : A) :
  (if decide (j ∈ k :: l) then x else y) = if bool_decide (j = k) || (if decide (j ∈ l) then true else false) then x else y.
Proof. case_bool_decide; repeat case_decide; cbn; try done; exfalso; set_solver. Qed.

Lemma apply_fold l c c' : describes -> NoDup l.*1 -> (forall id d, (id, d) ∈ l -> diffs !! id = Some d) -> halfway l c ->
  efold (apply_entry env' slot' outputs) l tt c = Ret (Some tt, c') -> halfway [] c'.
Proof.
  intros [Hkept Hout]. revert c. induction l as [|[id d] l IH]; intros c Hnd Hl Hh; cbn [efold]; [by intros [= <-]|].
  inversion_clear Hnd as [|? ? Hid Hnd'].
  intros ([] & c1 & Hbody & Hrun)%eprog_bind_Ret. refine (IH c1 Hnd' _ _ Hrun); [intros; apply Hl; set_solver|]. clear IH Hrun.
  pose proof (Hl id d ltac:(set_solver)) as Hd.
  assert (Hkeep : (forall mana, cache_get id c = Some mana -> id ∉ destroyed -> scratch env' id slot' = scratch env id slot) -> halfway l c).
  { intros Hk j mana Hj. destruct (Hh j mana Hj) as [Hnd Hs]. split; [done|]. rewrite fmap_cons, (elem_of_cons_dec j) in Hs.
    destruct (decide (j ∈ l.*1)) as [|Hn]; [by rewrite orb_true_r in Hs|]. rewrite orb_false_r in Hs.
    case_bool_decide as Hj'; [subst j; cbn [fst] in *; by rewrite (Hk mana)|done]. }
  assert (Hput : forall mana, cache_get id c <> None -> scratch env' id slot' = Ret (Some mana) -> halfway l (cache_put id mana c)).
  { intros mana Hin Hs j x Hj. destruct (cache_get id c) as [old|] eqn:Hold; [|done]. destruct (Hh id old Hold) as [Hnd _].
    destruct (decide (j = id)) as [->|Hne].
    - rewrite get_put_eq in Hj. injection Hj as <-. split; [done|]. rewrite decide_False by (by intros ?). done.
    - apply get_put_ne in Hj; [|done]. destruct (Hh j x Hj) as [Hnd2 Hs2]. split; [done|]. rewrite fmap_cons, (elem_of_cons_dec j) in Hs2.
      destruct (decide (j ∈ l.*1)) as [|Hn]; [by rewrite orb_true_r in Hs2|]. by rewrite orb_false_r, bool_decide_false in Hs2. }
  apply eprog_bind_Ret in Hbody as (cached & c2 & [= <- <-] & Hbody). cbn [fst snd] in Hbody.
  destruct (cache_get id c) as [old|] eqn:Hold; cbn [is_none] in Hbody.
  2: { injection Hbody as <-. apply Hkeep. intros mana. congruence. }
  apply eprog_bind_Ret in Hbody as (o & c3 & Ho & Hbody).
  assert (c3 = c /\ match o with Some o => accountOutputResolve env' id slot' = Some o
                               | None => outputs !! id = None /\ BICChange d = 0 end) as [-> Hres].
  { destruct (outputs !! id) as [o1|] eqn:Ho1; [injection Ho as <- <-; split; [done|by apply Hout]|].
    case_decide; [by injection Ho as <- <-|]. apply eprog_bind_Ret in Ho as (o1 & c4 & Ho & Ho').
    unfold etry in Ho. destruct (accountOutputResolve env' id slot') as [o2|]; [|done]. injection Ho as -> ->. by injection Ho' as <- <-. }
  destruct o as [o|].
  - apply eprog_bind_Ret in Hbody as (r & c5 & Hr & Hbody). unfold elift in Hr. destruct (getMana env' id o slot') as [mana| |] eqn:Hg; [|done..].
    cbn in Hr. injection Hr as <- <-. apply eprog_bind_Ret in Hbody as (mana' & c6 & Hm & Hbody). unfold etry in Hm. injection Hm as -> <-.
    injection Hbody as <-. apply Hput; [by intros [=]|]. unfold scratch. by rewrite Hres.
  - destruct Hres as [Ho' Hb]. injection Hbody as <-. apply Hkeep. intros _ _ Hnd. apply Hkept; [done|by left|]. intros d' Hd'. congruence.
Qed.
End Commit.

(** Committing a slot keeps the mana cache coherent: when the diffs describe what
    changed in the ledger, a successful [ApplyDiff] leaves a cache in which every
    entry is what the ledger after the commit gives from scratch; destroyed
    accounts are gone from it. *)
Theorem ManaApplyDiff_coherent `{!SafeMath} {C} `{!Cache C Mana} `{!CacheSpec C Mana} `{!RangeOrder AccountID}
    env env' slot slot' destroyed outputs diffs (c c' : C) :
  coherent env slot c -> describes env env' slot slot' destroyed outputs diffs ->
  ApplyDiff env' slot' destroyed outputs diffs c = Ret (Some tt, c') ->
  coherent env' slot' c' /\ forall id, id ∈ destroyed -> cache_get id c' = None.
Proof.
  intros Hc Hdesc Hrun. unfold ApplyDiff in Hrun. apply eprog_bind_Ret in Hrun as ([] & c1 & [= <-] & Hrun).
  set (c1 := foldl _ c _) in Hrun.
  assert (Hh : halfway env env' slot slot' destroyed [] c').
  { eapply apply_fold; [done|..|done].
    - rewrite (range_of_perm diffs). apply NoDup_fst_map_to_list.
    - intros id d. by rewrite elem_of_range.
    - intros id mana [Hid Hg]%removes_get. assert (Hnd : id ∉ destroyed).
      { intros Hin. apply Hid, list_elem_of_fmap. exists (id, tt). split; [done|]. by apply elem_of_range, lookup_gset_to_gmap_Some. }
      split; [done|]. pose proof (Hc id mana Hg) as Hs. case_decide as Hin; [done|].
      assert (Hnone : diffs !! id = None).
      { destruct (diffs !! id) as [d|] eqn:Hd; [|done]. exfalso. apply Hin, list_elem_of_fmap. exists (id, d). split; [done|]. by apply elem_of_range. }
      rewrite <- Hs. apply (desc_kept _ _ _ _ _ _ _ Hdesc); [done|by right|]. congruence. }
  split.
  - intros id mana Hg. destruct (Hh id mana Hg) as [_ Hs]. by rewrite decide_False in Hs by set_solver.
  - intros id Hin. destruct (cache_get id c') as [mana|] eqn:Hg; [|done]. by destruct (Hh id mana Hg).
Qed.

(** ** Sample runs *)
Section Samples.
#[local] Instance sample_mana_order : RangeOrder AccountID := canonical_order AccountID.
Definition mana_account : AccountData := WithCredits (mkCredits 100 5) (NewAccountData 7).
Definition mana_output : Output := mkOutput 1000 50 3 (fun _ => Some 400).
(** Nothing decays and one mana per slot and token is generated. *)
Definition mana_env : MEnv :=
  mkMEnv (fun id _ => if decide (id = 7) then Some mana_output else None)
    (fun id _ => if decide (id = 7) then Some (Some mana_account) else Some None)
    (fun _ v _ _ => Some v) (fun _ t a b => Some (t * (b - a))).
Definition cached_mana : Mana := mkMana 1350 600 5.
Abbreviation mana_cache := ({[7 := cached_mana]} : gmap AccountID Mana).

Lemma mana_cache_coherent : coherent mana_env 10 mana_cache.
Proof. intros id mana. cbn. intros [<- <-]%lookup_singleton_Some. vm_compute. reflexivity. Qed.

Lemma GetMana_transparent_witness :
  match GetManaOnAccount mana_env 7 10 mana_cache, GetManaOnAccount mana_env 7 10 (cache_empty : gmap AccountID Mana) with
  | Ret (r, c'), Ret (r', _) => r = r' /\ coherent mana_env 10 c' /\
      r = match scratch mana_env 7 10 with Ret (Some mana) => mana_at mana_env 10 mana | _ => None end
  | Panic, Panic => scratch mana_env 7 10 = Panic
  | _, _ => False
  end.
Proof.
  apply (GetMana_transparent mana_env 7 10 mana_cache); [apply mana_cache_coherent|].
  intros mana. vm_compute. intros [= <-]. discriminate.
Defined.

(** In slot 11 account 7 is credited 30 more. *)
Definition mana_env' : MEnv :=
  mkMEnv (accountOutputResolve mana_env)
    (fun id _ => if decide (id = 7) then Some (Some (WithCredits (mkCredits 130 11) mana_account)) else Some None)
    (ManaWithDecay mana_env) (ManaGenerationWithDecay mana_env).
Definition mana_diffs : gmap AccountID AccountDiff := {[7 := with_BICChange 30 NewAccountDiff]}.

Lemma ManaApplyDiff_coherent_witness :
  let c' : gmap AccountID Mana := {[7 := mkMana 4980 600 11]} in
  coherent mana_env' 11 c' /\ forall id, id ∈ (∅ : gset AccountID) -> cache_get id c' = None.
Proof.
  apply (ManaApplyDiff_coherent mana_env mana_env' 10 11 ∅ ∅ mana_diffs mana_cache).
  - apply mana_cache_coherent.
  - split; [|done]. intros id _ _ Hd. destruct (decide (id = 7)) as [->|Hne].
    + by specialize (Hd _ eq_refl).
    + unfold scratch. cbn. by rewrite decide_False.
  - vm_compute. reflexivity.
Defined.
End Samples.
