(* ===== verification/Filters.v ===== *)
(** * Block filters (engine/filter/blockfilter, engine/commitmentfilter/accountsfilter)

    The pre-filter checks the version and the issuing time of a received block and
    that the issuer of a validation block is in the committee.  The commitment
    filter checks a solid block against the issuer's account and the reference
    mana cost at the block's commitment slot, and its signature.  Each check ends
    in an event; a handler is the list of events it triggers.

    Parameters: the protocol APIs, the clock, the ledger functions, the mana cost
    of a block and the signature scheme. *)
From S2P Require Import Prelude Block Accounts.

(** ** The pre-filter *)
Inductive PreFilterReason := ErrInvalidBlockVersion | ErrBlockTimeTooFarAheadInFuture | ErrValidatorNotInCommittee.
Inductive PreFilterEvent := BlockPreFiltered (reason : PreFilterReason) | BlockPreAllowed.

Record FEnv := mkFEnv {
  apiVersion : SlotIndex -> Z;                    (* [APIForSlot(slot).Version()] *)
  now : Z;
  maxAllowedWallClockDrift : Z;
  SlotFromTime : Z -> SlotIndex;
  inCommittee : SlotIndex -> AccountID -> bool;   (* [committeeFunc(slot).HasAccount(id)] *)
}.

Definition ProcessReceivedBlock (env : FEnv) (protocolVersion : Z) (b : ModelBlock) : list PreFilterEvent :=
  if decide (apiVersion env (Slot (ID b)) <> protocolVersion) then [BlockPreFiltered ErrInvalidBlockVersion]
  else
    let timeDelta := now env - IssuingTime b in
    if timeDelta <? - maxAllowedWallClockDrift env then [BlockPreFiltered ErrBlockTimeTooFarAheadInFuture]
    else if isValidation b && negb (inCommittee env (SlotFromTime env (IssuingTime b)) (IssuerID b))
    then [BlockPreFiltered ErrValidatorNotInCommittee]
    else [BlockPreAllowed].

(** ** The commitment filter *)
Inductive FilterReason :=
| ErrIssuerAccountNotFound
| ErrBlockVersionInvalid
| ErrRMCNotFound
| ErrFailedToCalculateManaCost
| ErrBurnedInsufficientMana
| ErrNegativeBIC
| ErrAccountExpired
| ErrInvalidSignature.
Inductive FilterEvent := BlockFiltered (reason : FilterReason) | BlockAllowed.

(** An Ed25519 signature, or one of another type. *)
Inductive Signature := Ed25519Signature (publicKey : Z) (signature : Z) | OtherSignature.

Record Payload := mkPayload {
  header : ModelBlock;
  ProtocolVersion : Z;
  MaxBurnedMana : Z;            (* of a basic block *)
  BlockSignature : Signature;
}.

Record CEnv := mkCEnv {
  accountRetrieve : AccountID -> SlotIndex -> option (option AccountData);
  rmcRetrieve : SlotIndex -> option Z;
  APIForVersion : Z -> bool;                         (* is the API of the version known *)
  ManaCost : Payload -> Z -> Z * bool;               (* [basicBlock.ManaCost(rmc, ...)], true when there is no error *)
  publicKeyHash : Z -> Z;                            (* hash of an Ed25519 public key *)
  SigningMessage : Payload -> option Z;
  Verify : Z -> Z -> Z -> bool;
  firstKey : gset BlockIssuerKey -> option BlockIssuerKey;  (* [BlockIssuerKeys[0]] *)
}.

Section CommitmentFilter.
Context (env : CEnv).

(** The public key is a key of the account, or hashes to the key of an implicit account;
    [BlockIssuerKeys[0]] of an account without keys panics. *)
Definition has_key (a : AccountData) (publicKey : Z) : outcome bool :=
  if decide (Ed25519PublicKeyBlockIssuerKey publicKey ∈ BlockIssuerKeys a) then Ret true
  else
    blockIssuerKey ← deref (firstKey env (BlockIssuerKeys a));
    Ret match blockIssuerKey with
        | Ed25519PublicKeyHashBlockIssuerKey h => bool_decide (h = publicKeyHash env publicKey)
        | Ed25519PublicKeyBlockIssuerKey _ => false
        end.

Definition check_signature (p : Payload) (a : AccountData) : outcome (list FilterEvent) :=
  match BlockSignature p with
  | Ed25519Signature publicKey signature =>
      known ← has_key a publicKey;
      if negb known then Ret [BlockFiltered ErrInvalidSignature]
      else match SigningMessage env p with
           | None => Ret [BlockFiltered ErrInvalidSignature]
           | Some msg => if Verify env publicKey msg signature then Ret [BlockAllowed] else Ret [BlockFiltered ErrInvalidSignature]
           end
  | OtherSignature => Ret [BlockFiltered ErrInvalidSignature]
  end.

Definition check_account (p : Payload) (a : AccountData) : outcome (list FilterEvent) :=
  if Value (Credits a) <? 0 then Ret [BlockFiltered ErrNegativeBIC]
  else if ExpirySlot a <? CommitmentSlot (SlotCommitmentID (header p)) then Ret [BlockFiltered ErrAccountExpired]
  else check_signature p a.

(** The events of a failed [APIForVersion] or [ManaCost] are triggered without a
    return; the nil API is dereferenced for a basic block. *)
Definition evaluateBlock (p : Payload) : outcome (list FilterEvent) :=
  let slot := CommitmentSlot (SlotCommitmentID (header p)) in
  match accountRetrieve env (IssuerID (header p)) slot with
  | None => Ret [BlockFiltered ErrIssuerAccountNotFound]
  | Some None => Ret [BlockFiltered ErrIssuerAccountNotFound]
  | Some (Some a) =>
      let apiKnown := APIForVersion env (ProtocolVersion p) in
      let apiEvents := if apiKnown then [] else [BlockFiltered ErrBlockVersionInvalid] in
      match rmcRetrieve env slot with
      | None => Ret (apiEvents ++ [BlockFiltered ErrRMCNotFound])
      | Some rmc =>
          if isBasic (header p) then
            if negb apiKnown then Panic
            else
              let '(manaCost, ok) := ManaCost env p rmc in
              let costEvents := if ok then [] else [BlockFiltered ErrFailedToCalculateManaCost] in
              if MaxBurnedMana p <? manaCost then Ret (apiEvents ++ costEvents ++ [BlockFiltered ErrBurnedInsufficientMana])
              else events ← check_account p a; Ret (apiEvents ++ costEvents ++ events)
          else events ← check_account p a; Ret (apiEvents ++ events)
      end
  end.
End CommitmentFilter.

(** ** Properties *)

(** The pre-filter triggers exactly one event, and allows a block exactly when
    its version is the one of its slot, it is not issued further ahead of the
    clock than the allowed drift, and a validation block's issuer is in the
    committee of the slot of its issuing time. *)
Theorem ProcessReceivedBlock_exact env v b :
  (ProcessReceivedBlock env v b = [BlockPreAllowed] \/ exists r, ProcessReceivedBlock env v b = [BlockPreFiltered r]) /\
  (ProcessReceivedBlock env v b = [BlockPreAllowed] <->
     v = apiVersion env (Slot (ID b)) /\ IssuingTime b <= now env + maxAllowedWallClockDrift env /\
     (Kind b = Validation -> inCommittee env (SlotFromTime env (IssuingTime b)) (IssuerID b) = true)).
Proof.
  unfold ProcessReceivedBlock, isValidation. case_decide as Hv.
  { split; [by right; eexists|]. split; [done|]. intros (-> & _). done. }
  destruct (Z.ltb_spec (now env - IssuingTime b) (- maxAllowedWallClockDrift env)).
  { split; [by right; eexists|]. split; [done|]. intros (_ & ? & _). lia. }
  case_bool_decide as Hk; cbn [andb]; [destruct (inCommittee _ _ _); cbn [negb]|].
  - split; [by left|]. split; [|done]. intros _. split_and!; [done|lia|done].
  - split; [by right; eexists|]. split; [done|]. intros (_ & _ & Hc). by specialize (Hc Hk).
  - split; [by left|]. split; [|done]. intros _. split_and!; [done|lia|done].
Qed.

(** What the commitment filter requires of a block: the issuer's account at the
    commitment slot has non-negative credits, is not expired, and holds the key
    of a valid Ed25519 signature; a basic block burns at least its cost. *)
Definition acceptable (env : CEnv) (p : Payload) (a : AccountData) (rmc : Z) : Prop :=
  (Kind (header p) = Basic -> (ManaCost env p rmc).1 <= MaxBurnedMana p) /\
  0 <= Value (Credits a) /\ CommitmentSlot (SlotCommitmentID (header p)) <= ExpirySlot a /\
  exists publicKey signature msg, BlockSignature p = Ed25519Signature publicKey signature /\ has_key env a publicKey = Ret true /\
    SigningMessage env p = Some msg /\ Verify env publicKey msg signature = true.

Lemma check_account_spec env p a : firstKey env (BlockIssuerKeys a) <> None ->
  exists e, check_account env p a = Ret [e] /\
    (e = BlockAllowed <-> 0 <= Value (Credits a) /\ CommitmentSlot (SlotCommitmentID (header p)) <= ExpirySlot a /\
       exists publicKey signature msg, BlockSignature p = Ed25519Signature publicKey signature /\ has_key env a publicKey = Ret true /\
         SigningMessage env p = Some msg /\ Verify env publicKey msg signature = true).
Proof.
  intros Hk. unfold check_account. destruct (Z.ltb_spec (Value (Credits a)) 0); [eexists; split; [done|]; split; [done|lia]|].
  destruct (Z.ltb_spec (ExpirySlot a) (CommitmentSlot (SlotCommitmentID (header p)))); [eexists; split; [done|]; split; [done|lia]|].
  unfold check_signature. destruct (BlockSignature p) as [pk sg|] eqn:Hsig.
  2: { eexists; split; [done|]; split; [done|]. intros (_ & _ & ? & ? & ? & ? & _). congruence. }
  assert (exists known, has_key env a pk = Ret known) as [known Hknown].
  { unfold has_key. case_decide; [by eexists|]. destruct (firstKey env (BlockIssuerKeys a)) as [k|]; [|done]. cbn. by eexists. }
  rewrite Hknown. cbn [mbind outcome_bind]. destruct known; cbn [negb].
  2: { eexists; split; [done|]; split; [done|]. intros (_ & _ & ? & ? & ? & Hs & Hh & _). congruence. }
  destruct (SigningMessage env p) as [msg|] eqn:Hm.
  2: { eexists; split; [done|]; split; [done|]. intros (_ & _ & ? & ? & ? & _ & _ & ? & _). done. }
  destruct (Verify env pk msg sg) eqn:Hv.
  - eexists; split; [done|]; split; [|done]. intros _. split; [lia|]. split; [lia|]. by exists pk, sg, msg.
  - eexists; split; [done|]; split; [done|]. intros (_ & _ & ? & ? & ? & Hs & _ & ? & Hv'). congruence.
Qed.

(** The commitment filter allows exactly the acceptable blocks.  For a block of a
    known version whose issuer account has a key, and whose mana cost can be
    computed, it triggers exactly one event, and it is [BlockAllowed] exactly
    when the account and the reference mana cost at the commitment slot exist and
    the block is acceptable for them. *)
Theorem evaluateBlock_exact env p :
  let slot := CommitmentSlot (SlotCommitmentID (header p)) in
  APIForVersion env (ProtocolVersion p) = true ->
  (forall rmc, Kind (header p) = Basic -> (ManaCost env p rmc).2 = true) ->
  (forall a, accountRetrieve env (IssuerID (header p)) slot = Some (Some a) -> firstKey env (BlockIssuerKeys a) <> None) ->
  exists e, evaluateBlock env p = Ret [e] /\
    (e = BlockAllowed <-> exists a rmc, accountRetrieve env (IssuerID (header p)) slot = Some (Some a) /\
       rmcRetrieve env slot = Some rmc /\ acceptable env p a rmc).
Proof.
  intros slot Hapi Hcost Hkey. unfold evaluateBlock. fold slot.
  destruct (accountRetrieve env (IssuerID (header p)) slot) as [[a|]|] eqn:Ha.
  2,3: eexists; split; [done|]; split; [done|]; intros (? & ? & ? & _); done.
  destruct (check_account_spec env p a (Hkey a eq_refl)) as (e & He & Hiff). rewrite Hapi. cbn [negb app].
  destruct (rmcRetrieve env slot) as [rmc|] eqn:Hrmc.
  2: { eexists; split; [done|]; split; [done|]. intros (? & ? & _ & ? & _). done. }
  unfold isBasic. case_bool_decide as Hb.
  - specialize (Hcost rmc Hb). destruct (ManaCost env p rmc) as [c ok] eqn:Hc. cbn in Hcost. subst ok. cbn [app].
    destruct (Z.ltb_spec (MaxBurnedMana p) c).
    { eexists; split; [done|]; split; [done|]. intros (a' & rmc' & [= <-] & [= <-] & Hac & _). specialize (Hac Hb). rewrite Hc in Hac. cbn in Hac. lia. }
    rewrite He. cbn [mbind outcome_bind app]. exists e. split; [done|]. rewrite Hiff. split.
    + intros Hok. exists a, rmc. split; [done|]. split; [done|]. split; [intros _; rewrite Hc; cbn; lia|done].
    + by intros (a' & rmc' & [= <-] & [= <-] & _ & Hok).
  - rewrite He. cbn [mbind outcome_bind app]. exists e. split; [done|]. rewrite Hiff. split.
    + intros Hok. exists a, rmc. split; [done|]. split; [done|]. by split.
    + by intros (a' & rmc' & [= <-] & [= <-] & _ & Hok).
Qed.

(** ** Sample runs *)
Definition filter_env (api : bool) (cost : Z * bool) : CEnv :=
  mkCEnv (fun _ _ => Some (Some (mkAccountData 7 (mkCredits 10 1) 100 70 {[Ed25519PublicKeyBlockIssuerKey 5]} 0 0 0 0 noVersionAndHash)))
    (fun _ => Some 1) (fun _ => api) (fun _ _ => cost) Datatypes.id (fun _ => Some 0) (fun pk _ s => bool_decide (pk = s))
    (fun X => head (elements X)).
Definition signed_block (k : BlockKind) : Payload :=
  mkPayload (mkModelBlock (mkBlockID 1 9) 7 0 (mkCommitmentID 0 8) k [] 1) 3 50 (Ed25519Signature 5 5).

Lemma evaluateBlock_exact_witness :
  exists e, evaluateBlock (filter_env true (20, true)) (signed_block Basic) = Ret [e] /\
    (e = BlockAllowed <-> exists a rmc, accountRetrieve (filter_env true (20, true)) 7 8 = Some (Some a) /\
       rmcRetrieve (filter_env true (20, true)) 8 = Some rmc /\ acceptable (filter_env true (20, true)) (signed_block Basic) a rmc).
Proof.
  apply (evaluateBlock_exact (filter_env true (20, true)) (signed_block Basic)); [done|done|].
  intros a [= <-]. vm_compute. discriminate.
Defined.

(** A filtered block can be allowed as well: after a mana cost that cannot be
    computed, and for a validation block of an unknown version, the filter goes on
    after the [BlockFiltered] event and ends with [BlockAllowed]; a basic block of an
    unknown version panics. *)
Theorem filtered_and_allowed :
  evaluateBlock (filter_env true (0, false)) (signed_block Basic) = Ret [BlockFiltered ErrFailedToCalculateManaCost; BlockAllowed] /\
  evaluateBlock (filter_env false (20, true)) (signed_block Validation) = Ret [BlockFiltered ErrBlockVersionInvalid; BlockAllowed] /\
  evaluateBlock (filter_env false (20, true)) (signed_block Basic) = Panic.
Proof. vm_compute. done. Qed.
