(* ===== verification/Eviction.v ===== *)
(** * Eviction and root blocks (pkg/protocol/engine/eviction/state.go)

    The state remembers the last evicted (committed) slot and the root blocks: in
    memory for a window of slots that ends there, and in the slot stores of the
    storage.  The window starts [optsRootBlocksEvictionDelay] slots before the
    latest slot that has root blocks.

    Slots are uint32s.  Parameters: which slot stores are pruned, the ring buffer
    of the latest root blocks, and the order in which a store is streamed.
    Failures of the key-value stores other than pruning are not modelled. *)
From S2P Require Import Prelude Block.

Abbreviation SlotBlocks := (gmap SlotIndex (gmap BlockID CommitmentID)).

Record State := mkState {
  rootBlocks : SlotBlocks;                      (* in memory *)
  latestRootBlocks : list BlockID;
  storage : SlotBlocks;                         (* the slot stores *)
  lastEvictedSlot : SlotIndex;
  nonEmptyStore : option SlotIndex;             (* the key [latestNonEmptySlotKey] *)
  SlotEvicted : list SlotIndex;                 (* triggered events *)
}.

Definition with_rootBlocks v (s : State) := mkState v (latestRootBlocks s) (storage s) (lastEvictedSlot s) (nonEmptyStore s) (SlotEvicted s).
Definition with_storage v (s : State) := mkState (rootBlocks s) (latestRootBlocks s) v (lastEvictedSlot s) (nonEmptyStore s) (SlotEvicted s).
Definition with_nonEmpty v (s : State) := mkState (rootBlocks s) (latestRootBlocks s) (storage s) (lastEvictedSlot s) v (SlotEvicted s).

(** The root blocks of a slot. *)
Definition slot_of (m : SlotBlocks) (slot : SlotIndex) : gmap BlockID CommitmentID := default ∅ (m !! slot).
Definition set_in (id : BlockID) (c : CommitmentID) (m : SlotBlocks) : SlotBlocks := <[Slot id := <[id := c]> (slot_of m (Slot id))]> m.
Definition unset_in (id : BlockID) (m : SlotBlocks) : SlotBlocks := <[Slot id := delete id (slot_of m (Slot id))]> m.

Section State.
Context `{!RangeOrder BlockID} (delay : SlotIndex) (pruned : SlotIndex -> bool) (ringAdd : BlockID -> list BlockID -> list BlockID).

Definition NewState : State := mkState ∅ [] ∅ 0 None [].
Definition Initialize (lastCommittedSlot : SlotIndex) (s : State) : State :=
  mkState (rootBlocks s) (latestRootBlocks s) (storage s) lastCommittedSlot (nonEmptyStore s) (SlotEvicted s).

Definition latestNonEmptySlot (s : State) : SlotIndex := default 0 (nonEmptyStore s).
Definition setLatestNonEmptySlot (slot : SlotIndex) (s : State) : State := with_nonEmpty (Some slot) s.

Definition nonempty (s : State) (slot : SlotIndex) : bool := bool_decide (slot_of (rootBlocks s) slot <> ∅).

(** [for ; slot >= s.lastEvictedSlot; slot--]: the first slot from [slot] downwards with root blocks. *)
Fixpoint find_nonempty (fuel : nat) (slot : SlotIndex) (s : State) : outcome (option SlotIndex) :=
  if slot <? lastEvictedSlot s then Ret None
  else if nonempty s slot then Ret (Some slot)
  else match fuel with
       | O => OutOfFuel
       | S fuel => find_nonempty fuel (u32 (slot - 1)) s
       end.

Definition threshold_fuel (slot : SlotIndex) (s : State) : nat := S (Z.to_nat (slot - lastEvictedSlot s)).

(** [delayedBlockEvictionThreshold]; [None] when nothing should be evicted (the source returns 0 and false). *)
Definition delayedBlockEvictionThreshold_with (fuel : nat) (slot : SlotIndex) (s : State) : outcome (option SlotIndex) :=
  if slot <? delay then Ret None
  else
    found ← find_nonempty fuel slot s;
    let from := match found with Some slot => slot | None => latestNonEmptySlot s end in
    Ret (if delay <=? from then Some (from - delay) else None).
Definition delayedBlockEvictionThreshold (slot : SlotIndex) (s : State) : outcome (option SlotIndex) :=
  delayedBlockEvictionThreshold_with (threshold_fuel slot s) slot s.

Definition activeIndexRange (s : State) : outcome (SlotIndex * SlotIndex) :=
  let lastCommittedSlot := lastEvictedSlot s in
  delayed ← delayedBlockEvictionThreshold lastCommittedSlot s;
  Ret match delayed with
      | None => (0, lastCommittedSlot)
      | Some d => if lastCommittedSlot <? u32 (d + 1) then (d, lastCommittedSlot) else (u32 (d + 1), lastCommittedSlot)
      end.

Definition withinActiveIndexRange (slot : SlotIndex) (s : State) : outcome bool :=
  '(startSlot, endSlot) ← activeIndexRange s; Ret ((startSlot <=? slot) && (slot <=? endSlot)).

Definition AdvanceActiveWindowToIndex (slot : SlotIndex) (s : State) : outcome State :=
  let s := Initialize slot s in
  delayed ← delayedBlockEvictionThreshold slot s;
  let s := match delayed with
           | None => s
           | Some d =>
               let s' := with_rootBlocks (delete d (rootBlocks s)) s in
               if nonempty s d then setLatestNonEmptySlot d s' else s'
           end in
  Ret (mkState (rootBlocks s) (latestRootBlocks s) (storage s) (lastEvictedSlot s) (nonEmptyStore s) (SlotEvicted s ++ [slot])).

Definition InRootBlockSlot (id : BlockID) (s : State) : outcome bool := withinActiveIndexRange (Slot id) s.

Definition ActiveRootBlocks (s : State) : outcome (gmap BlockID CommitmentID) :=
  '(startSlot, endSlot) ← activeIndexRange s;
  Ret (foldl (fun acc slot => slot_of (rootBlocks s) slot ∪ acc) ∅ (seqZ startSlot (endSlot - startSlot + 1))).

Definition AddRootBlock (id : BlockID) (commitmentID : CommitmentID) (s : State) : outcome State :=
  '(startSlot, _) ← activeIndexRange s;
  if Slot id <? startSlot then Ret s
  else
    let isNew := is_none (slot_of (rootBlocks s) (Slot id) !! id) in
    let s := with_rootBlocks (set_in id commitmentID (rootBlocks s)) s in
    s ← (if isNew then if pruned (Slot id) then Panic else Ret (with_storage (set_in id commitmentID (storage s)) s) else Ret s);
    Ret (mkState (rootBlocks s) (ringAdd id (latestRootBlocks s)) (storage s) (lastEvictedSlot s) (nonEmptyStore s) (SlotEvicted s)).

Definition RemoveRootBlock (id : BlockID) (s : State) : outcome State :=
  match slot_of (rootBlocks s) (Slot id) !! id with
  | None => Ret s
  | Some _ =>
      let s := with_rootBlocks (unset_in id (rootBlocks s)) s in
      if pruned (Slot id) then Panic else Ret (with_storage (unset_in id (storage s)) s)
  end.

Definition RootBlockCommitmentID (id : BlockID) (s : State) : outcome (option CommitmentID) :=
  active ← withinActiveIndexRange (Slot id) s;
  Ret (if negb active then None else slot_of (rootBlocks s) (Slot id) !! id).

Definition IsRootBlock (id : BlockID) (s : State) : outcome bool :=
  active ← withinActiveIndexRange (Slot id) s;
  Ret (active && bool_decide (is_Some (slot_of (rootBlocks s) (Slot id) !! id))).

Definition LatestRootBlocks (s : State) : list BlockID :=
  match latestRootBlocks s with [] => [emptyBlockID] | l => l end.

(** The slots [start .. target] whose store is not pruned. *)
Definition stored_slots (start target : SlotIndex) : list SlotIndex :=
  filter (fun slot => pruned slot = false) (seqZ start (target - start + 1)).

(** The last of them, less the delay: what [Export] and [Rollback] record as the latest non-empty slot. *)
Definition rollback_slot (start target : SlotIndex) : SlotIndex :=
  let latest := default 0 (last (stored_slots start target)) in
  if delay <? latest then latest - delay else 0.

Definition threshold_or_0 (slot : SlotIndex) (s : State) : outcome SlotIndex :=
  d ← delayedBlockEvictionThreshold slot s; Ret (default 0 d).

(** [Export]: the root blocks and the slot written to the snapshot. *)
Definition Export (lowerTarget targetSlot : SlotIndex) (s : State) : outcome (list (BlockID * CommitmentID) * SlotIndex) :=
  start ← threshold_or_0 lowerTarget s;
  Ret (stored_slots start targetSlot ≫= (fun slot => range_of (slot_of (storage s) slot)), rollback_slot start targetSlot).

Definition import_entry (s : State) (e : BlockID * CommitmentID) : outcome State :=
  let isNew := is_none (slot_of (rootBlocks s) (Slot e.1) !! e.1) in
  let s := with_rootBlocks (set_in e.1 e.2 (rootBlocks s)) s in
  if isNew then if pruned (Slot e.1) then Panic else Ret (with_storage (set_in e.1 e.2 (storage s)) s) else Ret s.

Fixpoint import_all (l : list (BlockID * CommitmentID)) (s : State) : outcome State :=
  match l with
  | [] => Ret s
  | e :: l => s ← import_entry s e; import_all l s
  end.

Definition Import (snapshot : list (BlockID * CommitmentID) * SlotIndex) (s : State) : outcome State :=
  s ← import_all snapshot.1 s; Ret (setLatestNonEmptySlot snapshot.2 s).

Definition Rollback (lowerTarget targetIndex : SlotIndex) (s : State) : outcome State :=
  start ← threshold_or_0 lowerTarget s;
  Ret (setLatestNonEmptySlot (rollback_slot start targetIndex) s).

Fixpoint add_all (l : list (BlockID * CommitmentID)) (s : State) : outcome State :=
  match l with
  | [] => Ret s
  | (id, c) :: l => s ← AddRootBlock id c s; add_all l s
  end.

Definition PopulateFromStorage (latestCommitmentSlot : SlotIndex) (s : State) : outcome State :=
  start ← threshold_or_0 latestCommitmentSlot s;
  add_all (stored_slots start latestCommitmentSlot ≫= (fun slot => range_of (slot_of (storage s) slot))) s.
End State.

(** ** The window of root blocks *)
Lemma lookup_set_in id c m j :
  slot_of (set_in id c m) (Slot j) !! j = if decide (j = id) then Some c else slot_of m (Slot j) !! j.
Proof.
  unfold set_in, slot_of at 1. rewrite lookup_insert. destruct (decide (Slot id = Slot j)) as [Hs|Hs]; cbn.
  - rewrite lookup_insert, Hs. destruct (decide (id = j)) as [->|]; [by rewrite decide_True|by rewrite decide_False].
  - rewrite decide_False by congruence. done.
Qed.

Lemma lookup_unset_in id m j :
  slot_of (unset_in id m) (Slot j) !! j = if decide (j = id) then None else slot_of m (Slot j) !! j.
Proof.
  unfold unset_in, slot_of at 1. rewrite lookup_insert. destruct (decide (Slot id = Slot j)) as [Hs|Hs]; cbn.
  - rewrite lookup_delete, Hs. destruct (decide (id = j)) as [->|]; [by rewrite decide_True|by rewrite decide_False].
  - rewrite decide_False by congruence. done.
Qed.

Lemma slot_of_delete m d slot : slot_of (delete d m) slot = if decide (slot = d) then ∅ else slot_of m slot.
Proof. unfold slot_of. rewrite lookup_delete. destruct (decide (d = slot)) as [->|]; [by rewrite decide_True|by rewrite decide_False]. Qed.

Section Window.
Context (delay : SlotIndex).

Lemma find_unfold fuel slot s : find_nonempty fuel slot s =
  if slot <? lastEvictedSlot s then Ret None
  else if nonempty s slot then Ret (Some slot)
  else match fuel with O => OutOfFuel | S fuel => find_nonempty fuel (u32 (slot - 1)) s end.
Proof. by destruct fuel. Qed.

(** At the last evicted slot the search looks at that slot only. *)
Lemma threshold_at_last s : 0 < lastEvictedSlot s -> in_range Uint32 (lastEvictedSlot s) ->
  delayedBlockEvictionThreshold delay (lastEvictedSlot s) s =
    Ret (if lastEvictedSlot s <? delay then None
         else let from := if nonempty s (lastEvictedSlot s) then lastEvictedSlot s else latestNonEmptySlot s in
              if delay <=? from then Some (from - delay) else None).
Proof.
  intros Hpos Hr. unfold delayedBlockEvictionThreshold, delayedBlockEvictionThreshold_with.
  destruct (lastEvictedSlot s <? delay); [done|]. unfold threshold_fuel. rewrite Z.sub_diag.
  rewrite find_unfold, Z.ltb_irrefl. destruct (nonempty s (lastEvictedSlot s)); [done|].
  rewrite find_unfold, wrap_id by (unfold in_range in *; cbn in *; lia). rewrite (proj2 (Z.ltb_lt _ _)) by lia. done.
Qed.

(** The slot the window is measured from. *)
Definition base (slot : SlotIndex) (s : State) : SlotIndex := if nonempty s slot then slot else latestNonEmptySlot s.

(** The last slot before the window. *)
Definition window_low (slot : SlotIndex) (s : State) : Z :=
  if decide (delay <= slot /\ delay <= base slot s) then base slot s - delay else -1.

(** The window of root blocks.  Advancing to a slot terminates, records the
    slot as evicted and makes the active root blocks exactly those in memory whose
    slot lies in the window: it ends at the new slot and starts [delay] slots before the
    latest slot with root blocks (at 0 while fewer than [delay] slots have passed);
    in particular no active root block is evicted.  When the new slot has no root
    blocks, the slot [delay] before the recorded latest non-empty one must have been
    evicted already. *)
Theorem root_block_window slot s :
  0 < delay -> 0 < slot -> in_range Uint32 slot -> 0 <= latestNonEmptySlot s <= slot ->
  (nonempty s slot = false -> delay <= latestNonEmptySlot s -> nonempty s (latestNonEmptySlot s - delay) = false) ->
  exists s', AdvanceActiveWindowToIndex delay slot s = Ret s' /\ lastEvictedSlot s' = slot /\
    forall id, 0 <= Slot id -> RootBlockCommitmentID delay id s' =
      Ret (if decide (window_low slot s < Slot id <= slot) then slot_of (rootBlocks s) (Slot id) !! id else None).
Proof.
  intros Hd Hs Hr HL Hev. unfold AdvanceActiveWindowToIndex. set (s0 := Initialize slot s).
  pose proof (threshold_at_last s0 Hs Hr) as Hth. change (lastEvictedSlot s0) with slot in Hth. rewrite Hth. cbn [mbind outcome_bind].
  change (nonempty s0 slot) with (nonempty s slot). change (latestNonEmptySlot s0) with (latestNonEmptySlot s).
  fold (base slot s). assert (Hb : base slot s <= slot) by (unfold base; case_match; lia).
  assert (Hcase : forall s' lo, lastEvictedSlot s' = slot -> (forall x, rootBlocks s' !! x = rootBlocks s !! x \/ (x <= lo /\ 0 <= lo)) ->
    delayedBlockEvictionThreshold delay slot s' = Ret (if decide (0 <= lo) then Some lo else None) -> -1 <= lo < slot ->
    forall id, 0 <= Slot id -> RootBlockCommitmentID delay id s' =
      Ret (if decide (lo < Slot id <= slot) then slot_of (rootBlocks s) (Slot id) !! id else None)).
  { intros s' lo Hlast Hmem Hdel Hlo id Hid. unfold RootBlockCommitmentID, withinActiveIndexRange, activeIndexRange.
    rewrite Hlast, Hdel. cbn [mbind outcome_bind].
    assert (Hlook : (0 <= lo -> lo < Slot id) -> slot_of (rootBlocks s') (Slot id) !! id = slot_of (rootBlocks s) (Slot id) !! id).
    { intros Hin. unfold slot_of. destruct (Hmem (Slot id)) as [->|Hx]; [done|]. lia. }
    destruct (decide (0 <= lo)) as [Hlo0|Hlo0].
    - rewrite (wrap_id Uint32) by (unfold in_range in *; cbn in *; lia). rewrite (proj2 (Z.ltb_ge _ _)) by lia. cbn [mbind outcome_bind].
      case_decide as Hin; [rewrite (proj2 (Z.leb_le _ _)), (proj2 (Z.leb_le _ _)) by lia; cbn; rewrite Hlook by lia; done|].
      destruct (Z.leb_spec (lo + 1) (Slot id)), (Z.leb_spec (Slot id) slot); try done. lia.
    - cbn [mbind outcome_bind]. rewrite (proj2 (Z.leb_le 0 _)) by lia. cbn [andb].
      case_decide as Hin; [rewrite (proj2 (Z.leb_le _ _)) by lia; cbn; rewrite Hlook by lia; done|].
      destruct (Z.leb_spec (Slot id) slot); [lia|done]. }
  unfold window_low. destruct (decide (delay <= slot /\ delay <= base slot s)) as [[H1 H2]|Hn].
  - rewrite (proj2 (Z.ltb_ge _ _)), (proj2 (Z.leb_le _ _)) by lia. eexists. split; [reflexivity|]. set (d := base slot s - delay) in *. assert (Hd0 : 0 <= d < slot) by (unfold d; lia).
    set (s1 := if nonempty s0 d then _ else _). assert (Hs1 : lastEvictedSlot s1 = slot /\ rootBlocks s1 = delete d (rootBlocks s)) by (unfold s1; by destruct (nonempty s0 d)).
    destruct Hs1 as [Hl1 Hr1]. split; [done|]. set (s2 := mkState _ _ _ _ _ _).
    assert (Hne : nonempty s2 slot = nonempty s slot).
    { unfold nonempty, s2. cbn. rewrite Hr1, slot_of_delete, decide_False by lia. done. }
    assert (Hbase : base slot s2 = base slot s).
    { unfold base. rewrite Hne. destruct (nonempty s slot) eqn:Hsl; [done|]. unfold s2, s1. cbn.
      change (nonempty s0 d) with (nonempty s d). unfold d, base. rewrite Hsl. rewrite Hev; [done..|]. unfold base in H2. by rewrite Hsl in H2. }
    assert (Hdel : delayedBlockEvictionThreshold delay slot s2 = Ret (if decide (0 <= d) then Some d else None)).
    { pose proof (threshold_at_last s2) as Ht2. change (lastEvictedSlot s2) with (lastEvictedSlot s1) in Ht2. rewrite Hl1 in Ht2.
      rewrite Ht2 by done. cbn zeta. fold (base slot s2). rewrite Hbase. rewrite (proj2 (Z.ltb_ge _ _)), (proj2 (Z.leb_le _ _)) by lia.
      rewrite decide_True by lia. done. }
    apply Hcase; try done; [|lia]. intros x. unfold s2. cbn. rewrite Hr1, lookup_delete. destruct (decide (d = x)) as [<-|]; [right; lia|by left].
  - replace (if slot <? delay then None else _) with (@None SlotIndex).
    2: { destruct (Z.ltb_spec slot delay); [done|]. cbn zeta. destruct (Z.leb_spec delay (base slot s)); [lia|done]. }
    eexists. split; [reflexivity|]. split; [done|]. set (s2 := mkState _ _ _ _ _ _).
    assert (Hdel : delayedBlockEvictionThreshold delay slot s2 = Ret None).
    { pose proof (threshold_at_last s2) as Ht2. change (lastEvictedSlot s2) with slot in Ht2. rewrite Ht2 by done. cbn zeta.
      change (nonempty s2 slot) with (nonempty s slot). change (latestNonEmptySlot s2) with (latestNonEmptySlot s). fold (base slot s).
      destruct (Z.ltb_spec slot delay); [done|]. cbn zeta. destruct (Z.leb_spec delay (base slot s)); [lia|done]. }
    apply Hcase; try done; [by left|lia].
Qed.
Lemma find_diverges fuel slot s : in_range Uint32 slot -> lastEvictedSlot s = 0 -> (forall x, nonempty s x = false) ->
  find_nonempty fuel slot s = OutOfFuel.
Proof.
  intros Hr Hl Hn. revert slot Hr. induction fuel as [|fuel IH]; intros slot Hr; rewrite find_unfold, Hl, Hn;
    (rewrite (proj2 (Z.ltb_ge _ _)) by (unfold in_range in *; cbn in *; lia)); [done|]. apply IH. auto with iota.
Qed.

(** [delayedBlockEvictionThreshold] never returns when nothing has been evicted yet
    and there are no root blocks: the loop counts the uint32 slot down past 0, where
    it wraps around, and every value is at least the last evicted slot 0. *)
Theorem threshold_diverges fuel slot s : in_range Uint32 slot -> delay <= slot -> lastEvictedSlot s = 0 ->
  (forall x, nonempty s x = false) -> delayedBlockEvictionThreshold_with delay fuel slot s = OutOfFuel.
Proof.
  intros Hr Hd Hl Hn. unfold delayedBlockEvictionThreshold_with. rewrite (proj2 (Z.ltb_ge _ _)) by lia. by rewrite find_diverges.
Qed.

End Window.

(** ** Persistence *)
Section Persistence.
Context `{!RangeOrder BlockID} (delay : SlotIndex) (pruned : SlotIndex -> bool) (ringAdd : BlockID -> list BlockID -> list BlockID).

Definition in_memory (id : BlockID) (s : State) : option CommitmentID := slot_of (rootBlocks s) (Slot id) !! id.
Definition in_storage (id : BlockID) (s : State) : option CommitmentID := slot_of (storage s) (Slot id) !! id.

(** One call of the engine. *)
Inductive evict_step : State -> State -> Prop :=
| step_init slot s : evict_step s (Initialize slot s)
| step_advance slot s s' : AdvanceActiveWindowToIndex delay slot s = Ret s' -> evict_step s s'
| step_add id c s s' : AddRootBlock delay pruned ringAdd id c s = Ret s' -> evict_step s s'
| step_remove id s s' : RemoveRootBlock pruned id s = Ret s' -> evict_step s s'
| step_import snapshot s s' : Import pruned snapshot s = Ret s' -> evict_step s s'
| step_rollback l t s s' : Rollback delay pruned l t s = Ret s' -> evict_step s s'
| step_populate slot s s' : PopulateFromStorage delay pruned ringAdd slot s = Ret s' -> evict_step s s'.

Definition persisted (s : State) : Prop := forall id, is_Some (in_memory id s) -> is_Some (in_storage id s).

(** Setting a root block in memory, and in the storage when it is new, keeps memory below the storage. *)
Lemma persisted_set id c s s' : persisted s ->
  rootBlocks s' = set_in id c (rootBlocks s) ->
  storage s' = (if is_none (in_memory id s) then set_in id c (storage s) else storage s) -> persisted s'.
Proof.
  intros Hp Hr Hst j. unfold in_memory, in_storage. rewrite Hr, Hst, lookup_set_in.
  destruct (is_none (in_memory id s)) eqn:Hn; [rewrite lookup_set_in; case_decide; [by eauto|apply Hp]|].
  case_decide; [subst j|apply Hp]. intros _. apply Hp. by destruct (in_memory id s).
Qed.

Lemma persisted_add id c s s' : persisted s -> AddRootBlock delay pruned ringAdd id c s = Ret s' -> persisted s'.
Proof.
  intros Hp. unfold AddRootBlock. destruct (activeIndexRange delay s) as [[a b]| |]; cbn [mbind outcome_bind]; try done.
  case_match; [by intros [= <-]|]. fold (in_memory id s). destruct (is_none (in_memory id s)) eqn:Hn; [destruct (pruned (Slot id)); [done|]|];
    cbn [mbind outcome_bind]; intros [= <-]; eapply (persisted_set id c s); try done; by rewrite Hn.
Qed.

Lemma persisted_import_all l s s' : persisted s -> import_all pruned l s = Ret s' -> persisted s'.
Proof.
  revert s. induction l as [|[id c] l IH]; intros s Hp; cbn [import_all]; [by intros [= <-]|].
  unfold import_entry at 1. cbn [fst snd]. fold (in_memory id s).
  destruct (is_none (in_memory id s)) eqn:Hn; [destruct (pruned (Slot id)); [done|]|]; cbn [mbind outcome_bind]; apply IH;
    eapply (persisted_set id c s); try done; by rewrite Hn.
Qed.

Lemma step_persisted s s' : evict_step s s' -> persisted s -> persisted s'.
Proof.
  intros [slot s1|slot s1 s2 H|id c s1 s2 H|id s1 s2 H|snap s1 s2 H|l t s1 s2 H|slot s1 s2 H] Hp.
  - done.
  - unfold AdvanceActiveWindowToIndex in H. destruct (delayedBlockEvictionThreshold _ _ _) as [d| |]; cbn [mbind outcome_bind] in H; try done.
    injection H as <-. destruct d as [d|]; [|done].
    intros id. unfold in_memory, in_storage. cbn. destruct (nonempty _ d); cbn; rewrite slot_of_delete; case_decide; try apply Hp;
      rewrite lookup_empty; by intros [? ?].
  - by eapply persisted_add.
  - unfold RemoveRootBlock in H. destruct (slot_of (rootBlocks s1) (Slot id) !! id); [|by injection H as <-].
    destruct (pruned (Slot id)); [done|]. injection H as <-. intros j. unfold in_memory, in_storage. cbn. rewrite !lookup_unset_in.
    case_decide; [done|apply Hp].
  - unfold Import in H. apply bind_Ret in H as (s3 & H & [= <-]). by apply persisted_import_all in H.
  - unfold Rollback in H. by apply bind_Ret in H as (d & _ & [= <-]).
  - unfold PopulateFromStorage in H. apply bind_Ret in H as (d & _ & H). revert H. generalize (stored_slots pruned d slot ≫= (fun slot => range_of (slot_of (storage s1) slot))).
    intros l. revert s1 Hp. induction l as [|[id c] l IH]; intros s1 Hp; cbn [add_all]; [by intros [= <-]|].
    intros (s3 & H & H')%bind_Ret. by eapply IH; [eapply persisted_add|].
Qed.

(** Root blocks are never in memory only: in every state reached from a new one by
    initializing, advancing the window, adding, removing, importing, rolling back and
    populating from storage, every root block in memory is in the slot stores. *)
Theorem root_blocks_persisted s id : rtc evict_step NewState s -> is_Some (in_memory id s) -> is_Some (in_storage id s).
Proof.
  intros Hr. enough (persisted s) by auto. assert (Hn : persisted NewState).
  { intros j. unfold in_memory, slot_of. cbn. rewrite lookup_empty. by intros [? ?]. }
  revert Hn. induction Hr as [|s0 s1 s2 Hstep _ IH]; [done|]. intros Hp. by eapply IH, step_persisted.
Qed.

End Persistence.

(** ** Snapshots *)
Section Snapshot.
Context `{!RangeOrder BlockID} (delay : SlotIndex) (pruned : SlotIndex -> bool).

(** Every block is stored under its own slot. *)
Definition keyed (m : SlotBlocks) : Prop := forall slot id c, slot_of m slot !! id = Some c -> Slot id = slot.

Lemma import_all_spec l s : (forall e, e ∈ l -> pruned (Slot e.1) = false) -> (forall e e', e ∈ l -> e' ∈ l -> e.1 = e'.1 -> e.2 = e'.2) ->
  (forall id c, in_memory id s = Some c -> in_storage id s = Some c) -> (forall e c, e ∈ l -> in_memory e.1 s = Some c -> c = e.2) ->
  exists s', import_all pruned l s = Ret s' /\
    forall id, (exists c, (id, c) ∈ l /\ in_storage id s' = Some c) \/ (id ∉ l.*1 /\ in_storage id s' = in_storage id s).
Proof.
  revert s. induction l as [|[id c] l IH]; intros s Hpr Hfun Hmem Hcons; cbn [import_all].
  { exists s. split; [done|]. intros id. right. split; [set_solver|done]. }
  unfold import_entry at 1. cbn [fst snd]. fold (in_memory id s). pose proof (Hpr (id, c) ltac:(set_solver)) as Hpid. cbn in Hpid. rewrite Hpid.
  set (s1 := with_rootBlocks (set_in id c (rootBlocks s)) s).
  set (s2 := if is_none (in_memory id s) then with_storage (set_in id c (storage s1)) s1 else s1).
  replace (if is_none (in_memory id s) then _ else _) with (Ret s2) by (unfold s2; by case_match). cbn [mbind outcome_bind].
  assert (Hm2 : forall j, in_memory j s2 = if decide (j = id) then Some c else in_memory j s).
  { intros j. unfold in_memory, s2. destruct (is_none _); cbn; apply lookup_set_in. }
  assert (Hs2 : forall j, in_storage j s2 = if decide (j = id) then Some c else in_storage j s).
  { intros j. unfold in_storage, s2. destruct (in_memory id s) as [x|] eqn:Hx; cbn [is_none]; [|cbn; apply lookup_set_in].
    case_decide; [subst j|done]. pose proof (Hcons (id, c) x ltac:(set_solver) Hx) as ->. by apply Hmem. }
  destruct (IH s2) as (s' & Hrun & Hs').
  - intros e He. apply Hpr. set_solver.
  - intros e e' He He'. apply Hfun; set_solver.
  - intros j x. rewrite Hm2, Hs2. case_decide; [done|apply Hmem].
  - intros e x He. rewrite Hm2. case_decide as Hid; [|apply Hcons; set_solver]. intros [= <-]. apply (Hfun (id, c) e); [set_solver..|done].
  - exists s'. split; [done|]. intros j. destruct (Hs' j) as [(x & Hx & ?)|[Hx Heq]]; [left; exists x; set_solver|].
    rewrite Hs2 in Heq. case_decide; [subst j; left; exists c; set_solver|right; cbn; set_solver].
Qed.

(** A snapshot restores the root blocks: importing into a new state what
    [Export] wrote gives, for every slot from the eviction threshold of the lower
    target to the target, exactly the stored root blocks with their commitments, and
    nothing outside. *)
Theorem export_import_roundtrip lowerTarget target s entries latest start :
  keyed (storage s) -> Export delay pruned lowerTarget target s = Ret (entries, latest) ->
  threshold_or_0 delay lowerTarget s = Ret start -> (forall slot, start <= slot <= target -> pruned slot = false) ->
  exists s', Import pruned (entries, latest) NewState = Ret s' /\ latestNonEmptySlot s' = latest /\
    forall id, in_storage id s' = if decide (start <= Slot id <= target) then in_storage id s else None.
Proof.
  intros Hk Hexp Hst Hpr. unfold Export in Hexp. rewrite Hst in Hexp. cbn [mbind outcome_bind] in Hexp. injection Hexp as <- <-.
  set (entries := mbind _ _). unfold Import. cbn [fst snd].
  assert (Hin : forall id c, (id, c) ∈ entries <-> start <= Slot id <= target /\ in_storage id s = Some c).
  { intros id c. unfold entries, in_storage. rewrite list_elem_of_bind. setoid_rewrite elem_of_range. unfold stored_slots.
    setoid_rewrite list_elem_of_filter. setoid_rewrite elem_of_seqZ. split.
    - intros (slot & Hx & _ & Hr). rewrite (Hk slot id c Hx). split; [lia|done].
    - intros [Hr Hx]. exists (Slot id). split; [done|]. split; [by apply Hpr|lia]. }
  destruct (import_all_spec entries NewState) as (s' & -> & Hs').
  - intros [id c] [Hr _]%Hin. by apply Hpr.
  - intros [id c] [id' c'] [_ H1]%Hin [_ H2]%Hin. cbn. intros ->. congruence.
  - intros id c. unfold in_memory, slot_of. cbn. by rewrite lookup_empty.
  - intros e c _. unfold in_memory, slot_of. cbn. by rewrite lookup_empty.
  - cbn [mbind outcome_bind]. eexists. split; [done|]. split; [done|]. intros id. unfold in_storage at 1. cbn. fold (in_storage id s').
    destruct (Hs' id) as [(c & [Hr Hc]%Hin & ->)|[Hout ->]].
    + rewrite decide_True by done. done.
    + unfold in_storage at 1, slot_of. cbn. rewrite lookup_empty. case_decide as Hr; [|done].
      destruct (in_storage id s) as [c|] eqn:Hc; [|done]. exfalso. apply Hout, list_elem_of_fmap. exists (id, c). split; [done|]. by apply Hin.
Qed.
End Snapshot.

(** ** Sample runs *)
Section Samples.
#[local] Instance sample_root_order : RangeOrder BlockID := canonical_order BlockID.
Definition root (n : Z) : BlockID := mkBlockID n n.
Definition com (n : Z) : CommitmentID := mkCommitmentID n n.
Definition not_pruned (_ : SlotIndex) : bool := false.
Definition run_state (r : outcome State) : State := match r with Ret s => s | _ => NewState end.
(** One root block in each of the slots 4, 5 and 6; slot 5 is committed. *)
Definition roots : State :=
  let add n s := run_state (AddRootBlock 3 not_pruned cons (root n) (com n) s) in
  add 6 (add 5 (add 4 (Initialize 5 NewState))).

Lemma root_block_window_witness :
  exists s', AdvanceActiveWindowToIndex 3 6 roots = Ret s' /\ lastEvictedSlot s' = 6 /\
    forall id, 0 <= Slot id -> RootBlockCommitmentID 3 id s' =
      Ret (if decide (window_low 3 6 roots < Slot id <= 6) then slot_of (rootBlocks roots) (Slot id) !! id else None).
Proof. apply (root_block_window 3 6 roots); vm_compute; (discriminate || (try split; done)). Defined.

Lemma root_blocks_persisted_witness : is_Some (in_memory (root 4) roots) /\ is_Some (in_storage (root 4) roots).
Proof.
  assert (Hm : is_Some (in_memory (root 4) roots)) by (vm_compute; eauto). split; [exact Hm|].
  apply (root_blocks_persisted 3 not_pruned cons roots (root 4)); [|exact Hm].
  eapply rtc_l; [apply (step_init _ _ _ 5)|]. eapply rtc_l; [eapply (step_add _ _ _ (root 4) (com 4)); vm_compute; reflexivity|].
  eapply rtc_l; [eapply (step_add _ _ _ (root 5) (com 5)); vm_compute; reflexivity|].
  eapply rtc_once, (step_add _ _ _ (root 6) (com 6)). vm_compute. reflexivity.
Defined.

Lemma threshold_diverges_witness : delayedBlockEvictionThreshold_with 3 100 5 NewState = OutOfFuel.
Proof. apply (threshold_diverges 3 100 5 NewState); [by vm_compute|done|done|]. intros x. vm_compute. by destruct x. Defined.

Lemma export_import_roundtrip_witness :
  exists s', Import not_pruned ([(root 4, com 4); (root 5, com 5)], 2) NewState = Ret s' /\ latestNonEmptySlot s' = 2 /\
    forall id, in_storage id s' = if decide (2 <= Slot id <= 5) then in_storage id roots else None.
Proof.
  apply (export_import_roundtrip 3 not_pruned 5 5 roots); try (vm_compute; reflexivity).
  assert (storage roots = {[6 := {[root 6 := com 6]}; 5 := {[root 5 := com 5]}; 4 := {[root 4 := com 4]}]}) as -> by (vm_compute; reflexivity).
  intros slot id c. unfold slot_of. destruct (_ !! slot) as [m|] eqn:Hm; cbn; [|by rewrite lookup_empty].
  revert Hm. rewrite !lookup_insert_Some, lookup_singleton_Some.
  intros [[<- <-]|[_ [[<- <-]|[_ [<- <-]]]]] Hid; apply lookup_singleton_Some in Hid as [<- _]; reflexivity.
Defined.
End Samples.
