(* ===== verification/BlockCache.v ===== *)
(** * The block cache (pkg/protocol/engine/blocks/blocks.go)

    The cache keeps one block object per ID, by slot, for the slots that are not
    evicted; root blocks are made up from the eviction state on demand.  The end
    time of a slot is a parameter. *)
From S2P Require Import Prelude Block Eviction.

Record Blocks := mkBlocks { blocks : gmap SlotIndex (gmap BlockID Block); EvictEvents : list SlotIndex }.
Definition NewBlocks : Blocks := mkBlocks ∅ [].

Definition blocks_in (c : Blocks) (slot : SlotIndex) : gmap BlockID Block := default ∅ (blocks c !! slot).
Definition cached (c : Blocks) (id : BlockID) : option Block := blocks_in c (Slot id) !! id.
Definition put (id : BlockID) (b : Block) (c : Blocks) : Blocks :=
  mkBlocks (<[Slot id := <[id := b]> (blocks_in c (Slot id))]> (blocks c)) (EvictEvents c).

Section Blocks.
Context (delay : SlotIndex).

Definition EvictUntil (slot : SlotIndex) (c : Blocks) : Blocks := mkBlocks (delete slot (blocks c)) (EvictEvents c ++ [slot]).

Definition BlockOf (SlotEndTime : SlotIndex -> Z) (id : BlockID) (e : State) (c : Blocks) : outcome (option Block) :=
  root ← RootBlockCommitmentID delay id e;
  Ret match root with
      | Some commitmentID => Some (NewRootBlock id commitmentID (SlotEndTime (Slot id)))
      | None => cached c id
      end.

(** [StoreOrUpdate]: the block ([None] is nil), evicted, updated. *)
Definition StoreOrUpdate (data : ModelBlock) (e : State) (c : Blocks) : (option Block * bool * bool) * Blocks :=
  if Slot (ID data) <=? lastEvictedSlot e then ((None, true, false), c)
  else match cached c (ID data) with
       | None => let b := NewBlock data in ((Some b, false, false), put (ID data) b c)
       | Some b => let '(updated, b) := Update data b in ((Some b, false, updated), put (ID data) b c)
       end.

Definition GetOrCreate (id : BlockID) (createFunc : Block) (e : State) (c : Blocks) : (option Block * bool) * Blocks :=
  if Slot id <=? lastEvictedSlot e then ((None, false), c)
  else match cached c id with
       | None => ((Some createFunc, true), put id createFunc c)
       | Some b => ((Some b, false), c)
       end.

(** [StoreBlock]: reports whether the ID was new; the object is replaced either way. *)
Definition StoreBlock (b : Block) (e : State) (c : Blocks) : outcome (bool * Blocks) :=
  id ← block_id b;
  if Slot id <=? lastEvictedSlot e then Ret (false, c)
  else Ret (is_none (cached c id), put id b c).

(** ** Properties *)
Lemma cached_put id b c j : cached (put id b c) j = if decide (j = id) then Some b else cached c j.
Proof.
  unfold cached, put, blocks_in. cbn. rewrite lookup_insert. destruct (decide (Slot id = Slot j)) as [Hs|Hs]; cbn.
  - rewrite lookup_insert, Hs. destruct (decide (id = j)) as [->|]; [by rewrite decide_True|by rewrite decide_False].
  - rewrite decide_False by congruence. done.
Qed.

Lemma cached_evict slot c j : cached (EvictUntil slot c) j = if decide (Slot j = slot) then None else cached c j.
Proof.
  unfold cached, EvictUntil, blocks_in. cbn. rewrite lookup_delete. destruct (decide (slot = Slot j)) as [->|].
  - rewrite decide_True by done. cbn. apply lookup_empty.
  - by rewrite decide_False by congruence.
Qed.

(** A missing block is no root block ([NewMissingBlock]). *)
Definition block_wf (b : Block) : Prop := missing b = true -> rootBlk b = None.

(** The engine stores blocks, and evicts the slot that follows the last evicted one. *)
Inductive cache_step : State * Blocks -> State * Blocks -> Prop :=
| step_store data e c : cache_step (e, c) (e, (StoreOrUpdate data e c).2)
| step_create id b e c : block_id b = Ret id -> block_wf b -> cache_step (e, c) (e, (GetOrCreate id b e c).2)
| step_store_block b e c r c' : block_wf b -> StoreBlock b e c = Ret (r, c') -> cache_step (e, c) (e, c')
| step_evict e e' c : AdvanceActiveWindowToIndex delay (lastEvictedSlot e + 1) e = Ret e' ->
    cache_step (e, c) (e', EvictUntil (lastEvictedSlot e + 1) c)
| step_state e e' c : lastEvictedSlot e' = lastEvictedSlot e -> cache_step (e, c) (e', c).

(** Every cached block is filed under its own ID, in a slot that is not evicted. *)
Definition cache_inv (x : State * Blocks) : Prop :=
  forall id b, cached x.2 id = Some b -> block_id b = Ret id /\ block_wf b /\ lastEvictedSlot x.1 < Slot id.

Lemma cache_inv_put e c id b : cache_inv (e, c) -> block_id b = Ret id -> block_wf b -> lastEvictedSlot e < Slot id -> cache_inv (e, put id b c).
Proof. intros Hc Hid Hwf Hs j x. cbn. rewrite cached_put. case_decide; [subst j; by intros [= <-]|apply Hc]. Qed.

Lemma Update_wf data b : block_id b = Ret (ID data) -> block_wf b -> block_id (Update data b).2 = Ret (ID data) /\ block_wf (Update data b).2.
Proof.
  intros Hid Hwf. unfold Update. destruct (missing b) eqn:Hm; cbn [negb snd]; [|done].
  unfold block_id, block_wf. cbn. by rewrite (Hwf Hm).
Qed.

Lemma Advance_last slot e e' : AdvanceActiveWindowToIndex delay slot e = Ret e' -> lastEvictedSlot e' = slot.
Proof.
  unfold AdvanceActiveWindowToIndex. intros (d & _ & [= <-])%bind_Ret. destruct d as [d|]; [|done]. cbn. by destruct (nonempty _ d).
Qed.

Lemma step_cache_inv x y : cache_step x y -> cache_inv x -> cache_inv y.
Proof.
  intros [data e c|id b e c Hid Hwf|b e c r c' Hwf Hrun|e e' c Hadv|e e' c Hl] Hc.
  - unfold StoreOrUpdate. destruct (Z.leb_spec (Slot (ID data)) (lastEvictedSlot e)); [done|].
    destruct (cached c (ID data)) as [b|] eqn:Hb; [|by apply cache_inv_put].
    destruct (Hc _ _ Hb) as (Hid & Hwf & _). destruct (Update_wf data b Hid Hwf) as [Hid' Hwf'].
    destruct (Update data b) as [u b']. by apply cache_inv_put.
  - unfold GetOrCreate. destruct (Z.leb_spec (Slot id) (lastEvictedSlot e)); [done|].
    destruct (cached c id); [done|by apply cache_inv_put].
  - unfold StoreBlock in Hrun. apply bind_Ret in Hrun as (id & Hid & Hrun).
    destruct (Z.leb_spec (Slot id) (lastEvictedSlot e)); [by injection Hrun as _ <-|]. injection Hrun as _ <-. by apply cache_inv_put.
  - intros id b. cbn. rewrite cached_evict, (Advance_last _ _ _ Hadv). case_decide; [done|]. intros Hb.
    destruct (Hc _ _ Hb) as (? & ? & Hs). cbn in Hs. split_and!; [done..|lia].
  - intros id b Hb. destruct (Hc _ _ Hb) as (? & ? & Hs). cbn in *. split_and!; [done..|lia].
Qed.

(** In every state the engine reaches from an empty cache by storing blocks and
    evicting one slot after the other, each cached block is filed under its own ID and
    no block of an evicted slot is cached. *)
Theorem cache_consistent e0 x id b : rtc cache_step (e0, NewBlocks) x -> cached x.2 id = Some b ->
  block_id b = Ret id /\ lastEvictedSlot x.1 < Slot id.
Proof.
  intros Hr Hb. enough (Hc : cache_inv x) by (destruct (Hc _ _ Hb) as (? & _ & ?); done).
  assert (Hn : cache_inv (e0, NewBlocks)) by (intros j y; cbn; unfold cached, blocks_in; cbn; by rewrite lookup_empty).
  revert Hn. clear Hb. remember (e0, NewBlocks) as y eqn:Hy. clear Hy.
  induction Hr as [|y0 y1 y2 Hstep _ IH]; [done|]. intros Hc. by eapply IH, step_cache_inv.
Qed.

(** [StoreOrUpdate] publishes a block exactly once.  For a slot that is evicted
    nothing is stored; otherwise the cache holds, under the block's ID, a new object with
    the data, or the object that was there: with the data and no longer missing if it was missing (reported as
    updated, its children and flags kept), unchanged if not.  Nothing else changes. *)
Theorem StoreOrUpdate_exact data e c :
  let '((b, evicted, updated), c') := StoreOrUpdate data e c in
  if Slot (ID data) <=? lastEvictedSlot e then evicted = true /\ b = None /\ c' = c
  else evicted = false /\ cached c' (ID data) = b /\ (forall j, j <> ID data -> cached c' j = cached c j) /\
    match cached c (ID data) with
    | None => b = Some (NewBlock data) /\ updated = false
    | Some old => updated = missing old /\
        if missing old
        then exists b', b = Some b' /\ modelBlock b' = Some data /\ missing b' = false /\ Children b' = Children old /\
             witnesses b' = witnesses old /\ workScore b' = WorkScore data
        else b = Some old
    end.
Proof.
  unfold StoreOrUpdate. destruct (Slot (ID data) <=? lastEvictedSlot e); [done|].
  destruct (cached c (ID data)) as [old|] eqn:Hold.
  - unfold Update. destruct (missing old) eqn:Hm; cbn [negb]; (split; [done|]; split; [by rewrite cached_put, decide_True|];
      split; [intros j Hj; by rewrite cached_put, decide_False|]; split; [done|]); [|done].
    eexists. split; [reflexivity|]. by split_and!.
  - split; [done|]. split; [by rewrite cached_put, decide_True|]. split; [intros j Hj; by rewrite cached_put, decide_False|done].
Qed.
End Blocks.

Definition cached_model : ModelBlock := mkModelBlock (mkBlockID 5 7) 1 0 (mkCommitmentID 0 0) Basic [] 1.
Lemma cache_consistent_witness :
  let c := (StoreOrUpdate cached_model NewState NewBlocks).2 in
  cached c (ID cached_model) = Some (NewBlock cached_model) /\
  block_id (NewBlock cached_model) = Ret (ID cached_model) /\ lastEvictedSlot NewState < Slot (ID cached_model).
Proof.
  split; [vm_compute; reflexivity|].
  apply (cache_consistent 3 NewState (NewState, (StoreOrUpdate cached_model NewState NewBlocks).2)); [|vm_compute; reflexivity].
  apply rtc_once, (step_store 3 cached_model NewState NewBlocks).
Defined.
