(* ===== verification/UtxoLedger.v ===== *)
(** * The UTXO ledger (pkg/protocol/engine/utxoledger)

    The manager keeps the outputs, which of them are unspent, who spent the others
    and the diff of each slot in one key-value store, under a prefix byte per
    table, and beside it an authenticated tree of the unspent outputs.  Keys and
    values are modelled as the bytes the code writes.

    Parameters: the store ([KVStore]), marshalutil ([MarshalUtil]), the authenticated
    tree of hive.go's ads package ([StateTree]), and from iota.go the lengths and
    slots of identifiers, the encoding of slots and RemoveDupsAndSort
    ([LedgerIDs]).  An identifier is the byte array itself.  The decoded objects
    an [Output] caches beside its bytes are what decoding the bytes gives, and
    are not kept.  Locks and failures of the storage device are not modelled. *)
From Stdlib Require Import Strings.Byte.
From S2P Require Import Prelude Bytes KvStore.

Module UtxoLedger.
Abbreviation SlotIndex := Z.
Abbreviation OutputID := bytes.
Abbreviation TransactionID := bytes.

(** ** Parameters *)
Class LedgerIDs := {
  OutputIDLength : nat;
  BlockIDLength : nat;
  TransactionIDLength : nat;
  CreationSlot : OutputID -> SlotIndex;                 (* OutputID.CreationSlot *)
  slot_MustBytes : SlotIndex -> bytes;                  (* SlotIndex.MustBytes *)
  SlotIndexFromBytes : bytes -> option SlotIndex;
  RemoveDupsAndSort : list OutputID -> list OutputID;   (* OutputIDs.RemoveDupsAndSort *)
}.
Definition SlotIndexLength : nat := 4.

Class LedgerIDsSpec (I : LedgerIDs) : Prop := {
  CreationSlot_range id : in_range Uint32 (CreationSlot id);
  slot_MustBytes_spec s : slot_MustBytes s = put_le 4 s;
  SlotIndexFromBytes_spec bs : length bs = SlotIndexLength -> SlotIndexFromBytes bs = Some (get_le bs);
  RemoveDupsAndSort_elem l id : id ∈ RemoveDupsAndSort l <-> id ∈ l;
  RemoveDupsAndSort_nodup l : NoDup (RemoveDupsAndSort l);
  RemoveDupsAndSort_sorted l : StronglySorted bytes_le (RemoveDupsAndSort l);
}.

(** The value of the state tree: the slot that created the output. *)
Record stateTreeMetadata := mkMetadata { Time : SlotIndex }.
#[global] Instance stateTreeMetadata_eq_dec : EqDecision stateTreeMetadata.
Proof. solve_decision. Defined.

Class StateTree (T : Type) := {
  tree_new : T;
  tree_get : T -> OutputID -> option stateTreeMetadata;
  tree_set : OutputID -> stateTreeMetadata -> T -> T;
  tree_delete : OutputID -> T -> T;
  tree_commit : T -> T;
  tree_root : T -> bytes;
}.
Class StateTreeSpec (T : Type) `{StateTree T} : Prop := {
  tree_get_new id : tree_get tree_new id = None;
  tree_get_set id v t id' : tree_get (tree_set id v t) id' = if decide (id = id') then Some v else tree_get t id';
  tree_get_delete id t id' : tree_get (tree_delete id t) id' = if decide (id = id') then None else tree_get t id';
  tree_get_commit t id : tree_get (tree_commit t) id = tree_get t id;
  tree_root_ext t1 t2 : (forall id, tree_get t1 id = tree_get t2 id) -> tree_root t1 = tree_root t2;
}.

(** ** Data *)
Record Output := mkOutput {
  outputID : OutputID;
  blockID : bytes;
  slotBooked : SlotIndex;
  encodedOutput : bytes;
  encodedProof : bytes;
}.
#[global] Instance Output_eq_dec : EqDecision Output.
Proof. solve_decision. Defined.

Record Spent := mkSpent {
  spentOutputID : OutputID;
  transactionIDSpent : TransactionID;
  slotSpent : SlotIndex;
  spentOutput : Output;
}.
#[global] Instance Spent_eq_dec : EqDecision Spent.
Proof. solve_decision. Defined.

Record SlotDiff := mkSlotDiff { Slot : SlotIndex; Outputs : list Output; Spents : list Spent }.

Definition NewSpent (output : Output) (tx : TransactionID) (slot : SlotIndex) : Spent :=
  mkSpent (outputID output) tx slot output.

Inductive lerror := ErrKeyNotFound | ErrParse | ErrInvalidSlotIndex | ErrSeek | ErrOutputsSumNotEqualTotalSupply | ErrInvalidLength.
#[global] Instance lerror_eq_dec : EqDecision lerror.
Proof. solve_decision. Defined.

(** ** Keys (database_prefixes.go) *)
Definition StoreKeyPrefixLedgerSlotIndex : Z := 0.
Definition StoreKeyPrefixOutput : Z := 1.
Definition StoreKeyPrefixOutputSpent : Z := 2.
Definition StoreKeyPrefixOutputUnspent : Z := 3.
Definition StoreKeyPrefixSlotDiffs : Z := 4.

Section Codec.
Context `{MU : MarshalUtil} `{I : LedgerIDs}.

Definition ledgerIndexKey : bytes := [byte_of StoreKeyPrefixLedgerSlotIndex].
Definition outputStorageKeyForOutputID (id : OutputID) : bytes := WriteByte StoreKeyPrefixOutput ++ id.
Definition spentStorageKeyForOutputID (id : OutputID) : bytes := WriteByte StoreKeyPrefixOutputSpent ++ id.
Definition lookupKeyUnspentOutput (id : OutputID) : bytes := WriteByte StoreKeyPrefixOutputUnspent ++ id.
Definition slotDiffKeyForIndex (slot : SlotIndex) : bytes := WriteByte StoreKeyPrefixSlotDiffs ++ slot_MustBytes slot.

(** ** Parsers (marshalutils_helper.go) *)
Definition ParseOutputID : reader OutputID := ReadBytes OutputIDLength.
Definition parseTransactionID : reader TransactionID := ReadBytes TransactionIDLength.
Definition ParseBlockID : reader bytes := ReadBytes BlockIDLength.
Definition parseSlotIndex : reader SlotIndex :=
  bs ← ReadBytes SlotIndexLength; read_option (SlotIndexFromBytes bs).

(** A decoder reads a prefix of the bytes. *)
Definition parse {A} (p : reader A) (bs : bytes) : result lerror A := result_of ErrParse (fst <$> p bs).

Definition outputIDFromDatabaseKey (key : bytes) : result lerror OutputID :=
  parse (_ ← ReadByte; ParseOutputID) key.

(** ** Output (output.go) *)
Definition output_KVStorableKey (o : Output) : bytes := outputStorageKeyForOutputID (outputID o).
Definition output_KVStorableValue (o : Output) : bytes :=
  blockID o ++ slot_MustBytes (slotBooked o)
  ++ WriteUint32 (u32 (Z.of_nat (length (encodedOutput o)))) ++ encodedOutput o
  ++ WriteUint32 (u32 (Z.of_nat (length (encodedProof o)))) ++ encodedProof o.

Definition output_reader (id : OutputID) : reader Output :=
  block ← ParseBlockID;
  slot ← parseSlotIndex;
  outputLen ← ReadUint32;
  enc ← ReadBytes (Z.to_nat outputLen);
  proofLen ← ReadUint32;
  proof ← ReadBytes (Z.to_nat proofLen);
  mret (mkOutput id block slot enc proof).

Definition output_kvStorableLoad (key value : bytes) : result lerror Output :=
  id ← parse (_ ← ReadByte; ParseOutputID) key;
  parse (output_reader id) value.

(** ** Spent (spent.go) *)
Definition spent_KVStorableKey (s : Spent) : bytes := spentStorageKeyForOutputID (spentOutputID s).
Definition spent_KVStorableValue (s : Spent) : bytes := transactionIDSpent s ++ slot_MustBytes (slotSpent s).

(** The load sets every field but the output. *)
Definition spent_kvStorableLoad (key value : bytes) : result lerror (Output -> Spent) :=
  id ← parse (_ ← ReadByte; ParseOutputID) key;
  parse (tx ← parseTransactionID; slot ← parseSlotIndex; mret (mkSpent id tx slot)) value.

(** ** Slot diffs (slot_diff.go) *)
Definition output_le (o1 o2 : Output) : Prop := bytes_le (outputID o1) (outputID o2).
Definition spent_le (s1 s2 : Spent) : Prop := bytes_le (spentOutputID s1) (spentOutputID s2).
#[global] Instance output_le_dec o1 o2 : Decision (output_le o1 o2).
Proof. unfold output_le. apply _. Defined.
#[global] Instance spent_le_dec s1 s2 : Decision (spent_le s1 s2).
Proof. unfold spent_le. apply _. Defined.

Definition sortedOutputs (d : SlotDiff) : list Output := merge_sort output_le (Outputs d).
Definition sortedSpents (d : SlotDiff) : list Spent := merge_sort spent_le (Spents d).

Definition diff_KVStorableKey (d : SlotDiff) : bytes := slotDiffKeyForIndex (Slot d).
Definition diff_KVStorableValue (d : SlotDiff) : bytes :=
  WriteUint32 (u32 (Z.of_nat (length (Outputs d)))) ++ (sortedOutputs d ≫= outputID)
  ++ WriteUint32 (u32 (Z.of_nat (length (Spents d)))) ++ (sortedSpents d ≫= fun s => outputID (spentOutput s)).

(** ** State tree (state_tree.go) *)
Definition newStateMetadata (o : Output) : stateTreeMetadata := mkMetadata (CreationSlot (outputID o)).
Definition metadata_Bytes (s : stateTreeMetadata) : bytes := slot_MustBytes (Time s).
Definition stateMetadataFromBytes (b : bytes) : option stateTreeMetadata := mkMetadata <$> SlotIndexFromBytes b.

(** ** Mutations of the store *)
Definition storeOutput (o : Output) : list mutation := [m_set (output_KVStorableKey o) (output_KVStorableValue o)].
Definition deleteOutput (o : Output) : list mutation := [m_delete (output_KVStorableKey o)].
Definition UnspentLookupKey (o : Output) : bytes := lookupKeyUnspentOutput (outputID o).
Definition markAsUnspent (o : Output) : list mutation := [m_set (UnspentLookupKey o) []].
Definition deleteOutputLookups (o : Output) : list mutation := [m_delete (UnspentLookupKey o)].
Definition markAsSpent (o : Output) : list mutation := deleteOutputLookups o.
Definition storeSpent (s : Spent) : list mutation := [m_set (spent_KVStorableKey s) (spent_KVStorableValue s)].
Definition deleteSpent (s : Spent) : list mutation := [m_delete (spent_KVStorableKey s)].
Definition storeSpentAndMarkOutputAsSpent (s : Spent) : list mutation := storeSpent s ++ markAsSpent (spentOutput s).
Definition deleteSpentAndMarkOutputAsUnspent (s : Spent) : list mutation := deleteSpent s ++ markAsUnspent (spentOutput s).
Definition storeDiff (d : SlotDiff) : list mutation := [m_set (diff_KVStorableKey d) (diff_KVStorableValue d)].
Definition deleteDiff (slot : SlotIndex) : list mutation := [m_delete (slotDiffKeyForIndex slot)].
Definition storeLedgerIndex (slot : SlotIndex) : list mutation := [m_set ledgerIndexKey (slot_MustBytes slot)].
End Codec.

(** ** The manager (manager.go, iteration.go) *)
Record Manager (S T : Type) := mkManager { store : S; stateTree : T }.
Arguments mkManager {S T} _ _.
Arguments store {S T} _.
Arguments stateTree {S T} _.

Section Manager.
Context `{MU : MarshalUtil} `{I : LedgerIDs} {S T : Type} `{KV : KVStore S} `{ST : StateTree T}.
Implicit Types (m : Manager S T).

Definition with_store (s : S) m : Manager S T := mkManager s (stateTree m).

Definition kv_load m (key : bytes) : result lerror bytes := result_of ErrKeyNotFound (kv_get (store m) key).

Definition ReadOutputByOutputID (id : OutputID) m : result lerror Output :=
  let key := outputStorageKeyForOutputID id in
  value ← kv_load m key;
  output_kvStorableLoad key value.

(** The constant 8 is serializer.UInt64ByteSize. *)
Definition ReadRawOutputBytesByOutputID (id : OutputID) m : result lerror bytes :=
  value ← kv_load m (outputStorageKeyForOutputID id);
  let offset := (BlockIDLength + 8 + 8)%nat in
  if (length value <=? offset)%nat then Err ErrInvalidLength else Ok (drop offset value).

Definition ReadSpentForOutputID (id : OutputID) m : result lerror Spent :=
  output ← ReadOutputByOutputID id m;
  let key := spentStorageKeyForOutputID id in
  value ← kv_load m key;
  spent ← spent_kvStorableLoad key value;
  Ok (spent output).

Definition IsOutputIDUnspent (id : OutputID) m : bool := negb (is_none (kv_get (store m) (lookupKeyUnspentOutput id))).
Definition IsOutputUnspent (o : Output) m : bool := negb (is_none (kv_get (store m) (UnspentLookupKey o))).

Definition ReadLedgerIndex m : result lerror SlotIndex :=
  match kv_get (store m) ledgerIndexKey with
  | None => Ok 0
  | Some value => result_of ErrParse (SlotIndexFromBytes value)
  end.

(** [make([]T, count)] filled by a loop that loads an object per identifier. *)
Fixpoint load_n {A} (n : nat) (load : OutputID -> result lerror A) (bs : bytes) : result lerror (list A * bytes) :=
  match n with
  | O => Ok ([], bs)
  | Datatypes.S n =>
      '(id, bs) ← result_of ErrParse (ParseOutputID bs);
      a ← load id;
      '(l, bs) ← load_n n load bs;
      Ok (a :: l, bs)
  end.

Definition diff_kvStorableLoad m (key value : bytes) : result lerror SlotDiff :=
  slot ← result_of ErrParse (SlotIndexFromBytes (drop 1 key));
  '(outputCount, bs) ← result_of ErrParse (ReadUint32 value);
  '(outputs, bs) ← load_n (Z.to_nat outputCount) (fun id => ReadOutputByOutputID id m) bs;
  '(spentCount, bs) ← result_of ErrParse (ReadUint32 bs);
  '(spents, _) ← load_n (Z.to_nat spentCount) (fun id => ReadSpentForOutputID id m) bs;
  Ok (mkSlotDiff slot outputs spents).

Definition SlotDiff_ (slot : SlotIndex) m : result lerror SlotDiff :=
  let key := slotDiffKeyForIndex slot in
  value ← kv_load m key;
  diff_kvStorableLoad m key value.

(** [for _, x := range xs { stateTree.Set(...) }] and the deletions. *)
Definition tree_set_all (os : list Output) (t : T) : T := foldl (fun t o => tree_set (outputID o) (newStateMetadata o) t) t os.
Definition tree_delete_all (ids : list OutputID) (t : T) : T := foldl (fun t id => tree_delete id t) t ids.

Definition apply_mutations (slot : SlotIndex) (newOutputs : list Output) (newSpents : list Spent) : list mutation :=
  (newOutputs ≫= fun o => storeOutput o ++ markAsUnspent o)
  ++ (newSpents ≫= storeSpentAndMarkOutputAsSpent)
  ++ storeDiff (mkSlotDiff slot newOutputs newSpents) ++ storeLedgerIndex slot.

Definition ApplyDiff (slot : SlotIndex) (newOutputs : list Output) (newSpents : list Spent) m : Manager S T :=
  mkManager (kv_commit (apply_mutations slot newOutputs newSpents) (store m))
    (tree_commit (tree_delete_all (spentOutputID <$> newSpents) (tree_set_all newOutputs (stateTree m)))).

Definition rollback_mutations (slot : SlotIndex) (newOutputs : list Output) (newSpents : list Spent) : list mutation :=
  (newSpents ≫= fun s => storeOutput (spentOutput s) ++ deleteSpentAndMarkOutputAsUnspent s)
  ++ (newOutputs ≫= fun o => deleteOutput o ++ deleteOutputLookups o)
  ++ deleteDiff slot ++ storeLedgerIndex (u32 (slot - 1)).

(** [stateTree.Set(spent.OutputID(), newStateMetadata(spent.Output()))] *)
Definition tree_restore_all (ss : list Spent) (t : T) : T :=
  foldl (fun t s => tree_set (spentOutputID s) (newStateMetadata (spentOutput s)) t) t ss.

Definition RollbackDiff (slot : SlotIndex) (newOutputs : list Output) (newSpents : list Spent) m : Manager S T :=
  mkManager (kv_commit (rollback_mutations slot newOutputs newSpents) (store m))
    (tree_commit (tree_delete_all (outputID <$> newOutputs) (tree_restore_all newSpents (stateTree m)))).

(** The error kind ErrKeyNotFound of any read of the diff means there is nothing to prune. *)
Definition PruneSlotIndex (slot : SlotIndex) m : result lerror unit * Manager S T :=
  match SlotDiff_ slot m with
  | Err ErrKeyNotFound => (Ok tt, m)
  | Err e => (Err e, m)
  | Ok diff =>
      (Ok tt, with_store (kv_commit ((Spents diff ≫= fun s => deleteOutput (spentOutput s) ++ deleteSpent s) ++ deleteDiff slot) (store m)) m)
  end.

Definition StoreLedgerIndex (slot : SlotIndex) m : Manager S T := with_store (kv_set ledgerIndexKey (slot_MustBytes slot) (store m)) m.

Definition importUnspentOutput (o : Output) m : Manager S T :=
  mkManager (kv_commit (storeOutput o ++ markAsUnspent o) (store m)) (tree_set (outputID o) (newStateMetadata o) (stateTree m)).

Definition AddGenesisUnspentOutput (o : Output) m : Manager S T :=
  let m := importUnspentOutput o m in mkManager (store m) (tree_commit (stateTree m)).

Definition ClearLedgerState (tree_clear : T -> T) m : Manager S T := mkManager (kv_clear (store m)) (tree_clear (stateTree m)).

(** *** Iteration

    The consumer of [ForEachUnspentOutputID] returns its new state and whether to go on.  No
    option sets [maxResultCount], so it is 0 (unlimited). *)
Fixpoint iterate_ids {A} (consumer : A -> OutputID -> A * bool) (keys : list bytes) (acc : A) : result lerror A :=
  match keys with
  | [] => Ok acc
  | key :: keys =>
      id ← outputIDFromDatabaseKey key;
      let (acc, continue) := consumer acc id in
      if continue then iterate_ids consumer keys acc else Ok acc
  end.
Definition ForEachUnspentOutputID {A} (consumer : A -> OutputID -> A * bool) (acc : A) m : result lerror A :=
  iterate_ids consumer (kv_iterate [byte_of StoreKeyPrefixOutputUnspent] (store m)).*1 acc.

(** The inner consumer records an error and stops. *)
Definition ForEachUnspentOutput {A} (consumer : A -> Output -> A * bool) (acc : A) m : result lerror A :=
  '(innerErr, acc) ← ForEachUnspentOutputID (fun (st : option lerror * A) id =>
     match ReadOutputByOutputID id m with
     | Err e => ((Some e, st.2), false)
     | Ok o => let (acc, continue) := consumer st.2 o in ((st.1, acc), continue)
     end) (None, acc) m;
  match innerErr with Some e => Err e | None => Ok acc end.

Definition UnspentOutputsIDs m : result lerror (list OutputID) := ForEachUnspentOutputID (fun ids id => (ids ++ [id], true)) [] m.
Definition UnspentOutputs m : result lerror (list Output) := ForEachUnspentOutput (fun os o => (os ++ [o], true)) [] m.

(** [ForEachOutput] and [ForEachSpentOutput] load the object of every entry under their prefix. *)
Fixpoint iterate_load {A B} (load : bytes -> bytes -> result lerror B) (consumer : A -> B -> A * bool)
    (entries : list (bytes * bytes)) (acc : A) : result lerror A :=
  match entries with
  | [] => Ok acc
  | (key, value) :: entries =>
      b ← load key value;
      let (acc, continue) := consumer acc b in
      if continue then iterate_load load consumer entries acc else Ok acc
  end.
Definition ForEachOutput {A} (consumer : A -> Output -> A * bool) (acc : A) m : result lerror A :=
  iterate_load output_kvStorableLoad consumer (kv_iterate [byte_of StoreKeyPrefixOutput] (store m)) acc.
Definition loadOutputOfSpent (spent : Output -> Spent) (id : OutputID) m : result lerror Spent :=
  output ← ReadOutputByOutputID id m; Ok (spent output).
Definition ForEachSpentOutput {A} (consumer : A -> Spent -> A * bool) (acc : A) m : result lerror A :=
  iterate_load (fun key value =>
      id ← parse (_ ← ReadByte; ParseOutputID) key;
      spent ← spent_kvStorableLoad key value;
      loadOutputOfSpent spent id m) consumer
    (kv_iterate [byte_of StoreKeyPrefixOutputSpent] (store m)) acc.
Definition SpentOutputs m : result lerror (list Spent) := ForEachSpentOutput (fun ss s => (ss ++ [s], true)) [] m.

(** *** Checks

    [BaseTokenAmount] decodes the output and panics when that fails. *)
Definition ComputeLedgerBalance (BaseTokenAmount : Output -> option Z) m : outcome (result lerror (Z * Z)) :=
  match ForEachUnspentOutput (fun (st : option (Z * Z)) o =>
          match st, BaseTokenAmount o with
          | Some (balance, count), Some amount => (Some (u64 (balance + amount), i64 (count + 1)), true)
          | _, _ => (None, false)
          end) (Some (0, 0)) m with
  | Err e => Ret (Err e)
  | Ok (Some st) => Ret (Ok st)
  | Ok None => Panic
  end.

Definition CheckLedgerState (BaseTokenAmount : Output -> option Z) (tokenSupply : Z) m : outcome (result lerror unit) :=
  r ← ComputeLedgerBalance BaseTokenAmount m;
  Ret ('(total, _) ← r; if total =? tokenSupply then Ok tt else Err ErrOutputsSumNotEqualTotalSupply).

Definition StateTreeRoot m : bytes := tree_root (stateTree m).

Definition CheckStateTree m : bool :=
  match ForEachUnspentOutput (fun (t : T) o => (tree_set (outputID o) (newStateMetadata o) t, true)) tree_new m with
  | Err _ => false
  | Ok comparisonTree => bool_decide (tree_root comparisonTree = StateTreeRoot m)
  end.

(** The bytes [LedgerStateSHA256Sum] writes into the hash. *)
Fixpoint hash_outputs (ids : list OutputID) m : result lerror bytes :=
  match ids with
  | [] => Ok []
  | id :: ids =>
      o ← ReadOutputByOutputID id m;
      bs ← hash_outputs ids m;
      Ok (outputID o ++ output_KVStorableValue o ++ bs)
  end.
Definition LedgerStateSHA256Sum (sha256 : bytes -> bytes) m : result lerror bytes :=
  ledgerSlot ← ReadLedgerIndex m;
  ids ← UnspentOutputsIDs m;
  bs ← hash_outputs (RemoveDupsAndSort ids) m;
  Ok (sha256 (put_le 4 ledgerSlot ++ bs ++ StateTreeRoot m)).
End Manager.
End UtxoLedger.
