(* ===== verification/UtxoRefine.v ===== *)
(** * The UTXO ledger implements an abstract ledger

    The abstract ledger is what the tables mean: outputs, the set of unspent ones,
    who spent the others, and the identifiers a slot created and consumed.
    [represents] relates the bytes in the store and the state tree to it; every
    operation of the manager is shown to implement the operation on the abstract
    ledger, and every read to return what the abstract ledger holds. *)
From Stdlib Require Import Strings.Byte.
From S2P Require Import Prelude Bytes KvStore UtxoLedger.
Import UtxoLedger.

(** ** The abstract ledger *)
Record Ledger := mkLedger {
  l_slot : SlotIndex;
  l_outputs : gmap OutputID Output;
  l_unspent : gset OutputID;
  l_spents : gmap OutputID (TransactionID * SlotIndex);
  l_diffs : gmap SlotIndex (list OutputID * list OutputID);
}.

Definition add_outputs (os : list Output) (om : gmap OutputID Output) : gmap OutputID Output :=
  foldl (fun om o => <[outputID o := o]> om) om os.
Definition add_spents (ss : list Spent) (sm : gmap OutputID (TransactionID * SlotIndex)) : gmap OutputID (TransactionID * SlotIndex) :=
  foldl (fun sm s => <[spentOutputID s := (transactionIDSpent s, slotSpent s)]> sm) sm ss.
Definition remove_keys {V} (ids : list OutputID) (vm : gmap OutputID V) : gmap OutputID V :=
  foldl (fun vm id => delete id vm) vm ids.
Definition ids_of (os : list Output) : gset OutputID := list_to_set (outputID <$> os).
Definition spent_ids (ss : list Spent) : gset OutputID := list_to_set (spentOutputID <$> ss).

Definition diff_ids (d : SlotDiff) : list OutputID * list OutputID := (outputID <$> sortedOutputs d, spentOutputID <$> sortedSpents d).

Definition spec_ApplyDiff (slot : SlotIndex) (os : list Output) (ss : list Spent) (L : Ledger) : Ledger :=
  mkLedger slot (add_outputs os (l_outputs L)) ((l_unspent L ∪ ids_of os) ∖ spent_ids ss)
    (add_spents ss (l_spents L)) (<[slot := diff_ids (mkSlotDiff slot os ss)]> (l_diffs L)).

Definition spec_RollbackDiff (slot : SlotIndex) (os : list Output) (ss : list Spent) (L : Ledger) : Ledger :=
  mkLedger (u32 (slot - 1)) (remove_keys (outputID <$> os) (add_outputs (spentOutput <$> ss) (l_outputs L)))
    ((l_unspent L ∪ spent_ids ss) ∖ ids_of os)
    (remove_keys (spentOutputID <$> ss) (l_spents L)) (delete slot (l_diffs L)).

Definition spec_Prune (slot : SlotIndex) (ss : list Spent) (L : Ledger) : Ledger :=
  mkLedger (l_slot L) (remove_keys (spentOutputID <$> ss) (l_outputs L)) (l_unspent L)
    (remove_keys (spentOutputID <$> ss) (l_spents L)) (delete slot (l_diffs L)).

Definition spec_Import (o : Output) (L : Ledger) : Ledger :=
  mkLedger (l_slot L) (<[outputID o := o]> (l_outputs L)) ({[outputID o]} ∪ l_unspent L) (l_spents L) (l_diffs L).

Definition spec_StoreIndex (slot : SlotIndex) (L : Ledger) : Ledger :=
  mkLedger slot (l_outputs L) (l_unspent L) (l_spents L) (l_diffs L).

Definition empty_ledger : Ledger := mkLedger 0 ∅ ∅ ∅ ∅.

(** Reads. *)
Definition spec_ReadSpent (L : Ledger) (id : OutputID) : option Spent :=
  o ← l_outputs L !! id; '(tx, slot) ← l_spents L !! id; Some (mkSpent id tx slot o).
Definition spec_SlotDiff (slot : SlotIndex) (L : Ledger) : option SlotDiff :=
  '(oids, sids) ← l_diffs L !! slot;
  os ← mapM (fun id => l_outputs L !! id) oids;
  ss ← mapM (spec_ReadSpent L) sids;
  Some (mkSlotDiff slot os ss).
Definition spec_PruneSlotIndex (slot : SlotIndex) (L : Ledger) : Ledger :=
  match spec_SlotDiff slot L with Some d => spec_Prune slot (Spents d) L | None => L end.

(** ** Keys removed from and added to a map *)
Lemma lookup_remove_keys {V} (ids : list OutputID) (vm : gmap OutputID V) (k : OutputID) :
  remove_keys ids vm !! k = if decide (k ∈ ids) then None else vm !! k.
Proof.
  unfold remove_keys. induction ids as [|id ids IH] in vm |- *; cbn; [by rewrite decide_False by set_solver|].
  rewrite IH. destruct (decide (k = id)) as [->|Hne].
  - rewrite (decide_True (P:=id ∈ id :: ids)) by set_solver. case_decide; [done|apply lookup_delete_eq].
  - rewrite lookup_delete_ne by done. destruct (decide (k ∈ ids)); [rewrite decide_True by set_solver|rewrite decide_False by set_solver]; done.
Qed.

Lemma lookup_add_outputs_other os om (k : OutputID) : k ∉ outputID <$> os -> add_outputs os om !! k = om !! k.
Proof.
  unfold add_outputs. induction os as [|o os IH] in om |- *; intros Hk; [done|]. cbn in *.
  rewrite IH by set_solver. rewrite lookup_insert_ne by set_solver. done.
Qed.

Lemma lookup_add_outputs os om o : NoDup (outputID <$> os) -> o ∈ os -> add_outputs os om !! outputID o = Some o.
Proof.
  unfold add_outputs. induction os as [|o' os IH] in om |- *; intros Hn Ho; [set_solver|].
  cbn in *. inversion_clear Hn as [|? ? Hn1 Hn2]. apply elem_of_cons in Ho as [->|Ho]; [|by apply IH].
  change (add_outputs os (<[outputID o' := o']> om) !! outputID o' = Some o').
  rewrite lookup_add_outputs_other by done. apply lookup_insert_eq.
Qed.

Lemma lookup_add_outputs_inv os om (k : OutputID) o :
  add_outputs os om !! k = Some o -> (o ∈ os /\ outputID o = k) \/ (k ∉ outputID <$> os /\ om !! k = Some o).
Proof.
  unfold add_outputs. induction os as [|o' os IH] in om |- *; cbn; [intros H; right; split; [set_solver|done]|].
  intros [[Ho Hk]|[Hn Hk]]%IH; [left; split; [set_solver|done]|].
  destruct (decide (outputID o' = k)) as [<-|Hne].
  - rewrite lookup_insert_eq in Hk. simplify_eq. left. split; [set_solver|done].
  - rewrite lookup_insert_ne in Hk by done. right. split; [set_solver|done].
Qed.

Lemma lookup_add_spents_other ss sm (k : OutputID) : k ∉ spentOutputID <$> ss -> add_spents ss sm !! k = sm !! k.
Proof.
  unfold add_spents. induction ss as [|s ss IH] in sm |- *; intros Hk; [done|]. cbn in *.
  rewrite IH by set_solver. rewrite lookup_insert_ne by set_solver. done.
Qed.

Lemma lookup_add_spents ss sm s :
  NoDup (spentOutputID <$> ss) -> s ∈ ss -> add_spents ss sm !! spentOutputID s = Some (transactionIDSpent s, slotSpent s).
Proof.
  unfold add_spents. induction ss as [|s' ss IH] in sm |- *; intros Hn Hs; [set_solver|].
  cbn in *. inversion_clear Hn as [|? ? Hn1 Hn2]. apply elem_of_cons in Hs as [->|Hs]; [|by apply IH].
  change (add_spents ss (<[spentOutputID s' := (transactionIDSpent s', slotSpent s')]> sm) !! spentOutputID s' = Some (transactionIDSpent s', slotSpent s')).
  rewrite lookup_add_spents_other by done. apply lookup_insert_eq.
Qed.

Lemma lookup_add_spents_inv ss sm (k : OutputID) v :
  add_spents ss sm !! k = Some v -> (exists s, s ∈ ss /\ spentOutputID s = k /\ v = (transactionIDSpent s, slotSpent s)) \/ (k ∉ spentOutputID <$> ss /\ sm !! k = Some v).
Proof.
  unfold add_spents. induction ss as [|s' ss IH] in sm |- *; cbn; [intros H; right; split; [set_solver|done]|].
  intros [(s & Hs & Hk & ->)|[Hn Hk]]%IH; [left; exists s; split; [set_solver|done]|].
  destruct (decide (spentOutputID s' = k)) as [<-|Hne].
  - rewrite lookup_insert_eq in Hk. simplify_eq. left. exists s'. split; [set_solver|done].
  - rewrite lookup_insert_ne in Hk by done. right. split; [set_solver|done].
Qed.

(** ** Well-formed objects: arrays have their length, integers their width *)
Section WellFormed.
Context `{I : LedgerIDs}.

Definition output_ok (o : Output) : Prop :=
  length (outputID o) = OutputIDLength /\ length (blockID o) = BlockIDLength /\ in_range Uint32 (slotBooked o)
  /\ in_range Uint32 (Z.of_nat (length (encodedOutput o))) /\ in_range Uint32 (Z.of_nat (length (encodedProof o))).
Definition spent_data_ok (v : TransactionID * SlotIndex) : Prop := length v.1 = TransactionIDLength /\ in_range Uint32 v.2.
Definition spent_ok (s : Spent) : Prop :=
  spentOutputID s = outputID (spentOutput s) /\ spent_data_ok (transactionIDSpent s, slotSpent s).
#[global] Instance output_ok_dec o : Decision (output_ok o).
Proof. unfold output_ok. apply _. Defined.
#[global] Instance spent_ok_dec s : Decision (spent_ok s).
Proof. unfold spent_ok, spent_data_ok. apply _. Defined.

(** The identifiers of a diff: their number is written as a uint32. *)
Definition ids_ok (ids : list OutputID) : Prop :=
  in_range Uint32 (Z.of_nat (length ids)) /\ Forall (fun id => length id = OutputIDLength) ids.

Record ledger_ok (L : Ledger) : Prop := {
  lo_slot : in_range Uint32 (l_slot L);
  lo_outputs id o : l_outputs L !! id = Some o -> outputID o = id /\ output_ok o;
  lo_unspent id : id ∈ l_unspent L -> is_Some (l_outputs L !! id);
  lo_spents id v : l_spents L !! id = Some v -> is_Some (l_outputs L !! id) /\ id ∉ l_unspent L /\ spent_data_ok v;
  lo_diffs slot d : l_diffs L !! slot = Some d -> ids_ok d.1 /\ ids_ok d.2;
}.
End WellFormed.

(** ** Codecs *)
Section Codecs.
Context `{MS : MarshalSpec} `{IS : LedgerIDsSpec}.

Lemma outputKey_eq id : outputStorageKeyForOutputID id = x01 :: id.
Proof. unfold outputStorageKeyForOutputID. by rewrite WriteByte_spec. Qed.
Lemma spentKey_eq id : spentStorageKeyForOutputID id = x02 :: id.
Proof. unfold spentStorageKeyForOutputID. by rewrite WriteByte_spec. Qed.
Lemma unspentKey_eq id : lookupKeyUnspentOutput id = x03 :: id.
Proof. unfold lookupKeyUnspentOutput. by rewrite WriteByte_spec. Qed.
Lemma diffKey_eq slot : slotDiffKeyForIndex slot = x04 :: put_le 4 slot.
Proof. unfold slotDiffKeyForIndex. by rewrite WriteByte_spec, slot_MustBytes_spec. Qed.

Lemma parses_slot s : in_range Uint32 s -> parses parseSlotIndex (slot_MustBytes s) s.
Proof.
  intros Hs. unfold parseSlotIndex. rewrite slot_MustBytes_spec. eapply parses_map; [apply parses_Bytes, length_put_le|].
  rewrite SlotIndexFromBytes_spec by apply length_put_le. rewrite get_put_le_id by (unfold in_range in Hs; cbn in *; lia).
  apply parses_option.
Qed.
Hint Resolve parses_slot : parse.

Lemma parse_eq {A} (p : reader A) e a : parses p e a -> parse p e = Ok a.
Proof. intros Hp. unfold parse. specialize (Hp []). rewrite app_nil_r in Hp. by rewrite Hp. Qed.

(** The identifier is read back from a key of any table. *)
Lemma parse_key z id : 0 <= z < 256 -> length id = OutputIDLength -> parse (_ ← ReadByte; ParseOutputID) (WriteByte z ++ id) = Ok id.
Proof. intros Hz Hid. apply parse_eq. unfold ParseOutputID. eapply parses_bind; eauto with parse. Qed.

Lemma output_roundtrip o : output_ok o -> output_kvStorableLoad (output_KVStorableKey o) (output_KVStorableValue o) = Ok o.
Proof.
  intros (Hid & Hb & Hs & He & Hp). unfold output_kvStorableLoad, output_KVStorableKey.
  unfold outputStorageKeyForOutputID. rewrite parse_key by done. cbn [mbind result_bind].
  apply parse_eq. unfold output_reader, output_KVStorableValue, ParseBlockID. rewrite !wrap_id by done.
  do 3 parse_step. rewrite Nat2Z.id. do 2 parse_step. rewrite Nat2Z.id.
  eapply parses_map; [eauto with parse|]. destruct o. apply parses_ret.
Qed.

Lemma spent_roundtrip s : spent_ok s -> length (spentOutputID s) = OutputIDLength ->
  spent_kvStorableLoad (spent_KVStorableKey s) (spent_KVStorableValue s) = Ok (mkSpent (spentOutputID s) (transactionIDSpent s) (slotSpent s)).
Proof.
  intros (_ & Htx & Hs) Hid. cbn in *. unfold spent_kvStorableLoad, spent_KVStorableKey, spentStorageKeyForOutputID.
  rewrite parse_key by done. cbn [mbind result_bind]. apply parse_eq. unfold spent_KVStorableValue, parseTransactionID.
  parse_step. eapply parses_map; eauto with parse.
Qed.

(** The metadata of the state tree is read back. *)
Lemma metadata_roundtrip v : in_range Uint32 (Time v) -> stateMetadataFromBytes (metadata_Bytes v) = Some v.
Proof.
  intros Hv. unfold stateMetadataFromBytes, metadata_Bytes. rewrite slot_MustBytes_spec, SlotIndexFromBytes_spec by apply length_put_le.
  cbn [fmap option_fmap option_map]. rewrite get_put_le_id by (unfold in_range in Hv; cbn in *; lia). by destruct v.
Qed.
End Codecs.
#[export] Hint Resolve parses_slot : parse.

(** ** What a batch leaves at a key *)
Section Batches.
Context `{MS : MarshalSpec} `{IS : LedgerIDsSpec}.

Lemma last_storeOutput k o old : last_of k (storeOutput o) old = if decide (x01 :: outputID o = k) then Some (output_KVStorableValue o) else old.
Proof. unfold storeOutput, output_KVStorableKey. by rewrite outputKey_eq. Qed.
Lemma last_deleteOutput k o old : last_of k (deleteOutput o) old = if decide (x01 :: outputID o = k) then None else old.
Proof. unfold deleteOutput, output_KVStorableKey. by rewrite outputKey_eq. Qed.
Lemma last_storeSpent k s old : last_of k (storeSpent s) old = if decide (x02 :: spentOutputID s = k) then Some (spent_KVStorableValue s) else old.
Proof. unfold storeSpent, spent_KVStorableKey. by rewrite spentKey_eq. Qed.
Lemma last_deleteSpent k s old : last_of k (deleteSpent s) old = if decide (x02 :: spentOutputID s = k) then None else old.
Proof. unfold deleteSpent, spent_KVStorableKey. by rewrite spentKey_eq. Qed.
Lemma last_markAsUnspent k o old : last_of k (markAsUnspent o) old = if decide (x03 :: outputID o = k) then Some [] else old.
Proof. unfold markAsUnspent, UnspentLookupKey. by rewrite unspentKey_eq. Qed.
Lemma last_deleteOutputLookups k o old : last_of k (deleteOutputLookups o) old = if decide (x03 :: outputID o = k) then None else old.
Proof. unfold deleteOutputLookups, UnspentLookupKey. by rewrite unspentKey_eq. Qed.
Lemma last_storeDiff k d old : last_of k (storeDiff d) old = if decide (x04 :: put_le 4 (Slot d) = k) then Some (diff_KVStorableValue d) else old.
Proof. unfold storeDiff, diff_KVStorableKey. by rewrite diffKey_eq. Qed.
Lemma last_deleteDiff k slot old : last_of k (deleteDiff slot) old = if decide (x04 :: put_le 4 slot = k) then None else old.
Proof. unfold deleteDiff. by rewrite diffKey_eq. Qed.
Lemma last_storeLedgerIndex k slot old : last_of k (storeLedgerIndex slot) old = if decide ([x00] = k) then Some (slot_MustBytes slot) else old.
Proof. done. Qed.

(** Effect of one batch per element on what a key means. *)
Lemma last_of_bind_rel {A V} (k : bytes) (f : A -> list mutation) (g : V -> A -> V) (e : V -> option bytes) (l : list A) v :
  (forall a v, a ∈ l -> last_of k (f a) (e v) = e (g v a)) -> last_of k (l ≫= f) (e v) = e (foldl g v l).
Proof.
  rewrite last_of_bind. induction l as [|a l IH] in v |- *; intros Hf; [done|]. cbn. rewrite Hf by set_solver. apply IH. set_solver.
Qed.
Lemma last_of_bind_same {A} (k : bytes) (f : A -> list mutation) (l : list A) old :
  (forall a old, a ∈ l -> last_of k (f a) old = old) -> last_of k (l ≫= f) old = old.
Proof. intros Hf. rewrite last_of_bind. apply foldl_const. intros. by apply Hf. Qed.
End Batches.
#[global] Hint Rewrite last_of_app : batch.
#[global] Hint Rewrite @last_storeOutput @last_deleteOutput @last_storeSpent @last_deleteSpent @last_markAsUnspent
  @last_deleteOutputLookups @last_storeDiff @last_deleteDiff @last_storeLedgerIndex using typeclasses eauto : batch.

(** Keys of different tables differ in their first byte. *)
Ltac other_table := change ledgerIndexKey with [x00]; repeat match goal with
  | |- context [decide (?a :: ?x = ?b :: ?y)] => rewrite (decide_False (P := a :: x = b :: y)) by (intros ?; discriminate)
  end.
Ltac batch_step := unfold storeSpentAndMarkOutputAsSpent, deleteSpentAndMarkOutputAsUnspent, markAsSpent; autorewrite with batch; other_table.
Ltac skip_table l := rewrite (last_of_bind_same _ _ l) by (intros; batch_step; done).

(** ** The bytes of the store mean the abstract ledger *)
Section Represents.
Context `{MU : MarshalUtil} `{I : LedgerIDs} {S T : Type} `{KV : KVStore S} `{ST : StateTree T}.

Definition mark (U : gset OutputID) (id : OutputID) : option bytes := if decide (id ∈ U) then Some [] else None.
Definition spent_value (v : TransactionID * SlotIndex) : bytes := v.1 ++ slot_MustBytes v.2.
Definition diff_value (d : list OutputID * list OutputID) : bytes :=
  WriteUint32 (u32 (Z.of_nat (length d.1))) ++ mjoin d.1 ++ WriteUint32 (u32 (Z.of_nat (length d.2))) ++ mjoin d.2.

Record represents (m : Manager S T) (L : Ledger) : Prop := {
  r_index : kv_get (store m) ledgerIndexKey = Some (slot_MustBytes (l_slot L)) \/ kv_get (store m) ledgerIndexKey = None /\ l_slot L = 0;
  r_outputs id : kv_get (store m) (x01 :: id) = output_KVStorableValue <$> l_outputs L !! id;
  r_spents id : kv_get (store m) (x02 :: id) = spent_value <$> l_spents L !! id;
  r_unspent id : kv_get (store m) (x03 :: id) = mark (l_unspent L) id;
  r_diffs slot : in_range Uint32 slot -> kv_get (store m) (x04 :: put_le 4 slot) = diff_value <$> l_diffs L !! slot;
  r_tree id : tree_get (stateTree m) id = if decide (id ∈ l_unspent L) then Some (mkMetadata (CreationSlot id)) else None;
}.
End Represents.

Section Refinement.
Context `{MS : MarshalSpec} `{IS : LedgerIDsSpec} {S T : Type} `{KV : KVStoreSpec S} `{ST : StateTreeSpec T}.
Implicit Types (m : Manager S T) (L : Ledger) (os : list Output) (ss : list Spent).

(** *** Tables *)
Lemma table_add_outputs {A} (out : A -> Output) (f : A -> list mutation) (l : list A) om (id : OutputID) :
  (forall a old, a ∈ l -> last_of (x01 :: id) (f a) old = if decide (x01 :: outputID (out a) = x01 :: id) then Some (output_KVStorableValue (out a)) else old) ->
  last_of (x01 :: id) (l ≫= f) (output_KVStorableValue <$> om !! id) = output_KVStorableValue <$> add_outputs (out <$> l) om !! id.
Proof.
  intros Hf. unfold add_outputs. rewrite foldl_fmap.
  apply (last_of_bind_rel _ f (fun om a => <[outputID (out a) := out a]> om) (fun om : gmap OutputID Output => output_KVStorableValue <$> om !! id)).
  intros a om' Ha. rewrite Hf by done. rewrite lookup_insert. destruct (decide (outputID (out a) = id)) as [->|Hne].
  - by rewrite decide_True.
  - rewrite decide_False by congruence. done.
Qed.

Lemma table_add_spents (f : Spent -> list mutation) ss sm (id : OutputID) :
  (forall s old, s ∈ ss -> last_of (x02 :: id) (f s) old = if decide (x02 :: spentOutputID s = x02 :: id) then Some (spent_KVStorableValue s) else old) ->
  last_of (x02 :: id) (ss ≫= f) (spent_value <$> sm !! id) = spent_value <$> add_spents ss sm !! id.
Proof.
  intros Hf. apply (last_of_bind_rel _ f (fun sm s => <[spentOutputID s := (transactionIDSpent s, slotSpent s)]> sm)
    (fun sm : gmap OutputID (TransactionID * SlotIndex) => spent_value <$> sm !! id)).
  intros s sm' Hs. rewrite Hf by done. rewrite lookup_insert. destruct (decide (spentOutputID s = id)) as [->|Hne].
  - by rewrite decide_True.
  - rewrite decide_False by congruence. done.
Qed.

Lemma table_remove {A V} (key : A -> OutputID) (enc : V -> bytes) (f : A -> list mutation) (b : Byte.byte) (l : list A) (vm : gmap OutputID V) (id : OutputID) :
  (forall a old, a ∈ l -> last_of (b :: id) (f a) old = if decide (b :: key a = b :: id) then None else old) ->
  last_of (b :: id) (l ≫= f) (enc <$> vm !! id) = enc <$> remove_keys (key <$> l) vm !! id.
Proof.
  intros Hf. transitivity (enc <$> foldl (fun vm a => delete (key a) vm) vm l !! id).
  - apply (last_of_bind_rel _ f (fun vm a => delete (key a) vm) (fun vm : gmap OutputID V => enc <$> vm !! id)).
    intros a vm' Ha. rewrite Hf by done. rewrite lookup_delete. destruct (decide (key a = id)) as [->|Hne].
    + by rewrite decide_True.
    + by rewrite decide_False by congruence.
  - unfold remove_keys. by rewrite foldl_fmap.
Qed.

Lemma table_mark {A} (key : A -> OutputID) (f : A -> list mutation) (l : list A) (U : gset OutputID) (id : OutputID) :
  (forall a old, a ∈ l -> last_of (x03 :: id) (f a) old = if decide (x03 :: key a = x03 :: id) then Some [] else old) ->
  last_of (x03 :: id) (l ≫= f) (mark U id) = mark (U ∪ list_to_set (key <$> l)) id.
Proof.
  intros Hf. transitivity (mark (foldl (fun U a => U ∪ {[key a]}) U l) id).
  - apply (last_of_bind_rel _ f (fun U a => U ∪ {[key a]}) (fun U => mark U id)). intros a U' Ha. rewrite Hf by done.
    unfold mark. destruct (decide (key a = id)) as [->|Hne].
    + rewrite !decide_True by set_solver. done.
    + rewrite decide_False by congruence. apply decide_ext. set_solver.
  - f_equal. clear Hf. induction l as [|a l IH] in U |- *; cbn; [set_solver|]. rewrite IH. set_solver.
Qed.

Lemma table_unmark {A} (key : A -> OutputID) (f : A -> list mutation) (l : list A) (U : gset OutputID) (id : OutputID) :
  (forall a old, a ∈ l -> last_of (x03 :: id) (f a) old = if decide (x03 :: key a = x03 :: id) then None else old) ->
  last_of (x03 :: id) (l ≫= f) (mark U id) = mark (U ∖ list_to_set (key <$> l)) id.
Proof.
  intros Hf. transitivity (mark (foldl (fun U a => U ∖ {[key a]}) U l) id).
  - apply (last_of_bind_rel _ f (fun U a => U ∖ {[key a]}) (fun U => mark U id)). intros a U' Ha. rewrite Hf by done.
    unfold mark. destruct (decide (key a = id)) as [->|Hne].
    + rewrite decide_True by done. rewrite decide_False by set_solver. done.
    + rewrite decide_False by congruence. apply decide_ext. set_solver.
  - f_equal. clear Hf. induction l as [|a l IH] in U |- *; cbn; [set_solver|]. rewrite IH. set_solver.
Qed.

(** *** The state tree *)
Definition tree_mark (U : gset OutputID) (id : OutputID) : option stateTreeMetadata :=
  if decide (id ∈ U) then Some (mkMetadata (CreationSlot id)) else None.

Lemma tree_set_all_get os (t : T) U : (forall id, tree_get t id = tree_mark U id) ->
  forall id, tree_get (tree_set_all os t) id = tree_mark (U ∪ ids_of os) id.
Proof.
  unfold tree_set_all, ids_of. induction os as [|o os IH] in t, U |- *; intros Ht id; cbn [foldl fmap list_fmap list_to_set].
  - rewrite Ht. f_equal. set_solver.
  - rewrite (IH _ (U ∪ {[outputID o]})); [f_equal; set_solver|]. intros id'. rewrite tree_get_set, Ht.
    unfold tree_mark. destruct (decide (outputID o = id')) as [<-|Hne]; [by rewrite decide_True by set_solver|].
    apply decide_ext. set_solver.
Qed.

Lemma tree_restore_all_eq ss (t : T) : Forall spent_ok ss -> tree_restore_all ss t = tree_set_all (spentOutput <$> ss) t.
Proof.
  unfold tree_restore_all, tree_set_all. induction 1 as [|s ss Hs _ IH] in t |- *; [done|]. cbn. rewrite IH. by destruct Hs as [-> _].
Qed.

Lemma tree_delete_all_get ids (t : T) U : (forall id, tree_get t id = tree_mark U id) ->
  forall id, tree_get (tree_delete_all ids t) id = tree_mark (U ∖ list_to_set ids) id.
Proof.
  unfold tree_delete_all. induction ids as [|i ids IH] in t, U |- *; intros Ht id; cbn [foldl list_to_set].
  - rewrite Ht. f_equal. set_solver.
  - rewrite (IH _ (U ∖ {[i]})); [f_equal; set_solver|]. intros id'. rewrite tree_get_delete, Ht.
    unfold tree_mark. destruct (decide (i = id')) as [<-|Hne]; [by rewrite decide_False by set_solver|].
    apply decide_ext. set_solver.
Qed.
End Refinement.

Lemma put_le_u32_inj a b : in_range Uint32 a -> in_range Uint32 b -> put_le 4 a = put_le 4 b -> a = b.
Proof.
  intros Ha Hb E. unfold in_range in *. cbn in *.
  rewrite <- (get_put_le_id 4 a), <- (get_put_le_id 4 b) by (cbn; lia). by rewrite E.
Qed.

Section Operations.
Context `{MS : MarshalSpec} `{IS : LedgerIDsSpec} {S T : Type} `{KV : KVStoreSpec S} `{ST : StateTreeSpec T}.
Implicit Types (m : Manager S T) (L : Ledger) (os : list Output) (ss : list Spent) (slot : SlotIndex).

Definition key_consistent (s : Spent) : Prop := spentOutputID s = outputID (spentOutput s).

Lemma key_consistent_fmap ss : Forall key_consistent ss -> outputID <$> (spentOutput <$> ss) = spentOutputID <$> ss.
Proof. induction 1 as [|s ss Hs _ IH]; [done|]. cbn. rewrite IH. by rewrite Hs. Qed.

Lemma ids_of_spent ss : Forall key_consistent ss -> ids_of (spentOutput <$> ss) = spent_ids ss.
Proof. intros Hk. unfold ids_of, spent_ids. by rewrite key_consistent_fmap. Qed.

Lemma diff_value_eq slot os ss : Forall key_consistent ss ->
  diff_KVStorableValue (mkSlotDiff slot os ss) = diff_value (diff_ids (mkSlotDiff slot os ss)).
Proof.
  intros Hk. unfold diff_KVStorableValue, diff_value, diff_ids. cbn [fst snd Outputs Spents].
  rewrite !length_fmap. unfold sortedOutputs, sortedSpents. cbn [Outputs Spents].
  rewrite !(Permutation_length (merge_sort_Permutation _ _)).
  assert (Hj : forall A (f : A -> bytes) (l : list A), l ≫= f = mjoin (f <$> l)).
  { intros A f l. induction l as [|a l IH]; [done|]. cbn. by rewrite IH. }
  rewrite !Hj, (list_fmap_compose spentOutput outputID), key_consistent_fmap; [done|]. by rewrite merge_sort_Permutation.
Qed.

(** The rows of the slot diffs. *)
Lemma diff_rows (d : gmap SlotIndex (list OutputID * list OutputID)) slot (o : option (list OutputID * list OutputID)) slot' :
  in_range Uint32 slot -> in_range Uint32 slot' ->
  (if decide (x04 :: put_le 4 slot = x04 :: put_le 4 slot') then diff_value <$> o else diff_value <$> d !! slot')
  = diff_value <$> partial_alter (fun _ => o) slot d !! slot'.
Proof.
  intros Hs Hs'. destruct (decide (slot = slot')) as [->|Hne].
  { rewrite decide_True, lookup_partial_alter_eq by done. done. }
  rewrite lookup_partial_alter_ne by done.
  rewrite decide_False; [done|]. 
  intros E. apply (f_equal tail) in E. cbn in E.
  by apply Hne, put_le_u32_inj.
Qed.

Lemma ApplyDiff_represents slot os ss m L :
  in_range Uint32 slot -> Forall key_consistent ss -> represents m L ->
  represents (ApplyDiff slot os ss m) (spec_ApplyDiff slot os ss L).
Proof.
  intros Hslot Hk [Hi Ho Hs Hu Hd Ht]. unfold ApplyDiff, apply_mutations.
  split; cbn [store stateTree l_slot l_outputs l_unspent l_spents l_diffs spec_ApplyDiff]; intros; try rewrite kv_get_commit.
  - left. autorewrite with batch.
    done.
  - rewrite Ho, !last_of_app. rewrite (table_add_outputs (fun o => o)) by (intros; batch_step; done).
    rewrite list_fmap_id. skip_table ss. batch_step. done.
  - rewrite Hs, !last_of_app. skip_table os. rewrite (table_add_spents _ ss) by (intros; batch_step; done). batch_step. done.
  - rewrite Hu, !last_of_app. rewrite (table_mark outputID) by (intros; batch_step; done).
    rewrite (table_unmark (fun s => outputID (spentOutput s))) by (intros; batch_step; done). batch_step.
    rewrite (list_fmap_compose spentOutput outputID), key_consistent_fmap by done. done.
  - rewrite Hd by done. rewrite !last_of_app. skip_table os. skip_table ss. autorewrite with batch. cbn [Slot].
    rewrite (decide_False (P:=[x00] = _)) by (intros ?; discriminate). rewrite diff_value_eq by done.
    apply (diff_rows _ _ (Some _)); done.
  - rewrite tree_get_commit. eapply tree_delete_all_get. by apply tree_set_all_get.
Qed.

Lemma RollbackDiff_represents slot os ss m L :
  in_range Uint32 slot -> Forall spent_ok ss -> represents m L ->
  represents (RollbackDiff slot os ss m) (spec_RollbackDiff slot os ss L).
Proof.
  intros Hslot Hok [Hi Ho Hs Hu Hd Ht]. unfold RollbackDiff, rollback_mutations.
  assert (Hk : Forall key_consistent ss) by (eapply Forall_impl; [done|]; by intros s []).
  split; cbn [store stateTree l_slot l_outputs l_unspent l_spents l_diffs spec_RollbackDiff]; intros; try rewrite kv_get_commit.
  - left. autorewrite with batch.
    done.
  - rewrite Ho, !last_of_app. rewrite (table_add_outputs spentOutput) by (intros; batch_step; done).
    rewrite (table_remove outputID) by (intros; batch_step; done). batch_step. done.
  - rewrite Hs, !last_of_app. rewrite (table_remove spentOutputID) by (intros; batch_step; done). skip_table os. batch_step. done.
  - rewrite Hu, !last_of_app. rewrite (table_mark (fun s => outputID (spentOutput s))) by (intros; batch_step; done).
    rewrite (table_unmark outputID) by (intros; batch_step; done). batch_step.
    rewrite (list_fmap_compose spentOutput outputID), key_consistent_fmap by done. done.
  - rewrite Hd by done. rewrite !last_of_app. skip_table os. skip_table ss. autorewrite with batch.
    rewrite (decide_False (P:=[x00] = _)) by (intros ?; discriminate). apply (diff_rows _ _ None); done.
  - rewrite tree_get_commit. eapply tree_delete_all_get. rewrite tree_restore_all_eq by done.
    rewrite <- ids_of_spent by done. by apply tree_set_all_get.
Qed.

Lemma StoreLedgerIndex_represents slot m L : represents m L -> represents (StoreLedgerIndex slot m) (spec_StoreIndex slot L).
Proof.
  intros [Hi Ho Hs Hu Hd Ht]. unfold StoreLedgerIndex. split; cbn [store stateTree with_store l_slot l_outputs l_unspent l_spents l_diffs spec_StoreIndex];
    intros; try (rewrite kv_get_set, decide_False by (intros ?; discriminate)); auto.
  left. rewrite kv_get_set. by rewrite decide_True.
Qed.

Lemma importUnspentOutput_represents o m L : represents m L -> represents (importUnspentOutput o m) (spec_Import o L).
Proof.
  intros [Hi Ho Hs Hu Hd Ht]. unfold importUnspentOutput.
  split; cbn [store stateTree l_slot l_outputs l_unspent l_spents l_diffs spec_Import]; intros; try rewrite kv_get_commit; batch_step; auto.
  - rewrite Ho, lookup_insert. destruct (decide (outputID o = id)) as [->|Hne]; [by rewrite decide_True|by rewrite decide_False by congruence].
  - rewrite Hu. unfold mark. destruct (decide (outputID o = id)) as [->|Hne]; [rewrite !decide_True by set_solver; done|].
    rewrite decide_False by congruence. 
    apply decide_ext. set_solver.
  - rewrite tree_get_set, Ht. unfold newStateMetadata. destruct (decide (outputID o = id)) as [<-|Hne]; [by rewrite decide_True by set_solver|].
    apply decide_ext. set_solver.
Qed.

Lemma AddGenesisUnspentOutput_represents o m L : represents m L -> represents (AddGenesisUnspentOutput o m) (spec_Import o L).
Proof.
  intros HR. destruct (importUnspentOutput_represents o m L HR) as [Hi Ho Hs Hu Hd Ht]. split; cbn [store stateTree AddGenesisUnspentOutput]; auto.
  intros id. by rewrite tree_get_commit.
Qed.

(** *** Reads *)
Lemma ReadLedgerIndex_spec m L : represents m L -> ledger_ok L -> ReadLedgerIndex m = Ok (l_slot L).
Proof.
  intros HR HL. unfold ReadLedgerIndex. destruct (r_index _ _ HR) as [->|[-> ->]]; [|done].
  pose proof (lo_slot _ HL) as Hr. rewrite slot_MustBytes_spec, SlotIndexFromBytes_spec by apply length_put_le.
  cbn [result_of]. rewrite get_put_le_id; [done|]. unfold in_range in Hr. cbn in *. lia.
Qed.

Lemma ReadOutput_spec id m L : represents m L -> ledger_ok L -> ReadOutputByOutputID id m = result_of ErrKeyNotFound (l_outputs L !! id).
Proof.
  intros HR HL. unfold ReadOutputByOutputID, kv_load. rewrite outputKey_eq, (r_outputs _ _ HR).
  destruct (l_outputs L !! id) as [o|] eqn:E; [|done]. cbn [fmap option_fmap option_map result_of mbind result_bind].
  destruct (lo_outputs _ HL _ _ E) as [<- Hok]. rewrite <- outputKey_eq. by apply output_roundtrip.
Qed.

Lemma ReadSpent_spec id m L : represents m L -> ledger_ok L -> ReadSpentForOutputID id m = result_of ErrKeyNotFound (spec_ReadSpent L id).
Proof.
  intros HR HL. unfold ReadSpentForOutputID, spec_ReadSpent. rewrite (ReadOutput_spec _ _ _ HR HL). destruct (l_outputs L !! id) as [o|] eqn:E; [|done].
  cbn [result_of mbind result_bind option_bind]. unfold kv_load. rewrite spentKey_eq, (r_spents _ _ HR).
  destruct (l_spents L !! id) as [[tx slot]|] eqn:E'; [|done]. cbn [fmap option_fmap option_map result_of mbind result_bind option_bind].
  destruct (lo_outputs _ HL _ _ E) as [<- Hok]. destruct (lo_spents _ HL _ _ E') as (_ & _ & Hd).
  rewrite <- spentKey_eq. pose proof (spent_roundtrip (mkSpent (outputID o) tx slot o)) as Hr.
  unfold spent_KVStorableKey, spent_KVStorableValue in Hr. cbn in Hr. unfold spent_value. cbn.
  rewrite Hr; [done|by split|by destruct Hok].
Qed.

Lemma IsOutputIDUnspent_spec id m L : represents m L -> IsOutputIDUnspent id m = bool_decide (id ∈ l_unspent L).
Proof.
  intros HR. unfold IsOutputIDUnspent. rewrite unspentKey_eq, (r_unspent _ _ HR). unfold mark. case_decide; [by rewrite bool_decide_true|by rewrite bool_decide_false].
Qed.

(** The loop that loads an object per identifier. *)
Lemma load_n_spec {A} (load : OutputID -> option A) (ids : list OutputID) rest :
  Forall (fun id => length id = OutputIDLength) ids ->
  load_n (length ids) (fun id => result_of ErrKeyNotFound (load id)) (mjoin ids ++ rest) = result_of ErrKeyNotFound ((fun l => (l, rest)) <$> mapM load ids).
Proof.
  induction 1 as [|id ids Hid _ IH]; [done|].
  cbn [length load_n mjoin list_join mapM]. rewrite <- app_assoc. unfold ParseOutputID. rewrite (parses_Bytes _ _ Hid _). cbn [result_of mbind result_bind].
  destruct (load id) as [a|]; [|done]. cbn [result_of mbind result_bind option_bind]. cbn [mjoin] in IH. etransitivity; [by apply (f_equal (fun r => r ≫= _)), IH|].
  by destruct (mapM load ids).
Qed.

Lemma load_n_ext {A} n (load1 load2 : OutputID -> result lerror A) bs : (forall id, load1 id = load2 id) -> load_n n load1 bs = load_n n load2 bs.
Proof.
  intros Hl. induction n as [|n IH] in bs |- *; [done|]. cbn. destruct (ParseOutputID bs) as [[id bs']|]; [|done]. cbn. rewrite Hl.
  destruct (load2 id); [|done]. cbn. by rewrite IH.
Qed.

Lemma SlotDiff_spec slot m L :
  represents m L -> ledger_ok L -> in_range Uint32 slot -> SlotDiff_ slot m = result_of ErrKeyNotFound (spec_SlotDiff slot L).
Proof.
  intros HR HL Hslot. unfold SlotDiff_, kv_load, spec_SlotDiff. rewrite diffKey_eq, (r_diffs _ _ HR) by done.
  destruct (l_diffs L !! slot) as [[oids sids]|] eqn:E; [|done]. destruct (lo_diffs _ HL _ _ E) as [[Hno Ho] [Hns Hs]]. cbn [fst snd] in *.
  cbn [fmap option_fmap option_map result_of mbind result_bind option_bind]. unfold diff_kvStorableLoad. cbn [drop]. rewrite drop_0.
  rewrite SlotIndexFromBytes_spec by apply length_put_le. cbn [result_of mbind result_bind].
  rewrite get_put_le_id by (unfold in_range in Hslot; cbn in *; lia).
  unfold diff_value. cbn [fst snd]. rewrite !wrap_id by done. rewrite (parses_Uint32 _ Hno _). cbn [result_of mbind result_bind].
  rewrite Nat2Z.id, (load_n_ext _ _ (fun id => result_of ErrKeyNotFound (l_outputs L !! id))) by (intros; by apply ReadOutput_spec).
  rewrite load_n_spec by done. destruct (mapM _ oids) as [os|]; [|done]. cbn [fmap option_fmap option_map result_of mbind result_bind option_bind].
  rewrite (parses_Uint32 _ Hns _). cbn [result_of mbind result_bind]. rewrite Nat2Z.id.
  rewrite (load_n_ext _ _ (fun id => result_of ErrKeyNotFound (spec_ReadSpent L id))) by (intros; by apply ReadSpent_spec).
  rewrite <- (app_nil_r (mjoin sids)), load_n_spec by done. by destruct (mapM _ sids).
Qed.

(** The diff a read returns. *)
Lemma spec_SlotDiff_inv slot L d : spec_SlotDiff slot L = Some d ->
  exists oids sids, l_diffs L !! slot = Some (oids, sids) /\ Slot d = slot
    /\ Forall2 (fun id o => l_outputs L !! id = Some o) oids (Outputs d) /\ Forall2 (fun id s => spec_ReadSpent L id = Some s) sids (Spents d).
Proof.
  unfold spec_SlotDiff. intros ([oids sids] & E & (os & Ho & (ss & Hs & ?)%bind_Some)%bind_Some)%bind_Some. simplify_eq.
  exists oids, sids. split; [done|]. split; [done|]. split; by apply mapM_Some.
Qed.

Lemma spec_ReadSpent_inv L id s : ledger_ok L -> spec_ReadSpent L id = Some s ->
  spentOutputID s = id /\ l_outputs L !! id = Some (spentOutput s) /\ l_spents L !! id = Some (transactionIDSpent s, slotSpent s) /\ spent_ok s.
Proof.
  intros HL. unfold spec_ReadSpent. intros (o & Ho & ([tx sl] & Hs & ?)%bind_Some)%bind_Some. simplify_eq. cbn.
  destruct (lo_outputs _ HL _ _ Ho) as [? Hok]. destruct (lo_spents _ HL _ _ Hs) as (_ & _ & Hd).
  split; [done|]. split; [done|]. split; [done|]. split; [by symmetry|done].
Qed.

Lemma PruneSlotIndex_represents slot m L :
  in_range Uint32 slot -> ledger_ok L -> represents m L ->
  exists m', PruneSlotIndex slot m = (Ok tt, m') /\ represents m' (spec_PruneSlotIndex slot L).
Proof.
  intros Hslot HL HR. unfold PruneSlotIndex, spec_PruneSlotIndex. rewrite (SlotDiff_spec _ _ _ HR HL Hslot).
  destruct (spec_SlotDiff slot L) as [d|] eqn:E; cbn [result_of]; [|by exists m]. eexists. split; [done|].
  apply spec_SlotDiff_inv in E as (oids & sids & _ & <- & _ & Hss).
  assert (Hk : Forall key_consistent (Spents d)).
  { clear -HL Hss IS MS. induction Hss as [|id s sids ss Hs _ IH]; constructor; [|done]. by apply spec_ReadSpent_inv in Hs as (_ & _ & _ & [? _]). }
  destruct HR as [Hi Ho Hs Hu Hd Ht].
  split; cbn [store stateTree with_store l_slot l_outputs l_unspent l_spents l_diffs spec_Prune]; intros; try rewrite kv_get_commit; auto.
  - rewrite !last_of_app. skip_table (Spents d). batch_step. done.
  - rewrite Ho, !last_of_app. rewrite (table_remove (fun s => outputID (spentOutput s))) by (intros; batch_step; done).
    rewrite (list_fmap_compose spentOutput outputID), key_consistent_fmap by done. batch_step. done.
  - rewrite Hs, !last_of_app. rewrite (table_remove spentOutputID) by (intros; batch_step; done). batch_step. done.
  - rewrite Hu, !last_of_app. skip_table (Spents d). batch_step. done.
  - rewrite Hd, !last_of_app by done. skip_table (Spents d). autorewrite with batch. apply (diff_rows _ _ None); done.
Qed.

(** *** Iteration over the unspent outputs *)
Lemma iterate_ids_all {A} (f : A -> OutputID -> A) ids acc :
  Forall (fun id => length id = OutputIDLength) ids ->
  iterate_ids (fun acc id => (f acc id, true)) ((fun id => x03 :: id) <$> ids) acc = Ok (foldl f acc ids).
Proof.
  intros Hids. induction Hids as [|id ids Hid _ IH] in acc |- *; [done|]. cbn [fmap list_fmap iterate_ids foldl].
  unfold outputIDFromDatabaseKey. replace (x03 :: id) with (WriteByte 3 ++ id) by by rewrite WriteByte_spec.
  rewrite parse_key by done. cbn [mbind result_bind]. apply IH.
Qed.

(** The keys of the unspent table are the unspent identifiers, in the order of the store. *)
Lemma unspent_keys m L : represents m L ->
  exists ids, (kv_iterate [byte_of StoreKeyPrefixOutputUnspent] (store m)).*1 = (fun id => x03 :: id) <$> ids /\ ids ≡ₚ elements (l_unspent L).
Proof.
  intros HR. change [byte_of StoreKeyPrefixOutputUnspent] with [x03]. set (es := kv_iterate [x03] (store m)).
  assert (Hes : forall k v, (k, v) ∈ es <-> exists id, k = x03 :: id /\ id ∈ l_unspent L /\ v = []).
  { intros k v. unfold es. rewrite kv_iterate_elem. split.
    - intros [[id ->] Hv]. exists id. cbn in Hv. rewrite (r_unspent _ _ HR) in Hv. unfold mark in Hv. case_decide; naive_solver.
    - intros (id & -> & Hid & ->). split; [by exists id|]. rewrite (r_unspent _ _ HR). unfold mark. by rewrite decide_True. }
  exists (tail <$> es.*1). split.
  - rewrite <- list_fmap_compose. rewrite <- (list_fmap_id es.*1) at 1. apply list_fmap_ext. intros i k Hk.
    apply list_elem_of_lookup_2, list_elem_of_fmap in Hk as ([k' v] & -> & Hin). apply Hes in Hin as (id & -> & _). done.
  - apply NoDup_Permutation; [|apply NoDup_elements|].
    + pose proof (kv_iterate_keys [x03] (store m)) as Hn. fold es in Hn. apply NoDup_fmap_2_strong; [|done].
      intros k1 k2 ([k1' v1] & -> & H1)%list_elem_of_fmap ([k2' v2] & -> & H2)%list_elem_of_fmap E.
      apply Hes in H1 as (? & -> & _). apply Hes in H2 as (? & -> & _). cbn in *. congruence.
    + intros id. rewrite elem_of_elements, list_elem_of_fmap. split.
      * intros (k & -> & ([k' v] & -> & Hin)%list_elem_of_fmap). apply Hes in Hin as (id & -> & Hid & _). done.
      * intros Hid. exists (x03 :: id). split; [done|]. apply list_elem_of_fmap. exists (x03 :: id, []). split; [done|]. apply Hes. eauto.
Qed.
End Operations.
