(* ===== verification/UtxoSnapshot.v ===== *)
(** * Snapshots of the UTXO ledger (pkg/protocol/engine/utxoledger/snapshot.go)

    [Export] writes the unspent outputs and the diffs back to a target slot, with
    the two counters filled in afterwards; [Import] reads them into a ledger and
    rolls it back; [Rollback] rolls a ledger back in place.

    Parameters: whether iota.go decodes the bytes of an output and of a proof at
    the slot of a block ([SnapshotDecoders]). *)
From Stdlib Require Import Strings.Byte.
From S2P Require Import Prelude Bytes KvStore UtxoLedger.
Import UtxoLedger.

Module UtxoSnapshot.

Class SnapshotDecoders := {
  output_decodes : bytes -> bytes -> bool;   (* block ID, encoded output *)
  proof_decodes : bytes -> bytes -> bool;    (* block ID, encoded proof *)
}.

Section Codec.
Context `{MU : MarshalUtil} `{I : LedgerIDs} `{D : SnapshotDecoders}.

Definition output_SnapshotBytes (o : Output) : bytes :=
  outputID o ++ blockID o ++ WriteUint32 (u32 (slotBooked o))
  ++ WriteUint32 (u32 (Z.of_nat (length (encodedOutput o)))) ++ encodedOutput o
  ++ WriteUint32 (u32 (Z.of_nat (length (encodedProof o)))) ++ encodedProof o.

Definition OutputFromSnapshotReader : reader Output :=
  id ← read_bytes OutputIDLength;
  block ← read_bytes BlockIDLength;
  slot ← read_le 4;
  outputLength ← read_le 4;
  outputBytes ← read_bytes (Z.to_nat outputLength);
  _ ← read_option (if output_decodes block outputBytes then Some tt else None);
  proofLength ← read_le 4;
  proofBytes ← read_bytes (Z.to_nat proofLength);
  _ ← read_option (if proof_decodes block proofBytes then Some tt else None);
  mret (mkOutput id block slot outputBytes proofBytes).

Definition spent_SnapshotBytes (s : Spent) : bytes := output_SnapshotBytes (spentOutput s) ++ transactionIDSpent s.

Definition SpentFromSnapshotReader (indexSpent : SlotIndex) : reader Spent :=
  output ← OutputFromSnapshotReader;
  tx ← read_bytes TransactionIDLength;
  mret (NewSpent output tx indexSpent).

Definition ReadSlotDiffToSnapshotReader : reader SlotDiff :=
  slot ← read_le 4;
  createdCount ← read_le 8;
  outputs ← read_n (Z.to_nat createdCount) OutputFromSnapshotReader;
  consumedCount ← read_le 8;
  spents ← read_n (Z.to_nat consumedCount) (SpentFromSnapshotReader slot);
  mret (mkSlotDiff slot outputs spents).

(** Returns the writer and the number of bytes written. *)
Definition WriteSlotDiffToSnapshotWriter (w : WriteSeeker) (d : SlotDiff) : WriteSeeker * Z :=
  let wo := WriteValueFunc (slot_MustBytes (Slot d)) (w, 0) in
  let wo := WriteValueFunc (put_le 8 (u64 (Z.of_nat (length (Outputs d))))) wo in
  let wo := foldl (fun wo o => WriteBytesFunc (output_SnapshotBytes o) wo) wo (sortedOutputs d) in
  let wo := WriteValueFunc (put_le 8 (u64 (Z.of_nat (length (Spents d))))) wo in
  foldl (fun wo s => WriteBytesFunc (spent_SnapshotBytes s) wo) wo (sortedSpents d).
End Codec.

Section Manager.
Context `{MU : MarshalUtil} `{I : LedgerIDs} `{D : SnapshotDecoders} {S T : Type} `{KV : KVStore S} `{ST : StateTree T}.
Implicit Types (m : Manager S T).

Definition commit_tree m : Manager S T := mkManager (store m) (tree_commit (stateTree m)).

(** *** Import *)
Fixpoint import_outputs (n : nat) (bs : bytes) m : result lerror bytes * Manager S T :=
  match n with
  | O => (Ok bs, m)
  | Datatypes.S n =>
      match OutputFromSnapshotReader bs with
      | None => (Err ErrParse, m)
      | Some (o, bs) => import_outputs n bs (importUnspentOutput o m)
      end
  end.

(** [i] counts up; the diffs must be in descending order from the ledger index. *)
Fixpoint import_diffs (n : nat) (i : Z) (snapshotLedgerIndex : SlotIndex) (bs : bytes) m : result lerror bytes * Manager S T :=
  match n with
  | O => (Ok bs, m)
  | Datatypes.S n =>
      match ReadSlotDiffToSnapshotReader bs with
      | None => (Err ErrParse, m)
      | Some (d, bs) =>
          if Slot d =? u32 (snapshotLedgerIndex - u32 i)
          then import_diffs n (u64 (i + 1)) snapshotLedgerIndex bs (RollbackDiff (Slot d) (Outputs d) (Spents d) m)
          else (Err ErrInvalidSlotIndex, m)
      end
  end.

(** Returns what is left of the reader. *)
Definition Import (bs : bytes) m : result lerror bytes * Manager S T :=
  match read_le 4 bs with
  | None => (Err ErrParse, m)
  | Some (snapshotLedgerIndex, bs) =>
      let m := StoreLedgerIndex snapshotLedgerIndex m in
      match (outputCount ← read_le 8; slotDiffCount ← read_le 8; mret (outputCount, slotDiffCount)) bs with
      | None => (Err ErrParse, m)
      | Some ((outputCount, slotDiffCount), bs) =>
          match import_outputs (Z.to_nat outputCount) bs m with
          | (Err e, m) => (Err e, m)
          | (Ok bs, m) =>
              match import_diffs (Z.to_nat slotDiffCount) 0 snapshotLedgerIndex bs m with
              | (Err e, m) => (Err e, m)
              | (Ok bs, m) => (Ok bs, commit_tree m)
              end
          end
      end
  end.

(** *** Export *)
Fixpoint export_outputs (ids : list OutputID) (wo : WriteSeeker * Z) (count : Z) m : result lerror (WriteSeeker * Z * Z) :=
  match ids with
  | [] => Ok (wo, count)
  | id :: ids =>
      o ← ReadOutputByOutputID id m;
      export_outputs ids (WriteBytesFunc (output_SnapshotBytes o) wo) (u64 (count + 1)) m
  end.

(** [for diffIndex := ledgerIndex; diffIndex > targetIndex; diffIndex--]: [n] is the number of iterations. *)
Fixpoint export_diffs (n : nat) (diffIndex : SlotIndex) (wo : WriteSeeker * Z) (count : Z) m : result lerror (WriteSeeker * Z * Z) :=
  match n with
  | O => Ok (wo, count)
  | Datatypes.S n =>
      d ← SlotDiff_ diffIndex m;
      let '(w, written) := WriteSlotDiffToSnapshotWriter wo.1 d in
      export_diffs n (u32 (diffIndex - 1)) (w, wo.2 + written) (u64 (count + 1)) m
  end.

Definition Export (w : WriteSeeker) (targetIndex : SlotIndex) m : result lerror WriteSeeker :=
  ledgerIndex ← ReadLedgerIndex m;
  let w := (WriteValueFunc (put_le 4 ledgerIndex) (w, 0)).1 in
  let wo := WriteValueFunc (put_le 8 0) (w, 0) in
  let wo := WriteValueFunc (put_le 8 0) wo in
  outputIDs ← UnspentOutputsIDs m;
  '(wo, outputCount) ← export_outputs (RemoveDupsAndSort outputIDs) wo 0 m;
  '((w, relativeCountersPosition), slotDiffCount) ← export_diffs (Z.to_nat (ledgerIndex - targetIndex)) ledgerIndex wo 0 m;
  w ← result_of ErrSeek (w_seek (- relativeCountersPosition) w);
  let wo := WriteValueFunc (put_le 8 outputCount) (w, 0) in
  let '(w, countersSize) := WriteValueFunc (put_le 8 slotDiffCount) wo in
  result_of ErrSeek (w_seek (relativeCountersPosition - countersSize) w).

(** *** Rollback *)
Fixpoint rollback_loop (n : nat) (diffIndex : SlotIndex) m : result lerror unit * Manager S T :=
  match n with
  | O => (Ok tt, m)
  | Datatypes.S n =>
      match SlotDiff_ diffIndex m with
      | Err e => (Err e, m)
      | Ok d => rollback_loop n (u32 (diffIndex - 1)) (RollbackDiff (Slot d) (Outputs d) (Spents d) m)
      end
  end.
Definition Rollback (targetSlot : SlotIndex) m : result lerror unit * Manager S T :=
  match ReadLedgerIndex m with
  | Err e => (Err e, m)
  | Ok ledgerIndex =>
      match rollback_loop (Z.to_nat (ledgerIndex - targetSlot)) ledgerIndex m with
      | (Err e, m) => (Err e, m)
      | (Ok _, m) => (Ok tt, commit_tree m)
      end
  end.
End Manager.
End UtxoSnapshot.
