(* ===== verification/UtxoProps.v ===== *)
(** * Properties of the UTXO ledger

    A diff that creates fresh outputs and spends unspent ones keeps the ledger
    well-formed and its balance; rolling back undoes applying; a snapshot restores
    the ledger at its target slot. *)
From Stdlib Require Import Strings.Byte.
From S2P Require Import Prelude Bytes KvStore UtxoLedger UtxoRefine UtxoSnapshot.
Import UtxoLedger UtxoSnapshot.

(** ** Valid diffs *)
Record valid_diff `{I : LedgerIDs} (L : Ledger) (slot : SlotIndex) (os : list Output) (ss : list Spent) : Prop := {
  vd_slot : slot = l_slot L + 1 /\ in_range Uint32 slot;
  vd_counts : in_range Uint32 (Z.of_nat (length os)) /\ in_range Uint32 (Z.of_nat (length ss));
  vd_new : l_diffs L !! slot = None;
  vd_outputs : Forall output_ok os;
  vd_outputs_nodup : NoDup (outputID <$> os);
  vd_fresh : Forall (fun o => l_outputs L !! outputID o = None) os;
  vd_spents : Forall spent_ok ss;
  vd_spents_nodup : NoDup (spentOutputID <$> ss);
  vd_unspent : Forall (fun s => spentOutputID s ∈ l_unspent L ∪ ids_of os
                   /\ add_outputs os (l_outputs L) !! spentOutputID s = Some (spentOutput s) /\ slotSpent s = slot) ss;
}.

(** The diffs of consecutive slots, oldest first. *)
Definition diffs : Type := list (list Output * list Spent).
Fixpoint apply_all `{I : LedgerIDs} (ds : diffs) (L : Ledger) : Ledger :=
  match ds with
  | [] => L
  | (os, ss) :: ds => apply_all ds (spec_ApplyDiff (l_slot L + 1) os ss L)
  end.
Fixpoint valid_chain `{I : LedgerIDs} (L : Ledger) (ds : diffs) : Prop :=
  match ds with
  | [] => True
  | (os, ss) :: ds => valid_diff L (l_slot L + 1) os ss /\ valid_chain (spec_ApplyDiff (l_slot L + 1) os ss L) ds
  end.

Section Abstract.
Context `{IS : LedgerIDsSpec}.
Implicit Types (L : Ledger) (os : list Output) (ss : list Spent) (slot : SlotIndex).

Lemma vd_key_consistent L slot os ss : valid_diff L slot os ss -> Forall key_consistent ss.
Proof. intros HV. eapply Forall_impl; [apply (vd_spents _ _ _ _ HV)|]. by intros s []. Qed.

Lemma fresh_id L slot os ss id : valid_diff L slot os ss -> id ∈ outputID <$> os -> l_outputs L !! id = None.
Proof.
  intros HV (o & -> & Ho)%list_elem_of_fmap. pose proof (vd_fresh _ _ _ _ HV) as Hf. rewrite Forall_forall in Hf. by apply Hf.
Qed.

Lemma diff_ids_ok L slot os ss : ledger_ok L -> valid_diff L slot os ss ->
  ids_ok (diff_ids (mkSlotDiff slot os ss)).1 /\ ids_ok (diff_ids (mkSlotDiff slot os ss)).2.
Proof.
  intros HL HV. destruct (vd_counts _ _ _ _ HV) as [Hno Hns]. unfold ids_ok, diff_ids, sortedOutputs, sortedSpents. cbn [fst snd Outputs Spents].
  rewrite !length_fmap, !(Permutation_length (merge_sort_Permutation _ _)), !Forall_fmap, !merge_sort_Permutation.
  split; split; [done| |done|].
  - eapply Forall_impl; [apply (vd_outputs _ _ _ _ HV)|]. by intros o [? _].
  - apply Forall_forall. intros s Hs. pose proof (vd_unspent _ _ _ _ HV) as Hu. rewrite Forall_forall in Hu. destruct (Hu s Hs) as (_ & E & _). cbn.
    apply lookup_add_outputs_inv in E as [[Ho <-]|[_ Ho]].
    + pose proof (vd_outputs _ _ _ _ HV) as Hok. rewrite Forall_forall in Hok. apply (Hok _ Ho).
    + destruct (lo_outputs _ HL _ _ Ho) as [<- [? _]]. done.
Qed.

(** Applying a valid diff keeps the ledger well-formed. *)
Lemma ApplyDiff_ok L slot os ss : ledger_ok L -> valid_diff L slot os ss -> ledger_ok (spec_ApplyDiff slot os ss L).
Proof.
  intros HL HV. pose proof (vd_outputs _ _ _ _ HV) as Hos. pose proof (vd_unspent _ _ _ _ HV) as Hss. pose proof (vd_spents _ _ _ _ HV) as Hsok.
  rewrite Forall_forall in Hos. rewrite Forall_forall in Hss. rewrite Forall_forall in Hsok.
  assert (Hsome : forall id, id ∈ l_unspent L ∪ ids_of os \/ is_Some (l_outputs L !! id) -> is_Some (add_outputs os (l_outputs L) !! id)).
  { intros id Hid. destruct (decide (id ∈ outputID <$> os)) as [Hin|Hin].
    - apply list_elem_of_fmap in Hin as (o & -> & Ho). exists o. apply lookup_add_outputs; [apply HV|done].
    - rewrite lookup_add_outputs_other by done. destruct Hid as [Hid|Hid]; [|done]. apply elem_of_union in Hid as [Hid|Hid]; [by apply HL|].
      unfold ids_of in Hid. set_solver. }
  split; cbn [spec_ApplyDiff l_slot l_outputs l_unspent l_spents l_diffs].
  - apply HV.
  - intros id o [[Ho <-]|[_ Ho]]%lookup_add_outputs_inv; [split; auto|by apply HL].
  - intros id Hid. apply Hsome. set_solver.
  - intros id v [(s & Hs & <- & ->)|[Hn Hv]]%lookup_add_spents_inv.
    + split; [apply Hsome; left; by apply Hss|]. split; [unfold spent_ids; set_solver|]. by apply Hsok.
    + destruct (lo_spents _ HL _ _ Hv) as (Ho & Hu & Hd). split; [auto|]. split; [|done].
      intros [[Hid|Hid]%elem_of_union _]%elem_of_difference; [done|]. unfold ids_of in Hid. apply elem_of_list_to_set in Hid.
      eapply fresh_id in Hid; [|done]. destruct Ho as [? Ho]. congruence.
  - intros slot' d Hd. destruct (decide (slot = slot')) as [<-|Hne]; [|rewrite lookup_insert_ne in Hd by done; by eapply HL].
    rewrite lookup_insert_eq in Hd. simplify_eq. by apply diff_ids_ok with L.
Qed.

Lemma chain_ok ds L : ledger_ok L -> valid_chain L ds -> ledger_ok (apply_all ds L).
Proof.
  induction ds as [|[os ss] ds IH] in L |- *; [done|]. intros HL [HV HC]. apply IH; [|done]. by apply ApplyDiff_ok.
Qed.

(** Rolling back the diff that was applied, in any order of its entries. *)
Lemma spec_rollback_apply L slot os ss os' ss' :
  ledger_ok L -> valid_diff L slot os ss -> os' ≡ₚ os -> ss' ≡ₚ ss ->
  spec_RollbackDiff slot os' ss' (spec_ApplyDiff slot os ss L) = L.
Proof.
  intros HL HV Hos Hss. destruct L as [sl om U sm dm] eqn:EL.
  assert (Hids : ids_of os' = ids_of os) by (unfold ids_of; apply leibniz_equiv; by rewrite Hos).
  assert (Hsids : spent_ids ss' = spent_ids ss) by (unfold spent_ids; apply leibniz_equiv; by rewrite Hss).
  pose proof (vd_unspent _ _ _ _ HV) as Hun. rewrite Forall_forall in Hun. cbn in Hun.
  unfold spec_RollbackDiff, spec_ApplyDiff. cbn. f_equal.
  - destruct (vd_slot _ _ _ _ HV) as [-> Hr]. cbn in *. rewrite Z.add_simpl_r. apply wrap_id. apply (lo_slot _ HL).
  - apply map_eq. intros id. rewrite lookup_remove_keys. destruct (decide (id ∈ outputID <$> os')) as [Hin|Hin].
    + rewrite Hos in Hin. symmetry. eapply (fresh_id (mkLedger sl om U sm dm)); eauto.
    + rewrite Hos in Hin. destruct (decide (id ∈ outputID <$> (spentOutput <$> ss'))) as [Hs|Hs].
      * rewrite key_consistent_fmap in Hs by (rewrite Hss; eapply vd_key_consistent; eauto).
        rewrite Hss in Hs. apply list_elem_of_fmap in Hs as (s & -> & Hs).
        pose proof (vd_key_consistent _ _ _ _ HV) as Hk. rewrite Forall_forall in Hk.
        specialize (Hk s Hs). unfold key_consistent in Hk. rewrite Hk at 1. rewrite lookup_add_outputs.
        -- destruct (Hun s Hs) as (_ & E & _). by rewrite lookup_add_outputs_other in E.
        -- rewrite key_consistent_fmap by (rewrite Hss; eapply vd_key_consistent; eauto). rewrite Hss. apply HV.
        -- apply list_elem_of_fmap. exists s. split; [done|]. by rewrite Hss.
      * rewrite !lookup_add_outputs_other; done.
  - rewrite Hids, Hsids. apply leibniz_equiv. intros id.
    assert (Hfr : id ∈ ids_of os -> id ∉ U).
    { intros Hi Hu. unfold ids_of in Hi. apply elem_of_list_to_set in Hi. eapply (fresh_id (mkLedger sl om U sm dm)) in Hi; [|done].
      destruct (lo_unspent _ HL id Hu) as [? E]. cbn in *. congruence. }
    assert (Hsub : id ∈ spent_ids ss -> id ∈ U ∪ ids_of os).
    { unfold spent_ids. rewrite elem_of_list_to_set. intros (s & -> & Hs)%list_elem_of_fmap. by apply Hun. }
    rewrite elem_of_difference, elem_of_union, elem_of_difference, elem_of_union. rewrite elem_of_union in Hsub. clear -Hfr Hsub.
    destruct (decide (id ∈ spent_ids ss)); tauto.
  - apply map_eq. intros id. rewrite lookup_remove_keys. destruct (decide (id ∈ spentOutputID <$> ss')) as [Hin|Hin]; rewrite Hss in Hin.
    + destruct (sm !! id) as [v|] eqn:E; [|done]. destruct (lo_spents _ HL _ _ E) as ([o Ho] & Hu & _). cbn in *.
      apply list_elem_of_fmap in Hin as (s & -> & Hs). destruct (Hun s Hs) as ([?|Hi]%elem_of_union & _); [done|].
      unfold ids_of in Hi. apply elem_of_list_to_set in Hi. eapply (fresh_id (mkLedger sl om U sm dm)) in Hi; [|done]. cbn in *. congruence.
    + by rewrite lookup_add_spents_other.
  - apply delete_insert_id. apply (vd_new _ _ _ _ HV).
Qed.
End Abstract.

(** ** Reading the ledger through the manager *)

(** The unspent outputs, and what a consumer that may stop leaves after a list. *)
Definition unspent_outputs (L : Ledger) : list Output := omap (fun id => l_outputs L !! id) (elements (l_unspent L)).

Fixpoint fold_until {A B} (consumer : A -> B -> A * bool) (l : list B) (acc : A) : A :=
  match l with
  | [] => acc
  | b :: l => let (acc, continue) := consumer acc b in if continue then fold_until consumer l acc else acc
  end.

Section Reads.
Context `{MS : MarshalSpec} `{IS : LedgerIDsSpec} {S T : Type} `{KV : KVStoreSpec S} `{ST : StateTreeSpec T}.
Implicit Types (m : Manager S T) (L : Ledger).

Lemma iterate_ids_until {A} (consumer : A -> OutputID -> A * bool) ids acc :
  Forall (fun id => length id = OutputIDLength) ids ->
  iterate_ids consumer ((fun id => x03 :: id) <$> ids) acc = Ok (fold_until consumer ids acc).
Proof.
  intros Hids. induction Hids as [|id ids Hid _ IH] in acc |- *; [done|]. cbn [fmap list_fmap iterate_ids fold_until].
  unfold outputIDFromDatabaseKey. replace (x03 :: id) with (WriteByte 3 ++ id) by by rewrite WriteByte_spec.
  rewrite parse_key by done. cbn [mbind result_bind]. destruct (consumer acc id) as [acc' []]; [apply IH|done].
Qed.

Lemma unspent_length L id : ledger_ok L -> id ∈ l_unspent L -> length id = OutputIDLength.
Proof. intros HL Hid. destruct (lo_unspent _ HL _ Hid) as [o Ho]. destruct (lo_outputs _ HL _ _ Ho) as [<- [? _]]. done. Qed.

Lemma ForEachUnspentOutputID_spec {A} m L : represents m L -> ledger_ok L ->
  exists ids, ids ≡ₚ elements (l_unspent L) /\ forall (consumer : A -> OutputID -> A * bool) acc,
    ForEachUnspentOutputID consumer acc m = Ok (fold_until consumer ids acc).
Proof.
  intros HR HL. destruct (unspent_keys m L HR) as (ids & Hk & Hp). exists ids. split; [done|]. intros consumer acc.
  unfold ForEachUnspentOutputID. rewrite Hk. apply iterate_ids_until. rewrite Hp. apply Forall_forall. intros id Hid%elem_of_elements.
  by eapply unspent_length.
Qed.

Lemma UnspentOutputsIDs_spec m L : represents m L -> ledger_ok L -> exists ids, UnspentOutputsIDs m = Ok ids /\ ids ≡ₚ elements (l_unspent L).
Proof.
  intros HR HL. destruct (ForEachUnspentOutputID_spec (A:=list OutputID) m L HR HL) as (ids & Hp & Hf). exists ids. split; [|done].
  unfold UnspentOutputsIDs. rewrite Hf. f_equal. clear.
  assert (H : forall acc, fold_until (fun (ids : list OutputID) id => (ids ++ [id], true)) ids acc = acc ++ ids).
  { induction ids as [|id ids IH]; intros acc; cbn; [by rewrite app_nil_r|]. by rewrite IH, <- app_assoc. }
  apply H.
Qed.

(** Every unspent output is visited once, in some order, until the consumer stops. *)
Lemma ForEachUnspentOutput_spec {A} m L : represents m L -> ledger_ok L ->
  exists os, os ≡ₚ unspent_outputs L /\ forall (consumer : A -> Output -> A * bool) acc,
    ForEachUnspentOutput consumer acc m = Ok (fold_until consumer os acc).
Proof.
  intros HR HL. destruct (ForEachUnspentOutputID_spec (A:=option lerror * A) m L HR HL) as (ids & Hp & Hf).
  exists (omap (fun id => l_outputs L !! id) ids). split; [unfold unspent_outputs; by rewrite Hp|].
  intros consumer acc. unfold ForEachUnspentOutput. rewrite Hf. cbn [mbind result_bind].
  assert (Hids : Forall (fun id => is_Some (l_outputs L !! id)) ids).
  { rewrite Hp. apply Forall_forall. intros id Hid%elem_of_elements. by apply HL. }
  clear Hf Hp. set (c := fun st id => _). enough (fold_until c ids (None, acc) = (None, fold_until consumer (omap (fun id => l_outputs L !! id) ids) acc)) as -> by done.
  induction Hids as [|id ids [o Ho] _ IH] in acc |- *; [done|]. cbn [fold_until omap list_omap]. rewrite Ho. unfold c at 1.
  rewrite (ReadOutput_spec _ _ _ HR HL), Ho. cbn. destruct (consumer acc o) as [acc' []]; [apply IH|done].
Qed.

Lemma fold_until_true {A B} (f : A -> B -> A) (l : list B) acc : fold_until (fun acc b => (f acc b, true)) l acc = foldl f acc l.
Proof. induction l in acc |- *; cbn; auto. Qed.

Lemma unspent_outputs_ids L : ledger_ok L -> outputID <$> unspent_outputs L = elements (l_unspent L).
Proof.
  intros HL. unfold unspent_outputs.
  assert (Hids : Forall (fun id => exists o, l_outputs L !! id = Some o /\ outputID o = id) (elements (l_unspent L))).
  { apply Forall_forall. intros id Hid%elem_of_elements. destruct (lo_unspent _ HL _ Hid) as [o Ho]. exists o. split; [done|]. by apply (lo_outputs _ HL _ _ Ho). }
  induction Hids as [|id ids (o & Ho & Hid) _ IH]; [done|]. cbn. rewrite Ho. cbn. by rewrite IH, Hid.
Qed.

(** The tree rebuilt from the unspent outputs is the stored one. *)
Lemma CheckStateTree_true m L : represents m L -> ledger_ok L -> CheckStateTree m = true.
Proof.
  intros HR HL. destruct (ForEachUnspentOutput_spec (A:=T) m L HR HL) as (os & Hp & Hf). unfold CheckStateTree. rewrite Hf.
  apply bool_decide_eq_true. rewrite fold_until_true. apply tree_root_ext. intros id. rewrite (r_tree _ _ HR).
  pose proof (tree_set_all_get os tree_new ∅) as Hs. unfold tree_set_all in Hs. rewrite Hs.
  - unfold tree_mark, ids_of. apply decide_ext. rewrite Hp, unspent_outputs_ids by done. set_solver.
  - intros id'. rewrite tree_get_new. unfold tree_mark. by rewrite decide_False by set_solver.
Qed.
End Reads.

(** ** Balance *)
Section Balance.
Context `{MS : MarshalSpec} `{IS : LedgerIDsSpec} {S T : Type} `{KV : KVStoreSpec S} `{ST : StateTreeSpec T}.
Context (BaseTokenAmount : Output -> option Z).
Implicit Types (m : Manager S T) (L : Ledger).

Definition amount (o : Output) : Z := default 0 (BaseTokenAmount o).
Definition ledger_balance L : Z := zsum amount (unspent_outputs L).
(** Every stored output decodes. *)
Definition amounts_known L : Prop := forall id o, l_outputs L !! id = Some o -> is_Some (BaseTokenAmount o).

Lemma unspent_outputs_elem L o : o ∈ unspent_outputs L <-> exists id, id ∈ l_unspent L /\ l_outputs L !! id = Some o.
Proof. unfold unspent_outputs. rewrite list_elem_of_omap. by setoid_rewrite elem_of_elements. Qed.

Lemma ComputeLedgerBalance_spec m L : represents m L -> ledger_ok L -> amounts_known L ->
  ComputeLedgerBalance BaseTokenAmount m = Ret (Ok (u64 (ledger_balance L), i64 (Z.of_nat (size (l_unspent L))))).
Proof.
  intros HR HL HA. destruct (ForEachUnspentOutput_spec (A:=option (Z * Z)) m L HR HL) as (os & Hp & Hf). unfold ComputeLedgerBalance. rewrite Hf.
  assert (Hos : Forall (fun o => is_Some (BaseTokenAmount o)) os).
  { rewrite Hp. apply Forall_forall. intros o (id & _ & Ho)%unspent_outputs_elem. eauto. }
  set (c := fun st o => _).
  assert (Hc : forall b n, in_range Uint64 b -> in_range Int64 n ->
    fold_until c os (Some (b, n)) = Some (u64 (b + zsum amount os), i64 (n + Z.of_nat (length os)))).
  { clear Hf Hp HL HR. induction Hos as [|o os [a Ha] _ IH]; intros b n Hb Hn; cbn [fold_until zsum length].
    - by rewrite !Z.add_0_r, !wrap_id.
    - unfold c at 1. rewrite Ha. rewrite IH by apply wrap_in_range. unfold amount at 2. rewrite Ha. cbn [default id].
      do 2 f_equal; apply wrap_eq.
      + destruct (wrap_decomp Uint64 (b + a)) as [k ->]. exists k. lia.
      + destruct (wrap_decomp Int64 (n + 1)) as [k ->]. exists k. lia. }
  rewrite Hc by done. rewrite !Z.add_0_l. unfold ledger_balance. rewrite (zsum_perm _ _ _ Hp).
  rewrite (Permutation_length Hp), <- (length_fmap outputID), unspent_outputs_ids by done. done.
Qed.

(** The unspent outputs after a diff: the new ones and the old ones that were not spent. *)
Lemma unspent_outputs_map L : ledger_ok L -> unspent_outputs L ≡ₚ (map_to_list (filter (fun kv => kv.1 ∈ l_unspent L) (l_outputs L))).*2.
Proof.
  intros HL. apply NoDup_Permutation.
  - apply (NoDup_fmap_1 outputID). rewrite unspent_outputs_ids by done. apply NoDup_elements.
  - apply (NoDup_fmap_1 outputID). rewrite <- list_fmap_compose.
    replace ((outputID ∘ snd) <$> _) with ((map_to_list (filter (fun kv : OutputID * Output => kv.1 ∈ l_unspent L) (l_outputs L))).*1); [apply NoDup_fst_map_to_list|].
    apply list_fmap_ext. intros i [id o] Hi%list_elem_of_lookup_2%elem_of_map_to_list%map_lookup_filter_Some. cbn.
    symmetry. apply (lo_outputs _ HL). apply Hi.
  - intros o. rewrite unspent_outputs_elem, list_elem_of_fmap. split.
    + intros (id & Hu & Ho). exists (id, o). split; [done|]. by apply elem_of_map_to_list, map_lookup_filter_Some.
    + intros ([id o'] & -> & [Ho Hu]%elem_of_map_to_list%map_lookup_filter_Some). eauto.
Qed.

Lemma unspent_after L slot os ss : ledger_ok L -> valid_diff L slot os ss ->
  unspent_outputs L ++ os ≡ₚ unspent_outputs (spec_ApplyDiff slot os ss L) ++ (spentOutput <$> ss).
Proof.
  intros HL HV. pose proof (ApplyDiff_ok _ _ _ _ HL HV) as HL'.
  pose proof (vd_key_consistent _ _ _ _ HV) as Hk. pose proof (key_consistent_fmap _ Hk) as Hkf.
  pose proof (vd_unspent _ _ _ _ HV) as Hun. rewrite Forall_forall in Hun.
  apply NoDup_Permutation.
  - apply (NoDup_fmap_1 outputID). rewrite fmap_app, unspent_outputs_ids by done. apply NoDup_app. split; [apply NoDup_elements|].
    split; [|apply HV]. intros id Hid%elem_of_elements Hin. eapply fresh_id in Hin; [|done]. destruct (lo_unspent _ HL _ Hid). congruence.
  - apply (NoDup_fmap_1 outputID). rewrite fmap_app, unspent_outputs_ids, Hkf by done. apply NoDup_app. split; [apply NoDup_elements|].
    split; [|apply HV]. intros id Hid%elem_of_elements Hin. cbn in Hid. unfold spent_ids in Hid. set_solver.
  - intros o. rewrite !elem_of_app, !unspent_outputs_elem. cbn [spec_ApplyDiff l_unspent l_outputs].
    assert (Hspent : outputID o ∈ spent_ids ss -> add_outputs os (l_outputs L) !! outputID o = Some o -> o ∈ spentOutput <$> ss).
    { unfold spent_ids. intros (s & E & Hs)%elem_of_list_to_set%list_elem_of_fmap Ho. destruct (Hun s Hs) as (_ & E' & _).
      rewrite <- E in E'. rewrite Ho in E'. simplify_eq. apply list_elem_of_fmap. eauto. }
    split.
    + intros [(id & Hu & Ho)|Ho].
      * destruct (lo_outputs _ HL _ _ Ho) as [<- _].
        assert (Ho' : add_outputs os (l_outputs L) !! outputID o = Some o).
        { rewrite lookup_add_outputs_other; [done|]. intros Hin. eapply fresh_id in Hin; [|done]. congruence. }
        destruct (decide (outputID o ∈ spent_ids ss)) as [Hin|Hin]; [right; auto|]. left. exists (outputID o). split; [|done].
        apply elem_of_difference. split; [by apply elem_of_union_l|done].
      * assert (Ho' : add_outputs os (l_outputs L) !! outputID o = Some o) by (apply lookup_add_outputs; [apply HV|done]).
        destruct (decide (outputID o ∈ spent_ids ss)) as [Hin|Hin]; [right; auto|]. left. exists (outputID o). split; [|done].
        apply elem_of_difference. split; [|done]. apply elem_of_union_r. unfold ids_of. apply elem_of_list_to_set, list_elem_of_fmap. eauto.
    + intros [(id & Hu & Ho)|(s & -> & Hs)%list_elem_of_fmap].
      * apply lookup_add_outputs_inv in Ho as [[Ho <-]|[Hn Ho]]; [by right|]. left. exists id. split; [|done].
        apply elem_of_difference in Hu as [[Hu|Hu]%elem_of_union _]; [done|]. unfold ids_of in Hu. by apply elem_of_list_to_set in Hu.
      * destruct (Hun s Hs) as (Hu & Ho & _). apply lookup_add_outputs_inv in Ho as [[Ho _]|[Hn Ho]]; [by right|]. left.
        exists (spentOutputID s). split; [|done]. apply elem_of_union in Hu as [Hu|Hu]; [done|]. unfold ids_of in Hu. by apply elem_of_list_to_set in Hu.
Qed.

Lemma balance_after L slot os ss : ledger_ok L -> valid_diff L slot os ss ->
  ledger_balance (spec_ApplyDiff slot os ss L) = ledger_balance L + zsum amount os - zsum amount (spentOutput <$> ss).
Proof.
  intros HL HV. pose proof (zsum_perm amount _ _ (unspent_after _ _ _ _ HL HV)) as Hz. rewrite !zsum_app in Hz. unfold ledger_balance. lia.
Qed.
End Balance.

(** ** Rolling back a chain of diffs *)
Section Chains.
Context `{IS : LedgerIDsSpec}.
Implicit Types (L : Ledger) (ds : diffs).

Lemma apply_all_app ds1 ds2 L : apply_all (ds1 ++ ds2) L = apply_all ds2 (apply_all ds1 L).
Proof. induction ds1 as [|[os ss] ds1 IH] in L |- *; [done|]. apply IH. Qed.

Lemma valid_chain_app ds1 ds2 L : valid_chain L (ds1 ++ ds2) <-> valid_chain L ds1 /\ valid_chain (apply_all ds1 L) ds2.
Proof. induction ds1 as [|[os ss] ds1 IH] in L |- *; cbn; [tauto|]. rewrite IH. tauto. Qed.

Lemma apply_all_slot ds L : l_slot (apply_all ds L) = l_slot L + Z.of_nat (length ds).
Proof. induction ds as [|[os ss] ds IH] in L |- *; cbn [apply_all length]; [lia|]. rewrite IH. cbn. lia. Qed.

(** The diff of the slot just applied is read back sorted. *)
Lemma spec_SlotDiff_after L slot os ss : ledger_ok L -> valid_diff L slot os ss ->
  spec_SlotDiff slot (spec_ApplyDiff slot os ss L) = Some (mkSlotDiff slot (merge_sort output_le os) (merge_sort spent_le ss)).
Proof.
  intros HL HV. unfold spec_SlotDiff. cbn [spec_ApplyDiff l_diffs]. rewrite lookup_insert_eq. cbn [mbind option_bind diff_ids].
  unfold sortedOutputs, sortedSpents. cbn [Outputs Spents].
  assert (Ho : mapM (fun id => l_outputs (spec_ApplyDiff slot os ss L) !! id) (outputID <$> merge_sort output_le os) = Some (merge_sort output_le os)).
  { apply mapM_Some. apply Forall2_fmap_l, Forall_Forall2_diag, Forall_forall. intros o Ho. rewrite merge_sort_Permutation in Ho.
    cbn. apply lookup_add_outputs; [apply HV|done]. }
  rewrite Ho. cbn [mbind option_bind].
  assert (Hs : mapM (spec_ReadSpent (spec_ApplyDiff slot os ss L)) (spentOutputID <$> merge_sort spent_le ss) = Some (merge_sort spent_le ss)).
  { apply mapM_Some. apply Forall2_fmap_l, Forall_Forall2_diag, Forall_forall. intros s Hs. rewrite merge_sort_Permutation in Hs.
    pose proof (vd_unspent _ _ _ _ HV) as Hun. rewrite Forall_forall in Hun. destruct (Hun s Hs) as (_ & E & _).
    unfold compose, spec_ReadSpent. cbn [spec_ApplyDiff l_outputs l_spents]. rewrite E. cbn [mbind option_bind].
    rewrite lookup_add_spents by (done || apply HV). cbn. by destruct s. }
  by rewrite Hs.
Qed.

(** Pruning a slot forgets spent outputs only. *)
Lemma spec_PruneSlotIndex_ok slot L : ledger_ok L ->
  ledger_ok (spec_PruneSlotIndex slot L) /\ l_unspent (spec_PruneSlotIndex slot L) = l_unspent L
  /\ forall id, id ∈ l_unspent L -> l_outputs (spec_PruneSlotIndex slot L) !! id = l_outputs L !! id.
Proof.
  intros HL. unfold spec_PruneSlotIndex. destruct (spec_SlotDiff slot L) as [d|] eqn:Ed; [|done].
  apply spec_SlotDiff_inv in Ed as (oids & sids & _ & _ & _ & H2).
  assert (Hsp : forall id, id ∈ spentOutputID <$> Spents d -> id ∉ l_unspent L).
  { intros id (s & -> & Hin)%list_elem_of_fmap.
    clear -H2 Hin HL IS. induction H2 as [|id' s' sids ss Hr _ IH]; [set_solver|]. apply elem_of_cons in Hin as [->|Hin]; [|auto].
    apply spec_ReadSpent_inv in Hr as (-> & _ & Hl & _); [|done]. by apply (lo_spents _ HL _ _ Hl). }
  split; [|split; [done|]].
  - split; cbn [spec_Prune l_slot l_outputs l_unspent l_spents l_diffs].
    + apply HL.
    + intros id o. rewrite lookup_remove_keys. case_decide; [done|]. apply HL.
    + intros id Hid. rewrite lookup_remove_keys. rewrite decide_False by naive_solver. by apply HL.
    + intros id v. rewrite !lookup_remove_keys. case_decide; [done|]. apply HL.
    + intros sl d'. rewrite lookup_delete_Some. intros [_ ?]. by eapply HL.
  - intros id Hid. cbn. rewrite lookup_remove_keys, decide_False by naive_solver. done.
Qed.

(** A last diff of a chain. *)
Lemma chain_last ds os ss L : ledger_ok L -> valid_chain L (ds ++ [(os, ss)]) ->
  let L' := apply_all ds L in
  valid_chain L ds /\ ledger_ok L' /\ valid_diff L' (l_slot L' + 1) os ss
  /\ apply_all (ds ++ [(os, ss)]) L = spec_ApplyDiff (l_slot L' + 1) os ss L'.
Proof.
  intros HL. rewrite valid_chain_app, apply_all_app. cbn [valid_chain apply_all]. intros [HC [HV _]].
  split; [done|]. split; [by apply chain_ok|]. done.
Qed.
End Chains.

Section Rollback.
Context `{MS : MarshalSpec} `{IS : LedgerIDsSpec} `{D : SnapshotDecoders} {S T : Type} `{KV : KVStoreSpec S} `{ST : StateTreeSpec T}.
Implicit Types (m : Manager S T) (L : Ledger) (ds : diffs).

Lemma commit_tree_represents m L : represents m L -> represents (commit_tree m) L.
Proof. intros [Hi Ho Hs Hu Hd Ht]. split; cbn [store stateTree commit_tree]; auto. intros id. by rewrite tree_get_commit. Qed.

Lemma rollback_loop_chain ds m L : ledger_ok L -> valid_chain L ds -> represents m (apply_all ds L) ->
  exists m', rollback_loop (length ds) (l_slot (apply_all ds L)) m = (Ok tt, m') /\ represents m' L.
Proof.
  revert m. induction ds as [|[os ss] ds IH] using rev_ind; intros m HL HC HR; [by exists m|].
  destruct (chain_last _ _ _ _ HL HC) as (HC' & HL' & HV & E). rewrite E in *. set (L' := apply_all ds L) in *.
  rewrite length_app. cbn [length]. rewrite Nat.add_1_r. cbn [rollback_loop spec_ApplyDiff l_slot].
  destruct (vd_slot _ _ _ _ HV) as [_ Hr].
  rewrite (SlotDiff_spec _ _ _ HR (ApplyDiff_ok _ _ _ _ HL' HV) Hr), spec_SlotDiff_after by done. cbn [result_of Slot Outputs Spents].
  rewrite Z.add_simpl_r, wrap_id by apply HL'.
  apply IH; [done|done|]. pose proof (RollbackDiff_represents (l_slot L' + 1) (merge_sort output_le os) (merge_sort spent_le ss) m (spec_ApplyDiff (l_slot L' + 1) os ss L') Hr) as HRb.
  specialize (HRb ltac:(rewrite merge_sort_Permutation; apply HV) HR).
  by rewrite spec_rollback_apply in HRb by (done || apply merge_sort_Permutation).
Qed.

Lemma Rollback_chain ds m L : ledger_ok L -> valid_chain L ds -> represents m (apply_all ds L) ->
  exists m', Rollback (l_slot L) m = (Ok tt, m') /\ represents m' L.
Proof.
  intros HL HC HR. destruct (rollback_loop_chain ds m L HL HC HR) as (m' & E & HR'). exists (commit_tree m').
  split; [|by apply commit_tree_represents]. unfold Rollback. rewrite (ReadLedgerIndex_spec _ _ HR (chain_ok _ _ HL HC)).
  replace (Z.to_nat (l_slot (apply_all ds L) - l_slot L)) with (length ds) by (rewrite apply_all_slot; lia). by rewrite E.
Qed.
End Rollback.
