(* ===== verification/UtxoClaims.v ===== *)
(** * Snapshots restore the ledger

    The bytes [Export] leaves in the file, read by [Import], give the unspent
    outputs at the target slot. *)
From Stdlib Require Import Strings.Byte.
From S2P Require Import Prelude Bytes KvStore UtxoLedger UtxoRefine UtxoSnapshot UtxoProps.
Import UtxoLedger UtxoSnapshot.

(** ** What a snapshot keeps: the unspent outputs of its slot *)
Definition snapshot_of (L : Ledger) : Ledger :=
  mkLedger (l_slot L) (filter (fun kv => kv.1 ∈ l_unspent L) (l_outputs L)) (l_unspent L) ∅ ∅.

Section Abstract.
Context `{IS : LedgerIDsSpec}.
Implicit Types (L : Ledger) (os : list Output) (ss : list Spent).

Lemma snapshot_of_ok L : ledger_ok L -> ledger_ok (snapshot_of L).
Proof.
  intros HL. split; cbn [snapshot_of l_slot l_outputs l_unspent l_spents l_diffs].
  - apply HL.
  - intros id o [Ho _]%map_lookup_filter_Some. by apply HL.
  - intros id Hid. destruct (lo_unspent _ HL _ Hid) as [o Ho]. exists o. by apply map_lookup_filter_Some.
  - intros id v. by rewrite lookup_empty.
  - intros slot d. by rewrite lookup_empty.
Qed.

(** Rolling back a diff on a snapshot gives the snapshot before the diff. *)
Lemma snapshot_rollback L slot os ss os' ss' :
  ledger_ok L -> valid_diff L slot os ss -> os' ≡ₚ os -> ss' ≡ₚ ss ->
  spec_RollbackDiff slot os' ss' (snapshot_of (spec_ApplyDiff slot os ss L)) = snapshot_of L.
Proof.
  intros HL HV Hos Hss. pose proof (spec_rollback_apply L slot os ss os' ss' HL HV Hos Hss) as HB.
  pose proof (f_equal l_slot HB) as Hslot. pose proof (f_equal l_unspent HB) as HU. pose proof (f_equal l_outputs HB) as HO.
  unfold spec_RollbackDiff, snapshot_of in *. cbn [spec_ApplyDiff l_slot l_outputs l_unspent l_spents l_diffs] in *.
  rewrite Hslot, HU. f_equal.
  2: { apply map_eq. intros i. rewrite lookup_remove_keys, lookup_empty. by case_decide. }
  apply map_eq. intros id. apply (f_equal (lookup id)) in HO. rewrite lookup_remove_keys in HO.
  apply option_eq. intros o. rewrite map_lookup_filter_Some, lookup_remove_keys. cbn [fst].
  assert (HidU : id ∈ l_unspent L <-> id ∉ outputID <$> os' /\ (id ∈ outputID <$> (spentOutput <$> ss') \/ id ∈ (l_unspent L ∪ ids_of os) ∖ spent_ids ss)).
  { rewrite <- HU at 1. rewrite (key_consistent_fmap ss') by (rewrite Hss; by eapply vd_key_consistent).
    unfold ids_of at 2, spent_ids at 2. rewrite elem_of_difference, !elem_of_union, !elem_of_list_to_set. tauto. }
  case_decide as Hin; [naive_solver|]. rewrite <- HO.
  destruct (decide (id ∈ outputID <$> (spentOutput <$> ss'))) as [Hs|Hs].
  - assert (Hlk : forall om, add_outputs (spentOutput <$> ss') om !! id = add_outputs (spentOutput <$> ss') ∅ !! id).
    { apply list_elem_of_fmap in Hs as (o' & -> & Ho'). intros om.
      rewrite !lookup_add_outputs; try done; rewrite key_consistent_fmap by (rewrite Hss; by eapply vd_key_consistent); rewrite Hss; apply HV. }
    rewrite (Hlk (filter _ _)), (Hlk (add_outputs os _)). tauto.
  - rewrite !(lookup_add_outputs_other (spentOutput <$> ss')) by done. rewrite map_lookup_filter_Some. cbn [fst].
    tauto.
Qed.
End Abstract.

(** ** The encoding of outputs, spents and diffs *)
Section Codec.
Context `{MS : MarshalSpec} `{IS : LedgerIDsSpec} `{D : SnapshotDecoders}.

(** The reader validates the output and its proof. *)
Definition decodes (o : Output) : Prop := output_decodes (blockID o) (encodedOutput o) = true /\ proof_decodes (blockID o) (encodedProof o) = true.

Lemma parses_snapshot_output o : output_ok o -> decodes o -> parses OutputFromSnapshotReader (output_SnapshotBytes o) o.
Proof.
  intros (Hid & Hb & Hs & He & Hp) [Hd1 Hd2]. unfold OutputFromSnapshotReader, output_SnapshotBytes. rewrite !wrap_id by done.
  do 4 parse_step. rewrite Nat2Z.id. parse_step. eapply (parses_bind _ _ []); [rewrite Hd1; apply parses_option|].
  parse_step. rewrite Nat2Z.id. eapply parses_map; [by apply parses_bytes|]. eapply parses_map; [rewrite Hd2; apply parses_option|].
  destruct o. apply parses_ret.
Qed.

Lemma parses_snapshot_spent slot s :
  spent_ok s -> output_ok (spentOutput s) -> decodes (spentOutput s) -> slotSpent s = slot ->
  parses (SpentFromSnapshotReader slot) (spent_SnapshotBytes s) s.
Proof.
  intros (Hk & Htx & _) Ho Hd <-. cbn in Htx. unfold SpentFromSnapshotReader, spent_SnapshotBytes.
  eapply parses_bind; [by apply parses_snapshot_output|]. eapply parses_map; [by apply parses_bytes|].
  unfold NewSpent. rewrite <- Hk. destruct s. apply parses_ret.
Qed.

Definition diff_bytes (d : SlotDiff) : bytes :=
  slot_MustBytes (Slot d)
  ++ put_le 8 (u64 (Z.of_nat (length (Outputs d)))) ++ (sortedOutputs d ≫= output_SnapshotBytes)
  ++ put_le 8 (u64 (Z.of_nat (length (Spents d)))) ++ (sortedSpents d ≫= spent_SnapshotBytes).

Record diff_writable (d : SlotDiff) : Prop := {
  dw_slot : in_range Uint32 (Slot d);
  dw_counts : in_range Uint64 (Z.of_nat (length (Outputs d))) /\ in_range Uint64 (Z.of_nat (length (Spents d)));
  dw_outputs : Forall (fun o => output_ok o /\ decodes o) (Outputs d);
  dw_spents : Forall (fun s => spent_ok s /\ output_ok (spentOutput s) /\ decodes (spentOutput s) /\ slotSpent s = Slot d) (Spents d);
}.

Lemma parses_diff d : diff_writable d -> parses ReadSlotDiffToSnapshotReader (diff_bytes d) (mkSlotDiff (Slot d) (sortedOutputs d) (sortedSpents d)).
Proof.
  intros [Hs [Hno Hns] Ho Hsp]. unfold ReadSlotDiffToSnapshotReader, diff_bytes. rewrite slot_MustBytes_spec, !wrap_id by done.
  do 2 parse_step. rewrite Nat2Z.id. rewrite <- (Permutation_length (merge_sort_Permutation output_le (Outputs d))) at 1.
  eapply parses_bind.
  { apply parses_n. unfold sortedOutputs. rewrite merge_sort_Permutation. eapply Forall_impl; [exact Ho|]. intros o []. by apply parses_snapshot_output. }
  parse_step. rewrite Nat2Z.id. rewrite <- (Permutation_length (merge_sort_Permutation spent_le (Spents d))) at 1.
  eapply parses_map; [|apply parses_ret]. apply parses_n. unfold sortedSpents. rewrite merge_sort_Permutation.
  eapply Forall_impl; [exact Hsp|]. intros s (? & ? & ? & ?). by apply parses_snapshot_spent.
Qed.

(** ** Writing at the end of the file *)
Definition wend (bs : bytes) : WriteSeeker := mkWriter bs (length bs).

Lemma write_end bs o data : WriteBytesFunc data (wend bs, o) = (wend (bs ++ data), o + Z.of_nat (length data)).
Proof. unfold WriteBytesFunc. cbn [fst snd]. rewrite w_write_end by done. done. Qed.

Lemma write_list_end {A} (enc : A -> bytes) (l : list A) bs o :
  foldl (fun wo a => WriteBytesFunc (enc a) wo) (wend bs, o) l = (wend (bs ++ (l ≫= enc)), o + Z.of_nat (length (l ≫= enc))).
Proof.
  induction l as [|a l IH] in bs, o |- *; cbn [foldl mbind list_bind]; [by rewrite app_nil_r, Z.add_0_r|].
  rewrite write_end, IH, <- app_assoc, length_app. f_equal. lia.
Qed.

Lemma WriteSlotDiff_end bs d : WriteSlotDiffToSnapshotWriter (wend bs) d = (wend (bs ++ diff_bytes d), Z.of_nat (length (diff_bytes d))).
Proof.
  unfold WriteSlotDiffToSnapshotWriter, diff_bytes. change WriteValueFunc with WriteBytesFunc.
  rewrite !write_end, !write_list_end, !write_end, !write_list_end. rewrite <- !app_assoc. f_equal. rewrite !length_app. lia.
Qed.
End Codec.

(** ** The loops of Export and Import *)
Section Loops.
Context `{MS : MarshalSpec} `{IS : LedgerIDsSpec} `{D : SnapshotDecoders} {S T : Type} `{KV : KVStoreSpec S} `{ST : StateTreeSpec T}.
Implicit Types (m : Manager S T) (L : Ledger) (ds : diffs).

Lemma export_outputs_end m L ids os bs o c : represents m L -> ledger_ok L -> Forall2 (fun id o => l_outputs L !! id = Some o) ids os ->
  0 <= c -> in_range Uint64 (c + Z.of_nat (length ids)) ->
  export_outputs ids (wend bs, o) c m
  = Ok ((wend (bs ++ (os ≫= output_SnapshotBytes)), o + Z.of_nat (length (os ≫= output_SnapshotBytes))), c + Z.of_nat (length ids)).
Proof.
  intros HR HL H2. induction H2 as [|id x ids os Hx _ IH] in bs, o, c |- *; intros Hc Hr; cbn [export_outputs length mbind list_bind].
  - rewrite app_nil_r, !Z.add_0_r. done.
  - cbn [length] in Hr. rewrite (ReadOutput_spec _ _ _ HR HL), Hx. cbn [result_of mbind result_bind]. rewrite write_end, wrap_id, IH.
    + rewrite <- app_assoc, length_app. apply f_equal; repeat apply (f_equal2 pair); try done; lia.
    + lia.
    + unfold in_range in *. cbn in *. lia.
    + unfold in_range in *. cbn in *. lia.
Qed.

(** The diffs of a chain as they are read, newest first. *)
Fixpoint chain_diffs L ds : list SlotDiff :=
  match ds with
  | [] => []
  | (os, ss) :: ds => chain_diffs (spec_ApplyDiff (l_slot L + 1) os ss L) ds ++ [mkSlotDiff (l_slot L + 1) (merge_sort output_le os) (merge_sort spent_le ss)]
  end.

Lemma chain_diffs_snoc ds os ss L :
  chain_diffs L (ds ++ [(os, ss)]) = mkSlotDiff (l_slot (apply_all ds L) + 1) (merge_sort output_le os) (merge_sort spent_le ss) :: chain_diffs L ds.
Proof. induction ds as [|[os' ss'] ds IH] in L |- *; [done|]. cbn [app chain_diffs apply_all]. by rewrite IH. Qed.

(** Later diffs keep what an earlier one refers to. *)
Lemma spec_SlotDiff_mono L slot os ss slot' d : ledger_ok L -> valid_diff L slot os ss ->
  spec_SlotDiff slot' L = Some d -> slot' <> slot -> spec_SlotDiff slot' (spec_ApplyDiff slot os ss L) = Some d.
Proof.
  intros HL HV. unfold spec_SlotDiff. cbn [spec_ApplyDiff l_diffs]. intros ([oids sids] & E & (os' & Ho & (ss' & Hs & ?)%bind_Some)%bind_Some)%bind_Some Hne.
  simplify_eq. rewrite lookup_insert_ne by done. rewrite E. cbn [mbind option_bind].
  assert (Hmono : forall id o, l_outputs L !! id = Some o -> add_outputs os (l_outputs L) !! id = Some o).
  { intros id o Ho'. rewrite lookup_add_outputs_other; [done|]. intros Hin. eapply fresh_id in Hin; [|done]. congruence. }
  assert (Hsmono : forall id s, spec_ReadSpent L id = Some s -> spec_ReadSpent (spec_ApplyDiff slot os ss L) id = Some s).
  { intros id s. unfold spec_ReadSpent. cbn [spec_ApplyDiff l_outputs l_spents]. intros (o & Ho' & ([tx sl] & Hs' & ?)%bind_Some)%bind_Some. simplify_eq.
    rewrite (Hmono _ _ Ho'). cbn [mbind option_bind]. rewrite lookup_add_spents_other; [by rewrite Hs'|].
    intros (s & -> & Hin)%list_elem_of_fmap. pose proof (vd_unspent _ _ _ _ HV) as Hun. rewrite Forall_forall in Hun. destruct (Hun s Hin) as (Hu & _).
    destruct (lo_spents _ HL _ _ Hs') as (_ & Hnu & _). apply elem_of_union in Hu as [?|Hu]; [done|]. unfold ids_of in Hu.
    apply elem_of_list_to_set in Hu. eapply fresh_id in Hu; [|done]. congruence. }
  assert (Ho2 : mapM (fun id => l_outputs (spec_ApplyDiff slot os ss L) !! id) oids = Some os').
  { apply mapM_Some in Ho. apply mapM_Some. eapply Forall2_impl; [exact Ho|]. cbn. auto. }
  assert (Hs2 : mapM (spec_ReadSpent (spec_ApplyDiff slot os ss L)) sids = Some ss').
  { apply mapM_Some in Hs. apply mapM_Some. eapply Forall2_impl; [exact Hs|]. cbn. auto. }
  by rewrite Ho2, Hs2.
Qed.

Lemma chain_diffs_read ds L : ledger_ok L -> valid_chain L ds ->
  Forall (fun d => spec_SlotDiff (Slot d) (apply_all ds L) = Some d /\ Slot d <= l_slot (apply_all ds L)) (chain_diffs L ds).
Proof.
  intros HL. induction ds as [|[os ss] ds IH] using rev_ind; intros HC; [constructor|].
  destruct (chain_last _ _ _ _ HL HC) as (HC' & HL' & HV & E). rewrite E, chain_diffs_snoc. set (L' := apply_all ds L) in *. constructor.
  - split; [by apply spec_SlotDiff_after|]. cbn. lia.
  - eapply Forall_impl; [by apply IH|]. cbn. intros d [Hd Hle]. split; [|lia]. apply spec_SlotDiff_mono; [done|done|done|lia].
Qed.

Lemma export_diffs_end ds m L L' bs o c : ledger_ok L -> valid_chain L ds -> represents m L' -> ledger_ok L' ->
  Forall (fun d => spec_SlotDiff (Slot d) L' = Some d) (chain_diffs L ds) -> 0 <= c -> in_range Uint64 (c + Z.of_nat (length ds)) ->
  export_diffs (length ds) (l_slot (apply_all ds L)) (wend bs, o) c m
  = Ok ((wend (bs ++ (chain_diffs L ds ≫= diff_bytes)), o + Z.of_nat (length (chain_diffs L ds ≫= diff_bytes))), c + Z.of_nat (length ds)).
Proof.
  intros HL HC HR HL'. induction ds as [|[os ss] ds IH] in bs, o, c, HC |- * using rev_ind; intros Hd Hc Hr; cbn [export_diffs length].
  - cbn. by rewrite app_nil_r, !Z.add_0_r.
  - destruct (chain_last _ _ _ _ HL HC) as (HC' & HL1 & HV & E). rewrite E, chain_diffs_snoc in *. set (L1 := apply_all ds L) in *.
    inversion_clear Hd as [|? ? Hd1 Hd2]. cbn [Slot] in Hd1. destruct (vd_slot _ _ _ _ HV) as [_ Hs].
    rewrite length_app in *. cbn [length] in *. rewrite Nat.add_1_r in *. cbn [export_diffs spec_ApplyDiff l_slot].
    rewrite (SlotDiff_spec _ _ _ HR HL' Hs), Hd1. cbn [result_of mbind result_bind fst snd]. rewrite WriteSlotDiff_end.
    rewrite Z.add_simpl_r, (wrap_id Uint32) by apply HL1. unfold in_range in Hr. cbn in Hr.
    rewrite wrap_id by (unfold in_range; cbn; lia). rewrite IH; [|done|done|lia|unfold in_range; cbn; lia].
    rewrite bind_cons, <- app_assoc, length_app. apply f_equal; repeat apply (f_equal2 pair); try done; lia.
Qed.

(** *** Import *)
Lemma import_outputs_ok os rest m : Forall (fun o => output_ok o /\ decodes o) os ->
  import_outputs (length os) ((os ≫= output_SnapshotBytes) ++ rest) m = (Ok rest, foldl (fun m o => importUnspentOutput o m) m os).
Proof.
  induction 1 as [|o os [Ho Hd] _ IH] in m |- *; [done|]. cbn [length import_outputs mbind list_bind foldl]. rewrite <- app_assoc.
  rewrite (parses_snapshot_output o Ho Hd _). apply IH.
Qed.

Lemma import_outputs_represents os m L : represents m L ->
  represents (foldl (fun m o => importUnspentOutput o m) m os) (foldl (fun L o => spec_Import o L) L os).
Proof. induction os as [|o os IH] in m, L |- *; [done|]. intros HR. cbn. by apply IH, importUnspentOutput_represents. Qed.

Lemma import_diffs_chain ds m L i snap rest : ledger_ok L -> valid_chain L ds -> represents m (snapshot_of (apply_all ds L)) ->
  Forall diff_writable (chain_diffs L ds) -> in_range Uint32 snap -> 0 <= i -> snap - i = l_slot (apply_all ds L) ->
  exists m', import_diffs (length ds) i snap ((chain_diffs L ds ≫= diff_bytes) ++ rest) m = (Ok rest, m') /\ represents m' (snapshot_of L).
Proof.
  intros HL. revert m i. induction ds as [|[os ss] ds IH] using rev_ind; intros m i HC HR Hw Hsnap Hi Hslot; [by exists m|].
  destruct (chain_last _ _ _ _ HL HC) as (HC' & HL1 & HV & E). rewrite E, chain_diffs_snoc in *. set (L1 := apply_all ds L) in *.
  inversion_clear Hw as [|? ? Hw1 Hw2]. destruct (vd_slot _ _ _ _ HV) as [_ Hs]. cbn [spec_ApplyDiff l_slot] in Hslot.
  pose proof (lo_slot _ HL1) as HL1r. unfold in_range in Hsnap, Hs, HL1r. cbn in Hsnap, Hs, HL1r.
  rewrite length_app. cbn [length]. rewrite Nat.add_1_r. cbn [import_diffs mbind list_bind]. rewrite <- app_assoc, (parses_diff _ Hw1 _). cbn [Slot Outputs Spents].
  rewrite (wrap_id Uint32 i), (wrap_id Uint32 (snap - i)) by (unfold in_range; cbn; lia). rewrite Hslot, Z.eqb_refl.
  rewrite wrap_id by (unfold in_range; cbn; lia). apply IH; [done| |done|done|lia|lia].
  set (d := mkSlotDiff _ _ _). assert (Hso : sortedOutputs d ≡ₚ os) by (unfold sortedOutputs; cbn; by rewrite !merge_sort_Permutation).
  assert (Hss : sortedSpents d ≡ₚ ss) by (unfold sortedSpents; cbn; by rewrite !merge_sort_Permutation).
  rewrite <- (snapshot_rollback L1 (l_slot L1 + 1) os ss (sortedOutputs d) (sortedSpents d)) by done.
  apply RollbackDiff_represents; [done| |done]. rewrite Hss. apply HV.
Qed.
End Loops.

(** ** Export and Import *)
Section Snapshot.
Context `{MS : MarshalSpec} `{IS : LedgerIDsSpec} `{D : SnapshotDecoders} {S T : Type} `{KV : KVStoreSpec S} `{ST : StateTreeSpec T}.
Implicit Types (m : Manager S T) (L : Ledger) (ds : diffs).

Lemma foldl_spec_Import os L :
  foldl (fun L o => spec_Import o L) L os = mkLedger (l_slot L) (add_outputs os (l_outputs L)) (ids_of os ∪ l_unspent L) (l_spents L) (l_diffs L).
Proof.
  induction os as [|o os IH] in L |- *; cbn [foldl].
  - destruct L. unfold ids_of. cbn. f_equal. set_solver.
  - rewrite IH. cbn. f_equal. unfold ids_of. cbn. set_solver.
Qed.

(** Importing the unspent outputs of a ledger into an empty one. *)
Lemma import_all L os : ledger_ok L -> os ≡ₚ unspent_outputs L ->
  foldl (fun L o => spec_Import o L) (spec_StoreIndex (l_slot L) empty_ledger) os = snapshot_of L.
Proof.
  intros HL Hp. assert (Hids : outputID <$> os ≡ₚ elements (l_unspent L)) by (rewrite Hp; by rewrite unspent_outputs_ids).
  rewrite foldl_spec_Import. unfold snapshot_of. cbn. f_equal.
  - apply map_eq. intros id. apply option_eq. intros o. rewrite map_lookup_filter_Some. cbn. split.
    + intros [[Ho <-]|[_ Ho]]%lookup_add_outputs_inv; [|by rewrite lookup_empty in Ho]. rewrite Hp in Ho.
      apply unspent_outputs_elem in Ho as (id & Hu & Ho). by destruct (lo_outputs _ HL _ _ Ho) as [<- _].
    + intros [Ho Hu]. destruct (lo_outputs _ HL _ _ Ho) as [<- _]. apply lookup_add_outputs; [rewrite Hids; apply NoDup_elements|].
      rewrite Hp. apply unspent_outputs_elem. eauto.
  - unfold ids_of. rewrite (right_id_L ∅ (∪)). apply leibniz_equiv. rewrite Hids. by rewrite list_to_set_elements.
Qed.

(** The outputs in the order Export writes them. *)
Lemma sorted_unspent m L : represents m L -> ledger_ok L ->
  exists ids os, UnspentOutputsIDs m = Ok ids /\ Forall2 (fun id o => l_outputs L !! id = Some o) (RemoveDupsAndSort ids) os
    /\ os ≡ₚ unspent_outputs L /\ length (RemoveDupsAndSort ids) = length os /\ length os = size (l_unspent L).
Proof.
  intros HR HL. destruct (UnspentOutputsIDs_spec m L HR HL) as (ids & E & Hp).
  assert (Hsp : RemoveDupsAndSort ids ≡ₚ elements (l_unspent L)).
  { apply NoDup_Permutation; [apply RemoveDupsAndSort_nodup|apply NoDup_elements|]. intros id. rewrite RemoveDupsAndSort_elem. by rewrite Hp. }
  exists ids, (omap (fun id => l_outputs L !! id) (RemoveDupsAndSort ids)). split; [done|].
  assert (H2 : Forall2 (fun id o => l_outputs L !! id = Some o) (RemoveDupsAndSort ids) (omap (fun id => l_outputs L !! id) (RemoveDupsAndSort ids))).
  { assert (Hall : Forall (fun id => is_Some (l_outputs L !! id)) (RemoveDupsAndSort ids)).
    { rewrite Hsp. apply Forall_forall. intros id Hid%elem_of_elements. by apply HL. }
    clear E Hsp. induction Hall as [|id l [o Ho] _ IH]; [constructor|]. cbn. rewrite Ho. constructor; [done|exact IH]. }
  split; [done|]. split; [unfold unspent_outputs; by rewrite Hsp|]. apply Forall2_length in H2. split; [done|]. rewrite <- H2, (Permutation_length Hsp). reflexivity.
Qed.

(** The counters are written over their placeholders. *)
Lemma fill_counters pre post a b :
  (w ← result_of ErrSeek (w_seek (- (16 + Z.of_nat (length post))) (wend (pre ++ put_le 8 0 ++ put_le 8 0 ++ post)));
   let wo := WriteValueFunc (put_le 8 a) (w, 0) in
   let '(w, countersSize) := WriteValueFunc (put_le 8 b) wo in
   result_of ErrSeek (w_seek (16 + Z.of_nat (length post) - countersSize) w))
  = Ok (wend (pre ++ put_le 8 a ++ put_le 8 b ++ post)).
Proof.
  rewrite (w_seek_to _ _ (length pre)) by (cbn; rewrite !length_app, !length_put_le; lia). cbn [result_of mbind result_bind contents wend].
  unfold WriteValueFunc. cbn [fst snd]. rewrite w_write_placeholder by by rewrite !length_put_le.
  rewrite app_assoc, w_write_placeholder by by rewrite !length_put_le.
  rewrite (w_seek_to _ _ (length (pre ++ put_le 8 a ++ put_le 8 b ++ post))).
  - cbn [result_of contents]. by rewrite <- app_assoc.
  - cbn [position]. rewrite !length_app, !length_put_le. lia.
Qed.

Definition snapshot_bytes (os : list Output) (dl : list SlotDiff) (ledgerIndex : SlotIndex) : bytes :=
  put_le 4 ledgerIndex ++ put_le 8 (Z.of_nat (length os)) ++ put_le 8 (Z.of_nat (length dl)) ++ (os ≫= output_SnapshotBytes) ++ (dl ≫= diff_bytes).

Lemma length_chain_diffs L ds : length (chain_diffs L ds) = length ds.
Proof. induction ds as [|[os ss] ds IH] in L |- *; [done|]. cbn. rewrite length_app, IH. cbn. lia. Qed.

Lemma Export_bytes ds m L bs : ledger_ok L -> valid_chain L ds -> represents m (apply_all ds L) ->
  in_range Uint64 (Z.of_nat (size (l_unspent (apply_all ds L)))) ->
  exists os, os ≡ₚ unspent_outputs (apply_all ds L)
    /\ Export (wend bs) (l_slot L) m = Ok (wend (bs ++ snapshot_bytes os (chain_diffs L ds) (l_slot (apply_all ds L)))).
Proof.
  intros HL HC HR Hsz. pose proof (chain_ok _ _ HL HC) as HLn. destruct (sorted_unspent m _ HR HLn) as (ids & os & E & H2 & Hp & Hlen & Hsize).
  exists os. split; [done|]. unfold Export. rewrite (ReadLedgerIndex_spec _ _ HR HLn). cbn [mbind result_bind].
  change WriteValueFunc with WriteBytesFunc. rewrite !write_end. cbn [fst snd]. rewrite !write_end, E. cbn [mbind result_bind].
  pose proof (apply_all_slot ds L) as Hsl. pose proof (lo_slot _ HLn) as Hr1. pose proof (lo_slot _ HL) as Hr2. unfold in_range in Hr1, Hr2. cbn in Hr1, Hr2.
  rewrite (export_outputs_end m _ _ os _ _ _ HR HLn H2) by (lia || rewrite Hlen, Hsize; exact Hsz). cbn [mbind result_bind].
  replace (Z.to_nat (l_slot (apply_all ds L) - l_slot L)) with (length ds) by lia.
  rewrite (export_diffs_end ds m L (apply_all ds L)); try done.
  - cbn [mbind result_bind]. rewrite !Z.add_0_l, Hlen, length_put_le. rewrite <- !app_assoc, (app_assoc bs).
    set (post := (os ≫= output_SnapshotBytes) ++ (chain_diffs L ds ≫= diff_bytes)).
    replace (Z.of_nat 8 + Z.of_nat 8 + Z.of_nat (length (os ≫= output_SnapshotBytes)) + Z.of_nat (length (chain_diffs L ds ≫= diff_bytes)))
      with (16 + Z.of_nat (length post)) by (unfold post; rewrite length_app; lia).
    change WriteBytesFunc with WriteValueFunc. rewrite fill_counters. unfold snapshot_bytes. by rewrite length_chain_diffs, <- !app_assoc.
  - eapply Forall_impl; [by apply chain_diffs_read|]. by intros d [].
  - unfold in_range. cbn. lia.
Qed.

(** What a chain writes can be read back when every output decodes. *)
Definition all_decode L : Prop := forall id o, l_outputs L !! id = Some o -> decodes o.

Lemma chain_writable ds L : ledger_ok L -> valid_chain L ds -> all_decode (apply_all ds L) -> Forall diff_writable (chain_diffs L ds).
Proof.
  intros HL. induction ds as [|[os ss] ds IH] using rev_ind; intros HC HD; [constructor|].
  destruct (chain_last _ _ _ _ HL HC) as (HC' & HL' & HV & E). rewrite E, chain_diffs_snoc in *. set (L' := apply_all ds L) in *.
  assert (HD' : all_decode L').
  { intros id o Ho. apply (HD id). cbn. rewrite lookup_add_outputs_other; [done|]. intros Hin. eapply fresh_id in Hin; [|done]. congruence. }
  pose proof (vd_unspent _ _ _ _ HV) as Hun. rewrite Forall_forall in Hun. pose proof (vd_outputs _ _ _ _ HV) as Hos. rewrite Forall_forall in Hos.
  pose proof (vd_spents _ _ _ _ HV) as Hsp. rewrite Forall_forall in Hsp. pose proof (ApplyDiff_ok _ _ _ _ HL' HV) as HLa.
  constructor; [|by apply IH]. destruct (vd_slot _ _ _ _ HV) as [_ Hs]. destruct (vd_counts _ _ _ _ HV) as [Hc1 Hc2].
  split; cbn [Slot Outputs Spents]; rewrite ?(Permutation_length (merge_sort_Permutation _ _)), ?merge_sort_Permutation.
  - done.
  - unfold in_range in *. cbn in *. lia.
  - apply Forall_forall. intros o Ho. split; [auto|]. apply (HD (outputID o)). cbn. apply lookup_add_outputs; [apply HV|done].
  - apply Forall_forall. intros s Hs'. destruct (Hun s Hs') as (_ & Ho & Hslot). split; [auto|].
    split; [by apply (lo_outputs _ HLa _ _ Ho)|]. split; [by apply (HD (spentOutputID s))|done].
Qed.

Lemma Import_bytes ds m0 L os rest : ledger_ok L -> valid_chain L ds -> all_decode (apply_all ds L) -> represents m0 empty_ledger ->
  in_range Uint64 (Z.of_nat (size (l_unspent (apply_all ds L)))) -> os ≡ₚ unspent_outputs (apply_all ds L) ->
  exists m', Import (snapshot_bytes os (chain_diffs L ds) (l_slot (apply_all ds L)) ++ rest) m0 = (Ok rest, m') /\ represents m' (snapshot_of L).
Proof.
  intros HL HC HD HR0 Hsz Hp. pose proof (chain_ok _ _ HL HC) as HLn. pose proof (lo_slot _ HLn) as Hr. pose proof (lo_slot _ HL) as Hr0.
  pose proof (apply_all_slot ds L) as Hsl.
  assert (Hlen : length os = size (l_unspent (apply_all ds L))).
  { rewrite (Permutation_length Hp), <- (length_fmap outputID), unspent_outputs_ids by done. done. }
  unfold Import, snapshot_bytes. rewrite <- !app_assoc, (parses_u32 _ Hr _).
  rewrite <- Hlen in Hsz. unfold mbind at 1, reader_bind at 1. rewrite (parses_u64 _ Hsz _).
  unfold mbind at 1, reader_bind at 1. rewrite (parses_u64 (Z.of_nat (length (chain_diffs L ds)))).
  2: { rewrite length_chain_diffs. unfold in_range in *. cbn in *. lia. }
  cbn [mret reader_ret]. rewrite !Nat2Z.id, import_outputs_ok.
  2: { rewrite Hp. apply Forall_forall. intros o (id & _ & Ho)%unspent_outputs_elem. split; [by apply (lo_outputs _ HLn _ _ Ho)|by apply (HD id)]. }
  pose proof (StoreLedgerIndex_represents (l_slot (apply_all ds L)) _ _ HR0) as HR1.
  pose proof (import_outputs_represents os _ _ HR1) as HR2. rewrite import_all in HR2 by done.
  rewrite length_chain_diffs. destruct (import_diffs_chain ds _ L 0 (l_slot (apply_all ds L)) rest HL HC HR2) as (m' & E & HR'); try done; [by apply chain_writable|lia|].
  rewrite E. eexists. split; [done|]. by apply commit_tree_represents.
Qed.
End Snapshot.

(** * What the UTXO ledger guarantees

    The refinement of the abstract ledger by sequences of operations, the round
    trips of rollback and snapshot, the conservation of the balance and the
    safety of pruning, with a concrete instance of every parameter. *)
Import UtxoLedger UtxoSnapshot.

(** ** Sequences of operations *)
Inductive ledger_op :=
| OpApply (slot : SlotIndex) (os : list Output) (ss : list Spent)
| OpRollback (slot : SlotIndex) (os : list Output) (ss : list Spent)
| OpPrune (slot : SlotIndex)
| OpGenesis (o : Output)
| OpStoreIndex (slot : SlotIndex).

Section Claims.
Context `{MS : MarshalSpec} `{IS : LedgerIDsSpec} `{D : SnapshotDecoders} {S T : Type} `{KV : KVStoreSpec S} `{ST : StateTreeSpec T}.
Implicit Types (m : Manager S T) (L : Ledger) (ds : diffs).

Definition run_op (op : ledger_op) m : Manager S T :=
  match op with
  | OpApply slot os ss => ApplyDiff slot os ss m
  | OpRollback slot os ss => RollbackDiff slot os ss m
  | OpPrune slot => (PruneSlotIndex slot m).2
  | OpGenesis o => AddGenesisUnspentOutput o m
  | OpStoreIndex slot => StoreLedgerIndex slot m
  end.
Definition spec_op (op : ledger_op) L : Ledger :=
  match op with
  | OpApply slot os ss => spec_ApplyDiff slot os ss L
  | OpRollback slot os ss => spec_RollbackDiff slot os ss L
  | OpPrune slot => spec_PruneSlotIndex slot L
  | OpGenesis o => spec_Import o L
  | OpStoreIndex slot => spec_StoreIndex slot L
  end.
(** What the bytes need: slots fit their key, a spent names its output. *)
Definition op_ok (op : ledger_op) L : Prop :=
  match op with
  | OpApply slot os ss => in_range Uint32 slot /\ Forall key_consistent ss
  | OpRollback slot os ss => in_range Uint32 slot /\ Forall spent_ok ss
  | OpPrune slot => in_range Uint32 slot /\ ledger_ok L
  | OpGenesis _ | OpStoreIndex _ => True
  end.
Fixpoint ops_ok (ops : list ledger_op) L : Prop :=
  match ops with [] => True | op :: ops => op_ok op L /\ ops_ok ops (spec_op op L) end.

Lemma run_op_represents op m L : represents m L -> op_ok op L -> represents (run_op op m) (spec_op op L).
Proof.
  destruct op as [slot os ss|slot os ss|slot|o|slot]; cbn [run_op spec_op op_ok]; intros HR Hok.
  - destruct Hok. by apply ApplyDiff_represents.
  - destruct Hok. by apply RollbackDiff_represents.
  - destruct Hok as [Hs HL]. destruct (PruneSlotIndex_represents slot m L Hs HL HR) as (m' & E & HR'). by rewrite E.
  - by apply AddGenesisUnspentOutput_represents.
  - by apply StoreLedgerIndex_represents.
Qed.

(** ** Ledgers with the same unspent outputs have the same checksum *)
Lemma hash_outputs_ext ids m1 L1 m2 L2 : represents m1 L1 -> ledger_ok L1 -> represents m2 L2 -> ledger_ok L2 ->
  Forall (fun id => l_outputs L1 !! id = l_outputs L2 !! id) ids -> hash_outputs ids m1 = hash_outputs ids m2.
Proof.
  intros HR1 HL1 HR2 HL2. induction 1 as [|id ids Hid _ IH]; [done|]. cbn [hash_outputs].
  rewrite (ReadOutput_spec _ _ _ HR1 HL1), (ReadOutput_spec _ _ _ HR2 HL2), Hid, IH. done.
Qed.

Lemma same_checksum sha256 m1 L1 m2 L2 : represents m1 L1 -> ledger_ok L1 -> represents m2 L2 -> ledger_ok L2 ->
  l_slot L1 = l_slot L2 -> l_unspent L1 = l_unspent L2 -> (forall id, id ∈ l_unspent L1 -> l_outputs L1 !! id = l_outputs L2 !! id) ->
  StateTreeRoot m1 = StateTreeRoot m2 /\ LedgerStateSHA256Sum sha256 m1 = LedgerStateSHA256Sum sha256 m2.
Proof.
  intros HR1 HL1 HR2 HL2 Hs Hu Ho.
  assert (Hroot : StateTreeRoot m1 = StateTreeRoot m2).
  { apply tree_root_ext. intros id. by rewrite (r_tree _ _ HR1), (r_tree _ _ HR2), Hu. }
  split; [done|]. unfold LedgerStateSHA256Sum. rewrite (ReadLedgerIndex_spec _ _ HR1 HL1), (ReadLedgerIndex_spec _ _ HR2 HL2), Hs.
  destruct (UnspentOutputsIDs_spec _ _ HR1 HL1) as (ids1 & E1 & Hp1). destruct (UnspentOutputsIDs_spec _ _ HR2 HL2) as (ids2 & E2 & Hp2).
  rewrite E1, E2. cbn [mbind result_bind].
  assert (Hids : RemoveDupsAndSort ids1 = RemoveDupsAndSort ids2).
  { apply sorted_unique; [apply RemoveDupsAndSort_sorted..|]. apply NoDup_Permutation; [apply RemoveDupsAndSort_nodup..|].
    intros id. by rewrite !RemoveDupsAndSort_elem, Hp1, Hp2, Hu. }
  rewrite Hids, (hash_outputs_ext _ m1 L1 m2 L2 HR1 HL1 HR2 HL2), Hroot; [done|].
  apply Forall_forall. intros id Hid. apply Ho. by rewrite RemoveDupsAndSort_elem, Hp2, elem_of_elements, <- Hu in Hid.
Qed.

(** The diffs of consecutive slots applied to the manager. *)
Fixpoint apply_diffs (ds : diffs) (slot : SlotIndex) m : Manager S T :=
  match ds with
  | [] => m
  | (os, ss) :: ds => apply_diffs ds (slot + 1) (ApplyDiff (slot + 1) os ss m)
  end.

Lemma apply_diffs_represents ds m L : represents m L -> valid_chain L ds -> represents (apply_diffs ds (l_slot L) m) (apply_all ds L).
Proof.
  induction ds as [|[os ss] ds IH] in m, L |- *; [done|]. intros HR [HV HC]. cbn [apply_diffs apply_all].
  apply (IH _ (spec_ApplyDiff (l_slot L + 1) os ss L)); [|done].
  apply ApplyDiff_represents; [apply HV|by eapply vd_key_consistent|done].
Qed.

(** C22 The manager implements the abstract ledger: whatever sequence of diffs
    applied and rolled back, prunings, genesis outputs and index writes runs, the bytes in
    the store and the state tree represent the ledger the same sequence of abstract
    operations gives, and reads return what that ledger holds. *)
Theorem utxo_refinement ops m L (HR : represents m L) (Hok : ops_ok ops L) :
  let m' := foldl (fun m op => run_op op m) m ops in
  let L' := foldl (fun L op => spec_op op L) L ops in
  represents m' L' /\
  (ledger_ok L' ->
     ReadLedgerIndex m' = Ok (l_slot L')
     /\ (forall id, ReadOutputByOutputID id m' = result_of ErrKeyNotFound (l_outputs L' !! id))
     /\ (forall id, ReadSpentForOutputID id m' = result_of ErrKeyNotFound (spec_ReadSpent L' id))
     /\ (forall id, IsOutputIDUnspent id m' = bool_decide (id ∈ l_unspent L'))
     /\ (forall slot, in_range Uint32 slot -> SlotDiff_ slot m' = result_of ErrKeyNotFound (spec_SlotDiff slot L'))
     /\ CheckStateTree m' = true).
Proof.
  induction ops as [|op ops IH] in m, L, HR, Hok |- *.
  - cbn. split; [done|]. intros HL. repeat split; intros.
    + by apply ReadLedgerIndex_spec.
    + by apply ReadOutput_spec.
    + by apply ReadSpent_spec.
    + by apply IsOutputIDUnspent_spec.
    + by apply SlotDiff_spec.
    + by eapply CheckStateTree_true.
  - destruct Hok as [H1 H2]. apply IH; [by apply run_op_represents|done].
Qed.

(** C24 Rollback undoes applied diffs: after any chain of valid diffs (fresh outputs created,
    unspent ones consumed, an output possibly created and consumed in the same
    slot), Rollback to the slot before them succeeds and restores every table, the state root and the checksum of the ledger. *)
Theorem utxo_rollback_undoes ds m L sha256
  (HR : represents m L) (HL : ledger_ok L) (HC : valid_chain L ds) :
  exists m', Rollback (l_slot L) (apply_diffs ds (l_slot L) m) = (Ok tt, m')
    /\ represents m' L /\ StateTreeRoot m' = StateTreeRoot m
    /\ LedgerStateSHA256Sum sha256 m' = LedgerStateSHA256Sum sha256 m.
Proof.
  destruct (Rollback_chain ds _ L HL HC (apply_diffs_represents ds m L HR HC)) as (m' & E & HR'). exists m'.
  split; [done|]. split; [done|]. by apply (same_checksum sha256 m' L m L).
Qed.

(** C23 A snapshot restores the ledger at its target slot: Export of a ledger that applied a
    chain of diffs after the target appends to the file, and Import of what it appended
    into an empty ledger consumes exactly those bytes and yields the unspent outputs, the
    state root and the checksum the ledger had at the target. *)
Theorem utxo_snapshot_roundtrip ds m L m0 w sha256
  (HR : represents m L) (HL : ledger_ok L) (HC : valid_chain L ds) (Hempty : represents m0 empty_ledger)
  (Hdec : all_decode (apply_all ds L)) (Hsize : in_range Uint64 (Z.of_nat (size (l_unspent (apply_all ds L)))))
  (Hw : at_end w) :
  exists snapshot w' m',
    Export w (l_slot L) (apply_diffs ds (l_slot L) m) = Ok w'
    /\ contents w' = contents w ++ snapshot /\ at_end w'
    /\ (forall rest, (Import (snapshot ++ rest) m0).1 = Ok rest)
    /\ Import snapshot m0 = (Ok [], m')
    /\ represents m' (snapshot_of L) /\ StateTreeRoot m' = StateTreeRoot m
    /\ LedgerStateSHA256Sum sha256 m' = LedgerStateSHA256Sum sha256 m.
Proof.
  assert (w = wend (contents w)) as -> by (destruct w as [bs p]; unfold at_end in Hw; cbn in *; by subst).
  destruct (Export_bytes ds _ L (contents w) HL HC (apply_diffs_represents ds m L HR HC) Hsize) as (os & Hp & E).
  destruct (Import_bytes ds m0 L os [] HL HC Hdec Hempty Hsize Hp) as (m' & Ei & HR'). rewrite app_nil_r in Ei.
  exists (snapshot_bytes os (chain_diffs L ds) (l_slot (apply_all ds L))), (wend (contents w ++ snapshot_bytes os (chain_diffs L ds) (l_slot (apply_all ds L)))), m'.
  split; [done|]. split; [done|]. split; [done|]. split.
  { intros rest. by destruct (Import_bytes ds m0 L os rest HL HC Hdec Hempty Hsize Hp) as (? & -> & _). }
  split; [done|]. split; [done|].
  apply (same_checksum sha256 m' (snapshot_of L) m L); try done; [by apply snapshot_of_ok|].
  intros id Hid. cbn in *. destruct (l_outputs L !! id) as [o|] eqn:Eo; [by apply map_lookup_filter_Some|by rewrite map_lookup_filter_None; left].
Qed.

(** C25 A diff that creates as many base tokens as it consumes leaves the balance
    ComputeLedgerBalance reports unchanged, so CheckLedgerState keeps succeeding for the token supply. *)
Theorem utxo_balance_conserved BaseTokenAmount slot os ss m L
  (HR : represents m L) (HL : ledger_ok L) (HV : valid_diff L slot os ss)
  (HA : amounts_known BaseTokenAmount (spec_ApplyDiff slot os ss L))
  (Hsum : zsum (amount BaseTokenAmount) os = zsum (amount BaseTokenAmount) (spentOutput <$> ss)) :
  ComputeLedgerBalance BaseTokenAmount (ApplyDiff slot os ss m)
    = Ret (Ok (u64 (ledger_balance BaseTokenAmount L), i64 (Z.of_nat (size (l_unspent (spec_ApplyDiff slot os ss L))))))
  /\ forall supply, CheckLedgerState BaseTokenAmount supply m = Ret (Ok tt) ->
       CheckLedgerState BaseTokenAmount supply (ApplyDiff slot os ss m) = Ret (Ok tt).
Proof.
  assert (HA0 : amounts_known BaseTokenAmount L).
  { intros id o Ho. apply (HA id). cbn. rewrite lookup_add_outputs_other; [done|]. intros Hin. eapply fresh_id in Hin; [|done]. congruence. }
  assert (HR' : represents (ApplyDiff slot os ss m) (spec_ApplyDiff slot os ss L)).
  { apply ApplyDiff_represents; [apply HV|by eapply vd_key_consistent|done]. }
  assert (E : ComputeLedgerBalance BaseTokenAmount (ApplyDiff slot os ss m) = Ret (Ok (u64 (ledger_balance BaseTokenAmount L), i64 (Z.of_nat (size (l_unspent (spec_ApplyDiff slot os ss L))))))).
  { rewrite (ComputeLedgerBalance_spec BaseTokenAmount _ _ HR' (ApplyDiff_ok _ _ _ _ HL HV) HA), balance_after by done. do 4 f_equal. lia. }
  split; [done|]. intros supply. unfold CheckLedgerState. rewrite E, (ComputeLedgerBalance_spec BaseTokenAmount _ _ HR HL HA0). cbn.
  by case_match.
Qed.

(** C26 Pruning a slot never fails, keeps the ledger well-formed and removes no unspent output:
    it forgets the outputs the slot consumed, their spents and the diff, and nothing else. *)
Theorem utxo_prune_keeps_unspent slot m L (HR : represents m L) (HL : ledger_ok L) (Hs : in_range Uint32 slot) :
  let '(r, m') := PruneSlotIndex slot m in
  let L' := spec_PruneSlotIndex slot L in
  r = Ok tt /\ represents m' L' /\ ledger_ok L' /\ l_unspent L' = l_unspent L
  /\ (forall id, id ∈ l_unspent L -> ReadOutputByOutputID id m' = ReadOutputByOutputID id m)
  /\ StateTreeRoot m' = StateTreeRoot m /\ CheckStateTree m' = true.
Proof.
  destruct (PruneSlotIndex_represents slot m L Hs HL HR) as (m' & E & HR'). rewrite E.
  destruct (spec_PruneSlotIndex_ok slot L HL) as (HL' & HU & HO). split; [done|]. split; [done|]. split; [done|]. split; [done|]. split.
  - intros id Hid. rewrite (ReadOutput_spec _ _ _ HR' HL'), (ReadOutput_spec _ _ _ HR HL). by rewrite HO.
  - split; [|by eapply CheckStateTree_true]. apply tree_root_ext. intros id. by rewrite (r_tree _ _ HR'), (r_tree _ _ HR), HU.
Qed.

(** The offset counts two uint64s behind the block ID where the value has two uint32s: the
    first eight bytes of the output are skipped and the proof is included. *)
Lemma ReadRawOutputBytes_misses_output id m L o : represents m L -> ledger_ok L -> l_outputs L !! id = Some o ->
  (8 < length (encodedOutput o) + 4 + length (encodedProof o))%nat ->
  ReadRawOutputBytesByOutputID id m = Ok (drop 8 (encodedOutput o ++ WriteUint32 (Z.of_nat (length (encodedProof o))) ++ encodedProof o)).
Proof.
  intros HR HL Ho Hlen. destruct (lo_outputs _ HL _ _ Ho) as [<- (Hid & Hb & Hs & He & Hp)].
  unfold ReadRawOutputBytesByOutputID, kv_load. rewrite outputKey_eq, (r_outputs _ _ HR), Ho. cbn [fmap option_fmap option_map result_of mbind result_bind].
  unfold output_KVStorableValue. rewrite !wrap_id by done. rewrite !WriteUint32_spec, slot_MustBytes_spec.
  case_match eqn:E.
  - apply Nat.leb_le in E. rewrite !length_app, !length_put_le in E. lia.
  - f_equal. rewrite <- Hb. rewrite drop_app_ge by lia. replace (_ - _)%nat with 16%nat by lia.
    rewrite app_assoc, drop_app_ge by (rewrite length_app, !length_put_le; lia). rewrite length_app, !length_put_le. done.
Qed.
End Claims.

(** ** A concrete instance *)
Module Demo.
#[local] Instance demo_ids : LedgerIDs := {|
  OutputIDLength := 2; BlockIDLength := 1; TransactionIDLength := 1;
  CreationSlot id := get_le (take 1 id);
  slot_MustBytes := put_le 4;
  SlotIndexFromBytes bs := if (4 <=? length bs)%nat then Some (get_le (take 4 bs)) else None;
  RemoveDupsAndSort l := merge_sort bytes_le (remove_dups l) |}.
#[local] Instance demo_ids_spec : LedgerIDsSpec demo_ids.
Proof.
  split; cbn.
  - intros id. pose proof (get_le_bound (take 1 id)) as Hb. rewrite length_take in Hb. unfold in_range. cbn.
    assert (256 ^ Z.of_nat (1 `min` length id) <= 256 ^ 1) by (apply Z.pow_le_mono_r; lia). lia.
  - done.
  - intros bs Hl. unfold SlotIndexLength in Hl. rewrite Hl. cbn. by rewrite take_ge by lia.
  - intros l id. rewrite merge_sort_Permutation. apply elem_of_remove_dups.
  - intros l. rewrite merge_sort_Permutation. apply NoDup_remove_dups.
  - intros l. apply StronglySorted_merge_sort; apply _.
Qed.
#[local] Instance demo_tree : StateTree (gmap OutputID stateTreeMetadata) := {|
  tree_new := ∅; tree_get t id := t !! id; tree_set id v t := <[id := v]> t; tree_delete id t := delete id t;
  tree_commit t := t; tree_root t := map_to_list t ≫= fun kv => kv.1 ++ put_le 4 (Time kv.2) |}.
#[local] Instance demo_tree_spec : StateTreeSpec (gmap OutputID stateTreeMetadata).
Proof.
  split; cbn; intros; [apply lookup_empty|apply lookup_insert|apply lookup_delete|done|].
  by rewrite (map_eq t1 t2).
Qed.
#[local] Instance demo_decoders : SnapshotDecoders := {| output_decodes _ _ := true; proof_decodes _ _ := true |}.

Definition demo_output (id : bytes) (amount : Z) : Output := mkOutput id [x07] 0 (put_le 8 amount) [x09].
Definition demo_amount (o : Output) : option Z := Some (get_le (encodedOutput o)).
Definition o1 := demo_output [x00; x01] 100.
Definition o2 := demo_output [x01; x02] 60.
Definition o3 := demo_output [x01; x01] 40.
Definition o4 := demo_output [x02; x01] 60.
Definition o5 := demo_output [x02; x02] 0.
Definition demo_manager : Manager (gmap bytes bytes) (gmap OutputID stateTreeMetadata) := AddGenesisUnspentOutput o1 (mkManager ∅ ∅).
Definition demo_ledger : Ledger := spec_Import o1 empty_ledger.
(** Slot 1 splits [o1]; slot 2 consumes [o2] and an output it creates itself. *)
Definition demo_diffs : diffs := [([o2; o3], [NewSpent o1 [x0a] 1]); ([o4; o5], [NewSpent o5 [x0b] 2; NewSpent o2 [x0b] 2])].

Lemma empty_represents : represents (mkManager (∅ : gmap bytes bytes) (∅ : gmap OutputID stateTreeMetadata)) empty_ledger.
Proof. split; cbn; intros; rewrite ?lookup_empty; try done. by right. Qed.
Lemma demo_represents : represents demo_manager demo_ledger.
Proof. apply AddGenesisUnspentOutput_represents, empty_represents. Qed.
Lemma import_ok o L : ledger_ok L -> output_ok o -> l_spents L = ∅ -> ledger_ok (spec_Import o L).
Proof.
  intros HL Ho Hs. split; cbn [spec_Import l_slot l_outputs l_unspent l_spents l_diffs].
  - apply HL.
  - intros id o' [[<- <-]|[_ ?]]%lookup_insert_Some; [done|by apply HL].
  - intros id Hid. destruct (decide (outputID o = id)) as [<-|Hne]; [rewrite lookup_insert_eq; eauto|]. rewrite lookup_insert_ne by done. apply HL. set_solver.
  - intros id v. by rewrite Hs, lookup_empty.
  - intros sl d Hd. by eapply HL.
Qed.
Lemma empty_ok : ledger_ok empty_ledger.
Proof. split; cbn; intros *; rewrite ?lookup_empty; done || set_solver. Qed.
Lemma demo_ok : ledger_ok demo_ledger.
Proof. apply import_ok; [apply empty_ok|by apply (bool_decide_unpack _)|done]. Qed.

Ltac demo_decide := apply (bool_decide_unpack _); vm_compute; exact I.
Lemma demo_chain : valid_chain demo_ledger demo_diffs.
Proof. split; [|split; [|done]]; (split; [demo_decide| demo_decide|vm_compute; reflexivity|demo_decide..]). Qed.

Lemma utxo_refinement_witness :
  let ops := [OpApply 1 [o2; o3] [NewSpent o1 [x0a] 1]; OpPrune 1] in
  represents (foldl (fun m op => run_op op m) demo_manager ops) (foldl (fun L op => spec_op op L) demo_ledger ops).
Proof.
  apply (utxo_refinement [OpApply 1 [o2; o3] [NewSpent o1 [x0a] 1]; OpPrune 1] demo_manager demo_ledger demo_represents).
  split; [split; [demo_decide|repeat constructor]|]. split; [|done]. split; [demo_decide|].
  apply (ApplyDiff_ok demo_ledger 1 [o2; o3] [NewSpent o1 [x0a] 1] demo_ok). exact (proj1 demo_chain).
Defined.

Lemma utxo_rollback_undoes_witness :
  exists m', Rollback 0 (apply_diffs demo_diffs 0 demo_manager) = (Ok tt, m')
    /\ represents m' demo_ledger /\ StateTreeRoot m' = StateTreeRoot demo_manager
    /\ LedgerStateSHA256Sum (fun bs => bs) m' = LedgerStateSHA256Sum (fun bs => bs) demo_manager.
Proof. exact (utxo_rollback_undoes demo_diffs demo_manager demo_ledger (fun bs => bs) demo_represents demo_ok demo_chain). Defined.

Lemma utxo_snapshot_roundtrip_witness :
  exists snapshot w' m',
    Export (mkWriter [xff] 1) 0 (apply_diffs demo_diffs 0 demo_manager) = Ok w'
    /\ contents w' = [xff] ++ snapshot /\ at_end w'
    /\ (forall rest, (Import (snapshot ++ rest) (mkManager (∅ : gmap bytes bytes) (∅ : gmap OutputID stateTreeMetadata))).1 = Ok rest)
    /\ Import snapshot (mkManager ∅ ∅) = (Ok [], m')
    /\ represents m' (snapshot_of demo_ledger) /\ StateTreeRoot m' = StateTreeRoot demo_manager
    /\ LedgerStateSHA256Sum (fun bs => bs) m' = LedgerStateSHA256Sum (fun bs => bs) demo_manager.
Proof.
  apply (utxo_snapshot_roundtrip demo_diffs demo_manager demo_ledger _ (mkWriter [xff] 1) (fun bs => bs) demo_represents demo_ok demo_chain empty_represents).
  - intros id o _. done.
  - demo_decide.
  - done.
Defined.

Lemma utxo_balance_conserved_witness :
  CheckLedgerState demo_amount 100 (ApplyDiff 1 [o2; o3] [NewSpent o1 [x0a] 1] demo_manager) = Ret (Ok tt).
Proof.
  apply (utxo_balance_conserved demo_amount 1 [o2; o3] [NewSpent o1 [x0a] 1] demo_manager demo_ledger demo_represents demo_ok (proj1 demo_chain)).
  - intros id o _. by eexists.
  - vm_compute. reflexivity.
  - vm_compute. reflexivity.
Defined.

Lemma utxo_prune_keeps_unspent_witness :
  let m := ApplyDiff 1 [o2; o3] [NewSpent o1 [x0a] 1] demo_manager in
  let L := spec_ApplyDiff 1 [o2; o3] [NewSpent o1 [x0a] 1] demo_ledger in
  let '(r, m') := PruneSlotIndex 1 m in
  let L' := spec_PruneSlotIndex 1 L in
  r = Ok tt /\ represents m' L' /\ ledger_ok L' /\ l_unspent L' = l_unspent L
  /\ (forall id, id ∈ l_unspent L -> ReadOutputByOutputID id m' = ReadOutputByOutputID id m)
  /\ StateTreeRoot m' = StateTreeRoot m /\ CheckStateTree m' = true.
Proof.
  apply (utxo_prune_keeps_unspent 1).
  - apply ApplyDiff_represents; [demo_decide|repeat constructor|apply demo_represents].
  - apply ApplyDiff_ok; [apply demo_ok|exact (proj1 demo_chain)].
  - demo_decide.
Defined.

(** The raw bytes of an output are not its bytes. *)
Lemma ReadRawOutputBytes_wrong :
  ReadRawOutputBytesByOutputID [x00; x01] demo_manager = Ok (put_le 4 1 ++ [x09]) /\ encodedOutput o1 = put_le 8 100.
Proof. split; vm_compute; reflexivity. Qed.
End Demo.
