(* ===== verification/CoreAccount.v ===== *)
(** * Accounts, pools and seats (pkg/core/account)

    [Accounts] maps the candidates of an epoch to their pools and keeps the sums
    of the stakes; [SeatedAccounts] gives the members of a committee their
    seats.

    Parameters: the bytes of an account ID ([AccountIDs]), marshalutil, and the
    order in which a map is visited.  Stakes are uint64s, seats uint8s. *)
From Stdlib Require Import Strings.Byte.
From S2P Require Import Prelude Bytes KvStore Block.

(** iotago.AccountID is an array of bytes; the integer that stands for it is encoded and decoded. *)
Class AccountIDs := {
  AccountIDLength : nat;
  account_Bytes : AccountID -> bytes;
  account_of : bytes -> AccountID;
}.
(** The integers that stand for an array of that length. *)
Definition account_ok `{I : AccountIDs} (id : AccountID) : Prop := 0 <= id < 256 ^ Z.of_nat AccountIDLength.
#[export] Instance account_ok_dec `{I : AccountIDs} id : Decision (account_ok id).
Proof. unfold account_ok. apply _. Defined.
Class AccountIDsSpec (I : AccountIDs) : Prop := {
  account_Bytes_length id : length (account_Bytes id) = AccountIDLength;
  account_of_Bytes id : account_ok id -> account_of (account_Bytes id) = id;
}.

Module CoreAccount.

(** ** Pools (pool.go) *)
Record Pool := mkPool { PoolStake : Z; ValidatorStake : Z; FixedCost : Z }.
#[global] Instance Pool_eq_dec : EqDecision Pool.
Proof. solve_decision. Defined.

Definition poolBytesLength : nat := 24.

Section Codec.
Context `{MU : MarshalUtil}.

Definition pool_Bytes (p : Pool) : bytes := WriteUint64 (PoolStake p) ++ WriteUint64 (ValidatorStake p) ++ WriteUint64 (FixedCost p).
Definition pool_reader : reader Pool :=
  poolStake ← ReadUint64;
  validatorStake ← ReadUint64;
  fixedCost ← ReadUint64;
  mret (mkPool poolStake validatorStake fixedCost).
(** The pool and the number of bytes read. *)
Definition PoolFromBytes (bs : bytes) : option (Pool * nat) :=
  '(p, rest) ← pool_reader bs; Some (p, (length bs - length rest)%nat).
End Codec.

(** ** Accounts (accounts.go) *)
Record Accounts := mkAccounts {
  accountPools : gmap AccountID Pool;
  totalStake : Z;
  totalValidatorStake : Z;
  reused : bool;
}.

Definition NewAccounts : Accounts := mkAccounts ∅ 0 0 false.
Definition Has (id : AccountID) (a : Accounts) : bool := bool_decide (is_Some (accountPools a !! id)).
Definition Size (a : Accounts) : Z := Z.of_nat (size (accountPools a)).
Definition IDs `{!RangeOrder AccountID} (a : Accounts) : list AccountID := (range_of (accountPools a)).*1.
Definition IsReused (a : Accounts) : bool := reused a.
Definition SetReused (a : Accounts) : Accounts := mkAccounts (accountPools a) (totalStake a) (totalValidatorStake a) true.
Definition Get (id : AccountID) (a : Accounts) : option Pool := accountPools a !! id.

(** The former pool, if there is one, is subtracted first. *)
Definition Set_ (id : AccountID) (pool : Pool) (a : Accounts) : Accounts :=
  let '(s, v) :=
    match accountPools a !! id with
    | Some value => (u64 (totalStake a - PoolStake value), u64 (totalValidatorStake a - ValidatorStake value))
    | None => (totalStake a, totalValidatorStake a)
    end in
  mkAccounts (<[id := pool]> (accountPools a)) (u64 (s + PoolStake pool)) (u64 (v + ValidatorStake pool)) (reused a).

Definition TotalStake (a : Accounts) : Z := totalStake a.
Definition TotalValidatorStake (a : Accounts) : Z := totalValidatorStake a.

Section Bytes.
Context `{MU : MarshalUtil} `{I : AccountIDs} `{!RangeOrder AccountID}.

Definition entry_Bytes (e : AccountID * Pool) : bytes := account_Bytes e.1 ++ pool_Bytes e.2.
Definition accounts_Bytes (a : Accounts) : bytes :=
  WriteUint32 (u32 (Size a)) ++ (range_of (accountPools a) ≫= entry_Bytes) ++ WriteBool (reused a).

(** One round of the loop: the account and the parsed pool are set. *)
Fixpoint read_pools (n : nat) (a : Accounts) : reader Accounts :=
  match n with
  | O => mret a
  | S n =>
      id ← read_bytes AccountIDLength;
      poolBytes ← read_bytes poolBytesLength;
      '(pool, c) ← read_option (PoolFromBytes poolBytes);
      if (c =? poolBytesLength)%nat then read_pools n (Set_ (account_of id) pool a) else read_option None
  end.

(** Returns the accounts and the number of bytes the method counts. *)
Definition AccountsFromReader : reader (Accounts * Z) :=
  accountCount ← read_le 4;
  a ← read_pools (Z.to_nat accountCount) NewAccounts;
  r ← read_bool;
  mret (mkAccounts (accountPools a) (totalStake a) (totalValidatorStake a) r,
        4 + accountCount * Z.of_nat (AccountIDLength + poolBytesLength) + 1).
Definition AccountsFromBytes (bs : bytes) : option (Accounts * Z) := fst <$> AccountsFromReader bs.
End Bytes.

(** ** Seats (seated_accounts.go) *)
Record SeatedAccounts := mkSeated { accounts : Accounts; seatsByAccount : gmap AccountID SeatIndex }.

(** [SeatIndex(i)] is a uint8. *)
Definition seat_of (i : Z) : SeatIndex := i mod 256.

Section Seats.
Context `{I : AccountIDs}.

Definition account_le (a b : AccountID) : Prop := bytes_le (account_Bytes a) (account_Bytes b).
#[global] Instance account_le_dec a b : Decision (account_le a b).
Proof. unfold account_le. apply _. Defined.

(** [for i, member := range members] *)
Fixpoint seat_all (i : Z) (members : list AccountID) (seats : gmap AccountID SeatIndex) : gmap AccountID SeatIndex :=
  match members with
  | [] => seats
  | member :: members => seat_all (i + 1) members (<[member := seat_of i]> seats)
  end.
Definition NewSeatedAccounts (a : Accounts) (members : list AccountID) : SeatedAccounts :=
  mkSeated a (seat_all 0 (merge_sort account_le members) ∅).
Definition SelectCommittee (members : list AccountID) (a : Accounts) : SeatedAccounts := NewSeatedAccounts a members.
End Seats.

(** [shrinkingmap.Set] tells whether the entry is new. *)
Definition SeatedSet (seat : SeatIndex) (id : AccountID) (s : SeatedAccounts) : bool * SeatedAccounts :=
  match accountPools (accounts s) !! id with
  | None => (false, s)
  | Some _ =>
      match seatsByAccount s !! id with
      | Some oldSeat =>
          if oldSeat =? seat then (false, mkSeated (accounts s) (<[id := seat]> (seatsByAccount s))) else (false, s)
      | None => (true, mkSeated (accounts s) (<[id := seat]> (seatsByAccount s)))
      end
  end.
Definition SeatedDelete (id : AccountID) (s : SeatedAccounts) : bool * SeatedAccounts :=
  (bool_decide (is_Some (seatsByAccount s !! id)), mkSeated (accounts s) (delete id (seatsByAccount s))).
Definition GetSeat (id : AccountID) (s : SeatedAccounts) : option SeatIndex := seatsByAccount s !! id.
Definition HasAccount (id : AccountID) (s : SeatedAccounts) : bool := bool_decide (is_Some (seatsByAccount s !! id)).
Definition SeatCount (s : SeatedAccounts) : Z := Z.of_nat (size (seatsByAccount s)).

(** The pools of the seated accounts; a seated account without a pool panics. *)
Fixpoint collect_pools (pools : gmap AccountID Pool) (ids : list AccountID) (a : Accounts) : outcome Accounts :=
  match ids with
  | [] => Ret a
  | id :: ids => pool ← deref (pools !! id); collect_pools pools ids (Set_ id pool a)
  end.
Definition SeatedAccounts_Accounts `{!RangeOrder AccountID} (s : SeatedAccounts) : outcome Accounts :=
  collect_pools (accountPools (accounts s)) (range_of (seatsByAccount s)).*1 NewAccounts.

(** ** Properties *)

(** The totals are the sums of the pools, at the width of a uint64. *)
Definition totals_ok (a : Accounts) : Prop :=
  totalStake a = u64 (map_sum PoolStake (accountPools a)) /\ totalValidatorStake a = u64 (map_sum ValidatorStake (accountPools a)).
Definition pool_ok (p : Pool) : Prop := in_range Uint64 (PoolStake p) /\ in_range Uint64 (ValidatorStake p) /\ in_range Uint64 (FixedCost p).
#[global] Instance pool_ok_dec p : Decision (pool_ok p).
Proof. unfold pool_ok. apply _. Defined.
#[global] Instance totals_ok_dec a : Decision (totals_ok a).
Proof. unfold totals_ok. apply _. Defined.

Lemma u64_add_wrap a b : u64 (u64 a + b) = u64 (a + b).
Proof. apply wrap_eq. destruct (wrap_decomp Uint64 a) as [k ->]. exists k. lia. Qed.
Lemma u64_replace a b c : u64 (u64 (u64 a - b) + c) = u64 (a - b + c).
Proof. rewrite u64_add_wrap. apply wrap_eq. destruct (wrap_decomp Uint64 a) as [k ->]. exists k. lia. Qed.

Lemma Set_totals id pool a : totals_ok a -> totals_ok (Set_ id pool a).
Proof.
  intros [Hs Hv]. unfold totals_ok, Set_. destruct (accountPools a !! id) as [p|] eqn:E; cbn [accountPools totalStake totalValidatorStake].
  - rewrite !(map_sum_insert _ _ _ _ _ E), Hs, Hv, !u64_replace. done.
  - rewrite !(map_sum_insert_None _ _ _ _ E), Hs, Hv, !u64_add_wrap. by rewrite !(Z.add_comm (map_sum _ _)).
Qed.

Lemma accounts_eq a b : totals_ok a -> totals_ok b -> accountPools a = accountPools b -> reused a = reused b -> a = b.
Proof. destruct a, b. unfold totals_ok. cbn. intros [-> ->] [-> ->] -> ->. done. Qed.

Section Roundtrip.
Context `{MS : MarshalSpec} `{IS : AccountIDsSpec} `{!RangeOrder AccountID}.

Lemma length_pool_Bytes p : length (pool_Bytes p) = poolBytesLength.
Proof. unfold pool_Bytes. by rewrite !WriteUint64_spec, !length_app, !length_put_le. Qed.

Lemma parses_pool p : pool_ok p -> parses pool_reader (pool_Bytes p) p.
Proof.
  intros (H1 & H2 & H3). unfold pool_reader, pool_Bytes. do 2 parse_step. eapply parses_map; [eauto with parse|]. destruct p. apply parses_ret.
Qed.

Lemma PoolFromBytes_roundtrip p : pool_ok p -> PoolFromBytes (pool_Bytes p) = Some (p, poolBytesLength).
Proof.
  intros Hp. unfold PoolFromBytes. pose proof (parses_pool p Hp []) as H. rewrite app_nil_r in H. rewrite H. cbn. by rewrite length_pool_Bytes.
Qed.

Definition set_all (l : list (AccountID * Pool)) (a : Accounts) : Accounts := foldl (fun a e => Set_ e.1 e.2 a) a l.

Definition entry_ok (e : AccountID * Pool) : Prop := account_ok e.1 /\ pool_ok e.2.
#[global] Instance entry_ok_dec e : Decision (entry_ok e).
Proof. unfold entry_ok. apply _. Defined.

Lemma parses_pools l a : Forall entry_ok l -> parses (read_pools (length l) a) (l ≫= entry_Bytes) (set_all l a).
Proof.
  induction 1 as [|[id p] l [Hid Hp] _ IH] in a |- *; [apply parses_ret|]. cbn [fst snd] in Hid, Hp. cbn [length read_pools]. rewrite bind_cons. unfold entry_Bytes at 1. rewrite <- app_assoc. cbn [fst snd].
  eapply parses_bind; [apply parses_bytes, account_Bytes_length|].
  eapply parses_bind; [apply parses_bytes, length_pool_Bytes|].
  eapply (parses_bind _ _ []); [rewrite PoolFromBytes_roundtrip by done; apply parses_option|]. cbn.
  rewrite account_of_Bytes by done. apply IH.
Qed.

Lemma set_all_pools l a : accountPools (set_all l a) = foldl (fun m e => <[e.1 := e.2]> m) (accountPools a) l.
Proof.
  unfold set_all. induction l as [|[id p] l IH] in a |- *; [done|]. cbn. rewrite IH. unfold Set_. by destruct (accountPools a !! id).
Qed.
Lemma set_all_totals l a : totals_ok a -> totals_ok (set_all l a).
Proof. unfold set_all. induction l as [|[id p] l IH] in a |- *; [done|]. intros Ha. cbn. by apply IH, Set_totals. Qed.

Lemma insert_range (m : gmap AccountID Pool) : foldl (fun m e => <[e.1 := e.2]> m) ∅ (range_of m) = m.
Proof.
  assert (Hl : forall (l : list (AccountID * Pool)) m0, NoDup l.*1 -> (forall k, k ∈ l.*1 -> m0 !! k = None) ->
    foldl (fun (m : gmap AccountID Pool) e => <[e.1 := e.2]> m) m0 l = list_to_map l ∪ m0).
  { induction l as [|[k v] l IH]; intros m0 Hn Hk; cbn; [by rewrite (left_id_L ∅ (∪))|]. inversion_clear Hn as [|? ? Hn1 Hn2]. rewrite IH; [|done|].
    - rewrite <- insert_union_l, insert_union_r; [done|by apply not_elem_of_list_to_map_1].
    - intros k' Hk'. rewrite lookup_insert_ne by set_solver. apply Hk. set_solver. }
  assert (Hn : NoDup (range_of m).*1) by (rewrite (range_of_perm m); apply NoDup_fst_map_to_list).
  rewrite Hl by (done || intros; apply lookup_empty). rewrite (right_id_L ∅ (∪)).
  rewrite (list_to_map_proper (range_of m) (map_to_list m)) by (done || apply range_of_perm). apply list_to_map_to_list.
Qed.

Definition entries_ok (a : Accounts) : Prop := map_Forall (fun k p => entry_ok (k, p)) (accountPools a).

Lemma accounts_parses a : totals_ok a -> entries_ok a -> in_range Uint32 (Size a) ->
  parses AccountsFromReader (accounts_Bytes a) (a, Z.of_nat (length (accounts_Bytes a))).
Proof.
  intros Ht Hp Hsz. unfold AccountsFromReader, accounts_Bytes. rewrite wrap_id by done. parse_step.
  assert (Hlen : Z.to_nat (Size a) = length (range_of (accountPools a))).
  { unfold Size. rewrite Nat2Z.id, (Permutation_length (range_of_perm _)), length_map_to_list. done. }
  rewrite Hlen. eapply parses_bind.
  { apply parses_pools. apply Forall_forall. intros [k v] Hin%elem_of_range. by apply (Hp k). }
  eapply parses_map; [apply parses_Bool_le|].
  assert (Heq : forall (x y : Accounts * Z), x = y -> parses (mret x) [] y) by by intros ? ? ->. apply Heq. f_equal.
  - assert (Hn : totals_ok NewAccounts) by done. pose proof (set_all_totals (range_of (accountPools a)) NewAccounts Hn) as [Hs Hv].
    pose proof (set_all_pools (range_of (accountPools a)) NewAccounts) as Hpools. cbn in Hpools. rewrite insert_range in Hpools.
    apply accounts_eq; cbn; [|done|done|done]. unfold totals_ok. cbn. by rewrite Hpools in *.
  - rewrite !length_app, WriteUint32_spec, WriteBool_spec, !length_put_le.
    assert (Hb : length (range_of (accountPools a) ≫= entry_Bytes) = (length (range_of (accountPools a)) * (AccountIDLength + poolBytesLength))%nat).
    { clear Hlen. induction (range_of (accountPools a)) as [|e l IH]; [done|]. rewrite bind_cons, length_app, IH. unfold entry_Bytes.
      rewrite length_app, account_Bytes_length, length_pool_Bytes. cbn. lia. }
    rewrite Hb. unfold Size in *. lia.
Qed.

Lemma set_all_entries l a : Forall entry_ok l -> entries_ok a -> entries_ok (set_all l a).
Proof.
  unfold set_all. induction 1 as [|[id p] l Hp _ IH] in a |- *; [done|]. intros Ha. cbn. apply IH. unfold entries_ok, Set_.
  destruct (accountPools a !! id); cbn [accountPools]; by apply map_Forall_insert_2.
Qed.

(** Accounts built by any sequence of Set calls keep the totals equal to the sums of
    their pools at uint64 width, and reading their bytes gives back the same accounts, pools,
    totals and flag, with the count of bytes that were written. *)
Theorem accounts_roundtrip (l : list (AccountID * Pool)) (r : bool) (rest : bytes)
  (Hl : Forall entry_ok l) (Hsize : in_range Uint32 (Size (set_all l NewAccounts))) :
  let a0 := set_all l NewAccounts in
  let a := if r then SetReused a0 else a0 in
  totals_ok a /\ AccountsFromReader (accounts_Bytes a ++ rest) = Some ((a, Z.of_nat (length (accounts_Bytes a))), rest).
Proof.
  cbv zeta. set (a0 := set_all l NewAccounts) in *. set (a := if r then SetReused a0 else a0).
  assert (Ht0 : totals_ok a0) by by apply set_all_totals.
  assert (Hp0 : entries_ok a0) by (apply set_all_entries; [done|]; intros k v; cbn; by rewrite lookup_empty).
  assert (Ha : totals_ok a /\ entries_ok a /\ Size a = Size a0) by by destruct r.
  destruct Ha as (Ht & Hp & Hs). split; [done|]. apply accounts_parses; [done|done|]. by rewrite Hs.
Qed.
End Roundtrip.

Section SeatProps.
Context `{IS : AccountIDsSpec}.

Lemma seat_all_other k members seats id : id ∉ members -> seat_all k members seats !! id = seats !! id.
Proof.
  induction members as [|x members IH] in k, seats |- *; [done|]. intros Hid. cbn. rewrite IH by set_solver.
  rewrite lookup_insert_ne by set_solver. done.
Qed.
Lemma seat_all_lookup k members seats i id : NoDup members -> members !! i = Some id ->
  seat_all k members seats !! id = Some (seat_of (k + Z.of_nat i)).
Proof.
  induction members as [|x members IH] in k, seats, i |- *; [done|]. intros Hn Hi. inversion_clear Hn as [|? ? Hx Hn']. destruct i as [|i]; cbn in Hi |- *.
  - simplify_eq. rewrite seat_all_other by done. by rewrite lookup_insert_eq, Z.add_0_r.
  - rewrite (IH _ _ i) by done. f_equal. f_equal. lia.
Qed.

Lemma account_Bytes_inj a b : account_ok a -> account_ok b -> account_Bytes a = account_Bytes b -> a = b.
Proof. intros Ha Hb E. by rewrite <- (account_of_Bytes a), <- (account_of_Bytes b), E. Qed.
#[global] Instance account_le_total : Total account_le.
Proof. intros a b. apply (total bytes_le). Qed.
#[global] Instance account_le_trans : Transitive account_le.
Proof. intros a b c. apply (transitivity (R:=bytes_le)). Qed.

Lemma sorted_members m1 m2 : Forall account_ok m1 -> m1 ≡ₚ m2 -> merge_sort account_le m1 = merge_sort account_le m2.
Proof.
  intros Hok Hp. apply (StronglySorted_unique_strong account_le); [|apply StronglySorted_merge_sort; apply _..|by rewrite !merge_sort_Permutation].
  rewrite Forall_forall in Hok. intros x y Hx Hy Hxy Hyx. rewrite merge_sort_Permutation in Hx. rewrite merge_sort_Permutation, <- Hp in Hy.
  apply account_Bytes_inj; [auto..|]. by apply (anti_symm bytes_le).
Qed.

(** C28 The seats of a committee are well formed: for at most 256 distinct members every member
    and nobody else has a seat, the seats are 0 to n-1 without repetition, and they depend only
    on which accounts are members, not on the order they were selected in. *)
Theorem committee_seats (members members' : list AccountID) (a : Accounts)
  (Hok : Forall account_ok members) (Hn : NoDup members) (Hsize : (length members <= 256)%nat) (Hp : members' ≡ₚ members) :
  let s := SelectCommittee members a in
  SelectCommittee members' a = s
  /\ SeatCount s = Z.of_nat (length members)
  /\ (forall id, is_Some (GetSeat id s) <-> id ∈ members)
  /\ (forall id seat, GetSeat id s = Some seat -> 0 <= seat < Z.of_nat (length members))
  /\ (forall id1 id2 seat, GetSeat id1 s = Some seat -> GetSeat id2 s = Some seat -> id1 = id2).
Proof.
  cbv zeta. unfold SelectCommittee, NewSeatedAccounts, SeatCount, GetSeat. cbn [seatsByAccount]. rewrite <- (sorted_members members members') by done.
  pose proof (merge_sort_Permutation account_le members) as Hs. set (sm := merge_sort account_le members) in *.
  assert (Hns : NoDup sm) by by rewrite Hs. assert (Hl : length sm = length members) by by rewrite Hs.
  assert (Hseat : forall id seat, seat_all 0 sm ∅ !! id = Some seat -> exists i, sm !! i = Some id /\ seat = Z.of_nat i /\ (i < length members)%nat).
  { intros id seat Hid. destruct (decide (id ∈ sm)) as [Hin|Hin].
    - apply list_elem_of_lookup in Hin as [i Hi]. exists i. rewrite (seat_all_lookup _ _ _ i) in Hid by done. pose proof (lookup_lt_Some _ _ _ Hi).
      unfold seat_of in Hid. simplify_eq. rewrite Z.mod_small by lia. split; [done|]. split; lia.
    - rewrite seat_all_other, lookup_empty in Hid by done. done. }
  assert (Hdom : forall id, is_Some (seat_all 0 sm ∅ !! id) <-> id ∈ members).
  { intros id. rewrite <- Hs. split.
    - intros [seat (i & Hi & _)%Hseat]. by apply list_elem_of_lookup_2 in Hi.
    - intros [i Hi]%list_elem_of_lookup. rewrite (seat_all_lookup _ _ _ i) by done. eauto. }
  split; [done|]. split; [|split; [done|split]].
  - rewrite <- size_dom, <- (size_list_to_set (C:=gset AccountID) members) by done. do 2 f_equal. apply set_eq. intros id.
    rewrite elem_of_dom, elem_of_list_to_set. apply Hdom.
  - intros id seat (i & _ & -> & ?)%Hseat. lia.
  - intros id1 id2 seat (i & Hi & -> & _)%Hseat (j & Hj & Hij & _)%Hseat. assert (i = j) as -> by lia. congruence.
Qed.
End SeatProps.

(** ** Concrete instances *)
Module Demo.
#[local] Instance demo_accountIDs : AccountIDs := {| AccountIDLength := 4; account_Bytes id := put_le 4 id; account_of bs := get_le bs |}.
#[local] Instance demo_accountIDs_spec : AccountIDsSpec demo_accountIDs.
Proof. split; [intros id; apply length_put_le|]. intros id Hid. by apply get_put_le_id. Qed.
#[local] Instance demo_order : RangeOrder AccountID := canonical_order AccountID.

Definition demo_sets : list (AccountID * Pool) := [(7, mkPool 10 4 1); (9, mkPool 20 5 2); (7, mkPool 30 6 3)].

Lemma accounts_roundtrip_witness :
  let a := SetReused (set_all demo_sets NewAccounts) in
  totals_ok a /\ AccountsFromReader (accounts_Bytes a ++ [xff]) = Some ((a, Z.of_nat (length (accounts_Bytes a))), [xff]).
Proof. apply (accounts_roundtrip demo_sets true [xff]); apply (bool_decide_unpack _); vm_compute; exact I. Defined.

Lemma committee_seats_witness :
  let s := SelectCommittee [9; 7; 300] NewAccounts in
  SelectCommittee [300; 9; 7] NewAccounts = s /\ SeatCount s = 3 /\ GetSeat 300 s = Some 2.
Proof.
  split; [|split; [|vm_compute; reflexivity]].
  - apply (committee_seats [9; 7; 300] [300; 9; 7] NewAccounts); [apply (bool_decide_unpack _); vm_compute; exact I..|by solve_Permutation || (apply (bool_decide_unpack _); vm_compute; exact I)].
  - apply (committee_seats [9; 7; 300] [9; 7; 300] NewAccounts); [apply (bool_decide_unpack _); vm_compute; exact I..|done].
Defined.
End Demo.
End CoreAccount.
