(* ===== verification/Prunable.v ===== *)
(** * Prunable storage (pkg/storage/prunable)

    [BucketManager] keeps one database (a bucket, in a directory of its own) per
    epoch for the data of the epoch's slots; [Prunable] combines it with the epoch
    stores of upgrade signals, pool rewards, pool stats and committees.

    Parameters: the key-value store of a bucket, the cache of open databases
    (zyedidia's cache package: which handles it evicts is up to it), the size of
    a directory, and the bytes of a slot.  A bucket is what its directory holds:
    opening and closing it does not change the contents.  A store handed out for a
    slot is a handle, the epoch and the realm, through which its client reads and
    writes.  Device failures are left out. *)
From Stdlib Require Import Strings.Byte.
From S2P Require Import Prelude Bytes KvStore Block TimeApi EpochStore CoreAccount Accounts.
Import CoreAccount.

Class SlotBytes := { slot_bytes : SlotIndex -> bytes }.
Class SlotBytesSpec (B : SlotBytes) : Prop := {
  slot_bytes_length s : length (slot_bytes s) = 4%nat;
  slot_bytes_inj s s' : in_range Uint32 s -> in_range Uint32 s' -> slot_bytes s = slot_bytes s' -> s = s';
}.

(** The cache of open databases; [put] and [remove] return the entries they evict, for which the callback runs. *)
Class DBCache (C : Type) := {
  dbc_empty : C;
  dbc_get : EpochIndex -> C -> bool * C;
  dbc_put : EpochIndex -> C -> list EpochIndex * C;
  dbc_remove : EpochIndex -> C -> list EpochIndex * C;
  dbc_each : C -> list EpochIndex;
}.

Module BucketManager.
Record BucketManager (C S : Type) := mkBucketManager {
  openDBs : C;
  lastPrunedEpoch : EvictionIndex.t;
  dbSizes : gmap EpochIndex Z;
  disk : gmap EpochIndex S;
}.
Arguments mkBucketManager {C S}.
Arguments openDBs {C S}.
Arguments lastPrunedEpoch {C S}.
Arguments dbSizes {C S}.
Arguments disk {C S}.

(** The store a client works on: the bucket and the prefix of its keys. *)
Record handle := mkHandle { h_epoch : EpochIndex; h_realm : bytes }.

Section Methods.
Context {C S : Type} `{!DBCache C} `{KV : KVStore S} `{!Empty S} `{!SlotBytes} (FolderSize : option S -> option Z).
Implicit Types b : BucketManager C S.

Definition with_open c b : BucketManager C S := mkBucketManager c (lastPrunedEpoch b) (dbSizes b) (disk b).
Definition with_pruned p b : BucketManager C S := mkBucketManager (openDBs b) p (dbSizes b) (disk b).
Definition with_sizes z b : BucketManager C S := mkBucketManager (openDBs b) (lastPrunedEpoch b) z (disk b).
Definition with_disk d b : BucketManager C S := mkBucketManager (openDBs b) (lastPrunedEpoch b) (dbSizes b) d.

Definition NewBucketManager (disk : gmap EpochIndex S) : BucketManager C S := mkBucketManager dbc_empty EvictionIndex.NewEvictionIndex ∅ disk.

(** The size of the directory of an epoch; an error is reported and counts as 0. *)
Definition dbPrunableDirectorySize (epoch : EpochIndex) b : option Z := FolderSize (disk b !! epoch).
(** The eviction callback: the database is closed and its size is kept. *)
Definition on_evict (evicted : list EpochIndex) b : BucketManager C S :=
  foldl (fun b e => with_sizes (<[e := default 0 (dbPrunableDirectorySize e b)]> (dbSizes b)) b) b evicted.

Definition IsTooOld (epoch : EpochIndex) b : bool := epoch <? EvictionIndex.NextIndex (lastPrunedEpoch b).

(** Opening a database creates its directory. *)
Definition getDBInstance (epoch : EpochIndex) b : BucketManager C S :=
  let '(exists_, c) := dbc_get epoch (openDBs b) in
  if exists_ then with_open c b
  else
    let b := with_disk (<[epoch := default ∅ (disk b !! epoch)]> (disk b)) b in
    let b := with_sizes (delete epoch (dbSizes b)) b in
    let '(evicted, c) := dbc_put epoch c in
    on_evict evicted (with_open c b).

Definition Get (epoch : EpochIndex) (realm : bytes) : sprog (BucketManager C S) StorageError handle :=
  tooOld ← s_read (IsTooOld epoch);
  if tooOld : bool then s_fail ErrEpochPruned
  else
    _ ← s_update (getDBInstance epoch);
    mret (mkHandle epoch realm).

(** Reads and writes through a handle. *)
Definition h_get (h : handle) (key : bytes) b : option bytes :=
  s ← disk b !! h_epoch h; kv_get s (h_realm h ++ key).
Definition h_set (h : handle) (key value : bytes) b : BucketManager C S :=
  with_disk (<[h_epoch h := kv_set (h_realm h ++ key) value (default ∅ (disk b !! h_epoch h))]> (disk b)) b.

(** [Each] with [Remove]: the handles are closed and leave the cache. *)
Definition Shutdown b : BucketManager C S :=
  foldl (fun b e => let '(evicted, c) := dbc_remove e (openDBs b) in on_evict evicted (with_open c b)) b (dbc_each (openDBs b)).

Definition TotalSize b : Z :=
  let sum := map_fold (fun _ i sum => i64 (sum + i)) 0 (dbSizes b) in
  foldl (fun sum e => match dbPrunableDirectorySize e b with Some size => i64 (sum + size) | None => sum end) sum (dbc_each (openDBs b)).

Definition BucketSize (epoch : EpochIndex) : sprog (BucketManager C S) StorageError Z := fun b =>
  match dbSizes b !! epoch with
  | Some size => (Ok size, b)
  | None =>
      let '(exists_, c) := dbc_get epoch (openDBs b) in
      let b := with_open c b in
      if negb exists_ then (Ok 0, b) else (result_of ErrOther (dbPrunableDirectorySize epoch b), b)
  end.

Definition LastPrunedEpoch b : EpochIndex * bool := EvictionIndex.Index (lastPrunedEpoch b).

(** getSortedDBInstancesFromDisk *)
Definition sorted_epochs b : list EpochIndex := merge_sort Z.le (map_to_list (disk b)).*1.

Definition bm_RestoreFromDisk b : EpochIndex * BucketManager C S :=
  match sorted_epochs b with
  | [] => (0, b)
  | base :: _ as dbInfos =>
      let '(last, b) :=
        if 0 <? base then (base - 1, with_pruned (EvictionIndex.MarkEvicted (base - 1) (lastPrunedEpoch b)).2 b) else (0, b) in
      (last, foldl (fun b e => getDBInstance e b) b dbInfos)
  end.

(** Whether a directory was deleted. *)
Definition DeleteBucket (epoch : EpochIndex) b : bool * BucketManager C S :=
  match disk b !! epoch with
  | None => (false, b)
  | Some _ =>
      let '(exists_, c) := dbc_get epoch (openDBs b) in
      let b := with_open c b in
      let b := if exists_ then let '(evicted, c) := dbc_remove epoch (openDBs b) in on_evict evicted (with_open c b) else b in
      let b := with_disk (delete epoch (disk b)) b in
      (true, with_sizes (delete epoch (dbSizes b)) b)
  end.

Definition bm_Prune (epoch : EpochIndex) : sprog (BucketManager C S) StorageError unit := fun b =>
  if epoch <? (EvictionIndex.Index (lastPrunedEpoch b)).1 then (Err ErrNoPruningNeeded, b)
  else
    let b := (DeleteBucket epoch b).2 in
    (Ok tt, with_pruned (EvictionIndex.MarkEvicted epoch (lastPrunedEpoch b)).2 b).

(** The slots [targetSlot+1 .. epochEndSlot]. *)
Definition clear_slots (targetSlot epochEndSlot : SlotIndex) : list SlotIndex :=
  seqZ (u32 (targetSlot + 1)) (epochEndSlot - u32 (targetSlot + 1) + 1).
Definition RollbackBucket (epoch : EpochIndex) (targetSlot epochEndSlot : SlotIndex) b : BucketManager C S :=
  let b := getDBInstance epoch b in
  let s := default ∅ (disk b !! epoch) in
  with_disk (<[epoch := foldl (fun s slot => kv_delete_prefix (slot_bytes slot) s) s (clear_slots targetSlot epochEndSlot)]> (disk b)) b.
End Methods.
End BucketManager.

Module Prunable.
(** Prefixes of the stores of a slot. *)
Definition slotPrefixBlocks : byte := x00.
Definition slotPrefixRootBlocks : byte := x01.
Definition slotPrefixMutations : byte := x02.
Definition slotPrefixAttestations : byte := x03.
Definition slotPrefixAccountDiffs : byte := x04.
Definition slotPrefixPerformanceFactors : byte := x05.
Definition slotPrefixUpgradeSignals : byte := x06.
Definition slotPrefixRoots : byte := x07.
Definition slotPrefixRetainer : byte := x08.

Definition pruningDelayDecidedUpgradeSignals : EpochIndex := 7.
Definition pruningDelayPoolRewards : EpochIndex := 365.
Definition pruningDelayPoolStats : EpochIndex := 365.
Definition pruningDelayCommittee : EpochIndex := 365.

(** model.PoolsStats *)
Record PoolsStats := mkPoolsStats { ps_TotalStake : Z; ps_TotalValidatorStake : Z; ps_ProfitMargin : Z }.

Record Prunable (C S : Type) := mkPrunable {
  prunableSlotStore : BucketManager.BucketManager C S;
  decidedUpgradeSignals : Store VersionAndHash;
  poolRewards : EpochKVStore S;
  poolStats : Store PoolsStats;
  committee : Store Accounts;
}.
Arguments mkPrunable {C S}.
Arguments prunableSlotStore {C S}.
Arguments decidedUpgradeSignals {C S}.
Arguments poolRewards {C S}.
Arguments poolStats {C S}.
Arguments committee {C S}.

Section Methods.
Context {C S : Type} `{!DBCache C} `{KV : KVStore S} `{!Empty S} `{!SlotBytes} `{!TimeProvider} (FolderSize : option S -> option Z)
  (MaxCommittableAge : SlotIndex -> SlotIndex).
Implicit Types p : Prunable C S.

Definition with_slots b p : Prunable C S := mkPrunable b (decidedUpgradeSignals p) (poolRewards p) (poolStats p) (committee p).
Definition with_signals s p : Prunable C S := mkPrunable (prunableSlotStore p) s (poolRewards p) (poolStats p) (committee p).
Definition with_rewards s p : Prunable C S := mkPrunable (prunableSlotStore p) (decidedUpgradeSignals p) s (poolStats p) (committee p).
Definition with_stats s p : Prunable C S := mkPrunable (prunableSlotStore p) (decidedUpgradeSignals p) (poolRewards p) s (committee p).
Definition with_committee s p : Prunable C S := mkPrunable (prunableSlotStore p) (decidedUpgradeSignals p) (poolRewards p) (poolStats p) s.

Definition New (disk : gmap EpochIndex S) : Prunable C S :=
  mkPrunable (BucketManager.NewBucketManager disk) (NewStore ∅ None pruningDelayDecidedUpgradeSignals) (NewEpochKVStore ∅ None pruningDelayPoolRewards)
     (NewStore ∅ None pruningDelayPoolStats) (NewStore ∅ None pruningDelayCommittee).

(** ** The stores of a slot (prunable_slot.go) *)
Definition zoom_slots {A} (m : sprog (BucketManager.BucketManager C S) StorageError A) : sprog (Prunable C S) StorageError A := fun p =>
  let '(r, b) := m (prunableSlotStore p) in (r, with_slots b p).

Definition slot_realm (slot : SlotIndex) (prefix : byte) : bytes := slot_bytes slot ++ [prefix].
Definition getKVStoreFromSlot (slot : SlotIndex) (prefix : byte) : sprog (Prunable C S) StorageError BucketManager.handle :=
  zoom_slots (BucketManager.Get FolderSize (EpochFromSlot slot) (slot_realm slot prefix)).

Definition Blocks (slot : SlotIndex) := getKVStoreFromSlot slot slotPrefixBlocks.
Definition RootBlocks (slot : SlotIndex) := getKVStoreFromSlot slot slotPrefixRootBlocks.
Definition Mutations (slot : SlotIndex) := getKVStoreFromSlot slot slotPrefixMutations.
Definition Attestations (slot : SlotIndex) := getKVStoreFromSlot slot slotPrefixAttestations.
Definition AccountDiffs (slot : SlotIndex) := getKVStoreFromSlot slot slotPrefixAccountDiffs.
Definition ValidatorPerformances (slot : SlotIndex) := getKVStoreFromSlot slot slotPrefixPerformanceFactors.
Definition UpgradeSignals (slot : SlotIndex) := getKVStoreFromSlot slot slotPrefixUpgradeSignals.
Definition Roots (slot : SlotIndex) := getKVStoreFromSlot slot slotPrefixRoots.
Definition Retainer (slot : SlotIndex) := getKVStoreFromSlot slot slotPrefixRetainer.

(** ** Restart, pruning and rollback (prunable.go) *)
Definition RewardsForEpoch (epoch : EpochIndex) p : result StorageError S := GetEpoch epoch (poolRewards p).

Definition RestoreFromDisk p : EpochIndex * Prunable C S :=
  let '(last, b) := BucketManager.bm_RestoreFromDisk FolderSize (prunableSlotStore p) in
  (last, mkPrunable b (RestoreLastPrunedEpoch (decidedUpgradeSignals p)) (kv_RestoreLastPrunedEpoch (poolRewards p))
           (RestoreLastPrunedEpoch (poolStats p)) (RestoreLastPrunedEpoch (committee p))).

Definition Prune (epoch defaultPruningDelay : EpochIndex) : sprog (Prunable C S) StorageError unit :=
  _ ← zoom_slots (BucketManager.bm_Prune FolderSize epoch);
  _ ← s_update (fun p => with_signals (EpochStore.Prune epoch defaultPruningDelay (decidedUpgradeSignals p)) p);
  _ ← s_update (fun p => with_rewards (kv_Prune epoch defaultPruningDelay (poolRewards p)) p);
  _ ← s_update (fun p => with_stats (EpochStore.Prune epoch defaultPruningDelay (poolStats p)) p);
  s_update (fun p => with_committee (EpochStore.Prune epoch defaultPruningDelay (committee p)) p).

Definition shouldRollbackCommittee (epoch : EpochIndex) (targetSlot : SlotIndex) p : result StorageError bool :=
  let targetSlotEpoch := EpochFromSlot targetSlot in
  let pointOfNoReturn := u32 (EpochEnd targetSlotEpoch - MaxCommittableAge targetSlot) in
  if u32 (targetSlotEpoch + 1) <=? epoch then
    if targetSlot <? pointOfNoReturn then
      c ← Load (u32 (targetSlotEpoch + 1)) (committee p);
      match c with None => mret false | Some c => mret (IsReused c) end
    else mret false
  else mret true.

(** The entries of an epoch that was not committed. *)
Definition delete_epoch (epoch : EpochIndex) p : Prunable C S :=
  mkPrunable (prunableSlotStore p) (DeleteEpoch epoch (decidedUpgradeSignals p)) (kv_DeleteEpoch epoch (poolRewards p))
     (DeleteEpoch epoch (poolStats p)) (committee p).

(** The loop ends at the first epoch after the target that has no bucket; fuel bounds its rounds. *)
Fixpoint rollback_loop (fuel : nat) (epoch targetSlotEpoch : EpochIndex) (targetSlot : SlotIndex) p : outcome (result StorageError unit * Prunable C S) :=
  match fuel with
  | O => OutOfFuel
  | Datatypes.S fuel =>
      if targetSlotEpoch <? epoch then
        match shouldRollbackCommittee epoch targetSlot p with
        | Err e => Ret (Err e, p)
        | Ok shouldRollback =>
            let p := if shouldRollback : bool then with_committee (DeleteEpoch epoch (committee p)) p else p in
            let '(deleted, b) := BucketManager.DeleteBucket FolderSize epoch (prunableSlotStore p) in
            let p := with_slots b p in
            if negb deleted then Ret (Ok tt, p)
            else rollback_loop fuel (u32 (epoch + 1)) targetSlotEpoch targetSlot (delete_epoch epoch p)
        end
      else rollback_loop fuel (u32 (epoch + 1)) targetSlotEpoch targetSlot (delete_epoch epoch p)
  end.

(** Every round but two deletes a bucket. *)
Definition rollback_fuel p : nat := size (BucketManager.disk (prunableSlotStore p)) + 3.

Definition lastCommittedEpoch (targetSlot : SlotIndex) : EpochIndex :=
  let targetSlotEpoch := EpochFromSlot targetSlot in
  if EpochEnd targetSlotEpoch =? targetSlot then targetSlotEpoch else u32 (targetSlotEpoch - 1).

Definition Rollback (targetSlot : SlotIndex) p : outcome (result StorageError unit * Prunable C S) :=
  let targetSlotEpoch := EpochFromSlot targetSlot in
  let b := BucketManager.RollbackBucket FolderSize targetSlotEpoch targetSlot (EpochEnd targetSlotEpoch) (prunableSlotStore p) in
  let b := BucketManager.Shutdown FolderSize b in
  let p := with_slots b p in
  rollback_loop (rollback_fuel p) (u32 (lastCommittedEpoch targetSlot + 1)) targetSlotEpoch targetSlot p.
End Methods.
End Prunable.
