(* ===== verification/PrunableProps.v ===== *)
(** * Rolling back and pruning the prunable storage

    What the storage answers is stated per slot: [slot_get] reads a key of the
    store with a given prefix of a slot, as the clients of [getKVStoreFromSlot] do. *)
From Stdlib Require Import Strings.Byte.
From S2P Require Import Prelude Bytes KvStore Block TimeApi EpochStore CoreAccount Accounts Prunable.
Import CoreAccount Prunable.

Class EmptyStore (S : Type) `{KVStore S} `{!Empty S} : Prop := { kv_get_empty k : kv_get (∅ : S) k = None }.

(** The first epoch after [t] without an entry. *)
Lemma first_missing {A} (m : gmap Z A) t :
  exists n, t < n /\ m !! n = None /\ (forall e, t < e < n -> is_Some (m !! e)) /\ (Z.to_nat (n - t - 1) <= size m)%nat.
Proof.
  remember (size m) as k eqn:Hk. revert m t Hk. induction k as [|k IH]; intros m t Hk.
  - symmetry in Hk. apply map_size_empty_iff in Hk as ->. exists (t + 1). split; [lia|]. split; [apply lookup_empty|]. split; [lia|]. lia.
  - destruct (m !! (t + 1)) as [v|] eqn:E.
    + destruct (IH (delete (t + 1) m) (t + 1)) as (n & Hn & Hm & Hc & Hs); [rewrite map_size_delete_Some by done; lia|].
      exists n. rewrite lookup_delete_ne in Hm by lia. split; [lia|]. split; [done|]. split; [|lia].
      intros e He. destruct (decide (e = t + 1)) as [->|Hne]; [done|]. specialize (Hc e). rewrite lookup_delete_ne in Hc by lia. apply Hc. lia.
    + exists (t + 1). split; [lia|]. split; [done|]. split; [lia|]. lia.
Qed.

Section Slots.
Context {C S : Type} `{!DBCache C} `{KVS : KVStoreSpec S} `{!Empty S} `{!EmptyStore S} `{BS : SlotBytesSpec} `{TS : TimeProviderSpec}
  (FolderSize : option S -> option Z) (MaxCommittableAge : SlotIndex -> SlotIndex).
Implicit Types (b : BucketManager.BucketManager C S) (p : Prunable.Prunable C S).

(** A key of the bucket of an epoch. *)
Definition bucket_get (e : EpochIndex) (k : bytes) b : option bytes := s ← BucketManager.disk b !! e; kv_get s k.
(** A key of a store of a slot. *)
Definition slot_get (slot : SlotIndex) (prefix : byte) (k : bytes) p : option bytes :=
  bucket_get (EpochFromSlot slot) (slot_realm slot prefix ++ k) (prunableSlotStore p).

(** ** What does not change the contents *)
Lemma on_evict_fields l b :
  BucketManager.disk (BucketManager.on_evict FolderSize l b) = BucketManager.disk b
  /\ BucketManager.lastPrunedEpoch (BucketManager.on_evict FolderSize l b) = BucketManager.lastPrunedEpoch b.
Proof. unfold BucketManager.on_evict. induction l as [|e l IH] using rev_ind; [done|]. rewrite foldl_app. cbn. apply IH. Qed.

Lemma Shutdown_disk b : BucketManager.disk (BucketManager.Shutdown FolderSize b) = BucketManager.disk b.
Proof.
  unfold BucketManager.Shutdown. generalize (dbc_each (BucketManager.openDBs b)). intros l. induction l as [|e l IH] using rev_ind; [done|].
  rewrite foldl_app. cbn [foldl]. destruct (dbc_remove _ _) as [ev c]. rewrite (proj1 (on_evict_fields _ _)). exact IH.
Qed.

Lemma getDBInstance_disk e b :
  BucketManager.disk (BucketManager.getDBInstance FolderSize e b) = BucketManager.disk b
  \/ BucketManager.disk (BucketManager.getDBInstance FolderSize e b) = <[e := default ∅ (BucketManager.disk b !! e)]> (BucketManager.disk b).
Proof.
  unfold BucketManager.getDBInstance. destruct (dbc_get e _) as [[] c]; [by left|]. destruct (dbc_put e c) as [ev c']. right.
  by rewrite (proj1 (on_evict_fields _ _)).
Qed.

Lemma getDBInstance_get e b e' k : bucket_get e' k (BucketManager.getDBInstance FolderSize e b) = bucket_get e' k b.
Proof.
  unfold bucket_get. destruct (getDBInstance_disk e b) as [->| ->]; [done|]. rewrite lookup_insert. case_decide; [|done]. subst.
  destruct (BucketManager.disk b !! e'); cbn; [done|]. apply kv_get_empty.
Qed.

Lemma DeleteBucket_disk e b :
  let '(deleted, b') := BucketManager.DeleteBucket FolderSize e b in
  deleted = bool_decide (is_Some (BucketManager.disk b !! e)) /\ BucketManager.disk b' = delete e (BucketManager.disk b)
  /\ BucketManager.lastPrunedEpoch b' = BucketManager.lastPrunedEpoch b.
Proof.
  unfold BucketManager.DeleteBucket. destruct (BucketManager.disk b !! e) as [s|] eqn:E.
  - destruct (dbc_get e _) as [[] c]; cbn; [|done].
    destruct (dbc_remove e c) as [ev c']. cbn. rewrite (proj1 (on_evict_fields _ _)), (proj2 (on_evict_fields _ _)). done.
  - rewrite bool_decide_false by (by intros []). by rewrite delete_id.
Qed.

(** ** Clearing slots *)
Lemma delete_prefixes (slots : list SlotIndex) (s : S) k :
  kv_get (foldl (fun s slot => kv_delete_prefix (slot_bytes slot) s) s slots) k
  = if decide (Exists (fun slot => slot_bytes slot `prefix_of` k) slots) then None else kv_get s k.
Proof.
  induction slots as [|x l IH] in s |- *; [by rewrite decide_False by (by intros ?%Exists_nil)|]. cbn [foldl]. rewrite IH, kv_get_delete_prefix.
  repeat case_decide; try done; rewrite Exists_cons in *; tauto.
Qed.

Lemma slot_prefix s slot prefix k :
  in_range Uint32 s -> in_range Uint32 slot -> slot_bytes s `prefix_of` slot_realm slot prefix ++ k <-> s = slot.
Proof.
  intros Hs Hslot. unfold slot_realm. rewrite <- app_assoc. split.
  - intros [r Hr]. apply slot_bytes_inj; [done..|]. apply app_inj_1 in Hr as [Hr _]; [done|]. by rewrite !slot_bytes_length.
  - intros ->. by eexists.
Qed.

Lemma elem_clear_slots target end_ s :
  in_range Uint32 target -> target < 2 ^ 32 - 1 -> s ∈ BucketManager.clear_slots target end_ <-> target < s <= end_.
Proof. intros Ht Hm. unfold BucketManager.clear_slots. rewrite elem_of_seqZ, wrap_id by (unfold in_range in *; cbn in *; lia). lia. Qed.

Lemma RollbackBucket_get e target end_ b e' slot prefix k :
  in_range Uint32 target -> target < 2 ^ 32 - 1 -> in_range Uint32 end_ -> in_range Uint32 slot ->
  bucket_get e' (slot_realm slot prefix ++ k) (BucketManager.RollbackBucket FolderSize e target end_ b)
  = if decide (e' = e /\ target < slot <= end_) then None else bucket_get e' (slot_realm slot prefix ++ k) b.
Proof.
  intros Ht Hm Hend Hslot. rewrite <- (getDBInstance_get e b e'). unfold BucketManager.RollbackBucket.
  generalize (BucketManager.getDBInstance FolderSize e b). intros b'. unfold bucket_get at 1. cbn [BucketManager.disk BucketManager.with_disk].
  rewrite lookup_insert. destruct (decide (e = e')) as [<-|Hne]; [|by rewrite decide_False by naive_solver]. cbn [mbind option_bind].
  rewrite delete_prefixes. assert (Hiff : Exists (fun s => slot_bytes s `prefix_of` slot_realm slot prefix ++ k) (BucketManager.clear_slots target end_) <-> target < slot <= end_).
  { rewrite Exists_exists, <- elem_clear_slots by done. split; [|intros Hin; exists slot; by rewrite slot_prefix].
    intros (s & Hin & Hp). pose proof Hin as Hr. rewrite elem_clear_slots in Hr by done. apply slot_prefix in Hp as ->; [done| |done].
    unfold in_range in *. cbn in *. lia. }
  case_decide; case_decide; try tauto. unfold bucket_get. destruct (BucketManager.disk b' !! e); cbn; [done|]. apply kv_get_empty.
Qed.

Lemma RollbackBucket_disk e target end_ b e' :
  e' <> e -> BucketManager.disk (BucketManager.RollbackBucket FolderSize e target end_ b) !! e' = BucketManager.disk b !! e'.
Proof.
  intros Hne. unfold BucketManager.RollbackBucket. cbn. rewrite lookup_insert_ne by done.
  destruct (getDBInstance_disk e b) as [->| ->]; [done|]. by rewrite lookup_insert_ne.
Qed.

(** ** The rollback loop *)
Section Loop.
Context (te : EpochIndex) (target : SlotIndex) (Hte : te = EpochFromSlot target) (Hnext : 0 <= te /\ te + 1 < 2 ^ 32).

(** Whether the committee of the next epoch is rolled back: the same for every epoch after the target's. *)
Definition rolls_back p : result StorageError bool := shouldRollbackCommittee MaxCommittableAge (te + 1) target p.

Lemma should_after e p : te < e -> shouldRollbackCommittee MaxCommittableAge e target p = rolls_back p.
Proof.
  intros He. unfold rolls_back, shouldRollbackCommittee. rewrite <- Hte, (wrap_id Uint32 (te + 1)) by (unfold in_range; cbn; lia).
  repeat case_match; try done; lia.
Qed.

Lemma rolls_back_ext p p' : committee p = committee p' -> rolls_back p = rolls_back p'.
Proof. intros E. unfold rolls_back, shouldRollbackCommittee. by rewrite E. Qed.

(** The entries of the epochs from [from] up to the first one without a bucket. *)
Definition dropped {V} (from n : EpochIndex) (m m' : gmap EpochIndex V) : Prop :=
  forall e, m' !! e = if decide (from <= e < n) then None else m !! e.

Lemma dropped_step {V} from n (m m' : gmap EpochIndex V) : from < n -> dropped (from + 1) n (delete from m) m' -> dropped from n m m'.
Proof.
  intros Hn Hd e. rewrite Hd. destruct (decide (e = from)) as [->|Hne].
  - rewrite lookup_delete_eq, (decide_True (P:=from <= from < n)) by lia. by case_decide.
  - rewrite lookup_delete_ne by done. repeat case_decide; done || lia.
Qed.
Lemma dropped_none {V} n (m : gmap EpochIndex V) : dropped n n m m.
Proof. intros e. by rewrite decide_False by lia. Qed.

Record rolled (from n : EpochIndex) p p' : Prop := {
  rolled_buckets : dropped (Z.max from (te + 1)) n (BucketManager.disk (prunableSlotStore p)) (BucketManager.disk (prunableSlotStore p'));
  rolled_rewards : dropped from n (kv (poolRewards p)) (kv (poolRewards p'));
  rolled_stats : dropped from n (kv (poolStats p)) (kv (poolStats p'));
  rolled_signals : dropped from n (kv (decidedUpgradeSignals p)) (kv (decidedUpgradeSignals p'));
}.

(** From an epoch after the target's, once the committee is settled. *)
Lemma rollback_loop_settled n p fuel e :
  te < e <= n -> n < 2 ^ 32 -> rolls_back p = Ok false ->
  (forall e', e <= e' < n -> is_Some (BucketManager.disk (prunableSlotStore p) !! e')) -> BucketManager.disk (prunableSlotStore p) !! n = None ->
  (Z.to_nat (n - e) < fuel)%nat ->
  exists p', rollback_loop FolderSize MaxCommittableAge fuel e te target p = Ret (Ok tt, p') /\ rolled e n p p' /\ committee p' = committee p.
Proof.
  intros He Hn. revert p e He. induction fuel as [|fuel IH]; intros p e He Hs Hc Hnone Hf; [lia|]. cbn [rollback_loop].
  case_match eqn:E; [|lia]. rewrite should_after, Hs by lia. cbn zeta iota beta.
  pose proof (DeleteBucket_disk e (prunableSlotStore p)) as Hd. destruct (BucketManager.DeleteBucket FolderSize e (prunableSlotStore p)) as [deleted b'].
  destruct Hd as (-> & Hdisk & _). destruct (decide (e = n)) as [->|Hne].
  - rewrite bool_decide_false by (rewrite Hnone; by intros []). cbn. eexists. split; [done|]. split; [|done].
    rewrite delete_id in Hdisk by done. split; cbn; rewrite ?Hdisk, ?(Z.max_l n (te + 1)) by lia; apply dropped_none.
  - rewrite bool_decide_true by (apply Hc; lia). cbn [negb].
    rewrite (wrap_id Uint32 (e + 1)) by (unfold in_range; cbn; lia).
    destruct (IH (delete_epoch e (with_slots b' p)) (e + 1)) as (p' & Hr & [H1 H2 H3 H4] & Hcm); [lia|done| | |lia|].
    + intros e' He'. cbn. rewrite Hdisk, lookup_delete_ne by lia. apply Hc. lia.
    + cbn. rewrite Hdisk, lookup_delete_ne by lia. done.
    + exists p'. split; [done|]. split; [|done]. cbn in *. rewrite Hdisk in H1. rewrite Z.max_l in H1 by lia.
      split; [rewrite Z.max_l by lia|..]; (apply dropped_step; [lia|done]).
Qed.

(** From the first epoch after the target's: the committee of that epoch goes if it is reused. *)
Lemma rollback_loop_next n p fuel r :
  te < n < 2 ^ 32 -> rolls_back p = Ok r ->
  (forall e', te < e' < n -> is_Some (BucketManager.disk (prunableSlotStore p) !! e')) -> BucketManager.disk (prunableSlotStore p) !! n = None ->
  (Z.to_nat (n - (te + 1)) < fuel)%nat ->
  exists p', rollback_loop FolderSize MaxCommittableAge fuel (te + 1) te target p = Ret (Ok tt, p') /\ rolled (te + 1) n p p'
    /\ committee p' = if r then DeleteEpoch (te + 1) (committee p) else committee p.
Proof.
  intros Hn Hr Hc Hnone Hf. destruct r; [|apply rollback_loop_settled; try done; try lia; intros; apply Hc; lia].
  set (q := with_committee (DeleteEpoch (te + 1) (committee p)) p).
  assert (Hq : rolls_back q = Ok false).
  { unfold rolls_back, shouldRollbackCommittee in Hr |- *. rewrite <- Hte, (wrap_id Uint32 (te + 1)) in * by (unfold in_range; cbn; lia).
    rewrite Z.leb_refl in *. destruct (target <? _); [|done]. unfold Load in *. cbn [committee q with_committee].
    change (isTooOld (te + 1) (DeleteEpoch (te + 1) (committee p))) with (isTooOld (te + 1) (committee p)).
    destruct (isTooOld _ _); [done|]. cbn. by rewrite lookup_delete_eq. }
  destruct (rollback_loop_settled n q fuel (te + 1)) as (p' & Hl & Hrolled & Hcm); try done; [lia|lia|intros; apply Hc; lia|].
  exists p'. split; [|split; [by destruct Hrolled|done]]. rewrite <- Hl. destruct fuel; [done|]. cbn [rollback_loop]. case_match eqn:E; [|lia].
  rewrite !should_after, Hr, Hq by lia. done.
Qed.

(** From the target's epoch, whose rewards, stats and signals were not committed. *)
Lemma rollback_loop_current n p fuel r :
  te < n < 2 ^ 32 -> rolls_back p = Ok r ->
  (forall e', te < e' < n -> is_Some (BucketManager.disk (prunableSlotStore p) !! e')) -> BucketManager.disk (prunableSlotStore p) !! n = None ->
  (Z.to_nat (n - te) < fuel)%nat ->
  exists p', rollback_loop FolderSize MaxCommittableAge fuel te te target p = Ret (Ok tt, p') /\ rolled te n p p'
    /\ committee p' = if r then DeleteEpoch (te + 1) (committee p) else committee p.
Proof.
  intros Hn Hr Hc Hnone Hf. destruct fuel as [|fuel]; [lia|]. cbn [rollback_loop]. case_match eqn:E; [lia|].
  rewrite (wrap_id Uint32 (te + 1)) by (unfold in_range; cbn; lia).
  destruct (rollback_loop_next n (delete_epoch te p) fuel r) as (p' & Hl & [H1 H2 H3 H4] & Hcm); try done; [lia|].
  exists p'. split; [done|]. split; [|done]. cbn in *. rewrite Z.max_r in H1 by lia. split; [by rewrite Z.max_r by lia|..]; (apply dropped_step; [lia|done]).
Qed.
End Loop.

(** ** Rollback *)

(** The last epoch that is complete at a slot. *)
Definition complete_epoch (target : SlotIndex) : EpochIndex :=
  if EpochEnd (EpochFromSlot target) =? target then EpochFromSlot target else EpochFromSlot target - 1.
(** The next epoch reuses the committee, and the target is before the point of no return. *)
Definition next_reused (target : SlotIndex) p : bool :=
  (target <? u32 (EpochEnd (EpochFromSlot target) - MaxCommittableAge target))
  && match kv (committee p) !! (EpochFromSlot target + 1) with Some c => IsReused c | None => false end.

Lemma first_epoch target : in_range Uint32 target -> epoch_ok (EpochFromSlot target + 1) -> u32 (lastCommittedEpoch target + 1) = complete_epoch target + 1.
Proof.
  intros Ht Hn. pose proof (epoch_ok_range _ Hn) as Hr. destruct (EpochFromSlot_ok target Ht) as [H0 _].
  unfold lastCommittedEpoch, complete_epoch. set (te := EpochFromSlot target) in *. unfold in_range in Hr. cbn in Hr.
  case_match; [apply wrap_id; unfold in_range; cbn; lia|]. destruct (decide (te = 0)) as [->|?]; [done|].
  rewrite (wrap_id Uint32 (te - 1)) by (unfold in_range; cbn; lia). apply wrap_id. unfold in_range. cbn. lia.
Qed.

Lemma rolls_back_reused target p : epoch_ok (EpochFromSlot target + 1) ->
  isTooOld (EpochFromSlot target + 1) (committee p) = false -> rolls_back (EpochFromSlot target) target p = Ok (next_reused target p).
Proof.
  intros Hn%epoch_ok_range Hold. unfold rolls_back, shouldRollbackCommittee, next_reused. rewrite (wrap_id Uint32 (EpochFromSlot target + 1)) by done.
  rewrite Z.leb_refl. destruct (target <? _); [|done]. unfold Load. rewrite Hold. cbn. by destruct (kv (committee p) !! _).
Qed.

Lemma target_bound target : in_range Uint32 target -> epoch_ok (EpochFromSlot target + 1) -> target < 2 ^ 32 - 1.
Proof.
  intros Ht [_ Hn]. pose proof EpochDurationSlots_pos. pose proof (proj1 (EpochFromSlot_iff target _ Ht (EpochFromSlot_ok target Ht)) eq_refl) as [_ He].
  rewrite EpochEnd_eq in He by by apply EpochFromSlot_ok. nia.
Qed.

(** The loop, from wherever it starts. *)
Lemma Rollback_loop target p (r : bool) (te := EpochFromSlot target) :
  in_range Uint32 target -> epoch_ok (te + 1) -> rolls_back te target p = Ok r ->
  map_Forall (fun e _ => e = te \/ 0 <= e < 2 ^ 32 - 1) (BucketManager.disk (prunableSlotStore p)) ->
  exists n p', rollback_loop FolderSize MaxCommittableAge (rollback_fuel p) (u32 (lastCommittedEpoch target + 1)) te target p = Ret (Ok tt, p')
    /\ te < n /\ (forall e, te < e < n -> is_Some (BucketManager.disk (prunableSlotStore p) !! e)) /\ BucketManager.disk (prunableSlotStore p) !! n = None
    /\ rolled te (complete_epoch target + 1) n p p' /\ committee p' = if r then DeleteEpoch (te + 1) (committee p) else committee p.
Proof.
  intros Ht Hn Hr Hd. destruct (first_missing (BucketManager.disk (prunableSlotStore p)) te) as (n & Hlt & Hnone & Hc & Hs).
  pose proof (epoch_ok_range _ Hn) as Hr32. destruct (EpochFromSlot_ok target Ht) as [H0 _]. fold te in H0. unfold in_range in Hr32. cbn in Hr32.
  assert (Hn32 : n < 2 ^ 32).
  { destruct (decide (n = te + 1)) as [->|?]; [lia|]. destruct (Hc (n - 1)) as [s Es]; [lia|]. apply Hd in Es. lia. }
  exists n. rewrite first_epoch by done. unfold complete_epoch, rollback_fuel. fold te. case_match.
  - edestruct (rollback_loop_next te target eq_refl) as (p' & Hx1 & Hx2 & Hx3); [lia|split; [|exact Hn32]; exact Hlt|exact Hr|exact Hc|exact Hnone| |]; cycle 1.
    + exists p'. by split_and!.
    + lia.
  - replace (te - 1 + 1) with te by lia.
    edestruct (rollback_loop_current te target eq_refl) as (p' & Hx1 & Hx2 & Hx3); [lia|split; [|exact Hn32]; exact Hlt|exact Hr|exact Hc|exact Hnone| |]; cycle 1.
    + exists p'. by split_and!.
    + lia.
Qed.

(** What a rollback does to all stores. *)
Lemma Rollback_effect target p
  (Ht : in_range Uint32 target) (Hn : epoch_ok (EpochFromSlot target + 1))
  (Hc : isTooOld (EpochFromSlot target + 1) (committee p) = false)
  (Hd : map_Forall (fun e _ => 0 <= e < 2 ^ 32 - 1) (BucketManager.disk (prunableSlotStore p))) :
  exists n p', Prunable.Rollback FolderSize MaxCommittableAge target p = Ret (Ok tt, p')
    /\ EpochFromSlot target < n /\ (forall e, EpochFromSlot target < e < n -> is_Some (BucketManager.disk (prunableSlotStore p) !! e))
    /\ BucketManager.disk (prunableSlotStore p) !! n = None
    /\ (forall slot prefix k, in_range Uint32 slot ->
          slot_get slot prefix k p' = if decide (target < slot /\ EpochFromSlot slot < n) then None else slot_get slot prefix k p)
    /\ dropped (complete_epoch target + 1) n (kv (poolRewards p)) (kv (poolRewards p'))
    /\ dropped (complete_epoch target + 1) n (kv (poolStats p)) (kv (poolStats p'))
    /\ dropped (complete_epoch target + 1) n (kv (decidedUpgradeSignals p)) (kv (decidedUpgradeSignals p'))
    /\ kv (committee p') = if next_reused target p then delete (EpochFromSlot target + 1) (kv (committee p)) else kv (committee p).
Proof.
  unfold Prunable.Rollback.
  set (b := BucketManager.Shutdown FolderSize _). pose proof (target_bound target Ht Hn) as Hmax.
  assert (Hte : epoch_ok (EpochFromSlot target)) by by apply EpochFromSlot_ok.
  assert (Hb : forall e, e <> (EpochFromSlot target) -> BucketManager.disk b !! e = BucketManager.disk (prunableSlotStore p) !! e).
  { intros e He. unfold b. by rewrite Shutdown_disk, RollbackBucket_disk. }
  edestruct (Rollback_loop target (with_slots b p) (next_reused target p)) as (n & p' & Hl & Hlt & Hp & Hnone & [Hx1 Hx2 Hx3 Hx4] & Hcm); [done..| | |].
  { rewrite (rolls_back_ext _ _ _ p) by done. by apply rolls_back_reused. }
  { intros e s Hs. cbn in Hs. destruct (decide (e = (EpochFromSlot target))); [by left|]. right. rewrite Hb in Hs by done. by apply Hd in Hs. }
  exists n, p'. split; [exact Hl|]. split; [done|]. cbn in Hp, Hnone, Hx1, Hx2, Hx3, Hx4. split_and!; try done.
  - intros e He. rewrite <- Hb by lia. by apply Hp.
  - rewrite <- Hb by lia. done.
  - intros slot prefix k Hslot. unfold slot_get, bucket_get. rewrite Hx1.
    assert (Hmx : Z.max (complete_epoch target + 1) ((EpochFromSlot target) + 1) = (EpochFromSlot target) + 1) by (unfold complete_epoch; destruct (_ =? _); lia). rewrite Hmx.
    pose proof (EpochFromSlot_mono target slot Ht Hslot) as Hm1.  pose proof (EpochFromSlot_mono slot target Hslot Ht) as Hm2.
    destruct (decide ((EpochFromSlot target) + 1 <= EpochFromSlot slot < n)) as [Hin|Hout].
    { rewrite decide_True; [done|]. destruct (decide (slot <= target)) as [Hle|]; [apply Hm2 in Hle|]; lia. }
    pose proof (RollbackBucket_get (EpochFromSlot target) target (EpochEnd (EpochFromSlot target)) (prunableSlotStore p) (EpochFromSlot slot) slot prefix k Ht Hmax) as Hg.
    unfold bucket_get in Hg. unfold b. rewrite Shutdown_disk, Hg; [|rewrite EpochEnd_spec by (by apply epoch_ok_range); apply wrap_in_range|done].
    pose proof (EpochFromSlot_iff slot (EpochFromSlot target) Hslot Hte) as Hiff. case_decide as Ha; case_decide as Hb'; try done; exfalso.
    + apply Hb'. split; [lia|]. destruct Ha as [-> _]. lia.
    + apply Ha. assert (Heq : EpochFromSlot slot = (EpochFromSlot target)) by (destruct Hb' as [Hs ?]; apply Z.lt_le_incl, Hm1 in Hs; lia). split; [done|]. apply Hiff in Heq. lia.
  - rewrite Hcm. by destruct (next_reused target p).
Qed.

(** C30 Rolling the prunable storage back to a slot terminates and is exact.  There is a first epoch [n] after the target's
    that has no bucket; every store of every slot after the target and before [n] is
    empty, all other slots keep what they hold; the pool rewards, pool stats and upgrade
    signals of the epochs after the last complete one are gone up to [n] and the
    others are kept; the committee of the next epoch is removed exactly when the target is before the point of no return of its epoch and
    that committee is a reused one, and the committees of the epochs up to the target's are kept. *)
Theorem prunable_rollback_exact target p
  (Ht : in_range Uint32 target) (Hn : epoch_ok (EpochFromSlot target + 1))
  (Hc : isTooOld (EpochFromSlot target + 1) (committee p) = false)
  (Hd : map_Forall (fun e _ => 0 <= e < 2 ^ 32 - 1) (BucketManager.disk (prunableSlotStore p))) :
  exists n p', Prunable.Rollback FolderSize MaxCommittableAge target p = Ret (Ok tt, p')
    /\ EpochFromSlot target < n /\ (forall e, EpochFromSlot target < e < n -> is_Some (BucketManager.disk (prunableSlotStore p) !! e))
    /\ BucketManager.disk (prunableSlotStore p) !! n = None
    /\ (forall slot prefix k, in_range Uint32 slot ->
          slot_get slot prefix k p' = if decide (target < slot /\ EpochFromSlot slot < n) then None else slot_get slot prefix k p)
    /\ dropped (complete_epoch target + 1) n (kv (poolRewards p)) (kv (poolRewards p'))
    /\ dropped (complete_epoch target + 1) n (kv (poolStats p)) (kv (poolStats p'))
    /\ dropped (complete_epoch target + 1) n (kv (decidedUpgradeSignals p)) (kv (decidedUpgradeSignals p'))
    /\ kv (committee p') !! (EpochFromSlot target + 1) = (if next_reused target p then None else kv (committee p) !! (EpochFromSlot target + 1))
    /\ (forall e, e <= EpochFromSlot target -> kv (committee p') !! e = kv (committee p) !! e).
Proof.
  destruct (Rollback_effect target p Ht Hn Hc Hd) as (n & p' & H1 & H2 & H3 & H4 & H5 & H6 & H7 & H8 & H9). exists n, p'. rewrite H9. split_and!; try done.
  - destruct (next_reused target p); [by rewrite lookup_delete_eq|done].
  - intros e He. destruct (next_reused target p); [by rewrite lookup_delete_ne by lia|done].
Qed.
(** The committees of epochs after the next one stay, although the comment of shouldRollbackCommittee says that they are always removed. *)
Lemma later_committees_kept target p : in_range Uint32 target -> epoch_ok (EpochFromSlot target + 1) -> isTooOld (EpochFromSlot target + 1) (committee p) = false ->
  map_Forall (fun e _ => 0 <= e < 2 ^ 32 - 1) (BucketManager.disk (prunableSlotStore p)) ->
  exists p', Prunable.Rollback FolderSize MaxCommittableAge target p = Ret (Ok tt, p') /\ forall e, EpochFromSlot target + 1 < e -> kv (committee p') !! e = kv (committee p) !! e.
Proof.
  intros Ht Hn Hc Hd. destruct (Rollback_effect target p Ht Hn Hc Hd) as (n & p' & H1 & _ & _ & _ & _ & _ & _ & _ & H9). exists p'. split; [done|]. rewrite H9. intros e He. destruct (next_reused target p); [by rewrite lookup_delete_ne by lia|done].
Qed.
End Slots.
