(* ===== verification/AccountBytes.v ===== *)
(** * The bytes of accounts and account diffs

    [AccountData.Bytes] and [readFromReadSeeker] (engine/accounts/accounts.go),
    [BlockIssuanceCredits] (credits.go), [VersionAndHash] and [AccountDiff] (pkg/model).

    An integer stands for a byte array: the array is its little-endian
    representation, and its length is a parameter ([AccountLayout]).  From iota.go also
    come the tag and the bytes of a block issuer key, the order of the keys of an
    account, and the serix encoding of a set of keys. *)
From Stdlib Require Import Strings.Byte.
From S2P Require Import Prelude Bytes Block Accounts.

Class AccountLayout := {
  AccountIDLength : nat;
  OutputIDLength : nat;
  PublicKeyLength : nat;                            (* ed25519.PublicKey *)
  ImplicitAddressLength : nat;                      (* iotago.ImplicitAccountCreationAddress *)
  VersionLength : nat;
  IdentifierLength : nat;
  BlockIssuerKeyEd25519PublicKey : Z;               (* the key types *)
  BlockIssuerKeyPublicKeyHash : Z;
  key_Bytes : BlockIssuerKey -> bytes;              (* BlockIssuerKey.Bytes *)
  keys_range : gset BlockIssuerKey -> list BlockIssuerKey;   (* the slice of the keys *)
  keys_Encode : gset BlockIssuerKey -> bytes;       (* serix *)
  keys_Decode : bytes -> option (gset BlockIssuerKey);
}.

(** An array of [n] bytes. *)
Definition array_ok (n : nat) (z : Z) : Prop := 0 <= z < 256 ^ Z.of_nat n.
#[export] Instance array_ok_dec n z : Decision (array_ok n z).
Proof. unfold array_ok. apply _. Defined.

Class AccountLayoutSpec (A : AccountLayout) : Prop := {
  key_types : 0 <= BlockIssuerKeyEd25519PublicKey < 256 /\ 0 <= BlockIssuerKeyPublicKeyHash < 256
    /\ BlockIssuerKeyEd25519PublicKey <> BlockIssuerKeyPublicKeyHash;
  key_Bytes_spec k : key_Bytes k =
    match k with
    | Ed25519PublicKeyBlockIssuerKey x => put_le 1 BlockIssuerKeyEd25519PublicKey ++ put_le PublicKeyLength x
    | Ed25519PublicKeyHashBlockIssuerKey x => put_le 1 BlockIssuerKeyPublicKeyHash ++ put_le ImplicitAddressLength x
    end;
  keys_range_perm ks : keys_range ks ≡ₚ elements ks;
  keys_Decode_Encode ks : keys_Decode (keys_Encode ks) = Some ks;
}.

Section Codec.
Context `{MU : MarshalUtil} `{A : AccountLayout} `{SB : Stream}.

(** ** BlockIssuanceCredits *)
Definition credits_Bytes (c : BlockIssuanceCredits) : bytes := WriteInt64 (Value c) ++ WriteUint32 (UpdateTime c).
(** [lo.PanicOnErr]: too few bytes panic. *)
Definition credits_FromBytes (bs : bytes) : outcome (BlockIssuanceCredits * nat) :=
  '(c, rest) ← deref ((v ← ReadInt64; t ← ReadUint32; mret (mkCredits v t)) bs);
  Ret (c, (length bs - length rest)%nat).

(** ** VersionAndHash *)
Definition VersionAndHashSize : nat := IdentifierLength + VersionLength.
Definition version_Bytes (v : VersionAndHash) : bytes := put_le VersionLength (Version v) ++ put_le IdentifierLength (Hash v).
Definition version_reader : reader VersionAndHash :=
  v ← read_le VersionLength; h ← read_le IdentifierLength; mret (mkVersionAndHash v h).
Definition VersionAndHashFromBytes (bs : bytes) : option VersionAndHash := fst <$> version_reader bs.
(** The fixed-size field is read as a whole and then parsed. *)
Definition version_field : reader VersionAndHash :=
  bs ← read_bytes VersionAndHashSize; read_option (VersionAndHashFromBytes bs).

(** ** AccountData *)
Definition key_reader : reader BlockIssuerKey :=
  t ← read_le 1;
  if t =? BlockIssuerKeyEd25519PublicKey then x ← read_le PublicKeyLength; mret (Ed25519PublicKeyBlockIssuerKey x)
  else if t =? BlockIssuerKeyPublicKeyHash then x ← read_le ImplicitAddressLength; mret (Ed25519PublicKeyHashBlockIssuerKey x)
  else read_option None.
Definition key_size (k : BlockIssuerKey) : Z :=
  1 + Z.of_nat (match k with Ed25519PublicKeyBlockIssuerKey _ => PublicKeyLength | Ed25519PublicKeyHashBlockIssuerKey _ => ImplicitAddressLength end).

(** The account and the number of bytes consumed. *)
Definition account_readFromReadSeeker : reader (AccountData * Z) :=
  id ← read_le AccountIDLength;
  value ← read_i64;
  updateTime ← read_le 4;
  expirySlot ← read_le 4;
  outputID ← read_le OutputIDLength;
  blockIssuerKeyCount ← read_le 1;
  keys ← read_n (Z.to_nat blockIssuerKeyCount) key_reader;
  validatorStake ← read_le 8;
  delegationStake ← read_le 8;
  fixedCost ← read_le 8;
  stakeEndEpoch ← read_le 4;
  v ← version_field;
  mret (mkAccountData id (mkCredits value updateTime) expirySlot outputID (list_to_set keys) validatorStake delegationStake fixedCost stakeEndEpoch v,
        Z.of_nat AccountIDLength + 8 + 4 + 4 + Z.of_nat OutputIDLength + 1 + zsum key_size keys + 8 + 8 + 8 + 4 + Z.of_nat VersionAndHashSize).

Definition account_Bytes (a : AccountData) : bytes :=
  put_le AccountIDLength (AccID a) ++ credits_Bytes (Credits a) ++ WriteUint32 (ExpirySlot a)
  ++ put_le OutputIDLength (AccOutputID a) ++ WriteByte (Z.of_nat (size (BlockIssuerKeys a)) mod 256) ++ (keys_range (BlockIssuerKeys a) ≫= key_Bytes)
  ++ WriteUint64 (ValidatorStake a) ++ WriteUint64 (DelegationStake a) ++ WriteUint64 (FixedCost a) ++ WriteUint32 (StakeEndEpoch a)
  ++ version_Bytes (LatestSupportedProtocolVersionAndHash a).

(** ** AccountDiff *)
Definition writeBlockIssuerKeys (ks : gset BlockIssuerKey) : bytes := WriteUint64 (Z.of_nat (length (keys_Encode ks))) ++ keys_Encode ks.
Definition readBlockIssuerKeys : reader (gset BlockIssuerKey * Z) :=
  bs ← ReadBlob;
  ks ← read_option (keys_Decode bs);
  mret (ks, 8 + Z.of_nat (length bs)).

Definition diff_Bytes (d : AccountDiff) : bytes :=
  WriteInt64 (BICChange d) ++ WriteUint32 (PreviousUpdatedTime d) ++ WriteUint32 (NewExpirySlot d) ++ WriteUint32 (PreviousExpirySlot d)
  ++ put_le OutputIDLength (NewOutputID d) ++ put_le OutputIDLength (PreviousOutputID d)
  ++ writeBlockIssuerKeys (BlockIssuerKeysAdded d) ++ writeBlockIssuerKeys (BlockIssuerKeysRemoved d)
  ++ WriteInt64 (ValidatorStakeChange d) ++ WriteInt64 (DelegationStakeChange d) ++ WriteInt64 (FixedCostChange d)
  ++ WriteUint64 (u64 (StakeEndEpochChange d))
  ++ version_Bytes (NewLatestSupportedVersionAndHash d) ++ version_Bytes (PrevLatestSupportedVersionAndHash d).

(** The diff and the offset the method returns. *)
Definition diff_readFromReadSeeker : reader (AccountDiff * Z) :=
  bic ← read_i64;
  previousUpdatedTime ← read_le 4;
  newExpirySlot ← read_le 4;
  previousExpirySlot ← read_le 4;
  newOutputID ← read_le OutputIDLength;
  previousOutputID ← read_le OutputIDLength;
  '(keysAdded, n1) ← readBlockIssuerKeys;
  '(keysRemoved, n2) ← readBlockIssuerKeys;
  validatorStakeChange ← read_i64;
  delegationStakeChange ← read_i64;
  fixedCostChange ← read_i64;
  stakeEndEpochChange ← read_i64;
  new ← version_field;
  prev ← version_field;
  mret (mkAccountDiff bic previousUpdatedTime newExpirySlot previousExpirySlot newOutputID previousOutputID keysAdded keysRemoved
          validatorStakeChange delegationStakeChange stakeEndEpochChange fixedCostChange prev new,
        8 + 4 + 4 + 4 + Z.of_nat OutputIDLength + Z.of_nat OutputIDLength + n1 + n2 + 8 + 8 + 8 + 8 + Z.of_nat VersionAndHashSize + Z.of_nat VersionAndHashSize).

(** ** Well-formed values *)
Definition credits_ok (c : BlockIssuanceCredits) : Prop := in_range Int64 (Value c) /\ in_range Uint32 (UpdateTime c).
Definition version_ok (v : VersionAndHash) : Prop := array_ok VersionLength (Version v) /\ array_ok IdentifierLength (Hash v).
Definition key_ok (k : BlockIssuerKey) : Prop :=
  match k with
  | Ed25519PublicKeyBlockIssuerKey x => array_ok PublicKeyLength x
  | Ed25519PublicKeyHashBlockIssuerKey x => array_ok ImplicitAddressLength x
  end.
Definition account_data_ok (a : AccountData) : Prop :=
  array_ok AccountIDLength (AccID a) /\ credits_ok (Credits a) /\ in_range Uint32 (ExpirySlot a) /\ array_ok OutputIDLength (AccOutputID a)
  /\ Z.of_nat (size (BlockIssuerKeys a)) < 256 /\ set_Forall key_ok (BlockIssuerKeys a)
  /\ in_range Uint64 (ValidatorStake a) /\ in_range Uint64 (DelegationStake a) /\ in_range Uint64 (FixedCost a) /\ in_range Uint32 (StakeEndEpoch a)
  /\ version_ok (LatestSupportedProtocolVersionAndHash a).
Definition diff_ok (d : AccountDiff) : Prop :=
  in_range Int64 (BICChange d) /\ in_range Uint32 (PreviousUpdatedTime d) /\ in_range Uint32 (NewExpirySlot d) /\ in_range Uint32 (PreviousExpirySlot d)
  /\ array_ok OutputIDLength (NewOutputID d) /\ array_ok OutputIDLength (PreviousOutputID d)
  /\ in_range Uint64 (Z.of_nat (length (keys_Encode (BlockIssuerKeysAdded d)))) /\ in_range Uint64 (Z.of_nat (length (keys_Encode (BlockIssuerKeysRemoved d))))
  /\ in_range Int64 (ValidatorStakeChange d) /\ in_range Int64 (DelegationStakeChange d) /\ in_range Int64 (FixedCostChange d) /\ in_range Int64 (StakeEndEpochChange d)
  /\ version_ok (NewLatestSupportedVersionAndHash d) /\ version_ok (PrevLatestSupportedVersionAndHash d).
End Codec.

Section Roundtrip.
Context `{MS : MarshalSpec} `{AS : AccountLayoutSpec} `{SS : StreamSpec}.

Lemma parses_array n z : array_ok n z -> parses (read_le n) (put_le n z) z.
Proof. apply parses_le. Qed.
Hint Resolve parses_array : parse.

Lemma parses_version v : version_ok v -> parses version_field (version_Bytes v) v.
Proof.
  intros [H1 H2]. assert (Hp : parses version_reader (version_Bytes v) v).
  { unfold version_reader, version_Bytes. parse_step. eapply parses_map; [eauto with parse|]. destruct v. apply parses_ret. }
  unfold version_field. eapply parses_map.
  - apply parses_bytes. unfold version_Bytes, VersionAndHashSize. rewrite length_app, !length_put_le. lia.
  - unfold VersionAndHashFromBytes. specialize (Hp []). rewrite app_nil_r in Hp. rewrite Hp. apply parses_option.
Qed.
Hint Resolve parses_version : parse.

Lemma parses_key k : key_ok k -> parses key_reader (key_Bytes k) k.
Proof.
  destruct key_types as (H1 & H2 & Hne). intros Hk. rewrite key_Bytes_spec. unfold key_reader. destruct k as [x|x]; cbn in Hk.
  - eapply parses_bind; [apply (parses_le 1); done|]. rewrite Z.eqb_refl. eapply parses_map; [eauto with parse|apply parses_ret].
  - eapply parses_bind; [apply (parses_le 1); done|]. case_match eqn:E; [apply Z.eqb_eq in E; congruence|]. rewrite Z.eqb_refl.
    eapply parses_map; [eauto with parse|apply parses_ret].
Qed.

Lemma length_key_Bytes k : Z.of_nat (length (key_Bytes k)) = key_size k.
Proof. rewrite key_Bytes_spec. unfold key_size. destruct k; rewrite length_app, !length_put_le; lia. Qed.

Lemma length_keys ks : Z.of_nat (length (ks ≫= key_Bytes)) = zsum key_size ks.
Proof. induction ks as [|k ks IH]; [done|]. rewrite bind_cons, length_app. cbn [zsum]. rewrite <- IH, <- length_key_Bytes. lia. Qed.

(** [mret] of an equal value. *)
Lemma parses_ret_eq {X} (x y : X) : x = y -> parses (mret x) [] y.
Proof. intros ->. apply parses_ret. Qed.

Lemma account_parses a : account_data_ok a -> parses account_readFromReadSeeker (account_Bytes a) (a, Z.of_nat (length (account_Bytes a))).
Proof.
  intros (Hid & [Hv Hu] & He & Ho & Hn & Hk & Hvs & Hds & Hfc & Hse & Hver). unfold account_readFromReadSeeker, account_Bytes, credits_Bytes.
  rewrite <- !app_assoc. rewrite (Z.mod_small (Z.of_nat _)) by lia.
  do 5 parse_step. eapply parses_bind; [apply parses_Byte_le; lia|]. rewrite Nat2Z.id.
  assert (Hlen : size (BlockIssuerKeys a) = length (keys_range (BlockIssuerKeys a))) by by rewrite (Permutation_length (keys_range_perm _)).
  rewrite Hlen. eapply parses_bind.
  { apply parses_n. rewrite keys_range_perm. apply Forall_forall. intros k Hk'%elem_of_elements. by apply parses_key, Hk. }
  do 4 parse_step. eapply parses_map; [eauto with parse|]. apply parses_ret_eq. f_equal.
  - destruct a as [id [v u] ex oid ks vs ds fc se ver]. cbn. f_equal. apply set_eq. intros k. rewrite elem_of_list_to_set, keys_range_perm. apply elem_of_elements.
  - rewrite !length_app, !WriteInt64_spec, !WriteUint32_spec, !WriteByte_spec, !WriteUint64_spec. unfold version_Bytes, VersionAndHashSize.
    rewrite !length_app, !length_put_le. rewrite <- length_keys. lia.
Qed.

Lemma parses_keys ks : in_range Uint64 (Z.of_nat (length (keys_Encode ks))) ->
  parses readBlockIssuerKeys (writeBlockIssuerKeys ks) (ks, Z.of_nat (length (writeBlockIssuerKeys ks))).
Proof.
  intros Hl. unfold readBlockIssuerKeys, writeBlockIssuerKeys. rewrite WriteUint64_spec. eapply parses_map; [by apply parses_blob|].
  eapply parses_map; [rewrite keys_Decode_Encode; apply parses_option|]. apply parses_ret_eq. f_equal. rewrite length_app, length_put_le. lia.
Qed.

Lemma put_le_u64 z : put_le 8 (u64 z) = put_le 8 z.
Proof.
  rewrite <- (put_get_le (put_le 8 (u64 z))), <- (put_get_le (put_le 8 z)), !length_put_le, !get_put_le. f_equal.
  destruct (wrap_decomp Uint64 z) as [k ->]. cbn. apply Z.mod_add. done.
Qed.

Lemma diff_parses d : diff_ok d -> parses diff_readFromReadSeeker (diff_Bytes d) (d, Z.of_nat (length (diff_Bytes d))).
Proof.
  intros (H1 & H2 & H3 & H4 & H5 & H6 & H7 & H8 & H9 & H10 & H11 & H12 & H13 & H14). unfold diff_readFromReadSeeker, diff_Bytes.
  do 6 parse_step. eapply parses_bind; [by apply parses_keys|]. cbn beta iota. eapply parses_bind; [by apply parses_keys|]. cbn beta iota.
  do 3 parse_step. rewrite (WriteUint64_spec (u64 _)), put_le_u64. do 2 parse_step. eapply parses_map; [eauto with parse|]. apply parses_ret_eq. f_equal.
  - by destruct d.
  - unfold writeBlockIssuerKeys, version_Bytes, VersionAndHashSize. rewrite !WriteInt64_spec, !WriteUint32_spec, !WriteUint64_spec.
    rewrite !length_app, !length_put_le. lia.
Qed.

(** What the account stores write they read back: decoding the bytes of well-formed account data
    (fewer than 256 block issuer keys) or of an account diff gives the same value, consumes
    exactly its bytes and returns their number. *)
Theorem account_bytes_roundtrip (a : AccountData) (d : AccountDiff) (rest : bytes) (Ha : account_data_ok a) (Hd : diff_ok d) :
  account_readFromReadSeeker (account_Bytes a ++ rest) = Some ((a, Z.of_nat (length (account_Bytes a))), rest)
  /\ diff_readFromReadSeeker (diff_Bytes d ++ rest) = Some ((d, Z.of_nat (length (diff_Bytes d))), rest).
Proof. split; [by apply account_parses|by apply diff_parses]. Qed.
End Roundtrip.

(** ** A concrete layout *)
Module Demo.
Definition encode_key (k : BlockIssuerKey) : bytes :=
  match k with
  | Ed25519PublicKeyBlockIssuerKey x => put_le 1 0 ++ put_le 4 x
  | Ed25519PublicKeyHashBlockIssuerKey x => put_le 1 1 ++ put_le 5 x
  end.
(** A set of keys encoded by its number in the enumeration of finite sets. *)
Definition encode_keys (ks : gset BlockIssuerKey) : bytes := repeat x00 (Pos.to_nat (encode ks)).
Definition decode_keys (bs : bytes) : option (gset BlockIssuerKey) := decode (Pos.of_nat (length bs)).
#[local] Instance demo_layout : AccountLayout := {|
  AccountIDLength := 4; OutputIDLength := 6; PublicKeyLength := 4; ImplicitAddressLength := 5; VersionLength := 1; IdentifierLength := 3;
  BlockIssuerKeyEd25519PublicKey := 0; BlockIssuerKeyPublicKeyHash := 1; key_Bytes := encode_key;
  keys_range ks := elements ks; keys_Encode := encode_keys; keys_Decode := decode_keys |}.
#[local] Instance demo_layout_spec : AccountLayoutSpec demo_layout.
Proof.
  split; cbn; [lia|by intros []|done|]. intros ks. unfold decode_keys, encode_keys. rewrite repeat_length, Pos2Nat.id. apply decode_encode.
Qed.

Definition demo_account : AccountData :=
  mkAccountData 77 (mkCredits (-5) 3) 9 1000 {[Ed25519PublicKeyBlockIssuerKey 12; Ed25519PublicKeyHashBlockIssuerKey 13]} 100 200 3 4 (mkVersionAndHash 3 99).
Definition demo_diff : AccountDiff := mkAccountDiff (-7) 1 2 3 4 5 ∅ ∅ (-1) 2 (-3) 4 (mkVersionAndHash 1 2) (mkVersionAndHash 3 4).

Lemma account_bytes_roundtrip_witness :
  account_readFromReadSeeker (account_Bytes demo_account ++ [xff]) = Some ((demo_account, Z.of_nat (length (account_Bytes demo_account))), [xff])
  /\ diff_readFromReadSeeker (diff_Bytes demo_diff ++ [xff]) = Some ((demo_diff, Z.of_nat (length (diff_Bytes demo_diff))), [xff]).
Proof.
  apply (account_bytes_roundtrip demo_account demo_diff [xff]).
  - repeat split; try (apply (bool_decide_unpack _); vm_compute; exact I). intros k Hk. cbn in Hk.
    apply elem_of_union in Hk as [->%elem_of_singleton| ->%elem_of_singleton]; by (apply (bool_decide_unpack _); vm_compute; exact I).
  - repeat split; try (apply (bool_decide_unpack _); vm_compute; exact I).
Defined.
End Demo.
