(* ===== verification/Attestations.v ===== *)
(** * Slot attestations (pkg/protocol/engine/attestation/slotattestation)

    Validation blocks of committee members are attestations.  The manager keeps
    the latest one per member for every slot that is not committed yet ([futureAttestations]); committing a slot
    moves them into a window of pending attestations, indexed by the slot they
    commit to, and stores the attestations at the lower end of the window in the
    tree of the committed slot.

    Parameters: iota.go's attestations with their order and encodings
    ([AttestationOps]), the committee of a slot, the maximum committable age per slot,
    and which slots are pruned.  A tree of hive.go's ads package is the map it holds,
    its root a function of the contents.  The loop over the slots an attestation
    commits to is the list of these slots: it does not end for the commitment slot
    2^32-1, which no block can commit to.  Locks are left out. *)
From Stdlib Require Import Strings.Byte.
From S2P Require Import Prelude Bytes Block CoreAccount.

Module Attestations.
Import CoreAccount.

Record Attestation := mkAttestation {
  att_IssuerID : AccountID;
  att_SlotCommitmentID : CommitmentID;
  att_IssuingTime : Z;
  att_ProtocolVersion : Z;
  att_Rest : Z;                                       (* block hash, signature *)
}.
#[global] Instance Attestation_eq_dec : EqDecision Attestation.
Proof. solve_decision. Defined.
Definition att_slot (a : Attestation) : SlotIndex := CommitmentSlot (att_SlotCommitmentID a).

Abbreviation Attested := (gmap AccountID Attestation).

Class AttestationOps := {
  NewAttestation : ModelBlock -> Attestation;
  Compare : Attestation -> Attestation -> Z;
  att_root : Attested -> Z;                           (* the root of the tree *)
  VersionFromBytes : bytes -> option Z;
  api_known : Z -> bool;                              (* APIForVersion succeeds *)
  att_Encode : Z -> Attestation -> bytes;             (* by the API of a version *)
  att_Decode : Z -> bytes -> option Attestation;
  WriteCollection : Z -> bytes -> bytes;              (* hive.go's stream: a counted collection *)
  ReadCollection : forall {A}, reader A -> reader (list A);
}.
(** Attestations are ordered by the slot they commit to, then by issuing time and hash. *)
Class AttestationSpec (O : AttestationOps) : Prop := {
  NewAttestation_issuer b : att_IssuerID (NewAttestation b) = IssuerID b;
  NewAttestation_slot b : att_SlotCommitmentID (NewAttestation b) = SlotCommitmentID b;
  Compare_slot a b : att_slot b < att_slot a -> Compare a b = 1;
  Compare_asym a b : Compare a b = 1 -> Compare b a <> 1;
  Compare_trans a b c : Compare a b <> 1 -> Compare b c <> 1 -> Compare a c <> 1;
  Version_Encode a : VersionFromBytes (att_Encode (att_ProtocolVersion a) a) = Some (att_ProtocolVersion a);
  Decode_Encode a : att_Decode (att_ProtocolVersion a) (att_Encode (att_ProtocolVersion a) a) = Some a;
  WriteCollection_spec n body : WriteCollection n body = put_le 8 n ++ body;
  ReadCollection_spec A (p : reader A) bs : ReadCollection p bs = (n ← read_le 8; read_n (Z.to_nat n) p) bs;
}.

Record Manager := mkManager {
  futureAttestations : gmap SlotIndex Attested;
  pendingAttestations : gmap SlotIndex Attested;
  committedAttestations : gmap SlotIndex Attested;    (* the trees in the bucketed storage *)
  trackerAttestations : gmap SlotIndex Attested;      (* the tracker stores in the bucketed storage *)
  lastCommittedSlot : SlotIndex;
  lastCumulativeWeight : Z;
}.
Definition with_future v (m : Manager) := mkManager v (pendingAttestations m) (committedAttestations m) (trackerAttestations m) (lastCommittedSlot m) (lastCumulativeWeight m).
Definition with_pending v (m : Manager) := mkManager (futureAttestations m) v (committedAttestations m) (trackerAttestations m) (lastCommittedSlot m) (lastCumulativeWeight m).
Definition with_committed v (m : Manager) := mkManager (futureAttestations m) (pendingAttestations m) v (trackerAttestations m) (lastCommittedSlot m) (lastCumulativeWeight m).
Definition with_tracker v (m : Manager) := mkManager (futureAttestations m) (pendingAttestations m) (committedAttestations m) v (lastCommittedSlot m) (lastCumulativeWeight m).
Definition with_last v (m : Manager) := mkManager (futureAttestations m) (pendingAttestations m) (committedAttestations m) (trackerAttestations m) v (lastCumulativeWeight m).
Definition with_weight v (m : Manager) := mkManager (futureAttestations m) (pendingAttestations m) (committedAttestations m) (trackerAttestations m) (lastCommittedSlot m) v.

(** The storage of a slot; [Get(slot, true)] creates an empty one. *)
Definition slot_of (st : gmap SlotIndex Attested) (slot : SlotIndex) : Attested := default ∅ (st !! slot).
Definition set_in (slot : SlotIndex) (id : AccountID) (a : Attestation) (st : gmap SlotIndex Attested) : gmap SlotIndex Attested :=
  <[slot := <[id := a]> (slot_of st slot)]> st.

(** [for i := from; i <= to; i++] *)
Definition slots_upto (from to : SlotIndex) : list SlotIndex := seqZ from (to - from + 1).

Section Manager.
Context `{O : AttestationOps} `{!RangeOrder AccountID} (committeeFunc : SlotIndex -> option SeatedAccounts)
  (MaxCommittableAge : SlotIndex -> SlotIndex) (pruned : SlotIndex -> bool).

Definition NewManager (slot : SlotIndex) (weight : Z) (committed tracker : gmap SlotIndex Attested) : Manager :=
  mkManager ∅ ∅ committed tracker slot weight.

(** The cutoff slot and whether it is valid. *)
Definition computeAttestationCommitmentOffset (slot : SlotIndex) : SlotIndex * bool :=
  if slot <? MaxCommittableAge slot then (0, false) else (u32 (slot - MaxCommittableAge slot), true).

(** The function given to Compute: the new attestation replaces only a smaller one. *)
Definition choose (new : Attestation) (current : option Attestation) : Attestation * bool :=
  match current with
  | None => (new, true)
  | Some c => if Compare new c =? 1 then (new, true) else (c, false)
  end.

(** The committee is consulted for validation blocks only; a nil committee panics. *)
Definition AddAttestationFromValidationBlock (block : option ModelBlock) (m : Manager) : outcome Manager :=
  match block with
  | None => Ret m
  | Some b =>
      if negb (isValidation b) then Ret m
      else
        committee ← deref (committeeFunc (Slot (ID b)));
        match GetSeat (IssuerID b) committee with
        | None => Ret m
        | Some _ =>
            if Slot (ID b) <=? lastCommittedSlot m then Ret m
            else
              let st := futureAttestations m in
              let a := (choose (NewAttestation b) (slot_of st (Slot (ID b)) !! IssuerID b)).1 in
              Ret (with_future (set_in (Slot (ID b)) (IssuerID b) a st) m)
        end
  end.

Definition applyToPendingAttestations (a : Attestation) (cutoffSlot : SlotIndex) (m : Manager) : Manager :=
  if att_slot a <? cutoffSlot then m
  else
    let st := pendingAttestations m in
    let '(updatedAttestation, updated) := choose a (slot_of st cutoffSlot !! att_IssuerID a) in
    let st := set_in cutoffSlot (att_IssuerID a) updatedAttestation st in
    if updated then
      with_pending (foldl (fun st i => set_in i (att_IssuerID a) updatedAttestation st) st (slots_upto cutoffSlot (att_slot updatedAttestation))) m
    else with_pending st m.

Definition apply_all (l : list Attestation) (cutoffSlot : SlotIndex) (m : Manager) : Manager :=
  foldl (fun m a => applyToPendingAttestations a cutoffSlot m) m l.

(** The values of a slot of the window; nil when the slot has no storage. *)
Definition determineAttestationsFromWindow (slot : SlotIndex) (m : Manager) : list Attestation := (range_of (slot_of (pendingAttestations m) slot)).*2.

(** [attestationsForSlot] and [trackerStorage] fail for a pruned slot. *)
Definition attestationsForSlot (slot : SlotIndex) (m : Manager) : option Attested :=
  if pruned slot then None else Some (slot_of (committedAttestations m) slot).
Definition trackerStorage (slot : SlotIndex) (m : Manager) : option Attested :=
  if pruned slot then None else Some (slot_of (trackerAttestations m) slot).

(** The loop of Commit: the tree and the cumulative weight. *)
Fixpoint count_attestations (slot : SlotIndex) (l : list Attestation) (tree : Attested) (weight : Z) : outcome (Attested * Z) :=
  match l with
  | [] => Ret (tree, weight)
  | a :: l =>
      committee ← deref (committeeFunc slot);
      match GetSeat (att_IssuerID a) committee with
      | Some _ => count_attestations slot l (<[att_IssuerID a := a]> tree) (u64 (weight + 1))
      | None => count_attestations slot l tree weight
      end
  end.

(** Returns the new cumulative weight and the root of the tree. *)
Definition Commit (slot : SlotIndex) : eprog Manager (Z * Z) :=
  let '(cutoffSlot, valid) := computeAttestationCommitmentOffset slot in
  future ← eread (fun m => slot_of (futureAttestations m) slot);
  _ ← eupdate (fun m => with_future (delete slot (futureAttestations m)) m);
  _ ← eupdate (apply_all (range_of future).*2 cutoffSlot);
  if negb valid then
    _ ← eupdate (with_last slot);
    mret (0, 0)
  else
    attestations ← eread (determineAttestationsFromWindow cutoffSlot);
    _ ← eupdate (fun m => with_pending (delete cutoffSlot (pendingAttestations m)) m);
    tree0 ← eread (attestationsForSlot slot);
    tree ← etry tree0;
    weight0 ← eread lastCumulativeWeight;
    '(tree, weight) ← elift (count_attestations slot attestations tree weight0);
    _ ← eupdate (fun m => with_weight weight (with_committed (<[slot := tree]> (committedAttestations m)) m));
    _ ← eupdate (with_last slot);
    mret (weight, att_root tree).

Definition GetMap (slot : SlotIndex) (m : Manager) : option Attested :=
  if lastCommittedSlot m <? slot then None
  else if negb (computeAttestationCommitmentOffset slot).2 then None
  else attestationsForSlot slot m.
Definition Get (slot : SlotIndex) (m : Manager) : option (list Attestation) :=
  tree ← GetMap slot m; Some (range_of tree).*2.

Definition Rollback (targetSlot : SlotIndex) (m : Manager) : option Manager :=
  if lastCommittedSlot m <? targetSlot then None
  else
    let '(attestationSlot, isValid) := computeAttestationCommitmentOffset targetSlot in
    if negb isValid then Some m
    else
      tree ← attestationsForSlot targetSlot m;
      Some (apply_all (range_of tree).*2 attestationSlot m).

(** ** storage.go *)
Fixpoint restore_slots (slots : list SlotIndex) (cutoffIndex : SlotIndex) (m : Manager) : option Manager :=
  match slots with
  | [] => Some m
  | i :: slots =>
      storage ← trackerStorage i m;
      let m := apply_all (range_of storage).*2 cutoffIndex m in
      restore_slots slots cutoffIndex (with_tracker (<[i := ∅]> (trackerAttestations m)) m)
  end.
Definition RestoreFromDisk (m : Manager) : option Manager :=
  let '(cutoffIndex, isValid) := computeAttestationCommitmentOffset (lastCommittedSlot m) in
  if isValid then restore_slots (slots_upto cutoffIndex (lastCommittedSlot m)) cutoffIndex m else Some m.

Fixpoint write_slots (slots : list SlotIndex) (m : Manager) : option Manager :=
  match slots with
  | [] => Some m
  | i :: slots =>
      storage ← trackerStorage i m;
      let storage := foldl (fun st a => <[att_IssuerID a := a]> st) storage (determineAttestationsFromWindow i m) in
      write_slots slots (with_tracker (<[i := storage]> (trackerAttestations m)) m)
  end.
Definition writeToDisk (m : Manager) : option Manager :=
  let '(cutoffIndex, isValid) := computeAttestationCommitmentOffset (lastCommittedSlot m) in
  if negb isValid then Some m else write_slots (slots_upto cutoffIndex (lastCommittedSlot m)) m.

(** ** snapshot.go *)
Section Snapshot.
Context `{SB : Stream}.

(** The callback of ReadCollection. *)
Definition attestation_reader : reader Attestation :=
  bs ← ReadBlob;
  version ← read_option (VersionFromBytes bs);
  if api_known version then read_option (att_Decode version bs) else read_option None.

Definition Import (bs : bytes) (m : Manager) : option (Manager * bytes) :=
  '(attestations, rest) ← ReadCollection attestation_reader bs;
  let '(attestationSlotIndex, isValid) := computeAttestationCommitmentOffset (lastCommittedSlot m) in
  if negb isValid then Some (m, rest) else Some (apply_all attestations attestationSlotIndex m, rest).

(** What Export writes; an attestation whose version has no API is an error. *)
Definition Export (targetSlot : SlotIndex) (m : Manager) : option bytes :=
  if lastCommittedSlot m <? targetSlot then None
  else if negb (computeAttestationCommitmentOffset targetSlot).2 then Some (put_le 8 0)
  else
    tree ← attestationsForSlot targetSlot m;
    let attestations := (range_of tree).*2 in
    blobs ← mapM (fun a => if api_known (att_ProtocolVersion a) then Some (WriteBlob (att_Encode (att_ProtocolVersion a) a)) else None) attestations;
    Some (WriteCollection (Z.of_nat (length attestations)) (mjoin blobs)).
End Snapshot.
End Manager.
End Attestations.
