(* ===== verification/AttestationsProps.v ===== *)
(** * What a commitment attests

    The attestations a slot commits to are, for every member of its committee, the
    greatest attestation of the blocks up to the slot that commits to at least the
    cutoff slot; the cumulative weight grows by their number. *)
From Stdlib Require Import Strings.Byte.
From S2P Require Import Prelude Bytes Block CoreAccount Attestations.
Import CoreAccount Attestations.

(** ** The greatest attestation with a property *)
Section Best.
Context `{OS : AttestationSpec}.
Implicit Types (P Q : Attestation -> Prop).

Definition best P (o : option Attestation) : Prop :=
  match o with
  | Some a => P a /\ forall b, P b -> Compare b a <> 1
  | None => forall b, ~ P b
  end.

Lemma best_ext P Q o : (forall a, P a <-> Q a) -> best P o -> best Q o.
Proof. intros H. destruct o as [a|]; cbn; [|by setoid_rewrite H]. rewrite H. intros [? Hb]. split; [done|]. intros b Hq. by apply Hb, H. Qed.

Lemma Compare_refl a : Compare a a <> 1.
Proof. intros E. by apply (Compare_asym a a). Qed.
Lemma Compare_le_slot a b : Compare a b <> 1 -> att_slot a <= att_slot b.
Proof. intros E. destruct (decide (att_slot a <= att_slot b)) as [?|Hn]; [done|]. destruct E. apply Compare_slot. lia. Qed.
Lemma Compare_gt_le a b : Compare a b = 1 -> Compare b a <> 1.
Proof. apply Compare_asym. Qed.

(** The choice between the current best and a new attestation. *)
Lemma choose_best P o a : best P o -> best (fun b => P b \/ b = a) (Some (choose a o).1).
Proof.
  destruct o as [c|]; cbn [choose best].
  - intros [Hc Hb]. case_match eqn:E; cbn [fst].
    + apply Z.eqb_eq in E. split; [auto|]. intros b [Hp| ->]; [|apply Compare_refl]. eapply Compare_trans; [by apply Hb|by apply Compare_gt_le].
    + apply Z.eqb_neq in E. split; [auto|]. intros b [Hp| ->]; auto.
  - intros Hn. split; [auto|]. intros b [Hp| ->]; [by destruct (Hn b)|apply Compare_refl].
Qed.
End Best.

(** ** The window of pending attestations *)
Section Window.
Context `{OS : AttestationSpec} `{!RangeOrder AccountID}.
Implicit Types (P : Attestation -> Prop) (st : gmap SlotIndex Attested).

Lemma att_lookup_set_in s id a st i j : slot_of (set_in s id a st) i !! j = if decide (s = i /\ id = j) then Some a else slot_of st i !! j.
Proof.
  unfold set_in, slot_of. destruct (decide (s = i)) as [->|Hs].
  - rewrite lookup_insert_eq. cbn. destruct (decide (id = j)) as [->|Hj]; [rewrite lookup_insert_eq; by rewrite decide_True|].
    rewrite lookup_insert_ne by done. rewrite decide_False by naive_solver. done.
  - rewrite lookup_insert_ne by done. by rewrite decide_False by naive_solver.
Qed.

Lemma lookup_set_range (l : list SlotIndex) id a st i j :
  slot_of (foldl (fun st i => set_in i id a st) st l) i !! j = if decide (i ∈ l /\ id = j) then Some a else slot_of st i !! j.
Proof.
  induction l as [|x l IH] in st |- *; cbn [foldl]; [by rewrite decide_False by set_solver|]. rewrite IH, att_lookup_set_in.
  destruct (decide (id = j)) as [->|Hj]; [|by rewrite !decide_False by naive_solver].
  destruct (decide (i ∈ l)) as [Hl|Hl]; [by rewrite !decide_True by set_solver|]. rewrite (decide_False (P:=i ∈ l /\ _)) by naive_solver.
  destruct (decide (x = i)) as [->|Hx]; [by rewrite !decide_True by set_solver|]. by rewrite !decide_False by set_solver.
Qed.

Lemma lookup_set_upto c t id a st i j :
  slot_of (foldl (fun st i => set_in i id a st) st (slots_upto c t)) i !! j = if decide (c <= i <= t /\ id = j) then Some a else slot_of st i !! j.
Proof. rewrite lookup_set_range. unfold slots_upto. apply decide_ext. rewrite elem_of_seqZ. lia. Qed.

Definition window_best st (c : SlotIndex) P : Prop :=
  forall i j, c <= i -> best (fun a => P a /\ att_IssuerID a = j /\ i <= att_slot a) (slot_of st i !! j).

Lemma window_best_ext st c P Q : (forall a, P a <-> Q a) -> window_best st c P -> window_best st c Q.
Proof. intros H HW i j Hi. eapply best_ext; [|by apply HW]. intros a. cbn. by rewrite H. Qed.

Lemma window_best_mono st c c' P : c <= c' -> window_best st c P -> window_best st c' P.
Proof. intros Hc HW i j Hi. apply HW. lia. Qed.

(** Applying an attestation adds it to the candidates of every slot it commits to. *)
Lemma apply_window a c m P : window_best (pendingAttestations m) c P ->
  window_best (pendingAttestations (applyToPendingAttestations a c m)) c (fun b => P b \/ b = a).
Proof.
  intros HW i j Hi. unfold applyToPendingAttestations. case_match eqn:Hc.
  { apply Z.ltb_lt in Hc. eapply best_ext; [|by apply HW]. intros b. cbn. split; [naive_solver|].
    intros [[Hp| ->] [Hj Hs]]; [done|lia]. }
  apply Z.ltb_ge in Hc. pose proof (HW c (att_IssuerID a) (Z.le_refl c)) as Hcur. pose proof (HW i j Hi) as Hij.
  set (st := pendingAttestations m) in *. destruct (slot_of st c !! att_IssuerID a) as [cur|] eqn:Ecur; cbn [choose].
  - destruct (Compare a cur =? 1) eqn:E; cbn [pendingAttestations with_pending].
    + apply Z.eqb_eq in E. rewrite lookup_set_upto, att_lookup_set_in.
      destruct Hcur as [(HPc & _ & Hslc) Hb]. pose proof (Compare_le_slot _ _ (Compare_gt_le _ _ E)) as Hsl.
      destruct (decide (att_IssuerID a = j)) as [<-|Hj].
      * destruct (decide (i <= att_slot a)) as [Hle|Hgt].
        -- rewrite decide_True by lia. split; [split; [by right|lia]|]. intros b [[Hp| ->] [Hbj Hbs]]; [|apply Compare_refl].
           eapply Compare_trans; [apply Hb; split; [done|lia]|by apply Compare_gt_le].
        -- rewrite !decide_False by lia. eapply best_ext; [|exact Hij]. intros b. cbn. split; [naive_solver|]. intros [[?| ->] [? ?]]; [done|lia].
      * rewrite !decide_False by naive_solver. eapply best_ext; [|exact Hij]. intros b. cbn. split; [naive_solver|]. intros [[?| ->] [? ?]]; [done|naive_solver].
    + apply Z.eqb_neq in E. rewrite att_lookup_set_in.
      assert (Hsame : (if decide (c = i /\ att_IssuerID a = j) then Some cur else slot_of st i !! j) = slot_of st i !! j).
      { case_decide as Hd; [|done]. destruct Hd as [<- <-]. by rewrite Ecur. }
      rewrite Hsame. destruct Hcur as [(HPc & Hcj & Hslc) Hb]. pose proof (Compare_le_slot _ _ E) as Hsl.
      destruct (slot_of st i !! j) as [x|]; cbn in Hij |- *.
      * destruct Hij as [(Hpx & Hjx & Hsx) Hbx]. split; [split; [by left|done]|]. intros b [[Hp| ->] [Hbj Hbs]]; [by apply Hbx|].
        eapply Compare_trans; [exact E|]. apply Hbx. split; [done|]. split; [by rewrite Hcj|lia].
      * intros b [[Hp| ->] [Hbj Hbs]]; [by apply (Hij b)|]. apply (Hij cur). split; [done|]. split; [by rewrite Hcj|lia].
  - cbn [pendingAttestations with_pending]. rewrite lookup_set_upto, att_lookup_set_in. cbn in Hcur.
    destruct (decide (att_IssuerID a = j)) as [<-|Hj].
    + destruct (decide (i <= att_slot a)) as [Hle|Hgt].
      * rewrite decide_True by lia. split; [split; [by right|lia]|]. intros b [[Hp| ->] [Hbj Hbs]]; [|apply Compare_refl].
        destruct (Hcur b). split; [done|lia].
      * rewrite !decide_False by lia. eapply best_ext; [|exact Hij]. intros b. cbn. split; [naive_solver|]. intros [[?| ->] [? ?]]; [done|lia].
    + rewrite !decide_False by naive_solver. eapply best_ext; [|exact Hij]. intros b. cbn. split; [naive_solver|]. intros [[?| ->] [? ?]]; [done|naive_solver].
Qed.

Lemma apply_all_window l c m P : window_best (pendingAttestations m) c P ->
  window_best (pendingAttestations (apply_all l c m)) c (fun b => P b \/ b ∈ l).
Proof.
  unfold apply_all. induction l as [|a l IH] in m, P |- *; intros HW; cbn [foldl].
  - eapply window_best_ext; [|exact HW]. intros b. set_solver.
  - eapply window_best_ext; [|apply IH, apply_window, HW]. intros b. cbn. rewrite elem_of_cons. tauto.
Qed.

(** Only the window changes. *)
Lemma apply_all_other l c m :
  futureAttestations (apply_all l c m) = futureAttestations m /\ committedAttestations (apply_all l c m) = committedAttestations m
  /\ trackerAttestations (apply_all l c m) = trackerAttestations m
  /\ lastCommittedSlot (apply_all l c m) = lastCommittedSlot m /\ lastCumulativeWeight (apply_all l c m) = lastCumulativeWeight m.
Proof.
  unfold apply_all. induction l as [|a l IH] in m |- *; [done|]. cbn [foldl].
  destruct (IH (applyToPendingAttestations a c m)) as (-> & -> & -> & -> & ->). unfold applyToPendingAttestations.
  case_match; [done|]. destruct (choose _ _) as [u []]; done.
Qed.

(** Candidates may be replaced by the best per issuer. *)
Lemma window_best_widen st c P (X : Attestation -> Prop) (V : Attested) :
  (forall j, best (fun a => X a /\ att_IssuerID a = j) (V !! j)) ->
  window_best st c (fun b => P b \/ b ∈ (range_of V).*2) -> window_best st c (fun b => P b \/ X b).
Proof.
  intros HV HW i j Hi. specialize (HW i j Hi).
  assert (Hin : forall b, b ∈ (range_of V).*2 -> X b).
  { intros b ([k v] & -> & Hk%elem_of_range)%list_elem_of_fmap. specialize (HV k). rewrite Hk in HV. by destruct HV as [[? _] _]. }
  assert (Hdom : forall b, X b -> exists v, v ∈ (range_of V).*2 /\ att_IssuerID v = att_IssuerID b /\ Compare b v <> 1).
  { intros b Hb. specialize (HV (att_IssuerID b)). destruct (V !! att_IssuerID b) as [v|] eqn:Ev; cbn in HV; [|by destruct (HV b)].
    destruct HV as [[Hv Hvj] Hbest]. exists v. split; [|split; [done|by apply Hbest]]. apply list_elem_of_fmap. exists (att_IssuerID b, v). split; [done|]. by apply elem_of_range. }
  destruct (slot_of st i !! j) as [x|]; cbn in HW |- *.
  - destruct HW as [([Hx|Hx] & Hjx & Hsx) Hb].
    + split; [auto|]. intros b [[Hp|Hp] [Hbj Hbs]]; [by apply Hb; auto|]. destruct (Hdom b Hp) as (v & Hv & Hvj & Hle).
      eapply Compare_trans; [exact Hle|]. apply Hb. split; [auto|]. pose proof (Compare_le_slot _ _ Hle). split; [congruence|lia].
    + split; [auto|]. intros b [[Hp|Hp] [Hbj Hbs]]; [by apply Hb; auto|]. destruct (Hdom b Hp) as (v & Hv & Hvj & Hle).
      eapply Compare_trans; [exact Hle|]. apply Hb. split; [auto|]. pose proof (Compare_le_slot _ _ Hle). split; [congruence|lia].
  - intros b [[Hp|Hp] [Hbj Hbs]]; [by apply (HW b); auto|]. destruct (Hdom b Hp) as (v & Hv & Hvj & Hle).
    apply (HW v). split; [auto|]. pose proof (Compare_le_slot _ _ Hle). split; [congruence|lia].
Qed.
End Window.

(** ** Runs of the manager *)
Section Runs.
Context `{OS : AttestationSpec} `{!RangeOrder AccountID} (committeeFunc : SlotIndex -> option SeatedAccounts)
  (MaxCommittableAge : SlotIndex -> SlotIndex) (pruned : SlotIndex -> bool).
Context (mca : SlotIndex) (Hmca : forall slot, MaxCommittableAge slot = mca) (Hmca0 : 0 <= mca).
Implicit Types (m : Manager) (log : list (SlotIndex * Attestation)).

(** Whether the attestation of a block is tracked. *)
Definition tracked m (b : ModelBlock) : bool :=
  isValidation b && match committeeFunc (Slot (ID b)) with Some com => negb (is_none (GetSeat (IssuerID b) com)) | None => false end
  && (lastCommittedSlot m <? Slot (ID b)).

(** Blocks are added and slots committed in order; the log collects the tracked attestations with the slot of their block. *)
Inductive step : Manager * list (SlotIndex * Attestation) -> Manager * list (SlotIndex * Attestation) -> Prop :=
| StepAdd b m m' log :
    AddAttestationFromValidationBlock committeeFunc (Some b) m = Ret m' ->
    step (m, log) (m', if tracked m b then log ++ [(Slot (ID b), NewAttestation b)] else log)
| StepCommit m m' log r :
    lastCommittedSlot m + 1 <= ty_max Uint32 ->
    Commit committeeFunc MaxCommittableAge pruned (lastCommittedSlot m + 1) m = Ret (Some r, m') ->
    step (m, log) (m', log).

(** The lower end of the window after committing a slot. *)
Definition window_start (slot : SlotIndex) : SlotIndex := if slot <? mca then 0 else slot - mca + 1.
Definition logged log (slot : SlotIndex) (a : Attestation) : Prop := exists t, t <= slot /\ (t, a) ∈ log.

Record run_inv m log : Prop := {
  ri_range : 0 <= lastCommittedSlot m <= ty_max Uint32;
  ri_future t j : lastCommittedSlot m < t -> best (fun a => (t, a) ∈ log /\ att_IssuerID a = j) (slot_of (futureAttestations m) t !! j);
  ri_window : window_best (pendingAttestations m) (window_start (lastCommittedSlot m)) (logged log (lastCommittedSlot m));
  ri_new t : lastCommittedSlot m < t -> slot_of (committedAttestations m) t = ∅;
  ri_weight : in_range Uint64 (lastCumulativeWeight m);
}.

Lemma cutoff_next slot : 0 <= slot -> slot + 1 <= ty_max Uint32 ->
  computeAttestationCommitmentOffset MaxCommittableAge (slot + 1) = (window_start slot, negb (slot + 1 <? mca)).
Proof.
  intros H0 Hr. unfold computeAttestationCommitmentOffset, window_start. rewrite Hmca. cbn in Hr.
  destruct (Z.ltb_spec (slot + 1) mca); destruct (Z.ltb_spec slot mca); try lia; cbn; [done| |].
  - f_equal. rewrite wrap_id; [lia|]. unfold in_range. cbn. lia.
  - f_equal. rewrite wrap_id; [lia|]. unfold in_range. cbn. lia.
Qed.

(** *** The loop over the attestations of the cutoff slot *)
Definition seated (com : SeatedAccounts) (a : Attestation) : bool := negb (is_none (GetSeat (att_IssuerID a) com)).

Lemma count_spec slot com l tree w : committeeFunc slot = Some com -> in_range Uint64 w ->
  count_attestations committeeFunc slot l tree w
  = Ret (foldl (fun t a => <[att_IssuerID a := a]> t) tree (filter (fun a => seated com a) l), u64 (w + Z.of_nat (length (filter (fun a => seated com a) l)))).
Proof.
  intros Hcom. induction l as [|a l IH] in tree, w |- *; intros Hw; cbn [count_attestations].
  - cbn. by rewrite Z.add_0_r, wrap_id.
  - rewrite Hcom. cbn [deref mbind outcome_bind]. rewrite filter_cons.
    destruct (GetSeat (att_IssuerID a) com) eqn:Es.
    + rewrite decide_True by (unfold seated; by rewrite Es). rewrite IH by apply wrap_in_range. cbn [foldl length]. f_equal. f_equal. apply wrap_eq.
      destruct (wrap_decomp Uint64 (w + 1)) as [k ->]. exists k. lia.
    + rewrite decide_False by (unfold seated; rewrite Es; by intros []). by apply IH.
Qed.

Lemma tree_of_list (l : list Attestation) id : NoDup (att_IssuerID <$> l) ->
  forall a, foldl (fun (t : Attested) a => <[att_IssuerID a := a]> t) ∅ l !! id = Some a <-> a ∈ l /\ att_IssuerID a = id.
Proof.
  intros Hn a. assert (Hl : foldl (fun (t : Attested) a => <[att_IssuerID a := a]> t) ∅ l = list_to_map (reverse ((fun a => (att_IssuerID a, a)) <$> l))).
  { clear Hn. induction l as [|x l IH] using rev_ind; [done|]. rewrite foldl_app, fmap_app, reverse_app. cbn. by rewrite IH. }
  rewrite Hl, <- elem_of_list_to_map.
  - rewrite elem_of_reverse, list_elem_of_fmap. naive_solver.
  - rewrite fmap_reverse, <- list_fmap_compose. by rewrite reverse_Permutation.
Qed.

Lemma tree_size (l : list Attestation) : NoDup (att_IssuerID <$> l) ->
  size (foldl (fun (t : Attested) a => <[att_IssuerID a := a]> t) ∅ l) = length l.
Proof.
  induction l as [|x l IH] using rev_ind; intros Hn; [done|]. rewrite foldl_app, length_app. cbn.
  rewrite fmap_app in Hn. apply NoDup_app in Hn as (Hn & Hd & _). rewrite map_size_insert_None; [rewrite IH by done; lia|].
  destruct (_ !! att_IssuerID x) as [a|] eqn:E; [|done]. apply tree_of_list in E as [Ha Hid]; [|done].
  destruct (Hd (att_IssuerID x)); [|set_solver]. rewrite <- Hid. apply list_elem_of_fmap. eauto.
Qed.

(** The attestations at a slot of the window are listed with distinct issuers. *)
Lemma window_issuers st c P : window_best st c P -> (forall k v, slot_of st c !! k = Some v -> att_IssuerID v = k).
Proof. intros HW k v Hk. specialize (HW c k (Z.le_refl c)). rewrite Hk in HW. by destruct HW as [(_ & ? & _) _]. Qed.
Lemma range_issuers (V : Attested) : (forall k v, V !! k = Some v -> att_IssuerID v = k) -> att_IssuerID <$> (range_of V).*2 = (range_of V).*1.
Proof.
  intros HV. rewrite <- list_fmap_compose. apply list_fmap_ext. intros i [k v] Hi%list_elem_of_lookup_2%elem_of_range. by apply HV.
Qed.

(** *** Committing the next slot *)
Lemma att_slot_of_delete st s i : slot_of (delete s st) i = if decide (s = i) then ∅ else slot_of st i.
Proof. unfold slot_of. destruct (decide (s = i)) as [->|Hne]; [by rewrite lookup_delete_eq|by rewrite lookup_delete_ne]. Qed.

Lemma slot_of_insert st s (V : Attested) : slot_of (<[s := V]> st) s = V.
Proof. unfold slot_of. by rewrite lookup_insert_eq. Qed.

(** The state after the future attestations of the slot were applied. *)
Definition applied (slot : SlotIndex) m : Manager :=
  apply_all (range_of (slot_of (futureAttestations m) slot)).*2 (window_start (lastCommittedSlot m)) (with_future (delete slot (futureAttestations m)) m).

Lemma applied_window m log : run_inv m log ->
  window_best (pendingAttestations (applied (lastCommittedSlot m + 1) m)) (window_start (lastCommittedSlot m)) (logged log (lastCommittedSlot m + 1)).
Proof.
  intros [Hr Hf Hw Hn _]. unfold applied.
  apply (window_best_ext _ _ (fun b => logged log (lastCommittedSlot m) b \/ (lastCommittedSlot m + 1, b) ∈ log)).
  - intros a. cbn. unfold logged. split.
    + intros [(t & Ht & Hin)|Hin]; [exists t; split; [lia|done]|exists (lastCommittedSlot m + 1); split; [lia|done]].
    + intros (t & Ht & Hin). destruct (decide (t = lastCommittedSlot m + 1)) as [->|Hne]; [by right|left; exists t; split; [lia|done]].
  - eapply window_best_widen; [intros j; apply Hf; lia|]. apply apply_all_window. exact Hw.
Qed.

(** Committing a slot the window does not reach yet, and one it does. *)
Lemma Commit_young m log : run_inv m log -> lastCommittedSlot m + 1 <= ty_max Uint32 -> lastCommittedSlot m + 1 < mca ->
  Commit committeeFunc MaxCommittableAge pruned (lastCommittedSlot m + 1) m
  = Ret (Some (0, 0), with_last (lastCommittedSlot m + 1) (applied (lastCommittedSlot m + 1) m)).
Proof.
  intros HI Hr Hy. unfold Commit. rewrite cutoff_next by (done || apply HI). destruct (Z.ltb_spec (lastCommittedSlot m + 1) mca); [|lia]. done.
Qed.

Lemma Commit_mature m log com : run_inv m log -> lastCommittedSlot m + 1 <= ty_max Uint32 -> mca <= lastCommittedSlot m + 1 ->
  pruned (lastCommittedSlot m + 1) = false -> committeeFunc (lastCommittedSlot m + 1) = Some com -> in_range Uint64 (lastCumulativeWeight m) ->
  let slot := lastCommittedSlot m + 1 in
  let c := window_start (lastCommittedSlot m) in
  let m1 := applied slot m in
  let l := filter (fun a => seated com a) (range_of (slot_of (pendingAttestations m1) c)).*2 in
  let tree := foldl (fun t a => <[att_IssuerID a := a]> t) ∅ l in
  let weight := u64 (lastCumulativeWeight m + Z.of_nat (length l)) in
  Commit committeeFunc MaxCommittableAge pruned slot m
  = Ret (Some (weight, att_root tree),
         mkManager (delete slot (futureAttestations m)) (delete c (pendingAttestations m1)) (<[slot := tree]> (committedAttestations m)) (trackerAttestations m) slot weight).
Proof.
  intros HI Hr Hy Hp Hcom Hw. cbv zeta. unfold Commit. rewrite cutoff_next by (done || apply HI). destruct (Z.ltb_spec (lastCommittedSlot m + 1) mca); [lia|].
  set (slot := lastCommittedSlot m + 1) in *. set (c := window_start (lastCommittedSlot m)).
  unfold mbind, eprog_bind, eread, eupdate, etry, elift. cbn beta iota. cbn [negb].
  change (apply_all (range_of (slot_of (futureAttestations m) slot)).*2 c (with_future (delete slot (futureAttestations m)) m)) with (applied slot m).
  destruct (apply_all_other (range_of (slot_of (futureAttestations m) slot)).*2 c (with_future (delete slot (futureAttestations m)) m)) as (E1 & E2 & E3 & E4 & E5).
  change (apply_all (range_of (slot_of (futureAttestations m) slot)).*2 c (with_future (delete slot (futureAttestations m)) m)) with (applied slot m) in E1, E2, E3, E4, E5.
  cbn in E1, E2, E3, E4, E5. unfold attestationsForSlot. rewrite Hp. cbn [committedAttestations with_pending lastCumulativeWeight]. rewrite E2, E5.
  rewrite (ri_new _ _ HI) by (unfold slot; lia). unfold determineAttestationsFromWindow. cbn beta iota.
  rewrite (count_spec slot com) by done. cbn. unfold with_pending, with_last, with_weight, with_committed. cbn. by rewrite E1, E2, E3.
Qed.

Lemma count_weight slot l tree w tree' w' : in_range Uint64 w -> count_attestations committeeFunc slot l tree w = Ret (tree', w') -> in_range Uint64 w'.
Proof.
  induction l as [|a l IH] in tree, w |- *; cbn [count_attestations]; [intros ? ?; by simplify_eq|]. intros Hw H.
  apply bind_Ret in H as (com & _ & H). case_match; [apply (IH _ _ (wrap_in_range _ _) H)|apply (IH _ _ Hw H)].
Qed.

Lemma window_start_next slot : 0 <= slot -> window_start (slot + 1) = if slot + 1 <? mca then 0 else window_start slot + 1.
Proof. intros H0. unfold window_start. destruct (Z.ltb_spec (slot + 1) mca), (Z.ltb_spec slot mca); lia. Qed.

Lemma StepAdd_inv b m m' log : run_inv m log -> AddAttestationFromValidationBlock committeeFunc (Some b) m = Ret m' ->
  run_inv m' (if tracked m b then log ++ [(Slot (ID b), NewAttestation b)] else log).
Proof.
  intros HI. unfold AddAttestationFromValidationBlock, tracked. destruct (isValidation b); cbn [negb andb]; [|intros ?; by simplify_eq].
  destruct (committeeFunc (Slot (ID b))) as [com|]; cbn [deref mbind outcome_bind]; [|done].
  destruct (GetSeat (IssuerID b) com); cbn [is_none negb andb]; [|intros ?; by simplify_eq].
  destruct (Z.leb_spec (Slot (ID b)) (lastCommittedSlot m)) as [Hle|Hgt]; intros [= <-].
  { by destruct (Z.ltb_spec (lastCommittedSlot m) (Slot (ID b))); [lia|]. }
  destruct (Z.ltb_spec (lastCommittedSlot m) (Slot (ID b))); [|lia]. destruct HI as [Hr Hf Hw Hn Hwt].
  split; cbn [with_future futureAttestations pendingAttestations committedAttestations lastCommittedSlot lastCumulativeWeight]; [done| | |done|done].
  - intros t j Ht. rewrite att_lookup_set_in. case_decide as Hd.
    + destruct Hd as [<- <-]. eapply best_ext; [|apply choose_best, (Hf _ (IssuerID b) Ht)]. intros a. cbn. rewrite elem_of_app, list_elem_of_singleton.
      split; [|naive_solver]. intros [[? ?]| ->]; [auto|]. split; [auto|apply NewAttestation_issuer].
    + eapply best_ext; [|by apply Hf]. intros a. cbn. rewrite elem_of_app, list_elem_of_singleton. split; [naive_solver|].
      intros [[?|?] ?]; [done|]. simplify_eq. destruct Hd. split; [done|]. symmetry. apply NewAttestation_issuer.
  - eapply window_best_ext; [|exact Hw]. intros a. unfold logged. setoid_rewrite elem_of_app. setoid_rewrite list_elem_of_singleton.
    split; [naive_solver|]. intros (t & Ht & [?|?]); [eauto|]. simplify_eq. lia.
Qed.

Lemma StepCommit_inv m m' log r : run_inv m log -> lastCommittedSlot m + 1 <= ty_max Uint32 ->
  Commit committeeFunc MaxCommittableAge pruned (lastCommittedSlot m + 1) m = Ret (Some r, m') -> run_inv m' log.
Proof.
  intros HI Hr. pose proof (applied_window m log HI) as HW. pose proof (ri_range _ _ HI) as Hrange. pose proof (window_start_next (lastCommittedSlot m) ltac:(lia)) as Hws.
  set (slot := lastCommittedSlot m + 1) in *.
  destruct (apply_all_other (range_of (slot_of (futureAttestations m) slot)).*2 (window_start (lastCommittedSlot m)) (with_future (delete slot (futureAttestations m)) m)) as (E1 & E2 & E3 & E4 & E5).
  change (apply_all _ _ _) with (applied slot m) in E1, E2, E3, E4, E5. cbn in E1, E2, E3, E4, E5.
  assert (Hf : forall t j, slot < t -> best (fun a => (t, a) ∈ log /\ att_IssuerID a = j) (slot_of (delete slot (futureAttestations m)) t !! j)).
  { intros t j Ht. rewrite att_slot_of_delete, decide_False by lia. apply (ri_future _ _ HI). unfold slot in Ht. lia. }
  assert (Hn : forall t, slot < t -> slot_of (committedAttestations m) t = ∅).
  { intros t Ht. apply (ri_new _ _ HI). unfold slot in Ht. lia. }
  destruct (decide (slot < mca)) as [Hy|Hy].
  - unfold slot in Hy |- *. rewrite (Commit_young m log HI Hr Hy). fold slot. fold slot in Hy. intros ?. simplify_eq.
    destruct (Z.ltb_spec slot mca); [|lia].
    split; cbn [with_last futureAttestations pendingAttestations committedAttestations lastCommittedSlot lastCumulativeWeight]; rewrite ?E1, ?E2, ?E5; [unfold slot; lia|done| |done|apply HI].
    rewrite Hws. replace 0 with (window_start (lastCommittedSlot m)); [done|]. unfold window_start. destruct (Z.ltb_spec (lastCommittedSlot m) mca); unfold slot in *; lia.
  - unfold Commit, slot. rewrite cutoff_next by lia. fold slot. destruct (Z.ltb_spec slot mca); [lia|].
    unfold mbind, eprog_bind, eread, eupdate, etry, elift. cbn beta iota. cbn [negb].
    change (apply_all _ _ (with_future _ m)) with (applied slot m). unfold attestationsForSlot. destruct (pruned slot); [done|]. cbn beta iota.
    cbn [committedAttestations with_pending lastCumulativeWeight]. rewrite E2, E5.
    destruct (count_attestations _ _ _ _ _) as [[tree w']| |] eqn:Ec; cbn; [|done|done]. unfold mret, eprog_ret. intros [= <- <-].
    pose proof (count_weight _ _ _ _ _ _ (ri_weight _ _ HI) Ec) as Hw'.
    split; cbn [with_last with_weight with_committed with_pending futureAttestations pendingAttestations committedAttestations lastCommittedSlot lastCumulativeWeight]; rewrite ?E1, ?E2; [unfold slot; lia|done| | |done].
    + rewrite Hws. intros i j Hi. rewrite att_slot_of_delete, decide_False by lia. apply HW. lia.
    + intros t Ht. unfold slot_of. rewrite lookup_insert_ne by lia. by apply Hn.
Qed.

Lemma run_invariant s s' : rtc step s s' -> run_inv s.1 s.2 -> run_inv s'.1 s'.2.
Proof.
  induction 1 as [|s1 s2 s3 Hst _ IH]; [done|]. intros HI. apply IH. destruct Hst as [b m m' log Ha|m m' log r Hr Hc]; cbn in *.
  - by apply StepAdd_inv.
  - by eapply StepCommit_inv.
Qed.

Lemma new_inv slot weight : 0 <= slot <= ty_max Uint32 -> in_range Uint64 weight -> run_inv (NewManager slot weight ∅ ∅) [].
Proof.
  intros Hs Hw. split; cbn; [done| | | |done].
  - intros t j _. unfold slot_of. rewrite lookup_empty. cbn. rewrite lookup_empty. cbn. set_solver.
  - intros i j _. unfold slot_of. rewrite lookup_empty. cbn. rewrite lookup_empty. cbn. intros b [(t & _ & ?) _]. set_solver.
  - intros t _. unfold slot_of. by rewrite lookup_empty.
Qed.

Lemma Commit_tree m log com : run_inv m log -> lastCommittedSlot m + 1 <= ty_max Uint32 -> mca <= lastCommittedSlot m + 1 ->
  pruned (lastCommittedSlot m + 1) = false -> committeeFunc (lastCommittedSlot m + 1) = Some com ->
  exists w' root m', Commit committeeFunc MaxCommittableAge pruned (lastCommittedSlot m + 1) m = Ret (Some (w', root), m')
    /\ root = att_root (slot_of (committedAttestations m') (lastCommittedSlot m + 1))
    /\ w' = u64 (lastCumulativeWeight m + Z.of_nat (size (slot_of (committedAttestations m') (lastCommittedSlot m + 1))))
    /\ lastCumulativeWeight m' = w' /\ lastCommittedSlot m' = lastCommittedSlot m + 1
    /\ forall id, best (fun a => att_IssuerID a = id /\ is_Some (GetSeat id com) /\ lastCommittedSlot m + 1 - mca <= att_slot a
                     /\ logged log (lastCommittedSlot m + 1) a) (slot_of (committedAttestations m') (lastCommittedSlot m + 1) !! id).
Proof.
  intros HI Hr Hy Hp Hcom. pose proof (Commit_mature m log com HI Hr Hy Hp Hcom (ri_weight _ _ HI)) as HC. cbv zeta in HC.
  pose proof (applied_window m log HI) as HW. set (slot := lastCommittedSlot m + 1) in *. set (c := window_start (lastCommittedSlot m)) in *.
  pose proof (window_issuers _ _ _ HW) as Hiss. pose proof (range_issuers _ Hiss) as Hl.
  set (V := slot_of (pendingAttestations (applied slot m)) c) in *. set (l := filter (fun a => seated com a) (range_of V).*2) in *.
  assert (Hnd : NoDup (att_IssuerID <$> l)).
  { assert (Hn : NoDup (att_IssuerID <$> (range_of V).*2)) by (rewrite Hl, (range_of_perm V); apply NoDup_fst_map_to_list).
    unfold l. clear -Hn. induction (range_of V).*2 as [|a l' IH]; [constructor|]. cbn in Hn. inversion_clear Hn as [|? ? Ha Hn']. rewrite filter_cons.
    case_decide; [|by apply IH]. cbn. constructor; [|by apply IH]. intros (b & Eb & [_ Hb]%list_elem_of_filter)%list_elem_of_fmap. apply Ha. apply list_elem_of_fmap. eauto. }
  eexists _, _, _. split; [exact HC|]. cbn [committedAttestations lastCumulativeWeight lastCommittedSlot].
  rewrite slot_of_insert. split; [done|]. split; [by rewrite tree_size|]. split; [done|]. split; [done|].
  intros id. pose proof (tree_of_list l id Hnd) as Ht.
  assert (Hc : slot - mca = c).
  { unfold c, slot, window_start in *. pose proof (ri_range _ _ HI). destruct (Z.ltb_spec (lastCommittedSlot m) mca); lia. }
  specialize (HW c id (Z.le_refl c)). fold V in HW.
  destruct (foldl _ ∅ l !! id) as [a|] eqn:Ea.
  - destruct (proj1 (Ht a) eq_refl) as [[Hs Hin]%list_elem_of_filter Hid].
    apply list_elem_of_fmap in Hin as ([k v] & -> & Hk%elem_of_range). cbn in *. pose proof (Hiss _ _ Hk) as Hkv. rewrite Hid in Hkv. subst k. rewrite Hk in HW.
    destruct HW as [(Hlog & _ & Hsl) Hb].
    assert (Hseat : is_Some (GetSeat id com)). { unfold seated in Hs. rewrite Hid in Hs. destruct (GetSeat id com); [eauto|done]. }
    split; [split; [done|]; split; [done|]; split; [lia|done]|]. intros b (Hbid & _ & Hbs & Hbl). apply Hb. split; [done|]. split; [done|]. lia.
  - intros b (Hbid & Hbseat & Hbs & Hbl). destruct (V !! id) as [v|] eqn:Ev; cbn in HW.
    + assert (E : None = Some v); [|done]. apply Ht. split; [|by apply Hiss]. apply list_elem_of_filter. split.
      * unfold seated. rewrite (Hiss _ _ Ev). destruct Hbseat as [? ->]. done.
      * apply list_elem_of_fmap. exists (id, v). split; [done|]. by apply elem_of_range.
    + apply (HW b). split; [done|]. split; [done|]. lia.
Qed.
End Runs.

(** ** Claims *)
Section Claims.
Context `{OS : AttestationSpec} `{!RangeOrder AccountID} `{SS : StreamSpec} (committeeFunc : SlotIndex -> option SeatedAccounts)
  (MaxCommittableAge : SlotIndex -> SlotIndex) (pruned : SlotIndex -> bool).

(** C27 The attestations of a commitment are exact: after any sequence of validation blocks and commits in
    order, committing the next slot puts into its tree, for every member of its committee, the
    greatest attestation of the tracked blocks up to the slot that commits to at least the slot
    minus the maximum committable age, nobody else's, and adds their number to the
    cumulative weight. *)
Theorem attestation_commit_exact mca slot0 weight0 m log com
  (Hmca : forall slot, MaxCommittableAge slot = mca) (Hmca0 : 0 <= mca)
  (Hslot0 : 0 <= slot0 <= ty_max Uint32) (Hweight0 : in_range Uint64 weight0)
  (Hrun : rtc (step committeeFunc MaxCommittableAge pruned) (NewManager slot0 weight0 ∅ ∅, []) (m, log))
  (Hslot : lastCommittedSlot m + 1 <= ty_max Uint32) (Hage : mca <= lastCommittedSlot m + 1)
  (Hpruned : pruned (lastCommittedSlot m + 1) = false) (Hcom : committeeFunc (lastCommittedSlot m + 1) = Some com) :
  exists w' root m', Commit committeeFunc MaxCommittableAge pruned (lastCommittedSlot m + 1) m = Ret (Some (w', root), m')
    /\ lastCommittedSlot m' = lastCommittedSlot m + 1
    /\ root = att_root (slot_of (committedAttestations m') (lastCommittedSlot m'))
    /\ w' = u64 (lastCumulativeWeight m + Z.of_nat (size (slot_of (committedAttestations m') (lastCommittedSlot m'))))
    /\ lastCumulativeWeight m' = w'
    /\ forall id, best (fun a => att_IssuerID a = id /\ is_Some (GetSeat id com) /\ lastCommittedSlot m' - mca <= att_slot a
                     /\ logged log (lastCommittedSlot m') a) (slot_of (committedAttestations m') (lastCommittedSlot m') !! id).
Proof.
  assert (HI : run_inv mca m log).
  { change m with (m, log).1. change log with (m, log).2. eapply (run_invariant committeeFunc MaxCommittableAge pruned mca Hmca Hmca0); [exact Hrun|]. by eapply new_inv. }
  destruct (Commit_tree committeeFunc MaxCommittableAge pruned mca Hmca Hmca0 m log com HI) as (w' & root & m' & HC & Hroot & Hw & Hw' & Hl & Hb); try done.
  exists w', root, m'. rewrite Hl. done.
Qed.

(** *** Snapshots *)
Definition exportable (a : Attestation) : Prop :=
  api_known (att_ProtocolVersion a) = true /\ in_range Uint64 (Z.of_nat (length (att_Encode (att_ProtocolVersion a) a))).

Lemma parses_attestation a : exportable a -> parses attestation_reader (WriteBlob (att_Encode (att_ProtocolVersion a) a)) a.
Proof.
  intros [Hk Hl]. unfold attestation_reader. rewrite WriteBlob_spec. eapply parses_map; [by apply parses_blob|].
  eapply parses_map; [rewrite Version_Encode; apply parses_option|]. rewrite Hk, Decode_Encode. apply parses_option.
Qed.

Lemma parses_collection l : Forall exportable l -> in_range Uint64 (Z.of_nat (length l)) ->
  parses (ReadCollection attestation_reader) (WriteCollection (Z.of_nat (length l)) (l ≫= fun a => WriteBlob (att_Encode (att_ProtocolVersion a) a))) l.
Proof.
  intros Hl Hn rest. rewrite ReadCollection_spec, WriteCollection_spec. eapply parses_bind; [by apply parses_u64|].
  rewrite Nat2Z.id. apply (parses_n _ (fun a => WriteBlob (att_Encode (att_ProtocolVersion a) a))). eapply Forall_impl; [exact Hl|]. intros a. apply parses_attestation.
Qed.

Lemma export_blobs l : Forall exportable l ->
  (blobs ← mapM (fun a => if api_known (att_ProtocolVersion a) then Some (WriteBlob (att_Encode (att_ProtocolVersion a) a)) else None) l; Some (mjoin blobs))
  = Some (l ≫= fun a => WriteBlob (att_Encode (att_ProtocolVersion a) a)).
Proof.
  induction 1 as [|a l [Hk _] _ IH]; [done|]. cbn [mapM]. rewrite Hk. cbn [mbind option_bind]. destruct (mapM _ l) as [bl|]; [|done].
  cbn [mbind option_bind] in IH |- *. injection IH as IH. rewrite bind_cons, <- IH. done.
Qed.

Lemma att_Export_bytes slot m tree : slot <= lastCommittedSlot m -> (computeAttestationCommitmentOffset MaxCommittableAge slot).2 = true ->
  pruned slot = false -> slot_of (committedAttestations m) slot = tree -> Forall exportable (range_of tree).*2 ->
  Export MaxCommittableAge pruned slot m
  = Some (WriteCollection (Z.of_nat (length (range_of tree).*2)) ((range_of tree).*2 ≫= fun a => WriteBlob (att_Encode (att_ProtocolVersion a) a))).
Proof.
  intros Hs Hv Hp Ht Hl. unfold Export. destruct (Z.ltb_spec (lastCommittedSlot m) slot); [lia|]. rewrite Hv. cbn [negb].
  unfold attestationsForSlot. rewrite Hp, Ht. cbn [mbind option_bind]. pose proof (export_blobs _ Hl) as Hb.
  destruct (mapM _ _) as [blobs|]; cbn in Hb |- *; simplify_eq. by rewrite Hb.
Qed.

(** A snapshot of the attestations restores the pending window: exporting the tree of the slot that was
    just committed and importing it into a fresh manager at that slot consumes the exported
    bytes and leaves, for every later slot of the window and every committee member, the greatest
    attestation of the same candidates as in the exporting manager. *)
Theorem attestation_snapshot mca m0 log m com w root weight rest
  (Hmca : forall slot, MaxCommittableAge slot = mca) (Hmca0 : 0 <= mca)
  (HI : run_inv mca m0 log) (Hslot : lastCommittedSlot m0 + 1 <= ty_max Uint32) (Hage : mca <= lastCommittedSlot m0 + 1)
  (Hpruned : pruned (lastCommittedSlot m0 + 1) = false) (Hcom : committeeFunc (lastCommittedSlot m0 + 1) = Some com)
  (HC : Commit committeeFunc MaxCommittableAge pruned (lastCommittedSlot m0 + 1) m0 = Ret (Some (w, root), m))
  (Hexp : map_Forall (fun _ a => exportable a) (slot_of (committedAttestations m) (lastCommittedSlot m)))
  (Hsize : in_range Uint64 (Z.of_nat (size (slot_of (committedAttestations m) (lastCommittedSlot m))))) :
  exists snapshot m', Export MaxCommittableAge pruned (lastCommittedSlot m) m = Some snapshot
    /\ Import MaxCommittableAge (snapshot ++ rest) (NewManager (lastCommittedSlot m) weight ∅ ∅) = Some (m', rest)
    /\ forall i id, lastCommittedSlot m - mca < i -> is_Some (GetSeat id com) ->
         let candidates := fun a => logged log (lastCommittedSlot m) a /\ att_IssuerID a = id /\ i <= att_slot a in
         best candidates (slot_of (pendingAttestations m) i !! id) /\ best candidates (slot_of (pendingAttestations m') i !! id).
Proof.
  destruct (Commit_tree committeeFunc MaxCommittableAge pruned mca Hmca Hmca0 m0 log com HI Hslot Hage Hpruned Hcom) as (w1 & root1 & m1 & HC1 & _ & _ & _ & Hl & Hb).
  rewrite HC in HC1. injection HC1 as <- <- <-. pose proof (StepCommit_inv committeeFunc MaxCommittableAge pruned mca Hmca Hmca0 m0 m log (w, root) HI Hslot HC) as HI'.
  rewrite <- Hl in *. set (slot := lastCommittedSlot m) in *. set (tree := slot_of (committedAttestations m) slot) in *.
  pose proof (ri_range _ _ _ HI') as Hr. fold slot in Hr.
  assert (Hc : computeAttestationCommitmentOffset MaxCommittableAge slot = (slot - mca, true)).
  { unfold computeAttestationCommitmentOffset. rewrite Hmca. destruct (Z.ltb_spec slot mca); [lia|]. rewrite wrap_id; [done|]. unfold in_range. cbn in *. lia. }
  assert (Hfx : Forall exportable (range_of tree).*2).
  { apply Forall_forall. intros a ([k v] & -> & Hk%elem_of_range)%list_elem_of_fmap. by apply (Hexp k). }
  assert (Hlen : length (range_of tree).*2 = size tree) by by rewrite length_fmap, (Permutation_length (range_of_perm _)), length_map_to_list.
  eexists _, (apply_all (range_of tree).*2 (slot - mca) (NewManager slot weight ∅ ∅)). split; [apply (att_Export_bytes slot m tree); (done || by rewrite Hc)|].
  split.
  { unfold Import. rewrite (parses_collection _ Hfx ltac:(by rewrite Hlen) rest). cbn [mbind option_bind]. cbn [NewManager lastCommittedSlot]. by rewrite Hc. }
  intros i id Hi Hseat. cbv zeta. split.
  - apply (ri_window _ _ _ HI'). fold slot. unfold window_start. destruct (Z.ltb_spec slot mca); lia.
  - assert (HW : window_best (pendingAttestations (apply_all (range_of tree).*2 (slot - mca) (NewManager slot weight ∅ ∅))) (slot - mca)
        (fun b => False \/ (is_Some (GetSeat (att_IssuerID b) com) /\ slot - mca <= att_slot b /\ logged log slot b))).
    { apply (window_best_widen _ _ _ _ tree).
      - intros j. eapply best_ext; [|apply Hb]. intros a. cbn. naive_solver.
      - apply apply_all_window. intros i' j' _. unfold slot_of. cbn. rewrite !lookup_empty. cbn. rewrite lookup_empty. cbn. naive_solver. }
    eapply best_ext; [|apply (HW i id); lia]. intros a. cbn. split; [naive_solver|]. intros (? & <- & ?). split; [|done]. right. split; [done|]. split; [lia|done].
Qed.
End Claims.

(** ** A concrete instance *)
Module AttDemo.
#[local] Instance Attestation_countable : Countable Attestation :=
  inj_countable' (fun a => (att_IssuerID a, cid_hash (att_SlotCommitmentID a), CommitmentSlot (att_SlotCommitmentID a), att_IssuingTime a, att_ProtocolVersion a, att_Rest a))
    (fun '(i, h, s, t, v, r) => mkAttestation i (mkCommitmentID h s) t v r) ltac:(by intros [? [] ? ? ?]).

(** A positive number as the list of its bits. *)
Fixpoint bits (p : positive) : bytes := match p with xH => [] | xO p => x00 :: bits p | xI p => x01 :: bits p end.
Fixpoint unbits (bs : bytes) : positive := match bs with [] => xH | b :: bs => if Byte.eqb b x00 then xO (unbits bs) else xI (unbits bs) end.
Lemma unbits_bits p : unbits (bits p) = p.
Proof. induction p as [p IH|p IH|]; cbn; by rewrite ?IH. Qed.

Definition demo_compare (a b : Attestation) : Z :=
  if att_slot b <? att_slot a then 1
  else if att_slot a =? att_slot b then (if att_IssuingTime b <? att_IssuingTime a then 1 else 0) else 0.
#[local] Instance demo_ops : AttestationOps := {|
  NewAttestation b := mkAttestation (IssuerID b) (SlotCommitmentID b) (IssuingTime b) 3 (bid_hash (ID b));
  Compare := demo_compare;
  att_root t := Z.of_nat (size t);
  VersionFromBytes bs := att_ProtocolVersion <$> decode (unbits bs);
  api_known v := v =? 3;
  att_Encode _ a := bits (encode a);
  att_Decode _ bs := decode (unbits bs);
  WriteCollection n body := put_le 8 n ++ body;
  ReadCollection A p := n ← read_le 8; read_n (Z.to_nat n) p |}.
#[local] Instance demo_spec : AttestationSpec demo_ops.
Proof.
  split; cbn; try done.
  - intros a b H. unfold demo_compare. by destruct (Z.ltb_spec (att_slot b) (att_slot a)); [|lia].
  - intros a b. unfold demo_compare. repeat case_match; try done; lia.
  - intros a b c. unfold demo_compare. repeat case_match; try done; lia.
  - intros a. by rewrite unbits_bits, decode_encode.
  - intros a. by rewrite unbits_bits, decode_encode.
Qed.
#[local] Instance demo_order : RangeOrder AccountID := canonical_order AccountID.

Definition demo_committee : SeatedAccounts := mkSeated NewAccounts {[7 := 0; 9 := 1]}.
Definition demo_block (issuer slot commits time : Z) : ModelBlock :=
  mkModelBlock (mkBlockID time slot) issuer time (mkCommitmentID 0 commits) Validation [] 0.

(** Two blocks of member 7 and one of member 9; slot 1 is committed, slot 2 is next. *)
Lemma demo_run : exists m log,
  rtc (step (fun _ => Some demo_committee) (fun _ => 2) (fun _ => false)) (NewManager 0 5 ∅ ∅, []) (m, log)
  /\ lastCommittedSlot m = 1 /\ lastCumulativeWeight m = 5.
Proof.
  eexists _, _. split.
  - eapply rtc_l; [apply (StepAdd _ _ _ (demo_block 7 1 0 100)); vm_compute; reflexivity|].
    eapply rtc_l; [apply (StepAdd _ _ _ (demo_block 7 2 1 90)); vm_compute; reflexivity|].
    eapply rtc_l; [apply (StepAdd _ _ _ (demo_block 9 2 1 110)); vm_compute; reflexivity|].
    eapply rtc_l; [eapply StepCommit; [vm_compute; congruence|vm_compute; reflexivity]|]. apply rtc_refl.
  - split; vm_compute; reflexivity.
Qed.

Lemma attestation_commit_exact_witness : exists m log,
  rtc (step (fun _ => Some demo_committee) (fun _ => 2) (fun _ => false)) (NewManager 0 5 ∅ ∅, []) (m, log)
  /\ lastCommittedSlot m = 1
  /\ exists w' root m', Commit (fun _ => Some demo_committee) (fun _ => 2) (fun _ => false) 2 m = Ret (Some (w', root), m')
       /\ forall id, best (fun a => att_IssuerID a = id /\ is_Some (GetSeat id demo_committee) /\ 0 <= att_slot a /\ logged log 2 a) (slot_of (committedAttestations m') 2 !! id).
Proof.
  destruct demo_run as (m & log & Hrun & Hl & Hw). exists m, log. split; [done|]. split; [done|].
  destruct (attestation_commit_exact (fun _ => Some demo_committee) (fun _ => 2) (fun _ => false) 2 0 5 m log demo_committee)
    as (w' & root & m' & HC & Hl' & _ & _ & _ & Hb); try (done || (rewrite Hl; vm_compute; congruence)).
  rewrite Hl' in Hb. rewrite Hl in HC, Hb. exists w', root, m'. split; [done|]. exact Hb.
Defined.

Definition demo_m0 : Manager := mkManager ∅ {[1 := {[7 := NewAttestation (demo_block 7 1 1 100)]}]} ∅ ∅ 2 5.
Definition demo_log : list (SlotIndex * Attestation) := [(1, NewAttestation (demo_block 7 1 1 100))].
Lemma demo_inv : run_inv 2 demo_m0 demo_log.
Proof.
  split; cbn; [lia| | | |done].
  - intros t j Ht. unfold slot_of. rewrite lookup_empty. cbn. rewrite lookup_empty. cbn. intros b [Hb _]. unfold demo_log in Hb. apply list_elem_of_singleton in Hb. simplify_eq. lia.
  - intros i j Hi. assert (Hlog : forall a, logged demo_log 2 a <-> a = NewAttestation (demo_block 7 1 1 100)).
    { intros a. unfold logged, demo_log. setoid_rewrite list_elem_of_singleton. split; [intros (t & _ & ?); by simplify_eq|intros ->; exists 1; split; [lia|done]]. }
    destruct (decide (i = 1)) as [->|Hne].
    + unfold slot_of. rewrite lookup_singleton_eq. cbn. destruct (decide (j = 7)) as [->|Hj].
      * rewrite lookup_singleton_eq. split; [rewrite Hlog; done|]. intros b [->%Hlog _]. vm_compute. congruence.
      * rewrite lookup_singleton_ne by done. intros b [->%Hlog [? _]]. cbn in *. congruence.
    + unfold slot_of. rewrite lookup_singleton_ne by done. cbn. rewrite lookup_empty. intros b [->%Hlog [_ Hs]]. unfold window_start in Hi. cbn in Hi, Hs. unfold att_slot in Hs. cbn in Hs. lia.
  - intros t _. unfold slot_of. by rewrite lookup_empty.
Qed.

Lemma attestation_snapshot_witness : exists w root m snapshot m',
  Commit (fun _ => Some demo_committee) (fun _ => 2) (fun _ => false) 3 demo_m0 = Ret (Some (w, root), m)
  /\ Export (fun _ => 2) (fun _ => false) 3 m = Some snapshot
  /\ Import (fun _ => 2) (snapshot ++ [xff]) (NewManager 3 w ∅ ∅) = Some (m', [xff]).
Proof.
  set (m := mkManager ∅ ∅ {[3 := {[7 := NewAttestation (demo_block 7 1 1 100)]}]} ∅ 3 6).
  assert (HC : Commit (fun _ => Some demo_committee) (fun _ => 2) (fun _ => false) 3 demo_m0 = Ret (Some (6, 1), m)) by (vm_compute; reflexivity).
  assert (Hexp : map_Forall (fun _ a => exportable a) (slot_of (committedAttestations m) (lastCommittedSlot m))).
  { intros k v. unfold slot_of. cbn [m committedAttestations lastCommittedSlot]. rewrite lookup_singleton_eq. cbn [default from_option id].
    intros [<- <-]%lookup_singleton_Some. split; [done|]. apply (bool_decide_unpack _). vm_compute. exact I. }
  assert (Hsize : in_range Uint64 (Z.of_nat (size (slot_of (committedAttestations m) (lastCommittedSlot m))))) by (apply (bool_decide_unpack _); vm_compute; exact I).
  destruct (attestation_snapshot (fun _ => Some demo_committee) (fun _ => 2) (fun _ => false) 2 demo_m0 demo_log m demo_committee 6 1 6 [xff]
    (fun _ => eq_refl) ltac:(lia) demo_inv ltac:(vm_compute; congruence) ltac:(vm_compute; congruence) eq_refl eq_refl HC Hexp Hsize) as (snapshot & m' & HE & HI & _).
  exists 6, 1, m, snapshot, m'. split; [exact HC|]. split; [exact HE|exact HI].
Defined.
End AttDemo.
