(* ===== verification/Storage.v ===== *)
(** * Pruning the storage (pkg/storage/storage_pruning.go, pkg/storage/permanent)

    [Storage] combines the prunable storage with the permanent one, which holds the UTXO
    ledger.  Pruning removes the oldest epochs, on request, by depth or by size, and
    never the history of the last finalized epochs.

    Parameters: those of the prunable storage and of the UTXO ledger, the sizes of
    directories, and the time.  [isPruning] is set while a call runs and reset when
    it returns: it is the state between calls that is modelled, where it is false.
    Locks are left out. *)
From Stdlib Require Import Strings.Byte.
From S2P Require Import Prelude Bytes KvStore Block TimeApi EpochStore Float64 CoreAccount Prunable PrunableProps UtxoLedger UtxoRefine UtxoProps.
Import UtxoLedger.

Module Storage.

(** [int64(f)]: out of range, amd64 gives the least integer. *)
Definition int64_of (f : float64) : Z := default (- 2 ^ 63) (to_int64 f).
(** The constant 1.2. *)
Definition f1_2 : float64 := fdiv (of_Z 12) (of_Z 10).

Record Options := mkOptions {
  optsPruningDelay : EpochIndex;
  optPruningSizeEnabled : bool;
  optsPruningSizeMaxTargetSizeBytes : Z;
  optsPruningSizeReductionPercentage : float64;
  optsPruningSizeCooldownTime : Z;
}.
(** The defaults of [New]; the percentage is 0.1. *)
Definition defaultOptions : Options :=
  mkOptions 30 false (30 * 1024 * 1024 * 1024) (fdiv (of_Z 1) (of_Z 10)) (5 * 60 * 1000000000).

Section Storage.
Context {C S : Type} `{!DBCache C} `{KV : KVStore S} `{!Empty S} `{!SlotBytes} `{!TimeProvider} (FolderSize : option S -> option Z)
  {S' T : Type} `{MU : MarshalUtil} `{I : LedgerIDs} `{KV' : KVStore S'} `{ST : StateTree T}
  (permanentSize : Manager S' T -> Z) (semiPermanentSize : Prunable.Prunable C S -> Z) (opts : Options).

Record Storage := mkStorage {
  prunable : Prunable.Prunable C S;
  utxoLedger : Manager S' T;
  latestFinalizedSlot : SlotIndex;                   (* of the settings *)
  lastPrunedEpoch : EvictionIndex.t;
  lastPrunedSizeTime : Z;
}.
Implicit Types s : Storage.
Definition with_prunable v s := mkStorage v (utxoLedger s) (latestFinalizedSlot s) (lastPrunedEpoch s) (lastPrunedSizeTime s).
Definition with_ledger v s := mkStorage (prunable s) v (latestFinalizedSlot s) (lastPrunedEpoch s) (lastPrunedSizeTime s).
Definition with_last v s := mkStorage (prunable s) (utxoLedger s) (latestFinalizedSlot s) v (lastPrunedSizeTime s).
Definition with_size_time v s := mkStorage (prunable s) (utxoLedger s) (latestFinalizedSlot s) (lastPrunedEpoch s) v.

(** ** Permanent storage *)

(** [for slot := start; slot <= end; slot++] *)
Fixpoint prune_slots (slots : list SlotIndex) (m : Manager S' T) : result lerror unit * Manager S' T :=
  match slots with
  | [] => (Ok tt, m)
  | slot :: slots => let '(r, m) := PruneSlotIndex slot m in match r with Ok _ => prune_slots slots m | Err e => (Err e, m) end
  end.
Definition PruneUTXOLedger (epoch : EpochIndex) (m : Manager S' T) : result lerror unit * Manager S' T :=
  prune_slots (seqZ (EpochStart epoch) (EpochEnd epoch - EpochStart epoch + 1)) m.

(** ** Pruning *)
Definition prunable_Size (p : Prunable.Prunable C S) : Z := i64 (BucketManager.TotalSize FolderSize (Prunable.prunableSlotStore p) + semiPermanentSize p).
Definition Size s : Z := i64 (permanentSize (utxoLedger s) + prunable_Size (prunable s)).

Definition LastPrunedEpoch s : EpochIndex * bool := EvictionIndex.Index (lastPrunedEpoch s).
Definition getPruningStart (epoch : EpochIndex) s : option EpochIndex :=
  let '(last, hasPruned) := EvictionIndex.Index (lastPrunedEpoch s) in
  if hasPruned && (epoch <=? last) then None else Some (EvictionIndex.NextIndex (lastPrunedEpoch s)).
Definition latestPrunableEpoch s : EpochIndex :=
  let currentFinalizedEpoch := EpochFromSlot (latestFinalizedSlot s) in
  if currentFinalizedEpoch <? 2 then 0 else currentFinalizedEpoch - 2.

Definition zoom_prunable {A} (m : sprog (Prunable.Prunable C S) StorageError A) : sprog Storage StorageError A := fun s =>
  let '(r, p) := m (prunable s) in (r, with_prunable p s).

Definition zoom_ledger (f : Manager S' T -> result lerror unit * Manager S' T) : sprog Storage StorageError unit := fun s =>
  let '(r, m) := f (utxoLedger s) in (match r with Ok _ => Ok tt | Err _ => Err ErrOther end, with_ledger m s).

(** One round of the loop. *)
Definition prune_one (currentEpoch pruningDelay : EpochIndex) : sprog Storage StorageError unit :=
  _ ← zoom_prunable (Prunable.Prune FolderSize currentEpoch pruningDelay);
  zoom_ledger (PruneUTXOLedger currentEpoch).
Fixpoint prune_epochs (epochs : list EpochIndex) (pruningDelay : EpochIndex) : sprog Storage StorageError unit :=
  match epochs with
  | [] => mret tt
  | e :: epochs => _ ← prune_one e pruningDelay; prune_epochs epochs pruningDelay
  end.
Definition pruneUntilEpoch (startEpoch targetEpoch pruningDelay : EpochIndex) : sprog Storage StorageError unit :=
  _ ← prune_epochs (seqZ startEpoch (targetEpoch - startEpoch + 1)) pruningDelay;
  s_update (fun s => with_last (EvictionIndex.MarkEvicted targetEpoch (lastPrunedEpoch s)).2 s).

Definition PruneByEpochIndex (epoch : EpochIndex) : sprog Storage StorageError unit :=
  latest ← s_read latestPrunableEpoch;
  if latest <? epoch then s_fail ErrOther
  else
    start ← s_read (getPruningStart epoch);
    match start with
    | None => s_fail ErrOther
    | Some start => pruneUntilEpoch start epoch 0
    end.

(** Returns the first and the last epoch pruned. *)
Definition PruneByDepth (epochDepth : EpochIndex) : sprog Storage StorageError (EpochIndex * EpochIndex) :=
  let epochDepth := if epochDepth =? 0 then 1 else epochDepth in
  latest ← s_read latestPrunableEpoch;
  if latest <? epochDepth then s_fail ErrNoPruningNeeded
  else
    let end_ := latest - (epochDepth - 1) in
    start ← s_read (getPruningStart end_);
    match start with
    | None => s_fail ErrEpochPruned
    | Some start => _ ← pruneUntilEpoch start end_ epochDepth; mret (start, end_)
    end.

(** The loop over the epochs; true when enough was pruned. *)
Fixpoint prune_by_size (epochs : list EpochIndex) (totalBytesToPrune : Z) : sprog Storage StorageError bool :=
  match epochs with
  | [] => mret false
  | prunedEpoch :: epochs =>
      bucketSize ← zoom_prunable (Prunable.zoom_slots (BucketManager.BucketSize FolderSize prunedEpoch));
      let totalBytesToPrune := i64 (totalBytesToPrune - int64_of (fmul (of_Z bucketSize) f1_2)) in
      _ ← pruneUntilEpoch prunedEpoch prunedEpoch 0;
      if totalBytesToPrune <=? 0 then mret true else prune_by_size epochs totalBytesToPrune
  end.

(** The deferred assignment of the time runs however the loop ends. *)
Definition finally {A} (f : Storage -> Storage) (m : sprog Storage StorageError A) : sprog Storage StorageError A := fun s =>
  let '(r, s) := m s in (r, f s).

Definition PruneBySize (now : Z) (targetSizeMaxBytes : option Z) : sprog Storage StorageError unit :=
  if negb (optPruningSizeEnabled opts) && is_none targetSizeMaxBytes then s_fail ErrNoPruningNeeded
  else
    lastTime ← s_read lastPrunedSizeTime;
    if now - lastTime <? optsPruningSizeCooldownTime opts then s_fail ErrNoPruningNeeded
    else
      let dbMaxSize := default (optsPruningSizeMaxTargetSizeBytes opts) targetSizeMaxBytes in
      let dbTargetSizeAfterPruning :=
        default (int64_of (fmul (of_Z (optsPruningSizeMaxTargetSizeBytes opts)) (fsub (of_Z 1) (optsPruningSizeReductionPercentage opts))))
          targetSizeMaxBytes in
      currentDBSize ← s_read Size;
      if currentDBSize <? dbMaxSize then s_fail ErrNoPruningNeeded
      else
        latest ← s_read latestPrunableEpoch;
        start ← s_read (getPruningStart latest);
        match start with
        | None => s_fail ErrEpochPruned
        | Some start =>
            finally (with_size_time now)
              (enough ← prune_by_size (seqZ start (latest - start + 1)) (i64 (currentDBSize - dbTargetSizeAfterPruning));
               if enough : bool then mret tt
               else
                 currentDBSize ← s_read Size;
                 if dbMaxSize <? currentDBSize then s_fail ErrDatabaseFull else mret tt)
        end.

(** Nothing to prune is not an error. *)
Definition TryPrune (now : Z) : sprog Storage StorageError unit := fun s =>
  match PruneByDepth (optsPruningDelay opts) s with
  | (Err ErrNoPruningNeeded, s) | (Err ErrEpochPruned, s) => (Ok tt, s)
  | (Err e, s) => (Err e, s)
  | (Ok _, s) =>
      match PruneBySize now None s with
      | (Err ErrNoPruningNeeded, s) => (Ok tt, s)
      | r => r
      end
  end.

(** ** Restart and rollback (storage_prunable.go) *)
Definition RestoreFromDisk s : Storage :=
  let '(last, p) := Prunable.RestoreFromDisk FolderSize (prunable s) in
  let s := with_prunable p s in
  if last =? 0 then s else with_last (EvictionIndex.MarkEvicted last (lastPrunedEpoch s)).2 s.
End Storage.
Arguments Storage C S S' T : clear implicits.
Arguments mkStorage {C S S' T} _ _ _ _ _.
End Storage.
