(* ===== verification/StorageClaims.v ===== *)
(** * Pruning keeps recent history

    [kept] says what a pruning operation may not change; [safe] lifts it to the methods of
    the storage with one rule per construct of the error monad, so that a method is proved
    safe by following its text. *)
From Stdlib Require Import Strings.Byte.
From S2P Require Import Prelude Bytes KvStore Block TimeApi EpochStore Float64 CoreAccount Accounts Prunable PrunableProps UtxoLedger UtxoRefine UtxoProps Storage.
Import UtxoLedger Storage.

Section StorageProps.
Context {C S : Type} `{!DBCache C} `{KVS : KVStoreSpec S} `{!Empty S} `{!EmptyStore S} `{BS : SlotBytesSpec} `{TPS : TimeProviderSpec}
  (FolderSize : option S -> option Z)
  {S' T' : Type} `{MS : MarshalSpec} `{IS : LedgerIDsSpec} `{KVS' : KVStoreSpec S'} `{STS : StateTreeSpec T'}
  (permanentSize : Manager S' T' -> Z) (semiPermanentSize : Prunable.Prunable C S -> Z) (opts : Options).
Implicit Types s : Storage C S S' T'.

Notation slots s := (Prunable.prunableSlotStore (prunable s)).

(** The epoch stores are well-formed. *)
Record storage_ok s : Prop := {
  ok_signals : store_ok (Prunable.decidedUpgradeSignals (prunable s));
  ok_rewards : store_ok (Prunable.poolRewards (prunable s));
  ok_stats : store_ok (Prunable.poolStats (prunable s));
  ok_committee : store_ok (Prunable.committee (prunable s));
}.

(** A store keeps its epochs from [f - pruningDelay] on. *)
Definition store_kept {V} (f : EpochIndex) (st st' : Store V) : Prop :=
  pruningDelay st' = pruningDelay st /\ forall e, 0 <= e -> f - pruningDelay st <= e -> Load e st' = Load e st.

(** With finalized epoch [f], or 2 while that is less: the slots of the epochs after [f - 2], the epoch stores
    within their delays, and the unspent outputs are as they were. *)
Record kept (f : EpochIndex) s s' : Prop := {
  kept_slots slot prefix k : f - 2 < EpochFromSlot slot -> slot_get slot prefix k (prunable s') = slot_get slot prefix k (prunable s);
  kept_access e : f - 2 < e -> BucketManager.IsTooOld e (slots s) = false -> BucketManager.IsTooOld e (slots s') = false;
  kept_signals : store_kept f (Prunable.decidedUpgradeSignals (prunable s)) (Prunable.decidedUpgradeSignals (prunable s'));
  kept_rewards : store_kept f (Prunable.poolRewards (prunable s)) (Prunable.poolRewards (prunable s'));
  kept_stats : store_kept f (Prunable.poolStats (prunable s)) (Prunable.poolStats (prunable s'));
  kept_committee : store_kept f (Prunable.committee (prunable s)) (Prunable.committee (prunable s'));
  kept_ledger L : represents (utxoLedger s) L -> ledger_ok L ->
    exists L', represents (utxoLedger s') L' /\ ledger_ok L' /\ l_unspent L' = l_unspent L
      /\ forall id, id ∈ l_unspent L -> l_outputs L' !! id = l_outputs L !! id;
  kept_finalized : latestFinalizedSlot s' = latestFinalizedSlot s;
}.

Lemma store_kept_refl {V} f (st : Store V) : store_kept f st st.
Proof. by split. Qed.
Lemma store_kept_trans {V} f (st1 st2 st3 : Store V) : store_kept f st1 st2 -> store_kept f st2 st3 -> store_kept f st1 st3.
Proof. intros [Hd1 Hq1] [Hd2 Hq2]. split; [congruence|]. intros e He Hf. rewrite Hq2, Hq1; try done. by rewrite Hd1. Qed.

#[local] Instance kept_refl f : Reflexive (kept f).
Proof. intros s. split; auto using store_kept_refl. intros L HR HL. by exists L. Qed.
#[local] Instance kept_trans f : Transitive (kept f).
Proof.
  intros s1 s2 s3 [Ha1 Hb1 Hc1 Hd1 He1 Hf1 Hg1 Hh1] [Ha2 Hb2 Hc2 Hd2 He2 Hf2 Hg2 Hh2]. split; eauto using store_kept_trans; try congruence.
  - intros. rewrite Ha2; auto.
  - intros L HR HL. destruct (Hg1 L HR HL) as (L1 & HR1 & HL1 & HU1 & HO1). destruct (Hg2 L1 HR1 HL1) as (L2 & HR2 & HL2 & HU2 & HO2).
    exists L2. split; [done|]. split; [done|]. split; [congruence|]. intros id Hid. rewrite HO2 by (by rewrite HU1). by apply HO1.
Qed.

(** ** Pruning one epoch *)
Section Epoch.
Context (f : EpochIndex) (Hf : in_range Uint32 f) (Hfok : epoch_ok (f - 2)).

(** An epoch [e] pruned with the delay [d] is old enough. *)
Definition old_enough (e d : EpochIndex) : Prop := 0 <= e <= f - 2 /\ 0 <= d /\ e + d <= f - 1.

Lemma Prune_store_kept {V} e d (st : Store V) : old_enough e d -> store_ok st -> store_kept f st (Prune e d st) /\ store_ok (Prune e d st).
Proof.
  intros (He & Hd & Hed) Hok. unfold in_range in Hf. cbn in Hf. assert (Hr : in_range Uint32 e) by (unfold in_range; cbn; lia).
  split; [|apply Prune_ok; auto; lia]. split.
  - pose proof (Prune_spec e d st) as [-> _]. by destruct (prune_target e d st).
  - intros e' He' Hf'. rewrite Prune_Load by done. unfold covers, prune_target, remaining_delay. repeat case_match; simplify_eq; try done; lia.
Qed.

Lemma bucket_Prune_kept e b r b' : 0 <= e <= f - 2 -> BucketManager.bm_Prune FolderSize e b = (r, b') ->
  (forall e' k, f - 2 < e' -> bucket_get e' k b' = bucket_get e' k b)
  /\ (forall e', f - 2 < e' -> BucketManager.IsTooOld e' b = false -> BucketManager.IsTooOld e' b' = false).
Proof.
  intros He. unfold BucketManager.bm_Prune. case_match; [intros; by simplify_eq|].
  pose proof (DeleteBucket_disk FolderSize e b) as Hd. destruct (BucketManager.DeleteBucket FolderSize e b) as [deleted b1]. destruct Hd as (_ & Hdisk & _).
  intros Hp. simplify_eq. split.
  - intros e' k He'. unfold bucket_get. cbn. rewrite Hdisk, lookup_delete_ne by lia. done.
  - intros e' He' _. unfold BucketManager.IsTooOld. cbn. apply Z.ltb_ge.
    unfold in_range in Hf. cbn in Hf. rewrite wrap_id by (unfold in_range; cbn; lia). lia.
Qed.

Definition safe_at {A} s (m : sprog (Storage C S S' T') StorageError A) : Prop :=
  storage_ok s -> Z.max 2 (EpochFromSlot (latestFinalizedSlot s)) = f -> storage_ok (m s).2 /\ kept f s (m s).2.
Definition safe {A} (m : sprog (Storage C S S' T') StorageError A) : Prop := forall s, safe_at s m.

Lemma safe_bind {A A'} (m : sprog (Storage C S S' T') StorageError A) (g : A -> sprog (Storage C S S' T') StorageError A') :
  safe m -> (forall a, safe (g a)) -> safe (m ≫= g).
Proof.
  intros Hm Hg s Hok Hs. unfold mbind, sprog_bind. destruct (m s) as [[a|e] s1] eqn:E.
  - pose proof (Hm s Hok Hs) as [Hok1 Hk1]. rewrite E in Hok1, Hk1. cbn in Hok1, Hk1.
    destruct (Hg a s1 Hok1) as [Hok2 Hk2]; [by rewrite (kept_finalized _ _ _ Hk1)|]. split; [done|]. by trans s1.
  - pose proof (Hm s Hok Hs) as [Hok1 Hk1]. by rewrite E in Hok1, Hk1.
Qed.
Lemma safe_ret {A} (a : A) : safe (mret a).
Proof. intros s Hok _. by split. Qed.
Lemma safe_fail {A} e : safe (s_fail e : sprog _ _ A).
Proof. intros s Hok _. by split. Qed.
Lemma safe_read {A} (g : Storage C S S' T' -> A) : safe (s_read g).
Proof. intros s Hok _. by split. Qed.
(** What was read is known to come from the state. *)
Lemma safe_at_read {A A'} (g : Storage C S S' T' -> A) (m : A -> sprog (Storage C S S' T') StorageError A') s :
  safe_at s (m (g s)) -> safe_at s (s_read g ≫= m).
Proof. done. Qed.

(** *** The operations *)
Lemma safe_prunable {A} (m : sprog (Prunable.Prunable C S) StorageError A) :
  (forall s, storage_ok s -> storage_ok (with_prunable (m (prunable s)).2 s) /\ kept f s (with_prunable (m (prunable s)).2 s)) -> safe (zoom_prunable m).
Proof. intros Hm s Hok _. unfold zoom_prunable. specialize (Hm s Hok). by destruct (m (prunable s)). Qed.

Lemma safe_Prune e d : old_enough e d -> safe (zoom_prunable (Prunable.Prune FolderSize e d)).
Proof.
  intros Ho. apply safe_prunable. intros s [H1' H2' H3' H4']. pose proof Ho as (He & _ & _).
  unfold Prunable.Prune, Prunable.zoom_slots, mbind, sprog_bind. destruct (BucketManager.bm_Prune FolderSize e (slots s)) as [r b] eqn:E.
  destruct (bucket_Prune_kept e _ _ _ He E) as [Hg Ht].
  destruct (Prune_store_kept e d _ Ho H1'), (Prune_store_kept e d _ Ho H2'), (Prune_store_kept e d _ Ho H3'), (Prune_store_kept e d _ Ho H4').
  destruct r; cbn; (split; [by split|]); (split; cbn; auto using store_kept_refl; try (intros L HR HL; by exists L)); intros slot prefix k Hlt; unfold slot_get; cbn; auto.
Qed.

Lemma prune_slots_kept (l : list SlotIndex) (m : Manager S' T') L :
  Forall (in_range Uint32) l -> represents m L -> ledger_ok L ->
  exists m' L', prune_slots l m = (Ok tt, m') /\ represents m' L' /\ ledger_ok L' /\ l_unspent L' = l_unspent L
    /\ forall id, id ∈ l_unspent L -> l_outputs L' !! id = l_outputs L !! id.
Proof.
  intros Hl. revert m L. induction Hl as [|slot l Hs _ IH]; intros m L HR HL; [by exists m, L|]. cbn [prune_slots].
  destruct (PruneSlotIndex_represents slot m L Hs HL HR) as (m1 & -> & HR1). destruct (spec_PruneSlotIndex_ok slot L HL) as (HL1 & HU1 & HO1).
  destruct (IH m1 _ HR1 HL1) as (m2 & L2 & E & HR2 & HL2 & HU2 & HO2). exists m2, L2. split; [done|]. split; [done|]. split; [done|].
  split; [congruence|]. intros id Hid. rewrite HO2 by (by rewrite HU1). by apply HO1.
Qed.

Lemma epoch_slots_range e : epoch_ok e -> Forall (in_range Uint32) (seqZ (EpochStart e) (EpochEnd e - EpochStart e + 1)).
Proof.
  intros He. apply Forall_forall. intros s. rewrite elem_of_seqZ, EpochStart_eq, EpochEnd_eq by done. pose proof EpochDurationSlots_pos. destruct He.
  unfold in_range. cbn. nia.
Qed.

Lemma safe_ledger e : 0 <= e <= f - 2 -> safe (zoom_ledger (PruneUTXOLedger e)).
Proof.
  intros He s Hok _. unfold zoom_ledger. destruct (PruneUTXOLedger e (utxoLedger s)) as [r m] eqn:E.
  split; [by destruct Hok; split|]. split; cbn; auto using store_kept_refl. intros L HR HL.
  destruct (prune_slots_kept (seqZ (EpochStart e) (EpochEnd e - EpochStart e + 1)) (utxoLedger s) L) as (m' & L' & E' & Hrest); [|done..|].
  - apply epoch_slots_range, epoch_ok_le with (f - 2); [lia|done].
  - unfold PruneUTXOLedger in E. rewrite E' in E. simplify_eq. by exists L'.
Qed.

Lemma safe_prune_epochs (l : list EpochIndex) d : (forall e, e ∈ l -> old_enough e d) -> safe (prune_epochs FolderSize l d).
Proof.
  induction l as [|e l IH]; intros Hl; cbn [prune_epochs]; [apply safe_ret|]. apply safe_bind; [|intros _; apply IH; set_solver].
  assert (Ho : old_enough e d) by (apply Hl; set_solver). apply safe_bind; [by apply safe_Prune|]. intros _. apply safe_ledger. by destruct Ho.
Qed.

Lemma safe_pruneUntil start target d : 0 <= start -> 0 <= d -> target <= f - 2 -> target + d <= f - 1 -> safe (pruneUntilEpoch FolderSize start target d).
Proof.
  intros Hs Hd Ht Htd. apply safe_bind.
  - apply safe_prune_epochs. intros e He%elem_of_seqZ. unfold old_enough. lia.
  - intros _ s Hok _. split; [by destruct Hok|]. split; cbn; auto using store_kept_refl. intros L HR HL. by exists L.
Qed.

Lemma getPruningStart_nonneg e s start : getPruningStart e s = Some start -> 0 <= start.
Proof.
  unfold getPruningStart, EvictionIndex.NextIndex. destruct (EvictionIndex.Index _) as [last []]; cbn; repeat case_match; intros; simplify_eq; try lia;
    match goal with |- 0 <= u32 ?x => pose proof (wrap_in_range Uint32 x) as Hw end; unfold in_range in Hw; cbn in Hw; lia.
Qed.

Lemma latestPrunable_eq s : Z.max 2 (EpochFromSlot (latestFinalizedSlot s)) = f -> latestPrunableEpoch s = f - 2.
Proof. intros Hs. unfold latestPrunableEpoch. case_match; lia. Qed.

Lemma safe_PruneByEpochIndex e : safe (PruneByEpochIndex FolderSize e).
Proof.
  intros s Hok Hs. apply safe_at_read; [|done..]. rewrite latestPrunable_eq by done. case_match eqn:El; [by apply safe_fail|].
  apply safe_at_read. destruct (getPruningStart e s) as [start|] eqn:Es; [|by apply safe_fail].
  apply getPruningStart_nonneg in Es. apply safe_pruneUntil; lia.
Qed.

Lemma safe_PruneByDepth d : 0 <= d -> safe (PruneByDepth FolderSize d).
Proof.
  intros Hd s Hok Hs. unfold PruneByDepth. set (d' := if d =? 0 then 1 else d). assert (Hd' : 1 <= d') by (unfold d'; case_match; lia).
  apply safe_at_read; [|done..]. case_match eqn:El; [by apply safe_fail|].
  pose proof (latestPrunable_eq s Hs) as Hlat. rewrite Hlat in *.
  apply safe_at_read. destruct (getPruningStart _ s) as [start|] eqn:Es; [|by apply safe_fail].
  apply getPruningStart_nonneg in Es. apply safe_bind; [apply safe_pruneUntil; lia|intros; apply safe_ret].
Qed.

Lemma safe_BucketSize e : safe (zoom_prunable (Prunable.zoom_slots (BucketManager.BucketSize FolderSize e))).
Proof.
  apply safe_prunable. intros s [H1' H2' H3' H4']. unfold Prunable.zoom_slots, BucketManager.BucketSize.
  repeat case_match; simplify_eq; cbn; (split; [by split|]); (split; cbn; auto using store_kept_refl; intros L HR HL; by exists L).
Qed.

Lemma safe_prune_by_size (l : list EpochIndex) n : (forall e, e ∈ l -> 0 <= e <= f - 2) -> safe (prune_by_size FolderSize l n).
Proof.
  induction l as [|e l IH] in n |- *; intros Hl; cbn [prune_by_size]; [apply safe_ret|]. apply safe_bind; [apply safe_BucketSize|]. intros size.
  assert (He : 0 <= e <= f - 2) by (apply Hl; set_solver). apply safe_bind; [apply safe_pruneUntil; lia|]. intros _.
  case_match; [apply safe_ret|]. apply IH. set_solver.
Qed.

Lemma safe_finally {A} now (m : sprog (Storage C S S' T') StorageError A) : safe m -> safe (finally (with_size_time now) m).
Proof.
  intros Hm s Hok Hs. destruct (Hm s Hok Hs) as [Hok' Hk']. unfold finally. destruct (m s) as [r s1]. cbn in *. split; [by destruct Hok'; split|].
  trans s1; [done|]. split; cbn; auto using store_kept_refl. intros L HR HL. by exists L.
Qed.

Lemma safe_PruneBySize now target : safe (PruneBySize FolderSize permanentSize semiPermanentSize opts now target).
Proof.
  unfold PruneBySize. case_match; [apply safe_fail|]. apply safe_bind; [apply safe_read|]. intros last. case_match; [apply safe_fail|].
  apply safe_bind; [apply safe_read|]. intros size. case_match; [apply safe_fail|]. intros s Hok Hs. apply safe_at_read; [|done..].
  rewrite latestPrunable_eq by done. apply safe_at_read. destruct (getPruningStart _ s) as [start|] eqn:Es; [|by apply safe_fail].
  apply getPruningStart_nonneg in Es. apply safe_finally, safe_bind.
  - apply safe_prune_by_size. intros e He%elem_of_seqZ. lia.
  - intros []; [apply safe_ret|]. apply safe_bind; [apply safe_read|]. intros size'. case_match; [apply safe_fail|apply safe_ret].
Qed.

Lemma safe_TryPrune now : 0 <= optsPruningDelay opts -> safe (TryPrune FolderSize permanentSize semiPermanentSize opts now).
Proof.
  intros Hd s Hok Hs. unfold TryPrune. destruct (safe_PruneByDepth (optsPruningDelay opts) Hd s Hok Hs) as [Hok1 Hk1].
  destruct (PruneByDepth FolderSize (optsPruningDelay opts) s) as [[a|e] s1]; [|by destruct e]. cbn in *.
  destruct (safe_PruneBySize now None s1 Hok1) as [Hok2 Hk2]; [by rewrite (kept_finalized _ _ _ Hk1)|].
  assert (Hk : kept f s (PruneBySize FolderSize permanentSize semiPermanentSize opts now None s1).2) by (by trans s1).
  destruct (PruneBySize FolderSize permanentSize semiPermanentSize opts now None s1) as [[a'|e'] s2]; [done|by destruct e'].
Qed.
End Epoch.
End StorageProps.

(** * What pruning removes and what it keeps

    The claims about the storage, an evaluation on a small one, and the early epochs
    that pruning by index does not protect. *)
From S2P Require Import UtxoClaims.
Import UtxoLedger Storage.

Section Claims.
Context {C S : Type} `{!DBCache C} `{KVS : KVStoreSpec S} `{!Empty S} `{!EmptyStore S} `{BS : SlotBytesSpec} `{TPS : TimeProviderSpec}
  (FolderSize : option S -> option Z)
  {S' T' : Type} `{MS : MarshalSpec} `{IS : LedgerIDsSpec} `{KVS' : KVStoreSpec S'} `{STS : StateTreeSpec T'}
  (permanentSize : Manager S' T' -> Z) (semiPermanentSize : Prunable.Prunable C S -> Z) (opts : Options).
Implicit Types s : Storage C S S' T'.
Notation slots s := (Prunable.prunableSlotStore (prunable s)).

(** The ways to prune. *)
Inductive prune_op :=
| OpTryPrune (now : Z)
| OpByEpochIndex (epoch : EpochIndex)
| OpByDepth (epochDepth : EpochIndex)
| OpBySize (now : Z) (target : option Z).
Definition op_ok (op : prune_op) : Prop := match op with OpByDepth d => 0 <= d | _ => True end.
(** The state an operation leaves, whether it fails or not. *)
Definition run_prune (op : prune_op) s : Storage C S S' T' :=
  match op with
  | OpTryPrune now => (TryPrune FolderSize permanentSize semiPermanentSize opts now s).2
  | OpByEpochIndex e => (PruneByEpochIndex FolderSize e s).2
  | OpByDepth d => (PruneByDepth FolderSize d s).2
  | OpBySize now target => (PruneBySize FolderSize permanentSize semiPermanentSize opts now target s).2
  end.

(** C29 Pruning keeps recent history.  Let [f] be the finalized epoch, or 2 while epoch 0 or 1 is being finalized.  No sequence of pruning calls, failing or
    not, changes a store of a slot in an epoch after [f - 2] or makes such a slot inaccessible, loses an entry of an epoch store
    within its pruning delay of [f], or an unspent output of the ledger.  While epoch 0 or 1 is being finalized epoch 0 is not covered: pruning
    by index or size deletes it, contrary to the comment of latestPrunableEpoch. *)
Theorem storage_prune_safe (ops : list prune_op) s
  (Hok : storage_ok s) (Hops : Forall op_ok ops) (Hdelay : 0 <= optsPruningDelay opts)
  (Hslot : in_range Uint32 (latestFinalizedSlot s)) :
  let s' := foldl (fun s op => run_prune op s) s ops in
  storage_ok s' /\ kept (Z.max 2 (EpochFromSlot (latestFinalizedSlot s))) s s'.
Proof.
  pose proof (EpochFromSlot_ok _ Hslot) as Hfok. pose proof (epoch_ok_range _ Hfok) as Hfr. remember (Z.max 2 (EpochFromSlot (latestFinalizedSlot s))) as f eqn:Ef.
  assert (Hf2 : epoch_ok (f - 2)) by (apply epoch_ok_le with (EpochFromSlot (latestFinalizedSlot s)); [unfold in_range in Hfr; cbn in Hfr; lia|done]). assert (Hfr2 : in_range Uint32 f) by (unfold in_range in *; cbn in *; lia).
  clear Hslot Hfok Hfr. revert s Hok Ef. induction Hops as [|op ops Hop _ IH]; intros s Hok Ef; cbn [foldl].
  - split; [done|]. apply kept_refl.
  - assert (Hs : storage_ok (run_prune op s) /\ kept f s (run_prune op s)).
    { destruct op; [apply safe_TryPrune|apply safe_PruneByEpochIndex|apply safe_PruneByDepth|apply safe_PruneBySize]; done. }
    destruct Hs as [Hok1 Hk1]. destruct (IH (run_prune op s) Hok1) as [Hok2 Hk2]; [by rewrite (kept_finalized _ _ _ Hk1)|].
    split; [done|]. by eapply kept_trans.
Qed.

End Claims.

(** ** Pruning by index is complete *)
Section Complete.
Context {C S : Type} `{!DBCache C} `{KVS : KVStoreSpec S} `{!Empty S} `{!EmptyStore S} `{BS : SlotBytesSpec} `{TPS : TimeProviderSpec}
  (FolderSize : option S -> option Z)
  {S' T' : Type} `{MS : MarshalSpec} `{IS : LedgerIDsSpec} `{KVS' : KVStoreSpec S'} `{STS : StateTreeSpec T'}.
Implicit Types s : Storage C S S' T'.
Notation slots s := (Prunable.prunableSlotStore (prunable s)).

(** Buckets are left from epoch [i] on. *)
Definition buckets_from (i : EpochIndex) s : Prop :=
  (EvictionIndex.Index (BucketManager.lastPrunedEpoch (slots s))).1 <= i
  /\ forall e x, BucketManager.disk (slots s) !! e = Some x -> i <= e.

Lemma prune_one_complete i d s L : epoch_ok i -> buckets_from i s -> represents (utxoLedger s) L -> ledger_ok L ->
  exists s' L', prune_one FolderSize i d s = (Ok tt, s') /\ buckets_from (i + 1) s' /\ BucketManager.lastPrunedEpoch (slots s') = Some i
    /\ lastPrunedEpoch s' = lastPrunedEpoch s /\ represents (utxoLedger s') L' /\ ledger_ok L'.
Proof.
  intros Hi [Hlast Hdisk] HR HL. unfold prune_one, zoom_prunable, Prunable.Prune, Prunable.zoom_slots, mbind, sprog_bind, BucketManager.bm_Prune.
  destruct (Z.ltb_spec i (EvictionIndex.Index (BucketManager.lastPrunedEpoch (slots s))).1); [lia|].
  pose proof (DeleteBucket_disk FolderSize i (slots s)) as Hd. destruct (BucketManager.DeleteBucket FolderSize i (slots s)) as [deleted b1].
  destruct Hd as (_ & Hdk & _). cbn. unfold zoom_ledger. cbn [utxoLedger with_prunable].
  destruct (prune_slots_kept (seqZ (EpochStart i) (EpochEnd i - EpochStart i + 1)) (utxoLedger s) L) as (m' & L' & E & HR' & HL' & _); [by apply epoch_slots_range|done..|].
  unfold PruneUTXOLedger. rewrite E. eexists _, L'. split; [done|]. cbn. split; [split|done].
  - cbn. lia.
  - cbn. intros e x. rewrite Hdk. intros [Hne Hx]%lookup_delete_Some. apply Hdisk in Hx. lia.
Qed.

Lemma prune_epochs_complete n i d s L : 0 <= n -> 0 <= i -> epoch_ok (i + n) -> buckets_from i s -> represents (utxoLedger s) L -> ledger_ok L ->
  exists s' L', prune_epochs FolderSize (seqZ i n) d s = (Ok tt, s') /\ buckets_from (i + n) s'
    /\ (0 < n -> BucketManager.lastPrunedEpoch (slots s') = Some (i + n - 1))
    /\ lastPrunedEpoch s' = lastPrunedEpoch s /\ represents (utxoLedger s') L' /\ ledger_ok L'.
Proof.
  intros Hn. revert i s L. pattern n. apply natlike_ind; [| |done]; clear n Hn.
  - intros i s L Hi Hok Hb HR HL. rewrite seqZ_nil by lia. exists s, L. rewrite Z.add_0_r. by split_and!.
  - intros n Hn IH i s L Hi Hok Hb HR HL. rewrite seqZ_cons by lia. cbn [prune_epochs].
    destruct (prune_one_complete i d s L) as (s1 & L1 & E1 & Hb1 & Hl1 & Hp1 & HR1 & HL1); [apply epoch_ok_le with (i + Z.succ n); [lia|done]|done..|].
    rewrite (sprog_bind_Ok _ _ _ _ _ E1). replace (Z.succ i) with (i + 1) by lia. replace (Z.pred (Z.succ n)) with n by lia.
    destruct (IH (i + 1) s1 L1) as (s2 & L2 & E2 & Hb2 & Hl2 & Hp2 & HR2 & HL2); [lia|by replace (i + 1 + n) with (i + Z.succ n) by lia|done..|].
    exists s2, L2. split; [done|]. replace (i + Z.succ n) with (i + 1 + n) by lia. split; [done|]. split; [|split; [congruence|done]].
    intros _. destruct (decide (0 < n)) as [Hpos|]; [by apply Hl2|]. assert (n = 0) as -> by lia.
    rewrite seqZ_nil in E2 by lia. cbn in E2. injection E2 as <-. rewrite Hl1. f_equal. lia.
Qed.

(** Storage and buckets agree on the last pruned epoch, and nothing is stored up to it. *)
Record synced s : Prop := {
  sync_last : BucketManager.lastPrunedEpoch (slots s) = lastPrunedEpoch s;
  sync_range p : lastPrunedEpoch s = Some p -> 0 <= p < 2 ^ 32 - 1;
  sync_disk e x : BucketManager.disk (slots s) !! e = Some x -> 0 <= e /\ EvictionIndex.IsEvicted e (lastPrunedEpoch s) = false;
}.

(** Pruning up to an epoch that is finalized long enough ago and not pruned yet
    succeeds, and all slots up to it are gone: their stores are empty, and asking for one of them
    returns ErrEpochPruned.  The storage stays synced, so the next call starts where this one ended. *)
Theorem storage_prune_complete epoch s L
  (Hsync : synced s) (HR : represents (utxoLedger s) L) (HL : ledger_ok L)
  (Hslot : in_range Uint32 (latestFinalizedSlot s)) (Hf : 2 <= EpochFromSlot (latestFinalizedSlot s))
  (He : 0 <= epoch <= EpochFromSlot (latestFinalizedSlot s) - 2) (Hnew : EvictionIndex.IsEvicted epoch (lastPrunedEpoch s) = false) :
  exists s', PruneByEpochIndex FolderSize epoch s = (Ok tt, s') /\ synced s' /\ LastPrunedEpoch s' = (epoch, true)
    /\ forall slot prefix k, in_range Uint32 slot -> EpochFromSlot slot <= epoch ->
         slot_get slot prefix k (prunable s') = None
         /\ (Prunable.getKVStoreFromSlot FolderSize slot prefix (prunable s')).1 = Err ErrEpochPruned.
Proof.
  pose proof (EpochFromSlot_ok _ Hslot) as Hfok. pose proof (epoch_ok_range _ Hfok) as Hr. unfold in_range in Hr. cbn in Hr.
  destruct Hsync as [Hlast Hrange Hdisk]. set (start := EvictionIndex.NextIndex (lastPrunedEpoch s)).
  assert (Hstart : start = match lastPrunedEpoch s with Some p => p + 1 | None => 0 end).
  { unfold start, EvictionIndex.NextIndex. destruct (lastPrunedEpoch s) as [p|]; [|done]. apply wrap_id. specialize (Hrange p eq_refl). unfold in_range. cbn. lia. }
  assert (Hse : 0 <= start <= epoch).
  { rewrite Hstart. unfold EvictionIndex.IsEvicted in Hnew. destruct (lastPrunedEpoch s) as [p|]; [specialize (Hrange p eq_refl)|]; lia. }
  unfold PruneByEpochIndex. rewrite s_read_bind, (latestPrunable_eq (EpochFromSlot (latestFinalizedSlot s)) s) by lia.
  destruct (Z.ltb_spec (EpochFromSlot (latestFinalizedSlot s) - 2) epoch); [lia|]. rewrite s_read_bind.
  assert (Hgs : getPruningStart epoch s = Some start).
  { unfold getPruningStart. destruct (EvictionIndex.Index (lastPrunedEpoch s)) as [last []] eqn:Ei; [|done]. destruct (lastPrunedEpoch s) as [p|]; [|done].
    cbn in *. simplify_eq. by rewrite Hnew. }
  rewrite Hgs. unfold pruneUntilEpoch.
  destruct (prune_epochs_complete (epoch - start + 1) start 0 s L) as (s1 & L1 & E1 & [_ Hb1] & Hl1 & Hp1 & _); [lia|lia| | |done..|].
  { apply epoch_ok_le with (EpochFromSlot (latestFinalizedSlot s)); [lia|done]. }
  { split; [rewrite Hlast, Hstart; destruct (lastPrunedEpoch s) as [p|]; cbn; lia|]. intros e x [Hpos Hev]%Hdisk. rewrite Hstart.
    unfold EvictionIndex.IsEvicted in Hev. destruct (lastPrunedEpoch s); lia. }
  rewrite (sprog_bind_Ok _ _ _ _ _ E1). eexists. split; [done|]. rewrite Z.add_assoc in Hl1, Hb1. replace (start + (epoch - start) + 1) with (epoch + 1) in * by lia.
  assert (Hl : BucketManager.lastPrunedEpoch (slots s1) = Some epoch) by (rewrite Hl1 by lia; f_equal; lia). split; [|split; [done|]].
  - split; cbn; [done|intros p; intros; simplify_eq; lia|]. intros e x Hx%Hb1. split; [lia|]. apply Z.leb_gt. lia.
  - intros slot prefix k Hslot' Hle. split.
    + unfold slot_get, bucket_get. cbn. destruct (BucketManager.disk (slots s1) !! EpochFromSlot slot) as [x|] eqn:Ex; [|done]. apply Hb1 in Ex. lia.
    + unfold Prunable.getKVStoreFromSlot, Prunable.zoom_slots, BucketManager.Get. unfold mbind, sprog_bind, s_read. cbn [with_last prunable].
      unfold BucketManager.IsTooOld. rewrite Hl. cbn [EvictionIndex.NextIndex]. rewrite wrap_id by (unfold in_range; cbn; lia).
      destruct (Z.ltb_spec (EpochFromSlot slot) (epoch + 1)); [done|lia].
Qed.
End Complete.

(** ** A small storage *)
Module StorageDemo.
Import UtxoClaims.Demo.
#[local] Existing Instances demo_ids demo_ids_spec demo_tree demo_tree_spec.

(** A cache of at most two open databases, the most recent first. *)
#[local] Instance demo_cache : DBCache (list EpochIndex) := {|
  dbc_empty := [];
  dbc_get e c := (bool_decide (e ∈ c), if bool_decide (e ∈ c) then e :: filter (fun x => x <> e) c else c);
  dbc_put e c := (drop 2 (e :: c), take 2 (e :: c));
  dbc_remove e c := (filter (fun x => x = e) c, filter (fun x => x <> e) c);
  dbc_each c := c |}.
#[local] Instance demo_slots : SlotBytes := {| slot_bytes := put_le 4 |}.
#[local] Instance demo_slots_spec : SlotBytesSpec demo_slots.
Proof.
  split; cbn; [intros; apply length_put_le|]. intros s s' Hs Hs' E. apply (f_equal get_le) in E. unfold in_range in *. cbn in *.
  rewrite !get_put_le_id in E by (cbn; lia). done.
Qed.
#[local] Instance demo_empty : EmptyStore (gmap bytes bytes).
Proof. split. intros k. apply lookup_empty. Qed.
(** Epochs of four slots. *)
#[local] Instance demo_time : TimeProvider := shift_time 2 10.
#[local] Instance demo_time_spec : TimeProviderSpec demo_time.
Proof. apply shift_time_spec. lia. Qed.

Definition demo_size (s : option (gmap bytes bytes)) : option Z := Z.of_nat ∘ size <$> s.

Abbreviation DemoStorage := (Storage (list EpochIndex) (gmap bytes bytes) (gmap bytes bytes) (gmap OutputID stateTreeMetadata)).
(** One key in the root blocks of a slot of every epoch. *)
Definition demo_bucket (e : EpochIndex) : gmap bytes bytes := {[ Prunable.slot_realm (e * 4 + 1) Prunable.slotPrefixRootBlocks ++ [x05] := [x06] ]}.
Definition demo_disk (n : Z) : gmap EpochIndex (gmap bytes bytes) := list_to_map ((fun e => (e, demo_bucket e)) <$> seqZ 0 n).
Definition demo_storage (finalized : SlotIndex) (n : Z) : DemoStorage :=
  mkStorage (Prunable.New (demo_disk n)) demo_manager finalized None 0.

Lemma demo_storage_ok finalized n : storage_ok (demo_storage finalized n).
Proof. split; apply store_ok_new. Qed.

Lemma storage_prune_safe_witness :
  let s := demo_storage 17 5 in
  let s' := foldl (fun s op => run_prune demo_size (fun _ => 0) (fun _ => 0) defaultOptions op s) s [OpTryPrune 0; OpByDepth 1; OpByEpochIndex 9] in
  storage_ok s' /\ kept 4 s s'.
Proof.
  refine (storage_prune_safe demo_size (fun _ => 0) (fun _ => 0) defaultOptions [OpTryPrune 0; OpByDepth 1; OpByEpochIndex 9] (demo_storage 17 5)
           (demo_storage_ok 17 5) _ _ _); [repeat constructor; done|done|by vm_compute].
Defined.

Lemma demo_synced finalized n : 0 <= n < 2 ^ 32 -> synced (demo_storage finalized n).
Proof.
  intros Hn. split; [done|done|]. intros e x. cbn. unfold demo_disk. intros Hx%elem_of_list_to_map_2. apply list_elem_of_fmap in Hx as (e' & Heq & Hin%elem_of_seqZ).
  simplify_eq. split; [lia|done].
Qed.

Lemma storage_prune_complete_witness :
  exists s', PruneByEpochIndex demo_size 2 (demo_storage 17 5) = (Ok tt, s') /\ synced s' /\ LastPrunedEpoch s' = (2, true)
    /\ forall slot prefix k, in_range Uint32 slot -> EpochFromSlot slot <= 2 ->
         slot_get slot prefix k (prunable s') = None
         /\ (Prunable.getKVStoreFromSlot demo_size slot prefix (prunable s')).1 = Err ErrEpochPruned.
Proof.
  apply (storage_prune_complete demo_size 2 (demo_storage 17 5) demo_ledger); [apply demo_synced; lia|apply demo_represents|apply demo_ok|by vm_compute|by vm_compute|by vm_compute|done].
Defined.

(** While the first two epochs are being finalized, epoch 0 counts as prunable: with slot 1 finalized,
    pruning by index deletes the current epoch, although at least one full epoch of history is meant to stay. *)
Lemma prune_current_epoch :
  let s := demo_storage 1 1 in
  slot_get 1 Prunable.slotPrefixRootBlocks [x05] (prunable s) = Some [x06]
  /\ let '(r, s') := PruneByEpochIndex demo_size 0 s in
     r = Ok tt /\ slot_get 1 Prunable.slotPrefixRootBlocks [x05] (prunable s') = None
     /\ (Prunable.RootBlocks demo_size 1 (prunable s')).1 = Err ErrEpochPruned.
Proof. vm_compute. done. Qed.

Lemma prunable_rollback_exact_witness :
  let p := prunable (demo_storage 17 5) in
  exists n p', Prunable.Rollback demo_size (fun _ => 1) 6 p = Ret (Ok tt, p')
    /\ EpochFromSlot 6 < n /\ (forall e, EpochFromSlot 6 < e < n -> is_Some (BucketManager.disk (Prunable.prunableSlotStore p) !! e))
    /\ BucketManager.disk (Prunable.prunableSlotStore p) !! n = None
    /\ (forall slot prefix k, in_range Uint32 slot ->
          slot_get slot prefix k p' = if decide (6 < slot /\ EpochFromSlot slot < n) then None else slot_get slot prefix k p)
    /\ dropped (complete_epoch 6 + 1) n (kv (Prunable.poolRewards p)) (kv (Prunable.poolRewards p'))
    /\ dropped (complete_epoch 6 + 1) n (kv (Prunable.poolStats p)) (kv (Prunable.poolStats p'))
    /\ dropped (complete_epoch 6 + 1) n (kv (Prunable.decidedUpgradeSignals p)) (kv (Prunable.decidedUpgradeSignals p'))
    /\ kv (Prunable.committee p') !! (EpochFromSlot 6 + 1) = (if next_reused (fun _ => 1) 6 p then None else kv (Prunable.committee p) !! (EpochFromSlot 6 + 1))
    /\ (forall e, e <= EpochFromSlot 6 -> kv (Prunable.committee p') !! e = kv (Prunable.committee p) !! e).
Proof.
  apply (prunable_rollback_exact demo_size (fun _ => 1) 6 (prunable (demo_storage 17 5))); [by vm_compute|by vm_compute|done|].
  intros e x. cbn. unfold demo_disk. intros Hx%elem_of_list_to_map_2. apply list_elem_of_fmap in Hx as (e' & Heq & Hin%elem_of_seqZ). simplify_eq. lia.
Defined.
End StorageDemo.
