(* ===== verification/Performance.v ===== *)
(** * Validator performance and rewards (pkg/protocol/sybilprotection/sybilprotectionv1/performance)

    The tracker counts the validation blocks of committee members per slot and
    subslot; at the end of an epoch it turns them into performance factors and stores the
    rewards of each pool, from which validators and delegators claim their shares.

    Parameters: the protocol parameters and the mana decay of iota.go ([RewardsAPI];
    the API of a slot is the API of its epoch), hive.go's safemath, the root of a rewards
    tree, which slots are pruned, and the order in which a map is visited.  A rewards tree is
    the map it holds.  The error handler only reports; errors are [None].  Locks are left out. *)
From Stdlib Require Import Strings.Byte.
From S2P Require Import Prelude Bytes Block TimeApi EpochStore CoreAccount Accounts Prunable.
Import CoreAccount Prunable.

(** ** safemath: shifts and a product with 128 bits *)
Class SafeShift := {
  SafeLeftShift : int_type -> Z -> Z -> option Z;
  Safe64MulDiv : Z -> Z -> Z -> option Z;
}.
Class SafeShiftSpec (SS : SafeShift) : Prop := {
  SafeLeftShift_spec t x n : in_range t x -> 0 <= x -> 0 <= n -> SafeLeftShift t x n = checked t (x * 2 ^ n);
  Safe64MulDiv_spec x y z : in_range Uint64 x -> in_range Uint64 y -> in_range Uint64 z ->
    Safe64MulDiv x y z = if decide (z = 0) then None else checked Uint64 (x * y / z);
}.
#[export] Instance checked_shift : SafeShift := {|
  SafeLeftShift t x n := checked t (x * 2 ^ n);
  Safe64MulDiv x y z := if decide (z = 0) then None else checked Uint64 (x * y / z) |}.
#[export] Instance checked_shift_spec : SafeShiftSpec checked_shift.
Proof. by split. Qed.

(** ** What the tracker reads of the protocol *)
Class RewardsAPI := {
  ValidationBlocksPerSlot : EpochIndex -> Z;          (* uint8 *)
  ProfitMarginExponent : EpochIndex -> Z;             (* uint8 *)
  PoolCoefficientExponent : EpochIndex -> Z;          (* uint8 *)
  TargetReward : EpochIndex -> option Z;
  RewardsWithDecay : Z -> EpochIndex -> EpochIndex -> option Z;
}.

Module Performance.

Definition u8 (z : Z) : Z := z mod 256.

(** ** model.PoolRewards, model.ValidatorPerformance *)
Record PoolRewards := mkPoolRewards { pr_PoolStake : Z; pr_PoolRewards : Z; pr_FixedCost : Z }.
#[global] Instance PoolRewards_eq_dec : EqDecision PoolRewards.
Proof. solve_decision. Defined.

Record ValidatorPerformance := mkPerformance {
  SlotActivityVector : Z;                             (* uint32 *)
  BlockIssuedCount : Z;                               (* uint8 *)
  HighestSupportedVersionAndHash : VersionAndHash;
}.
#[global] Instance ValidatorPerformance_eq_dec : EqDecision ValidatorPerformance.
Proof. solve_decision. Defined.
Definition NewValidatorPerformance : ValidatorPerformance := mkPerformance 0 0 noVersionAndHash.

Abbreviation RewardsMap := (gmap AccountID PoolRewards).
Abbreviation SlotPerformances := (gmap AccountID ValidatorPerformance).

Record Tracker := mkTracker {
  rewardsStore : EpochKVStore RewardsMap;
  poolStatsStore : Store PoolsStats;
  committeeStore : Store Accounts;
  validatorPerformances : gmap SlotIndex SlotPerformances;
  latestAppliedEpoch : EpochIndex;
}.
Definition with_rewards v (t : Tracker) := mkTracker v (poolStatsStore t) (committeeStore t) (validatorPerformances t) (latestAppliedEpoch t).
Definition with_stats v (t : Tracker) := mkTracker (rewardsStore t) v (committeeStore t) (validatorPerformances t) (latestAppliedEpoch t).
Definition with_committees v (t : Tracker) := mkTracker (rewardsStore t) (poolStatsStore t) v (validatorPerformances t) (latestAppliedEpoch t).
Definition with_performances v (t : Tracker) := mkTracker (rewardsStore t) (poolStatsStore t) (committeeStore t) v (latestAppliedEpoch t).
Definition with_applied v (t : Tracker) := mkTracker (rewardsStore t) (poolStatsStore t) (committeeStore t) (validatorPerformances t) v.

(** What the tracker reads of a validation block. *)
Record ValidationBlock := mkValidationBlock { HighestSupportedVersion : Z; ProtocolParametersHash : Z }.

(** [bits.OnesCount32] *)
Fixpoint ones (n : nat) (z : Z) : Z := match n with O => 0 | S n => Z.b2z (Z.testbit z (Z.of_nat n)) + ones n z end.
Definition OnesCount32 (z : Z) : Z := ones 32 z.

Section Tracker.
Context `{SM : SafeMath} `{SS : SafeShift} `{API : RewardsAPI} `{TP : TimeProvider} `{!RangeOrder AccountID}
  (pruned : SlotIndex -> bool) (rewards_root : RewardsMap -> Z).

Definition NewTracker (rewards : EpochKVStore RewardsMap) (stats : Store PoolsStats) (committees : Store Accounts)
    (performances : gmap SlotIndex SlotPerformances) (latest : EpochIndex) : Tracker :=
  mkTracker rewards stats committees performances latest.

Definition RegisterCommittee (epoch : EpochIndex) (committee : Accounts) (t : Tracker) : option Tracker :=
  match Store_ epoch committee (committeeStore t) with
  | Ok s => Some (with_committees s t)
  | Err _ => None
  end.

(** A pruned epoch panics. *)
Definition LoadCommitteeForEpoch (epoch : EpochIndex) (t : Tracker) : outcome (option Accounts) :=
  match Load epoch (committeeStore t) with Ok c => Ret c | Err _ => Panic end.

(** The committee of the previous epoch; a missing one is a nil pointer. *)
Definition EligibleValidatorCandidates (epoch : EpochIndex) (t : Tracker) : outcome (gset AccountID) :=
  c ← LoadCommitteeForEpoch (u32 (epoch - 1)) t;
  c ← deref c;
  Ret (dom (accountPools c)).
Definition ValidatorCandidates (epoch : EpochIndex) : gset AccountID := ∅.

(** ** Tracking *)
Definition isCommitteeMember (slot : SlotIndex) (accountID : AccountID) (t : Tracker) : outcome (option bool) :=
  c ← LoadCommitteeForEpoch (EpochFromSlot slot) t;
  Ret (option_map (Has accountID) c).

(** Durations are nanoseconds; Go's division truncates, and panics for a zero divisor. *)
Definition subslotIndex (slot : SlotIndex) (issuingTime : Z) (t : Tracker) : outcome Z :=
  let valBlocksNum := ValidationBlocksPerSlot (latestAppliedEpoch t) in
  if valBlocksNum =? 0 then Panic
  else
    let subslotDur := (SlotDurationSeconds * 1000000000) `quot` valBlocksNum in
    if subslotDur =? 0 then Panic else Ret ((issuingTime - SlotStartTime slot) `quot` subslotDur).

(** [1 << i] at the width of a uint32; a negative shift count panics. *)
Definition shift_one (i : Z) : outcome Z := if i <? 0 then Panic else Ret (if i <? 32 then 2 ^ i else 0).

(** The performance of the slot's store; [None] for a pruned slot. *)
Definition performances_of (slot : SlotIndex) (t : Tracker) : option SlotPerformances :=
  if pruned slot then None else Some (default ∅ (validatorPerformances t !! slot)).

Definition trackCommitteeMemberPerformance (validationBlock : ValidationBlock) (block : ModelBlock) (t : Tracker) : outcome Tracker :=
  let slot := Slot (ID block) in
  match performances_of slot t with
  | None => Ret t
  | Some perf =>
      let p := default NewValidatorPerformance (perf !! IssuerID block) in
      i ← subslotIndex slot (IssuingTime block) t;
      bit ← shift_one i;
      let vector := Z.lor (SlotActivityVector p) bit in
      let count := if BlockIssuedCount p <? u8 (ValidationBlocksPerSlot (EpochFromSlot slot) + 1) then u8 (BlockIssuedCount p + 1) else BlockIssuedCount p in
      let p := mkPerformance vector count (mkVersionAndHash (HighestSupportedVersion validationBlock) (ProtocolParametersHash validationBlock)) in
      Ret (with_performances (<[slot := <[IssuerID block := p]> perf]> (validatorPerformances t)) t)
  end.

(** [validation] is the validation block, if the block is one. *)
Definition TrackValidationBlock (block : ModelBlock) (validation : option ValidationBlock) (t : Tracker) : outcome Tracker :=
  match validation with
  | None => Ret t
  | Some validatorBlock =>
      member ← isCommitteeMember (Slot (ID block)) (IssuerID block) t;
      match member with
      | Some true => trackCommitteeMemberPerformance validatorBlock block t
      | _ => Ret t
      end
  end.

(** ** Rewards of a pool *)

(** The loop: a validator that issued too many blocks in a slot gets nothing. *)
Fixpoint sum_activity (limit : Z) (slotActivityVector : list (option ValidatorPerformance)) (acc : Z) : option Z :=
  match slotActivityVector with
  | [] => Some acc
  | None :: l => sum_activity limit l acc
  | Some pf :: l =>
      if limit <? BlockIssuedCount pf then None
      else sum_activity limit l (u64 (acc + OnesCount32 (SlotActivityVector pf)))
  end.
Definition aggregatePerformanceFactors (slotActivityVector : list (option ValidatorPerformance)) (epoch : EpochIndex) : Z :=
  if bool_decide (slotActivityVector = []) then 0
  else
    match sum_activity (ValidationBlocksPerSlot epoch) slotActivityVector 0 with
    | None => 0
    | Some factor => Z.shiftr factor SlotsPerEpochExponent
    end.

Definition calculatePoolCoefficient (poolStake totalStake validatorStake totalValidatorStake : Z) (slot : SlotIndex) : option Z :=
  let poolCoeffExponent := PoolCoefficientExponent (EpochFromSlot slot) in
  scaledUpPoolStake ← SafeLeftShift Uint64 poolStake poolCoeffExponent;
  result1 ← SafeDiv Uint64 scaledUpPoolStake totalStake;
  scaledUpValidatorStake ← SafeLeftShift Uint64 validatorStake poolCoeffExponent;
  result2 ← SafeDiv Uint64 scaledUpValidatorStake totalValidatorStake;
  SafeAdd Uint64 result1 result2.

Definition poolReward (slot : SlotIndex) (totalValidatorsStake totalStake poolStake validatorStake performanceFactor : Z) : option Z :=
  let epoch := EpochFromSlot slot in
  targetReward ← TargetReward epoch;
  poolCoefficient ← calculatePoolCoefficient poolStake totalStake validatorStake totalValidatorsStake slot;
  result ← SafeMul Uint64 poolCoefficient targetReward;
  scaledPoolReward ← SafeMul Uint64 result performanceFactor;
  result ← SafeDiv Uint64 scaledPoolReward (ValidationBlocksPerSlot epoch);
  Some (Z.shiftr result (u8 (PoolCoefficientExponent epoch + 1))).

(** The division is Go's: it panics for a zero divisor. *)
Definition calculateProfitMargin (totalValidatorsStake totalPoolStake : Z) (epoch : EpochIndex) : outcome (option Z) :=
  match SafeLeftShift Uint64 totalValidatorsStake (ProfitMarginExponent epoch) with
  | None => Ret None
  | Some scaledUp =>
      let d := u64 (totalValidatorsStake + totalPoolStake) in
      if d =? 0 then Panic else Ret (Some (scaledUp `quot` d))
  end.

Definition scaleUpComplement (val shift : Z) : option Z :=
  shiftedOne ← SafeLeftShift Uint64 1 shift;
  SafeSub Uint64 shiftedOne val.

(** The rewards tree of an epoch. *)
Definition rewardsMap (epoch : EpochIndex) (t : Tracker) : option RewardsMap :=
  match GetEpoch epoch (rewardsStore t) with Ok m => Some m | Err _ => None end.

(** [make] leaves a nil per slot in front of the appended entries. *)
Definition epoch_performances (epoch : EpochIndex) (accountID : AccountID) (t : Tracker) : list (option ValidatorPerformance) :=
  replicate (Z.to_nat EpochDurationSlots) None
  ++ ((fun slot => perf ← performances_of slot t; perf !! accountID) <$> seqZ (EpochStart epoch) (EpochEnd epoch - EpochStart epoch + 1)).

(** The callback of ForEach; an error of poolReward panics. *)
Definition apply_pool (epoch : EpochIndex) (committee : Accounts) (t : Tracker) (e : AccountID * Pool) (rewards : RewardsMap) : outcome RewardsMap :=
  let '(accountID, pool) := e in
  let pf := aggregatePerformanceFactors (epoch_performances epoch accountID t) epoch in
  if pf =? 0 then Ret rewards
  else
    match poolReward (EpochEnd epoch) (TotalValidatorStake committee) (TotalStake committee) (PoolStake pool) (ValidatorStake pool) pf with
    | None => Panic
    | Some r => Ret (<[accountID := mkPoolRewards (PoolStake pool) r (FixedCost pool)]> rewards)
    end.
Fixpoint apply_pools (epoch : EpochIndex) (committee : Accounts) (t : Tracker) (l : list (AccountID * Pool)) (rewards : RewardsMap) : outcome RewardsMap :=
  match l with
  | [] => Ret rewards
  | e :: l => rewards ← apply_pool epoch committee t e rewards; apply_pools epoch committee t l rewards
  end.

(** Returns false for the error of the profit margin. *)
Definition ApplyEpoch (epoch : EpochIndex) (committee : Accounts) (t : Tracker) : outcome (bool * Tracker) :=
  margin ← calculateProfitMargin (TotalValidatorStake committee) (TotalStake committee) epoch;
  match margin with
  | None => Ret (false, t)
  | Some profitMargin =>
      match Store_ epoch (mkPoolsStats (TotalStake committee) (TotalValidatorStake committee) profitMargin) (poolStatsStore t) with
      | Err _ => Panic
      | Ok stats =>
          let t := with_stats stats t in
          rewards ← deref (rewardsMap epoch t);
          rewards ← apply_pools epoch committee t (range_of (accountPools committee)) rewards;
          Ret (true, with_applied epoch (with_rewards (set_epoch epoch rewards (rewardsStore t)) t))
      end
  end.

(** ** Claiming rewards (rewards.go) *)
Definition RewardsRoot (epoch : EpochIndex) (t : Tracker) : option Z := rewards_root <$> rewardsMap epoch t.
(** [None] is an error, [Some None] an account without rewards. *)
Definition rewardsForAccount (accountID : AccountID) (epoch : EpochIndex) (t : Tracker) : option (option PoolRewards) :=
  m ← rewardsMap epoch t; Some (m !! accountID).

(** The pool stats of an epoch; missing ones are an error. *)
Definition load_stats (epoch : EpochIndex) (t : Tracker) : option PoolsStats :=
  match Load epoch (poolStatsStore t) with Ok s => s | Err _ => None end.

(** The share of the validator in an epoch before decay; [Some None] when the fixed cost exceeds the reward. *)
Definition validator_share (r : PoolRewards) (stats : PoolsStats) (stakeAmount : Z) (epoch : EpochIndex) : option (option Z) :=
  if pr_PoolRewards r <? pr_FixedCost r then Some None
  else
    let poolRewardsNoFixedCost := pr_PoolRewards r - pr_FixedCost r in
    let exponent := ProfitMarginExponent epoch in
    profitMarginComplement ← scaleUpComplement (ps_ProfitMargin stats) exponent;
    result ← SafeMul Uint64 (ps_ProfitMargin stats) poolRewardsNoFixedCost;
    let profitMarginFactor := Z.shiftr result exponent in
    result ← SafeMul Uint64 profitMarginComplement poolRewardsNoFixedCost;
    residualValidatorFactor ← Safe64MulDiv (Z.shiftr result exponent) stakeAmount (pr_PoolStake r);
    result ← SafeAdd Uint64 (pr_FixedCost r) profitMarginFactor;
    share ← SafeAdd Uint64 result residualValidatorFactor;
    Some (Some share).

(** One round of the loop: the accumulated reward and the first epoch with a reward. *)
Definition validator_epoch (validatorID : AccountID) (stakeAmount : Z) (epochEnd epoch : EpochIndex) (t : Tracker) (acc : Z * EpochIndex)
    : option (Z * EpochIndex) :=
  let '(validatorReward, epochStart) := acc in
  r ← rewardsForAccount validatorID epoch t;
  match r with
  | Some r =>
      if pr_PoolStake r =? 0 then Some (validatorReward, if (epoch <? epochEnd) && (epochStart =? epoch) then u32 (epoch + 1) else epochStart)
      else
        stats ← load_stats epoch t;
        share ← validator_share r stats stakeAmount epoch;
        match share with
        | None => Some (validatorReward, epochStart)
        | Some share =>
            decayed ← RewardsWithDecay share epoch epochEnd;
            reward ← SafeAdd Uint64 validatorReward decayed;
            Some (reward, epochStart)
        end
  | None => Some (validatorReward, if (epoch <? epochEnd) && (epochStart =? epoch) then u32 (epoch + 1) else epochStart)
  end.
Fixpoint validator_loop (validatorID : AccountID) (stakeAmount : Z) (epochEnd : EpochIndex) (t : Tracker) (epochs : list EpochIndex) (acc : Z * EpochIndex)
    : option (Z * EpochIndex) :=
  match epochs with
  | [] => Some acc
  | epoch :: epochs => acc ← validator_epoch validatorID stakeAmount epochEnd epoch t acc; validator_loop validatorID stakeAmount epochEnd t epochs acc
  end.
(** [for epoch := epochStart; epoch <= epochEnd; epoch++] *)
Definition epochs_upto (epochStart epochEnd : EpochIndex) : list EpochIndex := seqZ epochStart (epochEnd - epochStart + 1).
Definition last_epoch (epochEnd : EpochIndex) (t : Tracker) : EpochIndex := if latestAppliedEpoch t <? epochEnd then latestAppliedEpoch t else epochEnd.

(** The reward, the first epoch with a reward and the last epoch. *)
Definition ValidatorReward (validatorID : AccountID) (stakeAmount : Z) (epochStart epochEnd : EpochIndex) (t : Tracker) : option (Z * EpochIndex * EpochIndex) :=
  let epochEnd := last_epoch epochEnd t in
  '(reward, epochStart) ← validator_loop validatorID stakeAmount epochEnd t (epochs_upto epochStart epochEnd) (0, epochStart);
  Some (reward, epochStart, epochEnd).

Definition delegator_share (r : PoolRewards) (stats : PoolsStats) (delegatedAmount : Z) (epoch : EpochIndex) : option Z :=
  let exponent := ProfitMarginExponent epoch in
  profitMarginComplement ← scaleUpComplement (ps_ProfitMargin stats) exponent;
  let poolReward := if pr_FixedCost r <=? pr_PoolRewards r then pr_PoolRewards r - pr_FixedCost r else pr_PoolRewards r in
  result ← SafeMul Uint64 profitMarginComplement poolReward;
  result ← SafeMul Uint64 (Z.shiftr result exponent) delegatedAmount;
  SafeDiv Uint64 result (pr_PoolStake r).

Definition delegator_epoch (validatorID : AccountID) (delegatedAmount : Z) (epochEnd epoch : EpochIndex) (t : Tracker) (acc : Z * EpochIndex)
    : option (Z * EpochIndex) :=
  let '(delegatorsReward, epochStart) := acc in
  r ← rewardsForAccount validatorID epoch t;
  match r with
  | Some r =>
      if pr_PoolStake r =? 0 then Some (delegatorsReward, if epochStart =? epoch then u32 (epoch + 1) else epochStart)
      else
        stats ← load_stats epoch t;
        share ← delegator_share r stats delegatedAmount epoch;
        decayed ← RewardsWithDecay share epoch epochEnd;
        Some (u64 (delegatorsReward + decayed), epochStart)
  | None => Some (delegatorsReward, if epochStart =? epoch then u32 (epoch + 1) else epochStart)
  end.
Fixpoint delegator_loop (validatorID : AccountID) (delegatedAmount : Z) (epochEnd : EpochIndex) (t : Tracker) (epochs : list EpochIndex) (acc : Z * EpochIndex)
    : option (Z * EpochIndex) :=
  match epochs with
  | [] => Some acc
  | epoch :: epochs => acc ← delegator_epoch validatorID delegatedAmount epochEnd epoch t acc; delegator_loop validatorID delegatedAmount epochEnd t epochs acc
  end.
Definition DelegatorReward (validatorID : AccountID) (delegatedAmount : Z) (epochStart epochEnd : EpochIndex) (t : Tracker) : option (Z * EpochIndex * EpochIndex) :=
  let epochEnd := last_epoch epochEnd t in
  '(reward, epochStart) ← delegator_loop validatorID delegatedAmount epochEnd t (epochs_upto epochStart epochEnd) (0, epochStart);
  Some (reward, epochStart, epochEnd).
End Tracker.
End Performance.

(** * Rewards are bounded

    An epoch hands out at most its target reward, and the shares claimed of a pool never
    exceed what the pool was given. *)
Import CoreAccount Prunable Performance.

(** ** Sums of quotients *)
Lemma div_add_le a b n : 0 < n -> a / n + b / n <= (a + b) / n.
Proof. intros Hn. apply Z.div_le_lower_bound; [done|]. pose proof (Z.mul_div_le a n Hn). pose proof (Z.mul_div_le b n Hn). lia. Qed.

Lemma zsum_div {A} (f : A -> Z) n l : 0 < n -> zsum (fun x => f x / n) l <= zsum f l / n.
Proof. intros Hn. induction l as [|x l IH]; cbn [zsum]; [by rewrite Z.div_0_l by lia|]. pose proof (div_add_le (f x) (zsum f l) n Hn). lia. Qed.

Lemma zsum_scale {A} (f : A -> Z) k l : zsum (fun x => k * f x) l = k * zsum f l.
Proof. induction l as [|x l IH]; cbn [zsum]; lia. Qed.

Lemma zsum_add {A} (f g : A -> Z) l : zsum (fun x => f x + g x) l = zsum f l + zsum g l.
Proof. induction l as [|x l IH]; cbn [zsum]; lia. Qed.

Lemma zsum_le {A} (f g : A -> Z) l : (forall x, x ∈ l -> f x <= g x) -> zsum f l <= zsum g l.
Proof. induction l as [|x l IH]; cbn [zsum]; intros Hl; [lia|]. assert (f x <= g x) by (apply Hl; set_solver). assert (zsum f l <= zsum g l) by (apply IH; set_solver). lia. Qed.

Lemma zsum_exchange {A B} (f : A -> B -> Z) la lb : zsum (fun a => zsum (f a) lb) la = zsum (fun b => zsum (fun a => f a b) la) lb.
Proof.
  induction la as [|a la IH]; cbn [zsum].
  - induction lb; cbn [zsum]; lia.
  - rewrite IH. rewrite <- zsum_add. apply zsum_ext. done.
Qed.

(** The two parts of a margin [m] out of [one] do not exceed the whole. *)
Lemma margin_split m n one : 0 < one -> 0 <= m <= one -> 0 <= n -> m * n / one + (one - m) * n / one <= n.
Proof. intros Ho Hm Hn. pose proof (div_add_le (m * n) ((one - m) * n) one Ho) as H. replace (m * n + (one - m) * n) with (n * one) in H by lia. rewrite Z.div_mul in H by lia. lia. Qed.

(** Shares proportional to stakes that do not exceed the total stake. *)
Lemma stake_split x p v (ds : list Z) : 0 < p -> 0 <= x -> v + zsum (fun d => d) ds <= p -> x * v / p + zsum (fun d => x * d / p) ds <= x.
Proof.
  intros Hp Hx Hv. pose proof (zsum_div (fun d => x * d) p ds Hp) as H1. rewrite (zsum_scale (fun d => d) x ds) in H1.
  pose proof (div_add_le (x * v) (x * zsum (fun d => d) ds) p Hp) as H2.
  assert ((x * v + x * zsum (fun d => d) ds) / p <= x); [|lia]. apply Z.div_le_upper_bound; [done|]. nia.
Qed.

Section Shares.
Context `{SMS : SafeMathSpec} `{SSS : SafeShiftSpec} `{API : RewardsAPI} `{!RangeOrder AccountID}.
Implicit Types (r : PoolRewards) (stats : PoolsStats) (t : Tracker).

Definition rewards_ok r : Prop := in_range Uint64 (pr_PoolStake r) /\ in_range Uint64 (pr_PoolRewards r) /\ in_range Uint64 (pr_FixedCost r).
Definition stats_ok stats : Prop := in_range Uint64 (ps_ProfitMargin stats).

(** What the delegators and the residual of the validator share. *)
Definition residual r stats (epoch : EpochIndex) : Z :=
  (2 ^ ProfitMarginExponent epoch - ps_ProfitMargin stats)
  * (if pr_FixedCost r <=? pr_PoolRewards r then pr_PoolRewards r - pr_FixedCost r else pr_PoolRewards r) / 2 ^ ProfitMarginExponent epoch.

Lemma scaleUpComplement_spec val shift c : in_range Uint64 val -> 0 <= shift -> scaleUpComplement val shift = Some c ->
  val <= 2 ^ shift /\ c = 2 ^ shift - val /\ in_range Uint64 c.
Proof.
  intros Hv Hs. unfold scaleUpComplement. rewrite SafeLeftShift_spec by (done || (unfold in_range; cbn; lia)). rewrite Z.mul_1_l.
  destruct (checked Uint64 (2 ^ shift)) as [o|] eqn:E; cbn; [|done]. apply checked_Some in E as [Ho ->].
  rewrite SafeSub_spec by done. intros [Hr ->]%checked_Some. unfold in_range in *. cbn in *. lia.
Qed.

Lemma validator_share_spec r stats v epoch s :
  rewards_ok r -> stats_ok stats -> in_range Uint64 v -> 0 <= ProfitMarginExponent epoch -> validator_share r stats v epoch = Some (Some s) ->
  pr_FixedCost r <= pr_PoolRewards r /\ 0 < pr_PoolStake r /\ ps_ProfitMargin stats <= 2 ^ ProfitMarginExponent epoch /\ in_range Uint64 s
  /\ s = pr_FixedCost r + ps_ProfitMargin stats * (pr_PoolRewards r - pr_FixedCost r) / 2 ^ ProfitMarginExponent epoch
         + residual r stats epoch * v / pr_PoolStake r.
Proof.
  intros (Hp & Hr & Hf) Hm Hv Hk. unfold validator_share, residual. destruct (Z.ltb_spec (pr_PoolRewards r) (pr_FixedCost r)) as [|Hle]; [done|].
  destruct (Z.leb_spec (pr_FixedCost r) (pr_PoolRewards r)); [|lia]. set (n := pr_PoolRewards r - pr_FixedCost r).
  assert (Hn : in_range Uint64 n) by (unfold n, in_range in *; cbn in *; lia). set (k := ProfitMarginExponent epoch) in *.
  intros Hs. repeat (apply bind_Some in Hs as (? & ? & Hs)). rename x into c, x0 into y1, x1 into y2, x2 into w, x3 into q, x4 into q'.
  assert (Hpow : 0 < 2 ^ k) by lia.
  assert (Hdiv : forall z, in_range Uint64 z -> in_range Uint64 (z / 2 ^ k)).
  { intros z. unfold in_range. cbn. intros [??]. split; [apply Z.div_pos; lia|]. transitivity z; [apply Z.div_le_upper_bound; nia|done]. }
  match goal with E : scaleUpComplement _ _ = _ |- _ => apply scaleUpComplement_spec in E as (Hmk & -> & Hc); [|exact Hm|exact Hk] end.
  repeat match goal with E : SafeMul _ _ _ = _ |- _ => rewrite SafeMul_spec in E by done; apply checked_Some in E as [? ->] end.
  rewrite !Z.shiftr_div_pow2 in * by done.
  match goal with E : Safe64MulDiv _ _ _ = _ |- _ => rewrite Safe64MulDiv_spec in E by auto; case_decide as Hp0; [done|]; apply checked_Some in E as [? ->] end.
  repeat match goal with E : SafeAdd _ _ _ = _ |- _ => rewrite SafeAdd_spec in E by auto; apply checked_Some in E as [? ->] end.
  simplify_eq. split; [done|]. split; [unfold in_range in Hp; cbn in Hp; lia|]. done.
Qed.

Lemma delegator_share_spec r stats d epoch s :
  rewards_ok r -> stats_ok stats -> in_range Uint64 d -> 0 <= ProfitMarginExponent epoch -> delegator_share r stats d epoch = Some s ->
  0 < pr_PoolStake r /\ ps_ProfitMargin stats <= 2 ^ ProfitMarginExponent epoch /\ s = residual r stats epoch * d / pr_PoolStake r.
Proof.
  intros (Hp & Hr & Hf) Hm Hd Hk. unfold delegator_share, residual. set (n := if pr_FixedCost r <=? pr_PoolRewards r then pr_PoolRewards r - pr_FixedCost r else pr_PoolRewards r). set (k := ProfitMarginExponent epoch) in *.
  assert (Hn : in_range Uint64 n) by (unfold n, in_range in *; cbn in *; case_match; lia).
  intros Hs. repeat (apply bind_Some in Hs as (? & ? & Hs)). rename x into c, x0 into y1, x1 into y2.
  match goal with E : scaleUpComplement _ _ = _ |- _ => apply scaleUpComplement_spec in E as (Hmk & -> & Hc); [|exact Hm|exact Hk] end.
  match goal with E : SafeMul _ _ n = _ |- _ => rewrite SafeMul_spec in E by done; apply checked_Some in E as [Hx ->] end.
  rewrite Z.shiftr_div_pow2 in * by done. set (res := (2 ^ k - ps_ProfitMargin stats) * n / 2 ^ k) in *.
  assert (Hres : in_range Uint64 res).
  { unfold res. unfold in_range in *. cbn in *. split; [apply Z.div_pos; lia|]. transitivity ((2 ^ k - ps_ProfitMargin stats) * n); [apply Z.div_le_upper_bound; nia|lia]. }
  match goal with E : SafeMul _ _ d = _ |- _ => rewrite SafeMul_spec in E by done; apply checked_Some in E as [Hy ->] end.
  rewrite SafeDiv_spec in Hs by done. case_decide as Hp0; [done|]. apply checked_Some in Hs as [_ ->].
  assert (0 < pr_PoolStake r) by (unfold in_range in Hp; cbn in Hp; lia). split; [done|]. split; [done|].
  apply Z.quot_div_nonneg; [unfold in_range in Hy; cbn in Hy; lia|done].
Qed.

(** ** One epoch of a pool *)
Definition validator_part r stats v epoch : Z := match validator_share r stats v epoch with Some (Some s) => s | _ => 0 end.
Definition delegator_part r stats epoch d : Z := match delegator_share r stats d epoch with Some s => s | None => 0 end.

Lemma residual_bound r stats epoch : rewards_ok r -> stats_ok stats -> 0 <= ProfitMarginExponent epoch ->
  ps_ProfitMargin stats <= 2 ^ ProfitMarginExponent epoch -> 0 <= residual r stats epoch <= pr_PoolRewards r.
Proof.
  intros (Hp & Hr & Hf) Hm Hk Hmk. unfold residual. set (n := if pr_FixedCost r <=? pr_PoolRewards r then pr_PoolRewards r - pr_FixedCost r else pr_PoolRewards r). unfold stats_ok, in_range in *. cbn in *.
  assert (Hn : 0 <= n <= pr_PoolRewards r) by (unfold n; case_match; lia). assert (0 < 2 ^ ProfitMarginExponent epoch) by lia.
  split; [apply Z.div_pos; nia|]. transitivity n; [|lia]. apply Z.div_le_upper_bound; nia.
Qed.

Lemma delegator_part_le r stats epoch d : rewards_ok r -> stats_ok stats -> 0 <= ProfitMarginExponent epoch -> in_range Uint64 d ->
  0 < pr_PoolStake r -> ps_ProfitMargin stats <= 2 ^ ProfitMarginExponent epoch ->
  delegator_part r stats epoch d <= residual r stats epoch * d / pr_PoolStake r.
Proof.
  intros Hr Hs Hk Hd Hp Hm. unfold delegator_part. destruct (delegator_share _ _ _ _) as [s|] eqn:E.
  - apply delegator_share_spec in E as (_ & _ & ->); done.
  - pose proof (residual_bound r stats epoch Hr Hs Hk Hm). unfold in_range in Hd. cbn in Hd. apply Z.div_pos; [nia|done].
Qed.

(** A pool without stake, or with a margin out of range, pays nothing. *)
Lemma parts_zero r stats epoch : rewards_ok r -> stats_ok stats -> 0 <= ProfitMarginExponent epoch ->
  ~ (0 < pr_PoolStake r /\ ps_ProfitMargin stats <= 2 ^ ProfitMarginExponent epoch) ->
  (forall v, in_range Uint64 v -> validator_part r stats v epoch = 0) /\ forall d, in_range Uint64 d -> delegator_part r stats epoch d = 0.
Proof.
  intros Hr Hs Hk Hno. split; [intros v Hv; unfold validator_part|intros d Hd; unfold delegator_part].
  - destruct (validator_share _ _ _ _) as [[s|]|] eqn:E; [|done..]. apply validator_share_spec in E as (_ & ? & ? & _ & _); auto. tauto.
  - destruct (delegator_share _ _ _ _) as [s|] eqn:E; [|done]. apply delegator_share_spec in E as (? & ? & _); auto. tauto.
Qed.

(** What a pool pays in an epoch is at most its reward. *)
Lemma pool_pays r stats epoch v (ds : list Z) :
  rewards_ok r -> stats_ok stats -> 0 <= ProfitMarginExponent epoch -> in_range Uint64 v -> Forall (in_range Uint64) ds ->
  v + zsum (fun d => d) ds <= pr_PoolStake r ->
  validator_part r stats v epoch + zsum (delegator_part r stats epoch) ds <= pr_PoolRewards r.
Proof.
  intros Hr Hs Hk Hv Hds Hsum. rewrite Forall_forall in Hds. pose proof Hr as (_ & Hpr & Hfc). unfold in_range in Hpr, Hfc. cbn in Hpr, Hfc.
  destruct (decide (0 < pr_PoolStake r /\ ps_ProfitMargin stats <= 2 ^ ProfitMarginExponent epoch)) as [[Hp Hm]|Hno].
  2:{ destruct (parts_zero r stats epoch Hr Hs Hk Hno) as [H1 H2]. rewrite H1, (zsum_ext _ (fun _ => 0 * 1)) by auto. rewrite zsum_scale. lia. }
  assert (Hd : zsum (delegator_part r stats epoch) ds <= zsum (fun d => residual r stats epoch * d / pr_PoolStake r) ds).
  { apply zsum_le. intros d Hd. apply delegator_part_le; auto. }
  pose proof (residual_bound r stats epoch Hr Hs Hk Hm) as Hres.
  pose proof (stake_split (residual r stats epoch) (pr_PoolStake r) v ds Hp (proj1 Hres) Hsum) as Hsplit.
  assert (0 <= residual r stats epoch * v / pr_PoolStake r) by (unfold in_range in Hv; cbn in Hv; apply Z.div_pos; nia).
  unfold validator_part. destruct (validator_share r stats v epoch) as [[s|]|] eqn:E; [|lia..].
  apply validator_share_spec in E as (Hle & _ & _ & _ & ->); auto. set (n := pr_PoolRewards r - pr_FixedCost r).
  pose proof (margin_split (ps_ProfitMargin stats) n (2 ^ ProfitMarginExponent epoch)) as Hms.
  assert (Hresn : residual r stats epoch = (2 ^ ProfitMarginExponent epoch - ps_ProfitMargin stats) * n / 2 ^ ProfitMarginExponent epoch).
  { unfold residual. by destruct (Z.leb_spec (pr_FixedCost r) (pr_PoolRewards r)); [|lia]. }
  rewrite <- Hresn in Hms. unfold stats_ok, in_range in *. cbn in *. assert (0 < 2 ^ ProfitMarginExponent epoch) by lia. lia.
Qed.

(** ** Claims over several epochs *)

(** The decay never adds mana. *)
Class DecaySpec : Prop := { decay_le m e1 e2 x : 0 <= m -> RewardsWithDecay m e1 e2 = Some x -> 0 <= x <= m }.

(** What is stored fits its types. *)
Record values_ok t : Prop := {
  vo_rewards e m id r : kv (rewardsStore t) !! e = Some m -> m !! id = Some r -> rewards_ok r;
  vo_stats e s : kv (poolStatsStore t) !! e = Some s -> stats_ok s;
}.

Definition reward_entry (id : AccountID) t (e : EpochIndex) : option (PoolRewards * PoolsStats) :=
  r ← rewardsForAccount id e t; r ← r; s ← load_stats e t; Some (r, s).
(** What the pool of the validator was given in an epoch. *)
Definition pool_given (id : AccountID) t (e : EpochIndex) : Z := match reward_entry id t e with Some (r, _) => pr_PoolRewards r | None => 0 end.
Definition validator_owed (id : AccountID) (v : Z) t (e : EpochIndex) : Z :=
  match reward_entry id t e with Some (r, s) => validator_part r s v e | None => 0 end.
Definition delegator_owed (id : AccountID) t (e : EpochIndex) (d : Z) : Z :=
  match reward_entry id t e with Some (r, s) => delegator_part r s e d | None => 0 end.

Lemma reward_entry_ok id t e r s : values_ok t -> reward_entry id t e = Some (r, s) -> rewards_ok r /\ stats_ok s.
Proof.
  intros [Hr Hs]. unfold reward_entry, rewardsForAccount, rewardsMap, GetEpoch, load_stats, Load. intros Hb.
  repeat (apply bind_Some in Hb as (? & ? & Hb)). repeat case_match; simplify_eq. apply bind_Some in H as (m & Hm & ?). simplify_eq.
  destruct (kv (rewardsStore t) !! e) as [m'|] eqn:E; cbn in *; [|by rewrite lookup_empty in *]. split; [by eapply Hr|by eapply Hs].
Qed.

Lemma share_nonneg id v t e r s x : values_ok t -> 0 <= ProfitMarginExponent e -> in_range Uint64 v ->
  reward_entry id t e = Some (r, s) -> (validator_share r s v e = Some (Some x) \/ delegator_share r s v e = Some x) -> 0 <= x.
Proof.
  intros Hok Hk Hv He Hx. destruct (reward_entry_ok _ _ _ _ _ Hok He) as [Hr Hs]. unfold in_range in Hv. cbn in Hv.
  pose proof Hr as (Hr1 & Hr2 & Hr3). unfold stats_ok, in_range in Hr1, Hr2, Hr3. cbn in Hr1, Hr2, Hr3.
  destruct Hx as [(Hle & Hp & Hm & _ & ->)%validator_share_spec|(Hp & Hm & ->)%delegator_share_spec]; auto;
    pose proof (residual_bound r s e Hr Hs Hk Hm); unfold stats_ok, in_range in Hs; cbn in Hs.
  - assert (0 <= residual r s e * v / pr_PoolStake r) by (apply Z.div_pos; nia).
    assert (0 <= ps_ProfitMargin s * (pr_PoolRewards r - pr_FixedCost r) / 2 ^ ProfitMarginExponent e) by (apply Z.div_pos; nia). lia.
  - apply Z.div_pos; nia.
Qed.

Section Loops.
Context `{!DecaySpec} (id : AccountID) (t : Tracker) (Hok : values_ok t) (Hexp : forall e, 0 <= ProfitMarginExponent e).

Lemma owed_nonneg v e : in_range Uint64 v -> 0 <= validator_owed id v t e /\ 0 <= delegator_owed id t e v.
Proof.
  intros Hv. unfold validator_owed, delegator_owed, validator_part, delegator_part. destruct (reward_entry id t e) as [[r s]|] eqn:E; [|done].
  split; [destruct (validator_share r s v e) as [[x|]|] eqn:Es|destruct (delegator_share r s v e) as [x|] eqn:Es]; try done; eapply share_nonneg; eauto.
Qed.

(** A claim of a validator is at most what it is owed in each epoch. *)
Lemma validator_epoch_le v epochEnd e a st a' st' : in_range Uint64 v -> in_range Uint64 a ->
  validator_epoch id v epochEnd e t (a, st) = Some (a', st') -> in_range Uint64 a' /\ a' <= a + validator_owed id v t e.
Proof.
  intros Hv Ha. pose proof (owed_nonneg v e Hv) as [Ho _]. unfold validator_epoch, validator_owed, reward_entry in *.
  destruct (rewardsForAccount id e t) as [[r|]|] eqn:Er; cbn in *; [|intros; simplify_eq; split; [done|lia]|done].
  destruct (pr_PoolStake r =? 0); [intros; simplify_eq; split; [done|lia]|]. destruct (load_stats e t) as [s|] eqn:Es; cbn in *; [|done].
  unfold validator_part in *. destruct (validator_share r s v e) as [[x|]|] eqn:Ex; cbn in *; [|intros; simplify_eq; split; [done|lia]|done].
  intros Hb. apply bind_Some in Hb as (y & Hy & Hb). apply bind_Some in Hb as (z & Hz & Hb). simplify_eq.
  assert (He : reward_entry id t e = Some (r, s)) by (unfold reward_entry; rewrite Er; cbn; by rewrite Es).
  destruct (reward_entry_ok _ _ _ _ _ Hok He) as [Hr Hs]. apply decay_le in Hy; [|done].
  apply validator_share_spec in Ex as (_ & _ & _ & Hx & _); auto.
  rewrite SafeAdd_spec in Hz by (done || (unfold in_range in *; cbn in *; lia)). apply checked_Some in Hz as [? ->]. split; [done|lia].
Qed.

Lemma delegator_epoch_le d epochEnd e a st a' st' : in_range Uint64 d -> 0 <= a ->
  delegator_epoch id d epochEnd e t (a, st) = Some (a', st') -> 0 <= a' /\ a' <= a + delegator_owed id t e d.
Proof.
  intros Hd Ha. pose proof (owed_nonneg d e Hd) as [_ Ho]. unfold delegator_epoch, delegator_owed, reward_entry in *.
  destruct (rewardsForAccount id e t) as [[r|]|] eqn:Er; cbn in *; [|intros; simplify_eq; lia|done].
  destruct (pr_PoolStake r =? 0); [intros; simplify_eq; lia|]. destruct (load_stats e t) as [s|] eqn:Es; cbn in *; [|done].
  unfold delegator_part in *. destruct (delegator_share r s d e) as [x|] eqn:Ex; cbn in *; [|done].
  intros Hb. apply bind_Some in Hb as (y & Hy & Hb). simplify_eq. apply decay_le in Hy; [|done].
  pose proof (wrap_in_range Uint64 (a + y)) as Hw. destruct (wrap_decomp Uint64 (a + y)) as [k Hk]. unfold in_range in Hw. cbn in Hw, Hk. lia.
Qed.

Lemma validator_loop_le v epochEnd (es : list EpochIndex) a st a' st' : in_range Uint64 v -> in_range Uint64 a ->
  validator_loop id v epochEnd t es (a, st) = Some (a', st') -> a' <= a + zsum (validator_owed id v t) es.
Proof.
  intros Hv. revert a st. induction es as [|e es IH]; intros a st Ha; cbn [validator_loop zsum]; [intros; simplify_eq; lia|].
  intros Hb. apply bind_Some in Hb as ([a1 st1] & H1 & Hb). apply validator_epoch_le in H1 as [Ha1 H1]; [|done..]. apply IH in Hb; [|done]. lia.
Qed.
Lemma delegator_loop_le d epochEnd (es : list EpochIndex) a st a' st' : in_range Uint64 d -> 0 <= a ->
  delegator_loop id d epochEnd t es (a, st) = Some (a', st') -> a' <= a + zsum (fun e => delegator_owed id t e d) es.
Proof.
  intros Hd. revert a st. induction es as [|e es IH]; intros a st Ha; cbn [delegator_loop zsum]; [intros; simplify_eq; lia|].
  intros Hb. apply bind_Some in Hb as ([a1 st1] & H1 & Hb). apply delegator_epoch_le in H1 as [Ha1 H1]; [|done..]. apply IH in Hb; [|done]. lia.
Qed.

(** The stakes claimed are part of the pool in every epoch. *)
Definition stakes_fit (v : Z) (ds : list Z) (es : list EpochIndex) : Prop :=
  forall e r s, e ∈ es -> reward_entry id t e = Some (r, s) -> v + zsum (fun d => d) ds <= pr_PoolStake r.

Lemma owed_le v ds es : in_range Uint64 v -> Forall (in_range Uint64) ds -> stakes_fit v ds es ->
  zsum (validator_owed id v t) es + zsum (fun d => zsum (fun e => delegator_owed id t e d) es) ds <= zsum (pool_given id t) es.
Proof.
  intros Hv Hds Hfit. rewrite (zsum_exchange (fun d e => delegator_owed id t e d)), <- zsum_add. apply zsum_le. intros e He.
  unfold validator_owed, delegator_owed, pool_given. destruct (reward_entry id t e) as [[r s]|] eqn:E.
  - destruct (reward_entry_ok _ _ _ _ _ Hok E) as [Hr Hs]. apply pool_pays; auto. by eapply Hfit.
  - rewrite (zsum_ext _ (fun _ => 0 * 1)) by done. rewrite zsum_scale. lia.
Qed.
End Loops.

(** C32 Nobody is paid more than the pool was given: when a validator and any number of its delegators claim their rewards for the
    same epochs, with stakes that together do not exceed the stake of the pool, the sum of
    all claims is at most the sum of the rewards of the pool in those epochs. *)
Theorem claims_within_pool `{!DecaySpec} id t v ds epochStart epochEnd rv sv ev rs
  (Hok : values_ok t) (Hexp : forall e, 0 <= ProfitMarginExponent e) (Hv : in_range Uint64 v) (Hds : Forall (in_range Uint64) ds)
  (Hfit : stakes_fit id t v ds (epochs_upto epochStart (last_epoch epochEnd t)))
  (Hval : ValidatorReward id v epochStart epochEnd t = Some (rv, sv, ev))
  (Hdel : Forall2 (fun d x => exists sd ed, DelegatorReward id d epochStart epochEnd t = Some (x, sd, ed)) ds rs) :
  rv + zsum (fun x => x) rs <= zsum (pool_given id t) (epochs_upto epochStart (last_epoch epochEnd t)).
Proof.
  set (es := epochs_upto epochStart (last_epoch epochEnd t)) in *. pose proof (owed_le id t Hok Hexp v ds es Hv Hds Hfit) as Hle.
  unfold ValidatorReward in Hval. apply bind_Some in Hval as ([a st] & Ha & Hval). simplify_eq.
  fold es in Ha. apply validator_loop_le in Ha; [|done..]. assert (Hsum : zsum (fun x => x) rs <= zsum (fun d => zsum (fun e => delegator_owed id t e d) es) ds); [|lia].
  clear Hle Ha Hfit. induction Hdel as [|d x ds rs (sd & ed & Hd) _ IH]; cbn [zsum]; [done|]. inversion_clear Hds as [|?? Hd0 Hds']. specialize (IH Hds').
  unfold DelegatorReward in Hd. apply bind_Some in Hd as ([b st'] & Hb & Hd). simplify_eq. apply delegator_loop_le in Hb; [|done..]. fold es in Hb. lia.
Qed.
End Shares.
