(* ===== verification/EpochRewards.v ===== *)
(** * The rewards of an epoch

    Tracked performance never counts more active subslots than allowed, so the
    performance factor of a validator is at most the number of blocks it may issue
    per slot, and the pools of an epoch share at most the target reward. *)
From Stdlib Require Import Strings.Byte.
From S2P Require Import Prelude Bytes Block TimeApi EpochStore Accounts CoreAccount Prunable Performance.
Import CoreAccount Prunable Performance.

(** ** Counting bits *)
Lemma ones_bound n z : 0 <= ones n z <= Z.of_nat n.
Proof. induction n as [|n IH]; cbn [ones]; [lia|]. destruct (Z.testbit z (Z.of_nat n)); cbn [Z.b2z]; lia. Qed.

Lemma ones_lor n a b : ones n (Z.lor a b) <= ones n a + ones n b.
Proof. induction n as [|n IH]; cbn [ones]; [lia|]. rewrite Z.lor_spec. destruct (Z.testbit a _), (Z.testbit b _); cbn [Z.b2z orb]; lia. Qed.

Lemma ones_pow2 n i : 0 <= i -> ones n (2 ^ i) = if i <? Z.of_nat n then 1 else 0.
Proof.
  intros Hi. induction n as [|n IH]; cbn [ones]; [case_match; lia|]. rewrite IH, Z.pow2_bits_eqb by done.
  destruct (Z.eqb_spec i (Z.of_nat n)); cbn [Z.b2z]; repeat case_match; lia.
Qed.

Lemma lor_range a b n : 0 <= n -> 0 <= a < 2 ^ n -> 0 <= b < 2 ^ n -> 0 <= Z.lor a b < 2 ^ n.
Proof.
  intros Hn Ha Hb. split; [apply Z.lor_nonneg; lia|]. destruct (decide (Z.lor a b = 0)) as [->|Hz]; [lia|].
  apply Z.log2_lt_pow2; [pose proof (proj2 (Z.lor_nonneg a b)); lia|]. rewrite Z.log2_lor by lia.
  apply Z.max_lub_lt; (destruct (decide (0 < n)) as [Hp|]; [|assert (n = 0) by lia; subst; cbn in *; assert (a = 0) by lia; assert (b = 0) by lia; subst; done]);
    [destruct (decide (a = 0)) as [->|]|destruct (decide (b = 0)) as [->|]]; try (cbn; lia); apply Z.log2_lt_pow2; lia.
Qed.

Section Tracking.
Context `{API : RewardsAPI} `{TP : TimeProvider} (pruned : SlotIndex -> bool).
Implicit Types t : Tracker.

(** Not more active subslots than blocks, unless the validator issued too many. *)
Definition perf_ok (limit : Z) (p : ValidatorPerformance) : Prop :=
  0 <= SlotActivityVector p < 2 ^ 32 /\ 0 <= BlockIssuedCount p /\ (BlockIssuedCount p <= limit -> OnesCount32 (SlotActivityVector p) <= BlockIssuedCount p).
Definition perf_inv t : Prop :=
  forall slot m id p, validatorPerformances t !! slot = Some m -> m !! id = Some p -> perf_ok (ValidationBlocksPerSlot (EpochFromSlot slot)) p.

Lemma perf_ok_new limit : perf_ok limit NewValidatorPerformance.
Proof. split; [done|]. by split. Qed.

Lemma shift_one_ok i b : shift_one i = Ret b -> 0 <= b < 2 ^ 32 /\ OnesCount32 b <= 1.
Proof.
  unfold shift_one. destruct (Z.ltb_spec i 0) as [|Hi]; [done|]. intros [= <-]. unfold OnesCount32. destruct (Z.ltb_spec i 32) as [Hlt|]; [|vm_compute; intuition congruence].
  rewrite ones_pow2 by done. split; [|case_match; lia]. split; [lia|]. apply Z.pow_lt_mono_r; lia.
Qed.

(** A block adds at most one active subslot and is counted, up to one above the limit. *)
Lemma perf_ok_step limit p b v :
  0 <= limit < 255 -> perf_ok limit p -> 0 <= b < 2 ^ 32 -> OnesCount32 b <= 1 ->
  perf_ok limit (mkPerformance (Z.lor (SlotActivityVector p) b)
    (if BlockIssuedCount p <? u8 (limit + 1) then u8 (BlockIssuedCount p + 1) else BlockIssuedCount p) v).
Proof.
  intros Hl (Hv & Hc & Ho) Hb H1. unfold perf_ok. cbn [SlotActivityVector BlockIssuedCount]. unfold u8. rewrite (Z.mod_small (limit + 1)) by lia.
  split; [by apply lor_range|]. pose proof (ones_lor 32 (SlotActivityVector p) b) as Hlor. unfold OnesCount32 in *.
  case_match; [rewrite Z.mod_small by lia|]; lia.
Qed.

Lemma track_member_inv vb block t t' : 0 <= ValidationBlocksPerSlot (EpochFromSlot (Slot (ID block))) < 255 -> perf_inv t ->
  trackCommitteeMemberPerformance pruned vb block t = Ret t' -> perf_inv t'.
Proof.
  intros Hl Hinv. unfold trackCommitteeMemberPerformance, performances_of. destruct (pruned _); [by intros [= <-]|].
  intros (i & _ & (b & Hb & Ht)%bind_Ret)%bind_Ret. injection Ht as <-. apply shift_one_ok in Hb as [Hb H1].
  set (perf := default ∅ (validatorPerformances t !! Slot (ID block))).
  assert (Hperf : forall id p, perf !! id = Some p -> perf_ok (ValidationBlocksPerSlot (EpochFromSlot (Slot (ID block)))) p).
  { intros id p Hp. unfold perf in Hp. destruct (validatorPerformances t !! Slot (ID block)) as [m|] eqn:Em; cbn in Hp; [by eapply Hinv|by rewrite lookup_empty in Hp]. }
  intros slot m id p. cbn. intros [[<- <-]|[_ Hm]]%lookup_insert_Some; [|by eapply Hinv].
  intros [[<- <-]|[_ Hp]]%lookup_insert_Some; [|by eapply Hperf]. apply perf_ok_step; try done.
  destruct (perf !! IssuerID block) as [p|] eqn:Ep; cbn; [by eapply Hperf|apply perf_ok_new].
Qed.

Lemma track_inv block vb t t' : 0 <= ValidationBlocksPerSlot (EpochFromSlot (Slot (ID block))) < 255 -> perf_inv t ->
  TrackValidationBlock pruned block vb t = Ret t' -> perf_inv t'.
Proof.
  intros Hl Hinv. unfold TrackValidationBlock. destruct vb as [vb|]; [|by intros [= <-]]. intros ([[]|] & _ & Ht)%bind_Ret; [|by injection Ht as <-..].
  by eapply track_member_inv.
Qed.

(** What tracking leaves as it is. *)
Lemma track_fields block vb t t' : TrackValidationBlock pruned block vb t = Ret t' ->
  rewardsStore t' = rewardsStore t /\ poolStatsStore t' = poolStatsStore t /\ committeeStore t' = committeeStore t /\ latestAppliedEpoch t' = latestAppliedEpoch t.
Proof.
  unfold TrackValidationBlock. destruct vb as [vb|]; [|by intros [= <-]]. intros ([[]|] & _ & Ht)%bind_Ret; [|by injection Ht as <-..].
  unfold trackCommitteeMemberPerformance in Ht. case_match; [|by injection Ht as <-]. apply bind_Ret in Ht as (i & _ & (b & _ & Ht)%bind_Ret). by injection Ht as <-.
Qed.

(** Tracking a sequence of blocks. *)
Fixpoint track_blocks (l : list (ModelBlock * option ValidationBlock)) t : outcome Tracker :=
  match l with [] => Ret t | (b, vb) :: l => t ← TrackValidationBlock pruned b vb t; track_blocks l t end.

Lemma track_blocks_inv l t t' : (forall e, 0 <= ValidationBlocksPerSlot e < 255) -> perf_inv t -> track_blocks l t = Ret t' ->
  perf_inv t' /\ rewardsStore t' = rewardsStore t.
Proof.
  intros Hl. revert t. induction l as [|[b vb] l IH]; intros t Hinv; cbn [track_blocks]; [by intros [= <-]|].
  intros (t1 & H1 & Ht)%bind_Ret. apply IH in Ht as [Hi Hr]; [|by eapply track_inv]. split; [done|]. rewrite Hr. by eapply track_fields.
Qed.
End Tracking.

(** ** Performance factors *)
Section Factors.
Context `{API : RewardsAPI} `{TPS : TimeProviderSpec} (pruned : SlotIndex -> bool).
Implicit Types t : Tracker.

Lemma sum_activity_le limit (l : list (option ValidatorPerformance)) acc x :
  0 <= limit -> 0 <= acc -> (forall p, Some p ∈ l -> perf_ok limit p) -> sum_activity limit l acc = Some x ->
  0 <= x /\ x <= acc + limit * Z.of_nat (length (omap (fun x => x) l)).
Proof.
  intros Hl. revert acc. induction l as [|[p|] l IH]; intros acc Ha Hp; cbn [sum_activity omap list_omap]; [intros; simplify_eq; cbn; lia| |].
  - cbn [length]. destruct (Z.ltb_spec limit (BlockIssuedCount p)); [done|]. intros Hs.
    destruct (Hp p) as (Hv & Hc & Ho); [set_solver|]. pose proof (ones_bound 32 (SlotActivityVector p)) as Hb. unfold OnesCount32 in *.
    pose proof (wrap_in_range Uint64 (acc + ones 32 (SlotActivityVector p))) as Hw. destruct (wrap_decomp Uint64 (acc + ones 32 (SlotActivityVector p))) as [k Hk].
    unfold in_range in Hw. cbn [ty_min ty_max] in Hw, Hk. apply IH in Hs; [|lia|set_solver]. rewrite Nat2Z.inj_succ. nia.
  - apply IH; [done|set_solver].
Qed.

Lemma epoch_performances_count epoch id t : epoch_ok epoch -> Z.of_nat (length (omap (fun x => x) (epoch_performances pruned epoch id t))) <= EpochDurationSlots.
Proof.
  intros He. unfold epoch_performances. rewrite omap_app, length_app. pose proof EpochDurationSlots_pos.
  assert (Hn : forall n, length (omap (fun x => x) (replicate n (None : option ValidatorPerformance))) = 0%nat) by (intros n; induction n; [done|]; done).
  rewrite Hn. assert (Hm : forall (l : list (option ValidatorPerformance)), (length (omap (fun x => x) l) <= length l)%nat).
  { intros l. induction l as [|[p|] l IH]; cbn; lia. }
  etransitivity; [apply inj_le, Hm|]. rewrite length_fmap, length_seqZ, EpochStart_eq, EpochEnd_eq by done. lia.
Qed.

Lemma epoch_performances_ok epoch id t p : epoch_ok epoch -> perf_inv t -> Some p ∈ epoch_performances pruned epoch id t ->
  perf_ok (ValidationBlocksPerSlot epoch) p.
Proof.
  intros He Hinv. unfold epoch_performances. intros [Hin|Hin]%elem_of_app; [by apply elem_of_replicate in Hin as [? _]|].
  apply list_elem_of_fmap in Hin as (slot & Hp & Hs%elem_of_seqZ). unfold performances_of in Hp. destruct (pruned slot); [done|]. cbn in Hp.
  destruct (validatorPerformances t !! slot) as [m|] eqn:Em; cbn in Hp; [|by rewrite lookup_empty in Hp].
  pose proof EpochDurationSlots_pos. rewrite EpochStart_eq, EpochEnd_eq in Hs by done. pose proof He as [He0 He1].
  assert (Hr : in_range Uint32 slot) by (unfold in_range; cbn; nia).
  assert (Hslot : EpochFromSlot slot = epoch) by (apply EpochFromSlot_iff; [done..|]; rewrite EpochStart_eq, EpochEnd_eq by done; lia).
  rewrite <- Hslot. by eapply Hinv.
Qed.

(** The factor is at most the number of blocks a validator may issue per slot. *)
Lemma factor_le epoch id t : epoch_ok epoch -> perf_inv t -> 0 <= ValidationBlocksPerSlot epoch ->
  0 <= aggregatePerformanceFactors (epoch_performances pruned epoch id t) epoch <= ValidationBlocksPerSlot epoch.
Proof.
  intros He Hinv Hl. unfold aggregatePerformanceFactors. case_match; [lia|]. destruct (sum_activity _ _ 0) as [x|] eqn:Es; [|lia].
  apply sum_activity_le in Es as [Hx Hle]; [|done|done|intros p Hp; by eapply epoch_performances_ok].
  pose proof (epoch_performances_count epoch id t He) as Hc. pose proof SlotsPerEpochExponent_range. rewrite Z.shiftr_div_pow2 by lia.
  fold EpochDurationSlots. pose proof EpochDurationSlots_pos.
  split; [by apply Z.div_pos|]. apply Z.div_le_upper_bound; [done|]. etransitivity; [exact Hle|]. nia.
Qed.
End Factors.

(** ** Sharing the target reward *)
Section Target.
Context `{SMS : SafeMathSpec} `{SSS : SafeShiftSpec} `{API : RewardsAPI} `{TPS : TimeProviderSpec} `{!RangeOrder AccountID} (pruned : SlotIndex -> bool).
Implicit Types t : Tracker.

Lemma EpochFromSlot_end epoch : epoch_ok epoch -> EpochFromSlot (EpochEnd epoch) = epoch.
Proof.
  intros He. pose proof EpochDurationSlots_pos. pose proof He as [??].
  apply EpochFromSlot_iff; [rewrite EpochEnd_eq by done; unfold in_range; cbn; nia|done|]. rewrite EpochStart_eq, EpochEnd_eq by done. lia.
Qed.

(** The coefficient of a pool, out of [2^(k+1)]. *)
Definition coefficient (k totalStake totalValidatorStake : Z) (p : Pool) : Z :=
  PoolStake p * 2 ^ k / totalStake + ValidatorStake p * 2 ^ k / totalValidatorStake.

Lemma SafeDiv_u64 x y r : in_range Uint64 x -> in_range Uint64 y -> SafeDiv Uint64 x y = Some r -> r = x / y /\ y <> 0 /\ in_range Uint64 r.
Proof.
  intros Hx Hy. rewrite SafeDiv_spec by done. case_decide; [done|]. intros [Hr ->]%checked_Some. unfold in_range in Hx, Hy. cbn in Hx, Hy.
  rewrite Z.quot_div_nonneg in * by lia. done.
Qed.
Lemma SafeMul_u64 x y r : in_range Uint64 x -> in_range Uint64 y -> SafeMul Uint64 x y = Some r -> r = x * y /\ in_range Uint64 r.
Proof. intros Hx Hy. rewrite SafeMul_spec by done. intros [Hr ->]%checked_Some. done. Qed.
Lemma SafeLeftShift_u64 x k r : in_range Uint64 x -> 0 <= k -> SafeLeftShift Uint64 x k = Some r -> r = x * 2 ^ k /\ in_range Uint64 r.
Proof. intros Hx Hk. rewrite SafeLeftShift_spec by (done || (unfold in_range in Hx; cbn in Hx; lia)). intros [Hr ->]%checked_Some. done. Qed.

Lemma calculatePoolCoefficient_spec p totalStake totalValidatorStake slot c :
  pool_ok p -> in_range Uint64 totalStake -> in_range Uint64 totalValidatorStake -> 0 <= PoolCoefficientExponent (EpochFromSlot slot) ->
  calculatePoolCoefficient (PoolStake p) totalStake (ValidatorStake p) totalValidatorStake slot = Some c ->
  c = coefficient (PoolCoefficientExponent (EpochFromSlot slot)) totalStake totalValidatorStake p /\ in_range Uint64 c.
Proof.
  intros (Hp & Hv & _) Ht Htv Hk H. unfold calculatePoolCoefficient in H. repeat (apply bind_Some in H as (? & ? & H)).
  repeat match goal with E : SafeLeftShift _ _ _ = _ |- _ => apply SafeLeftShift_u64 in E as [-> ?]; [|done..] end.
  repeat match goal with E : SafeDiv _ _ _ = _ |- _ => apply SafeDiv_u64 in E as (-> & _ & ?); [|done..] end.
  rewrite SafeAdd_spec in H by done. by apply checked_Some in H as [? ->].
Qed.

Lemma poolReward_le epoch p totalStake totalValidatorStake pf target r :
  epoch_ok epoch -> pool_ok p -> in_range Uint64 totalStake -> in_range Uint64 totalValidatorStake ->
  0 <= PoolCoefficientExponent epoch < 255 -> TargetReward epoch = Some target -> in_range Uint64 target ->
  0 <= pf <= ValidationBlocksPerSlot epoch -> ValidationBlocksPerSlot epoch < 255 ->
  poolReward (EpochEnd epoch) totalValidatorStake totalStake (PoolStake p) (ValidatorStake p) pf = Some r ->
  0 <= r <= coefficient (PoolCoefficientExponent epoch) totalStake totalValidatorStake p * target / 2 ^ (PoolCoefficientExponent epoch + 1).
Proof.
  intros He Hp Ht Htv Hk Htar Htr Hpf Hlim H. unfold poolReward in H. rewrite EpochFromSlot_end, Htar in H by done.
  apply bind_Some in H as (? & [= <-] & H). apply bind_Some in H as (c & E1 & H). apply bind_Some in H as (y1 & E2 & H).
  apply bind_Some in H as (y2 & E3 & H). apply bind_Some in H as (y3 & E4 & H). injection H as <-.
  assert (Hpf' : in_range Uint64 pf) by (unfold in_range; cbn; lia).
  assert (Hl' : in_range Uint64 (ValidationBlocksPerSlot epoch)) by (unfold in_range; cbn; lia).
  apply calculatePoolCoefficient_spec in E1 as [Hc Hcr]; [|done|done|done|rewrite EpochFromSlot_end by done; lia].
  rewrite EpochFromSlot_end in Hc by done. rewrite <- Hc.
  apply SafeMul_u64 in E2 as [-> ?]; [|done..]. apply SafeMul_u64 in E3 as [-> ?]; [|done..]. apply SafeDiv_u64 in E4 as (-> & Hnz & ?); [|done..].
  unfold u8. rewrite Z.mod_small, Z.shiftr_div_pow2 by lia. set (d := 2 ^ _). assert (Hd : 0 < d) by (unfold d; lia).
  unfold in_range in *. cbn in *. split; [apply Z.div_pos; lia|]. apply Z.div_le_mono; [done|]. apply Z.div_le_upper_bound; [lia|]. nia.
Qed.

(** The coefficients of a committee sum up to at most [2^(k+1)]. *)
Lemma shares_le (f : Pool -> Z) (l : list (AccountID * Pool)) k total :
  0 <= k -> (forall e, e ∈ l -> 0 <= f e.2) -> zsum (fun e => f e.2) l = total -> zsum (fun e => f e.2 * 2 ^ k / total) l <= 2 ^ k.
Proof.
  intros Hk Hf Hsum. assert (Hpos : 0 <= total) by (rewrite <- Hsum; apply zsum_nonneg, Forall_forall; auto). assert (0 < 2 ^ k) by lia.
  destruct (decide (total = 0)) as [->|Hne].
  - rewrite (zsum_ext _ (fun _ => 0 * 1)) by (intros; by rewrite Zdiv_0_r). rewrite zsum_scale. lia.
  - etransitivity; [apply (zsum_div (fun e => f e.2 * 2 ^ k)); lia|]. rewrite (zsum_ext _ (fun e => 2 ^ k * f e.2)) by (intros; lia).
    rewrite zsum_scale, Hsum. rewrite Z.div_mul by done. done.
Qed.

Lemma coefficients_le (c : Accounts) k l : 0 <= k -> totals_ok c -> map_Forall (fun _ => pool_ok) (accountPools c) ->
  in_range Uint64 (map_sum PoolStake (accountPools c)) -> in_range Uint64 (map_sum ValidatorStake (accountPools c)) -> l ≡ₚ map_to_list (accountPools c) ->
  zsum (fun e => coefficient k (TotalStake c) (TotalValidatorStake c) e.2) l <= 2 ^ (k + 1).
Proof.
  intros Hk [Hs Hv] Hp Hrs Hrv Hl. unfold TotalStake, TotalValidatorStake. rewrite Hs, Hv, !wrap_id by done.
  assert (Hpool : forall e, e ∈ l -> 0 <= PoolStake e.2 /\ 0 <= ValidatorStake e.2).
  { intros [id p] Hin. rewrite Hl in Hin. apply elem_of_map_to_list in Hin. apply Hp in Hin as (H1 & H2 & _). unfold in_range in H1, H2. cbn in *. lia. }
  unfold coefficient. rewrite zsum_add. rewrite Z.pow_add_r by lia.
  pose proof (shares_le PoolStake l k (map_sum PoolStake (accountPools c)) Hk) as H1. pose proof (shares_le ValidatorStake l k (map_sum ValidatorStake (accountPools c)) Hk) as H2.
  unfold map_sum in *. rewrite !(zsum_perm _ _ _ Hl) in *. specialize (H1 (fun e He => proj1 (Hpool e He)) eq_refl). specialize (H2 (fun e He => proj2 (Hpool e He)) eq_refl). lia.
Qed.

Lemma apply_pools_le epoch c t target (l : list (AccountID * Pool)) m m' :
  epoch_ok epoch -> perf_inv t -> in_range Uint64 (TotalStake c) -> in_range Uint64 (TotalValidatorStake c) ->
  0 <= PoolCoefficientExponent epoch < 255 -> TargetReward epoch = Some target -> in_range Uint64 target ->
  0 <= ValidationBlocksPerSlot epoch < 255 -> Forall (fun e => pool_ok e.2) l -> NoDup l.*1 -> (forall id, id ∈ l.*1 -> m !! id = None) ->
  apply_pools pruned epoch c t l m = Ret m' ->
  map_sum pr_PoolRewards m' <= map_sum pr_PoolRewards m
    + zsum (fun e => coefficient (PoolCoefficientExponent epoch) (TotalStake c) (TotalValidatorStake c) e.2 * target / 2 ^ (PoolCoefficientExponent epoch + 1)) l
  /\ forall id, is_Some (m' !! id) -> is_Some (m !! id) \/ id ∈ l.*1.
Proof.
  intros He Hinv Hts Htv Hk Htar Htr Hlim Hp Hnd. revert m. induction l as [|[id p] l IH]; intros m Hm; cbn [apply_pools zsum fmap list_fmap fst snd] in *.
  - intros [= <-]. split; [lia|auto].
  - inversion_clear Hp as [|?? Hp1 Hp2]. inversion_clear Hnd as [|?? Hn1 Hn2]. intros (m1 & H1 & H2)%bind_Ret. cbn [apply_pool] in H1. cbn [snd] in Hp1.
    pose proof (factor_le pruned epoch id t He Hinv (proj1 Hlim)) as Hf. set (pf := aggregatePerformanceFactors _ _) in *.
    set (bound := coefficient _ _ _ p * target / _). assert (Hb : 0 <= bound).
    { unfold bound, coefficient. destruct Hp1 as (Ha & Hb & _). unfold in_range in *. cbn in *. apply Z.div_pos; [|lia].
      assert (forall x y, 0 <= x -> 0 <= y -> 0 <= x / y) by (intros x y ? ?; destruct (decide (y = 0)) as [->|]; [by rewrite Zdiv_0_r|apply Z.div_pos; lia]).
      apply Z.mul_nonneg_nonneg; [|lia]. apply Z.add_nonneg_nonneg; auto with lia. }
    destruct (Z.eqb_spec pf 0) as [Hz|Hz].
    + injection H1 as <-. apply IH in H2 as [Hle Hdom]; [|done..|intros; apply Hm; set_solver]. split; [lia|]. intros id' Hid'. destruct (Hdom id' Hid'); set_solver.
    + destruct (poolReward _ _ _ _ _ _) as [r|] eqn:Er; [|done]. injection H1 as <-.
      apply (poolReward_le epoch p _ _ pf target) in Er; [|done..|lia]. fold bound in Er.
      apply IH in H2 as [Hle Hdom]; [|done..|].
      * rewrite map_sum_insert_None in Hle by (apply Hm; set_solver). cbn in Hle. split; [lia|]. intros id' Hid'.
        destruct (Hdom id' Hid') as [Hi|]; [|set_solver]. apply lookup_insert_is_Some' in Hi as [->|]; set_solver.
      * intros id' Hid'. rewrite lookup_insert_ne; [apply Hm; set_solver|]. intros ->. done.
Qed.

(** An epoch hands out at most its target reward.  Track any sequence of validation blocks from an empty
    performance store and apply the epoch for a committee whose totals are right: if the epoch is
    applied, the rewards of all its pools together are at most the target reward, only members of the committee
    have rewards, and the epoch is the latest applied one. *)
Theorem epoch_rewards_bounded blocks t0 t committee epoch target t'
  (He : epoch_ok epoch) (Hempty : validatorPerformances t0 = ∅) (Htrack : track_blocks pruned blocks t0 = Ret t)
  (Hvb : forall e, 0 <= ValidationBlocksPerSlot e < 255) (Hk : 0 <= PoolCoefficientExponent epoch < 255)
  (Htar : TargetReward epoch = Some target) (Htr : in_range Uint64 target)
  (Htot : totals_ok committee) (Hpools : map_Forall (fun _ => pool_ok) (accountPools committee))
  (Hs : in_range Uint64 (map_sum PoolStake (accountPools committee))) (Hv : in_range Uint64 (map_sum ValidatorStake (accountPools committee)))
  (Hnew : kv (rewardsStore t0) !! epoch = None) (Happ : ApplyEpoch pruned epoch committee t = Ret (true, t')) :
  exists m, kv (rewardsStore t') !! epoch = Some m /\ map_sum pr_PoolRewards m <= target
    /\ (forall id, is_Some (m !! id) -> Has id committee = true) /\ latestAppliedEpoch t' = epoch.
Proof.
  destruct (track_blocks_inv pruned blocks t0 t Hvb) as [Hinv Hrew]; [|done|].
  { intros slot m id p Hm. by rewrite Hempty, lookup_empty in Hm. }
  unfold ApplyEpoch in Happ. apply bind_Ret in Happ as (mg & _ & Happ). destruct mg as [mg|]; [|done]. destruct (Store_ _ _ _) as [stats|] eqn:Est; [|done].
  apply bind_Ret in Happ as (m0 & Hm0%deref_Ret & Happ). apply bind_Ret in Happ as (m & Hm & Happ). injection Happ as <-.
  assert (m0 = ∅) as ->.
  { unfold rewardsMap, GetEpoch in Hm0. cbn in Hm0. rewrite Hrew, Hnew in Hm0. by destruct (kv_isTooOld _ _); simplify_eq. }
  set (l := range_of (accountPools committee)) in *. assert (Hl : l ≡ₚ map_to_list (accountPools committee)) by apply range_of_perm.
  assert (Hts : in_range Uint64 (TotalStake committee) /\ in_range Uint64 (TotalValidatorStake committee)).
  { destruct Htot as [Ha Hb]. unfold TotalStake, TotalValidatorStake. rewrite Ha, Hb, !wrap_id by done. done. }
  apply (apply_pools_le epoch committee _ target) in Hm as [Hle Hdom]; try done; try tauto.
  2:{ apply Forall_forall. intros [id p] Hin. rewrite Hl in Hin. apply elem_of_map_to_list in Hin. by apply Hpools in Hin. }
  2:{ rewrite (fmap_Permutation fst _ _ Hl). apply NoDup_fst_map_to_list. }
  exists m. cbn. rewrite lookup_insert_eq. split; [done|]. rewrite map_sum_empty in Hle. split; [|split; [|done]].
  - pose proof (coefficients_le committee (PoolCoefficientExponent epoch) l (proj1 Hk) Htot Hpools Hs Hv Hl) as Hc.
    set (k := PoolCoefficientExponent epoch) in *. assert (Hd : 0 < 2 ^ (k + 1)) by lia. unfold in_range in Htr. cbn in Htr.
    pose proof (zsum_div (fun e => coefficient k (TotalStake committee) (TotalValidatorStake committee) e.2 * target) (2 ^ (k + 1)) l Hd) as Hz.
    assert (Hsc : zsum (fun e => coefficient k (TotalStake committee) (TotalValidatorStake committee) e.2 * target) l
                  = target * zsum (fun e => coefficient k (TotalStake committee) (TotalValidatorStake committee) e.2) l).
    { rewrite <- zsum_scale. apply zsum_ext. intros; lia. }
    rewrite Hsc in Hz. etransitivity; [exact Hle|]. etransitivity; [exact Hz|]. apply Z.div_le_upper_bound; [done|]. nia.
  - intros id Hid. destruct (Hdom id Hid) as [Hi|Hi]; [by rewrite lookup_empty in Hi; destruct Hi|]. unfold Has. apply bool_decide_eq_true.
    apply list_elem_of_fmap in Hi as ([id' p] & -> & Hin). rewrite Hl in Hin. apply elem_of_map_to_list in Hin. by exists p.
Qed.
End Target.
