(* ===== verification/SeatManager.v ===== *)
(** * The proof-of-authority seat manager (pkg/protocol/sybilprotection/seatmanager/poa)

    The committee never rotates; the manager keeps the set of seats that were active
    within a window before the latest activity.

    Parameters: hive.go's timed priority queue ([TimedQueue]; whether an element at exactly the given time is
    popped is left open), and the order in which the members of an account map are
    listed.  Times are nanoseconds.  Events are recorded in the order they are triggered.
    Locks are left out. *)
From Stdlib Require Import Strings.Byte.
From S2P Require Import Prelude Bytes KvStore Block Walker CoreAccount.
Import CoreAccount.

Module SeatManager.

Inductive Event :=
| OnlineCommitteeSeatAdded (seat : SeatIndex) (id : AccountID)
| OnlineCommitteeSeatRemoved (seat : SeatIndex)
| BlockProcessed (block : BlockID).

Record SeatManager (Q : Type) := mkSeatManager {
  sm_accounts : Accounts;
  committee : option SeatedAccounts;
  onlineCommittee : gset SeatIndex;
  inactivityQueue : Q;
  lastActivities : gmap SeatIndex Z;
  lastActivityTime : Z;
  events : list Event;
}.
Arguments mkSeatManager {Q}.
Arguments sm_accounts {Q}.
Arguments committee {Q}.
Arguments onlineCommittee {Q}.
Arguments inactivityQueue {Q}.
Arguments lastActivities {Q}.
Arguments lastActivityTime {Q}.
Arguments events {Q}.

Section Methods.
Context {Q : Type} `{!TimedQueue SeatIndex Q} `{I : AccountIDs} `{!RangeOrder AccountID} (optsActivityWindow : Z) (optsOnlineCommitteeStartup : list AccountID).
Implicit Types s : SeatManager Q.

(** The zero time of Go, before all times the manager sees. *)
Definition zeroTime : Z := -62135596800000000000.
Definition NewSeatManager : SeatManager Q := mkSeatManager NewAccounts None ∅ q_empty ∅ zeroTime [].

Definition with_committee a c s := mkSeatManager a c (onlineCommittee s) (inactivityQueue s) (lastActivities s) (lastActivityTime s) (events s).
Definition trigger e s := mkSeatManager (sm_accounts s) (committee s) (onlineCommittee s) (inactivityQueue s) (lastActivities s) (lastActivityTime s) (events s ++ [e]).
Definition with_activity online (queue : Q) last time s := mkSeatManager (sm_accounts s) (committee s) online queue last time (events s).

Definition RotateCommittee s : option SeatedAccounts := committee s.
Definition Committee s : option SeatedAccounts := committee s.
Definition OnlineCommittee s : gset SeatIndex := onlineCommittee s.
Definition SeatCount s : outcome Z := c ← deref (committee s); Ret (CoreAccount.SeatCount c).

Definition markSeatInactive (seat : SeatIndex) s : SeatManager Q :=
  trigger (OnlineCommitteeSeatRemoved seat)
    (with_activity (onlineCommittee s ∖ {[seat]}) (inactivityQueue s) (delete seat (lastActivities s)) (lastActivityTime s) s).

(** The body of the loop over the popped seats. *)
Definition check_inactive (activityThreshold : Z) s (inactiveSeat : SeatIndex) : SeatManager Q :=
  match lastActivities s !! inactiveSeat with
  | Some last => if activityThreshold <? last then s else markSeatInactive inactiveSeat s
  | None => markSeatInactive inactiveSeat s
  end.

Definition markSeatActive (seat : SeatIndex) (id : AccountID) (seatActivityTime : Z) s : SeatManager Q :=
  let last := lastActivities s !! seat in
  let later := match last with Some l => seatActivityTime <? l | None => false end in
  if later || (seatActivityTime <? lastActivityTime s - optsActivityWindow) then s
  else
    let s := if is_none last
             then trigger (OnlineCommitteeSeatAdded seat id)
                    (with_activity (onlineCommittee s ∪ {[seat]}) (inactivityQueue s) (lastActivities s) (lastActivityTime s) s)
             else s in
    let s := with_activity (onlineCommittee s) (q_push seat seatActivityTime (inactivityQueue s)) (<[seat := seatActivityTime]> (lastActivities s)) (lastActivityTime s) s in
    if seatActivityTime <? lastActivityTime s then s
    else
      let activityThreshold := seatActivityTime - optsActivityWindow in
      let '(popped, queue) := q_pop_until activityThreshold (inactivityQueue s) in
      let s := with_activity (onlineCommittee s) queue (lastActivities s) seatActivityTime s in
      foldl (check_inactive activityThreshold) s popped.

Definition SetCommittee (validators : Accounts) s : SeatManager Q :=
  with_committee validators (Some (SelectCommittee (IDs validators) validators)) s.

(** The loop returns at the first validator without a seat. *)
Fixpoint mark_online (activityTime : Z) (c : SeatedAccounts) (validators : list AccountID) s : SeatManager Q :=
  match validators with
  | [] => s
  | v :: validators =>
      match GetSeat v c with
      | None => s
      | Some seat => mark_online activityTime c validators (markSeatActive seat v activityTime s)
      end
  end.
(** [activityTime] is the relative accepted time of the clock. *)
Definition ImportCommittee (activityTime : Z) (validators : Accounts) s : SeatManager Q :=
  let c := SelectCommittee (IDs validators) validators in
  let onlineValidators := if bool_decide (optsOnlineCommitteeStartup = []) then IDs validators else optsOnlineCommitteeStartup in
  mark_online activityTime c onlineValidators (with_committee validators (Some c) s).

(** The hook on allowed blocks: identities outside the committee are not tracked. *)
Definition blockAllowed (block : ModelBlock) s : outcome (SeatManager Q) :=
  c ← deref (committee s);
  let s := match GetSeat (IssuerID block) c with
           | Some seat => markSeatActive seat (IssuerID block) (IssuingTime block) s
           | None => s
           end in
  Ret (trigger (BlockProcessed (ID block)) s).
End Methods.

(** ** The online committee *)
Section Online.
Context {Q : Type} `{!TimedQueue SeatIndex Q} `{TQS : !TimedQueueSpec SeatIndex Q} (window : Z) (Hw : 0 <= window).
Implicit Types s : SeatManager Q.

(** Exactly the seats with a recorded activity are online; every recorded activity lies
    within the window before the latest one and is still in the queue. *)
Record online_ok s : Prop := {
  oo_online : onlineCommittee s = dom (lastActivities s);
  oo_window seat a : lastActivities s !! seat = Some a -> lastActivityTime s - window <= a <= lastActivityTime s;
  oo_queued seat a : lastActivities s !! seat = Some a -> (seat, a) ∈ q_elems (inactivityQueue s);
}.

Lemma online_ok_new : online_ok (NewSeatManager (Q:=Q)).
Proof. split; cbn; [set_solver|intros ??..]; by rewrite lookup_empty. Qed.

(** Checking popped seats removes those that were not active after the threshold. *)
Lemma check_inactive_spec threshold (l : list SeatIndex) s :
  onlineCommittee s = dom (lastActivities s) ->
  let s' := foldl (check_inactive threshold) s l in
  onlineCommittee s' = dom (lastActivities s') /\ lastActivityTime s' = lastActivityTime s /\ inactivityQueue s' = inactivityQueue s
  /\ forall seat, lastActivities s' !! seat =
       match lastActivities s !! seat with
       | Some a => if decide (seat ∈ l /\ a <= threshold) then None else Some a
       | None => None
       end.
Proof.
  revert s. induction l as [|x l IH]; intros s Ho; cbn [foldl].
  - split_and!; try done. intros seat. destruct (lastActivities s !! seat); [by rewrite decide_False by set_solver|done].
  - assert (Hstep : onlineCommittee (check_inactive threshold s x) = dom (lastActivities (check_inactive threshold s x))
      /\ lastActivityTime (check_inactive threshold s x) = lastActivityTime s /\ inactivityQueue (check_inactive threshold s x) = inactivityQueue s
      /\ forall seat, lastActivities (check_inactive threshold s x) !! seat =
           match lastActivities s !! seat with Some a => if decide (seat = x /\ a <= threshold) then None else Some a | None => None end).
    { unfold check_inactive. destruct (lastActivities s !! x) as [a|] eqn:Ex; [destruct (Z.ltb_spec threshold a) as [Hlt|Hle]|].
      - split_and!; try done. intros seat. destruct (lastActivities s !! seat) as [b|] eqn:Eb; [|done]. rewrite decide_False; [done|]. intros [-> ?]. simplify_eq. lia.
      - cbn. split_and!; try done; [rewrite dom_delete_L, Ho; set_solver|]. intros seat. destruct (decide (x = seat)) as [<-|Hne].
        + rewrite lookup_delete_eq, Ex. by rewrite decide_True.
        + rewrite lookup_delete_ne by done. destruct (lastActivities s !! seat); [|done]. rewrite decide_False by naive_solver. done.
      - cbn. split_and!; try done; [rewrite dom_delete_L, Ho; set_solver|]. intros seat. destruct (decide (x = seat)) as [<-|Hne].
        + by rewrite lookup_delete_eq, Ex.
        + rewrite lookup_delete_ne by done. destruct (lastActivities s !! seat); [|done]. rewrite decide_False by naive_solver. done. }
    destruct Hstep as (Ho' & Ht & Hq & Hl). destruct (IH _ Ho') as (H1 & H2 & H3 & H4). split; [done|]. split; [congruence|]. split; [congruence|].
    intros seat. rewrite H4, Hl. destruct (lastActivities s !! seat) as [a|]; [|done]. repeat case_decide; try done; set_solver.
Qed.

(** The effect of an activity: it is skipped when it is older than the window or than the last activity of the seat; otherwise it is recorded, and only
    activities that have left the window are forgotten. *)
Lemma markSeatActive_effect seat id time s : online_ok s ->
  let s' := markSeatActive window seat id time s in
  online_ok s'
  /\ (s' = s /\ ((exists l, lastActivities s !! seat = Some l /\ time < l) \/ time < lastActivityTime s - window)
      \/ lastActivityTime s' = Z.max (lastActivityTime s) time
         /\ (forall x b, lastActivities s' !! x = Some b -> <[seat := time]> (lastActivities s) !! x = Some b)
         /\ (forall x b, <[seat := time]> (lastActivities s) !! x = Some b -> lastActivityTime s' - window < b -> lastActivities s' !! x = Some b)
         /\ forall l, lastActivities s !! seat = Some l -> l <= time).
Proof.
  intros Hok. pose proof Hok as [Ho Hwin Hq]. unfold markSeatActive. set (last := lastActivities s !! seat).
  destruct (_ || _) eqn:Eskip.
  { split; [done|]. left. split; [done|]. apply orb_true_iff in Eskip as [Hl|Hl]; [|right; lia]. left. destruct last as [l|]; [|done]. exists l. split; [done|lia]. }
  apply orb_false_iff in Eskip as [Hlater Hold].
  assert (Hmono : forall l, last = Some l -> l <= time) by (intros l ->; lia).
  set (s1 := if is_none last then _ else s).
  assert (Hs1 : onlineCommittee s1 = onlineCommittee s ∪ {[seat]} /\ lastActivities s1 = lastActivities s /\ inactivityQueue s1 = inactivityQueue s /\ lastActivityTime s1 = lastActivityTime s).
  { unfold s1, last. destruct (lastActivities s !! seat) as [a|] eqn:E; cbn; [|done]. split_and!; try done. rewrite Ho. apply elem_of_dom_2 in E. set_solver. }
  destruct Hs1 as (Ha & Hb & Hc & Hd). cbn [onlineCommittee inactivityQueue lastActivities lastActivityTime with_activity]. rewrite Hc, Hb, Hd, Ha.
  set (la := <[seat:=time]> (lastActivities s)). set (q := q_push seat time (inactivityQueue s)).
  assert (Hdom : onlineCommittee s ∪ {[seat]} = dom la) by (unfold la; rewrite dom_insert_L, Ho; set_solver).
  assert (Hqueued : forall x a, la !! x = Some a -> (x, a) ∈ q_elems q).
  { intros x a Hx. unfold q. rewrite (q_elems_push seat time). apply lookup_insert_Some in Hx as [[<- <-]|[_ Hx]]; [set_solver|]. apply Hq in Hx. set_solver. }
  assert (Hla : forall x a, la !! x = Some a -> a <= Z.max (lastActivityTime s) time).
  { intros x a Hx. apply lookup_insert_Some in Hx as [[<- <-]|[_ Hx]]; [lia|]. apply Hwin in Hx. lia. }
  destruct (Z.ltb_spec time (lastActivityTime s)) as [Hlt|Hge].
  - split; [|right; cbn; rewrite ?Hd; split_and!; [lia|done..]]. split; cbn; rewrite ?Ha, ?Hb, ?Hc, ?Hd; auto.
    intros x a Hx. split; [|apply Hla in Hx; lia]. apply lookup_insert_Some in Hx as [[<- <-]|[_ Hx]]; [lia|apply Hwin in Hx; lia].
  - pose proof (q_pop_spec (time - window) q) as (popped & Hperm & Hpop & Hpl & Hkl).
    destruct (q_pop_until (time - window) q) as [ps queue]. cbn in Hpop, Hperm, Hkl. subst ps.
    set (s2 := with_activity _ _ _ _ _). destruct (check_inactive_spec (time - window) popped.*1 s2) as (H1 & H2 & H3 & H4); [by cbn; rewrite ?Ha, ?Hb|].
    assert (Hl2 : lastActivities s2 = la) by (unfold s2; cbn; by rewrite ?Hb). rewrite Hl2 in H4. cbn in H2, H3.
    assert (Hkept : forall x b, lastActivities (foldl (check_inactive (time - window)) s2 popped.*1) !! x = Some b -> la !! x = Some b /\ ~ (x ∈ popped.*1 /\ b <= time - window)).
    { intros x b Hx. rewrite H4 in Hx. destruct (la !! x) as [b'|]; [|done]. case_decide; [done|]. by simplify_eq. }
    assert (Hin : forall x b, (x, b) ∈ popped -> x ∈ popped.*1) by (intros x b Hx; apply list_elem_of_fmap; by exists (x, b)).
    split; [split; [done| |]|right; split_and!].
    + intros x a Hx. rewrite H2. apply Hkept in Hx as [Hx Hno]. pose proof (Hla x a Hx). split; [|lia].
      destruct (decide (a <= time - window)) as [Hle|]; [|lia]. pose proof (Hqueued x a Hx) as Hm. rewrite Hperm in Hm.
      apply elem_of_app in Hm as [Hm|Hm]; [|apply Hkl in Hm; cbn in Hm; lia]. exfalso. apply Hno. split; [by eapply Hin|done].
    + intros x a Hx. rewrite H3. apply Hkept in Hx as [Hx Hno]. pose proof (Hqueued x a Hx) as Hm. rewrite Hperm in Hm.
      apply elem_of_app in Hm as [Hm|Hm]; [|done]. exfalso. apply Hno. split; [by eapply Hin|]. by apply Hpl in Hm.
    + rewrite H2. lia.
    + intros x b Hx. by apply Hkept in Hx as [? _].
    + intros x b Hx Hb'. rewrite H2 in Hb'. rewrite H4, Hx. rewrite decide_False; [done|]. lia.
    + done.
Qed.

(** ** The online committee after a history of activities *)

(** [h] lists the activities reported so far. *)
Record history_ok (h : list (SeatIndex * Z)) s : Prop := {
  ho_ok : online_ok s;
  ho_recorded seat a : lastActivities s !! seat = Some a -> (seat, a) ∈ h;
  ho_complete seat a : (seat, a) ∈ h -> lastActivityTime s - window < a -> exists b, lastActivities s !! seat = Some b /\ a <= b;
  ho_latest seat a : (seat, a) ∈ h -> a <= lastActivityTime s;
}.

Lemma history_new : history_ok [] (NewSeatManager (Q:=Q)).
Proof. split; [apply online_ok_new|..]; cbn; intros; try (by rewrite lookup_empty in *); set_solver. Qed.

Lemma history_step h seat id time s : history_ok h s -> history_ok ((seat, time) :: h) (markSeatActive window seat id time s).
Proof.
  intros [Hok Hrec Hcomp Hlat]. destruct (markSeatActive_effect seat id time s Hok) as [Hok' [[Hs Hskip]|(Ht & Hk1 & Hk2 & Hmono)]].
  - rewrite Hs. assert (Hle : time <= lastActivityTime s).
    { destruct Hskip as [(l & Hl & ?)|?]; [apply (oo_window _ Hok) in Hl; lia|lia]. }
    split; [done|set_solver| |].
    + intros x a [[= -> ->]|Hin]%elem_of_cons Hw'; [|by apply Hcomp]. destruct Hskip as [(l & Hl & ?)|?]; [|lia]. exists l. split; [done|lia].
    + intros x a [[= -> ->]|Hin]%elem_of_cons; [done|by eapply Hlat].
  - split; [done| | |].
    + intros x a Hx%Hk1. apply lookup_insert_Some in Hx as [[<- <-]|[_ Hx]]; [set_solver|]. apply Hrec in Hx. set_solver.
    + intros x a Hin Hw'. assert (Hb : exists b, <[seat := time]> (lastActivities s) !! x = Some b /\ a <= b).
      { destruct (decide (x = seat)) as [->|Hne].
        - exists time. rewrite lookup_insert_eq. split; [done|]. apply elem_of_cons in Hin as [[= ->]|Hin]; [done|].
          destruct (Hcomp _ _ Hin) as (b & Hb & ?); [lia|]. apply Hmono in Hb. lia.
        - apply elem_of_cons in Hin as [[= -> ->]|Hin]; [done|]. destruct (Hcomp _ _ Hin) as (b & Hb & ?); [lia|]. exists b. by rewrite lookup_insert_ne. }
      destruct Hb as (b & Hb & Hab). exists b. split; [|done]. apply Hk2; [done|lia].
    + intros x a [[= -> ->]|Hin]%elem_of_cons; [lia|]. apply Hlat in Hin. lia.
Qed.

(** The activities reported in order to a new manager. *)
Definition run_activities (l : list (SeatIndex * AccountID * Z)) : SeatManager Q :=
  foldl (fun s '(seat, id, time) => markSeatActive window seat id time s) (NewSeatManager (Q:=Q)) l.

(** The online committee is the set of recently active seats.  After any sequence of activities, in any order of
    their times, a seat with an activity within the activity window before the latest one is online, and an
    online seat has an activity that is not older than the window; the latest activity time is a bound of all times. *)
Theorem online_committee_window (l : list (SeatIndex * AccountID * Z)) seat :
  let s := run_activities l in
  ((exists id a, (seat, id, a) ∈ l /\ lastActivityTime s - window < a) -> seat ∈ OnlineCommittee s)
  /\ (seat ∈ OnlineCommittee s -> exists id a, (seat, id, a) ∈ l /\ lastActivityTime s - window <= a)
  /\ forall x id a, (x, id, a) ∈ l -> a <= lastActivityTime s.
Proof.
  set (h := (fun e => (e.1.1, e.2)) <$> reverse l).
  assert (Hh : history_ok h (run_activities l)).
  { unfold h, run_activities. induction l as [|[[x id] a] l IH] using rev_ind; [apply history_new|].
    rewrite foldl_app, reverse_app. cbn. by apply history_step. }
  assert (Hin : forall x a, (x, a) ∈ h <-> exists id, (x, id, a) ∈ l).
  { intros x a. unfold h. rewrite list_elem_of_fmap. setoid_rewrite elem_of_reverse. split.
    - intros ([[x' id] a'] & [= -> ->] & ?). by exists id.
    - intros [id ?]. by exists (x, id, a). }
  destruct Hh as [[Ho Hwin _] Hrec Hcomp Hlat]. cbn zeta. unfold OnlineCommittee. rewrite Ho. split_and!.
  - intros (id & a & Ha & Hw'). destruct (Hcomp seat a) as (b & Hb & _); [apply Hin; by exists id|done|]. by apply elem_of_dom_2 in Hb.
  - intros [a Ha]%elem_of_dom. pose proof (Hwin _ _ Ha) as [? _]. apply Hrec, Hin in Ha as [id Hid]. by exists id, a.
  - intros x id a Ha. apply (Hlat x a), Hin. by exists id.
Qed.
End Online.

(** ** Evaluation *)
Module Demo.
#[local] Existing Instances list_queue list_queue_spec.

Lemma online_committee_window_witness :
  (0 <= 10) /\ ((exists id a, (1, id, a) ∈ [(1, 7, 100); (2, 8, 95); (1, 7, 80)] /\ lastActivityTime (run_activities (Q:=list (SeatIndex * Z)) 10 [(1, 7, 100); (2, 8, 95); (1, 7, 80)]) - 10 < a)
      -> 1 ∈ OnlineCommittee (run_activities (Q:=list (SeatIndex * Z)) 10 [(1, 7, 100); (2, 8, 95); (1, 7, 80)])).
Proof. split; [done|]. apply (online_committee_window (Q:=list (SeatIndex * Z)) 10 ltac:(done) [(1, 7, 100); (2, 8, 95); (1, 7, 80)] 1). Defined.

(** A seat with two activities that leave the window together is reported as removed twice. *)
Lemma seat_removed_twice :
  events (run_activities (Q:=list (SeatIndex * Z)) 10 [(1, 7, 1); (1, 7, 2); (2, 8, 100)])
  = [OnlineCommitteeSeatAdded 1 7; OnlineCommitteeSeatAdded 2 8; OnlineCommitteeSeatRemoved 1; OnlineCommitteeSeatRemoved 1].
Proof. reflexivity. Qed.
End Demo.
End SeatManager.
