(* ===== verification/SybilProtection.v ===== *)
(** * Sybil protection (pkg/protocol/sybilprotection/sybilprotectionv1/sybilprotection.go)

    Ties the performance tracker and the seat manager to the life of the chain: committing a slot registers the
    committee of the next epoch when the end of the epoch comes near and applies the epoch at its end; finalizing
    a slot selects a new committee in time.

    Parameters: the account data of the ledger, the protocol parameters per slot, the roots of trees, and the
    parameters of the tracker and the seat manager.  The error handler only reports; [ierrors.Wrapf] of a nil
    error is an error.  Locks are left out. *)
From Stdlib Require Import Strings.Byte.
From S2P Require Import Prelude Bytes KvStore Block TimeApi EpochStore Walker Accounts CoreAccount Prunable Performance SeatManager.
Import CoreAccount Performance SeatManager.

Module SybilProtection.

Record SybilProtection (Q : Type) := mkSybilProtection {
  seatManager : SeatManager Q;
  performanceTracker : Tracker;
  lastCommittedSlot : SlotIndex;
  committeeSelected : list (Accounts * EpochIndex);   (* the events triggered *)
}.
Arguments mkSybilProtection {Q}.
Arguments seatManager {Q}.
Arguments performanceTracker {Q}.
Arguments lastCommittedSlot {Q}.
Arguments committeeSelected {Q}.

(** apimodels.ValidatorResponse *)
Record ValidatorResponse := mkValidatorResponse {
  vr_AccountID : AccountID; vr_StakingEpochEnd : EpochIndex; vr_PoolStake : Z; vr_ValidatorStake : Z; vr_FixedCost : Z;
  vr_Active : bool; vr_Version : Z; vr_Hash : Z;
}.

Section Methods.
Context `{SM : SafeMath} `{SS : SafeShift} `{API : RewardsAPI} `{TP : TimeProvider} `{!RangeOrder AccountID} `{I : AccountIDs}
  {Q : Type} `{!TimedQueue SeatIndex Q} (pruned : SlotIndex -> bool) (rewards_root : RewardsMap -> Z) (committee_root : gset AccountID -> Z)
  (ledgerAccount : AccountID -> SlotIndex -> option (option AccountData))
  (MaxCommittableAge EpochNearingThreshold : SlotIndex -> SlotIndex) (optsActivityWindow : Z) (optsOnlineCommitteeStartup : list AccountID).
Implicit Types o : SybilProtection Q.

Definition with_seats (v : SeatManager Q) o := mkSybilProtection v (performanceTracker o) (lastCommittedSlot o) (committeeSelected o).
Definition with_tracker v o := mkSybilProtection (seatManager o) v (lastCommittedSlot o) (committeeSelected o).
Definition with_last v o := mkSybilProtection (seatManager o) (performanceTracker o) v (committeeSelected o).
Definition select_event c epoch o := mkSybilProtection (seatManager o) (performanceTracker o) (lastCommittedSlot o) (committeeSelected o ++ [(c, epoch)]).

(** A read of the tracker that can panic. *)
Definition tracker_read {A} (f : Tracker -> outcome A) : eprog (SybilProtection Q) A := fun o =>
  a ← f (performanceTracker o); Ret (Some a, o).

Definition TrackValidationBlock (block : ModelBlock) (validation : option ValidationBlock) o : outcome (SybilProtection Q) :=
  t ← Performance.TrackValidationBlock pruned block validation (performanceTracker o); Ret (with_tracker t o).

(** The root of the tree of the members. *)
Definition committeeRoot (targetCommitteeEpoch : EpochIndex) : eprog (SybilProtection Q) Z :=
  c ← tracker_read (LoadCommitteeForEpoch targetCommitteeEpoch);
  c ← etry c;
  mret (committee_root (dom (accountPools c))).

(** The committee of the current epoch also serves in the next one. *)
Definition promote (currentEpoch nextEpoch : EpochIndex) : eprog (SybilProtection Q) unit :=
  c ← tracker_read (LoadCommitteeForEpoch currentEpoch);
  c ← ederef c;
  let c := SetReused c in
  _ ← eupdate (fun o => with_seats (SetCommittee c (seatManager o)) o);
  _ ← eupdate (select_event c nextEpoch);
  t ← eread (fun o => RegisterCommittee nextEpoch c (performanceTracker o));
  t ← etry t;
  eupdate (with_tracker t).

Definition apply_epoch (currentEpoch : EpochIndex) : eprog (SybilProtection Q) unit :=
  c ← tracker_read (LoadCommitteeForEpoch currentEpoch);
  c ← etry c;
  r ← tracker_read (ApplyEpoch pruned currentEpoch c);
  _ ← eupdate (with_tracker r.2);
  if r.1 : bool then mret tt else throw.

(** Returns the committee root and the rewards root. *)
Definition CommitSlot (slot : SlotIndex) : eprog (SybilProtection Q) (Z * Z) :=
  let currentEpoch := EpochFromSlot slot in
  let nextEpoch := u32 (currentEpoch + 1) in
  let maxCommittableAge := MaxCommittableAge slot in
  _ ← (if EpochEnd currentEpoch =? u32 (slot + maxCommittableAge) then
         next ← tracker_read (LoadCommitteeForEpoch nextEpoch);
         match next with Some _ => mret tt | None => promote currentEpoch nextEpoch end
       else mret tt);
  _ ← (if EpochEnd currentEpoch =? slot then apply_epoch currentEpoch else mret tt);
  let targetCommitteeEpoch := if u32 (slot + maxCommittableAge) <? EpochEnd currentEpoch then currentEpoch else nextEpoch in
  committeeRoot_ ← committeeRoot targetCommitteeEpoch;
  let targetRewardsEpoch := if EpochEnd currentEpoch =? slot then nextEpoch else currentEpoch in
  rewardsRoot ← eread (fun o => RewardsRoot rewards_root targetRewardsEpoch (performanceTracker o));
  rewardsRoot ← etry rewardsRoot;
  _ ← eupdate (with_last slot);
  mret (committeeRoot_, rewardsRoot).

(** The weights of the candidates; a ledger error ends the loop, a missing account is a nil pointer. *)
Fixpoint weigh (slot : SlotIndex) (candidates : list AccountID) (weighted : Accounts) : outcome Accounts :=
  match candidates with
  | [] => Ret weighted
  | candidate :: candidates =>
      match ledgerAccount candidate slot with
      | None => Ret weighted
      | Some a =>
          a ← deref a;
          weigh slot candidates
            (Set_ candidate (mkPool (u64 (Accounts.ValidatorStake a + DelegationStake a)) (Accounts.ValidatorStake a) (Accounts.FixedCost a)) weighted)
      end
  end.

(** The PoA seat manager ignores the weights and keeps its committee; a failed registration is only reported. *)
Definition selectNewCommittee (slot : SlotIndex) o : outcome (Accounts * SybilProtection Q) :=
  let nextEpoch := u32 (EpochFromSlot slot + 1) in
  candidates ← EligibleValidatorCandidates nextEpoch (performanceTracker o);
  _ ← weigh slot (range_set candidates) NewAccounts;
  newCommittee ← deref (RotateCommittee (seatManager o));
  weightedCommittee ← SeatedAccounts_Accounts newCommittee;
  let o := match RegisterCommittee nextEpoch weightedCommittee (performanceTracker o) with Some t => with_tracker t o | None => o end in
  Ret (weightedCommittee, o).

Definition slotFinalized (slot : SlotIndex) o : outcome (SybilProtection Q) :=
  let epoch := EpochFromSlot slot in
  let epochEndSlot := EpochEnd epoch in
  if (u32 (slot + EpochNearingThreshold slot) =? epochEndSlot) && (u32 (lastCommittedSlot o + MaxCommittableAge slot) <? epochEndSlot) then
    '(newCommittee, o) ← selectNewCommittee slot o;
    Ret (select_event newCommittee (u32 (epoch + 1)) o)
  else Ret o.

Definition IsCandidateActive (validatorID : AccountID) (epoch : EpochIndex) o : outcome bool :=
  c ← EligibleValidatorCandidates epoch (performanceTracker o); Ret (bool_decide (validatorID ∈ c)).

(** The loop over the candidates; [None] is an error. *)
Fixpoint eligible (epoch : EpochIndex) (slot : SlotIndex) (candidates : list AccountID) (validators : list AccountData) : option (list AccountData) :=
  match candidates with
  | [] => Some validators
  | candidate :: candidates =>
      a ← ledgerAccount candidate slot;
      a ← a;
      if StakeEndEpoch a <=? epoch then eligible epoch slot candidates validators else eligible epoch slot candidates (validators ++ [a])
  end.
Definition EligibleValidators (epoch : EpochIndex) o : outcome (option (list AccountData)) :=
  candidates ← EligibleValidatorCandidates epoch (performanceTracker o);
  Ret (eligible epoch (lastCommittedSlot o) (range_set candidates) []).

Definition validator_response (active : gset AccountID) (candidate : AccountID) (a : AccountData) : ValidatorResponse :=
  mkValidatorResponse (AccID a) (StakeEndEpoch a) (u64 (Accounts.ValidatorStake a + DelegationStake a)) (Accounts.ValidatorStake a) (Accounts.FixedCost a)
    (bool_decide (candidate ∈ active)) (Version (LatestSupportedProtocolVersionAndHash a)) (Hash (LatestSupportedProtocolVersionAndHash a)).
Fixpoint respond (epoch : EpochIndex) (slot : SlotIndex) (active : gset AccountID) (candidates : list AccountID) (resp : list ValidatorResponse) : option (list ValidatorResponse) :=
  match candidates with
  | [] => Some resp
  | candidate :: candidates =>
      a ← ledgerAccount candidate slot;
      a ← a;
      if StakeEndEpoch a <=? epoch then respond epoch slot active candidates resp
      else respond epoch slot active candidates (resp ++ [validator_response active candidate a])
  end.
(** By validator stake, the greatest first. *)
Definition stake_ge (a b : ValidatorResponse) : Prop := vr_ValidatorStake b <= vr_ValidatorStake a.
#[global] Instance stake_ge_dec a b : Decision (stake_ge a b).
Proof. unfold stake_ge. apply _. Defined.
Definition OrderedRegisteredCandidateValidatorsList (epoch : EpochIndex) o : outcome (option (list ValidatorResponse)) :=
  active ← EligibleValidatorCandidates epoch (performanceTracker o);
  Ret (merge_sort stake_ge <$> respond epoch (lastCommittedSlot o) active (range_set (ValidatorCandidates epoch)) []).

(** ** Start (NewProvider) *)

(** When the engine is constructed: the tracker of the latest commitment and the initial committee, if given. *)
Definition Construct (latestCommittedSlot : SlotIndex) (initial : option Accounts) (rewards : EpochKVStore RewardsMap) (stats : Store Prunable.PoolsStats)
    (committees : Store Accounts) (performances : gmap SlotIndex SlotPerformances) (seats : SeatManager Q) : outcome (SybilProtection Q) :=
  let t := NewTracker rewards stats committees performances (EpochFromSlot latestCommittedSlot) in
  let o := mkSybilProtection seats t latestCommittedSlot [] in
  match initial with
  | None => Ret o
  | Some c => t ← deref (RegisterCommittee 0 c t); Ret (with_tracker t o)
  end.
(** When it is initialized: the seat manager learns the committee of the current epoch and, if selected, of the next. *)
Definition Initialize (latestCommittedSlot : SlotIndex) (activityTime : Z) o : outcome (SybilProtection Q) :=
  let currentEpoch := EpochFromSlot latestCommittedSlot in
  c ← LoadCommitteeForEpoch currentEpoch (performanceTracker o);
  c ← deref c;
  let o := with_seats (ImportCommittee optsActivityWindow optsOnlineCommitteeStartup activityTime c (seatManager o)) o in
  next ← LoadCommitteeForEpoch (u32 (currentEpoch + 1)) (performanceTracker o);
  match next with
  | None => Ret o
  | Some c => Ret (with_seats (ImportCommittee optsActivityWindow optsOnlineCommitteeStartup activityTime c (seatManager o)) o)
  end.
End Methods.
End SybilProtection.
