(* ===== verification/SybilClaims.v ===== *)
(** * A committee for every slot

    Within the bounds the code documents (53-bit stakes, a pool coefficient exponent of at most 11, a target
    reward of at most 41 bits) an epoch can always be applied; committing slots in order, with
    finalizations and tracked blocks in between, always finds the committee it needs. *)
From Stdlib Require Import Strings.Byte.
From S2P Require Import Prelude Bytes KvStore Block TimeApi EpochStore Walker Accounts CoreAccount Prunable Performance EpochRewards SeatManager SybilProtection.
Import CoreAccount Performance SeatManager SybilProtection.

(** ** Good committees *)
Record good_pools (m : gmap AccountID Pool) : Prop := {
  gp_pools : map_Forall (fun _ p => pool_ok p) m;
  gp_stake : 0 < map_sum PoolStake m < 2 ^ 53;
  gp_validator : 0 < map_sum ValidatorStake m < 2 ^ 53;
}.
Record good (c : Accounts) : Prop := { good_totals : totals_ok c; good_members : good_pools (accountPools c) }.

Lemma good_reused c : good c -> good (SetReused c).
Proof. by intros [[Hs Hv] Hp]. Qed.

Lemma good_total c : good c -> TotalStake c = map_sum PoolStake (accountPools c) /\ TotalValidatorStake c = map_sum ValidatorStake (accountPools c).
Proof.
  intros [[Hs Hv] [_ H1 H2]]. unfold TotalStake, TotalValidatorStake. rewrite Hs, Hv, !wrap_id; [done|unfold in_range; cbn; lia..].
Qed.

Lemma good_pool m id p : good_pools m -> m !! id = Some p -> 0 <= PoolStake p < 2 ^ 53 /\ 0 <= ValidatorStake p < 2 ^ 53 /\ pool_ok p.
Proof.
  intros [Hp Hs Hv] Hid. pose proof (Hp id p Hid) as Hok. assert (Hf : forall f : Pool -> Z, (forall p, pool_ok p -> 0 <= f p) -> f p <= map_sum f m).
  { intros f Hf. unfold map_sum. apply (zsum_elem (fun kv => f kv.2) (map_to_list m) (id, p)); [|by apply elem_of_map_to_list].
    apply Forall_forall. intros [k q] Hq%elem_of_map_to_list. apply Hf. by apply (Hp k). }
  pose proof Hok as (Ha & Hb & _). unfold in_range in Ha, Hb. cbn in Ha, Hb.
  assert (PoolStake p <= map_sum PoolStake m) by (apply Hf; intros q (Hq & _ & _); unfold in_range in Hq; cbn in Hq; lia).
  assert (ValidatorStake p <= map_sum ValidatorStake m) by (apply Hf; intros q (_ & Hq & _); unfold in_range in Hq; cbn in Hq; lia).
  split; [lia|]. split; [lia|done].
Qed.

(** ** Applying an epoch never fails within the documented bounds *)
Section Bounds.
Context `{SMS : SafeMathSpec} `{SSS : SafeShiftSpec} `{API : RewardsAPI} `{TPS : TimeProviderSpec} `{!RangeOrder AccountID} (pruned : SlotIndex -> bool).
Implicit Types t : Tracker.

(** The bounds of the protocol parameters. *)
Record params_ok : Prop := {
  po_coefficient e : 0 <= PoolCoefficientExponent e <= 11;
  po_margin e : 0 <= ProfitMarginExponent e <= 11;
  po_blocks e : 1 <= ValidationBlocksPerSlot e < 255;
  po_target e : exists x, TargetReward e = Some x /\ 0 <= x < 2 ^ 41;
}.
Context (HP : params_ok).

Lemma pow_le_2048 k : 0 <= k <= 11 -> 1 <= 2 ^ k <= 2048.
Proof. intros Hk. split; [lia|]. change 2048 with (2 ^ 11). apply Z.pow_le_mono_r; lia. Qed.

Lemma SafeLeftShift_fits x k : 0 <= x < 2 ^ 53 -> 0 <= k <= 11 -> SafeLeftShift Uint64 x k = Some (x * 2 ^ k) /\ in_range Uint64 (x * 2 ^ k).
Proof.
  intros Hx Hk. pose proof (pow_le_2048 k Hk). assert (Hr : in_range Uint64 (x * 2 ^ k)) by (unfold in_range; cbn; nia).
  rewrite SafeLeftShift_spec by (lia || (unfold in_range; cbn; lia)). split; [by apply checked_Some|done].
Qed.
Lemma SafeDiv_fits x y : in_range Uint64 x -> 0 < y < 2 ^ 64 -> SafeDiv Uint64 x y = Some (x / y) /\ in_range Uint64 (x / y).
Proof.
  intros Hx Hy. unfold in_range in Hx. cbn in Hx. rewrite SafeDiv_spec by (unfold in_range; cbn; lia). rewrite decide_False by lia. rewrite Z.quot_div_nonneg by lia.
  assert (0 <= x / y <= x) by (split; [apply Z.div_pos; lia|apply Z.div_le_upper_bound; nia]).
  assert (Hr : in_range Uint64 (x / y)) by (unfold in_range; cbn; lia). split; [by apply checked_Some|done].
Qed.
Lemma SafeMul_fits x y : 0 <= x -> 0 <= y -> x * y < 2 ^ 64 -> x < 2 ^ 64 -> y < 2 ^ 64 -> SafeMul Uint64 x y = Some (x * y).
Proof. intros. rewrite SafeMul_spec by (unfold in_range; cbn; lia). apply checked_Some. split; [unfold in_range; cbn; nia|done]. Qed.

Lemma coefficient_total slot p ts tv : 0 <= PoolStake p <= ts -> 0 < ts < 2 ^ 53 -> 0 <= ValidatorStake p <= tv -> 0 < tv < 2 ^ 53 ->
  exists c, calculatePoolCoefficient (PoolStake p) ts (ValidatorStake p) tv slot = Some c /\ 0 <= c <= 4096.
Proof.
  intros Hp Hts Hv Htv. unfold calculatePoolCoefficient. set (k := PoolCoefficientExponent _). pose proof (po_coefficient HP (EpochFromSlot slot)) as Hk. fold k in Hk.
  pose proof (pow_le_2048 k Hk). destruct (SafeLeftShift_fits (PoolStake p) k) as [-> H1]; [lia|done|]. cbn.
  destruct (SafeDiv_fits (PoolStake p * 2 ^ k) ts) as [-> H2]; [done|lia|]. cbn.
  destruct (SafeLeftShift_fits (ValidatorStake p) k) as [-> H3]; [lia|done|]. cbn.
  destruct (SafeDiv_fits (ValidatorStake p * 2 ^ k) tv) as [-> H4]; [done|lia|]. cbn.
  assert (PoolStake p * 2 ^ k / ts <= 2048) by (apply Z.div_le_upper_bound; nia).
  assert (ValidatorStake p * 2 ^ k / tv <= 2048) by (apply Z.div_le_upper_bound; nia).
  unfold in_range in H2, H4. cbn in H2, H4. eexists. split; [|split; [|]]; [rewrite SafeAdd_spec by (unfold in_range; cbn; lia); apply checked_Some; split; [unfold in_range; cbn; lia|done]|lia..].
Qed.

Lemma poolReward_total slot p ts tv pf : 0 <= PoolStake p <= ts -> 0 < ts < 2 ^ 53 -> 0 <= ValidatorStake p <= tv -> 0 < tv < 2 ^ 53 -> 0 <= pf <= 255 ->
  is_Some (poolReward slot tv ts (PoolStake p) (ValidatorStake p) pf).
Proof.
  intros Hp Hts Hv Htv Hpf. unfold poolReward. destruct (po_target HP (EpochFromSlot slot)) as (x & -> & Hx).
  destruct (coefficient_total slot p ts tv Hp Hts Hv Htv) as (c & Ec & Hc). cbn [mbind option_bind]. rewrite Ec. cbn [mbind option_bind].
  rewrite (SafeMul_fits c x) by nia. cbn [mbind option_bind]. assert (c * x < 2 ^ 53) by (change (2 ^ 53) with (4096 * 2 ^ 41); nia).
  rewrite (SafeMul_fits (c * x) pf) by nia. cbn [mbind option_bind]. pose proof (po_blocks HP (EpochFromSlot slot)).
  destruct (SafeDiv_fits (c * x * pf) (ValidationBlocksPerSlot (EpochFromSlot slot))) as [-> _]; [unfold in_range; cbn; nia|lia|]. by eexists.
Qed.

(** At most 32 subslots are active in a slot. *)
Lemma factor_small epoch id t : epoch_ok epoch -> 0 <= aggregatePerformanceFactors (epoch_performances pruned epoch id t) epoch <= 32.
Proof.
  intros He. unfold aggregatePerformanceFactors. case_match; [lia|]. destruct (sum_activity _ _ 0) as [x|] eqn:Es; [|lia].
  pose proof (epoch_performances_count pruned epoch id t He) as Hc. pose proof SlotsPerEpochExponent_range. rewrite Z.shiftr_div_pow2 by lia. fold EpochDurationSlots.
  pose proof EpochDurationSlots_pos. assert (Hx : forall (l : list (option ValidatorPerformance)) acc x, 0 <= acc -> sum_activity (ValidationBlocksPerSlot epoch) l acc = Some x ->
    0 <= x <= acc + 32 * Z.of_nat (length (omap (fun x => x) l))).
  { clear. intros l. induction l as [|[p|] l IH]; intros acc x Ha; cbn [sum_activity omap list_omap]; [intros; simplify_eq; cbn; lia| |by apply IH].
    cbn [length]. case_match; [done|]. intros Hs. pose proof (ones_bound 32 (SlotActivityVector p)). unfold OnesCount32 in Hs.
    pose proof (wrap_in_range Uint64 (acc + ones 32 (SlotActivityVector p))) as Hw. destruct (wrap_decomp Uint64 (acc + ones 32 (SlotActivityVector p))) as [k Hk].
    unfold in_range in Hw. cbn [ty_min ty_max] in Hw, Hk. apply IH in Hs; [|lia]. rewrite Nat2Z.inj_succ. nia. }
  apply Hx in Es; [|done]. split; [apply Z.div_pos; lia|]. apply Z.div_le_upper_bound; [done|]. nia.
Qed.

Lemma apply_pools_total epoch c t (l : list (AccountID * Pool)) m : epoch_ok epoch -> good c -> (forall e, e ∈ l -> accountPools c !! e.1 = Some e.2) ->
  exists m', apply_pools pruned epoch c t l m = Ret m'.
Proof.
  intros He Hg. revert m. induction l as [|[id p] l IH]; intros m Hl; cbn [apply_pools]; [by eexists|]. cbn [apply_pool].
  pose proof (factor_small epoch id t He) as Hf. set (pf := aggregatePerformanceFactors _ _) in *.
  assert (Hp : accountPools c !! id = Some p) by (apply (Hl (id, p)); set_solver). pose proof (good_pool _ _ _ (good_members _ Hg) Hp) as (H1 & H2 & _).
  destruct (good_total c Hg) as [Hs Hv]. pose proof (gp_stake _ (good_members _ Hg)). pose proof (gp_validator _ (good_members _ Hg)).
  destruct (pf =? 0); cbn [mbind outcome_bind]; [apply IH; set_solver|].
  assert (Hsum : PoolStake p <= TotalStake c /\ ValidatorStake p <= TotalValidatorStake c).
  { rewrite Hs, Hv. unfold map_sum. split; [apply (zsum_elem (fun kv => PoolStake kv.2) _ (id, p))|apply (zsum_elem (fun kv => ValidatorStake kv.2) _ (id, p))];
      try (by apply elem_of_map_to_list); apply Forall_forall; intros [k q] Hq%elem_of_map_to_list; cbn;
      apply (good_pool _ _ _ (good_members _ Hg)) in Hq; lia. }
  destruct (poolReward_total (EpochEnd epoch) p (TotalStake c) (TotalValidatorStake c) pf) as [r ->]; [lia..|]. cbn [mbind outcome_bind]. apply IH. set_solver.
Qed.

(** Within the documented bounds an epoch can always be applied: for a committee whose stakes fit 53 bits and are not
    all zero, ApplyEpoch neither fails nor panics, whatever performance was tracked, when the epoch is not pruned; it
    changes the rewards and stats of the epoch only. *)
Lemma apply_epoch_total epoch c t
  (He : epoch_ok epoch) (Hc : good c) (Hs : isTooOld epoch (poolStatsStore t) = false) (Hr : kv_isTooOld epoch (rewardsStore t) = false) :
  exists t' m stats, ApplyEpoch pruned epoch c t = Ret (true, t')
    /\ rewardsStore t' = set_epoch epoch m (rewardsStore t) /\ poolStatsStore t' = with_kv (<[epoch := stats]> (kv (poolStatsStore t))) (poolStatsStore t)
    /\ committeeStore t' = committeeStore t /\ validatorPerformances t' = validatorPerformances t /\ latestAppliedEpoch t' = epoch.
Proof.
  unfold ApplyEpoch, calculateProfitMargin. destruct (good_total c Hc) as [-> ->]. pose proof (gp_stake _ (good_members _ Hc)). pose proof (gp_validator _ (good_members _ Hc)).
  destruct (SafeLeftShift_fits (map_sum ValidatorStake (accountPools c)) (ProfitMarginExponent epoch)) as [-> _]; [lia|apply (po_margin HP)|].
  rewrite (wrap_id Uint64) by (unfold in_range; cbn; lia). destruct (Z.eqb_spec (map_sum ValidatorStake (accountPools c) + map_sum PoolStake (accountPools c)) 0); [lia|]. cbn [mbind outcome_bind].
  unfold Store_. rewrite Hs. set (stats := Prunable.mkPoolsStats _ _ _). unfold rewardsMap, GetEpoch. cbn [rewardsStore with_stats]. rewrite Hr. cbn [deref mbind outcome_bind].
  set (t1 := with_stats _ t). destruct (apply_pools_total epoch c t1 (range_of (accountPools c)) (default ∅ (kv (rewardsStore t) !! epoch)) He Hc) as [m Hm]; [intros [id p] Hin; by apply elem_of_range|].
  rewrite Hm. cbn [mbind outcome_bind]. eexists _, m, stats. split; [done|]. done.
Qed.
End Bounds.

(** ** The committee of the seat manager *)
Section Seats.
Context `{I : AccountIDs} `{!RangeOrder AccountID}.

Lemma seat_all_elem i (members : list AccountID) seats id : is_Some (seat_all i members seats !! id) <-> id ∈ members \/ is_Some (seats !! id).
Proof.
  induction members as [|x l IH] in i, seats |- *; cbn [seat_all]; [set_solver|]. rewrite IH, lookup_insert_is_Some', elem_of_cons. naive_solver.
Qed.

Lemma collect_pools_spec pools (ids : list AccountID) a : (forall id, id ∈ ids -> is_Some (pools !! id)) -> totals_ok a ->
  exists a', collect_pools pools ids a = Ret a' /\ totals_ok a' /\ forall id, accountPools a' !! id = if decide (id ∈ ids) then pools !! id else accountPools a !! id.
Proof.
  revert a. induction ids as [|x l IH]; intros a Hin Ht; cbn [collect_pools].
  - exists a. split; [done|]. split; [done|]. intros id. by rewrite decide_False by set_solver.
  - destruct (Hin x) as [p Hp]; [set_solver|]. rewrite Hp. cbn [deref mbind outcome_bind].
    destruct (IH (Set_ x p a)) as (a' & E & Ht' & Hl); [set_solver|by apply Set_totals|]. exists a'. split; [done|]. split; [done|]. intros id. rewrite Hl.
    assert (Hset : accountPools (Set_ x p a) !! id = if decide (id = x) then Some p else accountPools a !! id).
    { unfold Set_. destruct (accountPools a !! x); cbn; (destruct (decide (id = x)) as [->|]; [by rewrite lookup_insert_eq|by rewrite lookup_insert_ne]). }
    rewrite Hset. repeat case_decide; subst; try done; set_solver.
Qed.

(** The accounts of the committee selected from all accounts are those accounts. *)
Lemma selected_accounts a : exists a', SeatedAccounts_Accounts (SelectCommittee (IDs a) a) = Ret a' /\ totals_ok a' /\ accountPools a' = accountPools a.
Proof.
  unfold SeatedAccounts_Accounts, SelectCommittee, NewSeatedAccounts. cbn [accounts seatsByAccount].
  set (seats := seat_all _ _ _). assert (Hseats : forall id, id ∈ (range_of seats).*1 <-> is_Some (accountPools a !! id)).
  { intros id. transitivity (is_Some (seats !! id)).
    - rewrite list_elem_of_fmap. split; [intros ([k v] & -> & Hin%elem_of_range); by exists v|]. intros [v Hv]. exists (id, v). split; [done|]. by apply elem_of_range.
    - unfold seats. rewrite seat_all_elem, merge_sort_Permutation. unfold IDs. rewrite list_elem_of_fmap. split.
      + intros [([k v] & -> & Hin%elem_of_range)|Hs]; [by exists v|by rewrite lookup_empty in Hs; destruct Hs].
      + intros [v Hv]. left. exists (id, v). split; [done|]. by apply elem_of_range. }
  destruct (collect_pools_spec (accountPools a) (range_of seats).*1 NewAccounts) as (a' & E & Ht & Hl); [intros id; by rewrite Hseats|done|].
  exists a'. split; [done|]. split; [done|]. apply map_eq. intros id. rewrite Hl. case_decide as Hd; [done|]. rewrite Hseats in Hd. cbn. rewrite lookup_empty.
  symmetry. apply eq_None_not_Some. done.
Qed.
End Seats.

(** ** Committing slots in order *)
Section Liveness.
Context `{SMS : SafeMathSpec} `{SSS : SafeShiftSpec} `{API : RewardsAPI} `{TPS : TimeProviderSpec} `{!RangeOrder AccountID} `{I : AccountIDs}
  {Q : Type} `{!TimedQueue SeatIndex Q} (pruned : SlotIndex -> bool) (rewards_root : RewardsMap -> Z) (committee_root : gset AccountID -> Z)
  (ledgerAccount : AccountID -> SlotIndex -> option (option AccountData)) (mca : SlotIndex) (EpochNearingThreshold : SlotIndex -> SlotIndex)
  (HP : params_ok) (Hmca : 0 < mca < EpochDurationSlots - 1).
Implicit Types (o : SybilProtection Q).

Notation CommitSlot := (CommitSlot pruned rewards_root committee_root (fun _ => mca)).
Notation slotFinalized := (slotFinalized ledgerAccount (fun _ => mca) EpochNearingThreshold).
Notation epoch_of o := (EpochFromSlot (lastCommittedSlot o)).
Notation committees o := (committeeStore (performanceTracker o)).

(** At [slot] of [epoch]: the committee of the epoch is known, and that of the next one from the point on where it is fixed. *)
Record ready (epoch : EpochIndex) (slot : SlotIndex) o : Prop := {
  rd_current : is_Some (kv (committees o) !! epoch);
  rd_next : EpochEnd epoch <= slot + mca -> is_Some (kv (committees o) !! (epoch + 1));
  rd_good e c : kv (committees o) !! e = Some c -> good c;
  rd_seats : exists a, committee (seatManager o) = Some (SelectCommittee (IDs a) a) /\ good_pools (accountPools a);
  rd_kept e : epoch <= e -> isTooOld e (committees o) = false /\ isTooOld e (poolStatsStore (performanceTracker o)) = false
                            /\ kv_isTooOld e (rewardsStore (performanceTracker o)) = false;
}.
Record sp_inv o : Prop := {
  si_slot : in_range Uint32 (lastCommittedSlot o);
  si_epoch : epoch_ok (epoch_of o + 1);
  si_ready : ready (epoch_of o) (lastCommittedSlot o) o;
}.

Lemma tracker_read_Ret {A} (f : Tracker -> outcome A) o a : f (performanceTracker o) = Ret a -> tracker_read f o = Ret (Some a, o).
Proof. intros E. unfold tracker_read. by rewrite E. Qed.

Lemma load_committee e o : isTooOld e (committees o) = false -> LoadCommitteeForEpoch e (performanceTracker o) = Ret (kv (committees o) !! e).
Proof. intros E. unfold LoadCommitteeForEpoch, Load. by rewrite E. Qed.

(** What a registration changes. *)
Lemma register_committee e c t : isTooOld e (committeeStore t) = false ->
  RegisterCommittee e c t = Some (with_committees (with_kv (<[e := c]> (kv (committeeStore t))) (committeeStore t)) t).
Proof. intros E. unfold RegisterCommittee, Store_. by rewrite E. Qed.

Lemma promote_ok cur next o c : isTooOld cur (committees o) = false -> isTooOld next (committees o) = false -> kv (committees o) !! cur = Some c ->
  exists o', promote cur next o = Ret (Some tt, o') /\ lastCommittedSlot o' = lastCommittedSlot o
    /\ performanceTracker o' = with_committees (with_kv (<[next := SetReused c]> (kv (committees o))) (committees o)) (performanceTracker o)
    /\ committee (seatManager o') = Some (SelectCommittee (IDs (SetReused c)) (SetReused c)).
Proof.
  intros H1 H2 Hc. unfold promote. rewrite (eprog_bind_eq _ _ o (Some c) o) by (apply tracker_read_Ret; rewrite load_committee by done; by rewrite Hc).
  cbn [ederef]. rewrite (eprog_bind_eq _ _ o c o) by done. rewrite (eprog_bind_eq _ _ _ tt _ eq_refl). rewrite (eprog_bind_eq _ _ _ tt _ eq_refl).
  rewrite (eprog_bind_eq _ _ _ _ _ eq_refl). cbn [performanceTracker with_seats select_event]. rewrite register_committee by done.
  rewrite (eprog_bind_eq _ _ _ _ _ eq_refl). eexists. split; [done|]. done.
Qed.

(** The slots of an epoch that is not the last one. *)
Lemma slot_bounds s : in_range Uint32 s -> epoch_ok (EpochFromSlot s + 1) ->
  epoch_ok (EpochFromSlot s) /\ EpochEnd (EpochFromSlot s) = (EpochFromSlot s + 1) * EpochDurationSlots - 1
  /\ EpochFromSlot s * EpochDurationSlots <= s <= EpochEnd (EpochFromSlot s) /\ u32 (s + mca) = s + mca
  /\ u32 (EpochFromSlot s + 1) = EpochFromSlot s + 1.
Proof.
  intros Hs He. pose proof (EpochFromSlot_ok s Hs) as Hok. pose proof (proj1 (EpochFromSlot_iff s _ Hs Hok) eq_refl) as Hb.
  rewrite EpochStart_eq in Hb by done. rewrite EpochEnd_eq in * by done. pose proof He as [_ He']. pose proof EpochDurationSlots_pos. unfold in_range in Hs. cbn in Hs.
  assert (H32 : 0 <= EpochFromSlot s + 1 < 2 ^ 32) by (apply epoch_ok_range in He; unfold in_range in He; cbn in He; lia). destruct Hok.
  split_and!; try done; try lia; apply wrap_id; unfold in_range; cbn; [nia|lia].
Qed.

(** Entering the next slot. *)
Lemma ready_enter o : sp_inv o -> in_range Uint32 (lastCommittedSlot o + 1) -> ready (EpochFromSlot (lastCommittedSlot o + 1)) (lastCommittedSlot o) o.
Proof.
  intros [Hs He [Hc Hn Hg Ha Hk]] Hs1. destruct (slot_bounds _ Hs He) as (Hok & HE & Hb & _ & _). rewrite HE in *. pose proof EpochDurationSlots_pos.
  assert (Hcases : EpochFromSlot (lastCommittedSlot o + 1) = epoch_of o \/ EpochFromSlot (lastCommittedSlot o + 1) = epoch_of o + 1 /\ lastCommittedSlot o = (epoch_of o + 1) * EpochDurationSlots - 1).
  { destruct (decide (lastCommittedSlot o = (epoch_of o + 1) * EpochDurationSlots - 1)) as [Hl|Hl]; [right; split; [|done]|left];
      apply EpochFromSlot_iff; try done; rewrite EpochStart_eq, EpochEnd_eq by done; lia. }
  destruct Hcases as [->|[-> Hl]]; split; try done; [by rewrite HE|apply Hn; lia| |intros e H'; apply Hk; lia].
  rewrite EpochEnd_eq by done. lia.
Qed.

(** The committee of the next epoch is fixed in time. *)
Lemma nearing_ok cur slot o : ready cur (slot - 1) o ->
  exists o', (if EpochEnd cur =? slot + mca then next ← tracker_read (LoadCommitteeForEpoch (cur + 1)); match next with Some _ => mret tt | None => promote cur (cur + 1) end else mret tt) o
    = Ret (Some tt, o') /\ ready cur slot o' /\ lastCommittedSlot o' = lastCommittedSlot o.
Proof.
  intros [[c Hc] Hn Hg Ha Hk]. destruct (Z.eqb_spec (EpochEnd cur) (slot + mca)) as [E|E].
  2: { exists o. split; [done|]. split; [|done]. split; try done. intros. apply Hn. lia. }
  destruct (Hk cur) as (Hk1 & _); [lia|]. destruct (Hk (cur + 1)) as (Hk2 & _); [lia|].
  rewrite (eprog_bind_eq _ _ o (kv (committees o) !! (cur + 1)) o) by (by apply tracker_read_Ret, load_committee).
  destruct (kv (committees o) !! (cur + 1)) as [c'|] eqn:Hc'; [exists o; split; [done|]; split; [|done]; split; try done; by eexists|].
  destruct (promote_ok cur (cur + 1) o c Hk1 Hk2 Hc) as (o' & Eo & El & Et & Es). exists o'. split; [done|]. split; [|done].
  pose proof (good_reused c (Hg _ _ Hc)) as Hgr. split; rewrite ?Et; cbn.
  - rewrite lookup_insert_ne by lia. by exists c.
  - intros _. rewrite lookup_insert_eq. by eexists.
  - intros e c2. intros [[_ <-]|[_ ?]]%lookup_insert_Some; [done|by eapply Hg].
  - exists (SetReused c). split; [done|]. apply Hgr.
  - exact Hk.
Qed.

(** The epoch can be applied at its end. *)
Lemma apply_ok cur slot o : epoch_ok cur -> ready cur slot o ->
  exists o', apply_epoch pruned cur o = Ret (Some tt, o') /\ ready cur slot o' /\ lastCommittedSlot o' = lastCommittedSlot o.
Proof.
  intros He [[c Hc] Hn Hg Ha Hk]. destruct (Hk cur) as (Hk1 & Hk2 & Hk3); [lia|]. unfold apply_epoch.
  rewrite (eprog_bind_eq _ _ o (Some c) o) by (apply tracker_read_Ret; rewrite load_committee by done; by rewrite Hc). rewrite (eprog_bind_eq _ _ o c o) by done.
  destruct (apply_epoch_total pruned HP cur c (performanceTracker o) He (Hg _ _ Hc) Hk2 Hk3) as (t' & m & stats & E & Er & Es & Ec & _ & _).
  rewrite (eprog_bind_eq _ _ o (true, t') o) by (by apply tracker_read_Ret). rewrite (eprog_bind_eq _ _ _ tt _ eq_refl). cbn [fst snd].
  exists (with_tracker t' o). split; [done|]. split; [|done]. split; cbn; rewrite ?Ec; try done. intros e H'. rewrite Es, Er. by apply Hk.
Qed.

Lemma committeeRoot_ok e o : isTooOld e (committees o) = false -> is_Some (kv (committees o) !! e) -> exists r, committeeRoot committee_root e o = Ret (Some r, o).
Proof.
  intros Hk [c Hc]. unfold committeeRoot. rewrite (eprog_bind_eq _ _ o (Some c) o) by (apply tracker_read_Ret; rewrite load_committee by done; by rewrite Hc).
  rewrite (eprog_bind_eq _ _ o c o) by done. by eexists.
Qed.

(** The next slot can be committed. *)
Lemma CommitSlot_ok o : sp_inv o -> in_range Uint32 (lastCommittedSlot o + 1) -> epoch_ok (EpochFromSlot (lastCommittedSlot o + 1) + 1) ->
  exists roots o', CommitSlot (lastCommittedSlot o + 1) o = Ret (Some roots, o') /\ sp_inv o' /\ lastCommittedSlot o' = lastCommittedSlot o + 1.
Proof.
  intros Hinv Hs He. pose proof (ready_enter o Hinv Hs) as Hr. set (slot := lastCommittedSlot o + 1) in *. set (cur := EpochFromSlot slot) in *.
  destruct (slot_bounds slot Hs He) as (Hok & HE & Hb & Hw & Hn). fold cur in Hok, HE, Hb, Hn. replace (lastCommittedSlot o) with (slot - 1) in Hr by (unfold slot; lia).
  unfold SybilProtection.CommitSlot. fold cur. rewrite Hn, Hw. destruct (nearing_ok cur slot o Hr) as (o1 & E1 & Hr1 & Hl1). rewrite (eprog_bind_eq _ _ _ _ _ E1).
  assert (Hap : exists o2, (if EpochEnd cur =? slot then apply_epoch pruned cur else mret tt) o1 = Ret (Some tt, o2) /\ ready cur slot o2).
  { destruct (EpochEnd cur =? slot); [|exists o1; split; [done|exact Hr1]]. destruct (apply_ok cur slot o1 Hok Hr1) as (o2 & E2 & Hr2 & _). exists o2. split; [exact E2|exact Hr2]. }
  destruct Hap as (o2 & E2 & Hr2). rewrite (eprog_bind_eq _ _ _ _ _ E2). clear E1 E2 Hr1 Hl1.
  destruct Hr2 as [Hc2 Hn2 Hg2 Ha2 Hk2]. set (target := if slot + mca <? EpochEnd cur then cur else cur + 1).
  destruct (committeeRoot_ok target o2) as [r Er]; [apply Hk2; subst target; case_match; lia| |].
  { subst target. destruct (Z.ltb_spec (slot + mca) (EpochEnd cur)); [done|by apply Hn2]. }
  rewrite (eprog_bind_eq _ _ _ _ _ Er). rewrite (eprog_bind_eq _ _ _ _ _ eq_refl). unfold RewardsRoot, rewardsMap, GetEpoch.
  destruct (Hk2 (if EpochEnd cur =? slot then cur + 1 else cur)) as (_ & _ & ->); [case_match; lia|]. cbn [fmap option_fmap option_map].
  rewrite (eprog_bind_eq _ _ _ _ _ eq_refl). rewrite (eprog_bind_eq _ _ _ _ _ eq_refl). eexists _, _. split; [done|]. split; [|done].
  split; cbn [lastCommittedSlot with_last]; fold cur; done.
Qed.

(** ** Finalized slots *)

(** A member of the committee of the slot's epoch has no account in the ledger. *)
Definition member_missing slot o : Prop := exists c id, kv (committees o) !! EpochFromSlot slot = Some c /\ Has id c = true /\ ledgerAccount id slot = Some None.

(** The loop over the candidates ends, or dereferences the account of a candidate that has none. *)
Lemma weigh_cases slot (l : list AccountID) a : (exists a', weigh ledgerAccount slot l a = Ret a') \/ (weigh ledgerAccount slot l a = Panic /\ exists id, id ∈ l /\ ledgerAccount id slot = Some None).
Proof.
  revert a. induction l as [|id l IH]; intros a; cbn [weigh]; [left; by eexists|]. destruct (ledgerAccount id slot) as [[d|]|] eqn:E; cbn [deref mbind outcome_bind].
  - match goal with |- context [weigh _ _ _ ?b] => destruct (IH b) as [?|[? (x & ? & ?)]] end; [by left|right; split; [done|]; exists x; split; [set_solver|done]].
  - right. split; [done|]. exists id. split; [set_solver|done].
  - left. by eexists.
Qed.

Lemma slotFinalized_cases slot o : sp_inv o -> 0 <= slot <= lastCommittedSlot o ->
  (exists o', slotFinalized slot o = Ret o' /\ sp_inv o' /\ lastCommittedSlot o' = lastCommittedSlot o) \/ (slotFinalized slot o = Panic /\ member_missing slot o).
Proof.
  intros Hinv Hle. pose proof Hinv as [Hs He [[c Hc] Hn Hg (a & Ha & Hgp) Hk]]. destruct (slot_bounds _ Hs He) as (Hok & HE & Hb & Hw & Hu).
  unfold SybilProtection.slotFinalized. rewrite Hw. destruct (_ =? _); cbn [andb]; [|left; by exists o]. destruct (Z.ltb_spec (lastCommittedSlot o + mca) (EpochEnd (EpochFromSlot slot))) as [Hlt|]; [|left; by exists o].
  assert (Hslot : in_range Uint32 slot) by (unfold in_range in *; cbn in *; lia). assert (Hsame : EpochFromSlot slot = epoch_of o).
  { pose proof (EpochFromSlot_mono slot (lastCommittedSlot o) Hslot Hs ltac:(lia)). pose proof (EpochFromSlot_ok slot Hslot) as Hok'.
    rewrite EpochEnd_eq in Hlt by done. pose proof EpochDurationSlots_pos. apply Z.le_antisymm; [done|]. rewrite (EpochFromSlot_spec (lastCommittedSlot o)) by done.
    apply Z.lt_succ_r, Z.div_lt_upper_bound; lia. }
  unfold selectNewCommittee, EligibleValidatorCandidates, member_missing. rewrite Hsame, Hu in *. replace (epoch_of o + 1 - 1) with (epoch_of o) by lia.
  rewrite (wrap_id Uint32) by (by apply epoch_ok_range). rewrite load_committee, Hc by (apply Hk; lia). cbn [deref mbind outcome_bind].
  destruct (weigh_cases slot (range_set (dom (accountPools c))) NewAccounts) as [[w Hwg]|[Hwg (id & Hid & Hnone)]]; rewrite Hwg; cbn [mbind outcome_bind].
  2: { right. split; [done|]. exists c, id. split_and!; [done| |done]. apply elem_of_range_set, elem_of_dom in Hid. unfold Has. by apply bool_decide_eq_true. }
  left. unfold RotateCommittee. rewrite Ha. cbn [deref mbind outcome_bind]. destruct (selected_accounts a) as (a' & Ea & Ht & Hp). rewrite Ea. cbn [mbind outcome_bind].
  rewrite register_committee by (apply Hk; lia). eexists. split; [done|]. split; [|done]. split; [done..|]. split; cbn.
  - rewrite lookup_insert_ne by lia. by exists c.
  - intros _. rewrite lookup_insert_eq. by eexists.
  - intros e c2. intros [[_ <-]|[_ ?]]%lookup_insert_Some; [split; [done|by rewrite Hp]|by eapply Hg].
  - by exists a.
  - exact Hk.
Qed.

Lemma track_ok block vb o o' : sp_inv o -> TrackValidationBlock pruned block vb o = Ret o' -> sp_inv o'.
Proof.
  intros [Hs He [Hc Hn Hg Ha Hk]] (t & Ht & [= <-])%bind_Ret. apply track_fields in Ht as (H1 & H2 & H3 & _).
  split; [done..|]. split; cbn; rewrite ?H1, ?H2, ?H3; done.
Qed.
End Liveness.

(** * A committee for every slot: runs of the sybil protection

    Blocks are tracked, slots finalized and committed and old epochs pruned in any order; the
    slots are committed one after the other from genesis on.  Also the concrete runs of
    the claims about performance, rewards and committees. *)
Import CoreAccount Performance SeatManager SybilProtection.

(** The storage prunes the stores the tracker reads. *)
Definition prune_tracker (epoch delay : EpochIndex) (t : Tracker) : Tracker :=
  with_rewards (kv_Prune epoch delay (rewardsStore t)) (with_stats (Prune epoch delay (poolStatsStore t)) (with_committees (Prune epoch delay (committeeStore t)) t)).

Lemma Prune_later {V} epoch d (s : Store V) e : 0 <= d -> epoch < e -> isTooOld e (Prune epoch d s) = isTooOld e s /\ kv (Prune epoch d s) !! e = kv s !! e
  \/ isTooOld e (Prune epoch d s) = false /\ kv (Prune epoch d s) !! e = kv s !! e.
Proof.
  intros Hd He. destruct (Prune_spec epoch d s) as [Hs Hl]. rewrite Hl. rewrite Hs. destruct (prune_target epoch d s) as [t|] eqn:Et; [|by left].
  assert (t <= epoch). { unfold prune_target, remaining_delay in Et. repeat case_match; simplify_eq; lia. }
  right. rewrite decide_False by lia. split; [|done]. unfold isTooOld, pruning_Index, EvictionIndex.Index. cbn. apply Z.leb_gt. lia.
Qed.
Lemma Prune_keeps {V} epoch d (s : Store V) e : 0 <= d -> epoch < e -> isTooOld e s = false ->
  isTooOld e (Prune epoch d s) = false /\ kv (Prune epoch d s) !! e = kv s !! e.
Proof. intros Hd He Hs. destruct (Prune_later epoch d s e Hd He) as [[-> ->]|[-> ->]]; done. Qed.
Lemma Prune_subset {V} epoch d (s : Store V) e v : kv (Prune epoch d s) !! e = Some v -> kv s !! e = Some v.
Proof. destruct (Prune_spec epoch d s) as [_ Hl]. rewrite Hl. repeat case_match; done. Qed.

Section Runs.
Context `{SMS : SafeMathSpec} `{SSS : SafeShiftSpec} `{API : RewardsAPI} `{TPS : TimeProviderSpec} `{!RangeOrder AccountID} `{I : AccountIDs}
  {Q : Type} `{!TimedQueue SeatIndex Q} (pruned : SlotIndex -> bool) (rewards_root : RewardsMap -> Z) (committee_root : gset AccountID -> Z)
  (ledgerAccount : AccountID -> SlotIndex -> option (option AccountData)) (mca : SlotIndex) (EpochNearingThreshold : SlotIndex -> SlotIndex)
  (window : Z) (startup : list AccountID).
Implicit Types (o : SybilProtection Q).

(** What happens to the sybil protection, as long as no call panics.  The storage prunes epochs before the one of the last committed slot. *)
Inductive sybil_step : SybilProtection Q -> SybilProtection Q -> Prop :=
| StepTrack block vb o o' : TrackValidationBlock pruned block vb o = Ret o' -> sybil_step o o'
| StepFinalized slot o o' : 0 <= slot <= lastCommittedSlot o ->
    slotFinalized ledgerAccount (fun _ => mca) EpochNearingThreshold slot o = Ret o' -> sybil_step o o'
| StepCommit roots o o' : in_range Uint32 (lastCommittedSlot o + 1) -> epoch_ok (EpochFromSlot (lastCommittedSlot o + 1) + 1) ->
    CommitSlot pruned rewards_root committee_root (fun _ => mca) (lastCommittedSlot o + 1) o = Ret (roots, o') -> sybil_step o o'
| StepPrune epoch delay o : epoch < EpochFromSlot (lastCommittedSlot o) -> 0 <= delay -> sybil_step o (with_tracker (prune_tracker epoch delay (performanceTracker o)) o).

(** A node started at genesis with the given committee and empty stores. *)
Definition genesis (initial : Accounts) (activityTime delay1 delay2 delay3 : Z) : outcome (SybilProtection Q) :=
  o ← Construct 0 (Some initial) (NewEpochKVStore ∅ None delay1) (NewStore ∅ None delay2) (NewStore ∅ None delay3) ∅ NewSeatManager;
  Initialize window startup 0 activityTime o.

Lemma mark_online_committee time c (l : list AccountID) (s : SeatManager Q) : committee (mark_online window time c l s) = committee s.
Proof.
  assert (Hi : forall th (s : SeatManager Q) x, committee (check_inactive th s x) = committee s).
  { intros. unfold check_inactive. repeat case_match; done. }
  assert (Hf : forall th (l : list SeatIndex) (s : SeatManager Q), committee (foldl (check_inactive th) s l) = committee s).
  { intros th l'. induction l' as [|x l' IH]; intros s'; cbn; [done|]. by rewrite IH, Hi. }
  revert s. induction l as [|v l IH]; intros s; cbn [mark_online]; [done|]. destruct (GetSeat v c); [|done]. rewrite IH. unfold markSeatActive.
  destruct (_ || _); [done|]. destruct (is_none _); cbn; destruct (_ <? _); cbn; try done; destruct (q_pop_until _ _); by rewrite Hf.
Qed.

Lemma genesis_inv initial time d1 d2 d3 o : 0 < mca < EpochDurationSlots - 1 -> 2 * EpochDurationSlots <= 2 ^ 32 -> good initial ->
  genesis initial time d1 d2 d3 = Ret o -> sp_inv mca o.
Proof.
  intros Hmca H2 Hg. assert (H00 : EpochFromSlot 0 = 0) by (rewrite EpochFromSlot_spec by done; apply Z.div_0_l; lia).
  unfold genesis, Construct, Initialize. rewrite H00. unfold RegisterCommittee, Store_. cbn [committeeStore NewTracker NewStore isTooOld pruning_Index lastPrunedEpoch NewPruningIndex memLastPrunedEpoch EvictionIndex.Index andb deref mbind outcome_bind].
  unfold LoadCommitteeForEpoch, Load. cbn. rewrite !lookup_insert_eq. cbn. rewrite lookup_insert_ne by done. rewrite lookup_empty. intros [= <-].
  split; cbn [lastCommittedSlot with_seats with_tracker]; [done|rewrite H00; split; lia|]. rewrite H00. split; cbn.
  - rewrite lookup_insert_eq. by eexists.
  - rewrite EpochEnd_eq by (split; lia). lia.
  - intros e c [[<- <-]|[_ Hc]]%lookup_insert_Some; [done|by rewrite lookup_empty in Hc].
  - exists initial. split; [|apply Hg]. unfold ImportCommittee. by rewrite mark_online_committee.
  - done.
Qed.

Lemma prune_inv epoch d o : sp_inv mca o -> epoch < EpochFromSlot (lastCommittedSlot o) -> 0 <= d ->
  sp_inv mca (with_tracker (prune_tracker epoch d (performanceTracker o)) o).
Proof.
  intros [Hs He [Hc Hn Hg Ha Hk]] Hlt Hd. split; [done..|]. split; cbn.
  - destruct (Hk (EpochFromSlot (lastCommittedSlot o))) as [H1 _]; [lia|]. rewrite (proj2 (Prune_keeps epoch d _ _ Hd Hlt H1)). done.
  - intros Hx. destruct (Hk (EpochFromSlot (lastCommittedSlot o) + 1)) as [H1 _]; [lia|]. apply (Prune_keeps epoch d) in H1 as [_ ->]; [by apply Hn|lia..].
  - intros e c Hec%Prune_subset. by eapply Hg.
  - done.
  - intros e Hle. destruct (Hk e Hle) as (H1 & H2 & H3). unfold kv_isTooOld, kv_Prune in *. split_and!; apply Prune_keeps; done || lia.
Qed.

Lemma steps_inv o o' : params_ok -> 0 < mca < EpochDurationSlots - 1 -> rtc sybil_step o o' -> sp_inv mca o -> sp_inv mca o'.
Proof.
  intros HP Hmca Hsteps. induction Hsteps as [|o1 o2 o3 Hstep _ IH]; [done|]. intros Hinv. apply IH. clear IH.
  destruct Hstep as [block vb o o' Ht|slot o o' Hle Hf|roots o o' Hs He Hc|epoch d o He Hd].
  - by eapply track_ok.
  - destruct (slotFinalized_cases pruned ledgerAccount mca EpochNearingThreshold HP Hmca slot o Hinv Hle) as [(ox & E & Hx & _)|[E _]]; rewrite Hf in E; [injection E as ->; exact Hx|discriminate E].
  - destruct (CommitSlot_ok pruned rewards_root committee_root ledgerAccount mca EpochNearingThreshold HP Hmca o Hinv Hs He) as (r & ox & E & Hx & _). rewrite Hc in E. injection E as -> ->. exact Hx.
  - by apply prune_inv.
Qed.

(** C31 The chain never lacks a committee: starting from genesis with a committee whose stakes fit 53 bits, within the
    documented bounds of the parameters, after any sequence of tracked blocks, finalized slots, commitments and
    prunings of epochs before that of the last committed slot, in which no call panicked, the next slot can be committed without error or panic; the committee of
    the next slot's epoch is known; and finalizing a committed slot returns, or panics for the one reason that the account of a
    member of the committee of the slot's epoch is missing in the ledger. *)
Theorem committee_for_every_slot initial time d1 d2 d3 o0 o
  (HP : params_ok) (Hmca : 0 < mca < EpochDurationSlots - 1) (H2 : 2 * EpochDurationSlots <= 2 ^ 32) (Hg : good initial)
  (Hgen : genesis initial time d1 d2 d3 = Ret o0) (Hsteps : rtc sybil_step o0 o)
  (Hs : in_range Uint32 (lastCommittedSlot o + 1)) (He : epoch_ok (EpochFromSlot (lastCommittedSlot o + 1) + 1)) :
  (exists roots o', CommitSlot pruned rewards_root committee_root (fun _ => mca) (lastCommittedSlot o + 1) o = Ret (Some roots, o')
     /\ lastCommittedSlot o' = lastCommittedSlot o + 1)
  /\ (forall slot, 0 <= slot <= lastCommittedSlot o ->
        (exists o', slotFinalized ledgerAccount (fun _ => mca) EpochNearingThreshold slot o = Ret o')
        \/ slotFinalized ledgerAccount (fun _ => mca) EpochNearingThreshold slot o = Panic /\ member_missing ledgerAccount slot o)
  /\ exists c, LoadCommitteeForEpoch (EpochFromSlot (lastCommittedSlot o + 1)) (performanceTracker o) = Ret (Some c) /\ good c.
Proof.
  pose proof (steps_inv o0 o HP Hmca Hsteps (genesis_inv _ _ _ _ _ _ Hmca H2 Hg Hgen)) as Hinv. split_and!.
  - destruct (CommitSlot_ok pruned rewards_root committee_root ledgerAccount mca EpochNearingThreshold HP Hmca o Hinv Hs He) as (r & o' & ? & _ & ?). by exists r, o'.
  - intros slot Hle. destruct (slotFinalized_cases pruned ledgerAccount mca EpochNearingThreshold HP Hmca slot o Hinv Hle) as [(o' & ? & _)|?]; [left; by exists o'|by right].
  - destruct (ready_enter pruned ledgerAccount mca EpochNearingThreshold Hmca o Hinv Hs) as [[c Hc] _ Hgood _ Hk]. exists c. destruct (Hk (EpochFromSlot (lastCommittedSlot o + 1))) as [Hk1 _]; [lia|].
    unfold LoadCommitteeForEpoch, Load. rewrite Hk1, Hc. split; [done|]. by eapply Hgood.
Qed.
End Runs.

(** ** Concrete runs *)
Module Demo.
#[local] Instance demo_time : TimeProvider := shift_time 2 10.
#[local] Instance demo_time_spec : TimeProviderSpec demo_time := shift_time_spec 2 10 ltac:(done).
#[local] Instance demo_api : RewardsAPI := {|
  ValidationBlocksPerSlot _ := 5; ProfitMarginExponent _ := 8; PoolCoefficientExponent _ := 11; TargetReward _ := Some 1000000; RewardsWithDecay m _ _ := Some m |}.
#[local] Instance demo_order : RangeOrder AccountID := canonical_order AccountID.
#[local] Instance demo_ids : AccountIDs := {| AccountIDLength := 4; account_Bytes id := put_le 4 id; account_of bs := get_le bs |}.
#[local] Existing Instance list_queue.
#[local] Instance demo_decay : DecaySpec.
Proof. split. cbn. intros. simplify_eq. lia. Qed.

Definition demo_committee : Accounts := Set_ 2 (mkPool 200 100 10) (Set_ 1 (mkPool 300 100 10) NewAccounts).
Lemma demo_committee_good : good demo_committee.
Proof.
  split; [by repeat apply Set_totals|]. split; [|done..]. apply map_Forall_insert_2; [split_and!; done|]. apply map_Forall_insert_2; [split_and!; done|]. apply map_Forall_empty.
Qed.
Lemma demo_params : params_ok.
Proof. split; cbn; try lia. intros e. eexists. split; [done|lia]. Qed.

Notation Queue := (list (SeatIndex * Z)).
Definition demo_ledger (id : AccountID) (slot : SlotIndex) : option (option AccountData) := None.
Definition demo_root (m : RewardsMap) : Z := Z.of_nat (size m).
Definition demo_croot (m : gset AccountID) : Z := Z.of_nat (size m).
Definition demo_genesis : outcome (SybilProtection Queue) := genesis 10 [] demo_committee 0 0 0 0.
Definition demo_commit (o : SybilProtection Queue) : outcome (option (Z * Z) * SybilProtection Queue) :=
  CommitSlot (fun _ => false) demo_root demo_croot (fun _ => 2) (lastCommittedSlot o + 1) o.
Definition after (m : outcome (option (Z * Z) * SybilProtection Queue)) (o : SybilProtection Queue) : SybilProtection Queue := match m with Ret (_, o) => o | _ => o end.
Definition demo_o0 : SybilProtection Queue := match demo_genesis with Ret o => o | _ => mkSybilProtection NewSeatManager (NewTracker (NewEpochKVStore ∅ None 0) (NewStore ∅ None 0) (NewStore ∅ None 0) ∅ 0) 0 [] end.
Definition demo_o1 := after (demo_commit demo_o0) demo_o0.
Definition demo_o2 := after (demo_commit demo_o1) demo_o1.
Definition demo_o3 := after (demo_commit demo_o2) demo_o2.
(** A validation block of the first validator in slot 4. *)
Definition demo_block : ModelBlock := mkModelBlock (mkBlockID 1 4) 1 30000000001 (mkCommitmentID 0 0) Validation [] 0.
Definition demo_o4 : SybilProtection Queue :=
  match TrackValidationBlock (fun _ => false) demo_block (Some (mkValidationBlock 3 0)) demo_o3 with Ret o => o | _ => demo_o3 end.

Lemma committee_for_every_slot_witness :
  lastCommittedSlot demo_o4 = 3 /\ exists roots o', CommitSlot (fun _ => false) demo_root demo_croot (fun _ => 2) (lastCommittedSlot demo_o4 + 1) demo_o4 = Ret (Some roots, o')
     /\ lastCommittedSlot o' = lastCommittedSlot demo_o4 + 1.
Proof.
  split; [vm_compute; reflexivity|].
  apply (committee_for_every_slot (fun _ => false) demo_root demo_croot demo_ledger 2 (fun _ => 1) 10 [] demo_committee 0 0 0 0 demo_o0 demo_o4).
  - exact demo_params.
  - vm_compute; split; reflexivity.
  - vm_compute. discriminate.
  - exact demo_committee_good.
  - vm_compute; reflexivity.
  - apply (rtc_l _ _ demo_o1); [apply (StepCommit _ _ _ _ _ _ (Some (2, 0))); [vm_compute; intuition discriminate..|vm_compute; reflexivity]|].
    apply (rtc_l _ _ demo_o2); [apply (StepCommit _ _ _ _ _ _ (Some (2, 0))); [vm_compute; intuition discriminate..|vm_compute; reflexivity]|].
    apply (rtc_l _ _ demo_o3); [apply (StepCommit _ _ _ _ _ _ (Some (2, 0))); [vm_compute; intuition discriminate..|vm_compute; reflexivity]|].
    apply (rtc_l _ _ demo_o4); [apply (StepTrack _ _ _ _ _ _ demo_block (Some (mkValidationBlock 3 0))); vm_compute; reflexivity|]. apply rtc_refl.
  - vm_compute; split; discriminate.
  - vm_compute; split; discriminate.
Defined.

(** Finalizing the slot at which the next committee is selected dereferences the account of a member that the ledger does not have any more. *)
Lemma missing_member_panics : slotFinalized (fun _ _ => Some None) (fun _ => 2) (fun _ => 3) 0 demo_o0 = Panic.
Proof. vm_compute. reflexivity. Qed.
(** Pruning the epoch of the last committed slot, in stores without a delay, takes its committee: the next slot cannot be committed. *)
Lemma pruned_committee_panics : demo_commit (with_tracker (prune_tracker 0 0 (performanceTracker demo_o0)) demo_o0) = Panic.
Proof. vm_compute. reflexivity. Qed.
(** The blocks of an epoch and its rewards. *)
Definition demo_tracker : Tracker := performanceTracker demo_o0.
Definition demo_blocks : list (ModelBlock * option ValidationBlock) :=
  (fun s => (mkModelBlock (mkBlockID s s) 1 ((s - 1) * 10000000000 + 5) (mkCommitmentID 0 0) Validation [] 0, Some (mkValidationBlock 3 0))) <$> [0; 1; 1; 2; 3].
Definition demo_tracked : Tracker := match track_blocks (fun _ => false) demo_blocks demo_tracker with Ret t => t | _ => demo_tracker end.
Definition demo_applied : Tracker := match ApplyEpoch (fun _ => false) 0 demo_committee demo_tracked with Ret (_, t) => t | _ => demo_tracked end.

Lemma epoch_rewards_bounded_witness :
  track_blocks (fun _ => false) demo_blocks demo_tracker = Ret demo_tracked
  /\ exists m, kv (rewardsStore demo_applied) !! 0 = Some m /\ map_sum pr_PoolRewards m <= 1000000
    /\ (forall id, is_Some (m !! id) -> Has id demo_committee = true) /\ latestAppliedEpoch demo_applied = 0.
Proof.
  split; [vm_compute; reflexivity|].
  apply (epoch_rewards_bounded (fun _ => false) demo_blocks demo_tracker demo_tracked demo_committee 0 1000000 demo_applied).
  - split; done.
  - vm_compute; reflexivity.
  - vm_compute; reflexivity.
  - done.
  - done.
  - reflexivity.
  - done.
  - exact (good_totals _ demo_committee_good).
  - exact (gp_pools _ (good_members _ demo_committee_good)).
  - split; vm_compute; discriminate.
  - split; vm_compute; discriminate.
  - vm_compute; reflexivity.
  - vm_compute; reflexivity.
Defined.

Lemma demo_applied_values : values_ok demo_applied.
Proof.
  split.
  - intros e m id r Hm Hr. assert (Hk : kv (rewardsStore demo_applied) = {[0 := {[1 := mkPoolRewards 300 109960 10]}]}) by (vm_compute; reflexivity).
    rewrite Hk in Hm. apply lookup_singleton_Some in Hm as [_ <-]. apply lookup_singleton_Some in Hr as [_ <-]. vm_compute. intuition discriminate.
  - intros e s Hs. assert (Hk : kv (poolStatsStore demo_applied) = {[0 := Prunable.mkPoolsStats 500 200 73]}) by (vm_compute; reflexivity).
    rewrite Hk in Hs. apply lookup_singleton_Some in Hs as [_ <-]. vm_compute. intuition discriminate.
Qed.

(** The validator and two delegators of the pool claim. *)
Lemma claims_within_pool_witness :
  ValidatorReward 1 100 0 0 demo_applied = Some (57561, 0, 0)
  /\ 57561 + zsum (fun x => x) [39298; 13099] <= zsum (pool_given 1 demo_applied) (epochs_upto 0 (last_epoch 0 demo_applied)).
Proof.
  split; [vm_compute; reflexivity|]. apply (claims_within_pool 1 demo_applied 100 [150; 50] 0 0 57561 0 0).
  - exact demo_applied_values.
  - done.
  - split; done.
  - constructor; [split; done|]. constructor; [split; done|constructor].
  - assert (Hes : epochs_upto 0 (last_epoch 0 demo_applied) = [0]) by (vm_compute; reflexivity). rewrite Hes. intros e r s ->%list_elem_of_singleton.
    vm_compute. intros [= <- <-]. discriminate.
  - vm_compute; reflexivity.
  - constructor; [exists 0, 0; vm_compute; reflexivity|]. constructor; [exists 0, 0; vm_compute; reflexivity|constructor].
Defined.
End Demo.
