(* ===== verification/Streams.v ===== *)
(** * Snapshot streams

    Reading from an io.ReadSeeker while updating a component, and the counted
    collections of hive.go's stream package ([Collections]): a collection is
    written as the number of its elements in front of them, and read by calling a function once per element.

    [importer S A] is a method that reads bytes and mutates [S]; an error keeps what was done before. *)
From Stdlib Require Import Strings.Byte.
From S2P Require Import Prelude Bytes.

Definition importer (S A : Type) : Type := eprog (S * bytes) A.

Section Importer.
Context {S : Type}.
Implicit Types s : S.

(** A read from the stream, a read of the component, an update of it and an update that can fail. *)
Definition take_from {A} (p : reader A) : importer S A := fun x =>
  match p x.2 with Some (a, rest) => Ret (Some a, (x.1, rest)) | None => Ret (None, x) end.
Definition look {A} (f : S -> A) : importer S A := fun x => Ret (Some (f x.1), x).
Definition modify (f : S -> S) : importer S unit := fun x => Ret (Some tt, (f x.1, x.2)).
Definition modify_or_fail (f : S -> option S) : importer S unit := fun x =>
  match f x.1 with Some s => Ret (Some tt, (s, x.2)) | None => Ret (None, x) end.

Fixpoint repeat_n (n : nat) (f : importer S unit) : importer S unit :=
  match n with O => mret tt | Datatypes.S n => _ ← f; repeat_n n f end.

(** [reads m e a s s']: the importer consumes exactly [e], returns [a] and turns [s] into [s']. *)
Definition reads {A} (m : importer S A) (e : bytes) (a : A) (s s' : S) : Prop := forall rest, m (s, e ++ rest) = Ret (Some a, (s', rest)).

Lemma reads_bind {A B} (m : importer S A) (f : A -> importer S B) e1 e2 a b s s1 s2 :
  reads m e1 a s s1 -> reads (f a) e2 b s1 s2 -> reads (m ≫= f) (e1 ++ e2) b s s2.
Proof. intros H1 H2 rest. rewrite <- app_assoc. rewrite (eprog_bind_eq _ _ _ _ _ (H1 (e2 ++ rest))). apply H2. Qed.
Lemma reads_last {A B} (m : importer S A) (f : A -> importer S B) e a b s s1 s2 :
  reads m e a s s1 -> reads (f a) [] b s1 s2 -> reads (m ≫= f) e b s s2.
Proof. intros H1 H2. rewrite <- (app_nil_r e). by eapply reads_bind. Qed.
Lemma reads_skip {A B} (m : importer S A) (f : A -> importer S B) e a b s s1 s2 :
  reads m [] a s s1 -> reads (f a) e b s1 s2 -> reads (m ≫= f) e b s s2.
Proof. intros H1 H2. change e with ([] ++ e). by eapply reads_bind. Qed.
Lemma reads_ret {A} (a : A) s : reads (mret a) [] a s s.
Proof. done. Qed.
Lemma reads_take {A} (p : reader A) e a s : parses p e a -> reads (take_from p) e a s s.
Proof. intros H rest. unfold take_from. cbn. by rewrite H. Qed.
Lemma reads_look {A} (f : S -> A) s : reads (look f) [] (f s) s s.
Proof. done. Qed.
Lemma reads_modify f s : reads (modify f) [] tt s (f s).
Proof. done. Qed.
Lemma reads_modify_or_fail f s s' : f s = Some s' -> reads (modify_or_fail f) [] tt s s'.
Proof. intros E rest. unfold modify_or_fail. cbn. by rewrite E. Qed.

(** A loop over the encodings of a list. *)
Lemma reads_repeat {X} (m : importer S unit) (enc : X -> bytes) (step : S -> X -> S) (P : S -> Prop) (l : list X) s :
  (forall x s, x ∈ l -> P s -> reads m (enc x) tt s (step s x) /\ P (step s x)) -> P s ->
  reads (repeat_n (length l) m) (l ≫= enc) tt s (foldl step s l) /\ P (foldl step s l).
Proof.
  revert s. induction l as [|x l IH]; intros s Hl Hs; [split; [apply reads_ret|done]|]. cbn [length repeat_n mbind list_bind foldl].
  destruct (Hl x s) as [H1 HP]; [set_solver|done|]. destruct (IH (step s x)) as [H2 HP2]; [intros; apply Hl; set_solver|done|].
  split; [|done]. by eapply reads_bind.
Qed.
End Importer.

(** ** hive.go's stream: collections *)
Class Collections := {
  WriteCollection : Z -> bytes -> bytes;              (* the count and the written elements *)
  ReadCollection : forall {S}, importer S unit -> importer S unit;
}.
Class CollectionsSpec (C : Collections) : Prop := {
  WriteCollection_law n body : WriteCollection n body = put_le 8 n ++ body;
  ReadCollection_law S (f : importer S unit) x : ReadCollection f x = (n ← take_from (read_le 8); repeat_n (Z.to_nat n) f) x;
}.
#[export] Instance le_collections : Collections := {|
  WriteCollection n body := put_le 8 n ++ body;
  ReadCollection S f := n ← take_from (read_le 8); repeat_n (Z.to_nat n) f |}.
#[export] Instance le_collections_spec : CollectionsSpec le_collections.
Proof. by split. Qed.

(** Objects written as a blob or as a serializable are read with [ReadFunc] and their decoder. *)
Class StreamFuncs := {
  WriteSerializable : bytes -> bytes;
  ReadFunc : forall {A}, (bytes -> option A) -> reader A;
}.
Class StreamFuncsSpec `{SB : Stream} (F : StreamFuncs) : Prop := {
  ReadFunc_serializable A (f : bytes -> option A) bs a : in_range Uint64 (Z.of_nat (length bs)) -> f bs = Some a -> parses (ReadFunc f) (WriteSerializable bs) a;
  ReadFunc_blob A (f : bytes -> option A) bs a : in_range Uint64 (Z.of_nat (length bs)) -> f bs = Some a -> parses (ReadFunc f) (WriteBlob bs) a;
}.
#[export] Instance blob_funcs : StreamFuncs := {|
  WriteSerializable bs := WriteBlob bs;
  ReadFunc A f := bs ← ReadBlob; read_option (f bs) |}.
#[export] Instance blob_funcs_spec : StreamFuncsSpec blob_funcs.
Proof.
  assert (Hr : forall A (f : bytes -> option A) bs a, in_range Uint64 (Z.of_nat (length bs)) -> f bs = Some a -> parses (bs ← ReadBlob; read_option (f bs)) (WriteBlob bs) a).
  { intros A f bs a Hl Hf. rewrite WriteBlob_spec. rewrite <- (app_nil_r (_ ++ _)). eapply parses_bind; [by apply parses_blob|]. rewrite Hf. apply parses_option. }
  by split.
Qed.

Section Collections.
Context `{CS : CollectionsSpec} {S : Type}.

Lemma reads_collection {X} (m : importer S unit) (enc : X -> bytes) (step : S -> X -> S) (P : S -> Prop) (l : list X) s :
  in_range Uint64 (Z.of_nat (length l)) ->
  (forall x s, x ∈ l -> P s -> reads m (enc x) tt s (step s x) /\ P (step s x)) -> P s ->
  reads (ReadCollection m) (WriteCollection (Z.of_nat (length l)) (l ≫= enc)) tt s (foldl step s l) /\ P (foldl step s l).
Proof.
  intros Hn Hl Hs. destruct (reads_repeat m enc step P l s Hl Hs) as [Hr HP]. split; [|done]. intros rest. rewrite ReadCollection_law, WriteCollection_law.
  revert rest. eapply reads_bind; [apply reads_take; by apply parses_u64|]. by rewrite Nat2Z.id.
Qed.
End Collections.

(** Inserting the entries of a map into an empty one. *)
Lemma foldl_insert_range {K V} `{RangeOrder K} (m : gmap K V) (m0 : gmap K V) k :
  foldl (fun (acc : gmap K V) e => <[e.1 := e.2]> acc) m0 (range_of m) !! k = match m !! k with Some v => Some v | None => m0 !! k end.
Proof.
  assert (Hl : forall (l : list (K * V)) m0, NoDup l.*1 -> foldl (fun (acc : gmap K V) e => <[e.1 := e.2]> acc) m0 l !! k
    = match (list_to_map l : gmap K V) !! k with Some v => Some v | None => m0 !! k end).
  { intros l. induction l as [|[k1 v1] l IH]; intros m1 Hnd; cbn; [by rewrite lookup_empty|]. cbn in Hnd. apply NoDup_cons in Hnd as [Hn Hnd].
    rewrite IH by done. destruct (decide (k1 = k)) as [->|Hne].
    - rewrite lookup_insert_eq, lookup_insert_eq. by rewrite (not_elem_of_list_to_map_1 l k) by done.
    - by rewrite !lookup_insert_ne by done. }
  assert (Hnd : NoDup (range_of m).*1) by (rewrite (range_of_perm m); apply NoDup_fst_map_to_list).
  rewrite Hl by done. by rewrite (list_to_map_proper _ _ Hnd (range_of_perm m)), list_to_map_to_list.
Qed.
