(* ===== verification/Settings.v ===== *)
(** * Permanent settings (pkg/storage/permanent/settings.go, pkg/model/commitment.go)

    The latest commitment and finalized slot, the protocol parameters and the
    epochs their versions start in; snapshots and rollback.

    Parameters: iota.go's encodings ([CommitmentCodec]: an API is the version it belongs to) and its
    provider of APIs per epoch ([EpochBasedProvider]); its documented behaviour is in the [Spec] classes.
    A typed value of hive.go is the value it holds, a typed store a map visited in an arbitrary
    order.  Device failures and locks are left out. *)
From Stdlib Require Import Strings.Byte.
From S2P Require Import Prelude Bytes Block TimeApi Streams.

(** iotago.Commitment *)
Record IotaCommitment := mkIotaCommitment {
  ic_ProtocolVersion : Z;
  ic_Slot : SlotIndex;
  ic_PreviousCommitmentID : CommitmentID;
  ic_RootsID : Z;
  ic_CumulativeWeight : Z;
  ic_ReferenceManaCost : Z;
}.

Class CommitmentCodec := {
  api_Encode : Z -> IotaCommitment -> option bytes;
  api_Decode : Z -> bytes -> option IotaCommitment;
  commitment_ID : IotaCommitment -> option CommitmentID;
  VersionFromBytes : bytes -> option Z;
  NewEmptyIotaCommitment : Z -> IotaCommitment;
  MinReferenceManaCost : Z -> Z;
}.
(** Commitments are encoded and decoded by the API of their version, which comes first. *)
Class CommitmentCodecSpec (C : CommitmentCodec) : Prop := {
  api_Decode_Encode c data : api_Encode (ic_ProtocolVersion c) c = Some data ->
    VersionFromBytes data = Some (ic_ProtocolVersion c) /\ api_Decode (ic_ProtocolVersion c) data = Some c;
  commitment_ID_total c : is_Some (commitment_ID c);
}.

(** ** model.Commitment *)
Record Commitment := mkCommitment { c_api : Z; commitmentID : CommitmentID; c_data : bytes; c_commitment : IotaCommitment }.

Section Model.
Context `{CC : CommitmentCodec}.
Definition newCommitment (id : CommitmentID) (c : IotaCommitment) (data : bytes) (api : Z) : Commitment := mkCommitment api id data c.
Definition CommitmentFromCommitment (c : IotaCommitment) (api : Z) : option Commitment :=
  data ← api_Encode api c;
  id ← commitment_ID c;
  Some (newCommitment id c data api).
Definition CommitmentFromBytes (known : Z -> bool) (data : bytes) : option Commitment :=
  version ← VersionFromBytes data;
  if known version then
    c ← api_Decode version data;
    id ← commitment_ID c;
    Some (newCommitment id c data version)
  else None.
Definition NewEmptyCommitment (api : Z) : outcome Commitment :=
  let e := NewEmptyIotaCommitment api in
  deref (CommitmentFromCommitment (mkIotaCommitment (ic_ProtocolVersion e) (ic_Slot e) (ic_PreviousCommitmentID e) (ic_RootsID e) (ic_CumulativeWeight e) (MinReferenceManaCost api)) api).
Definition commitment_Slot (c : Commitment) : SlotIndex := ic_Slot (c_commitment c).
Definition PreviousCommitmentID (c : Commitment) : CommitmentID := ic_PreviousCommitmentID (c_commitment c).
Definition RootsID (c : Commitment) : Z := ic_RootsID (c_commitment c).
Definition CumulativeWeight (c : Commitment) : Z := ic_CumulativeWeight (c_commitment c).
Definition ReferenceManaCost (c : Commitment) : Z := ic_ReferenceManaCost (c_commitment c).
End Model.

(** ** api.EpochBasedProvider and protocol parameters *)
Class EpochBasedProvider (P Params : Type) := {
  p_empty : P;
  AddProtocolParameters : Params -> P -> P;
  AddVersion : Z -> EpochIndex -> P -> P;
  AddFutureVersion : Z -> Z -> EpochIndex -> P -> P;
  SetCommittedSlot : SlotIndex -> P -> P;
  VersionForSlot : P -> SlotIndex -> Z;
  CommittedVersion : P -> Z;
  APIForVersion : P -> Z -> bool;
  EpochForVersion : P -> Z -> option EpochIndex;
  VersionsAndProtocolParametersHash : P -> option Z;
  pp_Version : Params -> Z;
  pp_Bytes : Params -> bytes;
  pp_FromBytes : bytes -> option Params;
}.
(** An API is available for the versions whose parameters were added; a version starts in the epoch it was last added with. *)
Class EpochBasedProviderSpec (P Params : Type) `{EBP : EpochBasedProvider P Params} : Prop := {
  APIForVersion_empty v : APIForVersion p_empty v = false;
  EpochForVersion_empty v : EpochForVersion p_empty v = None;
  APIForVersion_params pp p v : APIForVersion (AddProtocolParameters pp p) v = bool_decide (v = pp_Version pp) || APIForVersion p v;
  APIForVersion_version v e p w : APIForVersion (AddVersion v e p) w = APIForVersion p w;
  APIForVersion_future v h e p w : APIForVersion (AddFutureVersion v h e p) w = APIForVersion p w;
  APIForVersion_committed s p w : APIForVersion (SetCommittedSlot s p) w = APIForVersion p w;
  EpochForVersion_params pp p v : EpochForVersion (AddProtocolParameters pp p) v = EpochForVersion p v;
  EpochForVersion_version v e p w : EpochForVersion (AddVersion v e p) w = if decide (w = v) then Some e else EpochForVersion p w;
  EpochForVersion_future v h e p w : EpochForVersion (AddFutureVersion v h e p) w = if decide (w = v) then Some e else EpochForVersion p w;
  EpochForVersion_committed s p w : EpochForVersion (SetCommittedSlot s p) w = EpochForVersion p w;
  pp_roundtrip pp : pp_FromBytes (pp_Bytes pp) = Some pp;
}.

Module Settings.

Record Settings (P Params : Type) := mkSettings {
  storeSnapshotImported : option bool;
  storeLatestCommitment : option Commitment;
  storeLatestFinalizedSlot : option SlotIndex;
  storeLatestIssuedValidationBlock : option ModelBlock;
  storeProtocolVersionEpochMapping : gmap Z EpochIndex;
  storeFutureProtocolParameters : gmap Z (EpochIndex * Z);
  storeProtocolParameters : gmap Z Params;
  apiProvider : P;
}.
Arguments mkSettings {P Params}.
Arguments storeSnapshotImported {P Params}.
Arguments storeLatestCommitment {P Params}.
Arguments storeLatestFinalizedSlot {P Params}.
Arguments storeLatestIssuedValidationBlock {P Params}.
Arguments storeProtocolVersionEpochMapping {P Params}.
Arguments storeFutureProtocolParameters {P Params}.
Arguments storeProtocolParameters {P Params}.
Arguments apiProvider {P Params}.

Section Methods.
Context {P Params : Type} `{EBP : EpochBasedProvider P Params} `{CC : CommitmentCodec} `{ST : Stream} `{CO : Collections} `{!RangeOrder Z}
  (VersionLength IdentifierLength : nat).
Implicit Types s : Settings P Params.

Definition with_imported v s : Settings P Params := mkSettings v (storeLatestCommitment s) (storeLatestFinalizedSlot s) (storeLatestIssuedValidationBlock s) (storeProtocolVersionEpochMapping s) (storeFutureProtocolParameters s) (storeProtocolParameters s) (apiProvider s).
Definition with_commitment v s : Settings P Params := mkSettings (storeSnapshotImported s) v (storeLatestFinalizedSlot s) (storeLatestIssuedValidationBlock s) (storeProtocolVersionEpochMapping s) (storeFutureProtocolParameters s) (storeProtocolParameters s) (apiProvider s).
Definition with_finalized v s : Settings P Params := mkSettings (storeSnapshotImported s) (storeLatestCommitment s) v (storeLatestIssuedValidationBlock s) (storeProtocolVersionEpochMapping s) (storeFutureProtocolParameters s) (storeProtocolParameters s) (apiProvider s).
Definition with_issued v s : Settings P Params := mkSettings (storeSnapshotImported s) (storeLatestCommitment s) (storeLatestFinalizedSlot s) v (storeProtocolVersionEpochMapping s) (storeFutureProtocolParameters s) (storeProtocolParameters s) (apiProvider s).
Definition with_mapping v s : Settings P Params := mkSettings (storeSnapshotImported s) (storeLatestCommitment s) (storeLatestFinalizedSlot s) (storeLatestIssuedValidationBlock s) v (storeFutureProtocolParameters s) (storeProtocolParameters s) (apiProvider s).
Definition with_future v s : Settings P Params := mkSettings (storeSnapshotImported s) (storeLatestCommitment s) (storeLatestFinalizedSlot s) (storeLatestIssuedValidationBlock s) (storeProtocolVersionEpochMapping s) v (storeProtocolParameters s) (apiProvider s).
Definition with_params v s : Settings P Params := mkSettings (storeSnapshotImported s) (storeLatestCommitment s) (storeLatestFinalizedSlot s) (storeLatestIssuedValidationBlock s) (storeProtocolVersionEpochMapping s) (storeFutureProtocolParameters s) v (apiProvider s).
Definition with_provider v s : Settings P Params := mkSettings (storeSnapshotImported s) (storeLatestCommitment s) (storeLatestFinalizedSlot s) (storeLatestIssuedValidationBlock s) (storeProtocolVersionEpochMapping s) (storeFutureProtocolParameters s) (storeProtocolParameters s) v.

Definition StoreProtocolParameters (params : Params) s : Settings P Params :=
  let s := with_params (<[pp_Version params := params]> (storeProtocolParameters s)) s in
  with_provider (AddProtocolParameters params (apiProvider s)) s.
Definition storeProtocolParametersEpochMapping (version : Z) (epoch : EpochIndex) s : Settings P Params :=
  let s := with_mapping (<[version := epoch]> (storeProtocolVersionEpochMapping s)) s in
  with_provider (AddVersion version epoch (apiProvider s)) s.
Definition StoreProtocolParametersForStartEpoch (params : Params) (startEpoch : EpochIndex) s : Settings P Params :=
  storeProtocolParametersEpochMapping (pp_Version params) startEpoch (StoreProtocolParameters params s).
Definition StoreFutureProtocolParametersHash (version hash : Z) (epoch : EpochIndex) s : Settings P Params :=
  let s := with_future (<[version := (epoch, hash)]> (storeFutureProtocolParameters s)) s in
  let s := with_mapping (<[version := epoch]> (storeProtocolVersionEpochMapping s)) s in
  with_provider (AddFutureVersion version hash epoch (apiProvider s)) s.

Definition IsSnapshotImported s : bool := bool_decide (is_Some (storeSnapshotImported s)).
Definition SetSnapshotImported s : Settings P Params := with_imported (Some true) s.
Definition latestCommitment s : outcome Commitment :=
  match storeLatestCommitment s with Some c => Ret c | None => NewEmptyCommitment (CommittedVersion (apiProvider s)) end.
Definition LatestCommitment s : outcome Commitment := latestCommitment s.
Definition SetLatestCommitment (c : Commitment) s : Settings P Params :=
  let s := with_provider (SetCommittedSlot (commitment_Slot c) (apiProvider s)) s in
  let s := with_future (delete (VersionForSlot (apiProvider s) (commitment_Slot c)) (storeFutureProtocolParameters s)) s in
  with_commitment (Some c) s.
Definition latestFinalizedSlot s : SlotIndex := default 0 (storeLatestFinalizedSlot s).
Definition LatestFinalizedSlot s : SlotIndex := latestFinalizedSlot s.
Definition SetLatestFinalizedSlot (slot : SlotIndex) s : Settings P Params := with_finalized (Some slot) s.
Definition latestIssuedValidationBlock s : option ModelBlock := storeLatestIssuedValidationBlock s.
Definition LatestIssuedValidationBlock s : option ModelBlock := latestIssuedValidationBlock s.
Definition SetLatestIssuedValidationBlock (block : ModelBlock) s : Settings P Params := with_issued (Some block) s.

(** ** Start: the provider learns what is on disk *)
Definition loadProtocolParameters s : Settings P Params :=
  with_provider (foldl (fun p e => AddProtocolParameters e.2 p) (apiProvider s) (range_of (storeProtocolParameters s))) s.
Definition loadFutureProtocolParameters s : Settings P Params :=
  with_provider (foldl (fun p e => AddFutureVersion e.1 e.2.2 e.2.1 p) (apiProvider s) (range_of (storeFutureProtocolParameters s))) s.
Definition loadProtocolParametersEpochMappings s : Settings P Params :=
  with_provider (foldl (fun p e => AddVersion e.1 e.2 p) (apiProvider s) (range_of (storeProtocolVersionEpochMapping s))) s.
(** [disk] holds the stores; its provider is a new one. *)
Definition NewSettings (disk : Settings P Params) : outcome (Settings P Params) :=
  let s := loadProtocolParametersEpochMappings (loadFutureProtocolParameters (loadProtocolParameters (with_provider p_empty disk))) in
  if IsSnapshotImported s then
    c ← latestCommitment s; Ret (with_provider (SetCommittedSlot (commitment_Slot c) (apiProvider s)) s)
  else Ret s.

(** ** Snapshots *)
Definition write_mapping (e : Z * EpochIndex) : bytes := put_le VersionLength e.1 ++ put_le 4 e.2.
Definition write_future (e : Z * (EpochIndex * Z)) : bytes := put_le VersionLength e.1 ++ put_le 4 e.2.1 ++ put_le IdentifierLength e.2.2.
Definition write_params (e : Z * Params) : bytes := WriteBlob (pp_Bytes e.2).
(** Future protocol parameters are skipped. *)
Definition exported_params s : list (Z * Params) :=
  filter (fun e => ~ CommittedVersion (apiProvider s) < e.1) (range_of (storeProtocolParameters s)).
Definition write_list {X} (enc : X -> bytes) (l : list X) : bytes := WriteCollection (Z.of_nat (length l)) (l ≫= enc).

(** The bytes written; [None] is an error.  The version of a given commitment is always known. *)
Definition Export (targetCommitment : option IotaCommitment) s : outcome (option bytes) :=
  commitmentBytes ← (match targetCommitment with
                     | Some c => if APIForVersion (apiProvider s) (ic_ProtocolVersion c) then Ret (api_Encode (ic_ProtocolVersion c) c) else Panic
                     | None => c ← LatestCommitment s; Ret (Some (c_data c))
                     end);
  match commitmentBytes with
  | None => Ret None
  | Some commitmentBytes =>
      Ret (Some (WriteBlob commitmentBytes ++ put_le 4 (LatestFinalizedSlot s)
        ++ write_list write_mapping (range_of (storeProtocolVersionEpochMapping s))
        ++ write_list write_future (range_of (storeFutureProtocolParameters s))
        ++ write_list write_params (exported_params s)))
  end.

Definition import_mapping : importer (Settings P Params) unit :=
  version ← take_from (read_le VersionLength);
  epoch ← take_from (read_le 4);
  modify (storeProtocolParametersEpochMapping version epoch).
Definition import_future : importer (Settings P Params) unit :=
  version ← take_from (read_le VersionLength);
  epoch ← take_from (read_le 4);
  hash ← take_from (read_le IdentifierLength);
  modify (StoreFutureProtocolParametersHash version hash epoch).
Definition import_params : importer (Settings P Params) unit :=
  paramsBytes ← take_from ReadBlob;
  params ← etry (pp_FromBytes paramsBytes);
  modify (StoreProtocolParameters params).
Definition Import : importer (Settings P Params) unit :=
  commitmentBytes ← take_from ReadBlob;
  latestFinalizedSlot ← take_from (read_le 4);
  _ ← modify (SetLatestFinalizedSlot latestFinalizedSlot);
  _ ← ReadCollection import_mapping;
  _ ← ReadCollection import_future;
  _ ← ReadCollection import_params;
  known ← look (fun s => APIForVersion (apiProvider s));
  commitment ← etry (CommitmentFromBytes known commitmentBytes);
  modify (SetLatestCommitment commitment).

Definition Rollback (targetCommitment : Commitment) s : Settings P Params := SetLatestCommitment targetCommitment s.
End Methods.
End Settings.
