(* ===== verification/Commitments.v ===== *)
(** * The commitments of all slots (pkg/storage/permanent/commitments.go)

    A typed store of commitments under their slot; a value is its bytes, decoded when it is loaded.  [known] tells
    for which versions there is an API.  Device failures are left out. *)
From Stdlib Require Import Strings.Byte.
From S2P Require Import Prelude Bytes Block TimeApi Streams Settings.

Module Commitments.
Abbreviation Commitments := (gmap SlotIndex bytes).
Section Methods.
Context `{CC : CommitmentCodec} `{ST : Stream} `{CO : Collections} (known : Z -> bool).

Definition Store_ (c : Commitment) (m : Commitments) : Commitments := <[ic_Slot (c_commitment c) := c_data c]> m.
(** [None] is an error, of the decoder or of a missing key. *)
Definition Load (slot : SlotIndex) (m : Commitments) : option Commitment := data ← m !! slot; CommitmentFromBytes known data.

(** The loop over the slots fails at the first missing one. *)
Definition Export (targetSlot : SlotIndex) (m : Commitments) : option bytes :=
  l ← mapM (fun slot => m !! slot) (seqZ 0 (targetSlot + 1));
  Some (WriteCollection (Z.of_nat (length l)) (l ≫= WriteBlob)).
Definition import_commitment : importer Commitments unit :=
  commitmentBytes ← take_from ReadBlob;
  commitment ← etry (CommitmentFromBytes known commitmentBytes);
  modify (Store_ commitment).
Definition Import : importer Commitments unit := ReadCollection import_commitment.

(** [for slot := targetSlot + 1; slot <= lastCommittedSlot; slot++] *)
Definition Rollback (targetSlot lastCommittedSlot : SlotIndex) (m : Commitments) : Commitments :=
  foldl (fun m slot => delete slot m) m (seqZ (u32 (targetSlot + 1)) (lastCommittedSlot - u32 (targetSlot + 1) + 1)).
End Methods.
End Commitments.
