(* ===== verification/SettingsProps.v ===== *)
(** * Snapshots and restarts of the settings

    A snapshot restores the settings at its commitment, and a restart from disk gives a
    provider that knows the same versions; the commitments of a snapshot are those of the exporting node. *)
From Stdlib Require Import Strings.Byte.
From S2P Require Import Prelude Bytes Block TimeApi Streams Settings Commitments.
Import Settings.
#[local] Opaque put_le.

Section Props.
Context {P Params : Type} `{EBPS : EpochBasedProviderSpec P Params} `{CCS : CommitmentCodecSpec} `{STS : StreamSpec} `{COS : CollectionsSpec} `{!RangeOrder Z}
  (VersionLength IdentifierLength : nat).
Implicit Types s : Settings P Params.

Notation Import := (Import VersionLength IdentifierLength).
Notation Export := (Export VersionLength IdentifierLength).

(** What is stored fits its types; a future version starts in the epoch of its mapping. *)
Record settings_ok s : Prop := {
  so_mapping v e : storeProtocolVersionEpochMapping s !! v = Some e -> 0 <= v < 256 ^ Z.of_nat VersionLength /\ in_range Uint32 e;
  so_future v e h : storeFutureProtocolParameters s !! v = Some (e, h) -> storeProtocolVersionEpochMapping s !! v = Some e /\ 0 <= h < 256 ^ Z.of_nat IdentifierLength;
  so_params v p : storeProtocolParameters s !! v = Some p -> pp_Version p = v /\ in_range Uint64 (Z.of_nat (length (pp_Bytes p)));
  so_finalized : in_range Uint32 (LatestFinalizedSlot s);
  so_sizes : in_range Uint64 (Z.of_nat (size (storeProtocolVersionEpochMapping s))) /\ in_range Uint64 (Z.of_nat (size (storeFutureProtocolParameters s)))
             /\ in_range Uint64 (Z.of_nat (size (storeProtocolParameters s)));
}.

Lemma length_range {V} (m : gmap Z V) : length (range_of m) = size m.
Proof. by rewrite (range_of_perm m), length_map_to_list. Qed.

(** ** What the provider knows *)
Lemma provider_mapping (l : list (Z * EpochIndex)) p : forall v,
  APIForVersion (foldl (fun p e => AddVersion e.1 e.2 p) p l) v = APIForVersion p v
  /\ (NoDup l.*1 -> EpochForVersion (foldl (fun p e => AddVersion e.1 e.2 p) p l) v = match (list_to_map l : gmap Z EpochIndex) !! v with Some e => Some e | None => EpochForVersion p v end).
Proof.
  intros v. induction l as [|[w e] l IH] in p |- *; cbn [foldl fst snd fmap list_fmap]; [split; [done|]; intros _; cbn; by rewrite lookup_empty|].
  destruct (IH (AddVersion w e p)) as [Ha He]. rewrite Ha, APIForVersion_version. split; [done|]. intros [Hn Hnd]%NoDup_cons. rewrite He by done.
  rewrite EpochForVersion_version. cbn. case_decide as Hd; [subst; rewrite lookup_insert_eq; by rewrite (not_elem_of_list_to_map_1 l w) by done|by rewrite lookup_insert_ne].
Qed.
Lemma provider_future (m : gmap Z EpochIndex) (l : list (Z * (EpochIndex * Z))) p : forall v,
  APIForVersion (foldl (fun p e => AddFutureVersion e.1 e.2.2 e.2.1 p) p l) v = APIForVersion p v
  /\ ((forall e, e ∈ l -> m !! e.1 = Some e.2.1) -> (forall w, EpochForVersion p w = m !! w) -> EpochForVersion (foldl (fun p e => AddFutureVersion e.1 e.2.2 e.2.1 p) p l) v = m !! v).
Proof.
  intros v. induction l as [|[w [e h]] l IH] in p |- *; cbn [foldl fst snd]; [split; [done|]; auto|].
  destruct (IH (AddFutureVersion w h e p)) as [Ha He]. rewrite Ha, APIForVersion_future. split; [done|]. intros Hl Hp. apply He; [set_solver|]. intros u.
  rewrite EpochForVersion_future, Hp. case_decide as Hd; [|done]. subst. symmetry. apply (Hl (w, (e, h))). set_solver.
Qed.
Lemma provider_params (l : list (Z * Params)) p : forall v,
  EpochForVersion (foldl (fun p e => AddProtocolParameters e.2 p) p l) v = EpochForVersion p v
  /\ ((forall e, e ∈ l -> pp_Version e.2 = e.1) -> APIForVersion (foldl (fun p e => AddProtocolParameters e.2 p) p l) v = bool_decide (v ∈ l.*1) || APIForVersion p v).
Proof.
  intros v. induction l as [|[w q] l IH] in p |- *; cbn [foldl fst snd fmap list_fmap]; [split; [done|]; intros _; by rewrite bool_decide_eq_false_2 by set_solver|].
  destruct (IH (AddProtocolParameters q p)) as [He Ha]. rewrite He, EpochForVersion_params. split; [done|]. intros Hl. rewrite Ha by set_solver. rewrite APIForVersion_params.
  assert (pp_Version q = w) as -> by (apply (Hl (w, q)); set_solver). rewrite orb_assoc. f_equal.
  destruct (decide (v = w)) as [->|]; [rewrite (bool_decide_eq_true_2 (w = w)), (bool_decide_eq_true_2 (w ∈ w :: l.*1)) by (done || set_solver); by rewrite orb_true_r|].
  rewrite (bool_decide_eq_false_2 (v = w)) by done. rewrite orb_false_r. apply bool_decide_ext. set_solver.
Qed.

(** The range of a map that has every future version. *)
Lemma range_nodup {V} (m : gmap Z V) : NoDup (range_of m).*1.
Proof. rewrite (range_of_perm m). apply NoDup_fst_map_to_list. Qed.
Lemma range_list_to_map {V} (m : gmap Z V) : (list_to_map (range_of m) : gmap Z V) = m.
Proof. by rewrite (list_to_map_proper _ _ (range_nodup m) (range_of_perm m)), list_to_map_to_list. Qed.

(** ** The loops of the import *)
Lemma store_mappings (l : list (Z * EpochIndex)) s :
  foldl (fun s e => storeProtocolParametersEpochMapping e.1 e.2 s) s l
  = with_provider (foldl (fun p e => AddVersion e.1 e.2 p) (apiProvider s) l) (with_mapping (foldl (fun m e => <[e.1 := e.2]> m) (storeProtocolVersionEpochMapping s) l) s).
Proof. induction l as [|e l IH] in s |- *; [by destruct s|]. cbn [foldl]. by rewrite IH. Qed.
Lemma store_futures (l : list (Z * (EpochIndex * Z))) s :
  foldl (fun s e => StoreFutureProtocolParametersHash e.1 e.2.2 e.2.1 s) s l
  = with_provider (foldl (fun p e => AddFutureVersion e.1 e.2.2 e.2.1 p) (apiProvider s) l)
      (with_mapping (foldl (fun m e => <[e.1 := e.2.1]> m) (storeProtocolVersionEpochMapping s) l) (with_future (foldl (fun m e => <[e.1 := (e.2.1, e.2.2)]> m) (storeFutureProtocolParameters s) l) s)).
Proof. induction l as [|e l IH] in s |- *; [by destruct s|]. cbn [foldl]. by rewrite IH. Qed.
Lemma store_params (l : list (Z * Params)) s : (forall e, e ∈ l -> pp_Version e.2 = e.1) ->
  foldl (fun s e => StoreProtocolParameters e.2 s) s l
  = with_provider (foldl (fun p e => AddProtocolParameters e.2 p) (apiProvider s) l) (with_params (foldl (fun m e => <[e.1 := e.2]> m) (storeProtocolParameters s) l) s).
Proof.
  intros Hl. induction l as [|e l IH] in s, Hl |- *; [by destruct s|]. cbn [foldl]. rewrite IH by set_solver. unfold StoreProtocolParameters. rewrite (Hl e) by set_solver. done.
Qed.

Lemma insert_known (m : gmap Z EpochIndex) (l : list (Z * (EpochIndex * Z))) : (forall e, e ∈ l -> m !! e.1 = Some e.2.1) -> foldl (fun m e => <[e.1 := e.2.1]> m) m l = m.
Proof. induction l as [|e l IH] in m |- *; [done|]. cbn [foldl]. intros Hl. rewrite insert_id by (apply Hl; set_solver). apply IH. set_solver. Qed.

Lemma insert_all {V} (m : gmap Z V) : foldl (fun (acc : gmap Z V) e => <[e.1 := e.2]> acc) ∅ (range_of m) = m.
Proof. apply map_eq. intros k. rewrite foldl_insert_range, lookup_empty. by destruct (m !! k). Qed.

(** What the exported parameters are. *)
Lemma exported_params_elem s v p : (v, p) ∈ exported_params s <-> storeProtocolParameters s !! v = Some p /\ v <= CommittedVersion (apiProvider s).
Proof. unfold exported_params. rewrite list_elem_of_filter, elem_of_range. cbn. split; intros [? ?]; (split; [done || lia|done || lia]). Qed.
Lemma insert_exported s :
  foldl (fun (acc : gmap Z Params) e => <[e.1 := e.2]> acc) ∅ (exported_params s) = filter (fun e => e.1 <= CommittedVersion (apiProvider s)) (storeProtocolParameters s).
Proof.
  assert (Hf : forall (l : list (Z * Params)) m, NoDup l.*1 -> foldl (fun (acc : gmap Z Params) e => <[e.1 := e.2]> acc) m l = list_to_map l ∪ m).
  { intros l. induction l as [|[k v] l IH]; intros m Hnd; cbn; [by rewrite left_id_L by apply _|]. cbn in Hnd. apply NoDup_cons in Hnd as [Hk Hnd].
    rewrite IH by done. rewrite <- insert_union_l, <- insert_union_r; [done|]. by apply not_elem_of_list_to_map_1. }
  assert (Hnd : NoDup (exported_params s).*1).
  { unfold exported_params. pose proof (range_nodup (storeProtocolParameters s)) as Hn. revert Hn. generalize (range_of (storeProtocolParameters s)) as l. clear. intros l.
    induction l as [|e l IH]; [done|]. intros [Hn Hnd]%NoDup_cons. rewrite filter_cons. case_decide; [|by apply IH]. apply NoDup_cons. split; [|by apply IH].
    intros (x & Ex & [_ Hx]%list_elem_of_filter)%list_elem_of_fmap. apply Hn. rewrite Ex. by apply list_elem_of_fmap_2. }
  rewrite Hf, right_id_L by (done || apply _). apply map_eq. intros k. apply option_eq. intros p. rewrite map_lookup_filter_Some.
  rewrite <- elem_of_list_to_map, exported_params_elem by done. done.
Qed.

(** ** Importing a snapshot *)

(** Settings on an empty disk. *)
Definition fresh : Settings P Params := mkSettings None None None None ∅ ∅ ∅ p_empty.

Lemma import_mapping_reads e s : 0 <= e.1 < 256 ^ Z.of_nat VersionLength -> in_range Uint32 e.2 ->
  reads (import_mapping VersionLength) (write_mapping VersionLength e) tt s (storeProtocolParametersEpochMapping e.1 e.2 s).
Proof.
  intros Hv He. unfold import_mapping, write_mapping. eapply reads_bind; [by apply reads_take, parses_le|]. eapply reads_last; [by apply reads_take, parses_u32|].
  apply reads_modify.
Qed.
Lemma import_future_reads e s : 0 <= e.1 < 256 ^ Z.of_nat VersionLength -> in_range Uint32 e.2.1 -> 0 <= e.2.2 < 256 ^ Z.of_nat IdentifierLength ->
  reads (import_future VersionLength IdentifierLength) (write_future VersionLength IdentifierLength e) tt s (StoreFutureProtocolParametersHash e.1 e.2.2 e.2.1 s).
Proof.
  intros Hv He Hh. unfold import_future, write_future. eapply reads_bind; [by apply reads_take, parses_le|]. eapply reads_bind; [by apply reads_take, parses_u32|].
  eapply reads_last; [by apply reads_take, parses_le|]. apply reads_modify.
Qed.
Lemma import_params_reads (e : Z * Params) s : in_range Uint64 (Z.of_nat (length (pp_Bytes e.2))) ->
  reads import_params (write_params e) tt s (StoreProtocolParameters e.2 s).
Proof.
  intros Hl. unfold import_params, write_params. rewrite WriteBlob_spec. eapply reads_last; [by apply reads_take, parses_blob|]. rewrite pp_roundtrip.
  eapply reads_skip; [done|]. apply reads_modify.
Qed.

Lemma CommitmentFromBytes_encoded known c data : api_Encode (ic_ProtocolVersion c) c = Some data -> known (ic_ProtocolVersion c) = true ->
  exists c', CommitmentFromBytes known data = Some c' /\ c_commitment c' = c /\ c_data c' = data.
Proof.
  intros He Hk. destruct (api_Decode_Encode c data He) as [Hv Hd]. destruct (commitment_ID_total c) as [id Hid]. unfold CommitmentFromBytes.
  rewrite Hv. cbn. rewrite Hk, Hd. cbn. rewrite Hid. cbn. by eexists.
Qed.

(** *** The settings of a snapshot, before its commitment is set *)
Definition snapshot_provider s : P :=
  foldl (fun p e => AddProtocolParameters e.2 p)
    (foldl (fun p e => AddFutureVersion e.1 e.2.2 e.2.1 p) (foldl (fun p e => AddVersion e.1 e.2 p) p_empty (range_of (storeProtocolVersionEpochMapping s))) (range_of (storeFutureProtocolParameters s)))
    (exported_params s).
Definition snapshot_state s : Settings P Params :=
  mkSettings None None (Some (LatestFinalizedSlot s)) None (storeProtocolVersionEpochMapping s) (storeFutureProtocolParameters s)
    (filter (fun e => e.1 <= CommittedVersion (apiProvider s)) (storeProtocolParameters s)) (snapshot_provider s).

Section Snapshot.
Context (s : Settings P Params) (Hok : settings_ok s).

Lemma exported_versions e : e ∈ exported_params s -> pp_Version e.2 = e.1 /\ in_range Uint64 (Z.of_nat (length (pp_Bytes e.2))).
Proof using Hok. destruct e as [v p]. intros [Hv _]%exported_params_elem. by apply (so_params _ Hok). Qed.
Lemma future_mapped e : e ∈ range_of (storeFutureProtocolParameters s) -> storeProtocolVersionEpochMapping s !! e.1 = Some e.2.1.
Proof using Hok. destruct e as [v [e h]]. intros Hin%elem_of_range. by eapply so_future. Qed.

Lemma snapshot_provider_knows v :
  EpochForVersion (snapshot_provider s) v = storeProtocolVersionEpochMapping s !! v
  /\ APIForVersion (snapshot_provider s) v = bool_decide (is_Some (storeProtocolParameters (snapshot_state s) !! v)).
Proof using All.
  unfold snapshot_provider. set (p2 := foldl _ (foldl _ _ _) (range_of (storeFutureProtocolParameters s))).
  destruct (provider_params (exported_params s) p2 v) as [He Ha]. rewrite He, Ha by apply exported_versions. unfold p2. set (p1 := foldl _ p_empty _).
  destruct (provider_future (storeProtocolVersionEpochMapping s) (range_of (storeFutureProtocolParameters s)) p1 v) as [Ha2 He2]. rewrite Ha2.
  assert (H1 : forall w, APIForVersion p1 w = false /\ EpochForVersion p1 w = storeProtocolVersionEpochMapping s !! w).
  { intros w. unfold p1. destruct (provider_mapping (range_of (storeProtocolVersionEpochMapping s)) p_empty w) as [-> Hw]. rewrite Hw by apply range_nodup.
    rewrite range_list_to_map, EpochForVersion_empty, APIForVersion_empty. by destruct (storeProtocolVersionEpochMapping s !! w). }
  rewrite (proj1 (H1 v)), orb_false_r. split; [apply He2; [apply future_mapped|apply H1]|]. apply bool_decide_ext. cbn. rewrite list_elem_of_fmap. split.
  - intros ([w p] & -> & [??]%exported_params_elem). exists p. by apply map_lookup_filter_Some.
  - intros [p [??]%map_lookup_filter_Some]. exists (v, p). split; [done|]. by apply exported_params_elem.
Qed.

(** The three collections lead to these settings. *)
Lemma collections_read :
  exists s1 s2, reads (ReadCollection (import_mapping VersionLength)) (write_list (write_mapping VersionLength) (range_of (storeProtocolVersionEpochMapping s))) tt
      (SetLatestFinalizedSlot (LatestFinalizedSlot s) fresh) s1
    /\ reads (ReadCollection (import_future VersionLength IdentifierLength)) (write_list (write_future VersionLength IdentifierLength) (range_of (storeFutureProtocolParameters s))) tt s1 s2
    /\ reads (ReadCollection import_params) (write_list write_params (exported_params s)) tt s2 (snapshot_state s).
Proof using All.
  destruct (so_sizes _ Hok) as (Hz1 & Hz2 & Hz3). set (s0 := SetLatestFinalizedSlot (LatestFinalizedSlot s) fresh).
  set (s1 := foldl (fun s e => storeProtocolParametersEpochMapping e.1 e.2 s) s0 (range_of (storeProtocolVersionEpochMapping s))).
  set (s2 := foldl (fun s e => StoreFutureProtocolParametersHash e.1 e.2.2 e.2.1 s) s1 (range_of (storeFutureProtocolParameters s))). exists s1, s2. split_and!.
  - apply (reads_collection _ _ (fun s e => storeProtocolParametersEpochMapping e.1 e.2 s) (fun _ => True)); [by rewrite length_range| |done].
    intros [v e] s' Hin%elem_of_range _. split; [|done]. apply (so_mapping _ Hok) in Hin as [??]. by apply import_mapping_reads.
  - apply (reads_collection _ _ (fun s e => StoreFutureProtocolParametersHash e.1 e.2.2 e.2.1 s) (fun _ => True)); [by rewrite length_range| |done].
    intros [v [e h]] s' Hin%elem_of_range _. split; [|done]. apply (so_future _ Hok) in Hin as [[??]%(so_mapping _ Hok) ?]. by apply import_future_reads.
  - assert (E3 : snapshot_state s = foldl (fun s e => StoreProtocolParameters e.2 s) s2 (exported_params s)).
    { rewrite store_params by apply exported_versions. unfold s2. rewrite store_futures. unfold s1. rewrite store_mappings. unfold snapshot_state, with_provider, with_params, with_mapping, with_future. cbn.
      rewrite insert_exported, insert_all, insert_known by apply future_mapped. f_equal. rewrite <- (insert_all (storeFutureProtocolParameters s)) at 1.
      generalize (∅ : gmap Z (EpochIndex * Z)) as m. generalize (range_of (storeFutureProtocolParameters s)) as l.
      intros l. induction l as [|[v [e h]] l IH]; intros m; [done|]. apply IH. }
    rewrite E3. apply (reads_collection _ _ (fun s e => StoreProtocolParameters e.2 s) (fun _ => True)); [| |done].
    + assert (Hle : (length (exported_params s) <= length (range_of (storeProtocolParameters s)))%nat) by apply length_filter. rewrite length_range in Hle. unfold in_range in *. cbn in *. lia.
    + intros e s' He _. split; [|done]. apply import_params_reads. by apply exported_versions.
Qed.
End Snapshot.

(** C34 A snapshot restores the settings: importing what Export wrote for a commitment whose protocol parameters the node has into fresh settings
    consumes exactly those bytes and gives the finalized slot, the epochs of all versions, the future versions except the
    one active at the commitment, the protocol parameters up to the active ones and the commitment; the provider knows
    exactly the imported parameters and the start epochs of exactly the imported versions. *)
Theorem settings_snapshot_roundtrip s c bs
  (Hok : settings_ok s) (Hver : ic_ProtocolVersion c <= CommittedVersion (apiProvider s)) (Hpar : is_Some (storeProtocolParameters s !! ic_ProtocolVersion c))
  (Hlen : forall data, api_Encode (ic_ProtocolVersion c) c = Some data -> in_range Uint64 (Z.of_nat (length data)))
  (Hexp : Export (Some c) s = Ret (Some bs)) :
  exists s' c', reads Import bs tt fresh s' /\ storeLatestCommitment s' = Some c' /\ c_commitment c' = c
    /\ LatestFinalizedSlot s' = LatestFinalizedSlot s
    /\ storeProtocolVersionEpochMapping s' = storeProtocolVersionEpochMapping s
    /\ storeFutureProtocolParameters s' = delete (VersionForSlot (apiProvider s') (ic_Slot c)) (storeFutureProtocolParameters s)
    /\ storeProtocolParameters s' = filter (fun e => e.1 <= CommittedVersion (apiProvider s)) (storeProtocolParameters s)
    /\ forall v, EpochForVersion (apiProvider s') v = storeProtocolVersionEpochMapping s !! v
                 /\ APIForVersion (apiProvider s') v = bool_decide (is_Some (storeProtocolParameters s' !! v)).
Proof.
  unfold Settings.Export in Hexp. destruct (APIForVersion (apiProvider s) (ic_ProtocolVersion c)); [|done]. cbn [mbind outcome_bind] in Hexp.
  destruct (api_Encode (ic_ProtocolVersion c) c) as [data|] eqn:Eenc; [|done]. injection Hexp as <-. destruct (collections_read s Hok) as (s1 & s2 & E1 & E2 & E3).
  destruct (CommitmentFromBytes_encoded (APIForVersion (snapshot_provider s)) c data Eenc) as (c' & Ec & Ecc & _).
  { rewrite (proj2 (snapshot_provider_knows s Hok _)). apply bool_decide_eq_true_2. destruct Hpar as [p Hp]. exists p. by apply map_lookup_filter_Some. }
  exists (SetLatestCommitment c' (snapshot_state s)), c'. split_and!; try done.
  - unfold Settings.Import. rewrite WriteBlob_spec. eapply reads_bind; [apply reads_take, parses_blob; by apply Hlen|]. eapply reads_bind; [apply reads_take, parses_u32; exact (so_finalized _ Hok)|].
    eapply reads_skip; [apply reads_modify|]. eapply reads_bind; [exact E1|]. eapply reads_bind; [exact E2|]. eapply reads_last; [exact E3|].
    eapply reads_skip; [apply reads_look|]. cbn [snapshot_state apiProvider]. rewrite Ec. eapply reads_skip; [done|]. apply reads_modify.
  - cbn. unfold commitment_Slot. by rewrite Ecc.
  - intros v. cbn. rewrite EpochForVersion_committed, APIForVersion_committed. apply (snapshot_provider_knows s Hok).
Qed.
End Props.

(** ** Commitments *)
Section Commitments.
Context `{CCS : CommitmentCodecSpec} `{STS : StreamSpec} `{COS : CollectionsSpec} (known : Z -> bool).
Implicit Types m : Commitments.Commitments.

(** What is stored for a slot is a commitment of that slot. *)
Definition commitments_ok m : Prop := forall slot data, m !! slot = Some data ->
  in_range Uint64 (Z.of_nat (length data)) /\ exists c, CommitmentFromBytes known data = Some c /\ ic_Slot (c_commitment c) = slot /\ c_data c = data.

Lemma mapM_slots m (l : list SlotIndex) ds : mapM (fun slot => m !! slot) l = Some ds -> Forall2 (fun slot d => m !! slot = Some d) l ds.
Proof. intros H. by apply mapM_Some. Qed.

(** The commitments up to the target come back, and no others. *)
Lemma commitments_roundtrip m target bs : commitments_ok m -> 0 <= target < 2 ^ 32 -> Commitments.Export target m = Some bs ->
  exists m', reads (Commitments.Import known) bs tt ∅ m' /\ forall slot, m' !! slot = if decide (0 <= slot <= target) then m !! slot else None.
Proof.
  intros Hok Ht Hexp. unfold Commitments.Export in Hexp. apply bind_Some in Hexp as (ds & Hds%mapM_slots & [= <-]).
  assert (Hstep : forall (l : list (SlotIndex * bytes)) m0, (forall e, e ∈ l -> m !! e.1 = Some e.2) ->
    reads (repeat_n (length l) (Commitments.import_commitment known)) (l.*2 ≫= WriteBlob) tt m0 (foldl (fun (a : Commitments.Commitments) e => <[e.1 := e.2]> a) m0 l)).
  { intros l. induction l as [|[slot d] l IH]; intros m0 Hl; [apply reads_ret|]. cbn [length repeat_n fmap list_fmap mbind list_bind foldl snd fst].
    destruct (Hok slot d) as (Hlen & c & Hc & Hs & Hd); [apply (Hl (slot, d)); set_solver|]. eapply reads_bind; [|apply IH; set_solver].
    unfold Commitments.import_commitment. rewrite WriteBlob_spec. eapply reads_last; [by apply reads_take, parses_blob|]. rewrite Hc. eapply reads_skip; [done|].
    unfold Commitments.Store_. rewrite <- Hs, <- Hd. apply (reads_modify (Commitments.Store_ c)). }
  pose proof (Forall2_length _ _ _ Hds) as Hlen. rewrite length_seqZ in Hlen.
  set (l := zip (seqZ 0 (target + 1)) ds). assert (Hl2 : l.*2 = ds) by (apply snd_zip; rewrite length_seqZ; lia).
  assert (Hl1 : l.*1 = seqZ 0 (target + 1)) by (apply fst_zip; rewrite length_seqZ; lia).
  assert (Hin : forall e, e ∈ l -> m !! e.1 = Some e.2).
  { intros [s d] Hin. apply list_elem_of_lookup_1 in Hin as (i & Hi). unfold l in Hi. apply lookup_zip_Some in Hi as [Hi1 Hi2]. by eapply Forall2_lookup_lr in Hds. }
  exists (foldl (fun (a : Commitments.Commitments) e => <[e.1 := e.2]> a) ∅ l). split.
  - intros rest. unfold Commitments.Import. rewrite ReadCollection_law, WriteCollection_law. revert rest. eapply reads_bind; [apply reads_take, parses_u64; unfold in_range; cbn; lia|].
    rewrite Nat2Z.id. rewrite <- Hl2 at 2. replace (length ds) with (length l) by (rewrite <- Hl2; by rewrite length_fmap). apply (Hstep l ∅ Hin).
  - intros slot. assert (Hf : forall (l : list (SlotIndex * bytes)) (m0 : Commitments.Commitments), (forall e, e ∈ l -> m !! e.1 = Some e.2) ->
      foldl (fun (a : Commitments.Commitments) e => <[e.1 := e.2]> a) m0 l !! slot = if decide (slot ∈ l.*1) then m !! slot else m0 !! slot).
    { clear. intros l. induction l as [|[s d] l IH]; intros m0 Hl; cbn [foldl fst snd fmap list_fmap]; [by rewrite decide_False by set_solver|]. rewrite IH by set_solver.
      destruct (decide (slot = s)) as [->|Hne].
      - rewrite (decide_True (P:=s ∈ s :: l.*1)) by set_solver. case_decide; [done|]. rewrite lookup_insert_eq. symmetry. apply (Hl (s, d)). set_solver.
      - rewrite lookup_insert_ne by done. apply decide_ext. set_solver. }
    rewrite Hf by done. rewrite Hl1. rewrite lookup_empty. apply decide_ext. rewrite elem_of_seqZ. lia.
Qed.

(** A rollback forgets the commitments after the target. *)
Lemma commitments_rollback m target last slot : in_range Uint32 (target + 1) ->
  Commitments.Rollback target last m !! slot = if decide (target < slot <= last) then None else m !! slot.
Proof.
  intros Hr. unfold Commitments.Rollback. rewrite (wrap_id Uint32) by done. assert (Hd : forall (l : list SlotIndex) m,
    foldl (fun m slot => delete slot m) m l !! slot = if decide (slot ∈ l) then None else m !! slot).
  { intros l. induction l as [|x l IH]; intros m'; cbn [foldl]; [by rewrite decide_False by set_solver|]. rewrite IH. destruct (decide (slot = x)) as [->|].
    - rewrite lookup_delete_eq. rewrite (decide_True (P:=x ∈ x :: l)) by set_solver. by case_decide.
    - rewrite lookup_delete_ne by done. apply decide_ext. set_solver. }
  rewrite Hd. apply decide_ext. rewrite elem_of_seqZ. lia.
Qed.
End Commitments.

(** ** A concrete snapshot *)
Module SettingsDemo.
Definition demo_commitment : IotaCommitment := mkIotaCommitment 3 5 (mkCommitmentID 1 4) 9 70 1.
#[global] Instance demo_commitment_dec (c : IotaCommitment) : Decision (c = demo_commitment).
Proof. unfold Decision. repeat decide equality. Defined.
#[local] Instance demo_codec : CommitmentCodec := {|
  api_Encode v c := if decide (c = demo_commitment) then Some [Byte.x03] else None;
  api_Decode v bs := if decide (bs = [Byte.x03]) then Some demo_commitment else None;
  commitment_ID c := Some (mkCommitmentID 1 (ic_Slot c));
  VersionFromBytes bs := if decide (bs = [Byte.x03]) then Some 3 else None;
  NewEmptyIotaCommitment v := demo_commitment; MinReferenceManaCost v := 1 |}.
#[local] Instance demo_codec_spec : CommitmentCodecSpec demo_codec.
Proof. split; [|intros c; by eexists]. intros c data. cbn. case_decide; [|done]. intros [= <-]. subst. by split. Qed.

(** A provider that knows the versions with parameters and their epochs; there are parameters of version 3 and 4. *)
Definition demo_P : Type := gset Z * gmap Z EpochIndex.
#[local] Instance demo_provider : EpochBasedProvider demo_P bool := {|
  p_empty := (∅, ∅);
  AddProtocolParameters pp p := ({[if pp : bool then 3 else 4]} ∪ p.1, p.2);
  AddVersion v e p := (p.1, <[v := e]> p.2);
  AddFutureVersion v h e p := (p.1, <[v := e]> p.2);
  SetCommittedSlot s p := p;
  VersionForSlot p s := 3;
  CommittedVersion p := 3;
  APIForVersion p v := bool_decide (v ∈ p.1);
  EpochForVersion p v := p.2 !! v;
  VersionsAndProtocolParametersHash p := Some 0;
  pp_Version pp := if pp then 3 else 4;
  pp_Bytes pp := [if pp : bool then Byte.x03 else Byte.x04];
  pp_FromBytes bs := if decide (bs = [Byte.x03]) then Some true else if decide (bs = [Byte.x04]) then Some false else None |}.
#[local] Instance demo_provider_spec : EpochBasedProviderSpec demo_P bool.
Proof.
  split; cbn; intros; try done.
  - apply eq_bool_prop_intro. rewrite orb_True, !bool_decide_spec. destruct pp; set_solver.
  - rewrite lookup_insert. repeat case_decide; congruence.
  - rewrite lookup_insert. repeat case_decide; congruence.
  - by destruct pp.
Qed.
#[local] Instance demo_order : RangeOrder Z := canonical_order Z.
Definition demo_settings : Settings demo_P bool :=
  StoreProtocolParameters false (StoreFutureProtocolParametersHash 4 77 9 (StoreProtocolParametersForStartEpoch true 0 (SetLatestFinalizedSlot 4 fresh))).
Definition demo_snapshot : bytes := match Export 1 4 (Some demo_commitment) demo_settings with Ret (Some bs) => bs | _ => [] end.

Lemma demo_settings_ok : settings_ok 1 4 demo_settings.
Proof.
  split.
  - intros v e. cbn. intros [[<- <-]|[_ [[<- <-]|[_ H]]%lookup_insert_Some]]%lookup_insert_Some; [done|done|by rewrite lookup_empty in H].
  - intros v e h. cbn. intros [[<- [= <- <-]]|[_ H]]%lookup_insert_Some; [done|by rewrite lookup_empty in H].
  - intros v p. cbn. intros [[<- <-]|[_ [[<- <-]|[_ H]]%lookup_insert_Some]]%lookup_insert_Some; [done|done|by rewrite lookup_empty in H].
  - done.
  - done.
Qed.

Lemma settings_snapshot_roundtrip_witness :
  exists s' c', reads (Import 1 4) demo_snapshot tt (fresh (P:=demo_P)) s' /\ storeLatestCommitment s' = Some c' /\ c_commitment c' = demo_commitment
    /\ LatestFinalizedSlot s' = LatestFinalizedSlot demo_settings
    /\ storeProtocolVersionEpochMapping s' = storeProtocolVersionEpochMapping demo_settings
    /\ storeFutureProtocolParameters s' = delete (VersionForSlot (apiProvider s') (ic_Slot demo_commitment)) (storeFutureProtocolParameters demo_settings)
    /\ storeProtocolParameters s' = filter (fun e => e.1 <= CommittedVersion (apiProvider demo_settings)) (storeProtocolParameters demo_settings)
    /\ forall v, EpochForVersion (apiProvider s') v = storeProtocolVersionEpochMapping demo_settings !! v
                 /\ APIForVersion (apiProvider s') v = bool_decide (is_Some (storeProtocolParameters s' !! v)).
Proof.
  apply (settings_snapshot_roundtrip 1 4 demo_settings demo_commitment demo_snapshot).
  - exact demo_settings_ok.
  - done.
  - by eexists.
  - intros data. cbn. intros [= <-]. done.
  - vm_compute. reflexivity.
Defined.
End SettingsDemo.
