(* ===== verification/Upgrade.v ===== *)
(** * Signaling of protocol upgrades (pkg/protocol/engine/upgrade/signalingupgradeorchestrator)

    Validation blocks signal the highest protocol version of their issuer.  The orchestrator keeps
    the latest signal per seat, carries it through the slots of an epoch, and at the end of an
    epoch records the version that a super majority of the seats signaled; a version recorded often
    enough within a window of epochs is scheduled.

    Parameters: the settings the versions are scheduled in ([UpgradeSettings], implemented by the permanent
    settings), the committee of a slot, the number of seats, the signaling parameters, which slots are pruned, the
    order in which maps are visited and iota.go's encoding of signals.  The error handler only reports.
    Locks are left out. *)
From Stdlib Require Import Strings.Byte.
From S2P Require Import Prelude Bytes Block TimeApi EpochStore Float64 SlotGadget CoreAccount Accounts AccountBytes Streams Settings.
Import CoreAccount.

#[export] Program Instance VersionAndHash_countable : Countable VersionAndHash :=
  inj_countable' (fun v => (Version v, Hash v)) (fun p => mkVersionAndHash p.1 p.2) _.
Next Obligation. by intros []. Qed.

(** ** What the orchestrator needs of the settings *)
Class UpgradeSettings (St : Type) := {
  epochForVersionFunc : St -> Z -> option EpochIndex;
  setProtocolParametersEpochMappingFunc : Z -> Z -> EpochIndex -> St -> option St;
  protocolParametersAndVersionsHashFunc : St -> option Z;
}.
Class UpgradeSettingsSpec (St : Type) `{US : UpgradeSettings St} : Prop := {
  set_mapping_spec v h e s s' w : setProtocolParametersEpochMappingFunc v h e s = Some s' ->
    epochForVersionFunc s' w = if decide (w = v) then Some e else epochForVersionFunc s w;
}.
(** The permanent settings implement it. *)
#[export] Instance settings_upgrade {P Params} `{EpochBasedProvider P Params} : UpgradeSettings (Settings.Settings P Params) := {|
  epochForVersionFunc s v := EpochForVersion (Settings.apiProvider s) v;
  setProtocolParametersEpochMappingFunc v h e s := Some (Settings.StoreFutureProtocolParametersHash v h e s);
  protocolParametersAndVersionsHashFunc s := VersionsAndProtocolParametersHash (Settings.apiProvider s) |}.
#[export] Instance settings_upgrade_spec {P Params} `{EpochBasedProviderSpec P Params} : UpgradeSettingsSpec (Settings.Settings P Params).
Proof. split. cbn. intros v h e s s' w [= <-]. cbn. apply EpochForVersion_future. Qed.

Class VersionSignaling := {
  WindowSize : EpochIndex -> Z;                       (* uint8 *)
  WindowTargetRatio : EpochIndex -> Z;                (* uint8 *)
  ActivationOffset : EpochIndex -> Z;                 (* uint8 *)
}.

Module Upgrade.

(** ** model.SignaledBlock *)
Record Signal := mkSignal { sig_Version : Z; sig_Hash : Z }.   (* of a validation block *)

Abbreviation Signals := (gmap SeatIndex SignaledBlock).

Record Orchestrator (St : Type) := mkOrchestrator {
  lastCommittedSlot : SlotIndex;
  latestSignals : gmap SlotIndex Signals;
  upgradeSignals : gmap SlotIndex Signals;            (* the slot stores *)
  decidedUpgradeSignals : Store VersionAndHash;
  settings : St;
}.
Arguments mkOrchestrator {St}.
Arguments lastCommittedSlot {St}.
Arguments latestSignals {St}.
Arguments upgradeSignals {St}.
Arguments decidedUpgradeSignals {St}.
Arguments settings {St}.

Section Methods.
Context {St : Type} `{US : UpgradeSettings St} `{VS : VersionSignaling} `{TP : TimeProvider} `{!RangeOrder SeatIndex} `{!RangeOrder VersionAndHash}
  (id_number : BlockID -> Z) (committeeFunc : SlotIndex -> option SeatedAccounts) (seatCount : Z) (pruned : SlotIndex -> bool).
Implicit Types o : Orchestrator St.

Definition with_lastCommitted v o := mkOrchestrator v (latestSignals o) (upgradeSignals o) (decidedUpgradeSignals o) (settings o).
Definition with_latest v o := mkOrchestrator (lastCommittedSlot o) v (upgradeSignals o) (decidedUpgradeSignals o) (settings o).
Definition with_signals v o := mkOrchestrator (lastCommittedSlot o) (latestSignals o) v (decidedUpgradeSignals o) (settings o).
Definition with_decided v o := mkOrchestrator (lastCommittedSlot o) (latestSignals o) (upgradeSignals o) v (settings o).
Definition with_settings (v : St) o := mkOrchestrator (lastCommittedSlot o) (latestSignals o) (upgradeSignals o) (decidedUpgradeSignals o) v.

Definition NewOrchestrator (signals : gmap SlotIndex Signals) (decided : Store VersionAndHash) (s : St) : Orchestrator St :=
  mkOrchestrator 0 ∅ signals decided s.

Definition NewSignaledBlock (blockID : BlockID) (block : ModelBlock) (validationBlock : Signal) : SignaledBlock :=
  mkSignaledBlock (id_number blockID) (IssuingTime block) (sig_Version validationBlock) (sig_Hash validationBlock).

(** The function given to Compute. *)
Definition choose (new : SignaledBlock) (current : option SignaledBlock) : SignaledBlock :=
  match current with
  | None => new
  | Some c => if CompareSignaled (Some new) (Some c) =? 1 then new else c
  end.
Definition addNewSignaledBlock (seat : SeatIndex) (new : SignaledBlock) (m : Signals) : Signals := <[seat := choose new (m !! seat)]> m.

(** The signals of a slot; [Get(slot, true)] creates them. *)
Definition signals_of (st : gmap SlotIndex Signals) (slot : SlotIndex) : Signals := default ∅ (st !! slot).

(** [validation] is what the block signals, if it is a validation block; a missing committee is a nil pointer. *)
Definition TrackValidationBlock (block : ModelBlock) (validation : option Signal) o : outcome (Orchestrator St) :=
  match validation with
  | None => Ret o
  | Some validationBlock =>
      let newSignaledBlock := NewSignaledBlock (ID block) block validationBlock in
      committee ← deref (committeeFunc (Slot (ID block)));
      match GetSeat (IssuerID block) committee with
      | None => Ret o
      | Some seat =>
          match epochForVersionFunc (settings o) (sig_Version validationBlock) with
          | Some _ => Ret o
          | None =>
              let slot := Slot (ID block) in
              Ret (with_latest (<[slot := addNewSignaledBlock seat newSignaledBlock (signals_of (latestSignals o) slot)]> (latestSignals o)) o)
          end
      end
  end.

(** ** Deciding on an upgrade *)

(** [m[k]++] *)
Definition count_up (m : gmap VersionAndHash Z) (k : VersionAndHash) : gmap VersionAndHash Z := <[k := default 0 (m !! k) + 1]> m.
Definition version_of (b : SignaledBlock) : VersionAndHash := mkVersionAndHash (HighestSupportedVersion b) (ProtocolParametersHash b).

Definition maxVersionByCount (versionSupporters : gmap VersionAndHash Z) : VersionAndHash * Z :=
  foldl (fun acc e => if acc.2 <? e.2 then e else acc) (noVersionAndHash, 0) (range_of versionSupporters).

Definition signalingWindowStart (epoch : EpochIndex) : EpochIndex :=
  let windowSize := WindowSize epoch in if epoch <? windowSize then 0 else epoch - windowSize.

(** The loop over the window; a pruned epoch is an error. *)
Fixpoint epoch_versions (epochs : list EpochIndex) (decided : Store VersionAndHash) (epochVersions : gmap VersionAndHash Z) : option (gmap VersionAndHash Z) :=
  match epochs with
  | [] => Some epochVersions
  | epoch :: epochs =>
      match Load epoch decided with
      | Err _ => None
      | Ok v =>
          let version := default noVersionAndHash v in
          epoch_versions epochs decided (if Version version =? 0 then epochVersions else count_up epochVersions version)
      end
  end.
Definition window (currentEpoch : EpochIndex) : list EpochIndex :=
  seqZ (signalingWindowStart currentEpoch) (currentEpoch - signalingWindowStart currentEpoch + 1).
Definition signalingThresholdReached (currentEpoch : EpochIndex) o : option VersionAndHash :=
  epochVersions ← epoch_versions (window currentEpoch) (decidedUpgradeSignals o) ∅;
  let '(versionMostSignaled, signaledCount) := maxVersionByCount epochVersions in
  if signaledCount <? WindowTargetRatio currentEpoch then None else Some versionMostSignaled.

(** How many seats signal each version. *)
Definition supporters (signaledBlockPerSeat : Signals) : gmap VersionAndHash Z :=
  foldl (fun m e => count_up m (version_of e.2)) ∅ (range_of signaledBlockPerSeat).

Definition tryUpgrade (currentEpoch : EpochIndex) (lastSlotInEpoch : bool) (signaledBlockPerSeat : option Signals) o : Orchestrator St :=
  match signaledBlockPerSeat with
  | None => o
  | Some signaledBlockPerSeat =>
      if negb lastSlotInEpoch then o
      else
        let '(versionAndHash, mostSupporters) := maxVersionByCount (supporters signaledBlockPerSeat) in
        match epochForVersionFunc (settings o) (Version versionAndHash) with
        | Some _ => o
        | None =>
            if negb (IsThresholdReached mostSupporters seatCount SuperMajority) then o
            else
              match Store_ currentEpoch versionAndHash (decidedUpgradeSignals o) with
              | Err _ => o
              | Ok decided =>
                  let o := with_decided decided o in
                  match signalingThresholdReached currentEpoch o with
                  | None => o
                  | Some v =>
                      match setProtocolParametersEpochMappingFunc (Version v) (Hash v) (u32 (currentEpoch + ActivationOffset currentEpoch)) (settings o) with
                      | None => o
                      | Some s => with_settings s o
                      end
                  end
              end
        end
  end.

(** The closure of Commit: the signals of the slot are stored and carried into the next slot of the epoch. *)
Definition collect_signals (slot : SlotIndex) (lastSlotInEpoch : bool) o : option Signals * Orchestrator St :=
  let latestSignalsForSlot := latestSignals o !! slot in
  let o := with_latest (delete slot (latestSignals o)) o in
  match latestSignalsForSlot with
  | None => (None, o)
  | Some signaledBlockPerSeat =>
      if pruned slot then (None, o)
      else
        let o := with_signals (<[slot := signaledBlockPerSeat ∪ signals_of (upgradeSignals o) slot]> (upgradeSignals o)) o in
        let o := if negb lastSlotInEpoch then
                   let next := u32 (slot + 1) in
                   with_latest (<[next := foldl (fun m e => addNewSignaledBlock e.1 e.2 m) (signals_of (latestSignals o) next) (range_of signaledBlockPerSeat)]> (latestSignals o)) o
                 else o in
        (Some signaledBlockPerSeat, with_lastCommitted (u32 (lastCommittedSlot o + 1)) o)
  end.

(** Returns the hash of the versions and parameters; [None] is an error. *)
Definition Commit (slot : SlotIndex) o : option Z * Orchestrator St :=
  let currentEpoch := EpochFromSlot slot in
  let lastSlotInEpoch := EpochEnd currentEpoch =? slot in
  let '(signaledBlockPerSeat, o) := collect_signals slot lastSlotInEpoch o in
  let o := tryUpgrade currentEpoch lastSlotInEpoch signaledBlockPerSeat o in
  (protocolParametersAndVersionsHashFunc (settings o), o).

(** ** Snapshots (snapshot.go) *)
Section Snapshots.
Context `{ST : Bytes.Stream} `{CO : Collections} `{SF : StreamFuncs} `{AL : AccountLayout} (signal_Bytes : SlotIndex -> SignaledBlock -> bytes) (signal_FromBytes : SlotIndex -> bytes -> option SignaledBlock).

(** The decided epochs of the window; [None] is an error. *)
Fixpoint decided_in (epochs : list EpochIndex) (decided : Store VersionAndHash) : option (list (EpochIndex * VersionAndHash)) :=
  match epochs with
  | [] => Some []
  | epoch :: epochs =>
      match Load epoch decided with
      | Err _ => None
      | Ok v =>
          l ← decided_in epochs decided;
          let version := default noVersionAndHash v in
          Some (if Version version =? 0 then l else (epoch, version) :: l)
      end
  end.
Definition write_signal (targetSlot : SlotIndex) (e : SeatIndex * SignaledBlock) : bytes := put_le 1 e.1 ++ WriteBlob (signal_Bytes targetSlot e.2).
Definition write_decided (e : EpochIndex * VersionAndHash) : bytes := put_le 4 e.1 ++ WriteSerializable (version_Bytes e.2).
Definition Export (targetSlot : SlotIndex) o : option bytes :=
  if pruned targetSlot then None
  else
    let signals := range_of (signals_of (upgradeSignals o) targetSlot) in
    decided ← decided_in (window (EpochFromSlot targetSlot)) (decidedUpgradeSignals o);
    Some (put_le 4 targetSlot ++ WriteCollection (Z.of_nat (length signals)) (signals ≫= write_signal targetSlot)
          ++ WriteCollection (Z.of_nat (length decided)) (decided ≫= write_decided)).

(** The map of the signals is built next to the orchestrator. *)
Definition import_signal (slot : SlotIndex) : importer (Orchestrator St * Signals) unit :=
  seat ← take_from (read_le 1);
  b ← take_from (ReadFunc (signal_FromBytes slot));
  modify (fun x => (x.1, <[seat := b]> x.2)).
Definition import_decided : importer (Orchestrator St * Signals) unit :=
  epoch ← take_from (read_le 4);
  v ← take_from (ReadFunc VersionAndHashFromBytes);
  modify_or_fail (fun x => match Store_ epoch v (decidedUpgradeSignals x.1) with Ok d => Some (with_decided d x.1, x.2) | Err _ => None end).
Definition Import_with : importer (Orchestrator St * Signals) unit :=
  slot ← take_from (read_le 4);
  _ ← modify (fun x => (with_lastCommitted slot x.1, x.2));
  _ ← ReadCollection (import_signal slot);
  _ ← modify_or_fail (fun x => if pruned slot then None
        else Some (with_signals (<[slot := x.2 ∪ signals_of (upgradeSignals x.1) slot]> (upgradeSignals x.1)) x.1, x.2));
  _ ← modify (fun x => let next := u32 (slot + 1) in (with_latest (<[next := x.2 ∪ signals_of (latestSignals x.1) next]> (latestSignals x.1)) x.1, x.2));
  ReadCollection import_decided.
Definition Import (bs : bytes) o : outcome (option unit * Orchestrator St) :=
  '(r, x) ← Import_with ((o, ∅), bs); Ret (r, x.1.1).
End Snapshots.
End Methods.
End Upgrade.
