(* ===== verification/UpgradeProps.v ===== *)
(** * Protocol upgrades need super majorities

    The signal that is stored and carried for a seat is the greatest one heard in the epoch; an epoch is
    recorded for a version only if a super majority of the seats signaled it, and a version is scheduled only
    if enough epochs of the window were recorded for it. *)
From Stdlib Require Import Strings.Byte.
From S2P Require Import Prelude Bytes Block TimeApi EpochStore Float64 SlotGadget CoreAccount Accounts Streams Settings Upgrade.
Import CoreAccount Upgrade.

(** ** The order of signals *)
Definition sig_le (a b : SignaledBlock) : Prop := CompareSignaled (Some a) (Some b) <> 1.

Lemma sig_le_spec a b : sig_le a b <->
  HighestSupportedVersion a < HighestSupportedVersion b
  \/ HighestSupportedVersion a = HighestSupportedVersion b /\ (sb_IssuingTime a < sb_IssuingTime b \/ sb_IssuingTime a = sb_IssuingTime b /\ sb_ID a <= sb_ID b).
Proof. unfold sig_le, CompareSignaled. repeat match goal with |- context[?a <? ?b] => destruct (Z.ltb_spec a b) end; lia. Qed.
Lemma sig_le_refl a : sig_le a a.
Proof. apply sig_le_spec. lia. Qed.
Lemma sig_le_trans a b c : sig_le a b -> sig_le b c -> sig_le a c.
Proof. rewrite !sig_le_spec. lia. Qed.
Lemma sig_le_total a b : sig_le a b \/ sig_le b a.
Proof. rewrite !sig_le_spec. lia. Qed.

(** [x] is the greatest of the signals in [D], if there is one. *)
Definition greatest_of (D : SignaledBlock -> Prop) (x : option SignaledBlock) : Prop :=
  match x with Some x => D x /\ forall y, D y -> sig_le y x | None => forall y, ~ D y end.

Lemma greatest_ext D D' x : (forall y, D y <-> D' y) -> greatest_of D x -> greatest_of D' x.
Proof. intros He. destruct x; cbn; [intros [? Hy]; split; [by apply He|]; intros; by apply Hy, He|]. intros Hn y. by rewrite <- He. Qed.

Lemma greatest_choose D D' b x : greatest_of D (Some b) -> greatest_of D' x -> greatest_of (fun y => D y \/ D' y) (Some (choose b x)).
Proof.
  intros [Hb Hmax] Hx. unfold choose. destruct x as [c|]; cbn [greatest_of] in Hx |- *.
  - destruct Hx as [Hc Hmax']. destruct (Z.eqb_spec (CompareSignaled (Some b) (Some c)) 1) as [E|E].
    + split; [left; exact Hb|]. intros y [Hy|Hy]; [exact (Hmax y Hy)|]. apply sig_le_trans with c; [exact (Hmax' y Hy)|]. destruct (sig_le_total c b) as [Hl|Hl]; [exact Hl|]. by destruct (Hl E).
    + split; [right; exact Hc|]. intros y [Hy|Hy]; [|exact (Hmax' y Hy)]. apply sig_le_trans with b; [exact (Hmax y Hy)|exact E].
  - split; [left; exact Hb|]. intros y [Hy|Hy]; [exact (Hmax y Hy)|by destruct (Hx y)].
Qed.
Lemma greatest_single b : greatest_of (fun y => y = b) (Some b).
Proof. split; [done|]. intros y ->. apply sig_le_refl. Qed.

(** ** Counting *)
Section Counting.
Context `{!RangeOrder SeatIndex} `{!RangeOrder VersionAndHash}.

Definition count (m : gmap VersionAndHash Z) (v : VersionAndHash) : Z := default 0 (m !! v).
Lemma count_count_up m k v : count (count_up m k) v = count m v + (if decide (v = k) then 1 else 0).
Proof. unfold count, count_up. case_decide as Hd; [subst; rewrite lookup_insert_eq|rewrite lookup_insert_ne by done]; cbn; lia. Qed.

(** The version with the most supporters. *)
Lemma maxVersionByCount_spec m v n : maxVersionByCount m = (v, n) -> (v = noVersionAndHash /\ n = 0) \/ (0 < n /\ count m v = n).
Proof.
  unfold maxVersionByCount. assert (Hl : forall l acc, (forall e, e ∈ l -> m !! e.1 = Some e.2) -> (acc = (noVersionAndHash, 0) \/ 0 < acc.2 /\ count m acc.1 = acc.2) -> 0 <= acc.2 ->
    let r := foldl (fun acc e => if acc.2 <? e.2 then e else acc) acc l in r = (noVersionAndHash, 0) \/ 0 < r.2 /\ count m r.1 = r.2).
  { intros l. induction l as [|e l IH]; intros acc Hin Ha Hp; [done|]. cbn [foldl]. apply IH; [set_solver| |]; (destruct (Z.ltb_spec acc.2 e.2); [|done]); [|lia].
    right. split; [lia|]. unfold count. rewrite (Hin e) by set_solver. done. }
  intros E. destruct (Hl (range_of m) (noVersionAndHash, 0)) as [Hr|Hr]; [intros [k x] Hin; by apply elem_of_range|by left|done|..]; rewrite E in Hr; [left|right; done]. by injection Hr.
Qed.

(** How many seats signal a version. *)
Definition supporters_of (S : Signals) (v : VersionAndHash) : Z := Z.of_nat (size (filter (fun e => version_of e.2 = v) S)).

Lemma supporters_count (S : Signals) v : count (supporters S) v = supporters_of S v.
Proof.
  unfold supporters, supporters_of. assert (Hl : forall (l : list (SeatIndex * SignaledBlock)) m, count (foldl (fun m e => count_up m (version_of e.2)) m l) v
    = count m v + Z.of_nat (length (filter (fun e => version_of e.2 = v) l))).
  { intros l. induction l as [|e l IH]; intros m; cbn [foldl]; [cbn; lia|]. rewrite IH, count_count_up, filter_cons. repeat case_decide; subst; cbn [length]; try lia; done. }
  rewrite Hl. replace (count ∅ v) with 0 by done. rewrite (range_of_perm S), Z.add_0_l. f_equal. rewrite <- length_map_to_list. apply Permutation_length.
  apply NoDup_Permutation.
  - apply NoDup_filter, NoDup_map_to_list.
  - apply NoDup_map_to_list.
  - intros [k x]. rewrite list_elem_of_filter, !elem_of_map_to_list, map_lookup_filter_Some. cbn. tauto.
Qed.
End Counting.

(** The epochs of the window recorded for a version. *)
Lemma epoch_versions_count es d m m' v : epoch_versions es d m = Some m' ->
  count m' v <= count m v + Z.of_nat (length (filter (fun e => kv d !! e = Some v) es)).
Proof.
  revert m. induction es as [|e es IH]; intros m; cbn [epoch_versions]; [intros [= <-]; cbn; lia|]. unfold Load. destruct (isTooOld e d); [done|].
  intros H%IH. rewrite filter_cons. destruct (kv d !! e) as [w|] eqn:E; cbn [default] in H.
  - change (id w) with w in H. destruct (Version w =? 0); [case_decide; cbn [length]; lia|]. rewrite count_count_up in H. case_decide as Hd; case_decide as Hd'; cbn [length]; try lia. subst. done.
  - rewrite decide_False by done. exact H.
Qed.

(** ** Runs of the orchestrator *)
Section Runs.
Context {St : Type} `{US : UpgradeSettings St} `{VS : VersionSignaling} `{TPS : TimeProviderSpec} `{!RangeOrder SeatIndex} `{!RangeOrder VersionAndHash}
  (id_number : BlockID -> Z) (committeeFunc : SlotIndex -> option SeatedAccounts) (seatCount : Z) (pruned : SlotIndex -> bool) (Hpruned : forall s, pruned s = false).
Implicit Types o : Orchestrator St.
Notation TrackValidationBlock := (TrackValidationBlock id_number committeeFunc).
Notation Commit := (Commit seatCount pruned).

(** What a block signals, for which seat. *)
Definition signal_of (block : ModelBlock) (validation : option Signal) o : option (SeatIndex * SignaledBlock) :=
  v ← validation;
  c ← committeeFunc (Slot (ID block));
  seat ← GetSeat (IssuerID block) c;
  match epochForVersionFunc (settings o) (sig_Version v) with Some _ => None | None => Some (seat, NewSignaledBlock id_number (ID block) block v) end.

(** The signals heard so far: slot, seat and signal. *)
Abbreviation Log := (list (SlotIndex * SeatIndex * SignaledBlock)).
(** A signal for a committed slot is not counted. *)
Definition log_entry (last : SlotIndex) (block : ModelBlock) (validation : option Signal) o : Log :=
  match signal_of block validation o with
  | Some (seat, b) => if decide (last < Slot (ID block)) then [(Slot (ID block), seat, b)] else []
  | None => []
  end.

(** Slots are committed in order from genesis on; blocks are tracked and decided epochs pruned at any time. *)
Inductive run : SlotIndex -> Log -> Orchestrator St -> Prop :=
| run_start d1 d2 s : run 0 [] (NewOrchestrator ∅ (NewStore ∅ d1 d2) s)
| run_track last h o block validation o' : run last h o -> in_range Uint32 (Slot (ID block)) ->
    TrackValidationBlock block validation o = Ret o' -> run last (h ++ log_entry last block validation o) o'
| run_commit last h o r o' : run last h o -> in_range Uint32 (last + 2) -> Commit (last + 1) o = (r, o') -> run (last + 1) h o'
| run_prune last h o epoch delay : run last h o -> run last h (with_decided (Prune epoch delay (decidedUpgradeSignals o)) o).

(** The signals of a seat heard in slots that satisfy [Q]. *)
Definition heard (h : Log) (Q : SlotIndex -> Prop) (seat : SeatIndex) (b : SignaledBlock) : Prop := exists s, (s, seat, b) ∈ h /\ Q s.
(** A super majority of the seats has the version as its greatest signal of the epoch. *)
Definition majority (h : Log) (e : EpochIndex) (v : VersionAndHash) : Prop :=
  exists S : Signals, (forall seat, greatest_of (heard h (fun s => EpochFromSlot s = e) seat) (S !! seat))
    /\ IsThresholdReached (supporters_of S v) seatCount SuperMajority = true.

(** The slots whose signals are kept for an uncommitted slot. *)
Definition relevant (last slot s : SlotIndex) : Prop := s = slot \/ slot = last + 1 /\ s <= last /\ EpochFromSlot s = EpochFromSlot slot.
Record inv (last : SlotIndex) (h : Log) o : Prop := {
  iv_last : 0 <= last /\ in_range Uint32 (last + 1);
  iv_log s seat b : (s, seat, b) ∈ h -> in_range Uint32 s;
  iv_latest slot seat : last < slot -> greatest_of (heard h (relevant last slot) seat) (signals_of (latestSignals o) slot !! seat);
  iv_decided e v : kv (decidedUpgradeSignals o) !! e = Some v -> (forall s, in_range Uint32 s -> EpochFromSlot s = e -> s <= last) /\ majority h e v;
}.

Lemma heard_app h b Q seat y : heard (h ++ [b]) Q seat y <-> heard h Q seat y \/ b.1.2 = seat /\ b.2 = y /\ Q b.1.1.
Proof.
  destruct b as [[s st] x]. unfold heard. cbn. split.
  - intros (s' & [Hin|Hin]%elem_of_app & HQ); [left; eauto|]. apply list_elem_of_singleton in Hin. injection Hin as -> -> ->. by right.
  - intros [(s' & Hin & HQ)|(-> & -> & HQ)]; [exists s'|exists s]; (split; [|done]); apply elem_of_app; [by left|right; by apply list_elem_of_singleton].
Qed.

(** An epoch that is over hears no more. *)
Lemma majority_mono h b e v last : last < b.1.1 -> in_range Uint32 b.1.1 -> (forall s, in_range Uint32 s -> EpochFromSlot s = e -> s <= last) -> majority h e v -> majority (h ++ [b]) e v.
Proof.
  intros Hb Hr He (S & HS & Ht). exists S. split; [|done]. intros seat. eapply greatest_ext; [|apply HS]. intros y. rewrite heard_app. split; [by left|].
  intros [?|(_ & _ & Hq)]; [done|]. apply He in Hq; [lia|done].
Qed.

Lemma track_spec block validation o o' : TrackValidationBlock block validation o = Ret o' ->
  o' = match signal_of block validation o with
       | Some (seat, b) => with_latest (<[Slot (ID block) := addNewSignaledBlock seat b (signals_of (latestSignals o) (Slot (ID block)))]> (latestSignals o)) o
       | None => o
       end.
Proof.
  unfold Upgrade.TrackValidationBlock, signal_of. destruct validation as [v|]; [|by intros [= <-]]. cbn [mbind option_bind].
  destruct (committeeFunc _) as [c|]; cbn; [|done]. destruct (GetSeat _ c) as [seat|]; cbn; [|by intros [= <-]]. destruct (epochForVersionFunc _ _); by intros [= <-].
Qed.

Lemma signals_insert st slot m slot' : signals_of (<[slot := m]> st) slot' = if decide (slot' = slot) then m else signals_of st slot'.
Proof. unfold signals_of. case_decide; [subst; by rewrite lookup_insert_eq|by rewrite lookup_insert_ne]. Qed.

Lemma inv_track last h o block validation o' : inv last h o -> in_range Uint32 (Slot (ID block)) -> TrackValidationBlock block validation o = Ret o' ->
  inv last (h ++ log_entry last block validation o) o'.
Proof.
  intros [Hl Hlog Hlat Hdec] Hr ->%track_spec. unfold log_entry. destruct (signal_of block validation o) as [[seat b]|]; [|by rewrite app_nil_r].
  set (slot := Slot (ID block)) in *. case_decide as Hd.
  - split; cbn.
    + done.
    + intros s st x [?|Hin]%elem_of_app; [by eapply Hlog|]. apply list_elem_of_singleton in Hin. by injection Hin as -> _ _.
    + intros slot' seat' Hlt. rewrite signals_insert. case_decide as Hs; [subst slot'|].
      * unfold addNewSignaledBlock. destruct (decide (seat' = seat)) as [->|Hne].
        -- rewrite lookup_insert_eq. eapply greatest_ext; [|apply (greatest_choose (fun y => y = b) (heard h (relevant last slot) seat)); [apply greatest_single|by apply Hlat]].
           intros y. rewrite heard_app. cbn. unfold relevant. naive_solver.
        -- rewrite lookup_insert_ne by done. eapply greatest_ext; [|by apply Hlat]. intros y. rewrite heard_app. cbn. naive_solver.
      * eapply greatest_ext; [|by apply Hlat]. intros y. rewrite heard_app. cbn. split; [by left|]. intros [?|(-> & -> & [?|(_ & ? & _)])]; [done|by subst|lia].
    + intros e v Hv. destruct (Hdec e v Hv) as [H1 H2]. split; [done|]. by eapply majority_mono.
  - rewrite app_nil_r. split; try done. cbn. intros slot' seat' Hlt. rewrite signals_insert. case_decide; [lia|]. by apply Hlat.
Qed.

(** ** Committing *)
Lemma carry_over (S N : Signals) seat :
  foldl (fun m e => addNewSignaledBlock e.1 e.2 m) N (range_of S) !! seat = match S !! seat with Some b => Some (choose b (N !! seat)) | None => N !! seat end.
Proof.
  assert (Hl : forall (l : list (SeatIndex * SignaledBlock)) N, NoDup l.*1 -> foldl (fun m e => addNewSignaledBlock e.1 e.2 m) N l !! seat
    = match (list_to_map l : Signals) !! seat with Some b => Some (choose b (N !! seat)) | None => N !! seat end).
  { intros l. induction l as [|[st b] l IH]; intros N' Hnd; cbn [foldl fst snd]; [by cbn; rewrite lookup_empty|]. cbn in Hnd. apply NoDup_cons in Hnd as [Hn Hnd]. rewrite IH by done. cbn.
    unfold addNewSignaledBlock. destruct (decide (st = seat)) as [->|Hne].
    - rewrite (not_elem_of_list_to_map_1 l seat) by done. by rewrite !lookup_insert_eq.
    - by rewrite !lookup_insert_ne by done. }
  assert (Hnd : NoDup (range_of S).*1) by (rewrite (range_of_perm S); apply NoDup_fst_map_to_list).
  rewrite Hl by done. by rewrite (list_to_map_proper _ _ Hnd (range_of_perm S)), list_to_map_to_list.
Qed.

(** The slots of an epoch before and at a slot. *)
Lemma relevant_epoch last s : 0 <= last -> in_range Uint32 (last + 1) -> in_range Uint32 s ->
  relevant last (last + 1) s <-> EpochFromSlot s = EpochFromSlot (last + 1) /\ s <= last + 1.
Proof. intros H0 H1 Hs. unfold relevant. split; [intros [->|(_ & ? & ?)]; split; done || lia|]. intros [? ?]. destruct (decide (s = last + 1)); [by left|right]. split_and!; lia || done. Qed.

Lemma next_epoch slot : in_range Uint32 slot -> in_range Uint32 (slot + 1) ->
  EpochFromSlot (slot + 1) = if EpochEnd (EpochFromSlot slot) =? slot then EpochFromSlot slot + 1 else EpochFromSlot slot.
Proof.
  intros Hs Hs1. pose proof (EpochFromSlot_ok slot Hs) as Hok. rewrite EpochEnd_eq by done. rewrite !EpochFromSlot_spec by done. pose proof EpochDurationSlots_pos.
  destruct (Z.eqb_spec ((slot / EpochDurationSlots + 1) * EpochDurationSlots - 1) slot) as [E|E].
  - symmetry. apply Z.div_unique with 0; lia.
  - symmetry. apply Z.div_unique with (slot mod EpochDurationSlots + 1).
    + left. pose proof (Z.mod_pos_bound slot EpochDurationSlots). pose proof (Z.div_mod slot EpochDurationSlots). nia.
    + pose proof (Z.div_mod slot EpochDurationSlots). nia.
Qed.

Lemma inv_collect last h o sig o1 : inv last h o -> in_range Uint32 (last + 2) ->
  collect_signals pruned (last + 1) (EpochEnd (EpochFromSlot (last + 1)) =? last + 1) o = (sig, o1) ->
  (forall slot seat, last + 1 < slot -> greatest_of (heard h (relevant (last + 1) slot) seat) (signals_of (latestSignals o1) slot !! seat))
  /\ decidedUpgradeSignals o1 = decidedUpgradeSignals o /\ settings o1 = settings o
  /\ forall S, sig = Some S -> forall seat, greatest_of (heard h (relevant last (last + 1)) seat) (S !! seat).
Proof.
  intros [[H0 H1] Hlog Hlat _] H2. set (slot := last + 1) in *. assert (Hnext : u32 (slot + 1) = slot + 1) by (apply wrap_id; unfold slot, in_range in *; cbn in *; lia).
  assert (Hs1 : in_range Uint32 (slot + 1)) by (unfold slot, in_range in *; cbn in *; lia).
  pose proof (next_epoch slot H1 Hs1) as Hne. unfold collect_signals. rewrite Hpruned, Hnext. set (fin := EpochEnd (EpochFromSlot slot) =? slot) in *.
  set (N := signals_of (delete slot (latestSignals o))). assert (HN : forall slot', slot' <> slot -> N slot' = signals_of (latestSignals o) slot').
  { intros slot' Hd. unfold N, signals_of. by rewrite lookup_delete_ne. }
  set (S0 := signals_of (latestSignals o) slot). assert (HS0 : forall seat, greatest_of (heard h (relevant last slot) seat) (S0 !! seat)) by (intros; apply Hlat; unfold slot; lia).
  assert (Hgt : forall slot' seat, slot < slot' -> slot' <> slot + 1 \/ fin = true -> greatest_of (heard h (relevant slot slot') seat) (N slot' !! seat)).
  { intros slot' seat Hlt Hor. rewrite HN by lia. eapply greatest_ext; [|apply Hlat; unfold slot in *; lia]. intros y. unfold heard, relevant.
    split; intros (s & Hin & [->|(Hx & Hle & He)]); try (by exists slot'; split; [|left]); [unfold slot in *; lia|]. exfalso. destruct Hor as [|Hfin]; [done|]. subst slot'.
    rewrite Hne, Hfin in He. pose proof (EpochFromSlot_mono s slot (Hlog _ _ _ Hin) H1 Hle). lia. }
  assert (Hcarry : fin = false -> forall seat, greatest_of (heard h (relevant slot (slot + 1)) seat) (match S0 !! seat with Some b => Some (choose b (N (slot + 1) !! seat)) | None => N (slot + 1) !! seat end)).
  { intros Hfin seat. specialize (HS0 seat). assert (HNs : greatest_of (heard h (relevant last (slot + 1)) seat) (N (slot + 1) !! seat)) by (rewrite HN by lia; apply Hlat; unfold slot; lia).
    assert (Hiff : forall y, heard h (relevant last slot) seat y \/ heard h (relevant last (slot + 1)) seat y <-> heard h (relevant slot (slot + 1)) seat y).
    { intros y. unfold heard. split.
      - intros [(s & Hin & Hr)|(s & Hin & [->|(? & _)])]; [|exists (slot + 1); split; [done|by left]|unfold slot in *; lia].
        apply relevant_epoch in Hr as [He Hle]; [|done|done|by eapply Hlog]. exists s. split; [done|]. right. rewrite Hne, Hfin. done.
      - intros (s & Hin & [->|(_ & Hle & He)]); [right; exists (slot + 1); split; [done|by left]|left]. exists s. split; [done|].
        apply relevant_epoch; [done|done|by eapply Hlog|]. rewrite Hne, Hfin in He. done. }
    destruct (S0 !! seat) as [b|]; [eapply greatest_ext; [apply Hiff|]; by apply greatest_choose|]. eapply greatest_ext; [|exact HNs]. intros y. rewrite <- Hiff. cbn in HS0. naive_solver. }
  destruct (latestSignals o !! slot) as [S|] eqn:ES.
  - assert (S0 = S) as -> by (unfold S0, signals_of; by rewrite ES). destruct fin eqn:Hfin; intros [= <- <-]; cbn [negb]; (split; [|split; [done|]; split; [done|]; intros S' [= <-]; apply HS0]); cbn.
    + intros slot' seat Hlt. apply Hgt; auto.
    + intros slot' seat Hlt. rewrite signals_insert. case_decide as Hd; [subst; rewrite carry_over; by apply Hcarry|apply Hgt; auto].
  - intros [= <- <-]. split; [|split; [done|]; split; [done|]; intros S' [=]]. intros slot' seat Hlt. cbn. change (greatest_of (heard h (relevant slot slot') seat) (N slot' !! seat)).
    destruct (decide (slot' = slot + 1)) as [->|]; [|apply Hgt; auto]. destruct fin eqn:Hfin; [apply Hgt; auto|]. specialize (Hcarry eq_refl seat).
    assert (S0 = ∅) as Hempty by (unfold S0, signals_of; by rewrite ES). by rewrite Hempty, lookup_empty in Hcarry.
Qed.

(** What tryUpgrade can do. *)
Lemma tryUpgrade_spec e fin sig o o' : tryUpgrade seatCount e fin sig o = o' -> 0 < WindowTargetRatio e ->
  latestSignals o' = latestSignals o
  /\ (o' = o \/ exists S v, fin = true /\ sig = Some S /\ epochForVersionFunc (settings o) (Version v) = None
       /\ IsThresholdReached (supporters_of S v) seatCount SuperMajority = true /\ kv (decidedUpgradeSignals o') = <[e := v]> (kv (decidedUpgradeSignals o))
       /\ (settings o' = settings o \/ exists w, setProtocolParametersEpochMappingFunc (Version w) (Hash w) (u32 (e + ActivationOffset e)) (settings o) = Some (settings o')
            /\ WindowTargetRatio e <= Z.of_nat (length (filter (fun x => kv (decidedUpgradeSignals o') !! x = Some w) (window e))))).
Proof.
  intros <- Hratio. unfold tryUpgrade. destruct sig as [S|]; [|by split; [|left]]. destruct fin; cbn [negb]; [|by split; [|left]].
  destruct (maxVersionByCount (supporters S)) as [v n] eqn:Em. destruct (epochForVersionFunc _ _) eqn:Ev; [by split; [|left]|].
  destruct (IsThresholdReached n seatCount SuperMajority) eqn:Et; cbn [negb]; [|by split; [|left]]. unfold Store_. destruct (isTooOld e _); [by split; [|left]|].
  assert (Hn : supporters_of S v = n \/ n <= 0).
  { destruct (maxVersionByCount_spec _ _ _ Em) as [[_ ->]|[_ Hc]]; [by right|left]. by rewrite <- supporters_count. }
  assert (Hthr : IsThresholdReached (supporters_of S v) seatCount SuperMajority = true).
  { destruct Hn as [->|Hn]; [done|]. unfold IsThresholdReached in *. case_decide; [done|]. destruct (to_int64 _) as [t|]; [|done]. apply Z.ltb_lt in Et. apply Z.ltb_lt. unfold supporters_of. lia. }
  set (o1 := with_decided _ o). unfold signalingThresholdReached. destruct (epoch_versions (window e) (decidedUpgradeSignals o1) ∅) as [m|] eqn:Ee; cbn [mbind option_bind].
  2: { split; [done|]. right. exists S, v. split_and!; try done. by left. }
  destruct (maxVersionByCount m) as [w k] eqn:Ew. destruct (Z.ltb_spec k (WindowTargetRatio e)); [split; [done|]; right; exists S, v; split_and!; try done; by left|].
  destruct (setProtocolParametersEpochMappingFunc _ _ _ _) as [s|] eqn:Es; [|split; [done|]; right; exists S, v; split_and!; try done; by left].
  split; [done|]. right. exists S, v. split_and!; try done. right. exists w. split; [exact Es|]. cbn [with_settings decidedUpgradeSignals].
  destruct (maxVersionByCount_spec _ _ _ Ew) as [[_ ->]|[_ Hc]]; [lia|]. pose proof (epoch_versions_count _ _ _ _ w Ee) as Hle. replace (count ∅ w) with 0 in Hle by done. lia.
Qed.

Lemma inv_commit last h o r o' : (forall e, 0 < WindowTargetRatio e) -> inv last h o -> in_range Uint32 (last + 2) -> Commit (last + 1) o = (r, o') ->
  inv (last + 1) h o' /\ (settings o' = settings o \/ exists w, EpochEnd (EpochFromSlot (last + 1)) = last + 1
    /\ setProtocolParametersEpochMappingFunc (Version w) (Hash w) (u32 (EpochFromSlot (last + 1) + ActivationOffset (EpochFromSlot (last + 1)))) (settings o) = Some (settings o')
    /\ WindowTargetRatio (EpochFromSlot (last + 1)) <= Z.of_nat (length (filter (fun x => kv (decidedUpgradeSignals o') !! x = Some w) (window (EpochFromSlot (last + 1)))))).
Proof.
  intros Hratio Hinv H2 Hc. unfold Upgrade.Commit in Hc. destruct (collect_signals pruned (last + 1) _ o) as [sig o1] eqn:Ec.
  destruct (inv_collect _ _ _ _ _ Hinv H2 Ec) as (Hlat & Hd & Hset & Hsig). destruct Hinv as [[H0 H1] Hlog _ Hdec]. injection Hc as _ Ho.
  destruct (tryUpgrade_spec _ _ _ _ _ Ho (Hratio _)) as [Hl Hcases]. set (cur := EpochFromSlot (last + 1)) in *.
  assert (Hend : EpochEnd cur = last + 1 -> forall s, in_range Uint32 s -> EpochFromSlot s = cur -> s <= last + 1).
  { intros He s Hs Es. apply (EpochFromSlot_iff s cur) in Es; [lia|done|by apply EpochFromSlot_ok]. }
  assert (Hold : forall e v, kv (decidedUpgradeSignals o) !! e = Some v -> (forall s, in_range Uint32 s -> EpochFromSlot s = e -> s <= last + 1) /\ majority h e v).
  { intros e v [Hx Hm]%Hdec. split; [|done]. intros s Hs He. specialize (Hx s Hs He). lia. }
  assert (Hbase : forall o2, latestSignals o2 = latestSignals o1 -> (forall e v, kv (decidedUpgradeSignals o2) !! e = Some v -> (forall s, in_range Uint32 s -> EpochFromSlot s = e -> s <= last + 1) /\ majority h e v) -> inv (last + 1) h o2).
  { intros o2 Hl2 Hd2. split; [split; [lia|unfold in_range in *; cbn in *; lia]|done| |done]. intros slot seat Hlt. rewrite Hl2. by apply Hlat. }
  destruct Hcases as [->|(S & v & Hfin & -> & Hv & Hthr & Hkv & Hs)].
  - split; [apply Hbase; [done|]; by rewrite Hd|]. left. done.
  - apply Z.eqb_eq in Hfin. split.
    + apply Hbase; [done|]. rewrite Hkv, Hd. intros e w [[<- <-]|[_ Hw]]%lookup_insert_Some; [|by apply Hold]. split; [by apply Hend|]. exists S. split; [|done].
      intros seat. eapply greatest_ext; [|by apply Hsig]. intros y. unfold heard. split; intros (s & Hin & Hq); exists s; (split; [done|]).
      * apply relevant_epoch in Hq as [? _]; [done|done|done|by eapply Hlog].
      * apply relevant_epoch; [done|done|by eapply Hlog|]. split; [done|]. apply Hend; [done|by eapply Hlog|done].
    + rewrite <- Hset. destruct Hs as [Hs|(w & Hw & Hn)]; [by left|right]. by exists w.
Qed.

Lemma run_inv last h o : (forall e, 0 < WindowTargetRatio e) -> run last h o -> inv last h o.
Proof.
  intros Hratio. induction 1 as [d1 d2 s|last h o block vb o' _ IH Hr Ht|last h o r o' _ IH H2 Hc|last h o epoch d _ IH].
  - split; [done| | |].
    + intros s' seat b Hin. by apply elem_of_nil in Hin.
    + intros slot seat _. cbn. unfold signals_of. rewrite lookup_empty. cbn. rewrite lookup_empty. intros y (s' & Hin & _). by apply elem_of_nil in Hin.
    + intros e v. cbn. by rewrite lookup_empty.
  - by apply inv_track.
  - by apply (inv_commit last h o r o').
  - destruct IH as [? ? ? Hdec]. split; try done. cbn. intros e v Hv. apply Hdec. destruct (Prune_spec epoch d (decidedUpgradeSignals o)) as [_ Hl]. rewrite Hl in Hv. repeat case_match; done.
Qed.

(** C33 A protocol upgrade needs lasting support: starting from genesis and committing slots in order, with validation blocks tracked and decided epochs pruned at any time, a
    commit changes the scheduled versions only at the end of an epoch, and then schedules a version for the activation offset after that epoch for which, in at least the target number of epochs of the
    signaling window, a super majority of the seats had that version and hash as its greatest signal heard before the slots of the epoch were committed. *)
Theorem upgrade_needs_majorities last h o r o'
  (Hratio : forall e, 0 < WindowTargetRatio e) (Hrun : run last h o) (H2 : in_range Uint32 (last + 2)) (Hc : Commit (last + 1) o = (r, o')) :
  settings o' = settings o
  \/ let e := EpochFromSlot (last + 1) in
     EpochEnd e = last + 1 /\ exists v epochs, setProtocolParametersEpochMappingFunc (Version v) (Hash v) (u32 (e + ActivationOffset e)) (settings o) = Some (settings o')
       /\ NoDup epochs /\ WindowTargetRatio e <= Z.of_nat (length epochs)
       /\ forall x, x ∈ epochs -> signalingWindowStart e <= x <= e /\ majority h x v.
Proof.
  destruct (inv_commit last h o r o' Hratio (run_inv _ _ _ Hratio Hrun) H2 Hc) as [[_ _ _ Hdec] Hs]. destruct Hs as [Hs|(v & He & Hset & Hn)]; [by left|right]. split; [done|].
  exists v, (filter (fun x => kv (decidedUpgradeSignals o') !! x = Some v) (window (EpochFromSlot (last + 1)))). split_and!; try done.
  - apply NoDup_filter, NoDup_seqZ.
  - intros x [Hx Hin]%list_elem_of_filter. split; [|by apply Hdec]. unfold window in Hin. apply elem_of_seqZ in Hin. lia.
Qed.
End Runs.

(** ** Concrete runs *)
Module UpgradeDemo.
#[local] Instance demo_time : TimeProvider := shift_time 1 10.
#[local] Instance demo_time_spec : TimeProviderSpec demo_time := shift_time_spec 1 10 ltac:(done).
#[local] Instance demo_signaling : VersionSignaling := {| WindowSize _ := 3; WindowTargetRatio _ := 2; ActivationOffset _ := 5 |}.
#[local] Instance demo_settings : UpgradeSettings (gmap Z EpochIndex) := {|
  epochForVersionFunc s v := s !! v; setProtocolParametersEpochMappingFunc v h e s := Some (<[v := e]> s); protocolParametersAndVersionsHashFunc s := Some (Z.of_nat (size s)) |}.
#[local] Instance demo_seats : RangeOrder SeatIndex := canonical_order SeatIndex.
#[local] Instance demo_versions : RangeOrder VersionAndHash := canonical_order VersionAndHash.

(** One seat, held by account 7. *)
Definition demo_committee (slot : SlotIndex) : option SeatedAccounts := Some (mkSeated NewAccounts {[7 := 0]}).
Definition demo_block (slot : SlotIndex) : ModelBlock := mkModelBlock (mkBlockID slot slot) 7 (slot * 10) (mkCommitmentID 0 0) Validation [] 0.
Definition signal (v : Z) : Signal := mkSignal v 1.
Definition track (slot v : Z) (o : Orchestrator (gmap Z EpochIndex)) : Orchestrator (gmap Z EpochIndex) :=
  match TrackValidationBlock bid_hash demo_committee (demo_block slot) (Some (signal v)) o with Ret o => o | _ => o end.
Definition commit (slot : SlotIndex) (o : Orchestrator (gmap Z EpochIndex)) := (Commit 1 (fun _ => false) slot o).2.

(** Version 3 runs; version 4 is signaled in the epochs 0 and 1. *)
Definition o0 : Orchestrator (gmap Z EpochIndex) := NewOrchestrator ∅ (NewStore ∅ None 10) {[3 := 0]}.
Definition o1 := track 1 4 o0.
Definition o2 := commit 1 o1.
Definition o3 := track 2 4 o2.
Definition o4 := commit 2 o3.
Definition o5 := commit 3 o4.

Notation entry slot v := (slot, 0, mkSignaledBlock slot (slot * 10) v 1).
Lemma upgrade_demo_run : run bid_hash demo_committee 1 (fun _ => false) 2 [entry 1 4; entry 2 4] o4.
Proof.
  apply (run_commit bid_hash demo_committee 1 (fun _ => false) 1 _ o3 (Some 1)); [|done|vm_compute; reflexivity].
  assert (E2 : log_entry bid_hash demo_committee 1 (demo_block 2) (Some (signal 4)) o2 = [entry 2 4]) by (vm_compute; reflexivity).
  change [entry 1 4; entry 2 4] with ([entry 1 4] ++ [entry 2 4]). rewrite <- E2. apply run_track; [|done|vm_compute; reflexivity].
  apply (run_commit bid_hash demo_committee 1 (fun _ => false) 0 _ o1 (Some 1)); [|done|vm_compute; reflexivity].
  assert (E1 : log_entry bid_hash demo_committee 0 (demo_block 1) (Some (signal 4)) o0 = [entry 1 4]) by (vm_compute; reflexivity).
  change [entry 1 4] with ([] ++ [entry 1 4]). rewrite <- E1. apply run_track; [|done|vm_compute; reflexivity].
  apply run_start.
Qed.

Lemma upgrade_needs_majorities_witness :
  settings o5 <> settings o4 /\ (settings o5 = settings o4
  \/ let e := EpochFromSlot (2 + 1) in
     EpochEnd e = 2 + 1 /\ exists v epochs, setProtocolParametersEpochMappingFunc (Version v) (Hash v) (u32 (e + ActivationOffset e)) (settings o4) = Some (settings o5)
       /\ NoDup epochs /\ WindowTargetRatio e <= Z.of_nat (length epochs)
       /\ forall x, x ∈ epochs -> signalingWindowStart e <= x <= e /\ majority 1 [entry 1 4; entry 2 4] x v).
Proof.
  split; [vm_compute; discriminate|]. apply (upgrade_needs_majorities bid_hash demo_committee 1 (fun _ => false) (fun _ => eq_refl) 2 [entry 1 4; entry 2 4] o4 (Some 2) o5).
  - done.
  - exact upgrade_demo_run.
  - done.
  - vm_compute. reflexivity.
Defined.

(** A scheduled version is scheduled again, later: when epoch 2 is recorded for version 5, version 4 still has the most epochs
    of the window, and its start moves from epoch 6 to epoch 7. *)
Lemma upgrade_rescheduled :
  settings o5 !! 4 = Some 6 /\ settings (commit 5 (commit 4 (track 4 5 o5))) !! 4 = Some 7.
Proof. vm_compute. by split. Qed.
End UpgradeDemo.
