(* ===== verification/Tangle.v ===== *)
(** * Blocks that wait for a commitment (pkg/core/buffer/unsolid_commitment_buffer.go)

    Values are kept per commitment until the slot of the commitment is committed; the number of commitments is limited by
    a cache that drops the least recently used one.

    Parameters: that cache (zyedidia/generic, [LruCache]) and the order in which a set is listed.  A buffer of unlimited size is a
    set; a limited one is a ring buffer that keeps the latest values ([blockBufferMaxSize] > 0).  Locks are left out. *)
From S2P Require Import Prelude Block.

(** cache.Cache: [Put] may drop a key and reports it to the eviction callback. *)
Class LruCache (C : Type) := {
  lru_new : Z -> C;
  lru_put : CommitmentID -> C -> option CommitmentID * C;
  lru_keys : C -> gset CommitmentID;
}.
Class LruCacheSpec (C : Type) `{LruCache C} : Prop := {
  lru_keys_new n : lru_keys (lru_new n) = ∅;
  lru_keys_put id c : lru_keys (lru_put id c).2 = match (lru_put id c).1 with Some d => ({[id]} ∪ lru_keys c) ∖ {[d]} | None => {[id]} ∪ lru_keys c end;
}.

Section Buffer.
Context {V : Type} `{Countable V} `{!RangeOrder V}.

Inductive sized_buffer :=
| SetBuffer (s : gset V)
| RingBuffer (size : Z) (l : list V).
Definition buffer_Add (v : V) (b : sized_buffer) : sized_buffer :=
  match b with
  | SetBuffer s => SetBuffer ({[v]} ∪ s)
  | RingBuffer n l => RingBuffer n (drop (length (l ++ [v]) - Z.to_nat n) (l ++ [v]))
  end.
Definition ToSlice (b : sized_buffer) : list V := match b with SetBuffer s => range_set s | RingBuffer _ l => l end.

Context {C : Type} `{LruCache C}.
Record UnsolidCommitmentBuffer := mkBuffer {
  blockBufferMaxSize : Z;
  buf_lastEvictedSlot : SlotIndex;
  blockBuffers : gmap SlotIndex (gmap CommitmentID sized_buffer);
  commitmentBuffer : C;
}.
Definition NewUnsolidCommitmentBuffer (commitmentBufferMaxSize : Z) (blockBufferMaxSize : option Z) : UnsolidCommitmentBuffer :=
  mkBuffer (default 0 blockBufferMaxSize) 0 ∅ (lru_new commitmentBufferMaxSize).

(** The eviction callback. *)
Definition drop_commitment (id : CommitmentID) (m : gmap SlotIndex (gmap CommitmentID sized_buffer)) : gmap SlotIndex (gmap CommitmentID sized_buffer) :=
  match m !! CommitmentSlot id with Some b => <[CommitmentSlot id := delete id b]> m | None => m end.

Definition buf_add (id : CommitmentID) (value : V) (u : UnsolidCommitmentBuffer) : UnsolidCommitmentBuffer :=
  let slotBuffers := default ∅ (blockBuffers u !! CommitmentSlot id) in
  let buffer := default (if 0 <? blockBufferMaxSize u then RingBuffer (blockBufferMaxSize u) [] else SetBuffer ∅) (slotBuffers !! id) in
  let bufs := <[CommitmentSlot id := <[id := buffer_Add value buffer]> slotBuffers]> (blockBuffers u) in
  let '(dropped, c) := lru_put id (commitmentBuffer u) in
  mkBuffer (blockBufferMaxSize u) (buf_lastEvictedSlot u) (match dropped with Some d => drop_commitment d bufs | None => bufs end) c.
Definition Add (id : CommitmentID) (value : V) (u : UnsolidCommitmentBuffer) : bool * UnsolidCommitmentBuffer :=
  if CommitmentSlot id <=? buf_lastEvictedSlot u then (false, u) else (true, buf_add id value u).
(** [addFunc] is consulted only when the slot is not evicted. *)
Definition AddWithFunc (id : CommitmentID) (value : V) (addFunc : bool) (u : UnsolidCommitmentBuffer) : bool * UnsolidCommitmentBuffer :=
  if CommitmentSlot id <=? buf_lastEvictedSlot u then (false, u)
  else if negb addFunc then (false, u)
  else (true, buf_add id value u).

(** [for slot := lastEvictedSlot + 1; slot <= slotToEvict; slot++] *)
Definition buf_evictUntil (slotToEvict : SlotIndex) (u : UnsolidCommitmentBuffer) : UnsolidCommitmentBuffer :=
  let from := u32 (buf_lastEvictedSlot u + 1) in
  mkBuffer (blockBufferMaxSize u) slotToEvict (foldl (fun m slot => delete slot m) (blockBuffers u) (seqZ from (slotToEvict - from + 1))) (commitmentBuffer u).
Definition buf_EvictUntil (slotToEvict : SlotIndex) (u : UnsolidCommitmentBuffer) : UnsolidCommitmentBuffer := buf_evictUntil slotToEvict u.
Definition GetValues (id : CommitmentID) (u : UnsolidCommitmentBuffer) : list V :=
  match blockBuffers u !! CommitmentSlot id with Some b => match b !! id with Some buffer => ToSlice buffer | None => [] end | None => [] end.
Definition GetValuesAndEvict (id : CommitmentID) (u : UnsolidCommitmentBuffer) : list V * UnsolidCommitmentBuffer :=
  (GetValues id u, buf_evictUntil (CommitmentSlot id) u).

(** ** Properties *)

(** The evicted slots are empty. *)
Definition buffer_ok (u : UnsolidCommitmentBuffer) : Prop :=
  0 <= buf_lastEvictedSlot u /\ forall slot, is_Some (blockBuffers u !! slot) -> buf_lastEvictedSlot u < slot.

Lemma buffer_ok_new n m : buffer_ok (NewUnsolidCommitmentBuffer n m).
Proof. split; [done|]. intros slot. cbn. rewrite lookup_empty. intros [? [=]]. Qed.

Lemma drop_commitment_slots id m slot : is_Some (drop_commitment id m !! slot) <-> is_Some (m !! slot).
Proof.
  unfold drop_commitment. destruct (m !! CommitmentSlot id) as [b|] eqn:E; [|done]. destruct (decide (CommitmentSlot id = slot)) as [<-|Hne].
  - rewrite lookup_insert_eq, E. split; intros _; by eexists.
  - by rewrite lookup_insert_ne.
Qed.

Lemma buf_add_ok id v u : buf_lastEvictedSlot u < CommitmentSlot id -> buffer_ok u -> buffer_ok (buf_add id v u).
Proof.
  intros Hlt [H1 H2]. unfold buf_add. destruct (lru_put id _) as [d c]. split; [done|]. cbn. intros slot Hs.
  assert (Hs' : is_Some (<[CommitmentSlot id := <[id := buffer_Add v (default (if 0 <? blockBufferMaxSize u then RingBuffer (blockBufferMaxSize u) [] else SetBuffer ∅) (default ∅ (blockBuffers u !! CommitmentSlot id) !! id))]> (default ∅ (blockBuffers u !! CommitmentSlot id))]> (blockBuffers u) !! slot)).
  { destruct d; [by apply drop_commitment_slots in Hs|done]. }
  apply lookup_insert_is_Some' in Hs' as [<-|?]; [done|by apply H2].
Qed.

Lemma buf_evictUntil_ok slot u : buf_lastEvictedSlot u <= slot -> in_range Uint32 (buf_lastEvictedSlot u + 1) -> buffer_ok u -> buffer_ok (buf_evictUntil slot u).
Proof.
  intros Hle Hr [H1 H2]. split; [cbn; lia|]. cbn. rewrite (wrap_id Uint32) by done. intros s [m Hs].
  assert (Hd : forall (l : list SlotIndex) (x : gmap SlotIndex (gmap CommitmentID sized_buffer)), foldl (fun m slot => delete slot m) x l !! s = Some m -> s ∉ l /\ x !! s = Some m).
  { intros l. induction l as [|a l IH]; intros x Hx; [split; [set_solver|done]|]. cbn [foldl] in Hx. apply IH in Hx as [Hn Hx]. apply lookup_delete_Some in Hx as [? ?]. split; [set_solver|done]. }
  apply Hd in Hs as [Hn Hs]. rewrite elem_of_seqZ in Hn. assert (buf_lastEvictedSlot u < s) by (apply H2; by eexists). lia.
Qed.
End Buffer.
Arguments sized_buffer V {_ _}.
Arguments UnsolidCommitmentBuffer V {_ _} C.

(** * Solid and booked blocks (engine/blockdag/inmemoryblockdag, engine/booker/inmemorybooker)

    The block DAG attaches blocks to the cache and makes a block solid when all its parents are; the booker books a
    block when all its parents are booked, and gives it the conflicts it inherits.  Both wait for their parents with callbacks
    on the reactive variables of the block objects.

    A callback registered with OnUpdateOnce on a variable that is set already runs at once; setting a variable runs its
    callbacks, in the order they were registered, before [Set] returns.  The nested calls are an agenda of tasks: [run] takes the
    first task, which may put further ones in front.  A callback carries the parent it was registered on, which the code does
    not look at.  Block objects are kept after their slot is evicted from the cache, since callbacks still
    refer to them.

    Parameters: the ledger as the booker sees it ([LedgerView]: the conflict DAG and the transactions of the mempool,
    which may change between operations), the transaction of a block, the end time of a slot, the eviction delay and the
    buffer's cache.  Parents are listed with their types, in the same order everywhere.  Worker pools and locks are left out. *)
From S2P Require Import Eviction BlockCache.

(** What the booker reads of the conflict DAG and of the mempool. *)
Record LedgerView := mkLedgerView {
  ConflictingConflicts : TransactionID -> option (gset TransactionID);
  FutureCone : gset TransactionID -> gset TransactionID;
  UnacceptedConflicts : gset TransactionID -> gset TransactionID;
  TransactionMetadata : TransactionID -> option (option SlotIndex);   (* exists, and the slot it was orphaned in *)
}.

Inductive Var := VSolid | VBooked | VInvalid.
#[export] Instance Var_eq_dec : EqDecision Var.
Proof. solve_decision. Defined.
#[export] Program Instance Var_countable : Countable Var :=
  inj_countable' (fun v => match v with VSolid => 0 | VBooked => 1 | VInvalid => 2 end) (fun z => if z =? 0 then VSolid else if z =? 1 then VBooked else VInvalid) _.
Next Obligation. by intros []. Qed.

Inductive Callback :=
| CountDown (setup : nat) (parent : BlockID)          (* one parent less to wait for *)
| InvalidInDAG (child parent : BlockID)
| InvalidInBooker (child parent : BlockID).
#[export] Instance Callback_eq_dec : EqDecision Callback.
Proof. solve_decision. Defined.

Inductive Event :=
| BlockAttached (id : BlockID) | BlockSolid (id : BlockID) | BlockInvalid (id : BlockID) | BlockMissing (id : BlockID) | MissingBlockAttached (id : BlockID)
| BlockBooked (id : BlockID) | BlockInvalidInBooker (id : BlockID)
| ParentMissing (v : Var) (id parent : BlockID).        (* reported to the error handler by setupBlock *)
Inductive Task := Run (c : Callback) | Emit (e : Event).
Inductive Failure := BlockFailureIsTooOld | BlockFailureParentIsTooOld | BlockFailureParentNotFound | BlockFailurePayloadInvalid.

(** The counter of one call of setupBlock ([VSolid] in the block DAG, [VBooked] in the booker). *)
Record Setup := mkSetup { su_var : Var; su_block : BlockID; su_count : Z }.

Section Tangle.
Context {LC : Type} `{LruCache LC} `{!RangeOrder BlockID} (delay : SlotIndex) (SlotEndTime : SlotIndex -> Z) (txOf : ModelBlock -> option TransactionID).

Record Tangle := mkTangle {
  cache : Blocks;
  detached : gmap BlockID Block;                      (* objects of evicted slots *)
  evictionState : State;
  ledgerView : LedgerView;
  subs : gmap (BlockID * Var) (list Callback);
  setups : list Setup;
  uncommittedSlotBlocks : UnsolidCommitmentBuffer BlockID LC;
  onSignaturesValid : list (BlockID * TransactionID);
  onBooked : list (BlockID * TransactionID);
  tangle_events : list Event;
  failures : list (BlockID * Failure);
}.
Definition with_cache v t := mkTangle v (detached t) (evictionState t) (ledgerView t) (subs t) (setups t) (uncommittedSlotBlocks t) (onSignaturesValid t) (onBooked t) (tangle_events t) (failures t).
Definition with_detached v t := mkTangle (cache t) v (evictionState t) (ledgerView t) (subs t) (setups t) (uncommittedSlotBlocks t) (onSignaturesValid t) (onBooked t) (tangle_events t) (failures t).
Definition with_evictionState v t := mkTangle (cache t) (detached t) v (ledgerView t) (subs t) (setups t) (uncommittedSlotBlocks t) (onSignaturesValid t) (onBooked t) (tangle_events t) (failures t).
Definition with_view v t := mkTangle (cache t) (detached t) (evictionState t) v (subs t) (setups t) (uncommittedSlotBlocks t) (onSignaturesValid t) (onBooked t) (tangle_events t) (failures t).
Definition with_subs v t := mkTangle (cache t) (detached t) (evictionState t) (ledgerView t) v (setups t) (uncommittedSlotBlocks t) (onSignaturesValid t) (onBooked t) (tangle_events t) (failures t).
Definition with_setups v t := mkTangle (cache t) (detached t) (evictionState t) (ledgerView t) (subs t) v (uncommittedSlotBlocks t) (onSignaturesValid t) (onBooked t) (tangle_events t) (failures t).
Definition with_buffer v t := mkTangle (cache t) (detached t) (evictionState t) (ledgerView t) (subs t) (setups t) v (onSignaturesValid t) (onBooked t) (tangle_events t) (failures t).
Definition with_waiting s b t := mkTangle (cache t) (detached t) (evictionState t) (ledgerView t) (subs t) (setups t) (uncommittedSlotBlocks t) s b (tangle_events t) (failures t).
Definition trigger_event e t := mkTangle (cache t) (detached t) (evictionState t) (ledgerView t) (subs t) (setups t) (uncommittedSlotBlocks t) (onSignaturesValid t) (onBooked t) (tangle_events t ++ [e]) (failures t).
Definition retainBlockFailure id f t := mkTangle (cache t) (detached t) (evictionState t) (ledgerView t) (subs t) (setups t) (uncommittedSlotBlocks t) (onSignaturesValid t) (onBooked t) (tangle_events t) (failures t ++ [(id, f)]).

Definition NewTangle (e : State) (view : LedgerView) (buffer : UnsolidCommitmentBuffer BlockID LC) : Tangle := mkTangle NewBlocks ∅ e view ∅ [] buffer [] [] [] [].

(** ** Block objects *)
Definition object (t : Tangle) (id : BlockID) : option Block := match cached (cache t) id with Some b => Some b | None => detached t !! id end.
Definition set_object (id : BlockID) (b : Block) (t : Tangle) : Tangle :=
  match cached (cache t) id with Some _ => with_cache (put id b (cache t)) t | None => with_detached (<[id := b]> (detached t)) t end.
Definition flag (v : Var) (b : Block) : bool := match v with VSolid => solid b | VBooked => booked b | VInvalid => invalid b end.
Definition set_flag (v : Var) (b : Block) : bool * Block := match v with VSolid => SetSolid b | VBooked => SetBooked b | VInvalid => SetInvalid b end.
Definition callbacks (t : Tangle) (id : BlockID) (v : Var) : list Callback := default [] (subs t !! (id, v)).

(** Setting a variable: whether it changed, and the callbacks to run. *)
Definition set_var (v : Var) (id : BlockID) (t : Tangle) : outcome (bool * list Callback * Tangle) :=
  b ← deref (object t id);
  let '(updated, b) := set_flag v b in
  let t := set_object id b t in
  if updated then Ret (true, callbacks t id v, with_subs (delete (id, v) (subs t)) t) else Ret (false, [], t).

(** ** Booking (booker.go) *)
Definition modify_object (id : BlockID) (f : Block -> Block) (t : Tangle) : Tangle := match object t id with Some b => set_object id (f b) t | None => t end.

(** The conflicts of a shallow like parent replace those they conflict with. *)
Definition prefer (view : LedgerView) (conflictIDsToInherit payload : gset TransactionID) : gset TransactionID :=
  foldl (fun acc c => match ConflictingConflicts view c with Some cs => acc ∖ FutureCone view cs | None => acc end) (conflictIDsToInherit ∪ payload) (elements payload).
(** The loop over the parents: [None] is an error; [t] changes only by a retained failure. *)
Fixpoint inherit_parents (id : BlockID) (parents : list (ParentsType * BlockID)) (acc : gset TransactionID) (t : Tangle) : outcome (option (gset TransactionID) * Tangle) :=
  match parents with
  | [] => Ret (Some acc, t)
  | (type, parent) :: parents =>
      p ← BlockOf delay SlotEndTime parent (evictionState t) (cache t);
      match p with
      | None => Ret (None, retainBlockFailure id BlockFailureParentNotFound t)
      | Some parentBlock =>
          match type with
          | StrongParentType => inherit_parents id parents (acc ∪ conflictIDs parentBlock) t
          | WeakParentType => inherit_parents id parents (acc ∪ payloadConflictIDs parentBlock) t
          | ShallowLikeParentType =>
              match modelBlock parentBlock ≫= txOf with
              | Some tx =>
                  if bool_decide (tx ∈ payloadConflictIDs parentBlock) then inherit_parents id parents (prefer (ledgerView t) acc (payloadConflictIDs parentBlock)) t
                  else Ret (None, t)
              | None => Ret (None, t)
              end
          end
      end
  end.
Definition inheritConflicts (id : BlockID) (t : Tangle) : outcome (option (gset TransactionID) * Tangle) :=
  b ← deref (object t id);
  data ← deref (modelBlock b);
  '(acc, t) ← inherit_parents id (ParentsWithType data) ∅ t;
  Ret (option_map (fun acc => UnacceptedConflicts (ledgerView t) (acc ∪ payloadConflictIDs b)) acc, t).

(** A transaction that was orphaned up to the slot the block commits to. *)
Definition orphaned_for (slot : SlotIndex) (meta : option SlotIndex) : bool := match meta with Some orphanedSlot => orphanedSlot <=? slot | None => false end.
(** The conflicts of the block; [None] is an error. *)
Definition book_conflicts (id : BlockID) (t : Tangle) : outcome (option (gset TransactionID) * Tangle) :=
  '(c, t) ← inheritConflicts id t;
  match c with
  | None => Ret (None, t)
  | Some conflictsToInherit =>
      if existsb (fun c => is_none (TransactionMetadata (ledgerView t) c)) (elements conflictsToInherit) then Ret (None, t)
      else
        b ← deref (object t id);
        commitmentID ← block_slotCommitmentID b;
        Ret (Some (filter (fun c => orphaned_for (CommitmentSlot commitmentID) (default None (TransactionMetadata (ledgerView t) c)) = false) conflictsToInherit), t)
  end.

(** ** Running callbacks *)

(** All parents are there: solid, or booked (with the tasks that follow). *)
Definition complete (v : Var) (id : BlockID) (t : Tangle) : outcome (list Task * Tangle) :=
  match v with
  | VBooked =>
      '(c, t) ← book_conflicts id t;
      match c with
      | Some conflictsToInherit =>
          let t := modify_object id (with_conflictIDs conflictsToInherit) t in
          '(_, cbs, t) ← set_var VBooked id t;
          Ret (map Run cbs ++ [Emit (BlockBooked id)], t)
      | None =>
          '(updated, cbs, t) ← set_var VInvalid id t;
          Ret (map Run cbs ++ (if updated : bool then [Emit (BlockInvalidInBooker id)] else []), t)
      end
  | _ =>
      '(updated, cbs, t) ← set_var VSolid id t;
      Ret (map Run cbs ++ (if updated : bool then [Emit (BlockSolid id)] else []), t)
  end.

Definition run_task (task : Task) (t : Tangle) : outcome (list Task * Tangle) :=
  match task with
  | Emit e => Ret ([], trigger_event e t)
  | Run (CountDown i _) =>
      s ← deref (setups t !! i);
      let n := su_count s - 1 in
      let t := with_setups (<[i := mkSetup (su_var s) (su_block s) n]> (setups t)) t in
      if n =? 0 then complete (su_var s) (su_block s) t else Ret ([], t)
  | Run (InvalidInDAG child _) =>
      '(updated, cbs, t) ← set_var VInvalid child t;
      Ret (map Run cbs ++ (if updated : bool then [Emit (BlockInvalid child)] else []), t)
  | Run (InvalidInBooker child _) =>
      '(updated, cbs, t) ← set_var VInvalid child t;
      Ret (map Run cbs ++ (if updated : bool then [Emit (BlockInvalidInBooker child)] else []), t)
  end.

Fixpoint run_tasks (fuel : nat) (agenda : list Task) (t : Tangle) : outcome Tangle :=
  match agenda with
  | [] => Ret t
  | task :: agenda =>
      match fuel with
      | O => OutOfFuel
      | S fuel => '(new, t) ← run_task task t; run_tasks fuel (new ++ agenda) t
      end
  end.

(** A task that runs emits at most one event and moves callbacks from the variables to the agenda. *)
Definition task_weight (task : Task) : nat := match task with Run _ => 2 | Emit _ => 1 end.
Definition agenda_weight (agenda : list Task) : nat := sum_list (task_weight <$> agenda).
Definition subs_weight (t : Tangle) : nat := Z.to_nat (map_sum (fun l => 2 * Z.of_nat (length l)) (subs t)).
Definition run (agenda : list Task) (t : Tangle) : outcome Tangle := run_tasks (agenda_weight agenda + subs_weight t) agenda t.

(** OnUpdateOnce on the variable of the object [b] of block [id], as it is now; the object of a root block is new and nobody else sets its variables. *)
Definition OnUpdateOnce (v : Var) (id : BlockID) (b : Block) (cb : Callback) (t : Tangle) : outcome Tangle :=
  if Block.IsRootBlock b then if flag v b then run [Run cb] t else Ret t
  else if flag v (default b (object t id)) then run [Run cb] t
  else Ret (with_subs (<[(id, v) := callbacks t id v ++ [cb]]> (subs t)) t).

(** One round of the loop of setupBlock: a missing parent is only reported. *)
Definition setup_parent (v : Var) (i : nat) (id parent : BlockID) (t : Tangle) : outcome Tangle :=
  p ← BlockOf delay SlotEndTime parent (evictionState t) (cache t);
  match p with
  | None => Ret (trigger_event (ParentMissing v id parent) t)
  | Some parentBlock =>
      t ← OnUpdateOnce v parent parentBlock (CountDown i parent) t;
      OnUpdateOnce VInvalid parent parentBlock (match v with VBooked => InvalidInBooker id parent | _ => InvalidInDAG id parent end) t
  end.
Fixpoint setup_parents (v : Var) (i : nat) (id : BlockID) (parents : list BlockID) (t : Tangle) : outcome Tangle :=
  match parents with
  | [] => Ret t
  | parent :: parents => t ← setup_parent v i id parent t; setup_parents v i id parents t
  end.
Definition parents_of (data : ModelBlock) : list BlockID := (ParentsWithType data).*2.
(** The counter is an int32, far above the number of parents of a block. *)
Definition setupBlock (v : Var) (id : BlockID) (t : Tangle) : outcome Tangle :=
  b ← deref (object t id);
  data ← deref (modelBlock b);
  let i := length (setups t) in
  let t := with_setups (setups t ++ [mkSetup v id (Z.of_nat (length (parents_of data)))]) t in
  setup_parents v i id (parents_of data) t.

(** ** The block DAG (blockdag.go) *)
Fixpoint canAttachToParents (id : BlockID) (parents : list BlockID) (t : Tangle) : outcome (bool * Tangle) :=
  match parents with
  | [] => Ret (true, t)
  | parent :: parents =>
      old ← InRootBlockSlot delay parent (evictionState t);
      root ← Eviction.IsRootBlock delay parent (evictionState t);
      if old && negb root then Ret (false, retainBlockFailure id BlockFailureParentIsTooOld t) else canAttachToParents id parents t
  end.
(** Whether to attach, and whether there is an error. *)
Definition shouldAttach (data : ModelBlock) (t : Tangle) : outcome (bool * bool * Tangle) :=
  old ← InRootBlockSlot delay (ID data) (evictionState t);
  root ← Eviction.IsRootBlock delay (ID data) (evictionState t);
  if old && negb root then Ret (false, true, retainBlockFailure (ID data) BlockFailureIsTooOld t)
  else
    stored ← BlockOf delay SlotEndTime (ID data) (evictionState t) (cache t);
    if match stored with Some b => negb (missing b) | None => false end then Ret (false, false, t)
    else
      '(parentsValid, t) ← canAttachToParents (ID data) (parents_of data) t;
      match stored with
      | Some _ =>
          if negb parentsValid then
            '(_, cbs, t) ← set_var VInvalid (ID data) t;
            t ← run (map Run cbs) t;
            Ret (false, true, t)
          else Ret (true, false, t)
      | None => Ret (true, false, t)
      end.

Definition GetOrRequestBlock (id : BlockID) (t : Tangle) : option Block * Tangle :=
  let '((b, created), c) := GetOrCreate id (NewMissingBlock id) (evictionState t) (cache t) in
  (b, let t := with_cache c t in if created then trigger_event (BlockMissing id) t else t).
Definition registerChild (child : BlockID) (parent : ParentsType * BlockID) (t : Tangle) : outcome Tangle :=
  root ← Eviction.IsRootBlock delay parent.2 (evictionState t);
  if root : bool then Ret t
  else
    let '(parentBlock, t) := GetOrRequestBlock parent.2 t in
    Ret match parentBlock with Some b => set_object parent.2 (AppendChild child parent.1 b) t | None => t end.
Fixpoint registerChildren (child : BlockID) (parents : list (ParentsType * BlockID)) (t : Tangle) : outcome Tangle :=
  match parents with
  | [] => Ret t
  | parent :: parents => t ← registerChild child parent t; registerChildren child parents t
  end.
(** Whether the block was attached. *)
Definition attach (data : ModelBlock) (t : Tangle) : outcome (bool * Tangle) :=
  '(should, _, t) ← shouldAttach data t;
  if negb should then Ret (false, t)
  else
    let '((_, evicted, updated), c) := StoreOrUpdate data (evictionState t) (cache t) in
    let t := with_cache c t in
    if evicted then Ret (false, retainBlockFailure (ID data) BlockFailureIsTooOld t)
    else
      let t := if updated then trigger_event (MissingBlockAttached (ID data)) t else t in
      t ← registerChildren (ID data) (ParentsWithType data) t;
      Ret (true, t).
Definition Attach (latestCommittedSlot : SlotIndex) (data : ModelBlock) (t : Tangle) : outcome (bool * Tangle) :=
  '(wasAttached, t) ← attach data t;
  if negb wasAttached then Ret (false, t)
  else
    let t := trigger_event (BlockAttached (ID data)) t in
    let '(added, u) := AddWithFunc (SlotCommitmentID data) (ID data) (latestCommittedSlot <? CommitmentSlot (SlotCommitmentID data)) (uncommittedSlotBlocks t) in
    let t := with_buffer u t in
    if added : bool then Ret (true, t) else t ← setupBlock VSolid (ID data) t; Ret (true, t).
(** The hook on new commitments. *)
Fixpoint setupBlocks (ids : list BlockID) (t : Tangle) : outcome Tangle :=
  match ids with [] => Ret t | id :: ids => t ← setupBlock VSolid id t; setupBlocks ids t end.
Definition LatestCommitmentUpdated (commitment : CommitmentID) (t : Tangle) : outcome Tangle :=
  let '(ids, u) := GetValuesAndEvict commitment (uncommittedSlotBlocks t) in
  setupBlocks ids (with_buffer u t).

(** ** The booker *)

(** What AttachTransaction returns. *)
Inductive attach_result := NoTransaction | NotAttached | AttachedTransaction (tx : TransactionID).
(** Returns false for the error. *)
Definition Queue (id : BlockID) (r : attach_result) (t : Tangle) : outcome (bool * Tangle) :=
  match r with
  | NoTransaction => t ← setupBlock VBooked id t; Ret (true, t)
  | NotAttached => Ret (false, retainBlockFailure id BlockFailurePayloadInvalid t)
  | AttachedTransaction tx => Ret (true, with_waiting (onSignaturesValid t ++ [(id, tx)]) (onBooked t) t)
  end.
(** The callbacks on the transaction. *)
Definition SignaturesValid (id : BlockID) (tx : TransactionID) (t : Tangle) : outcome Tangle :=
  b ← deref (object t id);
  commitmentID ← block_slotCommitmentID b;
  let t := with_waiting (filter (fun w => w <> (id, tx)) (onSignaturesValid t)) (onBooked t) t in
  if orphaned_for (CommitmentSlot commitmentID) (default None (TransactionMetadata (ledgerView t) tx)) then
    '(_, cbs, t) ← set_var VInvalid id t;
    run (map Run cbs) t
  else Ret (with_waiting (onSignaturesValid t) (onBooked t ++ [(id, tx)]) t).
Definition TransactionBooked (id : BlockID) (tx : TransactionID) (conflictIDs : gset TransactionID) (t : Tangle) : outcome Tangle :=
  let t := with_waiting (onSignaturesValid t) (filter (fun w => w <> (id, tx)) (onBooked t)) t in
  setupBlock VBooked id (modify_object id (with_payloadConflictIDs conflictIDs) t).

(** ** Eviction: the objects of the slot leave the cache *)
Definition EvictSlot (slot : SlotIndex) (e : State) (t : Tangle) : Tangle :=
  with_evictionState e (with_cache (EvictUntil slot (cache t)) (with_detached (blocks_in (cache t) slot ∪ detached t) t)).
End Tangle.
Arguments Tangle LC : clear implicits.
