(* ===== verification/TangleProps.v ===== *)
(** * When blocks are solid, booked and invalid

    In every reachable state a set up block is solid exactly when all its parents are solid or were root blocks
    (unless a parent was missing when it was set up), a booked block has only such parents, and a block with an invalid parent is invalid. *)
From S2P Require Import Prelude Block Eviction BlockCache Tangle.

Section Props.
Context {LC : Type} `{LruCache LC}.
Implicit Types t : Tangle LC.

(** ** Objects *)
Lemma object_set_object id b t j : object (set_object id b t) j = if decide (j = id) then Some b else object t j.
Proof.
  unfold object, set_object. destruct (cached (cache t) id) as [b0|] eqn:E; cbn.
  - rewrite cached_put. by case_decide.
  - case_decide as Hd; [subst; rewrite E; by rewrite lookup_insert_eq|]. by rewrite lookup_insert_ne.
Qed.
Lemma set_object_fields id b t :
  subs (set_object id b t) = subs t /\ setups (set_object id b t) = setups t /\ tangle_events (set_object id b t) = tangle_events t /\ evictionState (set_object id b t) = evictionState t
  /\ ledgerView (set_object id b t) = ledgerView t.
Proof. unfold set_object. by destruct (cached (cache t) id). Qed.

Lemma flag_set_flag v w b : flag w (set_flag v b).2 = (if decide (w = v) then true else flag w b).
Proof. by destruct v, w. Qed.
Lemma set_flag_keeps v b : modelBlock (set_flag v b).2 = modelBlock b /\ missing (set_flag v b).2 = missing b /\ rootBlk (set_flag v b).2 = rootBlk b.
Proof. by destruct v. Qed.

Definition is_set t (v : Var) (id : BlockID) : Prop := exists b, object t id = Some b /\ flag v b = true.

Lemma set_var_spec v id t u cbs t' : set_var v id t = Ret (u, cbs, t') ->
  exists b, object t id = Some b /\ u = negb (flag v b) /\ (forall j, object t' j = if decide (j = id) then Some (set_flag v b).2 else object t j)
    /\ setups t' = setups t /\ tangle_events t' = tangle_events t /\ evictionState t' = evictionState t /\ ledgerView t' = ledgerView t
    /\ cbs = (if u then callbacks t id v else []) /\ subs t' = (if u then delete (id, v) (subs t) else subs t).
Proof.
  unfold set_var. intros (b & Hb%deref_Ret & Hr)%bind_Ret. exists b. split; [done|]. destruct (set_flag v b) as [updated b'] eqn:Ef.
  pose proof (set_object_fields id b' t) as (H1 & H2 & H3 & H4 & H5). assert (updated = negb (flag v b)) as Hu by (by destruct v; cbn in Ef; injection Ef as <- _).
  destruct updated; injection Hr as <- <- <-; cbn; (split; [done|]).
  - split; [intros j; apply object_set_object|]. unfold callbacks. rewrite H1. by split_and!.
  - split; [intros j; apply object_set_object|]. by split_and!.
Qed.

(** ** Counting the callbacks of a setup *)
Definition counts (i : nat) (c : Callback) : Prop := match c with CountDown j _ => j = i | _ => False end.
#[local] Instance counts_dec i c : Decision (counts i c).
Proof. destruct c; cbn; apply _. Defined.
Definition cnt (i : nat) (l : list Callback) : Z := Z.of_nat (length (filter (counts i) l)).
Definition subs_cnt (i : nat) t : Z := map_sum (cnt i) (subs t).

Lemma cnt_nil i : cnt i [] = 0.
Proof. done. Qed.
Lemma cnt_app i l1 l2 : cnt i (l1 ++ l2) = cnt i l1 + cnt i l2.
Proof. unfold cnt. rewrite filter_app, length_app. lia. Qed.
Lemma cnt_cons i c l : cnt i (c :: l) = (if decide (counts i c) then 1 else 0) + cnt i l.
Proof. unfold cnt. rewrite filter_cons. case_decide; cbn [length]; lia. Qed.
Lemma cnt_nonneg i l : 0 <= cnt i l.
Proof. unfold cnt. lia. Qed.
Lemma subs_cnt_nonneg i t : 0 <= subs_cnt i t.
Proof. apply map_sum_nonneg. intros. apply cnt_nonneg. Qed.
Lemma cnt_pos i p l : CountDown i p ∈ l -> 0 < cnt i l.
Proof.
  intros Hin. induction l as [|c l IH]; [by apply elem_of_nil in Hin|]. rewrite cnt_cons. pose proof (cnt_nonneg i l). apply elem_of_cons in Hin as [<-|Hin]; [rewrite decide_True by done; lia|].
  specialize (IH Hin). case_decide; lia.
Qed.
Lemma cnt_pos_inv i l : 0 < cnt i l -> exists p, CountDown i p ∈ l.
Proof.
  induction l as [|c l IH]; [done|]. rewrite cnt_cons. destruct (decide (counts i c)) as [Hc|_].
  - intros _. destruct c as [k q|? ?|? ?]; [|done..]. cbn in Hc. subst k. exists q. by left.
  - intros Hl. destruct IH as [p Hp]; [lia|]. exists p. by right.
Qed.
Lemma subs_cnt_pos i t : 0 < subs_cnt i t -> exists j w p, CountDown i p ∈ callbacks t j w.
Proof.
  intros Hp. destruct (map_sum_pos (cnt i) (subs t)) as ([j w] & l & Hl & Hpos); [intros; apply cnt_nonneg|done|]. apply cnt_pos_inv in Hpos as [p Hin].
  exists j, w, p. unfold callbacks. by rewrite Hl.
Qed.
Lemma subs_cnt_in i t p j w : CountDown i p ∈ callbacks t j w -> 0 < subs_cnt i t.
Proof.
  unfold callbacks. destruct (subs t !! (j, w)) as [l|] eqn:E; cbn [default]; [|intros Hin; by apply elem_of_nil in Hin]. intros Hin%cnt_pos. unfold subs_cnt.
  pose proof (map_sum_delete (cnt i) (subs t) _ _ E) as Hd. pose proof (map_sum_nonneg (cnt i) (delete (j, w) (subs t))) as Hn. unfold Datatypes.id in *. specialize (Hn (fun _ _ _ => cnt_nonneg i _)). lia.
Qed.
Lemma subs_cnt_delete i id v t : map_sum (cnt i) (delete (id, v) (subs t)) = subs_cnt i t - cnt i (callbacks t id v).
Proof.
  unfold subs_cnt, callbacks. destruct (subs t !! (id, v)) as [l|] eqn:E; cbn [default].
  - by rewrite (map_sum_delete _ _ _ l).
  - rewrite delete_id by done. rewrite cnt_nil. lia.
Qed.
Lemma subs_cnt_append i id v cb t : map_sum (cnt i) (<[(id, v) := callbacks t id v ++ [cb]]> (subs t)) = subs_cnt i t + (if decide (counts i cb) then 1 else 0).
Proof.
  unfold subs_cnt, callbacks. destruct (subs t !! (id, v)) as [l|] eqn:E; cbn [default].
  - unfold Datatypes.id. rewrite (map_sum_insert _ _ _ _ l) by done. rewrite cnt_app, cnt_cons, cnt_nil. lia.
  - rewrite map_sum_insert_None by done. rewrite cnt_app, cnt_cons, !cnt_nil. lia.
Qed.
Lemma callbacks_delete t id v j w : default [] (delete (id, v) (subs t) !! (j, w)) = if decide ((j, w) = (id, v)) then [] else callbacks t j w.
Proof. unfold callbacks. case_decide as Hd; [rewrite Hd; by rewrite lookup_delete_eq|]. by rewrite lookup_delete_ne. Qed.

(** ** The invariant

    [R] are the blocks that were root blocks at some time, [ag] the callbacks about to run; [extra] are the parents of a setup
    that are missing or not looked at yet, [todo] those whose validity is not watched; [ex] is a setup that is being completed. *)
Definition sat (R : BlockID -> Prop) t (v : Var) (p : BlockID) : Prop := R p \/ is_set t v p.
Definition inv_cb (s : Setup) (p : BlockID) : Callback := match su_var s with VBooked => InvalidInBooker (su_block s) p | _ => InvalidInDAG (su_block s) p end.

Record TInv (R : BlockID -> Prop) (extra todo : nat -> list BlockID) (ex : option nat) (ag : list Callback) t : Prop := {
  ti_subs id v cb : cb ∈ callbacks t id v -> (exists b, object t id = Some b /\ flag v b = false)
    /\ match cb with CountDown i p => p = id /\ exists s, setups t !! i = Some s /\ su_var s = v | InvalidInDAG _ p | InvalidInBooker _ p => p = id /\ v = VInvalid end;
  ti_agenda i p : CountDown i p ∈ ag -> exists s, setups t !! i = Some s /\ sat R t (su_var s) p;
  ti_count i s : setups t !! i = Some s -> su_count s = cnt i ag + subs_cnt i t + Z.of_nat (length (extra i));
  ti_setup i s : setups t !! i = Some s -> su_var s <> VInvalid /\ exists b data, object t (su_block s) = Some b /\ missing b = false /\ modelBlock b = Some data
    /\ (forall p v, p ∈ extra i \/ CountDown i p ∈ callbacks t p v -> p ∈ parents_of data)
    /\ forall p, p ∈ parents_of data -> (sat R t (su_var s) p \/ CountDown i p ∈ callbacks t p (su_var s) \/ p ∈ extra i)
         /\ (p ∈ todo i \/ R p \/ inv_cb s p ∈ callbacks t p VInvalid \/ inv_cb s p ∈ ag \/ is_set t VInvalid (su_block s));
  ti_done i s b data : setups t !! i = Some s -> ex <> Some i -> su_count s = 0 -> object t (su_block s) = Some b -> modelBlock b = Some data -> parents_of data <> [] ->
    is_set t (su_var s) (su_block s) \/ su_var s = VBooked /\ is_set t VInvalid (su_block s);
  ti_flag v id : v <> VInvalid -> is_set t v id -> exists i s, setups t !! i = Some s /\ su_var s = v /\ su_block s = id /\ su_count s = 0;
  ti_object id b : object t id = Some b -> (missing b = true -> modelBlock b = None) /\ rootBlk b = None;
}.

(** ** Setting a variable *)
Section SetVar.
Context (R : BlockID -> Prop) (extra todo : nat -> list BlockID).

Lemma is_set_mono v id t u cbs t' w j : set_var v id t = Ret (u, cbs, t') -> is_set t w j -> is_set t' w j.
Proof.
  intros (b & Hb & _ & Hobj & _)%set_var_spec (b0 & Hj & Hf). unfold is_set. rewrite Hobj. case_decide as Hd; [subst|by exists b0].
  exists (set_flag v b).2. split; [done|]. rewrite flag_set_flag. case_decide; [done|]. congruence.
Qed.
Lemma is_set_inv v id t u cbs t' w j : set_var v id t = Ret (u, cbs, t') -> is_set t' w j -> is_set t w j \/ w = v /\ j = id.
Proof.
  intros (b & Hb & _ & Hobj & _)%set_var_spec (b0 & Hj & Hf). rewrite Hobj in Hj. case_decide as Hd; [|left; by exists b0]. injection Hj as <-. rewrite flag_set_flag in Hf.
  case_decide; [by right|]. left. exists b. by subst.
Qed.
Lemma is_set_set v id t u cbs t' : set_var v id t = Ret (u, cbs, t') -> is_set t' v id.
Proof. intros (b & Hb & _ & Hobj & _)%set_var_spec. exists (set_flag v b).2. rewrite Hobj, decide_True by done. split; [done|]. by rewrite flag_set_flag, decide_True. Qed.
Lemma sat_mono v id t u cbs t' w j : set_var v id t = Ret (u, cbs, t') -> sat R t w j -> sat R t' w j.
Proof. intros Hs [?|?]; [by left|right]. by eapply is_set_mono. Qed.

(** Setting the variable [v] of [id] moves its callbacks to the agenda; the callbacks of [ag0] that are not in [ag] wanted [id] to be invalid. *)
Lemma set_var_inv ex v id ag0 ag t u cbs t' :
  TInv R extra todo ex ag0 t -> set_var v id t = Ret (u, cbs, t') ->
  (forall cb, cb ∈ ag -> cb ∈ ag0) -> (forall i, cnt i ag = cnt i ag0) ->
  (forall cb, cb ∈ ag0 -> cb ∈ ag \/ v = VInvalid /\ exists p, cb = InvalidInDAG id p \/ cb = InvalidInBooker id p) ->
  (v <> VInvalid -> exists i s, setups t !! i = Some s /\ su_var s = v /\ su_block s = id /\ su_count s = 0) ->
  TInv R extra todo ex (cbs ++ ag) t'.
Proof.
  intros [Hsubs Hag Hcount Hsetup Hdone Hflag Hobj] Hset Hsub Hcnt Hrest Hv. pose proof (set_var_spec _ _ _ _ _ _ Hset) as (b & Hb & Hu & Ho & Hst & _ & _ & _ & Hcbs & Hsb).
  assert (Hcb : forall j w, callbacks t' j w = if u && bool_decide ((j, w) = (id, v)) then [] else callbacks t j w).
  { intros j w. unfold callbacks at 1. rewrite Hsb. destruct u; cbn [andb]; [|done]. rewrite callbacks_delete. case_decide; [by rewrite bool_decide_eq_true_2|by rewrite bool_decide_eq_false_2]. }
  assert (Hnew : forall cb, cb ∈ cbs -> cb ∈ callbacks t id v) by (intros cb; rewrite Hcbs; destruct u; set_solver).
  assert (Hmoved : forall cb j w, cb ∈ callbacks t j w -> cb ∈ callbacks t' j w \/ cb ∈ cbs /\ j = id /\ w = v).
  { intros cb j w Hin. rewrite Hcb. destruct u; cbn [andb]; [|by left]. case_bool_decide as Hd; [right|by left]. injection Hd as -> ->. rewrite Hcbs. done. }
  split.
  - intros j w cb Hin. rewrite Hcb in Hin. destruct (u && bool_decide ((j, w) = (id, v))) eqn:E; [by apply elem_of_nil in Hin|]. destruct (Hsubs j w cb Hin) as [(b0 & Hb0 & Hf) Hm]. rewrite Hst. split; [|done].
    rewrite Ho. destruct (decide (j = id)) as [Hd|Hd]; [|by exists b0]. subst j. eexists. split; [done|]. rewrite flag_set_flag. rewrite Hb in Hb0. injection Hb0 as <-. destruct (decide (w = v)); [subst w|done].
    rewrite Hf in Hu. cbn in Hu. rewrite Hu in E. cbn in E. by rewrite bool_decide_eq_true_2 in E.
  - intros i p [Hin|Hin]%elem_of_app; rewrite Hst.
    + destruct (Hsubs id v _ (Hnew _ Hin)) as [_ [-> (s & Hs & Hv')]]. exists s. split; [done|]. right. rewrite Hv'. by eapply is_set_set.
    + destruct (Hag i p (Hsub _ Hin)) as (s & Hs & Hsat). exists s. split; [done|]. by eapply sat_mono.
  - intros i s. rewrite Hst. intros Hs. rewrite (Hcount i s Hs), cnt_app, <- Hcnt. unfold subs_cnt at 2. rewrite Hsb, Hcbs. destruct u; [rewrite subs_cnt_delete; lia|rewrite cnt_nil; unfold subs_cnt; lia].
  - intros i s. rewrite Hst. intros Hs. destruct (Hsetup i s Hs) as (Hnv & b0 & data & Hb0 & Hmi & Hmo & Hpar & Hp). split; [done|].
    exists (if decide (su_block s = id) then (set_flag v b).2 else b0), data. rewrite Ho. destruct (set_flag_keeps v b) as (Hk1 & Hk2 & _). split_and!; [by case_decide| | | |].
    + case_decide as Hd; [|done]. rewrite Hk2. rewrite Hd, Hb in Hb0. by injection Hb0 as ->.
    + case_decide as Hd; [|done]. rewrite Hk1. rewrite Hd, Hb in Hb0. by injection Hb0 as ->.
    + intros p w [?|Hin]; [apply (Hpar p w); by left|]. apply (Hpar p w). right. rewrite Hcb in Hin. destruct (u && _); [by apply elem_of_nil in Hin|done].
    + intros p Hin. destruct (Hp p Hin) as [H1 H2]. split.
      * destruct H1 as [H1|[H1|H1]]; [left; by eapply sat_mono| |auto]. destruct (Hmoved _ _ _ H1) as [?|(_ & -> & Hw)]; [auto|]. left. right. rewrite Hw. by eapply is_set_set.
      * destruct H2 as [H2|[H2|[H2|[H2|H2]]]]; [auto|auto| | |right; right; right; right; by eapply is_set_mono].
        -- destruct (Hmoved _ _ _ H2) as [?|(? & _)]; [auto|]. right; right; right; left. apply elem_of_app. by left.
        -- destruct (Hrest _ H2) as [?|(Hvi & q & Hq)]; [right; right; right; left; apply elem_of_app; by right|]. right; right; right; right. subst v.
           assert (su_block s = id) as -> by (unfold inv_cb in Hq; destruct (su_var s), Hq as [Hq|Hq]; first [discriminate Hq|by injection Hq]). by eapply is_set_set.
  - intros i s b1 data. rewrite Hst. intros Hs Hex Hz Hb1 Hmo Hne. destruct (Hsetup i s Hs) as (_ & b0 & data0 & Hb0 & _ & Hmo0 & _).
    assert (data0 = data) as -> by (rewrite Ho in Hb1; case_decide as Hd; [rewrite Hd, Hb in Hb0; injection Hb0 as <-; injection Hb1 as <-; rewrite (proj1 (set_flag_keeps v b)) in Hmo; congruence|rewrite Hb1 in Hb0; injection Hb0 as <-; congruence]).
    destruct (Hdone i s b0 data Hs Hex Hz Hb0 Hmo0 Hne) as [?|[? ?]]; [left|right; split; [done|]]; by eapply is_set_mono.
  - intros w j Hw Hj. rewrite Hst. destruct (is_set_inv _ _ _ _ _ _ _ _ Hset Hj) as [Hj0|[-> ->]]; [by apply Hflag|by apply Hv].
  - intros j b1. rewrite Ho. case_decide as Hd; [|by apply Hobj]. intros [= <-]. destruct (set_flag_keeps v b) as (-> & -> & ->). by apply (Hobj id).
Qed.
End SetVar.

(** ** Changes the invariant does not see *)
Record frame t t' : Prop := {
  fr_subs : subs t' = subs t;
  fr_setups : setups t' = setups t;
  fr_object id : match object t id with
    | Some b => exists b', object t' id = Some b' /\ (forall v, flag v b' = flag v b) /\ (missing b = false -> missing b' = false /\ modelBlock b' = modelBlock b)
        /\ (missing b' = true -> missing b = true /\ modelBlock b' = modelBlock b) /\ rootBlk b' = rootBlk b
    | None => forall b', object t' id = Some b' -> (forall v, flag v b' = false) /\ (missing b' = true -> modelBlock b' = None) /\ rootBlk b' = None
    end;
}.

Lemma frame_refl t : frame t t.
Proof. split; [done..|]. intros id. destruct (object t id) as [b|] eqn:E; [exists b; naive_solver|]. congruence. Qed.
Lemma frame_same t t' : subs t' = subs t -> setups t' = setups t -> (forall id, object t' id = object t id) -> frame t t'.
Proof. intros H1 H2 H3. split; [done..|]. intros id. rewrite H3. apply (fr_object _ _ (frame_refl t)). Qed.
Lemma frame_trans t1 t2 t3 : frame t1 t2 -> frame t2 t3 -> frame t1 t3.
Proof.
  intros [A1 A2 A3] [B1 B2 B3]. split; [congruence..|]. intros id. specialize (A3 id). specialize (B3 id). destruct (object t1 id) as [b1|].
  - destruct A3 as (b2 & E2 & F2 & G2 & K2 & L2). rewrite E2 in B3. destruct B3 as (b3 & E3 & F3 & G3 & K3 & L3). exists b3. split; [done|]. split; [intros; by rewrite F3|].
    split; [intros Hm; destruct (G2 Hm) as [Hm2 Hd]; destruct (G3 Hm2) as [? ?]; split; [done|congruence]|]. split; [intros Hm; destruct (K3 Hm) as [Hm2 ?]; destruct (K2 Hm2); split; [done|congruence]|congruence].
  - intros b3 E3. destruct (object t2 id) as [b2|].
    + destruct (A3 b2 eq_refl) as (F2 & G2 & L2). destruct B3 as (b3' & E3' & F3 & _ & K3 & L3). rewrite E3 in E3'. injection E3' as <-. split; [intros; by rewrite F3|].
      split; [intros Hm; destruct (K3 Hm) as [? ->]; auto|congruence].
    + by apply B3.
Qed.
(** A changed object that keeps its flags and data. *)
Lemma frame_set_object id b b' t : object t id = Some b -> (forall v, flag v b' = flag v b) -> missing b' = missing b -> modelBlock b' = modelBlock b -> rootBlk b' = rootBlk b ->
  frame t (set_object id b' t).
Proof.
  intros Hb Hf Hm Hd Hr. destruct (set_object_fields id b' t) as (H1 & H2 & _). split; [done..|]. intros j. rewrite object_set_object. destruct (decide (j = id)) as [->|].
  - rewrite Hb. exists b'. split; [done|]. split; [done|]. split; [by rewrite Hm|]. split; [by rewrite Hm|done].
  - apply (fr_object _ _ (frame_refl t)).
Qed.

Lemma frame_is_set t t' v id : frame t t' -> is_set t' v id <-> is_set t v id.
Proof.
  intros [_ _ Ho]. specialize (Ho id). unfold is_set. destruct (object t id) as [b|].
  - destruct Ho as (b' & Hb' & Hf & _). rewrite Hb'. split; intros (x & [= <-] & Hx); eexists; (split; [done|]); [by rewrite <- Hf|by rewrite Hf].
  - split; [|intros (b & Hb & _); done]. intros (b & Hb & Hx). destruct (Ho b Hb) as [Hf _]. by rewrite Hf in Hx.
Qed.

Lemma frame_inv R extra todo ex ag t t' : frame t t' -> TInv R extra todo ex ag t -> TInv R extra todo ex ag t'.
Proof.
  intros Hfr [Hsubs Hag Hcount Hsetup Hdone Hflag Hobj]. pose proof Hfr as [Hsb Hst Ho].
  assert (Hcb : forall j w, callbacks t' j w = callbacks t j w) by (intros; unfold callbacks; by rewrite Hsb).
  assert (Hsat : forall v p, sat R t' v p <-> sat R t v p) by (intros; unfold sat; by rewrite (frame_is_set t t') by done).
  assert (Hdata : forall i s, setups t !! i = Some s -> exists b b' data, object t (su_block s) = Some b /\ object t' (su_block s) = Some b' /\ missing b' = false /\ modelBlock b = Some data /\ modelBlock b' = Some data).
  { intros i s Hs. destruct (Hsetup i s Hs) as (_ & b & data & Hb & Hmi & Hmo & _). specialize (Ho (su_block s)). rewrite Hb in Ho. destruct Ho as (b' & Hb' & _ & Hk & _). destruct (Hk Hmi). exists b, b', data. split_and!; congruence. }
  split.
  - intros j w cb. rewrite Hcb, Hst. intros [(b & Hb & Hf) Hm]%Hsubs. split; [|done]. specialize (Ho j). rewrite Hb in Ho. destruct Ho as (b' & Hb' & Hf' & _). exists b'. split; [done|]. by rewrite Hf'.
  - intros i p (s & Hs & Hp)%Hag. exists s. rewrite Hst. split; [done|]. by apply Hsat.
  - intros i s. rewrite Hst. intros Hs. rewrite (Hcount i s Hs). unfold subs_cnt. by rewrite Hsb.
  - intros i s. rewrite Hst. intros Hs. destruct (Hdata i s Hs) as (b & b' & data & Hb & Hb' & Hmi & Hmo & Hmo'). destruct (Hsetup i s Hs) as (Hnv & b0 & data0 & Hb0 & _ & Hmo0 & Hpar & Hp). split; [done|].
    rewrite Hb in Hb0. injection Hb0 as <-. rewrite Hmo in Hmo0. injection Hmo0 as <-. exists b', data. split_and!; try done; [intros p w; rewrite Hcb; apply Hpar|]. intros p Hin. rewrite !Hcb, Hsat, (frame_is_set t t') by done. by apply Hp.
  - intros i s b1 data1. rewrite Hst. intros Hs Hex Hz Hb1 Hmo1 Hne. destruct (Hdata i s Hs) as (b & b' & data & Hb & Hb' & Hmi & Hmo & Hmo'). rewrite !(frame_is_set t t') by done.
    eapply Hdone; try done. congruence.
  - intros v id Hv. rewrite (frame_is_set t t'), Hst by done. by apply Hflag.
  - intros id b' Hb'. specialize (Ho id). destruct (object t id) as [b|] eqn:E.
    + destruct Ho as (b'' & Hb'' & _ & _ & Hk & Hr). rewrite Hb' in Hb''. injection Hb'' as <-. destruct (Hobj id b E) as [Hm Hrt]. split; [|congruence]. intros Hm'. destruct (Hk Hm') as [? ->]. auto.
    + destruct (Ho b' Hb') as (_ & ? & ?). done.
Qed.

Lemma agenda_weight_app l1 l2 : agenda_weight (l1 ++ l2) = (agenda_weight l1 + agenda_weight l2)%nat.
Proof. unfold agenda_weight. rewrite fmap_app. induction l1 as [|x l IH]; [done|]. cbn. rewrite IH. lia. Qed.
Lemma agenda_weight_runs cbs : agenda_weight (map Run cbs) = (2 * length cbs)%nat.
Proof. unfold agenda_weight. induction cbs as [|c l IH]; [done|]. cbn in *. lia. Qed.

(** ** Running a task *)
Context `{!RangeOrder BlockID} (delay : SlotIndex) (SlotEndTime : SlotIndex -> Z) (txOf : ModelBlock -> option TransactionID).
Section RunTask.
Context (R : BlockID -> Prop) (extra todo : nat -> list BlockID).

Lemma close_ex i ag t : TInv R extra todo (Some i) ag t ->
  (forall s, setups t !! i = Some s -> is_set t (su_var s) (su_block s) \/ su_var s = VBooked /\ is_set t VInvalid (su_block s)) -> TInv R extra todo None ag t.
Proof.
  intros [Hsubs Hag Hcount Hsetup Hdone Hflag Hobj] Hi. split; try done. intros j s b data Hs _ Hz Hb Hmo Hne. destruct (decide (i = j)) as [<-|Hd]; [by apply Hi|]. eapply Hdone; try done. congruence.
Qed.

Lemma countdown_inv i p s ag t : TInv R extra todo None (CountDown i p :: ag) t -> setups t !! i = Some s ->
  TInv R extra todo (if su_count s - 1 =? 0 then Some i else None) ag (with_setups (<[i := mkSetup (su_var s) (su_block s) (su_count s - 1)]> (setups t)) t).
Proof.
  intros [Hsubs Hag Hcount Hsetup Hdone Hflag Hobj] Hs. set (s' := mkSetup _ _ _). set (t' := with_setups _ t).
  assert (Hlk : forall j, setups t' !! j = if decide (j = i) then Some s' else setups t !! j).
  { intros j. cbn. case_decide as Hd; [subst; apply list_lookup_insert_eq; by eapply lookup_lt_Some|by rewrite list_lookup_insert_ne]. }
  assert (Hsame : forall j x, setups t !! j = Some x -> exists y, setups t' !! j = Some y /\ su_var y = su_var x /\ su_block y = su_block x).
  { intros j x Hx. rewrite Hlk. case_decide as Hd; [subst j; rewrite Hs in Hx; injection Hx as <-; by exists s'|by exists x]. }
  assert (Hback : forall j y, setups t' !! j = Some y -> exists x, setups t !! j = Some x /\ su_var y = su_var x /\ su_block y = su_block x /\ su_count y = su_count x - (if decide (j = i) then 1 else 0)).
  { intros j y. rewrite Hlk. destruct (decide (j = i)) as [->|]; [intros [= <-]; by exists s|]. intros Hy. exists y. split_and!; try done. lia. }
  pose proof (Hcount i s Hs) as Hpos. rewrite cnt_cons, decide_True in Hpos by done. pose proof (cnt_nonneg i ag) as Hc1. pose proof (subs_cnt_nonneg i t) as Hc2. split.
  - intros j w cb [Hb Hm]%Hsubs. split; [done|]. destruct cb as [k q|? ?|? ?]; [|done..]. destruct Hm as [-> (x & Hx & Hv)]. split; [done|]. destruct (Hsame k x Hx) as (y & Hy & Hyv & _). exists y. by rewrite Hyv.
  - intros k q Hin. destruct (Hag k q) as (x & Hx & Hsat); [by apply elem_of_cons; right|]. destruct (Hsame k x Hx) as (y & Hy & Hyv & _). exists y. rewrite Hyv. done.
  - intros j y (x & Hx & _ & _ & ->)%Hback. rewrite (Hcount j x Hx), cnt_cons. change (subs_cnt j t') with (subs_cnt j t). unfold counts at 1. repeat case_decide; lia || congruence.
  - intros j y (x & Hx & Hv & Hb & _)%Hback. destruct (Hsetup j x Hx) as (Hnv & b & data & Ho & Hmi & Hmo & Hpar & Hp). rewrite Hv, Hb. split; [done|]. exists b, data. split_and!; try done.
    intros q Hin. destruct (Hp q Hin) as [H1 H2]. split; [done|]. assert (inv_cb y q = inv_cb x q) as -> by (unfold inv_cb; by rewrite Hv, Hb).
    destruct H2 as [?|[?|[?|[H2|?]]]]; auto. apply elem_of_cons in H2 as [H2|H2]; [|auto 6]. unfold inv_cb in H2. destruct (su_var x); discriminate H2.
  - intros j y b data (x & Hx & Hv & Hb & Hc)%Hback Hex Hz. rewrite Hb, Hv. intros Ho Hmo Hne. destruct (decide (j = i)) as [->|Hd].
    + rewrite Hs in Hx. injection Hx as <-. exfalso. apply Hex. case_match eqn:Ez; [done|]. apply Z.eqb_neq in Ez. lia.
    + eapply Hdone; try done. lia.
  - intros v id Hv Hset. destruct (Hflag v id Hv Hset) as (j & x & Hx & Hxv & Hxb & Hz). exists j, x. split_and!; try done. rewrite Hlk. case_decide as Hd; [|done]. subst j. rewrite Hs in Hx. injection Hx as <-. lia.
  - done.
Qed.

Lemma retain_frame id f t : frame t (retainBlockFailure id f t).
Proof. by apply frame_same. Qed.
Lemma trigger_frame e t : frame t (trigger_event e t).
Proof. by apply frame_same. Qed.

Lemma inherit_frame id ps acc t r t' : inherit_parents delay SlotEndTime txOf id ps acc t = Ret (r, t') -> frame t t'.
Proof.
  revert acc. induction ps as [|[ty p] ps IH]; intros acc; cbn [inherit_parents]; [intros [= _ <-]; apply frame_refl|]. intros ([b|] & _ & Hr)%bind_Ret; [|injection Hr as _ <-; apply retain_frame].
  destruct ty; [by apply IH in Hr..|]. destruct (_ ≫= txOf); [|injection Hr as _ <-; apply frame_refl]. destruct (bool_decide _); [by apply IH in Hr|injection Hr as _ <-; apply frame_refl].
Qed.
Lemma book_frame id t r t' : book_conflicts delay SlotEndTime txOf id t = Ret (r, t') -> frame t t'.
Proof.
  unfold book_conflicts, inheritConflicts. intros ([c t1] & Hi & Hr)%bind_Ret. apply bind_Ret in Hi as (b & _ & Hi). apply bind_Ret in Hi as (d & _ & Hi). apply bind_Ret in Hi as ([a t2] & Hi & Ht).
  injection Ht as <- <-. apply inherit_frame in Hi. destruct a as [acc|]; cbn in Hr; [|by injection Hr as _ <-]. destruct (existsb _ _); [by injection Hr as _ <-|].
  apply bind_Ret in Hr as (? & _ & Hr). apply bind_Ret in Hr as (? & _ & Hr). by injection Hr as _ <-.
Qed.

Lemma modify_conflicts_frame id c t : frame t (modify_object id (with_conflictIDs c) t).
Proof. unfold modify_object. destruct (object t id) as [b|] eqn:E; [|apply frame_refl]. eapply frame_set_object; [exact E|by intros []|done..]. Qed.

Definition runs (new : list Task) : list Callback := omap (fun x => match x with Run c => Some c | Emit _ => None end) new.
Lemma runs_map cbs tail : runs (map Run cbs ++ tail) = cbs ++ runs tail.
Proof. unfold runs. induction cbs as [|c l IH]; [done|]. cbn. by rewrite IH. Qed.
Lemma runs_app l1 l2 : runs (l1 ++ l2) = runs l1 ++ runs l2.
Proof. unfold runs. apply omap_app. Qed.

Lemma complete_inv i s ag t new t' : TInv R extra todo (Some i) ag t -> setups t !! i = Some s -> su_count s = 0 -> complete delay SlotEndTime txOf (su_var s) (su_block s) t = Ret (new, t') ->
  TInv R extra todo None (runs new ++ ag) t'.
Proof.
  intros Hinv Hs Hz Hc. pose proof (ti_setup _ _ _ _ _ _ Hinv i s Hs) as (Hnv & _). assert (Hend : forall v u cbs t1 t2, frame t t1 -> v <> VInvalid \/ v = VInvalid -> (v = su_var s \/ v = VInvalid /\ su_var s = VBooked) ->
    set_var v (su_block s) t1 = Ret (u, cbs, t2) -> TInv R extra todo None (cbs ++ ag) t2).
  { intros v u cbs t1 t2 Hfr _ Hv Hset. pose proof (set_var_spec _ _ _ _ _ _ Hset) as (_ & _ & _ & _ & Hst & _). pose proof (fr_setups _ _ Hfr) as Hst1. apply (close_ex i).
    - eapply set_var_inv; [eapply frame_inv; [exact Hfr|exact Hinv]|exact Hset|done|done|by left|]. intros Hnv'. exists i, s. rewrite Hst1. destruct Hv as [->|[-> _]]; done.
    - intros s' Hs'. rewrite Hst, Hst1, Hs in Hs'. injection Hs' as <-. apply is_set_set in Hset. destruct Hv as [->|[-> ?]]; auto. }
  unfold complete in Hc. destruct (su_var s) eqn:Ev; [| |done].
  - apply bind_Ret in Hc as ([[u cbs] t1] & Hset & Hr). injection Hr as <- <-. rewrite runs_map. replace (runs (if u then _ else [])) with ([] : list Callback) by (by destruct u). rewrite app_nil_r.
    eapply Hend; [apply frame_refl|left; done|left; reflexivity|exact Hset].
  - apply bind_Ret in Hc as ([c t1] & Hb & Hr). apply book_frame in Hb. destruct c as [c|].
    + apply bind_Ret in Hr as ([[u cbs] t2] & Hset & Hr). injection Hr as <- <-. rewrite runs_map. cbn [runs omap list_omap]. rewrite app_nil_r.
      eapply Hend; [eapply frame_trans; [exact Hb|apply modify_conflicts_frame]|left; done|left; reflexivity|exact Hset].
    + apply bind_Ret in Hr as ([[u cbs] t2] & Hset & Hr). injection Hr as <- <-. rewrite runs_map. replace (runs (if u then _ else [])) with ([] : list Callback) by (by destruct u). rewrite app_nil_r.
      eapply Hend; [exact Hb|by right|right; done|exact Hset].
Qed.

Lemma run_task_inv task ag t new t' : TInv R extra todo None (runs [task] ++ ag) t -> run_task delay SlotEndTime txOf task t = Ret (new, t') -> TInv R extra todo None (runs new ++ ag) t'.
Proof.
  intros Hinv. destruct task as [[i p|child p|child p]|e]; cbn [run_task runs omap list_omap app] in *.
  - intros (s & Hs%deref_Ret & Hr)%bind_Ret. pose proof (countdown_inv i p s ag t Hinv Hs) as Hn. destruct (Z.eqb_spec (su_count s - 1) 0) as [Hz|Hz].
    + eapply (complete_inv i (mkSetup (su_var s) (su_block s) (su_count s - 1))); [exact Hn| |done|exact Hr]. cbn. apply list_lookup_insert_eq. by eapply lookup_lt_Some.
    + injection Hr as <- <-. exact Hn.
  - intros ([[u cbs] t1] & Hset & Hr)%bind_Ret. injection Hr as <- <-. rewrite runs_map. replace (runs (if u then _ else [])) with ([] : list Callback) by (by destruct u). rewrite app_nil_r.
    eapply set_var_inv; [exact Hinv|exact Hset|set_solver|intros i; rewrite cnt_cons, decide_False by (intros []); lia|intros cb [->|?]%elem_of_cons; [right; split; [done|]; exists p; by left|by left]|done].
  - intros ([[u cbs] t1] & Hset & Hr)%bind_Ret. injection Hr as <- <-. rewrite runs_map. replace (runs (if u then _ else [])) with ([] : list Callback) by (by destruct u). rewrite app_nil_r.
    eapply set_var_inv; [exact Hinv|exact Hset|set_solver|intros i; rewrite cnt_cons, decide_False by (intros []); lia|intros cb [->|?]%elem_of_cons; [right; split; [done|]; exists p; by right|by left]|done].
  - intros [= <- <-]. eapply frame_inv; [apply trigger_frame|done].
Qed.

Lemma run_tasks_inv fuel agenda t t' : TInv R extra todo None (runs agenda) t -> run_tasks delay SlotEndTime txOf fuel agenda t = Ret t' -> TInv R extra todo None [] t'.
Proof.
  revert agenda t. induction fuel as [|fuel IH]; intros [|task agenda] t Hinv; cbn [run_tasks]; try (by intros [= <-]).
  intros ([new t1] & Ht & Hr)%bind_Ret. apply IH in Hr; [done|]. rewrite runs_app. eapply run_task_inv; [|exact Ht]. by rewrite <- runs_app.
Qed.
End RunTask.

(** Every task makes the work smaller: callbacks move from the variables to the agenda, and each that runs leaves at most an event. *)
Lemma set_var_weight v id t u cbs t' : set_var v id t = Ret (u, cbs, t') -> (agenda_weight (map Run cbs) + subs_weight t' = subs_weight t)%nat.
Proof.
  intros (b & _ & _ & _ & _ & _ & _ & _ & -> & Hs)%set_var_spec. rewrite agenda_weight_runs. unfold subs_weight. rewrite Hs. destruct u; [|done]. unfold callbacks.
  assert (Hnn : forall m : gmap (BlockID * Var) (list Callback), 0 <= map_sum (fun l => 2 * Z.of_nat (length l)) m) by (intros; apply map_sum_nonneg; lia).
  destruct (subs t !! (id, v)) as [l|] eqn:E; cbn [default].
  - pose proof (Hnn (delete (id, v) (subs t))) as Hd. rewrite (map_sum_delete _ _ _ l) in Hd |- * by done. unfold Datatypes.id. lia.
  - rewrite delete_id by done. cbn. lia.
Qed.
Lemma frame_weight t t' : frame t t' -> subs_weight t' = subs_weight t.
Proof. intros [Hs _ _]. unfold subs_weight. by rewrite Hs. Qed.

Lemma run_task_weight task t new t' : run_task delay SlotEndTime txOf task t = Ret (new, t') -> (agenda_weight new + subs_weight t' < task_weight task + subs_weight t)%nat.
Proof.
  assert (Hset : forall v id t0 u cbs t1 (e : Event), set_var v id t0 = Ret (u, cbs, t1) -> forall tail, tail = [] \/ tail = [Emit e] -> (agenda_weight (map Run cbs ++ tail) + subs_weight t1 < 2 + subs_weight t0)%nat).
  { intros v id t0 u cbs t1 e Hs%set_var_weight tail Ht. rewrite agenda_weight_app. destruct Ht as [-> | ->]; cbn; lia. }
  destruct task as [[i p|child p|child p]|e]; cbn [run_task task_weight].
  - intros (s & _ & Hr)%bind_Ret. set (t0 := with_setups _ t) in *. change (subs_weight t) with (subs_weight t0). destruct (_ =? 0); [|injection Hr as <- <-; cbn; lia]. unfold complete in Hr. destruct (su_var s).
    + apply bind_Ret in Hr as ([[u cbs] t1] & Hs & Hr). injection Hr as <- <-. eapply Hset; [exact Hs|destruct u; auto].
    + apply bind_Ret in Hr as ([c t1] & Hb & Hr). apply book_frame in Hb. rewrite <- (frame_weight t0 t1 Hb). destruct c as [c|]; apply bind_Ret in Hr as ([[u cbs] t2] & Hs & Hr); injection Hr as <- <-.
      * rewrite <- (frame_weight t1 (modify_object (su_block s) (with_conflictIDs c) t1)) by apply modify_conflicts_frame. eapply Hset; [exact Hs|auto].
      * eapply Hset; [exact Hs|destruct u; auto].
    + apply bind_Ret in Hr as ([[u cbs] t1] & Hs & Hr). injection Hr as <- <-. eapply Hset; [exact Hs|destruct u; auto].
  - intros ([[u cbs] t1] & Hs & Hr)%bind_Ret. injection Hr as <- <-. eapply Hset; [exact Hs|destruct u; auto].
  - intros ([[u cbs] t1] & Hs & Hr)%bind_Ret. injection Hr as <- <-. eapply Hset; [exact Hs|destruct u; auto].
  - intros [= <- <-]. cbn. change (subs_weight (trigger_event e t)) with (subs_weight t). lia.
Qed.

(** The fuel of [run] is enough: it is not what ends a run. *)
Lemma run_fuel_enough agenda t : run delay SlotEndTime txOf agenda t = OutOfFuel -> exists task t', run_task delay SlotEndTime txOf task t' = OutOfFuel.
Proof.
  unfold run. assert (Hf : forall fuel agenda t, (agenda_weight agenda + subs_weight t <= fuel)%nat -> run_tasks delay SlotEndTime txOf fuel agenda t = OutOfFuel -> exists task t', run_task delay SlotEndTime txOf task t' = OutOfFuel).
  { clear agenda t. intros fuel. induction fuel as [|fuel IH]; intros [|task agenda] t Hle; cbn [run_tasks]; try done.
    - exfalso. destruct task; cbn in Hle; lia.
    - destruct (run_task delay SlotEndTime txOf task t) as [[new t1]| |] eqn:E; [|done|by exists task, t]. cbn [mbind outcome_bind]. apply run_task_weight in E. apply IH. rewrite agenda_weight_app.
      cbn in Hle. unfold agenda_weight in *. lia. }
  by apply Hf.
Qed.

(** ** Setting up a block *)
Definition upd (f : nat -> list BlockID) (i : nat) (l : list BlockID) : nat -> list BlockID := fun j => if decide (j = i) then l else f j.
Lemma upd_eq f i l : upd f i l i = l.
Proof. unfold upd. by rewrite decide_True. Qed.
Lemma upd_ne f i l j : j <> i -> upd f i l j = f j.
Proof. intros. unfold upd. by rewrite decide_False. Qed.

Lemma upd_cons_sub f i p l j q : q ∈ upd f i l j -> q ∈ upd f i (p :: l) j.
Proof. unfold upd. destruct (decide (j = i)); [|done]. intros ?. by right. Qed.

(** What running callbacks keeps. *)
Record keeps t t' : Prop := {
  kp_state : evictionState t' = evictionState t;
  kp_length : length (setups t') = length (setups t);
  kp_setup i s : setups t !! i = Some s -> exists n, setups t' !! i = Some (mkSetup (su_var s) (su_block s) n);
  kp_events e : e ∈ tangle_events t -> e ∈ tangle_events t';
}.
Lemma keeps_refl t : keeps t t.
Proof. split; try done. intros i s Hs. exists (su_count s). by destruct s. Qed.
Lemma keeps_trans t1 t2 t3 : keeps t1 t2 -> keeps t2 t3 -> keeps t1 t3.
Proof.
  intros [A1 A2 A3 A4] [B1 B2 B3 B4]. split; [congruence..| |auto]. intros i s Hs. destruct (A3 i s Hs) as [n Hn]. destruct (B3 i _ Hn) as [m Hm]. by exists m.
Qed.
Lemma keeps_set_var v id t u cbs t' : set_var v id t = Ret (u, cbs, t') -> keeps t t'.
Proof. intros (b & _ & _ & _ & H2 & H3 & H4 & _)%set_var_spec. split; [done|by rewrite H2| |by rewrite H3]. intros i s Hs. exists (su_count s). rewrite H2. by destruct s. Qed.
Lemma keeps_same t t' : evictionState t' = evictionState t -> setups t' = setups t -> (forall e, e ∈ tangle_events t -> e ∈ tangle_events t') -> keeps t t'.
Proof. intros H1 H2 H3. split; [done|by rewrite H2| |done]. intros i s Hs. exists (su_count s). rewrite H2. by destruct s. Qed.
Lemma keeps_modify id f t : keeps t (modify_object id f t).
Proof. unfold modify_object. destruct (object t id) as [b|]; [|apply keeps_refl]. destruct (set_object_fields id (f b) t) as (H1 & H2 & H3 & H4 & _). apply keeps_same; [done..|by rewrite H3]. Qed.
Lemma keeps_inherit id ps acc t r t' : inherit_parents delay SlotEndTime txOf id ps acc t = Ret (r, t') -> keeps t t'.
Proof.
  revert acc. induction ps as [|[ty p] ps IH]; intros acc; cbn [inherit_parents]; [intros [= _ <-]; apply keeps_refl|]. intros ([b|] & _ & Hr)%bind_Ret; [|injection Hr as _ <-; by apply keeps_same].
  destruct ty; [by apply IH in Hr..|]. destruct (_ ≫= txOf); [|injection Hr as _ <-; apply keeps_refl]. destruct (bool_decide _); [by apply IH in Hr|injection Hr as _ <-; apply keeps_refl].
Qed.
Lemma keeps_book id t r t' : book_conflicts delay SlotEndTime txOf id t = Ret (r, t') -> keeps t t'.
Proof.
  unfold book_conflicts, inheritConflicts. intros ([c t1] & Hi & Hr)%bind_Ret. apply bind_Ret in Hi as (b & _ & Hi). apply bind_Ret in Hi as (d & _ & Hi). apply bind_Ret in Hi as ([a t2] & Hi & Ht).
  injection Ht as <- <-. apply keeps_inherit in Hi. destruct a as [acc|]; cbn in Hr; [|by injection Hr as _ <-]. destruct (existsb _ _); [by injection Hr as _ <-|].
  apply bind_Ret in Hr as (? & _ & Hr). apply bind_Ret in Hr as (? & _ & Hr). by injection Hr as _ <-.
Qed.
Lemma keeps_run_task task t new t' : run_task delay SlotEndTime txOf task t = Ret (new, t') -> keeps t t'.
Proof.
  destruct task as [[i p|child p|child p]|e]; cbn [run_task].
  - intros (s & Hs%deref_Ret & Hr)%bind_Ret. set (t0 := with_setups _ t) in *. apply keeps_trans with t0.
    + split; [done|cbn; by rewrite length_insert| |done]. intros j x Hx. cbn. destruct (decide (j = i)) as [->|]; [|exists (su_count x); rewrite list_lookup_insert_ne by done; by destruct x].
      rewrite Hs in Hx. injection Hx as <-. eexists. apply list_lookup_insert_eq. by eapply lookup_lt_Some.
    + destruct (_ =? 0); [|injection Hr as _ <-; apply keeps_refl]. unfold complete in Hr. destruct (su_var s).
      * apply bind_Ret in Hr as ([[u cbs] t1] & Hv & Hr). injection Hr as _ <-. by eapply keeps_set_var.
      * apply bind_Ret in Hr as ([c t1] & Hb%keeps_book & Hr). eapply keeps_trans; [exact Hb|]. destruct c as [c|]; apply bind_Ret in Hr as ([[u cbs] t2] & Hv%keeps_set_var & Hr); injection Hr as _ <-; [|done].
        eapply keeps_trans; [apply keeps_modify|exact Hv].
      * apply bind_Ret in Hr as ([[u cbs] t1] & Hv & Hr). injection Hr as _ <-. by eapply keeps_set_var.
  - intros ([[u cbs] t1] & Hv & Hr)%bind_Ret. injection Hr as _ <-. by eapply keeps_set_var.
  - intros ([[u cbs] t1] & Hv & Hr)%bind_Ret. injection Hr as _ <-. by eapply keeps_set_var.
  - intros [= _ <-]. apply keeps_same; [done..|]. intros e' He. cbn. set_solver.
Qed.
Lemma keeps_run agenda t t' : run delay SlotEndTime txOf agenda t = Ret t' -> keeps t t'.
Proof.
  unfold run. generalize (agenda_weight agenda + subs_weight t)%nat as fuel. intros fuel. revert agenda t. induction fuel as [|fuel IH]; intros [|task agenda] t; cbn [run_tasks]; try (intros [= <-]; apply keeps_refl).
  intros ([new t1] & Ht%keeps_run_task & Hr)%bind_Ret. eapply keeps_trans; [exact Ht|by eapply IH].
Qed.

Section Setup.
Context (R : BlockID -> Prop) (extra todo : nat -> list BlockID) (i : nat).

(** A parent is looked at: its variable is set already, or it is waited for. *)
Lemma extra_enqueue p l t s : TInv R (upd extra i (p :: l)) todo None [] t -> setups t !! i = Some s -> sat R t (su_var s) p ->
  TInv R (upd extra i l) todo None [CountDown i p] t.
Proof.
  intros [Hsubs Hag Hcount Hsetup Hdone Hflag Hobj] Hs Hsat. split; try done.
  - intros j q Hin. apply list_elem_of_singleton in Hin. injection Hin as -> ->. by exists s.
  - intros j x Hx. rewrite (Hcount j x Hx), cnt_cons, cnt_nil. unfold counts. destruct (decide (j = i)) as [->|Hne]; [rewrite decide_True, !upd_eq by done; cbn [length]; lia|].
    rewrite decide_False, !upd_ne by (done || congruence). lia.
  - intros j x Hx. destruct (Hsetup j x Hx) as (Hnv & b & data & Hb & Hmi & Hmo & Hpar & Hp). split; [done|]. exists b, data. split_and!; try done; [intros q w [?|?]; apply (Hpar q w); [left; by apply upd_cons_sub|by right]|]. intros q Hq. destruct (Hp q Hq) as [H1 H2]. split.
    + destruct H1 as [?|[?|H1]]; auto. destruct (decide (j = i)) as [->|Hne]; [rewrite upd_eq in H1 |- *|rewrite upd_ne in H1 |- * by done; auto].
      apply elem_of_cons in H1 as [->|?]; [|auto]. rewrite Hs in Hx. injection Hx as <-. auto.
    + destruct H2 as [?|[?|[?|[H2|?]]]]; auto. by apply elem_of_nil in H2.
Qed.

Lemma extra_subscribe p l t s b : TInv R (upd extra i (p :: l)) todo None [] t -> setups t !! i = Some s -> object t p = Some b -> flag (su_var s) b = false ->
  TInv R (upd extra i l) todo None [] (with_subs (<[(p, su_var s) := callbacks t p (su_var s) ++ [CountDown i p]]> (subs t)) t).
Proof.
  intros [Hsubs Hag Hcount Hsetup Hdone Hflag Hobj] Hs Hb Hf. set (t' := with_subs _ t).
  assert (Hcb : forall j w, callbacks t' j w = if decide ((j, w) = (p, su_var s)) then callbacks t p (su_var s) ++ [CountDown i p] else callbacks t j w).
  { intros j w. unfold callbacks at 1. cbn. case_decide as Hd; [rewrite Hd; by rewrite lookup_insert_eq|]. by rewrite lookup_insert_ne. }
  assert (Hmono : forall cb j w, cb ∈ callbacks t j w -> cb ∈ callbacks t' j w). { intros cb j w Hin. rewrite Hcb. case_decide as Hd; [injection Hd as -> ->; set_solver|done]. }
  split; try done.
  - intros j w cb. rewrite Hcb. case_decide as Hd; [|by apply Hsubs]. injection Hd as -> ->. intros [Hin|Hin]%elem_of_app; [by apply Hsubs|]. apply list_elem_of_singleton in Hin as ->.
    split; [by exists b|]. split; [done|]. by exists s.
  - intros j x Hx. change (setups t !! j = Some x) in Hx. rewrite (Hcount j x Hx). unfold subs_cnt at 2. cbn [t' with_subs subs]. rewrite subs_cnt_append, cnt_nil. unfold counts. destruct (decide (j = i)) as [->|Hne].
    + rewrite decide_True, !upd_eq by done. cbn [length]. lia.
    + rewrite decide_False, !upd_ne by (done || congruence). lia.
  - intros j x Hx. change (setups t !! j = Some x) in Hx. destruct (Hsetup j x Hx) as (Hnv & b0 & data & Hb0 & Hmi & Hmo & Hpar & Hp). split; [done|]. exists b0, data. split_and!; try done.
    { intros q w [?|Hin]; [apply (Hpar q w); left; by apply upd_cons_sub|]. rewrite Hcb in Hin. case_decide as Hd; [|apply (Hpar q w); by right]. injection Hd as -> ->. apply elem_of_app in Hin as [?|Hin]; [apply (Hpar p (su_var s)); by right|].
      apply list_elem_of_singleton in Hin. injection Hin as ->. apply (Hpar p (su_var s)). left. rewrite upd_eq. by left. }
    intros q Hq. destruct (Hp q Hq) as [H1 H2]. split.
    + destruct H1 as [?|[?|H1]]; auto. destruct (decide (j = i)) as [->|Hne]; [rewrite upd_eq in H1 |- *|rewrite upd_ne in H1 |- * by done; auto].
      apply elem_of_cons in H1 as [->|?]; [|auto]. rewrite Hs in Hx. injection Hx as <-. right; left. rewrite Hcb, decide_True by done. set_solver.
    + destruct H2 as [?|[?|[?|[H2|?]]]]; auto.
Qed.

(** The validity of a parent is watched. *)
Lemma todo_watched p l ag ag' t t' s : TInv R extra (upd todo i (p :: l)) None ag t -> setups t !! i = Some s ->
  object t' = object t -> setups t' = setups t -> (forall cb, cb ∈ ag -> cb ∈ ag') -> (forall j, cnt j ag' = cnt j ag) ->
  (forall j w cb, cb ∈ callbacks t' j w -> cb ∈ callbacks t j w \/ cb = inv_cb s p /\ j = p /\ w = VInvalid /\ exists b, object t p = Some b /\ flag VInvalid b = false) ->
  (forall j w cb, cb ∈ callbacks t j w -> cb ∈ callbacks t' j w) -> (forall j, subs_cnt j t' = subs_cnt j t) ->
  (forall j q, CountDown j q ∈ ag' -> CountDown j q ∈ ag) ->
  R p \/ inv_cb s p ∈ callbacks t' p VInvalid \/ inv_cb s p ∈ ag' -> TInv R extra (upd todo i l) None ag' t'.
Proof.
  intros [Hsubs Hag Hcount Hsetup Hdone Hflag Hobj] Hs Ho Hst Hag1 Hcnt Hcb Hcb' Hsc Hag2 Hw.
  assert (Hset : forall v id, is_set t' v id <-> is_set t v id) by (intros; unfold is_set; by rewrite Ho).
  assert (Hsat : forall v q, sat R t' v q <-> sat R t v q) by (intros; unfold sat; by rewrite Hset). split.
  - intros j w cb Hin. rewrite Ho, Hst. destruct (Hcb j w cb Hin) as [?|(-> & -> & -> & b & Hb & Hf)]; [by apply Hsubs|]. split; [by exists b|]. unfold inv_cb. by destruct (su_var s).
  - intros j q (x & Hx & Hq)%Hag2%Hag. exists x. rewrite Hst, Hsat. done.
  - intros j x. rewrite Hst, Hcnt, Hsc. apply Hcount.
  - intros j x. rewrite Hst. intros Hx. destruct (Hsetup j x Hx) as (Hnv & b & data & Hb & Hmi & Hmo & Hpar & Hp). split; [done|]. exists b, data. rewrite Ho. split_and!; try done.
    { intros q w [?|Hin]; [apply (Hpar q w); by left|]. destruct (Hcb q w _ Hin) as [?|(Hi & _)]; [apply (Hpar q w); by right|]. unfold inv_cb in Hi. destruct (su_var s); discriminate Hi. }
    intros q Hq. destruct (Hp q Hq) as [H1 H2].
    rewrite Hsat, Hset. split; [destruct H1 as [?|[?|?]]; auto|]. destruct H2 as [H2|[?|[?|[?|?]]]]; auto 6. destruct (decide (j = i)) as [->|Hne]; [|rewrite upd_ne in H2 |- * by done; auto].
    rewrite upd_eq in H2 |- *. rewrite Hs in Hx. injection Hx as <-. apply elem_of_cons in H2 as [->|?]; [|auto]. destruct Hw as [?|[?|?]]; auto.
  - intros j x b data. rewrite Hst, Ho, !Hset. apply Hdone.
  - intros v id. rewrite Hset, Hst. apply Hflag.
  - intros id b. rewrite Ho. apply Hobj.
Qed.
End Setup.

Definition roots_in (R : BlockID -> Prop) t : Prop := forall q c, RootBlockCommitmentID delay q (evictionState t) = Ret (Some c) -> R q.

(** The two ways a parent is found. *)
Lemma BlockOf_cases R id t b : (forall id b, object t id = Some b -> (missing b = true -> modelBlock b = None) /\ rootBlk b = None) -> roots_in R t ->
  BlockOf delay SlotEndTime id (evictionState t) (cache t) = Ret (Some b) ->
  Block.IsRootBlock b = true /\ R id /\ flag VSolid b = true /\ flag VBooked b = true /\ flag VInvalid b = false \/ Block.IsRootBlock b = false /\ object t id = Some b.
Proof.
  intros Hobj HR. unfold BlockOf. intros (root & Hroot & Hb)%bind_Ret. injection Hb as Hb. destruct root as [c|].
  - injection Hb as <-. left. split_and!; try done. by eapply HR.
  - right. assert (Ho : object t id = Some b) by (unfold object; by rewrite Hb). split; [|done]. unfold Block.IsRootBlock. rewrite (proj2 (Hobj id b Ho)). by apply bool_decide_eq_false_2.
Qed.

Section SetupBlock.
Context (R : BlockID -> Prop).

Lemma run_single_inv extra todo cb t t' : TInv R extra todo None [cb] t -> run delay SlotEndTime txOf [Run cb] t = Ret t' -> TInv R extra todo None [] t'.
Proof. intros Hinv Hr. eapply run_tasks_inv; [|exact Hr]. exact Hinv. Qed.

Lemma watch_inv extra todo i p l t t' s b : TInv R extra (upd todo i (p :: l)) None [] t -> setups t !! i = Some s ->
  (Block.IsRootBlock b = true /\ R p /\ flag VInvalid b = false \/ Block.IsRootBlock b = false /\ exists b', object t p = Some b') ->
  OnUpdateOnce delay SlotEndTime txOf VInvalid p b (inv_cb s p) t = Ret t' -> TInv R extra (upd todo i l) None [] t'.
Proof.
  intros Hinv Hs Hcase. assert (Hnc : forall j, ~ counts j (inv_cb s p)) by (intros j; unfold inv_cb; destruct (su_var s); intros []).
  unfold OnUpdateOnce. destruct Hcase as [(-> & HR & ->)|(-> & b' & Hb')].
  - intros [= <-]. eapply todo_watched; try done; auto.
  - rewrite Hb'. cbn [default]. unfold Datatypes.id. destruct (flag VInvalid b') eqn:Ef.
    + intros Hr. eapply run_single_inv; [|exact Hr]. eapply todo_watched; try done; auto.
      * intros cb Hin. by apply elem_of_nil in Hin.
      * intros j. rewrite cnt_cons, decide_False by apply Hnc. lia.
      * intros j q Hin. apply list_elem_of_singleton in Hin. exfalso. apply (Hnc j). by rewrite <- Hin.
      * right; right. by apply list_elem_of_singleton.
    + intros [= <-]. set (t' := with_subs _ t).
      assert (Hcb : forall j w, callbacks t' j w = if decide ((j, w) = (p, VInvalid)) then callbacks t p VInvalid ++ [inv_cb s p] else callbacks t j w).
      { intros j w. unfold callbacks at 1. cbn. destruct (decide ((j, w) = (p, VInvalid))) as [Hd|Hd]; [rewrite Hd; by rewrite lookup_insert_eq|]. by rewrite lookup_insert_ne. }
      eapply (todo_watched _ _ _ _ p l [] [] t t' s); try done.
      * intros j w cb. rewrite Hcb. case_decide as Hd; [|auto]. injection Hd as -> ->. intros [?|Hin]%elem_of_app; [auto|]. apply list_elem_of_singleton in Hin as ->. right. split_and!; try done. by exists b'.
      * intros j w cb. rewrite Hcb. case_decide as Hd; [injection Hd as -> ->; set_solver|done].
      * intros j. unfold subs_cnt at 1. cbn [t' with_subs subs]. rewrite subs_cnt_append, decide_False by apply Hnc. lia.
      * right; left. rewrite Hcb, decide_True by done. set_solver.
Qed.

Lemma keeps_OnUpdateOnce v id b cb t t' : OnUpdateOnce delay SlotEndTime txOf v id b cb t = Ret t' -> keeps t t'.
Proof.
  unfold OnUpdateOnce. destruct (Block.IsRootBlock b); [destruct (flag v b); [apply keeps_run|intros [= <-]; apply keeps_refl]|]. destruct (flag v _); [apply keeps_run|]. intros [= <-]. by apply keeps_same.
Qed.

(** Objects never disappear. *)
Lemma run_object agenda t t' id : run delay SlotEndTime txOf agenda t = Ret t' -> is_Some (object t id) -> is_Some (object t' id).
Proof.
  assert (Hsv : forall v j t0 u cbs t1, set_var v j t0 = Ret (u, cbs, t1) -> is_Some (object t0 id) -> is_Some (object t1 id)).
  { intros v j t0 u cbs t1 (b & _ & _ & Ho & _)%set_var_spec Hid. rewrite Ho. case_decide; [by eexists|done]. }
  assert (Hfr : forall t0 t1, frame t0 t1 -> is_Some (object t0 id) -> is_Some (object t1 id)).
  { intros t0 t1 [_ _ Ho] [b Hb]. specialize (Ho id). rewrite Hb in Ho. destruct Ho as (b' & Hb' & _). by exists b'. }
  unfold run. generalize (agenda_weight agenda + subs_weight t)%nat as fuel. intros fuel. revert agenda t. induction fuel as [|fuel IH]; intros [|task agenda] t; cbn [run_tasks]; try (by intros [= <-]).
  intros ([new t1] & Ht & Hr)%bind_Ret Hid. apply (IH _ _ Hr). clear Hr IH. destruct task as [[j p|child p|child p]|e]; cbn [run_task] in Ht.
  - apply bind_Ret in Ht as (s & _ & Ht). set (t0 := with_setups _ t) in *. change (is_Some (object t0 id)) in Hid. destruct (_ =? 0); [|by injection Ht as _ <-]. unfold complete in Ht. destruct (su_var s).
    + apply bind_Ret in Ht as ([[u cbs] t2] & Hv & Ht). injection Ht as _ <-. by eapply Hsv.
    + apply bind_Ret in Ht as ([c t2] & Hb%book_frame & Ht). apply (Hfr _ _ Hb) in Hid. destruct c as [c|]; apply bind_Ret in Ht as ([[u cbs] t3] & Hv & Ht); injection Ht as _ <-; (eapply Hsv; [exact Hv|]); [|done].
      eapply Hfr; [apply modify_conflicts_frame|done].
    + apply bind_Ret in Ht as ([[u cbs] t2] & Hv & Ht). injection Ht as _ <-. by eapply Hsv.
  - apply bind_Ret in Ht as ([[u cbs] t2] & Hv & Ht). injection Ht as _ <-. by eapply Hsv.
  - apply bind_Ret in Ht as ([[u cbs] t2] & Hv & Ht). injection Ht as _ <-. by eapply Hsv.
  - by injection Ht as _ <-.
Qed.

Lemma OnUpdateOnce_object v id b cb t t' j : OnUpdateOnce delay SlotEndTime txOf v id b cb t = Ret t' -> is_Some (object t j) -> is_Some (object t' j).
Proof.
  unfold OnUpdateOnce. destruct (Block.IsRootBlock b); [destruct (flag v b); [apply run_object|by intros [= <-]]|]. destruct (flag v _); [apply run_object|]. by intros [= <-].
Qed.

Lemma setup_parent_inv extra todo i v id p l t t' n : TInv R (upd extra i (p :: l)) (upd todo i (p :: l)) None [] t -> roots_in R t -> setups t !! i = Some (mkSetup v id n) ->
  setup_parent delay SlotEndTime txOf v i id p t = Ret t' ->
  exists l', TInv R (upd extra i l') (upd todo i l') None [] t' /\ (l' = l \/ l' = p :: l /\ ParentMissing v id p ∈ tangle_events t') /\ keeps t t'.
Proof.
  intros Hinv HR Hs. unfold setup_parent. intros (q & Hq & Hr)%bind_Ret. destruct q as [b|].
  2: { injection Hr as <-. exists (p :: l). split; [eapply frame_inv; [apply trigger_frame|done]|]. split; [right; split; [done|]; cbn; set_solver|]. apply keeps_same; [done..|]. intros e He. cbn. set_solver. }
  apply bind_Ret in Hr as (t1 & H1 & H2). pose proof (keeps_OnUpdateOnce _ _ _ _ _ _ H1) as Hk1. pose proof (keeps_OnUpdateOnce _ _ _ _ _ _ H2) as Hk2.
  destruct (ti_setup _ _ _ _ _ _ Hinv i _ Hs) as (Hnv & _). cbn [su_var] in Hnv. pose proof (BlockOf_cases R p t b (ti_object _ _ _ _ _ _ Hinv) HR Hq) as Hcase.
  assert (Hinv1 : TInv R (upd extra i l) (upd todo i (p :: l)) None [] t1).
  { unfold OnUpdateOnce in H1. destruct Hcase as [(Hrt & HRp & Hf1 & Hf2 & _)|[Hrt Ho]]; rewrite Hrt in H1.
    - assert (Hf : flag v b = true) by (by destruct v). rewrite Hf in H1. eapply run_single_inv; [|exact H1]. eapply extra_enqueue; [exact Hinv|exact Hs|by left].
    - rewrite Ho in H1. cbn [default] in H1. unfold Datatypes.id in H1. destruct (flag v b) eqn:Ef.
      + eapply run_single_inv; [|exact H1]. eapply extra_enqueue; [exact Hinv|exact Hs|]. right. by exists b.
      + injection H1 as <-. exact (extra_subscribe R extra (upd todo i (p :: l)) i p l t _ b Hinv Hs Ho Ef). }
  destruct (kp_setup _ _ Hk1 i _ Hs) as [m Hm]. cbn [su_var su_block] in Hm. exists l. split; [|split; [by left|by eapply keeps_trans]].
  eapply (watch_inv (upd extra i l) todo i p l t1 t' (mkSetup v id m) b); [exact Hinv1|exact Hm| |].
  - destruct Hcase as [(? & ? & _ & _ & ?)|[Hrt Ho]]; [by left|]. right. split; [done|]. apply (OnUpdateOnce_object _ _ _ _ _ _ p H1). by exists b.
  - unfold inv_cb. cbn [su_var su_block]. exact H2.
Qed.
End SetupBlock.
End Props.
