(* ===== verification/TangleClaims.v ===== *)
(** * What holds of every reachable Tangle

    The operations of the block DAG and of the booker keep the invariant of TangleProps; the theorems on reachable states follow. *)
From S2P Require Import Prelude Block Eviction BlockCache Tangle TangleProps.

Section Ops.
Context {LC : Type} `{LruCache LC} `{!RangeOrder BlockID} (delay : SlotIndex) (SlotEndTime : SlotIndex -> Z) (txOf : ModelBlock -> option TransactionID).
Implicit Types t : Tangle LC.

(** The order in which parents are kept does not matter. *)
Lemma TInv_perm R extra todo i l l' ex ag t : TInv R (upd extra i l) (upd todo i l) ex ag t -> l ≡ₚ l' -> TInv R (upd extra i l') (upd todo i l') ex ag t.
Proof.
  intros [Hsubs Hag Hcount Hsetup Hdone Hflag Hobj] Hp.
  assert (Hu : forall (f : nat -> list BlockID) j, upd f i l j ≡ₚ upd f i l' j) by (intros f j; unfold upd; by destruct (decide (j = i))).
  assert (He : forall (f : nat -> list BlockID) j q, q ∈ upd f i l j <-> q ∈ upd f i l' j) by (intros f j q; by rewrite (Hu f j)). split; try done.
  - intros j s Hs. by rewrite (Hcount j s Hs), (Permutation_length (Hu extra j)).
  - intros j s Hs. destruct (Hsetup j s Hs) as (Hnv & b & data & Hb & Hmi & Hmo & Hpar & Hq). split; [done|]. exists b, data. split_and!; try done.
    + intros q w. rewrite <- He. apply Hpar.
    + intros q. rewrite <- !He. apply Hq.
Qed.

(** ** Setting up a block *)
Lemma setup_parents_inv R extra todo i v id ps miss t t' n : TInv R (upd extra i (ps ++ miss)) (upd todo i (ps ++ miss)) None [] t -> roots_in delay R t -> setups t !! i = Some (mkSetup v id n) ->
  (forall p, p ∈ miss -> ParentMissing v id p ∈ tangle_events t) -> setup_parents delay SlotEndTime txOf v i id ps t = Ret t' ->
  exists miss', TInv R (upd extra i miss') (upd todo i miss') None [] t' /\ (forall p, p ∈ miss' -> ParentMissing v id p ∈ tangle_events t') /\ keeps t t'.
Proof.
  revert miss t n. induction ps as [|p ps IH]; intros miss t n Hinv HR Hs Hm; cbn [setup_parents].
  - intros [= <-]. exists miss. split_and!; try done. apply keeps_refl.
  - intros (t1 & H1 & Hr)%bind_Ret. destruct (setup_parent_inv delay SlotEndTime txOf R extra todo i v id p (ps ++ miss) t t1 n Hinv HR Hs H1) as (l' & Hinv1 & Hl & Hk).
    destruct (kp_setup _ _ Hk i _ Hs) as [m Hm1]. assert (HR1 : roots_in delay R t1) by (unfold roots_in; by rewrite (kp_state _ _ Hk)).
    assert (Hk' : forall t'', keeps t1 t'' -> keeps t t'') by (intros; by eapply keeps_trans).
    destruct Hl as [-> | [-> Hev]].
    + destruct (IH miss t1 m Hinv1 HR1 Hm1) as (miss' & ? & ? & ?); [intros q Hq; by apply (kp_events _ _ Hk), Hm|exact Hr|]. exists miss'. auto.
    + destruct (IH (p :: miss) t1 m) as (miss' & ? & ? & ?); [|done..| |exact Hr|exists miss'; auto].
      * eapply TInv_perm; [exact Hinv1|]. apply Permutation_middle.
      * intros q [->|Hq]%elem_of_cons; [done|]. by apply (kp_events _ _ Hk), Hm.
Qed.

(** A new setup waits for all its parents. *)
Lemma new_setup_inv R extra todo v id b data t : TInv R extra todo None [] t -> v <> VInvalid -> object t id = Some b -> modelBlock b = Some data ->
  TInv R (upd extra (length (setups t)) (parents_of data)) (upd todo (length (setups t)) (parents_of data)) None []
    (with_setups (setups t ++ [mkSetup v id (Z.of_nat (length (parents_of data)))]) t).
Proof.
  intros [Hsubs Hag Hcount Hsetup Hdone Hflag Hobj] Hv Hb Hmo. set (i := length (setups t)). set (t' := with_setups _ t).
  assert (Hlk : forall j s, setups t' !! j = Some s -> j <> i /\ setups t !! j = Some s \/ j = i /\ s = mkSetup v id (Z.of_nat (length (parents_of data)))).
  { intros j s. cbn. intros [Hs|[Hle Hs]]%lookup_app_Some; [left; split; [|done]; apply lookup_lt_Some in Hs; unfold i; lia|].
    apply list_lookup_singleton_Some in Hs as [Hj <-]. right. split; [unfold i; lia|done]. }
  assert (Hold : forall j s, setups t !! j = Some s -> setups t' !! j = Some s) by (intros j s Hs; cbn; rewrite lookup_app_l; [done|by eapply lookup_lt_Some]).
  assert (Hnone : forall j w p, CountDown i p ∈ callbacks t j w -> False).
  { intros j w p (_ & -> & s & Hs & _)%Hsubs. apply lookup_lt_Some in Hs. unfold i in Hs. lia. }
  assert (Hz : subs_cnt i t = 0).
  { pose proof (subs_cnt_nonneg i t) as Hnn. destruct (decide (subs_cnt i t = 0)) as [|Hne]; [done|]. exfalso.
    destruct (subs_cnt_pos i t) as (j & w & p & Hin); [lia|]. by eapply Hnone. }
  split.
  - intros j w cb Hin. destruct (Hsubs j w cb Hin) as [? Hm]. split; [done|]. destruct cb as [k q|? ?|? ?]; [|done..]. destruct Hm as [-> (s & Hs & ?)]. split; [done|]. exists s. auto.
  - intros j p Hin. by apply elem_of_nil in Hin.
  - intros j s [[Hne Hs]|[-> ->]]%Hlk; [rewrite upd_ne by done; by apply Hcount|]. rewrite upd_eq, cnt_nil. change (subs_cnt i t') with (subs_cnt i t). rewrite Hz. cbn. lia.
  - intros j s [[Hne Hs]|[-> ->]]%Hlk; [rewrite !upd_ne by done; by apply Hsetup|]. split; [done|]. exists b, data. rewrite !upd_eq. cbn [su_block su_var]. split_and!; try done.
    + destruct (missing b) eqn:Em; [|done]. destruct (Hobj id b Hb) as [Hx _]. rewrite (Hx Em) in Hmo. done.
    + intros p w [?|Hin]; [done|]. by apply Hnone in Hin.
    + intros p Hp. auto.
  - intros j s b1 data1 [[Hne Hs]|[-> ->]]%Hlk Hex; [by apply (Hdone j s)|]. cbn. intros Hz' Hb1 Hmo1 Hne. change (object t id = Some b1) in Hb1. rewrite Hb in Hb1. injection Hb1 as <-. rewrite Hmo in Hmo1. injection Hmo1 as <-.
    destruct (parents_of data); [done|]. cbn in Hz'. lia.
  - intros w j Hw Hset. destruct (Hflag w j Hw Hset) as (k & s & Hs & ?). exists k, s. auto.
  - done.
Qed.

(** The invariant between operations: what a setup still waits for without a callback was reported missing. *)
Definition settled (R : BlockID -> Prop) t : Prop := exists miss, TInv R miss miss None [] t /\ forall i s p, setups t !! i = Some s -> p ∈ miss i -> ParentMissing (su_var s) (su_block s) p ∈ tangle_events t.

Lemma keeps_settled R miss t t' : keeps t t' -> TInv R miss miss None [] t' -> (forall i s p, setups t !! i = Some s -> p ∈ miss i -> ParentMissing (su_var s) (su_block s) p ∈ tangle_events t) -> settled R t'.
Proof.
  intros Hk Hinv Hm. exists miss. split; [done|]. intros i s' p Hs' Hp. destruct (lookup_lt_is_Some_2 (setups t) i) as [s Hs]; [rewrite <- (kp_length _ _ Hk); by eapply lookup_lt_Some|].
  destruct (kp_setup _ _ Hk i s Hs) as [n Hn]. rewrite Hn in Hs'. injection Hs' as <-. cbn. apply (kp_events _ _ Hk). by apply (Hm i).
Qed.
Lemma frame_settled R t t' : frame t t' -> (forall e, e ∈ tangle_events t -> e ∈ tangle_events t') -> settled R t -> settled R t'.
Proof. intros Hf He (miss & Hinv & Hm). exists miss. split; [by eapply frame_inv|]. intros i s p. rewrite (fr_setups _ _ Hf). eauto. Qed.

Lemma setupBlock_settled R v id t t' : settled R t -> roots_in delay R t -> v <> VInvalid -> setupBlock delay SlotEndTime txOf v id t = Ret t' -> settled R t' /\ evictionState t' = evictionState t.
Proof.
  intros (miss & Hinv & Hm) HR Hv. unfold setupBlock. intros (b & Hb%deref_Ret & Hr)%bind_Ret. apply bind_Ret in Hr as (data & Hmo%deref_Ret & Hr).
  set (t1 := with_setups _ t) in *. set (i := length (setups t)) in *. pose proof (new_setup_inv R miss miss v id b data t Hinv Hv Hb Hmo) as Hinv1. fold i t1 in Hinv1.
  assert (Hs : setups t1 !! i = Some (mkSetup v id (Z.of_nat (length (parents_of data))))) by (cbn; apply list_lookup_middle; done).
  destruct (setup_parents_inv R miss miss i v id (parents_of data) [] t1 t' (Z.of_nat (length (parents_of data)))) as (miss' & Hinv' & Hm' & Hk); [by rewrite app_nil_r|done|exact Hs|intros p Hp; by apply elem_of_nil in Hp|exact Hr|].
  split; [|by rewrite (kp_state _ _ Hk)]. exists (upd miss i miss'). split; [done|]. intros j s p Hj Hp. destruct (decide (j = i)) as [->|Hne].
  - rewrite upd_eq in Hp. destruct (kp_setup _ _ Hk i _ Hs) as [n Hn]. rewrite Hn in Hj. injection Hj as <-. by apply Hm'.
  - rewrite upd_ne in Hp by done. destruct (lookup_lt_is_Some_2 (setups t1) j) as [s0 Hs0]; [rewrite <- (kp_length _ _ Hk); by eapply lookup_lt_Some|].
    destruct (kp_setup _ _ Hk j s0 Hs0) as [n Hn]. rewrite Hn in Hj. injection Hj as <-. cbn. apply (kp_events _ _ Hk). change (tangle_events t1) with (tangle_events t). apply (Hm j); [|done].
    cbn in Hs0. apply lookup_app_Some in Hs0 as [?|[Hle Hx]]; [done|]. apply list_lookup_singleton_Some in Hx as [Hx _]. unfold i in Hne. lia.
Qed.

(** ** The operations *)

(** Blocks are filed under their slot, and the objects kept after eviction belong to evicted slots. *)
Record filed t : Prop := {
  fl_slot slot id b : blocks_in (cache t) slot !! id = Some b -> Slot id = slot;
  fl_cached id b : cached (cache t) id = Some b -> lastEvictedSlot (evictionState t) < Slot id;
  fl_detached id b : detached t !! id = Some b -> Slot id <= lastEvictedSlot (evictionState t);
}.
Lemma blocks_in_put id b c slot : blocks_in (put id b c) slot = if decide (slot = Slot id) then <[id := b]> (blocks_in c slot) else blocks_in c slot.
Proof. unfold put, blocks_in at 1. cbn. case_decide as Hd; [subst; by rewrite lookup_insert_eq|by rewrite lookup_insert_ne]. Qed.
Lemma filed_same t t' : filed t -> cache t' = cache t -> detached t' = detached t -> evictionState t' = evictionState t -> filed t'.
Proof. intros [H1 H2 H3] E1 E2 E3. split; rewrite ?E1, ?E2, ?E3; done. Qed.
Lemma filed_put id b t : filed t -> lastEvictedSlot (evictionState t) < Slot id -> filed (with_cache (put id b (cache t)) t).
Proof.
  intros [H1 H2 H3] Hid. split; cbn.
  - intros slot j b0. rewrite blocks_in_put. case_decide as Hd; [|apply H1]. subst slot. intros [[<- _]|[_ ?]]%lookup_insert_Some; [done|by eapply H1].
  - intros j b0. rewrite cached_put. case_decide as Hd; [by subst|apply H2].
  - done.
Qed.
Lemma filed_set_object id b b0 t : filed t -> object t id = Some b0 -> filed (set_object id b t).
Proof.
  intros Hf Hb. unfold set_object. destruct (cached (cache t) id) as [x|] eqn:E; [eapply filed_put; [done|by eapply fl_cached]|]. unfold object in Hb. rewrite E in Hb.
  destruct Hf as [H1 H2 H3]. split; cbn; try done. intros j b1 [[<- _]|[_ ?]]%lookup_insert_Some; eauto.
Qed.
Lemma filed_set_var v id t u cbs t' : filed t -> set_var v id t = Ret (u, cbs, t') -> filed t'.
Proof.
  intros Hf. unfold set_var. intros (b & Hb%deref_Ret & Hr)%bind_Ret. destruct (set_flag v b) as [updated b'].
  assert (Hs : filed (set_object id b' t)) by (by eapply filed_set_object). destruct updated; injection Hr as _ _ <-; [by eapply filed_same|done].
Qed.
Lemma filed_modify id f t : filed t -> filed (modify_object id f t).
Proof. intros Hf. unfold modify_object. destruct (object t id) as [b|] eqn:E; [by eapply filed_set_object|done]. Qed.

(** Storing an object that is new or was missing. *)
Lemma put_frame id b t : filed t -> lastEvictedSlot (evictionState t) < Slot id -> (missing b = true -> modelBlock b = None) -> rootBlk b = None ->
  match cached (cache t) id with Some b0 => b = b0 \/ missing b0 = true /\ missing b = false /\ rootBlk b = rootBlk b0 /\ forall v, flag v b = flag v b0 | None => forall v, flag v b = false end ->
  frame t (with_cache (put id b (cache t)) t).
Proof.
  intros Hf Hid Hm Hr Hc. split; [done..|]. intros j. assert (Ho : object (with_cache (put id b (cache t)) t) j = if decide (j = id) then Some b else object t j).
  { unfold object. cbn. rewrite cached_put. by case_decide. }
  rewrite Ho. destruct (decide (j = id)) as [->|Hne]; [|apply (fr_object _ _ (frame_refl t))]. unfold object. destruct (cached (cache t) id) as [b0|].
  - destruct Hc as [->|(Hm0 & Hmb & Hrb & Hfl)]; [exists b0; naive_solver|]. exists b. split_and!; try done; congruence.
  - destruct (detached t !! id) as [b0|] eqn:Ed; [apply (fl_detached _ Hf) in Ed; lia|]. intros b' [= <-]. done.
Qed.

Lemma filed_inherit id ps acc t r t' : filed t -> inherit_parents delay SlotEndTime txOf id ps acc t = Ret (r, t') -> filed t'.
Proof.
  intros Hf. revert acc. induction ps as [|[ty p] ps IH]; intros acc; cbn [inherit_parents]; [by intros [= _ <-]|]. intros ([b|] & _ & Hr)%bind_Ret; [|injection Hr as _ <-; by eapply filed_same].
  destruct ty; [by apply IH in Hr..|]. destruct (_ ≫= txOf); [|by injection Hr as _ <-]. destruct (bool_decide _); [by apply IH in Hr|by injection Hr as _ <-].
Qed.
Lemma filed_book id t r t' : filed t -> book_conflicts delay SlotEndTime txOf id t = Ret (r, t') -> filed t'.
Proof.
  intros Hf. unfold book_conflicts, inheritConflicts. intros ([c t1] & Hi & Hr)%bind_Ret. apply bind_Ret in Hi as (b & _ & Hi). apply bind_Ret in Hi as (d & _ & Hi). apply bind_Ret in Hi as ([a t2] & Hi & Ht).
  injection Ht as <- <-. apply filed_inherit in Hi; [|done]. destruct a as [acc|]; cbn in Hr; [|by injection Hr as _ <-]. destruct (existsb _ _); [by injection Hr as _ <-|].
  apply bind_Ret in Hr as (? & _ & Hr). apply bind_Ret in Hr as (? & _ & Hr). by injection Hr as _ <-.
Qed.
Lemma filed_complete v id t new t' : filed t -> complete delay SlotEndTime txOf v id t = Ret (new, t') -> filed t'.
Proof.
  intros Hf. unfold complete. destruct v.
  - intros ([[u cbs] t1] & Hv & Hr)%bind_Ret. injection Hr as _ <-. by eapply filed_set_var.
  - intros ([c t1] & Hb & Hr)%bind_Ret. apply (filed_book _ _ _ _ Hf) in Hb. destruct c as [c|]; apply bind_Ret in Hr as ([[u cbs] t2] & Hv & Hr); injection Hr as _ <-; (eapply filed_set_var; [|exact Hv]); [by apply filed_modify|done].
  - intros ([[u cbs] t1] & Hv & Hr)%bind_Ret. injection Hr as _ <-. by eapply filed_set_var.
Qed.
Lemma filed_run_task task t new t' : filed t -> run_task delay SlotEndTime txOf task t = Ret (new, t') -> filed t'.
Proof.
  intros Hf. destruct task as [[i p|child p|child p]|e]; cbn [run_task].
  - intros (s & _ & Hr)%bind_Ret. set (t0 := with_setups _ t) in *. assert (Hf0 : filed t0) by (by eapply filed_same). destruct (_ =? 0); [by eapply filed_complete|by injection Hr as _ <-].
  - intros ([[u cbs] t1] & Hv & Hr)%bind_Ret. injection Hr as _ <-. by eapply filed_set_var.
  - intros ([[u cbs] t1] & Hv & Hr)%bind_Ret. injection Hr as _ <-. by eapply filed_set_var.
  - intros [= _ <-]. by eapply filed_same.
Qed.
Lemma filed_run agenda t t' : filed t -> run delay SlotEndTime txOf agenda t = Ret t' -> filed t'.
Proof.
  unfold run. generalize (agenda_weight agenda + subs_weight t)%nat as fuel. intros fuel. revert agenda t. induction fuel as [|fuel IH]; intros [|task agenda] t Hf; cbn [run_tasks]; try (by intros [= <-]).
  intros ([new t1] & Ht & Hr)%bind_Ret. eapply IH; [|exact Hr]. by eapply filed_run_task.
Qed.
Lemma filed_OnUpdateOnce v id b cb t t' : filed t -> OnUpdateOnce delay SlotEndTime txOf v id b cb t = Ret t' -> filed t'.
Proof.
  intros Hf. unfold OnUpdateOnce. destruct (Block.IsRootBlock b); [destruct (flag v b); [by apply filed_run|by intros [= <-]]|]. destruct (flag v _); [by apply filed_run|]. intros [= <-]. by eapply filed_same.
Qed.
Lemma filed_setup_parents v i id ps t t' : filed t -> setup_parents delay SlotEndTime txOf v i id ps t = Ret t' -> filed t'.
Proof.
  revert t. induction ps as [|p ps IH]; intros t Hf; cbn [setup_parents]; [by intros [= <-]|]. intros (t1 & H1 & Hr)%bind_Ret. eapply IH; [|exact Hr]. unfold setup_parent in H1.
  apply bind_Ret in H1 as ([b|] & _ & H1); [|injection H1 as <-; by eapply filed_same]. apply bind_Ret in H1 as (t2 & H2 & H3). eapply filed_OnUpdateOnce; [|exact H3]. by eapply filed_OnUpdateOnce.
Qed.

(** Everything that holds between operations. *)
Definition good (R : BlockID -> Prop) t : Prop := settled R t /\ filed t /\ roots_in delay R t.
Lemma good_frame R t t' : good R t -> frame t t' -> (forall e, e ∈ tangle_events t -> e ∈ tangle_events t') -> filed t' -> evictionState t' = evictionState t -> good R t'.
Proof. intros (Hs & Hf & HR) Hfr He Hf' Hev. split; [by eapply frame_settled|]. split; [done|]. unfold roots_in. by rewrite Hev. Qed.
Lemma good_same R t t' : good R t -> subs t' = subs t -> setups t' = setups t -> cache t' = cache t -> detached t' = detached t -> evictionState t' = evictionState t ->
  (forall e, e ∈ tangle_events t -> e ∈ tangle_events t') -> good R t'.
Proof.
  intros Hg E1 E2 E3 E4 E5 He. eapply good_frame; [exact Hg| |done| |done].
  - apply frame_same; [done..|]. intros id. unfold object. by rewrite E3, E4.
  - eapply filed_same; [apply Hg|done..].
Qed.
Lemma good_setupBlock R v id t t' : good R t -> v <> VInvalid -> setupBlock delay SlotEndTime txOf v id t = Ret t' -> good R t'.
Proof.
  intros (Hs & Hf & HR) Hv Hr. destruct (setupBlock_settled R v id t t' Hs HR Hv Hr) as [Hs' Hev]. split; [done|]. split; [|unfold roots_in; by rewrite Hev].
  unfold setupBlock in Hr. apply bind_Ret in Hr as (b & _ & Hr). apply bind_Ret in Hr as (d & _ & Hr). eapply filed_setup_parents; [|exact Hr]. by eapply filed_same.
Qed.
(** Making a block invalid, with all that follows. *)
Lemma good_invalidate R id t u cbs t1 t' : good R t -> set_var VInvalid id t = Ret (u, cbs, t1) -> run delay SlotEndTime txOf (map Run cbs) t1 = Ret t' -> good R t'.
Proof.
  intros ((miss & Hinv & Hm) & Hf & HR) Hset Hr. pose proof (keeps_set_var _ _ _ _ _ _ Hset) as Hk1. pose proof (keeps_run _ _ _ _ _ _ Hr) as Hk2.
  pose proof (keeps_trans _ _ _ Hk1 Hk2) as Hk. split; [|split; [eapply filed_run; [|exact Hr]; by eapply filed_set_var|unfold roots_in; by rewrite (kp_state _ _ Hk)]].
  eapply keeps_settled; [exact Hk| |exact Hm]. eapply run_tasks_inv; [|exact Hr]. pose proof (runs_map cbs []) as Hrm. rewrite app_nil_r in Hrm. rewrite Hrm.
  apply (set_var_inv R miss miss None VInvalid id [] [] t u); [done|done|done|done|by left|done].
Qed.

(** *** The block DAG *)
Lemma canAttach_frame id ps t r t' : canAttachToParents delay id ps t = Ret (r, t') -> t' = t \/ t' = retainBlockFailure id BlockFailureParentIsTooOld t.
Proof.
  induction ps as [|p ps IH]; cbn [canAttachToParents]; [intros [= _ <-]; by left|]. intros (old & _ & Hr)%bind_Ret. apply bind_Ret in Hr as (root & _ & Hr).
  destruct (old && negb root); [injection Hr as _ <-; by right|auto].
Qed.
Lemma good_retain R id f t : good R t -> good R (retainBlockFailure id f t).
Proof. intros Hg. by eapply good_same. Qed.
Lemma good_trigger R e t : good R t -> good R (trigger_event e t).
Proof. intros Hg. eapply good_same; [done..|]. intros e' He. cbn. set_solver. Qed.
#[local] Hint Resolve good_retain good_trigger : core.

Lemma good_shouldAttach R data t a b t' : good R t -> shouldAttach delay SlotEndTime txOf data t = Ret (a, b, t') -> good R t'.
Proof.
  intros Hg. unfold shouldAttach. intros (old & _ & Hr)%bind_Ret. apply bind_Ret in Hr as (root & _ & Hr). destruct (old && negb root); [injection Hr as _ _ <-; auto|].
  apply bind_Ret in Hr as (stored & _ & Hr). destruct (match stored with Some b => _ | None => _ end); [by injection Hr as _ _ <-|].
  apply bind_Ret in Hr as ([valid t1] & Hc & Hr). assert (Hg1 : good R t1) by (apply canAttach_frame in Hc as [-> | ->]; auto).
  destruct stored; [|by injection Hr as _ _ <-]. destruct valid; cbn [negb] in Hr; [by injection Hr as _ _ <-|].
  apply bind_Ret in Hr as ([[u cbs] t2] & Hset & Hr). apply bind_Ret in Hr as (t3 & Hrun & Hr). injection Hr as _ _ <-. by eapply good_invalidate.
Qed.

Lemma good_put R id b t : good R t -> lastEvictedSlot (evictionState t) < Slot id -> (missing b = true -> modelBlock b = None) -> rootBlk b = None ->
  match cached (cache t) id with Some b0 => b = b0 \/ missing b0 = true /\ missing b = false /\ rootBlk b = rootBlk b0 /\ forall v, flag v b = flag v b0 | None => forall v, flag v b = false end ->
  good R (with_cache (put id b (cache t)) t).
Proof. intros Hg Hid Hm Hr Hc. eapply good_frame; [exact Hg|apply put_frame; try done; apply Hg|done|apply filed_put; [apply Hg|done]|done]. Qed.
Lemma good_object R t id b : good R t -> object t id = Some b -> (missing b = true -> modelBlock b = None) /\ rootBlk b = None.
Proof. intros ((miss & Hinv & _) & _). apply (ti_object _ _ _ _ _ _ Hinv). Qed.
Lemma cached_object t id b : cached (cache t) id = Some b -> object t id = Some b.
Proof. unfold object. by intros ->. Qed.

Lemma good_store R data t : good R t -> good R (with_cache (StoreOrUpdate data (evictionState t) (cache t)).2 t).
Proof.
  intros Hg. unfold StoreOrUpdate. destruct (Z.leb_spec (Slot (ID data)) (lastEvictedSlot (evictionState t))); [by eapply good_same|].
  destruct (cached (cache t) (ID data)) as [b|] eqn:E.
  - destruct (good_object _ _ _ _ Hg (cached_object _ _ _ E)) as [Hm Hr]. unfold Update. destruct (missing b) eqn:Em; cbn [negb snd]; apply good_put; try done; try (by rewrite Em).
    + rewrite E. right. split_and!; try done; by intros [].
    + rewrite E. by left.
  - cbn [snd]. apply good_put; try done. rewrite E. by intros [].
Qed.
Lemma good_request R id t b t' : good R t -> GetOrRequestBlock id t = (b, t') -> good R t' /\ match b with Some b => object t' id = Some b | None => True end.
Proof.
  intros Hg. unfold GetOrRequestBlock, GetOrCreate. destruct (Z.leb_spec (Slot id) (lastEvictedSlot (evictionState t))); [intros [= <- <-]; split; [by eapply good_same|done]|].
  destruct (cached (cache t) id) as [b0|] eqn:E; intros [= <- <-].
  - split; [by eapply good_same|]. apply cached_object. exact E.
  - split; [apply good_trigger, good_put; try done; rewrite E; by intros []|]. apply cached_object. cbn. by rewrite cached_put, decide_True.
Qed.
Lemma good_registerChild R child parent t t' : good R t -> registerChild delay child parent t = Ret t' -> good R t'.
Proof.
  intros Hg. unfold registerChild. intros (root & _ & Hr)%bind_Ret. destruct root; [by injection Hr as <-|]. destruct (GetOrRequestBlock parent.2 t) as [b t1] eqn:E. apply good_request with (R := R) in E as [Hg1 Hb]; [|done].
  injection Hr as <-. destruct b as [b|]; [|done]. eapply good_frame; [exact Hg1| | | |].
  - eapply frame_set_object; [exact Hb|..]; unfold AppendChild; destruct parent.1; try done; by intros [].
  - destruct (set_object_fields parent.2 (AppendChild child parent.1 b) t1) as (_ & _ & -> & _). done.
  - eapply filed_set_object; [apply Hg1|exact Hb].
  - apply set_object_fields.
Qed.
Lemma good_registerChildren R child ps t t' : good R t -> registerChildren delay child ps t = Ret t' -> good R t'.
Proof. revert t. induction ps as [|p ps IH]; intros t Hg; cbn [registerChildren]; [by intros [= <-]|]. intros (t1 & H1 & Hr)%bind_Ret. eapply IH; [|exact Hr]. by eapply good_registerChild. Qed.
Lemma good_attach R data t a t' : good R t -> attach delay SlotEndTime txOf data t = Ret (a, t') -> good R t'.
Proof.
  intros Hg. unfold attach. intros ([[should e] t1] & H1 & Hr)%bind_Ret. apply (good_shouldAttach _ _ _ _ _ _ Hg) in H1. destruct should; cbn [negb] in Hr; [|by injection Hr as _ <-].
  pose proof (good_store R data t1 H1) as H2. destruct (StoreOrUpdate data (evictionState t1) (cache t1)) as [[[b evicted] updated] c]. cbn [snd] in H2. destruct evicted; [injection Hr as _ <-; auto|].
  apply bind_Ret in Hr as (t2 & Hr & Ht). injection Ht as _ <-. eapply good_registerChildren; [|exact Hr]. destruct updated; auto.
Qed.
Lemma good_Attach R latest data t a t' : good R t -> Attach delay SlotEndTime txOf latest data t = Ret (a, t') -> good R t'.
Proof.
  intros Hg. unfold Attach. intros ([was t1] & H1 & Hr)%bind_Ret. apply (good_attach _ _ _ _ _ Hg) in H1. destruct was; cbn [negb] in Hr; [|by injection Hr as _ <-].
  destruct (AddWithFunc _ _ _ _) as [added u]. set (t2 := with_buffer u _) in *. assert (Hg2 : good R t2) by (eapply good_same; [exact H1|done..|]; intros e He; cbn; set_solver).
  destruct added; [by injection Hr as _ <-|]. apply bind_Ret in Hr as (t3 & Hr & Ht). injection Ht as _ <-. eapply good_setupBlock; [exact Hg2| |exact Hr]; done.
Qed.
Lemma good_commitment R commitment t t' : good R t -> LatestCommitmentUpdated delay SlotEndTime txOf commitment t = Ret t' -> good R t'.
Proof.
  intros Hg. unfold LatestCommitmentUpdated. destruct (GetValuesAndEvict _ _) as [ids u]. assert (Hg' : good R (with_buffer u t)) by (by eapply good_same). revert Hg'. generalize (with_buffer u t). clear Hg t.
  induction ids as [|id ids IH]; intros t Hg; cbn [setupBlocks]; [by intros [= <-]|]. intros (t1 & H1 & Hr)%bind_Ret. eapply IH; [|exact Hr]. eapply good_setupBlock; [exact Hg| |exact H1]; done.
Qed.

(** *** The booker *)
Lemma good_Queue R id r t a t' : good R t -> Queue delay SlotEndTime txOf id r t = Ret (a, t') -> good R t'.
Proof.
  intros Hg. unfold Queue. destruct r as [| |tx].
  - intros (t1 & H1 & Hr)%bind_Ret. injection Hr as _ <-. eapply good_setupBlock; [exact Hg| |exact H1]; done.
  - intros [= _ <-]. auto.
  - intros [= _ <-]. by eapply good_same.
Qed.
Lemma good_SignaturesValid R id tx t t' : good R t -> SignaturesValid delay SlotEndTime txOf id tx t = Ret t' -> good R t'.
Proof.
  intros Hg. unfold SignaturesValid. intros (b & _ & Hr)%bind_Ret. apply bind_Ret in Hr as (c & _ & Hr). set (t1 := with_waiting _ _ t) in *. assert (Hg1 : good R t1) by (by eapply good_same).
  destruct (orphaned_for _ _); [|injection Hr as <-; by eapply good_same]. apply bind_Ret in Hr as ([[u cbs] t2] & Hset & Hr). by eapply good_invalidate.
Qed.
Lemma good_TransactionBooked R id tx c t t' : good R t -> TransactionBooked delay SlotEndTime txOf id tx c t = Ret t' -> good R t'.
Proof.
  intros Hg. unfold TransactionBooked. set (t1 := with_waiting _ _ t). assert (Hg1 : good R t1) by (by eapply good_same). apply good_setupBlock; [|done].
  destruct (object t1 id) as [b|] eqn:E; unfold modify_object; rewrite E; [|done]. eapply good_frame; [exact Hg1|eapply frame_set_object; [exact E|by intros []|done..]| | |].
  - destruct (set_object_fields id (with_payloadConflictIDs c b) t1) as (_ & _ & -> & _). done.
  - eapply filed_set_object; [apply Hg1|exact E].
  - apply set_object_fields.
Qed.

(** *** Steps *)
Definition is_root t (q : BlockID) : Prop := exists c, RootBlockCommitmentID delay q (evictionState t) = Ret (Some c).

(** What may happen: the ledger and the root blocks change, slots are evicted one after the other. *)
Inductive op : Tangle LC -> Tangle LC -> Prop :=
| op_attach latest data t a t' : Attach delay SlotEndTime txOf latest data t = Ret (a, t') -> op t t'
| op_commitment commitment t t' : LatestCommitmentUpdated delay SlotEndTime txOf commitment t = Ret t' -> op t t'
| op_queue id r t a t' : Queue delay SlotEndTime txOf id r t = Ret (a, t') -> op t t'
| op_signatures id tx t t' : SignaturesValid delay SlotEndTime txOf id tx t = Ret t' -> op t t'
| op_booked id tx c t t' : TransactionBooked delay SlotEndTime txOf id tx c t = Ret t' -> op t t'
| op_ledger view t : op t (with_view view t)
| op_roots e t : lastEvictedSlot e = lastEvictedSlot (evictionState t) -> op t (with_evictionState e t)
| op_evict e t : AdvanceActiveWindowToIndex delay (lastEvictedSlot (evictionState t) + 1) (evictionState t) = Ret e ->
    op t (EvictSlot (lastEvictedSlot (evictionState t) + 1) e t).

(** Reachable states, with the blocks that were root blocks on the way. *)
Inductive reachable : (BlockID -> Prop) -> Tangle LC -> Prop :=
| reach_new e view u : reachable (is_root (NewTangle e view u)) (NewTangle e view u)
| reach_op R t t' : reachable R t -> op t t' -> reachable (fun q => R q \/ is_root t' q) t'.

Lemma TInv_mono (R R' : BlockID -> Prop) extra todo ex ag t : (forall q, R q -> R' q) -> TInv R extra todo ex ag t -> TInv R' extra todo ex ag t.
Proof.
  intros HR [Hsubs Hag Hcount Hsetup Hdone Hflag Hobj]. assert (Hsat : forall v q, sat R t v q -> sat R' t v q) by (intros v q [?|?]; [left; auto|by right]). split; try done.
  - intros i p (s & Hs & Hp)%Hag. exists s. auto.
  - intros i s Hs. destruct (Hsetup i s Hs) as (Hnv & b & data & Hb & Hmi & Hmo & Hpar & Hq). split; [done|]. exists b, data. split_and!; try done. intros q [H1 H2]%Hq.
    split; [destruct H1 as [?|[?|?]]; auto|destruct H2 as [?|[?|[?|[?|?]]]]; auto 6].
Qed.
Lemma settled_mono (R R' : BlockID -> Prop) t : (forall q, R q -> R' q) -> settled R t -> settled R' t.
Proof. intros HR (miss & Hinv & Hm). exists miss. split; [by eapply TInv_mono|done]. Qed.

Lemma EvictSlot_object e t id : filed t -> object (EvictSlot (lastEvictedSlot (evictionState t) + 1) e t) id = object t id.
Proof.
  intros Hf. set (slot := lastEvictedSlot (evictionState t) + 1). unfold object. cbn. rewrite cached_evict, lookup_union. destruct (decide (Slot id = slot)) as [Hs|Hs].
  - unfold cached. rewrite Hs. destruct (blocks_in (cache t) slot !! id) as [b|] eqn:E; [|by rewrite (left_id_L None _)]. by destruct (detached t !! id).
  - destruct (cached (cache t) id); [done|]. destruct (blocks_in (cache t) slot !! id) as [b|] eqn:E; [by apply (fl_slot _ Hf) in E|]. by rewrite (left_id_L None _).
Qed.
Lemma settled_evict R e t : settled R t -> filed t -> settled R (EvictSlot (lastEvictedSlot (evictionState t) + 1) e t).
Proof. intros Hs Hf. apply (frame_settled R t); [|done|exact Hs]. apply frame_same; [done..|]. intros id. by apply EvictSlot_object. Qed.
Lemma filed_evict e t : filed t -> lastEvictedSlot e = lastEvictedSlot (evictionState t) + 1 -> filed (EvictSlot (lastEvictedSlot (evictionState t) + 1) e t).
Proof.
  intros [H1 H2 H3] He. split; cbn.
  - intros slot id b. unfold blocks_in, EvictUntil. cbn. rewrite lookup_delete. destruct (decide _); [cbn; by rewrite lookup_empty|]. apply H1.
  - intros id b. rewrite cached_evict, He. case_decide as Hs; [done|]. intros Hb. apply H2 in Hb. lia.
  - intros id b. rewrite He. intros [Hb|[_ Hb]]%lookup_union_Some_raw; [apply H1 in Hb; lia|apply H3 in Hb; lia].
Qed.

Lemma op_good R t t' : good R t -> op t t' -> good (fun q => R q \/ is_root t' q) t'.
Proof.
  intros Hg Hop. assert (Hweak : good R t' -> good (fun q => R q \/ is_root t' q) t').
  { intros (Hs & Hf & HR). split; [eapply settled_mono; [|exact Hs]; by left|]. split; [done|]. intros q c Hq. right. by exists c. }
  assert (Hnew : settled R t' -> filed t' -> good (fun q => R q \/ is_root t' q) t').
  { intros Hs Hf. split; [eapply settled_mono; [|exact Hs]; by left|]. split; [done|]. intros q c Hq. right. by exists c. }
  destruct Hop as [latest data t a t' Hr|commitment t t' Hr|id r t a t' Hr|id tx t t' Hr|id tx c t t' Hr|view t|e t He|e t He].
  - by eapply Hweak, good_Attach.
  - by eapply Hweak, good_commitment.
  - by eapply Hweak, good_Queue.
  - by eapply Hweak, good_SignaturesValid.
  - by eapply Hweak, good_TransactionBooked.
  - apply Hweak. by eapply good_same.
  - destruct Hg as (Hs & [H1 H2 H3] & _). apply Hnew; [apply (frame_settled R t); [|done|exact Hs]; by apply frame_same|]. split; cbn; rewrite ?He; done.
  - destruct Hg as (Hs & Hf & _). apply Hnew; [by apply settled_evict|]. apply filed_evict; [done|]. by eapply Advance_last.
Qed.

Lemma reachable_good R t : reachable R t -> good R t.
Proof.
  induction 1 as [e view u|R t t' _ IH Hop]; [|by eapply op_good]. assert (Hcb : forall j w, callbacks (NewTangle e view u) j w = []) by (intros; unfold callbacks; cbn; by rewrite lookup_empty).
  assert (Ho : forall j, object (NewTangle e view u) j = None) by (intros j; unfold object, cached, blocks_in; cbn; rewrite lookup_empty; cbn; by rewrite !lookup_empty). split; [|split].
  - exists (fun _ => []). split; [|done]. split; try done.
    + intros j w cb. rewrite Hcb. intros Hin. by apply elem_of_nil in Hin.
    + intros i p Hin. by apply elem_of_nil in Hin.
    + intros w j _ (b & Hb & _). by rewrite Ho in Hb.
  - split; cbn; [|intros id b; unfold cached|]; unfold blocks_in; cbn; intros *; rewrite !lookup_empty; done.
  - intros q c Hq. by exists c.
Qed.

(** ** The theorems *)

(** A block that is solid or booked was set up for it. *)
Definition set_up t (v : Var) (id : BlockID) : Prop := exists i s, setups t !! i = Some s /\ su_var s = v /\ su_block s = id.
Definition reported t (v : Var) (id : BlockID) : Prop := exists p, ParentMissing v id p ∈ tangle_events t.

(** C20 In every state the block DAG and the booker reach, whatever the order in which blocks arrive, commitments are made, transactions are
    booked, the ledger and the root blocks change and slots are evicted: (1) all parents of a solid (booked) block are solid (booked) or were
    root blocks; (2) a block that was set up without a missing parent, whose parents are all solid (booked), is solid (booked, or
    invalid), so none is left waiting; (3) a block that was set up without a missing parent is invalid as soon as
    one of its parents is that never was a root block. *)
Theorem solid_and_booked R t v id b data : reachable R t -> v = VSolid \/ v = VBooked -> object t id = Some b -> modelBlock b = Some data ->
  (flag v b = true -> forall p, p ∈ parents_of data -> R p \/ is_set t v p) /\
  (set_up t v id -> ~ reported t v id -> parents_of data <> [] -> (forall p, p ∈ parents_of data -> is_set t v p) -> flag v b = true \/ v = VBooked /\ invalid b = true) /\
  (set_up t v id -> ~ reported t v id -> forall p, p ∈ parents_of data -> is_set t VInvalid p -> R p \/ invalid b = true).
Proof.
  intros ((miss & Hinv & Hm) & _)%reachable_good Hv Hb Hmo.
  assert (Hset : forall w, is_set t w id <-> flag w b = true) by (intros w; unfold is_set; rewrite Hb; split; [by intros (? & [= <-] & ?)|eauto]).
  assert (Hwait : forall w i p, CountDown i p ∈ callbacks t p w -> ~ is_set t w p).
  { intros w i p ((b0 & Hb0 & Hf) & _)%(ti_subs _ _ _ _ _ _ Hinv) (b1 & Hb1 & Hf1). congruence. }
  assert (Hmiss : set_up t v id -> ~ reported t v id -> exists i s, setups t !! i = Some s /\ su_var s = v /\ su_block s = id /\ miss i = []).
  { intros (i & s & Hs & <- & <-) Hn. exists i, s. split_and!; try done. destruct (miss i) as [|p l] eqn:E; [done|]. exfalso. apply Hn. exists p. apply (Hm i); [done|]. rewrite E. by left. }
  assert (Hdata : forall i s, setups t !! i = Some s -> su_block s = id ->
    (forall p w, p ∈ miss i \/ CountDown i p ∈ callbacks t p w -> p ∈ parents_of data) /\
    forall p, p ∈ parents_of data -> (sat R t (su_var s) p \/ CountDown i p ∈ callbacks t p (su_var s) \/ p ∈ miss i) /\ (p ∈ miss i \/ R p \/ inv_cb s p ∈ callbacks t p VInvalid \/ inv_cb s p ∈ [] \/ is_set t VInvalid (su_block s))).
  { intros i s Hs Hbl. destruct (ti_setup _ _ _ _ _ _ Hinv i s Hs) as (_ & b0 & data0 & Hb0 & _ & Hmo0 & Hpar & Hp). rewrite Hbl, Hb in Hb0. injection Hb0 as <-. rewrite Hmo in Hmo0. injection Hmo0 as <-. done. }
  split_and!.
  - intros Hf%Hset p Hp. destruct (ti_flag _ _ _ _ _ _ Hinv v id) as (i & s & Hs & <- & Hbl & Hz); [by destruct Hv as [-> | ->]|done|]. pose proof (ti_count _ _ _ _ _ _ Hinv i s Hs) as Hc. rewrite cnt_nil in Hc. pose proof (subs_cnt_nonneg i t) as Hnn.
    destruct (proj2 (Hdata i s Hs Hbl) p Hp) as [[?|[Hin|Hin]] _]; [done| |destruct (miss i); [by apply elem_of_nil in Hin|cbn [length] in Hc; lia]].
    pose proof (subs_cnt_in i _ _ _ _ Hin). lia.
  - intros Hup Hrep Hne Hall. destruct (Hmiss Hup Hrep) as (i & s & Hs & Hsv & Hbl & Hmi). pose proof (ti_count _ _ _ _ _ _ Hinv i s Hs) as Hc. rewrite cnt_nil, Hmi in Hc. cbn [length] in Hc.
    assert (Hz : su_count s = 0).
    { pose proof (subs_cnt_nonneg i t). destruct (decide (subs_cnt i t = 0)); [lia|]. exfalso. destruct (subs_cnt_pos i t) as (j & w & p & Hin); [lia|].
      pose proof (ti_subs _ _ _ _ _ _ Hinv _ _ _ Hin) as (_ & -> & s' & Hs' & <-). rewrite Hs in Hs'. injection Hs' as <-. apply (Hwait _ _ _ Hin). rewrite Hsv. apply Hall. apply (proj1 (Hdata i s Hs Hbl) j (su_var s)). by right. }
    assert (Hb' : object t (su_block s) = Some b) by (by rewrite Hbl). pose proof (ti_done _ _ _ _ _ _ Hinv i s b data Hs) as Hd. rewrite Hbl, Hsv in Hd. rewrite !Hset in Hd. by apply Hd.
  - intros Hup Hrep p Hp Hi. destruct (Hmiss Hup Hrep) as (i & s & Hs & Hsv & Hbl & Hmi). destruct (proj2 (Hdata i s Hs Hbl) p Hp) as [_ Hw]. rewrite Hmi, Hbl, Hset in Hw.
    destruct Hw as [Hw|[?|[Hw|[Hw|?]]]]; [by apply elem_of_nil in Hw|by left| |by apply elem_of_nil in Hw|by right].
    exfalso. apply (ti_subs _ _ _ _ _ _ Hinv) in Hw as ((b0 & Hb0 & Hf) & _). destruct Hi as (b1 & Hb1 & Hf1). congruence.
Qed.

(** ** Running callbacks ends *)
Definition lookup_ends t : Prop := forall id, RootBlockCommitmentID delay id (evictionState t) <> OutOfFuel.

Lemma bind_no_fuel {A B} (m : outcome A) (f : A -> outcome B) : m <> OutOfFuel -> (forall a, m = Ret a -> f a <> OutOfFuel) -> (m ≫= f) <> OutOfFuel.
Proof. destruct m; cbn; auto. Qed.
Lemma deref_no_fuel {A} (o : option A) : deref o <> OutOfFuel.
Proof. by destruct o. Qed.
Lemma block_commitment_no_fuel b : block_slotCommitmentID b <> OutOfFuel.
Proof. unfold block_slotCommitmentID. destruct (missing b); [done|]. destruct (rootBlk b); [done|]. by destruct (modelBlock b). Qed.
#[local] Hint Resolve deref_no_fuel block_commitment_no_fuel bind_no_fuel : core.

Lemma set_var_no_fuel v id t : set_var v id t <> OutOfFuel.
Proof. unfold set_var. apply bind_no_fuel; [auto|]. intros b _. destruct (set_flag v b) as [[] ?]; done. Qed.
Lemma inherit_no_fuel id ps acc t : lookup_ends t -> inherit_parents delay SlotEndTime txOf id ps acc t <> OutOfFuel.
Proof.
  intros Hl. revert acc. induction ps as [|[ty p] ps IH]; intros acc; cbn [inherit_parents]; [done|]. apply bind_no_fuel; [unfold BlockOf; apply bind_no_fuel; [apply Hl|done]|].
  intros [b|] _; [|done]. destruct ty; [apply IH..|]. destruct (_ ≫= txOf); [|done]. by destruct (bool_decide _).
Qed.
Lemma book_no_fuel id t : lookup_ends t -> book_conflicts delay SlotEndTime txOf id t <> OutOfFuel.
Proof.
  intros Hl. unfold book_conflicts, inheritConflicts. apply bind_no_fuel.
  - apply bind_no_fuel; [auto|]. intros b _. apply bind_no_fuel; [auto|]. intros d _. apply bind_no_fuel; [by apply inherit_no_fuel|]. by intros [].
  - intros [[c|] t1] _; [|done]. destruct (existsb _ _); [done|]. apply bind_no_fuel; [auto|]. intros b _. apply bind_no_fuel; [auto|done].
Qed.
Lemma run_task_no_fuel task t : lookup_ends t -> run_task delay SlotEndTime txOf task t <> OutOfFuel.
Proof.
  intros Hl. destruct task as [[i p|child p|child p]|e]; cbn [run_task]; [|apply bind_no_fuel; [apply set_var_no_fuel|by intros [[] ?]]..|done].
  apply bind_no_fuel; [auto|]. intros s _. destruct (_ =? 0); [|done]. unfold complete. destruct (su_var s); [apply bind_no_fuel; [apply set_var_no_fuel|by intros [[] ?]]| |apply bind_no_fuel; [apply set_var_no_fuel|by intros [[] ?]]].
  apply bind_no_fuel; [by apply book_no_fuel|]. intros [[c|] t1] _; (apply bind_no_fuel; [apply set_var_no_fuel|by intros [[] ?]]).
Qed.

(** C21 Running callbacks ends: however the blocks refer to each other and whatever callbacks are registered, the cascade of solid,
    booked and invalid blocks that one event sets off is finite, as long as root blocks can be looked up. *)
Theorem propagation_ends agenda t : lookup_ends t -> run delay SlotEndTime txOf agenda t <> OutOfFuel.
Proof.
  unfold run. assert (Hf : forall fuel agenda t, lookup_ends t -> (agenda_weight agenda + subs_weight t <= fuel)%nat -> run_tasks delay SlotEndTime txOf fuel agenda t <> OutOfFuel); [|intros Hl; by apply Hf].
  clear agenda t. intros fuel. induction fuel as [|fuel IH]; intros [|task agenda] t Hl Hle; cbn [run_tasks]; try done.
  - exfalso. destruct task; cbn in Hle; lia.
  - apply bind_no_fuel; [by apply run_task_no_fuel|]. intros [new t1] E. pose proof (run_task_weight _ _ _ _ _ _ _ E) as Hw. apply IH; [unfold lookup_ends; by rewrite (kp_state _ _ (keeps_run_task _ _ _ _ _ _ _ E))|].
    rewrite agenda_weight_app. cbn in Hle. unfold agenda_weight in *. lia.
Qed.
End Ops.

(** ** A sample run *)
Module TangleDemo.
#[local] Instance demo_order : RangeOrder BlockID := canonical_order BlockID.
#[local] Instance demo_lru : LruCache unit := {| lru_new _ := tt; lru_put _ c := (None, c); lru_keys _ := ∅ |}.

Definition view : LedgerView := mkLedgerView (fun _ => None) (fun s => s) (fun s => s) (fun _ => None).
Definition no_tx (_ : ModelBlock) : option TransactionID := None.
Definition end_time (slot : SlotIndex) : Z := slot.
(** Blocks 21 and 22 of slot 7; 21 has the root block 5 as parent, 22 has block 21 and the root block. *)
Definition block21 : ModelBlock := mkModelBlock (mkBlockID 21 7) 1 0 (mkCommitmentID 0 0) Basic [(StrongParentType, Eviction.root 5)] 1.
Definition block22 : ModelBlock := mkModelBlock (mkBlockID 22 7) 1 0 (mkCommitmentID 0 0) Basic [(StrongParentType, ID block21); (WeakParentType, Eviction.root 5)] 1.
Definition t0 : Tangle unit := NewTangle roots view (NewUnsolidCommitmentBuffer 10 None).
Definition state_of {A} (r : outcome (A * Tangle unit)) : Tangle unit := match r with Ret (_, t) => t | _ => t0 end.
(** The child arrives first. *)
Definition t1 : Tangle unit := state_of (Attach 3 end_time no_tx 0 block22 t0).
Definition t2 : Tangle unit := state_of (Attach 3 end_time no_tx 0 block21 t1).

Lemma child_waits : is_set t1 VSolid (ID block22) -> False.
Proof. intros (b & Hb & Hf). vm_compute in Hb. injection Hb as <-. by vm_compute in Hf. Qed.

Lemma solid_and_booked_witness : exists R b, reachable 3 end_time no_tx R t2 /\ object t2 (ID block22) = Some b /\ solid b = true /\
  (forall p, p ∈ parents_of block22 -> R p \/ is_set t2 VSolid p).
Proof.
  assert (H1 : op 3 end_time no_tx t0 t1) by (apply (op_attach 3 end_time no_tx 0 block22 t0 true t1); vm_compute; reflexivity).
  assert (H2 : op 3 end_time no_tx t1 t2) by (apply (op_attach 3 end_time no_tx 0 block21 t1 true t2); vm_compute; reflexivity).
  set (b := match object t2 (ID block22) with Some b => b | None => NewBlock block22 end).
  assert (Hb : object t2 (ID block22) = Some b) by (vm_compute; reflexivity). assert (Hs : solid b = true) by (vm_compute; reflexivity).
  assert (Hr : reachable 3 end_time no_tx (fun q => (is_root 3 t0 q \/ is_root 3 t1 q) \/ is_root 3 t2 q) t2).
  { apply (reach_op _ _ _ (fun q => is_root 3 t0 q \/ is_root 3 t1 q) t1 t2); [|exact H2]. apply (reach_op _ _ _ (is_root 3 t0) t0 t1); [|exact H1]. apply reach_new. }
  eexists _, b. split; [exact Hr|]. split; [exact Hb|]. split; [exact Hs|]. apply (solid_and_booked 3 end_time no_tx _ t2 VSolid (ID block22) b block22 Hr); [by left|exact Hb|vm_compute; reflexivity|exact Hs].
Defined.

Lemma propagation_ends_witness : run 3 end_time no_tx [Run (InvalidInDAG (ID block22) (ID block21))] t1 <> OutOfFuel.
Proof. apply (propagation_ends 3 end_time no_tx). intros id. unfold RootBlockCommitmentID. destruct (withinActiveIndexRange 3 (Slot id) (evictionState t1)) as [a| |] eqn:E; [done|done|]. exfalso. vm_compute in E. discriminate E. Defined.
End TangleDemo.
