(* ===== verification/Notarization.v ===== *)
(** * Committing slots (engine/notarization/slotnotarization)

    The notarization manager collects the accepted blocks of each slot and, when a slot is old enough, asks the other parts of the
    engine for their roots and builds the commitment of the slot on top of the latest one.

    The other parts are an interface: [Committer] are their operations on a state [X] of their own (attestations, ledger, sybil protection, upgrade
    orchestrator, reference mana cost, the handlers of the manager's events and the storage of roots).
    [CommitterSpec] is what the manager relies on: the orchestrator does not touch the latest commitment in the settings it shares with the manager.
    Parameters: the root of a set of blocks, the ID of the roots, the minimum committable age and the slot of a time.
    Whether the set of accepted blocks, the roots, the commitment and the latest commitment can be written is answered by the interface as well; a write that fails changes nothing on the device.
    Times are nanoseconds.  Worker pools and locks are left out. *)
From Stdlib Require Import Strings.Byte.
From S2P Require Import Prelude Bytes Block TimeApi Streams Settings Commitments.

(** iotago.Roots, in the order of NewRoots. *)
Record Roots := mkRoots {
  TangleRoot : Z; StateMutationRoot : Z; AttestationsRoot : Z; StateRoot : Z; AccountRoot : Z; CommitteeRoot : Z; RewardsRoot : Z; ProtocolParametersHash : Z;
}.

(** ** Accepted blocks per slot (slotmutations.go) *)
Record SlotMutations := mkSlotMutations { acceptedBlocksBySlot : gmap SlotIndex (gset BlockID); latestCommittedIndex : SlotIndex }.
Definition NewSlotMutations (lastCommittedSlot : SlotIndex) : SlotMutations := mkSlotMutations ∅ lastCommittedSlot.
(** [AcceptedBlocks] with createIfMissing; the set is shared, so adding to it changes the entry. *)
Definition AcceptedBlocks (index : SlotIndex) (m : SlotMutations) : gset BlockID * SlotMutations :=
  let s := default ∅ (acceptedBlocksBySlot m !! index) in (s, mkSlotMutations (<[index := s]> (acceptedBlocksBySlot m)) (latestCommittedIndex m)).
(** Returns false for the error. *)
Definition AddAcceptedBlock (id : BlockID) (m : SlotMutations) : bool * SlotMutations :=
  if Slot id <=? latestCommittedIndex m then (false, m)
  else let '(s, m) := AcceptedBlocks (Slot id) m in (true, mkSlotMutations (<[Slot id := {[id]} ∪ s]> (acceptedBlocksBySlot m)) (latestCommittedIndex m)).
Definition AcceptedBlocksCount (index : SlotIndex) (m : SlotMutations) : Z := match acceptedBlocksBySlot m !! index with Some s => Z.of_nat (size s) | None => 0 end.
Definition mut_evictUntil (index : SlotIndex) (m : SlotMutations) : SlotMutations :=
  let from := u32 (latestCommittedIndex m + 1) in
  mkSlotMutations (foldl (fun x i => delete i x) (acceptedBlocksBySlot m) (seqZ from (index - from + 1))) index.
Definition Evict (index : SlotIndex) (m : SlotMutations) : bool * SlotMutations := if index <=? latestCommittedIndex m then (false, m) else (true, mut_evictUntil index m).
(** [for i := latestCommittedIndex; i > index; i--] *)
Definition Reset_ (index : SlotIndex) (m : SlotMutations) : SlotMutations :=
  mkSlotMutations (foldl (fun x i => delete i x) (acceptedBlocksBySlot m) (seqZ (index + 1) (latestCommittedIndex m - index))) index.

(** ** The manager (manager.go) *)
Class Committer (P Params X : Type) := {
  AddAttestationFromValidationBlock : Block -> X -> X;
  att_Commit : SlotIndex -> eprog X (Z * Z);                       (* cumulative weight, root *)
  ledger_CommitSlot : SlotIndex -> eprog X (Z * Z * Z);            (* state, mutations, accounts *)
  sybil_CommitSlot : SlotIndex -> eprog X (Z * Z);                 (* committee, rewards *)
  upgrade_Commit : SlotIndex -> eprog (Settings.Settings P Params * X) Z;
  rmc_CommitSlot : SlotIndex -> eprog X Z;
  (** whether the writes of createCommitment succeed, in their order *)
  blocks_committed : SlotIndex -> X -> bool;
  roots_accessible : SlotIndex -> X -> bool;
  roots_stored : SlotIndex -> X -> bool;
  commitment_stored : SlotIndex -> X -> bool;
  latest_stored : SlotIndex -> X -> bool;
  onSlotCommitted : Commitment -> X -> X;
  onLatestCommitmentUpdated : Commitment -> X -> X;
}.
Class CommitterSpec (P Params X : Type) `{CM : Committer P Params X} : Prop := {
  upgrade_keeps_commitment slot st x r st' x' : upgrade_Commit slot (st, x) = Ret (r, (st', x')) -> Settings.storeLatestCommitment st' = Settings.storeLatestCommitment st;
}.

Section Manager.
Context {P Params X : Type} `{EBP : EpochBasedProvider P Params} `{CC : CommitmentCodec} `{CM : !Committer P Params X}
  (ads_Root : gset BlockID -> Z) (Roots_ID : Roots -> Z) (MinCommittableAge : SlotIndex -> Z) (SlotFromTime : Z -> SlotIndex).

Inductive Event := SlotCommitted (c : Commitment) (acceptedBlocks : gset BlockID) | LatestCommitmentUpdated (c : Commitment).
Record Manager := mkManager {
  settings : Settings.Settings P Params;
  commitments : Commitments.Commitments;
  rootsStorage : gmap SlotIndex (gmap CommitmentID Roots);
  slotMutations : SlotMutations;
  others : X;
  notarized : gset BlockID;                                        (* block.SetNotarized *)
  stopped : bool;
  events : list Event;
  errors : Z;                                                      (* calls of the error handler *)
}.
Definition with_settings v m := mkManager v (commitments m) (rootsStorage m) (slotMutations m) (others m) (notarized m) (stopped m) (events m) (errors m).
Definition with_commitments v m := mkManager (settings m) v (rootsStorage m) (slotMutations m) (others m) (notarized m) (stopped m) (events m) (errors m).
Definition with_roots v m := mkManager (settings m) (commitments m) v (slotMutations m) (others m) (notarized m) (stopped m) (events m) (errors m).
Definition with_mutations v m := mkManager (settings m) (commitments m) (rootsStorage m) v (others m) (notarized m) (stopped m) (events m) (errors m).
Definition with_others v m := mkManager (settings m) (commitments m) (rootsStorage m) (slotMutations m) v (notarized m) (stopped m) (events m) (errors m).
Definition add_notarized id m := mkManager (settings m) (commitments m) (rootsStorage m) (slotMutations m) (others m) ({[id]} ∪ notarized m) (stopped m) (events m) (errors m).
Definition trigger e m := mkManager (settings m) (commitments m) (rootsStorage m) (slotMutations m) (others m) (notarized m) (stopped m) (events m ++ [e]) (errors m).
Definition errorHandler m := mkManager (settings m) (commitments m) (rootsStorage m) (slotMutations m) (others m) (notarized m) (stopped m) (events m) (errors m + 1).
Definition NewManager (st : Settings.Settings P Params) (cs : Commitments.Commitments) (rs : gmap SlotIndex (gmap CommitmentID Roots)) (x : X) : outcome Manager :=
  c ← Settings.LatestCommitment st; Ret (mkManager st cs rs (NewSlotMutations (commitment_Slot c)) x ∅ false [] 0).
Definition Shutdown m := mkManager (settings m) (commitments m) (rootsStorage m) (slotMutations m) (others m) (notarized m) true (events m) (errors m).

(** A call of another part. *)
Definition on_others {A} (f : eprog X A) : eprog Manager A := fun m => '(r, x) ← f (others m); Ret (r, with_others x m).
Definition on_shared {A} (f : eprog (Settings.Settings P Params * X) A) : eprog Manager A := fun m => '(r, (st, x)) ← f (settings m, others m); Ret (r, with_others x (with_settings st m)).
Definition latest_commitment : eprog Manager Commitment := fun m => c ← Settings.LatestCommitment (settings m); Ret (Some c, m).

(** A write that may fail. *)
Definition device (answer : X -> bool) : eprog Manager unit := fun m => Ret (if answer (others m) then Some tt else None, m).
(** If the latest commitment cannot be stored the rest of [SetLatestCommitment] has happened. *)
Definition set_latest (stored : bool) (c : Commitment) (st : Settings.Settings P Params) : Settings.Settings P Params :=
  let st' := Settings.SetLatestCommitment c st in if stored then st' else Settings.with_commitment (Settings.storeLatestCommitment st) st'.
Definition createCommitment (slot : SlotIndex) : eprog Manager Commitment :=
  latestCommitment ← latest_commitment;
  if negb (slot =? u32 (commitment_Slot latestCommitment + 1)) then throw
  else
    acceptedBlocks ← (fun m => let '(s, mu) := AcceptedBlocks slot (slotMutations m) in Ret (Some s, with_mutations mu m));
    _ ← device (blocks_committed slot);
    '(cumulativeWeight, attestationsRoot) ← on_others (att_Commit slot);
    '(stateRoot, mutationRoot, accountRoot) ← on_others (ledger_CommitSlot slot);
    '(committeeRoot, rewardsRoot) ← on_others (sybil_CommitSlot slot);
    api ← eread (fun m => VersionForSlot (Settings.apiProvider (settings m)) slot);
    protocolParametersAndVersionsHash ← on_shared (upgrade_Commit slot);
    let roots := mkRoots (ads_Root acceptedBlocks) mutationRoot attestationsRoot stateRoot accountRoot committeeRoot rewardsRoot protocolParametersAndVersionsHash in
    rmc ← on_others (rmc_CommitSlot slot);
    newCommitment ← etry (CommitmentFromCommitment (mkIotaCommitment api slot (commitmentID latestCommitment) (Roots_ID roots) cumulativeWeight rmc) api);
    _ ← device (roots_accessible slot);
    _ ← device (roots_stored slot);
    _ ← eupdate (fun m => with_roots (<[slot := <[commitmentID newCommitment := roots]> (default ∅ (rootsStorage m !! slot))]> (rootsStorage m)) m);
    _ ← device (commitment_stored slot);
    _ ← eupdate (fun m => with_commitments (Commitments.Store_ newCommitment (commitments m)) m);
    _ ← eupdate (fun m => with_others (onSlotCommitted newCommitment (others m)) (trigger (SlotCommitted newCommitment acceptedBlocks) m));
    _ ← (fun m => let stored := latest_stored slot (others m) in Ret (if stored then Some tt else None, with_settings (set_latest stored newCommitment (settings m)) m));
    _ ← eupdate (fun m => with_others (onLatestCommitmentUpdated newCommitment (others m)) (trigger (LatestCommitmentUpdated newCommitment) m));
    _ ← eupdate (fun m => let '(ok, mu) := Evict slot (slotMutations m) in let m := with_mutations mu m in if ok then m else errorHandler m);
    mret newCommitment.

Definition isCommittable (slot acceptedBlockSlot : SlotIndex) : bool := u32 (slot + MinCommittableAge slot) <=? acceptedBlockSlot.
(** The loop over the slots, [None] when it returns early. *)
Fixpoint try_slots (slots : list SlotIndex) (acceptedBlockIndex : SlotIndex) (m : Manager) : outcome Manager :=
  match slots with
  | [] => Ret m
  | i :: slots =>
      if stopped m then Ret m
      else if negb (isCommittable i acceptedBlockIndex) then Ret m
      else
        '(r, m) ← createCommitment i m;
        match r with None => Ret (errorHandler m) | Some _ => try_slots slots acceptedBlockIndex m end
  end.
(** [for i := latest + 1; i <= acceptedBlockIndex; i++] *)
Definition slots_until (latest until : SlotIndex) : list SlotIndex := let from := u32 (latest + 1) in seqZ from (until - from + 1).
Definition tryCommitSlotUntil (acceptedBlockIndex : SlotIndex) (m : Manager) : outcome Manager :=
  c ← Settings.LatestCommitment (settings m); try_slots (slots_until (commitment_Slot c) acceptedBlockIndex) acceptedBlockIndex m.
Definition tryCommitUntil (commitUntilSlot : SlotIndex) (m : Manager) : outcome Manager :=
  c ← Settings.LatestCommitment (settings m);
  if commitment_Slot c <? commitUntilSlot then tryCommitSlotUntil commitUntilSlot m else Ret m.

Definition ForceCommit (slot : SlotIndex) : eprog Manager Commitment :=
  s ← eread stopped;
  if s : bool then throw else createCommitment slot.
Fixpoint force_slots (slots : list SlotIndex) : eprog Manager unit :=
  match slots with [] => mret tt | i :: slots => _ ← ForceCommit i; force_slots slots end.
Definition ForceCommitUntil (commitUntilSlot : SlotIndex) : eprog Manager unit :=
  c ← latest_commitment; force_slots (slots_until (commitment_Slot c) commitUntilSlot).

(** Returns false for the error. *)
Definition notarizeAcceptedBlock (b : Block) (m : Manager) : outcome (bool * Manager) :=
  id ← block_id b;
  let '(ok, mu) := AddAcceptedBlock id (slotMutations m) in
  let m := with_mutations mu m in
  Ret (ok, if ok then with_others (AddAttestationFromValidationBlock b (others m)) m else m).
(** The hook on accepted blocks. *)
Definition AcceptedBlockProcessed (b : Block) (m : Manager) : outcome Manager :=
  '(ok, m) ← notarizeAcceptedBlock b m;
  let m := if ok : bool then m else errorHandler m in
  id ← block_id b;
  m ← tryCommitUntil (Slot id) m;
  Ret (add_notarized id m).

Definition IsBootstrapped (acceptedTime : Z) (m : Manager) : outcome bool :=
  c ← Settings.LatestCommitment (settings m);
  let latestIndex := commitment_Slot c in
  Ret (SlotFromTime acceptedTime <=? u32 (latestIndex + MinCommittableAge latestIndex)).
Definition manager_AcceptedBlocksCount (index : SlotIndex) (m : Manager) : Z := AcceptedBlocksCount index (slotMutations m).
End Manager.
Arguments Manager P Params X : clear implicits.
