(* ===== verification/Clock.v ===== *)
(** * Clocks and sync status (engine/clock/blocktime, engine/syncmanager/trivialsyncmanager)

    The clock follows the times of accepted and confirmed blocks and of finalized slots; between updates a relative time runs
    with the local clock.  The sync manager keeps the latest slots and decides whether the node is bootstrapped and synced.

    Times are integers (nanoseconds since the Unix epoch), durations are int64, and the difference of two times saturates.  The local clock is read once per
    operation ([now]).  Locks and worker pools are left out; a commitment pointer is the commitment's address. *)
From S2P Require Import Prelude Block TimeApi.

(** time.Time.Sub: the difference, saturated. *)
Definition time_Sub (a b : Z) : Z := Z.max (- 2 ^ 63) (Z.min (2 ^ 63 - 1) (a - b)).
(** The zero value of time.Time: January 1 of year 1. *)
Definition zero_time : Z := -62135596800 * 1000000000.

(** ** Relative time (relativetime.go) *)
Record RelativeTime := mkRelativeTime { rt_time : Z; timeUpdateOffset : Z; OnUpdated : list Z }.
Definition NewRelativeTime : RelativeTime := mkRelativeTime zero_time zero_time [].
Definition rt_Time (c : RelativeTime) : Z := rt_time c.
Definition rt_RelativeTime (now : Z) (c : RelativeTime) : Z := rt_time c + time_Sub now (timeUpdateOffset c).
Definition rt_Set (now newTime : Z) (c : RelativeTime) : bool * RelativeTime :=
  if newTime <? rt_time c then (false, c) else (true, mkRelativeTime newTime now (OnUpdated c ++ [newTime])).
Definition determineTimeUpdateOffset (now newTime : Z) (c : RelativeTime) : Z :=
  let diff := time_Sub now (timeUpdateOffset c) in
  let lag := time_Sub newTime (rt_time c + diff) in
  let diff := if lag <? 0 then i64 (diff + lag) else diff in
  timeUpdateOffset c + diff.
Definition Advance (now newTime : Z) (c : RelativeTime) : bool * RelativeTime :=
  if newTime <? rt_time c then (false, c)
  else (true, mkRelativeTime newTime (determineTimeUpdateOffset now newTime c) (OnUpdated c ++ [newTime])).

(** ** The clock (clock.go) *)
Record Clock := mkClock { acceptedTime : RelativeTime; confirmedTime : RelativeTime }.
Definition NewClock (now committedSlotEnd finalizedSlotEnd : Z) : Clock :=
  mkClock (rt_Set now committedSlotEnd NewRelativeTime).2 (rt_Set now finalizedSlotEnd NewRelativeTime).2.
Definition advanceAccepted (now time : Z) (c : Clock) : Clock := mkClock (Advance now time (acceptedTime c)).2 (confirmedTime c).
Definition advanceConfirmed (now time : Z) (c : Clock) : Clock := mkClock (acceptedTime c) (Advance now time (confirmedTime c)).2.
Definition onSlotFinalized (now slotEndTime : Z) (c : Clock) : Clock :=
  mkClock (Advance now slotEndTime (acceptedTime c)).2 (Advance now slotEndTime (confirmedTime c)).2.
Record ClockSnapshot := mkClockSnapshot { AcceptedTime : Z; RelativeAcceptedTime : Z; ConfirmedTime : Z; RelativeConfirmedTime : Z }.
Definition clock_Snapshot (now : Z) (c : Clock) : ClockSnapshot :=
  mkClockSnapshot (rt_Time (acceptedTime c)) (rt_RelativeTime now (acceptedTime c)) (rt_Time (confirmedTime c)) (rt_RelativeTime now (confirmedTime c)).

(** *** The clock never goes backwards

    [updates] are the times the clock was advanced to, with the local times at which that happened, the latest first.  *)
Definition sane (t : Z) : Prop := 0 <= t < 2 ^ 62.
Definition ref_time (updates : list (Z * Z)) (start : Z * Z) (now : Z) : Z := foldr (fun u acc => Z.max (u.2 + (now - u.1)) acc) (start.2 + (now - start.1)) updates.
Definition run_updates (updates : list (Z * Z)) (c : RelativeTime) : RelativeTime := foldr (fun u c => (Advance u.1 u.2 c).2) c updates.
(** Local times do not decrease, and are not before the start. *)
Fixpoint ordered (updates : list (Z * Z)) (start now : Z) : Prop :=
  match updates with [] => start <= now | u :: updates => u.1 <= now /\ ordered updates start u.1 end.

Lemma time_Sub_id a b : - 2 ^ 63 <= a - b < 2 ^ 63 -> time_Sub a b = a - b.
Proof. unfold time_Sub. lia. Qed.

(** The anchor (offset, time) of the relative time: between the start and now, and the relative time is sane. *)
Record anchored (start now : Z) (c : RelativeTime) : Prop := {
  an_offset : start <= timeUpdateOffset c <= now;
  an_time : sane (rt_time c);
}.
Lemma ref_time_shift ups start now d : ref_time ups start (now + d) = ref_time ups start now + d.
Proof. unfold ref_time. induction ups as [|u l IH]; cbn; [lia|]. rewrite IH. lia. Qed.
Lemma RelativeTime_shift start now d c : anchored start now c -> sane start -> sane now -> sane (now + d) -> 0 <= d -> rt_RelativeTime (now + d) c = rt_RelativeTime now c + d.
Proof. intros [H1 H2] ???? . unfold rt_RelativeTime, sane in *. rewrite !time_Sub_id by lia. lia. Qed.

Lemma Advance_spec start now newTime c : anchored start now c -> sane start -> sane now -> sane newTime ->
  let c' := (Advance now newTime c).2 in anchored start now c' /\ rt_RelativeTime now c' = Z.max (rt_RelativeTime now c) newTime /\ rt_time c' = Z.max (rt_time c) newTime.
Proof.
  intros [H1 H2] Hs Hn Ht. unfold Advance, sane in *. destruct (Z.ltb_spec newTime (rt_time c)); cbn.
  { split; [by split|]. unfold rt_RelativeTime. rewrite time_Sub_id by lia. lia. }
  unfold determineTimeUpdateOffset, rt_RelativeTime. rewrite (time_Sub_id now (timeUpdateOffset c)) by lia. rewrite (time_Sub_id newTime) by lia. cbn.
  set (lag := newTime - _). destruct (Z.ltb_spec lag 0).
  - rewrite (wrap_id Int64) by (unfold in_range, lag; cbn; lia). unfold lag. rewrite time_Sub_id by lia. split; [|lia]. split; cbn; unfold sane; lia.
  - rewrite time_Sub_id by lia. unfold lag in *. split; [|lia]. split; cbn; unfold sane; lia.
Qed.

Lemma run_updates_spec ups start t0 now : sane start -> sane t0 -> sane now -> ordered ups start now -> Forall (fun u => sane u.1 /\ sane u.2) ups ->
  let c := run_updates ups (mkRelativeTime t0 start []) in anchored start now c /\ rt_RelativeTime now c = ref_time ups (start, t0) now.
Proof.
  intros Hs Ht0. revert now. induction ups as [|[n t] ups IH]; intros now Hn Ho Hf; cbn [ordered] in Ho.
  - cbn. split; [by split|]. unfold rt_RelativeTime, sane in *. cbn. rewrite time_Sub_id by lia. lia.
  - destruct Ho as [Hle Ho]. cbn in Hle. apply Forall_cons in Hf as [[Hn1 Ht1] Hf]. cbn in Hn1, Ht1. destruct (IH n Hn1 Ho Hf) as [Ha Hr]. cbn [run_updates foldr] in *. fold (run_updates ups (mkRelativeTime t0 start [])) in *.
    set (c := run_updates ups _) in *. destruct (Advance_spec start n t c Ha Hs Hn1 Ht1) as (Ha' & Hr' & _). set (c' := (Advance n t c).2) in *. cbn [fst snd].
    assert (Hnow : now = n + (now - n)) by lia. assert (Hsane : sane (n + (now - n))) by (by rewrite <- Hnow). split.
    + fold c'. destruct Ha' as [? ?]. split; [lia|done].
    + fold c'. pose proof (RelativeTime_shift start n (now - n) c' Ha' Hs Hn1 Hsane) as E1. rewrite <- Hnow in E1. rewrite E1, Hr', Hr by lia.
      pose proof (ref_time_shift ups (start, t0) n (now - n)) as E2. rewrite <- Hnow in E2. change (ref_time ((n, t) :: ups) (start, t0) now) with (Z.max (t + (now - n)) (ref_time ups (start, t0) now)). lia.
Qed.

(** The relative time of a clock is the latest of all its updates, each of them run on with the local clock: after a start at [t0] and any
    sequence of advances, with a local clock that never goes back, it is the maximum of [t + (now - n)] over the start and all updates to [t] at
    local time [n], whether an update was taken, adjusted or ignored.  So it never goes back, and is never behind an update. *)
Theorem relative_time_is_maximum ups start t0 now : sane start -> sane t0 -> sane now -> ordered ups start now -> Forall (fun u => sane u.1 /\ sane u.2) ups ->
  rt_RelativeTime now (run_updates ups (rt_Set start t0 NewRelativeTime).2) = ref_time ups (start, t0) now.
Proof.
  intros Hs Ht0 Hn Ho Hf. assert (Hset : forall l, rt_RelativeTime now (run_updates ups (mkRelativeTime t0 start l)) = rt_RelativeTime now (run_updates ups (mkRelativeTime t0 start []))).
  { intros l. assert (Heq : forall l', rt_time (run_updates ups (mkRelativeTime t0 start l)) = rt_time (run_updates ups (mkRelativeTime t0 start l')) /\ timeUpdateOffset (run_updates ups (mkRelativeTime t0 start l)) = timeUpdateOffset (run_updates ups (mkRelativeTime t0 start l'))).
    { intros l'. clear Ho Hf. induction ups as [|u ups IH]; [done|]. cbn [run_updates foldr]. fold (run_updates ups (mkRelativeTime t0 start l)) (run_updates ups (mkRelativeTime t0 start l')). destruct IH as [E1 E2].
      unfold Advance, determineTimeUpdateOffset. rewrite E1, E2. case_match; cbn; by rewrite ?E1, ?E2. }
    unfold rt_RelativeTime. destruct (Heq []) as [-> ->]. done. }
  unfold rt_Set. unfold sane in Ht0. rewrite (proj2 (Z.ltb_ge t0 _)) by (cbn; unfold zero_time; lia). cbn [snd]. rewrite Hset. by apply run_updates_spec.
Qed.
Lemma relative_time_is_maximum_witness : rt_RelativeTime 50 (run_updates [(40, 120); (30, 100); (20, 105)] (rt_Set 10 90 NewRelativeTime).2) = 135
  /\ ref_time [(40, 120); (30, 100); (20, 105)] (10, 90) 50 = 135.
Proof.
  assert (E : ref_time [(40, 120); (30, 100); (20, 105)] (10, 90) 50 = 135) by reflexivity. split; [|exact E].
  rewrite (relative_time_is_maximum [(40, 120); (30, 100); (20, 105)] 10 90 50); [exact E|unfold sane; lia..|cbn; lia|]. repeat constructor; unfold sane; cbn; lia.
Defined.

(** ** Sync status *)
Module SyncManager.
Record Manager := mkManager {
  lastAcceptedBlockSlot : SlotIndex;
  lastConfirmedBlockSlot : SlotIndex;
  latestCommitment : Z;                      (* the pointer *)
  latestFinalizedSlot : SlotIndex;
  lastPrunedEpoch : EpochIndex;
  hasPruned : bool;
  isSynced : bool;
  isBootstrapped : bool;
  updates : list (bool * SlotIndex * SlotIndex * Z * SlotIndex * EpochIndex * bool);     (* UpdatedStatus events *)
}.
Definition updatePrunedEpoch (index : EpochIndex) (pruned : bool) (s : Manager) : bool * Manager :=
  if lastPrunedEpoch s =? index then (false, s)
  else (true, mkManager (lastAcceptedBlockSlot s) (lastConfirmedBlockSlot s) (latestCommitment s) (latestFinalizedSlot s) index pruned (isSynced s) (isBootstrapped s) (updates s)).
(** [pruned] is Storage.LastPrunedEpoch. *)
Definition NewSync (commitment : Z) (commitmentSlot finalizedSlot : SlotIndex) (pruned : EpochIndex * bool) : Manager :=
  (updatePrunedEpoch pruned.1 pruned.2 (mkManager commitmentSlot commitmentSlot commitment finalizedSlot 0 false false false [])).2.
Definition SyncStatus (s : Manager) := (isSynced s, lastAcceptedBlockSlot s, lastConfirmedBlockSlot s, latestCommitment s, latestFinalizedSlot s, lastPrunedEpoch s, hasPruned s).
Definition triggerUpdate (s : Manager) : Manager :=
  mkManager (lastAcceptedBlockSlot s) (lastConfirmedBlockSlot s) (latestCommitment s) (latestFinalizedSlot s) (lastPrunedEpoch s) (hasPruned s) (isSynced s) (isBootstrapped s) (updates s ++ [SyncStatus s]).
Definition updateLastAcceptedBlock (id : BlockID) (s : Manager) : bool * Manager :=
  if lastAcceptedBlockSlot s <? Slot id then (true, mkManager (Slot id) (lastConfirmedBlockSlot s) (latestCommitment s) (latestFinalizedSlot s) (lastPrunedEpoch s) (hasPruned s) (isSynced s) (isBootstrapped s) (updates s)) else (false, s).
Definition updateLastConfirmedBlock (id : BlockID) (s : Manager) : bool * Manager :=
  if lastConfirmedBlockSlot s <? Slot id then (true, mkManager (lastAcceptedBlockSlot s) (Slot id) (latestCommitment s) (latestFinalizedSlot s) (lastPrunedEpoch s) (hasPruned s) (isSynced s) (isBootstrapped s) (updates s)) else (false, s).
Definition updateLatestCommitment (c : Z) (s : Manager) : bool * Manager :=
  if latestCommitment s =? c then (false, s) else (true, mkManager (lastAcceptedBlockSlot s) (lastConfirmedBlockSlot s) c (latestFinalizedSlot s) (lastPrunedEpoch s) (hasPruned s) (isSynced s) (isBootstrapped s) (updates s)).
Definition updateFinalizedSlot (index : SlotIndex) (s : Manager) : bool * Manager :=
  if latestFinalizedSlot s =? index then (false, s) else (true, mkManager (lastAcceptedBlockSlot s) (lastConfirmedBlockSlot s) (latestCommitment s) index (lastPrunedEpoch s) (hasPruned s) (isSynced s) (isBootstrapped s) (updates s)).

Section Status.
Context (syncThreshold bootstrappedThreshold : Z).
(** The default bootstrapped function; [notarized] is Notarization.IsBootstrapped. *)
Definition optsIsBootstrapped (now : Z) (clock : Clock) (notarized : bool) : bool := (time_Sub now (rt_RelativeTime now (acceptedTime clock)) <? bootstrappedThreshold) && notarized.
Definition updateBootstrappedStatus (boot : bool) (s : Manager) : Manager :=
  if negb (isBootstrapped s) && boot then mkManager (lastAcceptedBlockSlot s) (lastConfirmedBlockSlot s) (latestCommitment s) (latestFinalizedSlot s) (lastPrunedEpoch s) (hasPruned s) (isSynced s) true (updates s) else s.
Definition updateSyncStatus (now : Z) (clock : Clock) (s : Manager) : bool * Manager :=
  let synced := isBootstrapped s && (time_Sub now (rt_RelativeTime now (acceptedTime clock)) <? syncThreshold) in
  if negb (Bool.eqb (isSynced s) synced) then (true, mkManager (lastAcceptedBlockSlot s) (lastConfirmedBlockSlot s) (latestCommitment s) (latestFinalizedSlot s) (lastPrunedEpoch s) (hasPruned s) (negb (isSynced s)) (isBootstrapped s) (updates s)) else (false, s).

(** The hooks of NewProvider. *)
Definition notify (r : bool * Manager) : Manager := if r.1 then triggerUpdate r.2 else r.2.
Definition onBlockAccepted (id : BlockID) (s : Manager) : Manager := notify (updateLastAcceptedBlock id s).
Definition onBlockConfirmed (id : BlockID) (s : Manager) : Manager := notify (updateLastConfirmedBlock id s).
Definition onSlotFinalized (index : SlotIndex) (s : Manager) : Manager := notify (updateFinalizedSlot index s).
Definition onStoragePruned (index : EpochIndex) (s : Manager) : Manager := notify (updatePrunedEpoch index true s).
Definition onLatestCommitmentUpdated (now : Z) (clock : Clock) (notarized : bool) (c : Z) (s : Manager) : Manager :=
  let s := if negb (isBootstrapped s) then updateBootstrappedStatus (optsIsBootstrapped now clock notarized) s else s in
  let '(syncChanged, s) := updateSyncStatus now clock s in
  let '(commitmentChanged, s) := updateLatestCommitment c s in
  if syncChanged || commitmentChanged then triggerUpdate s else s.

(** The status after a new commitment: synced exactly when bootstrapped and the accepted time is recent. *)
Lemma synced_after_commitment now clock notarized c s : let s' := onLatestCommitmentUpdated now clock notarized c s in
  isSynced s' = isBootstrapped s' && (time_Sub now (rt_RelativeTime now (acceptedTime clock)) <? syncThreshold) /\ isBootstrapped s' = isBootstrapped s || optsIsBootstrapped now clock notarized.
Proof.
  destruct s as [a b cm f ep pr synced boot ups]. unfold onLatestCommitmentUpdated, updateBootstrappedStatus, updateSyncStatus, updateLatestCommitment, triggerUpdate. cbn [isBootstrapped isSynced latestCommitment].
  generalize (optsIsBootstrapped now clock notarized) (time_Sub now (rt_RelativeTime now (acceptedTime clock)) <? syncThreshold). intros o k. destruct synced, boot, o, k; cbn; by destruct (cm =? c).
Qed.

(** Pruning epoch 0 goes unnoticed. *)
Lemma prune_epoch_zero_unnoticed s : lastPrunedEpoch s = 0 -> hasPruned s = false -> onStoragePruned 0 s = s.
Proof. intros H1 H2. unfold onStoragePruned, updatePrunedEpoch. by rewrite H1. Qed.
End Status.
End SyncManager.
