(* ===== verification/NotarizationProps.v ===== *)
(** * The commitments form a chain

    Whatever is accepted and whatever the other parts answer, the stored commitments form a chain without gaps, each over exactly the
    blocks that were notarized for its slot; a failed attempt leaves the chain as it was, but for what it stored for the next slot; and slots are committed as soon as they are old enough. *)
From Stdlib Require Import Strings.Byte.
From S2P Require Import Prelude Bytes Block TimeApi Streams Settings Commitments Notarization.

Section Props.
Context {P Params X : Type} `{EBP : EpochBasedProvider P Params} `{CC : CommitmentCodec} `{CM : !Committer P Params X} `{CS : !CommitterSpec P Params X}
  (ads_Root : gset BlockID -> Z) (Roots_ID : Roots -> Z) (MinCommittableAge : SlotIndex -> Z).
Implicit Types m : Manager P Params X.
Abbreviation create := (createCommitment ads_Root Roots_ID).

(** ** One attempt *)
Definition accepted_in m (slot : SlotIndex) : gset BlockID := default ∅ (acceptedBlocksBySlot (slotMutations m) !! slot).
(** What an attempt leaves alone until all roots are there. *)
Record kept m m' : Prop := {
  kp_latest : Settings.storeLatestCommitment (settings m') = Settings.storeLatestCommitment (settings m);
  kp_commitments : commitments m' = commitments m;
  kp_roots : rootsStorage m' = rootsStorage m;
  kp_index : latestCommittedIndex (slotMutations m') = latestCommittedIndex (slotMutations m);
  kp_accepted slot : accepted_in m' slot = accepted_in m slot;
  kp_stopped : stopped m' = stopped m;
  kp_evs : events m' = events m;
}.
Lemma kept_refl m : kept m m.
Proof. done. Qed.
Lemma kept_trans m1 m2 m3 : kept m1 m2 -> kept m2 m3 -> kept m1 m3.
Proof. intros [] []. split; congruence. Qed.
Lemma kept_others x m : kept m (with_others x m).
Proof. done. Qed.
Lemma kept_errors m : kept m (errorHandler m).
Proof. done. Qed.

Lemma eprog_bind_inv {S A B} (f : eprog S A) (g : A -> eprog S B) s r s' : (f ≫= g) s = Ret (r, s') ->
  (exists a s1, f s = Ret (Some a, s1) /\ g a s1 = Ret (r, s')) \/ (r = None /\ f s = Ret (None, s')).
Proof. unfold mbind, eprog_bind. destruct (f s) as [[[a|] s1]| |]; intros E; try discriminate E; [left; eauto|]. injection E as <- <-. by right. Qed.
Lemma on_others_kept {A} (f : eprog X A) m r m' : on_others f m = Ret (r, m') -> kept m m'.
Proof. unfold on_others. intros ([r0 x] & _ & E)%bind_Ret. injection E as _ <-. apply kept_others. Qed.
Lemma on_shared_kept slot m r m' : on_shared (upgrade_Commit slot) m = Ret (r, m') -> kept m m'.
Proof. unfold on_shared. intros ([r0 [st x]] & Hu & E)%bind_Ret. injection E as _ <-. split; try done. cbn. by eapply upgrade_keeps_commitment. Qed.
Lemma AcceptedBlocks_kept slot m s mu : AcceptedBlocks slot (slotMutations m) = (s, mu) -> s = accepted_in m slot /\ kept m (with_mutations mu m).
Proof.
  unfold AcceptedBlocks. intros [= <- <-]. split; [done|]. split; try done. intros j. unfold accepted_in. cbn. destruct (decide (slot = j)) as [->|]; [by rewrite lookup_insert_eq|by rewrite lookup_insert_ne].
Qed.

(** All the writes of a successful attempt. *)
Definition finish (slot : SlotIndex) (c : Commitment) (roots : Roots) (acc : gset BlockID) m : Manager P Params X :=
  let m := with_roots (<[slot := <[commitmentID c := roots]> (default ∅ (rootsStorage m !! slot))]> (rootsStorage m)) m in
  let m := with_commitments (Commitments.Store_ c (commitments m)) m in
  let m := with_others (onSlotCommitted c (others m)) (trigger (SlotCommitted c acc) m) in
  let m := with_settings (Settings.SetLatestCommitment c (settings m)) m in
  let m := with_others (onLatestCommitmentUpdated c (others m)) (trigger (LatestCommitmentUpdated c) m) in
  let '(ok, mu) := Evict slot (slotMutations m) in let m := with_mutations mu m in if ok then m else errorHandler m.

(** The roots are stored; and also the commitment is, which is announced, but cannot be made the latest one. *)
Definition roots_written (slot : SlotIndex) (c : Commitment) (roots : Roots) m : Manager P Params X := with_roots (<[slot := <[commitmentID c := roots]> (default ∅ (rootsStorage m !! slot))]> (rootsStorage m)) m.
Definition announced (slot : SlotIndex) (c : Commitment) (roots : Roots) (acc : gset BlockID) m : Manager P Params X :=
  let m := with_commitments (Commitments.Store_ c (commitments m)) (roots_written slot c roots m) in
  let m := with_others (onSlotCommitted c (others m)) (trigger (SlotCommitted c acc) m) in
  with_settings (set_latest false c (settings m)) m.
Lemma device_kept answer m r m' : device answer m = Ret (r, m') -> m' = m.
Proof. unfold device. by intros [= _ <-]. Qed.
Lemma create_inv slot m r m' latest : create slot m = Ret (r, m') -> Settings.storeLatestCommitment (settings m) = Some latest -> exists m1, kept m m1 /\
  (r = None /\ m' = m1 \/
   exists c api w rmc roots, slot = u32 (commitment_Slot latest + 1) /\
    CommitmentFromCommitment (mkIotaCommitment api slot (commitmentID latest) (Roots_ID roots) w rmc) api = Some c /\ TangleRoot roots = ads_Root (accepted_in m slot) /\
    (r = None /\ m' = roots_written slot c roots m1 \/ r = None /\ m' = announced slot c roots (accepted_in m slot) m1 \/ r = Some c /\ m' = finish slot c roots (accepted_in m slot) m1)).
Proof.
  intros Hc Hl. unfold createCommitment in Hc. apply eprog_bind_inv in Hc as [(l & m0 & H0 & Hc)|[_ H0]]; unfold latest_commitment, Settings.LatestCommitment, Settings.latestCommitment in H0; rewrite Hl in H0; [|discriminate H0].
  assert (Hend : forall m1, kept m m1 -> r = None -> m' = m1 -> exists m1, kept m m1 /\ (r = None /\ m' = m1 \/ exists c api w rmc roots, slot = u32 (commitment_Slot latest + 1) /\
    CommitmentFromCommitment (mkIotaCommitment api slot (commitmentID latest) (Roots_ID roots) w rmc) api = Some c /\ TangleRoot roots = ads_Root (accepted_in m slot) /\
    (r = None /\ m' = roots_written slot c roots m1 \/ r = None /\ m' = announced slot c roots (accepted_in m slot) m1 \/ r = Some c /\ m' = finish slot c roots (accepted_in m slot) m1))) by (intros m1 Hk -> ->; exists m1; auto).
  cbn in H0. injection H0 as <- <-. destruct (Z.eqb_spec slot (u32 (commitment_Slot latest + 1))) as [Hs|]; cbn [negb] in Hc; [|injection Hc as <- <-; by apply (Hend m (kept_refl m))].
  apply eprog_bind_inv in Hc as [(acc & m1 & H1 & Hc)|[-> H1]]; destruct (AcceptedBlocks slot (slotMutations m)) as [s mu] eqn:Ea; [|discriminate H1]. injection H1 as <- <-. destruct (AcceptedBlocks_kept slot m s mu Ea) as [-> Hk]. clear Ea.
  apply eprog_bind_inv in Hc as [([] & m1 & H1 & Hc)|[-> H1]]; apply device_kept in H1; subst; [|by eapply Hend].
  apply eprog_bind_inv in Hc as [([w ar] & m2 & H2 & Hc)|[-> H2]]; pose proof (on_others_kept _ _ _ _ H2) as Hk2; pose proof (kept_trans _ _ _ Hk Hk2) as Hk12; [|by eapply Hend]. clear H2 Hk Hk2.
  apply eprog_bind_inv in Hc as [([[sr mr] acr] & m3 & H3 & Hc)|[-> H3]]; pose proof (on_others_kept _ _ _ _ H3) as Hk3; pose proof (kept_trans _ _ _ Hk12 Hk3) as Hk13; [|by eapply Hend]. clear H3 Hk12 Hk3.
  apply eprog_bind_inv in Hc as [([cr rr] & m4 & H4 & Hc)|[-> H4]]; pose proof (on_others_kept _ _ _ _ H4) as Hk4; pose proof (kept_trans _ _ _ Hk13 Hk4) as Hk14; [|by eapply Hend]. clear H4 Hk13 Hk4.
  apply eprog_bind_inv in Hc as [(api & m5 & H5 & Hc)|[_ H5]]; [injection H5 as <- <-|discriminate H5].
  apply eprog_bind_inv in Hc as [(ph & m6 & H6 & Hc)|[-> H6]]; pose proof (on_shared_kept _ _ _ _ H6) as Hk6; pose proof (kept_trans _ _ _ Hk14 Hk6) as Hk16; [|by eapply Hend]. clear H6 Hk14 Hk6.
  apply eprog_bind_inv in Hc as [(rmc & m7 & H7 & Hc)|[-> H7]]; pose proof (on_others_kept _ _ _ _ H7) as Hk7; pose proof (kept_trans _ _ _ Hk16 Hk7) as Hk17; [|by eapply Hend]. clear H7 Hk16 Hk7.
  apply eprog_bind_inv in Hc as [(c & m8 & H8 & Hc)|[-> H8]]; unfold etry in H8; [injection H8 as Hcom <-|injection H8 as _ <-; by eapply Hend].
  apply eprog_bind_inv in Hc as [([] & m8 & H8 & Hc)|[-> H8]]; apply device_kept in H8; subst; [|by eapply Hend].
  apply eprog_bind_inv in Hc as [([] & m8 & H8 & Hc)|[-> H8]]; apply device_kept in H8; subst; [|by eapply Hend]. clear Hend.
  exists m7. split; [done|]. right. exists c, (VersionForSlot (Settings.apiProvider (settings m4)) (u32 (commitment_Slot latest + 1))), w, rmc, (mkRoots (ads_Root (accepted_in m (u32 (commitment_Slot latest + 1)))) mr ar sr acr cr rr ph).
  split_and!; [done|done|done|]. clear Hcom. apply eprog_bind_inv in Hc as [([] & m8 & H8 & Hc)|[_ H8]]; [injection H8 as <-|discriminate H8].
  apply eprog_bind_inv in Hc as [([] & m8 & H8 & Hc)|[-> H8]]; apply device_kept in H8; subst; [|by left]. right.
  unfold mbind, eprog_bind, eupdate, mret, eprog_ret in Hc. cbn beta iota in Hc. cbv zeta in Hc. destruct (latest_stored _ _); [right|left]; injection Hc as <- <-; by split.
Qed.

(** ** The chain *)
Definition MaxSlot : SlotIndex := 2 ^ 32 - 1.
(** The blocks of [acc] that belong to the slot. *)
Definition blocks_of (acc : list BlockID) (slot : SlotIndex) : gset BlockID := list_to_set (filter (fun id => Slot id = slot) acc).
(** The commitment is stored, with the roots it stands for, over exactly the blocks of its slot. *)
Definition recorded (acc : list BlockID) m (c : Commitment) : Prop := commitments m !! commitment_Slot c = Some (c_data c) /\
  exists mm roots, rootsStorage m !! commitment_Slot c = Some mm /\ mm !! commitmentID c = Some roots /\ RootsID c = Roots_ID roots /\ TangleRoot roots = ads_Root (blocks_of acc (commitment_Slot c)).
(** [cs] follow on [c0]. *)
Fixpoint follows (c0 : Commitment) (cs : list Commitment) : Prop :=
  match cs with [] => True | c :: cs => commitment_Slot c = commitment_Slot c0 + 1 /\ PreviousCommitmentID c = commitmentID c0 /\ follows c cs end.

Record chain_inv (c0 : Commitment) (acc : list BlockID) m (cs : list Commitment) : Prop := {
  ci_latest : Settings.storeLatestCommitment (settings m) = Some (default c0 (last cs));
  ci_index : latestCommittedIndex (slotMutations m) = commitment_Slot (default c0 (last cs));
  ci_range : 0 <= commitment_Slot (default c0 (last cs)) < MaxSlot;
  ci_follows : follows c0 cs;
  ci_recorded c : c ∈ cs -> recorded acc m c;
  ci_accepted slot : commitment_Slot (default c0 (last cs)) < slot -> accepted_in m slot = blocks_of acc slot;
}.

Lemma last_snoc_default {A} (d x : A) l : default d (last (l ++ [x])) = x.
Proof. by rewrite last_snoc. Qed.
Lemma follows_snoc c0 cs c : follows c0 cs -> commitment_Slot c = commitment_Slot (default c0 (last cs)) + 1 -> PreviousCommitmentID c = commitmentID (default c0 (last cs)) -> follows c0 (cs ++ [c]).
Proof.
  revert c0. induction cs as [|c1 cs IH]; intros c0 Hf Hs Hp; [by cbn in *|]. destruct Hf as (H1 & H2 & H3). cbn. split; [done|]. split; [done|]. apply IH; [done|..]; rewrite last_cons in Hs, Hp; by destruct (last cs).
Qed.
Lemma follows_slots c0 cs c : follows c0 cs -> c ∈ cs -> commitment_Slot c0 < commitment_Slot c <= commitment_Slot (default c0 (last cs)).
Proof.
  revert c0 c. induction cs as [|c1 cs IH]; intros c0 c Hf Hin; [by apply elem_of_nil in Hin|]. destruct Hf as (H1 & H2 & H3). rewrite last_cons. apply elem_of_cons in Hin as [->|Hin].
  - destruct (last cs) as [l|] eqn:E; cbn; [|lia]. apply last_Some_elem_of in E. specialize (IH c1 l H3 E). lia.
  - specialize (IH c1 c H3 Hin). destruct (last cs) as [l|] eqn:E; cbn in *; [lia|]. apply last_None in E as ->. by apply elem_of_nil in Hin.
Qed.

Lemma kept_inv c0 acc m m' cs : kept m m' -> chain_inv c0 acc m cs -> chain_inv c0 acc m' cs.
Proof.
  intros [] []. split; try congruence.
  - intros c Hc. unfold recorded. rewrite kp_commitments0, kp_roots0. by apply ci_recorded0.
  - intros slot Hs. rewrite kp_accepted0. auto.
Qed.

Lemma Evict_spec slot mu : latestCommittedIndex mu + 1 = slot -> in_range Uint32 slot -> Evict slot mu = (true, mkSlotMutations (delete slot (acceptedBlocksBySlot mu)) slot).
Proof.
  intros Hs Hr. unfold Evict, mut_evictUntil. rewrite (proj2 (Z.leb_gt _ _)) by lia. rewrite Hs, (wrap_id Uint32) by done. replace (slot - slot + 1) with 1 by lia. done.
Qed.

(** An attempt that fails halfway writes for the slot after the latest one only. *)
Lemma partial_inv c0 acc m m' cs slot : chain_inv c0 acc m cs -> slot = commitment_Slot (default c0 (last cs)) + 1 -> Settings.storeLatestCommitment (settings m') = Settings.storeLatestCommitment (settings m) ->
  slotMutations m' = slotMutations m -> (forall j, j <> slot -> commitments m' !! j = commitments m !! j /\ rootsStorage m' !! j = rootsStorage m !! j) -> chain_inv c0 acc m' cs.
Proof.
  intros [H1 H2 H3 H4 H5 H6] Hs E1 E2 E3. split; try congruence.
  - intros c Hc. pose proof (follows_slots c0 cs c H4 Hc). unfold recorded. destruct (E3 (commitment_Slot c)) as [-> ->]; [lia|]. by apply H5.
  - intros j Hj. unfold accepted_in. rewrite E2. by apply H6.
Qed.
(** A successful attempt appends one commitment. *)
Lemma finish_inv c0 acc m cs slot api w rmc roots c : chain_inv c0 acc m cs -> slot = commitment_Slot (default c0 (last cs)) + 1 -> slot < MaxSlot ->
  CommitmentFromCommitment (mkIotaCommitment api slot (commitmentID (default c0 (last cs))) (Roots_ID roots) w rmc) api = Some c -> TangleRoot roots = ads_Root (accepted_in m slot) ->
  chain_inv c0 acc (finish slot c roots (accepted_in m slot) m) (cs ++ [c]) /\ stopped (finish slot c roots (accepted_in m slot) m) = stopped m.
Proof.
  intros [H1 H2 H3 H4 H5 H6] Hs Hmax Hc Hroot. unfold CommitmentFromCommitment in Hc. apply bind_Some in Hc as (data & _ & Hc). apply bind_Some in Hc as (id & _ & Hc). injection Hc as <-.
  unfold finish. cbn [with_roots with_commitments with_others with_settings trigger slotMutations]. rewrite Evict_spec by (unfold in_range, MaxSlot in *; cbn; lia). cbn beta iota. set (c := newCommitment _ _ _ _). assert (Hsc : commitment_Slot c = slot) by done. split; [|done]. split.
  - by rewrite last_snoc_default.
  - by rewrite last_snoc_default.
  - rewrite last_snoc_default, Hsc. lia.
  - apply follows_snoc; [done|by rewrite Hsc|done].
  - intros c1 [Hin|Hin]%elem_of_app.
    + destruct (H5 c1 Hin) as (Hd & mm & rs & Hm & Hrs & Hid & Ht). pose proof (follows_slots c0 cs c1 H4 Hin) as Hle. assert (Hne : slot <> commitment_Slot c1) by lia.
      unfold recorded. cbn. unfold Commitments.Store_. cbn. split; [by rewrite lookup_insert_ne|]. exists mm, rs. by rewrite lookup_insert_ne.
    + apply list_elem_of_singleton in Hin as ->. rewrite <- Hsc in *. split; [cbn; unfold Commitments.Store_; by rewrite lookup_insert_eq|]. eexists _, roots. cbn. rewrite lookup_insert_eq. split; [done|]. rewrite lookup_insert_eq. split_and!; try done.
      rewrite Hroot. f_equal. apply H6. cbn. lia.
  - intros j Hj. rewrite last_snoc_default, Hsc in Hj. unfold accepted_in. cbn. rewrite lookup_delete_ne by lia. apply H6. lia.
Qed.

Lemma create_chain c0 acc m cs slot r m' : chain_inv c0 acc m cs -> slot < MaxSlot -> create slot m = Ret (r, m') ->
  match r with None => chain_inv c0 acc m' cs | Some c => chain_inv c0 acc m' (cs ++ [c]) end /\ stopped m' = stopped m.
Proof.
  intros Hinv Hmax Hr. destruct (create_inv _ _ _ _ _ Hr (ci_latest _ _ _ _ Hinv)) as (m1 & Hk & [[-> ->]|(c & api & w & rmc & roots & Hs & Hc & Ht & Hcase)]); [split; [by eapply kept_inv|apply Hk]|].
  pose proof (kept_inv _ _ _ _ _ Hk Hinv) as Hinv1. pose proof (ci_range _ _ _ _ Hinv) as Hrg. rewrite (wrap_id Uint32) in Hs by (unfold in_range, MaxSlot in *; cbn; lia).
  assert (Hsc : commitment_Slot c = slot) by (unfold CommitmentFromCommitment in Hc; apply bind_Some in Hc as (? & _ & Hc); apply bind_Some in Hc as (? & _ & Hc); by injection Hc as <-).
  destruct Hcase as [[-> ->]|[[-> ->]|[-> ->]]].
  - split; [|apply Hk]. eapply (partial_inv _ _ m1); [done|exact Hs|done..|]. intros j Hj. cbn. split; [done|by rewrite lookup_insert_ne].
  - split; [|apply Hk]. eapply (partial_inv _ _ m1); [done|exact Hs|done..|]. intros j Hj. cbn. unfold Commitments.Store_. change (ic_Slot (c_commitment c)) with (commitment_Slot c). rewrite Hsc. by rewrite !lookup_insert_ne.
  - rewrite <- (kp_accepted _ _ Hk slot) in Ht |- *. destruct (finish_inv c0 acc m1 cs slot api w rmc roots c Hinv1 Hs Hmax Hc Ht) as [? E]. rewrite E. split; [done|]. apply Hk.
Qed.

Lemma try_slots_chain c0 acc slots until m cs m' : chain_inv c0 acc m cs -> Forall (fun s => s < MaxSlot) slots -> try_slots ads_Root Roots_ID MinCommittableAge slots until m = Ret m' ->
  exists cs', chain_inv c0 acc m' (cs ++ cs').
Proof.
  revert m cs. induction slots as [|i slots IH]; intros m cs Hinv Hf; cbn [try_slots]; [intros [= <-]; exists []; by rewrite app_nil_r|]. apply Forall_cons in Hf as [Hi Hf].
  destruct (stopped m); [intros [= <-]; exists []; by rewrite app_nil_r|]. destruct (negb _); [intros [= <-]; exists []; by rewrite app_nil_r|].
  intros ([r m1] & H1 & Hr)%bind_Ret. destruct (create_chain _ _ _ _ _ _ _ Hinv Hi H1) as [Hinv1 _]. destruct r as [c|]; [|injection Hr as <-; exists []; rewrite app_nil_r; by eapply kept_inv; [apply kept_errors|]].
  destruct (IH _ _ Hinv1 Hf Hr) as [cs' Hc]. exists (c :: cs'). by rewrite <- app_assoc in Hc.
Qed.
Lemma slots_until_lt latest until : Forall (fun s => s <= until) (slots_until latest until).
Proof. apply Forall_forall. intros s Hs%elem_of_seqZ. lia. Qed.
Lemma slots_max latest until : until < MaxSlot -> Forall (fun s => s < MaxSlot) (slots_until latest until).
Proof. intros Hu. eapply Forall_impl; [apply slots_until_lt|]. cbn. lia. Qed.
Lemma tryCommitUntil_chain c0 acc slot m cs m' : chain_inv c0 acc m cs -> slot < MaxSlot -> tryCommitUntil ads_Root Roots_ID MinCommittableAge slot m = Ret m' -> exists cs', chain_inv c0 acc m' (cs ++ cs').
Proof.
  intros Hinv Hs. unfold tryCommitUntil, tryCommitSlotUntil. intros (c & _ & Hr)%bind_Ret. destruct (_ <? slot); [|injection Hr as <-; exists []; by rewrite app_nil_r].
  apply bind_Ret in Hr as (c1 & _ & Hr). eapply try_slots_chain; [done| |exact Hr]. by apply slots_max.
Qed.
Lemma ForceCommit_chain c0 acc slot m cs r m' : chain_inv c0 acc m cs -> slot < MaxSlot -> ForceCommit ads_Root Roots_ID slot m = Ret (r, m') -> exists cs', chain_inv c0 acc m' (cs ++ cs').
Proof.
  intros Hinv Hs. unfold ForceCommit. intros [(b & m1 & H1 & Hr)|[-> H1]]%eprog_bind_inv; [injection H1 as <- <-|discriminate H1]. destruct (stopped m); [injection Hr as _ <-; exists []; by rewrite app_nil_r|].
  destruct (create_chain _ _ _ _ _ _ _ Hinv Hs Hr) as [Hc _]. destruct r as [c|]; [by exists [c]|exists []; by rewrite app_nil_r].
Qed.
Lemma force_slots_chain c0 acc slots m cs r m' : chain_inv c0 acc m cs -> Forall (fun s => s < MaxSlot) slots -> force_slots ads_Root Roots_ID slots m = Ret (r, m') -> exists cs', chain_inv c0 acc m' (cs ++ cs').
Proof.
  revert m cs. induction slots as [|i slots IH]; intros m cs Hinv Hf; cbn [force_slots]; [intros [= _ <-]; exists []; by rewrite app_nil_r|]. apply Forall_cons in Hf as [Hi Hf].
  intros [(c & m1 & H1 & Hr)|[-> H1]]%eprog_bind_inv; destruct (ForceCommit_chain _ _ _ _ _ _ _ Hinv Hi H1) as [cs1 Hc1]; [|by exists cs1]. destruct (IH _ _ Hc1 Hf Hr) as [cs2 Hc2]. exists (cs1 ++ cs2). by rewrite app_assoc.
Qed.

Lemma AddAcceptedBlock_chain c0 acc id m cs ok mu : chain_inv c0 acc m cs -> AddAcceptedBlock id (slotMutations m) = (ok, mu) ->
  chain_inv c0 (if ok then acc ++ [id] else acc) (with_mutations mu m) cs /\ ok = negb (Slot id <=? latestCommittedIndex (slotMutations m)).
Proof.
  intros Hinv. unfold AddAcceptedBlock. destruct (Z.leb_spec (Slot id) (latestCommittedIndex (slotMutations m))) as [Hle|Hgt]; [intros [= <- <-]; split; [by eapply kept_inv; [|exact Hinv]|done]|].
  intros [= <- <-]. split; [|done]. destruct Hinv as [H1 H2 H3 H4 H5 H6]. rewrite H2 in Hgt. split; try done.
  - intros c Hc. destruct (H5 c Hc) as (Hd & mm & rs & Hm & Hrs & Hid & Ht). split; [done|]. exists mm, rs. split_and!; try done. rewrite Ht. f_equal. unfold blocks_of. rewrite filter_app, list_to_set_app_L.
    pose proof (follows_slots c0 cs c H4 Hc). rewrite (filter_cons_False _ id []) by lia. rewrite filter_nil. cbn. set_solver.
  - intros slot Hs. unfold accepted_in. cbn. rewrite insert_insert_eq. unfold blocks_of. rewrite filter_app, list_to_set_app_L. fold (blocks_of acc slot). destruct (decide (Slot id = slot)) as [<-|Hne].
    + rewrite lookup_insert_eq, filter_cons_True, filter_nil by done. cbn. fold (accepted_in m (Slot id)). rewrite H6 by done. set_solver.
    + rewrite lookup_insert_ne, filter_cons_False, filter_nil by done. fold (accepted_in m slot). rewrite H6 by done. cbn. set_solver.
Qed.

(** What happens to the manager, with the log of the blocks it took.  Slots stay below the last slot index. *)
Inductive nstep : list BlockID -> Manager P Params X -> list BlockID -> Manager P Params X -> Prop :=
| n_block b id acc m m' : block_id b = Ret id -> Slot id < MaxSlot -> AcceptedBlockProcessed ads_Root Roots_ID MinCommittableAge b m = Ret m' ->
    nstep acc m (if latestCommittedIndex (slotMutations m) <? Slot id then acc ++ [id] else acc) m'
| n_force slot acc m r m' : slot < MaxSlot -> ForceCommit ads_Root Roots_ID slot m = Ret (r, m') -> nstep acc m acc m'
| n_force_until slot acc m r m' : slot < MaxSlot -> ForceCommitUntil ads_Root Roots_ID slot m = Ret (r, m') -> nstep acc m acc m'
| n_others x acc m : nstep acc m acc (with_others x m)
| n_settings st acc m : Settings.storeLatestCommitment st = Settings.storeLatestCommitment (settings m) -> nstep acc m acc (with_settings st m)
| n_shutdown acc m : nstep acc m acc (Shutdown m).
Inductive nrun : list BlockID -> Manager P Params X -> list BlockID -> Manager P Params X -> Prop :=
| nrun_start acc m : nrun acc m acc m
| nrun_step acc m acc1 m1 acc2 m2 : nrun acc m acc1 m1 -> nstep acc1 m1 acc2 m2 -> nrun acc m acc2 m2.

Lemma nstep_chain c0 acc m acc' m' cs : nstep acc m acc' m' -> chain_inv c0 acc m cs -> exists cs', chain_inv c0 acc' m' (cs ++ cs').
Proof.
  intros Hstep Hinv. destruct Hstep as [b id acc m m' Hid Hmax Hr|slot acc m r m' Hmax Hr|slot acc m r m' Hmax Hr|x acc m|st acc m Hst|acc m].
  - unfold AcceptedBlockProcessed, notarizeAcceptedBlock in Hr. rewrite Hid in Hr. cbn [mbind outcome_bind] in Hr. destruct (AddAcceptedBlock id (slotMutations m)) as [ok mu] eqn:Ea. cbn [mbind outcome_bind] in Hr.
    destruct (AddAcceptedBlock_chain c0 acc id m cs ok mu Hinv Ea) as [Hinv1 Hok]. apply bind_Ret in Hr as (m2 & Hr & E). injection E as <-.
    assert (Hacc : (if latestCommittedIndex (slotMutations m) <? Slot id then acc ++ [id] else acc) = if ok then acc ++ [id] else acc) by (rewrite Hok, Z.ltb_antisym; done). rewrite Hacc.
    apply (tryCommitUntil_chain c0 (if ok then acc ++ [id] else acc) (Slot id) _ cs) in Hr as [cs' Hc]; [|destruct ok; (eapply kept_inv; [|exact Hinv1]; done)|exact Hmax]. exists cs'. by eapply kept_inv; [|exact Hc].
  - by eapply ForceCommit_chain.
  - unfold ForceCommitUntil in Hr. apply eprog_bind_inv in Hr as [(c & m1 & H1 & Hr)|[-> H1]]; unfold latest_commitment in H1; apply bind_Ret in H1 as (c1 & _ & E); [|discriminate E].
    injection E as <- <-. eapply force_slots_chain; [exact Hinv| |exact Hr]. by apply slots_max.
  - exists []. rewrite app_nil_r. by eapply kept_inv; [|exact Hinv].
  - exists []. rewrite app_nil_r. eapply kept_inv; [|exact Hinv]. by split.
  - exists []. rewrite app_nil_r. destruct Hinv. by split.
Qed.

(** A manager that starts on the commitment [c0]. *)
Lemma start_chain c0 st commits roots x m : Settings.storeLatestCommitment st = Some c0 -> 0 <= commitment_Slot c0 < MaxSlot -> NewManager st commits roots x = Ret m -> chain_inv c0 [] m [].
Proof.
  intros Hl Hr. unfold NewManager, Settings.LatestCommitment, Settings.latestCommitment. rewrite Hl. cbn. intros [= <-]. split; try done. all: intros c Hc; by apply elem_of_nil in Hc.
Qed.

Lemma nrun_chain c0 st commits roots x m0 acc m : Settings.storeLatestCommitment st = Some c0 -> 0 <= commitment_Slot c0 < MaxSlot ->
  NewManager st commits roots x = Ret m0 -> nrun [] m0 acc m -> exists cs, chain_inv c0 acc m cs.
Proof.
  intros Hl Hr Hnew Hrun. assert (Hex0 : exists cs, chain_inv c0 [] m0 cs) by (exists []; by eapply start_chain). clear Hnew.
  induction Hrun as [|? ? ? ? ? ? _ IH Hstep]; [done|]. destruct (IH Hex0) as [cs Hc]. destruct (nstep_chain _ _ _ _ _ _ Hstep Hc) as [cs' Hc']. by exists (cs ++ cs').
Qed.

(** C17 Whatever blocks are accepted, whatever slots are forced and whatever the other parts of the engine return or do in between: the commitments since
    the start form a chain without gaps.  Each commits the slot after its predecessor and names it as the previous commitment, it is
    stored under its slot together with the roots its ID stands for, and its first root is that of exactly the blocks that were notarized for the
    slot.  The last of them is the latest commitment of the settings. *)
Theorem commitments_form_chain c0 st commits roots x m0 acc m : Settings.storeLatestCommitment st = Some c0 -> 0 <= commitment_Slot c0 < MaxSlot ->
  NewManager st commits roots x = Ret m0 -> nrun [] m0 acc m ->
  exists cs, Settings.LatestCommitment (settings m) = Ret (default c0 (last cs)) /\ follows c0 cs /\ forall c, c ∈ cs -> recorded acc m c.
Proof.
  intros Hl Hr Hnew Hrun. destruct (nrun_chain c0 st commits roots x m0 acc m Hl Hr Hnew Hrun) as [cs [H1 _ _ H4 H5 _]]. exists cs. unfold Settings.LatestCommitment, Settings.latestCommitment. rewrite H1. auto.
Qed.

(** C19 A failed attempt to commit a slot does not extend the chain: the latest commitment, the accepted blocks of every slot and the last committed slot are what they were.  Nothing is stored and no event is triggered, unless only the last writes failed: if the commitment
    cannot be stored, its roots are; if it cannot be made the latest one, it is stored and announced as well.  It then is a commitment of the slot after the latest one, on top of it and over the blocks accepted for it, and nothing else that is stored changes. *)
Theorem failed_commit_keeps_chain slot m latest m' : Settings.storeLatestCommitment (settings m) = Some latest -> create slot m = Ret (None, m') ->
  Settings.storeLatestCommitment (settings m') = Some latest /\ latestCommittedIndex (slotMutations m') = latestCommittedIndex (slotMutations m) /\ (forall j, accepted_in m' j = accepted_in m j) /\
  (commitments m' = commitments m /\ rootsStorage m' = rootsStorage m /\ events m' = events m \/
   exists c roots, slot = u32 (commitment_Slot latest + 1) /\ commitment_Slot c = slot /\ PreviousCommitmentID c = commitmentID latest /\ RootsID c = Roots_ID roots /\ TangleRoot roots = ads_Root (accepted_in m slot) /\
     rootsStorage m' = <[slot := <[commitmentID c := roots]> (default ∅ (rootsStorage m !! slot))]> (rootsStorage m) /\
     (commitments m' = commitments m /\ events m' = events m \/ commitments m' = <[slot := c_data c]> (commitments m) /\ events m' = events m ++ [SlotCommitted c (accepted_in m slot)])).
Proof.
  intros Hl Hr. destruct (create_inv _ _ _ _ _ Hr Hl) as (m1 & Hk & Hcase). destruct Hk as [K1 K2 K3 K4 K5 K6 K7]. rewrite Hl in K1. destruct Hcase as [[_ ->]|(c & api & w & rmc & roots & Hs & Hc & Ht & Hcase)]; [split_and!; auto|].
  assert (Hcom : commitment_Slot c = slot /\ PreviousCommitmentID c = commitmentID latest /\ RootsID c = Roots_ID roots) by (unfold CommitmentFromCommitment in Hc; apply bind_Some in Hc as (? & _ & Hc); apply bind_Some in Hc as (? & _ & Hc); by injection Hc as <-).
  destruct Hcom as (C1 & C2 & C3). destruct Hcase as [[_ ->]|[[_ ->]|[? _]]]; [..|done]; (split_and!; [done|done|done|]; right; exists c, roots; split_and!; [done..|cbn; by rewrite K3|]).
  - left. by split.
  - right. cbn. unfold Commitments.Store_. change (ic_Slot (c_commitment c)) with (commitment_Slot c). by rewrite K2, K7, C1.
Qed.

(** ** Old slots are committed *)

(** All parts of the engine answer, writes succeed, and commitments can be encoded. *)
Class CommitterTotal : Prop := {
  ct_att slot x : exists a x', att_Commit slot x = Ret (Some a, x');
  ct_ledger slot x : exists a x', ledger_CommitSlot slot x = Ret (Some a, x');
  ct_sybil slot x : exists a x', sybil_CommitSlot slot x = Ret (Some a, x');
  ct_upgrade slot st x : exists a st' x', upgrade_Commit slot (st, x) = Ret (Some a, (st', x'));
  ct_rmc slot x : exists a x', rmc_CommitSlot slot x = Ret (Some a, x');
  ct_roots slot x : roots_accessible slot x = true;
  ct_writes slot x : blocks_committed slot x = true /\ roots_stored slot x = true /\ commitment_stored slot x = true /\ latest_stored slot x = true;
  ct_encode v c : is_Some (api_Encode v c);
  ct_id c : is_Some (commitment_ID c);
}.
Context `{CT : !CommitterTotal}.

Lemma on_others_total {A} (f : eprog X A) m : (forall x, exists a x', f x = Ret (Some a, x')) -> exists a x', on_others f m = Ret (Some a, with_others x' m).
Proof. intros Hf. destruct (Hf (others m)) as (a & x' & E). exists a, x'. unfold on_others. by rewrite E. Qed.
Lemma create_succeeds slot m latest : Settings.storeLatestCommitment (settings m) = Some latest -> slot = u32 (commitment_Slot latest + 1) -> exists c m', create slot m = Ret (Some c, m').
Proof.
  intros Hl Hs. unfold createCommitment. erewrite eprog_bind_eq; [|unfold latest_commitment, Settings.LatestCommitment, Settings.latestCommitment; rewrite Hl; reflexivity].
  rewrite (proj2 (Z.eqb_eq _ _) Hs). cbn [negb]. erewrite eprog_bind_eq; [|reflexivity].
  match goal with |- context [with_mutations ?mu m] => set (m1 := with_mutations mu m) end. rewrite (eprog_bind_eq _ _ _ tt m1) by (unfold device; by rewrite (proj1 (ct_writes slot (others m1)))).
  destruct (on_others_total (att_Commit slot) m1 (ct_att slot)) as ([w ar] & x1 & E). rewrite (eprog_bind_eq _ _ _ _ _ E). cbn beta iota. clear E.
  destruct (on_others_total (ledger_CommitSlot slot) (with_others x1 m1) (ct_ledger slot)) as ([[a b] c] & x2 & E). rewrite (eprog_bind_eq _ _ _ _ _ E). cbn beta iota. clear E.
  destruct (on_others_total (sybil_CommitSlot slot) (with_others x2 (with_others x1 m1)) (ct_sybil slot)) as ([d e] & x3 & E). rewrite (eprog_bind_eq _ _ _ _ _ E). cbn beta iota. clear E.
  erewrite eprog_bind_eq; [|reflexivity]. match goal with |- context [eprog_bind _ _ _ _ ?mm] => idtac | |- exists _ _, (?f ≫= ?g) ?mm = _ => set (m4 := mm) end.
  destruct (ct_upgrade slot (settings m4) (others m4)) as (ph & st' & x4 & E). assert (Eu : on_shared (upgrade_Commit slot) m4 = Ret (Some ph, with_others x4 (with_settings st' m4))) by (unfold on_shared; by rewrite E).
  rewrite (eprog_bind_eq _ _ _ _ _ Eu). clear E Eu. set (m5 := with_others x4 _).
  destruct (on_others_total (rmc_CommitSlot slot) m5 (ct_rmc slot)) as (rmc & x5 & E). rewrite (eprog_bind_eq _ _ _ _ _ E). clear E.
  match goal with |- context [CommitmentFromCommitment ?ic ?v] => destruct (ct_encode v ic) as [data Hd]; destruct (ct_id ic) as [id Hid]; assert (Ec : CommitmentFromCommitment ic v = Some (newCommitment id ic data v)) by (unfold CommitmentFromCommitment; rewrite Hd; cbn [mbind option_bind]; rewrite Hid; reflexivity) end.
  erewrite eprog_bind_eq; [|unfold etry; rewrite Ec; reflexivity]. eexists _, _. unfold mbind, eprog_bind, eupdate, device, mret, eprog_ret.
  rewrite ct_roots. cbn beta iota zeta. rewrite (proj1 (proj2 (ct_writes slot _))). cbn beta iota zeta. rewrite (proj1 (proj2 (proj2 (ct_writes slot _)))). cbn beta iota zeta. rewrite (proj2 (proj2 (proj2 (ct_writes slot _)))). cbn beta iota zeta. reflexivity.
Qed.

Lemma try_slots_total c0 acc age until n m cs : chain_inv c0 acc m cs -> stopped m = false -> (forall slot, MinCommittableAge slot = age) -> 0 <= age -> until + age < MaxSlot ->
  let latest := commitment_Slot (default c0 (last cs)) in (n <= Z.to_nat (until - latest))%nat ->
  exists m' cs', try_slots ads_Root Roots_ID MinCommittableAge (seqZ (latest + 1) (Z.of_nat n)) until m = Ret m' /\ chain_inv c0 acc m' (cs ++ cs') /\ stopped m' = false /\
    commitment_Slot (default c0 (last (cs ++ cs'))) = Z.max latest (Z.min (latest + Z.of_nat n) (until - age)).
Proof.
  revert m cs. induction n as [|n IH]; intros m cs Hinv Hst Hage Ha Hu latest Hn.
  { exists m, []. rewrite app_nil_r. cbn. split_and!; try done. fold latest. lia. }
  rewrite seqZ_cons by lia. cbn [try_slots]. rewrite Hst. unfold isCommittable. rewrite Hage. pose proof (ci_range _ _ _ _ Hinv) as Hrg. fold latest in Hrg. rewrite (wrap_id Uint32) by (unfold in_range, MaxSlot in *; cbn; lia).
  destruct (Z.leb_spec (latest + 1 + age) until) as [Hle|Hgt]; cbn [negb].
  - destruct (create_succeeds (latest + 1) m _ (ci_latest _ _ _ _ Hinv)) as (c & m1 & E); [fold latest; rewrite (wrap_id Uint32) by (unfold in_range, MaxSlot in *; cbn; lia); done|]. rewrite E. cbn [mbind outcome_bind].
    assert (Hmx : latest + 1 < MaxSlot) by (unfold MaxSlot in *; lia). destruct (create_chain _ _ _ _ _ _ _ Hinv Hmx E) as [Hinv1 Hst1]. rewrite Hst in Hst1.
    assert (Hlc : commitment_Slot (default c0 (last (cs ++ [c]))) = latest + 1).
    { rewrite last_snoc_default. pose proof (ci_follows _ _ _ _ Hinv1) as Hf. pose proof (ci_latest _ _ _ _ Hinv1) as Hl1. rewrite last_snoc_default in Hl1.
      destruct (create_inv _ _ _ _ _ E (ci_latest _ _ _ _ Hinv)) as (m2 & _ & [[? _]|(c' & api & w & rmc & roots & _ & Hc & _ & [[? _]|[[? _]|[Hcc _]]])]); [done..|]. injection Hcc as <-. unfold CommitmentFromCommitment in Hc. apply bind_Some in Hc as (? & _ & Hc). apply bind_Some in Hc as (? & _ & Hc). by injection Hc as <-. }
    destruct (IH m1 (cs ++ [c]) Hinv1 Hst1 Hage Ha Hu) as (m' & cs' & Hr & Hc' & Hs' & Hl'); [rewrite Hlc; lia|]. rewrite Hlc in Hr, Hl'. exists m', (c :: cs').
    replace (Z.succ (latest + 1)) with (latest + 1 + 1) by lia. replace (Z.pred (Z.of_nat (S n))) with (Z.of_nat n) by lia. rewrite <- app_assoc in Hc', Hl'. cbn in Hc', Hl'. split_and!; try done. rewrite Hl'. lia.
  - exists m, []. rewrite app_nil_r. split_and!; try done. fold latest. lia.
Qed.

(** C18 Slots are committed as soon as they are old enough: when all parts of the engine answer and all writes succeed, processing an accepted block of slot [s] commits
    exactly the slots that are not committed yet up to [s] minus the minimum committable age. *)
Theorem old_slots_committed c0 st commits roots x m0 acc m b id age latest : Settings.storeLatestCommitment st = Some c0 -> 0 <= commitment_Slot c0 < MaxSlot ->
  NewManager st commits roots x = Ret m0 -> nrun [] m0 acc m -> stopped m = false -> Settings.LatestCommitment (settings m) = Ret latest ->
  block_id b = Ret id -> 0 <= age -> Slot id + age < MaxSlot -> (forall slot, MinCommittableAge slot = age) ->
  exists m' latest', AcceptedBlockProcessed ads_Root Roots_ID MinCommittableAge b m = Ret m' /\ Settings.LatestCommitment (settings m') = Ret latest' /\
    commitment_Slot latest' = Z.max (commitment_Slot latest) (Slot id - age).
Proof.
  intros Hl Hr Hnew Hrun Hst Hlat Hid Ha Hmax Hage. destruct (nrun_chain c0 st commits roots x m0 acc m Hl Hr Hnew Hrun) as [cs Hinv]. pose proof (ci_latest _ _ _ _ Hinv) as Hlm. unfold Settings.LatestCommitment, Settings.latestCommitment in Hlat. rewrite Hlm in Hlat. injection Hlat as <-.
  unfold AcceptedBlockProcessed, notarizeAcceptedBlock. rewrite Hid. cbn [mbind outcome_bind]. destruct (AddAcceptedBlock id (slotMutations m)) as [ok mu] eqn:Ea. cbn [mbind outcome_bind].
  destruct (AddAcceptedBlock_chain c0 acc id m cs ok mu Hinv Ea) as [Hinv1 _]. match goal with |- context [tryCommitUntil _ _ _ _ ?mm] => set (m1 := mm) end.
  assert (Hinv2 : chain_inv c0 (if ok then acc ++ [id] else acc) m1 cs) by (unfold m1; destruct ok; (eapply kept_inv; [|exact Hinv1]; done)). assert (Hst1 : stopped m1 = false) by (unfold m1; by destruct ok).
  unfold tryCommitUntil, tryCommitSlotUntil, Settings.LatestCommitment, Settings.latestCommitment. rewrite (ci_latest _ _ _ _ Hinv2). cbn [mbind outcome_bind]. set (latest := commitment_Slot (default c0 (last cs))).
  pose proof (ci_range _ _ _ _ Hinv2) as Hrg. fold latest in Hrg. destruct (Z.ltb_spec latest (Slot id)) as [Hlt|Hge].
  - destruct (try_slots_total c0 _ age (Slot id) (Z.to_nat (Slot id - latest)) m1 cs Hinv2 Hst1 Hage Ha Hmax) as (m' & cs' & Hrun' & Hc' & _ & Hl'); [done|]. fold latest in Hrun', Hl'.
    unfold slots_until. rewrite (wrap_id Uint32) by (unfold in_range, MaxSlot in *; cbn; lia). replace (Slot id - (latest + 1) + 1) with (Z.of_nat (Z.to_nat (Slot id - latest))) by lia. rewrite Hrun'. cbn [mbind outcome_bind].
    exists (add_notarized id m'), (default c0 (last (cs ++ cs'))). split_and!; [done|cbn; by rewrite (ci_latest _ _ _ _ Hc')|]. rewrite Hl'. lia.
  - cbn [mbind outcome_bind]. exists (add_notarized id m1), (default c0 (last cs)). split_and!; [done|cbn; by rewrite (ci_latest _ _ _ _ Hinv2)|]. fold latest. lia.
Qed.
End Props.

(** ** A sample run *)
Module NotaryDemo.
#[local] Instance demo_codec : CommitmentCodec := {|
  api_Encode v c := Some (put_le 4 (ic_Slot c)); api_Decode v bs := None; commitment_ID c := Some (mkCommitmentID (ic_RootsID c) (ic_Slot c));
  VersionFromBytes bs := None; NewEmptyIotaCommitment v := mkIotaCommitment 3 0 (mkCommitmentID 0 0) 0 0 1; MinReferenceManaCost v := 1 |}.
#[local] Instance demo_provider : EpochBasedProvider unit unit := {|
  p_empty := tt; AddProtocolParameters pp p := p; AddVersion v e p := p; AddFutureVersion v h e p := p; SetCommittedSlot s p := p; VersionForSlot p s := 3; CommittedVersion p := 3;
  APIForVersion p v := true; EpochForVersion p v := None; VersionsAndProtocolParametersHash p := Some 0; pp_Version pp := 3; pp_Bytes pp := []; pp_FromBytes bs := Some tt |}.
(** Parts that count their calls; the latest commitment can be stored or not. *)
Definition parts (stored : bool) : Committer unit unit Z := {|
  AddAttestationFromValidationBlock b x := x; att_Commit slot x := Ret (Some (slot, x), x + 1); ledger_CommitSlot slot x := Ret (Some (x, x, x), x + 1);
  sybil_CommitSlot slot x := Ret (Some (x, x), x + 1); upgrade_Commit slot x := Ret (Some x.2, x); rmc_CommitSlot slot x := Ret (Some 1, x);
  blocks_committed slot x := true; roots_accessible slot x := true; roots_stored slot x := true; commitment_stored slot x := true; latest_stored slot x := stored; onSlotCommitted c x := x; onLatestCommitmentUpdated c x := x |}.
Lemma parts_spec stored : CommitterSpec unit unit Z (CM := parts stored).
Proof. split. intros slot st x r st' x' E. cbn in E. by injection E as _ <- _. Qed.
#[local] Instance demo_parts : Committer unit unit Z := parts true.
#[local] Instance demo_parts_spec : CommitterSpec unit unit Z := parts_spec true.
#[local] Instance demo_parts_total : CommitterTotal (P:=unit) (Params:=unit) (X:=Z).
Proof. split; cbn; eauto. Qed.

Definition root_of (s : gset BlockID) : Z := Z.of_nat (size s).
Definition roots_id (r : Roots) : Z := TangleRoot r * 1000 + StateRoot r.
Definition two (_ : SlotIndex) : Z := 2.
Definition genesis : Commitment := mkCommitment 3 (mkCommitmentID 0 0) [] (mkIotaCommitment 3 0 (mkCommitmentID 0 0) 0 0 1).
Definition start_settings : Settings.Settings unit unit := Settings.mkSettings (Some true) (Some genesis) None None ∅ ∅ ∅ tt.
Definition block (slot hash : Z) : Block := NewBlock (mkModelBlock (mkBlockID hash slot) 1 0 (mkCommitmentID 0 0) Basic [] 1).
Definition m0 : Manager unit unit Z := match NewManager start_settings ∅ ∅ 0 with Ret m => m | _ => mkManager start_settings ∅ ∅ (NewSlotMutations 0) 0 ∅ false [] 0 end.
Definition process (b : Block) (m : Manager unit unit Z) : Manager unit unit Z := match AcceptedBlockProcessed root_of roots_id two b m with Ret m' => m' | _ => m end.
(** Two blocks of slot 1, one of slot 3. *)
Definition m1 := process (block 1 8) (process (block 1 7) m0).
Definition m2 := process (block 3 9) m1.

Lemma run_m1 : nrun root_of roots_id two [] m0 [mkBlockID 7 1; mkBlockID 8 1] m1.
Proof.
  eapply nrun_step; [eapply nrun_step; [apply nrun_start|]|].
  - apply (n_block root_of roots_id two (block 1 7) (mkBlockID 7 1) [] m0 (process (block 1 7) m0)); vm_compute; reflexivity.
  - apply (n_block root_of roots_id two (block 1 8) (mkBlockID 8 1) [mkBlockID 7 1] (process (block 1 7) m0) m1); vm_compute; reflexivity.
Qed.
Lemma run_m2 : nrun root_of roots_id two [] m0 [mkBlockID 7 1; mkBlockID 8 1; mkBlockID 9 3] m2.
Proof. eapply nrun_step; [exact run_m1|]. apply (n_block root_of roots_id two (block 3 9) (mkBlockID 9 3) [mkBlockID 7 1; mkBlockID 8 1] m1 m2); vm_compute; reflexivity. Qed.

Lemma commitments_form_chain_witness : exists cs, Settings.LatestCommitment (settings m2) = Ret (default genesis (last cs)) /\ follows genesis cs /\
  (forall c, c ∈ cs -> recorded root_of roots_id [mkBlockID 7 1; mkBlockID 8 1; mkBlockID 9 3] m2 c).
Proof. apply (commitments_form_chain root_of roots_id two genesis start_settings ∅ ∅ 0 m0); [reflexivity|vm_compute; split; [discriminate|reflexivity]|vm_compute; reflexivity|exact run_m2]. Defined.
Lemma old_slots_committed_witness : exists m' latest', AcceptedBlockProcessed root_of roots_id two (block 3 9) m1 = Ret m' /\ Settings.LatestCommitment (settings m') = Ret latest' /\ commitment_Slot latest' = 1.
Proof.
  apply (old_slots_committed root_of roots_id two genesis start_settings ∅ ∅ 0 m0 [mkBlockID 7 1; mkBlockID 8 1] m1 (block 3 9) (mkBlockID 9 3) 2 genesis);
    [reflexivity|vm_compute; split; [discriminate|reflexivity]|vm_compute; reflexivity|exact run_m1|vm_compute; reflexivity..|vm_compute; discriminate|vm_compute; reflexivity|reflexivity].
Defined.
(** The commitment of slot 2 is stored and announced, but cannot be made the latest one: slot 1 stays the last one committed. *)
Definition unfinished : Manager unit unit Z := match createCommitment (CM := parts false) root_of roots_id 2 m2 with Ret (_, m') => m' | _ => m2 end.
Lemma failed_commit_keeps_chain_witness : Settings.storeLatestCommitment (settings unfinished) = Settings.storeLatestCommitment (settings m2) /\ bool_decide (is_Some (commitments unfinished !! 2)) = true /\ bool_decide (is_Some (commitments m2 !! 2)) = false /\
  (forall j, accepted_in unfinished j = accepted_in m2 j).
Proof.
  assert (E : createCommitment (CM := parts false) root_of roots_id 2 m2 = Ret (None, unfinished)) by (vm_compute; reflexivity). destruct (Settings.storeLatestCommitment (settings m2)) as [latest|] eqn:El; [|exfalso; vm_compute in El; discriminate El].
  destruct (failed_commit_keeps_chain (CM := parts false) (CS := parts_spec false) root_of roots_id 2 m2 latest unfinished El E) as (H1 & _ & H2 & _). split; [exact H1|]. split; [vm_compute; reflexivity|]. split; [vm_compute; reflexivity|exact H2].
Defined.
End NotaryDemo.
