(* ===== verification/ChainManager.v ===== *)
(** * Chains of commitments (pkg/protocol/chainmanager)

    The manager keeps the commitments it hears of as objects that know their children, the chain they belong to and whether they are solid.
    The first child of a commitment continues its chain, the others start chains of their own; solidity flows from the root
    commitment to all its descendants.  A fork that claims more weight is reported, and the main chain can be switched to it.

    Commitment objects and chains are shared by pointers, and evicted commitments stay reachable through them, so both live in heaps.
    Parameters: hive.go's walker, the protocol version of a slot and the order in which maps are visited.  The requester of missing commitments
    (hive.go's event ticker) is the list of the calls made to it.  Entity locks and [String] are left out. *)
From Stdlib Require Import Strings.Byte.
From S2P Require Import Prelude Bytes Block TimeApi EpochStore Walker Streams Settings.

Abbreviation ptr := positive.

(** ** Objects (chaincommitment.go, chain.go, types.go) *)
Record ChainCommitment := mkChainCommitment {
  cc_id : CommitmentID;
  cc_commitment : option Commitment;             (* nil until it is published *)
  cc_solid : bool;
  mainChildID : CommitmentID;
  children : gmap CommitmentID ptr;
  cc_chain : option ptr;
}.
Record Chain := mkChain { ForkingPoint : ptr; latestCommitmentIndex : SlotIndex; commitmentsByIndex : gmap SlotIndex ptr }.
Record Fork := mkFork { Source : Z; MainChain : option ptr; ForkedChain : option ptr; fork_ForkingPoint : option Commitment; ForkLatestCommitment : Commitment }.
Inductive ChainEvent := CommitmentPublished (c : ptr) | CommitmentBelowRoot (id : CommitmentID) | ForkDetected (f : Fork).
Inductive RequesterCall := StartTicker (id : CommitmentID) | StopTicker (id : CommitmentID) | RequesterEvictUntil (index : SlotIndex).

Definition NewChainCommitment (id : CommitmentID) : ChainCommitment := mkChainCommitment id None false (mkCommitmentID 0 0) ∅ None.
Definition set_commitment v c := mkChainCommitment (cc_id c) v (cc_solid c) (mainChildID c) (children c) (cc_chain c).
Definition set_solid v c := mkChainCommitment (cc_id c) (cc_commitment c) v (mainChildID c) (children c) (cc_chain c).
Definition set_children main v c := mkChainCommitment (cc_id c) (cc_commitment c) (cc_solid c) main v (cc_chain c).
Definition set_chain v c := mkChainCommitment (cc_id c) (cc_commitment c) (cc_solid c) (mainChildID c) (children c) v.

Record Manager := mkManager {
  commits : gmap ptr ChainCommitment;
  chains : gmap ptr Chain;
  nextPtr : ptr;
  commitmentsByID : gmap SlotIndex (gmap CommitmentID ptr);
  rootCommitment : option ptr;
  forksByForkingPoint : gmap SlotIndex (gmap CommitmentID Fork);
  lastEvictedSlot : EvictionIndex.t;
  requester : list RequesterCall;
  events : list ChainEvent;
  handledErrors : Z;
}.
Definition NewManager : Manager := mkManager ∅ ∅ 1%positive ∅ None ∅ EvictionIndex.NewEvictionIndex [] [] 0.
Definition with_commits v m := mkManager v (chains m) (nextPtr m) (commitmentsByID m) (rootCommitment m) (forksByForkingPoint m) (lastEvictedSlot m) (requester m) (events m) (handledErrors m).
Definition with_chains v m := mkManager (commits m) v (nextPtr m) (commitmentsByID m) (rootCommitment m) (forksByForkingPoint m) (lastEvictedSlot m) (requester m) (events m) (handledErrors m).
Definition bump m := mkManager (commits m) (chains m) (Pos.succ (nextPtr m)) (commitmentsByID m) (rootCommitment m) (forksByForkingPoint m) (lastEvictedSlot m) (requester m) (events m) (handledErrors m).
Definition with_byID v m := mkManager (commits m) (chains m) (nextPtr m) v (rootCommitment m) (forksByForkingPoint m) (lastEvictedSlot m) (requester m) (events m) (handledErrors m).
Definition with_root v m := mkManager (commits m) (chains m) (nextPtr m) (commitmentsByID m) v (forksByForkingPoint m) (lastEvictedSlot m) (requester m) (events m) (handledErrors m).
Definition with_forks v m := mkManager (commits m) (chains m) (nextPtr m) (commitmentsByID m) (rootCommitment m) v (lastEvictedSlot m) (requester m) (events m) (handledErrors m).
Definition with_lastEvicted v m := mkManager (commits m) (chains m) (nextPtr m) (commitmentsByID m) (rootCommitment m) (forksByForkingPoint m) v (requester m) (events m) (handledErrors m).
Definition request r m := mkManager (commits m) (chains m) (nextPtr m) (commitmentsByID m) (rootCommitment m) (forksByForkingPoint m) (lastEvictedSlot m) (requester m ++ [r]) (events m) (handledErrors m).
Definition trigger e m := mkManager (commits m) (chains m) (nextPtr m) (commitmentsByID m) (rootCommitment m) (forksByForkingPoint m) (lastEvictedSlot m) (requester m) (events m ++ [e]) (handledErrors m).
Definition handleError m := mkManager (commits m) (chains m) (nextPtr m) (commitmentsByID m) (rootCommitment m) (forksByForkingPoint m) (lastEvictedSlot m) (requester m) (events m) (handledErrors m + 1).

Section Methods.
Context {W : Type} `{!Walker ptr W} `{!RangeOrder CommitmentID} (VersionForSlot : SlotIndex -> Z).
Abbreviation M := (prog Manager).

Definition cget (p : ptr) : M ChainCommitment := fun m => c ← deref (commits m !! p); Ret (c, m).
Definition cmod (p : ptr) (f : ChainCommitment -> ChainCommitment) : M unit := fun m => c ← deref (commits m !! p); Ret (tt, with_commits (<[p := f c]> (commits m)) m).
Definition chain_get (k : ptr) : M Chain := fun m => c ← deref (chains m !! k); Ret (c, m).
Definition chain_put (k : ptr) (c : Chain) : M unit := update (fun m => with_chains (<[k := c]> (chains m)) m).

Definition panic {A} : M A := fun _ => Panic.
Definition diverge {A} : M A := fun _ => OutOfFuel.

(** *** ChainCommitment *)
Definition mainChild (p : ptr) : M (option ptr) := c ← cget p; mret (children c !! mainChildID c).
Definition Children (p : ptr) : M (list ptr) := c ← cget p; mret ((range_of (children c)).*2).
Definition PublishCommitment (p : ptr) (commitment : Commitment) : M bool :=
  c ← cget p;
  match cc_commitment c with None => _ ← cmod p (set_commitment (Some commitment)); mret true | Some _ => mret false end.
Definition publishChain (p k : ptr) : M bool :=
  c ← cget p;
  match cc_chain c with None => _ ← cmod p (set_chain (Some k)); mret true | Some _ => mret false end.
Definition replaceChain (p k : ptr) : M unit := cmod p (set_chain (Some k)).
(** [SolidEvent().Trigger()]: whether it was the first time. *)
Definition triggerSolid (p : ptr) : M bool := c ← cget p; _ ← cmod p (set_solid true); mret (negb (cc_solid c)).
Definition deleteChild (p child : ptr) : M unit := c ← cget child; cmod p (fun x => set_children (mainChildID x) (delete (cc_id c) (children x)) x).
(** [false] is the error. *)
Definition setMainChild (p child : ptr) : M bool :=
  c ← cget child;
  x ← cget p;
  if bool_decide (is_Some (children x !! cc_id c)) then _ ← cmod p (fun x => set_children (cc_id c) (children x) x); mret true else mret false.

(** *** Chain *)
Definition alloc_chain (c : Chain) : M ptr := fun m => let k := nextPtr m in Ret (k, bump (with_chains (<[k := c]> (chains m)) m)).
Definition NewChain (forkingPoint : ptr) : M ptr :=
  c ← cget forkingPoint;
  commitment ← lift (deref (cc_commitment c));
  let index := commitment_Slot commitment in
  alloc_chain (mkChain forkingPoint index {[index := forkingPoint]}).
Definition addCommitment (k p : ptr) : M unit :=
  c ← cget p;
  commitment ← lift (deref (cc_commitment c));
  let index := commitment_Slot commitment in
  x ← chain_get k;
  chain_put k (mkChain (ForkingPoint x) (if latestCommitmentIndex x <? index then index else latestCommitmentIndex x) (<[index := p]> (commitmentsByIndex x))).
Definition chain_LatestCommitment (k : ptr) : M (option ptr) := x ← chain_get k; mret (commitmentsByIndex x !! latestCommitmentIndex x).
(** The commitment data behind a pointer that may be nil. *)
Definition data_of (p : option ptr) : M Commitment := p ← lift (deref p); c ← cget p; lift (deref (cc_commitment c)).

(** Whether solid, the chain for the child and whether it forked. *)
Definition cc_registerChild (p child : ptr) : M (bool * option ptr * bool) :=
  x ← cget child;
  _ ← cmod p (fun c => set_children (if bool_decide (children c = ∅) then cc_id x else mainChildID c) (<[cc_id x := child]> (children c)) c);
  c ← cget p;
  if bool_decide (1 < size (children c))%nat then k ← NewChain child; mret (cc_solid c, Some k, true)
  else mret (cc_solid c, cc_chain c, false).

(** ** The manager (manager.go) *)
Definition Commitment_ (id : CommitmentID) : M (option ptr) := read (fun m => s ← commitmentsByID m !! CommitmentSlot id; s !! id).
Definition getOrCreateCommitment (id : CommitmentID) : M (ptr * bool) := fun m =>
  let s := default ∅ (commitmentsByID m !! CommitmentSlot id) in
  match s !! id with
  | Some p => Ret ((p, false), with_byID (<[CommitmentSlot id := s]> (commitmentsByID m)) m)
  | None => let p := nextPtr m in
      Ret ((p, true), bump (with_byID (<[CommitmentSlot id := <[id := p]> s]> (commitmentsByID m)) (with_commits (<[p := NewChainCommitment id]> (commits m)) m)))
  end.
Definition root_ptr : M ptr := fun m => p ← deref (rootCommitment m); Ret (p, m).
Definition Initialize (c : Commitment) : M unit :=
  '(p, _) ← getOrCreateCommitment (commitmentID c);
  _ ← update (with_root (Some p));
  _ ← PublishCommitment p c;
  _ ← triggerSolid p;
  k ← NewChain p;
  _ ← publishChain p k;
  mret tt.

(** The loop over a walker; every element is visited once, so there are at most as many rounds as commitments. *)
Fixpoint walk_with (visit : ptr -> M (list ptr)) (fuel : nat) (w : W) : M unit :=
  match WNext w with
  | None => mret tt
  | Some (x, w) => match fuel with O => diverge | S fuel => l ← visit x; walk_with visit fuel (PushAll l w) end
  end.
Definition walk_commits (visit : ptr -> M (list ptr)) (initial : list ptr) : M unit :=
  fuel ← read (fun m => size (commits m)); walk_with visit fuel (PushAll initial walk_new).
Definition next_main (child : ptr) : M (list ptr) := c ← mainChild child; mret (match c with Some c => [c] | None => [] end).
Definition propagateChainToMainChild (k child : ptr) : M (list ptr) :=
  published ← publishChain child k;
  if negb published then mret [] else _ ← addCommitment k child; next_main child.
Definition propagateReplaceChainToMainChild (k child : ptr) : M (list ptr) :=
  _ ← replaceChain child k; _ ← addCommitment k child; next_main child.
Definition propagateSolidity (child : ptr) : M (list ptr) :=
  first ← triggerSolid child;
  if first : bool then Children child else mret [].

Definition registerChild (parent child : ptr) : M (bool * bool) :=
  '(isSolid, chain, wasForked) ← cc_registerChild parent child;
  match chain with
  | None => mret (isSolid, wasForked)
  | Some k => _ ← addCommitment k child; _ ← publishChain child k; _ ← (if isSolid : bool then _ ← triggerSolid child; mret tt else mret tt); mret (isSolid, wasForked)
  end.
(** isNew, isSolid, wasForked and the object. *)
Definition registerCommitment (commitment : Commitment) : M (bool * bool * bool * ptr) :=
  '(parentCommitment, parentCreated) ← getOrCreateCommitment (PreviousCommitmentID commitment);
  _ ← when parentCreated (update (request (StartTicker (PreviousCommitmentID commitment))));
  '(chainCommitment, created) ← getOrCreateCommitment (commitmentID commitment);
  published ← PublishCommitment chainCommitment commitment;
  if negb published then c ← cget chainCommitment; mret (false, cc_solid c, false, chainCommitment)
  else
    _ ← update (trigger (CommitmentPublished chainCommitment));
    _ ← when (negb created) (update (request (StopTicker (commitmentID commitment))));
    '(isSolid, wasForked) ← registerChild parentCommitment chainCommitment;
    mret (true, isSolid, wasForked, chainCommitment).
Definition evaluateAgainstRootCommitment (commitment : Commitment) : M (bool * bool) :=
  r ← root_ptr;
  root ← data_of (Some r);
  mret (commitment_Slot commitment <=? commitment_Slot root, bool_decide (commitmentID commitment = commitmentID root)).

(** wasForked, isSolid and the object (nil for a commitment below the root); [None] is the error. *)
Definition processCommitment (commitment : Commitment) : M (option (bool * bool * option ptr)) :=
  if negb (VersionForSlot (commitment_Slot commitment) =? ic_ProtocolVersion (c_commitment commitment)) then mret None
  else
    '(isBelow, isRoot) ← evaluateAgainstRootCommitment commitment;
    if isBelow || isRoot then
      if isRoot : bool then r ← root_ptr; mret (Some (false, true, Some r))
      else _ ← update (trigger (CommitmentBelowRoot (commitmentID commitment))); _ ← update (request (StopTicker (commitmentID commitment))); mret (Some (false, false, None))
    else
      '(isNew, isSolid, wasForked, chainCommitment) ← registerCommitment commitment;
      c ← cget chainCommitment;
      match cc_chain c with
      | Some k =>
          if negb isNew then mret (Some (wasForked, isSolid, Some chainCommitment))
          else
            main ← mainChild chainCommitment;
            _ ← (match main with Some x => walk_commits (propagateChainToMainChild k) [x] | None => mret tt end);
            _ ← (if isSolid : bool then l ← Children chainCommitment; walk_commits propagateSolidity l else mret tt);
            mret (Some (wasForked, isSolid, Some chainCommitment))
      | None => mret (Some (wasForked, isSolid, Some chainCommitment))
      end.

(** *** Forks *)
Definition chain_of (p : ptr) : M (option ptr) := c ← cget p; mret (cc_chain c).
(** The loop that jumps over the forking points; [None] is an error, [Some None] says that the commitment is on the main chain. *)
Fixpoint find_forking_point (fuel : nat) (chain root : option ptr) (forkingCommitment : option ptr) : M (option (option ptr)) :=
  if bool_decide (chain = root) then mret (Some forkingCommitment)
  else match fuel with
       | O => diverge
       | S fuel =>
           k ← lift (deref chain);
           x ← chain_get k;
           commitment ← data_of (Some (ForkingPoint x));
           parent ← Commitment_ (PreviousCommitmentID commitment);
           match parent with
           | None => mret None
           | Some p => chain ← chain_of p; find_forking_point fuel chain root (Some (ForkingPoint x))
           end
       end.
Definition forkingPointAgainstMainChain (commitment : ptr) : M (option (option ptr)) :=
  c ← cget commitment;
  if negb (cc_solid c) || is_none (cc_chain c) then mret None
  else
    r ← root_ptr;
    root ← chain_of r;
    fuel ← read (fun m => size (commits m));
    find_forking_point fuel (cc_chain c) root None.

Definition detectForks (commitment : ptr) (source : Z) : M unit :=
  r ← forkingPointAgainstMainChain commitment;
  match r with
  | Some (Some forkingPoint) =>
      forkedChain ← chain_of forkingPoint;
      k ← lift (deref forkedChain);
      latest ← chain_LatestCommitment k;
      forkedChainLatestCommitment ← data_of latest;
      root ← root_ptr;
      mainChain ← chain_of root;
      mk ← lift (deref mainChain);
      mainLatest ← chain_LatestCommitment mk;
      mainChainLatestCommitment ← data_of mainLatest;
      if CumulativeWeight forkedChainLatestCommitment <=? CumulativeWeight mainChainLatestCommitment then mret tt
      else
        fp ← cget forkingPoint;
        let id := cc_id fp in
        forks ← read (fun m => default ∅ (forksByForkingPoint m !! CommitmentSlot id));
        match forks !! id with
        | Some current =>
            if commitment_Slot forkedChainLatestCommitment <=? commitment_Slot (ForkLatestCommitment current) then mret tt
            else
              let fork := mkFork (Source current) (MainChain current) (ForkedChain current) (fork_ForkingPoint current) forkedChainLatestCommitment in
              _ ← update (fun m => with_forks (<[CommitmentSlot id := <[id := fork]> forks]> (forksByForkingPoint m)) m);
              update (trigger (ForkDetected fork))
        | None =>
            let fork := mkFork source mainChain forkedChain (cc_commitment fp) forkedChainLatestCommitment in
            _ ← update (fun m => with_forks (<[CommitmentSlot id := <[id := fork]> forks]> (forksByForkingPoint m)) m);
            update (trigger (ForkDetected fork))
        end
  | _ => mret tt
  end.

(** The loop over the forking points between the commitment and the main chain; [false] is an error. *)
Fixpoint switch_forks (fuel : nat) (fp forkingPoint parentCommitment : ptr) : M bool :=
  fpData ← data_of (Some fp);
  fpParent ← Commitment_ (PreviousCommitmentID fpData);
  fpParent ← lift (deref fpParent);
  main ← mainChild fpParent;
  main ← lift (deref main);
  newChildChain ← NewChain main;
  ok ← setMainChild fpParent fp;
  if negb ok then mret false
  else
    _ ← walk_commits (propagateReplaceChainToMainChild newChildChain) [main];
    mainChain ← chain_of parentCommitment;
    mainChain ← lift (deref mainChain);
    _ ← walk_commits (propagateReplaceChainToMainChild mainChain) [fp];
    if bool_decide (fp = forkingPoint) then mret true
    else match fuel with
         | O => diverge
         | S fuel =>
             k ← chain_of fpParent;
             k ← lift (deref k);
             x ← chain_get k;
             switch_forks fuel (ForkingPoint x) forkingPoint parentCommitment
         end.
(** [false] is an error. *)
Definition switchMainChainToCommitment (commitment : ptr) : M bool :=
  r ← forkingPointAgainstMainChain commitment;
  match r with
  | None => mret false
  | Some None => mret true
  | Some (Some forkingPoint) =>
      fpData ← data_of (Some forkingPoint);
      parentCommitment ← Commitment_ (PreviousCommitmentID fpData);
      match parentCommitment with
      | None => mret false
      | Some parentCommitment =>
          oldMainCommitment ← mainChild parentCommitment;
          k ← chain_of commitment;
          k ← lift (deref k);
          x ← chain_get k;
          fuel ← read (fun m => size (commits m));
          ok ← switch_forks fuel (ForkingPoint x) forkingPoint parentCommitment;
          if negb ok then mret false
          else old ← lift (deref oldMainCommitment); _ ← deleteChild parentCommitment old; mret true
      end
  end.
Definition SwitchMainChain (head : CommitmentID) : M bool :=
  c ← Commitment_ head;
  match c with None => mret false | Some c => switchMainChainToCommitment c end.

(** *** Processing *)
Definition result_of (isSolid : bool) (p : option ptr) : M (bool * option ptr) :=
  match p with None => mret (false, None) | Some p => k ← chain_of p; mret (isSolid, k) end.
Definition ProcessCommitmentFromSource (commitment : Commitment) (source : Z) : M (bool * option ptr) :=
  r ← processCommitment commitment;
  match r with
  | None => _ ← update handleError; mret (false, None)
  | Some (_, isSolid, p) => _ ← (match p with Some p => detectForks p source | None => mret tt end); result_of isSolid p
  end.
Definition ProcessCandidateCommitment (commitment : Commitment) : M (bool * option ptr) :=
  r ← processCommitment commitment;
  match r with
  | None => _ ← update handleError; mret (false, None)
  | Some (_, isSolid, p) => result_of isSolid p
  end.
(** An error of the switch is a panic. *)
Definition ProcessCommitment (commitment : Commitment) : M (bool * option ptr) :=
  r ← processCommitment commitment;
  match r with
  | None => _ ← update handleError; mret (false, None)
  | Some (wasForked, isSolid, p) =>
      _ ← (match p with
           | Some p => if wasForked : bool then ok ← switchMainChainToCommitment p; if ok : bool then mret tt else panic else mret tt
           | None => mret tt
           end);
      result_of isSolid p
  end.

Definition evict (index : SlotIndex) (m : Manager) : Manager := with_byID (delete index (commitmentsByID m)) (with_forks (delete index (forksByForkingPoint m)) m).
(** [for currentIndex := NextIndex(); currentIndex <= index; currentIndex++] *)
Definition EvictUntil (index : SlotIndex) (m : Manager) : Manager :=
  let from := EvictionIndex.NextIndex (lastEvictedSlot m) in
  request (RequesterEvictUntil index) (foldl (fun m i => with_lastEvicted (EvictionIndex.MarkEvicted i (lastEvictedSlot m)).2 (evict i m)) m (seqZ from (index - from + 1))).

Definition SetRootCommitment (commitment : Commitment) : M unit :=
  p ← Commitment_ (commitmentID commitment);
  p ← lift (deref p);
  r ← root_ptr;
  root ← data_of (Some r);
  if (commitment_Slot commitment <=? commitment_Slot root) && negb (bool_decide (commitmentID commitment = commitmentID root)) then panic
  else update (with_root (Some p)).
Definition Chain_ (ec : CommitmentID) : M (option ptr) := c ← Commitment_ ec; match c with Some p => chain_of p | None => mret None end.
Definition LoadCommitmentOrRequestMissing (id : CommitmentID) : M ptr :=
  '(p, created) ← getOrCreateCommitment id; _ ← when created (update (request (StartTicker id))); mret p.
(** [amount] commitments, the newest first; [None] is an error. *)
Fixpoint Commitments_ (id : CommitmentID) (amount : nat) : M (option (list ptr)) :=
  match amount with
  | O => mret (Some [])
  | S amount =>
      c ← Commitment_ id;
      match c with
      | None => mret None
      | Some p => commitment ← data_of (Some p); r ← Commitments_ (PreviousCommitmentID commitment) amount; mret (option_map (cons p) r)
      end
  end.
Definition ForkByForkingPoint (forkingPoint : CommitmentID) (m : Manager) : option Fork := s ← forksByForkingPoint m !! CommitmentSlot forkingPoint; s !! forkingPoint.
End Methods.
