(* ===== verification/ChainManagerProps.v ===== *)
(** * Solid commitments

    In every reachable state of the chain manager all children of a solid commitment are solid, every solid commitment but the first root
    has a solid parent, and solid commitments belong to a chain. *)
From Stdlib Require Import Strings.Byte.
From S2P Require Import Prelude Bytes Block TimeApi EpochStore Walker Streams Settings ChainManager.

Implicit Types m : Manager.

Definition evicted m (slot : SlotIndex) : bool := EvictionIndex.IsEvicted slot (lastEvictedSlot m).
Definition find_id m (id : CommitmentID) : option ptr := s ← commitmentsByID m !! CommitmentSlot id; s !! id.

(** ** The invariant

    [g] is the first root.  The children in [S1] are not solid yet, those in [S2] have no chain yet although their parent has, and those
    in [S3] have none although they are not the main child. *)
Record CInv (g : ptr) (S1 S2 S3 : gset ptr) m : Prop := {
  ci_fresh p c : commits m !! p = Some c -> (p < nextPtr m)%positive;
  ci_byID slot s id p : commitmentsByID m !! slot = Some s -> s !! id = Some p -> slot = CommitmentSlot id /\ exists c, commits m !! p = Some c /\ cc_id c = id;
  ci_unique p c : commits m !! p = Some c -> evicted m (CommitmentSlot (cc_id c)) = false -> find_id m (cc_id c) = Some p;
  ci_published p c com : commits m !! p = Some c -> cc_commitment c = Some com -> commitmentID com = cc_id c /\ commitment_Slot com = CommitmentSlot (cc_id c);
  ci_child p c id q : commits m !! p = Some c -> children c !! id = Some q ->
    exists x com, commits m !! q = Some x /\ cc_id x = id /\ cc_commitment x = Some com /\ PreviousCommitmentID com = cc_id c;
  ci_solid_child p c id q x : commits m !! p = Some c -> children c !! id = Some q -> commits m !! q = Some x -> cc_solid c = true -> cc_solid x = true \/ q ∈ S1;
  ci_solid_parent q x : commits m !! q = Some x -> cc_solid x = true ->
    q = g \/ exists com p c, cc_commitment x = Some com /\ commits m !! p = Some c /\ cc_solid c = true /\ cc_id c = PreviousCommitmentID com;
  ci_solid_chain q x : commits m !! q = Some x -> cc_solid x = true -> is_Some (cc_chain x) /\ is_Some (cc_commitment x);
  ci_chain_child p c id q x : commits m !! p = Some c -> children c !! id = Some q -> commits m !! q = Some x -> is_Some (cc_chain c) -> is_Some (cc_chain x) \/ q ∈ S2;
  ci_other_child p c id q x : commits m !! p = Some c -> children c !! id = Some q -> commits m !! q = Some x -> is_Some (cc_chain x) \/ id = mainChildID c \/ q ∈ S3;
  ci_chains p c k : commits m !! p = Some c -> cc_chain c = Some k -> is_Some (chains m !! k);
}.

Lemma CInv_same g S1 S2 S3 m m' : commits m' = commits m -> commitmentsByID m' = commitmentsByID m -> lastEvictedSlot m' = lastEvictedSlot m -> (nextPtr m <= nextPtr m')%positive ->
  (forall k, is_Some (chains m !! k) -> is_Some (chains m' !! k)) -> CInv g S1 S2 S3 m -> CInv g S1 S2 S3 m'.
Proof.
  intros E1 E2 E3 E4 E5 []. split; unfold evicted, find_id in *; rewrite ?E1, ?E2, ?E3; try done; [|by eauto]. intros p c Hp. specialize (ci_fresh0 p c Hp). lia.
Qed.
Lemma CInv_mono g S1 S2 S3 S1' S2' S3' m : S1 ⊆ S1' -> S2 ⊆ S2' -> S3 ⊆ S3' -> CInv g S1 S2 S3 m -> CInv g S1' S2' S3' m.
Proof.
  intros H1 H2 H3 []. split; try done.
  - intros. destruct (ci_solid_child0 p c id q x) as [?|?]; auto.
  - intros. destruct (ci_chain_child0 p c id q x) as [?|?]; auto.
  - intros. destruct (ci_other_child0 p c id q x) as [?|[?|?]]; auto.
Qed.
(** Children that are no exceptions can be left out. *)
Lemma CInv_shrink g S1 S2 S3 S1' S2' S3' m : CInv g S1 S2 S3 m -> (forall q x, q ∈ S1 -> commits m !! q = Some x -> cc_solid x = true \/ q ∈ S1') ->
  (forall q x, q ∈ S2 ∪ S3 -> commits m !! q = Some x -> is_Some (cc_chain x) \/ (q ∈ S2 -> q ∈ S2') /\ (q ∈ S3 -> q ∈ S3')) -> CInv g S1' S2' S3' m.
Proof.
  intros [] H1 H2. split; try done.
  - intros. destruct (ci_solid_child0 p c id q x) as [?|?]; auto.
  - intros p c id q x Hp Hq Hx Hc. destruct (ci_chain_child0 p c id q x) as [?|Hin]; auto. destruct (H2 q x) as [?|[? ?]]; [set_solver|done|auto|auto].
  - intros p c id q x Hp Hq Hx. destruct (ci_other_child0 p c id q x) as [?|[?|Hin]]; auto. destruct (H2 q x) as [?|[? ?]]; [set_solver|done|auto|auto].
Qed.

(** ** Changing one object *)
Record object_step (g : ptr) m (p : ptr) (c c' : ChainCommitment) : Prop := {
  os_id : cc_id c' = cc_id c;
  os_kept com : cc_commitment c = Some com -> cc_commitment c' = Some com;
  os_published com : cc_commitment c' = Some com -> commitmentID com = cc_id c /\ commitment_Slot com = CommitmentSlot (cc_id c);
  os_solid : cc_solid c = true -> cc_solid c' = true;
  os_chain : is_Some (cc_chain c) -> is_Some (cc_chain c');
  os_children id q : children c' !! id = Some q -> children c !! id = Some q \/
    q <> p /\ exists x com, commits m !! q = Some x /\ cc_id x = id /\ cc_commitment x = Some com /\ PreviousCommitmentID com = cc_id c;
  os_new_solid : cc_solid c' = true -> cc_solid c = true \/ (p = g \/ exists com p0 c0, cc_commitment c' = Some com /\ commits m !! p0 = Some c0 /\ cc_solid c0 = true /\ cc_id c0 = PreviousCommitmentID com);
  os_chains k : cc_chain c' = Some k -> cc_chain c = Some k \/ is_Some (chains m !! k);
  os_solid_chain : cc_solid c' = true -> is_Some (cc_chain c') /\ is_Some (cc_commitment c');
}.
Lemma CInv_update g S1 S2 S3 S1' S2' S3' m p c c' : CInv g S1 S2 S3 m -> commits m !! p = Some c -> object_step g m p c c' ->
  let m' := with_commits (<[p := c']> (commits m)) m in
  (forall q x, q ∈ S1 -> commits m' !! q = Some x -> cc_solid x = true \/ q ∈ S1') ->
  (forall q x, q ∈ S2 -> commits m' !! q = Some x -> is_Some (cc_chain x) \/ q ∈ S2') ->
  (forall q x, q ∈ S3 -> commits m' !! q = Some x -> is_Some (cc_chain x) \/ q ∈ S3') ->
  (forall id q x, children c' !! id = Some q -> commits m' !! q = Some x -> (cc_solid c' = true -> cc_solid x = true \/ q ∈ S1') /\ (is_Some (cc_chain c') -> is_Some (cc_chain x) \/ q ∈ S2')
     /\ (is_Some (cc_chain x) \/ id = mainChildID c' \/ q ∈ S3')) ->
  CInv g S1' S2' S3' m'.
Proof.
  intros [] Hp [] m' HS1 HS2 HS3 Hch.
  assert (Hlk : forall q, commits m' !! q = if decide (q = p) then Some c' else commits m !! q) by (intros q; cbn; rewrite lookup_insert; repeat case_decide; congruence).
  assert (Hold : forall q x, commits m' !! q = Some x -> exists x0, commits m !! q = Some x0 /\ cc_id x = cc_id x0 /\ (cc_solid x0 = true -> cc_solid x = true) /\ (is_Some (cc_chain x0) -> is_Some (cc_chain x)) /\ forall com, cc_commitment x0 = Some com -> cc_commitment x = Some com).
  { intros q x. rewrite Hlk. case_decide as Hd; [subst; intros [= <-]; exists c; auto|]. intros Hx. exists x. auto. }
  assert (Hnew : forall q x0, commits m !! q = Some x0 -> exists x, commits m' !! q = Some x /\ cc_id x = cc_id x0 /\ (cc_solid x0 = true -> cc_solid x = true) /\ (is_Some (cc_chain x0) -> is_Some (cc_chain x)) /\ forall com, cc_commitment x0 = Some com -> cc_commitment x = Some com).
  { intros q x0 Hx0. rewrite Hlk. case_decide as Hd; [subst; rewrite Hp in Hx0; injection Hx0 as <-; exists c'; auto|]. exists x0. auto. }
  split.
  - intros q x (x0 & Hx0 & _)%Hold. by eapply ci_fresh0.
  - intros slot s id q Hs Hq. destruct (ci_byID0 slot s id q Hs Hq) as [? (x0 & Hx0 & Hid)]. split; [done|]. destruct (Hnew q x0 Hx0) as (x & Hx & Hid' & _). exists x. split; [done|congruence].
  - intros q x Hx Hev. destruct (Hold q x Hx) as (x0 & Hx0 & Hid & _). rewrite Hid in Hev |- *. by apply ci_unique0.
  - intros q x com Hx Hcom. rewrite Hlk in Hx. case_decide as Hd; [subst; injection Hx as <-; rewrite os_id0; auto|by eapply ci_published0].
  - intros q x id y Hx Hy. rewrite Hlk in Hx. assert (Hc : exists z com, commits m !! y = Some z /\ cc_id z = id /\ cc_commitment z = Some com /\ PreviousCommitmentID com = cc_id x).
    { case_decide as Hd; [subst; injection Hx as <-|by eapply ci_child0]. rewrite os_id0. destruct (os_children0 id y Hy) as [Ho|(_ & z & com & ?)]; [by eapply ci_child0|by exists z, com]. }
    destruct Hc as (z & com & Hz & Hzid & Hzc & Hpr). destruct (Hnew y z Hz) as (z' & Hz' & Hid' & _ & _ & Hk). exists z', com. split_and!; [done|congruence|auto|done].
  - intros q x id y z Hx Hy Hz Hs. rewrite Hlk in Hx. case_decide as Hd; [subst; injection Hx as <-; destruct (Hch id y z Hy Hz) as (Ha & _ & _); auto|].
    destruct (Hold y z Hz) as (z0 & Hz0 & _ & Hs0 & _). destruct (ci_solid_child0 q x id y z0 Hx Hy Hz0 Hs) as [?|?]; [auto|]. by apply HS1.
  - intros q x Hx Hs. assert (Hj : q = g \/ exists com p1 c1, cc_commitment x = Some com /\ commits m !! p1 = Some c1 /\ cc_solid c1 = true /\ cc_id c1 = PreviousCommitmentID com).
    { rewrite Hlk in Hx. case_decide as Hd; [|by eapply ci_solid_parent0]. subst q. injection Hx as <-. destruct (os_new_solid0 Hs) as [Hs0|?]; [|done]. destruct (ci_solid_parent0 p c Hp Hs0) as [?|(com & p1 & c1 & Hcom & Hr)]; [by left|]. right. exists com, p1, c1. auto. }
    destruct Hj as [?|(com & p1 & c1 & Hcom & Hp1 & Hs1 & Hid1)]; [by left|]. right. destruct (Hnew p1 c1 Hp1) as (c1' & Hc1' & Hid' & Hs' & _). exists com, p1, c1'. split_and!; [done|done|auto|congruence].
  - intros q x Hx Hs. rewrite Hlk in Hx. case_decide as Hd; [subst; injection Hx as <-; auto|by eapply ci_solid_chain0].
  - intros q x id y z Hx Hy Hz Hk. rewrite Hlk in Hx. case_decide as Hd; [subst; injection Hx as <-; destruct (Hch id y z Hy Hz) as (_ & Ha & _); auto|].
    destruct (Hold y z Hz) as (z0 & Hz0 & _ & _ & Hk0 & _). destruct (ci_chain_child0 q x id y z0 Hx Hy Hz0 Hk) as [?|?]; [auto|]. by apply HS2.
  - intros q x id y z Hx Hy Hz. rewrite Hlk in Hx. case_decide as Hd; [subst; injection Hx as <-; by destruct (Hch id y z Hy Hz) as (_ & _ & Ha)|].
    destruct (Hold y z Hz) as (z0 & Hz0 & _ & _ & Hk0 & _). destruct (ci_other_child0 q x id y z0 Hx Hy Hz0) as [?|[?|?]]; [auto|auto|]. destruct (HS3 y z); auto.
  - intros q x k Hx Hk. rewrite Hlk in Hx. case_decide as Hd; [subst; injection Hx as <-; destruct (os_chains0 k Hk) as [?|?]; [by eapply ci_chains0|done]|by eapply ci_chains0].
Qed.

Definition main_set (c : ChainCommitment) : gset ptr := match children c !! mainChildID c with Some q => {[q]} | None => ∅ end.
Definition child_set (c : ChainCommitment) : gset ptr := list_to_set (map_to_list (children c)).*2.
Lemma elem_of_child_set c q : q ∈ child_set c <-> exists id, children c !! id = Some q.
Proof.
  unfold child_set. rewrite elem_of_list_to_set, list_elem_of_fmap. split.
  - intros ([id q0] & -> & Hin%elem_of_map_to_list). by exists id.
  - intros [id Hid]. exists (id, q). split; [done|]. by apply elem_of_map_to_list.
Qed.
Lemma elem_of_main_set c q : children c !! mainChildID c = Some q -> q ∈ main_set c.
Proof. unfold main_set. intros ->. set_solver. Qed.

Section Updates.
Context (g : ptr).

(** The object behind a pointer after a change of [p]. *)
Lemma lookup_changed m p c' q x : commits (with_commits (<[p := c']> (commits m)) m) !! q = Some x -> q = p /\ x = c' \/ q <> p /\ commits m !! q = Some x.
Proof. cbn. intros [[<- <-]|[? ?]]%lookup_insert_Some; auto. Qed.

Lemma set_chain_inv S1 S m p c k : CInv g S1 S S m -> commits m !! p = Some c -> is_Some (chains m !! k) -> let S' := S ∖ {[p]} ∪ main_set c in
  CInv g S1 S' S' (with_commits (<[p := set_chain (Some k) c]> (commits m)) m).
Proof.
  intros Hinv Hp Hch S'. eapply CInv_update; [exact Hinv|exact Hp| | | | |].
  - split; cbn; auto; [intros; by eapply ci_published|intros k' [= <-]; auto|]. intros Hs. split; [by eexists|]. by apply (ci_solid_chain _ _ _ _ _ Hinv p c).
  - intros q x Hq _. by right.
  - intros q x Hq [[-> ->]|[? ?]]%lookup_changed; [left; by eexists|]. right. set_solver.
  - intros q x Hq [[-> ->]|[? ?]]%lookup_changed; [left; by eexists|]. right. set_solver.
  - cbn. intros id q x Hid [[-> ->]|[Hne Hx]]%lookup_changed.
    + split_and!; [intros Hs; by left|intros _; left; by eexists|left; by eexists].
    + assert (Ho : is_Some (cc_chain x) \/ q ∈ S'). { destruct (ci_other_child _ _ _ _ _ Hinv p c id q x Hp Hid Hx) as [?|[->|?]]; [by left|right; apply elem_of_union_r, elem_of_main_set; done|right; set_solver]. }
      split_and!; [intros Hs; by apply (ci_solid_child _ _ _ _ _ Hinv p c id q x)|auto|tauto].
Qed.

Lemma set_solid_inv S S2 S3 m p c : CInv g S S2 S3 m -> commits m !! p = Some c -> is_Some (cc_chain c) -> is_Some (cc_commitment c) ->
  (cc_solid c = true \/ p = g \/ exists com p0 c0, cc_commitment c = Some com /\ commits m !! p0 = Some c0 /\ cc_solid c0 = true /\ cc_id c0 = PreviousCommitmentID com) ->
  CInv g (S ∖ {[p]} ∪ (if cc_solid c then ∅ else child_set c)) S2 S3 (with_commits (<[p := set_solid true c]> (commits m)) m).
Proof.
  intros Hinv Hp Hk Hc Hj. eapply CInv_update; [exact Hinv|exact Hp| | | | |].
  - split; cbn; auto. intros; by eapply ci_published.
  - intros q x Hq [[-> ->]|[? ?]]%lookup_changed; [by left|]. right. set_solver.
  - by right.
  - by right.
  - cbn. intros id q x Hid [[-> ->]|[Hne Hx]]%lookup_changed.
    + cbn. split_and!; [by left|by left|by left].
    + split_and!.
      * intros _. destruct (cc_solid c) eqn:Es; [|right; apply elem_of_union_r, elem_of_child_set; eauto]. destruct (ci_solid_child _ _ _ _ _ Hinv p c id q x Hp Hid Hx Es) as [?|?]; [by left|right; set_solver].
      * intros _. apply (ci_chain_child _ _ _ _ _ Hinv p c id q x Hp Hid Hx Hk).
      * apply (ci_other_child _ _ _ _ _ Hinv p c id q x Hp Hid Hx).
Qed.

Lemma publish_inv S1 S2 S3 m p c com : CInv g S1 S2 S3 m -> commits m !! p = Some c -> cc_commitment c = None -> commitmentID com = cc_id c -> commitment_Slot com = CommitmentSlot (cc_id c) ->
  CInv g S1 S2 S3 (with_commits (<[p := set_commitment (Some com) c]> (commits m)) m).
Proof.
  intros Hinv Hp Hn Hid Hsl. assert (Hns : cc_solid c = true -> False) by (intros Hs; destruct (ci_solid_chain _ _ _ _ _ Hinv p c Hp Hs) as [_ [? ?]]; congruence).
  eapply CInv_update; [exact Hinv|exact Hp| |by right|by right|by right|].
  - split; cbn; auto; [congruence|intros com' [= <-]; done|]. intros Hs. by apply Hns in Hs.
  - cbn. intros id q x Hq [[-> ->]|[Hne Hx]]%lookup_changed.
    + destruct (ci_child _ _ _ _ _ Hinv p c id p Hp Hq) as (x & com' & Hx & _ & Hcom' & _). congruence.
    + split_and!; [intros Hs; by apply Hns in Hs|intros Hk; by apply (ci_chain_child _ _ _ _ _ Hinv p c id q x)|by apply (ci_other_child _ _ _ _ _ Hinv p c id q x)].
Qed.

Lemma add_child_inv S1 S2 S3 m p c q x com : CInv g S1 S2 S3 m -> commits m !! p = Some c -> commits m !! q = Some x -> q <> p -> cc_commitment x = Some com -> PreviousCommitmentID com = cc_id c ->
  let c' := set_children (if bool_decide (children c = ∅) then cc_id x else mainChildID c) (<[cc_id x := q]> (children c)) c in
  CInv g (S1 ∪ if cc_solid c then {[q]} else ∅) (S2 ∪ if is_none (cc_chain c) then ∅ else {[q]}) (S3 ∪ if bool_decide (children c = ∅) then ∅ else {[q]}) (with_commits (<[p := c']> (commits m)) m).
Proof.
  intros Hinv Hp Hq Hne Hcom Hpr c'. eapply CInv_update; [exact Hinv|exact Hp| |set_solver|set_solver|set_solver|].
  - split; cbn; auto; [intros; by eapply ci_published|intros id y|intros Hs; by apply (ci_solid_chain _ _ _ _ _ Hinv p c)]. intros [[<- <-]|[? ?]]%lookup_insert_Some; [|by left]. right. split; [done|]. by exists x, com.
  - cbn. intros id y z [[<- <-]|[Hid Hy]]%lookup_insert_Some Hz.
    + split_and!.
      * intros ->. set_solver.
      * intros Hk. right. destruct (cc_chain c); [cbn; set_solver|by destruct Hk].
      * right. case_bool_decide; [by left|right; set_solver].
    + assert (Hz' : exists z0, commits m !! y = Some z0 /\ cc_solid z = cc_solid z0 /\ cc_chain z = cc_chain z0). { apply lookup_changed in Hz as [[-> ->]|[_ ?]]; [by exists c|by exists z]. }
      destruct Hz' as (z0 & Hz0 & -> & ->). split_and!.
      * intros Hs. destruct (ci_solid_child _ _ _ _ _ Hinv p c id y z0 Hp Hy Hz0 Hs) as [?|?]; [by left|right; set_solver].
      * intros Hk. destruct (ci_chain_child _ _ _ _ _ Hinv p c id y z0 Hp Hy Hz0 Hk) as [?|?]; [by left|right; set_solver].
      * destruct (ci_other_child _ _ _ _ _ Hinv p c id y z0 Hp Hy Hz0) as [?|[?|?]]; [by left| |right; right; set_solver]. case_bool_decide as He; [|by auto]. by rewrite He in Hy.
Qed.

Lemma set_main_inv S1 S2 S3 m p c id : CInv g S1 S2 S3 m -> commits m !! p = Some c ->
  CInv g S1 S2 (S3 ∪ main_set c) (with_commits (<[p := set_children id (children c) c]> (commits m)) m).
Proof.
  intros Hinv Hp. eapply CInv_update; [exact Hinv|exact Hp| |by right|by right|set_solver|].
  - split; cbn; auto; [intros; by eapply ci_published|]. intros Hs. by apply (ci_solid_chain _ _ _ _ _ Hinv p c).
  - cbn. intros i q x Hq Hx. assert (Hx' : exists z, commits m !! q = Some z /\ cc_solid x = cc_solid z /\ cc_chain x = cc_chain z) by (apply lookup_changed in Hx as [[-> ->]|[_ ?]]; [by exists c|by exists x]).
    destruct Hx' as (z & Hz & -> & ->). split_and!; [intros Hs; by apply (ci_solid_child _ _ _ _ _ Hinv p c i q z)|intros Hk; by apply (ci_chain_child _ _ _ _ _ Hinv p c i q z)|].
    destruct (ci_other_child _ _ _ _ _ Hinv p c i q z Hp Hq Hz) as [?|[->|?]]; [by left|right; right; apply elem_of_union_r, elem_of_main_set; done|right; right; set_solver].
Qed.
Lemma delete_child_inv S1 S2 S3 m p c id : CInv g S1 S2 S3 m -> commits m !! p = Some c ->
  CInv g S1 S2 S3 (with_commits (<[p := set_children (mainChildID c) (delete id (children c)) c]> (commits m)) m).
Proof.
  intros Hinv Hp. eapply CInv_update; [exact Hinv|exact Hp| |by right|by right|by right|].
  - split; cbn; auto; [intros; by eapply ci_published|intros i q [_ ?]%lookup_delete_Some; by left|]. intros Hs. by apply (ci_solid_chain _ _ _ _ _ Hinv p c).
  - cbn. intros i q x [_ Hq]%lookup_delete_Some Hx. assert (Hx' : exists z, commits m !! q = Some z /\ cc_solid x = cc_solid z /\ cc_chain x = cc_chain z) by (apply lookup_changed in Hx as [[-> ->]|[_ ?]]; [by exists c|by exists x]).
    destruct Hx' as (z & Hz & -> & ->). split_and!; [intros Hs; by apply (ci_solid_child _ _ _ _ _ Hinv p c i q z)|intros Hk; by apply (ci_chain_child _ _ _ _ _ Hinv p c i q z)|by apply (ci_other_child _ _ _ _ _ Hinv p c i q z)].
Qed.
End Updates.

(** ** What every operation keeps *)
Record ext m m' : Prop := {
  ex_root : rootCommitment m' = rootCommitment m;
  ex_evicted : lastEvictedSlot m' = lastEvictedSlot m;
  ex_object p c : commits m !! p = Some c -> exists c', commits m' !! p = Some c' /\ cc_id c' = cc_id c /\ (cc_solid c = true -> cc_solid c' = true) /\
    (is_Some (cc_chain c) -> is_Some (cc_chain c')) /\ forall com, cc_commitment c = Some com -> cc_commitment c' = Some com;
}.
Lemma ext_same m m' : rootCommitment m' = rootCommitment m -> lastEvictedSlot m' = lastEvictedSlot m -> commits m' = commits m -> ext m m'.
Proof. intros H1 H2 H3. split; [done..|]. intros p c Hp. exists c. rewrite H3. auto. Qed.
Lemma ext_refl m : ext m m.
Proof. by apply ext_same. Qed.
Lemma ext_trans m1 m2 m3 : ext m1 m2 -> ext m2 m3 -> ext m1 m3.
Proof.
  intros [A1 A2 A3] [B1 B2 B3]. split; [congruence..|]. intros p c Hp. destruct (A3 p c Hp) as (c2 & H2 & Hid2 & Hs2 & Hk2 & Hc2). destruct (B3 p c2 H2) as (c3 & H3 & Hid3 & Hs3 & Hk3 & Hc3).
  exists c3. split_and!; auto. congruence.
Qed.
Lemma ext_update m p c c' : commits m !! p = Some c -> cc_id c' = cc_id c -> (cc_solid c = true -> cc_solid c' = true) -> (is_Some (cc_chain c) -> is_Some (cc_chain c')) ->
  (forall com, cc_commitment c = Some com -> cc_commitment c' = Some com) -> ext m (with_commits (<[p := c']> (commits m)) m).
Proof.
  intros Hp H1 H2 H3 H4. split; [done..|]. intros q x Hq. cbn. destruct (decide (p = q)) as [->|]; [|rewrite lookup_insert_ne by done; exists x; auto].
  rewrite lookup_insert_eq. rewrite Hp in Hq. injection Hq as <-. exists c'. auto.
Qed.

(** ** The primitive operations *)
Lemma lift_Ret {S A} (o : outcome A) (s : S) a s' : lift o s = Ret (a, s') <-> o = Ret a /\ s' = s.
Proof. unfold lift. rewrite bind_Ret. split; [intros (? & ? & E); injection E as <- <-; done|intros [? ->]; eauto]. Qed.
Lemma cget_Ret p m c m' : cget p m = Ret (c, m') <-> commits m !! p = Some c /\ m' = m.
Proof. unfold cget. rewrite bind_Ret. split; [intros (x & Hx%deref_Ret & [= <- <-]); done|intros [Hp ->]; exists c; rewrite Hp; done]. Qed.
Lemma cmod_Ret p f m u m' : cmod p f m = Ret (u, m') <-> exists c, commits m !! p = Some c /\ m' = with_commits (<[p := f c]> (commits m)) m.
Proof. unfold cmod. rewrite bind_Ret. destruct u. split; [intros (x & Hx%deref_Ret & [= <-]); by exists x|intros (c & Hp & ->); exists c; by rewrite Hp]. Qed.
Lemma chain_of_Ret p m k m' : chain_of p m = Ret (k, m') -> m' = m /\ exists c, commits m !! p = Some c /\ k = cc_chain c.
Proof. unfold chain_of. intros (c & m1 & [Hc ->]%cget_Ret & E)%prog_bind_Ret. injection E as <- <-. split; [done|]. by exists c. Qed.
Lemma data_of_Ret p m d m' : data_of p m = Ret (d, m') -> m' = m /\ exists q c, p = Some q /\ commits m !! q = Some c /\ cc_commitment c = Some d.
Proof.
  unfold data_of. intros (q & m1 & [Hq%deref_Ret ->]%lift_Ret & H1)%prog_bind_Ret. apply prog_bind_Ret in H1 as (c & m2 & [Hc ->]%cget_Ret & [Hd%deref_Ret ->]%lift_Ret). split; [done|]. by exists q, c.
Qed.
Lemma chain_get_Ret k m x m' : chain_get k m = Ret (x, m') -> m' = m.
Proof. unfold chain_get. intros (c & _ & E)%bind_Ret. by injection E as _ <-. Qed.
Lemma mainChild_Ret p m r m' : mainChild p m = Ret (r, m') -> m' = m /\ exists c, commits m !! p = Some c /\ r = children c !! mainChildID c.
Proof. unfold mainChild. intros (c & m1 & [Hc ->]%cget_Ret & E)%prog_bind_Ret. injection E as <- <-. split; [done|]. by exists c. Qed.
Lemma root_ptr_Ret m p m' : root_ptr m = Ret (p, m') -> m' = m /\ rootCommitment m = Some p.
Proof. unfold root_ptr. intros (q & Hq%deref_Ret & E)%bind_Ret. by injection E as <- <-. Qed.

(** Changes that touch neither commitments nor their index. *)
Record quiet m m' : Prop := {
  qt_commits : commits m' = commits m; qt_byID : commitmentsByID m' = commitmentsByID m; qt_evicted : lastEvictedSlot m' = lastEvictedSlot m;
  qt_root : rootCommitment m' = rootCommitment m; qt_next : (nextPtr m <= nextPtr m')%positive; qt_chains k : is_Some (chains m !! k) -> is_Some (chains m' !! k);
}.
Lemma quiet_refl m : quiet m m.
Proof. done. Qed.
Lemma quiet_trans m1 m2 m3 : quiet m1 m2 -> quiet m2 m3 -> quiet m1 m3.
Proof. intros [] []. split; try congruence; [lia|auto]. Qed.
Lemma quiet_ext m m' : quiet m m' -> ext m m'.
Proof. intros []. by apply ext_same. Qed.
Lemma quiet_inv g S1 S2 S3 m m' : quiet m m' -> CInv g S1 S2 S3 m -> CInv g S1 S2 S3 m'.
Proof. intros []. by apply CInv_same. Qed.
Lemma NewChain_quiet p m k m' : NewChain p m = Ret (k, m') -> quiet m m'.
Proof.
  unfold NewChain. intros (c & m1 & [_ ->]%cget_Ret & H1)%prog_bind_Ret. apply prog_bind_Ret in H1 as (d & m2 & [_ ->]%lift_Ret & E). injection E as _ <-. split; try done; cbn; [lia|]. intros k' [y Hy]. apply lookup_insert_is_Some'. right. by eexists.
Qed.
Lemma addCommitment_quiet k p m u m' : addCommitment k p m = Ret (u, m') -> quiet m m'.
Proof.
  unfold addCommitment. intros (c & m1 & [_ ->]%cget_Ret & H1)%prog_bind_Ret. apply prog_bind_Ret in H1 as (d & m2 & [_ ->]%lift_Ret & H1). apply prog_bind_Ret in H1 as (x & m3 & ->%chain_get_Ret & E).
  unfold chain_put, update in E. injection E as _ <-. split; try done. cbn. intros k' [y Hy]. apply lookup_insert_is_Some'. right. by eexists.
Qed.
Lemma addCommitment_chain k p m u m' : addCommitment k p m = Ret (u, m') -> is_Some (chains m !! k).
Proof.
  unfold addCommitment. intros (c & m1 & [_ ->]%cget_Ret & H1)%prog_bind_Ret. apply prog_bind_Ret in H1 as (d & m2 & [_ ->]%lift_Ret & H1). apply prog_bind_Ret in H1 as (x & m3 & Hg & _).
  unfold chain_get in Hg. apply bind_Ret in Hg as (y & Hy%deref_Ret & _). by eexists.
Qed.

Section Invariant.
Context {W : Type} `{!Walker ptr W} `{!WalkerSpec ptr W} `{!RangeOrder CommitmentID} (g : ptr).

Lemma getOrCreate_inv S1 S2 S3 id m p created m' : CInv g S1 S2 S3 m -> getOrCreateCommitment id m = Ret ((p, created), m') ->
  CInv g S1 S2 S3 m' /\ ext m m' /\ (forall q x, commits m !! q = Some x -> commits m' !! q = Some x) /\ find_id m' id = Some p /\
  exists c, commits m' !! p = Some c /\ cc_id c = id /\ if created then c = NewChainCommitment id else find_id m id = Some p.
Proof.
  intros Hinv. pose proof Hinv as []. unfold getOrCreateCommitment, find_id. set (s := default ∅ (commitmentsByID m !! CommitmentSlot id)). destruct (s !! id) as [q|] eqn:E; intros [= <- <- <-].
  - assert (Hs : commitmentsByID m !! CommitmentSlot id = Some s) by (unfold s in *; destruct (commitmentsByID m !! CommitmentSlot id); [done|cbn in E; by rewrite lookup_empty in E]).
    destruct (ci_byID0 _ _ _ _ Hs E) as [_ (c & Hc & Hid)]. rewrite Hs. cbn. rewrite lookup_insert_eq. cbn. split_and!; [|by apply ext_same|done|done|by exists c]. apply CInv_same with m; try done. cbn. by rewrite insert_id.
  - set (p := nextPtr m). set (m' := bump _). assert (Hnew : commits m !! p = None) by (destruct (commits m !! p) as [c|] eqn:Ep; [apply ci_fresh0 in Ep; unfold p in Ep; lia|done]).
    assert (Hlk : forall q x, commits m' !! q = Some x -> q = p /\ x = NewChainCommitment id \/ commits m !! q = Some x) by (intros q x; cbn; intros [[<- <-]|[? ?]]%lookup_insert_Some; auto).
    assert (Hkeep : forall q x, commits m !! q = Some x -> commits m' !! q = Some x) by (intros q x Hq; cbn; rewrite lookup_insert_ne; [done|congruence]).
    assert (Hfind : forall i, find_id m' i = if decide (i = id) then Some p else find_id m i).
    { intros i. unfold find_id. cbn. destruct (decide (CommitmentSlot i = CommitmentSlot id)) as [Hs|Hs].
      - rewrite Hs, lookup_insert_eq. cbn. unfold s. destruct (decide (i = id)) as [->|]; [by rewrite lookup_insert_eq|]. rewrite lookup_insert_ne by done. destruct (commitmentsByID m !! CommitmentSlot id); cbn; [done|by rewrite lookup_empty].
      - rewrite lookup_insert_ne by done. by destruct (decide (i = id)) as [->|]. }
    split_and!; [|split; [done..|]; intros q x Hq; exists x; auto|done|pose proof (Hfind id) as Hf; by rewrite decide_True in Hf|exists (NewChainCommitment id); split; [cbn; by rewrite lookup_insert_eq|done]].
    assert (Hold : forall q x id' y, commits m' !! q = Some x -> children x !! id' = Some y -> commits m !! q = Some x) by (intros q x id' y [[_ ->]|?]%Hlk Hy; [cbn in Hy; by rewrite lookup_empty in Hy|done]).
    assert (Hchild : forall q x id' y z, commits m' !! q = Some x -> children x !! id' = Some y -> commits m' !! y = Some z -> commits m !! q = Some x /\ commits m !! y = Some z).
    { intros q x id' y z Hq Hy Hz. pose proof (Hold _ _ _ _ Hq Hy) as Hq0. split; [done|]. destruct (ci_child0 q x id' y Hq0 Hy) as (z0 & _ & Hz0 & _). pose proof (Hkeep y z0 Hz0) as Hz1. rewrite Hz in Hz1. by injection Hz1 as ->. }
    split.
    + intros q x [[-> _]|Hq]%Hlk; cbn; [unfold p; lia|apply ci_fresh0 in Hq; lia].
    + intros slot t i q. cbn. intros [[<- <-]|[_ Ht]]%lookup_insert_Some Hi.
      * apply lookup_insert_Some in Hi as [[<- <-]|[_ Hi]]; [split; [done|]; exists (NewChainCommitment id); split; [by rewrite lookup_insert_eq|done]|].
        assert (Hs : commitmentsByID m !! CommitmentSlot id = Some s) by (unfold s in *; destruct (commitmentsByID m !! CommitmentSlot id); [done|cbn in Hi; by rewrite lookup_empty in Hi]).
        destruct (ci_byID0 _ _ _ _ Hs Hi) as [? (c & Hc & ?)]. split; [done|]. exists c. auto.
      * destruct (ci_byID0 _ _ _ _ Ht Hi) as [? (c & Hc & ?)]. split; [done|]. exists c. auto.
    + intros q x [[-> ->]|Hq]%Hlk Hev; rewrite Hfind; [by rewrite decide_True|]. pose proof (ci_unique0 q x Hq Hev) as Hu. destruct (decide (cc_id x = id)) as [Hx|]; [|done]. rewrite Hx in Hu. unfold find_id in Hu.
      exfalso. unfold s in E. destruct (commitmentsByID m !! CommitmentSlot id); cbn in *; congruence.
    + intros q x com [[_ ->]|Hq]%Hlk; [done|by apply (ci_published0 q)].
    + intros q x i y Hq Hy. destruct (ci_child0 q x i y (Hold _ _ _ _ Hq Hy) Hy) as (z & com & Hz & ?). exists z, com. auto.
    + intros q x i y z Hq Hy Hz. destruct (Hchild _ _ _ _ _ Hq Hy Hz). by eapply ci_solid_child0.
    + intros q x [[_ ->]|Hq]%Hlk; [done|]. intros Hs. destruct (ci_solid_parent0 q x Hq Hs) as [?|(com & p0 & c0 & ? & ? & ?)]; [by left|]. right. exists com, p0, c0. auto.
    + intros q x [[_ ->]|Hq]%Hlk; [done|by apply (ci_solid_chain0 q)].
    + intros q x i y z Hq Hy Hz. destruct (Hchild _ _ _ _ _ Hq Hy Hz). by eapply ci_chain_child0.
    + intros q x i y z Hq Hy Hz. destruct (Hchild _ _ _ _ _ Hq Hy Hz). by eapply ci_other_child0.
    + intros q x k [[_ ->]|Hq]%Hlk; [done|by apply (ci_chains0 q)].
Qed.

(** ** Walks *)
Lemma walk_with_inv visit (I : W -> Manager -> Prop) : (forall w x w' m l m', I w m -> WNext w = Some (x, w') -> visit x m = Ret (l, m') -> I (PushAll l w') m') ->
  forall fuel w m u m', I w m -> walk_with visit fuel w m = Ret (u, m') -> exists w', I w' m' /\ pending w' = ∅.
Proof.
  intros Hstep fuel. induction fuel as [|fuel IH]; intros w m u m' HI; cbn [walk_with]; pose proof (next_spec w) as Hn; destruct (WNext w) as [[x w1]|] eqn:E; try (intros Hr; discriminate Hr); try (intros [= _ <-]; by exists w).
  intros (l & m1 & Hv & Hr)%prog_bind_Ret. eapply IH; [|exact Hr]. by eapply Hstep.
Qed.

(** *** Chains *)
Definition kids m m' : Prop := forall p c, commits m !! p = Some c -> exists c', commits m' !! p = Some c' /\ children c' = children c.
Lemma kids_refl m : kids m m.
Proof. intros p c Hp. by exists c. Qed.
Definition chained m (q : ptr) : Prop := forall x, commits m !! q = Some x -> is_Some (cc_chain x).
Definition chain_walk (S1 : gset ptr) m0 (w : W) m : Prop := CInv g S1 (pending w) (pending w) m /\ (forall q, q ∈ seen w -> q ∉ pending w -> chained m q) /\ ext m0 m /\ kids m0 m.

(** A step that gives [x] a chain and goes on with its main child, or finds that it has one. *)
Lemma chain_walk_step S1 m0 w x w' m l m' : chain_walk S1 m0 w m -> WNext w = Some (x, w') ->
  (exists c k m1, commits m !! x = Some c /\ is_Some (chains m !! k) /\ m1 = with_commits (<[x := set_chain (Some k) c]> (commits m)) m /\ quiet m1 m' /\ l = match children c !! mainChildID c with Some y => [y] | None => [] end)
  \/ (exists c, commits m !! x = Some c /\ is_Some (cc_chain c) /\ m' = m /\ l = []) -> chain_walk S1 m0 (PushAll l w') m'.
Proof.
  intros (Hinv & Hseen & Hext & Hkids) Hn Hv. pose proof (next_spec w) as Hns. rewrite Hn in Hns. destruct Hns as (Hx & Hp & Hsn). unfold chain_walk. rewrite push_pending, push_seen, Hp, Hsn.
  destruct Hv as [(c & k & m1 & Hc & Hkc & -> & Hq & ->)|(c & Hc & Hk & -> & ->)].
  - assert (Hmono : forall q, chained m q -> chained m' q).
    { intros q Hch y Hy. rewrite (qt_commits _ _ Hq) in Hy. apply lookup_changed in Hy as [[-> ->]|[_ Hy]]; [by eexists|auto]. }
    assert (Hxch : chained m' x) by (intros y Hy; rewrite (qt_commits _ _ Hq) in Hy; apply lookup_changed in Hy as [[_ ->]|[? _]]; [by eexists|done]).
    pose proof (set_chain_inv g S1 (pending w) m x c k Hinv Hc Hkc) as Hinv1. apply (quiet_inv _ _ _ _ _ _ Hq) in Hinv1.
    assert (Hms : main_set c = list_to_set (match children c !! mainChildID c with Some y => [y] | None => [] end)) by (unfold main_set; destruct (children c !! mainChildID c); set_solver). rewrite Hms in Hinv1. clear Hms. set (l := match children c !! mainChildID c with Some y => [y] | None => [] end) in *.
    split_and!.
    + eapply CInv_shrink; [exact Hinv1|by right|]. intros q y Hin Hy. destruct (decide (q = x)) as [->|Hne]; [left; by apply Hxch|]. destruct (decide (q ∈ pending w)); [right; set_solver|].
      destruct (decide (q ∈ seen w)); [left; by eapply Hmono; [apply Hseen|]|right; set_solver].
    + intros q Hq1 Hq2. destruct (decide (q = x)) as [->|Hne]; [done|]. apply Hmono, Hseen; set_solver.
    + eapply ext_trans; [exact Hext|]. eapply ext_trans; [|apply quiet_ext, Hq]. eapply ext_update; [done|done|done|by eexists|done].
    + intros q y Hy. destruct (Hkids q y Hy) as (y1 & Hy1 & <-). rewrite (qt_commits _ _ Hq). cbn. destruct (decide (x = q)) as [->|]; [rewrite lookup_insert_eq; rewrite Hc in Hy1; injection Hy1 as <-; by eexists|rewrite lookup_insert_ne by done; by exists y1].
  - assert (Hxch : chained m x) by (intros y Hy; congruence). cbn. split_and!; [|intros q Hq1 Hq2; destruct (decide (q = x)) as [->|]; [done|]; apply Hseen; set_solver|done|done].
    eapply CInv_shrink; [exact Hinv|by right|]. intros q y Hin Hy. destruct (decide (q = x)) as [->|Hne]; [left; by apply Hxch|right; set_solver].
Qed.

Lemma next_main_Ret x m l m' : next_main x m = Ret (l, m') -> m' = m /\ exists c, commits m !! x = Some c /\ l = match children c !! mainChildID c with Some y => [y] | None => [] end.
Proof. unfold next_main. intros (r & m1 & [-> (c & Hc & ->)]%mainChild_Ret & E)%prog_bind_Ret. injection E as <- <-. split; [done|]. by exists c. Qed.

Lemma chain_walk_visit S1 m0 k w x w' m l m' (replace : bool) : chain_walk S1 m0 w m -> WNext w = Some (x, w') ->
  (if replace then propagateReplaceChainToMainChild k x else propagateChainToMainChild k x) m = Ret (l, m') -> chain_walk S1 m0 (PushAll l w') m'.
Proof.
  intros HI Hn Hv. eapply chain_walk_step; [exact HI|exact Hn|].
  assert (Hset : forall m1 c, commits m !! x = Some c -> m1 = with_commits (<[x := set_chain (Some k) c]> (commits m)) m -> (addCommitment k x ≫= fun _ => next_main x) m1 = Ret (l, m') ->
    exists c k m1, commits m !! x = Some c /\ is_Some (chains m !! k) /\ m1 = with_commits (<[x := set_chain (Some k) c]> (commits m)) m /\ quiet m1 m' /\ l = match children c !! mainChildID c with Some y => [y] | None => [] end).
  { intros m1 c Hc -> (u & m2 & Ha & [-> (c2 & Hc2 & ->)]%next_main_Ret)%prog_bind_Ret. pose proof (addCommitment_quiet _ _ _ _ _ Ha) as Hq. apply addCommitment_chain in Ha. exists c, k. eexists. split; [done|]. split; [done|]. split; [done|]. split; [done|]. rewrite (qt_commits _ _ Hq) in Hc2. cbn in Hc2. rewrite lookup_insert_eq in Hc2. by injection Hc2 as <-. }
  destruct replace.
  - unfold propagateReplaceChainToMainChild, replaceChain in Hv. apply prog_bind_Ret in Hv as (u & m1 & (c & Hc & Hm1)%cmod_Ret & Hv). left. by eapply Hset.
  - unfold propagateChainToMainChild, publishChain in Hv. apply prog_bind_Ret in Hv as (b & m1 & Hpub & Hv). apply prog_bind_Ret in Hpub as (c & m2 & [Hc ->]%cget_Ret & Hpub). destruct (cc_chain c) as [k0|] eqn:Ek.
    + injection Hpub as <- <-. cbn [negb] in Hv. injection Hv as <- <-. right. exists c. by rewrite Ek.
    + apply prog_bind_Ret in Hpub as (u & m2 & (c1 & Hc1 & Hm1)%cmod_Ret & E). injection E as <- <-. cbn [negb] in Hv. left. by eapply Hset.
Qed.

Lemma chain_walk_inv S1 k x m u m' (replace : bool) : CInv g S1 {[x]} {[x]} m -> walk_commits (if replace then propagateReplaceChainToMainChild k else propagateChainToMainChild k) [x] m = Ret (u, m') ->
  CInv g S1 ∅ ∅ m' /\ ext m m' /\ kids m m'.
Proof.
  intros Hinv. unfold walk_commits. intros (fuel & m1 & E & Hr)%prog_bind_Ret. injection E as <- <-. eapply (walk_with_inv _ (chain_walk S1 m)) in Hr as (w' & (Hi & _ & He & Hk) & Hp).
  - by rewrite Hp in Hi.
  - intros w y w' m1 l m2 HI Hn Hv. eapply (chain_walk_visit S1 m k w y w' m1 l m2 replace); [exact HI|exact Hn|]. by destruct replace.
  - unfold chain_walk. rewrite push_pending, push_seen, new_pending, new_seen. split_and!; [|set_solver|apply ext_refl|apply kids_refl]. eapply CInv_mono; [..|exact Hinv]; set_solver.
Qed.

(** *** Solidity *)
Definition solid_walk m0 (w : W) m : Prop := CInv g (pending w) ∅ ∅ m /\ (forall q x, q ∈ seen w -> q ∉ pending w -> commits m !! q = Some x -> cc_solid x = true)
  /\ (forall q, q ∈ pending w -> exists p c id, commits m !! p = Some c /\ cc_solid c = true /\ children c !! id = Some q) /\ ext m0 m.

Lemma triggerSolid_Ret p m b m' : triggerSolid p m = Ret (b, m') -> exists c, commits m !! p = Some c /\ b = negb (cc_solid c) /\ m' = with_commits (<[p := set_solid true c]> (commits m)) m.
Proof.
  unfold triggerSolid. intros (c & m1 & [Hc ->]%cget_Ret & H1)%prog_bind_Ret. apply prog_bind_Ret in H1 as (u & m2 & (c1 & Hc1 & ->)%cmod_Ret & E). injection E as <- <-. exists c. rewrite Hc in Hc1. by injection Hc1 as <-.
Qed.
Lemma Children_Ret p m l m' : Children p m = Ret (l, m') -> m' = m /\ exists c, commits m !! p = Some c /\ (list_to_set l : gset ptr) = child_set c.
Proof.
  unfold Children. intros (c & m1 & [Hc ->]%cget_Ret & E)%prog_bind_Ret. injection E as <- <-. split; [done|]. exists c. split; [done|]. unfold child_set. apply leibniz_equiv. intros q. rewrite !elem_of_list_to_set, !list_elem_of_fmap. setoid_rewrite range_of_perm. done.
Qed.

(** A child of a solid commitment may become solid. *)
Lemma solid_visit S m p c id q x : CInv g S ∅ ∅ m -> commits m !! p = Some c -> cc_solid c = true -> children c !! id = Some q -> commits m !! q = Some x ->
  CInv g (S ∖ {[q]} ∪ (if cc_solid x then ∅ else child_set x)) ∅ ∅ (with_commits (<[q := set_solid true x]> (commits m)) m).
Proof.
  intros Hinv Hp Hs Hid Hq. destruct (ci_child _ _ _ _ _ Hinv p c id q Hp Hid) as (x0 & com & Hx0 & Hxid & Hcom & Hpr). rewrite Hq in Hx0. injection Hx0 as <-. apply set_solid_inv; [done|done| |by rewrite Hcom|].
  - destruct (ci_chain_child _ _ _ _ _ Hinv p c id q x Hp Hid Hq) as [?|?]; [by apply (ci_solid_chain _ _ _ _ _ Hinv p c)|done|set_solver].
  - right; right. by exists com, p, c.
Qed.

Lemma solid_walk_visit m0 w x w' m l m' : solid_walk m0 w m -> WNext w = Some (x, w') -> propagateSolidity x m = Ret (l, m') -> solid_walk m0 (PushAll l w') m'.
Proof.
  intros (Hinv & Hseen & Hpend & Hext) Hn. pose proof (next_spec w) as Hns. rewrite Hn in Hns. destruct Hns as (Hx & Hp & Hsn). unfold propagateSolidity. intros (b & m1 & (c & Hc & -> & ->)%triggerSolid_Ret & Hv)%prog_bind_Ret.
  destruct (Hpend x Hx) as (p & c0 & id & Hp0 & Hs0 & Hid). pose proof (solid_visit (pending w) m p c0 id x c Hinv Hp0 Hs0 Hid Hc) as Hinv1. set (m1 := with_commits _ m) in *.
  assert (Hl : m' = m1 /\ (list_to_set l : gset ptr) = if cc_solid c then ∅ else child_set c).
  { destruct (cc_solid c); cbn [negb] in Hv; [injection Hv as <- <-; done|]. apply Children_Ret in Hv as [-> (c1 & Hc1 & ->)]. split; [done|]. cbn in Hc1. rewrite lookup_insert_eq in Hc1. by injection Hc1 as <-. }
  destruct Hl as [-> Hl]. rewrite <- Hl in Hinv1.
  assert (Hmono : forall q y, commits m1 !! q = Some y -> (forall y0, commits m !! q = Some y0 -> cc_solid y0 = true) -> cc_solid y = true) by (intros q y [[-> ->]|[_ Hy]]%lookup_changed Ho; [done|auto]).
  assert (Hself : forall y, commits m1 !! x = Some y -> cc_solid y = true) by (intros y [[_ ->]|[? _]]%lookup_changed; done).
  assert (Hkids : forall p c, commits m !! p = Some c -> exists c', commits m1 !! p = Some c' /\ children c' = children c /\ (cc_solid c = true -> cc_solid c' = true)).
  { intros p1 c1 Hp1. cbn. destruct (decide (x = p1)) as [->|]; [rewrite lookup_insert_eq; rewrite Hc in Hp1; injection Hp1 as <-; by eexists|rewrite lookup_insert_ne by done; by exists c1]. }
  unfold solid_walk. rewrite push_pending, push_seen, Hp, Hsn. split_and!.
  - eapply CInv_shrink; [exact Hinv1| |set_solver]. intros q y Hin Hy. destruct (decide (q = x)) as [->|Hne]; [left; by apply Hself|]. destruct (decide (q ∈ pending w)); [right; set_solver|].
    destruct (decide (q ∈ seen w)); [left; eapply Hmono; [exact Hy|]; intros y0; by apply Hseen|right; set_solver].
  - intros q y Hq1 Hq2 Hy. destruct (decide (q = x)) as [->|Hne]; [by apply Hself|]. eapply Hmono; [exact Hy|]. intros y0. apply Hseen; set_solver.
  - intros q [Hq|Hq]%elem_of_union.
    + destruct (Hpend q) as (p1 & c1 & i1 & Hp1 & Hs1 & Hi1); [set_solver|]. destruct (Hkids p1 c1 Hp1) as (c1' & ? & E & ?). exists p1, c1', i1. rewrite E. auto.
    + apply elem_of_difference in Hq as [Hq _]. rewrite Hl in Hq. destruct (cc_solid c); [set_solver|]. apply elem_of_child_set in Hq as [i Hi]. destruct (Hkids x c Hc) as (c' & Hc' & E & _). exists x, c', i. rewrite E. split_and!; [done|by apply Hself|done].
  - eapply ext_trans; [exact Hext|]. eapply ext_update; done.
Qed.

Lemma solid_walk_init p c l m : CInv g (child_set c) ∅ ∅ m -> commits m !! p = Some c -> cc_solid c = true -> (list_to_set l : gset ptr) = child_set c -> solid_walk m (PushAll l walk_new) m.
Proof.
  intros Hinv Hp Hs Hl. unfold solid_walk. rewrite push_pending, push_seen, new_pending, new_seen, Hl. split_and!; [|set_solver| |apply ext_refl].
  - eapply CInv_mono; [..|exact Hinv]; set_solver.
  - intros q Hq. assert (Hin : q ∈ child_set c) by set_solver. apply elem_of_child_set in Hin as [id Hid]. by exists p, c, id.
Qed.
Lemma solid_walk_inv p c l m u m' : CInv g (child_set c) ∅ ∅ m -> commits m !! p = Some c -> cc_solid c = true -> (list_to_set l : gset ptr) = child_set c -> walk_commits propagateSolidity l m = Ret (u, m') ->
  CInv g ∅ ∅ ∅ m' /\ ext m m'.
Proof.
  intros Hinv Hp Hs Hl. unfold walk_commits. intros (fuel & m1 & E & Hr)%prog_bind_Ret. injection E as <- <-. eapply (walk_with_inv _ (solid_walk m)) in Hr as (w' & (Hi & _ & _ & He) & Hpe).
  - by rewrite Hpe in Hi.
  - intros w y w' m1 l1 m2. apply solid_walk_visit.
  - by apply (solid_walk_init p c).
Qed.
End Invariant.
