(* ===== verification/ChainManagerOps.v ===== *)
(** * Reachable states of the chain manager

    The operations keep the invariant of ChainManagerProps; commitment IDs are hashes, so a commitment is not its own predecessor, and carry the slot. *)
From Stdlib Require Import Strings.Byte.
From S2P Require Import Prelude Bytes Block TimeApi EpochStore Walker Streams Settings ChainManager ChainManagerProps.

Implicit Types m : Manager.

Section Ops.
Context {W : Type} `{!Walker ptr W} `{!WalkerSpec ptr W} `{!RangeOrder CommitmentID} (VersionForSlot : SlotIndex -> Z) (g : ptr).

(** ** Registering a commitment *)
Lemma publishChain_Ret p k m b m' : publishChain p k m = Ret (b, m') -> exists c, commits m !! p = Some c /\
  match cc_chain c with Some _ => m' = m | None => m' = with_commits (<[p := set_chain (Some k) c]> (commits m)) m end.
Proof.
  unfold publishChain. intros (c & m1 & [Hc ->]%cget_Ret & H1)%prog_bind_Ret. exists c. split; [done|]. destruct (cc_chain c); [by injection H1 as _ <-|].
  apply prog_bind_Ret in H1 as (u & m2 & (c1 & Hc1 & ->)%cmod_Ret & E). injection E as _ <-. rewrite Hc in Hc1. by injection Hc1 as <-.
Qed.

(** The state of a child that was registered: its own children still have to follow. *)
Definition registered (isSolid : bool) (child : ptr) m' : Prop := exists x', commits m' !! child = Some x' /\
  match cc_chain x' with
  | Some _ => CInv g (if isSolid then child_set x' else ∅) (main_set x') (main_set x') m' /\ (isSolid = true -> cc_solid x' = true)
  | None => CInv g ∅ ∅ ∅ m' /\ isSolid = false
  end.

Lemma attach_child (isSolid : bool) child k com p c m m' : CInv g (if isSolid then {[child]} else ∅) {[child]} {[child]} m -> (forall x, commits m !! child = Some x -> cc_commitment x = Some com) ->
  commits m !! p = Some c -> cc_id c = PreviousCommitmentID com -> cc_solid c = isSolid ->
  (_ ← addCommitment k child; _ ← publishChain child k; if isSolid : bool then _ ← triggerSolid child; mret tt else mret tt : prog Manager unit) m = Ret (tt, m') -> registered isSolid child m' /\ ext m m'.
Proof.
  intros Hinv Hcom Hp Hid Hs (u & m1 & Ha & H1)%prog_bind_Ret. pose proof (addCommitment_quiet _ _ _ _ _ Ha) as Hq. apply addCommitment_chain, (qt_chains _ _ Hq) in Ha. apply prog_bind_Ret in H1 as (b & m2 & (x & Hx & Hm2)%publishChain_Ret & H1).
  pose proof (quiet_inv _ _ _ _ _ _ Hq Hinv) as Hinv1. assert (Hx0 : commits m !! child = Some x) by (by rewrite <- (qt_commits _ _ Hq)). specialize (Hcom x Hx0).
  assert (H2 : exists x2, commits m2 !! child = Some x2 /\ is_Some (cc_chain x2) /\ cc_commitment x2 = Some com /\ CInv g (if isSolid then {[child]} else ∅) (main_set x2) (main_set x2) m2 /\ ext m1 m2 /\ (exists c2, commits m2 !! p = Some c2 /\ cc_id c2 = cc_id c /\ (cc_solid c = true -> cc_solid c2 = true))).
  { assert (Hp1 : commits m1 !! p = Some c) by (by rewrite (qt_commits _ _ Hq)). destruct (cc_chain x) as [k0|] eqn:Ek; subst m2.
    - exists x. split_and!; [done|by rewrite Ek|done| |apply ext_refl|by exists c]. eapply CInv_shrink; [exact Hinv1|by right|]. intros q y Hin Hy. left. assert (q = child) as -> by set_solver. rewrite Hx in Hy. injection Hy as <-. by rewrite Ek.
    - exists (set_chain (Some k) x). split_and!; [cbn; by rewrite lookup_insert_eq|by eexists|done| |eapply ext_update; [done|done|done|by eexists|done]|].
      + pose proof (set_chain_inv g _ {[child]} m1 child x k Hinv1 Hx Ha) as Hi. eapply CInv_mono; [..|exact Hi]; [done|unfold main_set; cbn; set_solver..].
      + destruct (decide (child = p)) as [->|]; [exists (set_chain (Some k) x); cbn; rewrite lookup_insert_eq; rewrite Hx in Hp1; by injection Hp1 as ->|exists c; cbn; by rewrite lookup_insert_ne]. }
  destruct H2 as (x2 & Hx2 & Hk2 & Hcom2 & Hinv2 & Hext2 & c2 & Hc2 & Hid2 & Hs2). assert (Hext : ext m m2) by (eapply ext_trans; [by apply quiet_ext|done]). destruct isSolid.
  - apply prog_bind_Ret in H1 as (b1 & m3 & (x3 & Hx3 & -> & ->)%triggerSolid_Ret & E). injection E as <-. rewrite Hx2 in Hx3. injection Hx3 as <-. split.
    + exists (set_solid true x2). split; [cbn; by rewrite lookup_insert_eq|]. cbn. destruct (cc_chain x2) eqn:Ek; [|by destruct Hk2]. split; [|done].
      pose proof (set_solid_inv g _ _ _ m2 child x2 Hinv2 Hx2) as Hi. eapply CInv_mono; [| | |apply Hi]; [|done|done|by rewrite Ek|by rewrite Hcom2|].
      * unfold child_set at 2. cbn. fold (child_set x2). destruct (cc_solid x2); set_solver.
      * right; right. exists com, p, c2. split_and!; [done|done|auto|congruence].
    + eapply ext_trans; [exact Hext|]. eapply ext_update; done.
  - injection H1 as <-. split; [|done]. exists x2. split; [done|]. destruct (cc_chain x2); [|by destruct Hk2]. split; [|done]. done.
Qed.

Lemma registerChild_inv p c child x com m isSolid wasForked m' : CInv g ∅ ∅ ∅ m -> commits m !! p = Some c -> commits m !! child = Some x -> child <> p -> cc_commitment x = Some com -> PreviousCommitmentID com = cc_id c ->
  children c !! cc_id x = None -> registerChild p child m = Ret ((isSolid, wasForked), m') -> registered isSolid child m' /\ ext m m'.
Proof.
  intros Hinv Hp Hx Hne Hcom Hpr Hno. unfold registerChild. intros ([[s k] f] & m1 & H1 & H2)%prog_bind_Ret.
  unfold cc_registerChild in H1. apply prog_bind_Ret in H1 as (x0 & m2 & [Hx0 ->]%cget_Ret & H1). rewrite Hx in Hx0. injection Hx0 as <-.
  apply prog_bind_Ret in H1 as (u & m3 & (c0 & Hc0 & ->)%cmod_Ret & H1). rewrite Hp in Hc0. injection Hc0 as <-. set (c' := set_children _ _ c) in *. set (m3 := with_commits _ m) in *.
  pose proof (add_child_inv g _ _ _ m p c child x com Hinv Hp Hx Hne Hcom Hpr) as Hinv3. cbn zeta in Hinv3. fold c' m3 in Hinv3.
  assert (Hext3 : ext m m3) by (eapply ext_update; done). assert (Hp3 : commits m3 !! p = Some c') by (cbn; by rewrite lookup_insert_eq). assert (Hx3 : commits m3 !! child = Some x) by (cbn; by rewrite lookup_insert_ne).
  apply prog_bind_Ret in H1 as (c1 & m4 & [Hc1 ->]%cget_Ret & H1). rewrite Hp3 in Hc1. injection Hc1 as <-.
  assert (Hsize : size (children c') = S (size (children c))) by (cbn; by rewrite map_size_insert_None).
  assert (Hwith : forall m5 k, quiet m3 m5 -> s = cc_solid c -> (_ ← addCommitment k child; _ ← publishChain child k; _ ← (if s : bool then _ ← triggerSolid child; mret tt else mret tt); mret (s, wasForked) : prog Manager (bool * bool)) m5 = Ret ((isSolid, wasForked), m') ->
    registered isSolid child m' /\ ext m m').
  { intros m5 k5 Hq Hs5 H5. apply prog_bind_Ret in H5 as (u5 & m6 & Ha & H5). apply prog_bind_Ret in H5 as (b5 & m7 & Hb & H5). apply prog_bind_Ret in H5 as (u6 & m8 & Hc & E). injection E as <- <-. destruct u6.
    edestruct (attach_child s child k5 com p c' m5 m8) as [Hr He]; [| | | | | |split; [exact Hr|]].
    - apply (quiet_inv _ _ _ _ _ _ Hq). eapply CInv_mono; [..|exact Hinv3]; [rewrite Hs5; destruct (cc_solid c); set_solver|destruct (is_none _); set_solver|case_bool_decide; set_solver].
    - intros y. rewrite (qt_commits _ _ Hq), Hx3. by intros [= <-].
    - by rewrite (qt_commits _ _ Hq).
    - done.
    - done.
    - rewrite (prog_bind_eq _ _ _ _ _ Ha), (prog_bind_eq _ _ _ _ _ Hb). exact Hc.
    - eapply ext_trans; [exact Hext3|]. eapply ext_trans; [by apply quiet_ext|done]. }
  destruct (bool_decide (1 < size (children c'))%nat) eqn:Eb.
  - apply prog_bind_Ret in H1 as (k1 & m5 & Hq%NewChain_quiet & E). injection E as <- <- <- <-. apply (Hwith m5 k1 Hq); [done|].
    apply prog_bind_Ret in H2 as (u5 & m6 & Ha & H5). apply prog_bind_Ret in H5 as (b5 & m7 & Hb & H5). apply prog_bind_Ret in H5 as (u6 & m8 & Hc & E). injection E as <- <- <-.
    rewrite (prog_bind_eq _ _ _ _ _ Ha), (prog_bind_eq _ _ _ _ _ Hb), (prog_bind_eq _ _ _ _ _ Hc). done.
  - injection H1 as <- <- <- <-. change (cc_chain c') with (cc_chain c) in H2. change (cc_solid c') with (cc_solid c) in *. destruct (cc_chain c) as [k1|] eqn:Ek.
    + apply (Hwith m3 k1 (quiet_refl _)); [done|]. apply prog_bind_Ret in H2 as (u5 & m6 & Ha & H5). apply prog_bind_Ret in H5 as (b5 & m7 & Hb & H5). apply prog_bind_Ret in H5 as (u6 & m8 & Hc & E). injection E as <- <- <-.
      rewrite (prog_bind_eq _ _ _ _ _ Ha), (prog_bind_eq _ _ _ _ _ Hb), (prog_bind_eq _ _ _ _ _ Hc). done.
    + injection H2 as <- <- <-. split; [|done]. assert (Hns : cc_solid c = false). { destruct (cc_solid c) eqn:Es; [|done]. destruct (ci_solid_chain _ _ _ _ _ Hinv p c Hp Es) as [[? ?] _]. congruence. }
      assert (Hemp : children c = ∅). { apply bool_decide_eq_false in Eb. rewrite Hsize in Eb. apply map_size_empty_inv. lia. }
      rewrite Hns in Hinv3 |- *. rewrite bool_decide_eq_true_2 in Hinv3 by done. cbn in Hinv3. rewrite !(right_id_L ∅ (∪)) in Hinv3. exists x. split; [done|]. destruct (cc_chain x); [|done]. split; [|done]. eapply CInv_mono; [..|exact Hinv3]; set_solver.
Qed.

Definition wf_commitment (com : Commitment) : Prop := CommitmentSlot (commitmentID com) = commitment_Slot com /\ commitmentID com <> PreviousCommitmentID com.

Lemma PublishCommitment_Ret p com m b m' : PublishCommitment p com m = Ret (b, m') -> exists c, commits m !! p = Some c /\
  if b then cc_commitment c = None /\ m' = with_commits (<[p := set_commitment (Some com) c]> (commits m)) m else is_Some (cc_commitment c) /\ m' = m.
Proof.
  unfold PublishCommitment. intros (c & m1 & [Hc ->]%cget_Ret & H1)%prog_bind_Ret. exists c. split; [done|]. destruct (cc_commitment c); [by injection H1 as <- <-|].
  apply prog_bind_Ret in H1 as (u & m2 & (c1 & Hc1 & ->)%cmod_Ret & E). injection E as <- <-. rewrite Hc in Hc1. by injection Hc1 as <-.
Qed.
Lemma when_update_quiet (b : bool) f m u m' : (forall m, quiet m (f m)) -> when b (update f) m = Ret (u, m') -> quiet m m'.
Proof. intros Hf. destruct b; cbn; unfold update; intros E; injection E as _ <-; [apply Hf|apply quiet_refl]. Qed.
Lemma quiet_find m m' id : quiet m m' -> find_id m' id = find_id m id.
Proof. intros []. unfold find_id. congruence. Qed.
Lemma quiet_evicted m m' slot : quiet m m' -> evicted m' slot = evicted m slot.
Proof. intros []. unfold evicted. congruence. Qed.

(** A commitment that was not published is no child yet. *)
Lemma unpublished_no_child m p c q x : CInv g ∅ ∅ ∅ m -> commits m !! p = Some c -> commits m !! q = Some x -> cc_commitment x = None -> evicted m (CommitmentSlot (cc_id x)) = false -> children c !! cc_id x = None.
Proof.
  intros Hinv Hp Hq Hn Hev. destruct (children c !! cc_id x) as [y|] eqn:E; [|done]. destruct (ci_child _ _ _ _ _ Hinv p c _ y Hp E) as (z & com & Hz & Hid & Hcom & _).
  pose proof (ci_unique _ _ _ _ _ Hinv q x Hq Hev) as H1. pose proof (ci_unique _ _ _ _ _ Hinv y z Hz) as H2. rewrite Hid in H2. specialize (H2 Hev). rewrite H1 in H2. injection H2 as <-. congruence.
Qed.

Lemma registerCommitment_inv com m isNew isSolid wasForked p m' : CInv g ∅ ∅ ∅ m -> wf_commitment com -> evicted m (commitment_Slot com) = false ->
  registerCommitment com m = Ret ((isNew, isSolid, wasForked, p), m') -> (if isNew then registered isSolid p m' else CInv g ∅ ∅ ∅ m') /\ ext m m'.
Proof.
  intros Hinv [Hslot Hself] Hev. unfold registerCommitment. intros ([q created1] & m1 & Hg1 & H1)%prog_bind_Ret.
  destruct (getOrCreate_inv g _ _ _ _ _ _ _ _ Hinv Hg1) as (Hinv1 & Hext1 & _ & _ & cq & Hcq & Hidq & _).
  apply prog_bind_Ret in H1 as (u & m2 & Hq2%when_update_quiet & H1); [|done]. pose proof (quiet_inv _ _ _ _ _ _ Hq2 Hinv1) as Hinv2.
  apply prog_bind_Ret in H1 as ([p0 created2] & m3 & Hg2 & H1). destruct (getOrCreate_inv g _ _ _ _ _ _ _ _ Hinv2 Hg2) as (Hinv3 & Hext3 & Hkeep & _ & cp & Hcp & Hidp & _).
  assert (Hext : ext m m3) by (eapply ext_trans; [exact Hext1|]; eapply ext_trans; [apply quiet_ext, Hq2|exact Hext3]).
  assert (Hcq3 : commits m3 !! q = Some cq) by (apply Hkeep; by rewrite (qt_commits _ _ Hq2)). assert (Hne : p0 <> q) by (intros ->; congruence).
  apply prog_bind_Ret in H1 as (b & m4 & (c & Hc & Hb)%PublishCommitment_Ret & H1). rewrite Hcp in Hc. injection Hc as <-. destruct b; cbn [negb] in H1.
  - destruct Hb as [Hn ->]. apply prog_bind_Ret in H1 as (u1 & m5 & E5 & H1). apply prog_bind_Ret in H1 as (u2 & m6 & Hq6%when_update_quiet & H1); [|done].
    apply prog_bind_Ret in H1 as ([s f] & m7 & Hr & E). injection E as <- <- <- <- <-. unfold update in E5. injection E5 as _ <-.
    pose proof (publish_inv g _ _ _ m3 p0 cp com Hinv3 Hcp Hn ltac:(congruence) ltac:(congruence)) as Hinv4. set (m4 := with_commits _ m3) in *.
    assert (Hq : quiet m4 m6) by (eapply quiet_trans; [|exact Hq6]; done). assert (Hcm6 : commits m6 = commits m4) by apply (qt_commits _ _ Hq).
    destruct (registerChild_inv q cq p0 (set_commitment (Some com) cp) com m6 s f m7) as [Hreg He]; [by apply (quiet_inv _ _ _ _ _ _ Hq)|rewrite Hcm6; cbn; by rewrite lookup_insert_ne|rewrite Hcm6; cbn; by rewrite lookup_insert_eq|done|done|done| |done|].
    + cbn. eapply unpublished_no_child; [exact Hinv3|exact Hcq3|exact Hcp|done|]. unfold evicted in *. rewrite Hidp, Hslot, (ex_evicted _ _ Hext). done.
    + split; [done|]. eapply ext_trans; [exact Hext|]. eapply ext_trans; [|exact He]. eapply ext_trans; [|by apply quiet_ext]. eapply ext_update; [done|done|done|done|]. cbn. congruence.
  - destruct Hb as [_ ->]. apply prog_bind_Ret in H1 as (c1 & m5 & [Hc1 ->]%cget_Ret & E). by injection E as <- <- <- <- <-.
Qed.

(** ** Processing a commitment *)
Definition root_at m (d : Commitment) : Prop := exists r c, rootCommitment m = Some r /\ commits m !! r = Some c /\ cc_commitment c = Some d.
(** The root is published, and slots from the root on are not evicted. *)
Record Good m : Prop := {
  gd_inv : CInv g ∅ ∅ ∅ m;
  gd_root : exists d, root_at m d /\ forall slot, commitment_Slot d <= slot -> evicted m slot = false;
  gd_last i : lastEvictedSlot m = Some i -> 0 <= i;
}.
Lemma Good_root m d slot : Good m -> root_at m d -> commitment_Slot d <= slot -> evicted m slot = false.
Proof. intros [_ (d' & (r' & c' & E1 & E2 & E3) & Hok) _] (r & c & F1 & F2 & F3). rewrite E1 in F1. injection F1 as <-. rewrite E2 in F2. injection F2 as <-. rewrite E3 in F3. injection F3 as <-. apply Hok. Qed.
Lemma Good_ext m m' : Good m -> CInv g ∅ ∅ ∅ m' -> ext m m' -> Good m'.
Proof.
  intros [H1 (d & (r & c & Hr & Hc & Hd) & Hok) H3] Hi He. split; [done| |by rewrite (ex_evicted _ _ He)]. destruct (ex_object _ _ He r c Hc) as (c' & Hc' & _ & _ & _ & Hk). exists d. split; [exists r, c'; by rewrite (ex_root _ _ He), (Hk d Hd)|].
  intros slot Hle. unfold evicted. rewrite (ex_evicted _ _ He). by apply Hok.
Qed.
Lemma Good_quiet m m' : Good m -> quiet m m' -> Good m'.
Proof. intros Hg Hq. eapply Good_ext; [exact Hg|by apply (quiet_inv _ _ _ _ _ _ Hq), gd_inv|by apply quiet_ext]. Qed.

(** What is left to do for a commitment that was registered. *)
Lemma spread_inv (isSolid : bool) p c k m u m' : registered isSolid p m -> commits m !! p = Some c -> cc_chain c = Some k ->
  (main ← mainChild p;
   _ ← (match main with Some x => walk_commits (propagateChainToMainChild k) [x] | None => mret tt end);
   (if isSolid : bool then l ← Children p; walk_commits propagateSolidity l else mret tt) : prog Manager unit) m = Ret (u, m') -> CInv g ∅ ∅ ∅ m' /\ ext m m'.
Proof.
  intros (x & Hx & Hreg) Hc Hk. rewrite Hc in Hx. injection Hx as <-. rewrite Hk in Hreg. destruct Hreg as [Hinv Hs]. intros (main & m1 & [-> (c1 & Hc1 & ->)]%mainChild_Ret & H1)%prog_bind_Ret. rewrite Hc in Hc1. injection Hc1 as <-.
  apply prog_bind_Ret in H1 as (u1 & m2 & H2 & H1).
  assert (Hw : CInv g (if isSolid then child_set c else ∅) ∅ ∅ m2 /\ ext m m2 /\ kids m m2).
  { unfold main_set in Hinv. destruct (children c !! mainChildID c) as [y|]; [by apply (chain_walk_inv g _ k y m u1 m2 false)|]. injection H2 as _ <-. split_and!; [done|apply ext_refl|apply kids_refl]. }
  destruct Hw as (Hinv2 & Hext2 & Hkids2). destruct isSolid; [|injection H1 as _ <-; done]. apply prog_bind_Ret in H1 as (l & m3 & [-> (c2 & Hc2 & Hl)]%Children_Ret & H1).
  destruct (Hkids2 p c Hc) as (c3 & Hc3 & Hch). rewrite Hc2 in Hc3. injection Hc3 as <-. assert (Hset : child_set c = child_set c2) by (unfold child_set; by rewrite Hch). rewrite Hset in Hinv2.
  destruct (solid_walk_inv g p c2 l m2 u m' Hinv2 Hc2) as [? ?]; [|done|done|split; [done|by eapply ext_trans]]. destruct (ex_object _ _ Hext2 p c Hc) as (c4 & Hc4 & _ & Hs4 & _). rewrite Hc2 in Hc4. injection Hc4 as <-. auto.
Qed.

Lemma processCommitment_good com m r m' : Good m -> wf_commitment com -> processCommitment VersionForSlot com m = Ret (r, m') -> Good m'.
Proof.
  intros Hg Hwf. unfold processCommitment. destruct (negb _); [intros E; by injection E as _ <-|]. intros ([below isRoot] & m1 & H1 & H2)%prog_bind_Ret.
  unfold evaluateAgainstRootCommitment in H1. apply prog_bind_Ret in H1 as (q & m2 & [-> Hq]%root_ptr_Ret & H1). apply prog_bind_Ret in H1 as (d & m2 & [-> (q0 & c & [= <-] & Hc & Hd)]%data_of_Ret & E). injection E as <- <- <-.
  destruct ((commitment_Slot com <=? commitment_Slot d) || bool_decide (commitmentID com = commitmentID d)) eqn:Eb.
  - destruct (bool_decide (commitmentID com = commitmentID d)).
    + apply prog_bind_Ret in H2 as (q1 & m2 & [-> _]%root_ptr_Ret & E). by injection E as _ <-.
    + apply prog_bind_Ret in H2 as (u1 & m2 & E1 & H2). apply prog_bind_Ret in H2 as (u2 & m3 & E2 & E3). unfold update in *. injection E1 as _ <-. injection E2 as _ <-. injection E3 as _ <-. by eapply Good_quiet.
  - apply orb_false_iff in Eb as [Eb _]. apply prog_bind_Ret in H2 as ([[[isNew isSolid] wasForked] p] & m2 & Hr & H2).
    apply registerCommitment_inv in Hr as [Hreg Hext]; [|apply gd_inv, Hg|done|apply (Good_root m d); [done|by exists q, c|lia]].
    apply prog_bind_Ret in H2 as (c2 & m3 & [Hc2 ->]%cget_Ret & H2). destruct (cc_chain c2) as [k|] eqn:Ek.
    + destruct isNew; cbn [negb] in H2; [|injection H2 as _ <-; by eapply Good_ext].
      apply prog_bind_Ret in H2 as (main & m3 & Hm & H2). apply prog_bind_Ret in H2 as (u1 & m4 & Hw & H2). apply prog_bind_Ret in H2 as (u2 & m5 & Hs & E). injection E as _ <-.
      destruct (spread_inv isSolid p c2 k m2 u2 m5 Hreg Hc2 Ek) as [Hi He]; [rewrite (prog_bind_eq _ _ _ _ _ Hm), (prog_bind_eq _ _ _ _ _ Hw); exact Hs|]. eapply Good_ext; [exact Hg|done|by eapply ext_trans].
    + injection H2 as _ <-. eapply Good_ext; [exact Hg| |done]. destruct isNew; [|done]. destruct Hreg as (x & Hx & Hreg). rewrite Hc2 in Hx. injection Hx as <-. rewrite Ek in Hreg. apply Hreg.
Qed.

(** ** Forks *)
Lemma Commitment_Ret id m r m' : Commitment_ id m = Ret (r, m') -> m' = m /\ r = find_id m id.
Proof. unfold Commitment_, read. intros E. by injection E as <- <-. Qed.
Lemma read_Ret {A} (f : Manager -> A) m a m' : read f m = Ret (a, m') -> m' = m /\ a = f m.
Proof. unfold read. intros E. by injection E as <- <-. Qed.
Lemma find_forking_point_reads fuel : forall chain root fp m r m', find_forking_point fuel chain root fp m = Ret (r, m') -> m' = m.
Proof.
  induction fuel as [|fuel IH]; intros chain root fp m r m'; cbn [find_forking_point]; case_bool_decide; try (intros E; by injection E as _ <-); [intros E; discriminate E|].
  intros (k & m1 & [_ ->]%lift_Ret & H1)%prog_bind_Ret. apply prog_bind_Ret in H1 as (x & m1 & ->%chain_get_Ret & H1). apply prog_bind_Ret in H1 as (d & m1 & [-> _]%data_of_Ret & H1).
  apply prog_bind_Ret in H1 as (p & m1 & [-> _]%Commitment_Ret & H1). destruct p as [p|]; [|by injection H1 as _ <-]. apply prog_bind_Ret in H1 as (k1 & m1 & [-> _]%chain_of_Ret & H1). by eapply IH.
Qed.
Lemma forkingPoint_reads p m r m' : forkingPointAgainstMainChain p m = Ret (r, m') -> m' = m.
Proof.
  unfold forkingPointAgainstMainChain. intros (c & m1 & [_ ->]%cget_Ret & H1)%prog_bind_Ret. destruct (_ || _); [by injection H1 as _ <-|]. apply prog_bind_Ret in H1 as (q & m1 & [-> _]%root_ptr_Ret & H1).
  apply prog_bind_Ret in H1 as (k & m1 & [-> _]%chain_of_Ret & H1). apply prog_bind_Ret in H1 as (fuel & m1 & [-> _]%read_Ret & H1). by apply find_forking_point_reads in H1.
Qed.
Lemma chain_Latest_reads k m r m' : chain_LatestCommitment k m = Ret (r, m') -> m' = m.
Proof. unfold chain_LatestCommitment. intros (x & m1 & ->%chain_get_Ret & E)%prog_bind_Ret. by injection E as _ <-. Qed.
Lemma detectForks_quiet p source m u m' : detectForks p source m = Ret (u, m') -> quiet m m'.
Proof.
  unfold detectForks. intros (r & m1 & ->%forkingPoint_reads & H1)%prog_bind_Ret. destruct r as [[fp|]|]; try (injection H1 as _ <-; apply quiet_refl).
  apply prog_bind_Ret in H1 as (k1 & m1 & [-> _]%chain_of_Ret & H1). apply prog_bind_Ret in H1 as (k2 & m1 & [_ ->]%lift_Ret & H1). apply prog_bind_Ret in H1 as (l1 & m1 & ->%chain_Latest_reads & H1).
  apply prog_bind_Ret in H1 as (d1 & m1 & [-> _]%data_of_Ret & H1). apply prog_bind_Ret in H1 as (q & m1 & [-> _]%root_ptr_Ret & H1). apply prog_bind_Ret in H1 as (k3 & m1 & [-> _]%chain_of_Ret & H1).
  apply prog_bind_Ret in H1 as (k4 & m1 & [_ ->]%lift_Ret & H1). apply prog_bind_Ret in H1 as (l2 & m1 & ->%chain_Latest_reads & H1). apply prog_bind_Ret in H1 as (d2 & m1 & [-> _]%data_of_Ret & H1).
  destruct (_ <=? _); [injection H1 as _ <-; apply quiet_refl|]. apply prog_bind_Ret in H1 as (c & m1 & [_ ->]%cget_Ret & H1). apply prog_bind_Ret in H1 as (forks & m1 & [-> _]%read_Ret & H1).
  destruct (forks !! cc_id c); [destruct (_ <=? _); [injection H1 as _ <-; apply quiet_refl|]|]; apply prog_bind_Ret in H1 as (u1 & m1 & E1 & E2); unfold update in *; injection E1 as _ <-; injection E2 as _ <-; done.
Qed.

Lemma setMainChild_Ret p child m b m' : setMainChild p child m = Ret (b, m') -> if b then exists c id, commits m !! p = Some c /\ m' = with_commits (<[p := set_children id (children c) c]> (commits m)) m else m' = m.
Proof.
  unfold setMainChild. intros (x & m1 & [_ ->]%cget_Ret & H1)%prog_bind_Ret. apply prog_bind_Ret in H1 as (c & m1 & [_ ->]%cget_Ret & H1). destruct (bool_decide _); [|by injection H1 as <- <-].
  apply prog_bind_Ret in H1 as (u & m1 & (c1 & Hc1 & ->)%cmod_Ret & E). injection E as <- <-. by exists c1, (cc_id x).
Qed.
(** The old main child and its main descendants move to a chain of their own, the new one to the chain of the parent. *)
Lemma replace_walk_good k x m u m' S : CInv g ∅ ∅ S m -> S ⊆ {[x]} -> walk_commits (propagateReplaceChainToMainChild k) [x] m = Ret (u, m') -> CInv g ∅ ∅ ∅ m' /\ ext m m'.
Proof. intros Hinv HS Hw. destruct (chain_walk_inv g ∅ k x m u m' true) as (? & ? & _); [|done|done]. eapply CInv_mono; [..|exact Hinv]; set_solver. Qed.
Lemma switch_forks_inv fuel : forall fp forkingPoint parent m b m', CInv g ∅ ∅ ∅ m -> switch_forks fuel fp forkingPoint parent m = Ret (b, m') -> CInv g ∅ ∅ ∅ m' /\ ext m m'.
Proof.
  induction fuel as [|fuel IH]; intros fp forkingPoint parent m b m' Hinv; cbn [switch_forks]; intros (d & m1 & [-> _]%data_of_Ret & H1)%prog_bind_Ret; apply prog_bind_Ret in H1 as (fpp & m1 & [-> _]%Commitment_Ret & H1);
    apply prog_bind_Ret in H1 as (q & m1 & [_ ->]%lift_Ret & H1); apply prog_bind_Ret in H1 as (main0 & m1 & [-> (c & Hc & Hm0)]%mainChild_Ret & H1); apply prog_bind_Ret in H1 as (main & m1 & [Hm%deref_Ret ->]%lift_Ret & H1);
    apply prog_bind_Ret in H1 as (k & m1 & Hq%NewChain_quiet & H1); pose proof (quiet_inv _ _ _ _ _ _ Hq Hinv) as Hinv1; apply prog_bind_Ret in H1 as (ok & m2 & Hset%setMainChild_Ret & H1);
    (destruct ok; cbn [negb] in H1; [|subst m2; injection H1 as _ <-; split; [done|by apply quiet_ext]]); destruct Hset as (c1 & id & Hc1 & ->); rewrite (qt_commits _ _ Hq), Hc in Hc1; injection Hc1 as <-;
    (assert (Hc1 : commits m1 !! q = Some c) by (by rewrite (qt_commits _ _ Hq))); pose proof (set_main_inv g _ _ _ m1 q c id Hinv1 Hc1) as Hinv2; apply prog_bind_Ret in H1 as (u3 & m3 & Hw1 & H1);
    (eapply replace_walk_good in Hw1 as [Hinv3 Hext3]; [|exact Hinv2|unfold main_set; rewrite <- Hm0, Hm; set_solver]);
    apply prog_bind_Ret in H1 as (k4 & m4 & [-> _]%chain_of_Ret & H1); apply prog_bind_Ret in H1 as (k5 & m5 & [_ ->]%lift_Ret & H1); apply prog_bind_Ret in H1 as (u6 & m6 & Hw2 & H1);
    (eapply replace_walk_good in Hw2 as [Hinv6 Hext6]; [|exact Hinv3|set_solver]);
    (assert (Hext : ext m m6) by (eapply ext_trans; [apply quiet_ext, Hq|]; eapply ext_trans; [|exact Hext6]; eapply ext_trans; [|exact Hext3]; eapply ext_update; done));
    (case_bool_decide; [injection H1 as _ <-; done|]).
  - discriminate H1.
  - apply prog_bind_Ret in H1 as (k7 & m7 & [-> _]%chain_of_Ret & H1). apply prog_bind_Ret in H1 as (k8 & m8 & [_ ->]%lift_Ret & H1). apply prog_bind_Ret in H1 as (x & m9 & ->%chain_get_Ret & H1). destruct (IH _ _ _ _ _ _ Hinv6 H1) as [? ?]. split; [done|by eapply ext_trans].
Qed.
Lemma switch_good p m b m' : Good m -> switchMainChainToCommitment p m = Ret (b, m') -> Good m'.
Proof.
  intros Hg. unfold switchMainChainToCommitment. intros (r & m1 & ->%forkingPoint_reads & H1)%prog_bind_Ret. destruct r as [[fp|]|]; try (by injection H1 as _ <-).
  apply prog_bind_Ret in H1 as (d & m1 & [-> _]%data_of_Ret & H1). apply prog_bind_Ret in H1 as (parent & m1 & [-> _]%Commitment_Ret & H1). destruct parent as [parent|]; [|by injection H1 as _ <-].
  apply prog_bind_Ret in H1 as (old & m1 & [-> _]%mainChild_Ret & H1). apply prog_bind_Ret in H1 as (k & m1 & [-> _]%chain_of_Ret & H1). apply prog_bind_Ret in H1 as (k1 & m1 & [_ ->]%lift_Ret & H1).
  apply prog_bind_Ret in H1 as (x & m1 & ->%chain_get_Ret & H1). apply prog_bind_Ret in H1 as (fuel & m1 & [-> _]%read_Ret & H1). apply prog_bind_Ret in H1 as (ok & m1 & [Hinv Hext]%switch_forks_inv & H1); [|apply gd_inv, Hg].
  assert (Hg1 : Good m1) by (by eapply Good_ext). destruct ok; cbn [negb] in H1; [|by injection H1 as _ <-]. apply prog_bind_Ret in H1 as (o & m2 & [_ ->]%lift_Ret & H1). apply prog_bind_Ret in H1 as (u & m2 & Hd & E). injection E as _ <-.
  unfold deleteChild in Hd. apply prog_bind_Ret in Hd as (c & m3 & [_ ->]%cget_Ret & (c1 & Hc1 & ->)%cmod_Ret). eapply Good_ext; [exact Hg1|by apply delete_child_inv|by eapply ext_update].
Qed.

(** ** The operations of the manager *)
Inductive ChainOp :=
  | OpFromSource (com : Commitment) (source : Z) | OpCandidate (com : Commitment) | OpProcess (com : Commitment) | OpSwitch (head : CommitmentID)
  | OpLoad (id : CommitmentID) | OpSetRoot (com : Commitment) | OpEvict (index : SlotIndex).
(** Commitments carry the hash of their contents and their slot; the protocol moves the root to
    commitments it has processed and evicts below it. *)
Definition op_ok (o : ChainOp) m : Prop :=
  match o with
  | OpFromSource com _ | OpCandidate com | OpProcess com => wf_commitment com
  | OpSetRoot com => exists p c, find_id m (commitmentID com) = Some p /\ commits m !! p = Some c /\ cc_commitment c = Some com
  | OpEvict index => exists d, root_at m d /\ index < commitment_Slot d < 2 ^ 32
  | _ => True
  end.
Definition run_op (o : ChainOp) : prog Manager unit :=
  match o with
  | OpFromSource com source => _ ← ProcessCommitmentFromSource VersionForSlot com source; mret tt
  | OpCandidate com => _ ← ProcessCandidateCommitment VersionForSlot com; mret tt
  | OpProcess com => _ ← ProcessCommitment VersionForSlot com; mret tt
  | OpSwitch head => _ ← SwitchMainChain head; mret tt
  | OpLoad id => _ ← LoadCommitmentOrRequestMissing id; mret tt
  | OpSetRoot com => SetRootCommitment com
  | OpEvict index => update (EvictUntil index)
  end.
Lemma result_of_reads b p m r m' : result_of b p m = Ret (r, m') -> m' = m.
Proof. unfold result_of. destruct p as [p|]; [|intros E; by injection E as _ <-]. intros (k & m1 & [-> _]%chain_of_Ret & E)%prog_bind_Ret. by injection E as _ <-. Qed.
Lemma ops_good com m r m' : Good m -> wf_commitment com ->
  ProcessCandidateCommitment VersionForSlot com m = Ret (r, m') \/ (exists source, ProcessCommitmentFromSource VersionForSlot com source m = Ret (r, m')) \/ ProcessCommitment VersionForSlot com m = Ret (r, m') -> Good m'.
Proof.
  intros Hg Hwf [H|[[source H]|H]]; revert H; [unfold ProcessCandidateCommitment|unfold ProcessCommitmentFromSource|unfold ProcessCommitment]; intros (o & m1 & Hp & H1)%prog_bind_Ret; apply processCommitment_good in Hp; try done;
    (destruct o as [[[f s] p]|]; [|apply prog_bind_Ret in H1 as (u & m2 & E1 & E2); unfold update in E1; injection E1 as _ <-; injection E2 as _ <-; by eapply Good_quiet]).
  - apply result_of_reads in H1. by subst.
  - apply prog_bind_Ret in H1 as (u & m2 & Hd & ->%result_of_reads). destruct p as [p|]; [|by injection Hd as _ <-]. eapply Good_quiet; [exact Hp|by eapply detectForks_quiet].
  - apply prog_bind_Ret in H1 as (u & m2 & Hd & ->%result_of_reads). destruct p as [p|]; [|by injection Hd as _ <-]. destruct f; [|by injection Hd as _ <-]. apply prog_bind_Ret in Hd as (ok & m3 & Hs & Hd). apply switch_good in Hs; [|done].
    destruct ok; [by injection Hd as _ <-|discriminate Hd].
Qed.

Lemma NextIndex_range e : 0 <= EvictionIndex.NextIndex e.
Proof. destruct e; cbn; [|done]. apply (wrap_in_range Uint32). Qed.
Lemma NextIndex_succ i : 0 <= i -> i + 1 < 2 ^ 32 -> EvictionIndex.NextIndex (Some i) = i + 1.
Proof. intros H1 H2. cbn. apply wrap_id. unfold in_range. cbn. lia. Qed.
(** Evicting one more slot. *)
Definition evict_step m (i : SlotIndex) : Manager := with_lastEvicted (EvictionIndex.MarkEvicted i (lastEvictedSlot m)).2 (evict i m).
Lemma evict_step_good m i d : Good m -> EvictionIndex.NextIndex (lastEvictedSlot m) = i -> root_at m d -> i < commitment_Slot d < 2 ^ 32 -> Good (evict_step m i) /\ root_at (evict_step m i) d.
Proof.
  intros Hg Hi Hr Hlt. pose proof Hg as [Hinv _ Hlast]. split; [|done].
  assert (Hroot : forall slot, commitment_Slot d <= slot -> evicted m slot = false) by (intros slot; by apply (Good_root m)).
  assert (Hev : forall slot, evicted (evict_step m i) slot = false -> slot <> i /\ evicted m slot = false).
  { intros slot. unfold evicted, evict_step in *. cbn. destruct (lastEvictedSlot m) as [j|] eqn:Ej; [|cbn in *; split; [lia|done]].
    specialize (Hlast j eq_refl). specialize (Hroot (commitment_Slot d) ltac:(lia)). cbn in Hroot. rewrite NextIndex_succ in Hi by lia. cbn. lia. }
  split.
  - split; cbn; try apply Hinv.
    + intros slot s id p [_ Hs]%lookup_delete_Some. by apply (ci_byID _ _ _ _ _ Hinv slot s).
    + intros p c Hp Hne. destruct (Hev _ Hne) as [Hni He]. unfold find_id. cbn. rewrite lookup_delete_ne by done. by apply (ci_unique _ _ _ _ _ Hinv).
  - exists d. split; [done|]. intros slot Hle. unfold evicted, evict_step. cbn. lia.
  - intros j [= <-]. rewrite <- Hi. apply NextIndex_range.
Qed.
Lemma evict_steps_good n : forall m from d, Good m -> EvictionIndex.NextIndex (lastEvictedSlot m) = from -> root_at m d -> from + Z.of_nat n <= commitment_Slot d < 2 ^ 32 -> Good (foldl evict_step m (seqZ from (Z.of_nat n))).
Proof.
  induction n as [|n IH]; intros m from d Hg Hf Hr Hle; [done|]. rewrite seqZ_cons by lia. cbn [foldl]. destruct (evict_step_good m from d) as [Hg1 Hr1]; [done|done|done|lia|]. replace (Z.pred (Z.of_nat (S n))) with (Z.of_nat n) by lia.
  eapply IH; [done| |done|lia]. assert (0 <= from) by (rewrite <- Hf; apply NextIndex_range). change (EvictionIndex.NextIndex (Some from) = Z.succ from). rewrite NextIndex_succ; lia.
Qed.
Lemma EvictUntil_good index m d : Good m -> root_at m d -> index < commitment_Slot d < 2 ^ 32 -> Good (EvictUntil index m).
Proof.
  intros Hg Hr Hlt. unfold EvictUntil. set (from := EvictionIndex.NextIndex _). assert (Hg1 : Good (foldl evict_step m (seqZ from (index - from + 1)))).
  { destruct (decide (0 <= index - from + 1)) as [Hn|Hn]; [|by rewrite seqZ_nil by lia]. rewrite <- (Z2Nat.id (index - from + 1)) by done. eapply evict_steps_good; [done|done|done|lia]. }
  eapply Good_quiet; [exact Hg1|]. done.
Qed.

Lemma SetRoot_good com m u m' : Good m -> op_ok (OpSetRoot com) m -> SetRootCommitment com m = Ret (u, m') -> Good m'.
Proof.
  intros Hg (p & c & Hp & Hc & Hcom). unfold SetRootCommitment. intros (o & m1 & [-> ->]%Commitment_Ret & H1)%prog_bind_Ret. rewrite Hp in H1. apply prog_bind_Ret in H1 as (p1 & m1 & [[= <-]%deref_Ret ->]%lift_Ret & H1).
  apply prog_bind_Ret in H1 as (q & m1 & [-> Hq]%root_ptr_Ret & H1). apply prog_bind_Ret in H1 as (d & m1 & [-> (q0 & c0 & [= <-] & Hc0 & Hd)]%data_of_Ret & H1). destruct (_ && _) eqn:Eb; [discriminate H1|]. unfold update in H1. injection H1 as _ <-.
  pose proof Hg as [Hinv _ Hlast]. split; [|exists com; split; [by exists p, c|]|done].
  - eapply CInv_same; [..|exact Hinv]; done.
  - intros slot Hle. change (evicted m slot = false). apply (Good_root m d); [done|by exists q, c0|]. apply andb_false_iff in Eb as [Eb|Eb]; [lia|]. apply negb_false_iff, bool_decide_eq_true in Eb.
    destruct (ci_published _ _ _ _ _ Hinv p c com Hc Hcom). destruct (ci_published _ _ _ _ _ Hinv q c0 d Hc0 Hd). congruence.
Qed.

Lemma run_op_good o m m' : Good m -> op_ok o m -> run_op o m = Ret (tt, m') -> Good m'.
Proof.
  intros Hg Hok. destruct o; cbn [run_op]; try (intros (r & m1 & Hr & E)%prog_bind_Ret; injection E as <-).
  - eapply ops_good; [exact Hg|exact Hok|]. eauto.
  - eapply ops_good; [exact Hg|exact Hok|]. eauto.
  - eapply ops_good; [exact Hg|exact Hok|]. eauto.
  - unfold SwitchMainChain in Hr. apply prog_bind_Ret in Hr as (p & m2 & [-> _]%Commitment_Ret & Hr). destruct p as [p|]; [by eapply switch_good|by injection Hr as _ <-].
  - unfold LoadCommitmentOrRequestMissing in Hr. apply prog_bind_Ret in Hr as ([p created] & m2 & Hgc & Hr). destruct (getOrCreate_inv g _ _ _ _ _ _ _ _ (gd_inv _ Hg) Hgc) as (Hinv & Hext & _).
    apply prog_bind_Ret in Hr as (u & m3 & Hq%when_update_quiet & E); [|done]. injection E as _ <-. eapply Good_quiet; [|exact Hq]. by eapply Good_ext.
  - by apply SetRoot_good.
  - intros E. unfold update in E. injection E as <-. destruct Hok as (d & Hr & Hlt). by apply (EvictUntil_good _ _ d).
Qed.
End Ops.
