(* ===== verification/ChainManagerClaims.v ===== *)
(** * Chains of commitments: correctness

    Processing a candidate always ends, and in every reachable state solidity follows the links between commitments. *)
From Stdlib Require Import Strings.Byte.
From S2P Require Import Prelude Bytes Block TimeApi EpochStore Walker Streams Settings ChainManager ChainManagerProps ChainManagerOps.

Implicit Types m : Manager.

(** ** Runs that return *)
Definition wp {A} (e : prog Manager A) m (Q : A -> Manager -> Prop) : Prop := exists a m', e m = Ret (a, m') /\ Q a m'.
Lemma wp_ret {A} (a : A) m (Q : A -> Manager -> Prop) : Q a m -> wp (mret a) m Q.
Proof. intros HQ. by exists a, m. Qed.
Lemma wp_bind {A B} (e : prog Manager A) (f : A -> prog Manager B) m Q : wp e m (fun a m' => wp (f a) m' Q) -> wp (e ≫= f) m Q.
Proof. intros (a & m1 & He & b & m2 & Hf & HQ). exists b, m2. split; [|done]. by rewrite (prog_bind_eq _ _ _ _ _ He). Qed.
Lemma wp_know {A} (e : prog Manager A) m P Q : wp e m P -> (forall a m', e m = Ret (a, m') -> P a m' -> Q a m') -> wp e m Q.
Proof. intros (a & m1 & He & HP) HQ. exists a, m1. auto. Qed.
Lemma wp_cget p c m Q : commits m !! p = Some c -> Q c m -> wp (cget p) m Q.
Proof. intros Hp HQ. exists c, m. split; [by apply cget_Ret|done]. Qed.
Lemma wp_cmod p f c m (Q : unit -> Manager -> Prop) : commits m !! p = Some c -> Q tt (with_commits (<[p := f c]> (commits m)) m) -> wp (cmod p f) m Q.
Proof. intros Hp HQ. eexists tt, _. split; [apply cmod_Ret; by exists c|done]. Qed.
Lemma wp_update f m (Q : unit -> Manager -> Prop) : Q tt (f m) -> wp (update f) m Q.
Proof. intros HQ. by exists tt, (f m). Qed.
Lemma wp_lift {A} (o : option A) a m (Q : A -> Manager -> Prop) : o = Some a -> Q a m -> wp (lift (deref o)) m Q.
Proof. intros -> HQ. by exists a, m. Qed.
Lemma wp_root p m (Q : ptr -> Manager -> Prop) : rootCommitment m = Some p -> Q p m -> wp root_ptr m Q.
Proof. intros Hp HQ. exists p, m. unfold root_ptr. by rewrite Hp. Qed.
Lemma wp_data_of p c d m (Q : Commitment -> Manager -> Prop) : commits m !! p = Some c -> cc_commitment c = Some d -> Q d m -> wp (data_of (Some p)) m Q.
Proof. intros Hp Hd HQ. unfold data_of. apply wp_bind, (wp_lift _ p); [done|]. apply wp_bind, (wp_cget _ c); [done|]. by apply (wp_lift _ d). Qed.
Lemma wp_NewChain p c d m (Q : ptr -> Manager -> Prop) : commits m !! p = Some c -> cc_commitment c = Some d ->
  (forall k m', quiet m m' -> is_Some (chains m' !! k) -> Q k m') -> wp (NewChain p) m Q.
Proof.
  intros Hp Hd HQ. eapply (wp_know _ _ (fun k m' => is_Some (chains m' !! k))); [|intros k m' Hq%NewChain_quiet; by apply HQ].
  unfold NewChain. apply wp_bind, (wp_cget _ c); [done|]. apply wp_bind, (wp_lift _ d); [done|]. eexists _, _. split; [done|]. cbn. rewrite lookup_insert_eq. by eexists.
Qed.
Lemma wp_addCommitment k p c d m (Q : unit -> Manager -> Prop) : commits m !! p = Some c -> cc_commitment c = Some d -> is_Some (chains m !! k) -> (forall m', quiet m m' -> Q tt m') -> wp (addCommitment k p) m Q.
Proof.
  intros Hp Hd [x Hx] HQ. eapply (wp_know _ _ (fun _ _ => True)); [|intros [] m' Hq%addCommitment_quiet _; by apply HQ]. unfold addCommitment. apply wp_bind, (wp_cget _ c); [done|]. apply wp_bind, (wp_lift _ d); [done|].
  apply wp_bind. exists x, m. split; [unfold chain_get; by rewrite Hx|]. by apply wp_update.
Qed.
Lemma wp_publishChain p c k m (Q : bool -> Manager -> Prop) : commits m !! p = Some c ->
  (match cc_chain c with Some _ => Q false m | None => Q true (with_commits (<[p := set_chain (Some k) c]> (commits m)) m) end) -> wp (publishChain p k) m Q.
Proof. intros Hp HQ. unfold publishChain. apply wp_bind, (wp_cget _ c); [done|]. destruct (cc_chain c); [by apply wp_ret|]. apply wp_bind, (wp_cmod _ _ c); [done|]. by apply wp_ret. Qed.
Lemma wp_triggerSolid p c m (Q : bool -> Manager -> Prop) : commits m !! p = Some c -> Q (negb (cc_solid c)) (with_commits (<[p := set_solid true c]> (commits m)) m) -> wp (triggerSolid p) m Q.
Proof. intros Hp HQ. unfold triggerSolid. apply wp_bind, (wp_cget _ c); [done|]. apply wp_bind, (wp_cmod _ _ c); [done|]. by apply wp_ret. Qed.
Lemma wp_mainChild p c m (Q : option ptr -> Manager -> Prop) : commits m !! p = Some c -> Q (children c !! mainChildID c) m -> wp (mainChild p) m Q.
Proof. intros Hp HQ. unfold mainChild. apply wp_bind, (wp_cget _ c); [done|]. by apply wp_ret. Qed.

Section Total.
Context {W : Type} `{!Walker ptr W} `{!WalkerSpec ptr W} `{!RangeOrder CommitmentID} (VersionForSlot : SlotIndex -> Z) (g : ptr).

(** ** Walks end

    Every element is visited once, so as many rounds as there are commitments are enough. *)
Lemma walk_with_total visit (I : W -> Manager -> Prop) (D : gset ptr) : (forall w m, I w m -> seen w ⊆ D /\ pending w ⊆ seen w) ->
  (forall w x w' m, I w m -> WNext w = Some (x, w') -> wp (visit x) m (fun l m' => I (PushAll l w') m')) ->
  forall fuel w m, I w m -> (size (D ∖ (seen w ∖ pending w)) <= fuel)%nat -> exists m', walk_with visit fuel w m = Ret (tt, m').
Proof.
  intros HD Hstep fuel. induction fuel as [|fuel IH]; intros w m HI Hf; destruct (HD w m HI) as [H1 H2]; cbn [walk_with]; pose proof (next_spec w) as Hn; destruct (WNext w) as [[x w1]|] eqn:E; try (by exists m); destruct Hn as (Hx & Hp & Hs).
  - assert (D ∖ (seen w ∖ pending w) = ∅) by (apply leibniz_equiv, size_empty_inv; lia). set_solver.
  - destruct (Hstep w x w1 m HI E) as (l & m1 & Hv & HI1). rewrite (prog_bind_eq _ _ _ _ _ Hv). apply IH; [done|]. rewrite push_seen, push_pending, Hp, Hs.
    assert (Hlt : (size (D ∖ ((seen w ∪ list_to_set l) ∖ (pending w ∖ {[x]} ∪ list_to_set l ∖ seen w))) < size (D ∖ (seen w ∖ pending w)))%nat); [|lia].
    apply subset_size. split; [set_solver|]. intros Hsub. assert (x ∈ D ∖ (seen w ∖ pending w)) by set_solver. set_solver.
Qed.

(** A visit that keeps the objects and finds children of objects. *)
Definition published m (q : ptr) : Prop := exists x com, commits m !! q = Some x /\ cc_commitment x = Some com.
Lemma published_ext m m' q : ext m m' -> published m q -> published m' q.
Proof. intros He (x & com & Hx & Hcom). destruct (ex_object _ _ He q x Hx) as (x' & Hx' & _ & _ & _ & Hk). exists x', com. auto. Qed.
Record visited (k : ptr) m (l : list ptr) m' : Prop := {
  vs_dom : dom (commits m') = dom (commits m);
  vs_chain : is_Some (chains m' !! k);
  vs_ext : ext m m';
  vs_children q : q ∈ l -> exists p c id, commits m' !! p = Some c /\ children c !! id = Some q;
}.
Definition good_visit (k : ptr) (visit : ptr -> prog Manager (list ptr)) : Prop := forall x m, published m x -> is_Some (chains m !! k) -> wp (visit x) m (visited k m).

Lemma walk_commits_total k visit (J : W -> Manager -> Prop) m0 initial : good_visit k visit -> (forall w m, J w m -> exists S1 S2 S3, CInv g S1 S2 S3 m) ->
  (forall w x w' m l m', J w m -> WNext w = Some (x, w') -> visit x m = Ret (l, m') -> J (PushAll l w') m') ->
  J (PushAll initial walk_new) m0 -> is_Some (chains m0 !! k) -> (forall q, q ∈ initial -> published m0 q) -> exists m', walk_commits visit initial m0 = Ret (tt, m').
Proof.
  intros Hvisit HJ HJstep HJ0 Hk Hini. unfold walk_commits. rewrite (prog_bind_eq _ _ m0 (size (commits m0)) m0) by done. set (D := dom (commits m0) : gset ptr).
  assert (Hdom : forall m q, dom (commits m) = D -> published m q -> q ∈ D) by (intros m q <- (x & com & Hx & _); apply elem_of_dom; by eexists).
  apply (walk_with_total visit (fun w m => J w m /\ dom (commits m) = D /\ is_Some (chains m !! k) /\ (forall q, q ∈ pending w -> published m q) /\ seen w ⊆ D /\ pending w ⊆ seen w) D).
  - intros w m (_ & _ & _ & _ & ? & ?). done.
  - intros w x w' m (HJw & Hd & Hkm & Hpub & Hsd & Hps) Hn. pose proof (next_spec w) as Hns. rewrite Hn in Hns. destruct Hns as (Hx & Hp & Hs).
    eapply wp_know; [apply (Hvisit x m); auto|]. intros l m1 Hv [Hd1 Hk1 He1 Hch1]. pose proof (HJstep _ _ _ _ _ _ HJw Hn Hv) as HJ1. destruct (HJ _ _ HJ1) as (S1 & S2 & S3 & Hinv).
    assert (Hl : forall q, q ∈ l -> published m1 q). { intros q Hq. destruct (Hch1 q Hq) as (p & c & id & Hp1 & Hid). destruct (ci_child _ _ _ _ _ Hinv p c id q Hp1 Hid) as (y & com & Hy & _ & Hcom & _). by exists y, com. }
    assert (HlD : (list_to_set l : gset ptr) ⊆ D) by (intros q Hq%elem_of_list_to_set; apply (Hdom m1); [congruence|by apply Hl]).
    rewrite push_pending, push_seen, Hp, Hs. split_and!; [done|congruence|done| |set_solver|set_solver].
    intros q [Hq|Hq]%elem_of_union; [eapply published_ext; [exact He1|]; apply Hpub; set_solver|apply Hl; set_solver].
  - rewrite push_pending, push_seen, new_pending, new_seen. split_and!; [done|done|done| | |set_solver]; [intros q Hq; apply Hini; set_solver|]. intros q Hq. apply (Hdom m0); [done|]. apply Hini. set_solver.
  - etrans; [apply (subseteq_size _ D); set_solver|]. unfold D. by rewrite size_dom.
Qed.

Lemma dom_changed m p c c' : commits m !! p = Some c -> dom (<[p := c']> (commits m)) = dom (commits m).
Proof. intros Hp. rewrite dom_insert_L. apply elem_of_dom_2 in Hp. set_solver. Qed.
Lemma good_visit_chain k : good_visit k (propagateChainToMainChild k).
Proof.
  intros x m (c & com & Hx & Hcom) Hk. unfold propagateChainToMainChild. apply wp_bind, (wp_publishChain _ c); [done|]. destruct (cc_chain c) eqn:Ek; cbn [negb].
  - apply wp_ret. split; [done|done|apply ext_refl|set_solver].
  - set (m1 := with_commits _ m). assert (H1 : commits m1 !! x = Some (set_chain (Some k) c)) by (cbn; by rewrite lookup_insert_eq).
    apply wp_bind, (wp_addCommitment _ _ (set_chain (Some k) c) com); [done|done|done|]. intros m2 Hq. unfold next_main. apply wp_bind, (wp_mainChild _ (set_chain (Some k) c)); [by rewrite (qt_commits _ _ Hq)|]. apply wp_ret. split.
    + rewrite (qt_commits _ _ Hq). by apply (dom_changed m x c).
    + by apply (qt_chains _ _ Hq).
    + eapply ext_trans; [|by apply quiet_ext]. eapply ext_update; [done|done|done|by eexists|done].
    + intros q Hin. exists x, (set_chain (Some k) c). cbn in *. rewrite (qt_commits _ _ Hq). destruct (children c !! mainChildID c) as [y|] eqn:Ey; [|set_solver]. exists (mainChildID c). split; [done|]. rewrite Ey. f_equal. set_solver.
Qed.
Lemma good_visit_solid k : good_visit k propagateSolidity.
Proof.
  intros x m (c & com & Hx & Hcom) Hk. unfold propagateSolidity. apply wp_bind, (wp_triggerSolid _ c); [done|]. set (m1 := with_commits _ m). assert (H1 : commits m1 !! x = Some (set_solid true c)) by (cbn; by rewrite lookup_insert_eq).
  assert (He : ext m m1) by (by eapply ext_update). assert (Hd : dom (commits m1) = dom (commits m)) by (by apply (dom_changed m x c)). destruct (cc_solid c); cbn [negb].
  - apply wp_ret. split; [done|done|done|set_solver].
  - eapply wp_know; [unfold Children; apply wp_bind, (wp_cget _ (set_solid true c)); [done|]; by apply (wp_ret _ _ (fun _ _ => True))|]. intros l m2 [-> (c2 & Hc2 & Hl)]%Children_Ret _. split; [done|done|done|].
    intros q Hq. exists x, c2. assert (Hin : q ∈ child_set c2) by (rewrite <- Hl; by apply elem_of_list_to_set). apply elem_of_child_set in Hin as [id Hid]. by exists id.
Qed.

(** ** Processing a commitment returns *)
Lemma registerChild_total p c child x com m : CInv g ∅ ∅ ∅ m -> commits m !! p = Some c -> commits m !! child = Some x -> child <> p -> cc_commitment x = Some com -> wp (registerChild p child) m (fun _ _ => True).
Proof.
  intros Hinv Hp Hx Hne Hcom. unfold registerChild. apply wp_bind. unfold cc_registerChild. apply wp_bind, (wp_cget _ x); [done|]. apply wp_bind, (wp_cmod _ _ c); [done|]. set (c' := set_children _ _ c). set (m1 := with_commits _ m).
  assert (Hp1 : commits m1 !! p = Some c') by (cbn; by rewrite lookup_insert_eq). assert (Hx1 : commits m1 !! child = Some x) by (cbn; by rewrite lookup_insert_ne). apply wp_bind, (wp_cget _ c'); [done|].
  assert (Hrest : forall k m2 (b s : bool), quiet m1 m2 -> is_Some (chains m2 !! k) -> wp (_ ← addCommitment k child; _ ← publishChain child k; _ ← (if b then _ ← triggerSolid child; mret tt else mret tt); mret (b, s) : prog Manager (bool * bool)) m2 (fun _ _ => True)).
  { intros k m2 b s Hq Hk. apply wp_bind, (wp_addCommitment _ _ x com); [by rewrite (qt_commits _ _ Hq)|done|done|]. intros m3 Hq3. assert (Hx3 : commits m3 !! child = Some x) by (by rewrite (qt_commits _ _ Hq3), (qt_commits _ _ Hq)).
    apply wp_bind, (wp_publishChain _ x); [done|]. destruct (cc_chain x); apply wp_bind; destruct b; try (apply wp_ret, wp_ret; done); apply wp_bind; (eapply wp_triggerSolid; [|by apply wp_ret, wp_ret]); [done|cbn; by rewrite lookup_insert_eq]. }
  case_bool_decide.
  - apply wp_bind, (wp_NewChain _ x com); [done|done|]. intros k m2 Hq Hk. apply wp_ret. by apply Hrest.
  - apply wp_ret. change (cc_chain c') with (cc_chain c). destruct (cc_chain c) as [k|] eqn:Ek; [|by apply wp_ret]. apply Hrest; [done|]. by apply (ci_chains _ _ _ _ _ Hinv p c).
Qed.

Lemma wp_getOrCreate id m (Q : ptr * bool -> Manager -> Prop) : (forall p created m', getOrCreateCommitment id m = Ret ((p, created), m') -> Q (p, created) m') -> wp (getOrCreateCommitment id) m Q.
Proof. intros HQ. unfold wp. destruct (getOrCreateCommitment id m) as [[[p created] m']| |] eqn:E; [by eauto|unfold getOrCreateCommitment in E; destruct (_ !! id); discriminate E..]. Qed.
Lemma wp_when (b : bool) f m (Q : unit -> Manager -> Prop) : (forall m, quiet m (f m)) -> (forall m', quiet m m' -> Q tt m') -> wp (when b (update f)) m Q.
Proof. intros Hf HQ. destruct b; [apply wp_update|apply wp_ret]; apply HQ; [done|apply quiet_refl]. Qed.

Lemma registerCommitment_total com m : CInv g ∅ ∅ ∅ m -> wf_commitment com -> wp (registerCommitment com) m (fun '(isNew, _, _, p) m' => isNew = false -> is_Some (commits m' !! p)).
Proof.
  intros Hinv [Hslot Hself]. unfold registerCommitment. apply wp_bind, wp_getOrCreate. intros q created1 m1 Hg1. destruct (getOrCreate_inv g _ _ _ _ _ _ _ _ Hinv Hg1) as (Hinv1 & _ & _ & _ & cq & Hcq & Hidq & _).
  apply wp_bind, wp_when; [done|]. intros m2 Hq2. pose proof (quiet_inv _ _ _ _ _ _ Hq2 Hinv1) as Hinv2. apply wp_bind, wp_getOrCreate. intros p created2 m3 Hg2.
  destruct (getOrCreate_inv g _ _ _ _ _ _ _ _ Hinv2 Hg2) as (Hinv3 & _ & Hkeep & _ & cp & Hcp & Hidp & _). assert (Hcq3 : commits m3 !! q = Some cq) by (apply Hkeep; by rewrite (qt_commits _ _ Hq2)). assert (Hne : p <> q) by (intros ->; congruence).
  unfold PublishCommitment. apply wp_bind, wp_bind, (wp_cget _ cp); [done|]. destruct (cc_commitment cp) eqn:Ec.
  - apply wp_ret. cbn [negb]. apply wp_bind, (wp_cget _ cp); [done|]. apply wp_ret. intros _. by eexists.
  - apply wp_bind, (wp_cmod _ _ cp); [done|]. apply wp_ret. cbn [negb]. apply wp_bind, wp_update. apply wp_bind, wp_when; [done|]. intros m4 Hq4.
    pose proof (publish_inv g _ _ _ m3 p cp com Hinv3 Hcp Ec ltac:(congruence) ltac:(congruence)) as Hinv4. set (m5 := trigger _ _) in *. assert (Hq5 : quiet (with_commits (<[p := set_commitment (Some com) cp]> (commits m3)) m3) m4) by (by eapply quiet_trans; [|exact Hq4]).
    apply wp_bind. eapply wp_know; [eapply (registerChild_total q cq p (set_commitment (Some com) cp) com); [by apply (quiet_inv _ _ _ _ _ _ Hq5)|..]|]; [rewrite (qt_commits _ _ Hq5); cbn; by rewrite lookup_insert_ne|rewrite (qt_commits _ _ Hq5); cbn; by rewrite lookup_insert_eq|done|done|].
    intros [s f] m6 _ _. by apply wp_ret.
Qed.

(** The chain and the solidity of a registered commitment spread to its descendants. *)
Lemma spread_total (isSolid : bool) p c k m : CInv g (if isSolid then child_set c else ∅) (main_set c) (main_set c) m -> commits m !! p = Some c -> cc_chain c = Some k -> (isSolid = true -> cc_solid c = true) ->
  wp (match children c !! mainChildID c with Some x => walk_commits (propagateChainToMainChild k) [x] | None => mret tt end) m
    (fun _ m' => wp (if isSolid then l ← Children p; walk_commits propagateSolidity l else mret tt) m' (fun _ m2 => is_Some (commits m2 !! p))).
Proof.
  intros Hinv Hp Hk Hs. assert (Hkc : is_Some (chains m !! k)) by (by apply (ci_chains _ _ _ _ _ Hinv p c)).
  assert (Hpub : forall S1 S2 S3 m1 c1 id q, CInv g S1 S2 S3 m1 -> commits m1 !! p = Some c1 -> children c1 !! id = Some q -> published m1 q) by (intros S1 S2 S3 m1 c1 id q Hi H1 Hq; destruct (ci_child _ _ _ _ _ Hi p c1 id q H1 Hq) as (y & com & Hy & _ & Hcom & _); by exists y, com).
  apply (wp_know _ _ (fun _ m1 => CInv g (if isSolid then child_set c else ∅) ∅ ∅ m1 /\ ext m m1 /\ kids m m1)).
  { unfold main_set in Hinv. destruct (children c !! mainChildID c) as [x|] eqn:Em; [|apply wp_ret; split_and!; [done|apply ext_refl|apply kids_refl]].
    destruct (walk_commits_total k (propagateChainToMainChild k) (chain_walk g (if isSolid then child_set c else ∅) m) m [x]) as [m1 H1].
    - apply good_visit_chain.
    - intros w m1 (Hi & _). by eauto.
    - intros w y w' m1 l m2 HJ Hn Hv. by apply (chain_walk_visit g _ m k w y w' m1 l m2 false).
    - unfold chain_walk. rewrite push_pending, push_seen, new_pending, new_seen. split_and!; [|set_solver|apply ext_refl|apply kids_refl]. eapply CInv_mono; [..|exact Hinv]; set_solver.
    - done.
    - intros q ->%list_elem_of_singleton. by apply (Hpub _ _ _ m c (mainChildID c) x Hinv).
    - exists tt, m1. split; [done|]. by apply (chain_walk_inv g _ k x m tt m1 false). }
  intros u m1 _ (Hi1 & He1 & Hk1). destruct (Hk1 p c Hp) as (c1 & Hc1 & Hch1). destruct isSolid; [|apply wp_ret; by eexists]. apply wp_bind. eapply wp_know; [unfold Children; apply wp_bind, (wp_cget _ c1); [done|]; by apply (wp_ret _ _ (fun _ _ => True))|].
  intros l m2 [-> (c2 & Hc2 & Hl)]%Children_Ret _. rewrite Hc1 in Hc2. injection Hc2 as <-. destruct (ex_object _ _ He1 p c Hp) as (c2 & Hc2 & _ & Hs2 & Hk2 & _). rewrite Hc1 in Hc2. injection Hc2 as <-.
  assert (Hset : child_set c = child_set c1) by (unfold child_set; by rewrite Hch1). rewrite Hset in Hi1. destruct (Hk2 ltac:(by rewrite Hk)) as [k1 Hk1c].
  destruct (walk_commits_total k1 propagateSolidity (solid_walk g m1) m1 l) as [m3 H3].
  - apply good_visit_solid.
  - intros w m3 (Hi & _). by eauto.
  - intros w y w' m3 l3 m4. apply solid_walk_visit.
  - apply (solid_walk_init g p c1); auto.
  - by apply (ci_chains _ _ _ _ _ Hi1 p c1).
  - intros q Hq. assert (Hin : q ∈ child_set c1) by (rewrite <- Hl; by apply elem_of_list_to_set). apply elem_of_child_set in Hin as [id Hid]. by apply (Hpub _ _ _ m1 c1 id q Hi1).
  - exists tt, m3. split; [done|]. destruct (solid_walk_inv g p c1 l m1 tt m3) as [_ He3]; [done|done|by auto|done|done|]. destruct (ex_object _ _ He3 p c1 Hc1) as (c3 & Hc3 & _). by eexists.
Qed.

Lemma processCommitment_total com m : Good g m -> wf_commitment com -> wp (processCommitment VersionForSlot com) m (fun r m' => match r with Some (_, _, Some p) => is_Some (commits m' !! p) | _ => True end).
Proof.
  intros Hg Hwf. destruct (gd_root _ _ Hg) as (d & (r & cr & Hr & Hcr & Hd) & Hok). unfold processCommitment. destruct (negb _); [by apply wp_ret|]. apply wp_bind. unfold evaluateAgainstRootCommitment. apply wp_bind, (wp_root r); [done|].
  apply wp_bind, (wp_data_of _ cr d); [done..|]. apply wp_ret. destruct (_ || _) eqn:Eb.
  - destruct (bool_decide _); [apply wp_bind, (wp_root r); [done|]; apply wp_ret; by eexists|]. apply wp_bind, wp_update, wp_bind, wp_update. by apply wp_ret.
  - apply wp_bind. eapply wp_know; [by apply registerCommitment_total; [apply gd_inv|]|]. intros [[[isNew isSolid] wasForked] p] m1 Hreg Hp.
    apply orb_false_iff in Eb as [Eb _]. apply (registerCommitment_inv g) in Hreg as [Hreg Hext]; [|by apply gd_inv|done|apply Hok; lia]. destruct isNew; cbn [negb].
    + destruct Hreg as (c & Hc & Hreg). apply wp_bind, (wp_cget _ c); [done|]. destruct (cc_chain c) as [k|] eqn:Ek; [|apply wp_ret; by eexists]. destruct Hreg as [Hinv Hs].
      apply wp_bind, (wp_mainChild _ c); [done|]. apply wp_bind. eapply wp_know; [by apply (spread_total isSolid p c k)|]. intros u m2 _ Hw. apply wp_bind. eapply wp_know; [exact Hw|]. intros u2 m3 _ ?. by apply wp_ret.
    + destruct Hp as [c Hc]; [done|]. apply wp_bind, (wp_cget _ c); [done|]. destruct (cc_chain c); apply wp_ret; by eexists.
Qed.
End Total.

(** ** Reachable states *)
Section Claims.
Context {W : Type} `{!Walker ptr W} `{!WalkerSpec ptr W} `{!RangeOrder CommitmentID} (VersionForSlot : SlotIndex -> Z) (root : Commitment).

Definition initial : Manager :=
  mkManager {[1%positive := mkChainCommitment (commitmentID root) (Some root) true (mkCommitmentID 0 0) ∅ (Some 2%positive)]}
    {[2%positive := mkChain 1%positive (commitment_Slot root) {[commitment_Slot root := 1%positive]}]} 3%positive
    {[CommitmentSlot (commitmentID root) := {[commitmentID root := 1%positive]}]} (Some 1%positive) ∅ None [] [] 0.
Lemma Initialize_initial : Initialize root NewManager = Ret (tt, initial).
Proof. reflexivity. Qed.
Lemma initial_good : CommitmentSlot (commitmentID root) = commitment_Slot root -> Good 1%positive initial.
Proof.
  intros Hs. split; [|exists root; split; [by eexists _, _|done]|done]. split; cbn.
  - intros p c [<- _]%lookup_singleton_Some. done.
  - intros slot s id p [<- <-]%lookup_singleton_Some [<- <-]%lookup_singleton_Some. split; [done|]. by eexists.
  - intros p c [<- <-]%lookup_singleton_Some _. unfold find_id. cbn. rewrite lookup_singleton_eq. cbn. by rewrite lookup_singleton_eq.
  - intros p c com [<- <-]%lookup_singleton_Some [= <-]. done.
  - intros p c id q [<- <-]%lookup_singleton_Some. cbn. by rewrite lookup_empty.
  - intros p c id q x [<- <-]%lookup_singleton_Some. cbn. by rewrite lookup_empty.
  - intros q x [<- <-]%lookup_singleton_Some. by left.
  - intros q x [<- <-]%lookup_singleton_Some _. split; by eexists.
  - intros p c id q x [<- <-]%lookup_singleton_Some. cbn. by rewrite lookup_empty.
  - intros p c id q x [<- <-]%lookup_singleton_Some. cbn. by rewrite lookup_empty.
  - intros p c k [<- <-]%lookup_singleton_Some [= <-]. by eexists.
Qed.

Inductive reachable : Manager -> Prop :=
  | reachable_init m : Initialize root NewManager = Ret (tt, m) -> reachable m
  | reachable_op o m m' : reachable m -> op_ok o m -> run_op VersionForSlot o m = Ret (tt, m') -> reachable m'.
Lemma chain_reachable_good m : CommitmentSlot (commitmentID root) = commitment_Slot root -> reachable m -> Good 1%positive m.
Proof.
  intros Hs. induction 1 as [m Hm|o m m' _ IH Hok Hr]; [|by eapply run_op_good].
  rewrite Initialize_initial in Hm. injection Hm as <-. by apply initial_good.
Qed.

(** C9 In every state the chain manager can reach, solidity follows the links of the chains: the children of a solid commitment are solid;
    a solid commitment other than the first root names a commitment that is solid as its predecessor; and a solid commitment has been published
    and belongs to a chain.  The order in which commitments arrive, forks, switches of the main chain and eviction do not matter. *)
Theorem solidity_follows_links m : CommitmentSlot (commitmentID root) = commitment_Slot root -> reachable m ->
  (forall p c id q, commits m !! p = Some c -> cc_solid c = true -> children c !! id = Some q -> exists x, commits m !! q = Some x /\ cc_id x = id /\ cc_solid x = true)
  /\ (forall q x, commits m !! q = Some x -> cc_solid x = true -> q = 1%positive \/ exists com p c, cc_commitment x = Some com /\ commits m !! p = Some c /\ cc_id c = PreviousCommitmentID com /\ cc_solid c = true)
  /\ (forall q x, commits m !! q = Some x -> cc_solid x = true -> exists com k, cc_commitment x = Some com /\ commitmentID com = cc_id x /\ cc_chain x = Some k /\ is_Some (chains m !! k)).
Proof.
  intros Hs Hr. destruct (chain_reachable_good m Hs Hr) as [Hinv _ _]. split_and!.
  - intros p c id q Hp Hc Hq. destruct (ci_child _ _ _ _ _ Hinv p c id q Hp Hq) as (x & com & Hx & Hid & _). exists x. split_and!; [done|done|]. destruct (ci_solid_child _ _ _ _ _ Hinv p c id q x Hp Hq Hx Hc); [done|set_solver].
  - intros q x Hq Hx. destruct (ci_solid_parent _ _ _ _ _ Hinv q x Hq Hx) as [?|(com & p & c & ? & ? & ? & ?)]; [by left|right; by exists com, p, c].
  - intros q x Hq Hx. destruct (ci_solid_chain _ _ _ _ _ Hinv q x Hq Hx) as [[k Hk] [com Hcom]]. exists com, k. split_and!; [done|by apply (ci_published _ _ _ _ _ Hinv q x com)|done|by apply (ci_chains _ _ _ _ _ Hinv q x)].
Qed.

(** C10 A candidate commitment is always processed: in every reachable state the walks over the descendants end, none of the objects and
    chains they follow is missing, and a result is returned. *)
Theorem candidates_are_processed m com : CommitmentSlot (commitmentID root) = commitment_Slot root -> reachable m -> wf_commitment com ->
  exists r m', ProcessCandidateCommitment VersionForSlot com m = Ret (r, m') /\ reachable m'.
Proof.
  intros Hs Hr Hwf. pose proof (chain_reachable_good m Hs Hr) as Hg.
  assert (Hw : wp (ProcessCandidateCommitment VersionForSlot com) m (fun _ _ => True)).
  { apply wp_bind. eapply wp_know; [by eapply processCommitment_total|]. intros r m1 _ Hp. destruct r as [[[f s] p]|]; [|apply wp_bind, wp_update; by apply wp_ret].
    destruct p as [p|]; [|by apply wp_ret]. cbn. apply wp_bind. destruct Hp as [c Hc]. apply wp_bind, (wp_cget _ c); [done|]. by apply wp_ret, wp_ret. }
  destruct Hw as (r & m' & Hrun & _). exists r, m'. split; [done|]. apply (reachable_op (OpCandidate com) m); [done|done|]. cbn [run_op]. by rewrite (prog_bind_eq _ _ _ _ _ Hrun).
Qed.
End Claims.

(** ** Example: two branches from the root *)
Module ChainDemo.
#[local] Instance demo_order : RangeOrder CommitmentID := canonical_order CommitmentID.
Definition id_ (h slot : Z) : CommitmentID := mkCommitmentID h slot.
Definition com (h slot : Z) (prev : CommitmentID) (weight : Z) : Commitment := mkCommitment 3 (id_ h slot) [] (mkIotaCommitment 3 slot prev 0 weight 1).
Definition root : Commitment := com 10 1 (id_ 0 0) 0.
Definition light2 : Commitment := com 21 2 (id_ 10 1) 1.
Definition light3 : Commitment := com 31 3 (id_ 21 2) 2.
Definition light4 : Commitment := com 41 4 (id_ 31 3) 3.
Definition heavy2 : Commitment := com 22 2 (id_ 10 1) 9.
Definition heavy3 : Commitment := com 32 3 (id_ 22 2) 19.
Abbreviation W := (fifo ptr).
Abbreviation run := (run_op (W := W) (fun _ => 3)).
(** The third commitment of the first branch arrives before the second one. *)
Definition script : list ChainOp := [OpCandidate light3; OpCandidate light2; OpCandidate light4; OpFromSource heavy2 7; OpFromSource heavy3 7; OpSwitch (id_ 32 3)].
Definition run_script (l : list ChainOp) : prog Manager unit := _ ← Initialize root; for_each run l.
Definition final : Manager := match run_script script NewManager with Ret (_, m) => m | _ => NewManager end.
Lemma static_run l : (forall m o, o ∈ l -> op_ok o m) -> forall m m', reachable (W := W) (fun _ => 3) root m -> for_each run l m = Ret (tt, m') -> reachable (W := W) (fun _ => 3) root m'.
Proof.
  induction l as [|o l IH]; intros Hok m m' Hr; [intros E; by injection E as <-|]. cbn [for_each]. intros (u & m1 & H1 & H2)%prog_bind_Ret. destruct u. eapply IH; [|eapply reachable_op; [exact Hr| |exact H1]|exact H2]; [|apply Hok; set_solver].
  intros m2 o2 Ho. apply Hok. set_solver.
Qed.
Lemma final_reachable : reachable (W := W) (fun _ => 3) root final.
Proof.
  apply (static_run script) with (m := initial root); [|by apply reachable_init|by vm_compute].
  intros m o Ho. repeat (apply elem_of_cons in Ho as [->|Ho]; [by cbn|]). by apply elem_of_nil in Ho.
Qed.

Lemma solidity_follows_links_witness : reachable (W := W) (fun _ => 3) root final /\ (exists p c, commits final !! p = Some c /\ cc_id c = id_ 41 4 /\ cc_solid c = true) /\
  forall p c id q, commits final !! p = Some c -> cc_solid c = true -> children c !! id = Some q -> exists x, commits final !! q = Some x /\ cc_id x = id /\ cc_solid x = true.
Proof.
  split; [exact final_reachable|]. split; [exists 5%positive; eexists; split_and!; vm_compute; reflexivity|]. apply (solidity_follows_links (W := W) (fun _ => 3) root final eq_refl final_reachable).
Defined.
Lemma candidates_are_processed_witness : wf_commitment (com 42 4 (id_ 32 3) 25) /\ exists r m', ProcessCandidateCommitment (W := W) (fun _ => 3) (com 42 4 (id_ 32 3) 25) final = Ret (r, m') /\ reachable (W := W) (fun _ => 3) root m'.
Proof. split; [done|]. by apply (candidates_are_processed (W := W) (fun _ => 3) root final (com 42 4 (id_ 32 3) 25) eq_refl final_reachable). Defined.

(** After the switch the root's chain, the main chain, still ends with the last commitment of the branch it left, which has less weight than the new head:
    [addCommitment] only ever raises the latest index. *)
Lemma stale_latest_commitment : exists k p c, (r ← rootCommitment final; c ← commits final !! r; cc_chain c) = Some k /\ chain_LatestCommitment k final = Ret (Some p, final) /\
  commits final !! p = Some c /\ cc_commitment c = Some light4 /\ cc_chain c <> Some k /\ CumulativeWeight light4 < CumulativeWeight heavy3.
Proof. eexists _, _, _. split; [by vm_compute|]. split; [by vm_compute|]. split; [by vm_compute|]. split; [by vm_compute|]. split; [by vm_compute|done]. Qed.
End ChainDemo.
