(* ===== verification/TipManager.v ===== *)
(** * Tips (pkg/protocol/engine/tipmanager, tipmanager/v1)

    Scheduled blocks enter the tip pools; a member of the strong pool is a strong tip unless a strong child of it is connected to the strong tips, a
    member of the weak pool is a weak tip unless any child of it is connected to tips.  Orphanage flows from parents to children,
    connection to the tips from children to parents.

    The metadata of a block are reactive variables.  A derived variable is a function of the variables it is derived from ([isOrphaned],
    [isStrongTip], ...); a counter counts the variables it monitors that are true, so when a variable changes every monitor of it is told
    ([Signal]).  Nested updates are an agenda of signals, the latest first.  There is one metadata object per block, since evicted
    slots are not filled again; objects stay after eviction, as callbacks refer to them.

    Parameters: the block cache, what the handlers of BlockAdded do (they choose the pool and keep a state of their own) and the entries of
    a random map ([TipOrder]).  Locks and worker pools are left out. *)
From S2P Require Import Prelude Block.

(** ** Tip pools (tip_pool.go) *)
Inductive TipPool := UndefinedTipPool | StrongTipPool | WeakTipPool | DroppedTipPool.
#[export] Instance TipPool_eq_dec : EqDecision TipPool.
Proof. solve_decision. Defined.
Definition pool_index (t : TipPool) : Z := match t with UndefinedTipPool => 0 | StrongTipPool => 1 | WeakTipPool => 2 | DroppedTipPool => 3 end.
Definition pool_Max (t other : TipPool) : TipPool := if pool_index other <? pool_index t then t else other.

(** ** Metadata of a block (v1/tip_metadata.go) *)
(** The variables of a block that counters of other blocks monitor: isStronglyOrphaned (by the children that refer to it
    strongly), isWeaklyOrphaned (by the other children), isStronglyConnectedToTips (by the strong parents), isConnectedToTips (by the others). *)
Inductive Link := StronglyOrphaned | WeaklyOrphaned | StronglyConnected | Connected.
#[export] Instance Link_eq_dec : EqDecision Link.
Proof. solve_decision. Defined.

Record TipMetadata := mkTipMetadata {
  tipPool : TipPool;
  livenessThresholdReached : bool;
  blockAccepted : bool;                       (* block.Accepted() *)
  evicted : bool;
  counters : Link -> Z;
  monitors : Link -> list BlockID;            (* whose counters monitor the variables of this block *)
}.
Definition stronglyOrphanedStrongParents (t : TipMetadata) : Z := counters t StronglyOrphaned.
Definition weaklyOrphanedWeakParents (t : TipMetadata) : Z := counters t WeaklyOrphaned.
Definition stronglyConnectedStrongChildren (t : TipMetadata) : Z := counters t StronglyConnected.
Definition connectedWeakChildren (t : TipMetadata) : Z := counters t Connected.

Definition NewBlockMetadata (block : Block) : TipMetadata := mkTipMetadata UndefinedTipPool false (accepted block) false (fun _ => 0) (fun _ => []).

Definition isMarkedOrphaned (t : TipMetadata) : bool := livenessThresholdReached t && negb (blockAccepted t).
Definition anyStrongParentStronglyOrphaned (t : TipMetadata) : bool := 0 <? stronglyOrphanedStrongParents t.
Definition anyWeakParentWeaklyOrphaned (t : TipMetadata) : bool := 0 <? weaklyOrphanedWeakParents t.
Definition isStronglyOrphaned (t : TipMetadata) : bool := isMarkedOrphaned t || anyStrongParentStronglyOrphaned t || anyWeakParentWeaklyOrphaned t.
Definition isWeaklyOrphaned (t : TipMetadata) : bool := isMarkedOrphaned t || anyWeakParentWeaklyOrphaned t.
Definition isOrphaned (t : TipMetadata) : bool := isStronglyOrphaned t || isWeaklyOrphaned t.
Definition isStrongTipPoolMember (t : TipMetadata) : bool := bool_decide (tipPool t = StrongTipPool) && negb (isOrphaned t) && negb (evicted t).
Definition isWeakTipPoolMember (t : TipMetadata) : bool := bool_decide (tipPool t = WeakTipPool) && negb (isOrphaned t) && negb (evicted t).
Definition isStronglyReferencedByTips (t : TipMetadata) : bool := 0 <? stronglyConnectedStrongChildren t.
Definition isWeaklyReferencedByTips (t : TipMetadata) : bool := 0 <? connectedWeakChildren t.
Definition isReferencedByTips (t : TipMetadata) : bool := isWeaklyReferencedByTips t || isStronglyReferencedByTips t.
Definition isStronglyConnectedToTips (t : TipMetadata) : bool := isStrongTipPoolMember t || isStronglyReferencedByTips t.
Definition isConnectedToTips (t : TipMetadata) : bool := isReferencedByTips t || isStrongTipPoolMember t || isWeakTipPoolMember t.
Definition isStrongTip (t : TipMetadata) : bool := isStrongTipPoolMember t && negb (isStronglyReferencedByTips t).
Definition isWeakTip (t : TipMetadata) : bool := isWeakTipPoolMember t && negb (isReferencedByTips t).

(** The value of a monitored variable. *)
Definition variable (k : Link) (t : TipMetadata) : bool :=
  match k with StronglyOrphaned => isStronglyOrphaned t | WeaklyOrphaned => isWeaklyOrphaned t | StronglyConnected => isStronglyConnectedToTips t | Connected => isConnectedToTips t end.
Definition links : list Link := [StronglyOrphaned; WeaklyOrphaned; StronglyConnected; Connected].

Definition set_pool v t := mkTipMetadata v (livenessThresholdReached t) (blockAccepted t) (evicted t) (counters t) (monitors t).
Definition set_liveness t := mkTipMetadata (tipPool t) true (blockAccepted t) (evicted t) (counters t) (monitors t).
Definition set_accepted t := mkTipMetadata (tipPool t) (livenessThresholdReached t) true (evicted t) (counters t) (monitors t).
Definition set_evicted t := mkTipMetadata (tipPool t) (livenessThresholdReached t) (blockAccepted t) true (counters t) (monitors t).
Definition count (k : Link) (b : bool) t :=
  mkTipMetadata (tipPool t) (livenessThresholdReached t) (blockAccepted t) (evicted t)
    (fun k' => if decide (k' = k) then counters t k + (if b then 1 else -1) else counters t k') (monitors t).
Definition add_monitor (k : Link) (id : BlockID) t :=
  mkTipMetadata (tipPool t) (livenessThresholdReached t) (blockAccepted t) (evicted t) (counters t) (fun k' => if decide (k' = k) then monitors t k ++ [id] else monitors t k').

(** A counter of [target] learns that a variable it monitors became [value]. *)
Record Signal := mkSignal { sg_link : Link; sg_target : BlockID; sg_value : bool }.
Definition signals_of (k : Link) (t t' : TipMetadata) : list Signal :=
  if Bool.eqb (variable k t) (variable k t') then [] else (fun id => mkSignal k id (variable k t')) <$> monitors t' k.
Definition signals (t t' : TipMetadata) : list Signal := links ≫= fun k => signals_of k t t'.

(** ** The manager (v1/tipmanager.go) *)
Section Manager.
Context {X : Type}.

Record TipManager := mkTipManager {
  metas : gmap BlockID TipMetadata;                          (* every metadata object *)
  tipMetadataStorage : gmap SlotIndex (gset BlockID);
  strongTipSet : gset BlockID;
  weakTipSet : gset BlockID;
  lastEvictedSlot : SlotIndex;
  handlers : X;                                              (* the state of the handlers of BlockAdded *)
}.
Definition New (x : X) : TipManager := mkTipManager ∅ ∅ ∅ ∅ 0 x.
Definition with_metas v m := mkTipManager v (tipMetadataStorage m) (strongTipSet m) (weakTipSet m) (lastEvictedSlot m) (handlers m).
Definition with_storage v m := mkTipManager (metas m) v (strongTipSet m) (weakTipSet m) (lastEvictedSlot m) (handlers m).
Definition with_tips s w m := mkTipManager (metas m) (tipMetadataStorage m) s w (lastEvictedSlot m) (handlers m).
Definition with_lastEvicted v m := mkTipManager (metas m) (tipMetadataStorage m) (strongTipSet m) (weakTipSet m) v (handlers m).
Definition with_handlers v m := mkTipManager (metas m) (tipMetadataStorage m) (strongTipSet m) (weakTipSet m) (lastEvictedSlot m) v.

(** The callbacks of isStrongTip and isWeakTip. *)
Definition put_tip (id : BlockID) (was_tip is_tip : bool) (s : gset BlockID) : gset BlockID := if Bool.eqb was_tip is_tip then s else if is_tip then {[id]} ∪ s else s ∖ {[id]}.
(** A change of a block's variables: the tip sets follow, and the signals are returned. *)
Definition modify (id : BlockID) (f : TipMetadata -> TipMetadata) (m : TipManager) : list Signal * TipManager :=
  match metas m !! id with
  | None => ([], m)
  | Some t => let t' := f t in
      (signals t t', with_tips (put_tip id (isStrongTip t) (isStrongTip t') (strongTipSet m)) (put_tip id (isWeakTip t) (isWeakTip t') (weakTipSet m)) (with_metas (<[id := t']> (metas m)) m))
  end.
(** The parent's monitors are removed when it is evicted; those of the children are not. *)
Definition unsubscribed (k : Link) (t : TipMetadata) : bool := match k with StronglyOrphaned | WeaklyOrphaned => false | StronglyConnected | Connected => evicted t end.
Definition deliver (s : Signal) (m : TipManager) : list Signal * TipManager :=
  match metas m !! sg_target s with
  | Some t => if unsubscribed (sg_link s) t then ([], m) else modify (sg_target s) (count (sg_link s) (sg_value s)) m
  | None => ([], m)
  end.
Fixpoint run (fuel : nat) (agenda : list Signal) (m : TipManager) : outcome TipManager :=
  match agenda with
  | [] => Ret m
  | s :: agenda => match fuel with O => OutOfFuel | S fuel => let '(more, m) := deliver s m in run fuel (more ++ agenda) m end
  end.

(** How many signals one signal can lead to, if no path is longer than [depth]. *)
Definition up_monitors (t : TipMetadata) : list BlockID := monitors t StronglyConnected ++ monitors t Connected.
Definition down_monitors (t : TipMetadata) : list BlockID := monitors t StronglyOrphaned ++ monitors t WeaklyOrphaned.
Fixpoint up_weight (m : TipManager) (depth : nat) (id : BlockID) : nat :=
  match depth with
  | O => 1
  | S depth => match metas m !! id with Some t => S (sum_list (up_weight m depth <$> up_monitors t)) | None => 1 end
  end.
Fixpoint down_weight (m : TipManager) (n depth : nat) (id : BlockID) : nat :=
  match depth with
  | O => 1
  | S depth => match metas m !! id with Some t => S (sum_list (up_weight m n <$> up_monitors t) + sum_list (down_weight m n depth <$> down_monitors t)) | None => 1 end
  end.
Definition signal_weight (m : TipManager) (s : Signal) : nat :=
  let n := S (size (metas m)) in
  match sg_link s with StronglyOrphaned | WeaklyOrphaned => down_weight m n n (sg_target s) | StronglyConnected | Connected => up_weight m n (sg_target s) end.
Definition propagate (agenda : list Signal) (m : TipManager) : outcome TipManager := run (sum_list (signal_weight m <$> agenda)) agenda m.

Definition update_ (id : BlockID) (f : TipMetadata -> TipMetadata) (m : TipManager) : outcome TipManager := let '(agenda, m) := modify id f m in propagate agenda m.
Definition SetTipPool (id : BlockID) (pool : TipPool) : TipManager -> outcome TipManager := update_ id (fun t => set_pool (pool_Max (tipPool t) pool) t).
Definition LivenessThresholdReached (id : BlockID) : TipManager -> outcome TipManager := update_ id set_liveness.
Definition BlockAccepted (id : BlockID) : TipManager -> outcome TipManager := update_ id set_accepted.

(** [counter.Monitor(variable)]: the counter of [target] follows a variable of [source]. *)
Definition Monitor (k : Link) (source target : BlockID) (m : TipManager) : outcome TipManager :=
  t ← deref (metas m !! source);
  propagate (if variable k t then [mkSignal k target true] else []) (with_metas (<[source := add_monitor k target t]> (metas m)) m).
Definition connectStrongParent (id strongParent : BlockID) (m : TipManager) : outcome TipManager :=
  m ← Monitor StronglyOrphaned strongParent id m; Monitor StronglyConnected id strongParent m.
Definition connectWeakParent (id weakParent : BlockID) (m : TipManager) : outcome TipManager :=
  m ← Monitor WeaklyOrphaned weakParent id m; Monitor Connected id weakParent m.

(** [nil] for an evicted slot. *)
Definition metadataStorage (slot : SlotIndex) (m : TipManager) : option (gset BlockID) * TipManager :=
  if slot <=? lastEvictedSlot m then (None, m)
  else match tipMetadataStorage m !! slot with Some s => (Some s, m) | None => (Some ∅, with_storage (<[slot := ∅]> (tipMetadataStorage m)) m) end.
(** [storage.GetOrCreate(id, NewBlockMetadata)]: whether it was created. *)
Definition getOrCreate (id : BlockID) (block : Block) (storage : gset BlockID) (m : TipManager) : bool * TipManager :=
  if bool_decide (id ∈ storage) then (false, m)
  else (true, with_metas (<[id := NewBlockMetadata block]> (metas m)) (with_storage (<[Slot id := {[id]} ∪ storage]> (tipMetadataStorage m)) m)).
End Manager.
Arguments TipManager : clear implicits.

Section Blocks.
Context {X : Type} (blocks : gmap BlockID Block) (onBlockAdded : BlockID -> X -> TipPool * X).
Implicit Types m : TipManager X.

Definition parents_with_type (block : Block) : list (ParentsType * BlockID) := match modelBlock block with Some data => ParentsWithType data | None => [] end.
Definition connect (id : BlockID) (parent : ParentsType * BlockID) m : outcome (TipManager X) :=
  match parent.1 with StrongParentType => connectStrongParent id parent.2 m | _ => connectWeakParent id parent.2 m end.
(** [blockAdded.Trigger] *)
Definition triggerBlockAdded (id : BlockID) m : outcome (TipManager X) := let '(pool, x) := onBlockAdded id (handlers m) in SetTipPool id pool (with_handlers x m).

(** forEachParentByType with the consumer of setupBlockMetadata; parents without metadata are set up as well. *)
Fixpoint forEachParentByType (setup : BlockID -> Block -> TipManager X -> outcome (TipManager X)) (id : BlockID) (parents : list (ParentsType * BlockID)) m : outcome (TipManager X) :=
  match parents with
  | [] => Ret m
  | parent :: parents =>
      match metadataStorage (Slot parent.2) m with
      | (None, m) => forEachParentByType setup id parents m
      | (Some storage, m) =>
          match blocks !! parent.2 with
          | None => forEachParentByType setup id parents m
          | Some parentBlock =>
              if IsRootBlock parentBlock then forEachParentByType setup id parents m
              else
                let '(created, m) := getOrCreate parent.2 parentBlock storage m in
                m ← connect id parent m;
                m ← (if created : bool then setup parent.2 parentBlock m else Ret m);
                forEachParentByType setup id parents m
          end
      end
  end.
Fixpoint setupBlockMetadata (fuel : nat) (id : BlockID) (block : Block) m : outcome (TipManager X) :=
  match fuel with
  | O => OutOfFuel
  | S fuel => m ← forEachParentByType (setupBlockMetadata fuel) id (parents_with_type block) m; triggerBlockAdded id m
  end.
(** [None] is [nil]. *)
Definition AddBlock (id : BlockID) (block : Block) m : outcome (option BlockID * TipManager X) :=
  match metadataStorage (Slot id) m with
  | (None, m) => Ret (None, m)
  | (Some storage, m) =>
      let '(created, m) := getOrCreate id block storage m in
      m ← (if created : bool then setupBlockMetadata (S (size blocks)) id block m else Ret m);
      Ret (Some id, m)
  end.

Definition markSlotAsEvicted (slot : SlotIndex) m : bool * TipManager X :=
  if lastEvictedSlot m <? slot then (true, with_lastEvicted slot m) else (false, m).
Fixpoint evict_all (ids : list BlockID) m : outcome (TipManager X) := match ids with [] => Ret m | id :: ids => m ← update_ id set_evicted m; evict_all ids m end.
Definition Evict `{!RangeOrder BlockID} (slot : SlotIndex) m : outcome (TipManager X) :=
  match markSlotAsEvicted slot m with
  | (false, m) => Ret m
  | (true, m) =>
      match tipMetadataStorage m !! slot with
      | Some storage => evict_all (range_of (set_to_map (fun id => (id, tt)) storage)).*1 (with_storage (delete slot (tipMetadataStorage m)) m)
      | None => Ret m
      end
  end.
End Blocks.

(** ** Random maps (hive.go's randommap): the entries of a set, and some of them, in any order *)
Class TipOrder := { RandomUniqueEntries : gset BlockID -> Z -> list BlockID; Values : gset BlockID -> list BlockID }.
Class TipOrderSpec (O : TipOrder) : Prop := {
  entries_NoDup s n : NoDup (RandomUniqueEntries s n);
  entries_subset s n id : id ∈ RandomUniqueEntries s n -> id ∈ s;
  entries_length s n : 0 <= n -> Z.of_nat (length (RandomUniqueEntries s n)) = Z.min n (Z.of_nat (size s));
  values_perm s : Values s ≡ₚ elements s;
}.
Section Tips.
Context `{TipOrder} {X : Type}.
Definition selectTips (tipSet : gset BlockID) (optAmount : option Z) : list BlockID := match optAmount with Some n => RandomUniqueEntries tipSet n | None => Values tipSet end.
Definition StrongTips (optAmount : option Z) (m : TipManager X) : list BlockID := selectTips (strongTipSet m) optAmount.
Definition WeakTips (optAmount : option Z) (m : TipManager X) : list BlockID := selectTips (weakTipSet m) optAmount.
End Tips.
