(* ===== verification/TipManagerProps.v ===== *)
(** * Counting tips

    The counters of the metadata count exactly the connected children and the orphaned parents, the signals of a change end, and the tip
    sets are the blocks whose variables say so. *)
From S2P Require Import Prelude Block TipManager.

Definition b2z (b : bool) : Z := if b then 1 else 0.
Definition sgn (b : bool) : Z := if b then 1 else -1.
Definition is_orphan (k : Link) : bool := match k with StronglyOrphaned | WeaklyOrphaned => true | _ => false end.

Section Props.
Context {X : Type} (rank : BlockID -> nat).
Implicit Types m : TipManager X.

(** ** The invariant

    [E k] are the pairs of a block and one that monitors its variable [k]; [A] are the signals under way. *)
Definition mvar k m id : bool := match metas m !! id with Some t => variable k t | None => false end.
Definition esum (k : Link) m (E : list (BlockID * BlockID)) (x : BlockID) : Z := zsum (fun e => if decide (e.2 = x) then b2z (mvar k m e.1) else 0) E.
Definition psum (k : Link) (A : list Signal) (x : BlockID) : Z := zsum (fun s => if decide (sg_link s = k /\ sg_target s = x) then sgn (sg_value s) else 0) A.

Record TInv (E : Link -> list (BlockID * BlockID)) (A : list Signal) m : Prop := {
  ti_mon k id t : metas m !! id = Some t -> monitors t k = (filter (fun e => e.1 = id) (E k)).*2;
  ti_ends k e : e ∈ E k -> is_Some (metas m !! e.1) /\ is_Some (metas m !! e.2);
  ti_rank k e : e ∈ E k -> if is_orphan k then (rank e.1 < rank e.2)%nat else (rank e.2 < rank e.1)%nat;
  ti_count k id t : metas m !! id = Some t -> unsubscribed k t = false -> counters t k + psum k A id = esum k m (E k) id;
  ti_strong id : id ∈ strongTipSet m <-> exists t, metas m !! id = Some t /\ isStrongTip t = true;
  ti_weak id : id ∈ weakTipSet m <-> exists t, metas m !! id = Some t /\ isWeakTip t = true;
}.

Lemma psum_app k A B x : psum k (A ++ B) x = psum k A x + psum k B x.
Proof. apply zsum_app. Qed.
Lemma psum_cons k s A x : psum k (s :: A) x = (if decide (sg_link s = k /\ sg_target s = x) then sgn (sg_value s) else 0) + psum k A x.
Proof. done. Qed.
Lemma psum_other k k' t t' x : k <> k' -> psum k (signals_of k' t t') x = 0.
Proof. intros Hne. unfold signals_of. destruct (Bool.eqb _ _); [done|]. induction (monitors t' k') as [|y l IH]; [done|]. cbn. rewrite decide_False; [done|]. cbn. intros [? _]. congruence. Qed.
Lemma psum_signals k t t' x : psum k (signals t t') x = psum k (signals_of k t t') x.
Proof.
  unfold signals. cbn [links mbind list_bind]. rewrite !psum_app. destruct k; rewrite ?(psum_other _ StronglyOrphaned), ?(psum_other _ WeaklyOrphaned), ?(psum_other _ StronglyConnected), ?(psum_other _ Connected) by done; cbn; lia.
Qed.
Lemma psum_map k b (l : list BlockID) x : psum k ((fun id => mkSignal k id b) <$> l) x = zsum (fun y => if decide (y = x) then sgn b else 0) l.
Proof. unfold psum. induction l as [|y l IH]; [done|]. cbn [fmap list_fmap zsum]. rewrite IH. f_equal. cbn. repeat case_decide; naive_solver. Qed.
(** The signals of a change are worth what the change is worth to the sums of the monitors. *)
Lemma psum_signals_of k t t' id x (E : list (BlockID * BlockID)) : monitors t' k = (filter (fun e => e.1 = id) E).*2 ->
  psum k (signals_of k t t') x = zsum (fun e => if decide (e.2 = x) then (if decide (e.1 = id) then b2z (variable k t') - b2z (variable k t) else 0) else 0) E.
Proof.
  intros Hm. unfold signals_of. rewrite Hm. clear Hm. destruct (Bool.eqb (variable k t) (variable k t')) eqn:Eb.
  - apply Bool.eqb_prop in Eb. rewrite Eb, Z.sub_diag. cbn. induction E as [|e E IH]; [done|]. cbn. rewrite <- IH. repeat case_decide; done.
  - assert (Hd : sgn (variable k t') = b2z (variable k t') - b2z (variable k t)) by (destruct (variable k t), (variable k t'); done). rewrite <- Hd. clear Hd Eb.
    rewrite psum_map. induction E as [|e E IH]; [done|]. rewrite filter_cons. cbn [zsum]. rewrite <- IH. destruct (decide (e.1 = id)) as [He|He]; cbn [fmap list_fmap zsum]; repeat case_decide; lia.
Qed.
Lemma esum_change k m m' id t t' E x : metas m !! id = Some t -> metas m' !! id = Some t' -> (forall y, y <> id -> metas m' !! y = metas m !! y) ->
  esum k m' E x = esum k m E x + zsum (fun e => if decide (e.2 = x) then (if decide (e.1 = id) then b2z (variable k t') - b2z (variable k t) else 0) else 0) E.
Proof.
  intros H1 H2 H3. unfold esum. induction E as [|e E IH]; [done|]. cbn. rewrite IH. destruct (decide (e.2 = x)); [|lia]. destruct (decide (e.1 = id)) as [->|Hne].
  - unfold mvar. rewrite H1, H2. lia.
  - assert (mvar k m' e.1 = mvar k m e.1) as -> by (unfold mvar; by rewrite H3). lia.
Qed.

Lemma put_tip_iff m id t t' (f : TipMetadata -> bool) s y : metas m !! id = Some t -> (y ∈ s <-> exists u, metas m !! y = Some u /\ f u = true) ->
  y ∈ put_tip id (f t) (f t') s <-> exists u, <[id := t']> (metas m) !! y = Some u /\ f u = true.
Proof.
  intros Ht Hs. unfold put_tip. destruct (decide (y = id)) as [->|Hne].
  - rewrite lookup_insert_eq. rewrite Ht in Hs. assert (Hiff : id ∈ s <-> f t = true) by (rewrite Hs; split; [intros (u & [= <-] & ?); done|eauto]).
    assert (Hr : (exists u, Some t' = Some u /\ f u = true) <-> f t' = true) by (split; [intros (u & [= <-] & ?); done|eauto]). rewrite Hr. destruct (f t), (f t'); cbn; set_solver.
  - rewrite lookup_insert_ne by done. rewrite <- Hs. destruct (Bool.eqb _ _); [done|]. destruct (f t'); set_solver.
Qed.

(** Changing one block keeps the invariant if its counters and the pending signals for it still add up. *)
Lemma modify_inv E A A' m id f t more m' : metas m !! id = Some t -> monitors (f t) = monitors t -> (forall k, unsubscribed k (f t) = false -> unsubscribed k t = false) -> TInv E A m ->
  (forall k, unsubscribed k (f t) = false -> counters (f t) k + psum k A' id = counters t k + psum k A id) -> (forall k x u, x <> id -> metas m !! x = Some u -> unsubscribed k u = false -> psum k A' x = psum k A x) ->
  modify id f m = (more, m') -> TInv E (more ++ A') m'.
Proof.
  intros Ht Hmon Hun [] Hown Hothers. unfold modify. rewrite Ht. intros [= <- <-]. set (t' := f t) in *. set (m' := with_tips _ _ _).
  assert (Ht' : metas m' !! id = Some t') by (cbn; by rewrite lookup_insert_eq). assert (Hne : forall y, y <> id -> metas m' !! y = metas m !! y) by (intros y Hy; cbn; by rewrite lookup_insert_ne).
  split.
  - intros k y u Hy. destruct (decide (y = id)) as [->|Hd]; [rewrite Ht' in Hy; injection Hy as <-; rewrite Hmon; by apply ti_mon0|rewrite Hne in Hy by done; by apply ti_mon0].
  - intros k e He. destruct (ti_ends0 k e He) as [H1 H2]. cbn. rewrite !lookup_insert_is_Some'. auto.
  - done.
  - intros k y u Hy Hu. rewrite psum_app, psum_signals, (psum_signals_of k t t' id y (E k)) by (rewrite Hmon; by apply ti_mon0). rewrite (esum_change k m m' id t t' (E k) y Ht Ht' Hne).
    destruct (decide (y = id)) as [->|Hd].
    + rewrite Ht' in Hy. injection Hy as <-. pose proof (Hown k Hu). pose proof (ti_count0 k id t Ht (Hun k Hu)). lia.
    + rewrite Hne in Hy by done. rewrite (Hothers k y u Hd Hy Hu). pose proof (ti_count0 k y u Hy Hu). lia.
  - intros y. by apply put_tip_iff.
  - intros y. by apply put_tip_iff.
Qed.

Lemma deliver_inv E s A m more m' : TInv E (s :: A) m -> deliver s m = (more, m') -> TInv E (more ++ A) m'.
Proof.
  intros Hinv. unfold deliver. destruct (metas m !! sg_target s) as [t|] eqn:Et.
  - destruct (unsubscribed (sg_link s) t) eqn:Eu.
    + intros [= <- <-]. destruct Hinv. split; try done. intros k id u Hu Hun. rewrite <- (ti_count0 k id u Hu Hun), psum_cons. rewrite decide_False; [cbn [app]; lia|]. intros [<- <-]. congruence.
    + apply (modify_inv E (s :: A) A m (sg_target s) _ t); [done|done|done|done| |].
      * intros k _. rewrite psum_cons. cbn [counters count]. unfold sgn. destruct (decide (k = sg_link s)) as [->|]; [rewrite decide_True by done; destruct (sg_value s); lia|rewrite decide_False; [lia|]]. intros [? _]. congruence.
      * intros k x u Hx _ _. rewrite psum_cons. rewrite decide_False; [lia|]. intros [_ ?]. congruence.
  - intros [= <- <-]. destruct Hinv. split; try done. intros k id u Hu Hun. rewrite <- (ti_count0 k id u Hu Hun), psum_cons. rewrite decide_False; [cbn [app]; lia|]. intros [_ <-]. congruence.
Qed.
Lemma signals_run_inv E fuel : forall A m m', TInv E A m -> run fuel A m = Ret m' -> TInv E [] m'.
Proof.
  induction fuel as [|fuel IH]; intros [|s A] m m' Hinv; cbn [run]; try (intros [= <-]; done). destruct (deliver s m) as [more m1] eqn:Ed. intros Hr. eapply IH; [|exact Hr]. by eapply deliver_inv.
Qed.

(** ** Signals end *)
(** What signals leave as it is. *)
Definition same_meta (t t' : TipMetadata) : Prop := tipPool t' = tipPool t /\ livenessThresholdReached t' = livenessThresholdReached t /\ blockAccepted t' = blockAccepted t /\ evicted t' = evicted t /\ monitors t' = monitors t.
Record static m m' : Prop := {
  st_meta id t : metas m !! id = Some t -> exists t', metas m' !! id = Some t' /\ same_meta t t';
  st_old id t' : metas m' !! id = Some t' -> is_Some (metas m !! id);
  st_storage : tipMetadataStorage m' = tipMetadataStorage m;
  st_last : lastEvictedSlot m' = lastEvictedSlot m;
  st_handlers : handlers m' = handlers m;
}.
Lemma static_refl m : static m m.
Proof. split; try done. intros id t Ht. by exists t. Qed.
Lemma static_trans m1 m2 m3 : static m1 m2 -> static m2 m3 -> static m1 m3.
Proof.
  intros [A1 A2 A3 A4 A5] [B1 B2 B3 B4 B5]. split; [| |congruence..].
  - intros id t Ht. destruct (A1 id t Ht) as (t2 & Ht2 & (? & ? & ? & ? & ?)). destruct (B1 id t2 Ht2) as (t3 & Ht3 & (? & ? & ? & ? & ?)). exists t3. split; [done|]. unfold same_meta. split_and!; congruence.
  - intros id t Ht. destruct (B2 id t Ht) as [t2 Ht2]. by eapply A2.
Qed.
Lemma static_lookup m m' id : static m m' -> match metas m !! id, metas m' !! id with Some t, Some t' => same_meta t t' | None, None => True | _, _ => False end.
Proof.
  intros Hst. destruct (metas m !! id) as [t|] eqn:E; [destruct (st_meta _ _ Hst id t E) as (t' & -> & ?); done|]. destruct (metas m' !! id) as [t'|] eqn:E'; [|done]. destruct (st_old _ _ Hst id t' E'). congruence.
Qed.
Lemma static_size m m' : static m m' -> size (metas m') = size (metas m).
Proof.
  intros Hst. rewrite <- !(size_dom (D := gset BlockID)). f_equal. apply set_eq. intros id. rewrite !elem_of_dom. pose proof (static_lookup m m' id Hst) as H. destruct (metas m !! id), (metas m' !! id); try done; split; intros []; eauto; done.
Qed.
Lemma deliver_static s m more m' : deliver s m = (more, m') -> static m m'.
Proof.
  unfold deliver, modify. destruct (metas m !! sg_target s) as [t|] eqn:Et; [|intros [= <- <-]; apply static_refl]. destruct (unsubscribed _ _); intros [= <- <-]; [apply static_refl|]. split; try done; cbn.
  - intros id u Hu. destruct (decide (sg_target s = id)) as [<-|]; [rewrite lookup_insert_eq; rewrite Et in Hu; injection Hu as <-; by eexists|rewrite lookup_insert_ne by done; by exists u].
  - intros id u [[<- <-]|[_ Hu]]%lookup_insert_Some; [by eexists|by eexists].
Qed.
Lemma run_static fuel : forall A m m', run fuel A m = Ret m' -> static m m'.
Proof.
  induction fuel as [|fuel IH]; intros [|s A] m m'; cbn [run]; try (intros [= <-]; apply static_refl). destruct (deliver s m) as [more m1] eqn:Ed. intros Hr. eapply static_trans; [by eapply deliver_static|by eapply IH].
Qed.

Lemma up_weight_static m m' n : static m m' -> forall id, up_weight m' n id = up_weight m n id.
Proof.
  intros Hst. induction n as [|n IH]; intros id; [done|]. cbn. pose proof (static_lookup m m' id Hst) as H. destruct (metas m !! id) as [t|], (metas m' !! id) as [t'|]; try done. destruct H as (_ & _ & _ & _ & Hm). unfold up_monitors. rewrite Hm. do 2 f_equal. apply list_fmap_ext. intros. apply IH.
Qed.
Lemma down_weight_static m m' n d : static m m' -> forall id, down_weight m' n d id = down_weight m n d id.
Proof.
  intros Hst. induction d as [|d IH]; intros id; [done|]. cbn. pose proof (static_lookup m m' id Hst) as H. destruct (metas m !! id) as [t|], (metas m' !! id) as [t'|]; try done. destruct H as (_ & _ & _ & _ & Hm). unfold up_monitors, down_monitors. rewrite Hm. do 2 f_equal.
  - f_equal. apply list_fmap_ext. intros. by apply up_weight_static.
  - f_equal. apply list_fmap_ext. intros. apply IH.
Qed.
Lemma signal_weight_static m m' s : static m m' -> signal_weight m' s = signal_weight m s.
Proof. intros Hst. unfold signal_weight. rewrite (static_size m m' Hst). destruct (sg_link s); auto using up_weight_static, down_weight_static. Qed.

(** *** Paths are short: the number of blocks of lower (higher) rank goes down on the way up (down) *)
Definition below m id : nat := size (filter (fun y => rank y < rank id)%nat (dom (metas m))).
Definition above m id : nat := size (filter (fun y => rank id < rank y)%nat (dom (metas m))).
Lemma below_lt m x y : is_Some (metas m !! y) -> (rank y < rank x)%nat -> (below m y < below m x)%nat.
Proof. intros Hy Hr. apply subset_size. apply elem_of_dom in Hy. split; [intros z; rewrite !elem_of_filter; intros [? ?]; split; [lia|done]|]. intros Hs. specialize (Hs y). rewrite !elem_of_filter in Hs. destruct Hs; [done|lia]. Qed.
Lemma above_lt m x y : is_Some (metas m !! y) -> (rank x < rank y)%nat -> (above m y < above m x)%nat.
Proof. intros Hy Hr. apply subset_size. apply elem_of_dom in Hy. split; [intros z; rewrite !elem_of_filter; intros [? ?]; split; [lia|done]|]. intros Hs. specialize (Hs y). rewrite !elem_of_filter in Hs. destruct Hs; [done|lia]. Qed.
Lemma below_size m x : (below m x <= size (metas m))%nat.
Proof. unfold below. rewrite <- (size_dom (D := gset BlockID)). apply subseteq_size. intros z. rewrite elem_of_filter. by intros [_ ?]. Qed.
Lemma above_size m x : (above m x <= size (metas m))%nat.
Proof. unfold above. rewrite <- (size_dom (D := gset BlockID)). apply subseteq_size. intros z. rewrite elem_of_filter. by intros [_ ?]. Qed.

Lemma monitor_edge E A m k id t y : TInv E A m -> metas m !! id = Some t -> y ∈ monitors t k -> is_Some (metas m !! y) /\ if is_orphan k then (rank id < rank y)%nat else (rank y < rank id)%nat.
Proof.
  intros [] Ht. rewrite (ti_mon0 k id t Ht). intros ([a b] & -> & [Ha He]%list_elem_of_filter)%list_elem_of_fmap. cbn in *. subst a. split; [by apply (ti_ends0 k _ He)|by apply (ti_rank0 k _ He)].
Qed.
Lemma up_monitor E A m id t y : TInv E A m -> metas m !! id = Some t -> y ∈ up_monitors t -> is_Some (metas m !! y) /\ (rank y < rank id)%nat.
Proof. intros Hinv Ht [H|H]%elem_of_app; by apply (monitor_edge _ _ _ _ _ _ _ Hinv Ht) in H. Qed.
Lemma down_monitor E A m id t y : TInv E A m -> metas m !! id = Some t -> y ∈ down_monitors t -> is_Some (metas m !! y) /\ (rank id < rank y)%nat.
Proof. intros Hinv Ht [H|H]%elem_of_app; by apply (monitor_edge _ _ _ _ _ _ _ Hinv Ht) in H. Qed.

Lemma up_weight_stable E A m d : TInv E A m -> forall id, (below m id < d)%nat -> up_weight m (S d) id = up_weight m d id.
Proof.
  intros Hinv. induction d as [|d IH]; intros id Hd; [lia|]. cbn [up_weight]. destruct (metas m !! id) as [t|] eqn:Et; [|done]. do 2 f_equal. apply list_fmap_ext. intros i y Hy%list_elem_of_lookup_2.
  destruct (up_monitor _ _ _ _ _ _ Hinv Et Hy) as [H1 H2]. pose proof (below_lt m id y H1 H2). fold (up_weight m (S d) y). apply IH. lia.
Qed.
Lemma down_weight_stable E A m n d : TInv E A m -> forall id, (above m id < d)%nat -> down_weight m n (S d) id = down_weight m n d id.
Proof.
  intros Hinv. induction d as [|d IH]; intros id Hd; [lia|]. cbn [down_weight]. destruct (metas m !! id) as [t|] eqn:Et; [|done]. do 2 f_equal. f_equal. apply list_fmap_ext. intros i y Hy%list_elem_of_lookup_2.
  destruct (down_monitor _ _ _ _ _ _ Hinv Et Hy) as [H1 H2]. pose proof (above_lt m id y H1 H2). fold (down_weight m n (S d) y). apply IH. lia.
Qed.

Definition weigh m (A : list Signal) : nat := sum_list (signal_weight m <$> A).
Lemma sum_app (l1 l2 : list nat) : sum_list (l1 ++ l2) = (sum_list l1 + sum_list l2)%nat.
Proof. induction l1; cbn; lia. Qed.
Lemma weigh_app m A B : weigh m (A ++ B) = (weigh m A + weigh m B)%nat.
Proof. unfold weigh. by rewrite fmap_app, sum_app. Qed.
Lemma weigh_signals_of m k t t' : (weigh m (signals_of k t t') <= sum_list ((fun y => signal_weight m (mkSignal k y true)) <$> monitors t' k))%nat.
Proof. unfold weigh, signals_of. destruct (Bool.eqb _ _); [cbn; lia|]. rewrite <- list_fmap_compose. done. Qed.
Lemma weigh_signals m t t' : weigh m (signals t t') = (weigh m (signals_of StronglyOrphaned t t') + weigh m (signals_of WeaklyOrphaned t t') + weigh m (signals_of StronglyConnected t t') + weigh m (signals_of Connected t t'))%nat.
Proof. unfold signals. cbn [links mbind list_bind]. rewrite !weigh_app. cbn. lia. Qed.
(** Only orphanage depends on the counters of orphaned parents. *)
Lemma count_connection_orphan k k' b t : is_orphan k = false -> is_orphan k' = true -> variable k' (count k b t) = variable k' t.
Proof. destruct k, k'; try done; intros _ _; cbn; unfold isStronglyOrphaned, isWeaklyOrphaned, isMarkedOrphaned, anyStrongParentStronglyOrphaned, anyWeakParentWeaklyOrphaned, stronglyOrphanedStrongParents, weaklyOrphanedWeakParents; done. Qed.
Lemma signals_of_same k t t' : variable k t' = variable k t -> signals_of k t t' = [].
Proof. unfold signals_of. intros ->. by rewrite Bool.eqb_reflx. Qed.

Lemma up_weight_unfold E A m x t : TInv E A m -> metas m !! x = Some t -> up_weight m (S (size (metas m))) x = S (sum_list (up_weight m (S (size (metas m))) <$> up_monitors t)).
Proof.
  intros Hinv Ht. cbn [up_weight]. rewrite Ht. do 2 f_equal. apply list_fmap_ext. intros i y Hy%list_elem_of_lookup_2. destruct (up_monitor _ _ _ _ _ _ Hinv Ht Hy) as [H1 H2].
  symmetry. apply (up_weight_stable E A m _ Hinv). pose proof (below_lt m x y H1 H2). pose proof (below_size m x). lia.
Qed.
Lemma down_weight_unfold E A m x t : TInv E A m -> metas m !! x = Some t -> let n := S (size (metas m)) in
  down_weight m n n x = S (sum_list (up_weight m n <$> up_monitors t) + sum_list (down_weight m n n <$> down_monitors t)).
Proof.
  intros Hinv Ht n. unfold n at 2. cbn [down_weight]. rewrite Ht. do 3 f_equal. apply list_fmap_ext. intros i y Hy%list_elem_of_lookup_2. destruct (down_monitor _ _ _ _ _ _ Hinv Ht Hy) as [H1 H2].
  symmetry. apply (down_weight_stable E A m n _ Hinv). pose proof (above_lt m x y H1 H2). pose proof (above_size m x). lia.
Qed.

Lemma deliver_decreases E s A m more m' : TInv E (s :: A) m -> deliver s m = (more, m') -> (weigh m more < signal_weight m s)%nat.
Proof.
  intros Hinv. assert (Hpos : (0 < signal_weight m s)%nat) by (unfold signal_weight; destruct (sg_link s); cbn [up_weight down_weight]; destruct (metas m !! sg_target s); lia).
  unfold deliver, modify. destruct (metas m !! sg_target s) as [t|] eqn:Et; [|intros [= <- <-]; done]. destruct (unsubscribed _ _); [intros [= <- <-]; done|]. intros [= <- <-]. set (t' := count (sg_link s) (sg_value s) t).
  rewrite weigh_signals. set (n := S (size (metas m))).
  assert (H1 : (weigh m (signals_of StronglyOrphaned t t') <= sum_list (down_weight m n n <$> monitors t StronglyOrphaned))%nat) by exact (weigh_signals_of m StronglyOrphaned t t').
  assert (H2 : (weigh m (signals_of WeaklyOrphaned t t') <= sum_list (down_weight m n n <$> monitors t WeaklyOrphaned))%nat) by exact (weigh_signals_of m WeaklyOrphaned t t').
  assert (H3 : (weigh m (signals_of StronglyConnected t t') <= sum_list (up_weight m n <$> monitors t StronglyConnected))%nat) by exact (weigh_signals_of m StronglyConnected t t').
  assert (H4 : (weigh m (signals_of Connected t t') <= sum_list (up_weight m n <$> monitors t Connected))%nat) by exact (weigh_signals_of m Connected t t').
  pose proof (up_weight_unfold E (s :: A) m (sg_target s) t Hinv Et) as Hup. unfold up_monitors in Hup. rewrite fmap_app, sum_app in Hup. fold n in Hup.
  pose proof (down_weight_unfold E (s :: A) m (sg_target s) t Hinv Et) as Hdown. cbn zeta in Hdown. unfold up_monitors, down_monitors in Hdown. rewrite !fmap_app, !sum_app in Hdown. fold n in Hdown.
  unfold signal_weight. fold n. destruct (is_orphan (sg_link s)) eqn:Eo.
  - destruct (sg_link s); try done; rewrite Hdown; lia.
  - rewrite (signals_of_same StronglyOrphaned), (signals_of_same WeaklyOrphaned) by (unfold t'; by apply count_connection_orphan). change (weigh m []) with O. destruct (sg_link s); try done; rewrite Hup; lia.
Qed.

Lemma run_total E fuel : forall A m, TInv E A m -> (weigh m A <= fuel)%nat -> exists m', run fuel A m = Ret m'.
Proof.
  induction fuel as [|fuel IH]; intros [|s A] m Hinv Hw; cbn [run]; try (by eexists); destruct (deliver s m) as [more m1] eqn:Ed; pose proof (deliver_decreases E s A m more m1 Hinv Ed) as Hd; change (weigh m (s :: A)) with (signal_weight m s + weigh m A)%nat in Hw; [lia|].
  apply (IH (more ++ A) m1); [by eapply deliver_inv|]. pose proof (deliver_static _ _ _ _ Ed) as Hst. assert (Hsame : forall B, weigh m1 B = weigh m B) by (intros B; unfold weigh; f_equal; apply list_fmap_ext; intros; by apply signal_weight_static). rewrite Hsame, weigh_app. lia.
Qed.
(** Signals are all delivered, and then the counters are exact. *)
Lemma signals_delivered E A m : TInv E A m -> exists m', propagate A m = Ret m' /\ TInv E [] m' /\ static m m'.
Proof. intros Hinv. destruct (run_total E (weigh m A) A m Hinv) as [m' Hr]; [done|]. exists m'. split; [exact Hr|]. split; [by eapply signals_run_inv|by eapply run_static]. Qed.
End Props.
