(* ===== verification/TipManagerClaims.v ===== *)
(** * Tips cover the tip pools

    In every state the tip manager can reach, each block of the strong pool is a strong tip or is reached from one along strong references, and strong tips
    have no child that is connected to the strong tips; accordingly for the weak pool. *)
From S2P Require Import Prelude Block TipManager TipManagerProps.

Section Ops.
Context {X : Type} (rank : BlockID -> nat) (blocks : gmap BlockID Block) (onBlockAdded : BlockID -> X -> TipPool * X).
Implicit Types m : TipManager X.
Abbreviation edges := (Link -> list (BlockID * BlockID)).

(** ** Storage and eviction *)
Record Frame m : Prop := {
  fr_stored id t : metas m !! id = Some t -> lastEvictedSlot m < Slot id -> exists s, tipMetadataStorage m !! Slot id = Some s /\ id ∈ s;
  fr_storage slot s id : tipMetadataStorage m !! slot = Some s -> id ∈ s -> Slot id = slot /\ is_Some (metas m !! id);
  fr_evicted id t : metas m !! id = Some t -> evicted t = true -> Slot id <= lastEvictedSlot m;
}.
Record GInv (E : edges) m : Prop := {
  gi_inv : TInv rank E [] m;
  gi_frame : Frame m;
  gi_slots k e : is_orphan k = false -> e ∈ E k -> Slot e.2 <= Slot e.1;
}.
(** Operations keep the objects. *)
Record grows m m' : Prop := {
  gr_old id : is_Some (metas m !! id) -> is_Some (metas m' !! id);
  gr_last : lastEvictedSlot m' = lastEvictedSlot m;
}.
Lemma grows_refl m : grows m m.
Proof. done. Qed.
Lemma grows_trans m1 m2 m3 : grows m1 m2 -> grows m2 m3 -> grows m1 m3.
Proof. intros [A1 A2] [B1 B2]. split; [auto|congruence]. Qed.
Record keeps m m' : Prop := {
  kp_meta id t : metas m !! id = Some t -> exists t', metas m' !! id = Some t' /\ evicted t' = evicted t;
  kp_old id : is_Some (metas m' !! id) -> is_Some (metas m !! id);
  kp_storage : tipMetadataStorage m' = tipMetadataStorage m;
  kp_last : lastEvictedSlot m' = lastEvictedSlot m;
}.
Lemma tips_keeps_trans m1 m2 m3 : keeps m1 m2 -> keeps m2 m3 -> keeps m1 m3.
Proof.
  intros [A1 A2 A3 A4] [B1 B2 B3 B4]. split; [|auto|congruence..]. intros id t Ht. destruct (A1 id t Ht) as (t2 & Ht2 & E2). destruct (B1 id t2 Ht2) as (t3 & Ht3 & E3). exists t3. split; [done|congruence].
Qed.
Lemma static_keeps m m' : static m m' -> keeps m m'.
Proof. intros [S1 S2 S3 S4 S5]. split; [|intros id [t Ht]; by eapply S2|done..]. intros id t Ht. destruct (S1 id t Ht) as (t' & Ht' & _ & _ & _ & ? & _). by exists t'. Qed.
Lemma keeps_grows m m' : keeps m m' -> grows m m'.
Proof. intros []. split; [|done]. intros id [t Ht]. destruct (kp_meta0 id t Ht) as (t' & ? & _). by exists t'. Qed.
Lemma keeps_frame m m' : keeps m m' -> Frame m -> Frame m'.
Proof.
  intros Hk []. pose proof (kp_storage _ _ Hk) as Es. pose proof (kp_last _ _ Hk) as El. split; rewrite ?Es, ?El.
  - intros id t Ht. destruct (kp_old _ _ Hk id) as [t0 Ht0]; [by eexists|]. by eapply fr_stored0.
  - intros slot s id Hs Hin. destruct (fr_storage0 slot s id Hs Hin) as [? [t Ht]]. split; [done|]. destruct (kp_meta _ _ Hk id t Ht) as (t' & ? & _). by eexists.
  - intros id t Ht He. destruct (kp_old _ _ Hk id) as [t0 Ht0]; [by eexists|]. destruct (kp_meta _ _ Hk id t0 Ht0) as (t' & Ht' & E'). rewrite Ht in Ht'. injection Ht' as <-. apply (fr_evicted0 id t0 Ht0). congruence.
Qed.
Lemma modify_keeps id f m more m' t : metas m !! id = Some t -> evicted (f t) = evicted t -> modify id f m = (more, m') -> keeps m m'.
Proof.
  intros Ht He. unfold modify. rewrite Ht. intros [= _ <-]. split; cbn; [|intros y; rewrite lookup_insert_is_Some'; intros [<-|?]; [by eexists|done]|done|done].
  intros y u Hu. destruct (decide (id = y)) as [<-|]; [rewrite lookup_insert_eq; rewrite Ht in Hu; injection Hu as <-; by eexists|rewrite lookup_insert_ne by done; by exists u].
Qed.

(** ** Changing a variable of a block *)
Lemma update_inv E id f m t : TInv rank E [] m -> metas m !! id = Some t -> monitors (f t) = monitors t -> counters (f t) = counters t -> (evicted (f t) = false -> evicted t = false) ->
  exists m1 m', TInv rank E [] m' /\ update_ id f m = Ret m' /\ (exists more, modify id f m = (more, m1)) /\ static m1 m'.
Proof.
  intros Hinv Ht H1 H2 H3. unfold update_. destruct (modify id f m) as [more m1] eqn:Em. pose proof (modify_inv rank E [] [] m id f t more m1 Ht H1) as Hi.
  destruct (signals_delivered rank E (more ++ []) m1) as (m' & Hp & Hi' & Hst); [|rewrite (right_id_L [] (++)) in Hp; exists m1, m'; eauto]. apply Hi; [|done|intros k _; by rewrite H2|done|done].
  intros k. destruct k; cbn; auto.
Qed.
Lemma update_good E id f m : GInv E m -> (forall t, monitors (f t) = monitors t /\ counters (f t) = counters t /\ evicted (f t) = evicted t) -> exists m', update_ id f m = Ret m' /\ GInv E m' /\ keeps m m'.
Proof.
  intros [H1 H2 H3] Hf. destruct (metas m !! id) as [t|] eqn:Et.
  - destruct (Hf t) as (Hm & Hc & He). destruct (update_inv E id f m t H1 Et Hm Hc) as (m1 & m' & Hi & Hu & [more Hmod] & Hst); [congruence|]. exists m'. split; [done|].
    assert (Hk : keeps m m') by (eapply tips_keeps_trans; [by eapply modify_keeps|by apply static_keeps]). split; [|done]. split; [done|by eapply keeps_frame|done].
  - exists m. unfold update_, modify. rewrite Et. split; [done|]. split; [done|]. split; try done. intros i t Ht. by exists t.
Qed.

(** ** Connecting blocks *)
Definition add_edge (k : Link) (e : BlockID * BlockID) (E : edges) : edges := fun k' => if decide (k' = k) then E k ++ [e] else E k'.
Lemma Monitor_inv E k source target m : TInv rank E [] m -> is_Some (metas m !! source) -> is_Some (metas m !! target) -> (if is_orphan k then (rank source < rank target)%nat else (rank target < rank source)%nat) ->
  exists m', Monitor k source target m = Ret m' /\ TInv rank (add_edge k (source, target) E) [] m' /\ keeps m m'.
Proof.
  intros Hinv [t Ht] Htgt Hrank. unfold Monitor. rewrite Ht. cbn [deref mbind outcome_bind]. set (A := if variable k t then _ else _). set (m1 := with_metas _ m). pose proof Hinv as [].
  assert (Hlk : forall y, metas m1 !! y = if decide (y = source) then Some (add_monitor k target t) else metas m !! y) by (intros y; cbn; rewrite lookup_insert; repeat case_decide; congruence).
  assert (Hvar : forall k' y, mvar k' m1 y = mvar k' m y) by (intros k' y; unfold mvar; rewrite Hlk; case_decide; [subst; rewrite Ht; by destruct k'|done]).
  assert (Hsum : forall k' l x, esum k' m1 l x = esum k' m l x) by (intros k' l x; unfold esum; induction l as [|e l IH]; [done|]; cbn; rewrite IH, Hvar; done).
  destruct (signals_delivered rank (add_edge k (source, target) E) A m1) as (m' & Hp & Hi & Hst).
  { split.
    - intros k' y u. rewrite Hlk. unfold add_edge. case_decide as Hy; [intros [= <-]; subst y; cbn; destruct (decide (k' = k)) as [->|]; [|by apply ti_mon]|].
      + rewrite filter_app, fmap_app, filter_cons_True by done. cbn. f_equal. by apply ti_mon.
      + intros Hu. destruct (decide (k' = k)) as [->|]; [|by apply ti_mon]. rewrite filter_app, filter_cons_False by done. cbn. rewrite (right_id_L [] (++)). by apply ti_mon.
    - intros k' e He. assert (Hs : forall y, is_Some (metas m !! y) -> is_Some (metas m1 !! y)) by (intros y [u Hu]; rewrite Hlk; case_decide; by eexists). unfold add_edge in He. destruct (decide (k' = k)) as [->|]; [|destruct (ti_ends k' e He); auto].
      apply elem_of_app in He as [He| ->%list_elem_of_singleton]; [destruct (ti_ends k e He); auto|]. cbn [fst snd]. split; apply Hs; [by exists t|done].
    - intros k' e He. unfold add_edge in He. destruct (decide (k' = k)) as [->|]; [|by apply ti_rank]. apply elem_of_app in He as [He| ->%list_elem_of_singleton]; [by apply ti_rank|done].
    - intros k' y u. rewrite Hlk. intros Hu Hun. rewrite Hsum.
      assert (Hc : counters u k' = esum k' m (E k') y). { case_decide; [subst y; injection Hu as <-; rewrite <- (ti_count k' source t Ht Hun)|rewrite <- (ti_count k' y u Hu Hun)]; cbn; lia. } rewrite Hc.
      unfold add_edge. destruct (decide (k' = k)) as [->|Hne].
      + unfold esum at 2. rewrite zsum_app. cbn [zsum fst snd]. assert (Hmv : mvar k m source = variable k t) by (unfold mvar; by rewrite Ht). rewrite Hmv. unfold A. destruct (variable k t).
        * rewrite psum_cons. cbn [sg_link sg_target sg_value]. change (psum k [] y) with 0. unfold esum, b2z, sgn. destruct (decide (target = y)) as [->|]; [rewrite decide_True by done; lia|rewrite decide_False by (by intros [_ ?]); lia].
        * change (psum k [] y) with 0. unfold esum, b2z. destruct (decide (target = y)); lia.
      + unfold A. destruct (variable k t); [|change (psum k' [] y) with 0; lia]. rewrite psum_cons, decide_False by (cbn; intros [? _]; congruence). change (psum k' [] y) with 0. lia.
    - intros y. rewrite Hlk. change (strongTipSet m1) with (strongTipSet m). rewrite ti_strong. case_decide; [subst; rewrite Ht|done]. split; intros (u & [= <-] & ?); by eexists.
    - intros y. rewrite Hlk. change (weakTipSet m1) with (weakTipSet m). rewrite ti_weak. case_decide; [subst; rewrite Ht|done]. split; intros (u & [= <-] & ?); by eexists. }
  exists m'. split; [exact Hp|]. split; [done|]. eapply tips_keeps_trans; [|by apply static_keeps]. split; [|intros y; rewrite Hlk; case_decide; [intros _; subst; by exists t|done]|done|done].
  intros y u Hu. rewrite Hlk. case_decide; [subst; rewrite Ht in Hu; injection Hu as <-; by eexists|by exists u].
Qed.
Lemma connect_good E id parent m : GInv E m -> is_Some (metas m !! id) -> is_Some (metas m !! parent.2) -> (rank parent.2 < rank id)%nat -> Slot parent.2 <= Slot id -> exists E' m', connect id parent m = Ret m' /\ GInv E' m' /\ keeps m m'.
Proof.
  intros [H1 H2 H3] Hid Hpar Hrank Hslot.
  assert (Hboth : forall k1 k2, is_orphan k1 = true -> is_orphan k2 = false -> exists E' m', (m1 ← Monitor k1 parent.2 id m; Monitor k2 id parent.2 m1) = Ret m' /\ GInv E' m' /\ keeps m m').
  { intros k1 k2 Hk1 Hk2. destruct (Monitor_inv E k1 parent.2 id m H1 Hpar Hid) as (m1 & Hm1 & Hi1 & Hkp1); [by rewrite Hk1|]. pose proof (keeps_grows _ _ Hkp1) as [Hg _].
    destruct (Monitor_inv _ k2 id parent.2 m1 Hi1 (Hg _ Hid) (Hg _ Hpar)) as (m2 & Hm2 & Hi2 & Hkp2); [by rewrite Hk2|]. assert (Hkp : keeps m m2) by (by eapply tips_keeps_trans).
    eexists _, m2. split; [rewrite Hm1; exact Hm2|]. split; [|done]. split; [exact Hi2|by eapply keeps_frame|]. intros k e Hk. unfold add_edge. destruct (decide (k = k2)) as [->|].
    - destruct (decide (k2 = k1)); [congruence|]. intros [He| ->%list_elem_of_singleton]%elem_of_app; [by apply (H3 k2)|done].
    - destruct (decide (k = k1)); [congruence|]. by apply H3. }
  unfold connect, connectStrongParent, connectWeakParent. destruct parent.1; by apply Hboth.
Qed.

(** ** Adding blocks *)
Lemma metadataStorage_good E slot m o m1 : GInv E m -> metadataStorage slot m = (o, m1) -> GInv E m1 /\ metas m1 = metas m /\ lastEvictedSlot m1 = lastEvictedSlot m /\
  match o with None => slot <= lastEvictedSlot m | Some s => lastEvictedSlot m < slot /\ tipMetadataStorage m1 !! slot = Some s end.
Proof.
  intros [H1 H2 H3]. unfold metadataStorage. destruct (slot <=? lastEvictedSlot m) eqn:El; [intros [= <- <-]; split_and!; [done|done|done|lia]|].
  destruct (tipMetadataStorage m !! slot) as [s|] eqn:Es; intros [= <- <-]; split_and!; try done; try lia; [|cbn; by rewrite lookup_insert_eq]. split; [by destruct H1| |done]. destruct H2. split; cbn; [|intros slot' s id [[<- <-]|[_ Hs]]%lookup_insert_Some Hin; [set_solver|by eapply fr_storage0]|done].
  intros id t Ht Hl. destruct (fr_stored0 id t Ht Hl) as (s & Hs & Hin). exists s. rewrite lookup_insert_ne by congruence. done.
Qed.
Lemma esum_none E k m x : TInv rank E [] m -> metas m !! x = None -> esum k m (E k) x = 0.
Proof.
  intros Hinv Hx. assert (Hl : forall e, e ∈ E k -> e.2 <> x) by (intros e He Hex; destruct (ti_ends _ _ _ _ Hinv k e He) as [_ []]; congruence). unfold esum. induction (E k) as [|e l IH]; [done|]. cbn. rewrite decide_False by (apply Hl; set_solver). rewrite IH; [done|]. intros e' He'. apply Hl. set_solver.
Qed.
Lemma getOrCreate_good E id block storage m created m1 : GInv E m -> lastEvictedSlot m < Slot id -> tipMetadataStorage m !! Slot id = Some storage -> getOrCreate id block storage m = (created, m1) ->
  GInv E m1 /\ grows m m1 /\ is_Some (metas m1 !! id) /\ (created = true -> metas m !! id = None).
Proof.
  intros [H1 H2 H3] Hl Hs. unfold getOrCreate. case_bool_decide as Hin; intros [= <- <-]; [destruct (fr_storage _ H2 _ _ _ Hs Hin) as [_ ?]; done|].
  assert (Hnone : metas m !! id = None) by (destruct (metas m !! id) as [t|] eqn:Et; [destruct (fr_stored _ H2 id t Et Hl) as (s' & Hs' & ?); congruence|done]).
  set (m1 := with_metas _ _). assert (Hlk : forall y, metas m1 !! y = if decide (y = id) then Some (NewBlockMetadata block) else metas m !! y) by (intros y; cbn; rewrite lookup_insert; repeat case_decide; congruence).
  assert (Hends : forall k e, e ∈ E k -> e.1 <> id /\ e.2 <> id) by (intros k e He; destruct (ti_ends _ _ _ _ H1 k e He) as [[? ?] [? ?]]; split; congruence).
  assert (Hsum : forall k x, esum k m1 (E k) x = esum k m (E k) x). { intros k x. specialize (Hends k). unfold esum. induction (E k) as [|e l IH]; [done|]. cbn [zsum]. rewrite IH by (intros e' He'; apply Hends; set_solver). destruct (Hends e) as [? _]; [set_solver|]. assert (mvar k m1 e.1 = mvar k m e.1) as ->; [|done]. unfold mvar. by rewrite Hlk, decide_False. }
  split_and!; [|split; [|done]; intros y [t Ht]; rewrite Hlk; case_decide; by eexists|rewrite Hlk, decide_True by done; by eexists|done].
  split; [| |done].
  - pose proof H1 as []. split.
    + intros k y t. rewrite Hlk. case_decide; [|by apply ti_mon]. intros [= <-]. subst y. cbn. symmetry. specialize (Hends k). induction (E k) as [|e l IH]; [done|]. rewrite filter_cons_False by (apply Hends; set_solver). apply IH. intros e' He'. apply Hends. set_solver.
    + intros k e He. rewrite !Hlk. destruct (Hends k e He). rewrite !decide_False by done. by apply (ti_ends k e).
    + done.
    + intros k y t. rewrite Hlk, Hsum. case_decide; [|by apply ti_count]. intros [= <-] _. subst y. by rewrite (esum_none E k m id H1 Hnone).
    + intros y. rewrite Hlk. change (strongTipSet m1) with (strongTipSet m). rewrite ti_strong. case_decide; [subst; rewrite Hnone|done]. split; intros (u & Hu & Ht); [done|]. injection Hu as <-. discriminate Ht.
    + intros y. rewrite Hlk. change (weakTipSet m1) with (weakTipSet m). rewrite ti_weak. case_decide; [subst; rewrite Hnone|done]. split; intros (u & Hu & Ht); [done|]. injection Hu as <-. discriminate Ht.
  - destruct H2. split; cbn.
    + intros y t Ht Hy. destruct (decide (Slot y = Slot id)) as [Es|Es].
      * rewrite Es, lookup_insert_eq. eexists. split; [done|]. apply lookup_insert_Some in Ht as [[<- _]|[_ Ht]]; [set_solver|]. destruct (fr_stored0 y t Ht Hy) as (s' & Hs' & ?). rewrite Es, Hs in Hs'. injection Hs' as <-. set_solver.
      * rewrite lookup_insert_ne by done. apply lookup_insert_Some in Ht as [[<- _]|[_ Ht]]; [done|]. by apply (fr_stored0 y t).
    + intros slot s y [[<- <-]|[_ Hs']]%lookup_insert_Some Hy.
      * apply elem_of_union in Hy as [->%elem_of_singleton|Hy]; [split; [done|rewrite lookup_insert_eq; by eexists]|]. destruct (fr_storage0 _ _ _ Hs Hy). split; [done|]. rewrite lookup_insert_is_Some'. by right.
      * destruct (fr_storage0 _ _ _ Hs' Hy). split; [done|]. rewrite lookup_insert_is_Some'. by right.
    + intros y t [[<- <-]|[_ Ht]]%lookup_insert_Some; [done|by apply fr_evicted0].
Qed.

(** Blocks refer to blocks of lower rank that are not newer. *)
Definition refers_back (id : BlockID) (block : Block) : Prop := forall parent, parent ∈ parents_with_type block -> (rank parent.2 < rank id)%nat /\ Slot parent.2 <= Slot id.
Hypothesis blocks_refer_back : forall id block, blocks !! id = Some block -> refers_back id block.

Definition unknown m : nat := size (dom blocks ∖ dom (metas m) : gset BlockID).
Lemma unknown_grows m m' : grows m m' -> (unknown m' <= unknown m)%nat.
Proof. intros [Hg _]. unfold unknown. apply subseteq_size. intros y. rewrite !elem_of_difference, !elem_of_dom. intros [? Hn]. split; [done|]. intros Hy. by apply Hn, Hg. Qed.
Lemma unknown_created m m' id : grows m m' -> is_Some (blocks !! id) -> metas m !! id = None -> is_Some (metas m' !! id) -> (unknown m' < unknown m)%nat.
Proof.
  intros [Hg _] Hb Hn Hs. unfold unknown. apply subset_size. split; [intros y; rewrite !elem_of_difference, !elem_of_dom; intros [? Hy]; split; [done|]; intros Hy'; by apply Hy, Hg|]. intros Hsub. specialize (Hsub id). rewrite !elem_of_difference, !elem_of_dom in Hsub.
  destruct Hsub as [_ H]; [split; [done|]; rewrite Hn; by intros []|done].
Qed.

Lemma triggerBlockAdded_good E id m : GInv E m -> exists m', triggerBlockAdded onBlockAdded id m = Ret m' /\ GInv E m' /\ grows m m'.
Proof.
  intros [H1 H2 H3]. unfold triggerBlockAdded. destruct (onBlockAdded id (handlers m)) as [pool x]. destruct (update_good E id (fun t => set_pool (pool_Max (tipPool t) pool) t) (with_handlers x m)) as (m' & Hu & Hg & Hk); [split; [by destruct H1|by destruct H2|done]|done|].
  exists m'. split; [done|]. split; [done|]. apply keeps_grows in Hk as []. done.
Qed.

Lemma forEachParent_good setup id fuel :
  (forall E pid b m, GInv E m -> refers_back pid b -> is_Some (metas m !! pid) -> (unknown m < fuel)%nat -> exists E' m', setup pid b m = Ret m' /\ GInv E' m' /\ grows m m') ->
  forall parents E m, GInv E m -> is_Some (metas m !! id) -> (unknown m <= fuel)%nat -> (forall parent, parent ∈ parents -> (rank parent.2 < rank id)%nat /\ Slot parent.2 <= Slot id) ->
  exists E' m', forEachParentByType blocks setup id parents m = Ret m' /\ GInv E' m' /\ grows m m'.
Proof.
  intros Hsetup. induction parents as [|parent parents IH]; intros E m Hg Hid Hf Hpar; [by exists E, m|]. cbn [forEachParentByType].
  destruct (metadataStorage (Slot parent.2) m) as [o m1] eqn:Em. destruct (metadataStorage_good E _ _ _ _ Hg Em) as (Hg1 & Hm1 & Hl1 & Ho). assert (Hgr1 : grows m m1) by (split; [by rewrite Hm1|done]).
  assert (Hskip : exists E' m', forEachParentByType blocks setup id parents m1 = Ret m' /\ GInv E' m' /\ grows m m').
  { destruct (IH E m1 Hg1) as (E' & m' & ? & ? & ?); [by rewrite Hm1|unfold unknown in *; by rewrite Hm1|intros; apply Hpar; set_solver|]. exists E', m'. split_and!; [done|done|by eapply grows_trans]. }
  destruct o as [storage|]; [|done]. destruct (blocks !! parent.2) as [b|] eqn:Eb; [|done]. destruct (IsRootBlock b); [done|]. destruct Ho as [Ho Hs].
  destruct (getOrCreate parent.2 b storage m1) as [created m2] eqn:Ec. destruct (getOrCreate_good E _ _ _ _ _ _ Hg1 ltac:(rewrite Hl1; done) Hs Ec) as (Hg2 & Hgr2 & Hp2 & Hnew). destruct (Hpar parent) as [Hr Hsl]; [set_solver|].
  assert (Hid2 : is_Some (metas m2 !! id)) by (apply (gr_old _ _ Hgr2); by rewrite Hm1).
  destruct (connect_good E id parent m2 Hg2 Hid2 Hp2 Hr Hsl) as (E3 & m3 & Hc3 & Hg3 & Hk3). rewrite Hc3. cbn [mbind outcome_bind]. apply keeps_grows in Hk3. assert (Hgr3 : grows m m3) by (eapply grows_trans; [exact Hgr1|]; by eapply grows_trans).
  assert (Hstep : exists E4 m4, (if created then setup parent.2 b m3 else Ret m3) = Ret m4 /\ GInv E4 m4 /\ grows m m4).
  { destruct created; [|by exists E3, m3]. destruct (Hsetup E3 parent.2 b m3 Hg3) as (E4 & m4 & ? & ? & ?); [by eapply blocks_refer_back|by apply (gr_old _ _ Hk3)| |exists E4, m4; split_and!; [done|done|by eapply grows_trans]].
    pose proof (unknown_created m m3 parent.2 Hgr3 ltac:(by eexists) ltac:(rewrite <- Hm1; auto) ltac:(by apply (gr_old _ _ Hk3))). lia. }
  destruct Hstep as (E4 & m4 & Hs4 & Hg4 & Hgr4). rewrite Hs4. cbn [mbind outcome_bind]. destruct (IH E4 m4 Hg4) as (E5 & m5 & ? & ? & ?); [by apply (gr_old _ _ Hgr4)|pose proof (unknown_grows _ _ Hgr4); lia|intros; apply Hpar; set_solver|].
  exists E5, m5. split_and!; [done|done|by eapply grows_trans].
Qed.
Lemma setup_good fuel : forall E id b m, GInv E m -> refers_back id b -> is_Some (metas m !! id) -> (unknown m < fuel)%nat -> exists E' m', setupBlockMetadata blocks onBlockAdded fuel id b m = Ret m' /\ GInv E' m' /\ grows m m'.
Proof.
  induction fuel as [|fuel IH]; intros E id b m Hg Hrb Hid Hf; [lia|]. cbn [setupBlockMetadata]. destruct (forEachParent_good (setupBlockMetadata blocks onBlockAdded fuel) id fuel IH (parents_with_type b) E m Hg Hid ltac:(lia) Hrb) as (E1 & m1 & H1 & Hg1 & Hgr1).
  rewrite H1. cbn [mbind outcome_bind]. destruct (triggerBlockAdded_good E1 id m1 Hg1) as (m2 & H2 & Hg2 & Hgr2). exists E1, m2. split_and!; [done|done|by eapply grows_trans].
Qed.
Lemma AddBlock_good E id b m : GInv E m -> refers_back id b -> exists E' r m', AddBlock blocks onBlockAdded id b m = Ret (r, m') /\ GInv E' m' /\ lastEvictedSlot m' = lastEvictedSlot m.
Proof.
  intros Hg Hrb. unfold AddBlock. destruct (metadataStorage (Slot id) m) as [o m1] eqn:Em. destruct (metadataStorage_good E _ _ _ _ Hg Em) as (Hg1 & Hm1 & Hl1 & Ho). destruct o as [storage|]; [|by eexists E, _, _]. destruct Ho as [Ho Hs].
  destruct (getOrCreate id b storage m1) as [created m2] eqn:Ec. destruct (getOrCreate_good E _ _ _ _ _ _ Hg1 ltac:(rewrite Hl1; done) Hs Ec) as (Hg2 & Hgr2 & Hp2 & Hnew). destruct created; [|eexists E, _, m2; split_and!; [done|done|]; rewrite (gr_last _ _ Hgr2); done].
  destruct (setup_good (S (size blocks)) E id b m2 Hg2 Hrb Hp2) as (E3 & m3 & H3 & Hg3 & Hgr3).
  - unfold unknown. assert (size (dom blocks ∖ dom (metas m2)) <= size (dom blocks : gset BlockID))%nat by (apply subseteq_size; set_solver). rewrite size_dom in *. lia.
  - rewrite H3. eexists E3, _, m3. split_and!; [done|done|]. rewrite (gr_last _ _ Hgr3), (gr_last _ _ Hgr2). done.
Qed.
End Ops.

Section Claims.
Context {X : Type} `{!RangeOrder BlockID} (rank : BlockID -> nat).
Implicit Types m : TipManager X.

(** ** Eviction *)
Lemma evict_all_good E ids : forall m, GInv rank E m -> (forall id, id ∈ ids -> Slot id <= lastEvictedSlot m) -> exists m', evict_all ids m = Ret m' /\ GInv rank E m' /\ lastEvictedSlot m' = lastEvictedSlot m.
Proof.
  induction ids as [|id ids IH]; intros m Hg Hids; [by exists m|]. cbn [evict_all]. pose proof Hg as [H1 H2 H3].
  assert (Hstep : exists m1, update_ id set_evicted m = Ret m1 /\ GInv rank E m1 /\ lastEvictedSlot m1 = lastEvictedSlot m).
  { destruct (metas m !! id) as [t|] eqn:Et; [|exists m; unfold update_, modify; by rewrite Et]. destruct (update_inv rank E id set_evicted m t H1 Et) as (m1 & m' & Hi & Hu & [more Hmod] & Hst); [done|done|done|]. exists m'. split; [done|].
    unfold modify in Hmod. rewrite Et in Hmod. injection Hmod as _ <-. pose proof (static_keeps _ _ Hst) as Hk. assert (Hl : lastEvictedSlot m' = lastEvictedSlot m) by (by rewrite (st_last _ _ Hst)). split; [|done]. split; [done| |done].
    eapply keeps_frame; [exact Hk|]. destruct H2. split; cbn.
    - intros y u [[<- <-]|[_ Hu2]]%lookup_insert_Some Hy; [by eapply fr_stored0|by eapply fr_stored0].
    - intros slot s y Hs Hy. destruct (fr_storage0 slot s y Hs Hy). split; [done|]. rewrite lookup_insert_is_Some'. by right.
    - intros y u [[<- <-]|[_ Hu2]]%lookup_insert_Some Hy; [apply Hids; set_solver|by eapply fr_evicted0]. }
  destruct Hstep as (m1 & Hu & Hg1 & Hl1). rewrite Hu. cbn [mbind outcome_bind]. destruct (IH m1 Hg1) as (m2 & H4 & H5 & H6); [intros y Hy; rewrite Hl1; apply Hids; set_solver|]. exists m2. split_and!; [done|done|congruence].
Qed.
Lemma Evict_good E slot m : GInv rank E m -> exists m', Evict slot m = Ret m' /\ GInv rank E m'.
Proof.
  intros [H1 H2 H3]. unfold Evict, markSlotAsEvicted. destruct (lastEvictedSlot m <? slot) eqn:El; [|by exists m]. cbn [lastEvictedSlot tipMetadataStorage with_lastEvicted].
  assert (Hf : forall st, (forall slot' s, st !! slot' = Some s -> tipMetadataStorage m !! slot' = Some s) -> (forall slot' s, slot' <> slot -> tipMetadataStorage m !! slot' = Some s -> st !! slot' = Some s) -> Frame (with_storage st (with_lastEvicted slot m))).
  { intros st Hst1 Hst2. destruct H2. split; cbn; [| |intros id t Ht He; specialize (fr_evicted0 id t Ht He); lia].
    - intros id t Ht Hs. destruct (fr_stored0 id t Ht ltac:(lia)) as (s & Hs' & ?). exists s. split; [|done]. apply Hst2; [lia|done].
    - intros slot' s id Hs. by apply fr_storage0, Hst1. }
  destruct (tipMetadataStorage m !! slot) as [storage|] eqn:Es.
  - destruct (evict_all_good E (range_of (set_to_map (fun id => (id, tt)) storage)).*1 (with_storage (delete slot (tipMetadataStorage m)) (with_lastEvicted slot m))) as (m' & Hm & Hg & _); [split; [by destruct H1| |done]| |by exists m'].
    + apply Hf; [intros slot' s [_ ?]%lookup_delete_Some; done|intros slot' s Hne Hs; by rewrite lookup_delete_ne by done].
    + cbn. intros id ([id' u] & -> & Hin)%list_elem_of_fmap. rewrite range_of_perm in Hin. apply elem_of_map_to_list in Hin. apply lookup_set_to_map in Hin as (y & Hy & [= <- _]); [|done]. destruct (fr_storage _ H2 slot storage y Es Hy) as [<- _]. done.
  - exists (with_lastEvicted slot m). split; [done|]. split; [by destruct H1| |done]. specialize (Hf (tipMetadataStorage m)). apply Hf; [done|done].
Qed.

(** ** Reachable states *)
Inductive TipOp :=
  | OpAdd (blocks : gmap BlockID Block) (onBlockAdded : BlockID -> X -> TipPool * X) (id : BlockID) (block : Block) | OpSetPool (id : BlockID) (pool : TipPool)
  | OpLiveness (id : BlockID) | OpAccepted (id : BlockID) | OpEvictSlot (slot : SlotIndex)
  | OpHandlers (x : X).                          (* the handlers change their own state *)
(** A block ID is a hash over the IDs of the parents, so there is an order in which blocks come after the blocks they refer to; and parents are not newer. *)
Definition tip_op_ok (o : TipOp) : Prop :=
  match o with OpAdd blocks _ id block => refers_back rank id block /\ forall y b, blocks !! y = Some b -> refers_back rank y b | _ => True end.
Definition tip_step (o : TipOp) m : outcome (TipManager X) :=
  match o with
  | OpAdd blocks onBlockAdded id block => '(_, m) ← AddBlock blocks onBlockAdded id block m; Ret m
  | OpSetPool id pool => SetTipPool id pool m
  | OpLiveness id => LivenessThresholdReached id m
  | OpAccepted id => BlockAccepted id m
  | OpEvictSlot slot => Evict slot m
  | OpHandlers x => Ret (with_handlers x m)
  end.
Inductive reachable : TipManager X -> Prop :=
  | reachable_new x : reachable (New x)
  | reachable_step o m m' : reachable m -> tip_op_ok o -> tip_step o m = Ret m' -> reachable m'.

Lemma New_good x : GInv rank (fun _ => []) (New (X := X) x).
Proof. split; [split| split |]; cbn; try done; try set_solver; intros id; (split; [set_solver|]); intros (t & Ht & _); by rewrite lookup_empty in Ht. Qed.
Lemma tip_step_good E o m : GInv rank E m -> tip_op_ok o -> exists E' m', tip_step o m = Ret m' /\ GInv rank E' m'.
Proof.
  intros Hg Hok. destruct o as [blocks onBlockAdded id block|id pool|id|id|slot|x]; cbn [tip_step].
  - destruct Hok as [H1 H2]. destruct (AddBlock_good rank blocks onBlockAdded H2 E id block m Hg H1) as (E' & r & m' & Hr & Hg' & _). rewrite Hr. by exists E', m'.
  - destruct (update_good rank E id (fun t => set_pool (pool_Max (tipPool t) pool) t) m Hg) as (m' & ? & ? & _); [done|by exists E, m'].
  - destruct (update_good rank E id set_liveness m Hg) as (m' & ? & ? & _); [done|by exists E, m'].
  - destruct (update_good rank E id set_accepted m Hg) as (m' & ? & ? & _); [done|by exists E, m'].
  - destruct (Evict_good E slot m Hg) as (m' & ? & ?). by exists E, m'.
  - exists E, (with_handlers x m). split; [done|]. destruct Hg as [H1 H2 H3]. split; [by destruct H1|by destruct H2|done].
Qed.
Lemma tips_reachable_good m : reachable m -> exists E, GInv rank E m.
Proof.
  induction 1 as [x|o m m' _ [E IH] Hok Hs]; [exists (fun _ => []); apply New_good|]. destruct (tip_step_good E o m IH Hok) as (E' & m1 & H1 & H2). exists E'. congruence.
Qed.

(** ** The tips cover the pools *)
(** [c] refers to [p], strongly or not, and [p] follows the connection of [c] to the tips. *)
Definition refers (k : Link) m (c p : BlockID) : Prop := exists t, metas m !! c = Some t /\ p ∈ monitors t k.
Definition refers_any m (c p : BlockID) : Prop := refers StronglyConnected m c p \/ refers Connected m c p.
Lemma edge_refers E k m c p : TInv rank E [] m -> (c, p) ∈ E k -> refers k m c p.
Proof.
  intros Hinv He. destruct (ti_ends _ _ _ _ Hinv k _ He) as [[t Ht] _]. cbn in Ht. exists t. split; [done|]. rewrite (ti_mon _ _ _ _ Hinv k c t Ht). apply list_elem_of_fmap. exists (c, p). split; [done|]. by apply list_elem_of_filter.
Qed.
(** A positive counter has a child that is connected. *)
Lemma counter_pos E k m id t : GInv rank E m -> is_orphan k = false -> metas m !! id = Some t -> lastEvictedSlot m < Slot id -> 0 < counters t k ->
  exists c u, (c, id) ∈ E k /\ metas m !! c = Some u /\ variable k u = true /\ lastEvictedSlot m < Slot c.
Proof.
  intros [H1 H2 H3] Hk Ht Hl Hpos. assert (Hun : unsubscribed k t = false). { destruct (evicted t) eqn:Ee; [pose proof (fr_evicted _ H2 id t Ht Ee); lia|]. by destruct k. }
  pose proof (ti_count _ _ _ _ H1 k id t Ht Hun) as Hc. change (psum k [] id) with 0 in Hc. unfold esum in Hc. destruct (zsum_pos (fun e => if decide (e.2 = id) then b2z (mvar k m e.1) else 0) (E k)) as ([c p] & He & Hv).
  - apply Forall_forall. intros e _. unfold b2z. case_decide; [|lia]. destruct (mvar _ _ _); lia.
  - lia.
  - cbn in Hv. case_decide; [|lia]. subst p. unfold mvar in Hv. destruct (ti_ends _ _ _ _ H1 k _ He) as [[u Hu] _]. cbn in Hu. rewrite Hu in Hv. exists c, u. split_and!; [done|done|by destruct (variable k u)|]. pose proof (H3 k _ Hk He). cbn in *. lia.
Qed.
Lemma counter_referenced E k m id t : GInv rank E m -> is_orphan k = false -> metas m !! id = Some t -> lastEvictedSlot m < Slot id ->
  (exists c u, refers k m c id /\ metas m !! c = Some u /\ variable k u = true) -> 0 < counters t k.
Proof.
  intros [H1 H2 H3] Hk Ht Hl (c & u & (u' & Hu' & Hin) & Hu & Hv). rewrite Hu in Hu'. injection Hu' as <-. assert (Hun : unsubscribed k t = false). { destruct (evicted t) eqn:Ee; [pose proof (fr_evicted _ H2 id t Ht Ee); lia|]. by destruct k. }
  pose proof (ti_count _ _ _ _ H1 k id t Ht Hun) as Hc. change (psum k [] id) with 0 in Hc. unfold esum in Hc. rewrite Z.add_0_r in Hc. rewrite Hc. rewrite (ti_mon _ _ _ _ H1 k c u Hu) in Hin. apply list_elem_of_fmap in Hin as ([a b] & -> & [Ha He]%list_elem_of_filter). cbn in *. subst a.
  pose proof (zsum_elem (fun e => if decide (e.2 = b) then b2z (mvar k m e.1) else 0) (E k) (c, b)) as Hz. assert (Hmv : mvar k m c = true) by (unfold mvar; by rewrite Hu). cbn [fst snd] in Hz. rewrite decide_True, Hmv in Hz by done.
  change (b2z true) with 1 in Hz. enough (1 <= zsum (fun e => if decide (e.2 = b) then b2z (mvar k m e.1) else 0) (E k)) by lia. apply Hz; [|done]. apply Forall_forall. intros e _. cbn beta. unfold b2z. destruct (decide (e.2 = b)); [|lia]. destruct (mvar k m e.1); lia.
Qed.
Lemma strong_cover E m : GInv rank E m -> forall n id t, (above rank m id < n)%nat -> metas m !! id = Some t -> lastEvictedSlot m < Slot id -> isStronglyConnectedToTips t = true -> exists tip, tip ∈ strongTipSet m /\ rtc (refers StronglyConnected m) tip id.
Proof.
  intros Hg. pose proof Hg as [H1 H2 H3]. induction n as [|n IH]; intros id t Hn Ht Hl Hc; [lia|]. destruct (isStronglyReferencedByTips t) eqn:Er.
  - destruct (counter_pos E StronglyConnected m id t Hg eq_refl Ht Hl) as (c & u & He & Hu & Hv & Hlc); [unfold isStronglyReferencedByTips, stronglyConnectedStrongChildren in Er; lia|].
    pose proof (ti_rank _ _ _ _ H1 StronglyConnected _ He) as Hr. cbn in Hr. pose proof (above_lt rank m id c ltac:(by eexists) Hr). destruct (IH c u) as (tip & Htip & Hpath); [lia|done|done|done|]. exists tip. split; [done|]. eapply rtc_r; [exact Hpath|]. by eapply edge_refers.
  - exists id. split; [|done]. apply (ti_strong _ _ _ _ H1). exists t. split; [done|]. unfold isStronglyConnectedToTips in Hc. rewrite Er, orb_false_r in Hc. unfold isStrongTip. by rewrite Hc, Er.
Qed.
Lemma any_cover E m : GInv rank E m -> forall n id t, (above rank m id < n)%nat -> metas m !! id = Some t -> lastEvictedSlot m < Slot id -> isConnectedToTips t = true -> exists tip, tip ∈ strongTipSet m ∪ weakTipSet m /\ rtc (refers_any m) tip id.
Proof.
  intros Hg. pose proof Hg as [H1 H2 H3]. induction n as [|n IH]; intros id t Hn Ht Hl Hc; [lia|].
  assert (Hstrong : isStronglyConnectedToTips t = true -> exists tip, tip ∈ strongTipSet m ∪ weakTipSet m /\ rtc (refers_any m) tip id).
  { intros Hs. destruct (strong_cover E m Hg (S n) id t Hn Ht Hl Hs) as (tip & Htip & Hpath). exists tip. split; [set_solver|]. eapply (rtc_subrel (refers StronglyConnected m)); [|exact Hpath]. intros x y Hxy. by left. }
  destruct (isStronglyConnectedToTips t) eqn:Es; [auto|]. unfold isStronglyConnectedToTips in Es. apply orb_false_iff in Es as [Es1 Es2]. destruct (isWeaklyReferencedByTips t) eqn:Er.
  - destruct (counter_pos E Connected m id t Hg eq_refl Ht Hl) as (c & u & He & Hu & Hv & Hlc); [unfold isWeaklyReferencedByTips, connectedWeakChildren in Er; lia|].
    pose proof (ti_rank _ _ _ _ H1 Connected _ He) as Hr. cbn in Hr. pose proof (above_lt rank m id c ltac:(by eexists) Hr). destruct (IH c u) as (tip & Htip & Hpath); [lia|done|done|done|]. exists tip. split; [done|]. eapply rtc_r; [exact Hpath|]. right. by eapply edge_refers.
  - exists id. split; [|done]. apply elem_of_union_r, (ti_weak _ _ _ _ H1). exists t. split; [done|]. unfold isConnectedToTips, isReferencedByTips in Hc. rewrite Er, Es1, Es2 in Hc. cbn in Hc. unfold isWeakTip, isReferencedByTips. rewrite Hc, Er, Es2. done.
Qed.

(** C14 In every state the tip manager can reach, the tips cover the tip pools: a block of the strong pool that is neither orphaned nor evicted is a strong tip
    or is reached from a strong tip along strong references, and one of the weak pool is a weak tip or is reached from a tip along any
    references.  Conversely strong tips are members of the strong pool without a strong child that is strongly connected, and weak tips members of the weak pool
    without any child that is connected.  The slots that are evicted are left aside. *)
Theorem tips_cover_pools m id t : reachable m -> metas m !! id = Some t -> lastEvictedSlot m < Slot id ->
  (isStrongTipPoolMember t = true -> exists tip, tip ∈ strongTipSet m /\ rtc (refers StronglyConnected m) tip id)
  /\ (isWeakTipPoolMember t = true -> exists tip, tip ∈ strongTipSet m ∪ weakTipSet m /\ rtc (refers_any m) tip id)
  /\ (id ∈ strongTipSet m <-> isStrongTipPoolMember t = true /\ ~ exists c u, refers StronglyConnected m c id /\ metas m !! c = Some u /\ isStronglyConnectedToTips u = true)
  /\ (id ∈ weakTipSet m <-> isWeakTipPoolMember t = true /\ (~ exists c u, refers StronglyConnected m c id /\ metas m !! c = Some u /\ isStronglyConnectedToTips u = true)
        /\ ~ exists c u, refers Connected m c id /\ metas m !! c = Some u /\ isConnectedToTips u = true).
Proof.
  intros Hr Ht Hl. destruct (tips_reachable_good m Hr) as [E Hg]. pose proof Hg as [H1 H2 H3].
  assert (Hcount : forall k, is_orphan k = false -> (0 <? counters t k) = true <-> exists c u, refers k m c id /\ metas m !! c = Some u /\ variable k u = true).
  { intros k Hk. rewrite Z.ltb_lt. split; [intros Hpos; destruct (counter_pos E k m id t Hg Hk Ht Hl Hpos) as (c & u & He & Hu & Hv & _); exists c, u; split_and!; [by eapply edge_refers|done|done]|]. by apply (counter_referenced E). }
  pose proof (Hcount StronglyConnected eq_refl) as Hsc. pose proof (Hcount Connected eq_refl) as Hcn. cbn [variable] in Hsc, Hcn. split_and!.
  - intros Hm. apply (strong_cover E m Hg (S (above rank m id)) id t); [lia|done|done|]. unfold isStronglyConnectedToTips. by rewrite Hm.
  - intros Hm. apply (any_cover E m Hg (S (above rank m id)) id t); [lia|done|done|]. unfold isConnectedToTips. rewrite Hm. by rewrite orb_true_r.
  - rewrite (ti_strong _ _ _ _ H1), <- Hsc. unfold isStrongTip, isStronglyReferencedByTips, stronglyConnectedStrongChildren in *. split.
    + intros (u & Hu & [Hm Hn]%andb_true_iff). rewrite Ht in Hu. injection Hu as <-. split; [done|]. intros Hp. by rewrite Hp in Hn.
    + intros [Hm Hn]. exists t. split; [done|]. rewrite Hm. cbn. destruct (0 <? counters t StronglyConnected); [by destruct Hn|done].
  - rewrite (ti_weak _ _ _ _ H1), <- Hsc, <- Hcn. unfold isWeakTip, isReferencedByTips, isWeaklyReferencedByTips, isStronglyReferencedByTips, stronglyConnectedStrongChildren, connectedWeakChildren in *. split.
    + intros (u & Hu & [Hm Hn]%andb_true_iff). rewrite Ht in Hu. injection Hu as <-. apply negb_true_iff, orb_false_iff in Hn as [-> ->]. split_and!; done.
    + intros (Hm & Hn1 & Hn2). exists t. split; [done|]. rewrite Hm. cbn. destruct (0 <? counters t StronglyConnected), (0 <? counters t Connected); naive_solver.
Qed.

(** C16 Every operation of the tip manager returns: the signals about orphaned parents and connected children that one change sets off are
    finitely many, setting up a block and its ancestors that are not known yet ends, and no metadata object is missing. *)
Theorem tip_operations_return m o : reachable m -> tip_op_ok o -> exists m', tip_step o m = Ret m' /\ reachable m'.
Proof.
  intros Hr Hok. destruct (tips_reachable_good m Hr) as [E Hg]. destruct (tip_step_good E o m Hg Hok) as (E' & m' & Hs & _). exists m'. split; [done|]. by eapply reachable_step.
Qed.
End Claims.

(** ** Example *)
Module TipDemo.
#[local] Instance demo_order : RangeOrder BlockID := canonical_order BlockID.
Definition bid (n slot : Z) : BlockID := mkBlockID n slot.
Definition demo_rank (id : BlockID) : nat := Z.to_nat (bid_hash id).
Definition block (n slot : Z) (parents : list (ParentsType * BlockID)) : Block := NewBlock (mkModelBlock (bid n slot) 0 0 (mkCommitmentID 0 0) Basic parents 1).
Definition b1 : Block := block 1 1 [].
Definition b2 : Block := block 2 1 [(StrongParentType, bid 1 1)].
Definition b3 : Block := block 3 2 [(WeakParentType, bid 1 1); (StrongParentType, bid 2 1)].
Definition b4 : Block := block 4 2 [(StrongParentType, bid 2 1)].
Definition demo_blocks : gmap BlockID Block := {[bid 1 1 := b1; bid 2 1 := b2; bid 3 2 := b3; bid 4 2 := b4]}.
(** Block 4 goes to the weak pool. *)
Definition handler (id : BlockID) (n : nat) : TipPool * nat := (if bid_hash id =? 4 then WeakTipPool else StrongTipPool, S n).
Definition script : list (TipOp (X := nat)) := [OpAdd demo_blocks handler (bid 3 2) b3; OpAdd demo_blocks handler (bid 4 2) b4; OpLiveness (bid 3 2)].
Definition run_script {X} (x : X) (l : list (TipOp (X := X))) : outcome (TipManager X) := foldl (fun o op => m ← o; tip_step op m) (Ret (New x)) l.
Definition final : TipManager nat := match run_script O script with Ret m => m | _ => New O end.

Lemma demo_refers id b : demo_blocks !! id = Some b -> refers_back demo_rank id b.
Proof.
  unfold demo_blocks. rewrite !lookup_insert_Some, lookup_singleton_Some. intros H parent Hin. repeat destruct H as [[<- <-]|[_ H]]; [..|destruct H as [<- <-]]; cbn in Hin; repeat (apply elem_of_cons in Hin as [->|Hin]; [vm_compute; split; [lia|done]|]); by apply elem_of_nil in Hin.
Qed.
Lemma script_reachable {X} (l : list (TipOp (X := X))) : Forall (tip_op_ok demo_rank) l -> forall m m', reachable demo_rank m -> foldl (fun o op => m ← o; tip_step op m) (Ret m) l = Ret m' -> reachable demo_rank m'.
Proof.
  induction 1 as [|o l Ho _ IH]; intros m m' Hr; cbn [foldl]; [by intros [= <-]|]. cbn [mbind outcome_bind]. destruct (tip_step o m) as [m1| |] eqn:E; [intros H; apply (IH m1 m'); [by eapply reachable_step|done]|..]; intros H; exfalso; revert H; clear; induction l; cbn; auto; discriminate.
Qed.
Lemma demo_script_ok : Forall (tip_op_ok demo_rank) script.
Proof.
  assert (Hadd : forall id b, demo_blocks !! id = Some b -> tip_op_ok demo_rank (OpAdd demo_blocks handler id b)) by (intros id b Hb; split; [by apply demo_refers|apply demo_refers]).
  apply Forall_cons. split; [by apply Hadd|]. apply Forall_cons. split; [by apply Hadd|]. by apply Forall_singleton.
Qed.
Lemma final_tips_reachable : reachable demo_rank final.
Proof. apply (script_reachable script demo_script_ok (New O) final); [constructor|by vm_compute]. Qed.

(** Block 3 is orphaned, so block 2 is a strong tip again and covers block 1. *)
Lemma tips_cover_pools_witness : (exists t, metas final !! bid 1 1 = Some t /\ isStrongTipPoolMember t = true) /\ strongTipSet final = {[bid 2 1]} /\ weakTipSet final = {[bid 4 2]} /\
  forall t, metas final !! bid 1 1 = Some t -> isStrongTipPoolMember t = true -> exists tip, tip ∈ strongTipSet final /\ rtc (refers StronglyConnected final) tip (bid 1 1).
Proof.
  split; [eexists; split; [vm_compute; reflexivity|by vm_compute]|]. split; [by vm_compute|]. split; [by vm_compute|]. intros t Ht. apply (tips_cover_pools demo_rank final (bid 1 1) t final_tips_reachable Ht). by vm_compute.
Defined.
Lemma tip_operations_return_witness : exists m', tip_step (OpEvictSlot 1) final = Ret m' /\ reachable demo_rank m'.
Proof. apply (tip_operations_return demo_rank final (OpEvictSlot 1) final_tips_reachable). done. Defined.
End TipDemo.
