(* ===== verification/TipSelection.v ===== *)
(** * Tip selection (pkg/protocol/engine/tipselection/v1)

    Classifies the blocks of the tip manager, marks tips that reached the liveness threshold, and selects the parents of new blocks: strong tips with the
    liked instead references they need, weak tips, and root blocks when there are no strong tips.

    Parameters: what is read of the conflict DAG and the mempool ([ConflictView]), the block objects, the liveness threshold, random maps and the timed
    queue; the order in which maps and sets are visited.  The conflict DAG does not change during a selection (it is locked).  Blocks in the tip manager have data,
    so their issuing time is defined. *)
From S2P Require Import Prelude Block Float64 Weight Walker TipManager.

Record ConflictView := mkConflictView {
  AcceptanceState : gset TransactionID -> State;
  LikedInstead : gset TransactionID -> gset TransactionID;
  ValidAttachments : TransactionID -> option (list BlockID);    (* of the transaction's metadata, if it exists *)
}.
(** model.ParentReferences *)
Record ParentReferences := mkReferences { strongParents : list BlockID; weakParents : list BlockID; shallowLikeParents : list BlockID }.
Record Options := mkOptions { optMaxStrongParents : Z; optMaxLikedInsteadReferences : Z; optMaxLikedInsteadReferencesPerParent : Z; optMaxWeakReferences : Z }.
Definition default_options : Options := mkOptions 8 8 4 8.

(** The errors of the loops below: a step that fails ends the loop. *)
Fixpoint fold_tips {A M} (body : BlockID -> A -> M -> outcome (A * M)) (tips : list BlockID) (acc : A) (m : M) : outcome (A * M) :=
  match tips with [] => Ret (acc, m) | tip :: tips => '(acc, m) ← body tip acc m; fold_tips body tips acc m end.

Section Selection.
Context {Q : Type} `{!TimedQueue BlockID Q} `{!TipOrder} `{!RangeOrder TransactionID}
  (options : Options) (object : BlockID -> Block) (livenessThreshold : BlockID -> Z) (rootBlocks : list BlockID) (view : ConflictView).

Record TipSelection := mkTipSelection { livenessThresholdQueue : Q; acceptanceTime : Z }.
Definition New : TipSelection := mkTipSelection q_empty 0.
Abbreviation M := (TipManager TipSelection).

Definition isValidStrongTip (block : Block) : bool := negb (bool_decide (AcceptanceState view (conflictIDs block) = Rejected)).
Definition isValidWeakTip (block : Block) : bool := bool_decide (LikedInstead view (payloadConflictIDs block) = ∅).
Definition issuing_time (id : BlockID) : Z := match block_issuingTime (object id) with Ret t => t | _ => 0 end.
Definition due (id : BlockID) : Z := issuing_time id + livenessThreshold id.
(** The handler of BlockAdded. *)
Definition classifyTip (id : BlockID) (s : TipSelection) : TipPool * TipSelection :=
  (if isValidStrongTip (object id) then StrongTipPool else if isValidWeakTip (object id) then WeakTipPool else DroppedTipPool,
   mkTipSelection (q_push id (due id) (livenessThresholdQueue s)) (acceptanceTime s)).

(** *** Liveness *)
Definition with_queue (q : Q) (m : M) : M := with_handlers (mkTipSelection q (acceptanceTime (handlers m))) m.
Fixpoint check_liveness (threshold : Z) (tips : list BlockID) (m : M) : outcome M :=
  match tips with
  | [] => Ret m
  | tip :: tips =>
      m ← (if threshold <? due tip then Ret (with_queue (q_push tip (due tip) (livenessThresholdQueue (handlers m))) m) else LivenessThresholdReached tip m);
      check_liveness threshold tips m
  end.
Definition triggerLivenessThreshold (threshold : Z) (m : M) : outcome M :=
  let '(tips, q) := q_pop_until threshold (livenessThresholdQueue (handlers m)) in check_liveness threshold tips (with_queue q m).
Definition monotonicallyIncreasing (currentTime newTime : Z) : Z := if newTime <? currentTime then currentTime else newTime.
(** The previous value, and the callback when the value changed. *)
Definition SetAcceptanceTime (time : Z) (m : M) : outcome (Z * M) :=
  let previous := acceptanceTime (handlers m) in
  let new := monotonicallyIncreasing previous time in
  if new =? previous then Ret (previous, m)
  else m ← triggerLivenessThreshold new (with_handlers (mkTipSelection (livenessThresholdQueue (handlers m)) new) m); Ret (previous, m).

(** *** Liked instead references *)
(** The attachment for every liked conflict; [None] if a transaction is unknown. *)
Definition necessaryReferences (conflicts : gset TransactionID) : option (gmap TransactionID BlockID) :=
  foldl (fun r likedConflictID => r ← r; attachments ← ValidAttachments view likedConflictID; Some (<[likedConflictID := default emptyBlockID (head attachments)]> r))
    (Some ∅) (range_of (set_to_map (fun c => (c, tt)) (LikedInstead view conflicts))).*1.
Definition add_reference (r : list BlockID * gset TransactionID) (e : TransactionID * BlockID) : list BlockID * gset TransactionID :=
  if bool_decide (e.1 ∈ r.2) then r else (r.1 ++ [e.2], {[e.1]} ∪ r.2).
Definition likedInsteadReferences (likedConflicts : gset TransactionID) (tip : BlockID) : option (list BlockID * gset TransactionID) :=
  necessary ← necessaryReferences (conflictIDs (object tip));
  let '(references, updatedLikedConflicts) := foldl add_reference ([], likedConflicts) (range_of necessary) in
  if optMaxLikedInsteadReferencesPerParent options <? Z.of_nat (length references) then None else Some (references, updatedLikedConflicts).

(** *** Selecting tips *)
(** The unique tips among those the selector offers, at most [amount]. *)
Fixpoint unique_tips (amount : Z) (tips : list BlockID) (seenTips : gset BlockID) (uniqueTips : list BlockID) : list BlockID * gset BlockID :=
  match tips with
  | [] => (uniqueTips, seenTips)
  | tip :: tips =>
      if bool_decide (tip ∈ seenTips) then unique_tips amount tips seenTips uniqueTips
      else
        let uniqueTips := uniqueTips ++ [tip] in
        let seenTips := {[tip]} ∪ seenTips in
        if Z.of_nat (length uniqueTips) =? amount then (uniqueTips, seenTips) else unique_tips amount tips seenTips uniqueTips
  end.
Definition selectUniqueTips (tipSelector : option Z -> M -> list BlockID) (amount : Z) (seenTips : gset BlockID) (m : M) : list BlockID * gset BlockID :=
  if 0 <? amount then unique_tips amount (tipSelector (Some (amount + Z.of_nat (size seenTips))) m) seenTips [] else ([], seenTips).
(** The loop of collectReferences; every round sees new tips. *)
Fixpoint collect {A} (tipSelector : option Z -> M -> list BlockID) (callback : BlockID -> A -> M -> outcome (A * M)) (references : A -> list BlockID) (amount : Z)
    (fuel : nat) (tipCandidates : list BlockID) (seenTips : gset BlockID) (acc : A) (m : M) : outcome (A * M) :=
  match tipCandidates with
  | [] => Ret (acc, m)
  | _ :: _ =>
      match fuel with
      | O => OutOfFuel
      | S fuel =>
          '(acc, m) ← fold_tips callback tipCandidates acc m;
          let '(tipCandidates, seenTips) := selectUniqueTips tipSelector (amount - Z.of_nat (length (references acc))) seenTips m in
          collect tipSelector callback references amount fuel tipCandidates seenTips acc m
      end
  end.
Definition collectReferences {A} (tipSelector : option Z -> M -> list BlockID) (callback : BlockID -> A -> M -> outcome (A * M)) (references : A -> list BlockID) (amount : Z) (acc : A) (m : M) : outcome (A * M) :=
  let '(tipCandidates, seenTips) := selectUniqueTips tipSelector amount ∅ m in
  collect tipSelector callback references amount (S (size (metas m))) tipCandidates seenTips acc m.

(** The references and the conflicts that are liked by them. *)
Definition select_strong (tip : BlockID) (acc : ParentReferences * gset TransactionID) (m : M) : outcome (ParentReferences * gset TransactionID * M) :=
  let '(references, liked) := acc in
  match likedInsteadReferences liked tip with
  | None => m ← SetTipPool tip WeakTipPool m; Ret (references, liked, m)
  | Some (added, updated) =>
      if Z.of_nat (length added) <=? optMaxLikedInsteadReferences options - Z.of_nat (length (shallowLikeParents references))
      then Ret (mkReferences (strongParents references ++ [tip]) (weakParents references) (shallowLikeParents references ++ added), updated, m)
      else Ret (references, liked, m)
  end.
Definition select_weak (tip : BlockID) (references : ParentReferences) (m : M) : outcome (ParentReferences * M) :=
  if negb (isValidWeakTip (object tip)) then m ← SetTipPool tip DroppedTipPool m; Ret (references, m)
  else if bool_decide (tip ∈ shallowLikeParents references) then Ret (references, m)
  else Ret (mkReferences (strongParents references) (weakParents references ++ [tip]) (shallowLikeParents references), m).
Definition or_root_blocks (references : ParentReferences) : ParentReferences :=
  match strongParents references with
  | [] => mkReferences (take (Z.to_nat (Z.min (Z.of_nat (length rootBlocks)) (optMaxStrongParents options))) rootBlocks) (weakParents references) (shallowLikeParents references)
  | _ :: _ => references
  end.
Definition SelectTips (amount : Z) (m : M) : outcome (ParentReferences * M) :=
  '(references, _, m) ← collectReferences StrongTips select_strong (fun acc => strongParents acc.1) amount (mkReferences [] [] [], ∅) m;
  collectReferences WeakTips select_weak weakParents (optMaxWeakReferences options) (or_root_blocks references) m.
End Selection.
Arguments TipSelection : clear implicits.

(** ** The liveness threshold (provider.go)

    Durations in nanoseconds; [None] where Go leaves the conversion of a float undefined. *)
Definition fone : float64 := of_Z 1.
(** [math.Min]; a NaN is returned. *)
Definition math_Min (x y : float64) : float64 := if is_nan x then x else if is_nan y then y else fmin x y.
Definition DynamicLivenessThreshold (lowerBound upperBound committeeSize witnessCount : Z) : option Z :=
  let livenessWindow := of_Z (i64 (upperBound - lowerBound)) in
  expectedWitnessCount ← ceil_to_int64 (fdiv (of_Z committeeSize) (of_Z 3));
  let approvalModifier := math_Min (fdiv (of_Z witnessCount) (of_Z expectedWitnessCount)) fone in
  d ← to_int64 (fmul approvalModifier livenessWindow);
  Some (i64 (lowerBound + d)).

(** * The parents that tip selection returns

    Selection always ends, and the references it returns respect the limits. *)
From S2P Require Import TipManagerProps TipManagerClaims.

Lemma unique_tips_spec amount tips : forall seen acc out seen', Z.of_nat (length acc) < amount -> unique_tips amount tips seen acc = (out, seen') ->
  exists new, out = acc ++ new /\ NoDup new /\ (forall x, x ∈ new -> x ∈ tips /\ x ∉ seen) /\ seen' = seen ∪ list_to_set new /\ Z.of_nat (length out) <= amount.
Proof.
  induction tips as [|tip tips IH]; intros seen acc out seen' Hl; cbn [unique_tips]; [intros [= <- <-]; exists []; rewrite (right_id_L [] (++)); split_and!; [done|constructor|set_solver|set_solver|lia]|]. case_bool_decide as Hin.
  - intros H. destruct (IH _ _ _ _ Hl H) as (new & ? & ? & Hn & ? & ?). exists new. split_and!; [done|done|intros x Hx; destruct (Hn x Hx); set_solver|done|done].
  - destruct (Z.of_nat (length (acc ++ [tip])) =? amount) eqn:El.
    + intros [= <- <-]. exists [tip]. split_and!; [done|apply NoDup_singleton|intros x ->%list_elem_of_singleton; set_solver|set_solver|lia].
    + apply Z.eqb_neq in El. assert (Hl2 : Z.of_nat (length (acc ++ [tip])) < amount) by (rewrite length_app in *; cbn in *; lia). intros H. destruct (IH _ _ _ _ Hl2 H) as (new & -> & Hnd & Hn & -> & ?). exists (tip :: new). split_and!; [by rewrite <- app_assoc| |intros x [->|Hx]%elem_of_cons; [set_solver|destruct (Hn x Hx); set_solver]|set_solver|done].
      apply NoDup_cons. split; [|done]. intros Hx. destruct (Hn tip Hx). set_solver.
Qed.

Section Props.
Context {Q : Type} `{!TimedQueue BlockID Q} `{!TipOrder} `{!TipOrderSpec _} `{!RangeOrder TransactionID} `{!RangeOrder BlockID} (rank : BlockID -> nat).
Implicit Types m : TipManager (TipSelection Q).

Section Collect.
Context {A : Type} (tipSelector : option Z -> TipManager (TipSelection Q) -> list BlockID) (callback : BlockID -> A -> TipManager (TipSelection Q) -> outcome (A * TipManager (TipSelection Q)))
  (references : A -> list BlockID) (D : gset BlockID) (P : A -> Prop) (R : TipManager (TipSelection Q) -> Prop).
Hypothesis selector_known : forall n m id, R m -> id ∈ tipSelector (Some n) m -> id ∈ D.
Hypothesis callback_adds : forall tip acc m, R m -> P acc -> exists acc' m', callback tip acc m = Ret (acc', m') /\ R m' /\ P acc' /\ (references acc' = references acc \/ references acc' = references acc ++ [tip]).

Lemma selectUniqueTips_spec amount seen m out seen' : R m -> selectUniqueTips tipSelector amount seen m = (out, seen') ->
  NoDup out /\ (forall x, x ∈ out -> x ∈ D /\ x ∉ seen) /\ seen' = seen ∪ list_to_set out /\ (out <> [] -> Z.of_nat (length out) <= amount).
Proof.
  intros HR. unfold selectUniqueTips. destruct (0 <? amount) eqn:Ea; [|intros [= <- <-]; split_and!; [constructor|set_solver|set_solver|done]].
  intros Hu. destruct (unique_tips_spec amount _ _ [] _ _ ltac:(cbn; lia) Hu) as (new & -> & Hnd & Hn & -> & Hl). cbn [app] in *. split_and!; [done|intros x Hx; destruct (Hn x Hx); split; [by eapply selector_known|done]|done|done].
Qed.
Lemma fold_tips_spec tips : forall acc m, R m -> P acc -> NoDup (references acc ++ tips) -> exists acc' m', fold_tips callback tips acc m = Ret (acc', m') /\ R m' /\ P acc' /\ NoDup (references acc')
    /\ (forall x, x ∈ references acc' -> x ∈ references acc \/ x ∈ tips) /\ (length (references acc') <= length (references acc) + length tips)%nat.
Proof.
  induction tips as [|tip tips IH]; intros acc m HR HP Hnd; cbn [fold_tips].
  - rewrite (right_id_L [] (++)) in Hnd. exists acc, m. split_and!; [done|done|done|done|auto|cbn; lia].
  - destruct (callback_adds tip acc m HR HP) as (acc1 & m1 & H1 & HR1 & HP1 & Hr). rewrite H1. cbn [mbind outcome_bind].
    assert (Hsub : NoDup (references acc1 ++ tips)) by (destruct Hr as [->| ->]; [apply NoDup_app in Hnd as (? & Hd & ?%NoDup_cons); apply NoDup_app; split_and!; [done|intros x Hx Hx'; apply (Hd x Hx); set_solver|tauto]|by rewrite <- app_assoc]).
    destruct (IH acc1 m1 HR1 HP1 Hsub) as (acc2 & m2 & H2 & HR2 & HP2 & Hnd2 & Hin2 & Hl2). exists acc2, m2. split_and!; [done|done|done|done| |].
    + intros x Hx. destruct (Hin2 x Hx) as [Hx1|Hx1]; [|set_solver]. destruct Hr as [E|E]; rewrite E in Hx1; set_solver.
    + cbn [length]. destruct Hr as [E|E]; rewrite E in Hl2; [lia|]. rewrite length_app in Hl2. cbn in Hl2. lia.
Qed.
Lemma collect_spec amount fuel : forall cands seen acc m, R m -> P acc -> NoDup (references acc) -> NoDup cands -> (forall x, x ∈ cands -> x ∈ D /\ x ∈ seen /\ x ∉ references acc) -> (forall x, x ∈ references acc -> x ∈ seen) ->
  (Z.of_nat (length (references acc)) <= Z.max 0 amount) -> (cands <> [] -> Z.of_nat (length (references acc)) + Z.of_nat (length cands) <= amount) -> (size (D ∖ seen) < fuel)%nat ->
  exists acc' m', collect tipSelector callback references amount fuel cands seen acc m = Ret (acc', m') /\ R m' /\ P acc' /\ NoDup (references acc') /\ Z.of_nat (length (references acc')) <= Z.max 0 amount.
Proof.
  induction fuel as [|fuel IH]; intros cands seen acc m HR HP Hnd Hndc Hc Hr Hla Hl Hf; [lia|]. destruct cands as [|c cands]; cbn [collect]; [by exists acc, m|].
  destruct (fold_tips_spec (c :: cands) acc m HR HP) as (acc1 & m1 & H1 & HR1 & HP1 & Hnd1 & Hin1 & Hl1); [apply NoDup_app; split_and!; [done|intros x Hx Hx'; by destruct (Hc x Hx') as (_ & _ & ?)|done]|]. rewrite H1. cbn [mbind outcome_bind].
  destruct (selectUniqueTips tipSelector (amount - Z.of_nat (length (references acc1))) seen m1) as [cands' seen'] eqn:Es. destruct (selectUniqueTips_spec _ _ _ _ _ HR1 Es) as (Hnd' & Hn' & -> & Hl'). specialize (Hl ltac:(done)). cbn [length] in Hl, Hl1.
  assert (Hseen : forall x, x ∈ references acc1 -> x ∈ seen) by (intros x Hx; destruct (Hin1 x Hx) as [?|Hx']; [auto|by destruct (Hc x Hx') as (_ & ? & _)]).
  destruct cands' as [|c' cands']; [destruct fuel; cbn [collect]; exists acc1, m1; split_and!; try done; lia|]. specialize (Hl' ltac:(done)).
  assert (Hsize : (size (D ∖ (seen ∪ list_to_set (c' :: cands'))) < size (D ∖ seen))%nat). { apply subset_size. split; [set_solver|]. destruct (Hn' c') as [H2 H3]; [set_solver|]. set_solver. }
  apply IH; try done; try lia.
  - intros x Hx. destruct (Hn' x Hx) as [H2 H3]. split_and!; [done|apply elem_of_union_r, elem_of_list_to_set; done|]. intros Hx'. by apply H3, Hseen.
  - intros x Hx. apply elem_of_union_l. auto.
Qed.
Lemma collectReferences_spec amount acc m : R m -> P acc -> references acc = [] -> dom (metas m) = D ->
  exists acc' m', collectReferences tipSelector callback references amount acc m = Ret (acc', m') /\ R m' /\ P acc' /\ NoDup (references acc') /\ Z.of_nat (length (references acc')) <= Z.max 0 amount.
Proof.
  intros HR HP Hr Hd. unfold collectReferences. destruct (selectUniqueTips tipSelector amount ∅ m) as [cands seen] eqn:Es. destruct (selectUniqueTips_spec _ _ _ _ _ HR Es) as (Hnd & Hn & -> & Hl). apply collect_spec; rewrite ?Hr; try done; try (cbn; lia).
  - constructor.
  - intros x Hx. destruct (Hn x Hx). split_and!; [done|apply elem_of_union_r, elem_of_list_to_set; done|set_solver].
  - set_solver.
  - rewrite <- (size_dom (D := gset BlockID)), Hd. assert (size (D ∖ (∅ ∪ list_to_set cands)) <= size D)%nat by (apply subseteq_size; set_solver). lia.
Qed.
End Collect.

(** ** Selections on reachable states *)
Definition stable (D : gset BlockID) m : Prop := reachable rank m /\ dom (metas m) = D.
Lemma SetTipPool_stable D id pool m : stable D m -> exists m', SetTipPool id pool m = Ret m' /\ stable D m'.
Proof.
  intros [Hr Hd]. destruct (tips_reachable_good rank m Hr) as [E Hg]. destruct (update_good rank E id (fun t => set_pool (pool_Max (tipPool t) pool) t) m Hg) as (m' & Hm & _ & Hk); [done|]. exists m'. split; [done|]. split; [by apply (reachable_step rank (OpSetPool id pool) m)|].
  rewrite <- Hd. apply set_eq. intros y. rewrite !elem_of_dom. split; [by apply (kp_old _ _ Hk)|]. intros [t Ht]. destruct (kp_meta _ _ Hk y t Ht) as (t' & ? & _). by eexists.
Qed.
Lemma strong_tips_known D n m id : stable D m -> id ∈ StrongTips (Some n) m -> id ∈ D.
Proof. intros [Hr <-] Hin. apply entries_subset in Hin. destruct (tips_reachable_good rank m Hr) as [E Hg]. apply (ti_strong _ _ _ _ (gi_inv _ _ _ Hg)) in Hin as (t & Ht & _). by apply elem_of_dom_2 in Ht. Qed.
Lemma weak_tips_known D n m id : stable D m -> id ∈ WeakTips (Some n) m -> id ∈ D.
Proof. intros [Hr <-] Hin. apply entries_subset in Hin. destruct (tips_reachable_good rank m Hr) as [E Hg]. apply (ti_weak _ _ _ _ (gi_inv _ _ _ Hg)) in Hin as (t & Ht & _). by apply elem_of_dom_2 in Ht. Qed.

Context (options : Options) (object : BlockID -> Block) (rootBlocks : list BlockID) (view : ConflictView).
Hypothesis options_ok : 0 <= optMaxLikedInsteadReferences options /\ 0 <= optMaxWeakReferences options /\ 0 <= optMaxStrongParents options.

Definition strong_ok (acc : ParentReferences * gset TransactionID) : Prop := weakParents acc.1 = [] /\ Z.of_nat (length (shallowLikeParents acc.1)) <= optMaxLikedInsteadReferences options.
Lemma select_strong_adds D tip acc m : stable D m -> strong_ok acc -> exists acc' m', select_strong options object view tip acc m = Ret (acc', m') /\ stable D m' /\ strong_ok acc' /\
  (strongParents acc'.1 = strongParents acc.1 \/ strongParents acc'.1 = strongParents acc.1 ++ [tip]).
Proof.
  intros Hst [Hw Hl]. destruct acc as [refs liked]. cbn [fst] in *. unfold select_strong. destruct (likedInsteadReferences options object view liked tip) as [[added updated]|].
  - destruct (_ <=? _) eqn:Ele; [|exists (refs, liked), m; split_and!; [done|done|done|by left]]. eexists _, m. split_and!; [done|done| |by right]. split; [done|]. cbn. rewrite length_app. lia.
  - destruct (SetTipPool_stable D tip WeakTipPool m Hst) as (m' & Hm & Hst'). rewrite Hm. exists (refs, liked), m'. split_and!; [done|done|done|by left].
Qed.
Definition weak_ok (strong shallow : list BlockID) (refs : ParentReferences) : Prop := strongParents refs = strong /\ shallowLikeParents refs = shallow /\ forall x, x ∈ weakParents refs -> x ∉ shallow.
Lemma select_weak_adds D strong shallow tip refs m : stable D m -> weak_ok strong shallow refs -> exists refs' m', select_weak object view tip refs m = Ret (refs', m') /\ stable D m' /\ weak_ok strong shallow refs' /\
  (weakParents refs' = weakParents refs \/ weakParents refs' = weakParents refs ++ [tip]).
Proof.
  intros Hst (H1 & H2 & H3). unfold select_weak. destruct (negb _).
  - destruct (SetTipPool_stable D tip DroppedTipPool m Hst) as (m' & Hm & Hst'). rewrite Hm. exists refs, m'. split_and!; [done|done|done|by left].
  - case_bool_decide as Hin; [exists refs, m; split_and!; [done|done|done|by left]|]. eexists _, m. split_and!; [done|done| |by right]. split_and!; [done|done|]. cbn. intros x [Hx| ->%list_elem_of_singleton]%elem_of_app; [auto|by rewrite <- H2].
Qed.

(** C15 In every reachable state of the tip manager selecting tips ends and returns references within the limits: at most the requested amount of strong parents, each once, or, when no tip qualifies, a prefix of the root blocks of at most the allowed length, each
    once if the root blocks are; at most the allowed number of weak parents, each once and none among the shallow likes; and at most the allowed number of shallow likes, which may repeat (two liked conflicts without attachments give the empty ID twice).
    The tip manager is left in a reachable state. *)
Theorem selection_within_limits m amount : reachable rank m -> exists refs m', SelectTips options object rootBlocks view amount m = Ret (refs, m') /\ reachable rank m' /\
  (NoDup (strongParents refs) /\ Z.of_nat (length (strongParents refs)) <= Z.max 0 amount \/ strongParents refs `prefix_of` rootBlocks /\ Z.of_nat (length (strongParents refs)) <= optMaxStrongParents options /\ (NoDup rootBlocks -> NoDup (strongParents refs)))
  /\ NoDup (weakParents refs) /\ Z.of_nat (length (weakParents refs)) <= optMaxWeakReferences options
  /\ Z.of_nat (length (shallowLikeParents refs)) <= optMaxLikedInsteadReferences options /\ (forall x, x ∈ weakParents refs -> x ∉ shallowLikeParents refs).
Proof.
  intros Hr. destruct options_ok as (Ho1 & Ho2 & Ho3). set (D := dom (metas m) : gset BlockID). assert (Hst : stable D m) by done. unfold SelectTips.
  destruct (collectReferences_spec StrongTips (select_strong options object view) (fun acc => strongParents acc.1) D strong_ok (stable D)) with (amount := amount) (acc := (mkReferences [] [] [], ∅ : gset TransactionID)) (m := m) as ([refs liked] & m1 & H1 & Hst1 & [Hw Hl] & Hnd & Hlen); try done.
  { intros n m1 id. apply strong_tips_known. } { intros. by apply select_strong_adds. }
  rewrite H1. cbn [mbind outcome_bind]. cbn [fst] in *. set (refs1 := or_root_blocks options rootBlocks refs).
  assert (Hstrong : NoDup (strongParents refs1) /\ Z.of_nat (length (strongParents refs1)) <= Z.max 0 amount \/ strongParents refs1 `prefix_of` rootBlocks /\ Z.of_nat (length (strongParents refs1)) <= optMaxStrongParents options /\ (NoDup rootBlocks -> NoDup (strongParents refs1))).
  { unfold refs1, or_root_blocks. destruct (strongParents refs) eqn:Es; [|left; by rewrite Es]. right. cbn [strongParents]. split_and!; [eexists; by rewrite take_drop|rewrite length_take; lia|]. intros Hroots. eapply sublist_NoDup; [exact Hroots|apply sublist_take]. }
  assert (Hsame : shallowLikeParents refs1 = shallowLikeParents refs /\ weakParents refs1 = []) by (unfold refs1, or_root_blocks; by destruct (strongParents refs)). destruct Hsame as [Hs1 Hw1].
  destruct (collectReferences_spec WeakTips (select_weak object view) weakParents D (weak_ok (strongParents refs1) (shallowLikeParents refs1)) (stable D)) with (amount := optMaxWeakReferences options) (acc := refs1) (m := m1) as (refs2 & m2 & H2 & [Hr2 _] & (E1 & E2 & E3) & Hnd2 & Hlen2); try done.
  { intros n m2 id. apply weak_tips_known. } { intros. by apply select_weak_adds. } { split_and!; [done|done|]. rewrite Hw1. set_solver. } { apply Hst1. }
  exists refs2, m2. rewrite E1, E2. split_and!; try done; [lia|by rewrite Hs1].
Qed.
End Props.

(** ** Example *)
Module SelectionDemo.
Import TipDemo.
#[local] Existing Instances list_queue demo_order.
#[local] Instance tx_order : RangeOrder TransactionID := canonical_order TransactionID.
#[local] Instance first_tips : TipOrder := {| RandomUniqueEntries s n := take (Z.to_nat n) (elements s); Values s := elements s |}.
#[local] Instance first_tips_spec : TipOrderSpec first_tips.
Proof.
  split; cbn.
  - intros s n. eapply sublist_NoDup; [apply (NoDup_elements s)|apply sublist_take].
  - intros s n id Hin. apply elem_of_elements. apply elem_of_take in Hin as (i & Hi & _). by eapply list_elem_of_lookup_2.
  - intros s n Hn. rewrite length_take. unfold size, set_size. cbn. lia.
  - done.
Qed.
Abbreviation Queue := (list (BlockID * Z)).
Definition demo_object (id : BlockID) : Block := default b1 (demo_blocks !! id).
Definition demo_view : ConflictView := mkConflictView (fun _ => Pending) (fun _ => ∅) (fun _ => None).
Definition classify := classifyTip (Q := Queue) demo_object (fun _ => 30) demo_view.
Definition select_script : list (TipOp (X := TipSelection Queue)) := [OpAdd demo_blocks classify (bid 3 2) b3; OpAdd demo_blocks classify (bid 4 2) b4].
Definition selected : TipManager (TipSelection Queue) := match run_script TipSelection.New select_script with Ret m => m | _ => TipManager.New TipSelection.New end.
Lemma selected_reachable : reachable demo_rank selected.
Proof.
  apply (script_reachable select_script) with (m := TipManager.New TipSelection.New); [|constructor|by vm_compute].
  assert (Hadd : forall id b, demo_blocks !! id = Some b -> tip_op_ok demo_rank (OpAdd demo_blocks classify id b)) by (intros id b Hb; split; [by apply demo_refers|apply demo_refers]).
  apply Forall_cons. split; [by apply Hadd|]. apply Forall_singleton. by apply Hadd.
Qed.
Lemma selection_within_limits_witness : (0 <= 8 /\ 0 <= 8 /\ 0 <= 8) /\ strongTipSet selected = {[bid 3 2; bid 4 2]} /\
  exists refs m', SelectTips default_options demo_object [] demo_view 2 selected = Ret (refs, m') /\ Z.of_nat (length (shallowLikeParents refs)) <= 8.
Proof.
  split; [done|]. split; [by vm_compute|]. destruct (selection_within_limits demo_rank default_options demo_object [] demo_view ltac:(done) selected 2 selected_reachable) as (refs & m' & H1 & _ & _ & _ & _ & H2 & _). exists refs, m'. split; [exact H1|exact H2].
Defined.
(** Both tips have a conflict with two liked instead conflicts whose transactions have no valid attachments: the first one refers twice to the empty block ID. *)
Definition unattached : ConflictView := mkConflictView (fun _ => Pending) (fun _ => {[1; 2]}) (fun _ => Some []).
Lemma shallow_likes_repeat : (fun r => shallowLikeParents r.1) <$> (match SelectTips default_options demo_object [] unattached 1 selected with Ret r => Some r | _ => None end) = Some [emptyBlockID; emptyBlockID].
Proof. by vm_compute. Qed.
(** The liveness threshold grows from the lower bound (10s) to the upper bound (30s) at a third of the committee (10 of 30 seats). *)
Lemma threshold_scales : DynamicLivenessThreshold 10000000000 30000000000 30 0 = Some 10000000000 /\ DynamicLivenessThreshold 10000000000 30000000000 30 5 = Some 20000000000
  /\ DynamicLivenessThreshold 10000000000 30000000000 30 10 = Some 30000000000 /\ DynamicLivenessThreshold 10000000000 30000000000 30 25 = Some 30000000000.
Proof. by vm_compute. Qed.
(** Without an online committee and witnesses the share is 0/0, and the conversion of the result is undefined. *)
Lemma threshold_undefined : DynamicLivenessThreshold 10000000000 30000000000 0 0 = None.
Proof. by vm_compute. Qed.
End SelectionDemo.
