(* ===== verification/StateDiff.v ===== *)
(** * State diffs of the mempool (pkg/protocol/engine/mempool/v1/state_diff.go)

    The diff of a slot aggregates its accepted transactions: a counter per state (plus one for every output, minus one for every input), the
    states with a positive counter as created and those with a negative one as spent, unless they are read-only.

    A state is its ID and whether it is read-only.  Inputs and outputs are those the transaction has when it is added or rolled back.  The authenticated set of
    mutations is the set of transaction IDs; failures of the device are left out. *)
From S2P Require Import Prelude Block.

Abbreviation StateID := Z.
Record StateRef := mkState { state_id : StateID; IsReadOnly : bool }.
Record StateDiff := mkStateDiff {
  diff_slot : SlotIndex;
  spentOutputs : gmap StateID StateRef;
  createdOutputs : gmap StateID StateRef;
  executedTransactions : list TransactionID;         (* in the order they were added *)
  stateUsageCounters : gmap StateID Z;
  mutations : gset TransactionID;
}.
Definition NewStateDiff (slot : SlotIndex) : StateDiff := mkStateDiff slot ∅ ∅ [] ∅ ∅.

Definition compactStateChanges (s : StateRef) (usageCounter : Z) (d : StateDiff) : StateDiff :=
  if 0 <? usageCounter then mkStateDiff (diff_slot d) (spentOutputs d) (<[state_id s := s]> (createdOutputs d)) (executedTransactions d) (stateUsageCounters d) (mutations d)
  else if usageCounter <? 0 then
    if IsReadOnly s then d
    else mkStateDiff (diff_slot d) (<[state_id s := s]> (spentOutputs d)) (createdOutputs d) (executedTransactions d) (stateUsageCounters d) (mutations d)
  else mkStateDiff (diff_slot d) (delete (state_id s) (spentOutputs d)) (delete (state_id s) (createdOutputs d)) (executedTransactions d) (stateUsageCounters d) (mutations d).
(** [stateUsageCounters.Compute] and the compaction of the new value. *)
Definition count_state (delta : Z) (d : StateDiff) (s : StateRef) : StateDiff :=
  let n := default 0 (stateUsageCounters d !! state_id s) + delta in
  compactStateChanges s n (mkStateDiff (diff_slot d) (spentOutputs d) (createdOutputs d) (executedTransactions d) (<[state_id s := n]> (stateUsageCounters d)) (mutations d)).
Definition updateCompactedStateChanges (inputs outputs : list StateRef) (direction : Z) (d : StateDiff) : StateDiff :=
  foldl (count_state direction) (foldl (count_state (- direction)) d inputs) outputs.
(** Whether the transaction is new to the diff (and its rollback is registered). *)
Definition AddTransaction (id : TransactionID) (inputs outputs : list StateRef) (d : StateDiff) : bool * StateDiff :=
  if bool_decide (id ∈ executedTransactions d) then (false, d)
  else (true, updateCompactedStateChanges inputs outputs 1
                (mkStateDiff (diff_slot d) (spentOutputs d) (createdOutputs d) (executedTransactions d ++ [id]) (stateUsageCounters d) ({[id]} ∪ mutations d))).
Definition RollbackTransaction (id : TransactionID) (inputs outputs : list StateRef) (d : StateDiff) : StateDiff :=
  if bool_decide (id ∈ executedTransactions d) then
    updateCompactedStateChanges inputs outputs (-1)
      (mkStateDiff (diff_slot d) (spentOutputs d) (createdOutputs d) (filter (fun x => x <> id) (executedTransactions d)) (stateUsageCounters d) (mutations d ∖ {[id]}))
  else d.

(** ** The net effect of the executed transactions *)
Section Net.
(** The inputs and outputs of transactions, and the states of IDs. *)
Context (ins outs : TransactionID -> list StateRef) (states : StateID -> StateRef).
Hypothesis states_ok : forall id s, s ∈ ins id \/ s ∈ outs id -> states (state_id s) = s.

Definition occurs (x : StateID) (l : list StateRef) : Z := zsum (fun s => if decide (state_id s = x) then 1 else 0) l.
Definition net (x : StateID) (l : list TransactionID) : Z := zsum (fun id => occurs x (outs id) - occurs x (ins id)) l.

Record diff_inv (n : StateID -> Z) (d : StateDiff) : Prop := {
  di_usage x : default 0 (stateUsageCounters d !! x) = n x;
  di_created x : createdOutputs d !! x = if 0 <? n x then Some (states x) else None;
  di_spent x : spentOutputs d !! x = if (n x <? 0) && negb (IsReadOnly (states x)) then Some (states x) else None;
}.
Lemma count_state_inv n d delta s : diff_inv n d -> (delta = 1 \/ delta = -1) -> states (state_id s) = s ->
  diff_inv (fun x => n x + if decide (state_id s = x) then delta else 0) (count_state delta d s)
  /\ executedTransactions (count_state delta d s) = executedTransactions d /\ mutations (count_state delta d s) = mutations d /\ diff_slot (count_state delta d s) = diff_slot d.
Proof.
  intros [H1 H2 H3] Hd Hs. unfold count_state, compactStateChanges. rewrite H1. set (k := n (state_id s) + delta). split; [|by repeat case_match]. split; intros x; specialize (H1 x); specialize (H2 x); specialize (H3 x).
  - assert (Hu : default 0 (<[state_id s := k]> (stateUsageCounters d) !! x) = n x + (if decide (state_id s = x) then delta else 0)) by (destruct (decide (state_id s = x)) as [<-|]; [by rewrite lookup_insert_eq|rewrite lookup_insert_ne, H1 by done; lia]).
    by repeat case_match.
  - destruct (decide (state_id s = x)) as [<-|]; cbn [default from_option]; fold k.
    + destruct (0 <? k) eqn:E1; cbn; [by rewrite lookup_insert_eq, Hs|]. destruct (k <? 0) eqn:E2; [|cbn; by rewrite lookup_delete_eq]. assert (Hz : (0 <? n (state_id s)) = false) by (unfold k in *; lia). rewrite Hz in H2. by destruct (IsReadOnly s).
    + rewrite Z.add_0_r, <- H2. destruct (0 <? k); cbn; [by rewrite lookup_insert_ne|]. destruct (k <? 0); [by destruct (IsReadOnly s)|cbn; by rewrite lookup_delete_ne].
  - destruct (decide (state_id s = x)) as [<-|]; fold k.
    + rewrite Hs in H3 |- *. destruct (0 <? k) eqn:E1; cbn [spentOutputs].
      * assert (Hz : (k <? 0) = false /\ (n (state_id s) <? 0) = false) by (unfold k in *; lia). destruct Hz as [Hz1 Hz2]. rewrite Hz1. rewrite Hz2 in H3. done.
      * destruct (k <? 0) eqn:E2; cbn [andb]; [|cbn; by rewrite lookup_delete_eq]. destruct (IsReadOnly s) eqn:Er; cbn; [|by rewrite lookup_insert_eq]. rewrite H3. by rewrite andb_false_r.
    + rewrite Z.add_0_r, <- H3. destruct (0 <? k); cbn; [done|]. destruct (k <? 0); [destruct (IsReadOnly s); cbn; [done|by rewrite lookup_insert_ne]|cbn; by rewrite lookup_delete_ne].
Qed.
Lemma diff_inv_ext n n' d : (forall x, n x = n' x) -> diff_inv n d -> diff_inv n' d.
Proof. intros Hn [H1 H2 H3]. split; intros x; rewrite <- Hn; auto. Qed.
Lemma count_states_inv delta l : (delta = 1 \/ delta = -1) -> (forall s, s ∈ l -> states (state_id s) = s) -> forall n d, diff_inv n d ->
  diff_inv (fun x => n x + delta * occurs x l) (foldl (count_state delta) d l) /\ executedTransactions (foldl (count_state delta) d l) = executedTransactions d
  /\ mutations (foldl (count_state delta) d l) = mutations d /\ diff_slot (foldl (count_state delta) d l) = diff_slot d.
Proof.
  intros Hd. induction l as [|s l IH]; intros Hl n d Hinv; cbn [foldl]; [split; [|done]; eapply diff_inv_ext; [|exact Hinv]; intros x; cbn; lia|].
  destruct (count_state_inv n d delta s Hinv Hd ltac:(apply Hl; set_solver)) as (Hi & E1 & E2 & E3). destruct (IH ltac:(intros; apply Hl; set_solver) _ _ Hi) as (Hi2 & F1 & F2 & F3). split; [|split_and!; congruence].
  eapply diff_inv_ext; [|exact Hi2]. intros x. unfold occurs. cbn [zsum]. destruct Hd as [->| ->]; destruct (decide (state_id s = x)); lia.
Qed.
Lemma diff_update_inv n d id dir : diff_inv n d -> dir = 1 \/ dir = -1 -> let d' := updateCompactedStateChanges (ins id) (outs id) dir d in
  diff_inv (fun x => n x + dir * (occurs x (outs id) - occurs x (ins id))) d' /\ executedTransactions d' = executedTransactions d /\ mutations d' = mutations d /\ diff_slot d' = diff_slot d.
Proof.
  intros Hinv Hd d'. unfold d', updateCompactedStateChanges. destruct (count_states_inv (- dir) (ins id) ltac:(lia) ltac:(eauto) n d Hinv) as (H1 & E1 & E2 & E3). destruct (count_states_inv dir (outs id) Hd ltac:(eauto) _ _ H1) as (H2 & F1 & F2 & F3).
  split; [|split_and!; congruence]. eapply diff_inv_ext; [|exact H2]. intros x. cbn. lia.
Qed.

Inductive DiffOp := OpAddTx (id : TransactionID) | OpRollbackTx (id : TransactionID).
Definition diff_step (d : StateDiff) (o : DiffOp) : StateDiff :=
  match o with OpAddTx id => (AddTransaction id (ins id) (outs id) d).2 | OpRollbackTx id => RollbackTransaction id (ins id) (outs id) d end.
Lemma filter_absent (id : TransactionID) (l : list TransactionID) : id ∉ l -> filter (fun y => y <> id) l = l.
Proof. induction l as [|y l IH]; intros Hn; [done|]. rewrite filter_cons_True by set_solver. rewrite IH by set_solver. done. Qed.
Lemma net_filter x id (l : list TransactionID) : NoDup l -> id ∈ l -> net x (filter (fun y => y <> id) l) = net x l - (occurs x (outs id) - occurs x (ins id)).
Proof.
  intros Hnd Hin. induction l as [|y l IH]; [set_solver|]. apply NoDup_cons in Hnd as [Hy Hnd]. apply elem_of_cons in Hin as [->|Hin].
  - rewrite filter_cons_False by tauto. rewrite filter_absent by done. unfold net. cbn. lia.
  - rewrite filter_cons_True by (intros ->; done). unfold net in *. cbn. rewrite IH by done. lia.
Qed.
Definition diff_ok (d : StateDiff) : Prop := diff_inv (fun x => net x (executedTransactions d)) d /\ NoDup (executedTransactions d) /\ mutations d = list_to_set (executedTransactions d).
Lemma diff_step_ok d o : diff_ok d -> diff_ok (diff_step d o).
Proof.
  intros (Hinv & Hnd & Hm). destruct o as [id|id]; cbn [diff_step]; [unfold AddTransaction|unfold RollbackTransaction]; case_bool_decide as Hin; try done; cbn [snd].
  - set (d1 := mkStateDiff _ _ _ _ _ _). destruct (diff_update_inv (fun x => net x (executedTransactions d)) d1 id 1) as (H1 & E1 & E2 & E3); [destruct Hinv; by split|by left|]. unfold diff_ok. rewrite E1, E2. cbn [executedTransactions mutations d1]. split_and!.
    + eapply diff_inv_ext; [|exact H1]. intros x. cbn. unfold net. rewrite zsum_app. cbn. lia.
    + apply NoDup_app. split_and!; [done|set_solver|apply NoDup_singleton].
    + rewrite Hm, list_to_set_app_L. cbn. set_solver.
  - set (d1 := mkStateDiff _ _ _ _ _ _). destruct (diff_update_inv (fun x => net x (executedTransactions d)) d1 id (-1)) as (H1 & E1 & E2 & E3); [destruct Hinv; by split|by right|]. unfold diff_ok. rewrite E1, E2. cbn [executedTransactions mutations d1]. split_and!.
    + eapply diff_inv_ext; [|exact H1]. intros x. cbn. rewrite net_filter by done. lia.
    + by apply NoDup_filter.
    + rewrite Hm. apply set_eq. intros y. rewrite elem_of_difference, elem_of_singleton, !elem_of_list_to_set, list_elem_of_filter. tauto.
Qed.

(** C13 For every sequence of transactions that are accepted and rolled back, the diff is the net effect of the transactions that are still
    executed: a state is created if they output it more often than they consume it, and spent if they consume it more often and it is not read-only; the
    order of the operations leaves no trace. *)
Theorem diff_is_net_effect slot ops : let d := foldl diff_step (NewStateDiff slot) ops in
  (forall x, createdOutputs d !! x = if 0 <? net x (executedTransactions d) then Some (states x) else None)
  /\ (forall x, spentOutputs d !! x = if (net x (executedTransactions d) <? 0) && negb (IsReadOnly (states x)) then Some (states x) else None)
  /\ NoDup (executedTransactions d) /\ mutations d = list_to_set (executedTransactions d).
Proof.
  intros d. assert (Hok : diff_ok d).
  { unfold d. assert (H0 : diff_ok (NewStateDiff slot)) by (split_and!; [split; intros x; cbn; rewrite lookup_empty; done|constructor|done]). revert H0. generalize (NewStateDiff slot). induction ops as [|o ops IH]; intros d0 H0; cbn; [done|]. by apply IH, diff_step_ok. }
  destruct Hok as ([H1 H2 H3] & H4 & H5). done.
Qed.
End Net.

(** ** Example: a transaction spends what another one creates *)
Module DiffDemo.
Definition st (x : Z) : StateRef := mkState x (x =? 9).
Definition ins (id : TransactionID) : list StateRef := if id =? 1 then [st 5; st 9] else if id =? 2 then [st 6; st 9] else [].
Definition outs (id : TransactionID) : list StateRef := if id =? 1 then [st 6; st 7] else if id =? 2 then [st 8] else [].
Definition ops : list DiffOp := [OpAddTx 2; OpAddTx 1; OpAddTx 3; OpRollbackTx 3].
Lemma demo_states id s : s ∈ ins id \/ s ∈ outs id -> st (state_id s) = s.
Proof. unfold ins, outs. repeat case_match; set_solver. Qed.
Lemma diff_is_net_effect_witness : let d := foldl (diff_step ins outs) (NewStateDiff 4) ops in
  (forall x, createdOutputs d !! x = if 0 <? net ins outs x (executedTransactions d) then Some (st x) else None) /\ dom (createdOutputs d) = {[7; 8]} /\ dom (spentOutputs d) = {[5]} /\ executedTransactions d = [2; 1].
Proof. intros d. split; [apply (diff_is_net_effect ins outs st demo_states 4 ops)|]. split_and!; by vm_compute. Defined.
(** A transaction whose outputs are listed twice leaves its outputs in the diff although they are spent in it. *)
Lemma doubled_outputs_survive : let d := (AddTransaction 2 (ins 2) (outs 2) (AddTransaction 1 (ins 1) (outs 1 ++ outs 1) (NewStateDiff 4)).2).2 in is_Some (createdOutputs d !! 6).
Proof. eexists; vm_compute; reflexivity. Qed.
End DiffDemo.
