(* ===== verification/Mempool.v ===== *)
(** * The mempool (pkg/protocol/engine/mempool/v1, pkg/core/promise)

    Transactions wait for the states they consume, are executed when their signatures are valid, booked, and become conflicting when a state they consume is
    spent twice.  They are accepted when an attachment is included, all inputs are accepted and their conflict is; acceptance, rejection,
    commitment and orphanage flow through the states to the transactions that consume them.

    Metadata objects are shared by pointers and stay reachable through callbacks after they are evicted from the caches, so they live in heaps.  The reactive
    variables are fields of the objects; who listens to a variable is in [subs].  Setting a variable runs its callbacks, in the order they were registered,
    before [Set] returns: the nested calls are an agenda of tasks, [run_task] puts new tasks in front.  A callback registered on a variable with a value
    runs at once.  Derived conflict sets are recomputed from their sources when one of them changes.

    Parameters: the virtual machine, the ledger's state resolver, whether the conflict DAG accepts an update (the calls to it are recorded), the order of map
    iteration.  Executions wait in a queue (the worker pool).  Failures of the store for mutations and locks are left out. *)
From S2P Require Import Prelude Block StateDiff.

Abbreviation ptr := positive.
Abbreviation SignedTransactionID := Z.
Abbreviation Context_ := Z.                          (* an execution context *)

(** ** Objects *)
Record Flags := mkFlags { accepted : bool; committedSlot : SlotIndex; rejected : bool; orphanedSlot : SlotIndex }.
Definition newInclusionFlags : Flags := mkFlags false 0 false 0.
Record Transaction := mkTransaction { transaction_ID : option TransactionID; vm_Inputs : option (list StateID) }.
Record SignedTransaction := mkSigned { signed_ID : option SignedTransactionID; signed_tx : Transaction }.

Record Lifecycle := mkLifecycle { unsolidInputsCount : Z; solid : bool; executionContext : option Context_; executed : bool; invalid : bool; booked : bool; evicted : bool }.
Record Acceptance := mkAcceptance { unacceptedInputsCount : Z; allInputsAccepted : bool; conflicting : bool; conflictAccepted : bool }.
Record Attachments := mkAttachments { signingTransactions : gset ptr; validAttachments : gmap BlockID bool; earliestIncludedValidAttachment : BlockID; allValidAttachmentsEvicted : SlotIndex }.
Record TransactionMetadata := mkTx {
  tx_id : TransactionID;
  inputReferences : list StateID;
  inputs : list (option ptr);
  outputs : list ptr;
  parentConflictIDs : gset TransactionID;
  tx_conflictIDs : gset TransactionID;
  life : Lifecycle;
  acc : Acceptance;
  att : Attachments;
  tx_flags : Flags;
}.
Record StateMetadata := mkSt {
  state : StateRef;
  source : option ptr;                                 (* the transaction that creates it, if it is not from the ledger *)
  spenderCount : Z;
  spent : bool;
  doubleSpent : bool;
  spendAccepted : option ptr;
  spendCommitted : option ptr;
  st_conflictIDs : gset TransactionID;
  st_flags : Flags;
}.
Record SignedTransactionMetadata := mkSg {
  sg_id : SignedTransactionID;
  transactionMetadata : ptr;
  signedTransaction : SignedTransaction;
  attachments_ : gset BlockID;
  signaturesInvalid : bool;
  signaturesValid : bool;
  sg_evicted : bool;
}.
(** promise.Promise *)
Inductive Promise := Waiting | Resolved (s : ptr) | Rejected_.
Inductive Resolution := StateFound (s : StateRef) | StateNotFound | StateFailed.

Definition NewTransactionMetadata (id : TransactionID) (references : list StateID) : TransactionMetadata :=
  mkTx id references (replicate (length references) None) [] ∅ ∅
    (mkLifecycle (Z.of_nat (length references)) false None false false false false) (mkAcceptance (Z.of_nat (length references)) false false false)
    (mkAttachments ∅ ∅ emptyBlockID 0) newInclusionFlags.
Definition NewStateMetadata (s : StateRef) (source : option ptr) : StateMetadata := mkSt s source 0 false false None None ∅ newInclusionFlags.

Definition with_inputs v t := mkTx (tx_id t) (inputReferences t) v (outputs t) (parentConflictIDs t) (tx_conflictIDs t) (life t) (acc t) (att t) (tx_flags t).
Definition with_outputs v t := mkTx (tx_id t) (inputReferences t) (inputs t) v (parentConflictIDs t) (tx_conflictIDs t) (life t) (acc t) (att t) (tx_flags t).
Definition with_parents v t := mkTx (tx_id t) (inputReferences t) (inputs t) (outputs t) v (tx_conflictIDs t) (life t) (acc t) (att t) (tx_flags t).
Definition with_conflicts v t := mkTx (tx_id t) (inputReferences t) (inputs t) (outputs t) (parentConflictIDs t) v (life t) (acc t) (att t) (tx_flags t).
Definition with_life v t := mkTx (tx_id t) (inputReferences t) (inputs t) (outputs t) (parentConflictIDs t) (tx_conflictIDs t) v (acc t) (att t) (tx_flags t).
Definition with_acc v t := mkTx (tx_id t) (inputReferences t) (inputs t) (outputs t) (parentConflictIDs t) (tx_conflictIDs t) (life t) v (att t) (tx_flags t).
Definition with_att v t := mkTx (tx_id t) (inputReferences t) (inputs t) (outputs t) (parentConflictIDs t) (tx_conflictIDs t) (life t) (acc t) v (tx_flags t).
Definition with_tx_flags v t := mkTx (tx_id t) (inputReferences t) (inputs t) (outputs t) (parentConflictIDs t) (tx_conflictIDs t) (life t) (acc t) (att t) v.
Definition with_spenders n d s := mkSt (state s) (source s) n true d (spendAccepted s) (spendCommitted s) (st_conflictIDs s) (st_flags s).
Definition with_double s := mkSt (state s) (source s) (spenderCount s) (spent s) true (spendAccepted s) (spendCommitted s) (st_conflictIDs s) (st_flags s).
Definition with_count n s := mkSt (state s) (source s) n (spent s) (doubleSpent s) (spendAccepted s) (spendCommitted s) (st_conflictIDs s) (st_flags s).
Definition with_spendAccepted v s := mkSt (state s) (source s) (spenderCount s) (spent s) (doubleSpent s) v (spendCommitted s) (st_conflictIDs s) (st_flags s).
Definition with_spendCommitted v s := mkSt (state s) (source s) (spenderCount s) (spent s) (doubleSpent s) (spendAccepted s) v (st_conflictIDs s) (st_flags s).
Definition with_st_conflicts v s := mkSt (state s) (source s) (spenderCount s) (spent s) (doubleSpent s) (spendAccepted s) (spendCommitted s) v (st_flags s).
Definition with_st_flags v s := mkSt (state s) (source s) (spenderCount s) (spent s) (doubleSpent s) (spendAccepted s) (spendCommitted s) (st_conflictIDs s) v.
Definition with_attachments v g := mkSg (sg_id g) (transactionMetadata g) (signedTransaction g) v (signaturesInvalid g) (signaturesValid g) (sg_evicted g).
Definition with_signatures i v g := mkSg (sg_id g) (transactionMetadata g) (signedTransaction g) (attachments_ g) i v (sg_evicted g).
Definition evict_sg g := mkSg (sg_id g) (transactionMetadata g) (signedTransaction g) (attachments_ g) (signaturesInvalid g) (signaturesValid g) true.

Definition IsConflictAccepted (t : TransactionMetadata) : bool := negb (conflicting (acc t)) || conflictAccepted (acc t).
Definition EarliestIncludedAttachment (t : TransactionMetadata) : BlockID := earliestIncludedValidAttachment (att t).
Definition HasNoSpenders (s : StateMetadata) : bool := spenderCount s =? 0.

(** ** Callbacks *)
Inductive Obj := Tx (t : ptr) | St (s : ptr) | Sg (g : ptr) | Rq (r : ptr).
#[export] Instance Obj_eq_dec : EqDecision Obj.
Proof. solve_decision. Defined.
Inductive Var := VAccepted | VCommitted | VRejected | VOrphaned | VSolid | VContext | VEvicted | VParents | VConflicts | VSpendAccepted | VSpendCommitted | VDoubleSpent | VSpendersRemoved | VAttachments | VRequest | VRequestError.
#[export] Instance Var_eq_dec : EqDecision Var.
Proof. solve_decision. Defined.
(** What a variable tells its callbacks. *)
Inductive Value := Was (old new : bool) | SlotIs (slot : SlotIndex) | Spender (t : option ptr) | Ctx (c : Context_) | AddedBlocks (l : list BlockID) | DeletedBlock (b : BlockID) | Mutated (added deleted : gset TransactionID) | State (s : ptr) | Fired.
Inductive Callback :=
(* of transactions *)
| OutputAccepted (s : ptr) | OutputRejected (s : ptr) | OutputCommitted (s : ptr) | OutputOrphaned (s : ptr) | OutputConflicts (s : ptr)
| SpendIsAccepted (s t : ptr) | SpendIsCommitted (s t : ptr) | SpenderOrphaned (s : ptr)
| AddToDiff (t : ptr) | RollbackInDiff (slot : SlotIndex) (t : ptr) | DelayTransaction (t : ptr) | RivalOrphans (t : ptr)
| SignedSolid (g t : ptr) | ExecuteTransaction (t : ptr) | UpdateConflictParents (t : ptr) | DeleteTransaction (t : ptr) | EvictConflict (t : ptr)
(* of states *)
| InputAccepted (t : ptr) | InputRejected (t : ptr) | InputOrphaned (t : ptr) | InputConflicts (t : ptr) | RivalAccepted (t : ptr) | RivalCommitted (t : ptr)
| Fork (t s : ptr) | DeleteRequest (s : ptr) | DelayOutput (s : ptr)
(* of signed transactions and requests *)
| AttachmentsChanged (t : ptr) | ForgetSigning (g t : ptr) | DeleteSigned (g : ptr) | InputResolved (t : ptr) (i : nat) (created : bool) | InputFailed (t : ptr).
Inductive Task :=
| Call (c : Callback) (v : Value)
| Subscribe (o : Obj) (v : Var) (c : Callback)
| OrphanAt (t : ptr) (slot : SlotIndex)
| Solidify (t : ptr) (i : nat) | IncreaseSpenderCount (s : ptr) | DecreaseSpenderCount (s : ptr) | MarkInputSolid (t : ptr) | Resolve (r s : ptr)
| AddAttachment (g : ptr) (b : BlockID) | EvictAttachment (g : ptr) (b : BlockID) | EvictSigned (g : ptr) | EvictTransaction (id : TransactionID) | EvictDelayed (slot : SlotIndex) | EvictOutputs (slot : SlotIndex) | HandleError
| TriggerSignaturesValid (g : ptr) | SetContext (t : ptr) (c : Context_)
| BookTransaction (t : ptr) | SetBooked (t : ptr) | PublishOutput (s : ptr)
| ForkTransaction (t : ptr) (resources : gset StateID) | UpdateResources (t : ptr) (resources : gset StateID) | CreateConflict (t : ptr) | SetConflicts (t : ptr) (c : gset TransactionID)
| UpdateStateDiffs (t : ptr) (prev new : SlotIndex).
Inductive ConflictCall := CallCreate (id : TransactionID) | CallResources (id : TransactionID) (r : gset StateID) | CallParents (id : TransactionID) (added deleted : gset TransactionID) | CallEvict (id : TransactionID).
Inductive PoolEvent := SignedTransactionAttached (g : ptr) | TransactionAttached (t : ptr) | ErrorHandled.

(** ** The pool *)
Record MemPool := mkMemPool {
  txs : gmap ptr TransactionMetadata;
  sts : gmap ptr StateMetadata;
  sgs : gmap ptr SignedTransactionMetadata;
  rqs : gmap ptr Promise;
  nextPtr : ptr;
  subs : list (Obj * Var * Callback);                 (* in the order they were registered *)
  attachments : gmap SlotIndex (gmap BlockID ptr);
  cachedTransactions : gmap TransactionID ptr;
  cachedSignedTransactions : gmap SignedTransactionID ptr;
  cachedStateRequests : gmap StateID ptr;
  stateDiffs : gmap SlotIndex StateDiff;
  delayedTransactionEviction : gmap SlotIndex (gset TransactionID);
  delayedOutputStateEviction : gmap SlotIndex (gmap StateID ptr);
  lastEvictedSlot : SlotIndex;
  executionQueue : list (Context_ * ptr);
  conflictCalls : list ConflictCall;
  pool_events : list PoolEvent;
}.
Definition New : MemPool := mkMemPool ∅ ∅ ∅ ∅ 1%positive [] ∅ ∅ ∅ ∅ ∅ ∅ ∅ 0 [] [] [].
Definition with_txs v m := mkMemPool v (sts m) (sgs m) (rqs m) (nextPtr m) (subs m) (attachments m) (cachedTransactions m) (cachedSignedTransactions m) (cachedStateRequests m) (stateDiffs m) (delayedTransactionEviction m) (delayedOutputStateEviction m) (lastEvictedSlot m) (executionQueue m) (conflictCalls m) (pool_events m).
Definition with_sts v m := mkMemPool (txs m) v (sgs m) (rqs m) (nextPtr m) (subs m) (attachments m) (cachedTransactions m) (cachedSignedTransactions m) (cachedStateRequests m) (stateDiffs m) (delayedTransactionEviction m) (delayedOutputStateEviction m) (lastEvictedSlot m) (executionQueue m) (conflictCalls m) (pool_events m).
Definition with_sgs v m := mkMemPool (txs m) (sts m) v (rqs m) (nextPtr m) (subs m) (attachments m) (cachedTransactions m) (cachedSignedTransactions m) (cachedStateRequests m) (stateDiffs m) (delayedTransactionEviction m) (delayedOutputStateEviction m) (lastEvictedSlot m) (executionQueue m) (conflictCalls m) (pool_events m).
Definition with_rqs v m := mkMemPool (txs m) (sts m) (sgs m) v (nextPtr m) (subs m) (attachments m) (cachedTransactions m) (cachedSignedTransactions m) (cachedStateRequests m) (stateDiffs m) (delayedTransactionEviction m) (delayedOutputStateEviction m) (lastEvictedSlot m) (executionQueue m) (conflictCalls m) (pool_events m).
Definition with_next v m := mkMemPool (txs m) (sts m) (sgs m) (rqs m) v (subs m) (attachments m) (cachedTransactions m) (cachedSignedTransactions m) (cachedStateRequests m) (stateDiffs m) (delayedTransactionEviction m) (delayedOutputStateEviction m) (lastEvictedSlot m) (executionQueue m) (conflictCalls m) (pool_events m).
Definition with_subs v m := mkMemPool (txs m) (sts m) (sgs m) (rqs m) (nextPtr m) v (attachments m) (cachedTransactions m) (cachedSignedTransactions m) (cachedStateRequests m) (stateDiffs m) (delayedTransactionEviction m) (delayedOutputStateEviction m) (lastEvictedSlot m) (executionQueue m) (conflictCalls m) (pool_events m).
Definition with_slots v m := mkMemPool (txs m) (sts m) (sgs m) (rqs m) (nextPtr m) (subs m) v (cachedTransactions m) (cachedSignedTransactions m) (cachedStateRequests m) (stateDiffs m) (delayedTransactionEviction m) (delayedOutputStateEviction m) (lastEvictedSlot m) (executionQueue m) (conflictCalls m) (pool_events m).
Definition with_cached v m := mkMemPool (txs m) (sts m) (sgs m) (rqs m) (nextPtr m) (subs m) (attachments m) v (cachedSignedTransactions m) (cachedStateRequests m) (stateDiffs m) (delayedTransactionEviction m) (delayedOutputStateEviction m) (lastEvictedSlot m) (executionQueue m) (conflictCalls m) (pool_events m).
Definition with_cachedSigned v m := mkMemPool (txs m) (sts m) (sgs m) (rqs m) (nextPtr m) (subs m) (attachments m) (cachedTransactions m) v (cachedStateRequests m) (stateDiffs m) (delayedTransactionEviction m) (delayedOutputStateEviction m) (lastEvictedSlot m) (executionQueue m) (conflictCalls m) (pool_events m).
Definition with_requests v m := mkMemPool (txs m) (sts m) (sgs m) (rqs m) (nextPtr m) (subs m) (attachments m) (cachedTransactions m) (cachedSignedTransactions m) v (stateDiffs m) (delayedTransactionEviction m) (delayedOutputStateEviction m) (lastEvictedSlot m) (executionQueue m) (conflictCalls m) (pool_events m).
Definition with_diffs v m := mkMemPool (txs m) (sts m) (sgs m) (rqs m) (nextPtr m) (subs m) (attachments m) (cachedTransactions m) (cachedSignedTransactions m) (cachedStateRequests m) v (delayedTransactionEviction m) (delayedOutputStateEviction m) (lastEvictedSlot m) (executionQueue m) (conflictCalls m) (pool_events m).
Definition with_delayedTx v m := mkMemPool (txs m) (sts m) (sgs m) (rqs m) (nextPtr m) (subs m) (attachments m) (cachedTransactions m) (cachedSignedTransactions m) (cachedStateRequests m) (stateDiffs m) v (delayedOutputStateEviction m) (lastEvictedSlot m) (executionQueue m) (conflictCalls m) (pool_events m).
Definition with_delayedSt v m := mkMemPool (txs m) (sts m) (sgs m) (rqs m) (nextPtr m) (subs m) (attachments m) (cachedTransactions m) (cachedSignedTransactions m) (cachedStateRequests m) (stateDiffs m) (delayedTransactionEviction m) v (lastEvictedSlot m) (executionQueue m) (conflictCalls m) (pool_events m).
Definition with_lastEvicted v m := mkMemPool (txs m) (sts m) (sgs m) (rqs m) (nextPtr m) (subs m) (attachments m) (cachedTransactions m) (cachedSignedTransactions m) (cachedStateRequests m) (stateDiffs m) (delayedTransactionEviction m) (delayedOutputStateEviction m) v (executionQueue m) (conflictCalls m) (pool_events m).
Definition with_queue v m := mkMemPool (txs m) (sts m) (sgs m) (rqs m) (nextPtr m) (subs m) (attachments m) (cachedTransactions m) (cachedSignedTransactions m) (cachedStateRequests m) (stateDiffs m) (delayedTransactionEviction m) (delayedOutputStateEviction m) (lastEvictedSlot m) v (conflictCalls m) (pool_events m).
Definition with_calls v m := mkMemPool (txs m) (sts m) (sgs m) (rqs m) (nextPtr m) (subs m) (attachments m) (cachedTransactions m) (cachedSignedTransactions m) (cachedStateRequests m) (stateDiffs m) (delayedTransactionEviction m) (delayedOutputStateEviction m) (lastEvictedSlot m) (executionQueue m) v (pool_events m).
Definition with_events v m := mkMemPool (txs m) (sts m) (sgs m) (rqs m) (nextPtr m) (subs m) (attachments m) (cachedTransactions m) (cachedSignedTransactions m) (cachedStateRequests m) (stateDiffs m) (delayedTransactionEviction m) (delayedOutputStateEviction m) (lastEvictedSlot m) (executionQueue m) (conflictCalls m) v.
