(* ===== verification/MempoolSteps.v ===== *)
(** * The steps of the mempool (pkg/protocol/engine/mempool/v1)

    Every operation puts tasks on an agenda; [run_task] runs the first one and puts what it calls in front of the rest, so that a nested call ends before the
    code after it goes on.  A configuration with an empty agenda is one in which no operation is under way.  [None] is a panic.

    The conflict sets of transactions and states are derived sets of the reactive library: a callback of a source recomputes the union. *)
From S2P Require Import Prelude Block StateDiff Mempool.

Definition act : Type := MemPool * list Task.
Definition fire (o : Obj) (v : Var) (x : Value) (m : MemPool) : list Task :=
  omap (fun '(o', v', c) => if bool_decide (o = o' /\ v = v') then Some (Call c x) else None) (subs m).
Definition upd_tx (t : ptr) (f : TransactionMetadata -> TransactionMetadata) (m : MemPool) : MemPool := with_txs (alter f t (txs m)) m.
Definition upd_st (s : ptr) (f : StateMetadata -> StateMetadata) (m : MemPool) : MemPool := with_sts (alter f s (sts m)) m.
Definition upd_sg (g : ptr) (f : SignedTransactionMetadata -> SignedTransactionMetadata) (m : MemPool) : MemPool := with_sgs (alter f g (sgs m)) m.
(** Pointers always point to an object. *)
Definition on_tx (t : ptr) (m : MemPool) (k : TransactionMetadata -> act) : act := match txs m !! t with Some x => k x | None => (m, []) end.
Definition on_st (s : ptr) (m : MemPool) (k : StateMetadata -> act) : act := match sts m !! s with Some x => k x | None => (m, []) end.
Definition on_sg (g : ptr) (m : MemPool) (k : SignedTransactionMetadata -> act) : act := match sgs m !! g with Some x => k x | None => (m, []) end.
Definition handle_error (m : MemPool) : MemPool := with_events (pool_events m ++ [ErrorHandled]) m.

(** ** Variables of transactions and states *)
Definition flag_accepted (b : bool) (f : Flags) : Flags := mkFlags b (committedSlot f) (rejected f) (orphanedSlot f).
Definition flag_committed (n : SlotIndex) (f : Flags) : Flags := mkFlags (accepted f) n (rejected f) (orphanedSlot f).
Definition flag_rejected (f : Flags) : Flags := mkFlags (accepted f) (committedSlot f) true (orphanedSlot f).
(** The first orphaned slot stays. *)
Definition flag_orphaned (n : SlotIndex) (f : Flags) : Flags := mkFlags (accepted f) (committedSlot f) (rejected f) (if orphanedSlot f =? 0 then n else orphanedSlot f).
Definition set_tx_accepted (t : ptr) (b : bool) (m : MemPool) : act :=
  on_tx t m (fun x => if Bool.eqb (accepted (tx_flags x)) b then (m, []) else (upd_tx t (with_tx_flags (flag_accepted b (tx_flags x))) m, fire (Tx t) VAccepted (Was (negb b) b) m)).
Definition set_st_accepted (s : ptr) (b : bool) (m : MemPool) : act :=
  on_st s m (fun x => if Bool.eqb (accepted (st_flags x)) b then (m, []) else (upd_st s (with_st_flags (flag_accepted b (st_flags x))) m, fire (St s) VAccepted (Was (negb b) b) m)).
Definition set_tx_rejected (t : ptr) (m : MemPool) : act :=
  on_tx t m (fun x => if rejected (tx_flags x) then (m, []) else (upd_tx t (with_tx_flags (flag_rejected (tx_flags x))) m, fire (Tx t) VRejected Fired m)).
Definition set_st_rejected (s : ptr) (m : MemPool) : act :=
  on_st s m (fun x => if rejected (st_flags x) then (m, []) else (upd_st s (with_st_flags (flag_rejected (st_flags x))) m, fire (St s) VRejected Fired m)).
Definition set_tx_orphaned (t : ptr) (n : SlotIndex) (m : MemPool) : act :=
  on_tx t m (fun x => let f := flag_orphaned n (tx_flags x) in
    if orphanedSlot f =? orphanedSlot (tx_flags x) then (m, []) else (upd_tx t (with_tx_flags f) m, fire (Tx t) VOrphaned (SlotIs (orphanedSlot f)) m)).
Definition set_st_orphaned (s : ptr) (n : SlotIndex) (m : MemPool) : act :=
  on_st s m (fun x => let f := flag_orphaned n (st_flags x) in
    if orphanedSlot f =? orphanedSlot (st_flags x) then (m, []) else (upd_st s (with_st_flags f) m, fire (St s) VOrphaned (SlotIs (orphanedSlot f)) m)).
Definition set_tx_committed (t : ptr) (n : SlotIndex) (m : MemPool) : act :=
  on_tx t m (fun x => if committedSlot (tx_flags x) =? n then (m, []) else (upd_tx t (with_tx_flags (flag_committed n (tx_flags x))) m, fire (Tx t) VCommitted (SlotIs n) m)).
Definition set_st_committed (s : ptr) (n : SlotIndex) (m : MemPool) : act :=
  on_st s m (fun x => if committedSlot (st_flags x) =? n then (m, []) else (upd_st s (with_st_flags (flag_committed n (st_flags x))) m, fire (St s) VCommitted (SlotIs n) m)).
Definition set_spendAccepted (s : ptr) (v : option ptr) (m : MemPool) : act :=
  on_st s m (fun x => if bool_decide (spendAccepted x = v) then (m, []) else (upd_st s (with_spendAccepted v) m, fire (St s) VSpendAccepted (Spender v) m)).
Definition set_spendCommitted (s : ptr) (v : option ptr) (m : MemPool) : act :=
  on_st s m (fun x => if bool_decide (spendCommitted x = v) then (m, []) else (upd_st s (with_spendCommitted v) m, fire (St s) VSpendCommitted (Spender v) m)).

Definition life_unsolid n l := mkLifecycle n (solid l) (executionContext l) (executed l) (invalid l) (booked l) (evicted l).
Definition life_solid l := mkLifecycle (unsolidInputsCount l) true (executionContext l) (executed l) (invalid l) (booked l) (evicted l).
Definition life_context c l := mkLifecycle (unsolidInputsCount l) (solid l) (Some c) (executed l) (invalid l) (booked l) (evicted l).
Definition life_executed l := mkLifecycle (unsolidInputsCount l) (solid l) (executionContext l) true (invalid l) (booked l) (evicted l).
Definition life_invalid l := mkLifecycle (unsolidInputsCount l) (solid l) (executionContext l) (executed l) true (booked l) (evicted l).
Definition life_booked l := mkLifecycle (unsolidInputsCount l) (solid l) (executionContext l) (executed l) (invalid l) true (evicted l).
Definition life_evicted l := mkLifecycle (unsolidInputsCount l) (solid l) (executionContext l) (executed l) (invalid l) (booked l) true.
Definition upd_life t f m := upd_tx t (fun x => with_life (f (life x)) x) m.
Definition upd_acc t f m := upd_tx t (fun x => with_acc (f (acc x)) x) m.
Definition upd_att t f m := upd_tx t (fun x => with_att (f (att x)) x) m.
Definition setInvalid (t : ptr) (m : MemPool) : MemPool := upd_life t life_invalid m.

(** What a callback is told when it is registered: only variables with a value and triggered events tell. *)
Definition current (o : Obj) (v : Var) (m : MemPool) : option Value :=
  match o with
  | Tx t => x ← txs m !! t;
      match v with
      | VAccepted => if accepted (tx_flags x) then Some (Was false true) else None
      | VCommitted => if committedSlot (tx_flags x) =? 0 then None else Some (SlotIs (committedSlot (tx_flags x)))
      | VRejected => if rejected (tx_flags x) then Some Fired else None
      | VOrphaned => if orphanedSlot (tx_flags x) =? 0 then None else Some (SlotIs (orphanedSlot (tx_flags x)))
      | VSolid => if solid (life x) then Some Fired else None
      | VContext => Ctx <$> executionContext (life x)
      | VEvicted => if evicted (life x) then Some Fired else None
      | VParents => if bool_decide (parentConflictIDs x = ∅) then None else Some (Mutated (parentConflictIDs x) ∅)
      | VConflicts => if bool_decide (tx_conflictIDs x = ∅) then None else Some (Mutated (tx_conflictIDs x) ∅)
      | _ => None
      end
  | St s => x ← sts m !! s;
      match v with
      | VAccepted => if accepted (st_flags x) then Some (Was false true) else None
      | VCommitted => if committedSlot (st_flags x) =? 0 then None else Some (SlotIs (committedSlot (st_flags x)))
      | VRejected => if rejected (st_flags x) then Some Fired else None
      | VOrphaned => if orphanedSlot (st_flags x) =? 0 then None else Some (SlotIs (orphanedSlot (st_flags x)))
      | VConflicts => if bool_decide (st_conflictIDs x = ∅) then None else Some (Mutated (st_conflictIDs x) ∅)
      | VSpendAccepted => (fun t => Spender (Some t)) <$> spendAccepted x
      | VSpendCommitted => (fun t => Spender (Some t)) <$> spendCommitted x
      | VDoubleSpent => if doubleSpent x then Some Fired else None
      | _ => None                                     (* allSpendersRemoved is an event that only tells its hooks *)
      end
  | Sg g => x ← sgs m !! g;
      match v with
      | VAttachments => if bool_decide (attachments_ x = ∅) then None else Some (AddedBlocks (elements (attachments_ x)))
      | VEvicted => if sg_evicted x then Some Fired else None
      | _ => None
      end
  | Rq r => x ← rqs m !! r;
      match x, v with Resolved s, VRequest => Some (State s) | Rejected_, VRequestError => Some Fired | _, _ => None end
  end.
(** A completed promise keeps no callbacks. *)
Definition completed (o : Obj) (m : MemPool) : bool := match o with Rq r => match rqs m !! r with Some Waiting => false | _ => true end | _ => false end.
Definition subscribe (o : Obj) (v : Var) (c : Callback) (m : MemPool) : act :=
  (if completed o m then m else with_subs (subs m ++ [(o, v, c)]) m, match current o v m with Some x => [Call c x] | None => [] end).
Definition unsubscribe (o : Obj) (v : Var) (c : Callback -> bool) (m : MemPool) : MemPool :=
  with_subs (filter (fun s => ~ (s.1 = (o, v) /\ c s.2 = true)) (subs m)) m.

(** ** Attachments of a transaction *)
Definition attach_valid (f : gmap BlockID bool -> gmap BlockID bool) (a : Attachments) : Attachments := mkAttachments (signingTransactions a) (f (validAttachments a)) (earliestIncludedValidAttachment a) (allValidAttachmentsEvicted a).
Definition attach_signing (f : gset ptr -> gset ptr) (a : Attachments) : Attachments := mkAttachments (f (signingTransactions a)) (validAttachments a) (earliestIncludedValidAttachment a) (allValidAttachmentsEvicted a).
Definition attach_earliest (b : BlockID) (a : Attachments) : Attachments := mkAttachments (signingTransactions a) (validAttachments a) b (allValidAttachmentsEvicted a).
Definition attach_evicted (n : SlotIndex) (a : Attachments) : Attachments := mkAttachments (signingTransactions a) (validAttachments a) (earliestIncludedValidAttachment a) n.
Definition addValidAttachment (t : ptr) (m : MemPool) (b : BlockID) : MemPool :=
  upd_att t (attach_valid (fun v => match v !! b with Some _ => v | None => <[b := false]> v end)) m.
(** The callback of [allValidAttachmentsEvicted] orphans the transaction unless it is committed. *)
Definition evictValidAttachment (t : ptr) (b : BlockID) (m : MemPool) : act :=
  on_tx t m (fun x => match validAttachments (att x) !! b with
    | None => (m, [])
    | Some _ => let m1 := upd_att t (attach_valid (delete b)) m in
        if bool_decide (delete b (validAttachments (att x)) = ∅) && negb (allValidAttachmentsEvicted (att x) =? Slot b) then
          (upd_att t (attach_evicted (Slot b)) m1, if committedSlot (tx_flags x) =? 0 then [OrphanAt t (Slot b)] else [])
        else (m1, [])
    end).
Definition addAttachment (g : ptr) (b : BlockID) (m : MemPool) : act :=
  on_sg g m (fun x => let m1 := with_slots (<[Slot b := <[b := g]> (default ∅ (attachments m !! Slot b))]> (attachments m)) m in
    if bool_decide (b ∈ attachments_ x) then (m1, []) else (upd_sg g (with_attachments ({[b]} ∪ attachments_ x)) m1, fire (Sg g) VAttachments (AddedBlocks [b]) m)).
Definition evictAttachment (g : ptr) (b : BlockID) (m : MemPool) : act :=
  on_sg g m (fun x => if bool_decide (b ∈ attachments_ x) then
      (upd_sg g (with_attachments (attachments_ x ∖ {[b]})) m, fire (Sg g) VAttachments (DeletedBlock b) m ++ if bool_decide (attachments_ x ∖ {[b]} = ∅) then [EvictSigned g] else [])
    else (m, [])).

(** ** Acceptance *)
Definition acc_count n a := mkAcceptance n (allInputsAccepted a) (conflicting a) (conflictAccepted a).
Definition acc_all b a := mkAcceptance (unacceptedInputsCount a) b (conflicting a) (conflictAccepted a).
Definition acc_conflicting a := mkAcceptance (unacceptedInputsCount a) (allInputsAccepted a) true (conflictAccepted a).
Definition acc_conflictAccepted a := mkAcceptance (unacceptedInputsCount a) (allInputsAccepted a) (conflicting a) true.
(** The callbacks of [OnAccepted] and [OnPending] of an input. *)
Definition input_accepted (t : ptr) (m : MemPool) : act :=
  on_tx t m (fun x => let n := u64 (unacceptedInputsCount (acc x) - 1) in let m1 := upd_acc t (acc_count n) m in
    if n =? 0 then
      let m2 := upd_acc t (acc_all true) m1 in
      if negb (allInputsAccepted (acc x)) && IsConflictAccepted x && negb (Slot (EarliestIncludedAttachment x) =? 0) then set_tx_accepted t true m2 else (m2, [])
    else (m1, [])).
Definition input_pending (t : ptr) (m : MemPool) : act :=
  on_tx t m (fun x => let n := u64 (unacceptedInputsCount (acc x) + 1) in let m1 := upd_acc t (acc_count n) m in
    if n =? 1 then
      let m2 := upd_acc t (acc_all false) m1 in
      if allInputsAccepted (acc x) then set_tx_accepted t false m2 else (m2, [])
    else (m1, [])).
Definition setConflictAccepted (t : ptr) (m : MemPool) : act :=
  on_tx t m (fun x => if conflictAccepted (acc x) then (m, [])
    else let m1 := upd_acc t acc_conflictAccepted m in
      if allInputsAccepted (acc x) && negb (Slot (EarliestIncludedAttachment x) =? 0) then set_tx_accepted t true m1 else (m1, [])).

(** ** State diffs *)
Definition tx_states (m : MemPool) (l : list ptr) : list StateRef := omap (fun p => state <$> sts m !! p) l.
Definition tx_inputs (x : TransactionMetadata) : list ptr := omap id (inputs x).
(** The transaction enters the diff of a slot that is not evicted; its rollback is registered when it is new. *)
Definition add_to_diff (t : ptr) (x : TransactionMetadata) (slot : SlotIndex) (m : MemPool) : act :=
  let r := AddTransaction (tx_id x) (tx_states m (tx_inputs x)) (tx_states m (outputs x)) (default (NewStateDiff slot) (stateDiffs m !! slot)) in
  (with_diffs (<[slot := r.2]> (stateDiffs m)) m, if (r.1 : bool) then [Subscribe (Tx t) VAccepted (RollbackInDiff slot t)] else []).
Definition rollback_in_diff (t : ptr) (slot : SlotIndex) (m : MemPool) : MemPool :=
  match txs m !! t, stateDiffs m !! slot with
  | Some x, Some d => with_diffs (<[slot := RollbackTransaction (tx_id x) (tx_states m (tx_inputs x)) (tx_states m (outputs x)) d]> (stateDiffs m)) m
  | _, _ => m
  end.
Definition updateStateDiffs (t : ptr) (prev new : SlotIndex) (m : MemPool) : act :=
  on_tx t m (fun x => if prev =? new then (m, [])
    else let m1 := if prev =? 0 then m else rollback_in_diff t prev m in
      if accepted (tx_flags x) && negb (new =? 0) then
        if new <=? lastEvictedSlot m then (handle_error m1, []) else add_to_diff t x new m1
      else (m1, [])).

(** ** Conflicts *)
Definition inherit_parents (t : ptr) (m : MemPool) : act :=
  on_tx t m (fun x => let p : gset TransactionID := ⋃ ((fun s => default ∅ (st_conflictIDs <$> sts m !! s)) <$> tx_inputs x) in
    if bool_decide (p = parentConflictIDs x) then (m, [])
    else (upd_tx t (with_parents p) m, (if conflicting (acc x) then [] else [SetConflicts t p]) ++ fire (Tx t) VParents (Mutated (p ∖ parentConflictIDs x) (parentConflictIDs x ∖ p)) m)).
Definition set_conflicts (t : ptr) (c : gset TransactionID) (m : MemPool) : act :=
  on_tx t m (fun x => if bool_decide (c = tx_conflictIDs x) then (m, []) else (upd_tx t (with_conflicts c) m, fire (Tx t) VConflicts (Mutated (c ∖ tx_conflictIDs x) (tx_conflictIDs x ∖ c)) m)).
Definition inherit_from_source (s : ptr) (m : MemPool) : act :=
  on_st s m (fun x => match source x ≫= fun t => tx_conflictIDs <$> txs m !! t with
    | None => (m, [])
    | Some c => if bool_decide (c = st_conflictIDs x) then (m, []) else (upd_st s (with_st_conflicts c) m, fire (St s) VConflicts (Mutated (c ∖ st_conflictIDs x) (st_conflictIDs x ∖ c)) m)
    end).
Definition forkTransaction (t : ptr) (resources : gset StateID) (m : MemPool) : act :=
  on_tx t m (fun x => if conflicting (acc x) then (m, [UpdateResources t resources])
    else (upd_acc t acc_conflicting m, [SetConflicts t ∅; SetConflicts t {[tx_id x]}; CreateConflict t; UpdateResources t resources])).

(** ** Spenders *)
Definition increaseSpenderCount (s : ptr) (m : MemPool) : act :=
  on_st s m (fun x => let n := u64 (spenderCount x + 1) in
    if n =? 1 then (upd_st s (with_spenders n (doubleSpent x)) m, [])
    else if (n =? 2) && negb (doubleSpent x) then (upd_st s (fun y => with_count n (with_double y)) m, fire (St s) VDoubleSpent Fired m)
    else (upd_st s (with_count n) m, [])).
Definition decreaseSpenderCount (s : ptr) (m : MemPool) : act :=
  on_st s m (fun x => let n := u64 (spenderCount x - 1) in (upd_st s (with_count n) m, if n =? 0 then fire (St s) VSpendersRemoved Fired m else [])).
Definition delete_request (s : ptr) (m : MemPool) : MemPool :=
  match sts m !! s with Some x => if HasNoSpenders x then with_requests (delete (state_id (state x)) (cachedStateRequests m)) m else m | None => m end.
Definition delay_tx (id : TransactionID) (slot : SlotIndex) (m : MemPool) : MemPool :=
  with_delayedTx (<[slot := {[id]} ∪ default ∅ (delayedTransactionEviction m !! slot)]> (delayedTransactionEviction m)) m.
Definition delay_output (s : ptr) (slot : SlotIndex) (m : MemPool) : MemPool :=
  match sts m !! s with
  | Some x => with_delayedSt (<[slot := <[state_id (state x) := s]> (default ∅ (delayedOutputStateEviction m !! slot))]> (delayedOutputStateEviction m)) m
  | None => m
  end.

(** ** Inputs and outputs *)
Definition setupOutputState (s : ptr) : list Task := [Subscribe (St s) VSpendersRemoved (DeleteRequest s); Subscribe (St s) VCommitted (DelayOutput s); Subscribe (St s) VOrphaned (DelayOutput s)].
Definition setupSpender (s t : ptr) : list Task :=
  [IncreaseSpenderCount s; Subscribe (Tx t) VAccepted (SpendIsAccepted s t); Subscribe (Tx t) VCommitted (SpendIsCommitted s t); Subscribe (Tx t) VOrphaned (SpenderOrphaned s)].
Definition setupInput (s t : ptr) : list Task :=
  [Subscribe (St s) VConflicts (InputConflicts t); Subscribe (St s) VRejected (InputRejected t); Subscribe (St s) VOrphaned (InputOrphaned t); Subscribe (St s) VAccepted (InputAccepted t);
   Subscribe (St s) VSpendAccepted (RivalAccepted t); Subscribe (St s) VSpendCommitted (RivalCommitted t)].
Definition publishInput (t : ptr) (i : nat) (s : ptr) (m : MemPool) : act := (upd_tx t (fun x => with_inputs (<[i := Some s]> (inputs x)) x) m, setupSpender s t ++ setupInput s t).
Definition input_resolved (t : ptr) (i : nat) (created : bool) (s : ptr) (m : MemPool) : act :=
  let a := publishInput t i s m in (a.1, a.2 ++ (if created then setupOutputState s else []) ++ [MarkInputSolid t]).
Definition markInputSolid (t : ptr) (m : MemPool) : act :=
  on_tx t m (fun x => let n := u64 (unsolidInputsCount (life x) - 1) in let m1 := upd_life t (life_unsolid n) m in
    if (n =? 0) && negb (solid (life x)) then (upd_life t life_solid m1, fire (Tx t) VSolid Fired m ++ [Subscribe (Tx t) VContext (ExecuteTransaction t)]) else (m1, [])).
Definition alloc_st (x : StateMetadata) (m : MemPool) : MemPool := with_next (Pos.succ (nextPtr m)) (with_sts (<[nextPtr m := x]> (sts m)) m).
Definition alloc_rq (x : Promise) (m : MemPool) : MemPool := with_next (Pos.succ (nextPtr m)) (with_rqs (<[nextPtr m := x]> (rqs m)) m).
Definition accept_st (x : StateMetadata) : StateMetadata := with_st_flags (flag_accepted true (st_flags x)) x.
(** What NewStateMetadata registers with the source. *)
Definition output_subscriptions (t s : ptr) : list Task :=
  [Subscribe (Tx t) VConflicts (OutputConflicts s); Subscribe (Tx t) VAccepted (OutputAccepted s); Subscribe (Tx t) VRejected (OutputRejected s); Subscribe (Tx t) VCommitted (OutputCommitted s); Subscribe (Tx t) VOrphaned (OutputOrphaned s)].
Fixpoint setExecuted (t : ptr) (l : list StateRef) (m : MemPool) : act :=
  match l with
  | [] => (upd_life t life_executed m, [])
  | st :: l => let s := nextPtr m in
      let a := setExecuted t l (upd_tx t (fun x => with_outputs (outputs x ++ [s]) x) (alloc_st (NewStateMetadata st (Some t)) m)) in
      (a.1, output_subscriptions t s ++ a.2)
  end.
Definition resolve (r s : ptr) (m : MemPool) : act :=
  match rqs m !! r with
  | Some Waiting => (with_subs (filter (fun x => x.1.1 <> Rq r) (subs m)) (with_rqs (<[r := Resolved s]> (rqs m)) m), fire (Rq r) VRequest (State s) m)
  | _ => (m, [])
  end.
Definition publishOutput (s : ptr) (m : MemPool) : act :=
  on_st s m (fun x => match cachedStateRequests m !! state_id (state x) with
    | Some r => (m, [Resolve r s])
    | None => let r := nextPtr m in (with_requests (<[state_id (state x) := r]> (cachedStateRequests m)) (alloc_rq Waiting m), Resolve r s :: setupOutputState s)
    end).
Definition setBooked (t : ptr) (m : MemPool) : act :=
  on_tx t m (fun x => if booked (life x) then (m, []) else (upd_life t life_booked m, PublishOutput <$> outputs x)).
Definition evict_tx (id : TransactionID) (m : MemPool) : act :=
  match cachedTransactions m !! id with
  | None => (m, [])
  | Some t => on_tx t m (fun x => if evicted (life x) then (m, []) else (upd_life t life_evicted m, fire (Tx t) VEvicted Fired m))
  end.
Definition remove_attachment (b : BlockID) (m : MemPool) : MemPool := with_slots (alter (delete b) (Slot b) (attachments m)) m.
Definition delete_transaction (t : ptr) (m : MemPool) : act :=
  on_tx t m (fun x =>
    let m1 := match cachedTransactions m !! tx_id x with
              | Some _ => foldr remove_attachment (with_cached (delete (tx_id x) (cachedTransactions m)) m) (map_to_list (validAttachments (att x))).*1
              | None => m
              end in
    (m1, EvictSigned <$> elements (signingTransactions (att x)))).

Section Pool.
(** The virtual machine, the ledger, the conflict DAG's answers to the calls made so far, and the parameters. *)
Context (ValidateSignatures : SignedTransaction -> list StateRef -> option Context_) (Execute : Context_ -> TransactionID -> option (list StateRef)).
Context (resolveState : StateID -> Resolution) (conflictDAG_ok : list ConflictCall -> ConflictCall -> bool).
Context (optForkAllTransactions : bool) (MaxCommittableAge : SlotIndex -> SlotIndex).

Definition conflict_call (c : ConflictCall) (m : MemPool) : MemPool := with_calls (conflictCalls m ++ [c]) m.
(** GetOrCreate of a request, with requestState for a missing one. *)
Definition getOrCreateRequest (ref : StateID) (m : MemPool) : ptr * bool * MemPool :=
  match cachedStateRequests m !! ref with
  | Some r => (r, false, m)
  | None =>
      let '(p, m1) := match resolveState ref with
        | StateFound st => (Resolved (nextPtr m), alloc_st (accept_st (NewStateMetadata st None)) m)
        | StateNotFound => (Waiting, m)
        | StateFailed => (Rejected_, m)
        end in
      (nextPtr m1, true, with_requests (<[ref := nextPtr m1]> (cachedStateRequests m1)) (alloc_rq p m1))
  end.
Definition solidifyInput (t : ptr) (i : nat) (m : MemPool) : act :=
  on_tx t m (fun x => match inputReferences x !! i with
    | None => (m, [])
    | Some ref => let '(r, created, m1) := getOrCreateRequest ref m in (m1, [Subscribe (Rq r) VRequest (InputResolved t i created); Subscribe (Rq r) VRequestError (InputFailed t)])
    end).
Definition signed_solid (g t : ptr) (m : MemPool) : act :=
  on_sg g m (fun x => on_tx t m (fun y =>
    match ValidateSignatures (signedTransaction x) (tx_states m (tx_inputs y)) with
    | None => (upd_sg g (with_signatures true (signaturesValid x)) m, [])
    | Some c => (m, [Subscribe (Sg g) VAttachments (AttachmentsChanged t); TriggerSignaturesValid g; SetContext t c])
    end)).
Definition bookTransaction (t : ptr) (m : MemPool) : act :=
  on_tx t m (fun x =>
    let fork := filter (fun s => IsReadOnly <$> (state <$> sts m !! s) = Some false) (tx_inputs x) in
    (m, (if optForkAllTransactions then [ForkTransaction t (list_to_set (state_id <$> tx_states m fork))]
         else (fun s => Subscribe (St s) VDoubleSpent (Fork t s)) <$> fork) ++ [SetBooked t])).
Definition evictDelayed (slot : SlotIndex) (m : MemPool) : act :=
  if slot <=? MaxCommittableAge slot then (m, [])
  else let d := slot - MaxCommittableAge slot in (m, (EvictTransaction <$> elements (default ∅ (delayedTransactionEviction m !! d))) ++ [EvictOutputs d]).
Definition evictOutputs (d : SlotIndex) (m : MemPool) : MemPool :=
  let m1 := with_delayedTx (delete d (delayedTransactionEviction m)) m in
  match delayedOutputStateEviction m !! d with
  | None => m1
  | Some o => with_delayedSt (delete d (delayedOutputStateEviction m)) (foldr (fun '(id, s) m => match sts m !! s with Some x => if HasNoSpenders x then with_requests (delete id (cachedStateRequests m)) m else m | None => m end) m1 (map_to_list o))
  end.

(** ** Callbacks *)
Definition run_callback (c : Callback) (v : Value) (m : MemPool) : option act :=
  match c, v with
  | OutputAccepted s, Was false true => Some (set_st_accepted s true m)
  | OutputAccepted s, Was true false => Some (set_st_accepted s false m)
  | OutputRejected s, _ => Some (set_st_rejected s m)
  | OutputCommitted s, SlotIs n => Some (set_st_committed s n m)
  | OutputOrphaned s, SlotIs n => Some (set_st_orphaned s n m)
  | OutputConflicts s, _ => Some (inherit_from_source s m)
  | SpendIsAccepted s t, Was false true => Some (set_spendAccepted s (Some t) m)
  | SpendIsAccepted s t, Was true false => Some (set_spendAccepted s None m)
  | SpendIsCommitted s t, _ => let a := set_spendCommitted s (Some t) m in Some (a.1, a.2 ++ [DecreaseSpenderCount s])
  | SpenderOrphaned s, _ => Some (decreaseSpenderCount s m)
  | AddToDiff t, Was false true =>
      match txs m !! t with
      | None => None
      | Some x => let slot := Slot (EarliestIncludedAttachment x) in
          if slot =? 0 then Some (m, [])
          else if slot <=? lastEvictedSlot m then None        (* the error is handled and the nil diff used *)
          else Some (add_to_diff t x slot m)
      end
  | RollbackInDiff slot t, Was true false => Some (rollback_in_diff t slot m, [])
  | DelayTransaction t, SlotIs n => Some (on_tx t m (fun x => (delay_tx (tx_id x) n m, [])))
  | RivalOrphans t, SlotIs n => Some (set_tx_orphaned t n m)
  | SignedSolid g t, _ => Some (signed_solid g t m)
  | ExecuteTransaction t, Ctx c => Some (with_queue (executionQueue m ++ [(c, t)]) m, [])
  | UpdateConflictParents t, Mutated a d =>
      match txs m !! t with
      | None => None
      | Some x => if conflictDAG_ok (conflictCalls m) (CallParents (tx_id x) a d) then Some (conflict_call (CallParents (tx_id x) a d) m, []) else None
      end
  | DeleteTransaction t, _ => Some (delete_transaction t m)
  | EvictConflict t, _ => Some (on_tx t m (fun x => (conflict_call (CallEvict (tx_id x)) (unsubscribe (Tx t) VParents (fun c => match c with UpdateConflictParents _ => true | _ => false end) m), [])))
  | InputAccepted t, Was false true => Some (input_accepted t m)
  | InputAccepted t, Was true false => Some (input_pending t m)
  | InputRejected t, _ => Some (set_tx_rejected t m)
  | InputOrphaned t, SlotIs n => Some (set_tx_orphaned t n m)
  | InputConflicts t, _ => Some (inherit_parents t m)
  | RivalAccepted t, Spender (Some t') => Some (if bool_decide (t' = t) then (m, []) else set_tx_rejected t m)
  | RivalCommitted t, Spender (Some t') => Some (m, if bool_decide (t' = t) then [] else [Subscribe (Tx t') VCommitted (RivalOrphans t)])
  | Fork t s, _ => Some (on_st s m (fun x => (m, [ForkTransaction t {[state_id (state x)]}])))
  | DeleteRequest s, _ => Some (delete_request s m, [])
  | DelayOutput s, SlotIs n => Some (delay_output s n m, [])
  | AttachmentsChanged t, AddedBlocks l => Some (foldl (addValidAttachment t) m l, [])
  | AttachmentsChanged t, DeletedBlock b => Some (evictValidAttachment t b m)
  | ForgetSigning g t, _ => Some (upd_att t (attach_signing (fun s => s ∖ {[g]})) m, [])
  | DeleteSigned g, _ => Some (on_sg g m (fun x => (with_cachedSigned (delete (sg_id x) (cachedSignedTransactions m)) m, [])))
  | InputResolved t i created, State s => Some (input_resolved t i created s m)
  | InputFailed t, _ => Some (setInvalid t m, [])
  | _, _ => Some (m, [])
  end.
Definition run_task (k : Task) (m : MemPool) : option act :=
  match k with
  | Call c v => run_callback c v m
  | Subscribe o v c => Some (subscribe o v c m)
  | OrphanAt t n => Some (set_tx_orphaned t n m)
  | Solidify t i => Some (solidifyInput t i m)
  | IncreaseSpenderCount s => Some (increaseSpenderCount s m)
  | DecreaseSpenderCount s => Some (decreaseSpenderCount s m)
  | MarkInputSolid t => Some (markInputSolid t m)
  | Resolve r s => Some (resolve r s m)
  | AddAttachment g b => Some (addAttachment g b m)
  | EvictAttachment g b => Some (evictAttachment g b m)
  | EvictSigned g => Some (on_sg g m (fun x => if sg_evicted x then (m, []) else (upd_sg g evict_sg m, fire (Sg g) VEvicted Fired m)))
  | EvictTransaction id => Some (evict_tx id m)
  | EvictDelayed slot => Some (evictDelayed slot m)
  | EvictOutputs d => Some (evictOutputs d m, [])
  | HandleError => Some (handle_error m, [])
  | TriggerSignaturesValid g => Some (upd_sg g (fun x => with_signatures (signaturesInvalid x) true x) m, [])
  | SetContext t c => Some (on_tx t m (fun x => if bool_decide (executionContext (life x) = Some c) then (m, []) else (upd_life t (life_context c) m, fire (Tx t) VContext (Ctx c) m)))
  | BookTransaction t => Some (bookTransaction t m)
  | SetBooked t => Some (setBooked t m)
  | PublishOutput s => Some (publishOutput s m)
  | ForkTransaction t r => Some (forkTransaction t r m)
  | UpdateResources t r => Some (on_tx t m (fun x => (conflict_call (CallResources (tx_id x) r) m, if conflictDAG_ok (conflictCalls m) (CallResources (tx_id x) r) then [] else [OrphanAt t 1; HandleError])))
  | CreateConflict t => Some (on_tx t m (fun x => (conflict_call (CallCreate (tx_id x)) m, [Subscribe (Tx t) VParents (UpdateConflictParents t); Subscribe (Tx t) VEvicted (EvictConflict t)])))
  | SetConflicts t c => Some (set_conflicts t c m)
  | UpdateStateDiffs t p n => Some (updateStateDiffs t p n m)
  end.

(** ** Operations *)
Definition alloc_tx (x : TransactionMetadata) (m : MemPool) : MemPool := with_next (Pos.succ (nextPtr m)) (with_txs (<[nextPtr m := x]> (txs m)) m).
Definition alloc_sg (x : SignedTransactionMetadata) (m : MemPool) : MemPool := with_next (Pos.succ (nextPtr m)) (with_sgs (<[nextPtr m := x]> (sgs m)) m).
Definition setupTransaction (t : ptr) (m : MemPool) : MemPool :=
  with_subs (subs m ++ [(Tx t, VAccepted, AddToDiff t); (Tx t, VEvicted, DeleteTransaction t); (Tx t, VCommitted, DelayTransaction t); (Tx t, VOrphaned, DelayTransaction t)]) m.
Definition setupSignedTransaction (g t : ptr) (m : MemPool) : act :=
  (upd_att t (attach_signing (fun s => {[g]} ∪ s)) m, [Subscribe (Sg g) VEvicted (ForgetSigning g t); Subscribe (Tx t) VSolid (SignedSolid g t); Subscribe (Sg g) VEvicted (DeleteSigned g)]).
(** The stored metadata, whether the signed transaction and the transaction are new, the pool and what is to do. *)
Definition storeTransaction (signed : SignedTransaction) (blockID : BlockID) (m : MemPool) : option (ptr * bool * bool) * act :=
  if Slot blockID <=? lastEvictedSlot m then (None, (m, []))
  else match vm_Inputs (signed_tx signed), transaction_ID (signed_tx signed) with
  | None, _ | Some _, None => (None, (m, []))
  | Some references, Some id =>
      let '(t, isNewTransaction, m1) := match cachedTransactions m !! id with
        | Some t => (t, false, m)
        | None => let t := nextPtr m in (t, true, setupTransaction t (with_cached (<[id := t]> (cachedTransactions m)) (alloc_tx (NewTransactionMetadata id references) m)))
        end in
      match signed_ID signed with
      | None => (None, (m1, []))
      | Some sid =>
          match cachedSignedTransactions m1 !! sid with
          | Some g => (Some (g, false, isNewTransaction), (m1, [AddAttachment g blockID]))
          | None => let g := nextPtr m1 in
              let a := setupSignedTransaction g t (with_cachedSigned (<[sid := g]> (cachedSignedTransactions m1)) (alloc_sg (mkSg sid t signed ∅ false false false) m1)) in
              (Some (g, true, isNewTransaction), (a.1, a.2 ++ [AddAttachment g blockID]))
          end
      end
  end.
(** Transactions without inputs never become solid. *)
Definition solidifyInputs (t : ptr) (x : TransactionMetadata) : list Task := Solidify t <$> seq 0 (length (inputReferences x)).
Definition AttachSignedTransaction (signed : SignedTransaction) (blockID : BlockID) (m : MemPool) : option ptr * act :=
  match storeTransaction signed blockID m with
  | (None, a) => (None, a)
  | (Some (g, isNewSigned, isNew), (m1, k)) =>
      match sgs m1 !! g with
      | Some x => let t := transactionMetadata x in
          if isNewSigned then
            let m2 := with_events (pool_events m1 ++ [SignedTransactionAttached g]) m1 in
            if isNew then (Some g, on_tx t m1 (fun y => (with_events (pool_events m2 ++ [TransactionAttached t]) m1, k ++ solidifyInputs t y)))
            else (Some g, (m2, k))
          else (Some g, (m1, k))
      | None => (Some g, (m1, k))
      end
  end.
Definition transactionByAttachment (blockID : BlockID) (m : MemPool) : option ptr :=
  slot ← attachments m !! Slot blockID; g ← slot !! blockID; transactionMetadata <$> sgs m !! g.
(** The first callback of the earliest attachment, registered by the constructor, is run here. *)
Definition markAttachmentIncluded (t : ptr) (blockID : BlockID) (m : MemPool) : act :=
  on_tx t m (fun x => let m1 := upd_att t (attach_valid (<[blockID := true]>)) m in
    let old := earliestIncludedValidAttachment (att x) in
    if ((Slot old =? 0) || (Slot blockID <? Slot old)) && negb (bool_decide (blockID = old)) then
      let m2 := upd_att t (attach_earliest blockID) m1 in
      let isIncluded := negb (Slot blockID =? 0) in let wasIncluded := negb (Slot old =? 0) in
      let a := if Bool.eqb isIncluded wasIncluded then (m2, []) else set_tx_accepted t (isIncluded && allInputsAccepted (acc x) && IsConflictAccepted x) m2 in
      (a.1, a.2 ++ [UpdateStateDiffs t (Slot old) (Slot blockID)])
    else (m1, [])).
Definition MarkAttachmentIncluded (blockID : BlockID) (m : MemPool) : bool * act :=
  if Slot blockID <=? lastEvictedSlot m then (false, (m, []))
  else match transactionByAttachment blockID m with Some t => (true, markAttachmentIncluded t blockID m) | None => (false, (m, [])) end.
Definition Commit (t : ptr) (m : MemPool) : act := on_tx t m (fun x => set_tx_committed t (Slot (earliestIncludedValidAttachment (att x))) m).
Definition Evict (slot : SlotIndex) (m : MemPool) : act :=
  (with_slots (delete slot (attachments m)) (with_diffs (delete slot (stateDiffs m)) (with_lastEvicted slot m)),
   ((fun x => EvictAttachment x.2 x.1) <$> map_to_list (default ∅ (attachments m !! slot))) ++ [EvictDelayed slot]).
Definition InjectRequestedState (st : StateRef) (m : MemPool) : act :=
  match cachedStateRequests m !! state_id st with
  | Some r => (alloc_st (NewStateMetadata st None) m, [Resolve r (nextPtr m)])
  | None => (m, [])
  end.
(** A worker takes the next execution. *)
Definition executeTransaction (m : MemPool) : act :=
  match executionQueue m with
  | [] => (m, [])
  | (c, t) :: rest => let m1 := with_queue rest m in
      on_tx t m1 (fun x => match Execute c (tx_id x) with
        | None => (setInvalid t m1, [])
        | Some l => let a := setExecuted t l m1 in (a.1, a.2 ++ [BookTransaction t])
        end)
  end.
Definition ConflictAccepted (id : TransactionID) (m : MemPool) : act :=
  match cachedTransactions m !! id with Some t => setConflictAccepted t m | None => (m, []) end.
(** The request of a state without waiting for it. *)
Definition StateMetadata_ (ref : StateID) (m : MemPool) : option StateRef :=
  match cachedStateRequests m !! ref ≫= fun r => rqs m !! r with
  | Some (Resolved s) => state <$> sts m !! s
  | Some Rejected_ => None
  | _ => match resolveState ref with StateFound st => Some st | _ => None end
  end.
(** The diff is created on demand; evicted slots have none. *)
Definition StateDiff_ (slot : SlotIndex) (m : MemPool) : option StateDiff * MemPool :=
  if slot <=? lastEvictedSlot m then (None, m)
  else let d := default (NewStateDiff slot) (stateDiffs m !! slot) in (Some d, with_diffs (<[slot := d]> (stateDiffs m)) m).

(** ** Steps *)
Inductive Op := OpAttach (signed : SignedTransaction) (b : BlockID) | OpInclude (b : BlockID) | OpCommit (t : ptr) | OpEvict (slot : SlotIndex) | OpInject (st : StateRef) | OpExecute | OpDiff (slot : SlotIndex).
Definition start (o : Op) (m : MemPool) : act :=
  match o with
  | OpAttach signed b => (AttachSignedTransaction signed b m).2
  | OpInclude b => (MarkAttachmentIncluded b m).2
  | OpCommit t => Commit t m
  | OpEvict slot => Evict slot m
  | OpInject st => InjectRequestedState st m
  | OpExecute => executeTransaction m
  | OpDiff slot => ((StateDiff_ slot m).2, [])
  end.
(** The length of a slice is an [int], and only genesis has slot zero. *)
Definition op_ok (o : Op) : bool := match o with OpAttach signed _ => match vm_Inputs (signed_tx signed) with Some l => Z.of_nat (length l) <? 2 ^ 63 | None => true end | OpInclude b => 0 <? Slot b | _ => true end.
(** An operation starts when no other is under way; the conflict DAG may accept a conflict at any time. *)
Inductive step : MemPool * list Task -> MemPool * list Task -> Prop :=
| step_start o m : op_ok o = true -> step (m, []) (start o m)
| step_accept id m k : step (m, k) ((ConflictAccepted id m).1, (ConflictAccepted id m).2 ++ k)
| step_task k m rest m' new : run_task k m = Some (m', new) -> step (m, k :: rest) (m', new ++ rest).
Definition reachable : MemPool * list Task -> Prop := rtc step (New, []).

(** [run] works off the agenda, [fuel] tasks at most; [None] when it is not done by then, or at a panic. *)
Fixpoint run (fuel : nat) (a : act) : option MemPool :=
  match a.2, fuel with
  | [], _ => Some a.1
  | k :: rest, S fuel => match run_task k a.1 with Some (m, new) => run fuel (m, new ++ rest) | None => None end
  | _, O => None
  end.
Definition perform (fuel : nat) (m : option MemPool) (o : Op) : option MemPool := m ← m; run fuel (start o m).
Lemma run_reaches fuel a m : run fuel a = Some m -> rtc step a (m, []).
Proof.
  revert a. induction fuel as [|fuel IH]; intros [m0 k] H; destruct k as [|k rest]; cbn [run fst snd] in H; try congruence; try (injection H as ->; done).
  destruct (run_task k m0) as [[m' new]|] eqn:E; [|done]. eapply rtc_l; [by apply step_task|]. by apply IH.
Qed.
Lemma perform_reachable fuel ops m : forallb op_ok ops = true -> foldl (perform fuel) (Some New) ops = Some m -> reachable (m, []).
Proof.
  unfold reachable. revert m. induction ops as [|o ops IH] using rev_ind; intros m; [intros _ [= ->]; done|]. rewrite forallb_app, foldl_app, andb_true_iff. intros [Ho1 Ho2]. cbn in Ho2. rewrite andb_true_r in Ho2. cbn [foldl]. destruct (foldl (perform fuel) (Some New) ops) as [m0|]; [|done]. cbn. intros H. etransitivity; [by apply IH|].
  eapply rtc_l; [by apply (step_start o)|]. by apply (run_reaches fuel).
Qed.
End Pool.
