(* ===== verification/MempoolProps.v ===== *)
(** * Invariants of the mempool's acceptance

    The callbacks that are registered or on the agenda account for the counters: every input of a transaction is resolved at most once, every published
    input has one acceptance callback registered with its state or about to be, and the number of unaccepted inputs is the number of inputs less
    the accepted ones, plus the acceptances that are still to be told. *)
From S2P Require Import Prelude Block StateDiff Mempool MempoolSteps.

#[export] Instance Callback_eq_dec : EqDecision Callback.
Proof. solve_decision. Defined.

(** ** Weights *)
Abbreviation ind P := (if decide P then 1 else 0).
Definition cb_tok (t : ptr) (i : nat) (c : Callback) : Z := match c with InputResolved t' i' _ => ind ((t', i') = (t, i)) | _ => 0 end.
Definition w_tok (t : ptr) (i : nat) (k : Task) : Z := match k with Call c _ => cb_tok t i c | Subscribe _ _ c => cb_tok t i c | Solidify t' i' => ind ((t', i') = (t, i)) | _ => 0 end.
Definition st_acc (m : MemPool) (s : ptr) : bool := match sts m !! s with Some x => accepted (st_flags x) | None => false end.
Definition s_pair (t s : ptr) (x : Obj * Var * Callback) : Z := ind (x = (St s, VAccepted, InputAccepted t)).
Definition w_pair (t s : ptr) (k : Task) : Z := match k with Subscribe o v c => s_pair t s (o, v, c) | _ => 0 end.
Definition w_acc (m : MemPool) (t : ptr) (k : Task) : Z :=
  match k with
  | Call c _ => ind (c = InputAccepted t)
  | Subscribe (St s) VAccepted c => if st_acc m s then ind (c = InputAccepted t) else 0
  | _ => 0
  end.
Definition w_sol (t : ptr) (k : Task) : Z := match k with MarkInputSolid t' => ind (t' = t) | _ => 0 end.
Definition i_acc (m : MemPool) (o : option ptr) : Z := match o with Some s => if st_acc m s then 1 else 0 | None => 0 end.
Definition i_pub (o : option ptr) : Z := match o with Some _ => 1 | None => 0 end.
Definition i_is (s : ptr) (o : option ptr) : Z := ind (o = Some s).

(** ** What is known of callbacks and tasks *)
Definition known_tx (m : MemPool) (t : ptr) : Prop := is_Some (txs m !! t).
Definition known_st (m : MemPool) (s : ptr) : Prop := is_Some (sts m !! s).
Definition input_of (m : MemPool) (t : ptr) (i : nat) : Prop := exists x, txs m !! t = Some x /\ (i < length (inputs x))%nat.
Definition solidified (m : MemPool) (t : ptr) : Prop := exists x, txs m !! t = Some x /\ unsolidInputsCount (life x) = 0.
Definition cb_ok (m : MemPool) (o : Obj) (v : Var) (c : Callback) : Prop :=
  match c with
  | InputResolved t i _ => input_of m t i /\ v = VRequest /\ exists r, o = Rq r
  | InputAccepted t => known_tx m t /\ v = VAccepted /\ exists s, o = St s
  | ExecuteTransaction t => solidified m t /\ v = VContext /\ o = Tx t
  | _ => True
  end.
Definition val_ok (m : MemPool) (v : Value) : Prop := match v with Was a b => a = false /\ b = true | State s => known_st m s | _ => True end.
Definition told (c : Callback) (v : Value) : Prop := match c with InputAccepted _ => v = Was false true | _ => True end.
Definition task_ok (m : MemPool) (k : Task) : Prop :=
  match k with
  | Call c v => (exists o w, cb_ok m o w c) /\ val_ok m v /\ told c v
  | Subscribe o v c => cb_ok m o v c
  | Solidify t i => input_of m t i
  | MarkInputSolid t => known_tx m t
  | Resolve _ s | PublishOutput s => known_st m s
  | BookTransaction t | SetBooked t => solidified m t
  | _ => True
  end.
Definition loud (k : Task) : bool :=
  match k with
  | Call (InputResolved _ _ _) _ | Call (InputAccepted _) _ | Subscribe _ _ (InputResolved _ _ _) | Subscribe _ _ (InputAccepted _) | Solidify _ _ | MarkInputSolid _ => true
  | _ => false
  end.

(** ** The invariant *)
Definition local_ok (x : TransactionMetadata) : Prop :=
  (accepted (tx_flags x) = true -> Slot (EarliestIncludedAttachment x) <> 0 /\ allInputsAccepted (acc x) = true)
  /\ (Slot (EarliestIncludedAttachment x) <> 0 -> allInputsAccepted (acc x) = true -> IsConflictAccepted x = true -> accepted (tx_flags x) = true).
Record tx_ok (m : MemPool) (K : list Task) (t : ptr) (x : TransactionMetadata) : Prop := {
  to_len : length (inputs x) = length (inputReferences x);
  to_len_max : Z.of_nat (length (inputs x)) < 2 ^ 63;
  to_inputs s : Some s ∈ inputs x -> known_st m s;
  to_outputs s : s ∈ outputs x -> known_st m s;
  to_tok i : zsum (w_tok t i) K + zsum (fun y => cb_tok t i y.2) (subs m) + i_pub (default None (inputs x !! i)) <= 1;
  to_pair s : zsum (s_pair t s) (subs m) + zsum (w_pair t s) K = zsum (i_is s) (inputs x);
  to_acc : unacceptedInputsCount (acc x) = Z.of_nat (length (inputs x)) - zsum (i_acc m) (inputs x) + zsum (w_acc m t) K;
  to_sol : unsolidInputsCount (life x) = Z.of_nat (length (inputs x)) - zsum i_pub (inputs x) + zsum (w_sol t) K;
  to_acc_max : unacceptedInputsCount (acc x) <= Z.of_nat (length (inputs x));
  to_sol_max : unsolidInputsCount (life x) <= Z.of_nat (length (inputs x));
  to_all : allInputsAccepted (acc x) = true <-> unacceptedInputsCount (acc x) = 0 /\ inputs x <> [];
  to_local : local_ok x;
  to_booked : booked (life x) = true -> solidified m t;
}.
Record Inv (m : MemPool) (K : list Task) : Prop := {
  iv_next p : (nextPtr m <= p)%positive -> txs m !! p = None /\ sts m !! p = None;
  iv_tasks : Forall (task_ok m) K;
  iv_subs : Forall (fun x => cb_ok m x.1.1 x.1.2 x.2) (subs m);
  iv_queue : Forall (fun x => solidified m x.2) (executionQueue m);
  iv_rq r s : rqs m !! r = Some (Resolved s) -> known_st m s;
  iv_tx t x : txs m !! t = Some x -> tx_ok m K t x;
}.

(** ** Lemmas on weights *)
Lemma ind_nonneg (P : Prop) `{Decision P} : 0 <= ind P.
Proof. by case_decide. Qed.
Lemma cb_tok_nonneg t i c : 0 <= cb_tok t i c.
Proof. destruct c; cbn; try lia. apply ind_nonneg. Qed.
Lemma w_tok_nonneg t i k : 0 <= w_tok t i k.
Proof. destruct k; cbn; try lia; try apply cb_tok_nonneg. apply ind_nonneg. Qed.
Lemma w_acc_nonneg m t k : 0 <= w_acc m t k.
Proof. destruct k as [c v|o v c| | | | | | | | | | | | | | | | | | | | | | |]; cbn; try lia; [apply ind_nonneg|]. destruct o, v; try lia. case_match; [apply ind_nonneg|lia]. Qed.
Lemma w_sol_nonneg t k : 0 <= w_sol t k.
Proof. destruct k; cbn; try lia. apply ind_nonneg. Qed.
Lemma zsum_ge0 {A} (f : A -> Z) l : (forall x, 0 <= f x) -> 0 <= zsum f l.
Proof. intros H. apply zsum_nonneg. by apply Forall_true. Qed.
Lemma zsum_zero {A} (f : A -> Z) l : (forall x, x ∈ l -> f x = 0) -> zsum f l = 0.
Proof. induction l as [|x l IH]; cbn; intros H; [done|]. rewrite H, IH by set_solver. done. Qed.
Lemma zsum_insert {A} (f : A -> Z) l i a b : l !! i = Some a -> zsum f (<[i := b]> l) = zsum f l - f a + f b.
Proof.
  revert i. induction l as [|y l IH]; intros [|i] H; [done..|injection H as ->; cbn; lia|]. change (<[S i := b]> (y :: l)) with (y :: <[i := b]> l). cbn [zsum]. rewrite (IH i H). lia.
Qed.
Lemma quiet_weights m t i s k : loud k = false -> w_tok t i k = 0 /\ w_pair t s k = 0 /\ w_acc m t k = 0 /\ w_sol t k = 0.
Proof.
  destruct k as [c v|o v c| | | | | | | | | | | | | | | | | | | | | | |]; cbn; try done.
  - destruct c; try done; intros _; split_and!; cbn; try done; by rewrite decide_False by done.
  - destruct c; try done; intros _; split_and!; cbn; try done; try (unfold s_pair; by rewrite decide_False by (intros [=])); destruct o, v; try done; case_match; done || by rewrite decide_False by done.
Qed.
Lemma quiet_sums m t i s l : Forall (fun k => loud k = false) l -> zsum (w_tok t i) l = 0 /\ zsum (w_pair t s) l = 0 /\ zsum (w_acc m t) l = 0 /\ zsum (w_sol t) l = 0.
Proof. rewrite Forall_forall. intros H. split_and!; apply zsum_zero; intros k Hk; destruct (quiet_weights m t i s k (H k Hk)) as (? & ? & ? & ?); done. Qed.

Lemma Inv_weights m K K' : Inv m K -> Forall (task_ok m) K' ->
  (forall t i s, known_tx m t -> zsum (w_tok t i) K' <= zsum (w_tok t i) K /\ zsum (w_pair t s) K' = zsum (w_pair t s) K /\ zsum (w_acc m t) K' = zsum (w_acc m t) K /\ zsum (w_sol t) K' = zsum (w_sol t) K) -> Inv m K'.
Proof.
  intros [] HK Hw. split; try done. intros t x Ht. destruct (iv_tx0 t x Ht) as []. assert (Hk : known_tx m t) by by exists x. split; try done.
  - intros i. destruct (Hw t i 1%positive Hk) as (H1 & _). specialize (to_tok0 i). lia.
  - intros s. destruct (Hw t 0%nat s Hk) as (_ & H1 & _). rewrite H1. done.
  - destruct (Hw t 0%nat 1%positive Hk) as (_ & _ & H1 & _). by rewrite H1.
  - destruct (Hw t 0%nat 1%positive Hk) as (_ & _ & _ & H1). by rewrite H1.
Qed.
Lemma Inv_push m K l : Inv m K -> Forall (task_ok m) l -> Forall (fun k => loud k = false) l -> Inv m (l ++ K).
Proof.
  intros HI Hl Hq. eapply Inv_weights; [exact HI|apply Forall_app; split; [done|apply HI]|]. intros t i s _. destruct (quiet_sums m t i s l Hq) as (H1 & H2 & H3 & H4). rewrite !zsum_app. lia.
Qed.
Lemma Inv_pop m k K : Inv m (k :: K) -> loud k = false -> Inv m K.
Proof.
  intros HI Hk. eapply Inv_weights; [exact HI|eapply Forall_inv_tail, iv_tasks, HI|]. intros t i s _. destruct (quiet_weights m t i s k Hk) as (H1 & H2 & H3 & H4). cbn [zsum]. lia.
Qed.

(** ** Changes that do not concern the invariant *)
Definition core (x : TransactionMetadata) := (inputReferences x, inputs x, outputs x, unsolidInputsCount (life x), booked (life x), acc x, accepted (tx_flags x), Slot (EarliestIncludedAttachment x)).
Record same_objects (m m' : MemPool) : Prop := {
  so_tx t : core <$> txs m' !! t = core <$> txs m !! t;
  so_st s : (fun x => accepted (st_flags x)) <$> sts m' !! s = (fun x => accepted (st_flags x)) <$> sts m !! s;
}.
Lemma same_known_tx m m' t : same_objects m m' -> known_tx m' t <-> known_tx m t.
Proof. intros [H _]. specialize (H t). unfold known_tx. destruct (txs m' !! t), (txs m !! t); done || (split; intros []; done). Qed.
Lemma same_known_st m m' s : same_objects m m' -> known_st m' s <-> known_st m s.
Proof. intros [_ H]. specialize (H s). unfold known_st. destruct (sts m' !! s), (sts m !! s); done || (split; intros []; done). Qed.
Lemma same_st_acc m m' s : same_objects m m' -> st_acc m' s = st_acc m s.
Proof. intros [_ H]. specialize (H s). unfold st_acc. destruct (sts m' !! s), (sts m !! s); cbn in H; congruence. Qed.
Lemma same_core m m' t x' : same_objects m m' -> txs m' !! t = Some x' -> exists x, txs m !! t = Some x /\ core x' = core x.
Proof. intros [H _] Ht. specialize (H t). rewrite Ht in H. destruct (txs m !! t) as [x|]; [|done]. exists x. split; [done|]. cbn in H. congruence. Qed.
Lemma same_sym m m' : same_objects m m' -> same_objects m' m.
Proof. intros [H1 H2]. by split. Qed.
Lemma same_solidified m m' t : same_objects m m' -> solidified m t -> solidified m' t.
Proof.
  intros Hs%same_sym (x & Hx & Hu). destruct (same_core _ _ _ _ Hs Hx) as (x' & Hx' & Hc). exists x'. split; [done|]. injection Hc. congruence.
Qed.
Lemma same_input_of m m' t i : same_objects m m' -> input_of m t i -> input_of m' t i.
Proof.
  intros Hs%same_sym (x & Hx & Hu). destruct (same_core _ _ _ _ Hs Hx) as (x' & Hx' & Hc). exists x'. split; [done|]. injection Hc. congruence.
Qed.
Lemma same_cb_ok m m' o v c : same_objects m m' -> cb_ok m o v c -> cb_ok m' o v c.
Proof. intros Hs. destruct c; cbn; try done; rewrite ?(same_known_tx _ _ _ Hs); intros (H & H1); split; eauto using same_solidified, same_input_of. Qed.
Lemma same_task_ok m m' k : same_objects m m' -> task_ok m k -> task_ok m' k.
Proof.
  intros Hs. destruct k; cbn; rewrite ?(same_known_tx _ _ _ Hs), ?(same_known_st _ _ _ Hs); eauto using same_solidified, same_input_of, same_cb_ok.
  intros [(o & w & Hc) [Hv Ht]]. split; [exists o, w; by eapply same_cb_ok|]. split; [|done]. destruct v; cbn in *; rewrite ?(same_known_st _ _ _ Hs); done.
Qed.
Lemma same_w_acc m m' t K : same_objects m m' -> zsum (w_acc m' t) K = zsum (w_acc m t) K.
Proof. intros Hs. apply zsum_ext. intros k _. destruct k as [|o v c| | | | | | | | | | | | | | | | | | | | | | |]; cbn; try done. destruct o, v; try done. by rewrite (same_st_acc _ _ _ Hs). Qed.
Lemma same_i_acc m m' (l : list (option ptr)) : same_objects m m' -> zsum (i_acc m') l = zsum (i_acc m) l.
Proof. intros Hs. apply zsum_ext. intros [s|] _; [|done]. cbn. by rewrite (same_st_acc _ _ _ Hs). Qed.
Record same (m m' : MemPool) : Prop := {
  sm_objects : same_objects m m';
  sm_next : (nextPtr m <= nextPtr m')%positive;
  sm_subs : Forall (fun x => cb_ok m x.1.1 x.1.2 x.2) (subs m');
  sm_tok t i : zsum (fun y => cb_tok t i y.2) (subs m') = zsum (fun y => cb_tok t i y.2) (subs m);
  sm_pair t s : zsum (s_pair t s) (subs m') = zsum (s_pair t s) (subs m);
  sm_queue : Forall (fun x => solidified m x.2) (executionQueue m');
  sm_rq r s : rqs m' !! r = Some (Resolved s) -> known_st m s;
}.
Lemma Inv_same m m' K : Inv m K -> same m m' -> Inv m' K.
Proof.
  intros [] [Hs]. pose proof (same_sym _ _ Hs) as Hs'. split.
  - intros p Hp. destruct (iv_next0 p) as [H1 H2]; [lia|]. pose proof (so_tx _ _ Hs p). pose proof (so_st _ _ Hs p). rewrite H1 in *. rewrite H2 in *. by destruct (txs m' !! p), (sts m' !! p).
  - eapply Forall_impl; [exact iv_tasks0|]. intros k. by apply same_task_ok.
  - eapply Forall_impl; [exact sm_subs0|]. intros k. by apply same_cb_ok.
  - eapply Forall_impl; [exact sm_queue0|]. intros k. by apply same_solidified.
  - intros r s Hr. rewrite (same_known_st _ _ _ Hs). eauto.
  - intros t x' Ht. destruct (same_core _ _ _ _ Hs Ht) as (x & Hx & Hc). destruct (iv_tx0 t x Hx) as []. injection Hc as E1 E2 E3 E4 E5 E6 E7 E8.
    split; rewrite ?E1, ?E2, ?E3, ?E4, ?E5, ?E6, ?E7, ?E8, ?sm_tok0; try done.
    + intros s Hin. rewrite (same_known_st _ _ _ Hs). eauto.
    + intros s Hin. rewrite (same_known_st _ _ _ Hs). eauto.
    + intros i. rewrite sm_tok0. done.
    + intros s. rewrite sm_pair0. done.
    + by rewrite (same_w_acc _ _ _ _ Hs), (same_i_acc _ _ _ Hs).
    + unfold local_ok, IsConflictAccepted in *. rewrite E6, E7, E8. done.
    + intros Hb. eapply same_solidified; eauto.
Qed.

(** ** Handlers that keep the invariant whatever is on the agenda *)
Definition keeps (m : MemPool) (a : act) : Prop := forall K, Inv m K -> Inv a.1 (a.2 ++ K).
Definition quiet (m : MemPool) (l : list Task) : Prop := Forall (fun k => task_ok m k /\ loud k = false) l.
Lemma keep_same m m' l : (forall K, Inv m K -> same m m' /\ quiet m l) -> keeps m (m', l).
Proof.
  intros H K HI. destruct (H K HI) as [Hs [Hl Hq]%Forall_and]. cbn. eapply Inv_same; [|exact Hs]. by apply Inv_push.
Qed.
Lemma keep_refl m : keeps m (m, []).
Proof. by intros K HI. Qed.
Lemma same_objects_refl m m' : txs m' = txs m -> sts m' = sts m -> same_objects m m'.
Proof. intros H1 H2. split; intros; by rewrite ?H1, ?H2. Qed.
Lemma same_upd_tx t f m : (forall x, txs m !! t = Some x -> core (f x) = core x) -> same_objects m (upd_tx t f m).
Proof.
  intros H. split; [|done]. intros t'. cbn. destruct (decide (t = t')) as [<-|]; [rewrite lookup_alter_eq|by rewrite lookup_alter_ne]. destruct (txs m !! t) as [x|] eqn:E; [|done]. cbn. f_equal. eauto.
Qed.
Lemma same_upd_st s f m : (forall x, sts m !! s = Some x -> accepted (st_flags (f x)) = accepted (st_flags x)) -> same_objects m (upd_st s f m).
Proof.
  intros H. split; [done|]. intros t'. cbn. destruct (decide (s = t')) as [<-|]; [rewrite lookup_alter_eq|by rewrite lookup_alter_ne]. destruct (sts m !! s) as [x|] eqn:E; [|done]. cbn. f_equal. eauto.
Qed.
Lemma same_of m m' K : Inv m K -> same_objects m m' -> nextPtr m' = nextPtr m -> subs m' = subs m -> executionQueue m' = executionQueue m -> rqs m' = rqs m -> same m m'.
Proof. intros [] Hs E1 E2 E3 E4. split; try done; rewrite ?E1, ?E2, ?E3, ?E4; try done. Qed.
Lemma same_objects_trans m1 m2 m3 : same_objects m1 m2 -> same_objects m2 m3 -> same_objects m1 m3.
Proof. intros [H1 H2] [H3 H4]. split; intros; by rewrite ?H3, ?H1, ?H4, ?H2. Qed.

Definition boring (o : Obj) (v : Var) : bool := match o, v with Rq _, _ => false | St _, VAccepted => false | _, _ => true end.
Lemma elem_of_fire o v x m k : k ∈ fire o v x m <-> exists c, (o, v, c) ∈ subs m /\ k = Call c x.
Proof.
  unfold fire. rewrite list_elem_of_omap. split.
  - intros ([[o' v'] c] & Hin & H). case_bool_decide as E; [|done]. destruct E as [<- <-]. injection H as <-. eauto.
  - intros (c & Hin & ->). exists (o, v, c). split; [done|]. rewrite bool_decide_true by done. done.
Qed.
Lemma fire_quiet o v x m K : Inv m K -> boring o v = true -> val_ok m x -> quiet m (fire o v x m).
Proof.
  intros HI Hb Hv. apply Forall_forall. intros k (c & Hin & ->)%elem_of_fire. pose proof (iv_subs _ _ HI) as Hs. rewrite Forall_forall in Hs. specialize (Hs _ Hin). cbn in Hs.
  assert (Hc : loud (Call c x) = false) by (destruct c; try done; cbn in *; destruct Hs as (_ & -> & r & ->); done).
  split; [split; [by exists o, v|split; [done|by destruct c]]|done].
Qed.
Lemma quiet_app m l1 l2 : quiet m l1 -> quiet m l2 -> quiet m (l1 ++ l2).
Proof. intros. by apply Forall_app. Qed.
Lemma quiet_nil m : quiet m [].
Proof. constructor. Qed.
Lemma quiet_cons m k l : task_ok m k -> loud k = false -> quiet m l -> quiet m (k :: l).
Proof. intros. by constructor. Qed.
#[export] Hint Resolve keep_refl quiet_nil quiet_app : pool.
#[export] Hint Extern 1 (quiet _ (fire _ _ _ _)) => (eapply fire_quiet; [eassumption|done|done]) : pool.
#[export] Hint Extern 2 (quiet _ (_ :: _)) => (apply quiet_cons; [done|done|]) : pool.
#[export] Hint Extern 1 (quiet _ (if ?b then _ else _)) => destruct b : pool.
#[export] Hint Extern 1 (same_objects _ (upd_tx _ _ _)) => (apply same_upd_tx; let x := fresh in let H := fresh in intros x H; try (simplify_eq); done) : pool.
#[export] Hint Extern 1 (same_objects _ (upd_st _ _ _)) => (apply same_upd_st; let x := fresh in let H := fresh in intros x H; try (simplify_eq); done) : pool.
#[export] Hint Extern 1 (same_objects _ (upd_att _ _ _)) => (first [apply same_upd_tx; intros; done|eapply same_objects_trans; [|apply same_upd_tx; intros; done]]) : pool.
#[export] Hint Extern 1 (same_objects _ (upd_life _ _ _)) => (apply same_upd_tx; intros; done) : pool.
#[export] Hint Extern 2 (same_objects _ _) => (apply same_objects_refl; done) : pool.
Ltac keep := apply keep_same; let K := fresh "K" in let HI := fresh "HI" in intros K HI; split; [eapply same_of; [exact HI|solve [auto with pool]|done|done|done|done]|solve [auto 10 with pool]].
Ltac keeping := repeat match goal with
  | |- keeps _ (on_tx _ _ _) => unfold on_tx
  | |- keeps _ (on_st _ _ _) => unfold on_st
  | |- keeps _ (on_sg _ _ _) => unfold on_sg
  | |- keeps ?m (?m, []) => apply keep_refl
  | |- keeps _ (if ?b then _ else _) => destruct b eqn:?
  | |- keeps _ (match ?x with _ => _ end) => destruct x eqn:?
  end; try keep.

Lemma set_tx_rejected_keeps t m : keeps m (set_tx_rejected t m).
Proof. unfold set_tx_rejected. keeping. Qed.
Lemma set_st_rejected_keeps s m : keeps m (set_st_rejected s m).
Proof. unfold set_st_rejected. keeping. Qed.
Lemma set_tx_orphaned_keeps t n m : keeps m (set_tx_orphaned t n m).
Proof. unfold set_tx_orphaned. keeping. Qed.
Lemma set_st_orphaned_keeps s n m : keeps m (set_st_orphaned s n m).
Proof. unfold set_st_orphaned. keeping. Qed.
Lemma set_tx_committed_keeps t n m : keeps m (set_tx_committed t n m).
Proof. unfold set_tx_committed. keeping. Qed.
Lemma set_st_committed_keeps s n m : keeps m (set_st_committed s n m).
Proof. unfold set_st_committed. keeping. Qed.
Lemma set_spendAccepted_keeps s v m : keeps m (set_spendAccepted s v m).
Proof. unfold set_spendAccepted. keeping. Qed.
Lemma set_spendCommitted_keeps s v m : keeps m (set_spendCommitted s v m).
Proof. unfold set_spendCommitted. keeping. Qed.
Lemma decreaseSpenderCount_keeps s m : keeps m (decreaseSpenderCount s m).
Proof. unfold decreaseSpenderCount. keeping. Qed.
Lemma increaseSpenderCount_keeps s m : keeps m (increaseSpenderCount s m).
Proof. unfold increaseSpenderCount. keeping. Qed.
Lemma evictValidAttachment_keeps t b m : keeps m (evictValidAttachment t b m).
Proof. unfold evictValidAttachment. keeping. Qed.
Lemma addValidAttachments_keeps t l m : keeps m (foldl (addValidAttachment t) m l, []).
Proof.
  revert m. induction l as [|b l IH]; intros m; cbn [foldl]; [apply keep_refl|]. intros K HI. apply (IH _ K). assert (H : keeps m (addValidAttachment t m b, [])) by (unfold addValidAttachment; keep). by apply (H K).
Qed.
Lemma addAttachment_keeps g b m : keeps m (addAttachment g b m).
Proof. unfold addAttachment. keeping. Qed.
Lemma evictAttachment_keeps g b m : keeps m (evictAttachment g b m).
Proof. unfold evictAttachment. keeping. Qed.
Lemma evict_tx_keeps id m : keeps m (evict_tx id m).
Proof. unfold evict_tx. keeping. Qed.
Lemma quiet_fmap {A} m (f : A -> Task) l : (forall a, task_ok m (f a) /\ loud (f a) = false) -> quiet m (f <$> l).
Proof. intros H. apply Forall_fmap. apply Forall_true. intros a. apply H. Qed.
Lemma remove_attachments_fields l m : let m' := foldr remove_attachment m l in txs m' = txs m /\ sts m' = sts m /\ nextPtr m' = nextPtr m /\ subs m' = subs m /\ executionQueue m' = executionQueue m /\ rqs m' = rqs m.
Proof. induction l as [|b l IH]; cbn; [done|]. done. Qed.
Lemma delete_transaction_keeps t m : keeps m (delete_transaction t m).
Proof.
  unfold delete_transaction. unfold on_tx. destruct (txs m !! t) as [x|]; [|apply keep_refl]. apply keep_same. intros K HI. split; [|by apply quiet_fmap].
  destruct (cachedTransactions m !! tx_id x); [|by eapply same_of; [exact HI|apply same_objects_refl|..]].
  destruct (remove_attachments_fields (map_to_list (validAttachments (att x))).*1 (with_cached (delete (tx_id x) (cachedTransactions m)) m)) as (E1 & E2 & E3 & E4 & E5 & E6).
  eapply same_of; [exact HI|by apply same_objects_refl|done..].
Qed.
Lemma add_to_diff_keeps t x slot m : keeps m (add_to_diff t x slot m).
Proof. unfold add_to_diff. keep. Qed.
Lemma rollback_in_diff_keeps t slot m : keeps m (rollback_in_diff t slot m, []).
Proof. unfold rollback_in_diff. destruct (txs m !! t); [|keep]. destruct (stateDiffs m !! slot); keep. Qed.
Lemma keeps_then m m1 a : keeps m (m1, []) -> keeps m1 a -> keeps m a.
Proof. intros H1 H2 K HI. apply H2, (H1 K HI). Qed.
Lemma updateStateDiffs_keeps t p n m : keeps m (updateStateDiffs t p n m).
Proof.
  unfold updateStateDiffs, on_tx. destruct (txs m !! t) as [x|]; [|apply keep_refl]. destruct (p =? n); [apply keep_refl|].
  apply (keeps_then m (if p =? 0 then m else rollback_in_diff t p m)); [destruct (p =? 0); [apply keep_refl|apply rollback_in_diff_keeps]|].
  destruct (accepted (tx_flags x) && negb (n =? 0)); [|apply keep_refl]. destruct (n <=? lastEvictedSlot m); [keep|apply add_to_diff_keeps].
Qed.
Lemma inherit_parents_keeps t m : keeps m (inherit_parents t m).
Proof. unfold inherit_parents. keeping. Qed.
Lemma set_conflicts_keeps t c m : keeps m (set_conflicts t c m).
Proof. unfold set_conflicts. keeping. Qed.
Lemma inherit_from_source_keeps s m : keeps m (inherit_from_source s m).
Proof. unfold inherit_from_source. keeping. Qed.
Lemma evictOutputs_keeps d m : keeps m (evictOutputs d m, []).
Proof.
  unfold evictOutputs. destruct (delayedOutputStateEviction m !! d) as [o|]; [|keep]. apply keep_same. intros K HI. split; [|apply quiet_nil].
  assert (H : forall l m0, let m' := foldr (fun '(id, s) m => match sts m !! s with Some x => if HasNoSpenders x then with_requests (delete id (cachedStateRequests m)) m else m | None => m end) m0 l in
    txs m' = txs m0 /\ sts m' = sts m0 /\ nextPtr m' = nextPtr m0 /\ subs m' = subs m0 /\ executionQueue m' = executionQueue m0 /\ rqs m' = rqs m0).
  { induction l as [|[id s] l IH]; intros m0; cbn [foldr]; [done|]. specialize (IH m0). cbn zeta in IH |- *. destruct (sts _ !! s) as [y|]; [|done]. by destruct (HasNoSpenders y). }
  destruct (H (map_to_list o) (with_delayedTx (delete d (delayedTransactionEviction m)) m)) as (E1 & E2 & E3 & E4 & E5 & E6).
  eapply same_of; [exact HI|by apply same_objects_refl|done..].
Qed.
Lemma evictDelayed_keeps mca slot m : keeps m (evictDelayed mca slot m).
Proof. unfold evictDelayed. keeping. apply keep_same. intros K HI. split; [by eapply same_of; [exact HI|apply same_objects_refl|..]|]. apply quiet_app; [by apply quiet_fmap|auto with pool]. Qed.
Lemma signed_solid_keeps vs g t m : keeps m (signed_solid vs g t m).
Proof. unfold signed_solid. keeping. Qed.
Lemma zsum_filter_zero {A} (f : A -> Z) (P : A -> Prop) `{forall x, Decision (P x)} l : (forall x, ~ P x -> f x = 0) -> zsum f (filter P l) = zsum f l.
Proof. intros Hf. induction l as [|x l IH]; [done|]. destruct (decide (P x)); [rewrite filter_cons_True by done; cbn; by rewrite IH|rewrite filter_cons_False by done; cbn; rewrite IH, Hf by done; done]. Qed.
Lemma Forall_of_filter {A} (Q P : A -> Prop) `{forall x, Decision (P x)} l : Forall Q l -> Forall Q (filter P l).
Proof. rewrite !Forall_forall. intros HQ x [_ Hx]%list_elem_of_filter. auto. Qed.
Lemma evict_conflict_keeps t m x : keeps m (conflict_call (CallEvict (tx_id x)) (unsubscribe (Tx t) VParents (fun c => match c with UpdateConflictParents _ => true | _ => false end) m), []).
Proof.
  apply keep_same. intros K HI. split; [|apply quiet_nil]. destruct HI. split; cbn; try done.
  - by apply Forall_of_filter.
  - intros t' i. apply zsum_filter_zero. intros [[o v] c] Hn. cbn in *. destruct (decide ((o, v) = (Tx t, VParents) /\ match c with UpdateConflictParents _ => true | _ => false end = true)) as [[_ Hc]|]; [|done]. by destruct c.
  - intros t' s. apply zsum_filter_zero. intros [[o v] c] Hn. cbn in *. destruct (decide ((o, v) = (Tx t, VParents) /\ match c with UpdateConflictParents _ => true | _ => false end = true)) as [[_ Hc]|]; [|done]. unfold s_pair. rewrite decide_False; [done|]. intros [=]; subst. done.
Qed.

(** ** Subscriptions *)
Lemma Inv_subs m K l K' : Inv m K -> Forall (fun x => cb_ok m x.1.1 x.1.2 x.2) l -> Forall (task_ok m) K' ->
  (forall t i, zsum (w_tok t i) K' + zsum (fun y => cb_tok t i y.2) l <= zsum (w_tok t i) K + zsum (fun y => cb_tok t i y.2) (subs m)) ->
  (forall t s, zsum (s_pair t s) l + zsum (w_pair t s) K' = zsum (s_pair t s) (subs m) + zsum (w_pair t s) K) ->
  (forall t, zsum (w_acc m t) K' = zsum (w_acc m t) K /\ zsum (w_sol t) K' = zsum (w_sol t) K) -> Inv (with_subs l m) K'.
Proof.
  intros [] Hl HK H1 H2 H3. assert (Hs : same_objects m (with_subs l m)) by by apply same_objects_refl. split; try done. intros t x Ht. destruct (iv_tx0 t x Ht) as []. destruct (H3 t) as [H3a H3b]. split; try done.
  - intros i. cbn. specialize (H1 t i). specialize (to_tok0 i). lia.
  - intros s. cbn. rewrite H2. done.
  - by rewrite (same_w_acc _ _ _ _ Hs), (same_i_acc _ _ _ Hs), H3a.
  - by rewrite H3b.
Qed.
Lemma current_val_ok m K o v x : Inv m K -> current o v m = Some x -> val_ok m x.
Proof.
  intros HI H. destruct o as [t|s|g|r]; cbn in H; apply bind_Some in H as (y & Hy & H).
  - destruct v; try done; repeat case_match; simplify_eq; try done. destruct (executionContext (life y)); cbn in H; by simplify_eq.
  - destruct v; try done; repeat case_match; simplify_eq; try done; [destruct (spendAccepted y)|destruct (spendCommitted y)]; cbn in H; by simplify_eq.
  - destruct v; try done; repeat case_match; by simplify_eq.
  - destruct y as [|s|], v; try done; simplify_eq; try done. cbn. by eapply iv_rq.
Qed.
Lemma current_st_accepted m s : (match current (St s) VAccepted m with Some _ => true | None => false end) = st_acc m s.
Proof. cbn. unfold st_acc. destruct (sts m !! s) as [x|]; cbn; [|done]. by destruct (accepted (st_flags x)). Qed.
Lemma subscribe_step m o v c K : Inv m (Subscribe o v c :: K) -> Inv (subscribe o v c m).1 ((subscribe o v c m).2 ++ K).
Proof.
  intros HI. pose proof (iv_tasks _ _ HI) as HK. apply Forall_cons in HK as [Hc HK]. cbn in Hc.
  set (call := match current o v m with Some x => [Call c x] | None => [] end).
  assert (Hcall : Forall (task_ok m) (call ++ K)).
  { apply Forall_app. split; [|done]. unfold call. destruct (current o v m) as [x|] eqn:E; [|constructor]. constructor; [|constructor]. split; [by exists o, v|split; [by eapply current_val_ok|]]. destruct c; try done. destruct Hc as (_ & -> & s & ->). cbn in E |- *. destruct (sts m !! s) as [y|]; cbn in E; [|done]. destruct (accepted (st_flags y)); by simplify_eq. }
  assert (Hacc : forall t, zsum (w_acc m t) (call ++ K) = zsum (w_acc m t) (Subscribe o v c :: K)).
  { intros t. rewrite zsum_app. cbn [zsum]. f_equal. destruct (decide (c = InputAccepted t)) as [->|Hne].
    - cbn in Hc. destruct Hc as (_ & -> & s & ->). unfold call. pose proof (current_st_accepted m s) as E. cbn [w_acc]. rewrite <- E. destruct (current (St s) VAccepted m); cbn; [by rewrite decide_True|done].
    - assert (E : w_acc m t (Subscribe o v c) = 0) by (cbn; destruct o, v; try done; case_match; [by rewrite decide_False|done]). rewrite E. unfold call. destruct (current o v m); cbn; [by rewrite decide_False|done]. }
  assert (Hsol : forall t, zsum (w_sol t) (call ++ K) = zsum (w_sol t) (Subscribe o v c :: K)) by (intros t; rewrite zsum_app; unfold call; by destruct (current o v m)).
  assert (Hpair : forall t s, zsum (w_pair t s) (call ++ K) = zsum (w_pair t s) K) by (intros t s; rewrite zsum_app; unfold call; by destruct (current o v m)).
  assert (Htok : forall t i, zsum (w_tok t i) (call ++ K) <= cb_tok t i c + zsum (w_tok t i) K).
  { intros t i. rewrite zsum_app. unfold call. pose proof (cb_tok_nonneg t i c). destruct (current o v m); cbn; lia. }
  unfold subscribe. fold call. cbn [fst snd]. destruct (completed o m) eqn:Eo.
  - assert (Hn : forall t s, s_pair t s (o, v, c) = 0) by (intros t s; unfold s_pair; rewrite decide_False; [done|]; intros [=]; subst; done).
    eapply Inv_weights; [exact HI|done|]. intros t i s _. rewrite Hpair, Hacc, Hsol. specialize (Htok t i). cbn [zsum w_tok w_pair]. rewrite Hn. split_and!; done || lia.
  - assert (Hnc : forall t i, cb_tok t i c <> 0 -> call = []).
    { intros t i Hne. destruct c; try done. destruct Hc as (_ & -> & r & ->). unfold call. cbn in Eo |- *. destruct (rqs m !! r) as [[]|]; done. }
    eapply Inv_subs; [exact HI|apply Forall_app; split; [apply HI|by constructor]|done|..]; intros t.
    + intros i. rewrite (zsum_app _ (subs m)). specialize (Htok t i). cbn [zsum w_tok snd]. destruct (decide (cb_tok t i c = 0)) as [E|E]; [lia|]. apply Hnc in E as ->. cbn [zsum app]. lia.
    + intros s. rewrite Hpair, zsum_app. cbn [zsum w_pair]. lia.
    + by rewrite Hacc, Hsol.
Qed.
Lemma resolve_step m r s K : Inv m (Resolve r s :: K) -> Inv (resolve r s m).1 ((resolve r s m).2 ++ K).
Proof.
  intros HI. pose proof (iv_tasks _ _ HI) as HK. apply Forall_cons in HK as [Hs HK]. cbn in Hs. apply Inv_pop in HI; [|done]. unfold resolve. destruct (rqs m !! r) as [[]|] eqn:Er; try done. cbn [fst snd].
  set (l := filter (fun x => x.1.1 <> Rq r) (subs m)). set (calls := fire (Rq r) VRequest (State s) m).
  assert (HI' : Inv (with_subs l m) (calls ++ K)).
  { assert (Hcb := iv_subs _ _ HI). rewrite Forall_forall in Hcb. eapply Inv_subs; [exact HI|apply Forall_of_filter, HI|..].
    - apply Forall_app. split; [|done]. apply Forall_forall. intros k (c & Hin & ->)%elem_of_fire. specialize (Hcb _ Hin). split; [by exists (Rq r), VRequest|]. split; [done|]. destruct c; try done. by destruct Hcb as (_ & ? & _).
    - intros t i. rewrite zsum_app. assert (H : zsum (w_tok t i) calls + zsum (fun y => cb_tok t i y.2) l <= zsum (fun y => cb_tok t i y.2) (subs m)); [|lia].
      unfold calls, fire, l. clear. induction (subs m) as [|[[o v] c] q IH]; [done|]. pose proof (cb_tok_nonneg t i c). destruct (decide (o = Rq r)) as [->|Hne].
      + rewrite filter_cons_False by tauto. remember (filter _ q) as lq. cbn. case_bool_decide; cbn; lia.
      + rewrite filter_cons_True by done. remember (filter _ q) as lq. cbn. rewrite bool_decide_false by (intros [? ?]; congruence). cbn. lia.
    - intros t s'. rewrite zsum_app. assert (H1 : zsum (w_pair t s') calls = 0) by (apply zsum_zero; intros k (c & _ & ->)%elem_of_fire; done).
      assert (H2 : zsum (s_pair t s') l = zsum (s_pair t s') (subs m)); [|lia]. apply zsum_filter_zero. intros [[o v] c] Hn. unfold s_pair. rewrite decide_False; [done|]. intros [=]; subst. by apply Hn.
    - intros t. rewrite !zsum_app. split.
      + assert (H1 : zsum (w_acc m t) calls = 0); [|lia]. apply zsum_zero. intros k (c & Hin & ->)%elem_of_fire. specialize (Hcb _ Hin). cbn in Hcb |- *. rewrite decide_False; [done|]. intros ->. destruct Hcb as (_ & ? & _). done.
      + assert (H1 : zsum (w_sol t) calls = 0); [|lia]. apply zsum_zero. intros k (c & Hin & ->)%elem_of_fire. done. }
  eapply Inv_same; [exact HI'|]. destruct HI'. split; try done. intros r' s'. cbn. destruct (decide (r = r')) as [<-|]; [rewrite lookup_insert_eq; intros [= <-]; done|rewrite lookup_insert_ne by done; apply iv_rq0].
Qed.

(** ** Changes of one transaction, new objects *)
Record extends (m m' : MemPool) : Prop := {
  ex_tx t x : txs m !! t = Some x -> exists x', txs m' !! t = Some x' /\ length (inputs x') = length (inputs x) /\ (unsolidInputsCount (life x) = 0 -> unsolidInputsCount (life x') = 0);
  ex_st s : known_st m s -> known_st m' s;
}.
Lemma extends_known m m' t : extends m m' -> known_tx m t -> known_tx m' t.
Proof. intros [H _] [x Hx]. destruct (H t x Hx) as (x' & Hx' & _). by exists x'. Qed.
Lemma extends_solidified m m' t : extends m m' -> solidified m t -> solidified m' t.
Proof. intros [H _] (x & Hx & Hu). destruct (H t x Hx) as (x' & Hx' & _ & Hu'). exists x'. auto. Qed.
Lemma extends_input_of m m' t i : extends m m' -> input_of m t i -> input_of m' t i.
Proof. intros [H _] (x & Hx & Hu). destruct (H t x Hx) as (x' & Hx' & Hl & _). exists x'. rewrite Hl. auto. Qed.
Lemma extends_cb_ok m m' o v c : extends m m' -> cb_ok m o v c -> cb_ok m' o v c.
Proof. intros He. destruct c; cbn; try done; intros (H & H1); split; eauto using extends_solidified, extends_input_of, extends_known. Qed.
Lemma extends_task_ok m m' k : extends m m' -> task_ok m k -> task_ok m' k.
Proof.
  intros He. destruct k; cbn; eauto using extends_solidified, extends_input_of, extends_known, ex_st, extends_cb_ok. intros [(o & w & Hc) [Hv Ht]]. split; [exists o, w; by eapply extends_cb_ok|]. split; [|done]. destruct v; cbn in *; eauto using ex_st.
Qed.
Lemma extends_subs m m' : extends m m' -> forall l, Forall (fun x => cb_ok m x.1.1 x.1.2 x.2) l -> Forall (fun x => cb_ok m' x.1.1 x.1.2 x.2) l.
Proof. intros He l H. eapply Forall_impl; [exact H|]. intros x. by apply extends_cb_ok. Qed.
Lemma extends_tasks m m' K : extends m m' -> Forall (task_ok m) K -> Forall (task_ok m') K.
Proof. intros He H. eapply Forall_impl; [exact H|]. intros x. by apply extends_task_ok. Qed.

Definition step_weights (m : MemPool) (t : ptr) (K K' : list Task) : Prop :=
  forall i s, zsum (w_tok t i) K' <= zsum (w_tok t i) K /\ zsum (w_pair t s) K' = zsum (w_pair t s) K /\ zsum (w_acc m t) K' = zsum (w_acc m t) K /\ zsum (w_sol t) K' = zsum (w_sol t) K.
Lemma upd_extends t f m : (forall x, txs m !! t = Some x -> length (inputs (f x)) = length (inputs x) /\ (unsolidInputsCount (life x) = 0 -> unsolidInputsCount (life (f x)) = 0)) -> extends m (upd_tx t f m).
Proof.
  intros H. split; [|done]. intros t' x Hx. cbn. destruct (decide (t = t')) as [<-|]; [rewrite lookup_alter_eq, Hx|rewrite lookup_alter_ne, Hx by done]; cbn; eexists; (split; [done|]); eauto.
Qed.
Lemma Inv_upd_tx m K K' t f : Inv m K -> (forall t', t' <> t -> step_weights m t' K K') -> Forall (task_ok (upd_tx t f m)) K' ->
  (forall x, txs m !! t = Some x -> tx_ok m K t x -> tx_ok (upd_tx t f m) K' t (f x) /\ length (inputs (f x)) = length (inputs x) /\ (unsolidInputsCount (life x) = 0 -> unsolidInputsCount (life (f x)) = 0)) ->
  Inv (upd_tx t f m) K'.
Proof.
  intros [] Hw HK Hx. assert (He : extends m (upd_tx t f m)) by (apply upd_extends; intros x Ht; by apply Hx, iv_tx0). split.
  - intros p Hp. destruct (iv_next0 p Hp) as [H1 H2]. split; [|done]. cbn. destruct (decide (t = p)) as [<-|]; [rewrite lookup_alter_eq, H1; done|by rewrite lookup_alter_ne].
  - done.
  - by eapply extends_subs.
  - eapply Forall_impl; [exact iv_queue0|]. intros y. by apply extends_solidified.
  - intros r s Hr. by apply (ex_st _ _ He), (iv_rq0 r).
  - intros t' x'. cbn. destruct (decide (t = t')) as [<-|Hne]; [rewrite lookup_alter_eq|rewrite lookup_alter_ne by done].
    + destruct (txs m !! t) as [x|] eqn:E; cbn; [|done]. intros [= <-]. by apply Hx, iv_tx0.
    + intros Ht'. destruct (iv_tx0 t' x' Ht') as []. pose proof (Hw t' (not_eq_sym Hne)) as W. split; try done.
      * intros i. destruct (W i 1%positive) as (W1 & _). specialize (to_tok0 i). cbn. lia.
      * intros s. destruct (W 0%nat s) as (_ & W1 & _). cbn. rewrite W1. done.
      * destruct (W 0%nat 1%positive) as (_ & _ & W1 & _). change (w_acc (upd_tx t f m)) with (w_acc m). change (i_acc (upd_tx t f m)) with (i_acc m). by rewrite W1.
      * destruct (W 0%nat 1%positive) as (_ & _ & _ & W1). by rewrite W1.
      * intros Hb. eapply extends_solidified; eauto.
Qed.
Lemma step_weights_refl m t K : step_weights m t K K.
Proof. intros i s. lia. Qed.
Lemma step_weights_pop m t k K : (forall i s, w_pair t s k = 0 /\ w_acc m t k = 0 /\ w_sol t k = 0 /\ 0 <= w_tok t i k) -> step_weights m t (k :: K) K.
Proof. intros H i s. destruct (H i s) as (H1 & H2 & H3 & H4). cbn [zsum]. lia. Qed.
