(* ===== verification/MempoolInv.v ===== *)
(** * The invariant is kept by all steps of the mempool *)
From S2P Require Import Prelude Block StateDiff Mempool MempoolSteps MempoolProps.

Lemma upd_upd t f g m : upd_tx t g (upd_tx t f m) = upd_tx t (fun x => g (f x)) m.
Proof. unfold upd_tx, with_txs. cbn. f_equal. by rewrite alter_alter_eq. Qed.
Lemma upd_tx_at t f g m : (forall x, txs m !! t = Some x -> f x = g x) -> upd_tx t f m = upd_tx t g m.
Proof. intros H. unfold upd_tx. f_equal. apply map_eq. intros t'. destruct (decide (t = t')) as [<-|]; [|by rewrite !lookup_alter_ne]. rewrite !lookup_alter_eq. destruct (txs m !! t); cbn; [f_equal; auto|done]. Qed.
Lemma set_tx_accepted_upd t f b m x : txs m !! t = Some x -> set_tx_accepted t b (upd_tx t f m) =
  if Bool.eqb (accepted (tx_flags (f x))) b then (upd_tx t f m, []) else (upd_tx t (fun y => with_tx_flags (flag_accepted b (tx_flags (f y))) (f y)) m, fire (Tx t) VAccepted (Was (negb b) b) m).
Proof.
  intros Hx. unfold set_tx_accepted, on_tx. cbn [txs upd_tx with_txs]. rewrite lookup_alter_eq, Hx. cbn [fmap option_fmap option_map]. destruct (Bool.eqb _ b); [done|]. f_equal. rewrite upd_upd. apply upd_tx_at. intros y Hy. congruence.
Qed.
Lemma zsum_pointwise {A} (f g : A -> Z) l : (forall x, f x <= g x) -> zsum f l <= zsum g l.
Proof. intros H. induction l as [|x l IH]; cbn; [lia|]. specialize (H x). lia. Qed.
Lemma i_acc_le m l : zsum (i_acc m) l <= zsum i_pub l.
Proof. apply zsum_pointwise. intros [s|]; cbn; [destruct (st_acc m s)|]; lia. Qed.
Lemma i_pub_le (l : list (option ptr)) : zsum i_pub l <= Z.of_nat (length l).
Proof. rewrite <- zsum_one. apply zsum_pointwise. intros [s|]; cbn; lia. Qed.

(** Changes of flags of one transaction that keep its counters. *)
Lemma Inv_local m K t f : Inv m K -> (forall x, txs m !! t = Some x -> tx_ok m K t x ->
    inputs (f x) = inputs x /\ inputReferences (f x) = inputReferences x /\ outputs (f x) = outputs x /\ unsolidInputsCount (life (f x)) = unsolidInputsCount (life x) /\ unacceptedInputsCount (acc (f x)) = unacceptedInputsCount (acc x)
    /\ allInputsAccepted (acc (f x)) = allInputsAccepted (acc x) /\ local_ok (f x) /\ (booked (life (f x)) = true -> solidified m t)) -> Inv (upd_tx t f m) K.
Proof.
  intros HI H. assert (He : extends m (upd_tx t f m)). { apply upd_extends. intros x Hx. destruct (H x Hx (iv_tx _ _ HI _ _ Hx)) as (E1 & _ & _ & E4 & _). rewrite E1, E4. done. }
  apply (Inv_upd_tx m K); [done|intros; apply step_weights_refl|by eapply extends_tasks, HI|].
  intros x Hx Hok. destruct (H x Hx Hok) as (E1 & E2 & E3 & E4 & E5 & E6 & E7 & E8). rewrite E1, E4. split; [|done]. destruct Hok. split; rewrite ?E1, ?E2, ?E3, ?E4, ?E5, ?E6; try done.
  intros Hb. eapply extends_solidified; eauto.
Qed.
Lemma keeps_local m t f l : (forall K, Inv m K -> forall x, txs m !! t = Some x -> tx_ok m K t x ->
    inputs (f x) = inputs x /\ inputReferences (f x) = inputReferences x /\ outputs (f x) = outputs x /\ unsolidInputsCount (life (f x)) = unsolidInputsCount (life x) /\ unacceptedInputsCount (acc (f x)) = unacceptedInputsCount (acc x)
    /\ allInputsAccepted (acc (f x)) = allInputsAccepted (acc x) /\ local_ok (f x) /\ (booked (life (f x)) = true -> solidified m t)) -> (forall K, Inv m K -> quiet m l) -> keeps m (upd_tx t f m, l).
Proof.
  intros H Hq K HI. cbn. specialize (H K HI). pose proof (Hq K HI) as [H1 H2]%Forall_and. apply Inv_push; [by apply Inv_local| |done]. eapply extends_tasks; [|exact H1]. apply upd_extends. intros x Hx. destruct (H x Hx (iv_tx _ _ HI _ _ Hx)) as (E1 & _ & _ & E4 & _). by rewrite E1, E4.
Qed.
Lemma with_flags_same x b : accepted (tx_flags x) = b -> with_tx_flags (flag_accepted b (tx_flags x)) x = x.
Proof. intros <-. by destruct x as [? ? ? ? ? ? ? ? ? []]. Qed.
Lemma Inv_quiet m m' K l : extends m m' -> Inv m' K -> quiet m l -> Inv m' (l ++ K).
Proof. intros He HI [H1 H2]%Forall_and. apply Inv_push; [done|by eapply extends_tasks|done]. Qed.
Lemma setConflictAccepted_keeps t m : keeps m (setConflictAccepted t m).
Proof.
  unfold setConflictAccepted, on_tx. destruct (txs m !! t) as [x|] eqn:Hx; [|apply keep_refl]. destruct (conflictAccepted (acc x)) eqn:Ec; [apply keep_refl|]. unfold upd_acc.
  destruct (allInputsAccepted (acc x) && negb (Slot (EarliestIncludedAttachment x) =? 0)) eqn:E.
  - apply andb_true_iff in E as [Ea Es]. rewrite (set_tx_accepted_upd _ _ _ _ x) by done. cbn. destruct (accepted (tx_flags x)) eqn:Eacc; cbn.
    + apply keeps_local; [|auto with pool]. intros K HI y Hy Hok. simplify_eq. destruct Hok. split_and!; try done. destruct to_local as [L1 L2]. split; cbn; auto.
    + apply keeps_local; [|intros; auto with pool]. intros K HI y Hy Hok. simplify_eq. destruct Hok. split_and!; try done. split; [|done]. unfold EarliestIncludedAttachment in *. cbn. intros _. split; [lia|done].
  - apply keeps_local; [|auto with pool]. intros K HI y Hy Hok. simplify_eq. destruct Hok. split_and!; try done. destruct to_local as [L1 L2]. split; [done|]. unfold EarliestIncludedAttachment in *. cbn. intros H1 H2 _. rewrite H2 in E. cbn in E. lia.
Qed.
Lemma forkTransaction_keeps t r m : keeps m (forkTransaction t r m).
Proof.
  unfold forkTransaction, on_tx. destruct (txs m !! t) as [x|] eqn:Hx; [|apply keep_refl]. destruct (conflicting (acc x)) eqn:Ec; [keep|]. apply keeps_local; [|intros; auto 10 with pool].
  intros K HI y Hy Hok. simplify_eq. destruct Hok. split_and!; try done. destruct to_local as [L1 L2]. split; [done|]. cbn. intros H1 H2 _. apply L2; try done. unfold IsConflictAccepted. by rewrite Ec.
Qed.
Lemma included_keeps t b m : 0 < Slot b -> keeps m (markAttachmentIncluded t b m).
Proof.
  intros Hb. unfold markAttachmentIncluded, on_tx. destruct (txs m !! t) as [x|] eqn:Hx; [|apply keep_refl]. unfold upd_att. set (old := earliestIncludedValidAttachment (att x)).
  destruct (((Slot old =? 0) || (Slot b <? Slot old)) && negb (bool_decide (b = old))) eqn:E; [|by keep].
  rewrite (proj2 (Z.eqb_neq (Slot b) 0)) by lia. cbn [negb andb]. rewrite upd_upd. destruct (Slot old =? 0) eqn:E0; cbn [Bool.eqb negb].
  - rewrite (set_tx_accepted_upd _ _ _ _ x) by done. cbn [tx_flags with_att]. intros K HI. assert (Hna : accepted (tx_flags x) = false). { pose proof (to_local _ _ _ _ (iv_tx _ _ HI _ _ Hx)) as [L1 _]. destruct (accepted (tx_flags x)); [|done]. destruct (L1 eq_refl) as [H _]. unfold EarliestIncludedAttachment in H. fold old in H. lia. }
    rewrite Hna. destruct (allInputsAccepted (acc x) && IsConflictAccepted x) eqn:Ea; cbn [Bool.eqb fst snd]; revert K HI; apply keeps_local.
    + intros K HI y Hy Hok. simplify_eq. apply andb_true_iff in Ea as [Ea1 Ea2]. destruct Hok. split_and!; try done. split; [|done]. intros _. split; [cbn; lia|done].
    + intros K HI. apply quiet_app; auto with pool.
    + intros K HI y Hy Hok. simplify_eq. destruct Hok. split_and!; try done. split; [cbn; by rewrite Hna|]. cbn. intros _ H1 H2. unfold IsConflictAccepted in *. cbn in H2. rewrite H1, H2 in Ea. done.
    + auto with pool.
  - cbn. apply keeps_local; [|auto with pool]. intros K HI y Hy Hok. simplify_eq. destruct Hok. split_and!; try done. destruct to_local as [L1 L2]. unfold EarliestIncludedAttachment, IsConflictAccepted in *. split; cbn.
    + intros Ha. split; [lia|]. by apply L1.
    + intros _ H1 H2. apply L2; try done. fold old. lia.
Qed.
Lemma input_accepted_step t K m : Inv m (Call (InputAccepted t) (Was false true) :: K) -> Inv (input_accepted t m).1 ((input_accepted t m).2 ++ K).
Proof.
  intros HI. set (k := Call (InputAccepted t) (Was false true)) in *. pose proof (iv_tasks _ _ HI) as [Hk HK]%Forall_cons. destruct Hk as [(o & w & (Hkn & _)) _].
  unfold input_accepted, on_tx. destruct (txs m !! t) as [x|] eqn:Hx; [|destruct Hkn as [? ?]; congruence]. pose proof (iv_tx _ _ HI _ _ Hx) as Hok. destruct Hok.
  assert (Hw : zsum (w_acc m t) (k :: K) = 1 + zsum (w_acc m t) K) by (cbn; by rewrite decide_True).
  assert (Hn : 1 <= unacceptedInputsCount (acc x)) by (pose proof (i_acc_le m (inputs x)); pose proof (i_pub_le (inputs x)); pose proof (zsum_ge0 (w_acc m t) K (w_acc_nonneg m t)); lia).
  assert (Hu : u64 (unacceptedInputsCount (acc x) - 1) = unacceptedInputsCount (acc x) - 1) by (apply wrap_id; split; cbn; lia). rewrite Hu.
  assert (Hall : allInputsAccepted (acc x) = false) by (destruct (allInputsAccepted (acc x)); [destruct to_all as [H _]; specialize (H eq_refl); lia|done]).
  assert (Hpop : forall t', t' <> t -> step_weights m t' (k :: K) K) by (intros t' Hne; apply step_weights_pop; intros i s; cbn; rewrite decide_False by congruence; done).
  assert (Hin : inputs x <> []) by (intros E; rewrite E in *; cbn in *; lia).
  assert (Hna : accepted (tx_flags x) = false) by (destruct to_local as [L1 _]; destruct (accepted (tx_flags x)); [destruct (L1 eq_refl); congruence|done]).
  assert (Hgen : forall a (b : bool), unacceptedInputsCount a = unacceptedInputsCount (acc x) - 1 -> (allInputsAccepted a = true <-> unacceptedInputsCount a = 0) ->
     (forall y, acc y = a -> accepted (tx_flags y) = b -> att y = att x -> local_ok y) -> Inv (upd_tx t (fun y => with_tx_flags (flag_accepted b (tx_flags y)) (with_acc a y)) m) K).
  { intros a b E1 E2 E3. apply (Inv_upd_tx m (k :: K)); [done|done| |].
    - eapply extends_tasks; [|exact HK]. by apply upd_extends.
    - intros y Hy _. simplify_eq. split; [|done]. split; cbn; try done.
      + rewrite E1. change (w_acc (upd_tx t _ m)) with (w_acc m). change (i_acc (upd_tx t _ m)) with (i_acc m). lia.
      + lia.
      + rewrite E2. split; [done|by intros []].
      + by apply E3.
      + intros Hb. eapply extends_solidified; [by apply upd_extends|]. auto. }
  unfold upd_acc. destruct (unacceptedInputsCount (acc x) - 1 =? 0) eqn:E0; cbn [negb andb]; [rewrite upd_upd|].
  - rewrite Hall. cbn [negb andb]. destruct (IsConflictAccepted x && negb (Slot (EarliestIncludedAttachment x) =? 0)) eqn:Ec.
    + rewrite (set_tx_accepted_upd _ _ _ _ x) by done. cbn. rewrite Hna. cbn. apply andb_true_iff in Ec as [Ec1 Ec2].
      assert (HI' : Inv (upd_tx t (fun y => with_tx_flags (flag_accepted true (tx_flags y)) (with_acc (acc_all true (acc_count (unacceptedInputsCount (acc x) - 1) (acc x))) y)) m) K).
      { apply Hgen; cbn; [done|split; [lia|done]|]. intros y Ey1 Ey2 Ey3. split; [|done]. intros _. unfold EarliestIncludedAttachment in *. rewrite Ey1, Ey3. cbn. split; [lia|done]. }
      erewrite upd_tx_at; [eapply Inv_quiet; [|exact HI'|by eapply fire_quiet]; by apply upd_extends|intros y Hy; simplify_eq; done].
    + cbn. erewrite upd_tx_at; [apply (Hgen (acc_all true (acc_count (unacceptedInputsCount (acc x) - 1) (acc x))) false)|]; cbn; [done|split; [lia|done]| |intros y Hy; simplify_eq; symmetry; by apply (with_flags_same (with_acc _ x))].
      intros y Ey1 Ey2 Ey3. split; [by rewrite Ey2|]. unfold EarliestIncludedAttachment, IsConflictAccepted in *. rewrite Ey1, Ey3. cbn. intros H1 _ H3. rewrite H3 in Ec. cbn in Ec. lia.
  - cbn. erewrite upd_tx_at; [apply (Hgen (acc_count (unacceptedInputsCount (acc x) - 1) (acc x)) false)|]; cbn; [done|rewrite Hall; split; [done|lia]| |intros y Hy; simplify_eq; symmetry; by apply (with_flags_same (with_acc _ x))].
    intros y Ey1 Ey2 Ey3. split; [by rewrite Ey2|]. rewrite Ey1. cbn. rewrite Hall. done.
Qed.

(** ** States *)
Definition one_more (m m' : MemPool) (s : ptr) (d : Z) : Prop := forall s', (if st_acc m' s' then 1 else 0) = (if st_acc m s' then 1 else 0) + if decide (s' = s) then d else 0.
Lemma one_more_inputs m m' s d (l : list (option ptr)) : one_more m m' s d -> zsum (i_acc m') l = zsum (i_acc m) l + d * zsum (i_is s) l.
Proof.
  intros H. induction l as [|o l IH]; cbn [zsum]; [lia|]. destruct o as [s'|]; [|unfold i_is at 1; rewrite decide_False by done; cbn [i_acc]; lia]. cbn [i_acc]. rewrite (H s'), IH. unfold i_is at 2. destruct (decide (s' = s)) as [->|Hne]; [rewrite decide_True by done|rewrite decide_False by congruence]; lia.
Qed.
Lemma one_more_tasks m m' s d t K : one_more m m' s d -> zsum (w_acc m' t) K = zsum (w_acc m t) K + d * zsum (w_pair t s) K.
Proof.
  intros H. induction K as [|k K IH]; cbn [zsum]; [lia|]. rewrite IH. assert (Hk : w_acc m' t k = w_acc m t k + d * w_pair t s k); [|lia]. destruct k as [c v|o v c| | | | | | | | | | | | | | | | | | | | | | |]; cbn; try lia. unfold s_pair.
  destruct o as [|s'| |], v; try (rewrite decide_False by congruence; lia). specialize (H s'). destruct (decide (c = InputAccepted t)) as [->|Hne].
  - destruct (decide (s' = s)) as [->|Hs]; [rewrite (decide_True (P := _ = _)) by done|rewrite (decide_False (P := (St s', _, _) = _)) by congruence]; destruct (st_acc m' _), (st_acc m _); lia.
  - rewrite (decide_False (P := (St s', _, _) = _)) by congruence. destruct (st_acc m' s'), (st_acc m s'); lia.
Qed.
Lemma alloc_st_extends x m K : Inv m K -> extends m (alloc_st x m).
Proof.
  intros HI. split; [intros t y Hy; cbn; eauto|]. intros s Hs. unfold known_st. cbn. destruct (decide (nextPtr m = s)) as [<-|]; [by rewrite lookup_insert_eq|by rewrite lookup_insert_ne].
Qed.
Lemma unknown_input m K t x : Inv m K -> txs m !! t = Some x -> zsum (i_is (nextPtr m)) (inputs x) = 0 /\ zsum (w_pair t (nextPtr m)) K = 0.
Proof.
  intros HI Hx. destruct (iv_tx _ _ HI _ _ Hx). assert (H1 : zsum (i_is (nextPtr m)) (inputs x) = 0).
  { apply zsum_zero. intros o Ho. unfold i_is. rewrite decide_False; [done|]. intros ->. apply to_inputs in Ho as [y Hy]. destruct (iv_next _ _ HI (nextPtr m)) as [_ H]; [lia|]. congruence. }
  split; [done|]. specialize (to_pair (nextPtr m)). rewrite H1 in to_pair. assert (0 <= zsum (s_pair t (nextPtr m)) (subs m)) by (apply zsum_ge0; intros y; apply ind_nonneg).
  assert (0 <= zsum (w_pair t (nextPtr m)) K); [|lia]. apply zsum_ge0. intros k. destruct k; cbn; try lia. apply ind_nonneg.
Qed.
Lemma alloc_st_keeps x m : keeps m (alloc_st x m, []).
Proof.
  intros K HI. cbn. pose proof (alloc_st_extends x m K HI) as He. split.
  - intros p. cbn. intros Hp. destruct (iv_next _ _ HI p) as [H1 H2]; [lia|]. split; [done|]. rewrite lookup_insert_ne by lia. done.
  - eapply extends_tasks, HI; done.
  - eapply extends_subs, HI; done.
  - eapply Forall_impl; [apply HI|]. intros y. by apply extends_solidified.
  - intros r s Hr. eapply ex_st; [done|]. by eapply iv_rq.
  - intros t y Hy. destruct (unknown_input m K t y HI Hy) as [U1 U2]. destruct (iv_tx _ _ HI _ _ Hy).
    assert (Hm : one_more m (alloc_st x m) (nextPtr m) (if accepted (st_flags x) then 1 else 0)).
    { intros s. unfold st_acc. cbn. destruct (decide (s = nextPtr m)) as [->|Hne]; [rewrite lookup_insert_eq|rewrite lookup_insert_ne by done; lia]. destruct (iv_next _ _ HI (nextPtr m)) as [_ H]; [lia|]. rewrite H. done. }
    split; try done; [intros s Hs; by eapply ex_st, to_inputs|intros s Hs; by eapply ex_st, to_outputs|].
    rewrite (one_more_inputs _ _ _ _ _ Hm), (one_more_tasks _ _ _ _ _ _ Hm), U1, U2. lia.
Qed.
Lemma set_st_accepted_keeps s m : keeps m (set_st_accepted s true m).
Proof.
  unfold set_st_accepted, on_st. destruct (sts m !! s) as [x|] eqn:Hs; [|apply keep_refl]. destruct (accepted (st_flags x)) eqn:Ea; cbn [Bool.eqb]; [apply keep_refl|]. intros K HI. cbn [fst snd negb]. set (m' := upd_st s _ m).
  assert (He : extends m m'). { split; [intros t y Hy; cbn; eauto|]. intros s' [y Hy]. unfold known_st. cbn. destruct (decide (s = s')) as [<-|]; [rewrite lookup_alter_eq, Hs; done|rewrite lookup_alter_ne, Hy by done; done]. }
  assert (Hm : one_more m m' s 1). { intros s'. unfold st_acc, m'. cbn. destruct (decide (s = s')) as [<-|]; [rewrite lookup_alter_eq, Hs, decide_True by done; cbn; by rewrite Ea|rewrite lookup_alter_ne, decide_False by congruence; lia]. }
  set (calls := fire (St s) VAccepted (Was false true) m). assert (Hcb := iv_subs _ _ HI). rewrite Forall_forall in Hcb.
  assert (Hc : Forall (task_ok m) calls). { apply Forall_forall. intros k (c & Hin & ->)%elem_of_fire. split; [|split; [done|by destruct c]]. exists (St s), VAccepted. by apply (Hcb _ Hin). }
  assert (Htok : forall t i, zsum (w_tok t i) calls = 0). { intros t i. apply zsum_zero. intros k (c & Hin & ->)%elem_of_fire. specialize (Hcb _ Hin). destruct c; try done. cbn in Hcb. by destruct Hcb as (_ & ? & _). }
  assert (Hacc : forall t, zsum (w_acc m t) calls = zsum (s_pair t s) (subs m)). { intros t. unfold calls, fire. clear. induction (subs m) as [|[[o v] c] q IH]; [done|]. cbn. unfold s_pair at 1. case_bool_decide as E.
    - destruct E as [<- <-]. cbn. rewrite IH. destruct (decide (c = InputAccepted t)) as [->|]; [by rewrite decide_True|by rewrite decide_False by congruence].
    - rewrite decide_False by (intros [=]; subst; apply E; done). by rewrite IH. }
  destruct HI. split.
  - intros p Hp. destruct (iv_next p Hp) as [H1 H2]. split; [done|]. cbn. rewrite lookup_alter_ne; [done|]. intros <-. congruence.
  - apply Forall_app. split; eapply extends_tasks; done.
  - by eapply extends_subs.
  - eapply Forall_impl; [exact iv_queue|]. intros y. by apply extends_solidified.
  - intros r s' Hr. eapply ex_st; [done|]. by eapply iv_rq.
  - intros t y Hy. destruct (iv_tx t y Hy). split; try done; try (intros s' Hs'; by eapply ex_st; eauto).
    + intros i. rewrite zsum_app, Htok. apply to_tok.
    + intros s'. rewrite zsum_app. assert (E : zsum (w_pair t s') calls = 0) by (apply zsum_zero; intros k (c & _ & ->)%elem_of_fire; done). rewrite E. apply to_pair.
    + rewrite zsum_app, (one_more_inputs _ _ _ _ _ Hm), !(one_more_tasks _ _ _ _ _ _ Hm), Hacc. assert (E : zsum (w_pair t s) calls = 0) by (apply zsum_zero; intros k (c & _ & ->)%elem_of_fire; done). rewrite E. specialize (to_pair s). lia.
    + rewrite zsum_app. assert (E : zsum (w_sol t) calls = 0) by (apply zsum_zero; intros k (c & _ & ->)%elem_of_fire; done). rewrite E. done.
Qed.

(** ** Inputs *)
Definition publish_tasks (t s : ptr) (created : bool) : list Task := setupSpender s t ++ setupInput s t ++ (if created then setupOutputState s else []) ++ [MarkInputSolid t].
Lemma publish_weights m t s created t' : let l := publish_tasks t s created in
  (forall i, zsum (w_tok t' i) l = 0) /\ (forall s', zsum (w_pair t' s') l = ind ((s', t') = (s, t))) /\ zsum (w_acc m t') l = (if st_acc m s then ind (t' = t) else 0) /\ zsum (w_sol t') l = ind (t' = t).
Proof.
  intros l. split_and!.
  - intros i. by destruct created.
  - intros s'. destruct (decide ((s', t') = (s, t))) as [[= -> ->]|Hne]; destruct created; cbn; unfold s_pair; rewrite ?(decide_True (P := (St s, VAccepted, InputAccepted t) = _)) by done; rewrite !decide_False by congruence; done.
  - destruct (decide (t' = t)) as [->|Hne]; destruct created; cbn; rewrite ?(decide_True (P := InputAccepted t = _)) by done; rewrite ?(decide_False (P := InputAccepted t = InputAccepted t')) by congruence; by destruct (st_acc m s).
  - destruct (decide (t' = t)) as [->|Hne]; destruct created; cbn; by rewrite ?decide_True, ?decide_False by congruence.
Qed.
Lemma publish_tasks_ok m t s created : known_tx m t -> Forall (task_ok m) (publish_tasks t s created).
Proof. intros Ht. destruct created; repeat (constructor; [cbn; eauto|]); constructor. Qed.
Lemma input_resolved_step t i created s K m : Inv m (Call (InputResolved t i created) (State s) :: K) -> Inv (input_resolved t i created s m).1 ((input_resolved t i created s m).2 ++ K).
Proof.
  intros HI. set (k := Call (InputResolved t i created) (State s)) in *. pose proof (iv_tasks _ _ HI) as [Hk HK]%Forall_cons. destruct Hk as [(o & w & (x & Hx & Hi) & _) [Hs _]]. cbn in Hs.
  unfold input_resolved, publishInput. cbn [fst snd]. set (m' := upd_tx _ _ m).
  assert (El : (setupSpender s t ++ setupInput s t) ++ (if created then setupOutputState s else []) ++ [MarkInputSolid t] = publish_tasks t s created) by (unfold publish_tasks; by rewrite app_assoc). rewrite El.
  assert (He : extends m m') by (apply upd_extends; intros y _; cbn; by rewrite length_insert).
  assert (Hki : forall t' j, w_tok t' j k = ind ((t, i) = (t', j))) by done.
  assert (Hpair : forall t' s', w_pair t' s' k = 0) by done. assert (Hacc : forall t', w_acc m t' k = 0) by (intros t'; cbn; by rewrite decide_False). assert (Hsol : forall t', w_sol t' k = 0) by done.
  apply (Inv_upd_tx m (k :: K)); [done| | |].
  - intros t' Hne j s'. destruct (publish_weights m t s created t') as (W1 & W2 & W3 & W4). rewrite !(zsum_app _ (publish_tasks t s created)), W1, W2, W3, W4. cbn [zsum]. rewrite Hki, Hpair, Hacc, Hsol. rewrite !decide_False by congruence. destruct (st_acc m s); lia.
  - apply Forall_app. split; [apply publish_tasks_ok; eapply extends_known; [done|by exists x]|by eapply extends_tasks].
  - intros y Hy Hok. simplify_eq. cbn [inputs with_inputs life]. rewrite length_insert. split; [|done]. destruct Hok. destruct (publish_weights m t s created t) as (W1 & W2 & W3 & W4).
    assert (Hnone : inputs x !! i = Some None).
    { specialize (to_tok i). cbn [zsum] in to_tok. rewrite Hki, decide_True in to_tok by done. pose proof (zsum_ge0 _ K (w_tok_nonneg t i)). assert (0 <= zsum (fun y => cb_tok t i y.2) (subs m)) by (apply zsum_ge0; intros; apply cb_tok_nonneg). destruct (inputs x !! i) as [[s'|]|] eqn:E; cbn in to_tok; [lia|done|]. apply lookup_ge_None in E. lia. }
    split; cbn [inputs inputReferences outputs acc life tx_flags with_inputs subs upd_tx with_txs m']; rewrite ?length_insert; try done.
    + intros s' Hin. change (known_st m s'). apply list_elem_of_lookup in Hin as [j Hj]. destruct (decide (i = j)) as [<-|]; [rewrite list_lookup_insert_eq in Hj by done; by simplify_eq|rewrite list_lookup_insert_ne in Hj by done; apply to_inputs; by eapply list_elem_of_lookup_2].
    + intros j. rewrite (zsum_app _ (publish_tasks t s created)), W1. specialize (to_tok j). cbn [zsum] in to_tok. rewrite Hki in to_tok. destruct (decide (i = j)) as [<-|Hne].
      * rewrite decide_True in to_tok by done. rewrite Hnone in to_tok. rewrite list_lookup_insert_eq by done. cbn in *. lia.
      * rewrite decide_False in to_tok by congruence. rewrite list_lookup_insert_ne by done. lia.
    + intros s'. rewrite (zsum_app _ (publish_tasks t s created)), W2. specialize (to_pair s'). cbn [zsum] in to_pair. rewrite Hpair in to_pair. rewrite (zsum_insert _ _ _ None) by done. unfold i_is at 2 3. rewrite (decide_False (P := None = Some s')) by done. destruct (decide (s' = s)) as [->|Hne]; [rewrite !decide_True by done|rewrite !decide_False by congruence]; lia.
    + change (w_acc (upd_tx t _ m)) with (w_acc m). change (i_acc (upd_tx t _ m)) with (i_acc m). rewrite (zsum_app _ (publish_tasks t s created)), W3, decide_True by done. rewrite (zsum_insert _ _ _ None) by done. cbn [zsum] in to_acc. rewrite Hacc in to_acc. cbn [i_acc]. destruct (st_acc m s); lia.
    + rewrite (zsum_app _ (publish_tasks t s created)), W4, decide_True by done. rewrite (zsum_insert _ _ _ None) by done. cbn [zsum] in to_sol. rewrite Hsol in to_sol. cbn [i_pub]. lia.
    + rewrite to_all. split; intros [E1 E2]; (split; [done|]); intros E3; [apply (f_equal length) in E3; rewrite length_insert in E3; by destruct (inputs x)|by rewrite E3 in *].
    + intros Hb. eapply extends_solidified; eauto.
Qed.
Lemma markInputSolid_step t K m : Inv m (MarkInputSolid t :: K) -> Inv (markInputSolid t m).1 ((markInputSolid t m).2 ++ K).
Proof.
  intros HI. pose proof (iv_tasks _ _ HI) as [Hk HK]%Forall_cons. unfold markInputSolid, on_tx. destruct (txs m !! t) as [x|] eqn:Hx; [|destruct Hk as [? ?]; congruence]. pose proof (iv_tx _ _ HI _ _ Hx) as Hok. destruct Hok.
  assert (Hw : zsum (w_sol t) (MarkInputSolid t :: K) = 1 + zsum (w_sol t) K) by (cbn; by rewrite decide_True).
  assert (Hn : 1 <= unsolidInputsCount (life x)) by (pose proof (i_pub_le (inputs x)); pose proof (zsum_ge0 (w_sol t) K (w_sol_nonneg t)); lia).
  assert (Hu : u64 (unsolidInputsCount (life x) - 1) = unsolidInputsCount (life x) - 1) by (apply wrap_id; split; cbn; lia). rewrite Hu.
  assert (Hgen : forall f, (forall y, unsolidInputsCount (f y) = unsolidInputsCount (life x) - 1 /\ booked (f y) = booked y) -> Inv (upd_life t f m) K /\ extends m (upd_life t f m)).
  { intros f Hf. assert (He : extends m (upd_life t f m)). { apply upd_extends. intros y Hy. simplify_eq. split; [done|]. intros; lia. }
    split; [|done]. apply (Inv_upd_tx m (MarkInputSolid t :: K)); [done| |by eapply extends_tasks|].
    - intros t' Hne. apply step_weights_pop. intros i s. cbn. rewrite decide_False by congruence. done.
    - intros y Hy _. simplify_eq. destruct (Hf (life x)) as [F1 F2]. split; [|split; [done|intros; lia]]. split; cbn; rewrite ?F1, ?F2; try done; [lia|lia|]. intros Hb. eapply extends_solidified; eauto. }
  destruct ((unsolidInputsCount (life x) - 1 =? 0) && negb (solid (life x))) eqn:E; cbn [fst snd].
  - assert (Hq : quiet m (fire (Tx t) VSolid Fired m)) by by eapply fire_quiet. destruct (Hgen (fun l => life_solid (life_unsolid (unsolidInputsCount (life x) - 1) l)) ltac:(done)) as [HI' He].
    assert (Em : upd_life t life_solid (upd_life t (life_unsolid (unsolidInputsCount (life x) - 1)) m) = upd_life t (fun l => life_solid (life_unsolid (unsolidInputsCount (life x) - 1) l)) m) by (unfold upd_life; by rewrite upd_upd). rewrite Em, <- app_assoc.
    eapply Inv_quiet; [exact He| |exact Hq]. apply (Inv_push _ _ [_]); [exact HI'| |by constructor]. constructor; [|constructor]. cbn. split; [|done]. eexists. cbn. rewrite lookup_alter_eq, Hx. cbn. split; [done|]. cbn. lia.
  - by apply Hgen.
Qed.
Lemma alloc_rq_keeps p f m : (forall K, Inv m K -> forall s, p = Resolved s -> known_st m s) -> (forall m', txs (f m') = txs m' /\ sts (f m') = sts m' /\ nextPtr (f m') = nextPtr m' /\ subs (f m') = subs m' /\ executionQueue (f m') = executionQueue m' /\ rqs (f m') = rqs m') ->
  keeps m (f (alloc_rq p m), []).
Proof.
  intros Hp Hf K HI. cbn. destruct (Hf (alloc_rq p m)) as (E1 & E2 & E3 & E4 & E5 & E6). cbn in *.
  assert (Hs : same_objects m (f (alloc_rq p m))) by by apply same_objects_refl. pose proof (Hp K HI) as Hp'. destruct HI. split.
  - intros q. rewrite E1, E2, E3. intros Hq. apply iv_next. lia.
  - eapply Forall_impl; [exact iv_tasks|]. intros k. by apply same_task_ok.
  - rewrite E4. eapply Forall_impl; [exact iv_subs|]. intros k. by apply same_cb_ok.
  - rewrite E5. eapply Forall_impl; [exact iv_queue|]. intros k. by apply same_solidified.
  - intros r s. rewrite E6, (same_known_st _ _ _ Hs). destruct (decide (nextPtr m = r)) as [<-|]; [rewrite lookup_insert_eq; intros [= ->]; eauto|rewrite lookup_insert_ne by done; eauto].
  - intros t x. rewrite E1. intros Hx. destruct (iv_tx t x Hx). split; rewrite ?E4; try done; try (intros s Hin; rewrite (same_known_st _ _ _ Hs); eauto).
    + by rewrite (same_w_acc _ _ _ _ Hs), (same_i_acc _ _ _ Hs).
    + intros Hb. eapply same_solidified; eauto.
Qed.
Lemma getOrCreateRequest_keeps resolveState ref m : keeps m ((getOrCreateRequest resolveState ref m).2, []).
Proof.
  unfold getOrCreateRequest. destruct (cachedStateRequests m !! ref) as [r|]; [apply keep_refl|]. destruct (resolveState ref) as [st| |]; cbn.
  - eapply keeps_then; [apply (alloc_st_keeps (accept_st (NewStateMetadata st None)))|]. apply (alloc_rq_keeps _ (fun m' => with_requests _ m')); [|done]. intros K HI s [= <-]. unfold known_st. cbn. by rewrite lookup_insert_eq.
  - by apply (alloc_rq_keeps _ (fun m' => with_requests _ m')).
  - by apply (alloc_rq_keeps _ (fun m' => with_requests _ m')).
Qed.
Lemma getOrCreateRequest_txs resolveState ref m : txs (getOrCreateRequest resolveState ref m).2 = txs m.
Proof. unfold getOrCreateRequest. destruct (cachedStateRequests m !! ref); [done|]. by destruct (resolveState ref). Qed.
Lemma solidifyInput_step resolveState t i K m : Inv m (Solidify t i :: K) -> Inv (solidifyInput resolveState t i m).1 ((solidifyInput resolveState t i m).2 ++ K).
Proof.
  intros HI. pose proof (iv_tasks _ _ HI) as [Hk HK]%Forall_cons. cbn in Hk. unfold solidifyInput, on_tx. assert (Hpop : Inv m K).
  { eapply Inv_weights; [exact HI|done|]. intros t' i' s _. cbn. pose proof (ind_nonneg ((t, i) = (t', i'))). lia. }
  destruct (txs m !! t) as [x|] eqn:Hx; [|done]. destruct (inputReferences x !! i) as [ref|]; [|done]. pose proof (getOrCreateRequest_keeps resolveState ref m) as Hg. pose proof (getOrCreateRequest_txs resolveState ref m) as Ht.
  destruct (getOrCreateRequest resolveState ref m) as [[r created] m1]. cbn in *. specialize (Hg _ HI). cbn in Hg. eapply Inv_weights; [exact Hg| |].
  - assert (Hi : input_of m1 t i) by (destruct Hk as (y & Hy & Hl); exists y; by rewrite Ht). constructor; [cbn; eauto|]. constructor; [done|]. by apply iv_tasks, Forall_cons in Hg as [_ ?].
  - intros t' i' s _. cbn. unfold s_pair. rewrite !(decide_False (P := (Rq r, _, _) = _)) by done. lia.
Qed.

(** ** Execution and booking *)
Lemma setBooked_step t K m : Inv m K -> solidified m t -> Inv (setBooked t m).1 ((setBooked t m).2 ++ K).
Proof.
  intros HI Hs. unfold setBooked, on_tx. destruct (txs m !! t) as [x|] eqn:Hx; [|done]. destruct (booked (life x)); [done|]. cbn [fst snd]. eapply Inv_quiet; [apply (upd_extends t (fun x => with_life (life_booked (life x)) x)); done| |].
  - apply Inv_local; [done|]. intros y Hy Hok. destruct Hok. by split_and!.
  - apply Forall_fmap. apply Forall_forall. intros s Hin. split; [|done]. by eapply to_outputs; [by eapply iv_tx|].
Qed.
Lemma bookTransaction_step opt t K m : Inv m K -> solidified m t -> Inv (bookTransaction opt t m).1 ((bookTransaction opt t m).2 ++ K).
Proof.
  intros HI Hs. unfold bookTransaction, on_tx. destruct (txs m !! t) as [x|] eqn:Hx; [|done]. cbn [fst snd]. eapply Inv_quiet; [|exact HI|].
  - split; [intros t' y Hy; eauto|done].
  - apply quiet_app; [destruct opt; [auto with pool|by apply quiet_fmap]|]. apply quiet_cons; [done|done|apply quiet_nil].
Qed.
Lemma setup_output_quiet m s : quiet m (setupOutputState s).
Proof. unfold setupOutputState. auto 10 with pool. Qed.
Lemma publishOutput_step s K m : Inv m K -> known_st m s -> Inv (publishOutput s m).1 ((publishOutput s m).2 ++ K).
Proof.
  intros HI [x Hx]. unfold publishOutput, on_st. rewrite Hx. destruct (cachedStateRequests m !! state_id (state x)) as [r|]; cbn [fst snd].
  - apply (Inv_push _ _ [_]); [done| |by constructor]. constructor; [by exists x|constructor].
  - assert (H : keeps m (with_requests (<[state_id (state x) := nextPtr m]> (cachedStateRequests m)) (alloc_rq Waiting m), [])) by by apply (alloc_rq_keeps _ (fun m' => with_requests _ m')).
    specialize (H K HI). cbn in H. apply (Inv_push _ _ (Resolve (nextPtr m) s :: setupOutputState s)); [exact H| |]; [|by repeat constructor]. constructor; [by exists x|]. repeat (constructor; [done|]). constructor.
Qed.
Lemma setExecuted_inv t l K m : Inv m K -> solidified m t -> Inv (setExecuted t l m).1 ((setExecuted t l m).2 ++ K) /\ solidified (setExecuted t l m).1 t.
Proof.
  revert m. induction l as [|st l IH]; intros m HI Hs; cbn [setExecuted fst snd app].
  - assert (Hk : keeps m (upd_life t life_executed m, [])) by keep. split; [by apply (Hk K)|]. eapply extends_solidified; [|exact Hs]. by apply upd_extends.
  - set (s := nextPtr m). set (m1 := alloc_st (NewStateMetadata st (Some t)) m). assert (HI1 : Inv m1 K) by by apply (alloc_st_keeps _ m K). assert (He1 : extends m m1) by by eapply alloc_st_extends.
    assert (Hs1 : known_st m1 s) by (unfold known_st, m1; cbn; by rewrite lookup_insert_eq). set (f := fun x => with_outputs (outputs x ++ [s]) x). assert (He2 : extends m1 (upd_tx t f m1)) by by apply upd_extends.
    assert (HI2 : Inv (upd_tx t f m1) K).
    { apply (Inv_upd_tx m1 K); [done|intros; apply step_weights_refl|eapply extends_tasks; [done|apply HI1]|]. intros x Hx Hok. destruct Hok. split; [|done]. split; cbn; try done.
      - intros s' [Hin|Hin]%elem_of_app; [by apply to_outputs|]. apply list_elem_of_singleton in Hin as ->. done.
      - intros Hb. eapply extends_solidified; eauto. }
    destruct (IH (upd_tx t f m1) HI2) as [H1 H2]; [by eapply extends_solidified; [done|]; eapply extends_solidified|]. split; [|done]. rewrite <- app_assoc. eapply Inv_push; [exact H1|repeat (constructor; [done|]); constructor|by repeat constructor].
Qed.
Lemma executeTransaction_inv Execute m : Inv m [] -> Inv (executeTransaction Execute m).1 (executeTransaction Execute m).2.
Proof.
  intros HI. unfold executeTransaction. destruct (executionQueue m) as [|[c t] rest] eqn:Eq; [done|]. pose proof (iv_queue _ _ HI) as Hq. rewrite Eq in Hq. apply Forall_cons in Hq as [Hs Hq]. cbn in Hs.
  assert (HI1 : Inv (with_queue rest m) []). { eapply Inv_same; [exact HI|]. destruct HI. split; try done. } assert (Hs1 : solidified (with_queue rest m) t) by done.
  unfold on_tx. destruct (txs (with_queue rest m) !! t) as [x|]; [|done]. destruct (Execute c (tx_id x)) as [l|]; cbn [fst snd].
  - destruct (setExecuted_inv t l [] (with_queue rest m) HI1 Hs1) as [H1 H2]. rewrite app_nil_r in H1. eapply Inv_weights; [exact H1|apply Forall_app; split; [apply H1|by constructor]|]. intros t' i s _. rewrite !zsum_app. cbn. lia.
  - assert (Hk : keeps (with_queue rest m) (setInvalid t (with_queue rest m), [])) by (unfold setInvalid; keep). by apply (Hk []).
Qed.

(** ** All steps *)
#[export] Hint Resolve set_tx_rejected_keeps set_st_rejected_keeps set_tx_orphaned_keeps set_st_orphaned_keeps set_tx_committed_keeps set_st_committed_keeps set_spendAccepted_keeps decreaseSpenderCount_keeps increaseSpenderCount_keeps
  evictValidAttachment_keeps addValidAttachments_keeps addAttachment_keeps evictAttachment_keeps evict_tx_keeps delete_transaction_keeps add_to_diff_keeps rollback_in_diff_keeps updateStateDiffs_keeps inherit_parents_keeps set_conflicts_keeps
  inherit_from_source_keeps evictOutputs_keeps evictDelayed_keeps signed_solid_keeps evict_conflict_keeps setConflictAccepted_keeps forkTransaction_keeps set_st_accepted_keeps : pool.
Section Steps.
Context (ValidateSignatures : SignedTransaction -> list StateRef -> option Context_) (Execute : Context_ -> TransactionID -> option (list StateRef)).
Context (resolveState : StateID -> Resolution) (conflictDAG_ok : list ConflictCall -> ConflictCall -> bool) (optForkAllTransactions : bool) (MaxCommittableAge : SlotIndex -> SlotIndex).
Abbreviation run_callback' := (run_callback ValidateSignatures conflictDAG_ok).
Abbreviation run_task' := (run_task ValidateSignatures resolveState conflictDAG_ok optForkAllTransactions MaxCommittableAge).

Lemma delay_output_keeps s n m : keeps m (delay_output s n m, []).
Proof. unfold delay_output. destruct (sts m !! s); keep. Qed.
Lemma delete_request_keeps s m : keeps m (delete_request s m, []).
Proof. unfold delete_request. destruct (sts m !! s) as [x|]; [destruct (HasNoSpenders x)|]; keep. Qed.
Lemma run_callback_keeps c v m a : run_callback' c v m = Some a -> val_ok m v -> loud (Call c v) = false -> (forall t, c <> ExecuteTransaction t) -> keeps m a.
Proof.
  intros H Hv Hl He. destruct c; try done; cbn in H; try (by edestruct He).
  all: repeat case_match; simplify_eq; try (by destruct Hv); eauto using delay_output_keeps, delete_request_keeps with pool.
  all: try (unfold on_tx, on_sg, on_st, setInvalid; keeping; eauto with pool; fail).
  intros K HI. cbn [fst snd]. rewrite <- app_assoc. apply set_spendCommitted_keeps. apply (Inv_push m K [_]); [done|by repeat constructor|by repeat constructor].
Qed.
Lemma pool_task_inv k m m' new K : run_task' k m = Some (m', new) -> Inv m (k :: K) -> Inv m' (new ++ K).
Proof.
  intros H HI. pose proof (iv_tasks _ _ HI) as [Hk HK]%Forall_cons.
  assert (Hq : loud k = false -> keeps m (m', new) -> Inv m' (new ++ K)) by (intros Hl Hkeep; apply (Hkeep K); by eapply Inv_pop).
  assert (Hs : forall a, Some a = Some (m', new) -> Inv a.1 (a.2 ++ K) -> Inv m' (new ++ K)) by by intros a [= ->].
  assert (Hd : forall a, Some a = Some (m', new) -> loud k = false -> keeps m a -> Inv m' (new ++ K)) by (intros a [= ->]; auto).
  destruct k as [c v|o v c|t n|t i|s|s|t|r s|g b|g b|g|id|slot|d| |g|t c|t|t|s|t r|t r|t|t c|t p n]; cbn [run_task] in H; try (by eapply (Hd _ H); eauto with pool); try (by eapply (Hd _ H); keeping).
  - destruct Hk as [(o & w & Hcb) [Hv Ht]]. destruct c; try (apply Hq; [done|]; by eapply run_callback_keeps); cbn in H.
    + destruct v; simplify_eq; try (by eapply Inv_pop). cbn [app]. apply (Inv_pop _ _ _) in HI; [|done]. eapply Inv_same; [exact HI|]. destruct HI. split; try done. cbn. apply Forall_app. split; [done|]. constructor; [|constructor]. apply Hcb.
    + cbn in Ht. subst v. apply (Hs _ H). by apply input_accepted_step.
    + destruct v; try (injection H as <- <-; eapply Inv_weights; [exact HI|done|]; intros t' i' s' _; cbn; pose proof (ind_nonneg ((t, i) = (t', i'))); rewrite (decide_False (P := InputResolved _ _ _ = _)) by done; lia). apply (Hs _ H). by apply input_resolved_step.
  - apply (Hs _ H). by apply subscribe_step.
  - apply (Hs _ H). by apply solidifyInput_step.
  - apply (Hs _ H). by apply markInputSolid_step.
  - apply (Hs _ H). by apply resolve_step.
  - apply (Hs _ H). apply bookTransaction_step; [by eapply Inv_pop|done].
  - apply (Hs _ H). apply setBooked_step; [by eapply Inv_pop|done].
  - apply (Hs _ H). apply publishOutput_step; [by eapply Inv_pop|done].
Qed.
End Steps.

(** ** Operations *)
Lemma unknown_weights m K t i s : Inv m K -> txs m !! t = None -> zsum (w_tok t i) K = 0 /\ zsum (w_pair t s) K = 0 /\ zsum (w_acc m t) K = 0 /\ zsum (w_sol t) K = 0.
Proof.
  intros HI Ht. pose proof (iv_tasks _ _ HI) as HK. rewrite Forall_forall in HK. assert (Hno : forall k, k ∈ K -> w_tok t i k = 0 /\ w_pair t s k = 0 /\ w_acc m t k = 0 /\ w_sol t k = 0); [|split_and!; apply zsum_zero; intros k Hk; apply (Hno k Hk)].
  assert (U1 : ~ known_tx m t) by (intros [? ?]; congruence). assert (U2 : forall j, ~ input_of m t j) by (intros j (? & ? & ?); congruence).
  intros k Hk. specialize (HK k Hk). destruct (loud k) eqn:El; [|by apply quiet_weights]. destruct k as [c v|o v c| |t' i'| | |t'| | | | | | | | | | | | | | | | | |]; try done; cbn in El, HK |- *.
  - destruct HK as [(o & w & Hc) _]. destruct c; try done; cbn in Hc |- *; destruct Hc as [Hc _]; split_and!; try done; rewrite decide_False; try done; intros [=]; subst; first [by apply U1|by eapply U2].
  - destruct c; try done; cbn in HK |- *; destruct HK as [HK _]; unfold s_pair; split_and!; try done; try (rewrite decide_False; [done|]; intros [=]; subst; first [by apply U1|by eapply U2]).
    all: destruct o as [|q| |], v; try done; destruct (st_acc m q); try done; by rewrite decide_False by (intros [=]; subst; by apply U1).
  - split_and!; try done. rewrite decide_False; [done|]. intros [= -> ->]. by eapply U2.
  - split_and!; try done. rewrite decide_False; [done|]. intros ->. by apply U1.
Qed.
Lemma unknown_subs m K t i s : Inv m K -> txs m !! t = None -> zsum (fun y => cb_tok t i y.2) (subs m) = 0 /\ zsum (s_pair t s) (subs m) = 0.
Proof.
  intros HI Ht. pose proof (iv_subs _ _ HI) as HK. rewrite Forall_forall in HK. split; apply zsum_zero; intros [[o v] c] Hk; specialize (HK _ Hk); cbn in HK |- *.
  - destruct c; try done. cbn in *. rewrite decide_False; [done|]. intros [= -> ->]. destruct HK as ((? & ? & ?) & _). congruence.
  - unfold s_pair. rewrite decide_False; [done|]. intros [=]; subst. destruct HK as ([? ?] & _). congruence.
Qed.
Definition register (t : ptr) (id : TransactionID) (refs : list StateID) (m : MemPool) : MemPool := setupTransaction t (with_cached (<[id := t]> (cachedTransactions m)) (alloc_tx (NewTransactionMetadata id refs) m)).
Lemma register_inv id refs m K : let t := nextPtr m in let m1 := register t id refs m in Inv m K -> Z.of_nat (length refs) < 2 ^ 63 ->
  Inv m1 K /\ txs m1 !! t = Some (NewTransactionMetadata id refs) /\ (forall i, zsum (w_tok t i) K + zsum (fun y => cb_tok t i y.2) (subs m1) = 0).
Proof.
  intros t m1 HI Hlen. assert (Hfresh : txs m !! t = None) by (destruct (iv_next _ _ HI t) as [H _]; [lia|done]).
  assert (He : extends m m1). { split; [|done]. intros t' y Hy. unfold m1. cbn. exists y. rewrite lookup_insert_ne by (intros E; unfold t in *; congruence). done. }
  assert (Htok : forall t' i, zsum (fun y => cb_tok t' i y.2) (subs m1) = zsum (fun y => cb_tok t' i y.2) (subs m)) by (intros t' i; unfold m1; cbn; rewrite zsum_app; cbn; lia).
  assert (Hpair : forall t' s, zsum (s_pair t' s) (subs m1) = zsum (s_pair t' s) (subs m)) by (intros t' s; unfold m1; cbn; rewrite zsum_app; cbn; unfold s_pair; rewrite !(decide_False (P := (Tx _, _, _) = _)) by done; lia).
  assert (Hi : forall f : option ptr -> Z, f None = 0 -> zsum f (replicate (length refs) None) = 0) by (intros f Hf; apply zsum_zero; intros o [-> _]%elem_of_replicate; done).
  assert (Hlook : txs m1 !! t = Some (NewTransactionMetadata id refs)) by (unfold m1; cbn; apply lookup_insert_eq).
  split_and!; [|done|].
  - split.
    + intros p. unfold m1. cbn. intros Hp. destruct (iv_next _ _ HI p) as [H1 H2]; [lia|]. rewrite lookup_insert_ne by lia. done.
    + eapply extends_tasks, HI; done.
    + unfold m1. cbn. apply Forall_app. split; [eapply extends_subs, HI; done|by repeat constructor].
    + eapply Forall_impl; [apply HI|]. intros y. by apply extends_solidified.
    + intros r s. apply HI.
    + intros t' x. destruct (decide (t = t')) as [<-|Hne].
      * rewrite Hlook. intros [= <-]. assert (U := fun i s => unknown_weights m K t i s HI Hfresh). assert (V := fun i s => unknown_subs m K t i s HI Hfresh). split; cbn; rewrite ?length_replicate; try done.
        -- intros s [? _]%elem_of_replicate. done.
        -- intros s Hin. by apply elem_of_nil in Hin.
        -- intros i. rewrite Htok. destruct (U i t) as (-> & _), (V i t) as [-> _]. destruct (replicate (length refs) None !! i) as [o|] eqn:E; cbn; [apply lookup_replicate in E as [-> _]|]; cbn; lia.
        -- intros s. rewrite Hpair. destruct (U 0%nat s) as (_ & -> & _), (V 0%nat s) as [_ ->]. rewrite Hi; [done|]. unfold i_is. by rewrite decide_False.
        -- destruct (U 0%nat t) as (_ & _ & U3 & _). change (w_acc m1) with (w_acc m). rewrite U3, Hi by done. lia.
        -- destruct (U 0%nat t) as (_ & _ & _ & ->). rewrite Hi by done. lia.
        -- split; [done|]. intros [H1 H2]. destruct refs; done.
      * unfold m1 at 1. cbn. rewrite lookup_insert_ne by done. intros Hx. destruct (iv_tx _ _ HI _ _ Hx). split; try done; intros; rewrite ?Htok, ?Hpair; auto. eapply extends_solidified; eauto.
  - intros i. rewrite Htok. destruct (unknown_weights m K t i t HI Hfresh) as (-> & _). by destruct (unknown_subs m K t i t HI Hfresh) as [-> _].
Qed.
Lemma solidify_inv m K t x l : Inv m K -> txs m !! t = Some x -> (forall i, zsum (w_tok t i) K + zsum (fun y => cb_tok t i y.2) (subs m) + i_pub (default None (inputs x !! i)) <= 0) -> (l = solidifyInputs t x) -> Inv m (K ++ l).
Proof.
  intros HI Hx Hz ->. assert (Hw : forall t' s, zsum (w_pair t' s) (solidifyInputs t x) = 0 /\ zsum (w_acc m t') (solidifyInputs t x) = 0 /\ zsum (w_sol t') (solidifyInputs t x) = 0).
  { intros t' s. split_and!; apply zsum_zero; intros k (i & -> & _)%list_elem_of_fmap; done. }
  assert (Hone : forall t' i, zsum (w_tok t' i) (solidifyInputs t x) = if decide (t' = t /\ (i < length (inputReferences x))%nat) then 1 else 0).
  { intros t' i. unfold solidifyInputs. generalize (length (inputReferences x)). induction n as [|n IH]; [rewrite decide_False by lia; done|]. rewrite seq_S, fmap_app, zsum_app, IH. cbn. destruct (decide (t' = t)) as [->|Hne]; [|rewrite !decide_False by (intros []; congruence) || congruence; done].
    destruct (decide (i = n)) as [->|Hi]; [rewrite (decide_False (P := t = t /\ (n < n)%nat)), (decide_True (P := (t, n) = _)), decide_True by (lia || done); lia|]. rewrite (decide_False (P := (t, n) = _)) by congruence. destruct (decide (t = t /\ (i < n)%nat)); [rewrite decide_True by lia|rewrite decide_False by lia]; lia. }
  pose proof (iv_tx _ _ HI _ _ Hx) as Hok. destruct HI. split; try done.
  - apply Forall_app. split; [done|]. apply Forall_fmap, Forall_forall. intros i Hi%elem_of_seq. exists x. split; [done|]. rewrite (to_len _ _ _ _ Hok). lia.
  - intros t' y Hy. destruct (iv_tx t' y Hy). destruct (Hw t' 1%positive) as (_ & W2 & W3). split; try done; try (rewrite zsum_app; lia).
    + intros i. rewrite zsum_app, Hone. destruct (decide (t' = t /\ _)) as [[-> _]|]; [simplify_eq; specialize (Hz i); lia|]. specialize (to_tok i). lia.
    + intros s. rewrite zsum_app. destruct (Hw t' s) as (-> & _). specialize (to_pair s). lia.
Qed.
Definition register_signed (g t : ptr) (sid : SignedTransactionID) (signed : SignedTransaction) (m : MemPool) : MemPool :=
  (setupSignedTransaction g t (with_cachedSigned (<[sid := g]> (cachedSignedTransactions m)) (alloc_sg (mkSg sid t signed ∅ false false false) m))).1.
Lemma register_signed_same g t sid signed m K : Inv m K -> same m (register_signed g t sid signed m).
Proof.
  intros HI. assert (Hs : same_objects m (register_signed g t sid signed m)).
  { eapply (same_objects_trans _ (with_cachedSigned (<[sid := g]> (cachedSignedTransactions m)) (alloc_sg (mkSg sid t signed ∅ false false false) m))); [by apply same_objects_refl|]. apply same_upd_tx. done. }
  destruct HI. split; try done. cbn. lia.
Qed.
Lemma with_events_same e m K : Inv m K -> same m (with_events e m).
Proof. intros HI. eapply same_of; [exact HI|by apply same_objects_refl|done..]. Qed.
Lemma attach_inv signed b m : op_ok (OpAttach signed b) = true -> Inv m [] -> Inv (AttachSignedTransaction signed b m).2.1 (AttachSignedTransaction signed b m).2.2.
Proof.
  intros Hop HI. unfold AttachSignedTransaction, storeTransaction. destruct (Slot b <=? lastEvictedSlot m); [done|]. cbn in Hop. destruct (vm_Inputs (signed_tx signed)) as [refs|]; [|done]. destruct (transaction_ID (signed_tx signed)) as [id|]; [|done].
  destruct (cachedTransactions m !! id) as [t|].
  - destruct (signed_ID signed) as [sid|]; [|done]. destruct (cachedSignedTransactions m !! sid) as [g|].
    + assert (H : Inv m [AddAttachment g b]) by (apply (Inv_push m [] [_]); [done|by repeat constructor|by repeat constructor]). by destruct (sgs m !! g).
    + set (g := nextPtr m). pose proof (register_signed_same g t sid signed m [] HI) as Hs. unfold register_signed in Hs. cbn [setupSignedTransaction fst snd] in Hs |- *. set (m1 := upd_att t _ _) in *.
      assert (H : Inv m1 ([Subscribe (Sg g) VEvicted (ForgetSigning g t); Subscribe (Tx t) VSolid (SignedSolid g t); Subscribe (Sg g) VEvicted (DeleteSigned g)] ++ [AddAttachment g b])) by (apply (Inv_push m1 [] [_; _; _; _]); [by eapply Inv_same|by repeat constructor|by repeat constructor]).
      destruct (sgs m1 !! g); [|done]. eapply Inv_same; [exact H|by eapply with_events_same].
  - set (t := nextPtr m). change (setupTransaction t _) with (register t id refs m). destruct (register_inv id refs m [] HI ltac:(lia)) as (HI1 & Ht & Htok). fold t in HI1, Ht, Htok. set (m1 := register t id refs m) in *.
    destruct (signed_ID signed) as [sid|]; [|done]. destruct (cachedSignedTransactions m1 !! sid) as [g|].
    + assert (H : Inv m1 [AddAttachment g b]) by (apply (Inv_push m1 [] [_]); [done|by repeat constructor|by repeat constructor]). by destruct (sgs m1 !! g).
    + set (g := nextPtr m1). pose proof (register_signed_same g t sid signed m1 [] HI1) as Hs. unfold register_signed in Hs. cbn [setupSignedTransaction fst snd] in Hs |- *. set (m2 := upd_att t _ _) in *. set (K := [Subscribe (Sg g) VEvicted (ForgetSigning g t); Subscribe (Tx t) VSolid (SignedSolid g t); Subscribe (Sg g) VEvicted (DeleteSigned g)] ++ [AddAttachment g b]).
      assert (H : Inv m2 K) by (apply (Inv_push m2 [] [_; _; _; _]); [by eapply Inv_same|by repeat constructor|by repeat constructor]).
      assert (Hg : sgs m2 !! g = Some (mkSg sid t signed ∅ false false false)) by (unfold m2; cbn; apply lookup_insert_eq). rewrite Hg. cbn [transactionMetadata]. assert (Hy : exists y, txs m2 !! t = Some y /\ inputs y = replicate (length refs) None) by (unfold m2, upd_att; cbn [txs upd_tx with_txs]; rewrite lookup_alter_eq; cbn [txs with_cachedSigned alloc_sg with_next with_sgs]; rewrite Ht; cbn; eexists; done).
      destruct Hy as (y & Hy & Hin). unfold on_tx. rewrite Hy.
      cbn [fst snd]. eapply Inv_same; [|eapply with_events_same]; (eapply solidify_inv; [exact H|exact Hy| |done]).
      all: intros i; specialize (Htok i); rewrite Hin; assert (E : i_pub (default None (replicate (length refs) (@None ptr) !! i)) = 0) by (destruct (replicate (length refs) None !! i) as [o|] eqn:E; [apply lookup_replicate in E as [-> _]|]; done).
      all: rewrite E; change (subs m2) with (subs m1); change (zsum (w_tok t i) K) with 0; change (zsum (w_tok t i) []) with 0 in Htok; lia.
Qed.
Section Start.
Context (ValidateSignatures : SignedTransaction -> list StateRef -> option Context_) (Execute : Context_ -> TransactionID -> option (list StateRef)).
Context (resolveState : StateID -> Resolution) (conflictDAG_ok : list ConflictCall -> ConflictCall -> bool) (optForkAllTransactions : bool) (MaxCommittableAge : SlotIndex -> SlotIndex).
Lemma start_inv o m : op_ok o = true -> Inv m [] -> Inv (start Execute o m).1 (start Execute o m).2.
Proof.
  intros Ho HI. assert (Hk : forall a, keeps m a -> Inv a.1 a.2) by (intros a H; specialize (H [] HI); by rewrite app_nil_r in H). destruct o as [signed b|b|t|slot|st| |slot]; cbn [start].
  - by apply attach_inv.
  - unfold MarkAttachmentIncluded. destruct (Slot b <=? lastEvictedSlot m); [done|]. destruct (transactionByAttachment b m) as [t|]; [|done]. cbn [snd]. apply Hk, included_keeps. cbn in Ho. lia.
  - apply Hk. unfold Commit, on_tx. destruct (txs m !! t); auto with pool.
  - apply Hk. unfold Evict. apply keep_same. intros K HI'. split; [by eapply same_of; [exact HI'|apply same_objects_refl|..]|]. apply quiet_app; [by apply quiet_fmap|auto with pool].
  - unfold InjectRequestedState. destruct (cachedStateRequests m !! state_id st) as [r|]; [|done]. cbn [fst snd]. apply (Inv_push _ [] [_]); [by apply (alloc_st_keeps _ m [])| |by repeat constructor]. constructor; [|constructor]. unfold task_ok, known_st. cbn. by rewrite lookup_insert_eq.
  - by apply executeTransaction_inv.
  - apply Hk. unfold StateDiff_. destruct (slot <=? lastEvictedSlot m); [apply keep_refl|]. cbn [snd]. keep.
Qed.
Abbreviation reachable' := (reachable ValidateSignatures Execute resolveState conflictDAG_ok optForkAllTransactions MaxCommittableAge).
Lemma New_inv : Inv New [].
Proof. split; try done; constructor. Qed.
Lemma reachable_inv a : reachable' a -> Inv a.1 a.2.
Proof.
  apply (rtc_ind_r (fun a => Inv a.1 a.2) (New, [])); [apply New_inv|]. intros [m K] b _ Hstep HI. cbn in HI. inversion Hstep; subst; cbn [fst snd].
  - by apply start_inv.
  - unfold ConflictAccepted. destruct (cachedTransactions m !! id) as [t|]; [|done]. by apply setConflictAccepted_keeps.
  - by eapply pool_task_inv.
Qed.
End Start.
