(* ===== verification/MempoolClaims.v ===== *)
(** * Double spends become conflicts

    A booked transaction listens to the double spends of the states it consumes: at every moment each such state either is not spent twice and has the
    callback registered, or the fork is on the agenda, or the transaction is conflicting and the state is one of its resources in the conflict DAG. *)
From S2P Require Import Prelude Block StateDiff Mempool MempoolSteps MempoolProps MempoolInv.

Definition is_double (m : MemPool) (s : ptr) : bool := match sts m !! s with Some x => doubleSpent x | None => false end.
Definition is_conflicting (m : MemPool) (t : ptr) : bool := match txs m !! t with Some x => conflicting (acc x) | None => false end.
Definition covered (m : MemPool) (K : list Task) (t : ptr) (id : TransactionID) (s : ptr) (sid : StateID) : Prop :=
  ((St s, VDoubleSpent, Fork t s) ∈ subs m /\ is_double m s = false) \/ Subscribe (St s) VDoubleSpent (Fork t s) ∈ K \/ (exists v, Call (Fork t s) v ∈ K) \/ (exists r, ForkTransaction t r ∈ K /\ sid ∈ r)
  \/ (is_conflicting m t = true /\ exists r, sid ∈ r /\ (UpdateResources t r ∈ K \/ CallResources id r ∈ conflictCalls m)).
Definition Forks (m : MemPool) (K : list Task) : Prop := forall t x s sx, txs m !! t = Some x -> sts m !! s = Some sx -> IsReadOnly (state sx) = false -> Some s ∈ inputs x ->
  booked (life x) = true \/ SetBooked t ∈ K -> covered m K t (tx_id x) s (state_id (state sx)).

Record grows (m m' : MemPool) : Prop := {
  gr_tx t x' : txs m' !! t = Some x' -> exists x, txs m !! t = Some x /\ inputs x' = inputs x /\ tx_id x' = tx_id x /\ (conflicting (acc x) = true -> conflicting (acc x') = true) /\ (booked (life x') = true -> booked (life x) = true);
  gr_st s sx : sts m !! s = Some sx -> exists sx', sts m' !! s = Some sx' /\ state sx' = state sx /\ doubleSpent sx' = doubleSpent sx;
  gr_subs t s : (St s, VDoubleSpent, Fork t s) ∈ subs m -> (St s, VDoubleSpent, Fork t s) ∈ subs m';
  gr_calls c : c ∈ conflictCalls m -> c ∈ conflictCalls m';
}.
Lemma pool_grows_refl m : grows m m.
Proof. split; try done; eauto 10. Qed.
Lemma pool_grows_trans m1 m2 m3 : grows m1 m2 -> grows m2 m3 -> grows m1 m3.
Proof.
  intros [A1 A2 A3 A4] [B1 B2 B3 B4]. split; auto.
  - intros t x3 H3. destruct (B1 t x3 H3) as (x2 & G2 & I2 & T2 & C2 & D2). destruct (A1 t x2 G2) as (x1 & G1 & I1 & T1 & C1 & D1). exists x1. split_and!; auto; congruence.
  - intros s s1 G1. destruct (A2 s s1 G1) as (s2 & G2 & I2 & D2). destruct (B2 s s2 G2) as (s3 & G3 & I3 & D3). exists s3. split_and!; auto; congruence.
Qed.
Lemma grows_fields m m' : txs m' = txs m -> sts m' = sts m -> subs m' = subs m -> (exists l, conflictCalls m' = conflictCalls m ++ l) -> grows m m'.
Proof. intros E1 E2 E3 [l E4]. split; rewrite ?E1, ?E2, ?E3, ?E4; eauto 10. set_solver. Qed.
Lemma grows_upd_tx t f m : (forall x, txs m !! t = Some x -> inputs (f x) = inputs x /\ tx_id (f x) = tx_id x /\ (conflicting (acc x) = true -> conflicting (acc (f x)) = true) /\ (booked (life (f x)) = true -> booked (life x) = true)) -> grows m (upd_tx t f m).
Proof.
  intros H. split; try done; [|eauto]. intros t' x'. cbn. destruct (decide (t = t')) as [<-|]; [rewrite lookup_alter_eq|rewrite lookup_alter_ne by done; eauto 10]. destruct (txs m !! t) as [x|]; cbn; [|done]. intros [= <-]. exists x. split; [done|]. auto.
Qed.
Lemma grows_upd_st s f m : (forall x, sts m !! s = Some x -> state (f x) = state x /\ doubleSpent (f x) = doubleSpent x) -> grows m (upd_st s f m).
Proof.
  intros H. split; try done; [eauto 10|]. intros s' x Hx. cbn. destruct (decide (s = s')) as [<-|]; [rewrite lookup_alter_eq, Hx; cbn; eexists; split; [done|]; by apply H|rewrite lookup_alter_ne by done; eauto].
Qed.
Lemma grows_alloc_st x m K : Inv m K -> grows m (alloc_st x m).
Proof.
  intros HI. split; try done; [eauto 10|]. intros s y Hy. cbn. rewrite lookup_insert_ne; [eauto|]. intros <-. destruct (iv_next _ _ HI (nextPtr m)) as [_ H]; [lia|]. congruence.
Qed.
Lemma grows_subs m l : (forall t s, (St s, VDoubleSpent, Fork t s) ∈ subs m -> (St s, VDoubleSpent, Fork t s) ∈ l) -> grows m (with_subs l m).
Proof. intros H. split; try done; eauto 10. Qed.

Definition progress (k : Task) : bool :=
  match k with Subscribe _ _ (Fork _ _) | Call (Fork _ _) _ | ForkTransaction _ _ | UpdateResources _ _ | SetBooked _ | BookTransaction _ | IncreaseSpenderCount _ | Call (InputResolved _ _ _) _ => true | _ => false end.
Definition unbooked (l : list Task) : Prop := forall t, SetBooked t ∉ l.
Lemma covered_grows m m' K K' t id s sid x x' : covered m K t id s sid -> grows m m' -> txs m !! t = Some x -> txs m' !! t = Some x' -> is_Some (sts m !! s) -> (forall k, k ∈ K -> progress k = true -> k ∈ K') -> covered m' K' t id s sid.
Proof.
  intros Hc Hg Hx Hx' [sx Hs] HK. destruct Hc as [[H1 H2]|[H|[[v H]|[(r & H & Hr)|[H (r & Hr & H2)]]]]].
  - left. split; [by eapply gr_subs|]. destruct (gr_st _ _ Hg s sx Hs) as (sx' & Hs' & _ & Hd). unfold is_double in *. rewrite Hs in H2. rewrite Hs'. congruence.
  - right; left. by apply HK.
  - right; right; left. exists v. by apply HK.
  - do 3 right; left. exists r. split; [by apply HK|done].
  - do 4 right. split.
    + unfold is_conflicting in *. rewrite Hx in H. rewrite Hx'. destruct (gr_tx _ _ Hg t x' Hx') as (y & Hy & _ & _ & Hc & _). simplify_eq. auto.
    + exists r. split; [done|]. destruct H2 as [H2|H2]; [left; by apply HK|right; by eapply gr_calls].
Qed.
Lemma Forks_grows m m' K K' : Inv m K -> Forks m K -> grows m m' -> (forall k, k ∈ K -> progress k = true -> k ∈ K') -> (forall t, SetBooked t ∈ K' -> SetBooked t ∈ K) -> Forks m' K'.
Proof.
  intros HI HF Hg HK HB t x' s sx' Hx' Hs' Hro Hin Hb. destruct (gr_tx _ _ Hg t x' Hx') as (x & Hx & E1 & E2 & _ & Hbk). rewrite E1 in Hin. rewrite E2.
  destruct (to_inputs _ _ _ _ (iv_tx _ _ HI _ _ Hx) s Hin) as [sx Hs]. destruct (gr_st _ _ Hg s sx Hs) as (sx2 & Hs2 & Est & _). assert (sx2 = sx') as -> by congruence. rewrite Est in Hro |- *.
  eapply covered_grows; [|exact Hg|exact Hx|exact Hx'|by exists sx|exact HK]. apply (HF t x s sx Hx Hs Hro Hin). destruct Hb as [Hb|Hb]; auto.
Qed.

(** ** Steps that only add *)
Definition adds (m : MemPool) (a : act) : Prop := grows m a.1 /\ unbooked a.2.
Lemma unbooked_nil : unbooked [].
Proof. intros t Ht. by apply elem_of_nil in Ht. Qed.
Lemma unbooked_app l1 l2 : unbooked l1 -> unbooked l2 -> unbooked (l1 ++ l2).
Proof. intros H1 H2 t [Ht|Ht]%elem_of_app; [by eapply H1|by eapply H2]. Qed.
Lemma unbooked_cons k l : (forall t, k <> SetBooked t) -> unbooked l -> unbooked (k :: l).
Proof. intros H1 H2 t [Ht|Ht]%elem_of_cons; [by eapply H1|by eapply H2]. Qed.
Lemma unbooked_fire o v x m : unbooked (fire o v x m).
Proof. intros t (c & _ & ?)%elem_of_fire. done. Qed.
Lemma unbooked_fmap {A} (f : A -> Task) l : (forall a t, f a <> SetBooked t) -> unbooked (f <$> l).
Proof. intros H t (a & E & _)%list_elem_of_fmap. by eapply H. Qed.
Lemma adds_refl m : adds m (m, []).
Proof. split; [apply pool_grows_refl|apply unbooked_nil]. Qed.
#[export] Hint Resolve pool_grows_refl unbooked_nil unbooked_app unbooked_fire adds_refl : forks.
#[export] Hint Extern 1 (unbooked (_ :: _)) => (apply unbooked_cons; [done|]) : forks.
#[export] Hint Extern 1 (unbooked (_ <$> _)) => (by apply unbooked_fmap) : forks.
#[export] Hint Extern 1 (unbooked (if ?b then _ else _)) => destruct b : forks.
#[export] Hint Extern 1 (unbooked (match ?b with _ => _ end)) => destruct b : forks.
#[export] Hint Extern 1 (grows _ (upd_tx _ _ _)) => (apply grows_upd_tx; by intros) : forks.
#[export] Hint Extern 1 (grows _ (upd_att _ _ _)) => (first [apply grows_upd_tx; by intros|eapply pool_grows_trans; [|apply grows_upd_tx; by intros]]) : forks.
#[export] Hint Extern 1 (grows _ (upd_acc _ _ _)) => (first [apply grows_upd_tx; by intros|eapply pool_grows_trans; [|apply grows_upd_tx; by intros]]) : forks.
#[export] Hint Extern 1 (grows _ (upd_life _ _ _)) => (first [apply grows_upd_tx; by intros|eapply pool_grows_trans; [|apply grows_upd_tx; by intros]]) : forks.
#[export] Hint Extern 1 (grows _ (upd_st _ _ _)) => (apply grows_upd_st; by intros) : forks.
#[export] Hint Extern 2 (grows _ _) => (apply grows_fields; [done|done|done|first [by exists []; rewrite app_nil_r|by eexists]]) : forks.
Ltac growing := repeat match goal with
  | |- adds _ (on_tx _ _ _) => unfold on_tx
  | |- adds _ (on_st _ _ _) => unfold on_st
  | |- adds _ (on_sg _ _ _) => unfold on_sg
  | |- adds ?m (?m, []) => apply adds_refl
  | |- adds _ (if ?b then _ else _) => destruct b eqn:?
  | |- adds _ (match ?x with _ => _ end) => destruct x eqn:?
  end; try (split; cbn [fst snd]; solve [auto 10 with forks]).
Lemma adds_then m m1 a : grows m m1 -> adds m1 a -> adds m a.
Proof. intros H1 [H2 H3]. split; [by eapply pool_grows_trans|done]. Qed.
Lemma set_tx_accepted_adds t b m : adds m (set_tx_accepted t b m).
Proof. unfold set_tx_accepted. growing. Qed.
Lemma set_st_accepted_adds t b m : adds m (set_st_accepted t b m).
Proof. unfold set_st_accepted. growing. Qed.
Lemma set_tx_rejected_adds t m : adds m (set_tx_rejected t m).
Proof. unfold set_tx_rejected. growing. Qed.
Lemma set_st_rejected_adds t m : adds m (set_st_rejected t m).
Proof. unfold set_st_rejected. growing. Qed.
Lemma set_tx_orphaned_adds t n m : adds m (set_tx_orphaned t n m).
Proof. unfold set_tx_orphaned. growing. Qed.
Lemma set_st_orphaned_adds t n m : adds m (set_st_orphaned t n m).
Proof. unfold set_st_orphaned. growing. Qed.
Lemma set_tx_committed_adds t n m : adds m (set_tx_committed t n m).
Proof. unfold set_tx_committed. growing. Qed.
Lemma set_st_committed_adds t n m : adds m (set_st_committed t n m).
Proof. unfold set_st_committed. growing. Qed.
Lemma set_spendAccepted_adds s v m : adds m (set_spendAccepted s v m).
Proof. unfold set_spendAccepted. growing. Qed.
Lemma set_spendCommitted_adds s v m : adds m (set_spendCommitted s v m).
Proof. unfold set_spendCommitted. growing. Qed.
Lemma decreaseSpenderCount_adds s m : adds m (decreaseSpenderCount s m).
Proof. unfold decreaseSpenderCount. growing. Qed.
Lemma evictValidAttachment_adds t b m : adds m (evictValidAttachment t b m).
Proof. unfold evictValidAttachment. growing. Qed.
Lemma addValidAttachments_adds t l m : adds m (foldl (addValidAttachment t) m l, []).
Proof. revert m. induction l as [|b l IH]; intros m; cbn [foldl]; [apply adds_refl|]. eapply adds_then; [|apply IH]. unfold addValidAttachment. auto with forks. Qed.
Lemma addAttachment_adds g b m : adds m (addAttachment g b m).
Proof. unfold addAttachment. growing. Qed.
Lemma evictAttachment_adds g b m : adds m (evictAttachment g b m).
Proof. unfold evictAttachment. growing. Qed.
Lemma evict_tx_adds id m : adds m (evict_tx id m).
Proof. unfold evict_tx. growing. Qed.
Lemma add_to_diff_adds t x n m : adds m (add_to_diff t x n m).
Proof. unfold add_to_diff. growing. Qed.
Lemma rollback_in_diff_adds t n m : adds m (rollback_in_diff t n m, []).
Proof. unfold rollback_in_diff. destruct (txs m !! t), (stateDiffs m !! n); growing. Qed.
Lemma updateStateDiffs_adds t p n m : adds m (updateStateDiffs t p n m).
Proof.
  unfold updateStateDiffs, on_tx. destruct (txs m !! t) as [x|]; [|apply adds_refl]. destruct (p =? n); [apply adds_refl|]. eapply (adds_then m (if p =? 0 then m else rollback_in_diff t p m)); [destruct (p =? 0); [apply pool_grows_refl|apply rollback_in_diff_adds]|].
  destruct (accepted (tx_flags x) && negb (n =? 0)); [|apply adds_refl]. destruct (n <=? lastEvictedSlot m); [growing|apply add_to_diff_adds].
Qed.
Lemma inherit_parents_adds t m : adds m (inherit_parents t m).
Proof. unfold inherit_parents. growing. Qed.
Lemma set_conflicts_adds t c m : adds m (set_conflicts t c m).
Proof. unfold set_conflicts. growing. Qed.
Lemma inherit_from_source_adds s m : adds m (inherit_from_source s m).
Proof. unfold inherit_from_source. growing. Qed.
Lemma setConflictAccepted_adds t m : adds m (setConflictAccepted t m).
Proof. unfold setConflictAccepted, on_tx. destruct (txs m !! t) as [x|]; [|apply adds_refl]. growing. eapply adds_then; [|apply set_tx_accepted_adds]. auto with forks. Qed.
Lemma input_accepted_adds t m : adds m (input_accepted t m).
Proof. unfold input_accepted, on_tx. destruct (txs m !! t) as [x|]; [|apply adds_refl]. growing. eapply adds_then; [|apply set_tx_accepted_adds]. auto with forks. Qed.
Lemma input_pending_adds t m : adds m (input_pending t m).
Proof. unfold input_pending, on_tx. destruct (txs m !! t) as [x|]; [|apply adds_refl]. growing. eapply adds_then; [|apply set_tx_accepted_adds]. auto with forks. Qed.
Lemma markInputSolid_adds t m : adds m (markInputSolid t m).
Proof. unfold markInputSolid. growing. Qed.
Lemma delete_transaction_adds t m : adds m (delete_transaction t m).
Proof.
  unfold delete_transaction, on_tx. destruct (txs m !! t) as [x|]; [|apply adds_refl]. split; cbn [fst snd]; [|auto with forks]. destruct (cachedTransactions m !! tx_id x); [|apply pool_grows_refl].
  generalize (map_to_list (validAttachments (att x))).*1. intros l. eapply (pool_grows_trans _ (with_cached (delete (tx_id x) (cachedTransactions m)) m)); [auto with forks|]. generalize (with_cached (delete (tx_id x) (cachedTransactions m)) m). intros m1. induction l as [|b l IH]; cbn [foldr]; [apply pool_grows_refl|]. eapply pool_grows_trans; [exact IH|]. unfold remove_attachment. auto with forks.
Qed.
Lemma evictOutputs_adds d m : adds m (evictOutputs d m, []).
Proof.
  unfold evictOutputs. destruct (delayedOutputStateEviction m !! d) as [o|]; [|growing]. split; [|apply unbooked_nil]. cbn [fst]. eapply pool_grows_trans; [|apply (grows_fields (foldr (fun '(id, s) m => match sts m !! s with Some x => if HasNoSpenders x then with_requests (delete id (cachedStateRequests m)) m else m | None => m end) (with_delayedTx (delete d (delayedTransactionEviction m)) m) (map_to_list o))); [done|done|done|by exists []; rewrite app_nil_r]].
  eapply (pool_grows_trans _ (with_delayedTx (delete d (delayedTransactionEviction m)) m)); [auto with forks|]. generalize (with_delayedTx (delete d (delayedTransactionEviction m)) m). intros m1. induction (map_to_list o) as [|[id s] l IH]; cbn [foldr]; [apply pool_grows_refl|]. eapply pool_grows_trans; [exact IH|]. destruct (sts _ !! s) as [x|]; [destruct (HasNoSpenders x)|]; auto with forks.
Qed.
Lemma evictDelayed_adds mca slot m : adds m (evictDelayed mca slot m).
Proof. unfold evictDelayed. growing. Qed.
Lemma signed_solid_adds vs g t m : adds m (signed_solid vs g t m).
Proof. unfold signed_solid. growing. Qed.
Lemma evict_conflict_adds t m x : adds m (conflict_call (CallEvict (tx_id x)) (unsubscribe (Tx t) VParents (fun c => match c with UpdateConflictParents _ => true | _ => false end) m), []).
Proof.
  split; [|apply unbooked_nil]. cbn [fst]. eapply (pool_grows_trans _ (unsubscribe (Tx t) VParents _ m)); [|unfold conflict_call; auto with forks]. apply grows_subs. intros t' s Hin. apply list_elem_of_filter. split; [|done]. cbn. intros [[=] _].
Qed.
Lemma subscribe_adds o v c m : adds m (subscribe o v c m).
Proof.
  unfold subscribe. split; cbn [fst snd].
  - destruct (completed o m); [apply pool_grows_refl|]. apply grows_subs. set_solver.
  - destruct (current o v m); auto with forks.
Qed.
Lemma resolve_adds r s m : adds m (resolve r s m).
Proof.
  unfold resolve. destruct (rqs m !! r) as [[]|]; try apply adds_refl. split; cbn [fst snd]; [|auto with forks]. eapply (pool_grows_trans _ (with_rqs (<[r := Resolved s]> (rqs m)) m)); [auto with forks|]. apply grows_subs. intros t s' Hin. by apply list_elem_of_filter.
Qed.
Lemma publishOutput_adds s m : adds m (publishOutput s m).
Proof. unfold publishOutput, setupOutputState. growing. Qed.
Lemma solidifyInput_adds rs t i m K : Inv m K -> adds m (solidifyInput rs t i m).
Proof.
  intros HI. unfold solidifyInput, on_tx. destruct (txs m !! t) as [x|]; [|apply adds_refl]. destruct (inputReferences x !! i) as [ref|]; [|apply adds_refl]. unfold getOrCreateRequest. destruct (cachedStateRequests m !! ref) as [r|]; [growing|].
  destruct (rs ref) as [st| |]; split; cbn [fst snd]; auto with forks. eapply pool_grows_trans; [by eapply grows_alloc_st|]. auto with forks.
Qed.
Lemma delay_output_adds s n m : adds m (delay_output s n m, []).
Proof. unfold delay_output. destruct (sts m !! s); growing. Qed.
Lemma delete_request_adds s m : adds m (delete_request s m, []).
Proof. unfold delete_request. destruct (sts m !! s) as [x|]; [destruct (HasNoSpenders x)|]; growing. Qed.
#[export] Hint Resolve set_tx_accepted_adds set_st_accepted_adds set_tx_rejected_adds set_st_rejected_adds set_tx_orphaned_adds set_st_orphaned_adds set_tx_committed_adds set_st_committed_adds set_spendAccepted_adds decreaseSpenderCount_adds evictValidAttachment_adds
  addValidAttachments_adds addAttachment_adds evictAttachment_adds evict_tx_adds add_to_diff_adds rollback_in_diff_adds updateStateDiffs_adds inherit_parents_adds set_conflicts_adds inherit_from_source_adds input_accepted_adds input_pending_adds markInputSolid_adds
  delete_transaction_adds evictOutputs_adds evictDelayed_adds signed_solid_adds evict_conflict_adds subscribe_adds resolve_adds publishOutput_adds delay_output_adds delete_request_adds : forks.
Section Steps.
Context (ValidateSignatures : SignedTransaction -> list StateRef -> option Context_) (Execute : Context_ -> TransactionID -> option (list StateRef)).
Context (resolveState : StateID -> Resolution) (conflictDAG_ok : list ConflictCall -> ConflictCall -> bool) (optForkAllTransactions : bool) (MaxCommittableAge : SlotIndex -> SlotIndex).
Abbreviation run_callback' := (run_callback ValidateSignatures conflictDAG_ok).
Abbreviation run_task' := (run_task ValidateSignatures resolveState conflictDAG_ok optForkAllTransactions MaxCommittableAge).
Lemma run_callback_adds c v m a : run_callback' c v m = Some a -> progress (Call c v) = false -> adds m a.
Proof.
  intros H Hp. destruct c; try done; cbn in H.
  all: repeat case_match; simplify_eq; eauto with forks.
  all: try (unfold on_tx, on_sg, on_st, setInvalid; growing; eauto with forks; fail).
  split; cbn [fst snd]; [apply set_spendCommitted_adds|]. apply unbooked_app; [apply set_spendCommitted_adds|auto with forks].
Qed.
Lemma run_task_adds k m m' new K : run_task' k m = Some (m', new) -> Inv m K -> progress k = false -> adds m (m', new).
Proof.
  intros H HI Hp. assert (Hd : forall a, Some a = Some (m', new) -> adds m a -> adds m (m', new)) by (intros a [= ->]; done).
  destruct k; try done; cbn [run_task] in H; try (by eapply (Hd _ H); eauto with forks); try (by eapply (Hd _ H); growing).
  - by eapply run_callback_adds.
  - apply (Hd _ H). by eapply solidifyInput_adds.
Qed.

(** ** Steps of a fork *)
Definition head_covered (m : MemPool) (k : Task) (t s : ptr) (sid : StateID) : Prop :=
  k = Subscribe (St s) VDoubleSpent (Fork t s) \/ (exists v, k = Call (Fork t s) v) \/ (exists r, k = ForkTransaction t r /\ sid ∈ r) \/ (is_conflicting m t = true /\ exists r, sid ∈ r /\ k = UpdateResources t r).
Lemma covered_cons m k K t id s sid : covered m (k :: K) t id s sid -> covered m K t id s sid \/ head_covered m k t s sid.
Proof.
  intros [H|[[<-|H]%elem_of_cons|[[v [<-|H]%elem_of_cons]|[(r & [<-|H]%elem_of_cons & Hr)|[H (r & Hr & [[<-|H2]%elem_of_cons|H2])]]]]].
  - by left; left.
  - right; by left.
  - left; right; by left.
  - right; right; left; eauto.
  - left; do 2 right; left; eauto.
  - right; do 2 right; left; eauto.
  - left; do 3 right; left; eauto.
  - right; do 3 right; eauto.
  - left; do 4 right; eauto.
  - left; do 4 right; eauto.
Qed.
Lemma Forks_step m m' k K new : Inv m (k :: K) -> Forks m (k :: K) -> adds m (m', new) ->
  (forall t x s sx, txs m !! t = Some x -> sts m !! s = Some sx -> head_covered m k t s (state_id (state sx)) -> covered m' (new ++ K) t (tx_id x) s (state_id (state sx))) -> Forks m' (new ++ K).
Proof.
  intros HI HF [Hg Hu] Hh t x' s sx' Hx' Hs' Hro Hin Hb. cbn [fst snd] in Hg, Hu. destruct (gr_tx _ _ Hg t x' Hx') as (x & Hx & E1 & E2 & _ & Hbk). rewrite E1 in Hin. rewrite E2.
  destruct (to_inputs _ _ _ _ (iv_tx _ _ HI _ _ Hx) s Hin) as [sx Hs]. destruct (gr_st _ _ Hg s sx Hs) as (sx2 & Hs2 & Est & _). assert (sx2 = sx') as -> by congruence. rewrite Est in Hro |- *.
  destruct (covered_cons _ _ _ _ _ _ _ (HF t x s sx Hx Hs Hro Hin ltac:(destruct Hb as [Hb|[Hb|Hb]%elem_of_app]; [by left; auto|by apply Hu in Hb|right; by right]))) as [Hc|Hc]; [|by apply Hh].
  eapply covered_grows; [exact Hc|exact Hg|exact Hx|exact Hx'|by exists sx|]. intros q Hq _. set_solver.
Qed.
Lemma no_head m k t s sid : progress k = false -> ~ head_covered m k t s sid.
Proof. intros Hp [->|[[v ->]|[(r & -> & _)|[_ (r & _ & ->)]]]]; done. Qed.
Lemma quiet_forks k m m' new K : run_task' k m = Some (m', new) -> Inv m (k :: K) -> Forks m (k :: K) -> progress k = false -> Forks m' (new ++ K).
Proof. intros H HI HF Hp. eapply Forks_step; [exact HI|exact HF|by eapply run_task_adds|]. intros t x s sx _ _ Hh. by apply no_head in Hh. Qed.
Lemma subscribe_forks o v t s m K : Inv m (Subscribe o v (Fork t s) :: K) -> Forks m (Subscribe o v (Fork t s) :: K) -> Forks (subscribe o v (Fork t s) m).1 ((subscribe o v (Fork t s) m).2 ++ K).
Proof.
  intros HI HF. eapply Forks_step; [exact HI|exact HF|apply subscribe_adds|]. intros t' x s' sx Hx Hs [[= -> -> -> <-]|[[v' ?]|[(r & ? & _)|[_ (r & _ & ?)]]]]; try done. unfold subscribe. cbn. rewrite Hs. cbn. destruct (doubleSpent sx) eqn:Ed.
  - right; right; left. eexists. by left.
  - left. split; [set_solver|]. unfold is_double. cbn. by rewrite Hs.
Qed.
Lemma fork_forks t s v m K : Inv m (Call (Fork t s) v :: K) -> Forks m (Call (Fork t s) v :: K) -> let a := on_st s m (fun x => (m, [ForkTransaction t {[state_id (state x)]}])) in Forks a.1 (a.2 ++ K).
Proof.
  intros HI HF a. eapply Forks_step; [exact HI|exact HF| |].
  - assert (Ha : adds m a) by (unfold a; growing). exact Ha.
  - intros t' x s' sx Hx Hs [?|[[v' [= <- <- <-]]|[(r & ? & _)|[_ (r & _ & ?)]]]]; try done. unfold a, on_st. rewrite Hs. do 3 right; left. eexists. split; [by left|]. by apply elem_of_singleton.
Qed.
Lemma forkTransaction_adds t r m : adds m (forkTransaction t r m).
Proof. unfold forkTransaction. growing. Qed.
Lemma forkTransaction_forks t r m K : Inv m (ForkTransaction t r :: K) -> Forks m (ForkTransaction t r :: K) -> Forks (forkTransaction t r m).1 ((forkTransaction t r m).2 ++ K).
Proof.
  intros HI HF. eapply Forks_step; [exact HI|exact HF|apply forkTransaction_adds|]. intros t' x s sx Hx Hs [?|[[v' ?]|[(r' & [= <- <-] & Hr)|[_ (r' & _ & ?)]]]]; try done. do 4 right. unfold forkTransaction, on_tx, is_conflicting. rewrite Hx. destruct (conflicting (acc x)) eqn:Ec; cbn [fst snd].
  - rewrite Hx. split; [done|]. exists r. split; [done|]. left. by left.
  - cbn. rewrite lookup_alter_eq, Hx. split; [done|]. exists r. split; [done|]. left. set_solver.
Qed.
Lemma updateResources_forks t r m K : Inv m (UpdateResources t r :: K) -> Forks m (UpdateResources t r :: K) ->
  let a := on_tx t m (fun x => (conflict_call (CallResources (tx_id x) r) m, if conflictDAG_ok (conflictCalls m) (CallResources (tx_id x) r) then [] else [OrphanAt t 1; HandleError])) in Forks a.1 (a.2 ++ K).
Proof.
  intros HI HF a. eapply Forks_step; [exact HI|exact HF| |].
  - assert (Ha : adds m a) by (unfold a, conflict_call; growing). exact Ha.
  - intros t' x s sx Hx Hs [?|[[v' ?]|[(r' & ? & _)|[Hc (r' & Hr & [= <- <-])]]]]; try done. unfold a, on_tx, is_conflicting in *. rewrite Hx in *. do 4 right. split; [unfold is_conflicting; cbn; by rewrite Hx|]. exists r. split; [done|]. right. cbn. set_solver.
Qed.
Lemma covered_same m m' K K' t id s sid : covered m K t id s sid -> subs m' = subs m -> is_double m' s = is_double m s -> is_conflicting m' t = is_conflicting m t -> conflictCalls m' = conflictCalls m -> (forall k, k ∈ K -> k ∈ K') -> covered m' K' t id s sid.
Proof.
  intros Hc E1 E2 E3 E4 HK. unfold covered. rewrite E1, E2, E3, E4. destruct Hc as [H|[H|[[v H]|[(r & H & Hr)|[H (r & Hr & H2)]]]]]; [by left|right; left; auto|do 2 right; left; eauto|do 3 right; left; eauto|do 4 right; split; [done|]; exists r; split; [done|]; destruct H2; auto].
Qed.
Lemma setBooked_forks t m K : Inv m (SetBooked t :: K) -> Forks m (SetBooked t :: K) -> Forks (setBooked t m).1 ((setBooked t m).2 ++ K).
Proof.
  intros HI HF. unfold setBooked, on_tx.
  assert (Hpop : forall x, txs m !! t = Some x -> booked (life x) = true -> Forks m K).
  { intros x Hx Hb t' x' s sx Hx' Hs Hro Hin Hb'. assert (Hc : covered m (SetBooked t :: K) t' (tx_id x') s (state_id (state sx))) by (apply (HF t' x' s sx); try done; destruct Hb'; [by left|right; by right]). apply covered_cons in Hc as [Hc|[?|[[? ?]|[(? & ? & _)|[_ (? & _ & ?)]]]]]; done. }
  destruct (txs m !! t) as [x|] eqn:Hx; [|].
  - destruct (booked (life x)) eqn:Eb; [by apply (Hpop x)|]. cbn [fst snd]. intros t' x' s sx. cbn. intros Hx' Hs Hro Hin Hb.
    assert (Hy : exists y, txs m !! t' = Some y /\ inputs y = inputs x' /\ tx_id y = tx_id x' /\ conflicting (acc y) = conflicting (acc x') /\ (booked (life x') = true -> booked (life y) = true \/ t' = t)).
    { destruct (decide (t = t')) as [<-|Hne]; [rewrite lookup_alter_eq, Hx in Hx'; injection Hx' as <-; exists x; by split_and!; eauto|rewrite lookup_alter_ne in Hx' by done; exists x'; split_and!; auto]. }
    destruct Hy as (y & Hy & E1 & E2 & E3 & E4). assert (Hb' : booked (life y) = true \/ SetBooked t' ∈ SetBooked t :: K). { destruct Hb as [Hb|[Hb|Hb]%elem_of_app]; [destruct (E4 Hb) as [? | ->]; [by left|right; by left]|apply list_elem_of_fmap in Hb as (? & ? & _); done|right; by right]. }
    rewrite <- E1 in Hin. rewrite <- E2. assert (Hc := HF t' y s sx Hy Hs Hro Hin Hb'). apply covered_cons in Hc as [Hc|[?|[[? ?]|[(? & ? & _)|[_ (? & _ & ?)]]]]]; try done.
    eapply covered_same; [exact Hc|done|done| |done|set_solver]. unfold is_conflicting. cbn. rewrite Hx', Hy. congruence.
  - pose proof (iv_tasks _ _ HI) as [(x & Hx' & _) _]%Forall_cons. congruence.
Qed.
Lemma bookTransaction_forks t m K : Inv m (BookTransaction t :: K) -> Forks m (BookTransaction t :: K) -> Forks (bookTransaction optForkAllTransactions t m).1 ((bookTransaction optForkAllTransactions t m).2 ++ K).
Proof.
  intros HI HF. unfold bookTransaction, on_tx. destruct (txs m !! t) as [x|] eqn:Hx; [|pose proof (iv_tasks _ _ HI) as [(x & Hx' & _) _]%Forall_cons; congruence]. cbn [fst snd].
  set (fork := filter _ (tx_inputs x)). set (tasks := if optForkAllTransactions then _ else _).
  intros t' x' s sx Hx' Hs Hro Hin Hb. destruct (decide (t' = t)) as [->|Hne].
  - simplify_eq. assert (Hf : s ∈ fork). { apply list_elem_of_filter. split; [by rewrite Hs; cbn; rewrite Hro|]. apply list_elem_of_omap. exists (Some s). done. }
    unfold tasks. destruct optForkAllTransactions.
    + do 3 right; left. eexists. split; [by left|]. apply elem_of_list_to_set, list_elem_of_fmap. exists (state sx). split; [done|]. apply list_elem_of_omap. exists s. split; [done|]. by rewrite Hs.
    + right; left. apply elem_of_app. left. apply elem_of_app. left. apply list_elem_of_fmap. by exists s.
  - assert (Hb' : booked (life x') = true \/ SetBooked t' ∈ BookTransaction t :: K). { destruct Hb as [Hb|[[Hb|Hb]%elem_of_app|Hb]%elem_of_app]; [by left| |apply elem_of_cons in Hb as [[= ?]|Hb]; [done|by apply elem_of_nil in Hb]|right; by right]. unfold tasks in Hb. destruct optForkAllTransactions; [apply elem_of_cons in Hb as [?|Hb]; [done|by apply elem_of_nil in Hb]|apply list_elem_of_fmap in Hb as (? & ? & _); done]. }
    assert (Hc := HF t' x' s sx Hx' Hs Hro Hin Hb'). apply covered_cons in Hc as [Hc|[?|[[? ?]|[(? & ? & _)|[_ (? & _ & ?)]]]]]; try done. eapply covered_same; [exact Hc|done..|]. intros k Hk. apply elem_of_app. by right.
Qed.
Lemma increase_forks s m K : Inv m (IncreaseSpenderCount s :: K) -> Forks m (IncreaseSpenderCount s :: K) -> Forks (increaseSpenderCount s m).1 ((increaseSpenderCount s m).2 ++ K).
Proof.
  intros HI HF. unfold increaseSpenderCount, on_st.
  assert (Hplain : forall f, (forall y, sts m !! s = Some y -> state (f y) = state y /\ doubleSpent (f y) = doubleSpent y) -> Forks (upd_st s f m) ([] ++ K)).
  { intros f Hf. eapply Forks_step; [exact HI|exact HF|split; [by apply grows_upd_st|apply unbooked_nil]|]. intros ? ? ? ? _ _ [?|[[? ?]|[(? & ? & _)|[_ (? & _ & ?)]]]]; done. }
  destruct (sts m !! s) as [x|] eqn:Hs.
  - destruct (u64 (spenderCount x + 1) =? 1); [cbn [fst snd]; apply Hplain; intros y Hy; by simplify_eq|]. destruct ((u64 (spenderCount x + 1) =? 2) && negb (doubleSpent x)); [|cbn [fst snd]; apply Hplain; by intros]. cbn [fst snd].
    intros t x' s' sx. cbn. intros Hx' Hs' Hro Hin Hb. assert (Hst : exists sy, sts m !! s' = Some sy /\ state sy = state sx). { destruct (decide (s = s')) as [<-|]; [rewrite lookup_alter_eq, Hs in Hs'; injection Hs' as <-; by exists x|rewrite lookup_alter_ne in Hs' by done; eauto]. } destruct Hst as (sy & Hsy & Est). rewrite <- Est in Hro |- *.
    assert (Hb' : booked (life x') = true \/ SetBooked t ∈ IncreaseSpenderCount s :: K) by (destruct Hb as [Hb|[Hb|Hb]%elem_of_app]; [by left|apply elem_of_fire in Hb as (? & _ & ?); done|right; by right]).
    destruct (HF t x' s' sy Hx' Hsy Hro Hin Hb') as [[H1 H2]|Hc].
    + destruct (decide (s = s')) as [<-|Hne].
      * do 2 right; left. exists Fired. apply elem_of_app. left. apply elem_of_fire. eauto.
      * left. split; [done|]. unfold is_double in *. cbn. by rewrite lookup_alter_ne.
    + destruct Hc as [[?|H]%elem_of_cons|[[v [?|H]%elem_of_cons]|[(r & [?|H]%elem_of_cons & Hr)|[H (r & Hr & [[?|H2]%elem_of_cons|H2])]]]]; try done.
      * right; left. set_solver.
      * do 2 right; left. exists v. set_solver.
      * do 3 right; left. exists r. set_solver.
      * do 4 right. split; [done|]. exists r. split; [done|]. left. set_solver.
      * do 4 right. split; [done|]. exists r. split; [done|]. by right.
  - cbn [fst snd]. intros t x' s' sx Hx' Hs' Hro Hin Hb. assert (Hc := HF t x' s' sx Hx' Hs' Hro Hin ltac:(destruct Hb; [by left|right; by right])). apply covered_cons in Hc as [Hc|[?|[[? ?]|[(? & ? & _)|[_ (? & _ & ?)]]]]]; done.
Qed.
Lemma published_all m K t x i : Inv m K -> solidified m t -> txs m !! t = Some x -> inputs x !! i <> Some None.
Proof.
  intros HI (y & Hy & Hu) Hx Hi. assert (y = x) as -> by congruence. destruct (iv_tx _ _ HI _ _ Hx). pose proof (zsum_ge0 _ K (w_sol_nonneg t)). pose proof (i_pub_le (<[i := Some t]> (inputs x))) as Hle. rewrite length_insert, (zsum_insert _ _ _ None) in Hle by done. cbn in Hle. lia.
Qed.
Lemma input_resolved_forks t i created s m K : Inv m (Call (InputResolved t i created) (State s) :: K) -> Forks m (Call (InputResolved t i created) (State s) :: K) ->
  Forks (input_resolved t i created s m).1 ((input_resolved t i created s m).2 ++ K).
Proof.
  intros HI HF. set (k := Call (InputResolved t i created) (State s)) in *. assert (HK := iv_tasks _ _ HI). unfold input_resolved, publishInput. cbn [fst snd]. set (new := (setupSpender s t ++ setupInput s t) ++ _). set (m' := upd_tx t _ m).
  assert (Hu : unbooked new) by (unfold new, setupSpender, setupInput, setupOutputState; destruct created; cbn; auto 20 with forks).
  intros t' x' s' sx Hx' Hs Hro Hin Hb. change (sts m !! s' = Some sx) in Hs. assert (Hb1 : booked (life x') = true \/ SetBooked t' ∈ k :: K) by (destruct Hb as [Hb|[Hb|Hb]%elem_of_app]; [by left|by apply Hu in Hb|right; by right]). clear Hb.
  assert (Hx : exists x, txs m !! t' = Some x /\ tx_id x' = tx_id x /\ acc x' = acc x /\ life x' = life x /\ (t' <> t -> inputs x' = inputs x) /\ (t' = t -> inputs x' = <[i := Some s]> (inputs x))).
  { revert Hx'. cbn. destruct (decide (t = t')) as [<-|Hne]; [rewrite lookup_alter_eq|rewrite lookup_alter_ne by done; intros Hx'; exists x'; by split_and!]. destruct (txs m !! t) as [x|]; cbn; [|done]. intros [= <-]. exists x. by split_and!. }
  destruct Hx as (x & Hx & E1 & E2 & E3 & E4 & E5). rewrite E3 in Hb1. rewrite E1.
  assert (Hsol : solidified m t'). { destruct Hb1 as [Hb1|Hb1]; [by eapply to_booked; [eapply iv_tx; [exact HI|exact Hx]|]|]. rewrite Forall_forall in HK. by apply (HK _ Hb1). }
  assert (Hin' : Some s' ∈ inputs x). { destruct (decide (t' = t)) as [->|Hne]; [|by rewrite <- E4]. destruct (inputs x !! i) as [[q|]|] eqn:Ei.
    - exfalso. pose proof (to_tok _ _ _ _ (iv_tx _ _ HI _ _ Hx) i) as Htok. cbn [zsum] in Htok. rewrite Ei in Htok. change (w_tok t i k) with (ind ((t, i) = (t, i))) in Htok. rewrite decide_True in Htok by done. cbn in Htok. pose proof (zsum_ge0 _ K (w_tok_nonneg t i)). assert (0 <= zsum (fun y => cb_tok t i y.2) (subs m)) by (apply zsum_ge0; intros; apply cb_tok_nonneg). lia.
    - exfalso. by eapply published_all.
    - rewrite E5 in Hin by done. by rewrite list_insert_ge in Hin by (by apply lookup_ge_None). }
  assert (Hc := HF t' x s' sx Hx Hs Hro Hin' Hb1). apply covered_cons in Hc as [Hc|[?|[[? ?]|[(? & ? & _)|[_ (? & _ & ?)]]]]]; try done. eapply covered_same; [exact Hc|done|done| |done|set_solver]. unfold is_conflicting. rewrite Hx', Hx. congruence.
Qed.
Lemma run_task_forks k m m' new K : run_task' k m = Some (m', new) -> Inv m (k :: K) -> Forks m (k :: K) -> Forks m' (new ++ K).
Proof.
  intros H HI HF. destruct (progress k) eqn:Hp; [|by eapply quiet_forks]. assert (Hs : forall a, Some a = Some (m', new) -> Forks a.1 (a.2 ++ K) -> Forks m' (new ++ K)) by by intros a [= ->].
  destruct k as [c v|o v c| | | | | | | | | | | | | | | | | | | | | | |]; try done; cbn [run_task] in H; try (destruct c; try done).
  - apply (Hs _ H). by apply (fork_forks t s v).
  - destruct v; try (injection H as <- <-; eapply Forks_step; [exact HI|exact HF|apply adds_refl|]; intros ? ? ? ? _ _ [?|[[? ?]|[(? & ? & _)|[_ (? & _ & ?)]]]]; done). apply (Hs _ H). by apply input_resolved_forks.
  - apply (Hs _ H). by apply subscribe_forks.
  - apply (Hs _ H). by apply increase_forks.
  - apply (Hs _ H). by apply bookTransaction_forks.
  - apply (Hs _ H). by apply setBooked_forks.
  - apply (Hs _ H). by apply forkTransaction_forks.
  - apply (Hs _ H). by apply updateResources_forks.
Qed.
Lemma Forks_start m a : Inv m [] -> Forks m [] -> adds m a -> Forks a.1 a.2.
Proof. intros HI HF [Hg Hu]. eapply Forks_grows; [exact HI|exact HF|exact Hg|intros k Hk; by apply elem_of_nil in Hk|]. intros t Ht. by apply Hu in Ht. Qed.
Lemma register_forks t id refs m : Forks m [] -> t = nextPtr m -> Forks (register t id refs m) [].
Proof.
  intros HF -> t' x s sx. unfold register. cbn. destruct (decide (nextPtr m = t')) as [<-|Hne]; [rewrite lookup_insert_eq|rewrite lookup_insert_ne by done].
  - intros [= <-] _ _ Hin. cbn in Hin. apply elem_of_replicate in Hin as [? _]. done.
  - intros Hx Hs Hro Hin Hb. destruct (HF t' x s sx Hx Hs Hro Hin Hb) as [[H1 H2]|Hc]; [|right].
    + left. split; [set_solver|done].
    + destruct Hc as [?|[?|[?|[H ?]]]]; [by left|right; by left|do 2 right; by left|do 3 right]. split; [|done]. unfold is_conflicting in *. cbn. by rewrite lookup_insert_ne.
Qed.
Lemma attach_forks signed b m : op_ok (OpAttach signed b) = true -> Inv m [] -> Forks m [] -> Forks (AttachSignedTransaction signed b m).2.1 (AttachSignedTransaction signed b m).2.2.
Proof.
  intros Hop HI HF. unfold AttachSignedTransaction, storeTransaction. destruct (Slot b <=? lastEvictedSlot m); [done|]. cbn in Hop. destruct (vm_Inputs (signed_tx signed)) as [refs|]; [|done]. destruct (transaction_ID (signed_tx signed)) as [id|]; [|done].
  destruct (cachedTransactions m !! id) as [t|].
  - destruct (signed_ID signed) as [sid|]; [|done]. destruct (cachedSignedTransactions m !! sid) as [g|].
    + destruct (sgs m !! g); by apply (Forks_start m (m, _)); [| |split; cbn; auto with forks].
    + cbn [setupSignedTransaction fst snd]. set (m1 := upd_att t _ _). assert (Hg : grows m m1). { unfold m1. eapply pool_grows_trans; [|apply grows_upd_tx; by intros]. auto with forks. }
      destruct (sgs m1 !! _); apply (Forks_start m (_, _)); try done; split; cbn [fst snd]; auto with forks. eapply pool_grows_trans; [exact Hg|]. auto with forks.
  - set (t := nextPtr m). change (setupTransaction t _) with (register t id refs m). destruct (register_inv id refs m [] HI ltac:(lia)) as (HI1 & Ht & _). fold t in HI1, Ht. pose proof (register_forks t id refs m HF eq_refl) as HF1. set (m1 := register t id refs m) in *.
    destruct (signed_ID signed) as [sid|]; [|done]. destruct (cachedSignedTransactions m1 !! sid) as [g|].
    + destruct (sgs m1 !! g); by apply (Forks_start m1 (m1, _)); [| |split; cbn; auto with forks].
    + cbn [setupSignedTransaction fst snd]. set (m2 := upd_att t _ _). assert (Hg : grows m1 m2). { unfold m2. eapply pool_grows_trans; [|apply grows_upd_tx; by intros]. auto with forks. }
      destruct (sgs m2 !! _) as [sg|]; [|apply (Forks_start m1 (_, _)); try done; split; cbn [fst snd]; auto with forks]. unfold on_tx. destruct (txs m2 !! _) as [y|]; apply (Forks_start m1 (_, _)); try done; split; cbn [fst snd]; auto 20 with forks.
      * eapply pool_grows_trans; [exact Hg|]. auto with forks.
      * apply unbooked_app; [auto 20 with forks|]. unfold solidifyInputs. auto with forks.
Qed.
Lemma setExecuted_adds t l m K : Inv m K -> solidified m t -> adds m (setExecuted t l m).
Proof.
  revert m. induction l as [|st l IH]; intros m HI Hs; cbn [setExecuted]; [growing|]. set (m1 := alloc_st (NewStateMetadata st (Some t)) m). set (f := fun x => with_outputs (outputs x ++ [nextPtr m]) x).
  assert (HI1 : Inv m1 K) by by apply (alloc_st_keeps _ m K). assert (Hg : grows m (upd_tx t f m1)) by (eapply pool_grows_trans; [by eapply grows_alloc_st|apply grows_upd_tx; by intros]).
  assert (He2 : extends m1 (upd_tx t f m1)) by by apply upd_extends.
  assert (HI2 : Inv (upd_tx t f m1) K).
  { apply (Inv_upd_tx m1 K); [done|intros; apply step_weights_refl|eapply extends_tasks; [done|apply HI1]|]. intros x Hx Hok. destruct Hok. split; [|done]. split; cbn; try done.
    - intros s' [Hin|Hin]%elem_of_app; [by apply to_outputs|]. apply list_elem_of_singleton in Hin as ->. unfold known_st. cbn. by rewrite lookup_insert_eq.
    - intros Hb. eapply extends_solidified; eauto. }
  destruct (IH (upd_tx t f m1) HI2) as [H1 H2]; [eapply extends_solidified; [exact He2|]; eapply extends_solidified; [by eapply alloc_st_extends|done]|]. split; cbn [fst snd]; [by eapply pool_grows_trans|]. apply unbooked_app; [unfold output_subscriptions; auto 20 with forks|done].
Qed.
Lemma included_adds t b m : adds m (markAttachmentIncluded t b m).
Proof.
  unfold markAttachmentIncluded, on_tx. destruct (txs m !! t) as [x|]; [|apply adds_refl]. destruct (_ && _); [|split; cbn [fst snd]; auto with forks].
  set (m2 := upd_att t _ (upd_att t _ m)). assert (Hg : grows m m2) by (unfold m2; eapply pool_grows_trans; [|apply grows_upd_tx; by intros]; apply grows_upd_tx; by intros). split; cbn [fst snd].
  - destruct (Bool.eqb _ _); [done|]. eapply pool_grows_trans; [exact Hg|apply set_tx_accepted_adds].
  - apply unbooked_app; [destruct (Bool.eqb _ _); [apply unbooked_nil|apply set_tx_accepted_adds]|auto with forks].
Qed.
Lemma start_forks o m : op_ok o = true -> Inv m [] -> Forks m [] -> Forks (start Execute o m).1 (start Execute o m).2.
Proof.
  intros Ho HI HF. assert (Hk : forall a, adds m a -> Forks a.1 a.2) by (intros a; by apply Forks_start). destruct o as [signed b|b|t|slot|st| |slot]; cbn [start].
  - by apply attach_forks.
  - unfold MarkAttachmentIncluded. destruct (Slot b <=? lastEvictedSlot m); [done|]. destruct (transactionByAttachment b m) as [t|]; [|done]. apply Hk, included_adds.
  - apply Hk. unfold Commit, on_tx. destruct (txs m !! t); auto with forks.
  - apply Hk. unfold Evict. split; cbn [fst snd]; auto with forks.
  - apply Hk. unfold InjectRequestedState. destruct (cachedStateRequests m !! state_id st) as [r|]; [|apply adds_refl]. split; cbn [fst snd]; [by eapply grows_alloc_st|auto with forks].
  - apply Hk. unfold executeTransaction. destruct (executionQueue m) as [|[c t] rest] eqn:Eq; [apply adds_refl|]. pose proof (iv_queue _ _ HI) as Hq. rewrite Eq in Hq. apply Forall_cons in Hq as [Hs _].
    eapply (adds_then m (with_queue rest m)); [auto with forks|]. unfold on_tx. destruct (txs (with_queue rest m) !! t) as [x|]; [|apply adds_refl]. destruct (Execute c (tx_id x)) as [l|]; [|unfold setInvalid; growing].
    assert (HI1 : Inv (with_queue rest m) []). { eapply Inv_same; [exact HI|]. pose proof (iv_queue _ _ HI) as Hq'. rewrite Eq in Hq'. apply Forall_cons in Hq' as [_ Hq']. destruct HI. split; try done. }
    destruct (setExecuted_adds t l (with_queue rest m) [] HI1 Hs) as [H1 H2]. split; cbn [fst snd]; [done|]. apply unbooked_app; [done|auto with forks].
  - apply Hk. unfold StateDiff_. destruct (slot <=? lastEvictedSlot m); [apply adds_refl|]. split; cbn [fst snd]; auto with forks.
Qed.
Abbreviation reachable' := (reachable ValidateSignatures Execute resolveState conflictDAG_ok optForkAllTransactions MaxCommittableAge).
Lemma reachable_forks a : reachable' a -> Inv a.1 a.2 /\ Forks a.1 a.2.
Proof.
  apply (rtc_ind_r (fun a => Inv a.1 a.2 /\ Forks a.1 a.2) (New, [])); [split; [apply New_inv|intros t x s sx Hx; done]|]. intros [m K] b _ Hstep [HI HF]. cbn in HI, HF. inversion Hstep; subst; cbn [fst snd].
  - split; [by apply start_inv|by apply start_forks].
  - unfold ConflictAccepted. destruct (cachedTransactions m !! id) as [t|]; [|done]. split; [by apply setConflictAccepted_keeps|]. destruct (setConflictAccepted_adds t m) as [Hg Hu]. eapply Forks_grows; [exact HI|exact HF|exact Hg|set_solver|]. intros t' [Hin|Hin]%elem_of_app; [by apply Hu in Hin|done].
  - split; [by eapply pool_task_inv|by eapply run_task_forks].
Qed.
End Steps.

(** * Acceptance and conflicts of the mempool, with an example *)

Section Claims.
Context (ValidateSignatures : SignedTransaction -> list StateRef -> option Context_) (Execute : Context_ -> TransactionID -> option (list StateRef)).
Context (resolveState : StateID -> Resolution) (conflictDAG_ok : list ConflictCall -> ConflictCall -> bool) (optForkAllTransactions : bool) (MaxCommittableAge : SlotIndex -> SlotIndex).
Abbreviation reachable' := (reachable ValidateSignatures Execute resolveState conflictDAG_ok optForkAllTransactions MaxCommittableAge).
Definition input_accepted_in (m : MemPool) (o : option ptr) : Prop := exists s sx, o = Some s /\ sts m !! s = Some sx /\ accepted (st_flags sx) = true.
Definition ready (m : MemPool) (x : TransactionMetadata) : Prop := Slot (EarliestIncludedAttachment x) <> 0 /\ inputs x <> [] /\ Forall (input_accepted_in m) (inputs x).
Lemma all_accepted m (l : list (option ptr)) : zsum (i_acc m) l = Z.of_nat (length l) <-> Forall (input_accepted_in m) l.
Proof.
  induction l as [|o l IH]; [split; constructor|]. pose proof (i_acc_le m l). pose proof (i_pub_le l). rewrite Forall_cons, <- IH. cbn [zsum length]. unfold input_accepted_in. destruct o as [s|]; cbn [i_acc]; unfold st_acc.
  - destruct (sts m !! s) as [sx|] eqn:Es; [destruct (accepted (st_flags sx)) eqn:Ea|]; (split; [intros E|intros [(s' & sx' & [= <-] & E1 & E2) E]]); simplify_eq; try congruence; try lia. split; [by exists s, sx|lia].
  - split; [lia|]. intros [(? & ? & ? & _) _]. done.
Qed.
(** C11 When no operation is under way, a transaction is accepted only if it has an included attachment and at least one input, and all states it
    consumes are known and accepted; and it is accepted as soon as that holds and it is not an undecided conflict.  This is so after every sequence of operations and acceptances of conflicts,
    whatever the virtual machine, the ledger and the conflict DAG answer. *)
Theorem acceptance_exact m t x : reachable' (m, []) -> txs m !! t = Some x ->
  (accepted (tx_flags x) = true -> ready m x) /\ (ready m x -> IsConflictAccepted x = true -> accepted (tx_flags x) = true).
Proof.
  intros HI%reachable_inv Hx. destruct (iv_tx _ _ HI _ _ Hx). cbn in to_acc. destruct to_local as [L1 L2]. unfold ready. rewrite <- all_accepted. split.
  - intros [H1 H2]%L1. apply to_all in H2 as [H2 H3]. split_and!; [done|done|lia].
  - intros (H1 & H2 & H3) Hc. apply L2; [done| |done]. apply to_all. split; [lia|done].
Qed.
(** C12 Every double spend is registered as a conflict: when no operation is under way, a booked transaction that consumes a state which was spent twice, and which is not read-only, is conflicting, and the
    conflict DAG was told that the state is one of the resources of its conflict. *)
Theorem double_spends_conflict m t x s sx : reachable' (m, []) -> txs m !! t = Some x -> sts m !! s = Some sx -> booked (life x) = true -> Some s ∈ inputs x -> IsReadOnly (state sx) = false -> doubleSpent sx = true ->
  conflicting (acc x) = true /\ exists r, state_id (state sx) ∈ r /\ CallResources (tx_id x) r ∈ conflictCalls m.
Proof.
  intros [_ HF]%reachable_forks Hx Hs Hb Hin Hro Hd. destruct (HF t x s sx Hx Hs Hro Hin (or_introl Hb)) as [[_ H]|[H|[[v H]|[(r & H & _)|[H (r & Hr & H2)]]]]]; try (by apply elem_of_nil in H).
  - unfold is_double in H. cbn in H. rewrite Hs in H. congruence.
  - unfold is_conflicting in H. cbn in H. rewrite Hx in H. split; [done|]. exists r. split; [done|]. destruct H2 as [H2|H2]; [by apply elem_of_nil in H2|done].
Qed.
End Claims.

(** ** Example: a transaction that waits for its input, a chain of two, and a double spend *)
Module PoolDemo.
Definition validate (g : SignedTransaction) (l : list StateRef) : option Context_ := signed_ID g.
Definition execute (c : Context_) (id : TransactionID) : option (list StateRef) := Some [mkState (id * 10) false].
Definition ledger (x : StateID) : Resolution := if x <? 5 then StateFound (mkState x false) else StateNotFound.
Definition dag (l : list ConflictCall) (c : ConflictCall) : bool := true.
Definition signed (n id : Z) (ins : list StateID) : SignedTransaction := mkSigned (Some n) (mkTransaction (Some id) (Some ins)).
Definition b (n : Z) : BlockID := mkBlockID n 4.
Definition ops : list Op := [OpAttach (signed 102 2 [10]) (b 2); OpAttach (signed 101 1 [1]) (b 1); OpExecute; OpExecute; OpInclude (b 1); OpInclude (b 2); OpAttach (signed 103 3 [1]) (b 3); OpExecute].
Definition run_ops (l : list Op) : option MemPool := foldl (perform validate execute ledger dag false (fun _ => 3) 300) (Some New) l.
Definition pool : MemPool := Eval vm_compute in default New (run_ops ops).
Abbreviation pool_reachable := (reachable validate execute ledger dag false (fun _ => 3)).
Lemma demo_reachable : pool_reachable (pool, []).
Proof. apply (perform_reachable validate execute ledger dag false (fun _ => 3) 300 ops); [done|]. vm_compute. reflexivity. Qed.
Definition tx_at (t : ptr) : TransactionMetadata := Eval vm_compute in default (NewTransactionMetadata 0 []) (txs pool !! t).
Definition st_at (s : ptr) : StateMetadata := Eval vm_compute in default (NewStateMetadata (mkState 0 false) None) (sts pool !! s).
(** Transaction 2 spends the output of transaction 1; both are accepted. *)
Lemma acceptance_exact_witness : tx_id (tx_at 1) = 2 /\ ready pool (tx_at 1) /\ accepted (tx_flags (tx_at 1)) = true.
Proof.
  split; [done|]. destruct (acceptance_exact validate execute ledger dag false (fun _ => 3) pool 1%positive (tx_at 1) demo_reachable eq_refl) as [H _]. split; [|done]. apply H. reflexivity.
Defined.
(** Transaction 3 spends the same state as transaction 1. *)
Lemma double_spends_conflict_witness : tx_id (tx_at 11) = 3 /\ conflicting (acc (tx_at 11)) = true /\ exists r, state_id (state (st_at 6)) ∈ r /\ CallResources 3 r ∈ conflictCalls pool.
Proof. split; [done|]. apply (double_spends_conflict validate execute ledger dag false (fun _ => 3) pool 11%positive (tx_at 11) 6%positive (st_at 6) demo_reachable); try reflexivity. by left. Defined.
(** A transaction that is signed twice is executed twice, and lists its outputs twice. *)
Definition signed_twice : list Op := [OpAttach (signed 101 1 [1]) (b 1); OpAttach (signed 104 1 [1]) (b 4); OpExecute; OpExecute].
Lemma executed_twice : (x ← run_ops signed_twice; y ← txs x !! 1%positive; Some (length (outputs y))) = Some 2%nat.
Proof. vm_compute. reflexivity. Qed.
(** A transaction whose input is accepted after the slot of its own attachment was evicted makes the mempool use a diff that does not exist. *)
Definition too_late : list Op := [OpAttach (signed 102 2 [10]) (b 2); OpAttach (signed 101 1 [1]) (mkBlockID 1 5); OpExecute; OpExecute; OpInclude (b 2); OpEvict 4; OpInclude (mkBlockID 1 5)].
Definition late_pool : MemPool := Eval vm_compute in default New (run_ops (take 6 too_late)).
Lemma evicted_slot_panics : run_ops (take 6 too_late) = Some late_pool /\ (exists t, run_callback validate dag (AddToDiff t) (Was false true) (upd_tx t (fun x => x) late_pool) = None) /\ run_ops too_late = None.
Proof. split; [by vm_compute|]. split; [exists 1%positive; by vm_compute|by vm_compute]. Qed.
End PoolDemo.
