(* ===== verification/ConflictSorted.v ===== *)
(** * Conflicts sorted by weight (pkg/protocol/engine/mempool/conflictdag/conflictdagv1: sorted_conflict.go, sorted_conflicts.go)

    Every conflict owns the sorted set of itself and the conflicts it conflicts with.  The set keeps, per member, the weight and the preferred conflict it knows of, with
    updates that wait for the workers; the doubly linked list of members, from the heaviest to the lightest, is [order]; [heaviestPreferredMember] is the heaviest member that can be liked.

    Conflicts are pointers, members are found by the ID of their conflict.  An operation returns the calls of the owner's [setPreferredInstead], which only the owner's
    state and queues of sets depend on.  The counter of pending updates, signals and locks are left out. *)
From Stdlib Require Import Sorting.Sorted.
From S2P Require Import Prelude Float64 Block Weight.

Abbreviation ptr := positive.
Abbreviation ConflictID := Z.

Record sortedConflict := mkSorted {
  sc_conflict : ptr;
  currentWeight : Value;
  queuedWeight : option Value;
  currentPreferredInstead : option ptr;                (* nil once the conflict is evicted *)
  queuedPreferredInstead : option ptr;
}.
Record SortedConflicts := mkSortedConflicts {
  owner : ConflictID;
  objects : gmap ConflictID sortedConflict;            (* the members, and what was removed but may still be queued *)
  members : gset ConflictID;
  order : list ConflictID;                             (* from the heaviest member to the lightest *)
  heaviestPreferredMember : option ConflictID;
  pendingWeightUpdates : gset ConflictID;
  pendingPreferredInsteadUpdates : gset ConflictID;
  isShutdown : bool;
}.
Definition newSortedConflict (p : ptr) (w : Value) (preferred : option ptr) : sortedConflict := mkSorted p w None preferred None.
Definition NewSortedConflicts (id : ConflictID) (p : ptr) (w : Value) : SortedConflicts :=
  mkSortedConflicts id {[id := newSortedConflict p w (Some p)]} {[id]} [id] (Some id) ∅ ∅ false.

Definition with_objects v s := mkSortedConflicts (owner s) v (members s) (order s) (heaviestPreferredMember s) (pendingWeightUpdates s) (pendingPreferredInsteadUpdates s) (isShutdown s).
Definition with_members v s := mkSortedConflicts (owner s) (objects s) v (order s) (heaviestPreferredMember s) (pendingWeightUpdates s) (pendingPreferredInsteadUpdates s) (isShutdown s).
Definition with_order v h s := mkSortedConflicts (owner s) (objects s) (members s) v h (pendingWeightUpdates s) (pendingPreferredInsteadUpdates s) (isShutdown s).
Definition with_pendingWeight v s := mkSortedConflicts (owner s) (objects s) (members s) (order s) (heaviestPreferredMember s) v (pendingPreferredInsteadUpdates s) (isShutdown s).
Definition with_pendingPreferred v s := mkSortedConflicts (owner s) (objects s) (members s) (order s) (heaviestPreferredMember s) (pendingWeightUpdates s) v (isShutdown s).

(** ** Members *)
Definition member_weight (s : SortedConflicts) (id : ConflictID) : Value := match objects s !! id with Some m => currentWeight m | None => mkValue 0 0 Pending end.
Definition member_conflict (s : SortedConflicts) (id : ConflictID) : option ptr := sc_conflict <$> objects s !! id.
Definition member_PreferredInstead (s : SortedConflicts) (id : ConflictID) : option ptr := m ← objects s !! id; currentPreferredInstead m.
Definition member_IsPreferred (s : SortedConflicts) (id : ConflictID) : bool :=
  match objects s !! id with Some m => bool_decide (currentPreferredInstead m = Some (sc_conflict m)) | None => false end.
(** Weights first, then the bytes of the IDs. *)
Definition compare_ids (a b : ConflictID) : Z := if a <? b then Lighter else if b <? a then Heavier else Equal.
Definition compare_members (w : ConflictID -> Value) (a b : ConflictID) : Z :=
  let result := Compare (w a) (w b) in if negb (result =? Equal) then result else compare_ids a b.
Definition member_Compare (s : SortedConflicts) : ConflictID -> ConflictID -> Z := compare_members (member_weight s).

(** The hooks of a member are gone with it. *)
Definition queueWeightUpdate (id : ConflictID) (newWeight : Value) (s : SortedConflicts) : SortedConflicts :=
  match objects s !! id with
  | None => s
  | Some m =>
      if negb (bool_decide (id ∈ members s)) || match queuedWeight m with None => bool_decide (currentWeight m = newWeight) | Some q => bool_decide (q = newWeight) end then s
      else let s1 := with_objects (<[id := mkSorted (sc_conflict m) (currentWeight m) (Some newWeight) (currentPreferredInstead m) (queuedPreferredInstead m)]> (objects s)) s in
        if isShutdown s then s1 else with_pendingWeight ({[id]} ∪ pendingWeightUpdates s) s1
  end.
(** The owner ignores that it is preferred itself. *)
Definition queuePreferredInsteadUpdate (ownerConflict : ptr) (id : ConflictID) (preferred : ptr) (s : SortedConflicts) : SortedConflicts :=
  match objects s !! id with
  | None => s
  | Some m =>
      if negb (bool_decide (id ∈ members s)) || match queuedPreferredInstead m with None => bool_decide (currentPreferredInstead m = Some preferred) | Some q => bool_decide (q = preferred) end || bool_decide (ownerConflict = preferred) then s
      else let s1 := with_objects (<[id := mkSorted (sc_conflict m) (currentWeight m) (queuedWeight m) (currentPreferredInstead m) (Some preferred)]> (objects s)) s in
        if isShutdown s then s1 else with_pendingPreferred ({[id]} ∪ pendingPreferredInsteadUpdates s) s1
  end.
Definition weightUpdateApplied (m : sortedConflict) : bool * sortedConflict :=
  match queuedWeight m with
  | None => (false, m)
  | Some q => (negb (bool_decide (q = currentWeight m)), mkSorted (sc_conflict m) q None (currentPreferredInstead m) (queuedPreferredInstead m))
  end.
Definition preferredInsteadUpdateApplied (m : sortedConflict) : bool * sortedConflict :=
  match queuedPreferredInstead m with
  | None => (false, m)
  | Some q => (negb (bool_decide (currentPreferredInstead m = Some q)), mkSorted (sc_conflict m) (currentWeight m) (queuedWeight m) (Some q) None)
  end.

(** ** Adding and removing *)
(** The new member goes in front of the first member that is lighter; an equal one is a panic. *)
Fixpoint insert_member (cmp : ConflictID -> ConflictID -> Z) (id : ConflictID) (l : list ConflictID) : option (list ConflictID) :=
  match l with
  | [] => Some [id]
  | x :: l' => let c := cmp id x in if c =? Equal then None else if c =? Heavier then Some (id :: l) else cons x <$> insert_member cmp id l'
  end.
Definition Add (id : ConflictID) (p : ptr) (w : Value) (preferred : option ptr) (s : SortedConflicts) : option (bool * list ptr * SortedConflicts) :=
  if isShutdown s || bool_decide (id ∈ members s) then Some (false, [], s)
  else
    let s1 := with_members ({[id]} ∪ members s) (with_objects (<[id := newSortedConflict p w preferred]> (objects s)) s) in
    l ← match order s with [] => None | _ :: _ => insert_member (member_Compare s1) id (order s) end;       (* a set without members has no heaviest one: nil is dereferenced *)
    if member_IsPreferred s1 id then
      h ← heaviestPreferredMember s;                       (* nil would be dereferenced *)
      Some (if member_Compare s1 id h =? Heavier then (true, [p], with_order l (Some id) s1) else (true, [], with_order l (Some h) s1))
    else Some (true, [], with_order l (heaviestPreferredMember s) s1).
(** From the given position on; [first] is its member. *)
Fixpoint find_preferred (s : SortedConflicts) (first : option ptr) (l : list ConflictID) : option ConflictID :=
  match l with
  | [] => None
  | x :: l => if bool_decide (x = owner s) || member_IsPreferred s x || bool_decide (member_PreferredInstead s x = first) then Some x else find_preferred s first l
  end.
Definition findLowerHeaviestPreferredMember (l : list ConflictID) (s : SortedConflicts) : list ptr * SortedConflicts :=
  match find_preferred s (x ← head l; member_conflict s x) l with
  | Some x => (option_list (member_conflict s x), with_order (order s) (Some x) s)
  | None => ([], with_order (order s) None s)
  end.
Fixpoint lighter_than (id : ConflictID) (l : list ConflictID) : list ConflictID := match l with [] => [] | x :: l => if decide (x = id) then l else lighter_than id l end.
Definition Remove (id : ConflictID) (s : SortedConflicts) : bool * list ptr * SortedConflicts :=
  if bool_decide (id ∈ members s) then
    let s1 := with_order (filter (fun x => x <> id) (order s)) (heaviestPreferredMember s) (with_members (members s ∖ {[id]}) s) in
    if bool_decide (heaviestPreferredMember s = Some id) then let r := findLowerHeaviestPreferredMember (lighter_than id (order s)) s1 in (true, r.1, r.2) else (true, [], s1)
  else (false, [], s).
Definition Shutdown (s : SortedConflicts) : SortedConflicts :=
  mkSortedConflicts (owner s) (objects s) (members s) (order s) (heaviestPreferredMember s) (pendingWeightUpdates s) (pendingPreferredInsteadUpdates s) true.
(** ForEach and Range without the owner. *)
Definition Range (s : SortedConflicts) : list ptr := omap (fun x => if decide (x = owner s) then None else member_conflict s x) (order s).

(** ** The workers *)
(** The member moves up past the lighter ones: [heavier] are the members above it, the nearest first; [lighter] those it passed. *)
Fixpoint move_up (s : SortedConflicts) (id : ConflictID) (heavier lighter : list ConflictID) (h : option ConflictID) : list ConflictID * list ConflictID * option ConflictID * list ptr :=
  match heavier with
  | [] => ([], lighter, h, [])
  | x :: rest =>
      if member_Compare s x id =? Lighter then
        if bool_decide (h = Some x) && (bool_decide (member_PreferredInstead s id = member_conflict s x) || member_IsPreferred s id || bool_decide (id = owner s)) then
          let '(a, b, h', calls) := move_up s id rest (x :: lighter) (Some id) in (a, b, h', option_list (member_conflict s id) ++ calls)
        else move_up s id rest (x :: lighter) h
      else (heavier, lighter, h, [])
  end.
Fixpoint move_down (s : SortedConflicts) (id : ConflictID) (heavier lighter : list ConflictID) (h : option ConflictID) : list ConflictID * list ConflictID * option ConflictID * list ptr :=
  match lighter with
  | [] => (heavier, [], h, [])
  | x :: rest =>
      if member_Compare s x id =? Heavier then
        if bool_decide (h = Some id) && (member_IsPreferred s x || bool_decide (member_PreferredInstead s x = member_conflict s id) || bool_decide (x = owner s)) then
          let '(a, b, h', calls) := move_down s id (x :: heavier) rest (Some x) in (a, b, h', option_list (member_conflict s x) ++ calls)
        else move_down s id (x :: heavier) rest h
      else (heavier, lighter, h, [])
  end.
Fixpoint heavier_than (id : ConflictID) (l acc : list ConflictID) : list ConflictID := match l with [] => acc | x :: l => if decide (x = id) then acc else heavier_than id l (x :: acc) end.
Definition fixMemberPosition (id : ConflictID) (s : SortedConflicts) : list ptr * SortedConflicts :=
  let '(a, b, h, calls) := move_up s id (heavier_than id (order s) []) (lighter_than id (order s)) (heaviestPreferredMember s) in
  let '(a', b', h', calls') := move_down s id a b h in
  (calls ++ calls', with_order (rev a' ++ id :: b') h' s).
Definition applyWeightUpdate (id : ConflictID) (s : SortedConflicts) : list ptr * SortedConflicts :=
  let s1 := with_pendingWeight (pendingWeightUpdates s ∖ {[id]}) s in
  match objects s !! id with
  | Some m => if isShutdown s then ([], s1)
      else let r := weightUpdateApplied m in let s2 := with_objects (<[id := r.2]> (objects s)) s1 in
        if (r.1 : bool) && bool_decide (id ∈ members s) then fixMemberPosition id s2 else ([], s2)      (* a removed member has no neighbours *)
  | None => ([], s1)
  end.
Definition fixHeaviestPreferredMember (id : ConflictID) (s : SortedConflicts) : option (list ptr * SortedConflicts) :=
  if member_IsPreferred s id then
    h ← heaviestPreferredMember s;
    Some (if member_Compare s id h =? Heavier then (option_list (member_conflict s id), with_order (order s) (Some id) s) else ([], s))
  else Some (if bool_decide (heaviestPreferredMember s = Some id) then findLowerHeaviestPreferredMember (id :: lighter_than id (order s)) s else ([], s)).
Definition applyPreferredInsteadUpdate (id : ConflictID) (s : SortedConflicts) : option (list ptr * SortedConflicts) :=
  let s1 := with_pendingPreferred (pendingPreferredInsteadUpdates s ∖ {[id]}) s in
  match objects s !! id with
  | Some m => if isShutdown s then Some ([], s1)
      else let r := preferredInsteadUpdateApplied m in let s2 := with_objects (<[id := r.2]> (objects s)) s1 in if (r.1 : bool) then fixHeaviestPreferredMember id s2 else Some ([], s2)
  | None => Some ([], s1)
  end.

(** * Sorted conflicts are sorted

    The members of a set of sorted conflicts are always in the order of the weights the set knows of, whatever is added, removed and updated in
    which order, and the insertion never meets an equal weight. *)

Definition heavier (w : ConflictID -> Value) (a b : ConflictID) : Prop := lex_lt (w b) (w a) \/ (w a = w b /\ b < a).
Lemma compare_heavier w a b : compare_members w a b = Heavier <-> heavier w a b.
Proof.
  unfold compare_members, heavier, compare_ids. destruct (Compare_lex (w a) (w b)) as (H1 & H2 & H3). destruct (Z.eqb_spec (Compare (w a) (w b)) Equal) as [E|E]; cbn [negb].
  - apply H3 in E as E'. rewrite E'. destruct (Z.ltb_spec a b), (Z.ltb_spec b a); split; intros Hx; try (unfold Lighter, Heavier, Equal in *; lia); try (right; split; [done|lia]); try done.
    all: destruct Hx as [Hx|[_ Hx]]; [exfalso; unfold lex_lt in Hx; lia|unfold Lighter, Heavier, Equal in *; lia].
  - rewrite H2. split; [by left|]. intros [Hx|[Hx _]]; [done|]. by apply H3 in Hx.
Qed.
Lemma compare_lighter w a b : compare_members w a b = Lighter <-> heavier w b a.
Proof.
  unfold compare_members, heavier, compare_ids. destruct (Compare_lex (w a) (w b)) as (H1 & H2 & H3). destruct (Z.eqb_spec (Compare (w a) (w b)) Equal) as [E|E]; cbn [negb].
  - apply H3 in E as E'. rewrite E'. destruct (Z.ltb_spec a b), (Z.ltb_spec b a); split; intros Hx; try (unfold Lighter, Heavier, Equal in *; lia); try (right; split; [done|lia]); try done.
    all: destruct Hx as [Hx|[_ Hx]]; [exfalso; unfold lex_lt in Hx; lia|unfold Lighter, Heavier, Equal in *; lia].
  - rewrite H1. split; [by left|]. intros [Hx|[Hx _]]; [done|]. by symmetry in Hx; apply H3 in Hx.
Qed.
Lemma heavier_total w a b : a <> b -> heavier w a b \/ heavier w b a.
Proof.
  intros Hne. destruct (Compare_lex (w a) (w b)) as (H1 & H2 & H3). unfold heavier. destruct (Z.eq_dec (Compare (w a) (w b)) Equal) as [E|E]; [apply H3 in E; destruct (Z.lt_total a b) as [?|[?|?]]; [right; right; split; [done|lia]|done|left; right; split; [done|lia]]|].
  assert (H : lex_lt (w a) (w b) \/ lex_lt (w b) (w a)); [|tauto]. destruct (w a) as [c1 v1 s1], (w b) as [c2 v2 s2]. unfold lex_lt. cbn. assert (Hn : mkValue c1 v1 s1 <> mkValue c2 v2 s2) by tauto. destruct (decide (s1 = s2)) as [->|Hs]; [|destruct s1, s2; cbn; try done; lia].
  destruct (decide (v1 = v2)) as [->|]; [destruct (decide (c1 = c2)) as [->|]; [done|lia]|lia].
Qed.
Lemma heavier_trans w a b c : heavier w a b -> heavier w b c -> heavier w a c.
Proof.
  unfold heavier, lex_lt. destruct (w a) as [c1 v1 s1], (w b) as [c2 v2 s2], (w c) as [c3 v3 s3]. cbn. intros [H1|[E1 L1]] [H2|[E2 L2]]; [left; lia|injection E2 as -> -> ->; left; lia|injection E1 as -> -> ->; left; lia|right; split; [congruence|lia]].
Qed.
Lemma heavier_irrefl w a : ~ heavier w a a.
Proof. unfold heavier, lex_lt. lia. Qed.
Lemma not_heavier w a b : a <> b -> compare_members w a b <> Heavier -> heavier w b a.
Proof. intros Hne Hc. destruct (heavier_total w a b Hne) as [H|H]; [|done]. by apply compare_heavier in H. Qed.

Abbreviation sorted w l := (StronglySorted (heavier w) l).
Lemma sorted_ext w w' l : (forall x, x ∈ l -> w x = w' x) -> sorted w l -> sorted w' l.
Proof.
  intros Hw. induction 1 as [|x l Hl IH Hx]; constructor; [apply IH; set_solver|]. apply Forall_forall. intros y Hy. rewrite Forall_forall in Hx. specialize (Hx y Hy). unfold heavier in *. by rewrite <- !Hw by set_solver.
Qed.
Lemma sorted_app w l1 l2 : sorted w (l1 ++ l2) <-> sorted w l1 /\ sorted w l2 /\ (forall x y, x ∈ l1 -> y ∈ l2 -> heavier w x y).
Proof.
  induction l1 as [|a l1 IH]; cbn; [split; [intros; split_and!; [constructor|done|set_solver]|tauto]|]. split.
  - intros H. inversion_clear H as [|? ? Hs Hf]. apply IH in Hs as (H1 & H2 & H3). rewrite Forall_app in Hf. destruct Hf as [F1 F2]. split_and!; [by constructor|done|]. intros x y [->|Hx]%elem_of_cons Hy; [rewrite Forall_forall in F2; auto|auto].
  - intros (H1 & H2 & H3). inversion_clear H1 as [|? ? Hs Hf]. constructor; [apply IH; split_and!; [done|done|set_solver]|]. apply Forall_app. split; [done|]. apply Forall_forall. intros y Hy. apply H3; set_solver.
Qed.
Lemma sorted_filter w (P : ConflictID -> Prop) `{forall x, Decision (P x)} l : sorted w l -> sorted w (filter P l).
Proof.
  induction 1 as [|x l Hl IH Hx]; [constructor|]. destruct (decide (P x)); [rewrite filter_cons_True by done|by rewrite filter_cons_False]. constructor; [done|]. rewrite Forall_forall in Hx |- *. intros y [_ Hy]%list_elem_of_filter. auto.
Qed.
Lemma sorted_NoDup w l : sorted w l -> NoDup l.
Proof. induction 1 as [|x l Hl IH Hx]; constructor; [|done]. intros Hin. rewrite Forall_forall in Hx. by apply (heavier_irrefl w x), Hx. Qed.

(** ** Insertion *)
Lemma insert_member_sorted w id l : id ∉ l -> sorted w l -> exists l', insert_member (compare_members w) id l = Some l' /\ sorted w l' /\ l' ≡ₚ id :: l.
Proof.
  intros Hid Hs. induction Hs as [|x l Hl IH Hx]; cbn [insert_member]; [eexists; split_and!; [done|by repeat constructor|done]|]. assert (Hne : id <> x) by set_solver.
  destruct (Z.eqb_spec (compare_members w id x) Equal) as [E|E].
  { exfalso. destruct (heavier_total w id x Hne) as [H|H]; [apply compare_heavier in H|apply compare_lighter in H]; rewrite E in H; done. }
  destruct (Z.eqb_spec (compare_members w id x) Heavier) as [E2|E2].
  - apply compare_heavier in E2. eexists. split_and!; [done| |done]. constructor; [by constructor|]. constructor; [done|]. rewrite Forall_forall in Hx |- *. intros y Hy. by eapply heavier_trans, Hx.
  - apply (not_heavier w id x Hne) in E2. destruct IH as (l' & H1 & H2 & H3); [set_solver|]. rewrite H1. cbn. eexists. split_and!; [done| |rewrite H3; apply Permutation_swap].
    constructor; [done|]. rewrite Forall_forall in Hx |- *. intros y. rewrite H3. intros [->|Hy]%elem_of_cons; auto.
Qed.

(** ** Moving one member *)
Lemma elem_rev (x : ConflictID) l : x ∈ rev l <-> x ∈ l.
Proof. rewrite !list_elem_of_In. symmetry. apply in_rev. Qed.
Lemma move_up_spec s id H : forall L h, let r := move_up s id H L h in sorted (member_weight s) (rev H) -> id ∉ H ->
  rev r.1.1.1 ++ r.1.1.2 = rev H ++ L /\ (forall x, x ∈ r.1.1.1 -> heavier (member_weight s) x id).
Proof.
  induction H as [|x H IH]; intros L h r Hs Hid; [cbn; split; [done|set_solver]|]. unfold r. cbn [move_up]. cbn [rev] in Hs. apply sorted_app in Hs as (Hs & _ & Hlt). destruct (Z.eqb_spec (member_Compare s x id) Lighter) as [E|E].
  - destruct (bool_decide (h = Some x) && _) eqn:Eb.
    + specialize (IH (x :: L) (Some id) Hs ltac:(set_solver)). cbn zeta in IH. destruct (move_up s id H (x :: L) (Some id)) as [[[a b] h'] c]. cbn in IH |- *. destruct IH as [H1 H2]. split; [rewrite H1, <- app_assoc; done|done].
    + specialize (IH (x :: L) h Hs ltac:(set_solver)). cbn zeta in IH. destruct (move_up s id H (x :: L) h) as [[[a b] h'] c]. cbn in IH |- *. destruct IH as [H1 H2]. split; [rewrite H1, <- app_assoc; done|done].
  - cbn. split; [done|]. assert (Hx : heavier (member_weight s) x id). { destruct (heavier_total (member_weight s) x id) as [?|Hh]; [set_solver|done|]. by apply compare_lighter in Hh. }
    intros y [->|Hy]%elem_of_cons; [done|]. eapply heavier_trans; [|exact Hx]. apply Hlt; [by apply elem_rev|set_solver].
Qed.
Lemma move_down_spec s id L : forall H h, let r := move_down s id H L h in sorted (member_weight s) L -> id ∉ L -> (forall x, x ∈ H -> heavier (member_weight s) x id) ->
  rev r.1.1.1 ++ r.1.1.2 = rev H ++ L /\ (forall x, x ∈ r.1.1.1 -> heavier (member_weight s) x id) /\ (forall x, x ∈ r.1.1.2 -> heavier (member_weight s) id x).
Proof.
  induction L as [|x L IH]; intros H h r Hs Hid HH; [cbn; split_and!; [done|done|set_solver]|]. unfold r. cbn [move_down]. inversion_clear Hs as [|? ? Hs' Hf]. destruct (Z.eqb_spec (member_Compare s x id) Heavier) as [E|E].
  - apply compare_heavier in E. assert (HH' : forall y, y ∈ x :: H -> heavier (member_weight s) y id) by (intros y [->|Hy]%elem_of_cons; auto). destruct (bool_decide (h = Some id) && _) eqn:Eb.
    + specialize (IH (x :: H) (Some x) Hs' ltac:(set_solver) HH'). cbn zeta in IH. destruct (move_down s id (x :: H) L (Some x)) as [[[a b] h'] c]. cbn in IH |- *. destruct IH as (H1 & H2 & H3). split_and!; [rewrite H1, <- app_assoc; done|done|done].
    + specialize (IH (x :: H) h Hs' ltac:(set_solver) HH'). cbn zeta in IH. destruct (move_down s id (x :: H) L h) as [[[a b] h'] c]. cbn in IH |- *. destruct IH as (H1 & H2 & H3). split_and!; [rewrite H1, <- app_assoc; done|done|done].
  - cbn. split_and!; [done|done|]. assert (Hx : heavier (member_weight s) id x) by (apply not_heavier; [set_solver|done]). rewrite Forall_forall in Hf. intros y [->|Hy]%elem_of_cons; [done|]. by eapply heavier_trans, Hf.
Qed.
Lemma heavier_than_split id l acc : id ∈ l -> rev (heavier_than id l acc) ++ id :: lighter_than id l = rev acc ++ l.
Proof.
  revert acc. induction l as [|x l IH]; intros acc Hin; [set_solver|]. cbn [heavier_than lighter_than]. destruct (decide (x = id)) as [->|Hne]; [done|]. rewrite IH by set_solver. cbn. by rewrite <- app_assoc.
Qed.
Lemma insert_between w a b id : sorted w (a ++ b) -> (forall x, x ∈ a -> heavier w x id) -> (forall x, x ∈ b -> heavier w id x) -> sorted w (a ++ id :: b).
Proof.
  intros (H1 & H2 & H3)%sorted_app Ha Hb. apply sorted_app. split_and!; [done|constructor; [done|by apply Forall_forall]|]. intros x y Hx [->|Hy]%elem_of_cons; auto.
Qed.
Lemma fixMemberPosition_sorted w id s : let r := (fixMemberPosition id s).2 in id ∈ order s -> sorted w (order s) -> (forall x, x <> id -> w x = member_weight s x) ->
  sorted (member_weight s) (order r) /\ order r ≡ₚ order s /\ objects r = objects s /\ members r = members s /\ isShutdown r = isShutdown s /\ owner r = owner s.
Proof.
  intros r Hin Hs Hw. unfold r, fixMemberPosition. set (H := heavier_than id (order s) []). set (L := lighter_than id (order s)). pose proof (heavier_than_split id (order s) [] Hin) as Hsplit. fold H L in Hsplit. cbn [rev app] in Hsplit.
  pose proof (sorted_NoDup _ _ Hs) as Hnd. rewrite <- Hsplit in Hnd. apply NoDup_app in Hnd as (_ & Hd1 & [Hd2 _]%NoDup_cons). assert (HidH : id ∉ rev H) by (intros Hc; apply (Hd1 id Hc); set_solver).
  assert (Hrest : sorted (member_weight s) (rev H ++ L)).
  { apply (sorted_ext w); [intros x Hx; apply Hw; intros ->; set_solver|]. rewrite <- Hsplit in Hs. apply sorted_app in Hs as (S1 & S2 & S3). inversion_clear S2. apply sorted_app. split_and!; [done|done|]. intros x y Hx Hy. apply S3; set_solver. }
  apply sorted_app in Hrest as (R1 & R2 & R3). destruct (move_up_spec s id H L (heaviestPreferredMember s) R1 ltac:(by rewrite <- elem_rev)) as [U1 U2]. destruct (move_up s id H L (heaviestPreferredMember s)) as [[[a b] h] calls]. cbn [fst snd] in U1, U2.
  assert (Hab : sorted (member_weight s) (rev a ++ b)) by (rewrite U1; apply sorted_app; done). pose proof Hab as (A1 & A2 & A3)%sorted_app.
  assert (Hib : id ∉ b). { intros Hc. assert (Hx : id ∈ rev a ++ b) by set_solver. rewrite U1 in Hx. set_solver. }
  destruct (move_down_spec s id b a h A2 Hib U2) as (D1 & D2 & D3). destruct (move_down s id a b h) as [[[a' b'] h'] calls']. cbn [fst snd] in D1, D2, D3 |- *. cbn [order with_order objects members isShutdown owner]. split_and!; try done.
  - apply insert_between; [by rewrite D1, U1; apply sorted_app|intros x Hx; by apply D2, elem_rev|done].
  - rewrite <- Hsplit, <- !Permutation_middle. by rewrite D1, U1.
Qed.

(** ** All operations *)
Record sorted_ok (s : SortedConflicts) : Prop := {
  so_sorted : sorted (member_weight s) (order s);
  so_members id : id ∈ order s <-> id ∈ members s;
  so_objects id : id ∈ members s -> is_Some (objects s !! id);
}.
Lemma same_order_ok s s' : sorted_ok s -> order s' = order s -> members s' = members s -> (forall id m, id ∈ members s -> objects s !! id = Some m -> exists m', objects s' !! id = Some m' /\ currentWeight m' = currentWeight m) -> sorted_ok s'.
Proof.
  intros [] E1 E2 Hob. split; rewrite ?E1, ?E2; [|done|intros id Hid; destruct (so_objects0 id Hid) as [m Hm]; destruct (Hob id m Hid Hm) as (m' & -> & _); done].
  apply (sorted_ext (member_weight s)); [|done]. intros x Hx%so_members0. unfold member_weight. destruct (so_objects0 x Hx) as [m Hm]. destruct (Hob x m Hx Hm) as (m' & -> & ->). by rewrite Hm.
Qed.
Lemma insert_object_ok s id m m' : objects s !! id = Some m -> currentWeight m' = currentWeight m -> forall x y, objects s !! x = Some y -> exists y', <[id := m']> (objects s) !! x = Some y' /\ currentWeight y' = currentWeight y.
Proof. intros Hm Hw x y Hy. destruct (decide (id = x)) as [<-|]; [rewrite lookup_insert_eq; exists m'; split; [done|congruence]|rewrite lookup_insert_ne by done; eauto]. Qed.
Lemma queueWeightUpdate_ok id v s : sorted_ok s -> sorted_ok (queueWeightUpdate id v s).
Proof.
  intros Hok. unfold queueWeightUpdate. destruct (objects s !! id) as [m|] eqn:Hm; [|done]. destruct (negb _ || _); [done|]. destruct (isShutdown s); (eapply same_order_ok; [exact Hok|done|done|]; intros x y _ Hy; by eapply insert_object_ok).
Qed.
Lemma queuePreferredInsteadUpdate_ok o id p s : sorted_ok s -> sorted_ok (queuePreferredInsteadUpdate o id p s).
Proof.
  intros Hok. unfold queuePreferredInsteadUpdate. destruct (objects s !! id) as [m|] eqn:Hm; [|done]. destruct (_ || _); [done|]. destruct (isShutdown s); (eapply same_order_ok; [exact Hok|done|done|]; intros x y _ Hy; by eapply insert_object_ok).
Qed.
(** What adding returns, and exactly when it panics. *)
Lemma Add_ok id p w q s : sorted_ok s -> match Add id p w q s with
  | Some (_, _, s') => sorted_ok s' /\ (isShutdown s = true \/ id ∈ members s \/ members s <> ∅ /\ (q = Some p -> is_Some (heaviestPreferredMember s)))
  | None => isShutdown s = false /\ id ∉ members s /\ (members s = ∅ \/ q = Some p /\ heaviestPreferredMember s = None)
  end.
Proof.
  intros Hok. pose proof Hok as [S1 S2 S3]. unfold Add. destruct (isShutdown s || bool_decide (id ∈ members s)) eqn:E.
  { split; [done|]. apply orb_true_iff in E as [E|E%bool_decide_eq_true]; auto. }
  apply orb_false_iff in E as [Hsh Hid%bool_decide_eq_false]. set (s1 := with_members _ _).
  assert (Hs : sorted (member_weight s1) (order s)). { apply (sorted_ext (member_weight s)); [|done]. intros x Hx. unfold member_weight, s1. cbn. rewrite lookup_insert_ne; [done|]. intros <-. by apply S2 in Hx. }
  destruct (insert_member_sorted (member_weight s1) id (order s) ltac:(by rewrite S2) Hs) as (l & Hl & Hls & Hp). change (compare_members (member_weight s1)) with (member_Compare s1) in Hl. rewrite Hl.
  assert (Hok' : forall h, sorted_ok (with_order l h s1)).
  { intros h. split; [done|intros x; cbn; rewrite Hp, elem_of_cons, S2; set_solver|]. intros x. cbn. intros [->%elem_of_singleton|Hx]%elem_of_union; [by rewrite lookup_insert_eq|]. rewrite lookup_insert_ne by (intros <-; done). auto. }
  assert (Hpref : member_IsPreferred s1 id = bool_decide (q = Some p)) by (unfold member_IsPreferred, s1; cbn; by rewrite lookup_insert_eq). rewrite Hpref.
  destruct (order s) as [|x0 l0]; cbn [mbind option_bind]; [split_and!; [done|done|]; left; apply set_eq; set_solver|]. assert (Hne : members s <> ∅) by (assert (x0 ∈ members s) by (apply S2; set_solver); set_solver).
  case_bool_decide as Hq; [|split; [apply Hok'|]; right; right; split; [done|by intros Hq']]. destruct (heaviestPreferredMember s) as [h|]; cbn [mbind option_bind]; [|by auto]. destruct (member_Compare s1 id h =? Heavier); (split; [apply Hok'|]; right; right; split; [done|by eexists]).
Qed.
Lemma findLower_fields l s : let r := (findLowerHeaviestPreferredMember l s).2 in order r = order s /\ members r = members s /\ objects r = objects s.
Proof. unfold findLowerHeaviestPreferredMember. by destruct (find_preferred _ _ l). Qed.
Lemma fields_ok s s' : sorted_ok s -> order s' = order s -> members s' = members s -> objects s' = objects s -> sorted_ok s'.
Proof. intros Hok E1 E2 E3. eapply same_order_ok; [exact Hok|done|done|]. intros id m _ Hm. rewrite E3. eauto. Qed.
Lemma Remove_ok id s : sorted_ok s -> sorted_ok (Remove id s).2.
Proof.
  intros Hok. unfold Remove. case_bool_decide as Hid; [|done]. set (s1 := with_order _ _ _).
  assert (Hok1 : sorted_ok s1). { destruct Hok as [S1 S2 S3]. split; [by apply sorted_filter|intros x; cbn; rewrite list_elem_of_filter, S2; set_solver|]. intros x. cbn. intros [Hx _]%elem_of_difference. auto. }
  case_bool_decide; cbn [snd]; [|done]. destruct (findLower_fields (lighter_than id (order s)) s1) as (E1 & E2 & E3). by eapply fields_ok.
Qed.
Lemma applyWeightUpdate_ok id s : sorted_ok s -> sorted_ok (applyWeightUpdate id s).2.
Proof.
  intros Hok. pose proof Hok as [S1 S2 S3]. unfold applyWeightUpdate. set (s1 := with_pendingWeight _ s). assert (Hok1 : sorted_ok s1) by by eapply fields_ok. destruct (objects s !! id) as [m|] eqn:Hm; [|done]. destruct (isShutdown s); [done|]. set (s2 := with_objects _ s1).
  assert (Hw : forall x, x <> id -> member_weight s x = member_weight s2 x) by (intros x Hx; unfold member_weight, s2; cbn; by rewrite lookup_insert_ne).
  destruct (weightUpdateApplied m) as [u m'] eqn:Eu. cbn [fst snd]. case_bool_decide as Hid; rewrite ?andb_true_r, ?andb_false_r.
  - destruct u.
    + destruct (fixMemberPosition_sorted (member_weight s) id s2) as (F1 & F2 & F3 & F4 & _); [by apply S2|done|done|]. split; [|intros x; rewrite F2, F4; apply S2|intros x; rewrite F3, F4; cbn; intros Hx; destruct (decide (id = x)) as [<-|]; [by rewrite lookup_insert_eq|rewrite lookup_insert_ne by done; auto]].
      eapply sorted_ext; [|exact F1]. intros x _. unfold member_weight. by rewrite F3.
    + cbn [snd]. eapply same_order_ok; [exact Hok|done|done|]. intros x y _ Hy. eapply insert_object_ok; [exact Hm| |done]. unfold weightUpdateApplied in Eu. destruct (queuedWeight m) as [q|]; [|by injection Eu as <-]. injection Eu as Eq <-. cbn. apply negb_false_iff, bool_decide_eq_true in Eq. done.
  - cbn [snd]. eapply same_order_ok; [exact Hok|done|done|]. intros x y Hx Hy. exists y. split; [|done]. cbn. by rewrite lookup_insert_ne by (intros <-; done).
Qed.
Lemma applyPreferredInsteadUpdate_ok id s r : sorted_ok s -> applyPreferredInsteadUpdate id s = Some r -> sorted_ok r.2.
Proof.
  intros Hok. unfold applyPreferredInsteadUpdate. set (s1 := with_pendingPreferred _ s). assert (Hok1 : sorted_ok s1) by by eapply fields_ok. destruct (objects s !! id) as [m|] eqn:Hm; [|by intros [= <-]]. destruct (isShutdown s); [by intros [= <-]|]. set (s2 := with_objects _ s1).
  assert (Hok2 : sorted_ok s2). { eapply same_order_ok; [exact Hok|done|done|]. intros x y _ Hy. eapply insert_object_ok; [exact Hm| |done]. unfold preferredInsteadUpdateApplied. by destruct (queuedPreferredInstead m). }
  destruct ((preferredInsteadUpdateApplied m).1); [|by intros [= <-]]. unfold fixHeaviestPreferredMember. destruct (member_IsPreferred s2 id).
  - destruct (heaviestPreferredMember s2) as [h|]; [|done]. cbn [mbind option_bind]. destruct (member_Compare s2 id h =? Heavier); intros [= <-]; [by eapply fields_ok|done].
  - intros [= <-]. case_bool_decide; [|done]. destruct (findLower_fields (id :: lighter_than id (order s2)) s2) as (E1 & E2 & E3). by eapply fields_ok.
Qed.

Inductive SetOp := QueueWeight (id : ConflictID) (v : Value) | QueuePreferred (o : ptr) (id : ConflictID) (p : ptr) | AddMember (id : ConflictID) (p : ptr) (v : Value) (q : option ptr) | RemoveMember (id : ConflictID) | ShutdownSet
  | ApplyWeight (id : ConflictID) | ApplyPreferred (id : ConflictID).
Definition set_step (s : SortedConflicts) (o : SetOp) : option SortedConflicts :=
  match o with
  | QueueWeight id v => Some (queueWeightUpdate id v s)
  | QueuePreferred o id p => Some (queuePreferredInsteadUpdate o id p s)
  | AddMember id p v q => snd <$> Add id p v q s
  | RemoveMember id => Some (Remove id s).2
  | ShutdownSet => Some (Shutdown s)
  | ApplyWeight id => Some (applyWeightUpdate id s).2
  | ApplyPreferred id => snd <$> applyPreferredInsteadUpdate id s
  end.
Definition run_set (s : SortedConflicts) (ops : list SetOp) : option SortedConflicts := foldl (fun s o => s ← s; set_step s o) (Some s) ops.
Lemma set_step_ok s o s' : sorted_ok s -> set_step s o = Some s' -> sorted_ok s'.
Proof.
  intros Hok. destruct o as [id v|o id p|id p v q|id| |id|id]; cbn; try (intros [= <-]).
  - by apply queueWeightUpdate_ok.
  - by apply queuePreferredInsteadUpdate_ok.
  - pose proof (Add_ok id p v q s Hok) as H. destruct (Add id p v q s) as [[[b l] s1]|]; [|done]. intros [= <-]. apply H.
  - by apply Remove_ok.
  - by eapply fields_ok.
  - by apply applyWeightUpdate_ok.
  - destruct (applyPreferredInsteadUpdate id s) as [r|] eqn:E; [|done]. intros [= <-]. by eapply applyPreferredInsteadUpdate_ok.
Qed.
(** C8 For every sequence of additions, removals and updates, queued and applied in any order, the list of the members of a set of sorted conflicts is in strictly falling order of the
    weights the set knows of, with IDs for equal weights, holds every member once, and adding a conflict never meets one of equal weight: it panics exactly when the set, which is not shut down and does not have the
    conflict, has no members at all, or the conflict is preferred and the set has lost its heaviest preferred member. *)
Theorem members_sorted id p v ops s : run_set (NewSortedConflicts id p v) ops = Some s ->
  sorted (member_weight s) (order s) /\ order s ≡ₚ elements (members s) /\
  (forall id p v q, Add id p v q s = None <-> isShutdown s = false /\ id ∉ members s /\ (members s = ∅ \/ q = Some p /\ heaviestPreferredMember s = None)).
Proof.
  intros Hrun. assert (Hok : sorted_ok s).
  { revert s Hrun. induction ops as [|o ops IH] using rev_ind; intros s; unfold run_set; [|rewrite foldl_app; cbn; fold (run_set (NewSortedConflicts id p v) ops); destruct (run_set _ ops) as [s0|]; cbn; [intros H; by eapply set_step_ok; [apply IH|]|done]].
    intros [= <-]. split; [by repeat constructor|intros x; cbn; set_solver|]. cbn. intros x ->%elem_of_singleton. by rewrite lookup_singleton_eq. }
  destruct Hok as [S1 S2 S3]. split_and!; [done| |].
  - apply NoDup_Permutation; [by eapply sorted_NoDup|apply NoDup_elements|]. intros x. rewrite elem_of_elements. apply S2.
  - intros id' p' v' q'. pose proof (Add_ok id' p' v' q' s ltac:(by split)) as H. destruct (Add id' p' v' q' s) as [[[b l] s']|]; [|done]. split; [done|]. intros (E1 & E2 & E3). destruct H as [_ [?|[?|[H1 H2]]]]; [congruence|done|]. destruct E3 as [?|[Hq Hh]]; [done|]. destruct (H2 Hq). congruence.
Qed.

(** ** Example *)
Module SortedDemo.
Definition v (n : Z) : Value := mkValue 0 n Pending.
Definition ops : list SetOp := [AddMember 20 2 (v 1) (Some 2%positive); AddMember 30 3 (v 0) (Some 3%positive); QueueWeight 30 (v 5); ApplyWeight 30; QueuePreferred 1 20 3; ApplyPreferred 20; RemoveMember 20].
Definition result : SortedConflicts := Eval vm_compute in default (NewSortedConflicts 0 1 (v 0)) (run_set (NewSortedConflicts 10 1 (v 0)) ops).
Lemma members_sorted_witness : run_set (NewSortedConflicts 10 1 (v 0)) ops = Some result /\ sorted (member_weight result) (order result) /\ order result = [30; 10] /\ heaviestPreferredMember result = Some 30.
Proof.
  assert (H : run_set (NewSortedConflicts 10 1 (v 0)) ops = Some result) by by vm_compute. split; [exact H|]. split; [exact (proj1 (members_sorted 10 1 (v 0) ops result H))|]. split; reflexivity.
Defined.
(** A removed member whose preference was still queued is made the heaviest preferred member again. *)
Definition stale : list SetOp := [AddMember 20 2 (v 1) (Some 1%positive); QueuePreferred 1 20 2; RemoveMember 20; ApplyPreferred 20].
Lemma removed_member_preferred : (s ← run_set (NewSortedConflicts 10 1 (v 0)) stale; Some (order s, heaviestPreferredMember s)) = Some ([10], Some 20).
Proof. by vm_compute. Qed.
End SortedDemo.
