(* ===== verification/ConflictDAG.v ===== *)
(** * The conflict DAG (pkg/protocol/engine/mempool/conflictdag/conflictdagv1, pkg/core/vote)

    Conflicts have parents and children, belong to conflict sets (one per resource), keep the set of conflicts they conflict with sorted by weight, collect votes and are accepted or
    rejected.  Acceptance flows to the parents and rejects the conflicts in conflict; rejection flows to the children; which conflict is liked instead of another one flows to the children too.

    Conflict objects are shared by pointers and live in a heap.  Events run their hooks, in the order they were registered, before the trigger returns: nested calls are an agenda of tasks, [run_task] puts new tasks in front.
    The workers of the sorted sets are operations that take one queued update.  Resources and IDs are numbers, vote ranks are compared as numbers, locks are left out.  Every call of [seatCount] during an operation gives the same threshold. *)
From S2P Require Import Prelude Block Float64 Weight ConflictSorted.

Abbreviation ResourceID := Z.
Record Vote := mkVote { Voter : SeatIndex; Rank : Z; liked : bool }.
Definition WithLiked (b : bool) (v : Vote) : Vote := mkVote (Voter v) (Rank v) b.
(** Hooks of AcceptanceStateUpdated: of the owner of a sorted set the conflict is in, and of a child. *)
Inductive Hook := OfSet (o : ptr) | OfChild (c : ptr).
#[export] Instance Hook_eq_dec : EqDecision Hook.
Proof. solve_decision. Defined.
Record Conflict := mkConflict {
  c_ID : ConflictID;
  Parents : gset ptr;
  Children : gset ptr;
  ConflictSets : gset ResourceID;
  ConflictingConflicts : SortedConflicts;
  c_Weight : Weight.Weight;
  LatestVotes : gmap SeatIndex Vote;
  hooks : list Hook;
  reported : bool;                                     (* the hook of the DAG itself *)
  preferredInstead : option ptr;
  c_evicted : bool;
  likedInstead : gset ptr;
  likedInsteadSources : gmap ConflictID (gset ptr);
  monitored : bool;                                    (* the hook that accepts on enough weight *)
}.
Inductive Event := ConflictCreated (id : ConflictID) | ConflictEvicted (id : ConflictID) | ConflictParentsUpdated (id : ConflictID) (parents : gset ConflictID) | ConflictingResourcesAdded (id : ConflictID) (r : gset ResourceID)
  | ConflictAccepted (id : ConflictID) | ConflictRejected (id : ConflictID).
Record DAG := mkDAG {
  heap : gmap ptr Conflict;
  nextPtr : ptr;
  conflictsByID : gmap ConflictID ptr;
  conflictUnhooks : gmap ConflictID ptr;
  conflictSetsByID : gmap ResourceID (gset ptr);
  threshold : Z;
  evictedIDs : list ConflictID;                         (* what the eviction under way returns so far *)
  events : list Event;
}.
Definition NewDAG (seats : Z) : option DAG := t ← ThresholdProvider seats; Some (mkDAG ∅ 1%positive ∅ ∅ ∅ t [] []).

Definition with_Parents v c := mkConflict (c_ID c) v (Children c) (ConflictSets c) (ConflictingConflicts c) (c_Weight c) (LatestVotes c) (hooks c) (reported c) (preferredInstead c) (c_evicted c) (likedInstead c) (likedInsteadSources c) (monitored c).
Definition with_Children v h c := mkConflict (c_ID c) (Parents c) v (ConflictSets c) (ConflictingConflicts c) (c_Weight c) (LatestVotes c) h (reported c) (preferredInstead c) (c_evicted c) (likedInstead c) (likedInsteadSources c) (monitored c).
Definition with_ConflictSets v c := mkConflict (c_ID c) (Parents c) (Children c) v (ConflictingConflicts c) (c_Weight c) (LatestVotes c) (hooks c) (reported c) (preferredInstead c) (c_evicted c) (likedInstead c) (likedInsteadSources c) (monitored c).
Definition with_Conflicting v c := mkConflict (c_ID c) (Parents c) (Children c) (ConflictSets c) v (c_Weight c) (LatestVotes c) (hooks c) (reported c) (preferredInstead c) (c_evicted c) (likedInstead c) (likedInsteadSources c) (monitored c).
Definition with_Weight v c := mkConflict (c_ID c) (Parents c) (Children c) (ConflictSets c) (ConflictingConflicts c) v (LatestVotes c) (hooks c) (reported c) (preferredInstead c) (c_evicted c) (likedInstead c) (likedInsteadSources c) (monitored c).
Definition with_LatestVotes v c := mkConflict (c_ID c) (Parents c) (Children c) (ConflictSets c) (ConflictingConflicts c) (c_Weight c) v (hooks c) (reported c) (preferredInstead c) (c_evicted c) (likedInstead c) (likedInsteadSources c) (monitored c).
Definition with_hooks v c := mkConflict (c_ID c) (Parents c) (Children c) (ConflictSets c) (ConflictingConflicts c) (c_Weight c) (LatestVotes c) v (reported c) (preferredInstead c) (c_evicted c) (likedInstead c) (likedInsteadSources c) (monitored c).
Definition with_reported v c := mkConflict (c_ID c) (Parents c) (Children c) (ConflictSets c) (ConflictingConflicts c) (c_Weight c) (LatestVotes c) (hooks c) v (preferredInstead c) (c_evicted c) (likedInstead c) (likedInsteadSources c) (monitored c).
Definition with_preferred v c := mkConflict (c_ID c) (Parents c) (Children c) (ConflictSets c) (ConflictingConflicts c) (c_Weight c) (LatestVotes c) (hooks c) (reported c) v (c_evicted c) (likedInstead c) (likedInsteadSources c) (monitored c).
Definition with_evicted c := mkConflict (c_ID c) (Parents c) (Children c) (ConflictSets c) (ConflictingConflicts c) (c_Weight c) (LatestVotes c) (hooks c) (reported c) (preferredInstead c) true (likedInstead c) (likedInsteadSources c) false.
Definition with_liked v src c := mkConflict (c_ID c) (Parents c) (Children c) (ConflictSets c) (ConflictingConflicts c) (c_Weight c) (LatestVotes c) (hooks c) (reported c) (preferredInstead c) (c_evicted c) v src (monitored c).
Definition with_heap v m := mkDAG v (nextPtr m) (conflictsByID m) (conflictUnhooks m) (conflictSetsByID m) (threshold m) (evictedIDs m) (events m).
Definition with_byID v m := mkDAG (heap m) (nextPtr m) v (conflictUnhooks m) (conflictSetsByID m) (threshold m) (evictedIDs m) (events m).
Definition with_unhooks v m := mkDAG (heap m) (nextPtr m) (conflictsByID m) v (conflictSetsByID m) (threshold m) (evictedIDs m) (events m).
Definition with_sets v m := mkDAG (heap m) (nextPtr m) (conflictsByID m) (conflictUnhooks m) v (threshold m) (evictedIDs m) (events m).
Definition with_threshold v m := mkDAG (heap m) (nextPtr m) (conflictsByID m) (conflictUnhooks m) (conflictSetsByID m) v (evictedIDs m) (events m).
Definition with_evictedIDs v m := mkDAG (heap m) (nextPtr m) (conflictsByID m) (conflictUnhooks m) (conflictSetsByID m) (threshold m) v (events m).
Definition emit e m := mkDAG (heap m) (nextPtr m) (conflictsByID m) (conflictUnhooks m) (conflictSetsByID m) (threshold m) (evictedIDs m) (events m ++ [e]).
Definition upd (p : ptr) (f : Conflict -> Conflict) (m : DAG) : DAG := with_heap (alter f p (heap m)) m.

Inductive Task :=
| SetAcceptance (p : ptr) (s : State) | WeightUpdated (p : ptr) (v : Value) | QueueWeights (p : ptr) (v : Value) | StateUpdated (p : ptr) (s : State)
| SetPreferred (p q : ptr) | AddInherited (c source reference : ptr) | RemoveInherited (c source reference : ptr)
| JoinSet (p : ptr) (r : ResourceID) | RegisterConflicting (c o : ptr) | RejectIfAccepted (c o : ptr) | ResourcesAdded (p : ptr) (r : gset ResourceID)
| RemoveParent (c p : ptr) | AddParent (c p : ptr) | ParentsUpdated (c : ptr) | ApplyVote (p : ptr) (v : Vote)
| EvictC (p : ptr) | EvictLinks (p : ptr) | EvictPair (p q : ptr) | EvictEnd (p : ptr) | EvictDone (id : ConflictID).
Definition act : Type := DAG * list Task.
Definition on (p : ptr) (m : DAG) (k : Conflict -> act) : act := match heap m !! p with Some c => k c | None => (m, []) end.

(** ** Acceptance *)
Definition c_state (c : Conflict) : State := acceptanceState (value (c_Weight c)).
Definition children_hooks (c : Conflict) : list ptr := omap (fun h => match h with OfChild x => Some x | _ => None end) (hooks c).
(** What a change of the weight triggers: the values the weight was updated with. *)
Definition weight_tasks (p : ptr) (w w' : Weight.Weight) : list Task := WeightUpdated p <$> drop (length (OnUpdate w)) (OnUpdate w').
Definition setAcceptance (p : ptr) (s : State) (m : DAG) : act :=
  on p m (fun c => if bool_decide (c_state c = s) then (m, [])
    else let w := (SetAcceptanceState s (c_Weight c)).2 in
      (upd p (with_Weight w) m,
       weight_tasks p (c_Weight c) w ++ (if IsAccepted s then (fun q => SetAcceptance q Accepted) <$> elements (Parents c) else []) ++ [StateUpdated p s])).
(** The first hook of the weight accepts the conflict, the others queue the value for the sorted sets. *)
Definition weightUpdated (p : ptr) (v : Value) (m : DAG) : act :=
  on p m (fun c => (m, (if monitored c && IsPending (acceptanceState v) && (threshold m <=? validatorsWeight v) then [SetAcceptance p Accepted] else []) ++ [QueueWeights p v])).
Definition is_member (p : ptr) (id : ConflictID) (s : SortedConflicts) : bool := bool_decide (id ∈ members s) && bool_decide (member_conflict s id = Some p).
Definition queueWeights (p : ptr) (v : Value) (m : DAG) : act :=
  on p m (fun c => (with_heap ((fun o => if is_member p (c_ID c) (ConflictingConflicts o) then with_Conflicting (queueWeightUpdate (c_ID c) v (ConflictingConflicts o)) o else o) <$> heap m) m, [])).
Definition stateUpdated (p : ptr) (s : State) (m : DAG) : act :=
  on p m (fun c =>
    (if reported c then if IsAccepted s then emit (ConflictAccepted (c_ID c)) m else if IsRejected s then emit (ConflictRejected (c_ID c)) m else m else m,
     omap (fun h => match h with OfSet o => if IsAccepted s then Some (SetAcceptance o Rejected) else None | OfChild x => if IsRejected s then Some (SetAcceptance x s) else None end) (hooks c))).
Definition applyVote (p : ptr) (v : Vote) (m : DAG) : act :=
  on p m (fun c =>
    if negb (IsPending (c_state c)) then (m, [])
    else match LatestVotes c !! Voter v with
    | Some last => if Rank v <=? Rank last then (m, [])
        else let c1 := with_LatestVotes (<[Voter v := v]> (LatestVotes c)) c in
          if Bool.eqb (liked last) (liked v) then (upd p (fun _ => c1) m, [])
          else let w := if liked v then AddVoter (Voter v) (c_Weight c) else DeleteVoter (Voter v) (c_Weight c) in (upd p (fun _ => with_Weight w c1) m, weight_tasks p (c_Weight c) w)
    | None => let c1 := with_LatestVotes (<[Voter v := v]> (LatestVotes c)) c in
        let w := if liked v then AddVoter (Voter v) (c_Weight c) else DeleteVoter (Voter v) (c_Weight c) in (upd p (fun _ => with_Weight w c1) m, weight_tasks p (c_Weight c) w)
    end).

(** ** Liked instead *)
Definition trigger_added (p reference : ptr) (c : Conflict) : list Task := (fun x => AddInherited x p reference) <$> children_hooks c.
Definition trigger_removed (p reference : ptr) (c : Conflict) : list Task := (fun x => RemoveInherited x p reference) <$> children_hooks c.
(** The named result is compared before it is assigned: every call counts as an update. *)
Definition setPreferredInstead (p q : ptr) (m : DAG) : act :=
  on p m (fun c =>
    let queued := (fun o => if is_member p (c_ID c) (ConflictingConflicts o) then
                    match member_conflict (ConflictingConflicts o) (owner (ConflictingConflicts o)) with
                    | Some oc => with_Conflicting (queuePreferredInsteadUpdate oc (c_ID c) q (ConflictingConflicts o)) o | None => o end else o) <$> heap m in
    let removed := match preferredInstead c with Some old => bool_decide (old ∈ likedInstead c) | None => false end in
    let liked1 := match preferredInstead c with Some old => likedInstead c ∖ {[old]} | None => likedInstead c end in
    let add := negb (bool_decide (q = p)) && bool_decide (liked1 = ∅) in
    (upd p (fun c => with_liked (if add then {[q]} else liked1) (likedInsteadSources c) (with_preferred (Some q) c)) (with_heap queued m),
     (if removed then match preferredInstead c with Some old => trigger_removed p old c | None => [] end else []) ++ if add then trigger_added p q c else [])).
Definition addInherited (x source reference : ptr) (m : DAG) : act :=
  match heap m !! x, heap m !! reference with
  | Some c, Some r =>
      let sources := default ∅ (likedInsteadSources c !! c_ID r) in
      let src := <[c_ID r := {[source]} ∪ sources]> (likedInsteadSources c) in
      if bool_decide (source ∈ sources) then (m, [])
      else if bool_decide (reference ∈ likedInstead c) then (upd x (with_liked (likedInstead c) src) m, [])
      else let liked1 := {[reference]} ∪ likedInstead c in
        match preferredInstead c with
        | Some q => if bool_decide (q ∈ liked1) then (upd x (with_liked (liked1 ∖ {[q]}) src) m, trigger_removed x q c ++ trigger_added x reference c) else (upd x (with_liked liked1 src) m, trigger_added x reference c)
        | None => (upd x (with_liked liked1 src) m, trigger_added x reference c)
        end
  | _, _ => (m, [])
  end.
Definition removeInherited (x source reference : ptr) (m : DAG) : act :=
  match heap m !! x, heap m !! reference with
  | Some c, Some r =>
      match likedInsteadSources c !! c_ID r with
      | None => (m, [])
      | Some sources =>
          if negb (bool_decide (source ∈ sources)) then (m, [])
          else let rest := sources ∖ {[source]} in
            if negb (bool_decide (rest = ∅)) then (upd x (with_liked (likedInstead c) (<[c_ID r := rest]> (likedInsteadSources c))) m, [])
            else let src := delete (c_ID r) (likedInsteadSources c) in
              if negb (bool_decide (reference ∈ likedInstead c)) then (upd x (with_liked (likedInstead c) src) m, [])
              else let liked1 := likedInstead c ∖ {[reference]} in
                match preferredInstead c with
                | Some q => if bool_decide (liked1 = ∅) && negb (bool_decide (q = x)) then (upd x (with_liked {[q]} src) m, trigger_removed x reference c ++ trigger_added x q c) else (upd x (with_liked liked1 src) m, trigger_removed x reference c)
                | None => (upd x (with_liked liked1 src) m, trigger_removed x reference c)
                end
      end
  | _, _ => (m, [])
  end.

(** ** Structure *)
(** The calls of setPreferredInstead that an operation on the sorted set of [p] makes. *)
Definition preferred_tasks (p : ptr) (l : list ptr) : list Task := SetPreferred p <$> l.
Definition joinSet (p : ptr) (r : ResourceID) (m : DAG) : act :=
  on p m (fun c => let others := default ∅ (conflictSetsByID m !! r) in
    if bool_decide (p ∈ others) || bool_decide (r ∈ ConflictSets c) then (with_sets (<[r := {[p]} ∪ others]> (conflictSetsByID m)) (upd p (fun c => with_ConflictSets ({[r]} ∪ ConflictSets c) c) m), [])
    else (with_sets (<[r := {[p]} ∪ others]> (conflictSetsByID m)) (upd p (fun c => with_ConflictSets ({[r]} ∪ ConflictSets c) c) m),
          elements others ≫= fun o => [RegisterConflicting p o; RegisterConflicting o p])).
Definition registerConflicting (p o : ptr) (m : DAG) : option act :=
  match heap m !! p, heap m !! o with
  | Some c, Some d =>
      '(added, calls, s) ← Add (c_ID d) o (value (c_Weight d)) (preferredInstead d) (ConflictingConflicts c);
      if (added : bool) then Some (upd o (fun d => with_hooks (hooks d ++ [OfSet p]) d) (upd p (with_Conflicting s) m), preferred_tasks p calls ++ [RejectIfAccepted p o]) else Some (m, [])
  | _, _ => Some (m, [])
  end.
Definition rejectIfAccepted (p o : ptr) (m : DAG) : act := on o m (fun d => (m, if IsAccepted (c_state d) then [SetAcceptance p Rejected] else [])).
Definition unregisterChild (p x : ptr) (m : DAG) : DAG := upd p (fun c => if bool_decide (x ∈ Children c) then with_Children (Children c ∖ {[x]}) (filter (fun h => h <> OfChild x) (hooks c)) c else c) m.
Definition removeParent (x p : ptr) (m : DAG) : act :=
  on x m (fun c => if bool_decide (p ∈ Parents c) then (unregisterChild p x (upd x (fun c => with_Parents (Parents c ∖ {[p]}) c) m), []) else (m, [])).
Definition registerChild (p x : ptr) (m : DAG) : act :=
  on p m (fun c => if bool_decide (x ∈ Children c) then (m, [])
    else (upd p (fun c => with_Children ({[x]} ∪ Children c) (hooks c ++ [OfChild x]) c) m,
          ((fun r => AddInherited x p r) <$> elements (likedInstead c)) ++ if IsRejected (c_state c) then [SetAcceptance x Rejected] else [])).
Definition addParent (x p : ptr) (m : DAG) : act :=
  on x m (fun c => if bool_decide (p ∈ Parents c) then (m, []) else registerChild p x (upd x (fun c => with_Parents ({[p]} ∪ Parents c) c) m)).

(** ** Eviction *)
(** Rejected conflicts take their future cone with them, the children of others lose the parent. *)
Definition evict (p : ptr) (m : DAG) : act :=
  on p m (fun c => if c_evicted c then (m, [])
    else (upd p with_evicted m, (if IsRejected (c_state c) then EvictC <$> elements (Children c) else (fun x => RemoveParent x p) <$> elements (Children c)) ++ [EvictLinks p])).
Definition leave_set (p : ptr) (r : ResourceID) (sets : gmap ResourceID (gset ptr)) : gmap ResourceID (gset ptr) :=
  match sets !! r with Some s => if bool_decide (p ∈ s) then if bool_decide (s ∖ {[p]} = ∅) then delete r sets else <[r := s ∖ {[p]}]> sets else sets | None => sets end.
Definition evictLinks (p : ptr) (m : DAG) : act :=
  on p m (fun c =>
    let m1 := foldr (fun q => unregisterChild q p) m (elements (Parents c)) in
    let m2 := with_sets (foldr (leave_set p) (conflictSetsByID m) (elements (ConflictSets c))) (upd p (fun c => with_Conflicting (Shutdown (ConflictingConflicts c)) (with_ConflictSets ∅ (with_Parents ∅ c))) m1) in
    (m2, ((fun q => EvictPair p q) <$> filter (fun q => q <> p) (omap (member_conflict (ConflictingConflicts c)) (elements (members (ConflictingConflicts c))))) ++ [EvictEnd p])).
(** Leaving a sorted set also unhooks its owner. *)
Definition remove_from (o p : ptr) (m : DAG) : act :=
  match heap m !! o, heap m !! p with
  | Some c, Some d => let '(removed, calls, s) := Remove (c_ID d) (ConflictingConflicts c) in
      (upd p (fun d => if (removed : bool) then with_hooks (filter (fun h => h <> OfSet o) (hooks d)) d else d) (upd o (with_Conflicting s) m), preferred_tasks o calls)
  | _, _ => (m, [])
  end.
Definition evictPair (p q : ptr) (m : DAG) : act :=
  let a := remove_from q p m in let b := remove_from p q a.1 in
  on p b.1 (fun c => (b.1, a.2 ++ b.2 ++ if IsAccepted (c_state c) then [EvictC q] else [])).
(** All others have left, so that leaving the own set changes no preference. *)
Definition evictEnd (p : ptr) (m : DAG) : act :=
  on p m (fun c => let '(_, calls, s) := Remove (c_ID c) (ConflictingConflicts c) in
    (with_evictedIDs (evictedIDs m ++ [c_ID c]) (upd p (fun c => with_liked (likedInstead c) ∅ (with_preferred None (with_Conflicting s c))) m), [])).
Definition evictDone (id : ConflictID) (m : DAG) : act :=
  let m1 := with_byID (foldr (fun x => delete x) (conflictsByID m) (evictedIDs m)) m in
  let m2 := match conflictUnhooks m1 !! id with Some p => upd p (with_reported false) (with_unhooks (delete id (conflictUnhooks m1)) m1) | None => m1 end in
  (foldl (fun m x => emit (ConflictEvicted x) m) (with_evictedIDs [] m2) (evictedIDs m), []).

Definition run_task (k : Task) (m : DAG) : option act :=
  match k with
  | SetAcceptance p s => Some (setAcceptance p s m)
  | WeightUpdated p v => Some (weightUpdated p v m)
  | QueueWeights p v => Some (queueWeights p v m)
  | StateUpdated p s => Some (stateUpdated p s m)
  | SetPreferred p q => Some (setPreferredInstead p q m)
  | AddInherited x p r => Some (addInherited x p r m)
  | RemoveInherited x p r => Some (removeInherited x p r m)
  | JoinSet p r => Some (joinSet p r m)
  | RegisterConflicting c o => registerConflicting c o m
  | RejectIfAccepted c o => Some (rejectIfAccepted c o m)
  | ResourcesAdded p r => Some (on p m (fun c => (emit (ConflictingResourcesAdded (c_ID c) r) m, [])))
  | RemoveParent c p => Some (removeParent c p m)
  | AddParent c p => Some (addParent c p m)
  | ParentsUpdated c => Some (on c m (fun x => (emit (ConflictParentsUpdated (c_ID x) (list_to_set (omap (fun p => c_ID <$> heap m !! p) (elements (Parents x))))) m, [])))
  | ApplyVote p v => Some (applyVote p v m)
  | EvictC p => Some (evict p m)
  | EvictLinks p => Some (evictLinks p m)
  | EvictPair p q => Some (evictPair p q m)
  | EvictEnd p => Some (evictEnd p m)
  | EvictDone id => Some (evictDone id m)
  end.

(** ** Operations *)
(** With a threshold of at most zero a conflict is accepted when it is created, before anyone listens. *)
Definition NewConflict (id : ConflictID) (p : ptr) (t : Z) : Conflict :=
  let w := if t <=? 0 then (SetAcceptanceState Accepted Weight.New).2 else Weight.New in
  mkConflict id ∅ ∅ ∅ (NewSortedConflicts id p (value w)) w ∅ [] true (Some p) false ∅ ∅ true.
Definition CreateConflict (id : ConflictID) (m : DAG) : act :=
  match conflictsByID m !! id with
  | Some _ => (m, [])
  | None => let p := nextPtr m in
      (emit (ConflictCreated id) (mkDAG (<[p := NewConflict id p (threshold m)]> (heap m)) (Pos.succ p) (<[id := p]> (conflictsByID m)) (<[id := p]> (conflictUnhooks m)) (conflictSetsByID m) (threshold m) (evictedIDs m) (events m)), [])
  end.
(** The conflict sets of the resources; new ones are empty. *)
Definition conflictSets (resources : gset ResourceID) (m : DAG) : DAG := with_sets (foldr (fun r s => <[r := default ∅ (s !! r)]> s) (conflictSetsByID m) (elements resources)) m.
(** The error of the operation, if any, and the work. *)
Definition UpdateConflictingResources (id : ConflictID) (resources : gset ResourceID) (m : DAG) : bool * act :=
  match conflictsByID m !! id with
  | None => (false, (m, []))
  | Some p => match heap m !! p with
      | Some c => if c_evicted c then (false, (conflictSets resources m, []))
          else let joined := filter (fun r => p ∉ default ∅ (conflictSetsByID m !! r) /\ r ∉ ConflictSets c) resources in
            (true, (conflictSets resources m, (JoinSet p <$> elements resources) ++ if bool_decide (joined = ∅) then [] else [ResourcesAdded p joined]))
      | None => (false, (m, []))
      end
  end.
Definition lookup_all (ids : gset ConflictID) (m : DAG) : list ptr := omap (fun id => conflictsByID m !! id) (elements ids).
Definition UpdateConflictParents (id : ConflictID) (added removed : gset ConflictID) (m : DAG) : bool * act :=
  match conflictsByID m !! id with
  | None => (false, (m, []))
  | Some x => match heap m !! x with
      | Some c =>
          let removedParents := lookup_all removed m in let addedParents := lookup_all added m in
          if IsRejected (c_state c) && negb (forallb (fun i => bool_decide (is_Some (conflictsByID m !! i))) (elements removed)) then (false, (m, []))
          else let left : gset ptr := list_to_set (filter (fun p => p ∈ Parents c) removedParents) in
            let new : gset ptr := list_to_set (filter (fun p => p ∉ Parents c ∖ left) addedParents) in
            (true, (m, (RemoveParent x <$> removedParents) ++ (AddParent x <$> addedParents) ++ if bool_decide (left = ∅) && bool_decide (new = ∅) then [] else [ParentsUpdated x]))
      | None => (false, (m, []))
      end
  end.
Definition SetAccepted (id : ConflictID) (m : DAG) : act := match conflictsByID m !! id with Some p => setAcceptance p Accepted m | None => (m, []) end.
Definition EvictConflict (id : ConflictID) (m : DAG) : act := match conflictsByID m !! id with Some p => (m, [EvictC p; EvictDone id]) | None => (m, []) end.
(** The workers of the sorted set of [o]. *)
Definition fixMemberPositionWorker (o : ptr) (id : ConflictID) (m : DAG) : act :=
  on o m (fun c => if bool_decide (id ∈ pendingWeightUpdates (ConflictingConflicts c)) && negb (isShutdown (ConflictingConflicts c)) then
      let r := applyWeightUpdate id (ConflictingConflicts c) in (upd o (with_Conflicting r.2) m, preferred_tasks o r.1) else (m, [])).
Definition fixHeaviestPreferredMemberWorker (o : ptr) (id : ConflictID) (m : DAG) : option act :=
  match heap m !! o with
  | Some c => if bool_decide (id ∈ pendingPreferredInsteadUpdates (ConflictingConflicts c)) && negb (isShutdown (ConflictingConflicts c)) then
      r ← applyPreferredInsteadUpdate id (ConflictingConflicts c); Some (upd o (with_Conflicting r.2) m, preferred_tasks o r.1) else Some (m, [])
  | None => Some (m, [])
  end.
(** Shutdown stops the sorted sets. *)
Definition ShutdownDAG (m : DAG) : DAG := with_heap (map_imap (fun p c => Some (if bool_decide (conflictsByID m !! c_ID c = Some p) then with_Conflicting (Shutdown (ConflictingConflicts c)) c else c)) (heap m)) m.

(** ** Reading *)
Definition AcceptanceState_ (ids : list ConflictID) (m : DAG) : outcome State :=
  foldl (fun r id => match r with
    | Ret (Rejected) => r
    | Ret s => match conflictsByID m !! id ≫= fun p => heap m !! p with None => Panic | Some c => if IsRejected (c_state c) then Ret Rejected else if IsPending (c_state c) then Ret Pending else Ret s end
    | _ => r end) (Ret Accepted) ids.
Definition UnacceptedConflicts (ids : gset ConflictID) (m : DAG) : gset ConflictID :=
  filter (fun id => (match conflictsByID m !! id ≫= fun p => heap m !! p with Some c => negb (IsAccepted (c_state c)) | None => false end) = true) ids.
Definition AllConflictsSupported (seat : SeatIndex) (ids : gset ConflictID) (m : DAG) : bool :=
  forallb (fun p => match heap m !! p ≫= fun c => LatestVotes c !! seat with Some v => liked v | None => false end) (lookup_all ids m).
Definition compare_conflicts (m : DAG) (a b : ptr) : Z :=
  if decide (a = b) then Equal else match heap m !! a, heap m !! b with
  | Some c, Some d => let r := Compare (value (c_Weight c)) (value (c_Weight d)) in if negb (r =? Equal) then r else compare_ids (c_ID c) (c_ID d)
  | _, _ => Equal end.
Definition heaviestConflict (m : DAG) (l : list ptr) : option ptr :=
  foldl (fun r p => match r with None => Some p | Some q => if compare_conflicts m p q =? Heavier then Some p else r end) None l.
Definition LikedInstead (ids : gset ConflictID) (m : DAG) : gset ConflictID :=
  list_to_set (omap (fun p => c ← heap m !! p; q ← heaviestConflict m (elements (likedInstead c)); c_ID <$> heap m !! q) (lookup_all ids m)).
Definition IsLiked (p : ptr) (c : Conflict) : bool := bool_decide (preferredInstead c = Some p) && bool_decide (likedInstead c = ∅).
Definition ConflictWeight (id : ConflictID) (m : DAG) : Z := match conflictsByID m !! id ≫= fun p => heap m !! p with Some c => validatorsWeight (value (c_Weight c)) | None => 0 end.
Definition ConflictVoters (id : ConflictID) (m : DAG) : gset SeatIndex := match conflictsByID m !! id ≫= fun p => heap m !! p with Some c => Voters (c_Weight c) | None => ∅ end.
Definition ConflictSetMembers (r : ResourceID) (m : DAG) : option (gset ConflictID) := (fun s => list_to_set (omap (fun p => c_ID <$> heap m !! p) (elements s))) <$> conflictSetsByID m !! r.
Definition ids_of (m : DAG) (l : list ptr) : gset ConflictID := list_to_set (omap (fun p => c_ID <$> heap m !! p) l).
Definition ConflictingConflicts_ (id : ConflictID) (m : DAG) : option (gset ConflictID) := c ← conflictsByID m !! id ≫= fun p => heap m !! p; Some (ids_of m (Range (ConflictingConflicts c))).
