(* ===== verification/ConflictVotes.v ===== *)
(** * Votes on conflicts (pkg/protocol/engine/mempool/conflictdag/conflictdagv1/conflictdag.go)

    A vote for conflicts supports all their ancestors and revokes what conflicts with one of these, with its future cone: [determineVotes] collects both with two
    walkers, [CastVotes] applies the vote to them.

    The theorem: [determineVotes] finishes within as many rounds as there are conflicts; it fails exactly if two of the ancestors conflict, and else the supported conflicts are
    the ancestors, the revoked ones the future cone of what conflicts with them, and nothing is both. *)
From S2P Require Import Prelude Block Float64 Weight Walker ConflictSorted ConflictDAG.

Definition parents_of (m : DAG) (p : ptr) : list ptr := match heap m !! p with Some c => elements (Parents c) | None => [] end.
Definition children_of (m : DAG) (p : ptr) : list ptr := match heap m !! p with Some c => elements (Children c) | None => [] end.
Definition conflicting_of (m : DAG) (p : ptr) : list ptr := match heap m !! p with Some c => Range (ConflictingConflicts c) | None => [] end.
Definition ConflictSets_ (id : ConflictID) (m : DAG) : option (gset ResourceID) := c ← conflictsByID m !! id ≫= fun p => heap m !! p; Some (ConflictSets c).
Definition ConflictParents (id : ConflictID) (m : DAG) : option (gset ConflictID) := c ← conflictsByID m !! id ≫= fun p => heap m !! p; Some (ids_of m (elements (Parents c))).
Definition ConflictChildren (id : ConflictID) (m : DAG) : option (gset ConflictID) := c ← conflictsByID m !! id ≫= fun p => heap m !! p; Some (ids_of m (elements (Children c))).

Section Votes.
Context {W : Type} `{!Walker ptr W}.
Record votes := mkVotes { supportedConflicts : gset ptr; revokedConflicts : gset ptr; revokedWalker : W }.
(** [None]: the conflict is supported already. *)
Definition revokeConflict (m : DAG) (v : votes) (q : ptr) : option votes :=
  if bool_decide (q ∈ revokedConflicts v) then Some v
  else if bool_decide (q ∈ supportedConflicts v) then None
  else Some (mkVotes (supportedConflicts v) ({[q]} ∪ revokedConflicts v) (PushAll (children_of m q) (revokedWalker v))).
(** The parents to go on with. *)
Definition supportConflict (m : DAG) (p : ptr) (v : votes) : option (votes * list ptr) :=
  if bool_decide (p ∈ supportedConflicts v) then Some (v, [])
  else v' ← foldl (fun v q => v ← v; revokeConflict m v q) (Some (mkVotes ({[p]} ∪ supportedConflicts v) (revokedConflicts v) (revokedWalker v))) (conflicting_of m p);
    Some (v', parents_of m p).
Fixpoint support_loop (m : DAG) (fuel : nat) (w : W) (v : votes) : outcome (option votes) :=
  match WNext w with
  | None => Ret (Some v)
  | Some (x, w) => match fuel with O => OutOfFuel | S fuel =>
      match supportConflict m x v with None => Ret None | Some (v, l) => support_loop m fuel (PushAll l w) v end end
  end.
Fixpoint revoke_loop (m : DAG) (fuel : nat) (w : W) (revoked : gset ptr) : outcome (gset ptr) :=
  match WNext w with
  | None => Ret revoked
  | Some (x, w) => match fuel with O => OutOfFuel | S fuel =>
      if bool_decide (x ∈ revoked) then revoke_loop m fuel w revoked else revoke_loop m fuel (PushAll (children_of m x) w) ({[x]} ∪ revoked) end
  end.
Definition determineVotes (ids : gset ConflictID) (m : DAG) : outcome (option (gset ptr * gset ptr)) :=
  r ← support_loop m (size (heap m)) (PushAll (lookup_all ids m) walk_new) (mkVotes ∅ ∅ walk_new);
  match r with
  | None => Ret None
  | Some v => revoked ← revoke_loop m (size (heap m)) (revokedWalker v) (revokedConflicts v); Ret (Some (supportedConflicts v, revoked))
  end.
(** The vote is applied to every conflict in turn. *)
Definition CastVotes (v : Vote) (ids : gset ConflictID) (m : DAG) : outcome (bool * act) :=
  r ← determineVotes ids m;
  Ret (match r with
       | None => (false, (m, []))
       | Some (supported, revoked) => (true, (m, ((fun p => ApplyVote p (WithLiked true v)) <$> elements supported) ++ ((fun p => ApplyVote p (WithLiked false v)) <$> elements revoked)))
       end).
Fixpoint future_cone_loop (m : DAG) (fuel : nat) (w : W) (cone : gset ConflictID) : outcome (gset ConflictID) :=
  match WNext w with
  | None => Ret cone
  | Some (x, w) => match fuel with O => OutOfFuel | S fuel =>
      match heap m !! x with
      | Some c => if bool_decide (c_ID c ∈ cone) then future_cone_loop m fuel w cone else future_cone_loop m fuel (PushAll (children_of m x) w) ({[c_ID c]} ∪ cone)
      | None => future_cone_loop m fuel w cone end end
  end.
Definition FutureCone (ids : gset ConflictID) (m : DAG) : outcome (gset ConflictID) := future_cone_loop m (size (heap m)) (PushAll (lookup_all ids m) walk_new) ∅.

(** ** Ancestors and descendants *)
Record Linked (m : DAG) : Prop := {
  ln_byID id p : conflictsByID m !! id = Some p -> p ∈ dom (heap m);
  ln_parent p q : q ∈ parents_of m p -> q ∈ dom (heap m);
  ln_child p q : q ∈ children_of m p -> q ∈ dom (heap m) /\ p ∈ parents_of m q;
  ln_conflicting p q : q ∈ conflicting_of m p -> q ∈ dom (heap m) /\ p ∈ conflicting_of m q;
}.
Definition ancestor (m : DAG) (ids : gset ConflictID) (p : ptr) : Prop := exists q, q ∈ lookup_all ids m /\ rtc (fun a b => b ∈ parents_of m a) q p.
Definition descendant (m : DAG) : ptr -> ptr -> Prop := rtc (fun a b => b ∈ children_of m a).
Context `{!WalkerSpec ptr W}.
Context (m : DAG) (Hm : Linked m) (ids : gset ConflictID).

Definition conflicts_with (s : gset ptr) (q : ptr) : Prop := exists p, p ∈ s /\ q ∈ conflicting_of m p.
(** What the loop that collects support maintains. *)
Record Supporting (w : W) (v : votes) : Prop := {
  su_pending : pending w ⊆ seen w;
  su_supported : supportedConflicts v = seen w ∖ pending w;
  su_dom : seen w ⊆ dom (heap m);
  su_initial q : q ∈ lookup_all ids m -> q ∈ seen w;
  su_closed p q : p ∈ supportedConflicts v -> q ∈ parents_of m p -> q ∈ seen w;
  su_ancestor p : p ∈ seen w -> ancestor m ids p;
  su_revoked q : q ∈ revokedConflicts v <-> conflicts_with (supportedConflicts v) q;
  su_disjoint q : q ∈ revokedConflicts v -> q ∉ supportedConflicts v;
  su_walker : pending (revokedWalker v) = seen (revokedWalker v);
  su_pushed x : x ∈ seen (revokedWalker v) <-> exists q, q ∈ revokedConflicts v /\ x ∈ children_of m q;
}.
(** One conflict revokes what it conflicts with. *)
Lemma revoke_all l v :
  pending (revokedWalker v) = seen (revokedWalker v) -> (forall x, x ∈ seen (revokedWalker v) <-> exists q, q ∈ revokedConflicts v /\ x ∈ children_of m q) ->
  match foldl (fun v q => v ← v; revokeConflict m v q) (Some v) l with
  | Some v' => supportedConflicts v' = supportedConflicts v /\ (forall q, q ∈ revokedConflicts v' <-> q ∈ revokedConflicts v \/ q ∈ l)
      /\ (forall q, q ∈ revokedConflicts v' -> q ∈ revokedConflicts v \/ q ∉ supportedConflicts v)
      /\ pending (revokedWalker v') = seen (revokedWalker v') /\ (forall x, x ∈ seen (revokedWalker v') <-> exists q, q ∈ revokedConflicts v' /\ x ∈ children_of m q)
  | None => exists q, q ∈ l /\ q ∈ supportedConflicts v
  end.
Proof.
  revert v. induction l as [|q l IH]; intros v Hp Hs; cbn [foldl]; [split_and!; [done|set_solver|tauto|done|done]|]. cbn [mbind option_bind]. unfold revokeConflict at 2.
  case_bool_decide as Hr; [specialize (IH v Hp Hs); destruct (foldl _ _ l) as [v'|]; [|set_solver]; destruct IH as (I1 & I2 & I3 & I4); split_and!; [done| |done|tauto..]; set_solver|].
  case_bool_decide as Hq.
  - assert (Hn : forall l', foldl (fun v q => v ← v; revokeConflict m v q) None l' = None) by (by induction l'). rewrite Hn. set_solver.
  - set (v1 := mkVotes (supportedConflicts v) ({[q]} ∪ revokedConflicts v) (PushAll (children_of m q) (revokedWalker v))).
    assert (Hp1 : pending (revokedWalker v1) = seen (revokedWalker v1)) by (cbn; rewrite push_pending, push_seen, Hp; apply leibniz_equiv; intros x; destruct (decide (x ∈ seen (revokedWalker v))); set_solver).
    assert (Hs1 : forall x, x ∈ seen (revokedWalker v1) <-> exists q, q ∈ revokedConflicts v1 /\ x ∈ children_of m q) by (intros x; cbn; rewrite push_seen, elem_of_union, elem_of_list_to_set, Hs; set_solver).
    specialize (IH v1 Hp1 Hs1). destruct (foldl _ (Some v1) l) as [v'|]; [|destruct IH as (x & Hx & Hx'); exists x; split; [set_solver|done]].
    destruct IH as (I1 & I2 & I3 & I4 & I5). cbn in *. split_and!; [done| | |done|done]; [set_solver|]. intros x Hx. destruct (I3 x Hx) as [H|H]; [|by right]. apply elem_of_union in H as [->%elem_of_singleton|H]; [by right|by left].
Qed.
Lemma visited_grows (A B : gset ptr) x : x ∈ dom (heap m) -> x ∉ A -> x ∈ B -> A ⊆ B -> (size (dom (heap m) ∖ B) < size (dom (heap m) ∖ A))%nat.
Proof. intros H1 H2 H3 H4. apply subset_size. split; [set_solver|]. intros H. assert (H5 : x ∈ dom (heap m) ∖ A) by set_solver. apply H in H5. set_solver. Qed.
Definition ancestors_conflict : Prop := exists p q, ancestor m ids p /\ ancestor m ids q /\ q ∈ conflicting_of m p.
Lemma ancestor_parent p q : ancestor m ids p -> q ∈ parents_of m p -> ancestor m ids q.
Proof. intros (r & Hr & Hp) Hq. exists r. split; [done|]. by eapply rtc_r. Qed.
(** A conflict that is supported and revoked revokes the one that revoked it: that is the error. *)
Lemma support_step w v x w' : Supporting w v -> WNext w = Some (x, w') ->
  match supportConflict m x v with Some (v', l) => Supporting (PushAll l w') v' | None => ancestors_conflict end.
Proof.
  intros H Hw. pose proof (next_spec w) as Hn. rewrite Hw in Hn. destruct Hn as (Hx & Hp & Hs). destruct H as [H1 H2 H3 H4 H5 H6 H7 H8 H9 H10].
  assert (Hx' : x ∉ supportedConflicts v) by set_solver. unfold supportConflict. rewrite bool_decide_eq_false_2 by done.
  pose proof (revoke_all (conflicting_of m x) (mkVotes ({[x]} ∪ supportedConflicts v) (revokedConflicts v) (revokedWalker v)) H9 H10) as Hl. destruct (foldl _ _ _) as [v'|] eqn:E; cbn [mbind option_bind].
  - destruct Hl as (L1 & L2 & L3 & L4 & L5). cbn in L1, L2, L3. assert (Hrx : x ∉ revokedConflicts v).
    { intros Hr. apply H7 in Hr as Hr'. destruct Hr' as (s & Hs1 & Hs2). apply (ln_conflicting m Hm) in Hs2 as [_ Hs2]. destruct (L3 s) as [Hb|Hb]; [apply L2; by right|by apply (H8 s)|set_solver]. }
    split; rewrite ?L1; try done.
    + rewrite push_pending, push_seen, Hp, Hs. set_solver.
    + rewrite push_pending, push_seen, Hp, Hs, H2. apply leibniz_equiv. intros y. destruct (decide (y = x)) as [->|]; [set_solver|]. destruct (decide (y ∈ seen w)); set_solver.
    + rewrite push_seen, Hs. apply union_subseteq. split; [done|]. intros y Hy%elem_of_list_to_set. by apply (ln_parent m Hm x).
    + intros q Hq. rewrite push_seen, Hs. set_solver.
    + intros p q Hpp Hq. rewrite push_seen, Hs, elem_of_union, elem_of_list_to_set. apply elem_of_union in Hpp as [->%elem_of_singleton|Hpp]; [by right|left; by eapply H5].
    + intros p. rewrite push_seen, Hs, elem_of_union, elem_of_list_to_set. intros [Hq|Hq]; [by apply H6|]. apply (ancestor_parent x); [apply H6; set_solver|done].
    + intros q. rewrite L2, H7. unfold conflicts_with. set_solver.
    + intros q Hq. destruct (L3 q Hq) as [Hr|Hr]; [|done]. intros [->%elem_of_singleton|Hin]%elem_of_union; [done|by apply (H8 q)].
  - destruct Hl as (q & Hq & Hq'). cbn in Hq'. exists x, q. split_and!; [apply H6; set_solver| |done]. apply elem_of_union in Hq' as [->%elem_of_singleton|Hq']; apply H6; set_solver.
Qed.
Lemma support_loop_ends fuel w v : Supporting w v -> (size (dom (heap m) ∖ supportedConflicts v) <= fuel)%nat ->
  exists r, support_loop m fuel w v = Ret r /\ match r with Some v' => exists w', Supporting w' v' /\ pending w' = ∅ | None => ancestors_conflict end.
Proof.
  revert w v. induction fuel as [|fuel IH]; intros w v H Hf; cbn [support_loop]; pose proof (next_spec w) as Hn; destruct (WNext w) as [[x w']|] eqn:E; try (eexists; split; [done|by exists w]).
  - destruct Hn as (Hx & _ & _). exfalso. assert (Hin : x ∈ dom (heap m) ∖ supportedConflicts v) by (destruct H; set_solver). apply Nat.le_0_r, size_empty_inv in Hf. set_solver.
  - pose proof (support_step w v x w' H E) as Hst. destruct Hn as (Hx & Hp & Hs). destruct (supportConflict m x v) as [[v' l]|] eqn:E'; [|by exists None]. apply IH; [done|].
    assert (Hsup : supportedConflicts v' = {[x]} ∪ supportedConflicts v).
    { assert (Hx' : x ∉ supportedConflicts v) by (destruct H; set_solver). unfold supportConflict in E'. rewrite bool_decide_eq_false_2 in E' by done.
      pose proof (revoke_all (conflicting_of m x) (mkVotes ({[x]} ∪ supportedConflicts v) (revokedConflicts v) (revokedWalker v)) (su_walker _ _ H) (su_pushed _ _ H)) as Hl. destruct (foldl _ _ _) as [v1|]; cbn in E'; simplify_eq. apply Hl. }
    assert (Hlt : (size (dom (heap m) ∖ supportedConflicts v') < size (dom (heap m) ∖ supportedConflicts v))%nat); [|lia]. rewrite Hsup. apply (visited_grows _ _ x); [destruct H; set_solver..|set_solver|set_solver].
Qed.
(** What the loop over the future cone maintains, from the revoked conflicts [rev0] on. *)
Record Revoking (rev0 : gset ptr) (w : W) (revoked : gset ptr) : Prop := {
  re_pending : pending w ⊆ seen w;
  re_visited : seen w ∖ pending w ⊆ revoked;
  re_from : rev0 ⊆ revoked;
  re_dom : seen w ⊆ dom (heap m);
  re_closed p q : p ∈ revoked -> q ∈ children_of m p -> q ∈ seen w;
  re_cone p : p ∈ revoked \/ p ∈ seen w -> exists q, q ∈ rev0 /\ descendant m q p;
}.
Lemma descendant_child p q r : descendant m p q -> r ∈ children_of m q -> descendant m p r.
Proof. intros. by eapply rtc_r. Qed.
Lemma revoke_loop_ends rev0 fuel w revoked : Revoking rev0 w revoked -> (size (dom (heap m) ∖ (seen w ∖ pending w)) <= fuel)%nat ->
  exists r w', revoke_loop m fuel w revoked = Ret r /\ Revoking rev0 w' r /\ pending w' = ∅.
Proof.
  revert w revoked. induction fuel as [|fuel IH]; intros w rv H Hf; cbn [revoke_loop]; pose proof (next_spec w) as Hn; destruct (WNext w) as [[x w']|] eqn:E; try (by exists rv, w); destruct Hn as (Hx & Hp & Hs).
  - exfalso. assert (Hin : x ∈ dom (heap m) ∖ (seen w ∖ pending w)) by (destruct H; set_solver). apply Nat.le_0_r, size_empty_inv in Hf. set_solver.
  - assert (Hin : x ∈ dom (heap m) ∖ (seen w ∖ pending w)) by (destruct H; set_solver). assert (Hxs : x ∈ seen w) by (destruct H; set_solver). destruct H as [H1 H2 H3 H4 H5 H6]. case_bool_decide as Hr.
    + apply IH.
      * split; rewrite ?Hp, ?Hs; try done; [set_solver|]. intros y Hy. destruct (decide (y = x)) as [->|]; [done|]. apply H2. set_solver.
      * enough (size (dom (heap m) ∖ (seen w' ∖ pending w')) < size (dom (heap m) ∖ (seen w ∖ pending w)))%nat by lia. rewrite Hp, Hs. apply (visited_grows _ _ x); set_solver.
    + apply IH.
      * split; rewrite ?push_pending, ?push_seen, ?Hp, ?Hs.
        -- set_solver.
        -- intros y Hy. destruct (decide (y = x)) as [->|Hne]; [apply elem_of_union; left; by apply elem_of_singleton|]. apply elem_of_union_r, H2. rewrite !elem_of_difference, !elem_of_union, !elem_of_difference, elem_of_singleton in Hy. apply elem_of_difference. destruct (decide (y ∈ seen w)), (decide (y ∈ pending w)); tauto.
        -- set_solver.
        -- apply union_subseteq. split; [done|]. intros y Hy%elem_of_list_to_set. by apply (ln_child m Hm x).
        -- intros p q Hpp Hq. rewrite elem_of_union, elem_of_list_to_set. apply elem_of_union in Hpp as [->%elem_of_singleton|Hpp]; [by right|left; by eapply H5].
        -- intros p. rewrite !elem_of_union, elem_of_singleton, elem_of_list_to_set. intros [[->|Hq]|[Hq|Hq]]; [apply H6; by right|apply H6; by left|apply H6; by right|].
           destruct (H6 x) as (r & Hr' & Hd); [by right|]. exists r. split; [done|by eapply descendant_child].
      * enough (size (dom (heap m) ∖ (seen (PushAll (children_of m x) w') ∖ pending (PushAll (children_of m x) w'))) < size (dom (heap m) ∖ (seen w ∖ pending w)))%nat by lia. rewrite push_pending, push_seen, Hp, Hs. apply (visited_grows _ _ x); set_solver.
Qed.

(** C7 For a DAG whose parents and children are inverse and whose conflicts are symmetric, determining the votes takes at most one round of each walker per conflict and returns.  It is an
    error exactly if two ancestors of the voted conflicts conflict with each other.  Otherwise the supported conflicts are the ancestors, the revoked ones are everything in the
    future cone of a conflict that conflicts with an ancestor, and no conflict is both supported and revoked. *)
Theorem determineVotes_correct : exists r, determineVotes ids m = Ret r /\
  match r with
  | None => ancestors_conflict
  | Some (supported, revoked) =>
      (forall p, p ∈ supported <-> ancestor m ids p) /\
      (forall p, p ∈ revoked <-> exists s q, ancestor m ids s /\ q ∈ conflicting_of m s /\ descendant m q p) /\
      supported ∩ revoked = ∅ /\ ~ ancestors_conflict
  end.
Proof.
  destruct (support_loop_ends (size (heap m)) (PushAll (lookup_all ids m) walk_new) (mkVotes ∅ ∅ walk_new)) as (r & Hr & HS).
  { split; cbn; rewrite ?push_pending, ?push_seen, ?new_pending, ?new_seen; try set_solver.
    intros p. rewrite elem_of_union, elem_of_list_to_set. intros [?|Hp]; [set_solver|]. unfold lookup_all in Hp. apply list_elem_of_omap in Hp as (id & _ & Hid). by eapply (ln_byID m Hm). }
  { rewrite <- size_dom. apply subseteq_size. cbn. set_solver. }
  unfold determineVotes. rewrite Hr. cbn [mbind outcome_bind]. destruct r as [v|]; [|by exists None]. destruct HS as (w & [H1 H2 H3 H4 H5 H6 H7 H8 H9 H10] & Hw).
  assert (Hsup : forall p, p ∈ supportedConflicts v <-> ancestor m ids p).
  { assert (Hseen : supportedConflicts v = seen w) by (rewrite H2, Hw; clear; set_solver). intros p. split; [intros Hp; apply H6; by rewrite <- Hseen|]. intros (q & Hq & Hp). apply H4 in Hq. rewrite <- Hseen in Hq. clear -Hp Hq H5 Hseen. induction Hp as [|a b c Hab Hbc IH]; [done|]. apply IH. rewrite Hseen. by eapply H5. }
  destruct (revoke_loop_ends (revokedConflicts v) (size (heap m)) (revokedWalker v) (revokedConflicts v)) as (rv & w' & Hrv & HR & Hw').
  { split; rewrite ?H9; [done|clear; set_solver|done|..].
    - intros x Hx. apply H10 in Hx as (q & _ & Hx). by apply (ln_child m Hm q).
    - intros p q Hp Hq. apply H10. eauto.
    - intros p [Hp|Hp]; [exists p; split; [done|apply rtc_refl]|]. apply H10 in Hp as (q & Hq & Hp). exists q. split; [done|by apply rtc_once]. }
  { rewrite <- size_dom. apply subseteq_size. clear. set_solver. }
  rewrite Hrv. cbn [mbind outcome_bind]. eexists. split; [done|]. cbn. destruct HR as [R1 R2 R3 R4 R5 R6].
  assert (Hrev : forall p, p ∈ rv <-> exists s q, ancestor m ids s /\ q ∈ conflicting_of m s /\ descendant m q p).
  { intros p. split.
    - intros Hp. destruct (R6 p) as (q & Hq & Hd); [by left|]. apply H7 in Hq as (s & Hs & Hq). exists s, q. by rewrite <- Hsup.
    - intros (s & q & Hs & Hq & Hd). assert (Hq' : q ∈ rv) by (apply R3, H7; exists s; by rewrite Hsup). clear -Hd Hq' R2 R5 Hw'. induction Hd as [|a b c Hab Hbc IH]; [done|]. apply IH, R2. rewrite Hw', difference_empty_L. by eapply R5. }
  assert (Hnc : ~ ancestors_conflict).
  { intros (p & q & Hp & Hq & Hpq). apply (H8 q); [apply H7; exists p; by rewrite Hsup|by apply Hsup]. }
  split_and!; [done|done| |done]. apply elem_of_equiv_empty_L. intros p [Hp1 Hp2]%elem_of_intersection. apply Hsup in Hp1. apply Hrev in Hp2 as (s & q & Hs & Hq & Hd). apply Hnc. exists s, q. split_and!; [done| |done].
  clear -Hd Hp1 Hm. induction Hd as [|a b c Hab Hbc IH] in Hp1 |- *; [done|]. apply (ancestor_parent b); [auto|]. by apply (ln_child m Hm).
Qed.
End Votes.
