(* ===== verification/ConflictAccept.v ===== *)
(** * Acceptance in the conflict DAG

    Whatever operations, tasks and workers run, and in whatever order the tasks of the operations under way are interleaved: once nothing is pending, two conflicts that are in each other's sets
    of conflicting conflicts are not both accepted, and the children of a rejected conflict are rejected.

    While tasks are pending the invariant names, for every pair that violates this, the task that is going to repair it. *)
From S2P Require Import Prelude Block Float64 Weight Walker ConflictSorted ConflictDAG ConflictVotes.

(** ** Members of the sorted sets *)
Definition mem (s : SortedConflicts) (id : ConflictID) (q : ptr) : Prop := id ∈ members s /\ member_conflict s id = Some q.
Lemma mem_fields s s' id q : members s' = members s -> sc_conflict <$> objects s' = sc_conflict <$> objects s -> mem s' id q <-> mem s id q.
Proof.
  intros H1 H2. unfold mem, member_conflict. rewrite H1. assert (H : sc_conflict <$> objects s' !! id = sc_conflict <$> objects s !! id) by (rewrite <- !lookup_fmap; by rewrite H2). by rewrite H.
Qed.
Lemma same_conflict s id m m' : objects s !! id = Some m -> sc_conflict m' = sc_conflict m -> sc_conflict <$> <[id := m']> (objects s) = sc_conflict <$> objects s.
Proof. intros H1 H2. rewrite fmap_insert, H2. apply insert_id. by rewrite lookup_fmap, H1. Qed.
Lemma queueWeightUpdate_mem x v s id q : mem (queueWeightUpdate x v s) id q <-> mem s id q.
Proof. unfold queueWeightUpdate. destruct (objects s !! x) as [m|] eqn:E; [|done]. case_match; [done|]. destruct (isShutdown s); apply mem_fields; try done; by eapply same_conflict. Qed.
Lemma queuePreferredInsteadUpdate_mem o x p s id q : mem (queuePreferredInsteadUpdate o x p s) id q <-> mem s id q.
Proof. unfold queuePreferredInsteadUpdate. destruct (objects s !! x) as [m|] eqn:E; [|done]. case_match; [done|]. destruct (isShutdown s); apply mem_fields; try done; by eapply same_conflict. Qed.
Lemma findLower_mem l s id q : mem (findLowerHeaviestPreferredMember l s).2 id q <-> mem s id q.
Proof. destruct (findLower_fields l s) as (_ & H1 & H2). apply mem_fields; [done|by rewrite H2]. Qed.
Lemma fixMemberPosition_mem x s id q : mem (fixMemberPosition x s).2 id q <-> mem s id q.
Proof. unfold fixMemberPosition. destruct (move_up _ _ _ _ _) as [[[a b] h] l]. by destruct (move_down _ _ _ _ _) as [[[a' b'] h'] l']. Qed.
Lemma applyWeightUpdate_mem x s id q : mem (applyWeightUpdate x s).2 id q <-> mem s id q.
Proof.
  unfold applyWeightUpdate. destruct (objects s !! x) as [m|] eqn:E; [|done]. destruct (isShutdown s); [done|]. assert (Hc : sc_conflict (weightUpdateApplied m).2 = sc_conflict m) by (unfold weightUpdateApplied; by case_match).
  case_match; rewrite ?fixMemberPosition_mem; apply mem_fields; try done; by eapply same_conflict.
Qed.
Lemma fixHeaviest_mem x s r id q : fixHeaviestPreferredMember x s = Some r -> mem r.2 id q <-> mem s id q.
Proof. unfold fixHeaviestPreferredMember. repeat case_match; intros Hr; simplify_option_eq; repeat case_match; try done. apply findLower_mem. Qed.
Lemma applyPreferred_mem x s r id q : applyPreferredInsteadUpdate x s = Some r -> mem r.2 id q <-> mem s id q.
Proof.
  unfold applyPreferredInsteadUpdate. destruct (objects s !! x) as [m|] eqn:E; [|by intros [= <-]]. destruct (isShutdown s); [by intros [= <-]|]. assert (Hc : sc_conflict (preferredInsteadUpdateApplied m).2 = sc_conflict m) by (unfold preferredInsteadUpdateApplied; by case_match).
  case_match; intros Hr; [rewrite (fixHeaviest_mem _ _ _ _ _ Hr)|injection Hr as <-]; apply mem_fields; try done; by eapply same_conflict.
Qed.
Lemma Remove_mem x s id q : mem (Remove x s).2 id q -> id <> x /\ mem s id q.
Proof.
  unfold Remove. case_bool_decide as Hx; [|intros [H1 H2]; split; [by intros ->|done]].
  case_bool_decide; cbn [snd]; rewrite ?findLower_mem; intros [[H1 H2]%elem_of_difference H3]; (split; [by intros ->; apply H2, elem_of_singleton|done]).
Qed.
Lemma Add_mem x p w o s b calls s' id q : Add x p w o s = Some (b, calls, s') -> mem s' id q -> mem s id q \/ (b = true /\ id = x /\ q = p).
Proof.
  unfold Add. case_match; [intros [= <- <- <-]; by left|]. intros Ha. assert (Hs : b = true /\ members s' = {[x]} ∪ members s /\ objects s' = <[x := newSortedConflict p w o]> (objects s)).
  { repeat (simplify_option_eq; try case_match); done. }
  destruct Hs as (-> & H1 & H2). unfold mem, member_conflict. rewrite H1, H2. destruct (decide (id = x)) as [->|]; [rewrite lookup_insert_eq; intros [_ [= <-]]; by right|]. rewrite lookup_insert_ne by done. set_solver.
Qed.

(** ** The invariant *)
Record Inv (m : DAG) (P : Task -> Prop) : Prop := {
  iv_next p : (nextPtr m <= p)%positive -> heap m !! p = None;
  iv_task p s : P (SetAcceptance p s) -> s <> Pending;
  iv_child p c x : heap m !! p = Some c -> x ∈ Children c -> OfChild x ∈ hooks c /\ exists d, heap m !! x = Some d /\ p ∈ Parents d;
  iv_member o c id q : heap m !! o = Some c -> mem (ConflictingConflicts c) id q -> exists d, heap m !! q = Some d /\ c_ID d = id /\ (q = o \/ OfSet o ∈ hooks d);
  iv_safe p c q d : heap m !! p = Some c -> heap m !! q = Some d -> OfSet q ∈ hooks c -> OfSet p ∈ hooks d -> c_state c = Accepted -> c_state d = Accepted ->
    P (SetAcceptance p Rejected) \/ P (SetAcceptance q Rejected) \/ P (StateUpdated p Accepted) \/ P (StateUpdated q Accepted) \/ P (RejectIfAccepted p q) \/ P (RejectIfAccepted q p);
  iv_flow p c x d : heap m !! p = Some c -> x ∈ Children c -> heap m !! x = Some d -> c_state c = Rejected ->
    c_state d = Rejected \/ P (SetAcceptance x Rejected) \/ P (StateUpdated p Rejected) \/ P (SetAcceptance p Accepted);
}.
(** Tasks that repair something. *)
Definition repairs (k : Task) : Prop := match k with SetAcceptance _ _ | StateUpdated _ _ | RejectIfAccepted _ _ => True | _ => False end.
Definition tasks_ok (P : Task -> Prop) : Prop := forall p s, P (SetAcceptance p s) -> s <> Pending.

(** ** Changes the invariant does not see *)
Record calm (c c' : Conflict) : Prop := {
  ca_ID : c_ID c' = c_ID c;
  ca_Parents : Parents c' = Parents c;
  ca_Children : Children c' = Children c;
  ca_hooks : hooks c' = hooks c;
  ca_state : c_state c' = c_state c;
  ca_mem id q : mem (ConflictingConflicts c') id q -> mem (ConflictingConflicts c) id q;
}.
#[export] Instance calm_refl : Reflexive calm.
Proof. by split. Qed.
#[export] Instance calm_trans : Transitive calm.
Proof. intros a b c [] []. split; try congruence. auto. Qed.
Definition Calm (m m' : DAG) : Prop := nextPtr m' = nextPtr m /\ forall p, option_Forall2 calm (heap m !! p) (heap m' !! p).
#[export] Instance Calm_refl : Reflexive Calm.
Proof. intros m. split; [done|]. intros p. reflexivity. Qed.
#[export] Instance Calm_trans : Transitive Calm.
Proof. intros a b c [H1 H2] [H3 H4]. split; [congruence|]. intros p. etransitivity; eauto. Qed.
Lemma upd_calm p f m : (forall c, heap m !! p = Some c -> calm c (f c)) -> Calm m (upd p f m).
Proof.
  intros H. split; [done|]. intros q. cbn. destruct (decide (q = p)) as [->|]; [rewrite lookup_alter_eq|rewrite lookup_alter_ne by done; reflexivity]. destruct (heap m !! p) as [c|] eqn:E; cbn; constructor. auto.
Qed.
Lemma map_calm f m : (forall c, calm c (f c)) -> Calm m (with_heap (f <$> heap m) m).
Proof. intros H. split; [done|]. intros q. cbn. rewrite lookup_fmap. destruct (heap m !! q); cbn; constructor. auto. Qed.
Lemma same_calm m m' : heap m' = heap m -> nextPtr m' = nextPtr m -> Calm m m'.
Proof. intros H1 H2. split; [done|]. intros p. rewrite H1. reflexivity. Qed.
Lemma conflicting_calm c s : (forall id q, mem s id q -> mem (ConflictingConflicts c) id q) -> calm c (with_Conflicting s c).
Proof. by split. Qed.
Lemma calm_lookup m m' p c' : Calm m m' -> heap m' !! p = Some c' -> exists c, heap m !! p = Some c /\ calm c c'.
Proof. intros [_ H] Hp. specialize (H p). rewrite Hp in H. inversion H. eauto. Qed.
Lemma calm_lookup' m m' p c : Calm m m' -> heap m !! p = Some c -> exists c', heap m' !! p = Some c' /\ calm c c'.
Proof. intros [_ H] Hp. specialize (H p). rewrite Hp in H. inversion H. eauto. Qed.
Lemma Calm_inv m m' (P P' : Task -> Prop) : Calm m m' -> (forall k, repairs k -> P k -> P' k) -> tasks_ok P' -> Inv m P -> Inv m' P'.
Proof.
  intros Hc HP Ht [I1 I2 I3 I4 I5 I6]. split.
  - intros p Hp. destruct Hc as [Hn Hh]. rewrite Hn in Hp. specialize (Hh p). rewrite (I1 p Hp) in Hh. by inversion Hh.
  - done.
  - intros p c x Hp Hx. destruct (calm_lookup m m' p c Hc Hp) as (c0 & Hp0 & Hcc). rewrite (ca_Children _ _ Hcc) in Hx. rewrite (ca_hooks _ _ Hcc). destruct (I3 p c0 x Hp0 Hx) as (H1 & d & H2 & H3). split; [done|].
    destruct (calm_lookup' m m' x d Hc H2) as (d' & Hd' & Hdd). exists d'. by rewrite (ca_Parents _ _ Hdd).
  - intros o c id q Ho Hm. destruct (calm_lookup m m' o c Hc Ho) as (c0 & Ho0 & Hcc). apply (ca_mem _ _ Hcc) in Hm. destruct (I4 o c0 id q Ho0 Hm) as (d & H1 & H2 & H3).
    destruct (calm_lookup' m m' q d Hc H1) as (d' & Hd' & Hdd). exists d'. by rewrite (ca_ID _ _ Hdd), (ca_hooks _ _ Hdd).
  - intros p c q d Hp Hq H1 H2 H3 H4. destruct (calm_lookup m m' p c Hc Hp) as (c0 & Hp0 & Hcc). destruct (calm_lookup m m' q d Hc Hq) as (d0 & Hq0 & Hdd).
    rewrite (ca_hooks _ _ Hcc) in H1. rewrite (ca_hooks _ _ Hdd) in H2. rewrite (ca_state _ _ Hcc) in H3. rewrite (ca_state _ _ Hdd) in H4. destruct (I5 p c0 q d0 Hp0 Hq0 H1 H2 H3 H4) as [H|[H|[H|[H|[H|H]]]]]; apply HP in H; [tauto|exact I|tauto|exact I|tauto|exact I|tauto|exact I|tauto|exact I|tauto|exact I].
  - intros p c x d Hp Hx Hd Hs. destruct (calm_lookup m m' p c Hc Hp) as (c0 & Hp0 & Hcc). destruct (calm_lookup m m' x d Hc Hd) as (d0 & Hx0 & Hdd).
    rewrite (ca_Children _ _ Hcc) in Hx. rewrite (ca_state _ _ Hcc) in Hs. rewrite (ca_state _ _ Hdd). destruct (I6 p c0 x d0 Hp0 Hx Hx0 Hs) as [H|[H|[H|H]]]; [tauto|apply HP in H; [tauto|exact I]..].
Qed.

(** ** Tasks *)
Definition task_fine (k : Task) : Prop := match k with SetAcceptance _ s => s <> Pending | _ => True end.
Record Advance (k : Task) (new : list Task) (P P' : Task -> Prop) : Prop := {
  ad_kept j : P j -> j = k \/ P' j;
  ad_new j : j ∈ new -> P' j;
  ad_only j : P' j -> P j \/ j ∈ new;
}.
Lemma advance_ok k new P P' : Advance k new P P' -> tasks_ok P -> Forall task_fine new -> tasks_ok P'.
Proof. intros H Hp Hn p s Hs. apply (ad_only _ _ _ _ H) in Hs as [Hs|Hs]; [by eapply Hp|]. rewrite Forall_forall in Hn. by apply Hn in Hs. Qed.
Lemma fine_map {A} (f : A -> Task) l : (forall a, task_fine (f a)) -> Forall task_fine (f <$> l).
Proof. intros H. apply Forall_fmap, Forall_true. intros a. apply H. Qed.
Lemma fine_weight p w w' : Forall task_fine (weight_tasks p w w').
Proof. by apply fine_map. Qed.
Lemma fine_added p r c : Forall task_fine (trigger_added p r c).
Proof. by apply fine_map. Qed.
Lemma fine_removed p r c : Forall task_fine (trigger_removed p r c).
Proof. by apply fine_map. Qed.
Lemma fine_preferred p l : Forall task_fine (preferred_tasks p l).
Proof. by apply fine_map. Qed.
Create HintDb fine.
#[export] Hint Resolve fine_weight fine_added fine_removed fine_preferred Forall_nil_2 : fine.
Lemma voter_state seat w : acceptanceState (value (AddVoter seat w)) = acceptanceState (value w) /\ acceptanceState (value (DeleteVoter seat w)) = acceptanceState (value w).
Proof. unfold AddVoter, DeleteVoter, updateValidatorsWeight. split; repeat case_decide; done. Qed.
(** Tasks whose change the invariant does not see. *)
Definition quiet (k : Task) : bool :=
  match k with WeightUpdated _ _ | QueueWeights _ _ | SetPreferred _ _ | AddInherited _ _ _ | RemoveInherited _ _ _ | JoinSet _ _ | ResourcesAdded _ _ | ParentsUpdated _ | ApplyVote _ _ | EvictC _ | EvictEnd _ | EvictDone _ => true | _ => false end.
Definition Quiet (m : DAG) (a : act) : Prop := Calm m a.1 /\ Forall task_fine a.2.
Lemma on_quiet p m k : (forall c, heap m !! p = Some c -> Quiet m (k c)) -> Quiet m (on p m k).
Proof. intros H. unfold on. destruct (heap m !! p); [auto|]. split; [reflexivity|constructor]. Qed.
Lemma quiet_same m l : Forall task_fine l -> Quiet m (m, l).
Proof. by split. Qed.
Lemma quiet_upd p f m l : (forall c, heap m !! p = Some c -> calm c (f c)) -> Forall task_fine l -> Quiet m (upd p f m, l).
Proof. intros H1 H2. split; [by apply upd_calm|done]. Qed.
Ltac fine := repeat first [apply Forall_app; split | case_match | by auto with fine | constructor].
Lemma weightUpdated_quiet p v m : Quiet m (weightUpdated p v m).
Proof. apply on_quiet. intros c Hc. apply quiet_same. fine; done. Qed.
Lemma queueWeights_quiet p v m : Quiet m (queueWeights p v m).
Proof. apply on_quiet. intros c Hc. split; [|constructor]. apply map_calm. intros o. case_match; [|done]. apply conflicting_calm. intros id q. by rewrite queueWeightUpdate_mem. Qed.
Lemma setPreferredInstead_quiet p q m : Quiet m (setPreferredInstead p q m).
Proof.
  apply on_quiet. intros c Hc. split; cbn [fst snd]; [|fine]. etransitivity; [|apply upd_calm; by split]. apply map_calm. intros o.
  case_match; [|done]. case_match; [|done]. apply conflicting_calm. intros id x. by rewrite queuePreferredInsteadUpdate_mem.
Qed.
Lemma liked_calm p v src m c : heap m !! p = Some c -> forall d, heap m !! p = Some d -> calm d (with_liked v src d).
Proof. by split. Qed.
Lemma addInherited_quiet x s r m : Quiet m (addInherited x s r m).
Proof. unfold addInherited. repeat case_match; try (apply quiet_same; fine); apply quiet_upd; fine; by eapply liked_calm. Qed.
Lemma removeInherited_quiet x s r m : Quiet m (removeInherited x s r m).
Proof. unfold removeInherited. repeat case_match; try (apply quiet_same; fine); apply quiet_upd; fine; by eapply liked_calm. Qed.
Lemma joinSet_quiet p r m : Quiet m (joinSet p r m).
Proof.
  assert (H : forall s, Calm m (with_sets s (upd p (fun c => with_ConflictSets ({[r]} ∪ ConflictSets c) c) m))) by (intros s; etransitivity; [|by apply same_calm]; by apply upd_calm).
  apply on_quiet. intros c Hc. cbv zeta. case_match; split; cbn [fst snd]; try apply H; [constructor|]. apply Forall_forall. intros k Hk. apply list_elem_of_bind in Hk as (o & Hk & _). set_unfold in Hk. by destruct Hk as [->|[->|[]]].
Qed.
Lemma applyVote_quiet p v m : Quiet m (applyVote p v m).
Proof.
  apply on_quiet. intros c Hc. destruct (voter_state (Voter v) (c_Weight c)) as [V1 V2].
  repeat case_match; try (apply quiet_same; fine); (apply quiet_upd; [|by auto with fine]); intros d Hd; rewrite Hc in Hd; injection Hd as <-; split; try done; unfold c_state; cbn; by case_match.
Qed.
Lemma evict_quiet p m : Quiet m (evict p m).
Proof. apply on_quiet. intros c Hc. case_match; [by apply quiet_same|]. apply quiet_upd; [by split|]. apply Forall_app. split; [case_match; by apply fine_map|by repeat constructor]. Qed.
Lemma evictEnd_quiet p m : Quiet m (evictEnd p m).
Proof.
  apply on_quiet. intros c Hc. destruct (Remove (c_ID c) (ConflictingConflicts c)) as [[b calls] s] eqn:E. split; [|constructor]. cbn [fst]. etransitivity; [|by apply same_calm].
  apply upd_calm. intros d Hd. rewrite Hc in Hd. injection Hd as <-. split; try done. cbn. intros id q Hm. apply (Remove_mem (c_ID c)). by rewrite E.
Qed.
Lemma emits_calm l m : Calm m (foldl (fun m x => emit (ConflictEvicted x) m) m l).
Proof. revert m. induction l as [|x l IH]; intros m; cbn; [done|]. etransitivity; [|apply IH]. by apply same_calm. Qed.
Lemma evictDone_quiet id m : Quiet m (evictDone id m).
Proof.
  split; [|constructor]. unfold evictDone. cbn [fst]. etransitivity; [|apply emits_calm]. etransitivity; [|by apply same_calm]. case_match; [|by apply same_calm]. etransitivity; [|apply upd_calm; by split]. by apply same_calm.
Qed.
Lemma quiet_task k m m' new : quiet k = true -> run_task k m = Some (m', new) -> Calm m m' /\ Forall task_fine new.
Proof.
  assert (Hq : forall a, Quiet m a -> Some a = Some (m', new) -> Calm m m' /\ Forall task_fine new) by (intros a Ha [= ->]; apply Ha).
  destruct k; cbn [quiet run_task]; try done; intros _; apply Hq; auto using weightUpdated_quiet, queueWeights_quiet, setPreferredInstead_quiet, addInherited_quiet, removeInherited_quiet, joinSet_quiet, applyVote_quiet, evict_quiet, evictEnd_quiet, evictDone_quiet.
  all: apply on_quiet; intros d Hd; split; [by apply same_calm|apply Forall_nil_2].
Qed.

(** ** Links that are dropped: [E p x] that [x] is no longer a child of [p], [O q o] that [q] leaves the set of [o] *)
Record detach (E O : ptr -> ptr -> Prop) (q : ptr) (c c' : Conflict) : Prop := {
  de_ID : c_ID c' = c_ID c;
  de_state : c_state c' = c_state c;
  de_Children y : y ∈ Children c' -> y ∈ Children c /\ ~ E q y;
  de_child y : OfChild y ∈ hooks c -> ~ E q y -> OfChild y ∈ hooks c';
  de_Parents r : r ∈ Parents c -> ~ E r q -> r ∈ Parents c';
  de_less o : OfSet o ∈ hooks c' -> OfSet o ∈ hooks c;
  de_set o : OfSet o ∈ hooks c -> ~ O q o -> OfSet o ∈ hooks c';
  de_mem id r : mem (ConflictingConflicts c') id r -> mem (ConflictingConflicts c) id r /\ ~ O r q;
}.
Definition Detach (E O : ptr -> ptr -> Prop) (m m' : DAG) : Prop := nextPtr m' = nextPtr m /\ forall q, option_Forall2 (detach E O q) (heap m !! q) (heap m' !! q).
Lemma Detach_inv E O m m' P : Detach E O m m' -> Inv m P -> Inv m' P.
Proof.
  intros [Hn HD] [I1 I2 I3 I4 I5 I6].
  assert (L : forall q c', heap m' !! q = Some c' -> exists c, heap m !! q = Some c /\ detach E O q c c') by (intros q c' Hq; specialize (HD q); rewrite Hq in HD; inversion HD; eauto).
  assert (L' : forall q c, heap m !! q = Some c -> exists c', heap m' !! q = Some c' /\ detach E O q c c') by (intros q c Hq; specialize (HD q); rewrite Hq in HD; inversion HD; eauto).
  split; [| done | | | |].
  - intros p Hp. rewrite Hn in Hp. specialize (HD p). rewrite (I1 p Hp) in HD. by inversion HD.
  - intros p c x Hp Hx. destruct (L p c Hp) as (c0 & Hp0 & D). destruct (de_Children _ _ _ _ _ D x Hx) as [Hx0 HE]. destruct (I3 p c0 x Hp0 Hx0) as (H1 & d & H2 & H3). split; [by apply (de_child _ _ _ _ _ D)|].
    destruct (L' x d H2) as (d' & Hd' & D'). exists d'. split; [done|]. by apply (de_Parents _ _ _ _ _ D').
  - intros o c id q Ho Hm. destruct (L o c Ho) as (c0 & Ho0 & D). destruct (de_mem _ _ _ _ _ D id q Hm) as [Hm0 HO]. destruct (I4 o c0 id q Ho0 Hm0) as (d & H1 & H2 & H3). destruct (L' q d H1) as (d' & Hd' & D').
    exists d'. split_and!; [done|by rewrite (de_ID _ _ _ _ _ D')|]. destruct H3 as [H3|H3]; [by left|right; by apply (de_set _ _ _ _ _ D')].
  - intros p c q d Hp Hq H1 H2 H3 H4. destruct (L p c Hp) as (c0 & Hp0 & D). destruct (L q d Hq) as (d0 & Hq0 & D'). apply (de_less _ _ _ _ _ D) in H1. apply (de_less _ _ _ _ _ D') in H2. rewrite (de_state _ _ _ _ _ D) in H3. rewrite (de_state _ _ _ _ _ D') in H4. eauto.
  - intros p c x d Hp Hx Hd Hs. destruct (L p c Hp) as (c0 & Hp0 & D). destruct (L x d Hd) as (d0 & Hx0 & D'). destruct (de_Children _ _ _ _ _ D x Hx) as [Hx1 _]. rewrite (de_state _ _ _ _ _ D) in Hs. rewrite (de_state _ _ _ _ _ D'). eauto.
Qed.
Lemma upd_lookup p f m q : heap (upd p f m) !! q = (if decide (q = p) then f <$> heap m !! q else heap m !! q).
Proof. cbn. case_decide as H; [subst; by rewrite lookup_alter_eq|by rewrite lookup_alter_ne]. Qed.
(** A parent forgets a child. *)
Definition forget (x : ptr) (c : Conflict) : Conflict := if bool_decide (x ∈ Children c) then with_Children (Children c ∖ {[x]}) (filter (fun h => h <> OfChild x) (hooks c)) c else c.
Record forgot (x : ptr) (c c' : Conflict) : Prop := {
  fo_same : c_ID c' = c_ID c /\ c_state c' = c_state c /\ Parents c' = Parents c /\ ConflictingConflicts c' = ConflictingConflicts c;
  fo_Children : Children c' = Children c ∖ {[x]};
  fo_less h : h ∈ hooks c' -> h ∈ hooks c;
  fo_hooks h : h ∈ hooks c -> h <> OfChild x -> h ∈ hooks c';
}.
Lemma forget_forgot x c : forgot x c (forget x c).
Proof.
  unfold forget. case_bool_decide as Hx; split; try done; cbn; [by intros h [_ Hh]%list_elem_of_filter|by intros; apply list_elem_of_filter|]. apply leibniz_equiv. intros y. rewrite elem_of_difference, elem_of_singleton. split; [|tauto]. intros Hy. split; [done|by intros ->].
Qed.
Lemma removeParent_inv x p m P : Inv m P -> Inv (removeParent x p m).1 P /\ (removeParent x p m).2 = [].
Proof.
  intros HI. unfold removeParent, on. destruct (heap m !! x) as [c|] eqn:Hx; [|done]. case_match; [|done]. split; [|done]. cbn [fst].
  apply (Detach_inv (fun a b => a = p /\ b = x) (fun _ _ => False) m); [|done]. split; [done|]. intros q. unfold unregisterChild. rewrite !upd_lookup. change (fun c => if bool_decide (x ∈ Children c) then _ else c) with (forget x).
  assert (Hf : forall d, heap m !! q = Some d -> detach (fun a b => a = p /\ b = x) (fun _ _ => False) q d (let e := if decide (q = x) then with_Parents (Parents d ∖ {[p]}) d else d in if decide (q = p) then forget x e else e)).
  { intros d Hd. cbv zeta. set (e := if decide (q = x) then with_Parents (Parents d ∖ {[p]}) d else d).
    assert (He : c_ID e = c_ID d /\ c_state e = c_state d /\ Children e = Children d /\ hooks e = hooks d /\ ConflictingConflicts e = ConflictingConflicts d) by (unfold e; destruct (decide (q = x)); split_and!; reflexivity). destruct He as (E1 & E2 & E3 & E4 & E5).
    assert (Hpar : forall r, r ∈ Parents d -> ~ (r = p /\ q = x) -> r ∈ Parents e) by (intros r Hr Hn; unfold e; destruct (decide (q = x)); [cbn; set_solver|done]).
    destruct (decide (q = p)) as [->|Hne]; [destruct (forget_forgot x e) as [(F1 & F2 & F3 & F4) F5 F6 F7]; split; rewrite ?F1, ?F2, ?F3, ?F4, ?F5, ?E1, ?E2, ?E3, ?E5; try done|split; rewrite ?E1, ?E2, ?E3, ?E4, ?E5; try done].
    - intros y [Hy Hn]%elem_of_difference. split; [done|]. intros [_ ->]. by apply Hn, elem_of_singleton.
    - intros y Hy Hn. apply F7; [by rewrite E4|]. intros [= ->]. by apply Hn.
    - intros o Ho. apply F6 in Ho. by rewrite <- E4.
    - intros o Ho _. apply F7; [by rewrite E4|done].
    - intros id r Hm. split; [done|tauto].
    - intros y Hy. split; [done|]. by intros [-> _].
    - intros id r Hm. split; [done|tauto]. }
  destruct (heap m !! q) as [d|] eqn:Hd; [|by repeat case_decide; constructor]. specialize (Hf d eq_refl). cbv zeta in Hf. repeat case_decide; cbn; constructor; exact Hf.
Qed.
Lemma forgot_again x c c' : forgot x c c' -> forgot x c (forget x c').
Proof.
  intros [(A1 & A2 & A3 & A4) A5 A6 A7]. destruct (forget_forgot x c') as [(F1 & F2 & F3 & F4) F5 F6 F7]. split; [split_and!; congruence|rewrite F5, A5; clear; set_solver|auto..].
Qed.
Lemma forget_all p l m q : option_Forall2 (fun c c' => (q ∈ l /\ forgot p c c') \/ (q ∉ l /\ c' = c)) (heap m !! q) (heap (foldr (fun q => unregisterChild q p) m l) !! q).
Proof.
  induction l as [|a l IH]; cbn [foldr]; [destruct (heap m !! q); constructor; right; split; [set_solver|done]|]. unfold unregisterChild at 1. rewrite upd_lookup. change (fun c => if bool_decide (p ∈ Children c) then _ else c) with (forget p).
  destruct IH as [c c' IH|]; [|by case_decide; constructor]. case_decide as Hq; cbn; constructor.
  - left. split; [set_solver|]. destruct IH as [[_ IH]|[_ ->]]; [by apply forgot_again|apply forget_forgot].
  - destruct IH as [[H1 H2]|[H1 H2]]; [left|right]; (split; [set_solver|done]).
Qed.
Lemma forget_all_next p l m : nextPtr (foldr (fun q => unregisterChild q p) m l) = nextPtr m.
Proof. by induction l. Qed.
Lemma evictLinks_inv p m P : Inv m P -> Inv (evictLinks p m).1 P /\ Forall task_fine (evictLinks p m).2.
Proof.
  intros HI. unfold evictLinks, on. destruct (heap m !! p) as [c|] eqn:Hp; [|by split]. split; [|apply Forall_app; split; [by apply fine_map|by repeat constructor]]. cbn [fst].
  apply (Detach_inv (fun a b => b = p /\ a ∈ Parents c) (fun _ _ => False) m); [|done]. split; [cbn; apply forget_all_next|]. intros q. change (heap (with_sets ?s ?x) !! q) with (heap x !! q). rewrite upd_lookup.
  pose proof (forget_all p (elements (Parents c)) m q) as Hall. destruct (heap m !! q) as [d|] eqn:Hq0; inversion Hall as [? e Hf H1 H2|H1]; [subst|by case_decide; constructor].
  assert (Hd : (forall r, q = p -> r ∈ Parents d -> r ∈ Parents c) -> detach (fun a b => b = p /\ a ∈ Parents c) (fun _ _ => False) q d (if decide (q = p) then with_Conflicting (Shutdown (ConflictingConflicts e)) (with_ConflictSets ∅ (with_Parents ∅ e)) else e)).
  { intros Hsame. set (e' := if decide (q = p) then _ else e). assert (He : c_ID e' = c_ID e /\ c_state e' = c_state e /\ Children e' = Children e /\ hooks e' = hooks e /\ (forall id r, mem (ConflictingConflicts e') id r <-> mem (ConflictingConflicts e) id r)) by (unfold e'; destruct (decide (q = p)); split_and!; reflexivity).
    assert (Hpar : forall r, r ∈ Parents e -> ~ (q = p /\ r ∈ Parents c) -> (forall r, q = p -> r ∈ Parents e -> r ∈ Parents c) -> r ∈ Parents e') by (intros r Hr Hn Hc; unfold e'; destruct (decide (q = p)) as [Hq|]; [exfalso; auto|done]).
    destruct He as (E1 & E2 & E3 & E4 & E5). rewrite elem_of_elements in Hf. destruct Hf as [[Hq [(F1 & F2 & F3 & F4) F5 F6 F7]]|[Hq ->]]; split; rewrite ?E1, ?E2, ?E3, ?E4, ?F1, ?F2, ?F5; try done.
    - intros y [Hy Hn]%elem_of_difference. split; [done|]. intros [-> _]. by apply Hn, elem_of_singleton.
    - intros y Hy Hn. apply F7; [done|]. intros [= ->]. by apply Hn.
    - intros r Hr Hn. apply Hpar; rewrite ?F3; auto.
    - intros o Ho. auto.
    - intros o Ho _. auto.
    - intros id r Hm. apply E5 in Hm. rewrite F4 in Hm. split; [done|tauto].
    - intros y Hy. split; [done|]. tauto.
    - intros r Hr Hn. apply Hpar; auto.
    - intros id r Hm. apply E5 in Hm. split; [done|tauto]. }
  assert (Hc : forall r, q = p -> r ∈ Parents d -> r ∈ Parents c) by (intros r ->; rewrite Hp in Hq0; by injection Hq0 as <-). specialize (Hd Hc). case_decide; cbn; by constructor.
Qed.
Lemma remove_from_inv o p m P : Inv m P -> Inv (remove_from o p m).1 P /\ Forall task_fine (remove_from o p m).2.
Proof.
  intros HI. unfold remove_from. destruct (heap m !! o) as [c|] eqn:Ho; [|by split]. destruct (heap m !! p) as [d|] eqn:Hp; [|by split]. destruct (Remove (c_ID d) (ConflictingConflicts c)) as [[b calls] s] eqn:E. split; [|apply fine_preferred]. cbn [fst].
  assert (Hs : forall id r, mem s id r -> id <> c_ID d /\ mem (ConflictingConflicts c) id r) by (intros id r Hm; apply (Remove_mem (c_ID d)); by rewrite E).
  apply (Detach_inv (fun _ _ => False) (fun q o' => b = true /\ q = p /\ o' = o) m); [|done]. split; [done|]. intros q. rewrite !upd_lookup. destruct (heap m !! q) as [x|] eqn:Hq; [|by repeat case_decide; constructor].
  set (x1 := if decide (q = o) then with_Conflicting s x else x).
  assert (Hx1 : c_ID x1 = c_ID x /\ c_state x1 = c_state x /\ Children x1 = Children x /\ hooks x1 = hooks x /\ Parents x1 = Parents x) by (unfold x1; destruct (decide (q = o)); split_and!; reflexivity). destruct Hx1 as (A1 & A2 & A3 & A4 & A5).
  assert (Hm1 : forall id r, mem (ConflictingConflicts x1) id r -> mem (ConflictingConflicts x) id r /\ ~ (b = true /\ r = p /\ q = o)).
  { unfold x1. intros id r. destruct (decide (q = o)) as [->|Hne]; [|intros; split; [done|tauto]]. cbn. rewrite Ho in Hq. injection Hq as <-. intros Hm. apply Hs in Hm as [Hid Hm]. split; [done|]. intros (_ & -> & _). destruct (iv_member _ _ HI o c id p Ho Hm) as (e & He & Hid' & _). rewrite Hp in He. injection He as <-. congruence. }
  assert (Hd : detach (fun _ _ => False) (fun q o' => b = true /\ q = p /\ o' = o) q x (if decide (q = p) then (if b then with_hooks (filter (fun h => h <> OfSet o) (hooks x1)) x1 else x1) else x1)).
  { destruct (decide (q = p)) as [->|Hne]; [destruct b|]; split; cbn; rewrite ?A1, ?A2, ?A3, ?A4, ?A5; try done; try exact A2; try (intros y Hy; rewrite ?list_elem_of_filter in *; split; [done|tauto]); try tauto.
    - by intros y [_ Hy]%list_elem_of_filter.
    - intros y Hy Hn. apply list_elem_of_filter. split; [|done]. intros [= ->]. tauto. }
  unfold x1 in Hd. repeat case_decide; cbn; constructor; exact Hd.
Qed.
Lemma evictPair_inv p q m P : Inv m P -> Inv (evictPair p q m).1 P /\ Forall task_fine (evictPair p q m).2.
Proof.
  intros HI. unfold evictPair. destruct (remove_from_inv q p m P HI) as [H1 H2]. destruct (remove_from_inv p q _ P H1) as [H3 H4]. unfold on. case_match; cbn; [|by split]. split; [done|]. apply Forall_app. split; [done|]. apply Forall_app. split; [done|]. case_match; by repeat constructor.
Qed.

(** ** Links that are added *)
Lemma advance_keep k new P P' j : Advance k new P P' -> P j -> j <> k -> P' j.
Proof. intros H Hj Hne. by destruct (ad_kept _ _ _ _ H j Hj). Qed.
Lemma lookup_both (R : ptr -> Conflict -> Conflict -> Prop) m m' : (forall q, option_Forall2 (R q) (heap m !! q) (heap m' !! q)) ->
  (forall q c', heap m' !! q = Some c' -> exists c, heap m !! q = Some c /\ R q c c') /\ (forall q c, heap m !! q = Some c -> exists c', heap m' !! q = Some c' /\ R q c c').
Proof. intros H. split; intros q c Hq; specialize (H q); rewrite Hq in H; inversion H; eauto. Qed.
Record joined (p o : ptr) (id : ConflictID) (q : ptr) (c c' : Conflict) : Prop := {
  jo_same : c_ID c' = c_ID c /\ c_state c' = c_state c /\ Parents c' = Parents c /\ Children c' = Children c;
  jo_hooks h : h ∈ hooks c' <-> h ∈ hooks c \/ (q = o /\ h = OfSet p);
  jo_mem i r : mem (ConflictingConflicts c') i r -> mem (ConflictingConflicts c) i r \/ (q = p /\ i = id /\ r = o);
}.
Lemma joined_inv p o d m m' P P' : heap m !! o = Some d -> nextPtr m' = nextPtr m -> (forall q, option_Forall2 (joined p o (c_ID d) q) (heap m !! q) (heap m' !! q)) ->
  (forall j, repairs j -> P j -> P' j) -> P' (RejectIfAccepted p o) -> tasks_ok P' -> Inv m P -> Inv m' P'.
Proof.
  intros Ho Hn HJ HP Hnew Ht [I1 I2 I3 I4 I5 I6]. destruct (lookup_both _ _ _ HJ) as [L L']. split; [|done|..].
  - intros q Hq. rewrite Hn in Hq. specialize (HJ q). rewrite (I1 q Hq) in HJ. by inversion HJ.
  - intros q c x Hq Hx. destruct (L q c Hq) as (c0 & Hq0 & [(J1 & J2 & J3 & J4) J5 _]). rewrite J4 in Hx. destruct (I3 q c0 x Hq0 Hx) as (H1 & e & H2 & H3). split; [apply J5; by left|]. destruct (L' x e H2) as (e' & He' & [(K1 & K2 & K3 & K4) _ _]). exists e'. by rewrite K3.
  - intros q c id r Hq Hm. destruct (L q c Hq) as (c0 & Hq0 & [_ _ J6]). destruct (J6 id r Hm) as [Hm0|(-> & -> & ->)].
    + destruct (I4 q c0 id r Hq0 Hm0) as (e & H1 & H2 & H3). destruct (L' r e H1) as (e' & He' & [(K1 & K2 & K3 & K4) K5 _]). exists e'. split_and!; [done|congruence|]. destruct H3; [by left|right; apply K5; by left].
    + destruct (L' o d Ho) as (e' & He' & [(K1 & K2 & K3 & K4) K5 _]). exists e'. split_and!; [done|done|right; apply K5; by right].
  - intros a c b e Ha Hb H1 H2 H3 H4. destruct (L a c Ha) as (c0 & Ha0 & [(J1 & J2 & J3 & J4) J5 _]). destruct (L b e Hb) as (e0 & Hb0 & [(K1 & K2 & K3 & K4) K5 _]). rewrite J2 in H3. rewrite K2 in H4.
    apply J5 in H1. apply K5 in H2. destruct H1 as [H1|[-> [= ->]]]; [|tauto]. destruct H2 as [H2|[-> [= ->]]]; [|tauto].
    destruct (I5 a c0 b e0 Ha0 Hb0 H1 H2 H3 H4) as [H|[H|[H|[H|[H|H]]]]]; apply HP in H; try exact I; tauto.
  - intros q c x e Hq Hx He Hs. destruct (L q c Hq) as (c0 & Hq0 & [(J1 & J2 & J3 & J4) J5 _]). destruct (L x e He) as (e0 & He0 & [(K1 & K2 & K3 & K4) K5 _]). rewrite J4 in Hx. rewrite J2 in Hs. rewrite K2.
    destruct (I6 q c0 x e0 Hq0 Hx He0 Hs) as [H|[H|[H|H]]]; [tauto|apply HP in H; [tauto|exact I]..].
Qed.
Lemma registerConflicting_inv p o m m' new P P' : Inv m P -> registerConflicting p o m = Some (m', new) -> Advance (RegisterConflicting p o) new P P' -> Inv m' P'.
Proof.
  intros HI Hr HA. assert (HP : forall j, repairs j -> P j -> P' j) by (intros j Hj Hp; apply (advance_keep _ _ _ _ _ HA Hp); by intros ->).
  unfold registerConflicting in Hr. destruct (heap m !! p) as [c|] eqn:Hp, (heap m !! o) as [d|] eqn:Ho; try (injection Hr as <- <-; apply (Calm_inv m m P); [done|done|eapply advance_ok; [done|exact (iv_task _ _ HI)|constructor]|done]).
  destruct (Add _ _ _ _ _) as [[[b calls] s]|] eqn:E; [|done]. cbn in Hr. destruct b; injection Hr as <- <-; [|apply (Calm_inv m m P); [done|done|eapply advance_ok; [done|exact (iv_task _ _ HI)|constructor]|done]].
  apply (joined_inv p o d m _ P); try done; [| |eapply advance_ok; [done|exact (iv_task _ _ HI)|]].
  - intros q. rewrite !upd_lookup. destruct (heap m !! q) as [x|] eqn:Hq; [|by repeat case_decide; constructor]. set (x1 := if decide (q = p) then with_Conflicting s x else x).
    assert (Hx1 : (c_ID x1 = c_ID x /\ c_state x1 = c_state x /\ Parents x1 = Parents x /\ Children x1 = Children x) /\ hooks x1 = hooks x) by (unfold x1; destruct (decide (q = p)); split_and!; reflexivity). destruct Hx1 as (A1 & A2).
    assert (Hj : joined p o (c_ID d) q x (if decide (q = o) then with_hooks (hooks x1 ++ [OfSet p]) x1 else x1)).
    { split; [by destruct (decide (q = o))|intros h; destruct (decide (q = o)); cbn; rewrite ?A2; set_solver|]. intros i r Hm.
      assert (Hm1 : mem (ConflictingConflicts x1) i r) by (by destruct (decide (q = o))). unfold x1 in Hm1. destruct (decide (q = p)) as [->|]; [|by left]. rewrite Hp in Hq. injection Hq as <-. destruct (Add_mem _ _ _ _ _ _ _ _ _ _ E Hm1) as [?|(_ & -> & ->)]; [by left|by right]. }
    unfold x1 in Hj. repeat case_decide; cbn; constructor; exact Hj.
  - apply (ad_new _ _ _ _ HA). set_solver.
  - apply Forall_app. split; [apply fine_preferred|by repeat constructor].
Qed.
Record adopted (p x q : ptr) (c c' : Conflict) : Prop := {
  ap_same : c_ID c' = c_ID c /\ c_state c' = c_state c /\ ConflictingConflicts c' = ConflictingConflicts c;
  ap_Parents r : r ∈ Parents c \/ (q = x /\ r = p) -> r ∈ Parents c';
  ap_Children y : y ∈ Children c' -> y ∈ Children c \/ (q = p /\ y = x /\ OfChild x ∈ hooks c');
  ap_hooks h : h ∈ hooks c -> h ∈ hooks c';
  ap_less o : OfSet o ∈ hooks c' -> OfSet o ∈ hooks c;
}.
Lemma adopted_inv p x m m' P P' : is_Some (heap m !! x) -> nextPtr m' = nextPtr m -> (forall q, option_Forall2 (adopted p x q) (heap m !! q) (heap m' !! q)) ->
  (forall j, repairs j -> P j -> P' j) -> (forall c c', heap m !! p = Some c -> heap m' !! p = Some c' -> x ∈ Children c' -> x ∉ Children c -> c_state c = Rejected -> P' (SetAcceptance x Rejected)) -> tasks_ok P' -> Inv m P -> Inv m' P'.
Proof.
  intros [dx Hx0] Hn HJ HP Hnew Ht [I1 I2 I3 I4 I5 I6]. destruct (lookup_both _ _ _ HJ) as [L L']. split; [|done|..].
  - intros q Hq. rewrite Hn in Hq. specialize (HJ q). rewrite (I1 q Hq) in HJ. by inversion HJ.
  - intros q c y Hq Hy. destruct (L q c Hq) as (c0 & Hq0 & [_ _ J3 J4 _]). destruct (J3 y Hy) as [Hy0|(-> & -> & Hh)].
    + destruct (I3 q c0 y Hq0 Hy0) as (H1 & e & H2 & H3). split; [auto|]. destruct (L' y e H2) as (e' & He' & [_ K2 _ _ _]). eauto.
    + split; [done|]. destruct (L' x dx Hx0) as (e' & He' & [_ K2 _ _ _]). exists e'. split; [done|]. apply K2. by right.
  - intros q c id r Hq Hm. destruct (L q c Hq) as (c0 & Hq0 & [(J1 & J2 & J3) _ _ _ _]). rewrite J3 in Hm. destruct (I4 q c0 id r Hq0 Hm) as (e & H1 & H2 & H3). destruct (L' r e H1) as (e' & He' & [(K1 & K2 & K3) _ _ K4 _]). exists e'. split_and!; [done|congruence|]. destruct H3; [by left|right; auto].
  - intros a c b e Ha Hb H1 H2 H3 H4. destruct (L a c Ha) as (c0 & Ha0 & [(J1 & J2 & J3) _ _ _ J5]). destruct (L b e Hb) as (e0 & Hb0 & [(K1 & K2 & K3) _ _ _ K5]). rewrite J2 in H3. rewrite K2 in H4. apply J5 in H1. apply K5 in H2.
    destruct (I5 a c0 b e0 Ha0 Hb0 H1 H2 H3 H4) as [H|[H|[H|[H|[H|H]]]]]; apply HP in H; try exact I; tauto.
  - intros q c y e Hq Hy He Hs. destruct (L q c Hq) as (c0 & Hq0 & [(J1 & J2 & J3) _ J4 _ _]). destruct (L y e He) as (e0 & He0 & [(K1 & K2 & K3) _ _ _ _]). rewrite J2 in Hs. rewrite K2. destruct (decide (y ∈ Children c0)) as [Hy0|Hy0].
    + destruct (I6 q c0 y e0 Hq0 Hy0 He0 Hs) as [H|[H|[H|H]]]; [tauto|apply HP in H; [tauto|exact I]..].
    + destruct (J4 y Hy) as [?|(-> & -> & _)]; [done|]. right. left. by eapply Hnew.
Qed.
Lemma addParent_inv x p m P P' : let a := addParent x p m in Inv m P -> Advance (AddParent x p) a.2 P P' -> Inv a.1 P'.
Proof.
  cbv zeta. intros HI. unfold addParent, on. destruct (heap m !! x) as [c|] eqn:Hx.
  2: { intros HA. apply (Calm_inv m m P); [done| |eapply advance_ok; [done|exact (iv_task _ _ HI)|constructor]|done]. intros j Hj Hp. apply (advance_keep _ _ _ _ _ HA Hp). by intros ->. }
  case_bool_decide as Hpar; [intros HA; apply (Calm_inv m m P); [done| |eapply advance_ok; [done|exact (iv_task _ _ HI)|constructor]|done]; intros j Hj Hp; apply (advance_keep _ _ _ _ _ HA Hp); by intros ->|].
  set (m1 := upd x _ m). intros HA. assert (HP : forall j, repairs j -> P j -> P' j) by (intros j Hj Hp; apply (advance_keep _ _ _ _ _ HA Hp); by intros ->).
  assert (H1 : forall q d, heap m1 !! q = Some d -> exists c0, heap m !! q = Some c0 /\ d = if decide (q = x) then with_Parents ({[p]} ∪ Parents c0) c0 else c0).
  { intros q d. unfold m1. rewrite upd_lookup. destruct (heap m !! q) as [c0|]; case_decide; cbn; intros [= <-]; eauto. }
  assert (Hnone : Forall task_fine (registerChild p x m1).2) by (unfold registerChild, on; repeat case_match; cbn; try constructor; apply Forall_app; (split; [by apply fine_map|by repeat constructor])).
  apply (adopted_inv p x m _ P P'); try done; [unfold registerChild, on; by repeat case_match| | |by eapply advance_ok; [|exact (iv_task _ _ HI)|]].
  - intros q. assert (Hq1 : heap m1 !! q = (fun c0 => if decide (q = x) then with_Parents ({[p]} ∪ Parents c0) c0 else c0) <$> heap m !! q) by (unfold m1; rewrite upd_lookup; destruct (heap m !! q); by case_decide).
    unfold registerChild, on. destruct (heap m1 !! p) as [cp|] eqn:Hp; [case_bool_decide|]; cbn [fst]; rewrite ?upd_lookup, Hq1; destruct (heap m !! q) as [c0|] eqn:Hq; cbn; repeat case_decide; cbn; constructor; split; cbn; try done; try set_solver.
  - intros c0 c' Hc0 Hc' Hin Hnin Hs. revert Hc' HA. unfold registerChild, on. assert (Hp1 : heap m1 !! p = Some (if decide (p = x) then with_Parents ({[p]} ∪ Parents c0) c0 else c0)) by (unfold m1; rewrite upd_lookup, Hc0; by case_decide).
    rewrite Hp1. set (c1 := if decide (p = x) then _ else c0). assert (Hc1 : Children c1 = Children c0 /\ c_state c1 = c_state c0) by (unfold c1; by destruct (decide (p = x))). destruct Hc1 as [E1 E2]. rewrite E1, bool_decide_eq_false_2 by done. rewrite E2, Hs. cbn [fst snd]. intros _ HA. apply (ad_new _ _ _ _ HA). cbn. set_solver.
Qed.

(** ** Acceptance *)
Lemma set_state s c : c_state (with_Weight (SetAcceptanceState s (c_Weight c)).2 c) = s.
Proof. unfold c_state, SetAcceptanceState, setAcceptanceState. cbn. destruct (decide (acceptanceState (value (c_Weight c)) = s)) eqn:E; cbn; done. Qed.
Lemma setAcceptance_inv p s m P P' : let a := setAcceptance p s m in Inv m P -> s <> Pending -> Advance (SetAcceptance p s) a.2 P P' -> Inv a.1 P'.
Proof.
  cbv zeta. intros [I1 I2 I3 I4 I5 I6] Hs. unfold setAcceptance, on. destruct (heap m !! p) as [c|] eqn:Hp.
  2: { cbn [fst snd]. intros HA. split; try done; [eapply advance_ok; [done|exact I2|constructor]| |].
       - intros a c b d Ha Hb H1 H2 H3 H4. destruct (I5 a c b d Ha Hb H1 H2 H3 H4) as [H|[H|[H|[H|[H|H]]]]]; apply (ad_kept _ _ _ _ HA) in H as [H|H]; simplify_eq; try tauto; congruence.
       - intros q c x d Hq Hx Hd Hst. destruct (I6 q c x d Hq Hx Hd Hst) as [H|[H|[H|H]]]; [tauto|apply (ad_kept _ _ _ _ HA) in H as [H|H]; simplify_eq; try tauto; congruence..]. }
  case_bool_decide as Hsame.
  - cbn [fst snd]. intros HA. split; try done; [eapply advance_ok; [done|exact I2|constructor]| |].
    + intros a e b d Ha Hb H1 H2 H3 H4. destruct (I5 a e b d Ha Hb H1 H2 H3 H4) as [H|[H|[H|[H|[H|H]]]]]; apply (ad_kept _ _ _ _ HA) in H as [H|H]; simplify_eq; try tauto; congruence.
    + intros q e x d Hq Hx Hd Hst. destruct (I6 q e x d Hq Hx Hd Hst) as [H|[H|[H|H]]]; [tauto|apply (ad_kept _ _ _ _ HA) in H as [H|H]; simplify_eq; try tauto; try congruence..]. left. congruence.
  - cbn [fst snd]. set (w := (SetAcceptanceState s (c_Weight c)).2). set (new := weight_tasks _ _ _ ++ _). intros HA. set (m' := upd p (with_Weight w) m).
    assert (L : forall q d, heap m' !! q = Some d -> exists d0, heap m !! q = Some d0 /\ d = if decide (q = p) then with_Weight w d0 else d0) by (intros q d; unfold m'; rewrite upd_lookup; destruct (heap m !! q); case_decide; cbn; intros [= <-]; eauto).
    assert (L' : forall q d, heap m !! q = Some d -> heap m' !! q = Some (if decide (q = p) then with_Weight w d else d)) by (intros q d Hq; unfold m'; rewrite upd_lookup, Hq; by case_decide).
    assert (Hst : forall q d, heap m' !! q = Some d -> exists d0, heap m !! q = Some d0 /\ hooks d = hooks d0 /\ Children d = Children d0 /\ (q <> p -> c_state d = c_state d0) /\ (q = p -> c_state d = s)).
    { intros q d Hq. destruct (L q d Hq) as (d0 & Hd0 & ->). exists d0. destruct (decide (q = p)) as [->|]; split_and!; try done. intros _. rewrite Hp in Hd0. injection Hd0 as <-. apply set_state. }
    assert (Hup : StateUpdated p s ∈ new) by (unfold new; set_solver). apply (ad_new _ _ _ _ HA) in Hup.
    assert (Hk : forall j, P j -> j <> SetAcceptance p s -> P' j) by (intros; by eapply advance_keep).
    split.
    + intros q Hq. unfold m'. rewrite upd_lookup, (I1 q Hq). by case_decide.
    + eapply advance_ok; [done|exact I2|]. unfold new. apply Forall_app. split; [apply fine_weight|]. apply Forall_app. split; [|by repeat constructor]. case_match; [by apply fine_map|constructor].
    + intros q d x Hq Hx. destruct (L q d Hq) as (d0 & Hd0 & Ed). assert (Hx0 : x ∈ Children d0) by (subst d; by destruct (decide (q = p))). destruct (I3 q d0 x Hd0 Hx0) as (H1 & e & H2 & H3). split; [subst d; by destruct (decide (q = p))|]. apply L' in H2. eexists. split; [exact H2|]. by destruct (decide (x = p)).
    + intros o d id q Ho Hm. destruct (L o d Ho) as (d0 & Hd0 & Ed). assert (Hm0 : mem (ConflictingConflicts d0) id q) by (subst d; by destruct (decide (o = p))). destruct (I4 o d0 id q Hd0 Hm0) as (e & H2 & H3). apply L' in H2. eexists. split; [exact H2|]. by destruct (decide (q = p)).
    + intros a d b e Ha Hb H1 H2 H3 H4. destruct (Hst a d Ha) as (d0 & Ha0 & Eh & _ & Es & Ep). destruct (Hst b e Hb) as (e0 & Hb0 & Eh' & _ & Es' & Ep'). rewrite Eh in H1. rewrite Eh' in H2.
      destruct (decide (a = p)) as [->|Hap]; [assert (s = Accepted) as -> by (rewrite <- H3; by rewrite Ep); tauto|]. destruct (decide (b = p)) as [->|Hbp]; [assert (s = Accepted) as -> by (rewrite <- H4; by rewrite Ep'); tauto|].
      rewrite Es in H3 by done. rewrite Es' in H4 by done. destruct (I5 a d0 b e0 Ha0 Hb0 H1 H2 H3 H4) as [H|[H|[H|[H|[H|H]]]]]; (apply Hk in H; [tauto|congruence]).
    + intros q d x e Hq Hx He Hr. destruct (Hst q d Hq) as (d0 & Hq0 & _ & Ec & Es & Ep). destruct (Hst x e He) as (e0 & Hx0 & _ & _ & Es' & Ep'). rewrite Ec in Hx.
      destruct (decide (q = p)) as [->|Hqp]; [assert (s = Rejected) as -> by (rewrite <- Hr; by rewrite Ep); tauto|]. rewrite Es in Hr by done. destruct (decide (x = p)) as [->|Hxp].
      * destruct s; [done| |left; by apply Ep']. right. right. right. apply (ad_new _ _ _ _ HA). unfold new. destruct (I3 q d0 p Hq0 Hx) as (_ & e1 & He1 & Hpar). rewrite Hp in He1. injection He1 as <-. cbn [IsAccepted]. set_unfold. right. left. exists q. set_solver.
      * rewrite Es' by done. destruct (I6 q d0 x e0 Hq0 Hx Hx0 Hr) as [H|[H|[H|H]]]; [tauto|apply Hk in H; [tauto|congruence]..].
Qed.
(** A task that repairs is done: its effect is on the agenda. *)
Lemma repaired_inv m m' k new P P' : Calm m m' -> Inv m P -> Advance k new P P' -> Forall task_fine new ->
  (forall p c q d, heap m !! p = Some c -> heap m !! q = Some d -> OfSet q ∈ hooks c -> OfSet p ∈ hooks d -> c_state c = Accepted -> c_state d = Accepted ->
     k = StateUpdated p Accepted \/ k = RejectIfAccepted q p -> SetAcceptance q Rejected ∈ new) ->
  (forall p c x, heap m !! p = Some c -> x ∈ Children c -> k = StateUpdated p Rejected -> SetAcceptance x Rejected ∈ new) ->
  (forall p s, k <> SetAcceptance p s) -> Inv m' P'.
Proof.
  intros Hc HI HA Hf H1 H2 H3. apply (Calm_inv m m' P' P'); [done|done|eapply advance_ok; [done|exact (iv_task _ _ HI)|done]|]. pose proof (ad_new _ _ _ _ HA) as Hn. destruct HI as [I1 I2 I3 I4 I5 I6]. split; [done|by eapply advance_ok|done|done|..].
  - intros p c q d Hp Hq Ho Ho' Hs Hs'. pose proof (H1 p c q d Hp Hq Ho Ho' Hs Hs') as N1. pose proof (H1 q d p c Hq Hp Ho' Ho Hs' Hs) as N2. clear H1 H2.
    destruct (I5 p c q d Hp Hq Ho Ho' Hs Hs') as [H|[H|[H|[H|[H|H]]]]]; apply (ad_kept _ _ _ _ HA) in H as [H|H]; try tauto; try (exfalso; by eapply H3; symmetry); subst k; [right; left|left|left|right; left]; apply Hn; auto.
  - intros p c x d Hp Hx Hd Hs. pose proof (H2 p c x Hp Hx) as N. destruct (I6 p c x d Hp Hx Hd Hs) as [H|[H|[H|H]]]; [tauto|apply (ad_kept _ _ _ _ HA) in H as [H|H]; try tauto; try (exfalso; by eapply H3; symmetry)..]. subst k. right. left. apply Hn. auto.
Qed.
Lemma stateUpdated_inv p s m P P' : let a := stateUpdated p s m in Inv m P -> Advance (StateUpdated p s) a.2 P P' -> Inv a.1 P'.
Proof.
  cbv zeta. intros HI HA. eapply (repaired_inv m _ (StateUpdated p s)); [|exact HI|exact HA|..].
  - unfold stateUpdated, on. destruct (heap m !! p); [|done]. cbn. repeat case_match; try done; by apply same_calm.
  - unfold stateUpdated, on. destruct (heap m !! p) as [c|]; [|constructor]. cbn [snd]. apply Forall_forall. intros k Hk. apply list_elem_of_omap in Hk as ([o|x] & _ & Hk); case_match; simplify_eq; [done|]. unfold IsRejected in *. case_bool_decide; by subst.
  - intros a c q d Ha Hq Ho Ho' Hs Hs' [[= <- ->]|H]; [|done]. unfold stateUpdated, on. rewrite Ha. cbn [snd]. apply list_elem_of_omap. exists (OfSet q). by split.
  - intros a c x Ha Hx [= <- ->]. unfold stateUpdated, on. rewrite Ha. cbn [snd]. apply list_elem_of_omap. exists (OfChild x). split; [|done]. by apply (iv_child _ _ HI p c x Ha).
  - done.
Qed.
Lemma rejectIfAccepted_inv p o m P P' : let a := rejectIfAccepted p o m in Inv m P -> Advance (RejectIfAccepted p o) a.2 P P' -> Inv a.1 P'.
Proof.
  cbv zeta. intros HI HA. eapply (repaired_inv m _ (RejectIfAccepted p o)); [|exact HI|exact HA|..]; try done.
  - unfold rejectIfAccepted, on. by destruct (heap m !! o).
  - unfold rejectIfAccepted, on. destruct (heap m !! o); [|constructor]. cbn. case_match; by repeat constructor.
  - intros a c q d Ha Hq Ho Ho' Hs Hs' [H|[= <- <-]]; [done|]. unfold rejectIfAccepted, on. rewrite Ha. cbn. rewrite Hs. apply list_elem_of_here.
Qed.
Lemma task_inv k m m' new P P' : Inv m P -> P k -> run_task k m = Some (m', new) -> Advance k new P P' -> Inv m' P'.
Proof.
  intros HI Hk Hr HA. destruct (quiet k) eqn:Hq.
  { destruct (quiet_task k m m' new Hq Hr) as [Hc Hf]. apply (Calm_inv m m' P); [done| |by eapply advance_ok; [|exact (iv_task _ _ HI)|]|done]. intros j Hj Hp. apply (advance_keep _ _ _ _ _ HA Hp). intros ->. by destruct k. }
  assert (Hstruct : forall a, run_task k m = Some a -> ~ repairs k -> Inv a.1 P /\ Forall task_fine a.2 -> Inv m' P').
  { intros a Ha Hn [H1 H2]. rewrite Hr in Ha. injection Ha as <-. apply (Calm_inv m' m' P); [done| |by eapply advance_ok; [|exact (iv_task _ _ HI)|]|done]. intros j Hj Hp. apply (advance_keep _ _ _ _ _ HA Hp). by intros ->. }
  destruct k; try discriminate Hq; cbn [run_task] in Hr.
  - injection Hr as Hr. pose proof (setAcceptance_inv p s m P P' HI (iv_task _ _ HI _ _ Hk)) as H. rewrite Hr in H. by apply H.
  - injection Hr as Hr. pose proof (stateUpdated_inv p s m P P' HI) as H. rewrite Hr in H. by apply H.
  - by eapply registerConflicting_inv.
  - injection Hr as Hr. pose proof (rejectIfAccepted_inv c o m P P' HI) as H. rewrite Hr in H. by apply H.
  - apply (Hstruct (removeParent c p m)); [done|tauto|]. destruct (removeParent_inv c p m P HI) as [H1 H2]. split; [done|]. rewrite H2. constructor.
  - injection Hr as Hr. pose proof (addParent_inv c p m P P' HI) as H. rewrite Hr in H. by apply H.
  - apply (Hstruct (evictLinks p m)); [done|tauto|]. by apply evictLinks_inv.
  - apply (Hstruct (evictPair p q m)); [done|tauto|]. by apply evictPair_inv.
Qed.

(** ** All operations, in any interleaving *)
Section Run.
Context {W : Type} `{!Walker ptr W}.
Inductive Op :=
| OpCreate (id : ConflictID) | OpResources (id : ConflictID) (r : gset ResourceID) | OpParents (id : ConflictID) (added removed : gset ConflictID)
| OpCastVotes (v : Vote) (ids : gset ConflictID) | OpSetAccepted (id : ConflictID) | OpEvict (id : ConflictID)
| OpFixPosition (o : ptr) (id : ConflictID) | OpFixPreferred (o : ptr) (id : ConflictID) | OpSeats (threshold : Z).
(** [None]: a panic. *)
Definition exec_op (o : Op) (m : DAG) : option act :=
  match o with
  | OpCreate id => Some (CreateConflict id m)
  | OpResources id r => Some (UpdateConflictingResources id r m).2
  | OpParents id a r => Some (UpdateConflictParents id a r m).2
  | OpCastVotes v ids => match CastVotes (W := W) v ids m with Ret r => Some r.2 | _ => None end
  | OpSetAccepted id => Some (SetAccepted id m)
  | OpEvict id => Some (EvictConflict id m)
  | OpFixPosition o id => Some (fixMemberPositionWorker o id m)
  | OpFixPreferred o id => fixHeaviestPreferredMemberWorker o id m
  | OpSeats t => Some (with_threshold t m, [])
  end.
Inductive step : act -> act -> Prop :=
| step_op o m K m' new : exec_op o m = Some (m', new) -> step (m, K) (m', new ++ K)
| step_task k K1 K2 m m' new : run_task k m = Some (m', new) -> step (m, K1 ++ k :: K2) (m', K1 ++ new ++ K2).
Definition empty_dag (t : Z) : DAG := mkDAG ∅ 1%positive ∅ ∅ ∅ t [] [].
Definition reachable (a : act) : Prop := exists t, rtc step (empty_dag t, []) a.

Lemma quiet_op m m' new P P' : Inv m P -> Quiet m (m', new) -> (forall j, P j -> P' j) -> (forall j, P' j -> P j \/ j ∈ new) -> Inv m' P'.
Proof.
  intros HI [Hc Hf] HP Hn. apply (Calm_inv m m' P); [done|auto| |done]. intros p s Hs. apply Hn in Hs as [Hs|Hs]; [by apply (iv_task _ _ HI p s)|]. cbn in Hf. rewrite Forall_forall in Hf. by apply Hf in Hs.
Qed.
Lemma createConflict_inv id m P : Inv m P -> Inv (CreateConflict id m).1 P.
Proof.
  intros HI. unfold CreateConflict. destruct (conflictsByID m !! id); [done|]. cbn [fst]. set (p := nextPtr m). set (c := NewConflict id p (threshold m)). destruct HI as [I1 I2 I3 I4 I5 I6]. assert (Hp : heap m !! p = None) by (apply I1; unfold p; lia).
  assert (L : forall q d, <[p := c]> (heap m) !! q = Some d -> (q = p /\ d = c) \/ (q <> p /\ heap m !! q = Some d)) by (intros q d; destruct (decide (q = p)) as [->|]; [rewrite lookup_insert_eq; intros [= <-]; by left|rewrite lookup_insert_ne by done; by right]).
  assert (L' : forall q d, heap m !! q = Some d -> <[p := c]> (heap m) !! q = Some d) by (intros q d Hq; rewrite lookup_insert_ne; [done|congruence]).
  split; cbn.
  - intros q Hq. rewrite lookup_insert_ne by (unfold p; lia). apply I1. lia.
  - done.
  - intros q d x Hq Hx. apply L in Hq as [[-> ->]|[_ Hq]]; [set_solver|]. destruct (I3 q d x Hq Hx) as (H1 & e & H2 & H3). eauto.
  - intros q d i r Hq Hm. apply L in Hq as [[-> ->]|[_ Hq]].
    + destruct Hm as [H1 H2]. cbn in H1. apply elem_of_singleton in H1 as ->. unfold member_conflict, c in H2. cbn in H2. rewrite lookup_singleton_eq in H2. injection H2 as <-. exists c. rewrite lookup_insert_eq. split_and!; [done|done|by left].
    + destruct (I4 q d i r Hq Hm) as (e & H1 & H2 & H3). eauto.
  - intros a d b e Ha Hb H1 H2 H3 H4. apply L in Ha as [[-> ->]|[_ Ha]]; [by apply not_elem_of_nil in H1|]. apply L in Hb as [[-> ->]|[_ Hb]]; [by apply not_elem_of_nil in H2|]. eauto.
  - intros q d x e Hq Hx He Hs. apply L in Hq as [[-> ->]|[_ Hq]]; [set_solver|]. apply L in He as [[-> ->]|[_ He]]; [|eauto]. destruct (I3 q d p Hq Hx) as (_ & e & He & _). congruence.
Qed.
Lemma operation_quiet o m m' new : exec_op o m = Some (m', new) -> (forall id, o <> OpCreate id) -> (forall id, o <> OpSetAccepted id) -> Quiet m (m', new).
Proof.
  intros Ho H1 H2. assert (Hsame : forall l, Forall task_fine l -> Some (m, l) = Some (m', new) -> Quiet m (m', new)) by (intros l Hl [= <- <-]; by split).
  destruct o as [id|id r|id a r|v ids|id|id|o id|o id|t]; cbn in Ho; try (exfalso; by eapply H1); try (exfalso; by eapply H2).
  - unfold UpdateConflictingResources in Ho. repeat case_match; cbn [fst snd] in Ho; try (by eapply Hsame; [|exact Ho]; constructor); injection Ho as <- <-; (split; [by apply same_calm|cbn [snd]]); [constructor|..]; (apply Forall_app; split; [by apply fine_map|by repeat constructor]).
  - unfold UpdateConflictParents in Ho. repeat case_match; cbn in Ho; try (by eapply Hsame; [|exact Ho]; constructor); (eapply Hsame; [|exact Ho]; apply Forall_app; split; [by apply fine_map|]; apply Forall_app; split; [by apply fine_map|by repeat constructor]).
  - unfold CastVotes in Ho. destruct (determineVotes ids m) as [r| |]; cbn in Ho; try done. destruct r as [[s r]|]; cbn in Ho; (eapply Hsame; [|exact Ho]); [|constructor]. apply Forall_app. split; by apply fine_map.
  - unfold EvictConflict in Ho. case_match; (eapply Hsame; [|exact Ho]); by repeat constructor.
  - injection Ho as Ho. rewrite <- Ho. unfold fixMemberPositionWorker. apply on_quiet. intros c Hc. case_match; [|by apply quiet_same]. apply quiet_upd; [|apply fine_preferred]. intros d Hd. rewrite Hc in Hd. injection Hd as <-. apply conflicting_calm. intros i q. by rewrite applyWeightUpdate_mem.
  - unfold fixHeaviestPreferredMemberWorker in Ho. destruct (heap m !! o) as [c|] eqn:Hc; [|by eapply Hsame; [|exact Ho]]. case_match; [|by eapply Hsame; [|exact Ho]]. destruct (applyPreferredInsteadUpdate _ _) as [r|] eqn:E; [|done]. injection Ho as <- <-. apply quiet_upd; [|apply fine_preferred].
    intros d Hd. rewrite Hc in Hd. injection Hd as <-. apply conflicting_calm. intros i q. by rewrite (applyPreferred_mem _ _ _ _ _ E).
  - injection Ho as <- <-. split; [by apply same_calm|constructor].
Qed.
Abbreviation on_agenda K := (fun k : Task => k ∈ (K : list Task)).
Lemma step_inv a b : step a b -> Inv a.1 (on_agenda a.2) -> Inv b.1 (on_agenda b.2).
Proof.
  intros H HI. inversion H as [o m K m' new Ho|k K1 K2 m m' new Hr]; subst; cbn [fst snd] in *.
  - assert (Hq : Quiet m (m', new) -> Inv m' (on_agenda (new ++ K))) by (intros Hq; eapply quiet_op; [exact HI|exact Hq|set_solver|set_solver]).
    destruct o as [id|id r|id x r|v ids|id|id|w id|w id|t] eqn:Eo; try (apply Hq; by eapply operation_quiet).
    + injection Ho as Ho. pose proof (createConflict_inv id m _ HI) as Hc. rewrite Ho in Hc. cbn in Hc. assert (new = []) as -> by (revert Ho; unfold CreateConflict; case_match; congruence). done.
    + injection Ho as Ho. unfold SetAccepted in Ho. destruct (conflictsByID m !! id) as [p|]; [|apply Hq; injection Ho as <- <-; by split].
      assert (HI' : Inv m (on_agenda (SetAcceptance p Accepted :: K))) by (eapply Calm_inv; [reflexivity| | |exact HI]; [set_solver|]; intros q s [[= -> ->]|Hs]%elem_of_cons; [done|by apply (iv_task _ _ HI q)]).
      pose proof (setAcceptance_inv p Accepted m _ (on_agenda (new ++ K)) HI') as Hs. rewrite Ho in Hs. apply Hs; [done|]. split; set_solver.
  - eapply (task_inv k); [exact HI|cbn; set_solver|exact Hr|]. split; set_solver.
Qed.
Lemma empty_inv t : Inv (empty_dag t) (on_agenda []).
Proof. split; cbn; set_solver. Qed.
Lemma dag_reachable_inv a : reachable a -> Inv a.1 (on_agenda a.2).
Proof. intros [t H]. remember (empty_dag t, []) as a0 eqn:E. assert (H0 : Inv a0.1 (on_agenda a0.2)) by (rewrite E; apply empty_inv). clear E. induction H as [|x y z Hs Hr IH]; [done|]. by apply IH, (step_inv x). Qed.
(** C1 In every state that operations, tasks in any interleaving and workers lead to and in which nothing is pending: two conflicts that are in each other's sets of conflicting conflicts are not both accepted; every child of a rejected conflict is
    rejected, and knows that conflict as a parent. *)
Theorem acceptance_consistent m : reachable (m, []) ->
  (forall p c q d, heap m !! p = Some c -> heap m !! q = Some d -> p <> q ->
     mem (ConflictingConflicts c) (c_ID d) q -> mem (ConflictingConflicts d) (c_ID c) p -> ~ (c_state c = Accepted /\ c_state d = Accepted)) /\
  (forall p c x, heap m !! p = Some c -> x ∈ Children c -> c_state c = Rejected -> exists d, heap m !! x = Some d /\ p ∈ Parents d /\ c_state d = Rejected).
Proof.
  intros Hr. apply dag_reachable_inv in Hr. cbn [fst snd] in Hr. destruct Hr as [I1 I2 I3 I4 I5 I6]. split.
  - intros p c q d Hp Hq Hne Hm1 Hm2 [H1 H2]. destruct (I4 p c _ q Hp Hm1) as (d' & Hd' & _ & [->|Ho]); [done|]. destruct (I4 q d _ p Hq Hm2) as (c' & Hc' & _ & [->|Ho']); [done|]. simplify_eq. destruct (I5 p c q d Hp Hq Ho' Ho H1 H2) as [H|[H|[H|[H|[H|H]]]]]; by apply not_elem_of_nil in H.
  - intros p c x Hp Hx Hs. destruct (I3 p c x Hp Hx) as (_ & d & Hd & Hpar). exists d. split_and!; [done|done|]. destruct (I6 p c x d Hp Hx Hd Hs) as [H|[H|[H|H]]]; [done|by apply not_elem_of_nil in H..].
Qed.
End Run.

(** ** Witnesses *)
Module DagDemo.
(** Three conflicts: 10 and 20 spend resource 1, 30 depends on 10. *)
Fixpoint run_all (n : nat) (a : act) : option DAG :=
  match n, a.2 with
  | _, [] => Some a.1
  | S n, k :: K => r ← run_task k a.1; run_all n (r.1, r.2 ++ K)
  | O, _ :: _ => None
  end.
Definition run_ops (n : nat) (l : list Op) (m : DAG) : option DAG := foldl (fun m o => m ← m; a ← exec_op (W := fifo ptr) o m; run_all n a) (Some m) l.
Definition setup : list Op := [OpCreate 10; OpCreate 20; OpResources 10 {[1]}; OpResources 20 {[1]}; OpCreate 30; OpParents 30 {[10]} ∅].
Definition seat_votes (ids : gset ConflictID) (l : list SeatIndex) : list Op := (fun s => OpCastVotes (mkVote s 1 true) ids) <$> l.
Definition states (m : DAG) : list (ConflictID * State) := omap (fun id => p ← conflictsByID m !! id; c ← heap m !! p; Some (id, c_state c)) [10; 20; 30].
Lemma run_all_steps n a m : run_all n a = Some m -> rtc (step (W := fifo ptr)) a (m, []).
Proof.
  revert a. induction n as [|n IH]; intros [m0 [|k K]]; cbn; try (intros [= <-]; apply rtc_refl). destruct (run_task k m0) as [[m1 new]|] eqn:E; cbn; [|done]. intros H. eapply rtc_l; [|by apply IH]. by apply (step_task k [] K).
Qed.
Lemma run_ops_steps n l m m' : run_ops n l m = Some m' -> rtc (step (W := fifo ptr)) (m, []) (m', []).
Proof.
  unfold run_ops. revert m. induction l as [|o l IH]; intros m; cbn; [intros [= <-]; apply rtc_refl|]. assert (Hn : forall l, foldl (fun m o => m ← m; a ← exec_op (W := fifo ptr) o m; run_all n a) None l = None) by (by induction l0).
  destruct (exec_op o m) as [[m1 K]|] eqn:E; cbn; [|by rewrite Hn]. destruct (run_all n (m1, K)) as [m2|] eqn:E2; [|by rewrite Hn]. intros H. eapply rtc_l; [by eapply (step_op o m [] m1 K)|]. rewrite app_nil_r. etransitivity; [by eapply run_all_steps|by apply IH].
Qed.
(** Enough seats for 20: the conflict in conflict is rejected, and with it what depends on it. *)
Definition final : DAG := default (empty_dag 2) (run_ops 100 (setup ++ seat_votes {[20]} [0; 1; 2]) (empty_dag 2)).
Lemma final_states : states final = [(10, Rejected); (20, Accepted); (30, Rejected)].
Proof. vm_compute. reflexivity. Qed.
Lemma acceptance_consistent_witness : reachable (W := fifo ptr) (final, []) /\ states final = [(10, Rejected); (20, Accepted); (30, Rejected)]
  /\ forall p c x, heap final !! p = Some c -> x ∈ Children c -> c_state c = Rejected -> exists d, heap final !! x = Some d /\ p ∈ Parents d /\ c_state d = Rejected.
Proof.
  assert (H : reachable (W := fifo ptr) (final, [])) by (exists 2; apply (run_ops_steps 100 (setup ++ seat_votes {[20]} [0; 1; 2])); unfold final; destruct (run_ops _ _ _) as [m|] eqn:E; [done|exfalso; revert E; vm_compute; discriminate]).
  split; [exact H|]. split; [vm_compute; reflexivity|]. exact (proj2 (acceptance_consistent final H)).
Defined.
(** The links of a concrete DAG. *)
Definition linkedb (m : DAG) : bool :=
  forallb (fun e => bool_decide (e.2 ∈ dom (heap m))) (map_to_list (conflictsByID m)) &&
  forallb (fun p => forallb (fun q => bool_decide (q ∈ dom (heap m))) (parents_of m p)
    && forallb (fun q => bool_decide (q ∈ dom (heap m) /\ p ∈ parents_of m q)) (children_of m p)
    && forallb (fun q => bool_decide (q ∈ dom (heap m) /\ p ∈ conflicting_of m q)) (conflicting_of m p)) (elements (dom (heap m))).
Lemma linkedb_sound m : linkedb m = true -> Linked m.
Proof.
  unfold linkedb. rewrite andb_true_iff, !forallb_forall. intros [H1 H2].
  assert (H3 : forall p, p ∈ dom (heap m) -> (forall q, q ∈ parents_of m p -> q ∈ dom (heap m)) /\ (forall q, q ∈ children_of m p -> q ∈ dom (heap m) /\ p ∈ parents_of m q) /\ (forall q, q ∈ conflicting_of m p -> q ∈ dom (heap m) /\ p ∈ conflicting_of m q)).
  { intros p Hp. specialize (H2 p). rewrite <- list_elem_of_In, elem_of_elements, !andb_true_iff, !forallb_forall in H2. destruct (H2 Hp) as [[A B] C]. split_and!; intros q Hq; [specialize (A q)|specialize (B q)|specialize (C q)]; by (eapply bool_decide_eq_true_1, A || eapply bool_decide_eq_true_1, B || eapply bool_decide_eq_true_1, C); apply list_elem_of_In. }
  assert (H4 : forall p q, q ∈ parents_of m p \/ q ∈ children_of m p \/ q ∈ conflicting_of m p -> p ∈ dom (heap m)).
  { intros p q Hq. apply elem_of_dom. unfold parents_of, children_of, conflicting_of in Hq. destruct (heap m !! p); [eauto|]. destruct Hq as [Hq|[Hq|Hq]]; by apply not_elem_of_nil in Hq. }
  split.
  - intros id p Hid. specialize (H1 (id, p)). apply bool_decide_eq_true_1 in H1; [done|]. by apply list_elem_of_In, elem_of_map_to_list.
  - intros p q Hq. destruct (H3 p) as (A & B & C); eauto.
  - intros p q Hq. destruct (H3 p) as (A & B & C); eauto.
  - intros p q Hq. destruct (H3 p) as (A & B & C); eauto.
Qed.
Definition dag : DAG := default (empty_dag 2) (run_ops 100 setup (empty_dag 2)).
(** A vote for 30 supports 30 and 10 and revokes 20. *)
Lemma determineVotes_correct_witness : Linked dag /\ determineVotes (W := fifo ptr) {[30]} dag = Ret (Some ({[1%positive; 3%positive]}, {[2%positive]})) /\ (forall p, ancestor dag {[30]} p <-> p ∈ ({[1%positive; 3%positive]} : gset ptr)).
Proof.
  assert (H : Linked dag) by (apply linkedb_sound; vm_compute; reflexivity). assert (E : determineVotes (W := fifo ptr) {[30]} dag = Ret (Some ({[1%positive; 3%positive]}, {[2%positive]}))) by (vm_compute; reflexivity). split; [exact H|]. split; [exact E|].
  destruct (determineVotes_correct (W := fifo ptr) dag H {[30]}) as (r & Hr & Hv). rewrite E in Hr. injection Hr as <-. intros p. symmetry. apply Hv.
Defined.
(** A vote for both sides is an error. *)
Lemma vote_for_both : determineVotes (W := fifo ptr) {[20; 30]} dag = Ret None.
Proof. vm_compute. reflexivity. Qed.
End DagDemo.
