(* ===== verification/Ledger.v ===== *)
(** * The ledger (pkg/protocol/engine/ledger/ledger)

    The ledger ties the mempool, the UTXO ledger, the accounts ledger, the mana manager and the reference mana cost together.  When a slot is committed, it turns the state diff of the mempool into
    the outputs and spents of the UTXO ledger and into the diffs of the accounts: allotments and delegations change credits and stakes, account outputs that are created or consumed change the
    data of their account.  It also resolves the inputs of transactions and prepares the execution of them.

    Outputs are the part of them the ledger looks at.  Hashes that give IDs, the virtual machine, rewards and the stores of the other components are parameters; the accounts ledger is the one of AccountsLedger. *)
From S2P Require Import Prelude Block Accounts AccountsLedger.

Abbreviation TransactionID := Z.
Abbreviation DelegationID := Z.
Definition MaxSlotIndex : SlotIndex := 2 ^ 32 - 1.

Record BlockIssuerFeature := mkBlockIssuer { bi_ExpirySlot : SlotIndex; bi_Keys : gset BlockIssuerKey }.
Record StakingFeature := mkStaking { StakedAmount : Z; st_FixedCost : Z; StartEpoch : Z; EndEpoch : Z }.
Inductive IotaOutput :=
| AccountOut (id : AccountID) (blockIssuer : option BlockIssuerFeature) (staking : option StakingFeature)
| DelegationOut (id : DelegationID) (amount : Z) (validator : AccountID) (start finish : Z)
| BasicOut (implicitAccount : option Z)                     (* the hash of the key of an address that creates an account *)
| OtherOut.
Record Output := mkOutput { OutputID_ : OutputID; out_BlockID : Z; SlotBooked : SlotIndex; out : IotaOutput }.
Definition CopyWithBlockIDAndSlotBooked (b : Z) (slot : SlotIndex) (o : Output) : Output := mkOutput (OutputID_ o) b slot (out o).
Definition BlockIssuer (o : IotaOutput) : option BlockIssuerFeature := match o with AccountOut _ f _ => f | _ => None end.
Definition Staking (o : IotaOutput) : option StakingFeature := match o with AccountOut _ _ f => f | _ => None end.
(** States of the mempool: outputs and others, which an executed transaction never creates or consumes. *)
Inductive LState := OutputState (o : Output) | OtherState.
Record Spent := mkSpent { sp_output : Output; sp_transaction : TransactionID; sp_slot : SlotIndex }.
Record Transaction := mkTransaction {
  tx_ID : TransactionID;
  tx_typed : bool;                                          (* it is an iotago.Transaction *)
  tx_Inputs : option (list OutputID);
  tx_Outputs : list LState;
  tx_Allotments : list (AccountID * Z);
  tx_EarliestIncludedAttachment : Z;
}.
(** The maps and sets of a state diff in the order they are visited. *)
Record LDiff := mkLDiff { ld_Slot : SlotIndex; ExecutedTransactions : list Transaction; CreatedStates : list LState; DestroyedStates : list LState }.

Class LedgerHashes := {
  AccountIDFromOutputID : OutputID -> AccountID;
  DelegationIDFromOutputID : OutputID -> DelegationID;
  TransactionIDOf : OutputID -> TransactionID;
}.
Abbreviation ADiffs := (gmap AccountID AccountDiff).
Definition getAccountDiff (diffs : ADiffs) (id : AccountID) : AccountDiff := default NewAccountDiff (diffs !! id).
Definition change_diff (id : AccountID) (f : AccountDiff -> AccountDiff) (diffs : ADiffs) : ADiffs := <[id := f (getAccountDiff diffs id)]> diffs.

Section Ledger.
Context `{!SafeMath} `{!RangeOrder AccountID} `{!RangeOrder BlockID} `{!LedgerHashes} (env : AEnv).
(** The mempool: the state of an output, and the earliest included attachment (its ID and its slot) of a transaction. *)
Context (stateMetadata : OutputID -> option LState) (earliestAttachment : TransactionID -> option (Z * SlotIndex)).

(** ** Transactions of a slot *)
Definition outputFromState (s : LState) : outcome Output :=
  match s with
  | OutputState o => Ret (if SlotBooked o =? 0 then match earliestAttachment (TransactionIDOf (OutputID_ o)) with Some (b, slot) => CopyWithBlockIDAndSlotBooked b slot o | None => o end else o)
  | OtherState => Panic
  end.
(** The loops return false when the visit of the transactions ends with an error. *)
Fixpoint spend_inputs (slot : SlotIndex) (tx : TransactionID) (inputs : list OutputID) (spents : list Spent) : outcome (bool * list Spent) :=
  match inputs with
  | [] => Ret (true, spents)
  | i :: inputs => match stateMetadata i with
      | None => Ret (false, spents)
      | Some s => o ← outputFromState s; spend_inputs slot tx inputs (spents ++ [mkSpent o tx slot])
      end
  end.
Fixpoint create_outputs (slot : SlotIndex) (attachment : Z) (states : list LState) (outputs : list Output) : bool * list Output :=
  match states with
  | [] => (true, outputs)
  | OutputState o :: states => create_outputs slot attachment states (outputs ++ [CopyWithBlockIDAndSlotBooked attachment slot o])
  | OtherState :: _ => (false, outputs)
  end.
(** The diff of an account that does not exist is created and left as it is. *)
Definition allot (slot : SlotIndex) (m : Manager) (diffs : ADiffs) (allotment : AccountID * Z) : outcome ADiffs :=
  let '(id, value) := allotment in
  let diffs := change_diff id (fun d => d) diffs in
  match account env id (u32 (slot - 1)) m with
  | None => Panic
  | Some None => Ret diffs
  | Some (Some a) => Ret (change_diff id (fun d => mkAccountDiff (i64 (BICChange d + i64 value)) (UpdateTime (Credits a)) (ExpirySlot a) (ExpirySlot a) (AccOutputID a) (AccOutputID a)
      (BlockIssuerKeysAdded d) (BlockIssuerKeysRemoved d) (ValidatorStakeChange d) (DelegationStakeChange d) (StakeEndEpochChange d) (FixedCostChange d) (PrevLatestSupportedVersionAndHash d) (NewLatestSupportedVersionAndHash d)) diffs)
  end.
Fixpoint allot_all (slot : SlotIndex) (m : Manager) (l : list (AccountID * Z)) (diffs : ADiffs) : outcome ADiffs :=
  match l with [] => Ret diffs | x :: l => diffs ← allot slot m diffs x; allot_all slot m l diffs end.
Definition process_transaction (slot : SlotIndex) (m : Manager) (t : Transaction) (acc : list Spent * list Output * ADiffs) : outcome (bool * (list Spent * list Output * ADiffs)) :=
  let '(spents, outputs, diffs) := acc in
  if negb (tx_typed t) then Ret (false, acc)
  else match tx_Inputs t with
  | None => Ret (false, acc)
  | Some inputs =>
      '(ok, spents) ← spend_inputs slot (tx_ID t) inputs spents;
      if negb ok then Ret (false, (spents, outputs, diffs))
      else let '(ok, outputs) := create_outputs slot (tx_EarliestIncludedAttachment t) (tx_Outputs t) outputs in
        if negb ok then Ret (false, (spents, outputs, diffs))
        else diffs ← allot_all slot m (tx_Allotments t) diffs; Ret (true, (spents, outputs, diffs))
  end.
Fixpoint process_transactions (slot : SlotIndex) (m : Manager) (l : list Transaction) (acc : list Spent * list Output * ADiffs) : outcome (list Spent * list Output * ADiffs) :=
  match l with
  | [] => Ret acc
  | t :: l => '(ok, acc) ← process_transaction slot m t acc; if ok : bool then process_transactions slot m l acc else Ret acc
  end.
(** The error is not returned. *)
Definition processStateDiffTransactions (sd : LDiff) (m : Manager) : outcome (list Spent * list Output * ADiffs) := process_transactions (ld_Slot sd) m (ExecutedTransactions sd) ([], [], ∅).

(** ** Accounts created and consumed *)
Record Collected := mkCollected { createdAccounts : gmap AccountID Output; consumedAccounts : gmap AccountID Output; destroyedAccounts : gset AccountID; newAccountDelegation : gmap DelegationID (AccountID * Z); AccountCreated : list AccountID }.
Definition with_created id o k := mkCollected (<[id := o]> (createdAccounts k)) (consumedAccounts k) (destroyedAccounts k) (newAccountDelegation k) (AccountCreated k).
Definition trigger_created id k := mkCollected (createdAccounts k) (consumedAccounts k) (destroyedAccounts k) (newAccountDelegation k) (AccountCreated k ++ [id]).
Definition with_consumed id o k := mkCollected (createdAccounts k) (<[id := o]> (consumedAccounts k)) (destroyedAccounts k) (newAccountDelegation k) (AccountCreated k).
Definition with_destroyed id k := mkCollected (createdAccounts k) (consumedAccounts k) ({[id]} ∪ destroyedAccounts k) (newAccountDelegation k) (AccountCreated k).
Definition with_delegations v k := mkCollected (createdAccounts k) (consumedAccounts k) (destroyedAccounts k) v (AccountCreated k).
(** The zero ID marks an output that is new. *)
Definition account_of (o : Output) (id : AccountID) : AccountID := if id =? 0 then AccountIDFromOutputID (OutputID_ o) else id.
Definition collect_created (k : Collected) (s : LState) : option Collected :=
  match s with
  | OtherState => None
  | OutputState o => Some (match out o with
      | AccountOut id f st => if is_none f && is_none st then k
          else with_created (account_of o id) o (if id =? 0 then trigger_created (account_of o id) k else k)
      | DelegationOut id amount validator _ _ => if id =? 0 then with_delegations (<[DelegationIDFromOutputID (OutputID_ o) := (validator, amount)]> (newAccountDelegation k)) k else k
      | BasicOut (Some _) => with_created (AccountIDFromOutputID (OutputID_ o)) o (trigger_created (AccountIDFromOutputID (OutputID_ o)) k)
      | _ => k
      end)
  end.
Definition change_stake (delta : Z -> Z) (d : AccountDiff) : AccountDiff :=
  mkAccountDiff (BICChange d) (PreviousUpdatedTime d) (NewExpirySlot d) (PreviousExpirySlot d) (NewOutputID d) (PreviousOutputID d) (BlockIssuerKeysAdded d) (BlockIssuerKeysRemoved d)
    (ValidatorStakeChange d) (i64 (delta (DelegationStakeChange d))) (StakeEndEpochChange d) (FixedCostChange d) (PrevLatestSupportedVersionAndHash d) (NewLatestSupportedVersionAndHash d).
(** Consumed outputs; the ID of an account output that was never transitioned is not replaced by the one its output gives. *)
Definition collect_consumed (acc : Collected * ADiffs) (s : LState) : option (Collected * ADiffs) :=
  let '(k, diffs) := acc in
  match s with
  | OtherState => None
  | OutputState o => Some (match out o with
      | AccountOut id f st => if is_none f && is_none st then acc
          else let k := with_consumed id o k in (if is_none (createdAccounts k !! id) then with_destroyed id k else k, diffs)
      | DelegationOut id amount validator _ _ =>
          let did := if id =? 0 then DelegationIDFromOutputID (OutputID_ o) else id in
          if negb (is_none (newAccountDelegation k !! did)) then (with_delegations (delete did (newAccountDelegation k)) k, diffs)
          else if id =? 0 then (k, change_diff validator (change_stake (fun x => x - i64 amount)) diffs) else acc
      | BasicOut (Some _) => (with_consumed (AccountIDFromOutputID (OutputID_ o)) o k, diffs)
      | _ => acc
      end)
  end.
Fixpoint fold_error {A B} (f : A -> B -> option A) (l : list B) (a : A) : option A := match l with [] => Some a | x :: l => a ← f a x; fold_error f l a end.
Definition add_delegation (diffs : ADiffs) (e : DelegationID * (AccountID * Z)) : ADiffs := change_diff e.2.1 (change_stake (fun x => x + i64 e.2.2)) diffs.
Definition processCreatedAndConsumedAccountOutputs (sd : LDiff) (diffs : ADiffs) : option (Collected * ADiffs) :=
  k ← fold_error collect_created (CreatedStates sd) (mkCollected ∅ ∅ ∅ ∅ []);
  '(k, diffs) ← fold_error collect_consumed (DestroyedStates sd) (k, diffs);
  Some (k, foldl add_delegation diffs (range_of (newAccountDelegation k))).

(** ** The diffs of the accounts *)
Definition transition_diff (a : AccountData) (consumed created : Output) (d : AccountDiff) : option AccountDiff :=
  previousExpiry ← match out consumed with AccountOut _ f _ => bi_ExpirySlot <$> f | BasicOut _ => Some MaxSlotIndex | _ => Some (PreviousExpirySlot d) end;
  issuer ← BlockIssuer (out created);
  let '(stake, endEpoch, cost) := match Staking (out created) with
    | Some st => (i64 (i64 (StakedAmount st) - i64 (ValidatorStake a)), i64 (EndEpoch st - StakeEndEpoch a), i64 (i64 (st_FixedCost st) - i64 (FixedCost a)))
    | None => match Staking (out consumed) with
        | Some _ => (i64 (- i64 (ValidatorStake a)), i64 (- StakeEndEpoch a), i64 (- i64 (FixedCost a)))
        | None => (ValidatorStakeChange d, StakeEndEpochChange d, FixedCostChange d)
        end
    end in
  Some (mkAccountDiff (BICChange d) (PreviousUpdatedTime d) (bi_ExpirySlot issuer) previousExpiry (OutputID_ created) (OutputID_ consumed)
    (bi_Keys issuer ∖ BlockIssuerKeys a) (BlockIssuerKeys a ∖ bi_Keys issuer) stake (DelegationStakeChange d) endEpoch cost (PrevLatestSupportedVersionAndHash d) (NewLatestSupportedVersionAndHash d)).
Definition creation_diff (created : Output) (d : AccountDiff) : option AccountDiff :=
  match out created with
  | AccountOut _ f st =>
      issuer ← f;
      let '(stake, endEpoch, cost) := match st with Some st => (i64 (StakedAmount st), EndEpoch st, i64 (st_FixedCost st)) | None => (ValidatorStakeChange d, StakeEndEpochChange d, FixedCostChange d) end in
      Some (mkAccountDiff (BICChange d) (PreviousUpdatedTime d) (bi_ExpirySlot issuer) 0 (OutputID_ created) EmptyOutputID (bi_Keys issuer) (BlockIssuerKeysRemoved d) stake (DelegationStakeChange d) endEpoch cost (PrevLatestSupportedVersionAndHash d) (NewLatestSupportedVersionAndHash d))
  | BasicOut (Some hash) =>
      Some (mkAccountDiff (BICChange d) (PreviousUpdatedTime d) MaxSlotIndex 0 (OutputID_ created) EmptyOutputID {[Ed25519PublicKeyHashBlockIssuerKey hash]} (BlockIssuerKeysRemoved d) (ValidatorStakeChange d) (DelegationStakeChange d) (StakeEndEpochChange d) (FixedCostChange d) (PrevLatestSupportedVersionAndHash d) (NewLatestSupportedVersionAndHash d))
  | _ => Some (mkAccountDiff (BICChange d) (PreviousUpdatedTime d) (NewExpirySlot d) 0 (OutputID_ created) EmptyOutputID (BlockIssuerKeysAdded d) (BlockIssuerKeysRemoved d) (ValidatorStakeChange d) (DelegationStakeChange d) (StakeEndEpochChange d) (FixedCostChange d) (PrevLatestSupportedVersionAndHash d) (NewLatestSupportedVersionAndHash d))
  end.
(** Features that are missing are nil pointers. *)
Definition prepare_consumed (slot : SlotIndex) (m : Manager) (created : gmap AccountID Output) (diffs : ADiffs) (e : AccountID * Output) : outcome ADiffs :=
  let '(id, consumed) := e in
  let diffs := change_diff id (fun d => d) diffs in
  found ← deref (account env id (u32 (slot - 1)) m);
  a ← deref found;
  match created !! id with
  | None => Ret diffs
  | Some o => d ← deref (transition_diff a consumed o (getAccountDiff diffs id)); Ret (<[id := d]> diffs)
  end.
Definition prepare_created (consumed : gmap AccountID Output) (diffs : ADiffs) (e : AccountID * Output) : outcome ADiffs :=
  let '(id, o) := e in
  if negb (is_none (consumed !! id)) then Ret diffs
  else d ← deref (creation_diff o (getAccountDiff diffs id)); Ret (<[id := d]> diffs).
Fixpoint fold_outcome {A B} (f : A -> B -> outcome A) (l : list B) (a : A) : outcome A := match l with [] => Ret a | x :: l => a ← f a x; fold_outcome f l a end.
Definition prepareAccountDiffs (diffs : ADiffs) (slot : SlotIndex) (consumed created : gmap AccountID Output) (m : Manager) : outcome ADiffs :=
  diffs ← fold_outcome (prepare_consumed slot m created) (range_of consumed) diffs;
  fold_outcome (prepare_created consumed) (range_of created) diffs.
End Ledger.

(** ** Interfaces of the other stores *)
Class UtxoStore (U : Type) := {
  ReadLedgerSlot : U -> option SlotIndex;
  utxo_ApplyDiff : SlotIndex -> list Output -> list Spent -> U -> option U;
  StateTreeRoot : U -> Z;
  IsOutputIDUnspent : OutputID -> U -> option bool;
  ReadOutputByOutputID : OutputID -> U -> option Output;
  ReadSpentForOutputID : OutputID -> U -> option Spent;
}.
Record LedgerEvent := mkStateDiffApplied { ev_slot : SlotIndex; ev_outputs : list Output; ev_spents : list Spent }.
Record Ledger (U M : Type) := mkLedger { utxoLedger : U; accountsLedger : Manager; manaManager : M; committedTransactions : list TransactionID; l_AccountCreated : list AccountID; StateDiffApplied : list LedgerEvent }.
Arguments mkLedger {U M} _ _ _ _ _ _.
Arguments utxoLedger {U M} _.
Arguments accountsLedger {U M} _.
Arguments manaManager {U M} _.
Arguments committedTransactions {U M} _.
Arguments l_AccountCreated {U M} _.
Arguments StateDiffApplied {U M} _.
Section Commit.
Context `{!SafeMath} `{!RangeOrder AccountID} `{!RangeOrder BlockID} `{!LedgerHashes} {U M : Type} `{!UtxoStore U} (env : AEnv).
Context (stateMetadata : OutputID -> option LState) (earliestAttachment : TransactionID -> option (Z * SlotIndex)).
(** The diff of a slot and its root from the mempool, the reference mana cost, the mana manager, the root of the accounts. *)
Context (StateDiff : SlotIndex -> option LDiff) (MutationsRoot : LDiff -> Z) (RMC : SlotIndex -> option Z) (AccountsTreeRoot : Manager -> Z).
Context (mana_ApplyDiff : SlotIndex -> gset AccountID -> gmap AccountID Output -> ADiffs -> M -> option M).
Definition with_utxo u (l : Ledger U M) : Ledger U M := mkLedger u (accountsLedger l) (manaManager l) (committedTransactions l) (l_AccountCreated l) (StateDiffApplied l).
Definition with_accounts a (l : Ledger U M) : Ledger U M := mkLedger (utxoLedger l) a (manaManager l) (committedTransactions l) (l_AccountCreated l) (StateDiffApplied l).
Definition with_mana v (l : Ledger U M) : Ledger U M := mkLedger (utxoLedger l) (accountsLedger l) v (committedTransactions l) (l_AccountCreated l) (StateDiffApplied l).
Definition with_events c (l : Ledger U M) : Ledger U M := mkLedger (utxoLedger l) (accountsLedger l) (manaManager l) (committedTransactions l) (l_AccountCreated l ++ c) (StateDiffApplied l).
Definition finish_commit (slot : SlotIndex) (txs : list TransactionID) (os : list Output) (ss : list Spent) (l : Ledger U M) : Ledger U M :=
  mkLedger (utxoLedger l) (accountsLedger l) (manaManager l) (committedTransactions l ++ txs) (l_AccountCreated l) (StateDiffApplied l ++ [mkStateDiffApplied slot os ss]).
(** A gap in the ledger state is a panic, as is what the helpers panic on. *)
Definition CommitSlot (slot : SlotIndex) : eprog (Ledger U M) (Z * Z * Z) :=
  ledgerIndex ← eread (fun l => ReadLedgerSlot (utxoLedger l));
  ledgerIndex ← etry ledgerIndex;
  if decide (slot <> u32 (ledgerIndex + 1)) then elift Panic
  else
    sd ← etry (StateDiff slot);
    r ← eread (fun l => processStateDiffTransactions env stateMetadata earliestAttachment sd (accountsLedger l));
    '(spends, outputs, diffs) ← elift r;
    '(k, diffs) ← etry (processCreatedAndConsumedAccountOutputs sd diffs);
    _ ← eupdate (with_events (AccountCreated k));
    r ← eread (fun l => prepareAccountDiffs env diffs slot (consumedAccounts k) (createdAccounts k) (accountsLedger l));
    diffs ← elift r;
    u ← eread (fun l => utxo_ApplyDiff slot outputs spends (utxoLedger l));
    u ← etry u;
    _ ← eupdate (with_utxo u);
    let rmcIndex := if slot <? MaxCommittableAge env slot then 0 else slot - MaxCommittableAge env slot in
    rmcForSlot ← etry (RMC rmcIndex);
    diffs ← (fun l => match ApplyDiff env slot rmcForSlot (Some <$> diffs) (destroyedAccounts k) (accountsLedger l) with Ret (r, a) => Ret (r, with_accounts a l) | Panic => Panic | OutOfFuel => OutOfFuel end);
    mana ← eread (fun l => mana_ApplyDiff slot (destroyedAccounts k) (createdAccounts k) (omap Datatypes.id diffs) (manaManager l));
    mana ← etry mana;
    _ ← eupdate (with_mana mana);
    _ ← eupdate (finish_commit slot (tx_ID <$> ExecutedTransactions sd) outputs spends);
    eread (fun l => (StateTreeRoot (utxoLedger l), MutationsRoot sd, AccountsTreeRoot (accountsLedger l))).

(** ** Reading outputs *)
(** [ErrInputAlreadySpent] itself, and all other errors, those it is joined to included. *)
Inductive StateError := ErrInputAlreadySpent | ErrOtherState.
Context (readState : OutputID -> LState * option TransactionID + StateError) (slot_of_tx : TransactionID -> SlotIndex).
(** [ierrors.Is] is called with its arguments swapped: only the error itself matches. *)
Definition OutputOrSpent (id : OutputID) (u : U) : outcome (option (Output + Spent)) :=
  match readState id with
  | inr ErrInputAlreadySpent => Ret (inr <$> ReadSpentForOutputID id u)
  | inr ErrOtherState => Ret None
  | inl (s, Some spender) => o ← outputFromState earliestAttachment s; Ret (Some (inr (mkSpent o spender (slot_of_tx spender))))
  | inl (s, None) => o ← outputFromState earliestAttachment s; Ret (Some (inl o))
  end.
Definition Output_ (id : OutputID) (u : U) : outcome (option Output) :=
  r ← OutputOrSpent id u; Ret (match r with Some (inl o) => Some o | Some (inr s) => Some (sp_output s) | None => None end).
Definition resolveAccountOutput (id : AccountID) (slot : SlotIndex) (l : Ledger U M) : option Output :=
  found ← account env id slot (accountsLedger l);
  a ← found;
  unspent ← IsOutputIDUnspent (AccOutputID a) (utxoLedger l);
  if unspent : bool then ReadOutputByOutputID (AccOutputID a) (utxoLedger l) else None.

(** ** Inputs of transactions *)
Context (commitmentLoader : SlotIndex -> option (option Z)) (commitment_slot : Z -> SlotIndex).      (* the ID of the stored commitment *)
Inductive InputRef := InputUTXO (id : OutputID) | InputCommitment (id : Z) | InputBIC (id : AccountID) | InputReward (index : Z) | InputUnknown.
Inductive RState := ROutput (o : Output) | RCommitment (slot : SlotIndex) | RBIC (id : AccountID) | RReward (index : Z).
Inductive ResolveError := ErrUTXOInputInvalid | ErrInputSpent | ErrCommitmentInputInvalid | ErrUnsupportedInput.
Definition loadCommitment (id : Z) : option SlotIndex :=
  c ← commitmentLoader (commitment_slot id); stored ← c; if decide (stored = id) then Some (commitment_slot id) else None.
Definition resolveState (r : InputRef) (u : U) : RState + ResolveError :=
  match r with
  | InputUTXO id => match IsOutputIDUnspent id u with
      | None => inr ErrUTXOInputInvalid
      | Some false => inr ErrInputSpent
      | Some true => match ReadOutputByOutputID id u with Some o => inl (ROutput o) | None => inr ErrUTXOInputInvalid end
      end
  | InputCommitment id => match loadCommitment id with Some slot => inl (RCommitment slot) | None => inr ErrCommitmentInputInvalid end
  | InputBIC id => inl (RBIC id)
  | InputReward index => inl (RReward index)
  | InputUnknown => inr ErrUnsupportedInput
  end.

(** ** The virtual machine (vm.go) *)
Definition VM_Inputs (inputs contextInputs : list InputRef) : list InputRef := inputs ++ contextInputs.
Inductive VMError := ErrCommitmentInputMissing | ErrBICInputInvalid | ErrRewardInputInvalid | ErrNoStakingFeature | ErrFailedToClaimStakingReward | ErrFailedToClaimDelegationReward.
Record ResolvedInputs := mkResolved { InputSet : gmap OutputID IotaOutput; CommitmentInput : option SlotIndex; BICInputSet : gmap AccountID Z; RewardsInputSet : gmap Z Z }.
Context (ValidatorReward : AccountID -> Z -> Z -> Z -> option Z) (DelegatorReward : AccountID -> Z -> Z -> Z -> option Z) (EpochFromSlot : SlotIndex -> Z).
Definition bic_input (slot : SlotIndex) (m : Manager) (set : gmap AccountID Z) (id : AccountID) : option (gmap AccountID Z) :=
  found ← account env id slot m; a ← found; Some (<[id := Value (Credits a)]> set).
(** The index of a reward input that is out of range is a panic. *)
Definition reward_input (states : list RState) (slot : SlotIndex) (set : gmap Z Z) (index : Z) : outcome (gmap Z Z + VMError) :=
  s ← deref (states !! Z.to_nat index);
  Ret (match s with
  | ROutput o => match out o with
      | AccountOut id _ st => match st with
          | None => inr ErrNoStakingFeature
          | Some st => let aid := if id =? 0 then AccountIDFromOutputID (OutputID_ o) else id in
              match ValidatorReward aid (StakedAmount st) (StartEpoch st) (EndEpoch st) with None => inr ErrFailedToClaimStakingReward | Some r => inl (<[aid := r]> set) end
          end
      | DelegationOut id amount validator start finish =>
          let did := if id =? 0 then DelegationIDFromOutputID (OutputID_ o) else id in
          let last := if finish =? 0 then u32 (EpochFromSlot slot - 1) else finish in
          match DelegatorReward validator amount start last with None => inr ErrFailedToClaimDelegationReward | Some r => inl (<[did := r]> set) end
      | _ => inl set
      end
  | _ => inr ErrRewardInputInvalid
  end).
Fixpoint reward_inputs (states : list RState) (slot : SlotIndex) (l : list Z) (set : gmap Z Z) : outcome (gmap Z Z + VMError) :=
  match l with [] => Ret (inl set) | i :: l => r ← reward_input states slot set i; match r with inl set => reward_inputs states slot l set | inr e => Ret (inr e) end end.
(** What is resolved before the unlocks are validated; the last commitment counts. *)
Definition resolve_inputs (states : list RState) (m : Manager) : outcome (ResolvedInputs + VMError) :=
  let utxos := foldl (fun s x => match x with ROutput o => <[OutputID_ o := out o]> s | _ => s end) ∅ states in
  let commitment := foldl (fun c x => match x with RCommitment s => Some s | _ => c end) None states in
  let bics := omap (fun x => match x with RBIC id => Some id | _ => None end) states in
  let rewards := omap (fun x => match x with RReward i => Some i | _ => None end) states in
  if (bool_decide (rewards <> []) || bool_decide (bics <> [])) && is_none commitment then Ret (inr ErrCommitmentInputMissing)
  else let slot := default 0 commitment in
    match fold_error (bic_input slot m) bics ∅ with
    | None => Ret (inr ErrBICInputInvalid)
    | Some bicSet => r ← reward_inputs states slot rewards ∅; Ret (match r with inl set => inl (mkResolved utxos commitment bicSet set) | inr e => inr e end)
    end.
(** Outputs of an execution are not booked yet. *)
Definition VM_outputs (OutputIDFrom : Z -> OutputID) (created : list IotaOutput) : list Output := imap (fun i o => mkOutput (OutputIDFrom (Z.of_nat i mod 2 ^ 16)) 0 0 o) created.
End Commit.
