(* ===== verification/LedgerProps.v ===== *)
(** * Accounts agree with their outputs

    Committing a slot leaves every account the slot created an account output for with the output, the expiry slot, the keys and the stake of it, removes the destroyed accounts and leaves these
    fields of the others alone: the composition of the ledger, which computes the diffs, and of the accounts ledger, which applies them.  An account that appears otherwise (the target of an
    allotment that does not exist) has no output, no keys and no stake. *)
From S2P Require Import Prelude Block Accounts AccountsLedger AccountsLedgerProps Ledger.

(** ** What an output says about its account *)
Definition staking_matches (st : option StakingFeature) (a : AccountData) : Prop :=
  match st with
  | Some st => ValidatorStake a = StakedAmount st /\ StakeEndEpoch a = EndEpoch st /\ FixedCost a = st_FixedCost st
  | None => ValidatorStake a = 0 /\ StakeEndEpoch a = 0 /\ FixedCost a = 0
  end.
Definition agrees_with (o : Output) (a : AccountData) : Prop :=
  AccOutputID a = OutputID_ o /\
  match out o with
  | AccountOut _ (Some bi) st => ExpirySlot a = bi_ExpirySlot bi /\ BlockIssuerKeys a = bi_Keys bi /\ staking_matches st a
  | BasicOut (Some h) => ExpirySlot a = MaxSlotIndex /\ BlockIssuerKeys a = {[Ed25519PublicKeyHashBlockIssuerKey h]} /\ staking_matches None a
  | _ => False
  end.
(** An account without output, keys and stake. *)
Definition blank (a : AccountData) : Prop := AccOutputID a = EmptyOutputID /\ ExpirySlot a = 0 /\ BlockIssuerKeys a = ∅ /\ ValidatorStake a = 0 /\ StakeEndEpoch a = 0 /\ FixedCost a = 0.
(** The fields of an account its output determines. *)
Definition same_account (a a' : AccountData) : Prop :=
  AccOutputID a' = AccOutputID a /\ ExpirySlot a' = ExpirySlot a /\ BlockIssuerKeys a' = BlockIssuerKeys a /\ ValidatorStake a' = ValidatorStake a /\ StakeEndEpoch a' = StakeEndEpoch a /\ FixedCost a' = FixedCost a.
Definition stakes_in_range (a : AccountData) : Prop := 0 <= ValidatorStake a < 2 ^ 63 /\ 0 <= StakeEndEpoch a < 2 ^ 32 /\ 0 <= FixedCost a < 2 ^ 63.
(** Amounts are below 2^63, the IDs of outputs are not zero. *)
Definition output_ok (o : Output) : Prop :=
  OutputID_ o <> EmptyOutputID /\
  match Staking (out o) with Some st => 0 <= StakedAmount st < 2 ^ 63 /\ 0 <= EndEpoch st < 2 ^ 32 /\ 0 <= st_FixedCost st < 2 ^ 63 | None => True end.
(** The fields of a diff that burns and version signals do not change. *)
Definition same_fields (d d' : AccountDiff) : Prop :=
  NewExpirySlot d' = NewExpirySlot d /\ PreviousExpirySlot d' = PreviousExpirySlot d /\ NewOutputID d' = NewOutputID d /\
  BlockIssuerKeysAdded d' = BlockIssuerKeysAdded d /\ BlockIssuerKeysRemoved d' = BlockIssuerKeysRemoved d /\
  ValidatorStakeChange d' = ValidatorStakeChange d /\ StakeEndEpochChange d' = StakeEndEpochChange d /\ FixedCostChange d' = FixedCostChange d.
#[export] Instance same_fields_refl : Reflexive same_fields.
Proof. by repeat split. Qed.
#[export] Instance same_fields_trans : Transitive same_fields.
Proof. unfold same_fields. intros d1 d2 d3. intuition congruence. Qed.
(** A diff of allotments and delegations only. *)
Definition plain (found : option AccountData) (d : AccountDiff) : Prop :=
  ValidatorStakeChange d = 0 /\ StakeEndEpochChange d = 0 /\ FixedCostChange d = 0 /\ BlockIssuerKeysAdded d = ∅ /\ BlockIssuerKeysRemoved d = ∅ /\
  PreviousExpirySlot d = NewExpirySlot d /\ (NewOutputID d = EmptyOutputID \/ exists a, found = Some a /\ NewOutputID d = AccOutputID a).
Lemma plain_new found : plain found NewAccountDiff.
Proof. repeat split. by left. Qed.

Section Props.
Context `{!SafeMath} `{!SafeMathSpec _} `{!RangeOrder AccountID} `{!RangeOrder BlockID} `{!LedgerHashes} (env : AEnv).

(** ** Applying a diff *)
Lemma safe_add_to x y r : 0 <= x < 2 ^ 63 -> 0 <= y < 2 ^ 63 -> SafeAdd Int64 (i64 x) (i64 (i64 y - i64 x)) = Some r -> r = y.
Proof.
  intros Hx Hy. assert (Ix : in_range Int64 x) by (unfold in_range; cbn; lia). assert (Iy : in_range Int64 y) by (unfold in_range; cbn; lia). rewrite (wrap_id Int64 x), (wrap_id Int64 y), (wrap_id Int64) by first [done|unfold in_range in *; cbn in *; lia].
  rewrite SafeAdd_spec by first [done|unfold in_range in *; cbn in *; lia]. intros [_ ->]%checked_Some. lia.
Qed.
Lemma u64_small x : 0 <= x < 2 ^ 63 -> u64 x = x.
Proof. intros Hx. apply wrap_id. unfold in_range. cbn. lia. Qed.
Lemma u32_small x : 0 <= x < 2 ^ 32 -> u32 x = x.
Proof. intros Hx. apply wrap_id. unfold in_range. cbn. lia. Qed.
Lemma commit_fields slot found id d a' d' : commit_diff env slot found id d = Some (a', d') -> let a := default (NewAccountData id) found in exists vs se fc,
  SafeAdd Int64 (i64 (ValidatorStake a)) (ValidatorStakeChange d) = Some vs /\ SafeAdd Int64 (i64 (StakeEndEpoch a)) (StakeEndEpochChange d) = Some se /\ SafeAdd Int64 (i64 (FixedCost a)) (FixedCostChange d) = Some fc /\
  AccID a' = AccID a /\ ExpirySlot a' = (if decide (PreviousExpirySlot d = NewExpirySlot d) then ExpirySlot a else NewExpirySlot d) /\ AccOutputID a' = (if decide (NewOutputID d = EmptyOutputID) then AccOutputID a else NewOutputID d) /\
  BlockIssuerKeys a' = (BlockIssuerKeys a ∪ BlockIssuerKeysAdded d) ∖ BlockIssuerKeysRemoved d /\ ValidatorStake a' = u64 vs /\ StakeEndEpoch a' = u32 se /\ FixedCost a' = u64 fc.
Proof.
  cbv zeta. rewrite commit_diff_spec. cbv zeta. destruct (commit_credits env slot found d _) as [[c B]|]; [|done]. cbn [mbind option_bind]. set (a := default (NewAccountData id) found).
  destruct (SafeAdd Int64 (i64 (ValidatorStake a)) _) as [vs|]; [|done]. cbn [mbind option_bind]. destruct (SafeAdd Int64 (i64 (DelegationStake a)) _) as [ds|]; [|done]. cbn [mbind option_bind].
  destruct (SafeAdd Int64 (i64 (StakeEndEpoch a)) _) as [se|]; [|done]. cbn [mbind option_bind]. destruct (SafeAdd Int64 (i64 (FixedCost a)) _) as [fc|]; [|done]. cbn [mbind option_bind].
  intros [= <- <-]. exists vs, se, fc. split_and!; reflexivity.
Qed.
Lemma transition_commit slot id a consumed created d0 d d' a' d1 : agrees_with consumed a -> output_ok consumed -> output_ok created -> plain (Some a) d0 ->
  transition_diff a consumed created d0 = Some d -> same_fields d d' -> commit_diff env slot (Some a) id d' = Some (a', d1) -> agrees_with created a'.
Proof.
  intros [Ha1 Ha2] [Hid1 Hok1] [Hid2 Hok2] (P1 & P2 & P3 & _) Ht (S1 & S2 & S3 & S4 & S5 & S6 & S7 & S8) Hc. apply commit_fields in Hc as (vs & se & fc & C1 & C2 & C3 & C4 & C5 & C6 & C7 & C8 & C9 & C10). cbn in *.
  unfold transition_diff in Ht. destruct (out created) as [cid [bi|] st| |[h|]|] eqn:Eo; cbn [BlockIssuer Staking] in Ht; try (by destruct (out consumed) as [? [?|] ?| |[?|]|]; cbn in Ht; discriminate Ht).
  assert (Hexp : match out consumed with AccountOut _ f _ => bi_ExpirySlot <$> f | BasicOut _ => Some MaxSlotIndex | _ => Some (PreviousExpirySlot d0) end = Some (ExpirySlot a)) by (destruct (out consumed) as [? [?|] ?| |[?|]|]; try done; cbn; f_equal; by destruct Ha2 as (-> & _)).
  rewrite Hexp in Ht. cbn [mbind option_bind] in Ht.
  assert (Hst0 : staking_matches (Staking (out consumed)) a) by (destruct (out consumed) as [? [?|] ?| |[?|]|]; try done; cbn; by destruct Ha2 as (_ & _ & ?)).
  assert (Hkeys : (BlockIssuerKeys a ∪ bi_Keys bi ∖ BlockIssuerKeys a) ∖ (BlockIssuerKeys a ∖ bi_Keys bi) = bi_Keys bi) by (apply leibniz_equiv; intros k; rewrite !elem_of_difference, elem_of_union, elem_of_difference; destruct (decide (k ∈ BlockIssuerKeys a)), (decide (k ∈ bi_Keys bi)); tauto).
  assert (Hcommon : forall vsc sec fcc, d = mkAccountDiff (BICChange d0) (PreviousUpdatedTime d0) (bi_ExpirySlot bi) (ExpirySlot a) (OutputID_ created) (OutputID_ consumed) (bi_Keys bi ∖ BlockIssuerKeys a) (BlockIssuerKeys a ∖ bi_Keys bi) vsc (DelegationStakeChange d0) sec fcc (PrevLatestSupportedVersionAndHash d0) (NewLatestSupportedVersionAndHash d0) ->
    (u64 vs = match st with Some s => StakedAmount s | None => 0 end) -> (u32 se = match st with Some s => EndEpoch s | None => 0 end) -> (u64 fc = match st with Some s => st_FixedCost s | None => 0 end) -> agrees_with created a').
  { intros vsc sec fcc -> Hv He Hf. cbn in *. unfold agrees_with. rewrite Eo. split; [rewrite C6, S3; by rewrite decide_False|]. split_and!.
    - rewrite C5, S1, S2. by destruct (decide (ExpirySlot a = bi_ExpirySlot bi)).
    - rewrite C7, S4, S5. exact Hkeys.
    - destruct st as [st|]; cbn; rewrite C8, C9, C10; by split_and!. }
  assert (Hzero : 0 <= ValidatorStake a < 2 ^ 63 /\ 0 <= StakeEndEpoch a < 2 ^ 32 /\ 0 <= FixedCost a < 2 ^ 63).
  { destruct (Staking (out consumed)); cbn in Hst0; destruct Hst0 as (-> & -> & ->); [done|lia]. }
  destruct Hzero as (Z1 & Z2 & Z3). assert (Ise : forall x, 0 <= x < 2 ^ 32 -> i64 x = x) by (intros x Hx; apply wrap_id; unfold in_range; cbn; lia).
  assert (Hneg : forall x, - x = i64 0 - x) by (intros x; rewrite (wrap_id Int64) by (unfold in_range; cbn; lia); lia).
  destruct st as [st|].
  - destruct Hok2 as (O1 & O2 & O3). injection Ht as Ht. eapply Hcommon; [by symmetry|..]; subst d; cbn in *.
    + rewrite S6 in C1. rewrite (safe_add_to _ _ _ Z1 O1 C1). by apply u64_small.
    + rewrite S7 in C2. rewrite <- (Ise (EndEpoch st)), <- (Ise (StakeEndEpoch a)) in C2 by done. rewrite (Ise (i64 _)) in C2 by (rewrite Ise; done). apply safe_add_to in C2; [|lia..]. rewrite C2. by apply u32_small.
    + rewrite S8 in C3. rewrite (safe_add_to _ _ _ Z3 O3 C3). by apply u64_small.
  - destruct (Staking (out consumed)) as [sc|]; injection Ht as Ht; (eapply Hcommon; [by symmetry|..]); subst d; cbn in *.
    + rewrite S6, Hneg in C1. rewrite (safe_add_to _ _ _ Z1 (conj (Z.le_refl 0) eq_refl) C1). by apply u64_small.
    + rewrite S7, Hneg in C2. rewrite <- (Ise (StakeEndEpoch a)) in C2 by done. rewrite (Ise (i64 (StakeEndEpoch a))) in C2 at 1 by (rewrite Ise; done). apply safe_add_to in C2; [|lia..]. rewrite C2. by apply u32_small.
    + rewrite S8, Hneg in C3. rewrite (safe_add_to _ _ _ Z3 (conj (Z.le_refl 0) eq_refl) C3). by apply u64_small.
    + destruct Hst0 as (E1 & _). rewrite S6, P1, E1 in C1. rewrite SafeAdd_spec in C1 by (rewrite ?(wrap_id Int64); unfold in_range; cbn; lia). apply checked_Some in C1 as [_ ->]. rewrite (wrap_id Int64) by (unfold in_range; cbn; lia). by apply u64_small.
    + destruct Hst0 as (_ & E2 & _). rewrite S7, P2, E2 in C2. rewrite SafeAdd_spec in C2 by (rewrite ?(wrap_id Int64); unfold in_range; cbn; lia). apply checked_Some in C2 as [_ ->]. rewrite (wrap_id Int64) by (unfold in_range; cbn; lia). by apply u32_small.
    + destruct Hst0 as (_ & _ & E3). rewrite S8, P3, E3 in C3. rewrite SafeAdd_spec in C3 by (rewrite ?(wrap_id Int64); unfold in_range; cbn; lia). apply checked_Some in C3 as [_ ->]. rewrite (wrap_id Int64) by (unfold in_range; cbn; lia). by apply u64_small.
Qed.
Lemma zero_sum x r : 0 <= x < 2 ^ 63 -> SafeAdd Int64 (i64 x) 0 = Some r -> r = x.
Proof.
  intros Hx. rewrite (wrap_id Int64 x) by (unfold in_range; cbn; lia). rewrite SafeAdd_spec by (unfold in_range; cbn; lia). intros [_ ->]%checked_Some. lia.
Qed.
Lemma creation_commit slot id found created d0 d d' a' d1 : (forall a, found = Some a -> blank a) -> output_ok created -> plain found d0 -> creation_diff created d0 = Some d -> same_fields d d' ->
  (match out created with AccountOut _ (Some _) _ | BasicOut (Some _) => True | _ => False end) -> commit_diff env slot found id d' = Some (a', d1) -> agrees_with created a'.
Proof.
  intros Hblank [Hid Hok] (P1 & P2 & P3 & P4 & P5 & P6 & _) Ht (S1 & S2 & S3 & S4 & S5 & S6 & S7 & S8) Hkind Hc. apply commit_fields in Hc as (vs & se & fc & C1 & C2 & C3 & C4 & C5 & C6 & C7 & C8 & C9 & C10). cbn in C1, C2, C3, C5, C6, C7.
  assert (Hb : blank (default (NewAccountData id) found)) by (destruct found; [by apply Hblank|by repeat split]). destruct Hb as (B1 & B2 & B3 & B4 & B5 & B6). rewrite B4 in C1. rewrite B5 in C2. rewrite B6 in C3. rewrite B2 in C5. rewrite B1 in C6. rewrite B3 in C7.
  rewrite S6 in C1. rewrite S7 in C2. rewrite S8 in C3. rewrite S1, S2 in C5. rewrite S3 in C6. rewrite S4, S5 in C7. unfold creation_diff in Ht. unfold agrees_with.
  assert (N0 : 0 <= 0 < 2 ^ 63) by lia. assert (Hadd : forall y r, 0 <= y < 2 ^ 63 -> SafeAdd Int64 (i64 0) (i64 y) = Some r -> r = y).
  { intros y r Hy Hr. apply (safe_add_to 0 y r); [done|done|]. rewrite <- Hr. f_equal. rewrite !(wrap_id Int64) by (rewrite ?(wrap_id Int64); unfold in_range; cbn; lia). lia. }
  destruct (out created) as [cid [bi|] st| |[h|]|] eqn:Eo; try done; cbn in Ht.
  - assert (Hd : d = mkAccountDiff (BICChange d0) (PreviousUpdatedTime d0) (bi_ExpirySlot bi) 0 (OutputID_ created) EmptyOutputID (bi_Keys bi) (BlockIssuerKeysRemoved d0) (ValidatorStakeChange d) (DelegationStakeChange d0) (StakeEndEpochChange d) (FixedCostChange d) (PrevLatestSupportedVersionAndHash d0) (NewLatestSupportedVersionAndHash d0)) by (destruct st; injection Ht as <-; reflexivity).
    rewrite Hd in C5, C6, C7. cbn in C5, C6, C7. split; [by rewrite C6, decide_False|]. rewrite C5, C7, P5. split_and!; [by destruct (decide (0 = bi_ExpirySlot bi))|clear; set_solver|].
    destruct st as [st|]; injection Ht as Ht; subst d; cbn in C1, C2, C3; cbn [staking_matches]; rewrite C8, C9, C10.
    + cbn in Hok. destruct Hok as (O1 & O2 & O3). rewrite (Hadd _ _ O1 C1), (Hadd _ _ O3 C3). rewrite <- (wrap_id Int64 (EndEpoch st)) in C2 by (unfold in_range; cbn; lia). apply Hadd in C2 as ->; [|lia]. by rewrite !u64_small, u32_small.
    + rewrite P1 in C1. rewrite P2 in C2. rewrite P3 in C3. by rewrite (zero_sum _ _ N0 C1), (zero_sum _ _ N0 C2), (zero_sum _ _ N0 C3).
  - injection Ht as Ht. subst d. cbn in *. split; [by rewrite C6, decide_False|]. rewrite C5, C7, P5, C8, C9, C10. split_and!; [done|clear; set_solver|..].
    + rewrite P1 in C1. by rewrite (zero_sum _ _ N0 C1).
    + rewrite P2 in C2. by rewrite (zero_sum _ _ N0 C2).
    + rewrite P3 in C3. by rewrite (zero_sum _ _ N0 C3).
Qed.
(** An account whose diff has allotments and delegations only keeps the fields its output determines. *)
Lemma plain_commit slot id found d d' a' d1 : stakes_in_range (default (NewAccountData id) found) -> plain found d -> same_fields d d' -> commit_diff env slot found id d' = Some (a', d1) -> same_account (default (NewAccountData id) found) a'.
Proof.
  intros (Z1 & Z2 & Z3) (P1 & P2 & P3 & P4 & P5 & P6 & P7) (S1 & S2 & S3 & S4 & S5 & S6 & S7 & S8) Hc. apply commit_fields in Hc as (vs & se & fc & C1 & C2 & C3 & C4 & C5 & C6 & C7 & C8 & C9 & C10). cbn in C1, C2, C3, C4, C5, C6, C7. set (a := default (NewAccountData id) found) in *.
  rewrite S6, P1 in C1. rewrite S7, P2 in C2. rewrite S8, P3 in C3. rewrite S1, S2, P6, decide_True in C5 by done. rewrite S3 in C6. rewrite S4, S5, P4, P5 in C7.
  split_and!; [|done|rewrite C7; clear; set_solver|..].
  - rewrite C6. destruct (decide (NewOutputID d = EmptyOutputID)) as [|Hne]; [done|]. destruct P7 as [?|(b & Hf & ?)]; [done|]. subst a. by rewrite Hf.
  - rewrite C8, (zero_sum _ _ Z1 C1). by apply u64_small.
  - rewrite C9, (zero_sum (StakeEndEpoch a) se) by (done || lia). by apply u32_small.
  - rewrite C10, (zero_sum _ _ Z3 C3). by apply u64_small.
Qed.

(** ** Burns and signals leave these fields alone *)
Definition refines (diffs diffs' : Diffs) : Prop := forall id,
  match diffs !! id with
  | Some (Some d) => exists d', diffs' !! id = Some (Some d') /\ same_fields d d'
  | Some None => diffs' !! id = Some None
  | None => diffs' !! id = None \/ exists d', diffs' !! id = Some (Some d') /\ same_fields NewAccountDiff d'
  end.
#[export] Instance refines_refl : Reflexive refines.
Proof. intros diffs id. destruct (diffs !! id) as [[d|]|]; [|done|by left]. exists d. by split. Qed.
#[export] Instance refines_trans : Transitive refines.
Proof.
  intros x y z H1 H2 id. specialize (H1 id). specialize (H2 id). destruct (x !! id) as [[d|]|].
  - destruct H1 as (d1 & E1 & F1). rewrite E1 in H2. destruct H2 as (d2 & E2 & F2). exists d2. split; [done|]. by etransitivity.
  - by rewrite H1 in H2.
  - destruct H1 as [E1|(d1 & E1 & F1)]; rewrite E1 in H2; [done|]. destruct H2 as (d2 & E2 & F2). right. exists d2. split; [done|]. by etransitivity.
Qed.
Lemma refines_insert (diffs : Diffs) id d d' : default (Some NewAccountDiff) (diffs !! id) = Some d -> same_fields d d' -> refines diffs (<[id := Some d']> diffs).
Proof.
  intros Hd Hf j. destruct (decide (j = id)) as [->|Hne]; [|rewrite lookup_insert_ne by done; apply refines_refl]. rewrite lookup_insert_eq. destruct (diffs !! id) as [[e|]|]; cbn in Hd; simplify_eq; [eauto|right; eauto].
Qed.
Lemma efold_refines {B} (body : Diffs -> B -> eprog Manager Diffs) l diffs m diffs' m' :
  (forall x b m1 x' m2, body x b m1 = Ret (Some x', m2) -> refines x x') -> efold body l diffs m = Ret (Some diffs', m') -> refines diffs diffs'.
Proof.
  intros Hb. revert diffs m. induction l as [|b l IH]; intros diffs m; cbn; [by intros [= <- _]|]. intros (x & m1 & Hx & Hr)%eprog_bind_Ret. etransitivity; [by eapply Hb|by eapply IH].
Qed.
Lemma burns_refine slot rmc diffs m diffs' m' : updateSlotDiffWithBurns env slot rmc diffs m = Ret (Some diffs', m') -> refines diffs diffs'.
Proof.
  unfold updateSlotDiffWithBurns. intros (b & m1 & _ & Hr)%eprog_bind_Ret. apply eprog_bind_Ret in Hr as (b' & m2 & _ & Hr). eapply efold_refines; [|exact Hr]. intros x [id v] m3 x' m4. unfold burn_diff. intros (d & m5 & Hd & Hx)%eprog_bind_Ret.
  injection Hx as <- _. unfold ederef, elift, deref in Hd. cbn [fst] in *. destruct (default (Some NewAccountDiff) (x !! id)) as [d0|] eqn:E; cbn in Hd; [|done]. injection Hd as <- _. eapply refines_insert; [exact E|]. by repeat split.
Qed.
Lemma signals_refine slot diffs m diffs' m' : updateSlotDiffWithVersionSignals slot diffs m = Ret (Some diffs', m') -> refines diffs diffs'.
Proof.
  unfold updateSlotDiffWithVersionSignals. intros (s & m1 & _ & Hr)%eprog_bind_Ret. destruct s as [s|]; [|by injection Hr as <- _]. eapply efold_refines; [|exact Hr]. intros x [id v] m3 x' m4. unfold signal_diff. intros (y & m5 & _ & Hx)%eprog_bind_Ret.
  cbv zeta in Hx. case_match; [|by injection Hx as <- _]. apply eprog_bind_Ret in Hx as (d & m6 & Hd & Hx). injection Hx as <- _. unfold ederef, elift, deref in Hd. destruct (default (Some NewAccountDiff) (x !! id)) as [d0|] eqn:E; cbn in Hd; [|done]. injection Hd as <- _. eapply refines_insert; [exact E|]. by repeat split.
Qed.
(** What applying diffs does to the tree. *)
Lemma ApplyDiff_tree slot rmc diffs destroyed m diffs' m' : ApplyDiff env slot rmc diffs destroyed m = Ret (Some diffs', m') -> exists d2, refines diffs d2 /\ slot = u32 (latestCommittedSlot m + 1) /\
  forall id, match d2 !! id with
    | None => accountsTree m' !! id = accountsTree m !! id
    | Some d => if decide (id ∈ destroyed) then accountsTree m' !! id = None
        else exists d0 a d1, d = Some d0 /\ commit_diff env slot (accountsTree m !! id) id d0 = Some (a, d1) /\ accountsTree m' !! id = Some a
    end.
Proof.
  unfold ApplyDiff. intros (l & m0 & [= <- <-] & Hrun)%eprog_bind_Ret. destruct (decide (slot <> u32 (latestCommittedSlot m + 1))) as [|Hslot%dec_stable]; [done|].
  apply eprog_bind_Ret in Hrun as (d1 & m1 & Hb & Hrun). pose proof (burns_refine _ _ _ _ _ _ Hb) as Rb. apply burns_reads in Hb as ->. apply eprog_bind_Ret in Hrun as (d2 & m2 & Hs & Hrun). pose proof (signals_refine _ _ _ _ _ Hs) as Rs. apply signals_reads in Hs as ->.
  apply eprog_bind_Ret in Hrun as (d3 & m3 & [= <- <-] & Hrun). apply eprog_bind_Ret in Hrun as (d4 & m4 & Hcommit & Hrun). apply eprog_bind_Ret in Hrun as ([] & m5 & Hstore & Hrun). injection Hrun as Hd Hm'. subst d4. subst m'. cbn.
  exists d2. split; [by etransitivity|]. split; [done|]. apply commit_fold in Hcommit as (_ & Hother & Hin); [|apply range_NoDup]. assert (HT5 : accountsTree m5 = accountsTree m4).
  { clear -Hstore. revert m4 Hstore. generalize (range_of diffs'). intros l. induction l as [|e l IH]; intros m4; cbn [efold]; [by intros [= <-]|]. intros ([] & m1 & H1 & H2)%eprog_bind_Ret. rewrite (IH m1 H2). clear -H1. unfold store_entry in H1.
    apply eprog_bind_Ret in H1 as (s & m2 & [= <- <-] & H1). apply eprog_bind_Ret in H1 as (s & m2 & [= _ <-] & H1). apply eprog_bind_Ret in H1 as (s2 & m2 & H2 & H1). injection H1 as <-. unfold elift in H2. destruct (Store _ _ _ _); cbn in H2; simplify_eq. done. }
  intros id. rewrite HT5. assert (Hp : preserve_destroyed destroyed m d2 !! id = (fun d => if decide (id ∈ destroyed) then preserveDestroyedAccountData id m else d) <$> d2 !! id) by (unfold preserve_destroyed; rewrite map_lookup_imap; destruct (d2 !! id); cbn; [by case_decide|done]).
  destruct (d2 !! id) as [d|] eqn:E; cbn in Hp.
  - specialize (Hin id _ (proj2 (elem_of_range _ _ _) Hp)). destruct (decide (id ∈ destroyed)); [tauto|]. destruct Hin as (d0 & a & d1' & -> & Hc & Ht & _). eauto 6.
  - apply Hother. intros Hx. apply list_elem_of_fmap in Hx as ([j x] & -> & Hx). apply elem_of_range in Hx. cbn in Hp. congruence.
Qed.

(** ** The diffs the ledger computes *)
Context (stateMetadata : OutputID -> option LState) (earliestAttachment : TransactionID -> option (Z * SlotIndex)).
Lemma account_latest id m : 0 <= MaxCommittableAge env (latestCommittedSlot m) -> in_range Uint32 (latestCommittedSlot m + MaxCommittableAge env (latestCommittedSlot m)) -> account env id (latestCommittedSlot m) m = Some (accountsTree m !! id).
Proof.
  intros Hage Hr. unfold account. rewrite (wrap_id Uint32) by done. rewrite (proj2 (Z.ltb_ge (latestCommittedSlot m + MaxCommittableAge env (latestCommittedSlot m)) (latestCommittedSlot m))) by lia. rewrite andb_false_r, (proj2 (Z.ltb_ge _ _)) by lia. unfold rollbackAccountTo, slots_down.
  replace (latestCommittedSlot m - latestCommittedSlot m) with 0 by lia. destruct (accountsTree m !! id); cbn; case_decide || idtac; done.
Qed.
Definition plain_diffs (m : Manager) (diffs : ADiffs) : Prop := forall id d, diffs !! id = Some d -> plain (accountsTree m !! id) d.
Lemma plain_get m diffs id : plain_diffs m diffs -> plain (accountsTree m !! id) (getAccountDiff diffs id).
Proof. intros Hp. unfold getAccountDiff. destruct (diffs !! id) as [d|] eqn:E; cbn; [by apply Hp|apply plain_new]. Qed.
Lemma plain_change m diffs id f : plain_diffs m diffs -> (forall d, plain (accountsTree m !! id) d -> plain (accountsTree m !! id) (f d)) -> plain_diffs m (change_diff id f diffs).
Proof.
  intros Hp Hf j d. unfold change_diff. destruct (decide (j = id)) as [->|]; [rewrite lookup_insert_eq; intros [= <-]; by apply Hf, plain_get|rewrite lookup_insert_ne by done; apply Hp].
Qed.
Lemma plain_stake found delta d : plain found d -> plain found (change_stake delta d).
Proof. by intros (P1 & P2 & P3 & P4 & P5 & P6 & P7). Qed.
Context (m : Manager) (Hage : 0 <= MaxCommittableAge env (latestCommittedSlot m)) (Hrange : in_range Uint32 (latestCommittedSlot m + MaxCommittableAge env (latestCommittedSlot m))).
Context (slot : SlotIndex) (Hslot : u32 (slot - 1) = latestCommittedSlot m).
Lemma allot_plain diffs x diffs' : plain_diffs m diffs -> allot env slot m diffs x = Ret diffs' -> plain_diffs m diffs'.
Proof.
  intros Hp. destruct x as [id v]. unfold allot. rewrite Hslot, account_latest by done. assert (Hp1 : plain_diffs m (change_diff id (fun d => d) diffs)) by (by apply plain_change). destruct (accountsTree m !! id) as [a|] eqn:E; intros [= <-]; [|done].
  apply plain_change; [done|]. rewrite E. intros d (P1 & P2 & P3 & P4 & P5 & P6 & P7). repeat split; try done. right. by exists a.
Qed.
Lemma allot_all_plain l diffs diffs' : plain_diffs m diffs -> allot_all env slot m l diffs = Ret diffs' -> plain_diffs m diffs'.
Proof.
  revert diffs. induction l as [|x l IH]; intros diffs Hp; cbn; [by intros [= <-]|]. destruct (allot env slot m diffs x) as [d| |] eqn:E; cbn; try done. apply IH. by eapply allot_plain.
Qed.
Lemma process_transactions_plain l acc ss os diffs : plain_diffs m acc.2 -> process_transactions env stateMetadata earliestAttachment slot m l acc = Ret (ss, os, diffs) -> plain_diffs m diffs.
Proof.
  revert acc. induction l as [|t l IH]; intros [[s o] d] Hp; cbn [process_transactions]; [by intros [= <- <- <-]|].
  destruct (process_transaction env stateMetadata earliestAttachment slot m t (s, o, d)) as [[ok acc]| |] eqn:E; cbn [mbind outcome_bind]; try done. assert (Hacc : plain_diffs m acc.2).
  { unfold process_transaction in E. destruct (tx_typed t); cbn [negb] in E; [|by injection E as <- <-]. destruct (tx_Inputs t) as [ins|]; [|by injection E as <- <-]. destruct (spend_inputs _ _ _ _ _ _) as [[ok1 ss1]| |]; cbn [mbind outcome_bind] in E; try done. destruct ok1; cbn [negb] in E; [|by injection E as <- <-].
    destruct (create_outputs _ _ _ _) as [ok2 os1]. destruct ok2; cbn [negb] in E; [|by injection E as <- <-]. destruct (allot_all env slot m _ d) as [d1| |] eqn:E1; cbn in E; try done. injection E as <- <-. cbn. by eapply allot_all_plain. }
  destruct ok; [by apply IH|]. intros [= ->]. done.
Qed.
Lemma collect_consumed_plain l acc acc' : plain_diffs m acc.2 -> fold_error collect_consumed l acc = Some acc' -> plain_diffs m acc'.2.
Proof.
  revert acc. induction l as [|s l IH]; intros [k d] Hp; cbn; [by intros [= <-]|]. destruct s as [o|]; cbn; [|done]. apply IH. repeat case_match; simplify_eq; cbn; try done. apply plain_change; [done|]. intros x. apply plain_stake.
Qed.
Lemma add_delegations_plain l diffs : plain_diffs m diffs -> plain_diffs m (foldl add_delegation diffs l).
Proof. revert diffs. induction l as [|e l IH]; intros diffs Hp; cbn; [done|]. apply IH, plain_change; [done|]. intros x. apply plain_stake. Qed.
Lemma collected_plain sd diffs k diffs' : plain_diffs m diffs -> processCreatedAndConsumedAccountOutputs sd diffs = Some (k, diffs') -> plain_diffs m diffs'.
Proof.
  intros Hp. unfold processCreatedAndConsumedAccountOutputs. destruct (fold_error collect_created _ _) as [k0|]; [|done]. cbn [mbind option_bind]. destruct (fold_error collect_consumed _ _) as [[k1 d1]|] eqn:E; [|done]. cbn. intros [= <- <-]. apply add_delegations_plain. exact (collect_consumed_plain _ (k0, diffs) _ Hp E).
Qed.
(** A loop over the entries of a map changes the diff of each of them. *)
Lemma fold_entries {X} (f : ADiffs -> AccountID * X -> outcome ADiffs) (R : AccountID * X -> option AccountDiff -> option AccountDiff -> Prop) l diffs diffs' :
  (forall x e x', f x e = Ret x' -> (forall j, j <> e.1 -> x' !! j = x !! j) /\ R e (x !! e.1) (x' !! e.1)) -> NoDup l.*1 -> fold_outcome f l diffs = Ret diffs' ->
  (forall j, j ∉ l.*1 -> diffs' !! j = diffs !! j) /\ (forall e, e ∈ l -> R e (diffs !! e.1) (diffs' !! e.1)).
Proof.
  intros Hf. revert diffs. induction l as [|e l IH]; intros diffs Hnd; cbn; [intros [= <-]; split; [done|]; intros e He; by apply not_elem_of_nil in He|]. apply NoDup_cons in Hnd as [Hne Hnd].
  destruct (f diffs e) as [d1| |] eqn:E; cbn; try done. intros Hr. destruct (Hf _ _ _ E) as [H1 H2]. destruct (IH d1 Hnd Hr) as [H3 H4]. split.
  - intros j [Hj1 Hj2]%not_elem_of_cons. rewrite H3 by done. by apply H1.
  - intros e' [->|He']%elem_of_cons; [by rewrite H3|]. assert (e'.1 <> e.1) by (intros Heq; apply Hne; rewrite <- Heq; apply list_elem_of_fmap; eauto). specialize (H4 e' He'). by rewrite <- (H1 e'.1).
Qed.
Lemma prepared diffs consumed created diffs' : prepareAccountDiffs env diffs slot consumed created m = Ret diffs' ->
  (forall id c o, consumed !! id = Some c -> created !! id = Some o -> exists a d, accountsTree m !! id = Some a /\ transition_diff a c o (getAccountDiff diffs id) = Some d /\ diffs' !! id = Some d) /\
  (forall id c, consumed !! id = Some c -> created !! id = None -> diffs' !! id = Some (getAccountDiff diffs id)) /\
  (forall id o, consumed !! id = None -> created !! id = Some o -> exists d, creation_diff o (getAccountDiff diffs id) = Some d /\ diffs' !! id = Some d) /\
  (forall id, consumed !! id = None -> created !! id = None -> diffs' !! id = diffs !! id).
Proof.
  unfold prepareAccountDiffs. destruct (fold_outcome (prepare_consumed _ _ _ _) _ _) as [d1| |] eqn:E1; cbn [mbind outcome_bind]; try done. intros E2.
  apply (fold_entries _ (fun e d r => match created !! e.1 with None => r = Some (default NewAccountDiff d) | Some o => exists a d', accountsTree m !! e.1 = Some a /\ transition_diff a e.2 o (default NewAccountDiff d) = Some d' /\ r = Some d' end)) in E1 as [A1 A2]; [|clear E2|apply range_NoDup].
  2: { intros x [id c] x' Hx. unfold prepare_consumed in Hx. rewrite Hslot, account_latest in Hx by done. cbn [deref mbind outcome_bind fst snd] in *. destruct (accountsTree m !! id) as [a|] eqn:Ea; cbn [deref mbind outcome_bind] in Hx; [|done].
       assert (Hg : getAccountDiff (change_diff id (fun d => d) x) id = getAccountDiff x id) by (unfold change_diff, getAccountDiff; by rewrite lookup_insert_eq). rewrite Hg in Hx. destruct (created !! id) as [o|] eqn:Eo.
       - destruct (transition_diff a c o (getAccountDiff x id)) as [d|] eqn:Et; cbn in Hx; [|done]. injection Hx as <-. split; [intros j Hj; unfold change_diff; by rewrite !lookup_insert_ne by done|]. exists a, d. by rewrite lookup_insert_eq.
       - injection Hx as <-. unfold change_diff. split; [intros j Hj; by rewrite lookup_insert_ne|by rewrite lookup_insert_eq]. }
  apply (fold_entries _ (fun e d r => if is_none (consumed !! e.1) then exists d', creation_diff e.2 (default NewAccountDiff d) = Some d' /\ r = Some d' else r = d)) in E2 as [B1 B2]; [| |apply range_NoDup].
  2: { intros x [id o] x' Hx. unfold prepare_created in Hx. cbn [fst snd]. destruct (consumed !! id) as [c|]; cbn in *; [injection Hx as <-; by split|]. destruct (creation_diff o (getAccountDiff x id)) as [d|] eqn:Ec; cbn in Hx; [|done]. injection Hx as <-. split; [intros j Hj; by rewrite lookup_insert_ne|]. exists d. by rewrite lookup_insert_eq. }
  assert (Nk : forall (M : gmap AccountID Output) j, M !! j = None -> j ∉ (range_of M).*1) by (intros M j HM Hx; apply list_elem_of_fmap in Hx as ([i x] & -> & Hx); apply elem_of_range in Hx; cbn in HM; congruence).
  split_and!.
  - intros id c o Hc Ho. specialize (A2 (id, c) (proj2 (elem_of_range _ _ _) Hc)). cbn in A2. rewrite Ho in A2. destruct A2 as (a & d & H1 & H2 & H3). exists a, d. split_and!; [done|done|]. specialize (B2 (id, o) (proj2 (elem_of_range _ _ _) Ho)). cbn in B2. rewrite Hc in B2. cbn in B2. congruence.
  - intros id c Hc Ho. specialize (A2 (id, c) (proj2 (elem_of_range _ _ _) Hc)). cbn in A2. rewrite Ho in A2. rewrite B1 by (by apply Nk). done.
  - intros id o Hc Ho. specialize (B2 (id, o) (proj2 (elem_of_range _ _ _) Ho)). cbn in B2. rewrite Hc in B2. cbn in B2. rewrite A1 in B2 by (by apply Nk). done.
  - intros id Hc Ho. rewrite B1 by (by apply Nk). apply A1. by apply Nk.
Qed.
End Props.

(** ** What is collected *)
Section Collect.
Context `{!SafeMath} `{!RangeOrder AccountID} `{!LedgerHashes}.
Definition collected (sd : LDiff) : option Collected := fst <$> processCreatedAndConsumedAccountOutputs sd ∅.
Definition account_kind (o : Output) : Prop := match out o with AccountOut _ _ _ | BasicOut (Some _) => True | _ => False end.
Record collect_ok (k : Collected) : Prop := {
  co_kind id o : createdAccounts k !! id = Some o -> account_kind o;
  co_destroyed id : id ∈ destroyedAccounts k -> is_Some (consumedAccounts k !! id) /\ createdAccounts k !! id = None;
}.
Lemma collect_created_ok l k k' : fold_error collect_created l k = Some k' -> destroyedAccounts k = ∅ -> (forall id o, createdAccounts k !! id = Some o -> account_kind o) -> destroyedAccounts k' = ∅ /\ (forall id o, createdAccounts k' !! id = Some o -> account_kind o).
Proof.
  revert k. induction l as [|s l IH]; intros k; cbn; [by intros [= <-]|]. destruct s as [o|]; cbn; [|done]. intros Hr Hd Hk. apply (IH _ Hr); [by repeat case_match|]. intros id x Hx.
  assert (Hins : forall i y, <[i := o]> (createdAccounts k) !! id = Some y -> account_kind o -> account_kind y) by (intros i y; destruct (decide (id = i)) as [->|]; [rewrite lookup_insert_eq; by intros [= <-]|rewrite lookup_insert_ne by done; eauto]).
  destruct (out o) as [aid f st|did am v s0 e0|[h|]|] eqn:E; [case_match; [eauto|]|case_match; eauto|..]; try eauto.
  - eapply (Hins (account_of o aid)); [|by unfold account_kind; rewrite E]. by case_match.
  - eapply Hins; [exact Hx|]. unfold account_kind. by rewrite E.
Qed.
Lemma collect_consumed_ok l acc acc' : fold_error collect_consumed l acc = Some acc' -> collect_ok acc.1 -> collect_ok acc'.1.
Proof.
  revert acc. induction l as [|s l IH]; intros [k d]; cbn; [by intros [= <-]|]. destruct s as [o|]; cbn; [|done]. intros Hr [K1 K2]. apply (IH _ Hr).
  assert (Hc : forall id, collect_ok (with_consumed id o k)) by (intros id; split; [done|]; cbn; intros j Hj; destruct (K2 j Hj) as [[x Hx] ?]; split; [|done]; destruct (decide (j = id)) as [->|]; [rewrite lookup_insert_eq|rewrite lookup_insert_ne by done]; eauto).
  destruct (out o) as [aid f st|did am v s0 e0|[h|]|]; cbn; [case_match; [by split|]|repeat case_match; by split|apply Hc|by split|by split].
  destruct (createdAccounts k !! aid) as [x|] eqn:Ex; cbn; [apply Hc|]. destruct (Hc aid) as [K3 K4]. split; [done|]. cbn in *. intros j [->%elem_of_singleton|Hj]%elem_of_union; [split; [rewrite lookup_insert_eq; eauto|done]|by apply K4].
Qed.
Lemma collected_ok sd diffs k diffs' : processCreatedAndConsumedAccountOutputs sd diffs = Some (k, diffs') -> collect_ok k.
Proof.
  unfold processCreatedAndConsumedAccountOutputs. destruct (fold_error collect_created _ _) as [k0|] eqn:E0; [|done]. cbn [mbind option_bind]. destruct (fold_error collect_consumed _ _) as [[k1 d1]|] eqn:E; [|done]. cbn. intros [= <- <-].
  apply collect_created_ok in E0 as [H1 H2]; [|done|done]. apply (collect_consumed_ok _ _ _ E). split; [done|]. cbn. rewrite H1. set_solver.
Qed.
(** The diffs do not influence what is collected. *)
Lemma collect_consumed_same l k d1 d2 r : fold_error collect_consumed l (k, d1) = Some r -> exists d, fold_error collect_consumed l (k, d2) = Some (r.1, d).
Proof.
  revert k d1 d2. induction l as [|s l IH]; intros k d1 d2; cbn; [intros [= <-]; eauto|]. destruct s as [o|]; cbn; [|done]. destruct (out o) as [aid f st|did am v s0 e0|[h|]|]; cbn; repeat case_match; simplify_eq; apply IH.
Qed.
Lemma collected_same sd diffs k diffs' : processCreatedAndConsumedAccountOutputs sd diffs = Some (k, diffs') -> collected sd = Some k.
Proof.
  unfold collected, processCreatedAndConsumedAccountOutputs. destruct (fold_error collect_created _ _) as [k0|]; [|done]. cbn [mbind option_bind]. destruct (fold_error collect_consumed _ (k0, diffs)) as [[k1 d1]|] eqn:E; [|done]. cbn. intros [= <- <-]. destruct (collect_consumed_same _ _ _ ∅ _ E) as [d ->]. done.
Qed.
End Collect.

(** ** Committing a slot *)
Section Claim.
Context `{!SafeMath} `{!SafeMathSpec _} `{!RangeOrder AccountID} `{!RangeOrder BlockID} `{!LedgerHashes} {U M : Type} `{!UtxoStore U} (env : AEnv).
Context (stateMetadata : OutputID -> option LState) (earliestAttachment : TransactionID -> option (Z * SlotIndex)).
Context (StateDiff : SlotIndex -> option LDiff) (MutationsRoot : LDiff -> Z) (RMC : SlotIndex -> option Z) (AccountsTreeRoot : Manager -> Z).
Context (mana_ApplyDiff : SlotIndex -> gset AccountID -> gmap AccountID Output -> ADiffs -> M -> option M).
Lemma diffs_of (diffs : ADiffs) d2 id d : refines (Some <$> diffs) d2 -> diffs !! id = Some d -> exists d', d2 !! id = Some (Some d') /\ same_fields d d'.
Proof. intros Hr Hd. specialize (Hr id). by rewrite lookup_fmap, Hd in Hr. Qed.
Lemma diffs_of' (diffs : ADiffs) d2 id found : refines (Some <$> diffs) d2 -> (forall d, diffs !! id = Some d -> plain found d) -> d2 !! id = None \/ exists d d', d2 !! id = Some (Some d') /\ same_fields d d' /\ plain found d.
Proof.
  intros Hr Hp. specialize (Hr id). rewrite lookup_fmap in Hr. destruct (diffs !! id) as [d|]; cbn in Hr; [destruct Hr as (d' & H1 & H2); right; exists d, d'; auto|]. destruct Hr as [Hr|(d' & H1 & H2)]; [by left|right; exists NewAccountDiff, d'; auto using plain_new].
Qed.
(** The parts of a commit that succeeded. *)
Lemma CommitSlot_parts slot l roots l' : CommitSlot env stateMetadata earliestAttachment StateDiff MutationsRoot RMC AccountsTreeRoot mana_ApplyDiff slot l = Ret (Some roots, l') -> exists sd ss os diffs k diffs1 diffs2 rmc diffs3,
  StateDiff slot = Some sd /\ processStateDiffTransactions env stateMetadata earliestAttachment sd (accountsLedger l) = Ret (ss, os, diffs) /\ processCreatedAndConsumedAccountOutputs sd diffs = Some (k, diffs1) /\
  prepareAccountDiffs env diffs1 slot (consumedAccounts k) (createdAccounts k) (accountsLedger l) = Ret diffs2 /\ ApplyDiff env slot rmc (Some <$> diffs2) (destroyedAccounts k) (accountsLedger l) = Ret (Some diffs3, accountsLedger l').
Proof.
  unfold CommitSlot. intros (li & l0 & [= <- <-] & Hr)%eprog_bind_Ret. apply eprog_bind_Ret in Hr as (i & l1 & [= Hi <-] & Hr). destruct (decide (slot <> u32 (i + 1))); [done|]. apply eprog_bind_Ret in Hr as (sd & l1 & [= Hsd <-] & Hr).
  apply eprog_bind_Ret in Hr as (r & l1 & [= <- <-] & Hr). apply eprog_bind_Ret in Hr as ([[ss os] diffs] & l1 & Hp & Hr). unfold elift in Hp. destruct (processStateDiffTransactions _ _ _ _ _) as [r| |] eqn:E1; cbn in Hp; [|done..]. injection Hp as -> <-.
  apply eprog_bind_Ret in Hr as ([k diffs1] & l1 & [= Hk <-] & Hr). apply eprog_bind_Ret in Hr as ([] & l1 & [= <-] & Hr). apply eprog_bind_Ret in Hr as (r & l1 & [= <- <-] & Hr). apply eprog_bind_Ret in Hr as (diffs2 & l1 & Hp & Hr). unfold elift in Hp. cbn [with_events accountsLedger] in Hp.
  destruct (prepareAccountDiffs _ _ _ _ _ _) as [d| |] eqn:E2; cbn in Hp; [|done..]. injection Hp as -> <-. apply eprog_bind_Ret in Hr as (u & l1 & [= <- <-] & Hr). apply eprog_bind_Ret in Hr as (u & l1 & [= Hu <-] & Hr). apply eprog_bind_Ret in Hr as ([] & l1 & [= <-] & Hr).
  apply eprog_bind_Ret in Hr as (rmc & l1 & [= Hrmc <-] & Hr). apply eprog_bind_Ret in Hr as (diffs3 & l1 & Ha & Hr). cbn [with_utxo with_events accountsLedger] in Ha. destruct (ApplyDiff _ _ _ _ _ _) as [[r a]| |] eqn:E3; [|done..]. injection Ha as -> <-.
  apply eprog_bind_Ret in Hr as (x & l1 & [= <- <-] & Hr). apply eprog_bind_Ret in Hr as (mana & l1 & [= Hmana <-] & Hr). apply eprog_bind_Ret in Hr as ([] & l1 & [= <-] & Hr). apply eprog_bind_Ret in Hr as ([] & l1 & [= <-] & Hr). injection Hr as _ <-. cbn.
  exists sd, ss, os, diffs, k, diffs1, diffs2, rmc, diffs3. by split_and!.
Qed.
(** C2 A slot is committed whose consumed account outputs agree with the accounts they belong to, and whose created account outputs either consume the account's output or are for an account the
    ledger does not have (or has without output, keys and stake); amounts are below 2^63.  Then every account is in one of four cases.  The slot created an account output for it: the account
    agrees with it in output, expiry slot, keys and stake.  The slot destroyed it: it is gone.  It existed and the slot did neither: it still exists with the same output, expiry slot, keys and
    stake.  It did not exist: it does not, or only as an account without output, keys and stake, which is what an allotment to an account that does not exist makes. *)
Theorem accounts_agree_after_commit slot l roots l' sd k :
  let m := accountsLedger l in
  let m' := accountsLedger l' in
  0 <= MaxCommittableAge env (latestCommittedSlot m) -> in_range Uint32 (latestCommittedSlot m + MaxCommittableAge env (latestCommittedSlot m)) -> in_range Uint32 (latestCommittedSlot m) ->
  StateDiff slot = Some sd -> ld_Slot sd = slot -> collected sd = Some k ->
  (forall id o, consumedAccounts k !! id = Some o -> output_ok o /\ exists a, accountsTree m !! id = Some a /\ agrees_with o a) ->
  (forall id o, createdAccounts k !! id = Some o -> output_ok o /\ (consumedAccounts k !! id = None -> forall a, accountsTree m !! id = Some a -> blank a)) ->
  (forall id a, accountsTree m !! id = Some a -> stakes_in_range a) ->
  CommitSlot env stateMetadata earliestAttachment StateDiff MutationsRoot RMC AccountsTreeRoot mana_ApplyDiff slot l = Ret (Some roots, l') ->
  forall id,
    match createdAccounts k !! id with
    | Some o => exists a', accountsTree m' !! id = Some a' /\ agrees_with o a'
    | None =>
        if decide (id ∈ destroyedAccounts k) then accountsTree m' !! id = None
        else match accountsTree m !! id with
             | Some a => exists a', accountsTree m' !! id = Some a' /\ same_account a a'
             | None => accountsTree m' !! id = None \/ exists a', accountsTree m' !! id = Some a' /\ blank a'
             end
    end.
Proof.
  cbv zeta. set (m := accountsLedger l). intros Hage Hrange Hlat Hsd Hds Hk Hcons Hcreated Hst Hrun. destruct (CommitSlot_parts _ _ _ _ Hrun) as (sd' & ss & os & diffs & k' & diffs1 & diffs2 & rmc & diffs3 & Hsd' & Hp & Hcol & Hprep & Happ). rewrite Hsd in Hsd'. injection Hsd' as <-.
  pose proof (collected_same _ _ _ _ Hcol) as Hk'. rewrite Hk in Hk'. injection Hk' as <-. apply ApplyDiff_tree in Happ as (d2 & Href & Hs & Htree). fold m in Hs, Htree.
  assert (Hslot : u32 (slot - 1) = latestCommittedSlot m). { rewrite Hs. rewrite <- (wrap_id Uint32 (latestCommittedSlot m)) at 2 by done. apply wrap_eq. destruct (wrap_decomp Uint32 (latestCommittedSlot m + 1)) as [q ->]. exists q. lia. }
  assert (Hpl : plain_diffs m diffs1).
  { eapply collected_plain; [|exact Hcol]. unfold processStateDiffTransactions in Hp. rewrite Hds in Hp. eapply process_transactions_plain; [exact Hage|exact Hrange|exact Hslot| |exact Hp]. done. }
  destruct (prepared env stateMetadata earliestAttachment m Hage Hrange slot Hslot _ _ _ _ Hprep) as (Q1 & Q2 & Q3 & Q4). destruct (collected_ok _ _ _ _ Hcol) as [K1 K2]. intros id. specialize (Htree id). destruct (createdAccounts k !! id) as [o|] eqn:Ho.
  - destruct (Hcreated id o Ho) as [Hok Hfresh]. assert (Hnd : id ∉ destroyedAccounts k) by (intros Hd; destruct (K2 id Hd); congruence). destruct (consumedAccounts k !! id) as [c|] eqn:Ec.
    + destruct (Q1 id c o Ec Ho) as (a & d & Ha & Ht & Hd). destruct (diffs_of _ _ _ _ Href Hd) as (d' & Hd' & Hf). rewrite Hd', decide_False in Htree by done. destruct Htree as (d0 & a' & d1 & [= <-] & Hc & Htr). rewrite Ha in Hc. exists a'. split; [done|].
      destruct (Hcons id c Ec) as (Hokc & b & Hb & Hbc). assert (b = a) as -> by congruence. eapply transition_commit; [exact Hbc|done|done| |exact Ht|exact Hf|exact Hc]. rewrite <- Ha. by apply plain_get.
    + destruct (Q3 id o Ec Ho) as (d & Ht & Hd). destruct (diffs_of _ _ _ _ Href Hd) as (d' & Hd' & Hf). rewrite Hd', decide_False in Htree by done. destruct Htree as (d0 & a' & d1 & [= <-] & Hc & Htr). exists a'. split; [done|].
      eapply creation_commit; [exact (Hfresh eq_refl)|done| |exact Ht|exact Hf| |exact Hc]; [by apply plain_get|]. specialize (K1 id o Ho). unfold account_kind in K1. unfold creation_diff in Ht. by destruct (out o) as [? [?|] ?| |[?|]|].
  - destruct (decide (id ∈ destroyedAccounts k)) as [Hd|Hnd].
    + destruct (K2 id Hd) as [[c Hc] Hno]. destruct (diffs_of _ _ _ _ Href (Q2 id c Hc Hno)) as (d' & Hd' & _). by rewrite Hd' in Htree.
    + assert (Hkept : accountsTree (accountsLedger l') !! id = accountsTree m !! id \/ exists a', accountsTree (accountsLedger l') !! id = Some a' /\ same_account (default (NewAccountData id) (accountsTree m !! id)) a').
      { destruct (diffs_of' diffs2 d2 id (accountsTree m !! id) Href) as [Hn|(d & d' & Hd' & Hf & Hpd)].
        - intros d Hd. destruct (consumedAccounts k !! id) as [c|] eqn:Ec; [rewrite (Q2 id c Ec Ho) in Hd; injection Hd as <-; by apply plain_get|]. rewrite (Q4 id Ec Ho) in Hd. by apply Hpl.
        - left. by rewrite Hn in Htree.
        - rewrite Hd' in Htree. destruct Htree as (d0 & a' & d1 & [= <-] & Hc & Htr). right. exists a'. split; [done|]. eapply plain_commit; [|exact Hpd|exact Hf|exact Hc]. destruct (accountsTree m !! id) eqn:E; [by eapply Hst|done]. }
      destruct (accountsTree m !! id) as [a|] eqn:Ha; cbn [default from_option] in Hkept.
      * destruct Hkept as [->|Hkept]; [|done]. exists a. by repeat split.
      * destruct Hkept as [->|(a' & Ha' & Hsame)]; [by left|]. right. exists a'. split; [done|]. destruct Hsame as (E1 & E2 & E3 & E4 & E5 & E6). unfold blank. by rewrite E1, E2, E3, E4, E5, E6.
Qed.
End Claim.

(** ** Witnesses *)
Module LedgerDemo.
#[local] Instance demo_accounts : RangeOrder AccountID := canonical_order AccountID.
#[local] Instance demo_blocks : RangeOrder BlockID := canonical_order BlockID.
#[local] Instance demo_hashes : LedgerHashes := {| AccountIDFromOutputID o := o + 1000; DelegationIDFromOutputID o := o + 2000; TransactionIDOf o := o / 10 |}.
(** A UTXO ledger that only counts slots. *)
#[local] Instance demo_utxo : UtxoStore Z := {| ReadLedgerSlot u := Some u; utxo_ApplyDiff slot _ _ _ := Some slot; StateTreeRoot u := u; IsOutputIDUnspent _ _ := Some true; ReadOutputByOutputID _ _ := None; ReadSpentForOutputID _ _ := None |}.
(** Account 7 moves from output 70 to output 71, with another key, expiry slot and stake; output 90 creates an implicit account, which nobody allots to; account 5 does not exist. *)
Definition out70 : Output := mkOutput 70 1 3 (AccountOut 7 (Some (mkBlockIssuer 50 {[key1]})) (Some (mkStaking 1000 0 0 3))).
Definition out71 : Output := mkOutput 71 0 0 (AccountOut 7 (Some (mkBlockIssuer 60 {[key2]})) (Some (mkStaking 1500 0 0 9))).
Definition out90 : Output := mkOutput 90 0 0 (BasicOut (Some 4)).
Definition tx (allotments : list (AccountID * Z)) : Transaction := mkTransaction 7 true (Some [70]) [OutputState out71; OutputState out90] allotments 8.
Definition demo_diff (allotments : list (AccountID * Z)) : LDiff := mkLDiff 11 [tx allotments] [OutputState out71; OutputState out90] [OutputState out70].
Definition states (id : OutputID) : option LState := if decide (id = 70) then Some (OutputState out70) else None.
Definition demo_ledger : Ledger Z unit := mkLedger 10 ledger10 tt [] [] [].
Definition commit (sd : LDiff) : outcome (option (Z * Z * Z) * Ledger Z unit) :=
  CommitSlot ledger_env states (fun _ => None) (fun _ => Some sd) (fun _ => 1) (fun _ => Some 1) (fun _ => 2) (fun _ _ _ _ x => Some x) 11 demo_ledger.
Definition after_commit (sd : LDiff) : Ledger Z unit := match commit sd with Ret (_, l) => l | _ => demo_ledger end.
Definition found (sd : LDiff) : Collected := default (mkCollected ∅ ∅ ∅ ∅ []) (collected sd).
(** A slot that moves account 7 to output 71, creates an implicit account and allots to account 5, which does not exist. *)
Lemma accounts_agree_after_commit_witness : let m' := accountsLedger (after_commit (demo_diff [(7, 5); (5, 100)])) in
  (exists a, accountsTree m' !! 7 = Some a /\ agrees_with out71 a) /\ (exists a, accountsTree m' !! 1090 = Some a /\ agrees_with out90 a) /\ (accountsTree m' !! 5 = None \/ exists a, accountsTree m' !! 5 = Some a /\ blank a).
Proof.
  set (sd := demo_diff [(7, 5); (5, 100)]). assert (Hc : commit sd = Ret (Some (11, 1, 2), after_commit sd)) by (vm_compute; reflexivity). assert (Hk : collected sd = Some (found sd)) by (vm_compute; reflexivity).
  pose proof (accounts_agree_after_commit ledger_env states (fun _ => None) (fun _ => Some sd) (fun _ => 1) (fun _ => Some 1) (fun _ => 2) (fun _ _ _ _ x => Some x) 11 demo_ledger (11, 1, 2) (after_commit sd) sd (found sd)) as H.
  assert (Hcons : consumedAccounts (found sd) = {[7 := out70]}) by (vm_compute; reflexivity). assert (Hcr : createdAccounts (found sd) = {[7 := out71; 1090 := out90]}) by (vm_compute; reflexivity). assert (Htr : accountsTree (accountsLedger demo_ledger) = {[7 := account7]}) by (vm_compute; reflexivity).
  assert (Hdes : destroyedAccounts (found sd) = ∅) by (vm_compute; reflexivity). cbv zeta in H. rewrite Hcons, Hcr, Htr, Hdes in H.
  opose proof (H _ _ _ eq_refl eq_refl Hk _ _ _ Hc) as H'.
  - vm_compute. discriminate.
  - vm_compute. split; discriminate.
  - vm_compute. split; discriminate.
  - intros id o [<- <-]%lookup_singleton_Some. split; [repeat split; (done || lia)|]. exists account7. split; [by vm_compute|]. vm_compute. repeat split.
  - intros id o [[<- <-]|[_ [<- <-]%lookup_singleton_Some]]%lookup_insert_Some; (split; [vm_compute; repeat split; discriminate|]); intros Hn a Ha; exfalso; [vm_compute in Hn|vm_compute in Ha]; discriminate.
  - intros id a [<- <-]%lookup_singleton_Some. vm_compute. repeat split; discriminate.
  - cbv zeta. clear H Hc. generalize dependent (accountsTree (accountsLedger (after_commit sd))). intros T HT. pose proof (HT 7) as H7. pose proof (HT 1090) as H1090. pose proof (HT 5) as H5. rewrite lookup_insert_eq in H7. rewrite lookup_insert_ne, lookup_singleton_eq in H1090 by done.
    rewrite lookup_insert_ne, !lookup_singleton_ne in H5 by done. destruct (decide (5 ∈ (∅ : gset AccountID))) as [Hin|_]; [by apply not_elem_of_empty in Hin|]. by split_and!.
Defined.
(** An allotment to an account that does not exist is not burned only: the accounts tree gets an account without output and keys. *)
Lemma allotment_creates_account : (fun a => (AccOutputID a, BlockIssuerKeys a)) <$> accountsTree (accountsLedger (after_commit (demo_diff [(5, 100)]))) !! 5 = Some (EmptyOutputID, ∅).
Proof. vm_compute. reflexivity. Qed.
(** Consuming an account output that still has the zero ID, that is the first transition of an account, is a panic. *)
Definition first70 : Output := mkOutput 70 1 3 (AccountOut 0 (Some (mkBlockIssuer 50 {[key1]})) None).
Definition next1070 : Output := mkOutput 71 0 0 (AccountOut 1070 (Some (mkBlockIssuer 60 {[key1]})) None).
Lemma first_transition_panics :
  let l := mkLedger 10 (with_tree {[1070 := mkAccountData 1070 (mkCredits 0 5) 50 70 {[key1]} 0 0 0 0 noVersionAndHash]} ledger10) tt [] [] [] in
  let sd := mkLDiff 11 [mkTransaction 7 true (Some [70]) [OutputState next1070] [] 8] [OutputState next1070] [OutputState first70] in
  CommitSlot (M := unit) ledger_env (fun _ => Some (OutputState first70)) (fun _ => None) (fun _ => Some sd) (fun _ => 1) (fun _ => Some 1) (fun _ => 2) (fun _ _ _ _ x => Some x) 11 l = Panic.
Proof. vm_compute. reflexivity. Qed.
(** The error of a transaction whose input is missing is lost: the slot is committed without the rest. *)
Lemma missing_input_ignored : exists r l, CommitSlot (M := unit) ledger_env (fun _ => None) (fun _ => None) (fun _ => Some (mkLDiff 11 [tx []] [] [])) (fun _ => 1) (fun _ => Some 1) (fun _ => 2) (fun _ _ _ _ x => Some x) 11 demo_ledger = Ret (Some r, l)
  /\ StateDiffApplied l = [mkStateDiffApplied 11 [] []] /\ committedTransactions l = [7].
Proof. eexists _, _. split; [vm_compute; reflexivity|]. by split. Qed.
End LedgerDemo.
