(* ===== verification/ForkChoice.v ===== *)
(** * Forks (pkg/protocol: commitment_verifier.go, protocol_fork.go)

    When the chain manager detects a fork that claims more weight, the protocol asks the peer for the attestations of its slots, verifies them and counts how often the fork is heavier than the main
    chain.  If it decides to switch, it forks an engine, the candidate, lets it sync, and makes it the main engine once it is heavier.

    Signatures, Merkle proofs and the committee are parameters.  What the requests wait for (a tick of the retry timer, received attestations, the end of the context) is a list of selections in the order they happen;
    engines are objects that are running, shut down or removed from disk. *)
From S2P Require Import Prelude Block Accounts.

(** ** The verifier *)
Record Attestation := mkAtt { at_IssuerID : AccountID; at_PublicKey : option Z; at_Valid : bool; at_BlockID : option BlockID }.     (* the key of an ed25519 signature; whether the signature is valid *)
Record MCommitment := mkMCommitment { mc_ID : CommitmentID; mc_CumulativeWeight : Z; mc_RootsID : Z }.
Record CommitmentVerifier := mkVerifier { cumulativeWeight : Z; validatorAccountsAtFork : gmap AccountID AccountData }.
Section Attestations.
Context (hasSeat : SlotIndex -> AccountID -> bool).
Definition key_known (a : AccountData) (k : Z) : bool := bool_decide (Ed25519PublicKeyBlockIssuerKey k ∈ BlockIssuerKeys a).
Fixpoint verify_loop (accounts : gmap AccountID AccountData) (l : list Attestation) (visited : gset AccountID) (ids : list BlockID) (count : Z) : option (list BlockID * Z) :=
  match l with
  | [] => Some (ids, count)
  | att :: l =>
      a ← accounts !! at_IssuerID att;
      k ← at_PublicKey att;
      if negb (key_known a k) then verify_loop accounts l visited ids count
      else if negb (at_Valid att) then None
      else if bool_decide (at_IssuerID att ∈ visited) then None
      else b ← at_BlockID att;
        verify_loop accounts l ({[at_IssuerID att]} ∪ visited) (ids ++ [b]) (if hasSeat (Slot b) (at_IssuerID att) then u64 (count + 1) else count)
  end.
Definition verifyAttestations (l : list Attestation) (v : CommitmentVerifier) : option (list BlockID * Z) := verify_loop (validatorAccountsAtFork v) l ∅ [] 0.

(** ** What is verified *)
Definition counted (accounts : gmap AccountID AccountData) (att : Attestation) : bool := match accounts !! at_IssuerID att, at_PublicKey att with Some a, Some k => key_known a k | _, _ => false end.
Definition seated (att : Attestation) : bool := match at_BlockID att with Some b => hasSeat (Slot b) (at_IssuerID att) | None => false end.
Definition count_true {A} (f : A -> bool) (l : list A) : Z := Z.of_nat (length (filter (fun x => f x = true) l)).
Lemma verify_loop_exact accounts l : forall visited ids count, 0 <= count -> count + Z.of_nat (length l) < 2 ^ 64 -> forall r,
  verify_loop accounts l visited ids count = Some r <->
  (forall att, att ∈ l -> is_Some (accounts !! at_IssuerID att) /\ is_Some (at_PublicKey att)) /\
  (let votes := filter (fun att => counted accounts att = true) l in
   (forall att, att ∈ votes -> at_Valid att = true /\ is_Some (at_BlockID att) /\ at_IssuerID att ∉ visited) /\ NoDup (at_IssuerID <$> votes) /\
   r = (ids ++ omap at_BlockID votes, count + count_true seated votes)).
Proof.
  induction l as [|att l IH]; intros visited ids count Hc Hlen r; cbn [verify_loop].
  { split; [intros [= <-]; split; [set_solver|]; cbn; split_and!; [set_solver|constructor|f_equal; [by rewrite app_nil_r|unfold count_true; cbn; lia]]|]. intros (_ & _ & _ & ->). cbn. rewrite app_nil_r. unfold count_true. cbn. do 2 f_equal. lia. }
  cbn [length] in Hlen. destruct (accounts !! at_IssuerID att) as [a|] eqn:Ea; cbn [mbind option_bind]; [|split; [done|]; intros [Hall _]; destruct (Hall att) as [[? ?] _]; [set_solver|congruence]].
  destruct (at_PublicKey att) as [k|] eqn:Ek; cbn [mbind option_bind]; [|split; [done|]; intros [Hall _]; destruct (Hall att) as [_ [? ?]]; [set_solver|congruence]].
  assert (Hcnt : counted accounts att = key_known a k) by (unfold counted; by rewrite Ea, Ek).
  assert (Hall : (forall x, x ∈ att :: l -> is_Some (accounts !! at_IssuerID x) /\ is_Some (at_PublicKey x)) <-> (forall x, x ∈ l -> is_Some (accounts !! at_IssuerID x) /\ is_Some (at_PublicKey x))).
  { split; [intros H x Hx; apply H; set_solver|]. intros H x [->|Hx]%elem_of_cons; [rewrite Ea, Ek; eauto|auto]. }
  rewrite Hall. destruct (key_known a k) eqn:Ekn; cbn [negb].
  2: { rewrite filter_cons_False by (rewrite Hcnt; done). apply IH; lia. }
  rewrite filter_cons_True by done. destruct (at_Valid att) eqn:Ev; cbn [negb]; [|split; [done|]; intros (_ & Hv & _); destruct (Hv att) as [? _]; [set_solver|congruence]].
  case_bool_decide as Hvis; [split; [done|]; intros (_ & Hv & _); destruct (Hv att) as (_ & _ & ?); [set_solver|done]|]. destruct (at_BlockID att) as [b|] eqn:Eb; cbn [mbind option_bind]; [|split; [done|]; intros (_ & Hv & _); destruct (Hv att) as (_ & [? ?] & _); [set_solver|congruence]].
  assert (Hu : (if hasSeat (Slot b) (at_IssuerID att) then u64 (count + 1) else count) = count + if seated att then 1 else 0) by (unfold seated; rewrite Eb; destruct (hasSeat _ _); [rewrite (wrap_id Uint64) by (unfold in_range; cbn; lia); done|lia]).
  rewrite Hu, IH by (destruct (seated att); lia). cbv zeta. set (votes := filter _ l).
  assert (Hres : (ids ++ [b]) ++ omap at_BlockID votes = ids ++ omap at_BlockID (att :: votes)) by (rewrite <- app_assoc; cbn; by rewrite Eb).
  assert (Hct : count + (if seated att then 1 else 0) + count_true seated votes = count + count_true seated (att :: votes)) by (unfold count_true; destruct (seated att) eqn:Es; [rewrite (filter_cons_True _ att) by done; cbn [length]; lia|rewrite (filter_cons_False _ att) by (rewrite Es; done); lia]).
  rewrite Hres, Hct. split; intros (H0 & H1 & H2 & H3); (split; [done|]); split_and!; try done.
  - intros x [->|Hx]%elem_of_cons; [eauto|]. destruct (H1 x Hx) as (? & ? & ?). split_and!; [done|done|set_solver].
  - cbn. constructor; [|done]. intros Hin. apply list_elem_of_fmap in Hin as (x & Heq & Hx). destruct (H1 x Hx) as (_ & _ & Hn). set_solver.
  - intros x Hx. destruct (H1 x) as (? & ? & ?); [set_solver|]. split_and!; [done|done|]. intros [Heq%elem_of_singleton|?]%elem_of_union; [|done]. cbn in H2. apply NoDup_cons in H2 as [Hn _]. apply Hn, list_elem_of_fmap. eauto.
  - cbn in H2. by apply NoDup_cons in H2 as [_ H2].
Qed.
(** C6 Attestations are verified exactly if every issuer was a validator at the fork and signed with an ed25519 key and those that signed with a key known at the fork are validly signed, have a block ID and different issuers; the result then is the blocks of
    these and, as the weight of the slot, the number of those whose issuer has a seat. *)
Theorem attestations_counted_once l v ids n : Z.of_nat (length l) < 2 ^ 64 ->
  verifyAttestations l v = Some (ids, n) <->
  (forall att, att ∈ l -> is_Some (validatorAccountsAtFork v !! at_IssuerID att) /\ is_Some (at_PublicKey att)) /\
  (let votes := filter (fun att => counted (validatorAccountsAtFork v) att = true) l in
   (forall att, att ∈ votes -> at_Valid att = true /\ is_Some (at_BlockID att)) /\ NoDup (at_IssuerID <$> votes) /\ ids = omap at_BlockID votes /\ n = count_true seated votes).
Proof.
  intros Hl. unfold verifyAttestations. rewrite verify_loop_exact by lia. cbv zeta. split; intros (H0 & H1 & H2 & H3); (split; [done|]).
  - injection H3 as -> ->. split_and!; [|done|done|lia]. intros att Ha. by destruct (H1 att Ha) as (? & ? & _).
  - split_and!; [|done|destruct H3 as [-> ->]; f_equal; lia]. intros att Ha. destruct (H1 att Ha). split_and!; [done|done|set_solver].
Qed.
End Attestations.

(** ** Commitments *)
Section Verifier.
Context {Proof : Type} (tree_root : list Attestation -> option Z) (VerifyProof : Proof -> Z -> Z -> bool) (hasSeat : SlotIndex -> AccountID -> bool).
(** The weight is added before it is compared. *)
Definition verifyCommitment (c : MCommitment) (l : list Attestation) (proof : Proof) (v : CommitmentVerifier) : option (list BlockID * Z) * CommitmentVerifier :=
  match tree_root l with
  | None => (None, v)
  | Some root =>
      if negb (VerifyProof proof root (mc_RootsID c)) then (None, v)
      else match verifyAttestations hasSeat l v with
      | None => (None, v)
      | Some (ids, seatCount) =>
          let v := mkVerifier (u64 (cumulativeWeight v + seatCount)) (validatorAccountsAtFork v) in
          if mc_CumulativeWeight c <? cumulativeWeight v then (None, v) else (Some (ids, cumulativeWeight v), v)
      end
  end.

(** ** The fork choice *)
Inductive Select := Tick | Received (c : MCommitment) (l : list Attestation) (proof : Proof) | Done.
(** Result of a request; the result is not matched with the commitment that was asked for. *)
Fixpoint requestAttestation (retries : nat) (s : list Select) (v : CommitmentVerifier) : option (list BlockID * Z) * list Select * CommitmentVerifier :=
  match retries with
  | O => (None, s, v)
  | S n => match s with
      | [] => (None, [], v)
      | Tick :: s => requestAttestation n s v
      | Received c l proof :: s => let r := verifyCommitment c l proof v in (r.1, s, r.2)
      | Done :: s => (None, s, v)
      end
  end.
Record Fork := mkFork {
  ForkingPoint : SlotIndex;
  MainChain : SlotIndex -> option Z;                    (* weights of the commitments of the main chain *)
  ForkedChain : SlotIndex -> option CommitmentID;
  ForkedLatest : SlotIndex;
}.
Record Decision := mkDecision { anchorBlockIDs : list BlockID; shouldSwitch : bool; banSource : bool; failed : bool }.
Context (ChainSwitchingThreshold : Z) (MaxRetries : nat).
Definition forkChoiceRule (heavierCount : Z) : option bool :=
  if heavierCount =? ChainSwitchingThreshold then Some true else if heavierCount =? - ChainSwitchingThreshold then Some false else None.
Inductive comparison := IsHeavier | IsLighter | IsEqual.
Definition compare_weights (actual main : Z) : comparison := if main <? actual then IsHeavier else if actual <? main then IsLighter else IsEqual.
Definition count_slot (c : comparison) (heavierCount : Z) : Z := match c with IsHeavier => heavierCount + 1 | IsLighter => heavierCount - 1 | IsEqual => 0 end.
(** The anchor blocks are never collected. *)
Fixpoint process_slots (fork : Fork) (slots : list SlotIndex) (heavierCount : Z) (s : list Select) (v : CommitmentVerifier) : outcome Decision :=
  match slots with
  | [] => Ret (mkDecision [] false false false)
  | i :: slots =>
      match MainChain fork i with
      | None => let n := count_slot IsHeavier heavierCount in
          match forkChoiceRule n with Some b => Ret (mkDecision [] b false false) | None => process_slots fork slots n s v end
      | Some main =>
          _ ← deref (ForkedChain fork i);
          match requestAttestation MaxRetries s v with
          | (None, _, _) => Ret (mkDecision [] false true true)
          | (Some (_, actual), s, v) => let n := count_slot (compare_weights actual main) heavierCount in
              match forkChoiceRule n with Some b => Ret (mkDecision [] b false false) | None => process_slots fork slots n s v end
          end
      end
  end.
Definition fork_slots (fork : Fork) : list SlotIndex := seqZ (ForkingPoint fork) (ForkedLatest fork - ForkingPoint fork + 1).
Definition processFork (fork : Fork) (accountsAtFork : gmap AccountID AccountData) (s : list Select) : outcome Decision :=
  w ← deref (MainChain fork (u32 (ForkingPoint fork - 1)));
  process_slots fork (fork_slots fork) 0 s (mkVerifier w accountsAtFork).

(** ** What the decision rests on *)
(** The slots after the last one that was equal; the heavier of them less the lighter. *)
Definition since_equal (l : list comparison) : list comparison := foldl (fun acc c => match c with IsEqual => [] | _ => acc ++ [c] end) [] l.
Definition balance (l : list comparison) : Z := count_true (fun c => match c with IsHeavier => true | _ => false end) l - count_true (fun c => match c with IsLighter => true | _ => false end) l.
Definition tally (l : list comparison) : Z := balance (since_equal l).
(** Attestations [l] that came with commitment [m] are verified: their root is proved to be part of it, each counts once, and with them the fork has weight [w'], which [m] allows. *)
Definition verified (accounts : gmap AccountID AccountData) (w : Z) (m : MCommitment) (l : list Attestation) (proof : Proof) (w' : Z) : Prop :=
  exists root ids n, tree_root l = Some root /\ VerifyProof proof root (mc_RootsID m) = true /\ verifyAttestations hasSeat l (mkVerifier w accounts) = Some (ids, n) /\ w' = u64 (w + n) /\ w' <= mc_CumulativeWeight m.
(** A request is answered: fewer than [MaxRetries] ticks are followed by attestations that are verified. *)
Definition answered (accounts : gmap AccountID AccountData) (w : Z) (s : list Select) (w' : Z) (s' : list Select) : Prop :=
  exists k m l proof, (k < MaxRetries)%nat /\ s = replicate k Tick ++ Received m l proof :: s' /\ verified accounts w m l proof w'.
(** How the first slots compare, one by one: the weight of the fork at the start and what happens lead to these comparisons, the slots that are left, the weight of the fork there and what is still to happen. *)
Inductive evidence (fork : Fork) (accounts : gmap AccountID AccountData) : list SlotIndex -> Z -> list Select -> list comparison -> list SlotIndex -> Z -> list Select -> Prop :=
| evidence_start slots w s : evidence fork accounts slots w s [] slots w s
| evidence_missing i slots w s cs slots' w' s' : MainChain fork i = None -> evidence fork accounts slots w s cs slots' w' s' -> evidence fork accounts (i :: slots) w s (IsHeavier :: cs) slots' w' s'
| evidence_verified i slots w s main w1 s1 cs slots' w' s' : MainChain fork i = Some main -> is_Some (ForkedChain fork i) -> answered accounts w s w1 s1 -> evidence fork accounts slots w1 s1 cs slots' w' s' ->
    evidence fork accounts (i :: slots) w s (compare_weights w1 main :: cs) slots' w' s'.
(** A slot that both chains have, but for which no attestations can be verified. *)
Definition unverified (fork : Fork) (accounts : gmap AccountID AccountData) (slots : list SlotIndex) (w : Z) (s : list Select) : Prop :=
  exists i rest, slots = i :: rest /\ is_Some (MainChain fork i) /\ is_Some (ForkedChain fork i) /\ forall w' s', ~ answered accounts w s w' s'.
Definition undecided (n : Z) : Prop := - ChainSwitchingThreshold < n < ChainSwitchingThreshold.
Definition count_slots (n : Z) (l : list comparison) : Z := foldl (fun n c => count_slot c n) n l.
(** What is decided when the slots that were compared count [n]. *)
Definition decided (fork : Fork) (accounts : gmap AccountID AccountData) (n : Z) (slots : list SlotIndex) (w : Z) (s : list Select) (d : Decision) : Prop :=
  d = mkDecision [] true false false /\ n = ChainSwitchingThreshold \/
  d = mkDecision [] false false false /\ (n = - ChainSwitchingThreshold \/ undecided n /\ slots = []) \/
  d = mkDecision [] false true true /\ undecided n /\ unverified fork accounts slots w s.
Lemma verify_verified accounts w m l proof r v' : verifyCommitment m l proof (mkVerifier w accounts) = (Some r, v') <-> verified accounts w m l proof r.2 /\ v' = mkVerifier r.2 accounts /\ exists n, verifyAttestations hasSeat l (mkVerifier w accounts) = Some (r.1, n).
Proof.
  unfold verifyCommitment, verified. destruct r as [ids w']. cbn [fst snd]. destruct (tree_root l) as [root|]; [|split; [done|by intros [(? & ? & ? & ? & _) _]]]. destruct (VerifyProof proof root (mc_RootsID m)) eqn:Ep; cbn [negb].
  2: { split; [done|]. intros [(? & ? & ? & [= <-] & ? & _) _]. congruence. }
  destruct (verifyAttestations hasSeat l _) as [[ids0 n]|]; [|split; [done|by intros [(? & ? & ? & _ & _ & ? & _) _]]]. cbn [cumulativeWeight validatorAccountsAtFork]. destruct (Z.ltb_spec (mc_CumulativeWeight m) (u64 (w + n))) as [Hlt|Hge].
  - split; [done|]. intros [(? & ? & ? & _ & _ & [= <- <-] & -> & ?) _]. lia.
  - split.
    + intros [= <- <- <-]. split_and!; [|done|by eexists]. exists root, ids0, n. by split_and!.
    + intros ((? & ? & ? & _ & _ & [= <- <-] & -> & _) & -> & ? & [= <- _]). done.
Qed.
Lemma request_answered n accounts w s : match requestAttestation n s (mkVerifier w accounts) with
  | (Some r, s', v') => v' = mkVerifier r.2 accounts /\ exists k m l proof, (k < n)%nat /\ s = replicate k Tick ++ Received m l proof :: s' /\ verified accounts w m l proof r.2
  | (None, _, _) => forall k m l proof w' s', (k < n)%nat -> s = replicate k Tick ++ Received m l proof :: s' -> ~ verified accounts w m l proof w'
  end.
Proof.
  revert s. induction n as [|n IH]; intros s; cbn [requestAttestation]; [lia|]. destruct s as [|x s]; [by intros [|k] ? ? ? ? ? _|]. destruct x as [|m l proof|].
  - specialize (IH s). destruct (requestAttestation n s _) as [[[r|] s'] v'].
    + destruct IH as (-> & k & m & l & proof & Hk & -> & Hv). split; [done|]. exists (S k), m, l, proof. split; [lia|]. by split.
    + intros [|k] m l proof w' s1 Hk; cbn; [done|]. intros [= Hs]. eapply IH; [|exact Hs]. lia.
  - destruct (verifyCommitment m l proof _) as [[r|] v'] eqn:E; cbn [fst snd].
    + apply verify_verified in E as (Hv & -> & _). split; [done|]. exists O, m, l, proof. split; [lia|]. by split.
    + intros [|k] m1 l1 proof1 w' s1 _; cbn; [|done]. intros [= -> -> -> _] (root & ids & c & H1 & H2 & H3 & H4). assert (Hsome : verifyCommitment m1 l1 proof1 (mkVerifier w accounts) = (Some (ids, w'), mkVerifier w' accounts)) by (apply verify_verified; split_and!; [by exists root, ids, c|done|by exists c]). congruence.
  - by intros [|k] ? ? ? ? ? _.
Qed.
Lemma ticks_inj k m l proof s k' m' l' proof' s' : replicate k Tick ++ Received m l proof :: s = replicate k' Tick ++ Received m' l' proof' :: s' -> m = m' /\ l = l' /\ proof = proof' /\ s = s'.
Proof. revert k'. induction k as [|k IH]; intros [|k']; cbn; try done; [by intros [= -> -> -> ->]|]. intros [= H]. by apply IH in H. Qed.
Lemma rule_decided n : match forkChoiceRule n with Some true => n = ChainSwitchingThreshold | Some false => n = - ChainSwitchingThreshold | None => n ≠ ChainSwitchingThreshold /\ n ≠ - ChainSwitchingThreshold end.
Proof. unfold forkChoiceRule. destruct (Z.eqb_spec n ChainSwitchingThreshold); [done|]. by destruct (Z.eqb_spec n (- ChainSwitchingThreshold)). Qed.
(** The prefixes of a list of comparisons that are not all of it leave the decision open. *)
Definition open (n : Z) (cs : list comparison) : Prop := forall k, (k < length cs)%nat -> undecided (count_slots n (take k cs)).
Lemma open_cons n c cs : open n (c :: cs) <-> undecided n /\ open (count_slot c n) cs.
Proof.
  unfold open, count_slots. split.
  - intros H. split; [apply (H O); cbn; lia|]. intros k Hk. apply (H (S k)). cbn. lia.
  - intros [H0 H] [|k] Hk; [done|]. cbn in *. apply H. lia.
Qed.
Lemma slots_decided fork accounts slots : forall n w s d, 0 < ChainSwitchingThreshold -> undecided n ->
  process_slots fork slots n s (mkVerifier w accounts) = Ret d -> exists cs slots' w' s', evidence fork accounts slots w s cs slots' w' s' /\ open n cs /\ decided fork accounts (count_slots n cs) slots' w' s' d.
Proof.
  induction slots as [|i slots IH]; intros n w s d HT Hn; cbn [process_slots].
  { intros [= <-]. exists [], [], w, s. split_and!; [constructor|intros k; cbn; lia|]. right. left. split; [done|]. by right. }
  assert (Hstep : forall c w1 s1, match forkChoiceRule (count_slot c n) with Some b => Ret (mkDecision [] b false false) | None => process_slots fork slots (count_slot c n) s1 (mkVerifier w1 accounts) end = Ret d ->
    (forall cs slots' w' s', evidence fork accounts slots w1 s1 cs slots' w' s' -> evidence fork accounts (i :: slots) w s (c :: cs) slots' w' s') ->
    exists cs slots' w' s', evidence fork accounts (i :: slots) w s cs slots' w' s' /\ open n cs /\ decided fork accounts (count_slots n cs) slots' w' s' d).
  { intros c w1 s1 Hr Hev. pose proof (rule_decided (count_slot c n)) as Hrule. destruct (forkChoiceRule _) as [b|].
    - injection Hr as <-. exists [c], slots, w1, s1. split_and!; [apply Hev; constructor|apply open_cons; split; [done|intros k; cbn; lia]|]. destruct b; [by left|right; left; auto].
    - assert (Hu : undecided (count_slot c n)) by (unfold undecided in *; destruct c; cbn in *; lia). destruct (IH _ _ _ _ HT Hu Hr) as (cs & slots' & w' & s' & H1 & H2 & H3). exists (c :: cs), slots', w', s'. split_and!; [by apply Hev|by apply open_cons|done]. }
  destruct (MainChain fork i) as [main|] eqn:Em; [|intros Hr; eapply Hstep; [exact Hr|]; intros; by constructor]. destruct (ForkedChain fork i) eqn:Ef; cbn [deref mbind outcome_bind]; [|done].
  pose proof (request_answered MaxRetries accounts w s) as Hreq. destruct (requestAttestation MaxRetries s _) as [[[[ids w1]|] s1] v1].
  - destruct Hreq as (-> & k & m & l & proof & Hk & Hs & Hv). intros Hr. eapply (Hstep (compare_weights w1 main)); [exact Hr|]. intros cs slots' w' s' He. eapply evidence_verified; [done|by eexists| |exact He]. exists k, m, l, proof. auto.
  - intros [= <-]. exists [], (i :: slots), w, s. split_and!; [constructor|intros k; cbn; lia|]. right. right. split_and!; [done|apply Hn..|]. exists i, slots. split_and!; [done|by eexists|by eexists|]. intros w' s' (k & m & l & proof & Hk & Hs & Hv). by eapply Hreq.
Qed.
Lemma decided_slots fork accounts slots w s cs slots' w' s' : 0 < ChainSwitchingThreshold -> evidence fork accounts slots w s cs slots' w' s' -> forall n d, undecided n -> open n cs -> decided fork accounts (count_slots n cs) slots' w' s' d ->
  process_slots fork slots n s (mkVerifier w accounts) = Ret d.
Proof.
  intros HT. assert (Hrest : forall slots w s cs slots' w' s' n d, evidence fork accounts slots w s cs slots' w' s' -> open n cs -> decided fork accounts (count_slots n cs) slots' w' s' d -> (forall n d, undecided n -> open n cs -> decided fork accounts (count_slots n cs) slots' w' s' d -> process_slots fork slots n s (mkVerifier w accounts) = Ret d) ->
    match forkChoiceRule n with Some b => Ret (mkDecision [] b false false) | None => process_slots fork slots n s (mkVerifier w accounts) end = Ret d).
  { clear -HT. intros slots w s cs slots' w' s' n d He Ho Hd IH. pose proof (rule_decided n) as Hrule. destruct (forkChoiceRule n) as [b|] eqn:Er.
    - assert (Hcs : cs = []) by (destruct cs as [|c cs]; [done|]; apply open_cons in Ho as [Hu _]; unfold undecided in Hu; destruct b; lia). subst cs. cbn in Hd. unfold decided, undecided in Hd. unfold forkChoiceRule in Er.
      destruct (Z.eqb_spec n ChainSwitchingThreshold); [injection Er as <-|destruct (Z.eqb_spec n (- ChainSwitchingThreshold)); [injection Er as <-|done]]; destruct Hd as [[-> ?]|[[-> [?|[? _]]]|(-> & ? & _)]]; try done; lia.
    - apply IH; [|done|done]. destruct cs as [|c cs]; [|by apply open_cons in Ho as [? _]]. cbn in Hd. destruct Hd as [[_ ?]|[[_ [?|[? _]]]|(_ & ? & _)]]; try done; lia. }
  induction 1 as [slots w s|i slots w s cs slots' w' s' Hm He IH|i slots w s main w1 s1 cs slots' w' s' Hm [f Hf] Ha He IH]; intros n d Hn Ho Hd.
  - destruct Hd as [[_ ?]|[[-> [?|[_ ->]]]|(-> & _ & i & rest & -> & [main Hm] & [f Hf] & Hun)]]; unfold undecided in Hn; cbn in *; try lia; [done|]. rewrite Hm, Hf. cbn [deref mbind outcome_bind]. pose proof (request_answered MaxRetries accounts w s) as Hreq.
    destruct (requestAttestation MaxRetries s _) as [[[r|] s1] v1]; [|done]. destruct Hreq as (_ & k & m & l & proof & H). destruct (Hun r.2 s1). by exists k, m, l, proof.
  - cbn [process_slots]. rewrite Hm. apply open_cons in Ho as [_ Ho]. by eapply Hrest.
  - cbn [process_slots]. rewrite Hm, Hf. cbn [deref mbind outcome_bind]. apply open_cons in Ho as [_ Ho]. destruct Ha as (k & m & l & proof & Hk & Hs & Hv). pose proof (request_answered MaxRetries accounts w s) as Hreq.
    destruct (requestAttestation MaxRetries s _) as [[[[ids w2]|] s2] v2]; [|by destruct (Hreq k m l proof w1 s1 Hk Hs)]. destruct Hreq as (-> & k2 & m2 & l2 & proof2 & Hk2 & Hs2 & Hv2). cbn [snd] in *.
    rewrite Hs in Hs2. apply ticks_inj in Hs2 as (-> & -> & -> & ->). assert (w2 = w1) as -> by (destruct Hv as (? & ? & ? & _ & _ & H1 & -> & _), Hv2 as (? & ? & ? & _ & _ & H2 & -> & _); rewrite H1 in H2; by simplify_eq). by eapply Hrest.
Qed.
Lemma count_true_app {A} (f : A -> bool) l1 l2 : count_true f (l1 ++ l2) = count_true f l1 + count_true f l2.
Proof. unfold count_true. rewrite filter_app, length_app. lia. Qed.
Lemma count_true_one {A} (f : A -> bool) x : count_true f [x] = if f x then 1 else 0.
Proof. unfold count_true. destruct (f x) eqn:E; [by rewrite filter_cons_True by done|by rewrite filter_cons_False by (rewrite E; done)]. Qed.
(** The counter of the loop is the balance of the slots since the last equal one. *)
Lemma count_slots_tally l : count_slots 0 l = tally l.
Proof.
  unfold count_slots, tally, since_equal. enough (forall acc, foldl (fun n c => count_slot c n) (balance acc) l = balance (foldl (fun acc c => match c with IsEqual => [] | _ => acc ++ [c] end) acc l)) as H by apply (H []).
  induction l as [|c l IH]; intros acc; cbn [foldl]; [done|]. rewrite <- IH. f_equal.
  destruct c; cbn [count_slot]; [..|done]; unfold balance; rewrite !count_true_app, !count_true_one; cbv match; lia.
Qed.
(** A switch needs at least as many heavier slots as the threshold. *)
Lemma tally_heavier l : tally l <= count_true (fun c => match c with IsHeavier => true | _ => false end) l.
Proof.
  unfold tally, since_equal. enough (forall acc, balance (foldl (fun acc c => match c with IsEqual => [] | _ => acc ++ [c] end) acc l) <= count_true (fun c => match c with IsHeavier => true | _ => false end) (acc ++ l)) as H by apply (H []).
  assert (Hle : forall k, 0 <= count_true (fun c => match c with IsLighter => true | _ => false end) k /\ 0 <= count_true (fun c => match c with IsHeavier => true | _ => false end) k) by (intros k; unfold count_true; lia).
  induction l as [|c l IH]; intros acc; cbn [foldl]; [rewrite app_nil_r; unfold balance; specialize (Hle acc); lia|]. destruct c; [specialize (IH (acc ++ [IsHeavier]))|specialize (IH (acc ++ [IsLighter]))|specialize (IH [])]; rewrite <- ?app_assoc in IH; [exact IH..|].
  rewrite count_true_app. cbn [app] in IH. change (IsEqual :: l) with ([IsEqual] ++ l). rewrite count_true_app, count_true_one. pose proof (Hle acc). cbv match. lia.
Qed.
End Verifier.

(** ** Witnesses *)
Module ForkDemo.
Definition validator (k : Z) : AccountData := with_keys {[Ed25519PublicKeyBlockIssuerKey k]} (NewAccountData k).
Definition accounts : gmap AccountID AccountData := {[1 := validator 11; 2 := validator 12; 3 := validator 13]}.
Definition att (i k slot : Z) : Attestation := mkAtt i (Some k) true (Some (mkBlockID slot (i + 100 * slot))).
Definition votes (n slot : Z) : list Attestation := if n =? 1 then [att 1 11 slot] else [att 1 11 slot; att 2 12 slot].
Definition message (n slot : Z) : Select (Proof := unit) := Received (mkMCommitment (mkCommitmentID slot slot) 1000 0) (votes n slot) tt.
Definition chain (l : list Z) (i : SlotIndex) : option Z := if i <? 4 then None else l !! Z.to_nat (i - 4).
Definition fork (main : list Z) : Fork := mkFork 5 (chain main) (fun i => Some (mkCommitmentID i i)) 9.
Abbreviation run := (processFork (Proof := unit) (fun _ => Some 0) (fun _ _ _ => true) (fun _ _ => true) 3 3).
(** The key 99 is not known: the attestation is ignored. *)
Lemma attestations_counted_once_witness : verifyAttestations (fun _ _ => true) [att 1 11 5; att 2 99 5; att 3 13 5] (mkVerifier 0 accounts) = Some ([mkBlockID 5 501; mkBlockID 5 503], 2) /\
  NoDup (at_IssuerID <$> filter (fun a => counted accounts a = true) [att 1 11 5; att 2 99 5; att 3 13 5]).
Proof.
  assert (E : verifyAttestations (fun _ _ => true) [att 1 11 5; att 2 99 5; att 3 13 5] (mkVerifier 0 accounts) = Some ([mkBlockID 5 501; mkBlockID 5 503], 2)) by (vm_compute; reflexivity). split; [exact E|].
  apply (attestations_counted_once (fun _ _ => true) [att 1 11 5; att 2 99 5; att 3 13 5] (mkVerifier 0 accounts)) in E; [|vm_compute; reflexivity]. exact (proj1 (proj2 (proj2 E))).
Defined.
Definition fork_messages : list (Select (Proof := unit)) := [message 2 5; Tick; message 2 6; message 2 7].
(** Two slots heavier, one lighter, two heavier: the threshold of three is reached although no three slots in a row are heavier. *)
Lemma not_in_a_row : run (fork [100; 101; 103; 106; 106; 107]) accounts [message 2 5; message 2 6; message 1 7; message 2 8; message 2 9] = Ret (mkDecision [] true false false).
Proof. vm_compute. reflexivity. Qed.
(** The attestations of one slot, sent again and again, are counted for the following slots. *)
Lemma replayed_attestations_switch : run (fork [100; 101; 102; 103; 104; 105]) accounts [message 2 5; message 2 5; message 2 5] = Ret (mkDecision [] true false false).
Proof. vm_compute. reflexivity. Qed.
End ForkDemo.
