(* ===== verification/EngineSwitch.v ===== *)
(** * Main and candidate engines (pkg/protocol: protocol_fork.go, protocol.go, block_dispatcher.go; enginemanager/enginemanager.go; parts of engine/engine.go)

    Engines are instances with a directory.  The engine manager creates, forks and rolls them back and notes the name of the active one in a file; the protocol keeps a main engine and at most one candidate, which follows a fork.
    A candidate has hooks for block requests and for its commitments, a hook that is run when engines are switched, and a timer that discards it.

    The whole storage of an engine is represented by its latest commitment; the results of cloning and of rolling storage back, of writing the info file and of the chain manager are arguments.  Operations are steps of an execution;
    a switch of the engines is two, since the old main engine is replaced under the mutex and MainEngineSwitched is triggered after it is released.  Removing a directory succeeds, and a write of the info file that fails leaves the file as it was. *)
From S2P Require Import Prelude Block Accounts ForkChoice.

(** ** Engines and their manager *)
Record Engine := mkEngine { Name : Z; ChainID : CommitmentID; LatestCommitment : MCommitment; IsBootstrapped : bool; WasShutdown : bool }.
Record Protocol := mkProtocol {
  instances : gmap Z Engine;               (* every engine that was created, by pointer *)
  directory : gset Z;                      (* subdirectories of the base directory *)
  engineInfo : option Z;                   (* the info file *)
  activeInstance : Z;
  mainEngine : Z;
  candidateEngine : option Z;
  linkedEngine : Z;                        (* the engine whose events are those of the protocol *)
  requestHooks : gset Z;                   (* candidates with attached block requests *)
  commitmentHooks : gset Z;                (* candidates whose commitments are followed *)
  switchedHooks : gset Z;                  (* candidates with a hook on MainEngineSwitched *)
  timers : gset Z;                         (* candidates with a running timer *)
  activeEngineMutex : bool;                (* locked by an operation that has returned *)
  switching : gset Z;                      (* old main engines whose switch was not announced yet *)
}.
Definition with_instances v p := mkProtocol v (directory p) (engineInfo p) (activeInstance p) (mainEngine p) (candidateEngine p) (linkedEngine p) (requestHooks p) (commitmentHooks p) (switchedHooks p) (timers p) (activeEngineMutex p) (switching p).
Definition with_directory v p := mkProtocol (instances p) v (engineInfo p) (activeInstance p) (mainEngine p) (candidateEngine p) (linkedEngine p) (requestHooks p) (commitmentHooks p) (switchedHooks p) (timers p) (activeEngineMutex p) (switching p).
Definition with_active info a p := mkProtocol (instances p) (directory p) info a (mainEngine p) (candidateEngine p) (linkedEngine p) (requestHooks p) (commitmentHooks p) (switchedHooks p) (timers p) (activeEngineMutex p) (switching p).
Definition with_main m c p := mkProtocol (instances p) (directory p) (engineInfo p) (activeInstance p) m c (linkedEngine p) (requestHooks p) (commitmentHooks p) (switchedHooks p) (timers p) (activeEngineMutex p) (switching p).
Definition linkToEngine v p := mkProtocol (instances p) (directory p) (engineInfo p) (activeInstance p) (mainEngine p) (candidateEngine p) v (requestHooks p) (commitmentHooks p) (switchedHooks p) (timers p) (activeEngineMutex p) (switching p).
Definition with_hooks r c s t p := mkProtocol (instances p) (directory p) (engineInfo p) (activeInstance p) (mainEngine p) (candidateEngine p) (linkedEngine p) r c s t (activeEngineMutex p) (switching p).
Definition with_mutex v p := mkProtocol (instances p) (directory p) (engineInfo p) (activeInstance p) (mainEngine p) (candidateEngine p) (linkedEngine p) (requestHooks p) (commitmentHooks p) (switchedHooks p) (timers p) v (switching p).
Definition with_switching v p := mkProtocol (instances p) (directory p) (engineInfo p) (activeInstance p) (mainEngine p) (candidateEngine p) (linkedEngine p) (requestHooks p) (commitmentHooks p) (switchedHooks p) (timers p) (activeEngineMutex p) v.

Definition alter_engine (f : Engine -> Engine) (e : Z) (p : Protocol) : Protocol := with_instances (alter f e (instances p)) p.
Definition SetChainID (c : CommitmentID) : Z -> Protocol -> Protocol := alter_engine (fun e => mkEngine (Name e) c (LatestCommitment e) (IsBootstrapped e) (WasShutdown e)).
Definition Shutdown : Z -> Protocol -> Protocol := alter_engine (fun e => mkEngine (Name e) (ChainID e) (LatestCommitment e) (IsBootstrapped e) true).
Definition commit (c : MCommitment) (bootstrapped : bool) : Z -> Protocol -> Protocol := alter_engine (fun e => mkEngine (Name e) (ChainID e) c bootstrapped (WasShutdown e)).
Definition RemoveFromFilesystem (e : Z) (p : Protocol) : Protocol := match instances p !! e with Some x => with_directory (directory p ∖ {[Name x]}) p | None => p end.
Definition chain_of (p : Protocol) (e : Z) : option CommitmentID := ChainID <$> instances p !! e.
(** The instance is changed before the file is written. *)
Definition SetActiveInstance (written : bool) (e : Z) (p : Protocol) : bool * Protocol :=
  let info := if written then Name <$> instances p !! e else engineInfo p in (written, with_active info e p).
Definition zeroCommitmentID : CommitmentID := mkCommitmentID 0 0.
(** A new instance [id] with directory [name]. *)
Definition loadEngineInstance (id name : Z) (latest : MCommitment) (p : Protocol) : Protocol :=
  with_instances (<[id := mkEngine name zeroCommitmentID latest false false]> (instances p)) (with_directory ({[name]} ∪ directory p) p).
Inductive Rollback := CloneFailed | StorageFailed | AttestationsFailed (latest : MCommitment) | RolledBack (latest : MCommitment).
(** A fork that fails leaves its directory, and its engine, behind. *)
Definition ForkEngineAtSlot (id name : Z) (r : Rollback) (p : Protocol) : bool * Protocol :=
  match r with
  | CloneFailed | StorageFailed => (false, with_directory ({[name]} ∪ directory p) p)
  | AttestationsFailed latest => (false, loadEngineInstance id name latest p)
  | RolledBack latest => (true, loadEngineInstance id name latest p)
  end.
Definition RollbackEngine (id : Z) (r : Rollback) (p : Protocol) : bool * Protocol :=
  let p := Shutdown (activeInstance p) p in
  match instances p !! activeInstance p with
  | None => (false, p)
  | Some a => match r with
      | CloneFailed | StorageFailed => (false, p)
      | AttestationsFailed latest => (false, loadEngineInstance id (Name a) latest p)
      | RolledBack latest => (true, loadEngineInstance id (Name a) latest p)
      end
  end.
Definition CleanupNonActive (p : Protocol) : Protocol :=
  match instances p !! activeInstance p with Some a => with_directory (filter (fun d => d = Name a) (directory p)) p | None => p end.
(** Starting the node: what ran before is gone; the engine of the info file is loaded if its directory exists, else a new one. *)
Definition LoadActiveEngine (id name : Z) (r : Rollback) (fresh : MCommitment) (written : bool) (p : Protocol) : option Protocol :=
  let clean := mkProtocol ∅ (directory p) (engineInfo p) id id None id ∅ ∅ ∅ ∅ false ∅ in
  match (info ← engineInfo p; if bool_decide (info ∈ directory p) then Some info else None) with
  | Some info => match r with RolledBack latest => Some (CleanupNonActive (loadEngineInstance id info latest clean)) | _ => None end
  | None => match SetActiveInstance written id (loadEngineInstance id name fresh clean) with
      | (true, p) => Some (CleanupNonActive p)
      | (false, _) => None
      end
  end.

(** ** Candidates *)
(** Every candidate's cleanup forgets the candidate of the protocol, whichever it is; the timer runs on. *)
Definition cleanupFunc (e : Z) (p : Protocol) : Protocol :=
  let p := with_hooks (requestHooks p ∖ {[e]}) (commitmentHooks p ∖ {[e]}) (switchedHooks p ∖ {[e]}) (timers p) p in
  RemoveFromFilesystem e (Shutdown e (with_main (mainEngine p) None p)).
Definition onForkDetected (fp : CommitmentID) (d : Decision) (id name : Z) (r : Rollback) (p : Protocol) : Protocol :=
  if bool_decide ((candidateEngine p ≫= chain_of p) = Some fp) then p
  else if bool_decide (chain_of p (mainEngine p) = Some fp) then p
  else if failed d then p
  else if negb (shouldSwitch d) then p
  else match ForkEngineAtSlot id name r p with
  | (false, p) => p
  | (true, p) =>
      let p := SetChainID fp id p in
      let p := with_hooks ({[id]} ∪ requestHooks p) ({[id]} ∪ commitmentHooks p) ({[id]} ∪ switchedHooks p) ({[id]} ∪ timers p) p in
      let old := candidateEngine p in
      let p := with_main (mainEngine p) (Some id) p in
      match old with Some o => cleanupFunc o p | None => p end
  end.
(** The hooks of all candidates run when the engines are switched. *)
Definition MainEngineSwitched (p : Protocol) : Protocol := with_hooks (requestHooks p ∖ switchedHooks p) (commitmentHooks p ∖ switchedHooks p) ∅ (timers p ∖ switchedHooks p) p.
(** What is done under the mutex; the old main engine is noted. *)
Definition switchEngines (chainSwitched written : bool) (p : Protocol) : Protocol :=
  match candidateEngine p with
  | None => p
  | Some c =>
      if negb chainSwitched then p
      else match SetActiveInstance written c p with
      | (false, p) => p
      | (true, p) => let old := mainEngine p in with_switching ({[old]} ∪ switching p) (with_main c None (Shutdown old (linkToEngine c p)))
      end
  end.
(** What is done after it, for the old main engine. *)
Definition announceSwitch (old : Z) (p : Protocol) : Protocol := RemoveFromFilesystem old (MainEngineSwitched (with_switching (switching p ∖ {[old]}) p)).
Definition weight_of (p : Protocol) (e : Z) : Z := match instances p !! e with Some x => mc_CumulativeWeight (LatestCommitment x) | None => 0 end.
(** The commitment of a candidate is not the one of its fork. *)
Definition off_chain (c : MCommitment) (forked : option CommitmentID) : bool := match forked with Some f => bool_decide (f ≠ mc_ID c) | None => false end.
(** Engine [e] has committed [c]; [forked] is the commitment of that slot on the chain of its fork, if the chain is that long. *)
Definition LatestCommitmentUpdated (e : Z) (c : MCommitment) (bootstrapped : bool) (forked : option CommitmentID) (chainSwitched written : bool) (p : Protocol) : Protocol :=
  let p := commit c bootstrapped e p in
  if bool_decide (e ∉ commitmentHooks p) then p
  else if off_chain c forked then cleanupFunc e p
  else if bootstrapped && (weight_of p (mainEngine p) <? mc_CumulativeWeight c) then switchEngines chainSwitched written p else p.
Definition candidateTimeout (e : Z) (p : Protocol) : Protocol := cleanupFunc e (with_hooks (requestHooks p) (commitmentHooks p) (switchedHooks p) (timers p ∖ {[e]}) p).
(** Warp sync restores the state of its target if that has accepted blocks already: an error leaves the mutex locked, and it is the active instance that is rolled back. *)
Definition restoreEngine (target id : Z) (r : Rollback) (written : bool) (p : Protocol) : Protocol :=
  match RollbackEngine id r (with_mutex true p) with
  | (false, p) => p
  | (true, p) =>
      let p := SetChainID (default zeroCommitmentID (chain_of p target)) id p in
      match SetActiveInstance written id p with
      | (false, p) => p
      | (true, p) => with_mutex false (with_main id (candidateEngine p) (Shutdown (mainEngine p) (linkToEngine id p)))
      end
  end.
(** Shutting the protocol down. *)
Definition shutdown (p : Protocol) : Protocol := let p := Shutdown (mainEngine p) p in match candidateEngine p with Some c => Shutdown c p | None => p end.
(** Running the protocol with the engine that was loaded. *)
Definition Run (root : CommitmentID) (p : Protocol) : Protocol := SetChainID root (mainEngine p) (linkToEngine (mainEngine p) p).

(** ** Executions *)
Definition unused (id name : Z) (p : Protocol) : Prop := instances p !! id = None /\ name ∉ directory p /\ (forall e x, instances p !! e = Some x -> Name x ≠ name).
Section Executions.
Context {Proof : Type} (tree_root : list Attestation -> option Z) (VerifyProof : Proof -> Z -> Z -> bool) (hasSeat : SlotIndex -> AccountID -> bool) (ChainSwitchingThreshold : Z) (MaxRetries : nat).
(** What can happen while the mutex is free; a restart may happen at any time.  Writing the info file may fail.  Between the two parts of a switch everything else can happen but that the timer or the hook of the engine that has just become the main engine discards it
    and that an engine is restored; an engine is restored only if the active instance is the main engine, which a switch that could not write the info file has changed. *)
Inductive step (p : Protocol) : Protocol -> Prop :=
| step_fork fork fp accounts s d id name r : activeEngineMutex p = false -> processFork tree_root VerifyProof hasSeat ChainSwitchingThreshold MaxRetries fork accounts s = Ret d -> unused id name p -> step p (onForkDetected fp d id name r p)
| step_commit e x c bootstrapped forked chainSwitched written : activeEngineMutex p = false -> instances p !! e = Some x -> WasShutdown x = false -> (e = mainEngine p -> switching p = ∅ \/ off_chain c forked = false) ->
    step p (LatestCommitmentUpdated e c bootstrapped forked chainSwitched written p)
| step_announce old : activeEngineMutex p = false -> old ∈ switching p -> step p (announceSwitch old p)
| step_timeout e : activeEngineMutex p = false -> e ∈ timers p -> (e = mainEngine p -> switching p = ∅) -> step p (candidateTimeout e p)
| step_restore target id r written : activeEngineMutex p = false -> instances p !! id = None -> target = mainEngine p \/ Some target = candidateEngine p -> switching p = ∅ -> activeInstance p = mainEngine p ->
    step p (restoreEngine target id r written p)
| step_restart id name r fresh written root p' : name ∉ directory p -> LoadActiveEngine id name r fresh written p = Some p' -> step p (Run root p').
(** A node that starts for the first time. *)
Inductive started : Protocol -> Prop :=
| started_first id name r fresh written root p : LoadActiveEngine id name r fresh written (mkProtocol ∅ ∅ None 0 0 None 0 ∅ ∅ ∅ ∅ false ∅) = Some p -> started (Run root p)
| started_step p p' : started p -> step p p' -> started p'.
(** Candidates for which something is still attached or pending. *)
Definition pending (p : Protocol) : gset Z := requestHooks p ∪ commitmentHooks p ∪ switchedHooks p ∪ timers p.
Definition name_of (p : Protocol) (e : Z) : option Z := Name <$> instances p !! e.
Definition shut_of (p : Protocol) (e : Z) : option bool := WasShutdown <$> instances p !! e.
Definition stored (p : Protocol) (e : Z) : Prop := exists n, name_of p e = Some n /\ n ∈ directory p.
Definition attached (p : Protocol) : gset Z := pending p ∪ match candidateEngine p with Some c => {[c]} | None => ∅ end.
Record engines_ok (p : Protocol) : Prop := {
  ok_main : stored p (mainEngine p) /\ engineInfo p = name_of p (mainEngine p);
  ok_active : activeEngineMutex p = false -> linkedEngine p = mainEngine p /\ shut_of p (mainEngine p) = Some false;
  ok_candidate : forall c, candidateEngine p = Some c -> stored p c /\ (activeEngineMutex p = false -> shut_of p c = Some false) /\ c ≠ mainEngine p /\ (c ∈ pending p -> c ∈ switchedHooks p);
  ok_attached : forall e, e ∈ attached p -> is_Some (name_of p e) /\ (name_of p e = name_of p (mainEngine p) -> e = mainEngine p);
  ok_names : forall e f, e ∈ attached p -> f ∈ attached p -> name_of p e = name_of p f -> e = f;
  ok_announced : mainEngine p ∈ pending p -> switching p ≠ ∅ /\ mainEngine p ∈ switchedHooks p;
  ok_old : forall o, o ∈ switching p -> is_Some (name_of p o) /\ name_of p o ≠ name_of p (mainEngine p) /\ forall c, candidateEngine p = Some c -> name_of p o ≠ name_of p c;
}.
Lemma pending_attached e p : e ∈ pending p -> e ∈ attached p.
Proof. unfold attached. set_solver. Qed.
Lemma candidate_attached c p : candidateEngine p = Some c -> c ∈ attached p.
Proof. unfold attached. intros ->. set_solver. Qed.
(** Nothing but what the first state has is attached in the second. *)
Lemma attached_mono p q : pending q ⊆ pending p -> (forall c, candidateEngine q = Some c -> candidateEngine p = Some c) -> attached q ⊆ attached p.
Proof. unfold attached. intros H1 H2. destruct (candidateEngine q) as [c|]; [rewrite (H2 c eq_refl)|]; set_solver. Qed.
Lemma name_of_alter f e p k : (forall x, Name (f x) = Name x) -> name_of (alter_engine f e p) k = name_of p k.
Proof. intros Hf. unfold name_of, alter_engine. cbn. destruct (decide (e = k)) as [->|]; [rewrite lookup_alter|by rewrite lookup_alter_ne]. rewrite ?decide_True by done. destruct (instances p !! k); cbn; [by rewrite Hf|done]. Qed.
Lemma shut_of_Shutdown e p k : shut_of (Shutdown e p) k = if decide (e = k) then (fun _ => true) <$> shut_of p k else shut_of p k.
Proof. unfold shut_of, Shutdown, alter_engine. cbn. destruct (decide (e = k)) as [->|]; [rewrite lookup_alter, ?decide_True by done; by destruct (instances p !! k)|by rewrite lookup_alter_ne]. Qed.
Lemma shut_of_alter f e p k : (forall x, WasShutdown (f x) = WasShutdown x) -> shut_of (alter_engine f e p) k = shut_of p k.
Proof. intros Hf. unfold shut_of, alter_engine. cbn. destruct (decide (e = k)) as [->|]; [rewrite lookup_alter|by rewrite lookup_alter_ne]. rewrite ?decide_True by done. destruct (instances p !! k); cbn; [by rewrite Hf|done]. Qed.
Lemma remove_eq e p : RemoveFromFilesystem e p = with_directory (match name_of p e with Some n => directory p ∖ {[n]} | None => directory p end) p.
Proof. unfold RemoveFromFilesystem, name_of. destruct (instances p !! e); [done|by destruct p]. Qed.
Lemma cleanup_name e p k : name_of (cleanupFunc e p) k = name_of p k.
Proof. unfold cleanupFunc. rewrite remove_eq. transitivity (name_of (Shutdown e p) k); [reflexivity|by apply name_of_alter]. Qed.
Lemma cleanup_shut e p k : k ≠ e -> shut_of (cleanupFunc e p) k = shut_of p k.
Proof. intros Hk. unfold cleanupFunc. rewrite remove_eq. transitivity (shut_of (Shutdown e p) k); [reflexivity|]. rewrite shut_of_Shutdown. by rewrite decide_False. Qed.
Lemma cleanup_directory e p n : n ∈ directory p -> name_of p e ≠ Some n -> n ∈ directory (cleanupFunc e p).
Proof. intros Hn He. unfold cleanupFunc. rewrite remove_eq. cbn [directory with_directory]. unfold Shutdown. rewrite name_of_alter by done. change (n ∈ match name_of p e with Some n => directory p ∖ {[n]} | None => directory p end). destruct (name_of p e); [set_solver|done]. Qed.
Lemma cleanup_fields e p : mainEngine (cleanupFunc e p) = mainEngine p /\ candidateEngine (cleanupFunc e p) = None /\ engineInfo (cleanupFunc e p) = engineInfo p /\ activeInstance (cleanupFunc e p) = activeInstance p /\
  linkedEngine (cleanupFunc e p) = linkedEngine p /\ activeEngineMutex (cleanupFunc e p) = activeEngineMutex p /\ pending (cleanupFunc e p) ⊆ pending p /\ switching (cleanupFunc e p) = switching p /\ (forall k, k ≠ e -> k ∈ switchedHooks p -> k ∈ switchedHooks (cleanupFunc e p)).
Proof. unfold cleanupFunc. rewrite remove_eq. unfold pending. cbn. split_and!; try done; set_solver. Qed.
Lemma cleanup_ok e p : engines_ok p -> name_of p e ≠ name_of p (mainEngine p) -> engines_ok (cleanupFunc e p).
Proof.
  intros Hok Hname. assert (Hne : mainEngine p ≠ e) by congruence. destruct (cleanup_fields e p) as (F1 & F2 & F3 & F4 & F5 & F6 & F7 & F8 & F9). assert (Fa : attached (cleanupFunc e p) ⊆ attached p) by (apply attached_mono; [done|by rewrite F2]).
  constructor; rewrite ?F1, ?F2, ?F3, ?F4, ?F5, ?F6, ?F8.
  - destruct (ok_main p Hok) as [(n & Hn & Hd) Hi]. split; [|by rewrite cleanup_name]. exists n. rewrite cleanup_name. split; [done|]. apply cleanup_directory; [done|]. by rewrite <- Hn.
  - intros Hl. destruct (ok_active p Hok Hl) as (? & ?). split; [done|]. by rewrite cleanup_shut by done.
  - done.
  - intros k Hk. rewrite !cleanup_name. apply (ok_attached p Hok). by apply Fa.
  - intros k f Hk Hf. rewrite !cleanup_name. apply (ok_names p Hok); by apply Fa.
  - intros Hm. destruct (ok_announced p Hok) as [H1 H2]; [by apply F7|]. split; [done|]. by apply F9.
  - intros o Ho. rewrite !cleanup_name. destruct (ok_old p Hok o Ho) as (H1 & H2 & _). by split_and!.
Qed.
Lemma timeout_ok e p : engines_ok p -> e ∈ timers p -> (e = mainEngine p -> switching p = ∅) -> engines_ok (candidateTimeout e p).
Proof.
  intros Hok He Hg. assert (Hp : e ∈ pending p) by (unfold pending; set_solver). assert (Hne : e ≠ mainEngine p) by (intros ->; destruct (ok_announced p Hok Hp); auto). unfold candidateTimeout. set (q := with_hooks _ _ _ _ p).
  assert (Hpq : pending q ⊆ pending p) by (unfold pending, q; cbn; set_solver). assert (Haq : attached q ⊆ attached p) by (apply attached_mono; [done|tauto]).
  assert (Hq : engines_ok q).
  { constructor; [exact (ok_main p Hok)|exact (ok_active p Hok)| | | | |exact (ok_old p Hok)].
    - intros c Hc. destruct (ok_candidate p Hok c Hc) as (H1 & H2 & H3 & H4). split_and!; auto.
    - intros k Hk. apply (ok_attached p Hok). by apply Haq.
    - intros k f Hk Hf. apply (ok_names p Hok); by apply Haq.
    - intros Hm. apply (ok_announced p Hok). by apply Hpq. }
  apply cleanup_ok; [done|]. intros Heq. by apply Hne, (ok_attached p Hok e (pending_attached e p Hp)).
Qed.
(** Changing an engine, but for its name and whether it was shut down. *)
Lemma alter_ok f e p : (forall x, Name (f x) = Name x) -> (forall x, WasShutdown (f x) = WasShutdown x) -> engines_ok p -> engines_ok (alter_engine f e p).
Proof.
  intros Hn Hs Hok. constructor; cbn [mainEngine engineInfo activeEngineMutex activeInstance linkedEngine candidateEngine switchedHooks switching alter_engine with_instances].
  - destruct (ok_main p Hok) as [(n & H1 & H2) H3]. split; [exists n|]; rewrite name_of_alter by done; done.
  - intros Hl. rewrite shut_of_alter by done. by apply (ok_active p Hok).
  - intros c Hc. destruct (ok_candidate p Hok c Hc) as ((n & H1 & H2) & H3 & H4). rewrite shut_of_alter by done. split_and!; [exists n; rewrite name_of_alter by done; done|done|apply H4..].
  - intros k Hk. rewrite !name_of_alter by done. by apply (ok_attached p Hok).
  - intros k g Hk Hg. rewrite !name_of_alter by done. by apply (ok_names p Hok).
  - exact (ok_announced p Hok).
  - intros o Ho. rewrite !name_of_alter by done. destruct (ok_old p Hok o Ho) as (H1 & H2 & H3). split_and!; [done..|]. intros c Hc. rewrite name_of_alter by done. by apply H3.
Qed.
(** Creating an engine that is not used yet. *)
Lemma name_of_load id name latest p k : name_of (loadEngineInstance id name latest p) k = if decide (id = k) then Some name else name_of p k.
Proof. unfold name_of, loadEngineInstance. cbn. destruct (decide (id = k)) as [->|]; [by rewrite lookup_insert_eq|by rewrite lookup_insert_ne]. Qed.
Lemma shut_of_load id name latest p k : shut_of (loadEngineInstance id name latest p) k = if decide (id = k) then Some false else shut_of p k.
Proof. unfold shut_of, loadEngineInstance. cbn. destruct (decide (id = k)) as [->|]; [by rewrite lookup_insert_eq|by rewrite lookup_insert_ne]. Qed.
Lemma directory_ok d p : engines_ok p -> directory p ⊆ d -> engines_ok (with_directory d p).
Proof.
  intros Hok Hd. constructor; cbn; [|exact (ok_active p Hok)| |exact (ok_attached p Hok)|exact (ok_names p Hok)|exact (ok_announced p Hok)|exact (ok_old p Hok)].
  - destruct (ok_main p Hok) as [(n & H1 & H2) H3]. split; [|exact H3]. exists n. split; [exact H1|]. cbn. set_solver.
  - intros c Hc. destruct (ok_candidate p Hok c Hc) as ((n & H1 & H2) & H3). split; [|exact H3]. exists n. split; [exact H1|]. cbn. set_solver.
Qed.
Lemma load_ok id name latest p : engines_ok p -> instances p !! id = None -> engines_ok (loadEngineInstance id name latest p).
Proof.
  intros Hok Hid. assert (Hnone : name_of p id = None) by (unfold name_of; by rewrite Hid). apply (directory_ok ({[name]} ∪ directory p)) in Hok as Hok'; [|set_solver].
  assert (Hkeep : forall k, is_Some (name_of p k) -> name_of (loadEngineInstance id name latest p) k = name_of p k /\ shut_of (loadEngineInstance id name latest p) k = shut_of p k).
  { intros k [n Hn]. rewrite name_of_load, shut_of_load. destruct (decide (id = k)) as [->|]; [congruence|done]. }
  destruct (ok_main _ Hok') as [(n & H1 & H2) H3]. destruct (Hkeep (mainEngine p) (ex_intro _ n H1)) as [K1 K2].
  constructor; cbn [mainEngine engineInfo activeEngineMutex activeInstance linkedEngine candidateEngine switchedHooks switching loadEngineInstance with_instances with_directory].
  - split; [exists n; split; [by rewrite K1|exact H2]|rewrite K1; exact H3].
  - rewrite K2. exact (ok_active _ Hok').
  - intros c Hc. destruct (ok_candidate _ Hok' c Hc) as ((k & J1 & J2) & J3). destruct (Hkeep c (ex_intro _ k J1)) as [L1 L2]. rewrite L2. split; [exists k; split; [by rewrite L1|exact J2]|exact J3].
  - intros e He. destruct (ok_attached _ Hok' e He) as [J1 J2]. destruct (Hkeep e J1) as [L1 _]. rewrite L1, K1. by split.
  - intros e f He Hf. destruct (ok_attached _ Hok' e He) as [J1 _], (ok_attached _ Hok' f Hf) as [J2 _]. destruct (Hkeep e J1) as [L1 _], (Hkeep f J2) as [L2 _]. rewrite L1, L2. exact (ok_names _ Hok' e f He Hf).
  - exact (ok_announced _ Hok').
  - intros o Ho. destruct (ok_old _ Hok' o Ho) as (J1 & J2 & J3). destruct (Hkeep o J1) as [L1 _]. rewrite L1, K1. split_and!; [done..|]. intros c Hc. destruct (ok_attached _ Hok' c (candidate_attached c _ Hc)) as [J4 _]. rewrite (proj1 (Hkeep c J4)). by apply J3.
Qed.
Lemma attach_ok id p : engines_ok p -> stored p id -> shut_of p id = Some false -> id ∉ switching p -> (forall e, e ≠ id -> name_of p e ≠ name_of p id) -> id ≠ mainEngine p ->
  engines_ok (with_main (mainEngine p) (Some id) (with_hooks ({[id]} ∪ requestHooks p) ({[id]} ∪ commitmentHooks p) ({[id]} ∪ switchedHooks p) ({[id]} ∪ timers p) p)).
Proof.
  intros Hok [n [Hn Hd]] Hs Hp Hfresh Hm. set (p' := with_main _ _ _). assert (Hpend : forall e, e ∈ pending p' <-> e = id \/ e ∈ pending p) by (intros e; unfold pending, p'; cbn; set_solver).
  assert (Hatt : forall e, e ∈ attached p' -> e = id \/ e ∈ attached p) by (intros e; unfold attached; rewrite elem_of_union, Hpend; cbn; set_solver).
  constructor; [exact (ok_main p Hok)|exact (ok_active p Hok)| | | | |].
  - intros c [= <-]. split_and!; [by exists n|done|done|]. intros _. cbn. set_solver.
  - intros e [->|He]%Hatt; [split; [by eexists|]|exact (ok_attached p Hok e He)]. intros Heq. by destruct (Hfresh (mainEngine p)).
  - intros e f [->|He]%Hatt [->|Hf]%Hatt Heq; [done|destruct (decide (f = id)) as [->|Hfi]; [done|by destruct (Hfresh f Hfi)]|destruct (decide (e = id)) as [->|Hei]; [done|by destruct (Hfresh e Hei)]|exact (ok_names p Hok e f He Hf Heq)].
  - intros [|Hin]%Hpend; [done|]. destruct (ok_announced p Hok Hin). split; [done|]. cbn. set_solver.
  - intros o Ho. destruct (ok_old p Hok o Ho) as (H1 & H2 & _). split_and!; [done..|]. intros c [= <-]. apply Hfresh. by intros ->.
Qed.
Lemma fork_ok fp d id name r p : engines_ok p -> unused id name p -> engines_ok (onForkDetected fp d id name r p).
Proof.
  intros Hok (U1 & U2 & U3). unfold onForkDetected. repeat (case_match; [done|]). destruct r as [| |latest|latest]; cbn [ForkEngineAtSlot]; [apply directory_ok; [done|set_solver]..|by apply load_ok|].
  set (q := loadEngineInstance id name latest p). assert (Hq : engines_ok (SetChainID fp id q)) by (apply alter_ok; [done..|by apply load_ok]). set (w := SetChainID fp id q) in *.
  assert (Hname : forall k, name_of w k = if decide (id = k) then Some name else name_of p k) by (intros k; unfold w, SetChainID; rewrite name_of_alter by done; apply name_of_load).
  assert (Hold : forall e, name_of p e ≠ Some name) by (intros e; unfold name_of; destruct (instances p !! e) as [x|] eqn:E; cbn; [intros [= Hx]; by apply (U3 e x)|done]).
  assert (Hpe : forall e, is_Some (name_of p e) -> id ≠ e) by (intros e [n Hn] <-; unfold name_of in Hn; by rewrite U1 in Hn).
  assert (Hat : engines_ok (with_main (mainEngine w) (Some id) (with_hooks ({[id]} ∪ requestHooks w) ({[id]} ∪ commitmentHooks w) ({[id]} ∪ switchedHooks w) ({[id]} ∪ timers w) w))).
  { apply attach_ok; [done| | | | |].
    - exists name. rewrite Hname, decide_True by done. split; [done|]. cbn. set_solver.
    - unfold w, SetChainID. rewrite shut_of_alter by done. unfold q. by rewrite shut_of_load, decide_True.
    - intros Ho. destruct (ok_old p Hok id Ho) as (Hs & _). by destruct (Hpe id Hs).
    - intros e He. rewrite !Hname, (decide_True (P := id = id)) by done. rewrite decide_False by done. apply Hold.
    - destruct (ok_main p Hok) as [(n & Hn & _) _]. apply Hpe. by eexists. }
  destruct (candidateEngine _) as [o|] eqn:Eo; [|exact Hat]. change (candidateEngine p = Some o) in Eo. destruct (ok_attached p Hok o (candidate_attached o p Eo)) as [Hso Hno]. destruct (ok_candidate p Hok o Eo) as (_ & _ & Hom & _).
  apply cleanup_ok; [exact Hat|]. change (name_of w o ≠ name_of w (mainEngine p)). rewrite !Hname. rewrite decide_False by (by apply Hpe). rewrite decide_False by (apply Hpe; destruct (ok_main p Hok) as [(n & Hn & _) _]; by eexists). auto.
Qed.
(** The first part of a switch. *)
Lemma switch_name cs written p k : name_of (switchEngines cs written p) k = name_of p k.
Proof. unfold switchEngines. destruct (candidateEngine p) as [c|]; [|done]. destruct cs, written; try done. cbn. transitivity (name_of (Shutdown (mainEngine p) p) k); [reflexivity|by apply name_of_alter]. Qed.
Lemma switch_shut c p : candidateEngine p = Some c -> c ≠ mainEngine p -> shut_of (switchEngines true true p) c = shut_of p c.
Proof. intros Hc Hne. unfold switchEngines. rewrite Hc. cbn. transitivity (shut_of (Shutdown (mainEngine p) p) c); [reflexivity|]. rewrite shut_of_Shutdown. by rewrite decide_False. Qed.
Lemma switch_fields c p : candidateEngine p = Some c -> let q := switchEngines true true p in mainEngine q = c /\ candidateEngine q = None /\ engineInfo q = name_of p c /\ linkedEngine q = c /\ pending q = pending p /\ switchedHooks q = switchedHooks p /\
  directory q = directory p /\ switching q = {[mainEngine p]} ∪ switching p.
Proof. intros Hc q. unfold q, switchEngines. rewrite Hc. by split_and!. Qed.
Lemma switch_ok cs written p : activeEngineMutex p = false -> engines_ok p -> engines_ok (switchEngines cs written p).
Proof.
  intros Hl Hok. destruct (candidateEngine p) as [c|] eqn:Ec; [|unfold switchEngines; by rewrite Ec]. destruct cs; [|unfold switchEngines; by rewrite Ec].
  destruct written; [|unfold switchEngines; rewrite Ec; destruct Hok; by constructor].
  destruct (ok_candidate p Hok c Ec) as ((n & Hn & Hd) & Hs & Hcm & Hh). specialize (Hs Hl). pose proof (candidate_attached c p Ec) as Hca. destruct (ok_attached p Hok c Hca) as [_ Hne]. pose proof (switch_shut c p Ec Hcm) as Hsh.
  destruct (switch_fields c p Ec) as (F1 & F2 & F3 & F4 & F5 & F6 & F7 & F8). set (q := switchEngines true true p) in *. assert (Hq : forall k, name_of q k = name_of p k) by (intros k; apply switch_name).
  assert (Fa : attached q ⊆ attached p) by (unfold attached; rewrite F2, F5; set_solver). constructor; rewrite ?F1, ?F2, ?F3, ?F4, ?F5, ?F6, ?F8, ?Hq.
  - split; [|done]. exists n. by rewrite Hq, F7.
  - intros _. split; [done|]. by rewrite Hsh.
  - done.
  - intros e He%Fa. rewrite Hq. split; [by apply (ok_attached p Hok)|]. by apply (ok_names p Hok).
  - intros e f He%Fa Hf%Fa. rewrite !Hq. by apply (ok_names p Hok).
  - intros Hp. split; [set_solver|auto].
  - intros o [->%elem_of_singleton|Ho]%elem_of_union; rewrite Hq.
    + destruct (ok_main p Hok) as [(k & Hk & _) _]. split_and!; [by eexists|by intros Heq; apply Hcm, Hne|done].
    + destruct (ok_old p Hok o Ho) as (H1 & H2 & H3). split_and!; [done|by apply H3|done].
Qed.
(** The second part. *)
Lemma announce_fields old p : let q := announceSwitch old p in mainEngine q = mainEngine p /\ candidateEngine q = candidateEngine p /\ engineInfo q = engineInfo p /\ linkedEngine q = linkedEngine p /\ activeEngineMutex q = activeEngineMutex p /\ instances q = instances p /\
  pending q = pending p ∖ switchedHooks p /\ switching q = switching p ∖ {[old]} /\ directory q = match name_of p old with Some n => directory p ∖ {[n]} | None => directory p end.
Proof. cbv zeta. unfold announceSwitch. rewrite remove_eq. unfold pending. cbn. split_and!; try done. apply set_eq. set_solver. Qed.
Lemma announce_ok old p : engines_ok p -> old ∈ switching p -> engines_ok (announceSwitch old p).
Proof.
  intros Hok Hold. destruct (announce_fields old p) as (F1 & F2 & F3 & F4 & F5 & F6 & F7 & F8 & F9). set (q := announceSwitch old p) in *. assert (Hn : forall k, name_of q k = name_of p k) by (intros k; unfold name_of; by rewrite F6). assert (Hs : forall k, shut_of q k = shut_of p k) by (intros k; unfold shut_of; by rewrite F6).
  destruct (ok_old p Hok old Hold) as ([n Ho] & O1 & O2). rewrite Ho in F9, O1, O2. assert (Fa : attached q ⊆ attached p) by (apply attached_mono; [rewrite F7; set_solver|by rewrite F2]).
  assert (Hkeep : forall k, name_of p k ≠ Some n -> stored p k -> stored q k) by (intros k Hk (m & H1 & H2); exists m; rewrite Hn, F9; split; [done|]; apply elem_of_difference; split; [done|]; intros ->%elem_of_singleton; done).
  constructor; rewrite ?F1, ?F2, ?F3, ?F4, ?F5, ?F7, ?F8, ?Hn, ?Hs.
  - destruct (ok_main p Hok) as [H1 H2]. split; [|done]. apply Hkeep; [congruence|done].
  - exact (ok_active p Hok).
  - intros c Hc. rewrite Hs. destruct (ok_candidate p Hok c Hc) as (H1 & H2 & H3 & H4). specialize (O2 c Hc). split_and!; [apply Hkeep; [congruence|done]|done|done|]. intros [Hp Hnp]%elem_of_difference. by destruct Hnp; apply H4.
  - intros e He%Fa. rewrite Hn. by apply (ok_attached p Hok).
  - intros e f He%Fa Hf%Fa. rewrite !Hn. by apply (ok_names p Hok).
  - intros [Hp Hnp]%elem_of_difference. by destruct Hnp; apply (ok_announced p Hok).
  - intros o [Hin _]%elem_of_difference. rewrite Hn. destruct (ok_old p Hok o Hin) as (H1 & H2 & H3). split_and!; [done..|]. intros c Hc. rewrite Hn. by apply H3.
Qed.
Lemma commitment_ok e c b forked cs written p : activeEngineMutex p = false -> engines_ok p -> (e = mainEngine p -> switching p = ∅ \/ off_chain c forked = false) -> engines_ok (LatestCommitmentUpdated e c b forked cs written p).
Proof.
  intros Hl Hok Hg. unfold LatestCommitmentUpdated. set (q := commit c b e p). assert (Hc : engines_ok q) by (by apply alter_ok). case_bool_decide as He; [done|]. destruct (off_chain c forked).
  - assert (Hp : e ∈ pending q) by (unfold pending; set_solver). assert (Hne : e ≠ mainEngine q) by (intros Heq; pose proof Hp as Hp'; rewrite Heq in Hp'; destruct (ok_announced q Hc Hp'); by destruct (Hg Heq)).
    apply cleanup_ok; [done|]. intros Heq. by apply Hne, (ok_attached q Hc e (pending_attached e q Hp)).
  - destruct (b && _); [|done]. by apply switch_ok.
Qed.
Lemma mutex_ok p : engines_ok p -> engines_ok (with_mutex true p).
Proof.
  intros Hok. constructor; [exact (ok_main p Hok)|done| |exact (ok_attached p Hok)|exact (ok_names p Hok)|exact (ok_announced p Hok)|exact (ok_old p Hok)].
  intros c Hc. destruct (ok_candidate p Hok c Hc) as (H1 & _ & H3). by split_and!; [..|apply H3|apply H3].
Qed.
Lemma shutdown_ok e p : activeEngineMutex p = true -> engines_ok p -> engines_ok (Shutdown e p).
Proof.
  intros Hl Hok. assert (Hn : forall k, name_of (Shutdown e p) k = name_of p k) by (intros k; by apply name_of_alter). constructor; cbn [mainEngine engineInfo activeEngineMutex activeInstance linkedEngine candidateEngine switchedHooks switching Shutdown alter_engine with_instances]; fold (Shutdown e p).
  - destruct (ok_main p Hok) as [(n & H1 & H2) H3]. split; [exists n|]; rewrite Hn; done.
  - by rewrite Hl.
  - intros c Hc. destruct (ok_candidate p Hok c Hc) as ((n & H1 & H2) & H3 & H4). split_and!; [exists n; rewrite Hn; done|by rewrite Hl|apply H4..].
  - intros k Hk. rewrite !Hn. by apply (ok_attached p Hok).
  - intros k g Hk Hg. rewrite !Hn. by apply (ok_names p Hok).
  - exact (ok_announced p Hok).
  - intros o Ho. rewrite !Hn. destruct (ok_old p Hok o Ho) as (H1 & H2 & H3). split_and!; [done..|]. intros c Hc. rewrite Hn. by apply H3.
Qed.
Lemma active_ok info a p : engines_ok p -> info = engineInfo p -> engines_ok (with_active info a p).
Proof. intros Hok ->. destruct Hok. by constructor. Qed.
Lemma restore_ok target id r written p : activeEngineMutex p = false -> engines_ok p -> instances p !! id = None -> switching p = ∅ -> activeInstance p = mainEngine p -> engines_ok (restoreEngine target id r written p).
Proof.
  intros Hl Hok Hid Hsw Ha. destruct (ok_active p Hok Hl) as (_ & Hms). unfold restoreEngine, RollbackEngine. change (activeInstance (with_mutex true p)) with (activeInstance p). rewrite Ha.
  set (q := Shutdown (mainEngine p) (with_mutex true p)). assert (Hq : engines_ok q) by (apply shutdown_ok; [done|by apply mutex_ok]). change (activeInstance q) with (activeInstance p). rewrite Ha.
  destruct (ok_main q Hq) as [(n & Hn & Hd) Hi]. change (mainEngine q) with (mainEngine p) in *. unfold name_of in Hn. destruct (instances q !! mainEngine p) as [a|] eqn:Ea; [|done]. cbn in Hn. injection Hn as Hn.
  assert (Hid' : instances q !! id = None) by (unfold q, Shutdown, alter_engine; cbn; apply lookup_alter_None; exact Hid).
  destruct r as [| |latest|latest]; [done|done|by apply load_ok|]. set (w := SetChainID _ id (loadEngineInstance id (Name a) latest q)).
  assert (Hw : engines_ok w) by (apply alter_ok; [done..|by apply load_ok]). destruct written; cbn [SetActiveInstance]; [|by apply active_ok].
  assert (Hname : forall k, name_of w k = if decide (id = k) then Some n else name_of q k) by (intros k; unfold w, SetChainID; rewrite name_of_alter, name_of_load by done; by rewrite Hn).
  assert (Hne : mainEngine p ≠ id) by (intros Heq; rewrite Heq in Ea; congruence). assert (Hmain : name_of w (mainEngine p) = Some n) by (rewrite Hname, decide_False by done; unfold name_of; by rewrite Ea; cbn; rewrite Hn).
  set (z := with_mutex false _). assert (Zn : forall k, name_of z k = name_of w k) by (intros k; transitivity (name_of (Shutdown (mainEngine p) w) k); [reflexivity|by apply name_of_alter]).
  assert (Zs : forall k, k ≠ mainEngine p -> shut_of z k = if decide (id = k) then Some false else shut_of p k).
  { intros k Hk. transitivity (shut_of (Shutdown (mainEngine p) w) k); [reflexivity|]. rewrite shut_of_Shutdown, decide_False by done. unfold w, SetChainID. rewrite shut_of_alter, shut_of_load by done. destruct (decide (id = k)); [done|].
    transitivity (shut_of (Shutdown (mainEngine p) p) k); [reflexivity|]. rewrite shut_of_Shutdown. by rewrite decide_False. }
  assert (Zid : name_of z id = Some n) by (rewrite Zn, Hname; by rewrite decide_True).
  assert (Hatt : forall e, e ∈ attached w -> name_of w e ≠ Some n /\ id ≠ e).
  { intros e He. assert (Hnm : e ≠ mainEngine p). { intros ->. unfold attached in He. apply elem_of_union in He as [Hp|Hc]; [by destruct (ok_announced p Hok Hp)|]. destruct (candidateEngine w) as [c|] eqn:Ec; [|set_solver]. apply elem_of_singleton in Hc as <-. by destruct (ok_candidate p Hok (mainEngine p) Ec) as (_ & _ & ? & _). }
    destruct (ok_attached w Hw e He) as [_ J]. change (mainEngine w) with (mainEngine p) in J. rewrite Hmain in J. split; [auto|]. intros <-. destruct (ok_attached p Hok id He) as [[k Hk] _]. unfold name_of in Hk. by rewrite Hid in Hk. }
  constructor.
  - split; [exists n; split; [exact Zid|cbn; set_solver]|]. change (engineInfo z) with (name_of w id). by rewrite Zn.
  - intros _. split; [done|]. change (mainEngine z) with id. rewrite Zs by congruence. by rewrite decide_True.
  - intros c Hc. destruct (ok_candidate w Hw c Hc) as ((k & H1 & H2) & _ & H4). destruct (Hatt c (candidate_attached c w Hc)) as [_ Hic]. split_and!; [exists k; split; [by rewrite Zn|exact H2]| |by apply not_eq_sym|apply H4]. intros _.
    rewrite Zs by apply H4. rewrite decide_False by done. exact (proj1 (proj2 (ok_candidate p Hok c Hc)) Hl).
  - intros e He. destruct (Hatt e He) as [H1 H2]. change (mainEngine z) with id. rewrite Zid, Zn. split; [exact (proj1 (ok_attached w Hw e He))|done].
  - intros e f He Hf. rewrite !Zn. exact (ok_names w Hw e f He Hf).
  - intros Hp. change (mainEngine z) with id in Hp. destruct (Hatt id (pending_attached id w Hp)) as [_ []]. done.
  - intros o Ho. change (switching z) with (switching p) in Ho. rewrite Hsw in Ho. set_solver.
Qed.
(** The only engine of a node that starts. *)
Definition only (id name : Z) (latest : MCommitment) : Protocol := mkProtocol {[id := mkEngine name zeroCommitmentID latest false false]} {[name]} (Some name) id id None id ∅ ∅ ∅ ∅ false ∅.
Lemma clean_load id n latest d : CleanupNonActive (loadEngineInstance id n latest (mkProtocol ∅ d (Some n) id id None id ∅ ∅ ∅ ∅ false ∅)) = only id n latest.
Proof. unfold CleanupNonActive, loadEngineInstance, only. cbn. rewrite lookup_insert_eq. unfold with_directory. cbn. f_equal. apply set_eq. intros x. rewrite elem_of_filter. set_solver. Qed.
Lemma load_active id name r fresh written p p' : LoadActiveEngine id name r fresh written p = Some p' -> exists n latest, p' = only id n latest /\ (n = name \/ engineInfo p = Some n /\ n ∈ directory p).
Proof.
  unfold LoadActiveEngine. destruct (engineInfo p) as [info|] eqn:Ei; cbn [mbind option_bind].
  - case_bool_decide as Hin.
    + destruct r as [| |latest|latest]; [done..|]. intros [= <-]. exists info, latest. split; [apply clean_load|auto].
    + destruct written; [|done]. cbn. rewrite lookup_insert_eq. cbn. intros [= <-]. exists name, fresh. split; [apply (clean_load id name fresh)|auto].
  - destruct written; [|done]. cbn. rewrite lookup_insert_eq. cbn. intros [= <-]. exists name, fresh. split; [apply (clean_load id name fresh)|auto].
Qed.
Lemma run_ok root id n latest : engines_ok (Run root (only id n latest)).
Proof.
  apply alter_ok; [done..|]. constructor; cbn; unfold stored, attached, pending, name_of, shut_of; cbn; rewrite ?lookup_singleton_eq; cbn; try done; try set_solver.
Qed.
Lemma started_ok p : started p -> engines_ok p.
Proof.
  induction 1 as [id name r fresh written root p Hp|p p' Hs IH Hstep].
  - apply load_active in Hp as (n & latest & -> & _). apply run_ok.
  - destruct Hstep as [fork fp accounts s d id name r Hl _ Hu|e x c b forked cs written Hl _ _ Hg|old _ Ho|e Hl He Hg|target id r written Hl Hid _ Hsw Ha|id name r fresh written root p' Hn Hp].
    + by apply fork_ok.
    + by apply commitment_ok.
    + by apply announce_ok.
    + by apply timeout_ok.
    + by apply restore_ok.
    + apply load_active in Hp as (n & latest & -> & _). apply run_ok.
Qed.
(** A switch that the commitment of an engine sets off goes to this engine, and it is heavier, if it is the candidate. *)
Lemma switch_goes_to_heavier e c b forked cs p : candidateEngine p = None \/ candidateEngine p = Some e -> let q := LatestCommitmentUpdated e c b forked cs true p in
  mainEngine q = mainEngine p \/ mainEngine q = e /\ weight_of (commit c b e p) (mainEngine p) < mc_CumulativeWeight c.
Proof.
  intros Hc q. unfold q, LatestCommitmentUpdated. case_bool_decide; [by left|]. destruct (off_chain c forked); [left; by rewrite (proj1 (cleanup_fields e _))|].
  destruct (b && _) eqn:Eb; [|by left]. apply andb_prop in Eb as [_ Hw%Z.ltb_lt]. unfold switchEngines. change (candidateEngine (commit c b e p)) with (candidateEngine p). destruct Hc as [->| ->]; [by left|]. destruct cs; [|by left].
  by right.
Qed.
(** Replacing a candidate loses both: the cleanup of the old one forgets the new one. *)
Lemma replaced_candidate_lost fp d id name latest p c : candidateEngine p = Some c -> chain_of p c ≠ Some fp -> chain_of p (mainEngine p) ≠ Some fp -> failed d = false -> shouldSwitch d = true ->
  let q := onForkDetected fp d id name (RolledBack latest) p in candidateEngine q = None /\ id ∈ timers q.
Proof.
  intros Hc Hcf Hmf Hf Hs q. unfold q, onForkDetected. rewrite Hc. cbn [mbind option_bind]. rewrite !bool_decide_false by done. rewrite Hf, Hs. cbn [negb ForkEngineAtSlot]. change (candidateEngine (with_hooks _ _ _ _ _)) with (candidateEngine p). rewrite Hc.
  unfold cleanupFunc. rewrite remove_eq. split; [done|]. cbn. set_solver.
Qed.
End Executions.

(** ** Witnesses *)
Module EngineDemo.
Import ForkDemo.
Definition commitment (chain slot weight : Z) : MCommitment := mkMCommitment (mkCommitmentID chain slot) weight 0.
Definition root : CommitmentID := mkCommitmentID 0 0.
Definition first : Protocol := Run root (only 1 100 (commitment 0 9 10)).
Abbreviation started_unit := (started (Proof := unit) (fun _ => Some 0) (fun _ _ _ => true) (fun _ _ => true) 3 3).
Abbreviation step_unit := (step (Proof := unit) (fun _ => Some 0) (fun _ _ _ => true) (fun _ _ => true) 3 3).
Definition yes : Decision := mkDecision [] true false false.
Definition fork_point (i : Z) : CommitmentID := mkCommitmentID i 5.
Definition forked : Protocol := onForkDetected (fork_point 1) yes 2 200 (RolledBack (commitment 0 4 4)) first.
Lemma first_started : started_unit first.
Proof. assert (E : LoadActiveEngine 1 100 CloneFailed (commitment 0 9 10) true (mkProtocol ∅ ∅ None 0 0 None 0 ∅ ∅ ∅ ∅ false ∅) = Some (only 1 100 (commitment 0 9 10))) by (vm_compute; reflexivity). exact (started_first _ _ _ _ _ 1 100 CloneFailed (commitment 0 9 10) true root _ E). Qed.
Lemma decided_yes : run (fork [100; 101; 102; 103; 104; 105]) accounts fork_messages = Ret yes.
Proof. vm_compute. reflexivity. Qed.
Lemma unused_by id name p : bool_decide (instances p !! id = None) = true -> bool_decide (name ∉ directory p) = true -> forallb (fun x => negb (Name x.2 =? name)) (map_to_list (instances p)) = true -> unused id name p.
Proof.
  intros H1%bool_decide_eq_true H2%bool_decide_eq_true H3. split_and!; [done|done|]. intros e x Hx Hn. apply elem_of_map_to_list, list_elem_of_In in Hx. rewrite forallb_forall in H3. specialize (H3 _ Hx). cbn in H3. lia.
Qed.
Lemma fork_step fp id name r p : activeEngineMutex p = false -> unused id name p -> step_unit p (onForkDetected fp yes id name r p).
Proof. intros Hl Hu. exact (step_fork _ _ _ _ _ p _ fp accounts _ yes id name r Hl decided_yes Hu). Qed.
Lemma forked_started : started_unit forked.
Proof. eapply started_step; [exact first_started|]. apply fork_step; [reflexivity|]. by apply unused_by; vm_compute. Qed.
(** A second fork, with candidate 3, loses both candidates; a third makes 4 the candidate.  When 3, which still runs, commits with more weight than the main engine, the protocol switches to 4, which has neither synced nor more weight. *)
Definition second : Protocol := onForkDetected (fork_point 2) yes 3 300 (RolledBack (commitment 0 4 4)) forked.
Definition third : Protocol := onForkDetected (fork_point 3) yes 4 400 (RolledBack (commitment 0 4 4)) second.
Definition wrong : Protocol := announceSwitch 1 (LatestCommitmentUpdated 3 (commitment 2 10 12) true None true true third).
Lemma switch_to_wrong_candidate : started_unit wrong /\ candidateEngine second = None /\ mainEngine third = 1 /\ mainEngine wrong = 4 /\ weight_of third 1 = 10 /\ weight_of wrong 4 = 4 /\
  shut_of wrong 3 = Some false /\ 3 ∉ pending wrong.
Proof.
  split; [|split_and!; try (vm_compute; reflexivity); assert (bool_decide (3 ∈ pending wrong) = false) as Hb by (vm_compute; reflexivity); by apply bool_decide_eq_false in Hb].
  assert (H3 : started_unit third). { eapply started_step; [eapply started_step; [exact forked_started|apply (fork_step (fork_point 2) 3 300); [reflexivity|by apply unused_by; vm_compute]]|apply fork_step; [reflexivity|by apply unused_by; vm_compute]]. }
  assert (E : exists x, instances third !! 3 = Some x /\ WasShutdown x = false) by (eexists; split; vm_compute; reflexivity). destruct E as (x & E1 & E2).
  assert (Hne : 3 = mainEngine third -> switching third = ∅ \/ off_chain (commitment 2 10 12) None = false) by (intros _; by right). eapply started_step; [exact (started_step _ _ _ _ _ third _ H3 (step_commit _ _ _ _ _ third 3 x (commitment 2 10 12) true None true true eq_refl E1 E2 Hne))|]. apply step_announce; [vm_compute; reflexivity|].
  assert (bool_decide (1 ∈ switching (LatestCommitmentUpdated 3 (commitment 2 10 12) true None true true third)) = true) as Hb by (vm_compute; reflexivity). by apply bool_decide_eq_true in Hb.
Qed.
(** A restore for the candidate rolls the main engine back and moves it to the chain of the candidate, which both now follow. *)
Lemma restore_for_candidate_moves_main : let q := restoreEngine 2 5 (RolledBack (commitment 0 4 4)) true forked in
  mainEngine q = 5 /\ name_of q 5 = name_of forked 1 /\ candidateEngine q = Some 2 /\ chain_of q 5 = Some (fork_point 1) /\ chain_of q 2 = Some (fork_point 1) /\ weight_of q 5 = 4.
Proof. vm_compute. split_and!; reflexivity. Qed.
(** A restore that fails leaves the main engine shut down and the mutex locked. *)
Lemma failed_restore_blocks : let q := restoreEngine 1 5 StorageFailed true first in activeEngineMutex q = true /\ mainEngine q = 1 /\ shut_of q 1 = Some true.
Proof. vm_compute. split_and!; reflexivity. Qed.
(** If the info file cannot be written the manager's active instance is no longer the main engine. *)
Lemma unwritten_switch_diverges : let q := switchEngines true false forked in mainEngine q = 1 /\ activeInstance q = 2 /\ engineInfo q = Some 100.
Proof. vm_compute. split_and!; reflexivity. Qed.
(** A restore that follows such a switch rolls the candidate back and makes the new instance of its directory the main engine, while the timer and the hooks of the candidate stay attached: the timer then removes the directory of the main engine. *)
Lemma restore_after_unwritten_switch : let q := restoreEngine 1 5 (RolledBack (commitment 0 4 4)) true (switchEngines true false forked) in
  mainEngine q = 5 /\ name_of q 5 = name_of q 2 /\ candidateEngine q = Some 2 /\ elements (timers q) = [2] /\ elements (directory (candidateTimeout 2 q)) = [100].
Proof. vm_compute. split_and!; reflexivity. Qed.
(** A timer that fires after the engines are switched and before MainEngineSwitched has stopped it discards the new main engine. *)
Lemma timer_discards_new_main : let q := announceSwitch 1 (candidateTimeout 2 (switchEngines true true forked)) in
  mainEngine q = 2 /\ shut_of q 2 = Some true /\ elements (directory q) = [].
Proof. vm_compute. split_and!; reflexivity. Qed.
End EngineDemo.
