(* ===== verification/BlockDispatcher.v ===== *)
(** * Block dispatcher and warp sync (pkg/protocol/block_dispatcher.go; engine/committed_slot_api.go; processAttestationsRequest of protocol_fork.go)

    Received blocks go to the engines that follow the chain of their commitment; blocks whose commitment is not solid or that are too new wait in a buffer.  A node that is behind requests the blocks of the next slot of the chain and
    commits the slot when all of them are booked and notarized.

    The chain manager (which commitments are solid, the forking point and the commitments of a chain), the block requesters and the Merkle proofs are parameters.  Calls to other parts and to the request tickers are recorded in the order they are made.
    A callback on the booked or notarized flag of a block runs once.  Worker pools only run tasks and are left out. *)
From S2P Require Import Prelude Block Accounts Tangle ForkChoice EngineSwitch.

Definition kind_nat (k : BlockKind) : bool := match k with Basic => true | Validation => false end.
Definition ptype_nat (t : ParentsType) : nat := match t with StrongParentType => 0 | WeakParentType => 1 | ShallowLikeParentType => 2 end.
#[export] Instance BlockKind_countable : Countable BlockKind := inj_countable' kind_nat (fun b : bool => if b then Basic else Validation) ltac:(by intros []).
#[export] Instance ParentsType_countable : Countable ParentsType := inj_countable' ptype_nat (fun n => match n with O => StrongParentType | 1%nat => WeakParentType | _ => ShallowLikeParentType end) ltac:(by intros []).
#[export] Instance ModelBlock_countable : Countable ModelBlock :=
  inj_countable' (fun b => (ID b, IssuerID b, IssuingTime b, SlotCommitmentID b, Kind b, ParentsWithType b, WorkScore b)) (fun x => match x with (a, b, c, d, e, f, g) => mkModelBlock a b c d e f g end) ltac:(by intros []).

(** ** Dispatching *)
Inductive Call := ProcessBlockFromPeer (e : Z) (b : BlockID) (src : Z) | StartTicker (id : CommitmentID) | StopTicker (id : CommitmentID) | TickersEvictUntil (slot : SlotIndex).
Section Dispatcher.
Context `{!RangeOrder (ModelBlock * Z)} {C : Type} `{LruCache C}.
Context (SolidEvent : CommitmentID -> bool) (ForkingPointID : CommitmentID -> option CommitmentID) (HasTicker : Z -> BlockID -> bool) (MaxCommittableAge : SlotIndex -> SlotIndex).
Record BlockDispatcher := mkDispatcher {
  unsolidCommitmentBlocks : UnsolidCommitmentBuffer (ModelBlock * Z) C;
  processedWarpSyncRequests : gset CommitmentID;
  calls : list Call;
}.
Definition NewBlockDispatcher : BlockDispatcher := mkDispatcher (NewUnsolidCommitmentBuffer 20 (Some 100)) ∅ [].
Definition record (c : Call) (b : BlockDispatcher) : BlockDispatcher := mkDispatcher (unsolidCommitmentBlocks b) (processedWarpSyncRequests b) (calls b ++ [c]).
Definition with_processed v (b : BlockDispatcher) : BlockDispatcher := mkDispatcher (unsolidCommitmentBlocks b) v (calls b).
Definition buffer_block (id : CommitmentID) (block : ModelBlock) (src : Z) (b : BlockDispatcher) : bool * BlockDispatcher :=
  let r := Add id (block, src) (unsolidCommitmentBlocks b) in (r.1, mkDispatcher r.2 (processedWarpSyncRequests b) (calls b)).
Definition LatestSlot (e : Engine) : SlotIndex := CommitmentSlot (mc_ID (LatestCommitment e)).
Definition inSyncWindow (e : Z) (x : Engine) (block : ModelBlock) : bool :=
  HasTicker e (ID block) || (Slot (ID block) <=? u32 (LatestSlot x + MaxCommittableAge (CommitmentSlot (SlotCommitmentID block)))).
Definition matching (e : Z) (x : Engine) (chain : CommitmentID) (block : ModelBlock) : bool := negb (WasShutdown x) && (bool_decide (ChainID x = chain) || HasTicker e (ID block)).
(** The loop over the engines; [None] is the error that the block cannot be buffered. *)
Fixpoint dispatch_to (chain : CommitmentID) (block : ModelBlock) (src : Z) (engines : list (Z * Engine)) (found : bool) (b : BlockDispatcher) : option bool * BlockDispatcher :=
  match engines with
  | [] => (Some found, b)
  | (e, x) :: engines =>
      if negb (matching e x chain block) then dispatch_to chain block src engines found b
      else if inSyncWindow e x block then dispatch_to chain block src engines true (record (ProcessBlockFromPeer e (ID block) src) b)
      else match buffer_block (SlotCommitmentID block) block src b with
      | (false, b) => (None, b)
      | (true, b) => dispatch_to chain block src engines true b
      end
  end.
Definition engine_list (p : Protocol) : list (Z * Engine) := omap (fun e => pair e <$> instances p !! e) (mainEngine p :: option_list (candidateEngine p)).
Inductive DispatchError := NotBuffered | NotSolid | NoMatchingEngine.
Definition Dispatch (p : Protocol) (block : ModelBlock) (src : Z) (b : BlockDispatcher) : outcome (option DispatchError * BlockDispatcher) :=
  if negb (SolidEvent (SlotCommitmentID block))
  then let r := buffer_block (SlotCommitmentID block) block src b in Ret (Some (if r.1 then NotSolid else NotBuffered), r.2)
  else chain ← deref (ForkingPointID (SlotCommitmentID block));
    let r := dispatch_to chain block src (engine_list p) false b in
    Ret (match r.1 with None => Some NotBuffered | Some false => Some NoMatchingEngine | Some true => None end, r.2).
(** The blocks stay in the buffer. *)
Definition injectUnsolidCommitmentBlocks (p : Protocol) (id : CommitmentID) (b : BlockDispatcher) : outcome BlockDispatcher :=
  foldl (fun m v => b ← m; r ← Dispatch p v.1 v.2 b; Ret r.2) (Ret b) (GetValues id (unsolidCommitmentBlocks b)).
Definition evict (slot : SlotIndex) (b : BlockDispatcher) : BlockDispatcher :=
  let b := record (TickersEvictUntil slot) b in mkDispatcher (buf_EvictUntil slot (unsolidCommitmentBlocks b)) (processedWarpSyncRequests b) (calls b).

(** ** Requesting slots *)
Definition targetEngine (p : Protocol) (id : CommitmentID) : option Z :=
  chain ← ForkingPointID id;
  if bool_decide (chain_of p (mainEngine p) = Some chain) then Some (mainEngine p)
  else c ← candidateEngine p; if bool_decide (chain_of p c = Some chain) then Some c else None.
(** [chain] are the commitments of the chain, [chainLatest] the slot of its last one.  The loop over the slots to request covers only the next slot. *)
Definition warpSyncIfNecessary (p : Protocol) (e : option Z) (chain : SlotIndex -> option CommitmentID) (chainLatest : SlotIndex) (b : BlockDispatcher) : BlockDispatcher :=
  match (e ≫= fun e => instances p !! e) with
  | None => b
  | Some x =>
      if WasShutdown x then b
      else if chainLatest <=? u32 (LatestSlot x + 1) then b
      else match chain (u32 (LatestSlot x + 1)) with
      | None => b
      | Some id => if bool_decide (id ∈ processedWarpSyncRequests b) then b else record (StartTicker id) b
      end
  end.
(** An engine has committed: [known] is whether the chain manager knows the commitment. *)
Definition monitorLatestEngineCommitment (p : Protocol) (e : Z) (id : CommitmentID) (known : bool) (chain : SlotIndex -> option CommitmentID) (chainLatest : SlotIndex) (b : BlockDispatcher) : BlockDispatcher :=
  if known then warpSyncIfNecessary p (Some e) chain chainLatest (with_processed (processedWarpSyncRequests b ∖ {[id]}) b) else b.

Lemma add_keeps_evicted (id : CommitmentID) (v : ModelBlock * Z) (u : UnsolidCommitmentBuffer (ModelBlock * Z) C) : buf_lastEvictedSlot (Add id v u).2 = buf_lastEvictedSlot u.
Proof. unfold Add. case_match; [done|]. unfold buf_add. by destruct (lru_put _ _). Qed.
Definition follows (chain : CommitmentID) (block : ModelBlock) (ex : Z * Engine) : bool := matching ex.1 ex.2 chain block.
Definition near (block : ModelBlock) (ex : Z * Engine) : bool := inSyncWindow ex.1 ex.2 block.
(** A block goes, unless its commitment is too old to be buffered, exactly to the running engines that follow its chain or asked for it and are close enough to its slot; it is refused exactly if no running engine follows its chain or asked for it. *)
Lemma dispatch_to_exact chain block src engines : forall found b, buf_lastEvictedSlot (unsolidCommitmentBlocks b) < CommitmentSlot (SlotCommitmentID block) ->
  let r := dispatch_to chain block src engines found b in
  r.1 = Some (found || existsb (follows chain block) engines) /\
  calls r.2 = calls b ++ ((fun ex => ProcessBlockFromPeer ex.1 (ID block) src) <$> filter (fun ex => follows chain block ex && near block ex = true) engines).
Proof.
  induction engines as [|[e x] engines IH]; intros found b Hb; cbn [dispatch_to existsb]; [cbn; by rewrite orb_false_r, app_nil_r|].
  unfold follows at 1. cbn [fst snd]. destruct (matching e x chain block) eqn:Em; cbn [negb orb].
  2: { destruct (IH found b Hb) as [H1 H2]. split; [exact H1|]. rewrite filter_cons_False; [exact H2|]. unfold follows. cbn. by rewrite Em. }
  destruct (inSyncWindow e x block) eqn:Ew.
  - destruct (IH true (record (ProcessBlockFromPeer e (ID block) src) b) Hb) as [H1 H2]. split; [rewrite H1; by destruct found|]. rewrite H2, filter_cons_True by (unfold follows, near; cbn; by rewrite Em, Ew). cbn. by rewrite <- app_assoc.
  - unfold buffer_block. destruct (Add _ _ _) as [ok u] eqn:Ea. pose proof (add_keeps_evicted (SlotCommitmentID block) (block, src) (unsolidCommitmentBlocks b)) as Hk. rewrite Ea in Hk. cbn in Hk. unfold Add in Ea. destruct (Z.leb_spec (CommitmentSlot (SlotCommitmentID block)) (buf_lastEvictedSlot (unsolidCommitmentBlocks b))); [lia|]. injection Ea as <- <-. cbn [fst snd].
    destruct (IH true (mkDispatcher (buf_add (SlotCommitmentID block) (block, src) (unsolidCommitmentBlocks b)) (processedWarpSyncRequests b) (calls b))) as [H1 H2]; [cbn in *; lia|]. split; [rewrite H1; by destruct found|]. rewrite H2. f_equal. rewrite filter_cons_False; [done|]. unfold follows, near. cbn. by rewrite Em, Ew.
Qed.

(** ** Serving slots *)
(** What the storage of an engine answers about its slots; [None] is an error. *)
Record SlotStorage (Roots : Type) := mkSlotStorage {
  Commitments_Load : SlotIndex -> option CommitmentID;
  Roots_Load : SlotIndex -> option (CommitmentID -> option Roots);
  BlocksInSlot : SlotIndex -> option (list BlockID);
  Mutations : SlotIndex -> option (list TransactionID);
}.
End Dispatcher.
Section Serving.
Context {Roots Proof Attestations : Type} (TangleProof MutationProof AttestationsProof : Roots -> Proof) (latest : SlotIndex) (st : SlotStorage Roots) (Attestations_Get : SlotIndex -> option Attestations).
Definition CommittedSlot (id : CommitmentID) : option CommitmentID := if latest <? CommitmentSlot id then None else Some id.
Definition api_Commitment (id : CommitmentID) : option CommitmentID := Commitments_Load _ st (CommitmentSlot id).
Definition api_Roots (id : CommitmentID) : option Roots := if latest <? CommitmentSlot id then None else load ← Roots_Load _ st (CommitmentSlot id); load id.
Definition api_BlockIDs (id : CommitmentID) : option (list BlockID) := if latest <? CommitmentSlot id then None else BlocksInSlot _ st (CommitmentSlot id).
Definition api_TransactionIDs (id : CommitmentID) : option (list TransactionID) := if latest <? CommitmentSlot id then None else Mutations _ st (CommitmentSlot id).
(** The response that is sent; [None] if there is none. *)
Definition processWarpSyncRequest (id : CommitmentID) : option (CommitmentID * list BlockID * Proof * list TransactionID * Proof) :=
  slot ← CommittedSlot id;
  commitment ← api_Commitment slot;
  if bool_decide (commitment ≠ id) then None
  else blockIDs ← api_BlockIDs slot;
    transactionIDs ← api_TransactionIDs slot;
    roots ← api_Roots slot;
    Some (id, blockIDs, TangleProof roots, transactionIDs, MutationProof roots).
Definition processAttestationsRequest (id : CommitmentID) : option (CommitmentID * Attestations * Proof) :=
  if latest <? CommitmentSlot id then None
  else commitment ← Commitments_Load _ st (CommitmentSlot id);
    if bool_decide (commitment ≠ id) then None
    else atts ← Attestations_Get (CommitmentSlot id);
      load ← Roots_Load _ st (CommitmentSlot id);
      roots ← load id;
      Some (commitment, atts, AttestationsProof roots).
(** Only slots of the committed chain are served, each with its own data. *)
Lemma served_slot_is_committed id r : processWarpSyncRequest id = Some r -> CommitmentSlot id <= latest /\ Commitments_Load _ st (CommitmentSlot id) = Some id /\ r.1.1.1.1 = id /\ Some r.1.1.1.2 = BlocksInSlot _ st (CommitmentSlot id) /\ Some r.1.2 = Mutations _ st (CommitmentSlot id).
Proof.
  unfold processWarpSyncRequest, CommittedSlot, api_Commitment, api_BlockIDs, api_TransactionIDs, api_Roots. destruct (Z.ltb_spec latest (CommitmentSlot id)); [done|]. cbn. destruct (Commitments_Load _ st _) as [c|]; [|done]. cbn. case_bool_decide as Hc; [done|]. subst c. destruct (Z.ltb_spec latest (CommitmentSlot id)) as [|_]; [lia|]. cbn.
  destruct (BlocksInSlot _ _ _); [|done]. cbn. destruct (Mutations _ _ _); [|done]. cbn. destruct (Roots_Load _ _ _) as [load|]; [|done]. cbn. destruct (load id); [|done]. cbn. intros [= <-]. by split_and!.
Qed.
End Serving.

(** ** Synchronizing a slot *)
Inductive EngineCall := AddRootBlock (b : BlockID) | SetTransactionAccepted (t : TransactionID) | SetBlockAccepted (b : BlockID) | ForceCommit (slot : SlotIndex).
(** A slot that is being synchronized, with the callbacks that have not run yet. *)
Record WarpSync := mkWarpSync {
  ws_commitment : CommitmentID;
  ws_blockIDs : list BlockID;
  ws_transactionIDs : list TransactionID;
  bookedHooks : list BlockID;
  notarizedHooks : list BlockID;
  bookedBlocks : Z;
  notarizedBlocks : Z;
  ws_calls : list EngineCall;
}.
Definition totalBlocks (w : WarpSync) : Z := u32 (Z.of_nat (length (ws_blockIDs w))).
Section WarpSync.
(** [GetOrRequestBlock] returns a block; the cache knows the block when all are booked. *)
Context (requested cached : BlockID -> bool).
Definition ws_call (l : list EngineCall) (w : WarpSync) : WarpSync := mkWarpSync (ws_commitment w) (ws_blockIDs w) (ws_transactionIDs w) (bookedHooks w) (notarizedHooks w) (bookedBlocks w) (notarizedBlocks w) (ws_calls w ++ l).
Definition forceCommitmentFunc (w : WarpSync) : WarpSync := ws_call [ForceCommit (CommitmentSlot (ws_commitment w))] w.
Definition with_booked hooks n (w : WarpSync) : WarpSync := mkWarpSync (ws_commitment w) (ws_blockIDs w) (ws_transactionIDs w) hooks (notarizedHooks w) n (notarizedBlocks w) (ws_calls w).
Definition with_notarized hooks n (w : WarpSync) : WarpSync := mkWarpSync (ws_commitment w) (ws_blockIDs w) (ws_transactionIDs w) (bookedHooks w) hooks (bookedBlocks w) n (ws_calls w).
(** A block is accepted and then waited for. *)
Definition accept_block (w : WarpSync) (b : BlockID) : WarpSync :=
  if cached b then let w := ws_call [SetBlockAccepted b] w in with_notarized (notarizedHooks w ++ [b]) (notarizedBlocks w) w else w.
Definition blockBookedFunc (w : WarpSync) : WarpSync :=
  let w := with_booked (bookedHooks w) (u32 (bookedBlocks w + 1)) w in
  if negb (bookedBlocks w =? totalBlocks w) then w
  else foldl accept_block (foldl (fun w t => ws_call [SetTransactionAccepted t] w) w (ws_transactionIDs w)) (ws_blockIDs w).
Definition blockNotarizedFunc (w : WarpSync) : WarpSync :=
  let w := with_notarized (notarizedHooks w) (u32 (notarizedBlocks w + 1)) w in
  if negb (notarizedBlocks w =? totalBlocks w) then w else forceCommitmentFunc w.
(** The callbacks of one block. *)
Definition booked_once (l1 l2 : list BlockID) (w : WarpSync) : WarpSync := blockBookedFunc (with_booked (l1 ++ l2) (bookedBlocks w) w).
Definition notarized_once (l1 l2 : list BlockID) (w : WarpSync) : WarpSync := blockNotarizedFunc (with_notarized (l1 ++ l2) (notarizedBlocks w) w).
(** The loop over the blocks of a response. *)
Definition request_block (w : WarpSync) (b : BlockID) : WarpSync :=
  if requested b then let w := ws_call [AddRootBlock b] w in with_booked (bookedHooks w ++ [b]) (bookedBlocks w) w else w.
Definition startWarpSync (id : CommitmentID) (blockIDs : list BlockID) (transactionIDs : list TransactionID) : WarpSync :=
  let w := mkWarpSync id blockIDs transactionIDs [] [] 0 0 [] in
  match blockIDs with [] => forceCommitmentFunc w | _ => foldl request_block w blockIDs end.
Inductive ws_step (w : WarpSync) : WarpSync -> Prop :=
| ws_booked l1 b l2 : bookedHooks w = l1 ++ b :: l2 -> ws_step w (booked_once l1 l2 w)
| ws_notarized l1 b l2 : notarizedHooks w = l1 ++ b :: l2 -> ws_step w (notarized_once l1 l2 w).
Inductive syncing (id : CommitmentID) (blockIDs : list BlockID) (transactionIDs : list TransactionID) : WarpSync -> Prop :=
| syncing_start : syncing id blockIDs transactionIDs (startWarpSync id blockIDs transactionIDs)
| syncing_step w w' : syncing id blockIDs transactionIDs w -> ws_step w w' -> syncing id blockIDs transactionIDs w'.

Lemma fold_request l : forall w, foldl request_block w l = mkWarpSync (ws_commitment w) (ws_blockIDs w) (ws_transactionIDs w) (bookedHooks w ++ filter (fun b => requested b = true) l) (notarizedHooks w) (bookedBlocks w) (notarizedBlocks w) (ws_calls w ++ (AddRootBlock <$> filter (fun b => requested b = true) l)).
Proof.
  induction l as [|b l IH]; intros w; cbn [foldl]; [cbn; rewrite !app_nil_r; by destruct w|]. rewrite IH. unfold request_block. destruct (requested b) eqn:Er; [rewrite filter_cons_True by done; cbn; by rewrite <- !app_assoc|by rewrite filter_cons_False by (rewrite Er; done)].
Qed.
Lemma fold_transactions l : forall w, foldl (fun w t => ws_call [SetTransactionAccepted t] w) w l = ws_call (SetTransactionAccepted <$> l) w.
Proof. induction l as [|t l IH]; intros w; cbn [foldl]; [unfold ws_call; cbn; rewrite app_nil_r; by destruct w|]. rewrite IH. unfold ws_call. cbn. by rewrite <- app_assoc. Qed.
Lemma fold_accept l : forall w, foldl accept_block w l = mkWarpSync (ws_commitment w) (ws_blockIDs w) (ws_transactionIDs w) (bookedHooks w) (notarizedHooks w ++ filter (fun b => cached b = true) l) (bookedBlocks w) (notarizedBlocks w) (ws_calls w ++ (SetBlockAccepted <$> filter (fun b => cached b = true) l)).
Proof.
  induction l as [|b l IH]; intros w; cbn [foldl]; [cbn; rewrite !app_nil_r; by destruct w|]. rewrite IH. unfold accept_block. destruct (cached b) eqn:Er; [rewrite filter_cons_True by done; cbn; by rewrite <- !app_assoc|by rewrite filter_cons_False by (rewrite Er; done)].
Qed.
Definition count (f : BlockID -> bool) (l : list BlockID) : Z := Z.of_nat (length (filter (fun b => f b = true) l)).
Lemma count_le f l : 0 <= count f l <= Z.of_nat (length l).
Proof. unfold count. pose proof (length_filter (fun b => f b = true) l). lia. Qed.
Lemma count_all f l : count f l = Z.of_nat (length l) <-> forall b, b ∈ l -> f b = true.
Proof.
  induction l as [|x l IH]; [split; [set_solver|done]|]. pose proof (count_le f l). unfold count in *. destruct (f x) eqn:E.
  - rewrite filter_cons_True by done. cbn [length]. split; [intros Hc b [->|Hb]%elem_of_cons; [done|apply IH; [lia|done]]|intros Hall; assert (Z.of_nat (length (filter (fun b => f b = true) l)) = Z.of_nat (length l)) by (apply IH; set_solver); lia].
  - rewrite filter_cons_False by (rewrite E; done). cbn [length]. split; [lia|]. intros Hall. rewrite Hall in E by set_solver. done.
Qed.
(** What has been done for a slot of [n] blocks. *)
Record progress (id : CommitmentID) (blockIDs : list BlockID) (transactionIDs : list TransactionID) (w : WarpSync) : Prop := {
  pr_id : ws_commitment w = id /\ ws_blockIDs w = blockIDs /\ ws_transactionIDs w = transactionIDs;
  pr_booked : 0 <= bookedBlocks w /\ bookedBlocks w + Z.of_nat (length (bookedHooks w)) = count requested blockIDs;
  pr_notarized : 0 <= notarizedBlocks w /\ notarizedBlocks w + Z.of_nat (length (notarizedHooks w)) = if bookedBlocks w =? Z.of_nat (length blockIDs) then count cached blockIDs else 0;
  pr_calls : ws_calls w = (AddRootBlock <$> filter (fun b => requested b = true) blockIDs)
    ++ (if bookedBlocks w =? Z.of_nat (length blockIDs) then (SetTransactionAccepted <$> transactionIDs) ++ (SetBlockAccepted <$> filter (fun b => cached b = true) blockIDs) else [])
    ++ (if notarizedBlocks w =? Z.of_nat (length blockIDs) then [ForceCommit (CommitmentSlot id)] else []);
}.
Lemma syncing_progress id blockIDs txs w : blockIDs ≠ [] -> Z.of_nat (length blockIDs) < 2 ^ 32 -> syncing id blockIDs txs w -> progress id blockIDs txs w.
Proof.
  intros Hne Hlen Hs. assert (Hn : 0 < Z.of_nat (length blockIDs)) by (destruct blockIDs; [done|cbn; lia]). pose proof (count_le requested blockIDs) as Hr. pose proof (count_le cached blockIDs) as Hk.
  induction Hs as [|w w' Hs [(I1 & I2 & I3) [B1 B2] [N1 N2] Hc] Hst].
  { assert (E : startWarpSync id blockIDs txs = foldl request_block (mkWarpSync id blockIDs txs [] [] 0 0 []) blockIDs) by (unfold startWarpSync; by destruct blockIDs). rewrite E, fold_request. assert (E0 : (0 =? Z.of_nat (length blockIDs)) = false) by lia.
    constructor; cbn [bookedBlocks notarizedBlocks bookedHooks notarizedHooks ws_calls ws_commitment ws_blockIDs ws_transactionIDs app length]; rewrite ?E0; [done|split; [done|unfold count; lia]|done|by rewrite !app_nil_r]. }
  assert (Ht : forall v, ws_blockIDs v = blockIDs -> totalBlocks v = Z.of_nat (length blockIDs)) by (intros v Hv; unfold totalBlocks; rewrite Hv; apply (wrap_id Uint32); unfold in_range; cbn; lia).
  destruct Hst as [l1 b l2 Hh|l1 b l2 Hh].
  - rewrite Hh, length_app in B2. cbn [length] in B2. unfold booked_once, blockBookedFunc. cbn [bookedBlocks with_booked]. rewrite (wrap_id Uint32) by (unfold in_range; cbn; lia). rewrite Ht by done.
    destruct (Z.eqb_spec (bookedBlocks w) (Z.of_nat (length blockIDs))) as [Hb|Hb]; [lia|]. assert (Hnot : notarizedBlocks w = 0) by lia. assert (Hnh : notarizedHooks w = []) by (destruct (notarizedHooks w); [done|cbn in N2; lia]).
    destruct (Z.eqb_spec (bookedBlocks w + 1) (Z.of_nat (length blockIDs))) as [Hb1|Hb1]; cbn [negb].
    + rewrite fold_transactions, fold_accept. rewrite Hnot in *. constructor; cbn; rewrite ?I2, ?I3, ?Hnot, ?Hnh; [done|rewrite length_app; split; lia|rewrite (proj2 (Z.eqb_eq _ _) Hb1); split; [done|unfold count; cbn; lia]|]. rewrite (proj2 (Z.eqb_eq _ _) Hb1), Hc. rewrite (proj2 (Z.eqb_neq 0 _)) by lia. cbn. by rewrite !app_nil_r, <- !app_assoc.
    + constructor; cbn; [done|rewrite length_app; split; lia|rewrite (proj2 (Z.eqb_neq _ _) Hb1); split; [done|rewrite Hnh, Hnot; done]|]. by rewrite (proj2 (Z.eqb_neq _ _) Hb1).
  - rewrite Hh, length_app in N2. cbn [length] in N2. destruct (Z.eqb_spec (bookedBlocks w) (Z.of_nat (length blockIDs))) as [Hb|Hb]; [|lia]. unfold notarized_once, blockNotarizedFunc. cbn [notarizedBlocks with_notarized]. rewrite (wrap_id Uint32) by (unfold in_range; cbn; lia). rewrite Ht by done.
    rewrite (proj2 (Z.eqb_neq (notarizedBlocks w) _)) in Hc by lia. rewrite app_nil_r in Hc. destruct (Z.eqb_spec (notarizedBlocks w + 1) (Z.of_nat (length blockIDs))) as [Hb1|Hb1]; cbn [negb].
    + constructor; cbn; [done|done|rewrite (proj2 (Z.eqb_eq _ _) Hb), length_app; lia|]. rewrite (proj2 (Z.eqb_eq _ _) Hb), (proj2 (Z.eqb_eq _ _) Hb1), Hc, I1. by rewrite <- !app_assoc.
    + constructor; cbn; [done|done|rewrite (proj2 (Z.eqb_eq _ _) Hb), length_app; lia|]. by rewrite (proj2 (Z.eqb_eq _ _) Hb), (proj2 (Z.eqb_neq _ _) Hb1), Hc, app_nil_r.
Qed.
(** C5 In whatever order the blocks of a slot are booked and notarized, the engine is asked for nothing but the following, in this order: to take the blocks as root blocks; once all are booked, to accept all transactions and then all blocks; once all are notarized, to commit the slot, once.
    It is asked to commit exactly if every block could be requested and was cached and no callback is outstanding. *)
Theorem warp_sync_calls id blockIDs txs w : blockIDs ≠ [] -> Z.of_nat (length blockIDs) < 2 ^ 32 -> syncing id blockIDs txs w ->
  ws_calls w = (AddRootBlock <$> filter (fun b => requested b = true) blockIDs)
    ++ (if bookedBlocks w =? Z.of_nat (length blockIDs) then (SetTransactionAccepted <$> txs) ++ (SetBlockAccepted <$> filter (fun b => cached b = true) blockIDs) else [])
    ++ (if notarizedBlocks w =? Z.of_nat (length blockIDs) then [ForceCommit (CommitmentSlot id)] else []) /\
  bookedBlocks w + Z.of_nat (length (bookedHooks w)) = count requested blockIDs /\
  (ForceCommit (CommitmentSlot id) ∈ ws_calls w <-> (forall b, b ∈ blockIDs -> requested b = true /\ cached b = true) /\ bookedHooks w = [] /\ notarizedHooks w = []).
Proof.
  intros Hne Hlen Hs. assert (Hn : 0 < Z.of_nat (length blockIDs)) by (destruct blockIDs; [done|cbn; lia]). destruct (syncing_progress id blockIDs txs w Hne Hlen Hs) as [_ [B1 B2] [N1 N2] Hc]. split; [exact Hc|]. split; [exact B2|].
  pose proof (count_le requested blockIDs) as Hr. pose proof (count_le cached blockIDs) as Hk.
  assert (Hall : (forall b, b ∈ blockIDs -> requested b = true /\ cached b = true) <-> count requested blockIDs = Z.of_nat (length blockIDs) /\ count cached blockIDs = Z.of_nat (length blockIDs)).
  { rewrite !count_all. split; [intros H; split; intros b Hb; by apply H|intros [H1 H2] b Hb; split; auto]. }
  assert (Hin : ForceCommit (CommitmentSlot id) ∈ ws_calls w <-> notarizedBlocks w = Z.of_nat (length blockIDs)).
  { rewrite Hc, !elem_of_app, !list_elem_of_fmap. destruct (Z.eqb_spec (notarizedBlocks w) (Z.of_nat (length blockIDs))); [set_solver|]. split; [|done]. intros [(? & ? & _)|[H|H]]; [done| |set_solver].
    destruct (bookedBlocks w =? _); [|set_solver]. apply elem_of_app in H as [H|H]; apply list_elem_of_fmap in H as (? & ? & _); done. }
  assert (Hl : forall l : list BlockID, l = [] <-> Z.of_nat (length l) = 0) by (intros [|? ?]; cbn; split; intros; [done|done|done|lia]).
  rewrite Hin, Hall, !Hl. destruct (Z.eqb_spec (bookedBlocks w) (Z.of_nat (length blockIDs))); lia.
Qed.
End WarpSync.

(** ** Responses *)
Section Response.
Context `{!RangeOrder (ModelBlock * Z)} {C : Type} `{LruCache C} {Proof : Type}.
Context (ForkingPointID : CommitmentID -> option CommitmentID) (RootsID : CommitmentID -> option Z).      (* of the commitments the chain manager knows *)
Context (tangle_root : gset BlockID -> Z) (mutation_root : gset TransactionID -> Z) (VerifyProof : Proof -> Z -> Z -> bool).
Context (LoadCommitment : Z -> SlotIndex -> option CommitmentID) (AcceptedBlocksCount : Z -> SlotIndex -> Z) (requested : Z -> BlockID -> bool).
(** The result is whether there was an error, the synchronization that was started, with its engine, and the new states; [newID], [r] and [written] describe the engine a restore creates. *)
Definition processWarpSyncResponse (id : CommitmentID) (blockIDs : list BlockID) (tangleMerkleProof : Proof) (transactionIDs : list TransactionID) (mutationMerkleProof : Proof)
    (newID : Z) (r : Rollback) (written : bool) (p : Protocol) (b : BlockDispatcher (C := C)) : bool * option (Z * WarpSync) * Protocol * BlockDispatcher (C := C) :=
  if bool_decide (id ∈ processedWarpSyncRequests b) then (true, None, p, b)
  else match RootsID id, targetEngine ForkingPointID p id with
  | None, _ | _, None => (false, None, p, b)
  | Some rootsID, Some target =>
      if bool_decide (LoadCommitment target (CommitmentSlot id) = Some id) then (true, None, p, b)
      else if negb (VerifyProof tangleMerkleProof (tangle_root (list_to_set blockIDs)) rootsID) then (false, None, p, b)
      else if negb (VerifyProof mutationMerkleProof (mutation_root (list_to_set transactionIDs)) rootsID) then (false, None, p, b)
      else
        let b := with_processed ({[id]} ∪ processedWarpSyncRequests b) (record (StopTicker id) b) in
        if 0 <? AcceptedBlocksCount target (CommitmentSlot id) then
          let p := restoreEngine target newID r written p in
          if activeEngineMutex p then (false, None, p, b) else (true, Some (newID, startWarpSync (requested newID) id blockIDs transactionIDs), p, b)
        else (true, Some (target, startWarpSync (requested target) id blockIDs transactionIDs), p, b)
  end.
(** A synchronization is started only with blocks and transactions that the roots of a commitment on the chain of an engine prove, once. *)
Lemma synced_slot_is_proved id blockIDs tp txs mp newID r written p b ok e w p' b' : processWarpSyncResponse id blockIDs tp txs mp newID r written p b = (ok, Some (e, w), p', b') ->
  id ∉ processedWarpSyncRequests b /\ id ∈ processedWarpSyncRequests b' /\ is_Some (targetEngine ForkingPointID p id) /\ w = startWarpSync (requested e) id blockIDs txs /\
  exists rootsID, RootsID id = Some rootsID /\ VerifyProof tp (tangle_root (list_to_set blockIDs)) rootsID = true /\ VerifyProof mp (mutation_root (list_to_set txs)) rootsID = true.
Proof.
  unfold processWarpSyncResponse. case_bool_decide as Hn; [done|]. destruct (RootsID id) as [rootsID|]; [|done]. destruct (targetEngine _ p id) as [target|]; [|done]. case_bool_decide; [done|].
  destruct (VerifyProof tp _ _) eqn:E1; [|done]. destruct (VerifyProof mp _ _) eqn:E2; [|done]. cbn [negb]. destruct (0 <? _).
  - destruct (activeEngineMutex _); [done|]. intros [= _ <- <- _ <-]. cbn. split_and!; [done|set_solver|done|done|eauto].
  - intros [= _ <- <- _ <-]. cbn. split_and!; [done|set_solver|done|done|eauto].
Qed.
End Response.

(** ** Witnesses *)
Module WarpDemo.
Import EngineDemo.
Definition slot7 : CommitmentID := mkCommitmentID 70 7.
Definition blk (i : Z) : BlockID := mkBlockID i 7.
Definition always (b : BlockID) : bool := true.
(** Booked in the order 2, 1, notarized in the order 1, 2. *)
Definition w0 : WarpSync := startWarpSync always slot7 [blk 1; blk 2] [500].
Definition w1 : WarpSync := booked_once always [blk 1] [] w0.
Definition w2 : WarpSync := booked_once always [] [] w1.
Definition w3 : WarpSync := notarized_once [] [blk 2] w2.
Definition w4 : WarpSync := notarized_once [] [] w3.
Lemma w4_syncing : syncing always always slot7 [blk 1; blk 2] [500] w4.
Proof.
  assert (H1 : syncing always always slot7 [blk 1; blk 2] [500] w1) by (eapply syncing_step; [apply syncing_start|apply (ws_booked always w0 [blk 1] (blk 2) []); reflexivity]).
  assert (H2 : syncing always always slot7 [blk 1; blk 2] [500] w2) by (eapply syncing_step; [exact H1|apply (ws_booked always w1 [] (blk 1) []); reflexivity]).
  assert (H3 : syncing always always slot7 [blk 1; blk 2] [500] w3) by (eapply syncing_step; [exact H2|apply (ws_notarized always w2 [] (blk 1) [blk 2]); reflexivity]).
  eapply syncing_step; [exact H3|apply (ws_notarized always w3 [] (blk 2) []); reflexivity].
Qed.
Lemma warp_sync_calls_witness : ws_calls w4 = [AddRootBlock (blk 1); AddRootBlock (blk 2); SetTransactionAccepted 500; SetBlockAccepted (blk 1); SetBlockAccepted (blk 2); ForceCommit 7] /\ ForceCommit 7 ∈ ws_calls w4.
Proof.
  split; [vm_compute; reflexivity|]. destruct (warp_sync_calls always always slot7 [blk 1; blk 2] [500] w4) as (_ & _ & H); [done|vm_compute; reflexivity|exact w4_syncing|]. apply H. split; [done|]. split; vm_compute; reflexivity.
Defined.
(** If one block cannot be requested, the slot is never committed although its request counts as processed. *)
Lemma unavailable_block_blocks_slot w : syncing (fun b => bool_decide (b ≠ blk 2)) always slot7 [blk 1; blk 2] [500] w -> ForceCommit 7 ∉ ws_calls w.
Proof.
  intros Hs. destruct (syncing_progress (fun b => bool_decide (b ≠ blk 2)) always slot7 [blk 1; blk 2] [500] w ltac:(done) ltac:(vm_compute; reflexivity) Hs) as [_ [B1 B2] [N1 N2] Hc]. change (count _ _) with 1 in B2. change (count always _) with 2 in N2. cbn [length] in *.
  destruct (Z.eqb_spec (bookedBlocks w) (Z.of_nat 2)); [lia|]. assert (E : (notarizedBlocks w =? Z.of_nat 2) = false) by lia. rewrite E in Hc. rewrite Hc. cbn. destruct (decide _); set_solver.
Qed.
End WarpDemo.
