(* ===== verification/AccountsSnapshot.v ===== *)
(** * Snapshots of the accounts ledger (engine/accounts/accountsledger/snapshot.go)

    [Export] writes the accounts as they were at a target slot, rolling back those of the tree and recreating those destroyed since, and the diffs of the slots before it; [Import] reads them into an empty ledger.

    Bytes are those of AccountBytes; the counts are placeholders of a PositionedWriter that are filled in later. *)
From stdpp Require Import strings.
From S2P Require Import Prelude Bytes Block Accounts AccountsLedger AccountBytes Streams.
#[local] Open Scope Z_scope.

Section Snapshot.
Context `{MU : MarshalUtil} `{A : AccountLayout} `{SB : Bytes.Stream} `{!SafeMath} `{!RangeOrder AccountID} (env : AEnv).

(** ** Export *)
Definition writeAccountData (a : AccountData) (p : PositionedWriter) : PositionedWriter := pw_WriteBytes (account_Bytes a) p.
Fixpoint export_accounts (target : SlotIndex) (m : Manager) (l : list AccountData) (p : PositionedWriter) (count : Z) : option (PositionedWriter * Z) :=
  match l with
  | [] => Some (p, count)
  | a :: l =>
      '(_, a) ← rollbackAccountTo env target m a;
      export_accounts target m l (writeAccountData a p) (u64 (count + 1))
  end.
(** The accounts destroyed after the target slot, and how many times one was. *)
Definition collect_destroyed (target : SlotIndex) (m : Manager) : outcome (gmap AccountID AccountData * Z) :=
  foldl (fun acc slot =>
    '(ds, count) ← acc;
    s ← deref (slotDiff env slot m);
    let ids := (range_of (gset_to_gmap tt (destroyedStore s))).*1 in
    Ret (foldl (fun acc id => (<[id := NewAccountData id]> acc.1, u64 (acc.2 + 1))) (ds, count) ids)) (Ret (∅, 0)) (slots_down (latestCommittedSlot m) target).
Fixpoint export_destroyed (target : SlotIndex) (m : Manager) (l : list AccountData) (p : PositionedWriter) : option PositionedWriter :=
  match l with
  | [] => Some p
  | a :: l =>
      '(wasDestroyed, a) ← rollbackAccountTo env target m a;
      if negb wasDestroyed then None else export_destroyed target m l (writeAccountData a p)
  end.
Definition recreateDestroyedAccounts (target : SlotIndex) (m : Manager) (p : PositionedWriter) : outcome (option (PositionedWriter * Z)) :=
  '(ds, count) ← collect_destroyed target m;
  Ret (p ← export_destroyed target m (range_of ds).*2 p; Some (p, count)).
Definition exportAccountTree (target : SlotIndex) (m : Manager) (p : PositionedWriter) : outcome (option (PositionedWriter * Z)) :=
  match export_accounts target m (range_of (accountsTree m)).*2 p 0 with
  | None => Ret None
  | Some (p, count) => r ← recreateDestroyedAccounts target m p; Ret (match r with Some (p, recreatedAccountsCount) => Some (p, u64 (count + recreatedAccountsCount)) | None => None end)
  end.
(** What [Stream] of the diffs of a slot visits: the destroyed accounts without a diff, then those with one. *)
Definition diff_entries (s : AccountDiffs) : list (AccountID * option AccountDiff) :=
  ((fun id => (id, None)) <$> (range_of (gset_to_gmap tt (destroyedStore s))).*1) ++ ((fun e => (e.1, Some e.2)) <$> range_of (diffChangeStore s)).
Definition bool_byte (b : bool) : bytes := put_le 1 (if b then 1 else 0).
Definition write_entry (e : AccountID * option AccountDiff) (p : PositionedWriter) : PositionedWriter :=
  let p := pw_WriteBytes (put_le AccountIDLength e.1) p in
  let p := pw_WriteValue "destroyed flag" (bool_byte (is_none e.2)) false p in
  match e.2 with Some d => pw_WriteBytes (diff_Bytes d) p | None => p end.
Definition write_slot (slot : SlotIndex) (m : Manager) (p : PositionedWriter) : option PositionedWriter :=
  let p := pw_WriteValue "slot index" (put_le 4 slot) false p in
  let p := pw_WriteValue "inDiff accounts count" (put_le 8 0) true p in
  match slotDiff env slot m with
  | None => Some p
  | Some s =>
      let '(p, n) := foldl (fun pn e => (write_entry e pn.1, u64 (pn.2 + 1))) (p, 0) (diff_entries s) in
      pw_WriteValueAtBookmark "inDiff accounts count" (put_le 8 n) p
  end.
Fixpoint write_slots (slots : list SlotIndex) (m : Manager) (p : PositionedWriter) (count : Z) : option (PositionedWriter * Z) :=
  match slots with
  | [] => Some (p, count)
  | slot :: slots => p ← write_slot slot m p; write_slots slots m p (u64 (count + 1))
  end.
Definition first_slot (target : SlotIndex) : SlotIndex := if MaxCommittableAge env target <? target then target - MaxCommittableAge env target else 1.
Definition diff_slots (target : SlotIndex) : list SlotIndex := seqZ (first_slot target) (target - first_slot target + 1).
Definition writeSlotDiffs (target : SlotIndex) (m : Manager) (p : PositionedWriter) : option (PositionedWriter * Z) := write_slots (diff_slots target) m p 0.
Definition Export (target : SlotIndex) (m : Manager) (w : WriteSeeker) : outcome (option WriteSeeker) :=
  let p := NewPositionedWriter w in
  let p := pw_WriteValue "accounts count" (put_le 8 0) true p in
  let p := pw_WriteValue "slot diffs count" (put_le 8 0) true p in
  r ← exportAccountTree target m p;
  Ret ('(p, accountCount) ← r;
       p ← pw_WriteValueAtBookmark "accounts count" (put_le 8 accountCount) p;
       '(p, slotDiffsCount) ← writeSlotDiffs target m p;
       p ← pw_WriteValueAtBookmark "slot diffs count" (put_le 8 slotDiffsCount) p;
       Some (writer p)).

(** ** Import *)
Definition set_account (a : AccountData) (m : Manager) : Manager := with_tree (<[AccID a := a]> (accountsTree m)) m.
Definition importAccountTree (accountCount : Z) : importer Manager unit :=
  repeat_n (Z.to_nat accountCount) ('(a, _) ← take_from account_readFromReadSeeker; modify (set_account a)).
(** Storing into the diff store of a slot. *)
Definition store_diff (slot : SlotIndex) (id : AccountID) (d : AccountDiff) (destroyed : bool) (m : Manager) : Manager :=
  let s := default NewAccountDiffs (slotDiffs m !! slot) in
  with_slotDiffs (<[slot := mkAccountDiffs (<[id := d]> (diffChangeStore s)) (if destroyed then {[id]} ∪ destroyedStore s else destroyedStore s)]> (slotDiffs m)) m.
Definition read_entry (slot : SlotIndex) : importer Manager unit :=
  id ← take_from (read_le AccountIDLength);
  destroyed ← take_from (read_le 1);
  d ← (if negb (destroyed =? 0) then mret NewAccountDiff else '(d, _) ← take_from diff_readFromReadSeeker; mret d);
  modify (store_diff slot id d (negb (destroyed =? 0))).
Definition read_slot : importer Manager unit :=
  slot ← take_from (read_le 4);
  accountsInDiffCount ← take_from (read_le 8);
  if accountsInDiffCount =? 0 then mret tt
  else _ ← modify_or_fail (fun m => (fun _ => m) <$> slotDiff env slot m);
    repeat_n (Z.to_nat accountsInDiffCount) (read_entry slot).
Definition readSlotDiffs (slotDiffCount : Z) : importer Manager unit := repeat_n (Z.to_nat slotDiffCount) read_slot.
Definition Import : importer Manager unit :=
  accountCount ← take_from (read_le 8);
  slotDiffCount ← take_from (read_le 8);
  _ ← importAccountTree accountCount;
  readSlotDiffs slotDiffCount.
End Snapshot.

(** ** Writing at the end of a file *)
Definition pos (bm : gmap string Z) (c : bytes) : PositionedWriter := mkPositioned bm (mkWriter c (length c)).
Lemma pos_bytes bs bm c : pw_WriteBytes bs (pos bm c) = pos bm (c ++ bs).
Proof. unfold pw_WriteBytes, WriteBytesFunc, pos. cbn. by rewrite w_write_end. Qed.
Lemma pos_value name bs (b : bool) bm c : pw_WriteValue name bs b (pos bm c) = pos (if b then <[name := Z.of_nat (length c)]> bm else bm) (c ++ bs).
Proof. unfold pw_WriteValue, WriteValueFunc, pos. cbn. by rewrite w_write_end. Qed.
Lemma pos_fill name old new pre post bm : length old = length new -> (0 < length old)%nat -> bm !! name = Some (Z.of_nat (length pre)) ->
  pw_WriteValueAtBookmark name new (pos bm (pre ++ old ++ post)) = Some (pos bm (pre ++ new ++ post)).
Proof. apply WriteValueAtBookmark_fills. Qed.
Lemma count_step n (k : nat) : 0 <= n -> n + Z.of_nat (S k) < 2 ^ 64 -> u64 (n + 1) = n + 1.
Proof. intros. apply (wrap_id Uint64). unfold in_range. cbn. lia. Qed.

Section Written.
Context `{MS : MarshalSpec} `{AS : AccountLayoutSpec} `{SS : StreamSpec} `{!SafeMath} `{!RangeOrder AccountID} (env : AEnv).
Implicit Types m : Manager.
Definition rolled (target : SlotIndex) (m : Manager) (flag : option bool) (a a' : AccountData) : Prop := exists d, rollbackAccountTo env target m a = Some (d, a') /\ (forall b, flag = Some b -> d = b).
Lemma export_accounts_written target m l : forall bm c n p' n', 0 <= n -> n + Z.of_nat (length l) < 2 ^ 64 -> export_accounts env target m l (pos bm c) n = Some (p', n') ->
  exists accs, Forall2 (rolled target m None) l accs /\ p' = pos bm (c ++ (accs ≫= account_Bytes)) /\ n' = n + Z.of_nat (length accs).
Proof.
  induction l as [|a l IH]; intros bm c n p' n' Hn Hl; cbn [export_accounts].
  - intros [= <- <-]. exists []. cbn. rewrite app_nil_r. split_and!; [constructor|done|lia].
  - cbn [length] in Hl. destruct (rollbackAccountTo env target m a) as [[d a']|] eqn:E; [|done]. cbn [mbind option_bind]. unfold writeAccountData. rewrite pos_bytes, (count_step n (length l)) by lia. intros Hr. apply IH in Hr as (accs & H1 & -> & ->); [|lia..].
    exists (a' :: accs). split_and!; [constructor; [by exists d|done]|by rewrite bind_cons, app_assoc|cbn [length]; lia].
Qed.
Lemma export_destroyed_written target m l : forall bm c p', export_destroyed env target m l (pos bm c) = Some p' ->
  exists accs, Forall2 (rolled target m (Some true)) l accs /\ p' = pos bm (c ++ (accs ≫= account_Bytes)).
Proof.
  induction l as [|a l IH]; intros bm c p'; cbn [export_destroyed].
  - intros [= <-]. exists []. cbn. rewrite app_nil_r. split; [constructor|done].
  - destruct (rollbackAccountTo env target m a) as [[d a']|] eqn:E; [|done]. cbn [mbind option_bind]. destruct d; [|done]. cbn [negb]. unfold writeAccountData. rewrite pos_bytes. intros Hr. apply IH in Hr as (accs & H1 & ->).
    exists (a' :: accs). split; [constructor; [exists true; split; [done|by intros ? [= <-]]|done]|by rewrite bind_cons, app_assoc].
Qed.
Definition enc_entry (e : AccountID * option AccountDiff) : bytes := put_le AccountIDLength e.1 ++ bool_byte (is_none e.2) ++ match e.2 with Some d => diff_Bytes d | None => [] end.
Lemma write_entry_written e bm c : write_entry e (pos bm c) = pos bm (c ++ enc_entry e).
Proof. unfold write_entry, enc_entry. rewrite pos_bytes, pos_value. destruct (e.2); [rewrite pos_bytes|rewrite app_nil_r]; by rewrite <- !app_assoc. Qed.
Lemma write_entries_written es : forall bm c n, 0 <= n -> n + Z.of_nat (length es) < 2 ^ 64 -> foldl (fun pn e => (write_entry e pn.1, u64 (pn.2 + 1))) (pos bm c, n) es = (pos bm (c ++ (es ≫= enc_entry)), n + Z.of_nat (length es)).
Proof.
  induction es as [|e es IH]; intros bm c n Hn Hl; cbn [foldl]; [cbn; rewrite app_nil_r; f_equal; lia|]. cbn [length fst snd] in *. rewrite write_entry_written, (count_step n (length es)) by lia. rewrite IH by lia. rewrite bind_cons, app_assoc. f_equal. lia.
Qed.
Definition slot_entries (m : Manager) (slot : SlotIndex) : list (AccountID * option AccountDiff) := match slotDiff env slot m with Some s => diff_entries s | None => [] end.
Definition enc_slot (m : Manager) (slot : SlotIndex) : bytes := put_le 4 slot ++ put_le 8 (Z.of_nat (length (slot_entries m slot))) ++ (slot_entries m slot ≫= enc_entry).
Lemma write_slot_written slot m bm c : Z.of_nat (length (slot_entries m slot)) < 2 ^ 64 -> exists n, write_slot env slot m (pos bm c) = Some (pos (<["inDiff accounts count"%string := n]> bm) (c ++ enc_slot m slot)).
Proof.
  unfold write_slot, enc_slot, slot_entries. intros Hl. rewrite !pos_value. exists (Z.of_nat (length (c ++ put_le 4 slot))). destruct (slotDiff env slot m) as [s|]; [|cbn [length mbind list_bind]; change (put_le 8 (Z.of_nat 0)) with (put_le 8 0); by rewrite app_nil_r, app_assoc].
  rewrite write_entries_written by lia. rewrite <- (app_assoc (c ++ put_le 4 slot)). rewrite pos_fill; [|by rewrite !length_put_le|by rewrite length_put_le; lia|by rewrite lookup_insert_eq]. by rewrite <- !app_assoc.
Qed.
Lemma write_slots_written slots m : (forall slot, slot ∈ slots -> Z.of_nat (length (slot_entries m slot)) < 2 ^ 64) -> forall bm c n, 0 <= n -> n + Z.of_nat (length slots) < 2 ^ 64 ->
  exists bm', write_slots env slots m (pos bm c) n = Some (pos bm' (c ++ (slots ≫= enc_slot m)), n + Z.of_nat (length slots)) /\ (forall name, name ≠ "inDiff accounts count"%string -> bm' !! name = bm !! name).
Proof.
  induction slots as [|slot slots IH]; intros Hs bm c n Hn Hl; cbn [write_slots]; [exists bm; split; [cbn; rewrite app_nil_r; do 2 f_equal; lia|done]|]. cbn [length] in Hl.
  destruct (write_slot_written slot m bm c) as [k ->]; [apply Hs; set_solver|]. cbn [mbind option_bind]. rewrite (count_step n (length slots)) by lia.
  destruct (IH ltac:(intros; apply Hs; set_solver) (<["inDiff accounts count"%string := k]> bm) (c ++ enc_slot m slot) (n + 1)) as (bm' & -> & Hbm); [lia..|]. exists bm'. split; [rewrite bind_cons, app_assoc; do 2 f_equal; cbn [length]; lia|]. intros name Hname. rewrite Hbm by done. by rewrite lookup_insert_ne.
Qed.
Definition sizes_ok (target : SlotIndex) (m : Manager) : Prop :=
  Z.of_nat (size (accountsTree m)) < 2 ^ 64 /\ Z.of_nat (length (diff_slots env target)) < 2 ^ 64 /\ (forall slot, slot ∈ diff_slots env target -> Z.of_nat (length (slot_entries m slot)) < 2 ^ 64).
Lemma range_of_length {V} (x : gmap AccountID V) : length (range_of x).*2 = size x.
Proof. rewrite length_fmap, (Permutation_length (range_of_perm x)). apply length_map_to_list. Qed.
Lemma Export_written target m pre w : sizes_ok target m -> Export env target m (mkWriter pre (length pre)) = Ret (Some w) -> exists ds nD accs recs, collect_destroyed env target m = Ret (ds, nD) /\
  Forall2 (rolled target m None) (range_of (accountsTree m)).*2 accs /\ Forall2 (rolled target m (Some true)) (range_of ds).*2 recs /\
  contents w = pre ++ put_le 8 (u64 (Z.of_nat (length accs) + nD)) ++ put_le 8 (Z.of_nat (length (diff_slots env target))) ++ ((accs ++ recs) ≫= account_Bytes) ++ (diff_slots env target ≫= enc_slot m).
Proof.
  intros (Hs1 & Hs2 & Hs3). unfold Export, NewPositionedWriter. change (mkPositioned ∅ _) with (pos ∅ pre). rewrite !pos_value. unfold exportAccountTree.
  destruct (export_accounts _ _ _ _ _ _) as [[p1 n1]|] eqn:E1; [|cbn; intros [=]]. apply export_accounts_written in E1 as (accs & HA & -> & ->); [|lia|rewrite range_of_length; lia].
  unfold recreateDestroyedAccounts. destruct (collect_destroyed env target m) as [[ds nD]| |] eqn:Ed; [|done|done]. cbn [mbind outcome_bind].
  destruct (export_destroyed _ _ _ _ _) as [p2|] eqn:E2; [|cbn; intros [=]]. apply export_destroyed_written in E2 as (recs & HR & ->). cbn [mbind option_bind]. rewrite Z.add_0_l.
  set (n := u64 _). set (bm := <["slot diffs count"%string := _]> _). unfold writeSlotDiffs. rewrite <- !app_assoc. rewrite pos_fill; [|by rewrite !length_put_le|by rewrite length_put_le; lia|unfold bm; rewrite lookup_insert_ne by done; by rewrite lookup_insert_eq]. cbn [mbind option_bind].
  destruct (write_slots_written (diff_slots env target) m Hs3 bm (pre ++ put_le 8 n ++ put_le 8 0 ++ (accs ≫= account_Bytes) ++ (recs ≫= account_Bytes)) 0) as (bm' & -> & Hbm); [lia..|]. cbn [mbind option_bind].
  rewrite <- !app_assoc. rewrite (app_assoc pre). rewrite pos_fill; [|by rewrite !length_put_le|by rewrite length_put_le; lia|rewrite Hbm by done; unfold bm; rewrite lookup_insert_eq; by rewrite !length_app, !length_put_le].
  cbn. intros [= <-]. exists ds, nD, accs, recs. split_and!; try done. cbn. rewrite bind_app, <- !app_assoc. by rewrite ?Z.add_0_l.
Qed.
(** ** What was destroyed *)
Definition destroyed_at (m : Manager) (slot : SlotIndex) : gset AccountID := match slotDiff env slot m with Some s => destroyedStore s | None => ∅ end.
Lemma insert_new ids : forall (ds : gmap AccountID AccountData) n, NoDup ids -> (forall id, id ∈ ids -> ds !! id = None) -> 0 <= n -> n + Z.of_nat (length ids) < 2 ^ 64 ->
  let r := foldl (fun acc id => (<[id := NewAccountData id]> acc.1, u64 (acc.2 + 1))) (ds, n) ids in
  r.2 = n + Z.of_nat (length ids) /\ Z.of_nat (size r.1) = Z.of_nat (size ds) + Z.of_nat (length ids) /\ (forall id, r.1 !! id = if decide (id ∈ ids) then Some (NewAccountData id) else ds !! id).
Proof.
  induction ids as [|i ids IH]; intros ds n Hnd Hnew Hn Hl; cbn [foldl]; [cbn; split_and!; [lia|lia|]; intros id; by rewrite decide_False by set_solver|]. apply NoDup_cons in Hnd as [Hi Hnd]. cbn [length fst snd] in *. rewrite (count_step n (length ids)) by lia.
  destruct (IH (<[i := NewAccountData i]> ds) (n + 1)) as (H1 & H2 & H3); [done| |lia|lia|]. { intros id Hid. rewrite lookup_insert_ne by set_solver. apply Hnew. set_solver. }
  split_and!; [rewrite H1; lia|rewrite H2, map_size_insert_None by (apply Hnew; set_solver); lia|]. intros id. rewrite H3. destruct (decide (id ∈ ids)), (decide (id ∈ i :: ids)); [done|set_solver| |].
  - assert (id = i) as -> by set_solver. by rewrite lookup_insert_eq.
  - rewrite lookup_insert_ne by set_solver. done.
Qed.
Lemma range_ids (X : gset AccountID) : NoDup (range_of (gset_to_gmap tt X)).*1 /\ (forall id, id ∈ (range_of (gset_to_gmap tt X)).*1 <-> id ∈ X) /\ length (range_of (gset_to_gmap tt X)).*1 = size X.
Proof.
  pose proof (range_of_perm (gset_to_gmap tt X)) as Hp. assert (Hd : (range_of (gset_to_gmap tt X)).*1 ≡ₚ elements X).
  { rewrite Hp. apply NoDup_Permutation; [apply NoDup_fst_map_to_list|apply NoDup_elements|]. intros x. rewrite elem_of_elements, list_elem_of_fmap. split.
    - intros ([k []] & -> & Hk). apply elem_of_map_to_list, lookup_gset_to_gmap_Some in Hk. by destruct Hk.
    - intros Hx. exists (x, tt). split; [done|]. by apply elem_of_map_to_list, lookup_gset_to_gmap_Some. }
  split_and!; [rewrite Hd; apply NoDup_elements|intros id; rewrite Hd; apply elem_of_elements|by rewrite (Permutation_length Hd)].
Qed.
Lemma collect_destroyed_exact target m ds n : NoDup (slots_down (latestCommittedSlot m) target) -> (forall i j id, i ∈ slots_down (latestCommittedSlot m) target -> j ∈ slots_down (latestCommittedSlot m) target -> id ∈ destroyed_at m i -> id ∈ destroyed_at m j -> i = j) ->
  zsum (fun slot => Z.of_nat (size (destroyed_at m slot))) (slots_down (latestCommittedSlot m) target) < 2 ^ 64 ->
  collect_destroyed env target m = Ret (ds, n) -> (n = Z.of_nat (size ds) /\ n <= zsum (fun slot => Z.of_nat (size (destroyed_at m slot))) (slots_down (latestCommittedSlot m) target)) /\ (forall id, ds !! id = if decide (Exists (fun slot => id ∈ destroyed_at m slot) (slots_down (latestCommittedSlot m) target)) then Some (NewAccountData id) else None) /\
    (forall slot, slot ∈ slots_down (latestCommittedSlot m) target -> is_Some (slotDiff env slot m)).
Proof.
  unfold collect_destroyed. set (slots := slots_down _ target).
  assert (Hgen : forall slots acc k, NoDup slots -> (forall i j id, i ∈ slots -> j ∈ slots -> id ∈ destroyed_at m i -> id ∈ destroyed_at m j -> i = j) -> (forall i id, i ∈ slots -> id ∈ destroyed_at m i -> acc !! id = None) -> k = Z.of_nat (size acc) -> k + zsum (fun slot => Z.of_nat (size (destroyed_at m slot))) slots < 2 ^ 64 -> foldl (fun acc slot => '(ds, count) ← acc; s ← deref (slotDiff env slot m); let ids := (range_of (gset_to_gmap tt (destroyedStore s))).*1 in
      Ret (foldl (fun acc id => (<[id := NewAccountData id]> acc.1, u64 (acc.2 + 1))) (ds, count) ids)) (Ret (acc, k)) slots = Ret (ds, n) ->
    (n = Z.of_nat (size ds) /\ n <= k + zsum (fun slot => Z.of_nat (size (destroyed_at m slot))) slots) /\ (forall id, ds !! id = if decide (Exists (fun slot => id ∈ destroyed_at m slot) slots) then Some (NewAccountData id) else acc !! id) /\ (forall slot, slot ∈ slots -> is_Some (slotDiff env slot m))).
  { clear slots. intros slots. induction slots as [|slot slots IH]; intros acc k Hnd Hone Hnew -> Hsum; cbn [foldl].
    - intros [= <- <-]. split_and!; [done|cbn; lia| |set_solver]. intros id. destruct (decide _) as [He|]; [by apply Exists_nil in He|done].
    - destruct (slotDiff env slot m) as [s|] eqn:Es; cbn [deref mbind outcome_bind].
      2: { intros Hf. exfalso. revert Hf. clear. assert (E : forall l, foldl (fun acc slot => '(ds, count) ← acc; s ← deref (slotDiff env slot m); let ids := (range_of (gset_to_gmap tt (destroyedStore s))).*1 in Ret (foldl (fun acc id => (<[id := NewAccountData id]> acc.1, u64 (acc.2 + 1))) (ds, count) ids)) (Panic : outcome (gmap AccountID AccountData * Z)) l = Panic) by (intros l; induction l; done). by rewrite E. }
      assert (Hat : destroyed_at m slot = destroyedStore s) by (unfold destroyed_at; by rewrite Es). destruct (range_ids (destroyedStore s)) as (R1 & R2 & R3). cbn [zsum] in Hsum. rewrite Hat in Hsum. assert (Hpos : 0 <= zsum (fun slot => Z.of_nat (size (destroyed_at m slot))) slots) by (clear; induction slots; cbn; lia).
      destruct (insert_new (range_of (gset_to_gmap tt (destroyedStore s))).*1 acc (Z.of_nat (size acc))) as (I1 & I2 & I3); [done|intros id Hid%R2; apply (Hnew slot); [set_solver|by rewrite Hat]|lia|lia|].
      destruct (foldl _ (acc, _) _) as [acc1 k1] eqn:Ef. cbn [fst snd] in *. intros Hr. apply NoDup_cons in Hnd as [Hns Hnd]. apply IH in Hr as ([J1 J4] & J2 & J3); [|done| | |lia|lia].
      + split_and!; [done|cbn [zsum]; rewrite Hat; lia| |]; [|intros sl [->|?]%elem_of_cons; [by rewrite Es|by apply J3]]. intros id. rewrite J2, I3. destruct (decide (Exists _ slots)) as [He|He]; destruct (decide (Exists _ (slot :: slots))) as [Hc|Hc].
        * done.
        * exfalso. apply Hc. by constructor.
        * apply Exists_cons in Hc as [Hc|Hc]; [|done]. rewrite decide_True; [done|]. apply R2. by rewrite <- Hat.
        * rewrite decide_False; [done|]. intros Hid%R2. apply Hc. constructor. by rewrite Hat.
      + intros i j id Hi Hj. apply Hone; set_solver.
      + intros i id Hi Hid. rewrite I3. destruct (decide _) as [Hin|_]; [|apply (Hnew i id); [set_solver|done]]. exfalso. apply R2 in Hin. rewrite <- Hat in Hin. assert (i = slot) as -> by (apply (Hone i slot id); set_solver). done. }
  intros Hnd Hone Hsum Hr. destruct (Hgen slots ∅ 0 Hnd Hone ltac:(done) eq_refl ltac:(lia) Hr) as ([H1 H4] & H2 & H3). split_and!; [done|lia| |done]. intros id. rewrite H2. by rewrite lookup_empty.
Qed.
(** ** Reading *)
Lemma reads_account a m : account_data_ok a -> reads ('(a, _) ← take_from account_readFromReadSeeker; modify (set_account a)) (account_Bytes a) tt m (set_account a m).
Proof. intros Ha. eapply reads_last; [apply reads_take; by apply account_parses|]. apply reads_modify. Qed.
Definition entry_ok (e : AccountID * option AccountDiff) : Prop := array_ok AccountIDLength e.1 /\ (forall d, e.2 = Some d -> diff_ok d).
Definition store_one (slot : SlotIndex) (m : Manager) (e : AccountID * option AccountDiff) : Manager := store_diff slot e.1 (default NewAccountDiff e.2) (is_none e.2) m.
Lemma reads_entry slot e m : entry_ok e -> reads (read_entry slot) (enc_entry e) tt m (store_one slot m e).
Proof.
  intros [H1 H2]. destruct e as [id d]. unfold read_entry, enc_entry, store_one, bool_byte. cbn [fst snd] in *. eapply reads_bind; [apply reads_take; by apply parses_array|]. destruct d as [d|]; cbn [is_none default].
  - eapply reads_bind; [apply reads_take; by apply (parses_le 1)|]. cbn. eapply reads_last; [eapply reads_last; [apply reads_take; apply diff_parses; by apply H2|apply reads_ret]|]. apply reads_modify.
  - eapply reads_bind; [apply reads_take; by apply (parses_le 1)|]. cbn. eapply reads_skip; [apply reads_ret|]. apply reads_modify.
Qed.
Definition slot_ok (m : Manager) (slot : SlotIndex) : Prop := in_range Uint32 slot /\ Z.of_nat (length (slot_entries m slot)) < 2 ^ 64 /\ Forall entry_ok (slot_entries m slot).
Lemma reads_slot m slot m' : slot_ok m slot -> reads (read_slot env) (enc_slot m slot) tt m' (foldl (store_one slot) m' (slot_entries m slot)).
Proof.
  intros (H1 & H2 & H3). unfold read_slot, enc_slot. eapply reads_bind; [apply reads_take; apply (parses_le 4); unfold in_range in H1; cbn in H1; cbn; lia|]. eapply reads_bind; [apply reads_take; apply parses_u64; unfold in_range; cbn; lia|].
  destruct (Z.eqb_spec (Z.of_nat (length (slot_entries m slot))) 0) as [E|E]; [destruct (slot_entries m slot); [apply reads_ret|done]|]. assert (Hp : pruned env slot = false) by (unfold slot_entries, slotDiff in E; by destruct (pruned env slot)).
  eapply reads_skip; [apply (reads_modify_or_fail _ _ m'); unfold slotDiff; by rewrite Hp|]. rewrite Nat2Z.id. apply (reads_repeat _ enc_entry (store_one slot) (fun _ => True)); [|done]. intros e s He _. split; [|done]. apply reads_entry. by eapply Forall_forall.
Qed.
(** The ledger after reading. *)
Definition restored (m : Manager) (accs : list AccountData) (slots : list SlotIndex) (m0 : Manager) : Manager :=
  foldl (fun m' slot => foldl (store_one slot) m' (slot_entries m slot)) (foldl (fun m' a => set_account a m') m0 accs) slots.
Lemma reads_Import m accs slots m0 : Forall account_data_ok accs -> Z.of_nat (length accs) < 2 ^ 64 -> Z.of_nat (length slots) < 2 ^ 64 -> Forall (slot_ok m) slots ->
  reads (Import env) (put_le 8 (Z.of_nat (length accs)) ++ put_le 8 (Z.of_nat (length slots)) ++ (accs ≫= account_Bytes) ++ (slots ≫= enc_slot m)) tt m0 (restored m accs slots m0).
Proof.
  intros Ha Hna Hns Hs. unfold Import. eapply reads_bind; [apply reads_take; apply parses_u64; unfold in_range; cbn; lia|]. eapply reads_bind; [apply reads_take; apply parses_u64; unfold in_range; cbn; lia|].
  unfold importAccountTree, readSlotDiffs. rewrite !Nat2Z.id. eapply reads_bind.
  - apply (reads_repeat _ account_Bytes (fun m' a => set_account a m') (fun _ => True)); [|done]. intros a s Hin _. split; [|done]. apply reads_account. by eapply Forall_forall.
  - apply (reads_repeat _ (enc_slot m) (fun m' slot => foldl (store_one slot) m' (slot_entries m slot)) (fun _ => True)); [|done]. intros slot s Hin _. split; [|done]. apply reads_slot. by eapply Forall_forall.
Qed.
Lemma store_tree slot es : forall m, accountsTree (foldl (store_one slot) m es) = accountsTree m /\ (forall k, k ≠ slot -> slotDiffs (foldl (store_one slot) m es) !! k = slotDiffs m !! k).
Proof. induction es as [|e es IH]; intros m; cbn [foldl]; [done|]. destruct (IH (store_one slot m e)) as [H1 H2]. split; [by rewrite H1|]. intros k Hk. rewrite H2 by done. unfold store_one, store_diff. cbn. by rewrite lookup_insert_ne. Qed.
Lemma restored_slots m slots : forall m0, NoDup slots -> accountsTree (foldl (fun m' slot => foldl (store_one slot) m' (slot_entries m slot)) m0 slots) = accountsTree m0 /\
  (forall slot, slot ∈ slots -> slotDiffs m0 !! slot = None -> slotDiffs (foldl (fun m' slot => foldl (store_one slot) m' (slot_entries m slot)) m0 slots) !! slot = slotDiffs (foldl (store_one slot) (with_slotDiffs ∅ m0) (slot_entries m slot)) !! slot) /\
  (forall slot, slot ∉ slots -> slotDiffs (foldl (fun m' slot => foldl (store_one slot) m' (slot_entries m slot)) m0 slots) !! slot = slotDiffs m0 !! slot).
Proof.
  induction slots as [|i slots IH]; intros m0 Hnd; cbn [foldl]; [split_and!; [done|set_solver|done]|]. apply NoDup_cons in Hnd as [Hi Hnd]. destruct (IH (foldl (store_one i) m0 (slot_entries m i)) Hnd) as (H1 & H2 & H3). destruct (store_tree i (slot_entries m i) m0) as [T1 T2]. split_and!.
  - by rewrite H1.
  - assert (Hext : forall es slot a b, slotDiffs a !! slot = slotDiffs b !! slot -> slotDiffs (foldl (store_one slot) a es) !! slot = slotDiffs (foldl (store_one slot) b es) !! slot).
    { intros es slot. induction es as [|e es IHe]; intros a b Hab; cbn [foldl]; [done|]. apply IHe. unfold store_one, store_diff. cbn. by rewrite !lookup_insert_eq, Hab. }
    intros slot [->|Hs]%elem_of_cons Hnone.
    + rewrite H3 by done. apply Hext. cbn. by rewrite lookup_empty.
    + rewrite H2; [|done|rewrite T2; [done|set_solver]]. apply Hext. done.
  - intros slot Hs. rewrite H3 by set_solver. apply T2. set_solver.
Qed.
(** The diffs of a slot: what is destroyed is stored with an empty diff first, and then with its own. *)
Definition store_in (s : AccountDiffs) (e : AccountID * option AccountDiff) : AccountDiffs := mkAccountDiffs (<[e.1 := default NewAccountDiff e.2]> (diffChangeStore s)) (if is_none e.2 then {[e.1]} ∪ destroyedStore s else destroyedStore s).
Lemma store_fold_in slot es : forall m, default NewAccountDiffs (slotDiffs (foldl (store_one slot) m es) !! slot) = foldl store_in (default NewAccountDiffs (slotDiffs m !! slot)) es.
Proof. induction es as [|e es IH]; intros m; cbn [foldl]; [done|]. rewrite IH. unfold store_one, store_diff. cbn. by rewrite lookup_insert_eq. Qed.
Lemma store_destroyed ids : forall s, destroyedStore (foldl store_in s ((fun id => (id, None)) <$> ids)) = list_to_set ids ∪ destroyedStore s /\
  (forall k, diffChangeStore (foldl store_in s ((fun id => (id, None)) <$> ids)) !! k = if decide (k ∈ ids) then Some NewAccountDiff else diffChangeStore s !! k).
Proof.
  induction ids as [|i ids IH]; intros s; cbn [foldl fmap list_fmap]; [split; [cbn; set_solver|done]|]. destruct (IH (store_in s (i, None))) as [H1 H2]. split; [rewrite H1; cbn; set_solver|]. intros k. rewrite H2. cbn [store_in diffChangeStore fst snd default].
  destruct (decide (k ∈ ids)), (decide (k ∈ i :: ids)); [done|set_solver| |]; [assert (k = i) as -> by set_solver; by rewrite lookup_insert_eq|rewrite lookup_insert_ne by set_solver; done].
Qed.
Lemma store_changes l : forall s, foldl store_in s ((fun e => (e.1, Some e.2)) <$> l) = mkAccountDiffs (foldl (fun (acc : gmap AccountID AccountDiff) e => <[e.1 := e.2]> acc) (diffChangeStore s) l) (destroyedStore s).
Proof. induction l as [|e l IH]; intros s; cbn [foldl fmap list_fmap]; [by destruct s|]. by rewrite IH. Qed.
Lemma store_entries s : destroyedStore s ⊆ dom (diffChangeStore s) -> foldl store_in NewAccountDiffs (diff_entries s) = s.
Proof.
  intros Hd. unfold diff_entries. rewrite foldl_app, store_changes. destruct (range_ids (destroyedStore s)) as (_ & R2 & _). destruct (store_destroyed (range_of (gset_to_gmap tt (destroyedStore s))).*1 NewAccountDiffs) as [D1 D2]. rewrite D1. destruct s as [dc de]. cbn in *. f_equal.
  - apply map_eq. intros k. rewrite foldl_insert_range. destruct (dc !! k) as [d|] eqn:E; [done|]. rewrite D2. destruct (decide _) as [Hin|]; [|by rewrite lookup_empty]. exfalso. apply R2 in Hin. apply Hd, elem_of_dom in Hin as [? ?]. congruence.
  - apply set_eq. intros k. rewrite elem_of_union, elem_of_list_to_set, R2. set_solver.
Qed.
(** ** Rolling back *)
Lemma rollback_diff_id d a a' : rollback_diff d a = Some a' -> AccID a' = AccID a.
Proof.
  unfold rollback_diff. repeat (match goal with |- context [decide ?P] => destruct (decide P) end); cbn; repeat (match goal with |- context [SafeSub Int64 ?x ?y ≫= _] => destruct (SafeSub Int64 x y); cbn; [|done] end); intros [= <-]; done.
Qed.
Lemma rollback_id slots m : forall a w d a', rollback_loop env slots m a w = Some (d, a') -> AccID a' = AccID a.
Proof.
  induction slots as [|slot slots IH]; intros a w d a'; cbn [rollback_loop]; [by intros [= _ <-]|]. destruct (slotDiff env slot m) as [s|]; [|done]. cbn. destruct (Has (AccID a) s); cbn; [|by apply IH]. destruct (Load (AccID a) s) as [[x b]|]; [|done]. cbn. destruct (rollback_diff x a) as [a1|] eqn:E; [|done]. cbn. intros Hr. apply IH in Hr. rewrite Hr. by eapply rollback_diff_id.
Qed.
Lemma rollback_forgets slots m a t a' : rollback_loop env slots m a false = Some (true, a') -> rollback_loop env slots m (WithCredits (mkCredits (Value (Credits a)) t) a) false = Some (true, a').
Proof.
  induction slots as [|slot slots IH]; cbn [rollback_loop]; [done|]. destruct (slotDiff env slot m) as [s|]; [|done]. cbn. change (AccID (WithCredits _ a)) with (AccID a). destruct (Has (AccID a) s); cbn; [|by apply IH]. destruct (Load (AccID a) s) as [[x b]|]; [|done]. cbn. done.
Qed.
Lemma rollback_untouched slots m a w : (forall slot, slot ∈ slots -> exists s, slotDiff env slot m = Some s /\ Has (AccID a) s = false) -> rollback_loop env slots m a w = Some (w, a).
Proof. induction slots as [|slot slots IH]; intros Hs; cbn [rollback_loop]; [done|]. destruct (Hs slot) as (s & -> & Hn); [set_solver|]. cbn. rewrite Hn. cbn. apply IH. intros. apply Hs. set_solver. Qed.
Lemma rolled_ids target m flag l accs : Forall2 (rolled target m flag) l accs -> AccID <$> accs = AccID <$> l.
Proof. induction 1 as [|a a' l accs (d & Hr & _) _ IH]; [done|]. cbn. f_equal; [by eapply rollback_id|done]. Qed.
Lemma restored_tree l : forall m0, NoDup (AccID <$> l) -> (forall a, a ∈ l -> accountsTree (foldl (fun m' a => set_account a m') m0 l) !! AccID a = Some a) /\ (forall id, id ∉ AccID <$> l -> accountsTree (foldl (fun m' a => set_account a m') m0 l) !! id = accountsTree m0 !! id) /\
  slotDiffs (foldl (fun m' a => set_account a m') m0 l) = slotDiffs m0.
Proof.
  induction l as [|x l IH]; intros m0 Hnd; cbn [foldl]; [split_and!; [set_solver|done|done]|]. cbn in Hnd. apply NoDup_cons in Hnd as [Hx Hnd]. destruct (IH (set_account x m0) Hnd) as (H1 & H2 & H3). split_and!; [| |by rewrite H3].
  - intros a [->|Ha]%elem_of_cons; [|by apply H1]. rewrite H2 by done. cbn. by rewrite lookup_insert_eq.
  - intros id Hid. cbn in Hid. rewrite H2 by set_solver. cbn. rewrite lookup_insert_ne by set_solver. done.
Qed.
(** The slots since the target slot. *)
Definition since (target : SlotIndex) (m : Manager) : list SlotIndex := slots_down (latestCommittedSlot m) target.
(** Account IDs are not used again: an account is destroyed once and is then not in the tree; an account with a diff is in the tree or was destroyed; a destroyed account has a diff. *)
Record history (target : SlotIndex) (m : Manager) : Prop := {
  h_tree : forall id a, accountsTree m !! id = Some a -> AccID a = id;
  h_gone : forall slot id, slot ∈ since target m -> id ∈ destroyed_at m slot -> accountsTree m !! id = None;
  h_once : forall i j id, i ∈ since target m -> j ∈ since target m -> id ∈ destroyed_at m i -> id ∈ destroyed_at m j -> i = j;
  h_diffs : forall slot s id, slot ∈ since target m -> slotDiff env slot m = Some s -> Has id s = true -> is_Some (accountsTree m !! id) \/ Exists (fun slot => id ∈ destroyed_at m slot) (since target m);
  h_stored : forall slot s, slotDiff env slot m = Some s -> destroyedStore s ⊆ dom (diffChangeStore s);
}.
(** Everything that is written can be encoded. *)
Record encodable (target : SlotIndex) (m : Manager) : Prop := {
  e_accounts : forall id a, account env id target m = Some (Some a) -> account_data_ok a;
  e_slots : Forall (slot_ok m) (diff_slots env target) /\ Z.of_nat (length (diff_slots env target)) < 2 ^ 64;
  e_size : Z.of_nat (size (accountsTree m)) + zsum (fun slot => Z.of_nat (size (destroyed_at m slot))) (since target m) < 2 ^ 64;
}.
(** What the exporting ledger answers for the target slot. *)
Lemma account_at target m id : target <= latestCommittedSlot m <= u32 (target + MaxCommittableAge env target) ->
  account env id target m = '(wasDestroyed, a) ← rollbackAccountTo env target m (default (WithCredits (NewBlockIssuanceCredits 0 target) (NewAccountData id)) (accountsTree m !! id)); Some (if is_none (accountsTree m !! id) && negb wasDestroyed then None else Some a).
Proof.
  intros Ht. unfold account. destruct (Z.ltb_spec (u32 (target + MaxCommittableAge env target)) (latestCommittedSlot m)) as [|_]; [lia|]. rewrite andb_false_r. destruct (Z.ltb_spec (latestCommittedSlot m) target); [lia|]. done.
Qed.
Lemma slots_down_NoDup latest target : NoDup (slots_down latest target).
Proof. unfold slots_down. rewrite reverse_Permutation. apply NoDup_seqZ. Qed.
Lemma Forall2_in_l {X Y} (R : X -> Y -> Prop) l k x : Forall2 R l k -> x ∈ l -> exists y, y ∈ k /\ R x y.
Proof. induction 1 as [|x' y l k HR _ IH]; [set_solver|]. intros [->|Hx]%elem_of_cons; [exists y; set_solver|]. destruct (IH Hx) as (z & ? & ?). exists z. set_solver. Qed.
Lemma Forall2_in_r {X Y} (R : X -> Y -> Prop) l k y : Forall2 R l k -> y ∈ k -> exists x, x ∈ l /\ R x y.
Proof. induction 1 as [|x y' l k HR _ IH]; [set_solver|]. intros [->|Hy]%elem_of_cons; [exists x; set_solver|]. destruct (IH Hy) as (z & ? & ?). exists z. set_solver. Qed.
Lemma in_range_values {V} (x : gmap AccountID V) v : v ∈ (range_of x).*2 <-> exists id, x !! id = Some v.
Proof. rewrite (range_of_perm x), list_elem_of_fmap. split; [intros ([k v'] & -> & Hk); exists k; by apply elem_of_map_to_list|intros (k & Hk); exists (k, v); split; [done|by apply elem_of_map_to_list]]. Qed.
Lemma range_keys {V} (x : gmap AccountID V) : NoDup (range_of x).*1 /\ (forall id, id ∈ (range_of x).*1 <-> is_Some (x !! id)).
Proof.
  pose proof (range_of_perm x) as Hp. split; [rewrite Hp; apply NoDup_fst_map_to_list|]. intros id. rewrite Hp, list_elem_of_fmap. split; [intros ([k v] & -> & Hk); exists v; by apply elem_of_map_to_list|intros [v Hv]; exists (id, v); split; [done|by apply elem_of_map_to_list]].
Qed.
Lemma range_values_ids (x : gmap AccountID AccountData) : (forall id a, x !! id = Some a -> AccID a = id) -> AccID <$> (range_of x).*2 = (range_of x).*1.
Proof.
  intros Hx. assert (Hl : forall l : list (AccountID * AccountData), (forall e, e ∈ l -> AccID e.2 = e.1) -> AccID <$> l.*2 = l.*1) by (intros l; induction l as [|e l IH]; intros Hl; cbn; [done|]; f_equal; [apply Hl; set_solver|apply IH; set_solver]).
  apply Hl. intros [k v] Hin. rewrite (range_of_perm x) in Hin. apply elem_of_map_to_list in Hin. by apply Hx.
Qed.
Section Agreement.
Context (target : SlotIndex) (m : Manager) (ds : gmap AccountID AccountData) (accs recs : list AccountData) (m0 : Manager).
Context (Hwindow : target <= latestCommittedSlot m <= u32 (target + MaxCommittableAge env target)) (Hh : history target m).
Context (Hds : forall id, ds !! id = if decide (Exists (fun slot => id ∈ destroyed_at m slot) (since target m)) then Some (NewAccountData id) else None) (Hopen : forall slot, slot ∈ since target m -> is_Some (slotDiff env slot m)).
Context (Haccs : Forall2 (rolled target m None) (range_of (accountsTree m)).*2 accs) (Hrecs : Forall2 (rolled target m (Some true)) (range_of ds).*2 recs) (Hm0 : accountsTree m0 = ∅).
Lemma ds_id id a : ds !! id = Some a -> AccID a = id /\ a = NewAccountData id /\ accountsTree m !! id = None.
Proof. rewrite Hds. destruct (decide _) as [He|]; [|done]. intros [= <-]. apply Exists_exists in He as (slot & H1 & H2). split_and!; [done|done|]. by eapply h_gone. Qed.
Lemma written_NoDup : NoDup (AccID <$> accs ++ recs).
Proof.
  rewrite fmap_app, (rolled_ids _ _ _ _ _ Haccs), (rolled_ids _ _ _ _ _ Hrecs). rewrite (range_values_ids (accountsTree m) (h_tree target m Hh)), (range_values_ids ds) by (intros ? ? Hx; exact (proj1 (ds_id _ _ Hx))).
  destruct (range_keys (accountsTree m)) as [K1 K2], (range_keys ds) as [L1 L2]. apply NoDup_app. split_and!; [done| |done]. intros id [a Ha]%K2 [b Hb]%L2. apply ds_id in Hb as (_ & _ & Hb). congruence.
Qed.
Lemma written_agrees id : account env id target m = Some (accountsTree (foldl (fun m' a => set_account a m') m0 (accs ++ recs)) !! id).
Proof.
  rewrite account_at by done. destruct (restored_tree (accs ++ recs) m0 written_NoDup) as (T1 & T2 & _). destruct (accountsTree m !! id) as [a|] eqn:Ea; cbn [from_option Datatypes.id is_none andb].
  - destruct (Forall2_in_l _ _ _ a Haccs) as (a' & Ha' & d & Hr & _); [apply in_range_values; eauto|]. rewrite Hr. cbn. f_equal. rewrite <- (T1 a') by set_solver. f_equal. unfold rollbackAccountTo in Hr. rewrite (rollback_id _ _ _ _ _ _ Hr). by apply (h_tree target m Hh).
  - destruct (ds !! id) as [x|] eqn:Ed.
    + destruct (ds_id id x Ed) as (_ & -> & _). destruct (Forall2_in_l _ _ _ (NewAccountData id) Hrecs) as (a' & Ha' & d & Hr & Hd); [apply in_range_values; eauto|]. rewrite (Hd true eq_refl) in Hr. unfold rollbackAccountTo in *.
      pose proof (rollback_forgets _ _ _ target _ Hr) as Hf. change (WithCredits (mkCredits (Value (Credits (NewAccountData id))) target) (NewAccountData id)) with (WithCredits (NewBlockIssuanceCredits 0 target) (NewAccountData id)) in Hf. rewrite Hf. cbn. f_equal. rewrite <- (T1 a') by set_solver. f_equal. by rewrite (rollback_id _ _ _ _ _ _ Hr).
    + assert (Hn : ~ Exists (fun slot => id ∈ destroyed_at m slot) (since target m)) by (intros He; rewrite Hds in Ed; by rewrite decide_True in Ed). unfold rollbackAccountTo. rewrite rollback_untouched; [cbn; f_equal; symmetry; rewrite T2, Hm0; [apply lookup_empty|]|].
      * rewrite fmap_app, (rolled_ids _ _ _ _ _ Haccs), (rolled_ids _ _ _ _ _ Hrecs). rewrite (range_values_ids (accountsTree m) (h_tree target m Hh)), (range_values_ids ds) by (intros ? ? Hx; exact (proj1 (ds_id _ _ Hx))).
        destruct (range_keys (accountsTree m)) as [_ K2], (range_keys ds) as [_ L2]. intros [[? ?]%K2|[? ?]%L2]%elem_of_app; congruence.
      * intros slot Hs. destruct (Hopen slot Hs) as [s Es]. exists s. split; [done|]. change (AccID (WithCredits _ _)) with id. destruct (Has id s) eqn:Eh; [|done]. destruct (h_diffs target m Hh slot s id Hs Es Eh) as [[? ?]|?]; [congruence|done].
Qed.
Lemma written_ok : encodable target m -> Forall account_data_ok (accs ++ recs).
Proof.
  intros He. apply Forall_forall. intros a Ha. apply (e_accounts target m He (AccID a)). rewrite written_agrees. destruct (restored_tree (accs ++ recs) m0 written_NoDup) as (T1 & _ & _). by rewrite T1.
Qed.
End Agreement.
(** C35 Importing what was exported for a slot into an empty ledger consumes it exactly; the imported tree has exactly the accounts the exporting ledger answers for that slot, also those destroyed since, and the diffs of the slots before it are the same. *)
Theorem accounts_snapshot_restores target m pre w m0 : target <= latestCommittedSlot m <= u32 (target + MaxCommittableAge env target) -> history target m -> encodable target m ->
  accountsTree m0 = ∅ -> slotDiffs m0 = ∅ -> Export env target m (mkWriter pre (length pre)) = Ret (Some w) ->
  exists e m', contents w = pre ++ e /\ (forall rest, Import env (m0, e ++ rest) = Ret (Some tt, (m', rest))) /\ (forall id, account env id target m = Some (accountsTree m' !! id)) /\
    (forall slot, slot ∈ diff_slots env target -> pruned env slot = false -> default NewAccountDiffs (slotDiffs m' !! slot) = default NewAccountDiffs (slotDiffs m !! slot)).
Proof.
  intros Hw Hh He Ht0 Hd0 Hexp. pose proof (e_slots target m He) as [Hslots Hns]. pose proof (e_size target m He) as Hsz. assert (Hpos : 0 <= zsum (fun slot => Z.of_nat (size (destroyed_at m slot))) (since target m)) by (generalize (since target m); intros l; induction l; cbn; lia).
  apply Export_written in Hexp as (ds & nD & accs & recs & Hc & Haccs & Hrecs & ->); [|split_and!; [lia|done|]; intros slot Hs; by apply (Forall_forall _ _) with (x := slot) in Hslots as (_ & ? & _)].
  apply collect_destroyed_exact in Hc as ((HnD & HnD') & Hds & Hopen); [|apply slots_down_NoDup|apply (h_once target m Hh)|unfold since in *; lia]. fold (since target m) in HnD', Hds, Hopen.
  assert (Hlr : length recs = size ds) by (rewrite <- (Forall2_length _ _ _ Hrecs); apply range_of_length). assert (Hla : length accs = size (accountsTree m)) by (rewrite <- (Forall2_length _ _ _ Haccs); apply range_of_length).
  assert (Hn : u64 (Z.of_nat (length accs) + nD) = Z.of_nat (length (accs ++ recs))) by (rewrite length_app, HnD, Hlr; rewrite (wrap_id Uint64) by (unfold in_range; cbn; lia); lia). rewrite Hn.
  pose proof (written_agrees target m ds accs recs m0 Hw Hh Hds Hopen Haccs Hrecs Ht0) as Hag. pose proof (written_ok target m ds accs recs m0 Hw Hh Hds Hopen Haccs Hrecs Ht0 He) as Hok.
  destruct (restored_tree (accs ++ recs) m0 (written_NoDup target m ds accs recs Hh Hds Haccs Hrecs)) as (_ & _ & T3).
  assert (Hnd : NoDup (diff_slots env target)) by apply NoDup_seqZ. destruct (restored_slots m (diff_slots env target) (foldl (fun m' a => set_account a m') m0 (accs ++ recs)) Hnd) as (R1 & R2 & _).
  eexists _, (restored m (accs ++ recs) (diff_slots env target) m0). split; [reflexivity|]. split_and!.
  - exact (reads_Import m (accs ++ recs) (diff_slots env target) m0 Hok ltac:(rewrite length_app; lia) Hns Hslots).
  - intros id. unfold restored. rewrite R1. apply Hag.
  - intros slot Hs Hp. unfold restored. rewrite R2; [|done|by rewrite T3, Hd0, lookup_empty]. rewrite store_fold_in. cbn [slotDiffs with_slotDiffs]. rewrite lookup_empty. cbn [default]. unfold slot_entries, slotDiff. rewrite Hp. apply store_entries. apply (h_stored target m Hh slot). unfold slotDiff. by rewrite Hp.
Qed.
End Written.

(** ** Witnesses *)
Module AccountsSnapshotDemo.
#[local] Existing Instance AccountBytes.Demo.demo_layout.
#[local] Existing Instance AccountBytes.Demo.demo_layout_spec.
#[local] Instance demo_ids : RangeOrder AccountID := canonical_order AccountID.
Definition env : AEnv := mkAEnv (fun _ => 10) (fun _ => 1) (fun _ => 1) (fun _ => 10) (fun _ x _ _ => Some x) (fun _ _ _ _ => Some 1) (fun _ => false) (fun _ => None) (fun _ => mkSignaledBlock 0 0 0 0).
(** Account 7 got 5 credits in slot 5 and 3 in slot 6, when account 8 was destroyed. *)
Definition acc7 : AccountData := WithCredits (mkCredits 8 6) (NewAccountData 7).
Definition plus (n t : Z) : AccountDiff := with_BICChange n (mkAccountDiff 0 t 0 0 0 0 ∅ ∅ 0 0 0 0 noVersionAndHash noVersionAndHash).
Definition gone8 : AccountDiff := mkAccountDiff (-20) 2 0 30 0 99 ∅ ∅ 0 0 0 0 noVersionAndHash noVersionAndHash.
Definition ledger : Manager := mkManager ∅ ∅ 6 {[7 := acc7]} {[5 := mkAccountDiffs {[7 := plus 5 0]} ∅; 6 := mkAccountDiffs {[7 := plus 3 5; 8 := gone8]} {[8]}]}.
Definition written : outcome (option WriteSeeker) := Export env 5 ledger (mkWriter [] 0).
Definition file : bytes := match written with Ret (Some w) => contents w | _ => [] end.
Lemma written_eq : written = Ret (Some (mkWriter file (length file))).
Proof. vm_compute. reflexivity. Qed.
Lemma demo_history : history env 5 ledger.
Proof.
  constructor; change (since 5 ledger) with [6].
  - intros id a Ha. change (accountsTree ledger) with ({[7 := acc7]} : gmap AccountID AccountData) in Ha. apply lookup_singleton_Some in Ha as [<- <-]. done.
  - intros slot id ->%list_elem_of_singleton. change (destroyed_at env ledger 6) with ({[8]} : gset AccountID). intros ->%elem_of_singleton. done.
  - intros i j id ->%list_elem_of_singleton ->%list_elem_of_singleton. done.
  - intros slot s id ->%list_elem_of_singleton. change (slotDiff env 6 ledger) with (Some (mkAccountDiffs {[7 := plus 3 5; 8 := gone8]} {[8]})). intros [= <-]. unfold Has. intros [x Hx]%bool_decide_eq_true. cbn [diffChangeStore] in Hx. apply lookup_insert_Some in Hx as [[<- _]|[_ Hx]]; [left; by eexists|]. apply lookup_singleton_Some in Hx as [<- _]. right. constructor. change (8 ∈ ({[8]} : gset AccountID)). set_solver.
  - intros slot s. unfold slotDiff. cbn [pruned env]. intros [= <-]. cbn [slotDiffs ledger]. destruct (decide (slot = 5)) as [->|H5]; [done|]. rewrite lookup_insert_ne by done. destruct (decide (slot = 6)) as [->|H6]; [|rewrite lookup_singleton_ne by done; done].
    rewrite lookup_singleton_eq. cbn. set_solver.
Qed.
Lemma demo_account id a : account env id 5 ledger = Some (Some a) -> a = WithCredits (mkCredits 5 5) (NewAccountData 7) \/ a = mkAccountData 8 (mkCredits 20 2) 30 99 ∅ 0 0 0 0 noVersionAndHash.
Proof.
  destruct (decide (id = 7)) as [->|H7]; [intros E; left; vm_compute in E; injection E as <-; vm_compute; reflexivity|]. destruct (decide (id = 8)) as [->|H8]; [intros E; right; vm_compute in E; injection E as <-; vm_compute; reflexivity|].
  rewrite account_at by (vm_compute; split; discriminate). unfold rollbackAccountTo. change (accountsTree ledger) with ({[7 := acc7]} : gmap AccountID AccountData). rewrite lookup_singleton_ne by done. cbn [from_option]. rewrite rollback_untouched; [done|].
  intros slot Hs. change (slots_down (latestCommittedSlot ledger) 5) with [6] in Hs. apply list_elem_of_singleton in Hs as ->. eexists. split; [reflexivity|]. unfold Has. apply bool_decide_eq_false. cbn [diffChangeStore slotDiffs ledger]. change (AccID _) with id.
  change (default NewAccountDiffs _) with (mkAccountDiffs {[7 := plus 3 5; 8 := gone8]} {[8]}). cbn [diffChangeStore]. rewrite lookup_insert_ne, lookup_singleton_ne by done. intros [? ?]. done.
Qed.
Lemma demo_encodable : encodable env 5 ledger.
Proof.
  constructor.
  - intros id a [-> | ->]%demo_account; repeat split; try (apply (bool_decide_unpack _); vm_compute; exact I); exact (set_Forall_empty key_ok).
  - split; [|vm_compute; reflexivity]. assert (Hrest : forall slot, 0 < slot < 5 -> slot_ok env ledger slot) by (intros slot Hs; split_and!; [unfold in_range; cbn; lia| |]; unfold slot_entries, slotDiff; cbn [pruned env slotDiffs ledger]; rewrite lookup_insert_ne, lookup_singleton_ne by lia; cbn; [done|constructor]).
    assert (H5 : slot_ok env ledger 5).
    { split_and!; [unfold in_range; cbn; lia|vm_compute; reflexivity|]. change (slot_entries env ledger 5) with [(7, Some (plus 5 0))]. constructor; [|constructor]. split; [apply (bool_decide_unpack _); vm_compute; exact I|]. intros d [= <-]. repeat split; apply (bool_decide_unpack _); vm_compute; exact I. }
    apply Forall_forall. intros slot Hs. unfold diff_slots in Hs. apply elem_of_seqZ in Hs. change (first_slot env 5) with 1 in Hs. destruct (decide (slot = 5)) as [->|]; [exact H5|apply Hrest; lia].
  - vm_compute. reflexivity.
Qed.
(** The account that was destroyed in slot 6 is in the snapshot of slot 5, and account 7 as it was then. *)
Lemma accounts_snapshot_restores_witness : written = Ret (Some (mkWriter file (length file))) /\ exists m', (forall rest, Import env (New, file ++ rest) = Ret (Some tt, (m', rest))) /\ Credits <$> accountsTree m' !! 8 = Some (mkCredits 20 2) /\ Credits <$> accountsTree m' !! 7 = Some (mkCredits 5 5).
Proof.
  split; [exact written_eq|]. destruct (accounts_snapshot_restores env 5 ledger [] (mkWriter file (length file)) New ltac:(vm_compute; split; discriminate) demo_history demo_encodable eq_refl eq_refl written_eq) as (e & m' & He & Hi & Ha & _).
  cbn [contents app] in He. subst e. exists m'. split; [exact Hi|]. assert (E7 : account env 7 5 ledger = Some (Some (WithCredits (mkCredits 5 5) (NewAccountData 7)))) by (vm_compute; reflexivity). assert (E8 : account env 8 5 ledger = Some (Some (mkAccountData 8 (mkCredits 20 2) 30 99 ∅ 0 0 0 0 noVersionAndHash))) by (vm_compute; reflexivity).
  rewrite Ha in E7, E8. injection E7 as ->. injection E8 as ->. split; reflexivity.
Defined.
End AccountsSnapshotDemo.
